(* ===== verification/_CoqProject ===== *)
-Q . S2P
Prelude.v
Text.v
Capacity.v
Js.v
Cohort.v
Numeric.v
Metering.v
MeteringFacts.v
MeteringInv.v
MeteringTheorems.v
MeteringHandover.v
Lifecycle.v
Billing.v
Fleet.v
Scheduler.v
MachineRepo.v
ForkRepo.v
ReconcileDb.v
FleetInv.v
FleetSteps.v
FleetHard.v
FleetForks.v
FleetStep.v
FleetKeys.v
SchedulerTheorems.v
FleetTheorems.v
ForkTheorems.v
NetworkPolicy.v
NetworkTheorems.v
Tables.v
UsageOutbox.v
System.v
SystemInv.v
SystemSteps.v
SystemTheorems.v
RateWindow.v
StreamAdmission.v
StreamTheorems.v
Identity.v
ApiKeys.v
Device.v
DeviceTokens.v
IdentityLifecycle.v
LoginMachine.v
IdentityStep.v
KeyMachine.v
SyncMachine.v
IdentityProcedures.v
LoginTheorems.v
KeyTheorems.v
SyncTheorems.v
Volumes.v
VolumeInv.v
VolumeTheorems.v
Awaiting.v
ApiAdmission.v
ApiTheorems.v
HostAdmission.v
AuditLog.v
HttpAuth.v
Router.v
Gateway.v
VolumeService.v
VolumeLogic.v
VolumeServiceTheorems.v
Templates.v
TemplateTheorems.v
Projects.v
Stripe.v
HostCredentials.v
Hosts.v
HostService.v
HostSteps.v
HostTheorems.v
MachineService.v
Reconciler.v
ServiceLogic.v
ServiceProofs.v
ServiceTheorems.v
ReconcilerTheorems.v
