(* ===== verification/Prelude.v ===== *)
(** * Verification of the Nehemiah control plane

    Nehemiah rents machines.  Its control plane, the TypeScript service under
    src/apps/nehemiah/src, keeps the state of the fleet in PostgreSQL and drives
    host daemons over HTTP.  This library models the part that decides: who gets
    capacity, what a machine's row may do, what is billed, and what happens when
    transactions of clients, reconcilers and hosts interleave.  Paths below are
    relative to src/apps/nehemiah/src.

    ** The parts and how they interact

    - [Capacity] (scheduler/capacity.ts, scheduler/placement.ts): the resource
      vector every other part uses, its validation and the in-memory best fit.
    - [Cohort] (domain/runtime-cohort.ts), over the JSON values of [Js]: the
      runtime cohort a host advertises, its canonical form and digest.
    - [Metering] (billing/metering.ts): the transaction that ingests a host's
      usage batch, from admission to the two ledgers.
    - [Billing] (billing/rates.ts, billing/admission.ts): the exact decimal
      prices and the spend-cap decision.
    - [Stripe] (billing/stripe.ts): the webhooks that decide which organizations
      are delinquent, which billing admission reads.
    - [Lifecycle] (db/schema.ts): the machine states.
    - [Fleet]: the tables the scheduler, the repository and the reconciler
      share, as one record [FleetDb].
    - [Scheduler] (scheduler/scheduler.ts): reserving and releasing capacity.
    - [MachineRepo], [ForkRepo] (domain/machines.ts, the class
      PostgresMachineRepository): one definition per method, single machines in
      the first file and fork operations in the second.
    - [ReconcileDb] (jobs/reconcile-machines.ts): the transactions of the
      reconciler on machines; [Reconciler] its procedures, which combine them with
      host calls, metering and the usage producer.
    - [MachineService] (domain/machines.ts, the class MachineService, and
      jobs/reap-expired-machines.ts), over the procedures [Service]: the
      procedures that call the scheduler, the repository and the hosts.
    - [NetworkPolicy] (domain/network-policy.ts), over the string functions of
      [Js]: egress declarations and the decisions of the policy.
    - [Numeric]: the binary64 arithmetic of the usage ledger's quantities and the
      rounding of the database's [numeric] columns and divisions.
    - [Tables]: the one database behind [FleetDb] and the tables of metering;
      [load] and [store] are the columns the two share.
    - [UsageOutbox] (jobs/reconcile-machines.ts, billing/usage.ts): the producer
      that bills machines without a meter by intervals, and its ledger.
    - [System]: every transaction above as a step of [Tables].
    - [StreamAdmission] (domain/stream-admission.ts), over the request windows
      of [RateWindow]: route requests and the leases of gateway streams.
    - [Identity]: the tables of users, organizations, credentials and audit, with
      the triggers that revoke what depends on them.  Over them [ApiKeys]
      (auth/api-key.ts), [Device] and [DeviceTokens] (auth/device.ts,
      jobs/reap-expired-device-authorizations.ts,
      jobs/reap-expired-gateway-grants.ts) and [IdentityLifecycle]
      (domain/identity-lifecycle.ts, domain/organizations.ts).
    - [Volumes] (domain/volumes.ts, the class PostgresVolumeRepository): the
      storage allocated to tenants, write reservations and the deletion outbox.
      [VolumeService] is the class VolumeService and the worker of
      jobs/schedule-volume-deletions.ts, over any object store.
    - [Hosts] (domain/hosts.ts): enrollment grants, registration, heartbeats and
      the lifecycle of hosts, one definition per statement; [fleet_row] is what
      the scheduler sees of a host.  [HostService] is the class HostService and
      [HostCredentials] (domain/host-credentials.ts) the envelope of host tokens.
    - [Templates] (domain/templates.ts, jobs/replicate-template.ts): publication
      of templates and the replication of their artifacts to hosts.
    - [Projects] (domain/projects.ts and the triggers of
      db/migrations/0035_project_allocation_bounds.sql).
    - [ApiAdmission] (auth/api-admission.ts, http/client-identity.ts,
      http/incoming-request.ts): request windows of the API, bodies being read.
      [HostAdmission] (auth/host-admission.ts) bounds the
      checks of host credentials, [HttpAuth] (http/auth.ts, auth/clerk.ts) turns
      a request into a principal and [AuditLog] (audit/audit.ts) records what it
      does, over any tables that hold the audit log.
    - [Router] (http/router.ts, requestId and safeLogRecord of
      telemetry.ts): which handler a request reaches, with which
      parameters, and what an error answers and logs.
    - [Gateway] (auth/capability.ts, the session routes of routes/machines.ts and
      the routing route of routes/internal-hosts.ts): the sessions through which
      clients reach machines, over the tables of [Identity] and [Fleet].
    - [Awaiting]: the frame of every procedure that awaits statements and calls
      other programs; the services and jobs above use it.

    The scheduler asks billing through the interface [Billing.BillingAdmission]:
    [admits] decides, and a smaller commitment is admitted whenever a larger one
    is.  [Fleet.fleet_billing] is the policy as an instance of it; every theorem
    about the fleet is proved against the interface.

    ** How code becomes definitions

    - A transaction is a [Tx]: a function from the tables to a value and new
      tables, or an error.  An error carries no tables because [Database.transaction]
      rolls back (db/client.ts, [transaction] below).  Rows locked by the
      transaction need no representation, since a transaction is one step;
      [FOR UPDATE SKIP LOCKED] is an argument [locked], the rows others hold.
    - A table whose rows are found by key is a [gmap]; one whose order or
      duplicates matter is a list.  [UPDATE ... WHERE] on a missing row changes
      nothing ([alter]), [INSERT ... ON CONFLICT DO NOTHING] is [insert_new], and
      the unique keys the code relies on make the insert fail.  CHECK and foreign
      key constraints are modelled in [Projects], whose theorems use them, and the
      references of a template's replicas in [Templates], where they are checked
      later than the rows are selected.
    - A statement that reads without a lock what a later one relies on takes the
      database it saw as an argument ([seen]), and what others commit in between
      is another ([ApiKeys], [Device], [DeviceTokens], [Stripe]) or a turn of the
      schedule ([Templates], [VolumeService], [MachineService]).
    - Times are milliseconds since the epoch in [Z], nanosecond counters are
      [Z].  [now] is the clock of the transaction, [clock] the clock of the
      process, and every random identifier is an argument.  An instant inside a
      key is its decimal text ([toISOString]), which is as injective as ISO 8601
      and, like it, read back by position.
    - JavaScript numbers that the code checks are [number]; bigints and
      SQL numerics are exact.  The usage ledger computes quantities in double
      precision and stores them in [numeric(30, 9)] columns; both roundings are
      those of [Numeric].  Regular expressions are [Text.re], matched by
      derivatives.  A [uuid] column reads any case and prints lower case
      ([uuid_text]).
    - SHA-256, [Date.parse] and [localeCompare] are arguments of the definitions
      that call them; a theorem that needs more than their type says what.
    - Truthiness tests on nullable columns are [truthy]: null and the empty
      string fail.

    ** Steps of the whole system

    [FleetStep.Command] has one constructor per transaction, [exec] runs it and
    [commit] keeps the old tables when it throws.  [fleet_step] is a command
    whose arguments its callers can produce ([permitted]) or a change by code
    outside these files to tables the fleet only reads ([environment]: hosts,
    templates, tenants, billing).  The theorems of [FleetTheorems] hold for every
    [fleet_steps], that is any interleaving of transactions of any callers.
    [FleetInv] states the invariant, [FleetSteps], [FleetHard] and [FleetForks]
    show each operation preserves it, [FleetStep] also defines the preorder in
    which rows only move forward, [FleetKeys] the uniqueness of idempotency keys
    and the run used by the witnesses.

    A method that awaits is a [Service] procedure: between two statements the
    schedule says what the rest of the system did ([turn]), what a host answered
    and whether the answer of a statement was lost.  [ServiceLogic] is a small
    program logic for them: [post] relates the tables at the call to those at the
    return, for assertions that survive the steps of others.

    [ReconcilerTheorems] has the same logic over [Tables] ([moves]), with steps of
    [System] for steps of the fleet.

    [System.system_step] puts metering and the usage producer beside the fleet.
    [MeteringHandover] says what a metering transaction does to the intervals of
    each machine, [FleetKeys] what the fleet's transactions leave alone,
    [UsageOutbox] what one interval records; [SystemInv] states the invariant and
    [SystemSteps] shows that every step keeps it, as long as machine identifiers
    hold no colon, which separates the parts of keys.  The same file has a
    run.

    [IdentityStep.identity_step] has one constructor per transaction on the
    identity tables.  [LoginMachine] is an abstract machine of device logins with
    seven moves, and every step is a run of it ([IdentityStep.step_moves]);
    [KeyMachine] and [SyncMachine] do the same for keys and provider events.
    [IdentityProcedures] shows that every method of the services moves the tables
    by steps, states what is reachable, and ends with a run.

    [VolumeInv.volume_step] has one constructor per transaction on the volume
    tables; each is a run of the moves of single rows that keep [volume_inv].
    [VolumeLogic] shows that every procedure of the volume service moves the
    tables by steps and asks the store only for deletions that are due;
    [VolumeInv] ends with a run.

    [HostSteps.host_step] has one constructor per transaction of the host service,
    one for metering, which quarantines the host of an anomalous report, and one
    for the scheduler, which reserves capacity on the rows; [record_move] is what a
    step does to one row, [record_le] what persists, [host_db_ok] the invariant;
    the file ends with a run.

    ** What is shown

    - [FleetTheorems]: reserved capacity is the sum over unreleased machines, a
      fork's children appear and disappear together, machines only move forward,
      idempotency keys name one machine or fork.
    - [SchedulerTheorems]: a reservation stays within capacity and quotas, takes
      the best host, and is granted whenever a host is free.
    - [ForkTheorems]: what beginning, completing and failing a
      fork change, replays, and the target and result of an extension.
    - [MeteringTheorems], on the invariant of [MeteringInv] and the lemmas of
      [MeteringFacts]: the ledger never bills more than the accepted counters
      defend, an accepted observation is billed exactly and once, a closed meter
      is never charged, replays charge nothing, conflicts and anomalies
      quarantine, the midnight split is a partition, the drain loop ends.
    - [SystemTheorems]: the system refines the fleet; a machine without a meter
      is billed by one chain of intervals and recorded exactly once, however
      deliveries are retried, up to the rounding of each row; a meter that starts
      ends the chain for good, and both ledgers together charge no more time than
      the intervals and the host's counter cover.
    - [ServiceTheorems], by [ServiceProofs]: the services move
      the tables only by steps of the fleet, an answer belongs to its request,
      and two races the code has.
    - [ReconcilerTheorems]: a run of the reconciler moves the tables only by steps
      of the system, and a machine whose reconciliation returns is accounted for.
    - [TemplateTheorems]: a replica is ready only after its host verified it,
      claims of the queue are exclusive, a published template is stored, a failed
      publication deletes its object, the case in which it should not, and the
      replica that an enqueue leaves behind for a template removed meanwhile.
    - [Projects]: quotas, listing, creation and its replays.
    - [ApiTheorems], [HostAdmission], [HttpAuth], [AuditLog]: requests within their
      windows and pending bodies within their limits, checks of credentials wait for admission, a principal is a verified
      one, what is done is recorded.
    - [Router]: identifiers reach the handlers as the client encoded them, but for
      those that the parsers of URLs take for dot segments, every
      request is answered with its identifier, log values are plain.
    - [Gateway]: a token is handed out only for a granted session and opens the
      route it was asked for, a gateway is told a host only for a session whose
      issuer and machine still permit it, and never again once they do not.
    - [Stripe]: payment events converge in any order, delinquency is an open
      invoice and suspends the organization, deliveries are signed, and the event
      a re-linked account loses.
    - [LoginTheorems]: a login never has more authority than its user approved,
      an access token works only while user, organization and role permit it,
      reuse of a refresh token and disabling the user end a login for good, and
      the race between an exchange and a disable.
    - [KeyTheorems]: key quotas, authentication by live keys only, revocation is
      final, rotation keeps authority, the bounds of the crypto queue.
    - [SyncTheorems]: provider events converge whatever their order, and are
      answered again with the recorded result.
    - [VolumeTheorems], [VolumeServiceTheorems]: storage quotas, creation keys,
      writers that do not overlap while the store does not shrink and what happens
      when it does, capabilities backed by reservations, deletions that are
      durable, wait for the end of the retention and are carried out.
    - [HostTheorems], [HostCredentials]: the transactions of the host service are
      environment steps of the fleet, a host that is shut out stays out, a
      heartbeat speaks for the credential that authenticated it, heartbeats keep
      their cadence, a grant enrolls one host once, the tables are well formed, and
      the envelope of a credential opens to it.
    - [StreamTheorems]: stream quotas at every instant, request windows, a held
      lease is renewed, and an identifier in upper case cannot be renewed.
    - [NetworkTheorems]: denied by default, declarations are stable, hostname
      rules, prefixes.
    - [Billing], [Capacity], [Cohort]: admitted cost is within the cap, exact
      decimal parsing, validation and best fit, the wire form and digest of a
      cohort.  The cost is specified row by row ([Billing.total_cost]), apart from
      the query's terms.

    ** Fuel

    Two loops of metering are not structural.  [drain] gets one unit per stored
    observation and one more, and each iteration consumes a distinct stored
    observation ([MeteringTheorems.ingest_terminates]).  [split_loop] gets a unit
    per UTC day the duration touches
    ([MeteringTheorems.split_exact_partition] covers every duration), and
    [runtime_segments] one per UTC day of the period ([UsageOutbox.segments_total]).
    [Numeric.shortest_decimal] searches the decimal of a double digit by digit;
    seventeen significant ones always read back, and it gets 340 fractional ones.

    ** What is not modelled

    Network and process code: the clients of hosts, object storage and compute
    providers, configuration, migrations, telemetry beyond identifiers of requests
    and values of log records.  Their behaviour is that of the network or of other programs; where
    the modelled code calls them, their answers are arguments.  The HTTP routes
    other than those of sessions parse requests and call the services above; they
    and the OpenAPI document are left out.  The web
    application, the packages (clients of the API), the release scripts and the Go
    programs are not part of the control plane's decisions.  The daily summary of
    jobs/aggregate-usage.ts is derived data in rounded decimals.

    A service that runs work concurrently within one call ([forEachConcurrent],
    [Promise.all]) is modelled as taking the elements in order; since any step may
    happen between two statements, the other workers are among the others. *)

From Stdlib Require Export Ascii String ZArith Lia.
From stdpp Require Export base gmap strings list fin_maps pretty sorting.
Open Scope Z_scope.

(** ** Results and state-passing computations *)

Inductive result (E A : Type) : Type :=
| Ok (a : A)
| Err (e : E).
Arguments Ok {E A} a.
Arguments Err {E A} e.

Definition is_ok {E A} (r : result E A) : bool :=
  match r with Ok _ => true | Err _ => false end.

#[export] Instance result_ret E : MRet (result E) := λ A a, Ok a.
#[export] Instance result_bind E : MBind (result E) :=
  λ A B f r, match r with Ok a => f a | Err e => Err e end.

(** [Tx S E A] is the body of a [Database.transaction] call: it reads and
    writes the tables [S] and either returns a value or throws.  A throw rolls
    the transaction back, so an error carries no state. *)
Definition Tx (S E A : Type) : Type := S → result E (A * S).

#[export] Instance tx_ret S E : MRet (Tx S E) := λ A a s, Ok (a, s).
#[export] Instance tx_bind S E : MBind (Tx S E) :=
  λ A B f m s, match m s with Ok (a, s') => f a s' | Err e => Err e end.

Definition throw {S E A} (e : E) : Tx S E A := λ _, Err e.
Definition gets {S E A} (f : S → A) : Tx S E A := λ s, Ok (f s, s).
Definition modify {S E} (f : S → S) : Tx S E unit := λ s, Ok (tt, f s).
Definition lift_result {S E A} (r : result E A) : Tx S E A :=
  λ s, match r with Ok a => Ok (a, s) | Err e => Err e end.
Definition require {S E} (b : bool) (e : E) : Tx S E unit :=
  if b then mret () else throw e.

(** [Act S E A] is service code outside a transaction: effects made before a
    throw persist. *)
Definition Act (S E A : Type) : Type := S → result E A * S.

#[export] Instance act_ret S E : MRet (Act S E) := λ A a s, (Ok a, s).
#[export] Instance act_bind S E : MBind (Act S E) :=
  λ A B f m s, match m s with
               | (Ok a, s') => f a s'
               | (Err e, s') => (Err e, s')
               end.

Definition athrow {S E A} (e : E) : Act S E A := λ s, (Err e, s).
Definition aget {S E} : Act S E S := λ s, (Ok s, s).
Definition try_catch {S E A} (m : Act S E A) (h : E → Act S E A) : Act S E A :=
  λ s, match m s with
       | (Ok a, s') => (Ok a, s')
       | (Err e, s') => h e s'
       end.

(** [Database.transaction] (src/apps/nehemiah/src/db/client.ts): BEGIN, run the
    callback, COMMIT; on a throw ROLLBACK and rethrow. *)
Definition transaction {S E A} (operation : Tx S E A) : Act S E A :=
  λ s, match operation s with
       | Ok (a, s') => (Ok a, s')
       | Err e => (Err e, s)
       end.

(** ** Record update *)

Class Settable (R : Type) := settable_eta : R → R.
Class Setter {R T : Type} (get : R → T) := set_field : (T → T) → R → R.
Arguments set_field {R T} get {_} _ _ /.

Ltac derive_setter :=
  match goal with
  | |- @Setter ?R ?T ?get =>
      let inst := constr:(_ : Settable R) in
      let e := eval hnf in inst in
      lazymatch eval pattern get in e with
      | ?F _ => exact (λ f : T → T, F (λ r : R, f (get r)))
      end
  end.
#[export] Hint Extern 1 (Setter _) => derive_setter : typeclass_instances.

Notation "r <| get := v |>" := (set_field get (λ _, v) r)
  (at level 1, left associativity, format "r  <| get  :=  v |>").
Notation "r <| get ::= f |>" := (set_field get f r)
  (at level 1, left associativity, format "r  <| get  ::=  f |>").

(** ** JavaScript numbers

    A TypeScript [number] that the code has not validated yet: an integral
    value, or one that [Number.isSafeInteger] rejects because it is not
    integral (a fraction, NaN, an infinity). *)
Inductive number : Type :=
| NInt (z : Z)
| NNonInt.

Definition max_safe_integer : Z := 9007199254740991.

Definition isSafeInteger (n : number) : bool :=
  match n with
  | NInt z => Z.abs z <=? max_safe_integer
  | NNonInt => false
  end.

(** The guard [!Number.isSafeInteger(n) || n < lo || n > hi] negated, returning
    the validated integer. *)
Definition safe_between (lo hi : Z) (n : number) : option Z :=
  match n with
  | NInt z => if isSafeInteger n && (lo <=? z) && (z <=? hi) then Some z else None
  | NNonInt => None
  end.

(** ** Options as SQL NULLs *)

(** [COALESCE(a, b)] *)
Definition coalesce {A} (a b : option A) : option A :=
  match a with Some _ => a | None => b end.

(** A nullable text column in a JavaScript condition: [''] counts as absent. *)
Definition truthy (o : option string) : bool :=
  match o with Some s => negb (String.eqb s "") | None => false end.

(** [Math.max(0, z)] / [GREATEST(0, z)] is [Z.max 0 z]; [ceil_div] is the
    [(a + b - 1) / b] idiom on BigInts and SQL's [CEIL] on positive ratios. *)
Definition ceil_div (a b : Z) : Z := (a + b - 1) / b.

Definition msPerSecond : Z := 1000.
Definition msPerDay : Z := 86400000.

(** ** Sums over lists and finite maps *)

Definition sum_with {A} (f : A → Z) (l : list A) : Z :=
  foldr (λ x acc, f x + acc) 0 l.

Definition map_sum {K A} `{Countable K} (f : A → Z) (m : gmap K A) : Z :=
  sum_with (λ kv, f kv.2) (map_to_list m).

(** ** Append-only tables with a unique key

    [INSERT ... ON CONFLICT (key) DO NOTHING] on a table kept in insertion
    order. *)
Definition has_key {A} (key : A → string) (k : string) (l : list A) : bool :=
  existsb (λ y, String.eqb (key y) k) l.

Definition insert_new {A} (key : A → string) (x : A) (l : list A) : list A :=
  if has_key key (key x) l then l else l ++ [x].

(** * Lemmas *)

Create HintDb nehemiah.
Create Rewrite HintDb nehemiah.

Section sums.
Context {A : Type}.
Implicit Types (f g : A → Z) (l : list A).

Lemma sum_with_app f l1 l2 :
  sum_with f (l1 ++ l2) = sum_with f l1 + sum_with f l2.
Proof. induction l1; simpl; lia. Qed.

Lemma sum_with_ext f g l :
  (∀ x, x ∈ l → f x = g x) → sum_with f l = sum_with g l.
Proof.
  induction l as [|x l IH]; intros Hx; simpl; [done|].
  rewrite Hx, IH; set_solver.
Qed.

Lemma sum_with_nonneg f l :
  (∀ x, x ∈ l → 0 <= f x) → 0 <= sum_with f l.
Proof.
  induction l as [|x l IH]; intros Hx; simpl; [done|].
  assert (0 <= f x) by (apply Hx; set_solver).
  assert (0 <= sum_with f l) by (apply IH; set_solver). lia.
Qed.

Lemma sum_with_elem f l x :
  (∀ y, y ∈ l → 0 <= f y) → x ∈ l → f x <= sum_with f l.
Proof.
  intros Hnn Hx. induction l as [|y l IH]; [set_solver|]. simpl.
  assert (0 <= f y) by (apply Hnn; set_solver).
  assert (0 <= sum_with f l) by (apply sum_with_nonneg; set_solver).
  apply elem_of_cons in Hx as [->|Hx]; [lia|].
  assert (f x <= sum_with f l) by (apply IH; set_solver). lia.
Qed.

Lemma sum_with_perm f l1 l2 : l1 ≡ₚ l2 → sum_with f l1 = sum_with f l2.
Proof. induction 1; simpl; lia. Qed.

Lemma sum_with_mul c f l : sum_with (λ x, c * f x) l = c * sum_with f l.
Proof. induction l; simpl; lia. Qed.

Lemma sum_with_zero f l : (∀ x, x ∈ l → f x = 0) → sum_with f l = 0.
Proof.
  induction l as [|x l IH]; intros Hx; simpl; [done|].
  rewrite Hx, IH; set_solver.
Qed.
End sums.

#[export] Hint Rewrite @sum_with_app : nehemiah.

Lemma sum_with_submseteq {A} (f : A → Z) (l k : list A) :
  (∀ x, x ∈ k → 0 <= f x) → l ⊆+ k → sum_with f l <= sum_with f k.
Proof.
  intros Hf (k' & Hp)%submseteq_Permutation.
  rewrite (sum_with_perm f _ _ Hp), sum_with_app.
  assert (0 <= sum_with f k'); [|lia]. apply sum_with_nonneg. intros x Hx. apply Hf.
  rewrite Hp. set_solver.
Qed.

Section map_sums.
Context `{Countable K} {A : Type}.
Implicit Types (f : A → Z) (m : gmap K A).

Lemma map_sum_empty f : map_sum f (∅ : gmap K A) = 0.
Proof. unfold map_sum. by rewrite map_to_list_empty. Qed.

Lemma map_sum_insert_new f m k x :
  m !! k = None → map_sum f (<[k:=x]> m) = f x + map_sum f m.
Proof.
  intros Hk. unfold map_sum.
  by rewrite (sum_with_perm _ _ _ (map_to_list_insert m k x Hk)).
Qed.

Lemma map_sum_delete f m k x :
  m !! k = Some x → map_sum f m = f x + map_sum f (delete k m).
Proof.
  intros Hk. unfold map_sum.
  by rewrite <- (sum_with_perm _ _ _ (map_to_list_delete m k x Hk)).
Qed.

Lemma map_sum_insert f m k x y :
  m !! k = Some y → map_sum f (<[k:=x]> m) = map_sum f m - f y + f x.
Proof.
  intros Hk. rewrite <- insert_delete_eq.
  rewrite map_sum_insert_new by apply lookup_delete_eq.
  rewrite (map_sum_delete f m k y Hk). lia.
Qed.

Lemma map_sum_nonneg f m :
  (∀ k x, m !! k = Some x → 0 <= f x) → 0 <= map_sum f m.
Proof.
  intros Hnn. apply sum_with_nonneg. intros [k x] Hin.
  apply elem_of_map_to_list in Hin. eauto.
Qed.

Lemma map_sum_lookup f m k x :
  (∀ k x, m !! k = Some x → 0 <= f x) → m !! k = Some x → f x <= map_sum f m.
Proof.
  intros Hnn Hk. rewrite (map_sum_delete f m k x Hk).
  assert (0 <= map_sum f (delete k m)); [|lia].
  apply map_sum_nonneg. intros k' x' Hk'.
  apply lookup_delete_Some in Hk' as [_ ?]. eauto.
Qed.

Lemma map_sum_ext f g m :
  (∀ k x, m !! k = Some x → f x = g x) → map_sum f m = map_sum g m.
Proof.
  intros Heq. apply sum_with_ext. intros [k x] Hin.
  apply elem_of_map_to_list in Hin. eauto.
Qed.

Lemma map_sum_fmap {B} (g : A → B) (f : B → Z) m :
  map_sum f (g <$> m) = map_sum (λ x, f (g x)) m.
Proof.
  unfold map_sum. rewrite map_to_list_fmap.
  induction (map_to_list m) as [|[k x] l IH]; [done|].
  rewrite fmap_cons. unfold sum_with in *. cbn [foldr]. by rewrite IH.
Qed.

(** Tables with the same keys and the same contributions have the same sum. *)
Lemma map_sum_rel f f' m m' :
  (∀ k, option_Forall2 (λ x y, f x = f' y) (m !! k) (m' !! k)) →
  map_sum f m = map_sum f' m'.
Proof.
  intros Hrel. transitivity (map_sum id (f <$> m)); [by rewrite map_sum_fmap|].
  transitivity (map_sum id (f' <$> m')); [|by rewrite map_sum_fmap]. f_equal. apply map_eq. intros k. rewrite !lookup_fmap.
  destruct (Hrel k); simpl; congruence.
Qed.

Lemma map_sum_le f f' m :
  (∀ k x, m !! k = Some x → f x <= f' x) → map_sum f m <= map_sum f' m.
Proof.
  intros Hle. unfold map_sum.
  assert (∀ kx, kx ∈ map_to_list m → f kx.2 <= f' kx.2) as Hl.
  { intros [k x] Hin%elem_of_map_to_list. eauto. }
  induction (map_to_list m) as [|kx l IH]; simpl; [done|].
  assert (f kx.2 <= f' kx.2) by (apply Hl; set_solver).
  assert (sum_with (λ kv, f kv.2) l <= sum_with (λ kv, f' kv.2) l) by (apply IH; set_solver).
  lia.
Qed.

Lemma map_sum_subseteq f m m' :
  (∀ k x, m !! k = Some x → 0 <= f x) → m' ⊆ m → map_sum f m' <= map_sum f m.
Proof.
  intros Hf Hsub. apply sum_with_submseteq; [|by apply map_to_list_submseteq].
  intros [k x] Hin%elem_of_map_to_list. eauto.
Qed.

Lemma map_sum_add f f' m :
  map_sum (λ x, f x + f' x) m = map_sum f m + map_sum f' m.
Proof.
  unfold map_sum. induction (map_to_list m) as [|[k x] l IH]; simpl; lia.
Qed.
End map_sums.

Lemma alter_as_insert `{Countable K} {A} (f : A → A) (m : gmap K A) k x :
  m !! k = Some x → alter f k m = <[k := f x]> m.
Proof.
  intros Hk. apply map_eq. intros j. destruct (decide (j = k)) as [->|Hne].
  - by rewrite lookup_alter_eq, lookup_insert_eq, Hk.
  - by rewrite lookup_alter_ne, lookup_insert_ne by done.
Qed.

(** An update that keeps a projection of every row keeps the projected table. *)
Lemma fmap_alter_same `{Countable K} {A B} (g : A → B) (f : A → A) (m : gmap K A) k :
  (∀ x, g (f x) = g x) → g <$> alter f k m = g <$> m.
Proof.
  intros Hf. apply map_eq. intros j. rewrite !lookup_fmap.
  destruct (decide (k = j)) as [<-|Hne].
  - rewrite lookup_alter_eq. destruct (m !! k); simpl; by rewrite ?Hf.
  - by rewrite lookup_alter_ne.
Qed.

Section append_only.
Context {A : Type} (key : A → string).
Implicit Types (l : list A).

Lemma has_key_true k l :
  has_key key k l = true ↔ ∃ y, y ∈ l ∧ key y = k.
Proof.
  unfold has_key. rewrite existsb_exists.
  split; intros (y & Hy & Hk); exists y.
  - apply String.eqb_eq in Hk. by rewrite list_elem_of_In.
  - rewrite list_elem_of_In in Hy. by rewrite String.eqb_eq.
Qed.

Lemma has_key_false k l :
  has_key key k l = false ↔ ∀ y, y ∈ l → key y ≠ k.
Proof.
  rewrite <- not_true_iff_false, has_key_true. naive_solver.
Qed.

Lemma insert_new_fresh x l :
  has_key key (key x) l = false → insert_new key x l = l ++ [x].
Proof. unfold insert_new. by intros ->. Qed.

Lemma insert_new_present x l :
  has_key key (key x) l = true → insert_new key x l = l.
Proof. unfold insert_new. by intros ->. Qed.

Lemma insert_new_has x l : has_key key (key x) (insert_new key x l) = true.
Proof.
  unfold insert_new. destruct (has_key key (key x) l) eqn:E; [done|].
  apply has_key_true. exists x. set_solver.
Qed.

(** Inserting the same key a second time changes nothing. *)
Lemma insert_new_idem x x' l :
  key x' = key x → insert_new key x' (insert_new key x l) = insert_new key x l.
Proof.
  intros Hk. apply insert_new_present. rewrite Hk. apply insert_new_has.
Qed.

Lemma insert_new_elem x y l :
  y ∈ insert_new key x l → y ∈ l ∨ y = x.
Proof. unfold insert_new. destruct (has_key _ _ _); set_solver. Qed.

Lemma insert_new_incl x l y : y ∈ l → y ∈ insert_new key x l.
Proof. unfold insert_new. destruct (has_key _ _ _); set_solver. Qed.

Lemma insert_new_NoDup x l :
  NoDup (key <$> l) → NoDup (key <$> insert_new key x l).
Proof.
  unfold insert_new. destruct (has_key key (key x) l) eqn:E; [done|].
  intros Hnd. rewrite fmap_app. apply NoDup_app. split_and!; [done| |].
  - intros k Hk Hk'. apply list_elem_of_fmap in Hk as (y & -> & Hy).
    rewrite has_key_false in E. set_solver.
  - apply NoDup_singleton.
Qed.
End append_only.

#[export] Hint Resolve insert_new_incl : nehemiah.

(** Conjunctions of boolean guards as propositions. *)
Ltac bool_simp :=
  repeat match goal with
  | H : _ && _ = true |- _ => apply andb_true_iff in H as [? ?]
  | H : _ || _ = false |- _ => apply orb_false_iff in H as [? ?]
  | H : negb _ = true |- _ => apply negb_true_iff in H
  | H : negb _ = false |- _ => apply negb_false_iff in H
  | H : (_ =? _)%Z = true |- _ => apply Z.eqb_eq in H
  | H : (_ =? _)%Z = false |- _ => apply Z.eqb_neq in H
  | H : (_ <=? _)%Z = true |- _ => apply Z.leb_le in H
  | H : (_ <=? _)%Z = false |- _ => apply Z.leb_gt in H
  | H : (_ <? _)%Z = true |- _ => apply Z.ltb_lt in H
  | H : (_ <? _)%Z = false |- _ => apply Z.ltb_ge in H
  | H : String.eqb _ _ = true |- _ => apply String.eqb_eq in H
  | H : String.eqb _ _ = false |- _ => apply String.eqb_neq in H
  | H : bool_decide _ = true |- _ => apply bool_decide_eq_true in H
  | H : bool_decide _ = false |- _ => apply bool_decide_eq_false in H
  end.

Section arith.
Lemma ceil_div_spec a b : 0 < b → b * (ceil_div a b - 1) < a <= b * ceil_div a b.
Proof.
  intros Hb. unfold ceil_div.
  pose proof (Z.div_mod (a + b - 1) b). pose proof (Z.mod_pos_bound (a + b - 1) b).
  lia.
Qed.

Lemma ceil_div_nonneg a b : 0 < b → 0 <= a → 0 <= ceil_div a b.
Proof. intros. unfold ceil_div. apply Z.div_pos; lia. Qed.

Lemma ceil_div_mono a a' b : 0 < b → a <= a' → ceil_div a b <= ceil_div a' b.
Proof. intros. unfold ceil_div. apply Z.div_le_mono; lia. Qed.
End arith.

Lemma safe_between_Some lo hi n z :
  safe_between lo hi n = Some z ↔
  n = NInt z ∧ Z.abs z <= max_safe_integer ∧ lo <= z <= hi.
Proof.
  destruct n as [z'|]; simpl; [|naive_solver]. split.
  - destruct (_ && _ && _) eqn:E; [|done]. intros [= <-]. bool_simp. split_and!; (done || lia).
  - intros ([= ->] & Hs & Hlo%Z.leb_le & Hhi%Z.leb_le).
    apply Z.leb_le in Hs. by rewrite Hs, Hlo, Hhi.
Qed.

(** ** Inversion of monadic code *)

Lemma tx_bind_Ok {S E A B} (m : Tx S E A) (f : A → Tx S E B) s r :
  (m ≫= f) s = Ok r → ∃ a s', m s = Ok (a, s') ∧ f a s' = Ok r.
Proof.
  unfold mbind, tx_bind. destruct (m s) as [[a s']|e]; [eauto|done].
Qed.

Lemma tx_bind_ok_intro {S E A B} (m : Tx S E A) (f : A → Tx S E B) s a s' :
  m s = Ok (a, s') → (m ≫= f) s = f a s'.
Proof. unfold mbind, tx_bind. by intros ->. Qed.

Lemma result_bind_Ok {E A B} (m : result E A) (f : A → result E B) r :
  m ≫= f = Ok r → ∃ a, m = Ok a ∧ f a = Ok r.
Proof. destruct m; [eauto|done]. Qed.

Lemma ok_pair {E A S} (a b : A) (s s' : S) :
  @Ok E (A * S) (a, s) = Ok (b, s') → a = b ∧ s = s'.
Proof. by intros [= -> ->]. Qed.

(** A committed transaction is the only way a state change becomes visible. *)
Lemma transaction_atomic {S E A} (op : Tx S E A) s r s' :
  transaction op s = (r, s') →
  (∃ a, r = Ok a ∧ op s = Ok (a, s')) ∨ (∃ e, r = Err e ∧ s' = s).
Proof.
  unfold transaction. destruct (op s) as [[a s'']|e]; intros [= <- <-]; eauto.
Qed.

(** Splits a hypothesis [... = Ok _] into the steps that succeeded. *)
Ltac tx_simp :=
  unfold mret, tx_ret, gets, modify, require, lift_result, throw in *;
  repeat match goal with
  | H : Ok _ = Ok _ |- _ => injection H as H
  | H : Err _ = Ok _ |- _ => discriminate H
  | H : Ok _ = Err _ |- _ => discriminate H
  | H : (_, _) = (_, _) |- _ => injection H as H
  | H : (_ ≫= _) _ = Ok _ |- _ =>
      apply tx_bind_Ok in H as (? & ? & ? & ?)
  end.

Ltac tx_inv :=
  repeat (tx_simp; simplify_eq/=; try case_match; try done).

