(* ===== verification/Text.v ===== *)
(** * Strings, regular expressions and decimal literals

    The control plane validates most of its inputs with JavaScript regular
    expressions.  They are translated as terms of [re] and run with Brzozowski
    derivatives, so a validation is an executable boolean.  A JavaScript string
    is a Rocq [string]: the inputs the patterns accept are ASCII. *)

From S2P Require Import Prelude.

(** ** Regular expressions *)

Inductive re : Type :=
| Nul
| Eps
| Chr (p : ascii → bool)
| Cat (a b : re)
| Alt (a b : re)
| Star (a : re).

Fixpoint nullable (r : re) : bool :=
  match r with
  | Nul | Chr _ => false
  | Eps | Star _ => true
  | Cat a b => nullable a && nullable b
  | Alt a b => nullable a || nullable b
  end.

Definition cat (a b : re) : re :=
  match a, b with
  | Nul, _ => Nul
  | _, Nul => Nul
  | Eps, _ => b
  | _, _ => Cat a b
  end.

Definition alt (a b : re) : re :=
  match a, b with
  | Nul, _ => b
  | _, Nul => a
  | _, _ => Alt a b
  end.

Fixpoint deriv (c : ascii) (r : re) : re :=
  match r with
  | Nul | Eps => Nul
  | Chr p => if p c then Eps else Nul
  | Cat a b =>
      if nullable a then alt (cat (deriv c a) b) (deriv c b)
      else cat (deriv c a) b
  | Alt a b => alt (deriv c a) (deriv c b)
  | Star a => cat (deriv c a) (Star a)
  end.

Fixpoint matches (r : re) (l : list ascii) : bool :=
  match l with
  | [] => nullable r
  | c :: l' => matches (deriv c r) l'
  end.

(** [/^r$/.test(s)] *)
Definition test (r : re) (s : string) : bool := matches r (list_ascii_of_string s).

(** [r{n}], [r{n,m}], [r+], [r?] and literals *)
Definition rep_exact (n : nat) (r : re) : re := Nat.iter n (Cat r) Eps.
Definition rep_upto (m : nat) (r : re) : re := Nat.iter m (λ x, Alt Eps (Cat r x)) Eps.
Definition rep (n m : nat) (r : re) : re := Cat (rep_exact n r) (rep_upto (m - n) r).
Definition many1 (r : re) : re := Cat r (Star r).
Definition re_opt (r : re) : re := Alt Eps r.
Definition lit (s : string) : re :=
  foldr (λ c r, Cat (Chr (Ascii.eqb c)) r) Eps (list_ascii_of_string s).
Definition cats (rs : list re) : re := foldr Cat Eps rs.

(** Character classes *)
Definition in_range (a b c : ascii) : bool :=
  (N_of_ascii a <=? N_of_ascii c)%N && (N_of_ascii c <=? N_of_ascii b)%N.
Definition digit (c : ascii) : bool := in_range "0" "9" c.
Definition digit19 (c : ascii) : bool := in_range "1" "9" c.
Definition lower (c : ascii) : bool := in_range "a" "z" c.
Definition upper (c : ascii) : bool := in_range "A" "Z" c.
Definition alpha (c : ascii) : bool := lower c || upper c.
Definition alnum (c : ascii) : bool := alpha c || digit c.
Definition lower_alnum (c : ascii) : bool := lower c || digit c.
Definition one_of (s : string) (c : ascii) : bool :=
  existsb (Ascii.eqb c) (list_ascii_of_string s).
Definition hex_lower (c : ascii) : bool := digit c || in_range "a" "f" c.
(** [[0-9a-f]] under the [i] flag *)
Definition hex (c : ascii) : bool := hex_lower c || in_range "A" "F" c.

(** Patterns shared by several components. *)

(** [/^[A-Za-z0-9._:-]{1,128}$/] *)
Definition idempotencyKeyPattern : re :=
  rep 1 128 (Chr (λ c, alnum c || one_of "._:-" c)).

(** [/^[0-9a-f]{8}-[0-9a-f]{4}-[1-5][0-9a-f]{3}-[89ab][0-9a-f]{3}-[0-9a-f]{12}$/i] *)
Definition uuidPattern : re :=
  cats [rep_exact 8 (Chr hex); lit "-"; rep_exact 4 (Chr hex); lit "-";
       Chr (in_range "1" "5"); rep_exact 3 (Chr hex); lit "-";
       Chr (one_of "89abAB"); rep_exact 3 (Chr hex); lit "-";
       rep_exact 12 (Chr hex)].

(** ** Decimal literals *)

Definition digit_value (c : ascii) : Z := Z.of_N (N_of_ascii c) - 48.

Definition parse_digits (l : list ascii) : Z :=
  foldl (λ acc c, acc * 10 + digit_value c) 0 l.

(** [BigInt(s)] on a string of decimal digits *)
Definition parse_dec (s : string) : Z := parse_digits (list_ascii_of_string s).

Definition str_length (s : string) : Z := Z.of_nat (String.length s).

Definition string_in (s : string) (l : list string) : bool := existsb (String.eqb s) l.

(** * Lemmas *)

Inductive lang : re → list ascii → Prop :=
| lang_eps : lang Eps []
| lang_chr p c : p c = true → lang (Chr p) [c]
| lang_cat a b l1 l2 : lang a l1 → lang b l2 → lang (Cat a b) (l1 ++ l2)
| lang_alt_l a b l : lang a l → lang (Alt a b) l
| lang_alt_r a b l : lang b l → lang (Alt a b) l
| lang_star_nil a : lang (Star a) []
| lang_star_cons a l1 l2 : lang a l1 → lang (Star a) l2 → lang (Star a) (l1 ++ l2).

#[export] Hint Constructors lang : nehemiah.

Ltac inv_lang := repeat match goal with
  | H : lang Nul _ |- _ => inversion H
  | H : lang Eps _ |- _ => inversion H; subst; clear H
  | H : lang (Chr _) _ |- _ => inversion H; subst; clear H
  | H : lang (Cat _ _) _ |- _ => inversion H; subst; clear H
  | H : lang (Alt _ _) _ |- _ => inversion H; subst; clear H
  end.

Lemma cat_cases a b :
  (cat a b = Nul ∧ (a = Nul ∨ b = Nul)) ∨ (a = Eps ∧ cat a b = b) ∨ cat a b = Cat a b.
Proof. destruct a, b; simpl; auto. Qed.

Lemma alt_cases a b :
  (a = Nul ∧ alt a b = b) ∨ (b = Nul ∧ alt a b = a) ∨ alt a b = Alt a b.
Proof. destruct a, b; simpl; auto. Qed.

Lemma lang_cat_smart a b l : lang (cat a b) l ↔ lang (Cat a b) l.
Proof.
  destruct (cat_cases a b) as [(-> & [-> | ->])|[[-> ->]| ->]]; [| | |done].
  - split; intros H; inv_lang.
  - split; intros H; inv_lang.
  - split; intros H.
    + apply (lang_cat Eps b [] l); auto with nehemiah.
    + inversion H as [| |? ? l1 l2 H1 H2| | | |]; subst. by inversion H1; subst.
Qed.

Lemma lang_alt_smart a b l : lang (alt a b) l ↔ lang (Alt a b) l.
Proof.
  destruct (alt_cases a b) as [[-> ->]|[[-> ->]| ->]]; [| |done];
    (split; intros H; [auto with nehemiah|]);
    inversion H as [| | |? ? ? H1|? ? ? H1| |]; subst; [inversion H1|done|done|inversion H1].
Qed.

Lemma nullable_spec r : nullable r = true ↔ lang r [].
Proof.
  induction r as [| |p|a IHa b IHb|a IHa b IHb|a IHa]; simpl.
  - split; [done|intros; inv_lang].
  - split; auto with nehemiah.
  - split; [done|intros H; inversion H].
  - rewrite andb_true_iff, IHa, IHb. split.
    + intros [? ?]. by apply (lang_cat a b [] []).
    + intros H. inversion H as [| |? ? l1 l2 H1 H2 H3 H4| | | |]; subst.
      by apply app_eq_nil in H4 as [-> ->].
  - rewrite orb_true_iff, IHa, IHb. split.
    + intros [?|?]; auto with nehemiah.
    + intros H. inversion H; auto.
  - split; auto with nehemiah.
Qed.

Lemma lang_star_inv a c l :
  lang (Star a) (c :: l) →
  ∃ l1 l2, l = l1 ++ l2 ∧ lang a (c :: l1) ∧ lang (Star a) l2.
Proof.
  intros H. remember (Star a) as r eqn:Hr. remember (c :: l) as cl eqn:Hl.
  revert Hr l Hl. induction H; intros Hr l0 Hl; simplify_eq.
  destruct l1 as [|c' l1]; simpl in *; simplify_eq; [eauto|].
  exists l1, l2. eauto.
Qed.

Lemma lang_cat_inv a b l :
  lang (Cat a b) l → ∃ l1 l2, l = l1 ++ l2 ∧ lang a l1 ∧ lang b l2.
Proof. intros H. inversion H; subst. eauto. Qed.

Lemma lang_alt_inv a b l : lang (Alt a b) l → lang a l ∨ lang b l.
Proof. intros H. inversion H; auto. Qed.

Lemma deriv_sound c r l : lang (deriv c r) l → lang r (c :: l).
Proof.
  revert l. induction r as [| |p|a IHa b IHb|a IHa b IHb|a IHa]; simpl; intros l Hl.
  - inversion Hl.
  - inversion Hl.
  - destruct (p c) eqn:?; inversion Hl; subst; auto with nehemiah.
  - assert (lang (cat (deriv c a) b) l → lang (Cat a b) (c :: l)) as Hcat.
    { intros (l1 & l2 & -> & ? & ?)%lang_cat_smart%lang_cat_inv.
      apply (lang_cat a b (c :: l1) l2); eauto. }
    destruct (nullable a) eqn:En; [|by apply Hcat].
    apply lang_alt_smart, lang_alt_inv in Hl as [?|?]; [by apply Hcat|].
    apply (lang_cat a b [] (c :: l)); [by apply nullable_spec|eauto].
  - apply lang_alt_smart, lang_alt_inv in Hl as [?|?]; auto with nehemiah.
  - apply lang_cat_smart, lang_cat_inv in Hl as (l1 & l2 & -> & ? & ?).
    apply (lang_star_cons a (c :: l1) l2); eauto.
Qed.

Lemma deriv_complete c r l : lang r (c :: l) → lang (deriv c r) l.
Proof.
  revert l. induction r as [| |p|a IHa b IHb|a IHa b IHb|a IHa]; simpl; intros l Hl.
  - inversion Hl.
  - inversion Hl.
  - inversion Hl as [|? ? Hp| | | | |]; subst. rewrite Hp. constructor.
  - apply lang_cat_inv in Hl as ([|c' l1] & l2 & Heq & Ha & Hb); simplify_eq/=.
    + rewrite (proj2 (nullable_spec a) Ha). apply lang_alt_smart, lang_alt_r. eauto.
    + assert (lang (cat (deriv c' a) b) (l1 ++ l2)).
      { apply lang_cat_smart. auto with nehemiah. }
      destruct (nullable a); [apply lang_alt_smart|]; auto with nehemiah.
  - apply lang_alt_smart. apply lang_alt_inv in Hl as [?|?]; auto with nehemiah.
  - apply lang_star_inv in Hl as (l1 & l2 & -> & ? & ?).
    apply lang_cat_smart. auto with nehemiah.
Qed.

(** The matcher decides the language of the pattern. *)
Lemma matches_lang r l : matches r l = true ↔ lang r l.
Proof.
  revert r. induction l as [|c l IH]; intros r; simpl; [apply nullable_spec|].
  rewrite IH. split; [apply deriv_sound|apply deriv_complete].
Qed.

Lemma test_lang r s : test r s = true ↔ lang r (list_ascii_of_string s).
Proof. apply matches_lang. Qed.

Lemma lang_rep_exact p n l :
  lang (rep_exact n (Chr p)) l ↔ length l = n ∧ Forall (λ c, p c = true) l.
Proof.
  revert l. induction n as [|n IH]; intros l; simpl; split.
  - intros. inv_lang. done.
  - intros [Hl _]. destruct l; [constructor|done].
  - intros H. inversion H as [| |a b l1 l2 H1 H2| | | |]; subst.
    inversion H1; subst.
    apply IH in H2 as [<- ?]. simpl. auto.
  - intros [Hl Hp]. destruct l as [|c l]; [done|].
    apply (lang_cat _ _ [c] l); [constructor; by inversion Hp|].
    apply IH. inversion Hp. simpl in Hl. auto.
Qed.

Lemma lang_rep_upto p n l :
  lang (rep_upto n (Chr p)) l ↔ (length l <= n)%nat ∧ Forall (λ c, p c = true) l.
Proof.
  revert l. induction n as [|n IH]; intros l; simpl; split.
  - intros. inv_lang. simpl. split; [lia|done].
  - intros [Hl _]. destruct l; [constructor|simpl in Hl; lia].
  - intros H. inversion H as [| | |a b l' H1|a b l' H1| |]; subst.
    + inversion H1; subst. simpl. split; [lia|done].
    + inversion H1 as [| |a b l1 l2 H2 H3| | | |]; subst.
      inversion H2; subst. apply IH in H3 as [? ?]. simpl. split; [lia|auto].
  - intros [Hl Hp]. destruct l as [|c l]; [by apply lang_alt_l; constructor|].
    apply lang_alt_r, (lang_cat _ _ [c] l); [constructor; by inversion Hp|].
    apply IH. inversion Hp. simpl in Hl. split; [lia|done].
Qed.

Lemma lang_rep p n m l :
  (n <= m)%nat →
  lang (rep n m (Chr p)) l ↔
  (n <= length l <= m)%nat ∧ Forall (λ c, p c = true) l.
Proof.
  intros Hnm. unfold rep. split.
  - intros H. inversion H as [| |a b l1 l2 H1 H2| | | |]; subst.
    apply lang_rep_exact in H1 as [Hl1 ?]. apply lang_rep_upto in H2 as [Hl2 ?].
    rewrite length_app. split; [lia|by apply Forall_app].
  - intros [[? ?] Hp]. rewrite <- (take_drop n l) in Hp |- *.
    apply Forall_app in Hp as [? ?]. constructor.
    + apply lang_rep_exact. rewrite length_take. split; [lia|done].
    + apply lang_rep_upto. rewrite length_drop. split; [lia|done].
Qed.

Lemma digit_value_bounds c : digit c = true → 0 <= digit_value c <= 9.
Proof.
  unfold digit, in_range, digit_value. rewrite andb_true_iff, !N.leb_le.
  simpl. lia.
Qed.

Lemma foldl_digits_bounds l acc :
  0 <= acc → Forall (λ c, digit c = true) l →
  0 <= foldl (λ acc c, acc * 10 + digit_value c) acc l
    < (acc + 1) * 10 ^ Z.of_nat (length l).
Proof.
  revert acc. induction l as [|c l IH]; intros acc Hacc Hl; simpl length.
  - simpl. lia.
  - inversion Hl as [|? ? Hc Hl']; subst. apply digit_value_bounds in Hc. simpl foldl.
    specialize (IH (acc * 10 + digit_value c) ltac:(lia) Hl').
    rewrite Nat2Z.inj_succ, Z.pow_succ_r by lia.
    assert (0 < 10 ^ Z.of_nat (length l)) by (apply Z.pow_pos_nonneg; lia).
    nia.
Qed.

(** A digit string denotes a natural number below [10 ^ length]. *)
Lemma parse_digits_bounds l :
  Forall (λ c, digit c = true) l →
  0 <= parse_digits l < 10 ^ Z.of_nat (length l).
Proof.
  intros Hl. pose proof (foldl_digits_bounds l 0 ltac:(lia) Hl).
  unfold parse_digits. lia.
Qed.

Lemma digit19_value c : digit19 c = true → 1 <= digit_value c ∧ digit c = true.
Proof.
  unfold digit19, digit, in_range, digit_value. intros H.
  apply andb_true_iff in H as [Hlo ->]. apply N.leb_le in Hlo.
  change (N_of_ascii "1") with 49%N in Hlo.
  split; [lia|]. apply andb_true_iff. split; [|done]. apply N.leb_le.
  etransitivity; [|exact Hlo]. done.
Qed.

(** A decimal number without a leading zero is positive. *)
Lemma foldl_digits_lower l acc :
  1 <= acc → Forall (λ c, digit c = true) l →
  1 <= foldl (λ acc c, acc * 10 + digit_value c) acc l.
Proof.
  revert acc. induction l as [|c l IH]; intros acc Hacc Hl; simpl; [done|].
  inversion Hl; subst. apply IH; [|done].
  pose proof (digit_value_bounds c ltac:(done)). lia.
Qed.

Lemma string_in_spec s l : string_in s l = true ↔ s ∈ l.
Proof.
  unfold string_in. rewrite existsb_exists. split.
  - intros (x & Hx & He). apply String.eqb_eq in He as ->. by apply list_elem_of_In.
  - intros Hs. exists s. rewrite String.eqb_refl. by apply list_elem_of_In in Hs.
Qed.

(** ** Separators

    The code builds unique keys by joining fields with [":"]; fields without
    the separator can be read back. *)

Definition no_char (c : ascii) (s : string) : Prop := c ∉ list_ascii_of_string s.

Lemma list_ascii_app s t :
  list_ascii_of_string (s +:+ t) = list_ascii_of_string s ++ list_ascii_of_string t.
Proof. induction s as [|c s IH]; simpl; [done|]. by rewrite IH. Qed.

Lemma list_ascii_inj s t : list_ascii_of_string s = list_ascii_of_string t → s = t.
Proof.
  intros H. rewrite <- (string_of_list_ascii_of_string s), H.
  apply string_of_list_ascii_of_string.
Qed.

Lemma split_sep_list (c : ascii) (l1 l2 r1 r2 : list ascii) :
  c ∉ l1 → c ∉ l2 → l1 ++ c :: r1 = l2 ++ c :: r2 → l1 = l2 ∧ r1 = r2.
Proof.
  revert l2. induction l1 as [|a l1 IH]; intros [|b l2] H1 H2 Heq; simplify_eq/=.
  - done.
  - set_solver.
  - set_solver.
  - destruct (IH l2) as [-> ->]; set_solver.
Qed.

Lemma split_sep (c : ascii) s1 s2 t1 t2 :
  no_char c s1 → no_char c s2 →
  s1 +:+ String c t1 = s2 +:+ String c t2 → s1 = s2 ∧ t1 = t2.
Proof.
  intros H1 H2 Heq.
  assert (list_ascii_of_string (s1 +:+ String c t1)
    = list_ascii_of_string (s2 +:+ String c t2)) as Hl by by rewrite Heq.
  rewrite !list_ascii_app in Hl. simpl in Hl.
  apply split_sep_list in Hl as [? ?]; eauto using list_ascii_inj.
Qed.

(** Decimal renderings contain only digits and a sign. *)
Lemma pretty_N_char_digit x : digit (pretty_N_char x) = true.
Proof. unfold pretty_N_char. by repeat case_match. Qed.

Lemma pretty_N_go_chars c x s :
  digit c = false → no_char c s → no_char c (pretty_N_go x s).
Proof.
  intros Hc. revert s. induction (N.lt_wf_0 x) as [x _ IH]; intros s Hs.
  assert (x = 0 ∨ 0 < x)%N as [->|Hx] by lia; [done|].
  rewrite pretty_N_go_step by done. apply IH; [by apply N.div_lt|].
  unfold no_char. simpl. apply not_elem_of_cons. split; [|done].
  intros ->. by rewrite pretty_N_char_digit in Hc.
Qed.

Lemma pretty_N_chars c (x : N) : digit c = false → no_char c (pretty x).
Proof.
  intros Hc. unfold pretty, pretty_N. case_decide.
  - unfold no_char. simpl. apply not_elem_of_cons. split; [|apply not_elem_of_nil].
    by intros ->.
  - apply pretty_N_go_chars; [done|]. unfold no_char. apply not_elem_of_nil.
Qed.

Lemma pretty_Z_chars c (z : Z) :
  digit c = false → c ≠ "-"%char → no_char c (pretty z).
Proof.
  intros Hc Hd. destruct z as [|p|p].
  - by apply (pretty_N_chars c 0).
  - by apply (pretty_N_chars c (Npos p)).
  - change (no_char c (String "-" (pretty (Npos p)))).
    apply not_elem_of_cons. split; [done|]. by apply (pretty_N_chars c (Npos p)).
Qed.

Lemma pretty_no_colon (z : Z) : no_char ":" (pretty z).
Proof. by apply pretty_Z_chars. Qed.

Lemma string_app_cancel (p s t : string) : p +:+ s = p +:+ t → s = t.
Proof. induction p; [done|]. intros [=]. auto. Qed.

Lemma string_app_assoc (a b c : string) : (a +:+ b) +:+ c = a +:+ (b +:+ c).
Proof.
  induction a as [|x a IH]; [done|].
  change (String x ((a +:+ b) +:+ c) = String x (a +:+ (b +:+ c))). by rewrite IH.
Qed.

(** [prefix ++ n ++ ":" ++ rest] determines the number and the rest. *)
Lemma numbered_key_inj (p : string) (m n : Z) (r s : string) :
  p +:+ pretty m +:+ String ":" r = p +:+ pretty n +:+ String ":" s → m = n ∧ r = s.
Proof.
  intros H. apply string_app_cancel in H.
  apply split_sep in H as [H ->]; [|apply pretty_no_colon..].
  split; [by apply (inj pretty)|done].
Qed.
