(* ===== verification/Capacity.v ===== *)
(** * Host capacity and placement

    src/apps/nehemiah/src/scheduler/capacity.ts and placement.ts: the resource
    vector of a machine, what is free on a host, the bounds a request must
    meet, and the deterministic best-fit choice of a host. *)

From Stdlib Require Import OrdersEx.
From S2P Require Import Prelude Text.

Record Resources := mkResources {
  vcpus : Z;
  memoryMb : Z;
  diskMb : Z
}.

#[export] Instance Resources_eq_dec : EqDecision Resources.
Proof. solve_decision. Defined.

Inductive Architecture := X86_64 | Aarch64.

#[export] Instance Architecture_eq_dec : EqDecision Architecture.
Proof. solve_decision. Defined.

Inductive HostState := HostReady | HostDraining | HostUnhealthy | HostStale.

#[export] Instance HostState_eq_dec : EqDecision HostState.
Proof. solve_decision. Defined.

Record HostCapacity := mkHostCapacity {
  hc_id : string;
  hc_region : string;
  hc_architecture : Architecture;
  hc_state : HostState;
  hc_total : Resources;
  hc_reserved : Resources;
  cachedTemplates : gset string
}.

Definition available (host : HostCapacity) : Resources :=
  mkResources (vcpus (hc_total host) - vcpus (hc_reserved host))
              (memoryMb (hc_total host) - memoryMb (hc_reserved host))
              (diskMb (hc_total host) - diskMb (hc_reserved host)).

(** Pointwise order on resource vectors. *)
Definition resources_le (a b : Resources) : bool :=
  (vcpus a <=? vcpus b) && (memoryMb a <=? memoryMb b) && (diskMb a <=? diskMb b).

Definition fits (host : HostCapacity) (resources : Resources) : bool :=
  let free := available host in
  bool_decide (hc_state host = HostReady) &&
  (vcpus resources <=? vcpus free) &&
  (memoryMb resources <=? memoryMb free) &&
  (diskMb resources <=? diskMb free).

(** A request whose fields have not been validated; [Object.entries] visits
    them in this order. *)
Record ResourceInput := mkResourceInput {
  in_vcpus : number;
  in_memoryMb : number;
  in_diskMb : number
}.

Definition resourceEntries (r : ResourceInput) : list (string * number) :=
  [("vcpus", in_vcpus r); ("memoryMb", in_memoryMb r); ("diskMb", in_diskMb r)].

Definition positiveEntry (value : number) : bool :=
  match value with
  | NInt z => isSafeInteger value && (0 <? z)
  | NNonInt => false
  end.

Definition number_gt (n : number) (bound : Z) : bool :=
  match n with NInt z => bound <? z | NNonInt => false end.

Definition number_value (n : number) : Z :=
  match n with NInt z => z | NNonInt => 0 end.

(** [validateResources]: the thrown message, or the validated vector. *)
Definition validateResources (r : ResourceInput) : result string Resources :=
  match find (λ kv, negb (positiveEntry kv.2)) (resourceEntries r) with
  | Some (key, _) => Err (key +:+ " must be positive")
  | None =>
      if number_gt (in_vcpus r) 4 then Err "vcpus must not exceed 4"
      else if number_gt (in_memoryMb r) 4096 then Err "memoryMb must not exceed 4096"
      else if number_gt (in_diskMb r) 20480 then Err "diskMb must not exceed 20480"
      else Ok (mkResources (number_value (in_vcpus r)) (number_value (in_memoryMb r))
                           (number_value (in_diskMb r)))
  end.

(** ** Placement *)

Record PlacementRequest := mkPlacementRequest {
  pr_region : string;
  pr_architecture : Architecture;
  pr_resources : Resources;
  pr_templateId : option string
}.

(** [Array.prototype.sort] with a comparator: ECMAScript requires a stable
    sort, which insertion sort is. *)
Fixpoint insert_by {A} (cmp : A → A → Z) (x : A) (l : list A) : list A :=
  match l with
  | [] => [x]
  | y :: l' => if cmp x y <=? 0 then x :: l else y :: insert_by cmp x l'
  end.

Definition sort_by {A} (cmp : A → A → Z) (l : list A) : list A :=
  foldr (insert_by cmp) [] l.

Section placement.
(** [String.prototype.localeCompare]: its collation is the host's. *)
Context (localeCompare : string → string → Z).

Definition cachedFor (request : PlacementRequest) (host : HostCapacity) : bool :=
  match pr_templateId request with
  | Some t => if String.eqb t "" then true else bool_decide (t ∈ cachedTemplates host)
  | None => true
  end.

Definition residual_memory (request : PlacementRequest) (host : HostCapacity) : Z :=
  memoryMb (available host) - memoryMb (pr_resources request).

Definition residual_vcpus (request : PlacementRequest) (host : HostCapacity) : Z :=
  vcpus (available host) - vcpus (pr_resources request).

(** The comparator given to [sort]. *)
Definition compareHosts (request : PlacementRequest) (left right : HostCapacity) : Z :=
  let leftCached := cachedFor request left in
  let rightCached := cachedFor request right in
  if negb (Bool.eqb leftCached rightCached) then (if leftCached then -1 else 1)
  else
    let memory := residual_memory request left - residual_memory request right in
    if negb (memory =? 0) then memory
    else
      let cpu := residual_vcpus request left - residual_vcpus request right in
      if negb (cpu =? 0) then cpu
      else localeCompare (hc_id left) (hc_id right).

Definition eligible (request : PlacementRequest) (host : HostCapacity) : bool :=
  String.eqb (hc_region host) (pr_region request) &&
  bool_decide (hc_architecture host = pr_architecture request) &&
  fits host (pr_resources request).

Definition chooseHost (hosts : list HostCapacity) (request : PlacementRequest)
    : option HostCapacity :=
  head (sort_by (compareHosts request) (List.filter (eligible request) hosts)).
End placement.

(** * Lemmas *)

Section insertion_sort.
Context {A : Type} (cmp : A → A → Z).

Lemma insert_by_perm x l : insert_by cmp x l ≡ₚ x :: l.
Proof.
  induction l as [|y l IH]; simpl; [done|].
  case_match; [done|]. rewrite IH. apply Permutation_swap.
Qed.

Lemma sort_by_perm l : sort_by cmp l ≡ₚ l.
Proof.
  induction l as [|x l IH]; simpl; [done|]. by rewrite insert_by_perm, IH.
Qed.

Lemma sort_by_elem x l : x ∈ sort_by cmp l ↔ x ∈ l.
Proof. by rewrite sort_by_perm. Qed.

(** The comparator orders consistently. *)
Context (cmp_total : ∀ x y, cmp x y <= 0 ∨ cmp y x <= 0)
        (cmp_trans : ∀ x y z, cmp x y <= 0 → cmp y z <= 0 → cmp x z <= 0).

Lemma sort_by_head_min l m :
  head (sort_by cmp l) = Some m → ∀ x, x ∈ l → cmp m x <= 0.
Proof.
  revert m. induction l as [|y l IH]; intros m; [done|]. simpl.
  assert (∀ z, cmp z z <= 0) as Hrefl by (intros z; destruct (cmp_total z z); done).
  destruct (sort_by cmp l) as [|z l'] eqn:El; simpl.
  - intros [= <-] x Hx. apply elem_of_cons in Hx as [->|Hx]; [done|].
    apply sort_by_elem in Hx. rewrite El in Hx. by apply elem_of_nil in Hx.
  - specialize (IH z eq_refl).
    destruct (cmp y z <=? 0) eqn:Ec; intros [= <-] x Hx;
      apply elem_of_cons in Hx as [->|Hx]; bool_simp; eauto.
    destruct (cmp_total y z); [lia|done].
Qed.
End insertion_sort.

Lemma sort_by_head_exists {A} (cmp : A → A → Z) (l : list A) x :
  x ∈ l → is_Some (head (sort_by cmp l)).
Proof.
  intros Hx. destruct (sort_by cmp l) as [|y l'] eqn:E; [|by eexists].
  apply (sort_by_elem cmp) in Hx. rewrite E in Hx. by apply elem_of_nil in Hx.
Qed.

Lemma fits_spec host r :
  fits host r = true ↔
  hc_state host = HostReady ∧ vcpus r <= vcpus (available host) ∧
  memoryMb r <= memoryMb (available host) ∧ diskMb r <= diskMb (available host).
Proof. unfold fits. rewrite !andb_true_iff, bool_decide_eq_true, !Z.leb_le. tauto. Qed.

Lemma resources_le_spec a b :
  resources_le a b = true ↔
  vcpus a <= vcpus b ∧ memoryMb a <= memoryMb b ∧ diskMb a <= diskMb b.
Proof. unfold resources_le. rewrite !andb_true_iff, !Z.leb_le. tauto. Qed.

Section placement_order.
Context (localeCompare : string → string → Z)
  (lc_total : ∀ a b, localeCompare a b <= 0 ∨ localeCompare b a <= 0)
  (lc_trans : ∀ a b c,
     localeCompare a b <= 0 → localeCompare b c <= 0 → localeCompare a c <= 0).

Lemma compareHosts_total request x y :
  compareHosts localeCompare request x y <= 0 ∨
  compareHosts localeCompare request y x <= 0.
Proof.
  unfold compareHosts.
  destruct (cachedFor request x), (cachedFor request y); simpl; try lia;
    repeat case_match; bool_simp; try lia; apply lc_total.
Qed.

Lemma compareHosts_trans request x y z :
  compareHosts localeCompare request x y <= 0 →
  compareHosts localeCompare request y z <= 0 →
  compareHosts localeCompare request x z <= 0.
Proof.
  unfold compareHosts.
  destruct (cachedFor request x), (cachedFor request y), (cachedFor request z);
    simpl; try lia; repeat case_match; bool_simp; try lia; eauto.
Qed.
End placement_order.

(** * Properties *)

Lemma validateResources_spec r res :
  validateResources r = Ok res ↔
  r = mkResourceInput (NInt (vcpus res)) (NInt (memoryMb res)) (NInt (diskMb res)) ∧
  1 <= vcpus res <= 4 ∧ 1 <= memoryMb res <= 4096 ∧ 1 <= diskMb res <= 20480.
Proof.
  destruct r as [[v|] [m|] [d|]], res as [v0 m0 d0];
    unfold validateResources; simpl; split; intros H;
    repeat case_match; simplify_eq/=; try naive_solver;
    destruct_and?; simplify_eq; bool_simp; unfold max_safe_integer in *; simpl in *;
    try (split_and!; done || lia); try lia.
Qed.

(** C0: [validateResources] accepts exactly the vectors of positive safe
    integers within 4 vCPUs, 4096 MiB of memory and 20480 MiB of disk, and
    returns them unchanged. *)
Theorem validateResources_exact r res :
  validateResources r = Ok res ↔
  r = mkResourceInput (NInt (vcpus res)) (NInt (memoryMb res)) (NInt (diskMb res)) ∧
  1 <= vcpus res <= 4 ∧ 1 <= memoryMb res <= 4096 ∧ 1 <= diskMb res <= 20480.
Proof. apply validateResources_spec. Qed.

Section choose_host.
Context (localeCompare : string → string → Z)
  (lc_total : ∀ a b, localeCompare a b <= 0 ∨ localeCompare b a <= 0)
  (lc_trans : ∀ a b c,
     localeCompare a b <= 0 → localeCompare b c <= 0 → localeCompare a c <= 0).

(** Placement is best fit.  The chosen host is one of the candidates in
    the requested region and architecture with room for the request, and no
    eligible host comes before it: an eligible host with the template cached
    never loses to one without, and among hosts that agree on that the
    chosen one has the least residual memory, then the least residual vCPUs.
    A host is chosen whenever some host is eligible. *)
Theorem chooseHost_best_fit hosts request :
  (∀ h, chooseHost localeCompare hosts request = Some h →
     h ∈ hosts ∧ eligible request h = true ∧
     ∀ h', h' ∈ hosts → eligible request h' = true →
       (cachedFor request h' = true → cachedFor request h = true) ∧
       (cachedFor request h' = cachedFor request h →
          residual_memory request h < residual_memory request h' ∨
          residual_memory request h = residual_memory request h' ∧
          residual_vcpus request h <= residual_vcpus request h')) ∧
  ((∃ h', h' ∈ hosts ∧ eligible request h' = true) →
     is_Some (chooseHost localeCompare hosts request)).
Proof.
  unfold chooseHost. split.
  - intros h Hh.
    assert (h ∈ List.filter (eligible request) hosts) as Hin.
    { apply (sort_by_elem (compareHosts localeCompare request)).
      destruct (sort_by _ _); simplify_eq/=. apply list_elem_of_here. }
    apply list_elem_of_In, filter_In in Hin as [Hin He].
    split_and!; [by apply list_elem_of_In|done|].
    intros h' Hin' He'.
    assert (compareHosts localeCompare request h h' <= 0) as Hmin.
    { eapply sort_by_head_min; [| |done|].
      - intros. by apply compareHosts_total.
      - intros x y z. by apply compareHosts_trans.
      - apply list_elem_of_In, filter_In. by rewrite list_elem_of_In in Hin'. }
    unfold compareHosts in Hmin.
    destruct (cachedFor request h), (cachedFor request h'); simpl in Hmin;
      repeat case_match; bool_simp; split; intros; try done; lia.
  - intros (h' & Hin & He). eapply sort_by_head_exists.
    apply list_elem_of_In, filter_In. split; [by apply list_elem_of_In|done].
Qed.
End choose_host.

(** ** Witnesses *)

Lemma validateResources_exact_witness :
  validateResources (mkResourceInput (NInt 2) (NInt 1024) (NInt 4096))
    = Ok (mkResources 2 1024 4096).
Proof. apply validateResources_exact. simpl. split_and!; (done || lia). Defined.

(** Code-unit order, one concrete [localeCompare]. *)
Definition codeUnitCompare (a b : string) : Z :=
  match String_as_OT.compare a b with Lt => -1 | Eq => 0 | Gt => 1 end.

Lemma codeUnitCompare_le a b : codeUnitCompare a b <= 0 ↔ a = b ∨ String_as_OT.lt a b.
Proof.
  unfold codeUnitCompare. pose proof String_as_OT.lt_strorder as [Hirr Htr].
  destruct (String_as_OT.compare_spec a b) as [->|H|H]; split; intros; auto; try lia.
  exfalso. apply (Hirr b). destruct H0 as [->|?]; [done|by eapply Htr].
Qed.

Lemma codeUnitCompare_total a b : codeUnitCompare a b <= 0 ∨ codeUnitCompare b a <= 0.
Proof.
  rewrite !codeUnitCompare_le.
  destruct (String_as_OT.compare_spec a b) as [->|H|H]; auto.
Qed.

Lemma codeUnitCompare_trans a b c :
  codeUnitCompare a b <= 0 → codeUnitCompare b c <= 0 → codeUnitCompare a c <= 0.
Proof.
  rewrite !codeUnitCompare_le. intros [->|Hab] [->|Hbc]; auto.
  right. pose proof String_as_OT.lt_strorder as [_ Htr]. by eapply Htr.
Qed.

Definition example_host (id : string) (mem : Z) : HostCapacity :=
  mkHostCapacity id "ca-tor-1" X86_64 HostReady (mkResources 8 mem 100000)
    (mkResources 0 0 0) ∅.

Lemma chooseHost_best_fit_witness :
  let hosts := [example_host "b" 8192; example_host "a" 4096] in
  let request := mkPlacementRequest "ca-tor-1" X86_64 (mkResources 2 1024 1024) None in
  chooseHost codeUnitCompare hosts request = Some (example_host "a" 4096) ∧
  is_Some (chooseHost codeUnitCompare hosts request).
Proof.
  split; [by vm_compute|].
  apply (chooseHost_best_fit codeUnitCompare codeUnitCompare_total codeUnitCompare_trans).
  exists (example_host "a" 4096). split; [set_solver|by vm_compute].
Defined.
