(* ===== verification/Js.v ===== *)
(** * JavaScript string and number conversions

    The parts of the standard library the policy parsers lean on:
    [String.prototype.split], [trim], [toLowerCase] and [Number(string)].  A
    string is its UTF-8 bytes. *)

From S2P Require Import Prelude Text.

Implicit Types (l : list ascii) (s : string).

(** ** Splitting *)

(** [s.split(sep)] for a one-character separator: never empty. *)
Fixpoint split_list (sep : ascii) (l : list ascii) : list (list ascii) :=
  match l with
  | [] => [[]]
  | c :: l =>
      if Ascii.eqb c sep then [] :: split_list sep l
      else match split_list sep l with
           | field :: fields => (c :: field) :: fields
           | [] => [[c]]
           end
  end.

Definition js_split (sep : ascii) (s : string) : list string :=
  map string_of_list_ascii (split_list sep (list_ascii_of_string s)).

(** ** Sets *)

(** [[...new Set(l)]]: first occurrences, in order. *)
Fixpoint new_Set (seen ss : list string) : list string :=
  match ss with
  | [] => []
  | s :: ss => if string_in s seen then new_Set seen ss else s :: new_Set (s :: seen) ss
  end.

Lemma new_Set_spec seen (l : list string) :
  NoDup (new_Set seen l) ∧ (∀ s, s ∈ new_Set seen l ↔ s ∈ l ∧ s ∉ seen) ∧
  (length (new_Set seen l) <= length l)%nat.
Proof.
  revert seen. induction l as [|x l IH]; intros seen; simpl.
  - split_and!; [constructor|set_solver|done].
  - destruct (string_in x seen) eqn:E.
    + apply string_in_spec in E. destruct (IH seen) as (Hn & Hs & Hl).
      split_and!; [done|set_solver|lia].
    + apply not_true_iff_false in E. rewrite string_in_spec in E.
      destruct (IH (x :: seen)) as (Hn & Hs & Hl).
      split_and!; [constructor; [set_solver|done]| |simpl; lia].
      intros s. rewrite elem_of_cons, Hs. destruct (decide (s = x)) as [->|]; set_solver.
Qed.

(** ** White space *)

(** WhiteSpace and LineTerminator of ECMAScript, encoded. *)
Definition whiteSpace : list (list ascii) :=
  let bytes := map (λ n, ascii_of_nat n) in
  map bytes
    [[9]; [10]; [11]; [12]; [13]; [32]; [194; 160]; [225; 154; 128];
     [226; 128; 128]; [226; 128; 129]; [226; 128; 130]; [226; 128; 131];
     [226; 128; 132]; [226; 128; 133]; [226; 128; 134]; [226; 128; 135];
     [226; 128; 136]; [226; 128; 137]; [226; 128; 138]; [226; 128; 168];
     [226; 128; 169]; [226; 128; 175]; [226; 129; 159]; [227; 128; 128];
     [239; 187; 191]]%nat.

Fixpoint strip_prefix (p l : list ascii) : option (list ascii) :=
  match p, l with
  | [], _ => Some l
  | a :: p, b :: l => if Ascii.eqb a b then strip_prefix p l else None
  | _ :: _, [] => None
  end.

(** The first of [ws] that [l] starts with, removed. *)
Definition strip_any (ws : list (list ascii)) (l : list ascii) : option (list ascii) :=
  head (omap (λ w, strip_prefix w l) ws).

(** Each round removes at least one byte, so the length is fuel enough. *)
Fixpoint strip_all (fuel : nat) (ws : list (list ascii)) (l : list ascii) : list ascii :=
  match fuel with
  | O => l
  | S fuel => match strip_any ws l with
              | Some l' => strip_all fuel ws l'
              | None => l
              end
  end.

Definition trim_start (ws : list (list ascii)) (l : list ascii) : list ascii :=
  strip_all (length l) ws l.

Definition trim_list (l : list ascii) : list ascii :=
  rev (trim_start (map (@rev ascii) whiteSpace) (rev (trim_start whiteSpace l))).

Definition js_trim (s : string) : string :=
  string_of_list_ascii (trim_list (list_ascii_of_string s)).

(** ** Lower case *)

Definition lower_ascii (c : ascii) : ascii :=
  if upper c then ascii_of_N (N_of_ascii c + 32) else c.

(** [toLowerCase]: ASCII letters and the Kelvin sign, the only other character
    whose lower case is ASCII.  Any other character stays outside ASCII, whatever
    its lower case is, so it is left as it is. *)
Fixpoint lower_list (l : list ascii) : list ascii :=
  match l with
  | "226" :: (("132" :: "170" :: rest) as tail) => "k" :: lower_list rest
  | c :: l => lower_ascii c :: lower_list l
  | [] => []
  end%char.

Definition toLowerCase (s : string) : string :=
  string_of_list_ascii (lower_list (list_ascii_of_string s)).

(** The character ['\0'], which separates the parts of a hashed identifier. *)
Definition nul : string := String Ascii.zero EmptyString.

(** A [uuid] column reads any case and prints lower case. *)
Definition uuid_text (s : string) : string := toLowerCase s.

(** [s.length] counts UTF-16 units; a string is its UTF-8 bytes. *)
Definition utf16_units (c : ascii) : Z :=
  let n := Z.of_N (N_of_ascii c) in
  if n <? 128 then 1 else if n <? 192 then 0 else if n <? 240 then 1 else 2.

Definition utf16_length (s : string) : Z := sum_with utf16_units (list_ascii_of_string s).

(** ** Dates and URLs *)

(** A date that is no time at all compares as false with everything:
    [date <= t], [date > t]. *)
Definition date_le (d : option Z) (t : Z) : bool := match d with Some x => x <=? t | None => false end.
Definition date_gt (d : option Z) (t : Z) : bool := match d with Some x => t <? x | None => false end.

(** What the platform's [new URL] reads off a text it accepts. *)
Record Url := mkUrl {
  protocol : string;
  username : string;
  password : string;
  hash : string
}.

(** ** [Number(string)] *)

Fixpoint span (p : ascii → bool) (l : list ascii) : list ascii * list ascii :=
  match l with
  | c :: l' => if p c then let '(a, b) := span p l' in (c :: a, b) else ([], l)
  | [] => ([], [])
  end.

(** [n / d] rounded to an integer, ties to even. *)
Definition round_half_even (n d : Z) : Z :=
  let q := n / d in
  let r := n mod d in
  if 2 * r <? d then q
  else if d <? 2 * r then q + 1
  else if Z.even q then q else q + 1.

(** The double nearest to [n / d] ([0 <= n], [0 < d]): its value when that is an
    integer.  [e] is the binary exponent of [n / d] and [u] that of its last
    place. *)
Definition nearest_double (n d : Z) : number :=
  if n =? 0 then NInt 0
  else
    let e0 := Z.log2 n - Z.log2 d in
    let e := if n * 2 ^ Z.max 0 (- e0) <? d * 2 ^ Z.max 0 e0 then e0 - 1 else e0 in
    let u := Z.max (e - 52) (- 1074) in
    let m := round_half_even (n * 2 ^ Z.max 0 (- u)) (d * 2 ^ Z.max 0 u) in
    if 0 <=? u then NInt (m * 2 ^ u)
    else if m mod 2 ^ (- u) =? 0 then NInt (m / 2 ^ (- u)) else NNonInt.

Definition negate (n : number) : number :=
  match n with NInt z => NInt (- z) | NNonInt => NNonInt end.

(** StrUnsignedDecimalLiteral without [Infinity], which is not an integer
    either way. *)
Definition unsigned_decimal (l : list ascii) : number :=
  let '(whole, rest) := span digit l in
  let '(fraction, rest) :=
    match rest with
    | "."%char :: rest => span digit rest
    | _ => ([], rest)
    end in
  match whole ++ fraction with
  | [] => NNonInt
  | ds =>
      let exponent :=
        match rest with
        | [] => Some 0
        | c :: rest =>
            if one_of "eE" c then
              let '(sign, rest) :=
                match rest with
                | "+"%char :: rest => (1, rest)
                | "-"%char :: rest => (-1, rest)
                | _ => (1, rest)
                end in
              match span digit rest with
              | ((_ :: _) as e, []) => Some (sign * parse_digits e)
              | _ => None
              end
            else None
        end in
      match exponent with
      | None => NNonInt
      | Some e =>
          let e := e - Z.of_nat (length fraction) in
          nearest_double (parse_digits ds * 10 ^ Z.max 0 e) (10 ^ Z.max 0 (- e))
      end
  end.

(** The digits of a [0x], [0o] or [0b] literal. *)
Definition radix_value (radix : Z) (c : ascii) : option Z :=
  let v := if digit c then digit_value c
           else if hex c then Z.of_N (N_of_ascii (lower_ascii c)) - 87
           else radix in
  if v <? radix then Some v else None.

Fixpoint radix_digits (radix acc : Z) (l : list ascii) : option Z :=
  match l with
  | [] => Some acc
  | c :: l => match radix_value radix c with
              | Some v => radix_digits radix (acc * radix + v) l
              | None => None
              end
  end.

Definition radix_literal (radix : Z) (l : list ascii) : number :=
  match l with
  | [] => NNonInt
  | _ => match radix_digits radix 0 l with
         | Some n => nearest_double n 1
         | None => NNonInt
         end
  end.

(** [Number(s)]: the empty string and white space are 0. *)
Definition js_Number (s : string) : number :=
  match trim_list (list_ascii_of_string s) with
  | [] => NInt 0
  | "+"%char :: l => unsigned_decimal l
  | "-"%char :: l => negate (unsigned_decimal l)
  | "0"%char :: c :: l =>
      if one_of "xX" c then radix_literal 16 l
      else if one_of "oO" c then radix_literal 8 l
      else if one_of "bB" c then radix_literal 2 l
      else unsigned_decimal ("0"%char :: c :: l)
  | l => unsigned_decimal l
  end.

Example numbers :
  map js_Number [""; " 24 "; "24"; "+8"; "0x18"; "1e1"; "8.0"; "2.5"; "2.50e1"; "a"; "8a"; "."; "0b101";
                 "9007199254740991.4"; "24.000000000000000000001"; "-8"; "1e-400"]
  = [NInt 0; NInt 24; NInt 24; NInt 8; NInt 24; NInt 10; NInt 8; NNonInt; NInt 25; NNonInt; NNonInt; NNonInt;
     NInt 5; NInt 9007199254740991; NInt 24; NInt (-8); NInt 0].
Proof. vm_compute. reflexivity. Qed.

(** * JSON values and JavaScript coercions

    Request bodies reach the validators as [unknown]: the result of
    [JSON.parse].  An object is the list of its own enumerable properties in
    insertion order. *)

#[warnings="-register-all"]
Inductive json : Type :=
| JUndefined
| JNull
| JBool (b : bool)
| JNum (n : number)
| JStr (s : string)
| JArr (l : list json)
| JObj (fields : list (string * json)).

(** [Object.keys(o)] and [o[key]] *)
Definition keys (fields : list (string * json)) : list string := fields.*1.

Definition prop (key : string) (fields : list (string * json)) : json :=
  match find (λ kv, String.eqb kv.1 key) fields with
  | Some (_, v) => v
  | None => JUndefined
  end.

(** [String(n)]; the text of a non-integral number is only known not to be an
    integer literal, and no comparison in the modelled code depends on it. *)
Definition number_to_string (n : number) : string :=
  match n with NInt z => pretty z | NNonInt => "NaN" end.

Fixpoint join (sep : string) (l : list string) : string :=
  match l with
  | [] => ""
  | [s] => s
  | s :: l' => s +:+ sep +:+ join sep l'
  end.

(** [String(v)]: arrays join their elements with commas. *)
Fixpoint js_String (v : json) : string :=
  match v with
  | JUndefined => "undefined"
  | JNull => "null"
  | JBool b => if b then "true" else "false"
  | JNum n => number_to_string n
  | JStr s => s
  | JArr l =>
      join "," (map (λ x, match x with
                          | JUndefined | JNull => ""
                          | _ => js_String x
                          end) l)
  | JObj _ => "[object Object]"
  end.

(** [typeof v === 'string'] *)
Definition as_string (v : json) : option string :=
  match v with JStr s => Some s | _ => None end.

(** ** [JSON.stringify] *)

(** The text of a character inside a string. *)
Definition json_escape (c : ascii) : list ascii :=
  let n := nat_of_ascii c in
  let two x := ["\"%char; x] in
  let hex_digit (d : nat) := ascii_of_nat (if Nat.ltb d 10 then 48 + d else 87 + d) in
  if Ascii.eqb c "034" then two "034"%char
  else if Ascii.eqb c "\" then two "\"%char
  else if Nat.eqb n 8 then two "b"%char
  else if Nat.eqb n 9 then two "t"%char
  else if Nat.eqb n 10 then two "n"%char
  else if Nat.eqb n 12 then two "f"%char
  else if Nat.eqb n 13 then two "r"%char
  else if Nat.ltb n 32
  then ["\"; "u"; "0"; "0"]%char ++ [hex_digit (n / 16); hex_digit (n mod 16)]%nat
  else [c].

Definition escaped (s : string) : string :=
  string_of_list_ascii (concat (map json_escape (list_ascii_of_string s))).

Definition quote : string := String "034" "".
Definition json_text (s : string) : string := quote +:+ escaped s +:+ quote.
Definition json_member (key value : string) : string := json_text key +:+ ":" +:+ value.
Definition json_object (members : list string) : string := "{" +:+ join "," members +:+ "}".
Definition json_strings (l : list string) : string := "[" +:+ join "," (map json_text l) +:+ "]".

(** A text determines the string it came from. *)

Definition hex_value (c : ascii) : nat :=
  let n := nat_of_ascii c in if Nat.ltb n 58 then n - 48 else n - 87.

(** The first character of an escaped text and the rest; nothing at a quote. *)
Definition unescape (l : list ascii) : option (ascii * list ascii) :=
  match l with
  | "\"%char :: x :: l =>
      if Ascii.eqb x "b" then Some ("008"%char, l)
      else if Ascii.eqb x "t" then Some ("009"%char, l)
      else if Ascii.eqb x "n" then Some ("010"%char, l)
      else if Ascii.eqb x "f" then Some ("012"%char, l)
      else if Ascii.eqb x "r" then Some ("013"%char, l)
      else if Ascii.eqb x "u" then
        match l with
        | _ :: _ :: a :: b :: l => Some (ascii_of_nat (16 * hex_value a + hex_value b), l)
        | _ => None
        end
      else Some (x, l)
  | c :: l => if Ascii.eqb c "034" then None else Some (c, l)
  | [] => None
  end.

Lemma unescape_escape c l : unescape (json_escape c ++ l) = Some (c, l).
Proof. destruct c as [[] [] [] [] [] [] [] []]; vm_compute; reflexivity. Qed.

Lemma escapes_inj l l' r r' :
  concat (map json_escape l) ++ "034"%char :: r = concat (map json_escape l') ++ "034"%char :: r' →
  l = l' ∧ r = r'.
Proof.
  assert (∀ r, unescape ("034"%char :: r) = None) as Hq by done.
  revert l'. induction l as [|c l IH]; intros [|c' l'] Heq; simpl in Heq; rewrite <- ?app_assoc in Heq.
  - by injection Heq.
  - apply (f_equal unescape) in Heq. by rewrite unescape_escape, Hq in Heq.
  - apply (f_equal unescape) in Heq. by rewrite unescape_escape, Hq in Heq.
  - apply (f_equal unescape) in Heq. rewrite !unescape_escape in Heq.
    injection Heq as -> Heq. destruct (IH l' Heq) as [-> ->]. done.
Qed.

Lemma json_text_inj s t r r' : json_text s +:+ r = json_text t +:+ r' → s = t ∧ r = r'.
Proof.
  intros Heq. apply (f_equal list_ascii_of_string) in Heq.
  unfold json_text, escaped, quote in Heq.
  rewrite !list_ascii_app, !list_ascii_of_string_of_list_ascii in Heq. simpl in Heq.
  injection Heq as Heq. rewrite <- !app_assoc in Heq. simpl in Heq.
  apply escapes_inj in Heq as [Hl Hr]. split; by apply list_ascii_inj.
Qed.
