(* ===== verification/Cohort.v ===== *)
(** * Runtime cohorts

    src/apps/nehemiah/src/domain/runtime-cohort.ts: the signed set of kernel,
    Firecracker, jailer and root-filesystem digests a host must run, its
    canonical text, and the identifier derived from it.  [sha256] stands for
    node's [createHash('sha256')...digest('hex')]. *)

From S2P Require Import Prelude Text Js Capacity.

Definition newline : ascii := "010".

(** [arch] is the value read from the wire: the parser checks [String(arch)]
    and casts, so the field keeps whatever JSON value was sent. *)
Record RuntimeCohort := mkCohort {
  rc_id : string;
  rc_contractVersion : Z;
  rc_arch : json;
  rc_kernelSha256 : string;
  rc_firecrackerSha256 : string;
  rc_jailerSha256 : string;
  rc_pythonRootfsSha256 : string;
  rc_desktopRootfsSha256 : string
}.

Definition digestPattern : re := rep 64 64 (Chr hex_lower).

Definition cohortFields : list string :=
  ["id"; "contract_version"; "arch"; "kernel_sha256"; "firecracker_sha256";
   "jailer_sha256"; "python_rootfs_sha256"; "desktop_rootfs_sha256"].

Definition digestKeys : list string :=
  ["kernel_sha256"; "firecracker_sha256"; "jailer_sha256"; "python_rootfs_sha256";
   "desktop_rootfs_sha256"].

Definition databaseRuntimeArchitecture (a : Architecture) : string :=
  match a with X86_64 => "amd64" | Aarch64 => "arm64" end.

Inductive InvalidRuntimeCohort :=
| CohortFields
| CohortContents
| CohortArchitecture
| CohortIdMismatch.

Definition canonicalLines (cohort : RuntimeCohort) : list string :=
  ["contract_version=" +:+ pretty (rc_contractVersion cohort);
   "arch=" +:+ js_String (rc_arch cohort);
   "python=" +:+ rc_pythonRootfsSha256 cohort;
   "desktop=" +:+ rc_desktopRootfsSha256 cohort;
   "kernel=" +:+ rc_kernelSha256 cohort;
   "firecracker=" +:+ rc_firecrackerSha256 cohort;
   "jailer=" +:+ rc_jailerSha256 cohort;
   ""].

Definition canonicalRuntimeCohort (cohort : RuntimeCohort) : string :=
  join (String newline "") (canonicalLines cohort).

(** A property that is a string matching [digestPattern]. *)
Definition digest_prop (fields : list (string * json)) (key : string) : bool :=
  match prop key fields with JStr s => test digestPattern s | _ => false end.

Definition string_prop (fields : list (string * json)) (key : string) : string :=
  match prop key fields with JStr s => s | _ => "" end.

Definition is_contract4 (v : json) : bool :=
  match v with JNum (NInt z) => z =? 4 | _ => false end.

(** [left === right] against a string *)
Definition json_is_str (v : json) (s : string) : bool :=
  match v with JStr t => String.eqb t s | _ => false end.

Section cohort.
Context (sha256 : string → string).

Definition runtimeCohortId (cohort : RuntimeCohort) : string :=
  sha256 (canonicalRuntimeCohort cohort).

Definition cohortWithoutId (fields : list (string * json)) : RuntimeCohort :=
  mkCohort (string_prop fields "id") 4 (prop "arch" fields)
    (string_prop fields "kernel_sha256") (string_prop fields "firecracker_sha256")
    (string_prop fields "jailer_sha256") (string_prop fields "python_rootfs_sha256")
    (string_prop fields "desktop_rootfs_sha256").

Definition parseRuntimeCohort (value : json) (expected : option Architecture)
    : result InvalidRuntimeCohort RuntimeCohort :=
  match value with
  | JObj fields =>
      if negb (Nat.eqb (length (keys fields)) (length cohortFields))
         || existsb (λ key, negb (string_in key cohortFields)) (keys fields)
      then Err CohortFields
      else if negb (is_contract4 (prop "contract_version" fields))
         || negb (string_in (js_String (prop "arch" fields)) ["amd64"; "arm64"])
         || negb (digest_prop fields "id")
         || existsb (λ key, negb (digest_prop fields key)) digestKeys
      then Err CohortContents
      else
        let cohort := cohortWithoutId fields in
        if match expected with
           | Some a => negb (json_is_str (rc_arch cohort) (databaseRuntimeArchitecture a))
           | None => false
           end
        then Err CohortArchitecture
        else if negb (String.eqb (rc_id cohort) (runtimeCohortId cohort))
        then Err CohortIdMismatch
        else Ok cohort
  | _ => Err CohortFields
  end.

Definition runtimeCohortWire (cohort : RuntimeCohort) : json :=
  JObj [("id", JStr (rc_id cohort));
        ("contract_version", JNum (NInt (rc_contractVersion cohort)));
        ("arch", rc_arch cohort);
        ("kernel_sha256", JStr (rc_kernelSha256 cohort));
        ("firecracker_sha256", JStr (rc_firecrackerSha256 cohort));
        ("jailer_sha256", JStr (rc_jailerSha256 cohort));
        ("python_rootfs_sha256", JStr (rc_pythonRootfsSha256 cohort));
        ("desktop_rootfs_sha256", JStr (rc_desktopRootfsSha256 cohort))].
End cohort.

Inductive BuiltinTemplate := PythonTemplate | DesktopTemplate.

Definition runtimeSourceSha256 (cohort : RuntimeCohort) (template : BuiltinTemplate) : string :=
  match template with
  | PythonTemplate => rc_pythonRootfsSha256 cohort
  | DesktopTemplate => rc_desktopRootfsSha256 cohort
  end.

(** What an accepted cohort satisfies. *)
Definition cohort_digests (c : RuntimeCohort) : list string :=
  [rc_id c; rc_kernelSha256 c; rc_firecrackerSha256 c; rc_jailerSha256 c;
   rc_pythonRootfsSha256 c; rc_desktopRootfsSha256 c].

Definition valid_cohort (sha256 : string → string) (c : RuntimeCohort) : Prop :=
  rc_contractVersion c = 4 ∧
  (js_String (rc_arch c) = "amd64" ∨ js_String (rc_arch c) = "arm64") ∧
  Forall (λ s, test digestPattern s = true) (cohort_digests c) ∧
  rc_id c = runtimeCohortId sha256 c.

(** * Lemmas *)

Lemma digest_no_newline s : test digestPattern s = true → no_char newline s.
Proof.
  intros Hs. apply test_lang, lang_rep in Hs as [_ Hs]; [|lia].
  intros Hin. rewrite Forall_forall in Hs. by specialize (Hs newline Hin).
Qed.

Lemma arch_no_newline s : s = "amd64" ∨ s = "arm64" → no_char newline s.
Proof.
  intros [-> | ->]; unfold no_char; simpl; intros H;
    repeat (apply elem_of_cons in H as [H|H]; [done|]); by apply elem_of_nil in H.
Qed.

(** [key=value] followed by a newline determines the value and the rest. *)
Lemma line_inj (p s1 s2 r1 r2 : string) :
  no_char newline s1 → no_char newline s2 →
  (p +:+ s1) +:+ String newline "" +:+ r1 = (p +:+ s2) +:+ String newline "" +:+ r2 →
  s1 = s2 ∧ r1 = r2.
Proof.
  intros H1 H2 Heq. rewrite !string_app_assoc in Heq.
  apply string_app_cancel in Heq. by apply (split_sep newline).
Qed.

Section facts.
Context (sha256 : string → string).

Lemma valid_cohort_no_newline c :
  valid_cohort sha256 c →
  no_char newline (js_String (rc_arch c)) ∧
  Forall (no_char newline) (cohort_digests c).
Proof.
  intros (_ & Ha & Hd & _). split; [by apply arch_no_newline|].
  eapply Forall_impl; [exact Hd|apply digest_no_newline].
Qed.

(** The canonical text determines every signed field. *)
Lemma canonical_inj c1 c2 :
  valid_cohort sha256 c1 → valid_cohort sha256 c2 →
  canonicalRuntimeCohort c1 = canonicalRuntimeCohort c2 →
  js_String (rc_arch c1) = js_String (rc_arch c2) ∧
  tail (cohort_digests c1) = tail (cohort_digests c2).
Proof.
  intros V1 V2 Heq.
  destruct (valid_cohort_no_newline _ V1) as [A1 D1], V1 as [K1 _].
  destruct (valid_cohort_no_newline _ V2) as [A2 D2], V2 as [K2 _].
  unfold cohort_digests in *. rewrite !Forall_cons in D1, D2.
  unfold canonicalRuntimeCohort, canonicalLines, join in Heq.
  rewrite K1, K2 in Heq.
  do 2 apply string_app_cancel in Heq.
  destruct D1 as (? & ? & ? & ? & ? & ? & _), D2 as (? & ? & ? & ? & ? & ? & _).
  do 6 (apply line_inj in Heq as [? Heq]; [|done|done]).
  simpl. split; congruence.
Qed.

Lemma digest_prop_string fields key :
  digest_prop fields key = true → test digestPattern (string_prop fields key) = true.
Proof. unfold digest_prop, string_prop. by destruct (prop key fields). Qed.

Lemma parse_sound v e c :
  parseRuntimeCohort sha256 v e = Ok c →
  valid_cohort sha256 c ∧
  ∀ a, e = Some a → rc_arch c = JStr (databaseRuntimeArchitecture a).
Proof.
  unfold parseRuntimeCohort. intros H.
  destruct v as [| | | | | |fields]; try done.
  destruct (negb (Nat.eqb _ _) || _); [done|].
  destruct (negb (is_contract4 _) || _ || _ || _) eqn:E; [done|].
  destruct (match e with Some a => negb _ | None => false end) eqn:Ee; [done|].
  destruct (negb (String.eqb _ _)) eqn:Eid; [done|]. injection H as <-.
  cbn -[string_in] in E. bool_simp.
  match goal with H : string_in _ _ = true |- _ => apply string_in_spec in H as Harch end.
  split.
  - split_and!; simpl.
    + done.
    + set_solver.
    + unfold cohort_digests. simpl.
      repeat (constructor; [by apply digest_prop_string|]). constructor.
    + done.
  - intros a ->. unfold json_is_str in Ee. bool_simp. simpl in *.
    destruct (prop "arch" fields); try done. by bool_simp; subst.
Qed.

Lemma parse_complete e c :
  valid_cohort sha256 c →
  (∀ a, e = Some a → rc_arch c = JStr (databaseRuntimeArchitecture a)) →
  parseRuntimeCohort sha256 (runtimeCohortWire c) e = Ok c.
Proof.
  destruct c as [id k arch kern fc ja py de].
  intros (Hk & Ha & Hd & Hid) He. simpl in *. subst k.
  unfold cohort_digests in Hd. simpl in Hd. rewrite !Forall_cons in Hd.
  destruct Hd as (D1 & D2 & D3 & D4 & D5 & D6 & _).
  unfold parseRuntimeCohort, runtimeCohortWire, digest_prop.
  assert (string_in (js_String arch) ["amd64"; "arm64"] = true) as Hin
    by (apply string_in_spec; set_solver).
  cbn -[test runtimeCohortId] in Hin |- *.
  rewrite Hin, D1, D2, D3, D4, D5, D6. cbn -[runtimeCohortId].
  destruct e as [a|].
  - rewrite (He a eq_refl). simpl. rewrite String.eqb_refl. simpl.
    rewrite (He a eq_refl) in Hid.
    unfold cohortWithoutId, string_prop; cbn -[runtimeCohortId].
    by rewrite <- Hid, String.eqb_refl.
  - unfold cohortWithoutId, string_prop; cbn -[runtimeCohortId].
    by rewrite <- Hid, String.eqb_refl.
Qed.

(** * Properties *)

(** The parser accepts the wire form of a cohort exactly when the cohort
    is contract version 4, names a supported architecture (the host's, when
    one is expected), has well-formed digests and carries the identifier
    derived from its canonical text; it then returns the cohort unchanged. *)
Theorem cohort_wire_roundtrip c e :
  parseRuntimeCohort sha256 (runtimeCohortWire c) e = Ok c ↔
  valid_cohort sha256 c ∧
  ∀ a, e = Some a → rc_arch c = JStr (databaseRuntimeArchitecture a).
Proof. split; [apply parse_sound|intros []; by apply parse_complete]. Qed.

(** The cohort identifier pins the signed contents.  Two accepted cohorts
    with the same identifier agree on the architecture and on every digest,
    unless their canonical texts are a SHA-256 collision. *)
Theorem cohort_id_pins_contents v1 v2 e1 e2 c1 c2 :
  parseRuntimeCohort sha256 v1 e1 = Ok c1 →
  parseRuntimeCohort sha256 v2 e2 = Ok c2 →
  rc_id c1 = rc_id c2 →
  (js_String (rc_arch c1) = js_String (rc_arch c2) ∧
   tail (cohort_digests c1) = tail (cohort_digests c2)) ∨
  (canonicalRuntimeCohort c1 ≠ canonicalRuntimeCohort c2 ∧
   sha256 (canonicalRuntimeCohort c1) = sha256 (canonicalRuntimeCohort c2)).
Proof.
  intros [V1 _]%parse_sound [V2 _]%parse_sound Hid.
  destruct (decide (canonicalRuntimeCohort c1 = canonicalRuntimeCohort c2)) as [Hc|Hc].
  - left. by apply canonical_inj.
  - right. split; [done|].
    destruct V1 as (_ & _ & _ & I1), V2 as (_ & _ & _ & I2).
    unfold runtimeCohortId in *. congruence.
Qed.
End facts.

(** ** Witnesses *)

Definition sample_digest : string :=
  "0123456789abcdef0123456789abcdef0123456789abcdef0123456789abcdef".

Definition sample_cohort (arch : json) : RuntimeCohort :=
  mkCohort sample_digest 4 arch sample_digest sample_digest sample_digest sample_digest
    sample_digest.

Definition constant_hash (_ : string) : string := sample_digest.

Lemma cohort_id_pins_contents_witness :
  let c := sample_cohort (JStr "amd64") in
  (js_String (rc_arch c) = js_String (rc_arch c) ∧
   tail (cohort_digests c) = tail (cohort_digests c)) ∨
  (canonicalRuntimeCohort c ≠ canonicalRuntimeCohort c ∧
   constant_hash (canonicalRuntimeCohort c) = constant_hash (canonicalRuntimeCohort c)).
Proof.
  intros c.
  apply (cohort_id_pins_contents constant_hash (runtimeCohortWire c) (runtimeCohortWire c)
           (Some X86_64) None c c); by vm_compute.
Defined.

(** Without an expected architecture (the heartbeat route) the guard
    [includes(String(input.arch))] also lets through a one-element array, which
    the cast then types as an architecture. *)
Example parse_accepts_array_arch :
  parseRuntimeCohort constant_hash
    (runtimeCohortWire (sample_cohort (JArr [JStr "amd64"]))) None
  = Ok (sample_cohort (JArr [JStr "amd64"])).
Proof. vm_compute. reflexivity. Qed.
