(* ===== verification/Numeric.v ===== *)
(** * Numbers of JavaScript and PostgreSQL

    The binary64 arithmetic of JavaScript on non-negative numbers, the decimal
    text a number is sent to the database as, and the rounding of PostgreSQL's
    [numeric]: on assignment to [numeric(30, 9)] and in a division.  A number is
    the rational it stands for.  The quantities of the usage ledger, the only
    fractions the code computes, lie far within the normal range of binary64, so
    subnormals and infinity do not occur. *)

From Stdlib Require Import QArith Qround Qpower Qabs Lqa.
From S2P Require Import Prelude.
Open Scope Z_scope.

(** ** binary64 *)

Definition Qpow2 (e : Z) : Q := Qpower 2 e.
Definition Qpow10 (e : Z) : Q := Qpower 10 e.

(** To the nearest integer, ties to even. *)
Definition round_even (x : Q) : Z :=
  let f := Qfloor x in
  match Qcompare (x - inject_Z f) (1 # 2) with
  | Lt => f
  | Gt => f + 1
  | Eq => if Z.even f then f else f + 1
  end.

(** The exponent of a positive rational: [2 ^ e <= x < 2 ^ (e + 1)]. *)
Definition exponent (x : Q) : Z :=
  let e := Z.log2 (Qnum x) - Z.log2 (QDen x) in
  if Qle_bool (Qpow2 e) x then e else e - 1.

(** The binary64 number nearest to a non-negative rational: 53 significant bits. *)
Definition binary64 (x : Q) : Q :=
  if Qle_bool x 0 then 0%Q
  else
    let ulp := Qpow2 (exponent x - 52) in
    Qred (inject_Z (round_even (x / ulp)) * ulp).

Definition js_mul (a b : Q) : Q := binary64 (a * b).
Definition js_div (a b : Q) : Q := binary64 (a / b).

(** [Number.prototype.toString]: the shortest decimal that reads back as [x], and
    of those the nearest, searched from [k] fractional digits on. *)
Fixpoint shortest_decimal (fuel : nat) (k : Z) (x : Q) : Q :=
  match fuel with
  | O => x
  | S fuel =>
      let t := (x * Qpow10 k)%Q in
      let low := Qfloor t in
      let below := Qred (inject_Z low * Qpow10 (- k)) in
      let above := Qred (inject_Z (low + 1) * Qpow10 (- k)) in
      let '(near, far) := if Qle_bool (t - inject_Z low) (1 # 2) then (below, above) else (above, below) in
      if Qeq_bool (binary64 near) x then near
      else if Qeq_bool (binary64 far) x then far
      else shortest_decimal fuel (k + 1) x
  end.

(** No decimal of a number below [2 ^ (n + 1)] with more than [n / 3] zeros before
    the point is shorter, and 340 further digits reach the last of them. *)
Definition js_decimal (x : Q) : Q :=
  let zeros := Z.log2 (Z.max 1 (Qfloor x)) / 3 in
  shortest_decimal (Z.to_nat (zeros + 340)) (- zeros) x.

(** ** numeric *)

(** Rounding half away from zero of [a / b], for [0 <= a] and [0 < b]. *)
Definition round_half (a b : Z) : Z := (2 * a + b) / (2 * b).

(** Assignment to [numeric(30, 9)]: the value in units of its last digit. *)
Definition numeric_9 (x : Q) : Z := round_half (Qnum x * 10 ^ 9) (QDen x).

(** The weight and the value of the first base-10000 digit of [c / 10 ^ s]. *)
Definition nbase_head (c s : Z) : Z * Z :=
  if c =? 0 then (0, 0)
  else
    let w := (Z.of_nat (String.length (pretty c)) - 1 - s) / 4 in
    (w, (c * 10000 ^ Z.max 0 (- w)) / (10 ^ s * 10000 ^ Z.max 0 w)).

(** [select_div_scale]: at least sixteen significant digits. *)
Definition div_scale (c1 s1 c2 s2 : Z) : Z :=
  let '(w1, f1) := nbase_head c1 s1 in
  let '(w2, f2) := nbase_head c2 s2 in
  let qweight := w1 - w2 - (if f1 <=? f2 then 1 else 0) in
  Z.min 1000 (Z.max (16 - qweight * 4) (Z.max s1 (Z.max s2 0))).

(** [c1 / 10 ^ s1 / (c2 / 10 ^ s2)]: the coefficient and the scale of the quotient. *)
Definition numeric_div (c1 s1 c2 s2 : Z) : Z * Z :=
  let r := div_scale c1 s1 c2 s2 in (round_half (c1 * 10 ^ s2 * 10 ^ r) (c2 * 10 ^ s1), r).

(** A quotient of integers stored in a [numeric(30, 9)] column. *)
Definition quotient_9 (a b : Z) : Z :=
  let '(c, r) := numeric_div a 0 b 0 in round_half (c * 10 ^ 9) (10 ^ r).

(** ** How near they are *)

(** One part in [2 ^ 53]: half a unit in the last place. *)
Abbreviation half_ulp := (1 # 9007199254740992)%Q.

Definition ulp_near (a b : Q) : Prop := (b * (1 - half_ulp) <= a <= b * (1 + half_ulp))%Q.

Lemma Qpow2_pos e : (0 < Qpow2 e)%Q.
Proof. by apply Qpower_0_lt. Qed.

Lemma Qpow2_plus a b : (Qpow2 (a + b) == Qpow2 a * Qpow2 b)%Q.
Proof. unfold Qpow2. by apply Qpower_plus. Qed.

Lemma Qpow10_cancel k : (Qpow10 k * Qpow10 (- k) == 1)%Q.
Proof. unfold Qpow10. rewrite <- Qpower_plus by done. by rewrite Z.add_opp_diag_r. Qed.

Lemma Qpow2_inject n : 0 <= n → (Qpow2 n == inject_Z (2 ^ n))%Q.
Proof. intros Hn. unfold Qpow2. change 2%Q with (inject_Z 2). by rewrite <- Zpower_Qpower. Qed.

Lemma round_even_near x : (Qabs (inject_Z (round_even x) - x) <= 1 # 2)%Q.
Proof.
  unfold round_even. pose proof (Qfloor_le x) as Hl. pose proof (Qlt_floor x) as Hu.
  rewrite inject_Z_plus in Hu. change (inject_Z 1) with 1%Q in Hu.
  apply Qabs_Qle_condition. set (f := Qfloor x) in *.
  destruct (Qcompare_spec (x - inject_Z f) (1 # 2)) as [E|E|E]; [destruct (Z.even f)|..];
    rewrite ?inject_Z_plus; change (inject_Z 1) with 1%Q; clearbody f; split; lra.
Qed.

(** The exponent is not too large, which is all a rounding error needs. *)
Lemma exponent_le x : (0 < x)%Q → (Qpow2 (exponent x) <= x)%Q.
Proof.
  intros Hx. unfold exponent. destruct (Qle_bool _ x) eqn:E; [by apply Qle_bool_iff|].
  destruct x as [n d]. assert (0 < n) as Hn by (unfold Qlt in Hx; simpl in Hx; lia). simpl.
  pose proof (Z.log2_spec n Hn) as [Hl _]. pose proof (Z.log2_spec (Z.pos d) ltac:(lia)) as [_ Hd].
  pose proof (Z.log2_nonneg n). pose proof (Z.log2_nonneg (Z.pos d)).
  set (a := Z.log2 n) in *. set (b := Z.log2 (Z.pos d)) in *.
  assert (Qpow2 (a - b - 1) * Qpow2 (b + 1) == Qpow2 a)%Q as Hp
    by (rewrite <- Qpow2_plus; by replace (a - b - 1 + (b + 1)) with a by lia).
  rewrite (Qpow2_inject a), (Qpow2_inject (b + 1)) in Hp by lia.
  apply (Qmult_le_r _ _ (inject_Z (Z.pos d))); [done|].
  assert ((n # d) * inject_Z (Z.pos d) == inject_Z n)%Q as ->
    by (unfold Qeq, Qmult, inject_Z; simpl; lia).
  apply Qle_trans with (inject_Z (2 ^ a)); [|by rewrite <- Zle_Qle].
  rewrite <- Hp. apply Qmult_le_l; [apply Qpow2_pos|]. rewrite <- Zle_Qle. rewrite Z.add_1_r. lia.
Qed.

Lemma binary64_near x : (0 <= x)%Q → ulp_near (binary64 x) x.
Proof.
  intros Hx. unfold ulp_near, binary64. destruct (Qle_bool x 0) eqn:E.
  { apply Qle_bool_iff in E. split; lra. }
  assert (0 < x)%Q as Hpos.
  { apply Qnot_le_lt. intros H%Qle_bool_iff. congruence. }
  rewrite Qred_correct. pose proof (exponent_le x Hpos) as He.
  set (e := exponent x) in *. set (u := Qpow2 (e - 52)).
  assert (0 < u)%Q as Hu by apply Qpow2_pos.
  assert (u <= x * (1 # 4503599627370496))%Q as Hux.
  { assert (u == Qpow2 e * (1 # 4503599627370496))%Q as ->.
    { unfold u, Z.sub. rewrite Qpow2_plus. by apply Qmult_comp. }
    by apply Qmult_le_compat_r. }
  pose proof (round_even_near (x / u)) as Hr. apply Qabs_Qle_condition in Hr.
  set (r := inject_Z (round_even (x / u))) in *.
  assert (x / u * u == x)%Q as Hxu by (field; intros H0; rewrite H0 in Hu; by apply Qlt_irrefl in Hu).
  assert (- (1 # 2) * u <= (r - x / u) * u <= (1 # 2) * u)%Q as [H1 H2]
    by (split; apply Qmult_le_compat_r; tauto || lra).
  assert ((r - x / u) * u == r * u - x)%Q as Hd by (apply Qeq_trans with (r * u - x / u * u)%Q; [ring|by rewrite Hxu]).
  rewrite Hd in H1, H2. clearbody r u. clear Hr Hd Hxu He. split; lra.
Qed.

Lemma binary64_nonneg x : (0 <= x)%Q → (0 <= binary64 x)%Q.
Proof. intros Hx. destruct (binary64_near x Hx). lra. Qed.

Lemma shortest_decimal_near fuel : ∀ k x,
  (0 <= x)%Q →
  (0 <= shortest_decimal fuel k x)%Q ∧
  (ulp_near x (shortest_decimal fuel k x) ∨ shortest_decimal fuel k x = x).
Proof.
  induction fuel as [|fuel IH]; intros k x Hx; cbn [shortest_decimal]; [auto|].
  set (t := (x * Qpow10 k)%Q). set (low := Qfloor t).
  assert (0 < Qpow10 (- k))%Q as Hk by by apply Qpower_0_lt.
  assert (0 <= low) as Hlow.
  { unfold low. change 0 with (Qfloor 0). apply Qfloor_resp_le. unfold t.
    apply Qmult_le_0_compat; [done|]. apply Qlt_le_weak. by apply Qpower_0_lt. }
  assert (∀ c y, 0 <= c → y = Qred (inject_Z c * Qpow10 (- k)) → (0 <= y)%Q) as Hnn.
  { intros c y Hc ->. rewrite Qred_correct. apply Qmult_le_0_compat; [|lra].
    change 0%Q with (inject_Z 0). by rewrite <- Zle_Qle. }
  assert (∀ y, (0 <= y)%Q → Qeq_bool (binary64 y) x = true → (0 <= y)%Q ∧ (ulp_near x y ∨ y = x)) as Hback.
  { intros y Hy E%Qeq_bool_iff. split; [done|left]. pose proof (binary64_near y Hy) as H.
    unfold ulp_near in *. split; lra. }
  set (below := Qred (inject_Z low * Qpow10 (- k))). set (above := Qred (inject_Z (low + 1) * Qpow10 (- k))).
  assert (0 <= below)%Q as Hb by by apply (Hnn low).
  assert (0 <= above)%Q as Ha by (apply (Hnn (low + 1)); [lia|done]).
  clearbody below above.
  assert (∀ near far, (0 <= near)%Q → (0 <= far)%Q →
    let r := if Qeq_bool (binary64 near) x then near else if Qeq_bool (binary64 far) x then far
             else shortest_decimal fuel (k + 1) x in
    (0 <= r)%Q ∧ (ulp_near x r ∨ r = x)) as Hpick.
  { intros near far Hn Hf. simpl. destruct (Qeq_bool (binary64 near) x) eqn:E1; [by apply Hback|].
    destruct (Qeq_bool (binary64 far) x) eqn:E2; [by apply Hback|by apply IH]. }
  destruct (Qle_bool _ _); by apply Hpick.
Qed.

Lemma round_half_near a b :
  0 <= a → 0 < b → 2 * b * round_half a b - b <= 2 * a <= 2 * b * round_half a b + b.
Proof. intros Ha Hb. unfold round_half. pose proof (Z.mul_div_le (2 * a + b) (2 * b)). pose proof (Z.mul_succ_div_gt (2 * a + b) (2 * b)). lia. Qed.

Lemma numeric_9_near x :
  (0 <= x)%Q → (x * inject_Z (10 ^ 9) - (1 # 2) <= inject_Z (numeric_9 x) <= x * inject_Z (10 ^ 9) + (1 # 2))%Q.
Proof.
  intros Hx. destruct x as [n d]. assert (0 <= n) by (unfold Qle in Hx; simpl in Hx; lia).
  unfold numeric_9. cbn [Qnum Qden].
  pose proof (round_half_near (n * 10 ^ 9) (Z.pos d) ltac:(lia) ltac:(lia)) as Hr.
  set (r := round_half _ _) in *.
  assert (((n # d) * inject_Z (10 ^ 9)) * inject_Z (Z.pos d) == inject_Z (n * 10 ^ 9))%Q as Hq
    by (unfold Qeq, Qmult, inject_Z; simpl; lia).
  assert (0 < inject_Z (Z.pos d))%Q as Hd by done.
  assert (2 * inject_Z (Z.pos d) * inject_Z r - inject_Z (Z.pos d) <= 2 * inject_Z (n * 10 ^ 9)
    <= 2 * inject_Z (Z.pos d) * inject_Z r + inject_Z (Z.pos d))%Q as [H1 H2].
  { change 2%Q with (inject_Z 2). unfold Qminus. rewrite <- !inject_Z_opp, <- !inject_Z_mult, <- !inject_Z_plus, <- !Zle_Qle. lia. }
  rewrite <- Hq in H1, H2. set (v := ((n # d) * inject_Z (10 ^ 9))%Q) in *. clearbody v.
  split; apply (Qmult_le_r _ _ (inject_Z (Z.pos d)) Hd); lra.
Qed.

Lemma round_half_nonneg a b : 0 <= a → 0 < b → 0 <= round_half a b.
Proof. intros. unfold round_half. apply Z.div_pos; lia. Qed.

Lemma numeric_9_nonneg x : (0 <= x)%Q → 0 <= numeric_9 x.
Proof.
  intros Hx. destruct x as [n d]. unfold Qle in Hx. simpl in Hx. apply round_half_nonneg; simpl; lia.
Qed.

(** ** Stored products *)

(** What is stored of a product computed in binary64, against the exact product:
    a few roundings to 53 bits and one to nine digits. *)
Definition stored_near (stored : Z) (exact : Q) : Prop :=
  (exact * inject_Z (10 ^ 9) * (1 - (1 # 1125899906842624)) - (1 # 2) <= inject_Z stored
     <= exact * inject_Z (10 ^ 9) * (1 + (1 # 1125899906842624)) + (1 # 2))%Q.

(** [a / x] and [b / y], each rounded, multiplied, rounded and sent. *)
Lemma stored_product a b (x y : Q) :
  (0 <= a)%Q → (0 <= b)%Q → ulp_near x a → ulp_near y b →
  stored_near (numeric_9 (js_decimal (js_mul x y))) (a * b).
Proof.
  unfold ulp_near at 1 2. intros Ha Hb [Hx1 Hx2] [Hy1 Hy2].
  assert (0 <= x)%Q as Hx by lra. assert (0 <= y)%Q as Hy by lra.
  assert (0 <= a * b)%Q as Hab by by apply Qmult_le_0_compat.
  set (u := half_ulp) in *.
  assert (x * y <= a * b * ((1 + u) * (1 + u)))%Q as Hup.
  { apply Qle_trans with (a * (1 + u) * y)%Q; [by apply Qmult_le_compat_r|].
    assert (0 <= a * (1 + u))%Q as H0 by (subst u; lra).
    apply Qle_trans with (a * (1 + u) * (b * (1 + u)))%Q; [|by apply Qle_lteq; right; ring].
    rewrite (Qmult_comm _ y), (Qmult_comm _ (b * (1 + u))). by apply Qmult_le_compat_r. }
  assert (a * b * ((1 - u) * (1 - u)) <= x * y)%Q as Hlo.
  { apply Qle_trans with (a * (1 - u) * y)%Q; [|by apply Qmult_le_compat_r].
    assert (0 <= a * (1 - u))%Q as H0 by (subst u; lra).
    apply Qle_trans with (a * (1 - u) * (b * (1 - u)))%Q; [by apply Qle_lteq; right; ring|].
    rewrite (Qmult_comm _ y), (Qmult_comm _ (b * (1 - u))). by apply Qmult_le_compat_r. }
  assert (0 <= x * y)%Q as Hxy by by apply Qmult_le_0_compat.
  pose proof (binary64_near (x * y) Hxy) as [Hp1 Hp2]. pose proof (binary64_nonneg (x * y) Hxy) as Hp.
  unfold js_mul. set (p := binary64 (x * y)) in *. clearbody p.
  pose proof (shortest_decimal_near (Z.to_nat (Z.log2 (Z.max 1 (Qfloor p)) / 3 + 340))
    (- (Z.log2 (Z.max 1 (Qfloor p)) / 3)) p Hp) as [Ht Hnear].
  fold (js_decimal p) in Ht, Hnear. set (t := js_decimal p) in *. clearbody t.
  assert (p * (1 - u) <= t * (1 - u) * (1 + u) ∧ t * (1 - u) <= p)%Q as [Ht1 Ht2].
  { destruct Hnear as [Hn| ->].
    - unfold ulp_near in Hn. fold u in Hn. destruct Hn as [H1 H2]. split; [|lra]. assert (0 <= 1 - u)%Q as H0 by (subst u; lra).
      rewrite <- Qmult_assoc, (Qmult_comm (1 - u) (1 + u)), Qmult_assoc. by apply Qmult_le_compat_r.
    - split; subst u; lra. }
  pose proof (numeric_9_near t Ht) as [Hn1 Hn2]. unfold stored_near. set (s := inject_Z (numeric_9 t)) in *.
  clearbody s. set (e := (a * b)%Q) in *. set (q := (x * y)%Q) in *. clearbody e q.
  change (inject_Z (10 ^ 9)) with 1000000000%Q in *. fold u in Hp1, Hp2. subst u. clear Hnear.
  split; lra.
Qed.

Lemma ulp_near_refl x : (0 <= x)%Q → ulp_near x x.
Proof. intros Hx. unfold ulp_near. split; lra. Qed.

Lemma stored_near_eq stored x y : (x == y)%Q → stored_near stored x → stored_near stored y.
Proof. intros Heq. unfold stored_near. by rewrite Heq. Qed.

(** Rounding errors of several rows add up. *)
Definition total_near (stored : Z) (exact : Q) (rows : Z) : Prop :=
  (exact * inject_Z (10 ^ 9) * (1 - (1 # 1125899906842624)) - inject_Z rows * (1 # 2) <= inject_Z stored
     <= exact * inject_Z (10 ^ 9) * (1 + (1 # 1125899906842624)) + inject_Z rows * (1 # 2))%Q.

Lemma total_near_add stored exact stored' exact' rows :
  stored_near stored exact → total_near stored' exact' rows →
  total_near (stored + stored') (exact + exact') (1 + rows).
Proof.
  unfold stored_near, total_near. rewrite !inject_Z_plus. change (inject_Z 1) with 1%Q.
  change (inject_Z (10 ^ 9)) with 1000000000%Q. intros [H1 H2] [H3 H4]. split; lra.
Qed.

Lemma total_near_zero : total_near 0 0 0.
Proof. unfold total_near. change (inject_Z (10 ^ 9)) with 1000000000%Q. change (inject_Z 0) with 0%Q. split; lra. Qed.

Lemma total_near_eq stored x y rows : (x == y)%Q → total_near stored x rows → total_near stored y rows.
Proof. intros Heq. unfold total_near. by rewrite Heq. Qed.

(** What the definitions compute. *)
Example js_three_tenths : (js_decimal (js_mul (js_div 1 10) 3) == 0.30000000000000004)%Q.
Proof. vm_compute. reflexivity. Qed.
Example stored_gib_seconds :
  numeric_9 (js_decimal (js_mul (js_div 1001 1000) (js_div 1000 1024))) = 977539062.
Proof. vm_compute. reflexivity. Qed.
Example quotient_third : numeric_div 1 0 3 0 = (33333333333333333333, 20%Z).
Proof. vm_compute. reflexivity. Qed.
Example js_large : (js_decimal (binary64 1208925819614629174706176) == 1208925819614629200000000)%Q.
Proof. vm_compute. reflexivity. Qed.
