(* ===== verification/Metering.v ===== *)
(** * Authoritative metering

    src/apps/nehemiah/src/billing/metering.ts.  A host reports cumulative
    counters per machine lease as a sequence of observations (start, checkpoint,
    final).  The control plane validates a batch, stores the immutable
    observations, drains every observation that is next in sequence, and
    projects the counter deltas into the append-only usage ledgers; evidence it
    cannot defend quarantines the meter and the host.

    Dates are milliseconds since the epoch, counters are unsigned integers kept
    as [Z] with the bounds the validators check.  Identifiers in [uuid] columns are
    read in any case and kept in lower case.  [sha256] is node's digest and
    [Date_parse] JavaScript's date parsing. *)

From S2P Require Import Prelude Text Js Numeric.

Definition maxSignedBigint : Z := 9223372036854775807.
Definition maxUnsignedBigint : Z := 18446744073709551615.
Definition maximumClockLeadMs : Z := 5 * 60 * 1000.
Definition maximumWallDivergenceMs : Z := 5 * 60 * 1000.
Definition nanosecondsPerMillisecond : Z := 1000000.
Definition nanosecondsPerSecond : Z := 1000000000.
Definition bytesPerGibibyte : Z := 1073741824.
Definition bytesPerMebibyte : Z := 1048576.
Definition maximumForwardSequenceWindow : Z := 64.
Definition maximumPendingObservationsPerHost : Z := 2048.
Definition minimumMeteringBatchIntervalMs : Z := 1000.
Definition minimumCheckpointRuntimeDeltaNs : Z := 4 * nanosecondsPerSecond.
Definition managedEgressBytesPerSecond : Z := 8000000.
Definition managedEgressBurstBytes : Z := 1048576.
Definition maximumExactFinalLeadMs : Z := 30000.

Inductive MeteringError :=
| MeteringInputError (message : string)
| MeteringHostLifecycleError
| MeteringRateLimitError
| InternalError (message : string)
| RangeError
| OutOfFuel.

(** ** Observations *)

Record HostUsageObservation := mkObservation {
  machineId : string;
  hostMachineId : string;
  leaseId : string;
  leaseGeneration : string;
  hostBootId : string;
  sequence : string;
  kind : string;
  quality : string;
  qualityReason : string;
  runtimeNs : string;
  egressBytes : string;
  egressCounterEpoch : string;
  observedMonotonicNs : string;
  observedAt : string;
  obs_vcpus : number;
  memoryBytes : string;
  processId : number
}.

Inductive Outcome :=
| Accepted | Duplicate | PendingGap | Quarantined | RejectedPayloadConflict.

#[export] Instance Outcome_eq_dec : EqDecision Outcome.
Proof. solve_decision. Defined.

Record Receipt := mkReceipt {
  r_leaseId : string;
  r_leaseGeneration : string;
  r_hostBootId : string;
  r_sequence : string;
  r_outcome : Outcome;
  acknowledged : bool
}.

Definition receiptFor (observation : HostUsageObservation) (outcome : Outcome) : Receipt :=
  mkReceipt (leaseId observation) (leaseGeneration observation) (hostBootId observation)
    (sequence observation) outcome true.

(** ** Rows *)

(** The columns of [machines] that metering reads and writes. *)
Record MachineRow := mkMachineRow {
  organization_id : string;
  project_id : string;
  host_id : string;
  host_machine_id : string;
  lease_id : string;
  lease_generation : Z;
  vcpus : Z;
  memory_mb : Z;
  created_at : Z;
  started_at : option Z;
  state : string;
  expires_at : Z;
  usage_checkpoint_at : option Z;
  usage_finalized_at : option Z
}.
#[export] Instance MachineRow_eta : Settable MachineRow := λ r,
  mkMachineRow (organization_id r) (project_id r) (host_id r) (host_machine_id r)
    (lease_id r) (lease_generation r) (vcpus r) (memory_mb r) (created_at r)
    (started_at r) (state r) (expires_at r) (usage_checkpoint_at r) (usage_finalized_at r).

(** [memory_mb::bigint * 1048576 AS memory_bytes] *)
Definition memory_bytes (m : MachineRow) : Z := memory_mb m * bytesPerMebibyte.

Record StoredObservation := mkStored {
  so_id : Z;
  so_host_id : string;
  so_machine_id : string;
  so_host_machine_id : string;
  so_lease_id : string;
  so_lease_generation : Z;
  so_host_boot_id : string;
  so_sequence : Z;
  so_kind : string;
  so_quality : string;
  so_quality_reason : string;
  so_runtime_ns : Z;
  so_egress_bytes : Z;
  so_egress_counter_epoch : Z;
  so_observed_monotonic_ns : Z;
  so_observed_at : Z;
  so_received_at : Z;
  so_payload_hash : string
}.

Record MeterState := mkMeterState {
  ms_host_id : string;
  ms_host_machine_id : string;
  ms_lease_id : string;
  ms_lease_generation : Z;
  host_boot_id : string;
  last_sequence : Z;
  last_runtime_ns : Z;
  projected_runtime_ns : Z;
  start_monotonic_ns : option Z;
  last_observed_monotonic_ns : option Z;
  last_egress_bytes : Z;
  egress_counter_epoch : Z;
  start_seen : bool;
  final_seen : bool;
  last_observed_at : option Z;
  last_period_end : option Z;
  last_received_at : option Z;
  loss_closed_at : option Z;
  quarantined_at : option Z;
  quarantine_reason : option string
}.
#[export] Instance MeterState_eta : Settable MeterState := λ r,
  mkMeterState (ms_host_id r) (ms_host_machine_id r) (ms_lease_id r) (ms_lease_generation r)
    (host_boot_id r) (last_sequence r) (last_runtime_ns r) (projected_runtime_ns r)
    (start_monotonic_ns r) (last_observed_monotonic_ns r) (last_egress_bytes r)
    (egress_counter_epoch r) (start_seen r) (final_seen r) (last_observed_at r)
    (last_period_end r) (last_received_at r) (loss_closed_at r) (quarantined_at r)
    (quarantine_reason r).

Inductive Dimension := Compute_ | Memory_ | Egress_.
Inductive Unit_ := VcpuNanosecond | ByteNanosecond | Byte.

#[export] Instance Dimension_eq_dec : EqDecision Dimension.
Proof. solve_decision. Defined.

Record RawUsageEvent := mkRaw {
  raw_key : string;
  raw_observation_id : Z;
  raw_machine_id : string;
  raw_organization_id : string;
  raw_project_id : string;
  raw_dimension : Dimension;
  raw_unit : Unit_;
  raw_quantity : Z;
  raw_period_start : Z;
  raw_period_end : Z
}.

(** [usage_events.quantity], a [numeric(30, 9)], in units of its last digit.  The
    counters are 64 bits wide and sizes 32, so no quantity has 21 digits before the
    point. *)
Record UsageEventRow := mkUsageEvent {
  ue_key : string;
  ue_machine_id : string;
  ue_organization_id : string;
  ue_project_id : string;
  ue_dimension : string;
  ue_quantity : Z;
  ue_period_start : Z;
  ue_period_end : Z;
  ue_source : string
}.

(** A row of [usage_outbox]: an interval of the legacy producer and the state
    of its delivery to the ledger. *)
Record OutboxRow := mkOutbox {
  ob_key : string;
  ob_organization_id : string;
  ob_project_id : string;
  ob_machine_id : string;
  ob_vcpus : Z;
  ob_memory_mb : Z;
  ob_period_start : Z;
  ob_period_end : Z;
  ob_final : bool;
  ob_source : string;
  ob_created_at : Z;
  ob_attempts : Z;
  ob_next_attempt_at : Z;
  ob_claim_token : option string;
  ob_claimed_until : option Z;
  ob_processed_at : option Z;
  ob_last_error : option string
}.
#[export] Instance OutboxRow_eta : Settable OutboxRow := λ r,
  mkOutbox (ob_key r) (ob_organization_id r) (ob_project_id r) (ob_machine_id r) (ob_vcpus r)
    (ob_memory_mb r) (ob_period_start r) (ob_period_end r) (ob_final r) (ob_source r)
    (ob_created_at r) (ob_attempts r) (ob_next_attempt_at r) (ob_claim_token r)
    (ob_claimed_until r) (ob_processed_at r) (ob_last_error r).

(** The row an INSERT of the interval makes: the delivery columns take their
    defaults. *)
Definition new_outbox_row (now : Z) (key org project machine : string) (cpus memory start end_ : Z)
    (final : bool) : OutboxRow :=
  mkOutbox key org project machine cpus memory start end_ final "reconciler" now 0 now None None
    None None.

Record ExceptionRow := mkException {
  ex_key : string;
  ex_host_id : string;
  ex_machine_id : string;
  ex_lease_id : string;
  ex_lease_generation : Z;
  ex_host_boot_id : option string;
  ex_sequence : option Z;
  ex_reason : string
}.

Record ResolutionRow := mkResolution {
  rs_exception_key : string;
  rs_resolution : string
}.

(** The columns of [hosts] that metering reads and writes. *)
Record HostRow := mkHostRow {
  desired_state : string;
  h_state : string;
  credential_status : string;
  credential_generation : Z;
  credential_hash : option string;
  control_credential_ciphertext : option string;
  gateway_credential_ciphertext : option string;
  credential_revoked_at : option Z;
  reported_available_vcpus : option Z;
  reported_available_memory_mb : option Z;
  reported_available_disk_mb : option Z;
  reported_machine_count : option Z;
  lifecycle_reason : option string;
  last_metering_batch_at : option Z;
  metering_quarantined_at : option Z
}.
#[export] Instance HostRow_eta : Settable HostRow := λ r,
  mkHostRow (desired_state r) (h_state r) (credential_status r) (credential_generation r)
    (credential_hash r) (control_credential_ciphertext r) (gateway_credential_ciphertext r)
    (credential_revoked_at r) (reported_available_vcpus r) (reported_available_memory_mb r)
    (reported_available_disk_mb r) (reported_machine_count r) (lifecycle_reason r)
    (last_metering_batch_at r) (metering_quarantined_at r).

Record AuditRow := mkAudit {
  au_key : string;
  au_action : string;
  au_resource_id : string;
  au_reason : string
}.

Record MeterDb := mkMeterDb {
  machines : gmap string MachineRow;
  hosts : gmap string HostRow;
  meter_state : gmap string MeterState;
  observations : list StoredObservation;
  next_observation_id : Z;
  raw_events : list RawUsageEvent;
  usage_events : list UsageEventRow;
  usage_outbox : list OutboxRow;
  exceptions : list ExceptionRow;
  resolutions : list ResolutionRow;
  audit_events : list AuditRow
}.
#[export] Instance MeterDb_eta : Settable MeterDb := λ r,
  mkMeterDb (machines r) (hosts r) (meter_state r) (observations r) (next_observation_id r)
    (raw_events r) (usage_events r) (usage_outbox r) (exceptions r) (resolutions r)
    (audit_events r).

(** ** Integrity of an observation *)

(** The cumulative egress a lease may have sent in [ns] nanoseconds. *)
Definition egress_allowance (ns : Z) : Z :=
  managedEgressBurstBytes +
  (ns * managedEgressBytesPerSecond + nanosecondsPerSecond - 1) / nanosecondsPerSecond.

Definition defensible_elapsed_ns (identity : MachineRow) (receivedAt : Z) : Z :=
  let leaseStart := default (created_at identity) (started_at identity) in
  (Z.max 0 (receivedAt - leaseStart) + maximumWallDivergenceMs) * nanosecondsPerMillisecond.

(** The fields of an observation the integrity check reads. *)
Record Evidence := mkEvidence {
  ev_kind : string;
  ev_quality : string;
  ev_runtime_ns : Z;
  ev_egress_bytes : Z;
  ev_egress_counter_epoch : Z
}.

Definition terminal_for_final (s : string) : bool :=
  string_in s ["stopping"; "stopped"; "failed"; "lost"].

Definition final_integrity (identity : MachineRow) (ev : Evidence) (receivedAt : Z)
    : option string :=
  if negb (String.eqb (ev_kind ev) "final") then None
  else
    let terminal := terminal_for_final (state identity) in
    if String.eqb (ev_quality ev) "exact" then
      if negb terminal && (receivedAt <? expires_at identity - maximumExactFinalLeadMs)
      then Some "premature_final" else None
    else if negb terminal then Some "premature_final" else None.

Definition observationIntegrityReason (identity : MachineRow) (st : MeterState)
    (ev : Evidence) (receivedAt : Z) : option string :=
  let runtime := ev_runtime_ns ev in
  let egress := ev_egress_bytes ev in
  let elapsed := defensible_elapsed_ns identity receivedAt in
  if elapsed <? runtime then Some "observation_rate_exceeded"
  else if egress_allowance elapsed <? egress then Some "egress_plausibility_exceeded"
  else if negb (start_seen st) then None
  else if (runtime <? last_runtime_ns st) || (egress <? last_egress_bytes st) then None
  else
    let runtimeDelta := runtime - last_runtime_ns st in
    if String.eqb (ev_kind ev) "checkpoint"
       && (runtimeDelta <? minimumCheckpointRuntimeDeltaNs)
    then Some "observation_rate_exceeded"
    else if (ev_egress_counter_epoch ev =? egress_counter_epoch st) &&
       ((if runtimeDelta =? 0 then 0 else egress_allowance runtimeDelta)
          <? egress - last_egress_bytes st)
    then Some "egress_plausibility_exceeded"
    else final_integrity identity ev receivedAt.

(** ** Validation *)

Definition unsignedInteger : re :=
  Alt (lit "0") (Cat (Chr digit19) (rep 0 29 (Chr digit))).
Definition positiveInteger : re := Cat (Chr digit19) (rep 0 18 (Chr digit)).

Definition parseUnsigned (value name : string) : result MeteringError Z :=
  if negb (test unsignedInteger value)
  then Err (MeteringInputError (name +:+ " must be an unsigned decimal integer"))
  else if maxUnsignedBigint <? parse_dec value
  then Err (MeteringInputError (name +:+ " exceeds host uint64"))
  else Ok (parse_dec value).

Definition parsePositiveBigint (value name : string) : result MeteringError Z :=
  if negb (test positiveInteger value)
  then Err (MeteringInputError (name +:+ " must be a positive decimal integer"))
  else if maxSignedBigint <? parse_dec value
  then Err (MeteringInputError (name +:+ " exceeds PostgreSQL bigint"))
  else Ok (parse_dec value).

(** [JSON.stringify] of an object whose strings need no escaping, which the
    patterns of [validateObservation] guarantee. *)
Definition dquote : string := String "034" "".
Definition json_string (s : string) : string := dquote +:+ s +:+ dquote.
Definition json_number (n : number) : string :=
  match n with NInt z => pretty z | NNonInt => "null" end.
Definition json_field (key value : string) : string := json_string key +:+ ":" +:+ value.
Fixpoint join_commas (l : list string) : string :=
  match l with
  | [] => ""
  | [s] => s
  | s :: l' => s +:+ "," +:+ join_commas l'
  end.

Definition canonicalPayload (o : HostUsageObservation) : string :=
  "{" +:+ join_commas
    [json_field "machine_id" (json_string (machineId o));
     json_field "host_machine_id" (json_string (hostMachineId o));
     json_field "lease_id" (json_string (leaseId o));
     json_field "lease_generation" (json_string (leaseGeneration o));
     json_field "host_boot_id" (json_string (hostBootId o));
     json_field "sequence" (json_string (sequence o));
     json_field "kind" (json_string (kind o));
     json_field "quality" (json_string (quality o));
     json_field "quality_reason" (json_string (qualityReason o));
     json_field "runtime_ns" (json_string (runtimeNs o));
     json_field "egress_bytes" (json_string (egressBytes o));
     json_field "egress_counter_epoch" (json_string (egressCounterEpoch o));
     json_field "observed_monotonic_ns" (json_string (observedMonotonicNs o));
     json_field "observed_at" (json_string (observedAt o));
     json_field "vcpus" (json_number (obs_vcpus o));
     json_field "memory_bytes" (json_string (memoryBytes o));
     json_field "process_id" (json_number (processId o))] +:+ "}".

Definition machineIdPattern : re :=
  let c := Chr (λ c, alnum c || one_of "_-" c) in
  cats [lit "m_"; rep_exact 12 c; Star c].
Definition hostMachineIdPattern : re := cats [lit "m-"; rep_exact 8 (Chr hex_lower)].
Definition timestampPattern : re :=
  let d n := rep_exact n (Chr digit) in
  cats [d 4%nat; lit "-"; d 2%nat; lit "-"; d 2%nat; lit "T"; d 2%nat; lit ":"; d 2%nat;
        lit ":"; d 2%nat; re_opt (Cat (lit ".") (rep 1 9 (Chr digit))); lit "Z"].

Definition qualityReasons : list string :=
  ["none"; "terminal_monotonic_unavailable"; "terminal_monotonic_regressed";
   "terminal_egress_unavailable"; "invalid_or_expired_state"; "runtime_unavailable";
   "host_boot_changed"; "network_isolation_unavailable"].

Definition checkInput (ok : bool) (message : string) : result MeteringError unit :=
  if ok then Ok () else Err (MeteringInputError message).

Definition number_at_least (lo : Z) (n : number) : bool :=
  match n with NInt z => isSafeInteger n && (lo <=? z) | NNonInt => false end.

Definition consistentQuality (o : HostUsageObservation) : bool :=
  negb (String.eqb (quality o) "exact" && negb (String.eqb (qualityReason o) "none")) &&
  negb (String.eqb (quality o) "last_defensible" &&
        (negb (String.eqb (kind o) "final") || String.eqb (qualityReason o) "none")).

(** ** Splitting a monotonic interval at UTC midnights *)

Definition timestampFromNanoseconds (value : Z) : Z :=
  Z.quot value nanosecondsPerMillisecond.

(** ECMAScript's time range: beyond it [Date.UTC] is NaN and [BigInt(NaN)]
    throws. *)
Definition maximumDateMs : Z := 8640000000000000.

(** [Date.UTC(y, m, d + 1)] for the UTC day of [ms]: ECMAScript's [Day(ms)] is
    [floor(ms / 86400000)]. *)
Definition nextMidnightMs (ms : Z) : Z := (ms / msPerDay + 1) * msPerDay.

Record UsageSegment := mkSegment {
  seg_index : Z;
  seg_start : Z;
  seg_end : Z;
  seg_runtimeNs : Z
}.

Fixpoint split_loop (fuel : nat) (index cursor terminal : Z)
    : result MeteringError (list UsageSegment) :=
  if terminal <=? cursor then Ok []
  else
    match fuel with
    | O => Err OutOfFuel
    | S fuel =>
        let midnightMs := nextMidnightMs (timestampFromNanoseconds cursor) in
        if maximumDateMs <? midnightMs then Err RangeError
        else
          let nextMidnight := midnightMs * nanosecondsPerMillisecond in
          let end_ := if nextMidnight <? terminal then nextMidnight else terminal in
          rest ← split_loop fuel (index + 1) end_ terminal;
          Ok (mkSegment index (timestampFromNanoseconds cursor)
                (timestampFromNanoseconds end_) (end_ - cursor) :: rest)
    end.

(** One iteration per UTC day touched, and the fuel counts them. *)
Definition split_fuel (durationNs : Z) : nat :=
  Z.to_nat (durationNs / (msPerDay * nanosecondsPerMillisecond) + 2).

Definition splitRuntimeAtUtcMidnight (start durationNs : Z)
    : result MeteringError (list UsageSegment) :=
  if durationNs <? 0 then Err (InternalError "runtime delta cannot be negative")
  else if durationNs =? 0 then Ok []
  else
    let cursor := start * nanosecondsPerMillisecond in
    split_loop (split_fuel durationNs) 0 cursor (cursor + durationNs).

(** ** Exceptions and quarantine *)

Definition exception (row : ExceptionRow) (db : MeterDb) : MeterDb :=
  db <| exceptions ::= insert_new ex_key row |>.

(** [machine_meter_state] rows: an UPDATE of a missing row changes nothing. *)
Definition update_meter (machine : string) (f : MeterState → MeterState) (db : MeterDb)
    : MeterDb :=
  db <| meter_state ::= alter f machine |>.

Definition quarantine_meter (now : Z) (reason : string) (st : MeterState) : MeterState :=
  st <| quarantined_at := coalesce (quarantined_at st) (Some now) |>
     <| quarantine_reason := coalesce (quarantine_reason st) (Some reason) |>.

Definition setQuarantined (now : Z) (machine reason : string) (db : MeterDb) : MeterDb :=
  update_meter machine (quarantine_meter now reason) db.

Definition quarantine_host_row (now : Z) (reason : string) (h : HostRow) : HostRow :=
  if string_in (desired_state h) ["quarantined"; "revoked"] then h
  else
    mkHostRow "quarantined" "stale" "revoked" (credential_generation h + 1) None None None
      (coalesce (credential_revoked_at h) (Some now)) (Some 0) (Some 0) (Some 0) (Some 0)
      (Some reason) (last_metering_batch_at h)
      (coalesce (metering_quarantined_at h) (Some now)).

Definition quarantineHost (now : Z) (hostId reason : string) (db : MeterDb) : MeterDb :=
  db <| hosts ::= alter (quarantine_host_row now reason) hostId |>
     <| audit_events ::= insert_new au_key
          (mkAudit ("host:" +:+ hostId +:+ ":metering-integrity-quarantine")
             "host.quarantined" hostId reason) |>.

(** ** Projection into the ledgers *)

Record Projection := mkProjection {
  pj_eventKey : string;
  pj_observationId : Z;
  pj_machineId : string;
  pj_identity : MachineRow;
  pj_dimension : Dimension;
  pj_unit : Unit_;
  pj_quantity : Z;
  pj_periodStart : Z;
  pj_periodEnd : Z
}.

Definition projection_of (u : Unit_) : string * Z :=
  match u with
  | VcpuNanosecond => ("vcpu_seconds", nanosecondsPerSecond)
  | ByteNanosecond => ("gib_seconds", bytesPerGibibyte * nanosecondsPerSecond)
  | Byte => ("egress_bytes", 1)
  end.

Definition raw_row (p : Projection) : RawUsageEvent :=
  mkRaw (pj_eventKey p) (pj_observationId p) (pj_machineId p)
    (organization_id (pj_identity p)) (project_id (pj_identity p)) (pj_dimension p)
    (pj_unit p) (pj_quantity p) (pj_periodStart p) (pj_periodEnd p).

Definition usage_row (p : Projection) : UsageEventRow :=
  mkUsageEvent ("raw:" +:+ pj_eventKey p) (pj_machineId p)
    (organization_id (pj_identity p)) (project_id (pj_identity p))
    (projection_of (pj_unit p)).1 (quotient_9 (pj_quantity p) (projection_of (pj_unit p)).2)
    (pj_periodStart p) (pj_periodEnd p) "host".

Definition appendProjection (p : Projection) (db : MeterDb) : MeterDb :=
  if pj_quantity p =? 0 then db
  else db <| raw_events ::= insert_new raw_key (raw_row p) |>
          <| usage_events ::= insert_new ue_key (usage_row p) |>.

(** [Date.prototype.toISOString]: the text only separates outbox keys, so the
    millisecond count stands for it. *)
Definition toISOString (ms : Z) : string := pretty ms.

Definition legacy_start (identity : MachineRow) : option Z :=
  coalesce (usage_checkpoint_at identity) (started_at identity).

(** The cut-over boundary between the legacy producer and this meter. *)
Definition cutover_boundary (identity : MachineRow) (hostStart : Z) : Z :=
  match legacy_start identity with
  | Some l => if hostStart <? l then l else hostStart
  | None => hostStart
  end.

Definition machine_matches (lease : string) (generation : Z) (m : MachineRow) : bool :=
  String.eqb (lease_id m) lease && (lease_generation m =? generation).

Definition cutover_key (machine : string) (generation boundary : Z) : string :=
  "machine:" +:+ machine +:+ ":meter-cutover:" +:+ pretty generation +:+ ":" +:+
  toISOString boundary.

(** The last interval of the legacy producer. *)
Definition cutover_row (now : Z) (machine : string) (identity : MachineRow) (start boundary : Z)
    : OutboxRow :=
  new_outbox_row now (cutover_key machine (lease_generation identity) boundary)
    (organization_id identity) (project_id identity) machine (vcpus identity)
    (Z.quot (memory_bytes identity) 1048576) start boundary false.

Definition closeLegacyPrefix (now : Z) (machine : string) (identity : MachineRow) (hostStart : Z)
    (db : MeterDb) : Z * MeterDb :=
  let boundary := cutover_boundary identity hostStart in
  let db1 :=
    match legacy_start identity with
    | Some l =>
        if l <? boundary
        then db <| usage_outbox ::= insert_new ob_key (cutover_row now machine identity l boundary) |>
        else db
    | None => db
    end in
  (boundary,
   db1 <| machines ::= alter (λ m,
          if machine_matches (lease_id identity) (lease_generation identity) m
          then m <| usage_checkpoint_at :=
                      Some (Z.max (default boundary (usage_checkpoint_at m)) boundary) |>
          else m) machine |>).

(** ** Processing the next observation of a lease *)

Definition evidence_of (o : StoredObservation) : Evidence :=
  mkEvidence (so_kind o) (so_quality o) (so_runtime_ns o) (so_egress_bytes o)
    (so_egress_counter_epoch o).

Definition counter_reset (st : MeterState) (o : StoredObservation) : bool :=
  (so_runtime_ns o <? last_runtime_ns st) ||
  (so_egress_bytes o <? last_egress_bytes st) ||
  negb (so_egress_counter_epoch o =? egress_counter_epoch st) ||
  (start_seen st &&
   match start_monotonic_ns st, last_observed_monotonic_ns st with
   | Some s, Some l =>
       (so_observed_monotonic_ns o <? l) ||
       negb (so_observed_monotonic_ns o - s =? so_runtime_ns o)
   | _, _ => true
   end).

(** The first chain of [processObservation]. *)
Definition state_anomaly (identity : MachineRow) (st : MeterState) (o : StoredObservation)
    : option string :=
  match quarantined_at st with
  | Some _ => quarantine_reason st
  | None =>
      if negb (String.eqb (host_boot_id st) (so_host_boot_id o)) then Some "boot_id_changed"
      else if bool_decide (is_Some (loss_closed_at st)) then Some "observation_after_final"
      else if negb (start_seen st) &&
        (negb (so_sequence o =? 1) || negb (String.eqb (so_kind o) "start") ||
         negb (so_runtime_ns o =? 0))
      then Some "start_missing"
      else if start_seen st && String.eqb (so_kind o) "start" then Some "start_repeated"
      else if final_seen st then Some "observation_after_final"
      else if counter_reset st o then Some "counter_reset"
      else observationIntegrityReason identity st (evidence_of o) (so_received_at o)
  end.

Definition clock_anomaly (identity : MachineRow) (st : MeterState) (o : StoredObservation)
    : option string :=
  if (so_received_at o + maximumClockLeadMs <? so_observed_at o) ||
     (String.eqb (so_kind o) "start" &&
      (so_observed_at o <? created_at identity - maximumClockLeadMs))
  then Some "clock_skew"
  else
    match last_observed_at st with
    | Some prior =>
        let runtimeDeltaMs :=
          Z.quot (so_runtime_ns o - last_runtime_ns st) nanosecondsPerMillisecond in
        let wallDeltaMs := so_observed_at o - prior in
        if maximumWallDivergenceMs <? Z.abs (wallDeltaMs - runtimeDeltaMs)
        then Some "clock_skew" else None
    | None => None
    end.

Definition anomaly_of (identity : MachineRow) (st : MeterState) (o : StoredObservation)
    : option string :=
  match state_anomaly identity st o with
  | Some reason => Some reason
  | None => clock_anomaly identity st o
  end.

(** Keys of the exceptions table. *)
Definition exception_prefix (machine : string) (generation : Z) : string :=
  "meter:" +:+ machine +:+ ":" +:+ pretty generation +:+ ":".
Definition observation_exception_key (machine : string) (generation : Z) (boot : string)
    (seq : Z) (suffix : string) : string :=
  exception_prefix machine generation +:+ boot +:+ ":" +:+ pretty seq +:+ ":" +:+ suffix.

(** [UPDATE machine_meter_state ... WHERE machine_id = $1 AND last_sequence = $n] *)
Definition update_meter_at (machine : string) (prior : Z) (f : MeterState → MeterState)
    (db : MeterDb) : MeterDb :=
  update_meter machine (λ st, if last_sequence st =? prior then f st else st) db.

Definition skip_state (o : StoredObservation) (st : MeterState) : MeterState :=
  st <| last_sequence := so_sequence o |>
     <| last_received_at := Some (so_received_at o) |>.

Definition start_state (o : StoredObservation) (covered boundary : Z) (st : MeterState)
    : MeterState :=
  mkMeterState (ms_host_id st) (ms_host_machine_id st) (ms_lease_id st)
    (ms_lease_generation st) (host_boot_id st) (so_sequence o) (so_runtime_ns o) covered
    (Some (so_observed_monotonic_ns o)) (Some (so_observed_monotonic_ns o))
    (so_egress_bytes o) (so_egress_counter_epoch o) true false
    (Some (so_observed_at o)) (Some boundary) (Some (so_received_at o))
    (loss_closed_at st) (quarantined_at st) (quarantine_reason st).

Definition advance_state (o : StoredObservation) (projected periodEnd : Z) (st : MeterState)
    : MeterState :=
  mkMeterState (ms_host_id st) (ms_host_machine_id st) (ms_lease_id st)
    (ms_lease_generation st) (host_boot_id st) (so_sequence o) (so_runtime_ns o) projected
    (start_monotonic_ns st) (Some (so_observed_monotonic_ns o)) (so_egress_bytes o)
    (egress_counter_epoch st) (start_seen st) (String.eqb (so_kind o) "final")
    (Some (so_observed_at o)) (Some periodEnd) (Some (so_received_at o))
    (loss_closed_at st) (quarantined_at st) (quarantine_reason st).

(** The branch that quarantines the meter and skips the observation. *)
Definition reject_observation (now : Z) (machine : string) (identity : MachineRow)
    (st : MeterState) (o : StoredObservation) (reason : string) (db : MeterDb) : MeterDb :=
  let db := exception
    (mkException (observation_exception_key machine (lease_generation identity)
                    (so_host_boot_id o) (so_sequence o) reason)
       (host_id identity) machine (lease_id identity) (lease_generation identity)
       (Some (so_host_boot_id o)) (Some (so_sequence o)) reason) db in
  let db := setQuarantined now machine reason db in
  update_meter_at machine (last_sequence st) (skip_state o) db.

Definition accept_start (now : Z) (machine : string) (identity : MachineRow) (st : MeterState)
    (o : StoredObservation) (db : MeterDb) : MeterDb :=
  let '(boundary, db) := closeLegacyPrefix now machine identity (so_observed_at o) db in
  let covered := Z.max 0 (boundary - so_observed_at o) * nanosecondsPerMillisecond in
  update_meter_at machine (last_sequence st) (start_state o covered boundary) db.

Definition segment_prefix (o : StoredObservation) (index : Z) : string :=
  "meter:" +:+ pretty (so_id o) +:+ ":" +:+ pretty index.

Definition compute_projection (machine : string) (identity : MachineRow)
    (o : StoredObservation) (seg : UsageSegment) : Projection :=
  mkProjection (segment_prefix o (seg_index seg) +:+ ":compute") (so_id o) machine identity
    Compute_ VcpuNanosecond (seg_runtimeNs seg * vcpus identity) (seg_start seg) (seg_end seg).

Definition memory_projection (machine : string) (identity : MachineRow)
    (o : StoredObservation) (seg : UsageSegment) : Projection :=
  mkProjection (segment_prefix o (seg_index seg) +:+ ":memory") (so_id o) machine identity
    Memory_ ByteNanosecond (seg_runtimeNs seg * memory_bytes identity) (seg_start seg)
    (seg_end seg).

Definition egress_projection (machine : string) (identity : MachineRow)
    (o : StoredObservation) (delta periodStart periodEnd : Z) : Projection :=
  mkProjection ("meter:" +:+ pretty (so_id o) +:+ ":egress") (so_id o) machine identity
    Egress_ Byte delta periodStart periodEnd.

(** The projections of one accepted observation, in the order of the code. *)
Definition observation_projections (machine : string) (identity : MachineRow)
    (o : StoredObservation) (segments : list UsageSegment) (egressDelta periodStart : Z)
    : list Projection :=
  concat (map (λ seg, [compute_projection machine identity o seg;
                       memory_projection machine identity o seg]) segments) ++
  (if 0 <? egressDelta then
     [egress_projection machine identity o egressDelta periodStart
        (match last segments with Some seg => seg_end seg | None => periodStart end)]
   else []).

Definition append_all (ps : list Projection) (db : MeterDb) : MeterDb :=
  foldl (λ db p, appendProjection p db) db ps.

Definition finalize_machine (now : Z) (machine : string) (identity : MachineRow)
    (periodEnd : Z) (db : MeterDb) : MeterDb :=
  db <| machines ::= alter (λ m,
        if machine_matches (lease_id identity) (lease_generation identity) m
        then m <| usage_checkpoint_at := Some periodEnd |>
               <| usage_finalized_at := coalesce (usage_finalized_at m) (Some now) |>
        else m) machine |>.

Definition degrade_terminal (now : Z) (machine : string) (identity : MachineRow)
    (o : StoredObservation) (db : MeterDb) : MeterDb :=
  let db := exception
    (mkException (observation_exception_key machine (lease_generation identity)
                    (so_host_boot_id o) (so_sequence o)
                    ("degraded_terminal:" +:+ so_quality_reason o))
       (host_id identity) machine (lease_id identity) (lease_generation identity)
       (Some (so_host_boot_id o)) (Some (so_sequence o)) "degraded_terminal") db in
  setQuarantined now machine "degraded_terminal" db.

Definition accept_delta (now : Z) (machine : string) (identity : MachineRow)
    (st : MeterState) (o : StoredObservation) (db : MeterDb)
    : result MeteringError (Outcome * MeterDb) :=
  let runtime := so_runtime_ns o in
  let prior := projected_runtime_ns st in
  let runtimeDelta := if prior <? runtime then runtime - prior else 0 in
  let projected := if prior <? runtime then runtime else prior in
  let egressDelta := so_egress_bytes o - last_egress_bytes st in
  match coalesce (last_period_end st) (last_observed_at st) with
  | None => Err (InternalError "accepted meter state is missing its period boundary")
  | Some periodStart =>
      segments ← splitRuntimeAtUtcMidnight periodStart runtimeDelta;
      let db := append_all
        (observation_projections machine identity o segments egressDelta periodStart) db in
      let periodEnd := timestampFromNanoseconds
        (periodStart * nanosecondsPerMillisecond + runtimeDelta) in
      let db := update_meter_at machine (last_sequence st)
        (advance_state o projected periodEnd) db in
      if String.eqb (so_kind o) "final" then
        let db := finalize_machine now machine identity periodEnd db in
        if String.eqb (so_quality o) "last_defensible"
        then Ok (Quarantined, degrade_terminal now machine identity o db)
        else Ok (Accepted, db)
      else Ok (Accepted, db)
  end.

Definition processObservation (now : Z) (machine : string) (identity : MachineRow)
    (st : MeterState) (o : StoredObservation) (db : MeterDb)
    : result MeteringError (Outcome * MeterDb) :=
  match anomaly_of identity st o with
  | Some reason =>
      Ok (Quarantined, reject_observation now machine identity st o reason db)
  | None =>
      if String.eqb (so_kind o) "start"
      then Ok (Accepted, accept_start now machine identity st o db)
      else accept_delta now machine identity st o db
  end.

(** ** Draining the stored observations that are next in sequence *)

Definition next_pending (machine : string) (identity : MachineRow) (st : MeterState)
    (db : MeterDb) : option StoredObservation :=
  find (λ o, String.eqb (so_machine_id o) machine &&
             (so_lease_generation o =? lease_generation identity) &&
             String.eqb (so_host_boot_id o) (host_boot_id st) &&
             (so_sequence o =? last_sequence st + 1)) (observations db).

(** The [for (;;)] loop: [target] is the input's row; the result says whether
    the loop processed it, and whether that quarantined it. *)
Fixpoint drain (fuel : nat) (now : Z) (machine : string) (identity : MachineRow)
    (target : Z) (processed quarantined : bool) (db : MeterDb)
    : result MeteringError (bool * bool * MeterDb) :=
  match fuel with
  | O => Err OutOfFuel
  | S fuel =>
      match meter_state db !! machine with
      | None => Err (InternalError "meter state row")
      | Some st =>
          match next_pending machine identity st db with
          | None => Ok (processed, quarantined, db)
          | Some pending =>
              '(outcome, db') ← processObservation now machine identity st pending db;
              if so_id pending =? target
              then drain fuel now machine identity target true
                     (bool_decide (outcome = Quarantined)) db'
              else drain fuel now machine identity target processed quarantined db'
          end
      end
  end.

(** Every iteration consumes a distinct stored observation. *)
Definition drain_fuel (db : MeterDb) : nat := S (length (observations db)).
Arguments drain_fuel : simpl never.

Section metering.
Context (sha256 : string → string) (Date_parse : string → option Z).

Definition payloadHash (o : HostUsageObservation) : string := sha256 (canonicalPayload o).

Definition validateObservation (o : HostUsageObservation) : result MeteringError unit :=
  checkInput ((str_length (machineId o) <=? 128) && test machineIdPattern (machineId o))
    "machine_id is invalid" ≫= λ _,
  checkInput (test hostMachineIdPattern (hostMachineId o))
    "host_machine_id is invalid" ≫= λ _,
  checkInput (test uuidPattern (leaseId o)) "lease_id is invalid" ≫= λ _,
  checkInput (test uuidPattern (hostBootId o)) "host_boot_id is invalid" ≫= λ _,
  parsePositiveBigint (leaseGeneration o) "lease_generation" ≫= λ _,
  parsePositiveBigint (sequence o) "sequence" ≫= λ _,
  parseUnsigned (runtimeNs o) "runtime_ns" ≫= λ _,
  parseUnsigned (egressBytes o) "egress_bytes" ≫= λ _,
  parsePositiveBigint (egressCounterEpoch o) "egress_counter_epoch" ≫= λ _,
  parseUnsigned (observedMonotonicNs o) "observed_monotonic_ns" ≫= λ _,
  parsePositiveBigint (memoryBytes o) "memory_bytes" ≫= λ _,
  checkInput (string_in (kind o) ["start"; "checkpoint"; "final"])
    "kind is invalid" ≫= λ _,
  checkInput (string_in (quality o) ["exact"; "last_defensible"])
    "quality is invalid" ≫= λ _,
  checkInput (string_in (qualityReason o) qualityReasons)
    "quality_reason is invalid" ≫= λ _,
  checkInput (consistentQuality o)
    "quality and quality_reason are inconsistent" ≫= λ _,
  checkInput (number_at_least 1 (obs_vcpus o)) "vcpus is invalid" ≫= λ _,
  checkInput (number_at_least 2 (processId o)) "process_id is invalid" ≫= λ _,
  checkInput (match Date_parse (observedAt o) with
              | Some _ => test timestampPattern (observedAt o)
              | None => false
              end)
    "observed_at must be a canonical UTC timestamp".
(** ** Ingesting a batch *)

(** The two statement timestamps read while one observation is handled. *)
Record Stamps := mkStamps {
  admission_received_at : Z;
  received_at : Z
}.

(** [SELECT ... FROM machines WHERE id = $1 AND host_id = $2 ... FOR UPDATE]
    and the resource comparison that follows it. *)
Definition identity_matches (hostId : string) (input : HostUsageObservation)
    (m : MachineRow) : bool :=
  String.eqb (host_id m) hostId &&
  String.eqb (host_machine_id m) (hostMachineId input) &&
  String.eqb (lease_id m) (uuid_text (leaseId input)) &&
  (lease_generation m =? parse_dec (leaseGeneration input)) &&
  match obs_vcpus input with NInt v => vcpus m =? v | NNonInt => false end &&
  (memory_bytes m =? parse_dec (memoryBytes input)).

Definition load_identity (hostId : string) (input : HostUsageObservation) (db : MeterDb)
    : result MeteringError MachineRow :=
  match machines db !! machineId input with
  | Some m =>
      if identity_matches hostId input m then Ok m
      else Err (MeteringInputError
             "observation does not match the authoritative machine lease and resources")
  | None => Err (MeteringInputError
             "observation does not match the authoritative machine lease and resources")
  end.

Definition fresh_meter (identity : MachineRow) (input : HostUsageObservation) : MeterState :=
  mkMeterState (host_id identity) (host_machine_id identity) (lease_id identity)
    (lease_generation identity) (uuid_text (hostBootId input)) 0 0 0 None None 0
    (parse_dec (egressCounterEpoch input)) false false None None None None None None.

(** [stateForUpdate], inserting the row on the first observation. *)
Definition ensure_meter (identity : MachineRow) (input : HostUsageObservation)
    (db : MeterDb) : MeterState * MeterDb :=
  match meter_state db !! machineId input with
  | Some st => (st, db)
  | None =>
      let st := fresh_meter identity input in
      (st, db <| meter_state ::= <[machineId input := st]> |>)
  end.

(** Stored observations of the host that still wait for a predecessor. *)
Definition pending_count (hostId : string) (db : MeterDb) : Z :=
  Z.of_nat (length (List.filter (λ o,
    String.eqb (so_host_id o) hostId &&
    match meter_state db !! so_machine_id o with
    | Some st => (ms_lease_generation st =? so_lease_generation o) &&
                 (last_sequence st <? so_sequence o)
    | None => false
    end) (observations db))).

Definition sequence_violation (hostId : string) (input : HostUsageObservation)
    (st : MeterState) (db : MeterDb) : bool :=
  let seq := parse_dec (sequence input) in
  if negb (String.eqb (host_boot_id st) (hostBootId input)) ||
     (last_sequence st + maximumForwardSequenceWindow <? seq)
  then true
  else if last_sequence st + 1 <? seq
  then maximumPendingObservationsPerHost <=? pending_count hostId db
  else false.

Definition input_evidence (input : HostUsageObservation) : Evidence :=
  mkEvidence (kind input) (quality input) (parse_dec (runtimeNs input))
    (parse_dec (egressBytes input)) (parse_dec (egressCounterEpoch input)).

Definition integrity_violation (identity : MachineRow) (input : HostUsageObservation)
    (st : MeterState) (stamps : Stamps) : option string :=
  if parse_dec (sequence input) =? last_sequence st + 1
  then observationIntegrityReason identity st (input_evidence input)
         (admission_received_at stamps)
  else None.

(** Record one exception, quarantine the meter and the host. *)
Definition refuse_input (now : Z) (hostId : string) (identity : MachineRow)
    (input : HostUsageObservation) (key reason hostReason : string) (db : MeterDb)
    : MeterDb :=
  let db := exception
    (mkException key hostId (machineId input) (lease_id identity)
       (lease_generation identity) (Some (uuid_text (hostBootId input)))
       (Some (parse_dec (sequence input))) reason) db in
  let db := setQuarantined now (machineId input) reason db in
  quarantineHost now hostId hostReason db.

Definition conflict_key (hostId boot lease : string) (generation seq : Z)
    (o : StoredObservation) : bool :=
  String.eqb (so_host_id o) hostId && String.eqb (so_host_boot_id o) boot &&
  String.eqb (so_lease_id o) lease && (so_lease_generation o =? generation) &&
  (so_sequence o =? seq).

Definition find_stored (hostId : string) (input : HostUsageObservation) (db : MeterDb)
    : option StoredObservation :=
  find (conflict_key hostId (uuid_text (hostBootId input)) (uuid_text (leaseId input))
          (parse_dec (leaseGeneration input)) (parse_dec (sequence input)))
    (observations db).

Definition stored_row (hostId : string) (input : HostUsageObservation) (stamps : Stamps)
    (id : Z) : StoredObservation :=
  mkStored id hostId (machineId input) (hostMachineId input) (uuid_text (leaseId input))
    (parse_dec (leaseGeneration input)) (uuid_text (hostBootId input)) (parse_dec (sequence input))
    (kind input) (quality input) (qualityReason input) (parse_dec (runtimeNs input))
    (parse_dec (egressBytes input)) (parse_dec (egressCounterEpoch input))
    (parse_dec (observedMonotonicNs input)) (default 0 (Date_parse (observedAt input)))
    (received_at stamps) (payloadHash input).

(** [INSERT ... ON CONFLICT DO NOTHING RETURNING], then the conflicting row:
    the stored row, whether it was already there, and the tables. *)
Definition store_observation (hostId : string) (input : HostUsageObservation)
    (stamps : Stamps) (db : MeterDb) : StoredObservation * bool * MeterDb :=
  match find_stored hostId input db with
  | Some o => (o, true, db)
  | None =>
      let row := stored_row hostId input stamps (next_observation_id db) in
      (row, false,
       db <| observations ::= λ l, l ++ [row] |>
          <| next_observation_id ::= Z.succ |>)
  end.

Definition gap_exception (hostId : string) (identity : MachineRow)
    (input : HostUsageObservation) (db : MeterDb) : MeterDb :=
  exception (mkException
    (exception_prefix (machineId input) (parse_dec (leaseGeneration input)) +:+
       hostBootId input +:+ ":" +:+ sequence input +:+ ":sequence_gap")
    hostId (machineId input) (lease_id identity) (lease_generation identity)
    (Some (uuid_text (hostBootId input))) (Some (parse_dec (sequence input))) "sequence_gap") db.

(** Gap exceptions at or below the drained sequence are resolved. *)
Definition resolve_gaps (machine : string) (generation last : Z) (db : MeterDb) : MeterDb :=
  let closes ex :=
    String.eqb (ex_machine_id ex) machine && (ex_lease_generation ex =? generation) &&
    String.eqb (ex_reason ex) "sequence_gap" &&
    match ex_sequence ex with Some s => s <=? last | None => false end in
  db <| resolutions ::= λ rs,
    foldl (λ rs ex, insert_new rs_exception_key
                      (mkResolution (ex_key ex) "missing observation arrived") rs)
      rs (List.filter closes (exceptions db)) |>.

Definition outcome_of (processed quarantined duplicate : bool) (seq last : Z) : Outcome :=
  if quarantined then Quarantined
  else if processed then (if duplicate then Duplicate else Accepted)
  else if seq <=? last then Duplicate
  else PendingGap.

(** What follows the drain: host quarantine, gap bookkeeping, receipt. *)
Definition finish_input (now : Z) (hostId : string) (identity : MachineRow)
    (input : HostUsageObservation) (duplicate processed quarantined : bool) (db : MeterDb)
    : result MeteringError (Receipt * bool * MeterDb) :=
  let db := if quarantined
            then quarantineHost now hostId "metering observation integrity violated" db
            else db in
  match meter_state db !! machineId input with
  | None => Err (InternalError "meter state row")
  | Some st =>
      let seq := parse_dec (sequence input) in
      let db := if last_sequence st <? seq
                then gap_exception hostId identity input db else db in
      let db := resolve_gaps (machineId input) (lease_generation identity)
                  (last_sequence st) db in
      Ok (receiptFor input (outcome_of processed quarantined duplicate seq
                              (last_sequence st)), quarantined, db)
  end.

(** The body of the batch loop for one observation of a host that is not
    quarantined yet: the receipt and whether the host is quarantined now. *)
Definition ingest_one (now : Z) (hostId : string) (stamps : Stamps)
    (input : HostUsageObservation) (db : MeterDb)
    : result MeteringError (Receipt * bool * MeterDb) :=
  identity ← load_identity hostId input db;
  let '(st, db) := ensure_meter identity input db in
  let prefix := exception_prefix (machineId input) (lease_generation identity) in
  if sequence_violation hostId input st db then
    Ok (receiptFor input Quarantined, true,
        refuse_input now hostId identity input (prefix +:+ "sequence_window_exceeded")
          "sequence_window_exceeded" "metering sequence admission violated" db)
  else
    match integrity_violation identity input st stamps with
    | Some reason =>
        Ok (receiptFor input Quarantined, true,
            refuse_input now hostId identity input (prefix +:+ reason) reason
              ("metering " +:+ reason) db)
    | None =>
        let '(stored, duplicate, db) := store_observation hostId input stamps db in
        if duplicate && negb (String.eqb (so_payload_hash stored) (payloadHash input)) then
          Ok (receiptFor input RejectedPayloadConflict, true,
              refuse_input now hostId identity input
                (prefix +:+ hostBootId input +:+ ":" +:+ sequence input
                   +:+ ":payload_conflict")
                "payload_conflict" "metering payload conflict" db)
        else
          '(processed, quarantined, db) ←
             drain (drain_fuel db) now (machineId input) identity (so_id stored)
               false false db;
          finish_input now hostId identity input duplicate processed quarantined db
    end.

Fixpoint ingest_loop (now : Z) (hostId : string) (hostQuarantined : bool)
    (inputs : list (HostUsageObservation * Stamps)) (db : MeterDb)
    : result MeteringError (list Receipt * MeterDb) :=
  match inputs with
  | [] => Ok ([], db)
  | (input, stamps) :: rest =>
      if hostQuarantined then
        '(receipts, db) ← ingest_loop now hostId true rest db;
        Ok (receiptFor input Quarantined :: receipts, db)
      else
        '(receipt, quarantined, db) ← ingest_one now hostId stamps input db;
        '(receipts, db) ← ingest_loop now hostId quarantined rest db;
        Ok (receipt :: receipts, db)
  end.

Fixpoint validate_all (l : list HostUsageObservation) : result MeteringError unit :=
  match l with
  | [] => Ok ()
  | o :: l => validateObservation o ≫= λ _, validate_all l
  end.

(** The clocks of one batch: the transaction's [now()] and the statement
    timestamps of the host admission SELECT and UPDATE. *)
Record BatchClock := mkBatchClock {
  bc_now : Z;
  bc_select : Z;
  bc_update : Z
}.

Definition host_admits (h : HostRow) (credentialGeneration : option Z) : bool :=
  string_in (desired_state h) ["active"; "draining"] &&
  String.eqb (credential_status h) "active" &&
  match credentialGeneration with
  | Some g => credential_generation h =? g
  | None => true
  end.

Definition cadence_valid (interval : Z) (clock : BatchClock) (h : HostRow) : bool :=
  match last_metering_batch_at h with
  | None => true
  | Some t => t <=? bc_select clock - interval
  end.

(** [AuthoritativeMetering.ingest]; [interval] is the constructor's
    [minimumBatchIntervalMs]. *)
Definition ingest (interval : Z) (clock : BatchClock) (hostId : string)
    (credentialGeneration : option Z) (inputs : list (HostUsageObservation * Stamps))
    : Tx MeterDb MeteringError (list Receipt) := λ db,
  if (Z.of_nat (length inputs) <? 1) || (256 <? Z.of_nat (length inputs))
  then Err (MeteringInputError
         "observation batch must contain between 1 and 256 entries")
  else
    validate_all inputs.*1 ≫= λ _,
    match hosts db !! hostId with
    | None => Err MeteringHostLifecycleError
    | Some h =>
        if negb (host_admits h credentialGeneration) then Err MeteringHostLifecycleError
        else if negb (cadence_valid interval clock h) then Err MeteringRateLimitError
        else
          ingest_loop (bc_now clock) hostId false inputs
            (db <| hosts ::= alter (λ h, h <| last_metering_batch_at :=
                                                Some (bc_update clock) |>) hostId |>)
    end.

(** ** Host loss *)

Definition loss_exception (machine lease : string) (m : MachineRow) (reason : string)
    (db : MeterDb) : MeterDb :=
  exception (mkException
    (exception_prefix machine (lease_generation m) +:+ "host_loss:" +:+ reason)
    (host_id m) machine lease (lease_generation m) None None reason) db.

Definition finalize_lost (now : Z) (machine lease : string) (periodEnd : option Z)
    (db : MeterDb) : MeterDb :=
  db <| machines ::= alter (λ m,
        if String.eqb (lease_id m) lease
        then m <| usage_checkpoint_at := coalesce periodEnd (usage_checkpoint_at m) |>
               <| usage_finalized_at := coalesce (usage_finalized_at m) (Some now) |>
        else m) machine |>.

(** [closeHostLoss]: close the meter of a lease whose host is gone at the last
    defensible boundary. *)
Definition closeHostLoss (now : Z) (machine lease : string)
    : Tx MeterDb MeteringError (option Z) := λ db,
  match machines db !! machine with
  | None => Ok (None, db)
  | Some m =>
      if negb (String.eqb (lease_id m) lease) then Ok (None, db)
      else
        match meter_state db !! machine with
        | None => Ok (None, db)
        | Some st =>
            let reason := match last_period_end st with
                          | Some _ => "host_lost_without_final"
                          | None => "host_lost_without_observation"
                          end in
            if negb (start_seen st) then
              Ok (None, loss_exception machine lease m reason db)
            else
              let db :=
                if final_seen st then db
                else update_meter machine (λ st,
                       if String.eqb (ms_lease_id st) lease
                       then st <| loss_closed_at :=
                                   coalesce (loss_closed_at st) (Some now) |>
                       else st) (loss_exception machine lease m reason db) in
              Ok (last_period_end st, finalize_lost now machine lease (last_period_end st) db)
        end
  end.

(** [health]: observations not yet drained and unresolved exceptions. *)
Definition health (db : MeterDb) : Z * Z :=
  (Z.of_nat (length (List.filter (λ o,
     match meter_state db !! so_machine_id o with
     | None => true
     | Some st => last_sequence st <? so_sequence o
     end) (observations db))),
   Z.of_nat (length (List.filter (λ ex,
     negb (has_key rs_exception_key (ex_key ex) (resolutions db))) (exceptions db)))).
End metering.
