(* ===== verification/MeteringFacts.v ===== *)
(** * Properties of authoritative metering

    Proofs about the definitions of [Metering]: the midnight split loses no
    nanosecond, the ledgers grow by exactly the counter deltas, quarantined
    meters stop billing, replays change nothing, and the drain terminates. *)

From S2P Require Import Prelude Text Js Numeric Metering.

(** ** The midnight split *)

Definition dayNs : Z := msPerDay * nanosecondsPerMillisecond.

(** The reference description of a split: consecutive pieces of
    [cursor, terminal), each inside one UTC day, every inner boundary at a
    midnight, stamped with the millisecond of its ends. *)
Inductive day_partition : Z → Z → Z → list UsageSegment → Prop :=
| dp_nil index terminal : day_partition index terminal terminal []
| dp_cons index cursor e terminal segs :
    cursor < e → e <= terminal →
    e <= (cursor / dayNs + 1) * dayNs →
    (e = terminal ∨ e = (cursor / dayNs + 1) * dayNs) →
    day_partition (index + 1) e terminal segs →
    day_partition index cursor terminal
      (mkSegment index (cursor / nanosecondsPerMillisecond)
         (e / nanosecondsPerMillisecond) (e - cursor) :: segs).

Lemma day_partition_sum index cursor terminal segs :
  day_partition index cursor terminal segs →
  sum_with seg_runtimeNs segs = terminal - cursor.
Proof. induction 1; simpl; lia. Qed.

Lemma timestamp_div z : 0 <= z → timestampFromNanoseconds z = z / nanosecondsPerMillisecond.
Proof. intros. unfold timestampFromNanoseconds. by apply Z.quot_div_nonneg. Qed.

Lemma nextMidnight_ns cursor :
  0 <= cursor →
  nextMidnightMs (timestampFromNanoseconds cursor) * nanosecondsPerMillisecond
  = (cursor / dayNs + 1) * dayNs.
Proof.
  intros. rewrite timestamp_div by done. unfold nextMidnightMs, dayNs.
  rewrite Z.div_div by (unfold nanosecondsPerMillisecond, msPerDay; lia).
  rewrite (Z.mul_comm nanosecondsPerMillisecond msPerDay). lia.
Qed.

Lemma split_loop_ok fuel : ∀ index cursor terminal,
  0 <= cursor <= terminal →
  terminal <= maximumDateMs * nanosecondsPerMillisecond →
  (cursor < terminal → (terminal - 1) / dayNs - cursor / dayNs + 1 <= Z.of_nat fuel) →
  ∃ segs, split_loop fuel index cursor terminal = Ok segs ∧
          day_partition index cursor terminal segs.
Proof.
  assert (0 < dayNs) as HD by done.
  assert (maximumDateMs * nanosecondsPerMillisecond = 100000000 * dayNs) as Hmax by done.
  induction fuel as [|fuel IH]; intros index cursor terminal Hc Ht Hf; simpl.
  - destruct (terminal <=? cursor) eqn:E; bool_simp.
    + exists []. replace cursor with terminal by lia. split; [done|constructor].
    + assert (cursor / dayNs <= (terminal - 1) / dayNs) by (apply Z.div_le_mono; lia). lia.
  - destruct (terminal <=? cursor) eqn:E; bool_simp.
    { exists []. replace cursor with terminal by lia. split; [done|constructor]. }
    pose proof (nextMidnight_ns cursor ltac:(lia)) as Hmid.
    set (mid := nextMidnightMs (timestampFromNanoseconds cursor)) in *.
    assert (cursor / dayNs <= (terminal - 1) / dayNs) by (apply Z.div_le_mono; lia).
    assert ((terminal - 1) / dayNs < 100000000) by (apply Z.div_lt_upper_bound; lia).
    destruct (maximumDateMs <? mid) eqn:Er; bool_simp.
    { unfold nanosecondsPerMillisecond in *. unfold maximumDateMs in *.
      unfold dayNs, msPerDay, nanosecondsPerMillisecond in *. lia. }
    rewrite Hmid.
    set (e := if _ <? terminal then _ else _).
    assert (cursor < (cursor / dayNs + 1) * dayNs) as Hlt.
    { pose proof (Z.mul_succ_div_gt cursor dayNs HD). lia. }
    assert (cursor < e ∧ e <= terminal ∧ e <= (cursor / dayNs + 1) * dayNs ∧
            (e = terminal ∨ e = (cursor / dayNs + 1) * dayNs)) as (? & ? & ? & Hor).
    { unfold e. case_match; bool_simp; lia. }
    destruct (IH (index + 1) e terminal) as (segs & Hs & Hp); [lia|lia| |].
    { intros Hlt'. destruct Hor as [->|He]; [lia|].
      rewrite He, Z.div_mul by lia. lia. }
    rewrite Hs. simpl. eexists. split; [done|].
    rewrite !timestamp_div by lia. by constructor.
Qed.

Lemma split_fuel_enough start durationNs :
  0 <= durationNs →
  let cursor := start * nanosecondsPerMillisecond in
  (cursor + durationNs - 1) / dayNs - cursor / dayNs + 1
    <= Z.of_nat (split_fuel durationNs).
Proof.
  intros Hd c. assert (0 < dayNs) as HD by done.
  unfold split_fuel. change (msPerDay * nanosecondsPerMillisecond) with dayNs.
  pose proof (Z.div_pos durationNs dayNs Hd HD).
  rewrite Z2Nat.id by lia.
  assert ((c + durationNs - 1) / dayNs <= c / dayNs + durationNs / dayNs + 1); [|lia].
  pose proof (Z.div_mod c dayNs ltac:(lia)). pose proof (Z.mod_pos_bound c dayNs HD).
  pose proof (Z.div_mod durationNs dayNs ltac:(lia)).
  pose proof (Z.mod_pos_bound durationNs dayNs HD).
  apply Z.lt_succ_r. apply Z.div_lt_upper_bound; lia.
Qed.

Lemma split_spec start durationNs :
  0 <= start → 0 <= durationNs →
  start * nanosecondsPerMillisecond + durationNs
    <= maximumDateMs * nanosecondsPerMillisecond →
  ∃ segs, splitRuntimeAtUtcMidnight start durationNs = Ok segs ∧
    day_partition 0 (start * nanosecondsPerMillisecond)
      (start * nanosecondsPerMillisecond + durationNs) segs.
Proof.
  intros Hs Hd Hmax. unfold splitRuntimeAtUtcMidnight.
  destruct (durationNs <? 0) eqn:E1; bool_simp; [lia|].
  destruct (durationNs =? 0) eqn:E2; bool_simp.
  - subst. exists []. split; [done|]. rewrite Z.add_0_r. constructor.
  - apply split_loop_ok; [unfold nanosecondsPerMillisecond in *; lia|done|].
    intros _. by apply split_fuel_enough.
Qed.

(** What the loop returns is a partition, with no bound on the clock. *)
Lemma split_loop_partition fuel : ∀ index cursor terminal segs,
  0 <= cursor <= terminal → split_loop fuel index cursor terminal = Ok segs →
  day_partition index cursor terminal segs.
Proof.
  assert (0 < dayNs) as HD by done.
  induction fuel as [|fuel IH]; intros index cursor terminal segs Hc; simpl;
    destruct (terminal <=? cursor) eqn:E; bool_simp; try done;
    try (intros [= <-]; replace cursor with terminal by lia; constructor).
  case_match; [done|]. pose proof (nextMidnight_ns cursor ltac:(lia)) as ->.
  set (e := if _ <? terminal then _ else _).
  assert (cursor < (cursor / dayNs + 1) * dayNs) as Hlt
    by (pose proof (Z.mul_succ_div_gt cursor dayNs HD); lia).
  assert (cursor < e ∧ e <= terminal ∧ e <= (cursor / dayNs + 1) * dayNs ∧
          (e = terminal ∨ e = (cursor / dayNs + 1) * dayNs)) as (? & ? & ? & ?).
  { unfold e. case_match; bool_simp; lia. }
  intros (rest & Hrest & [= <-])%result_bind_Ok. rewrite !timestamp_div by lia.
  constructor; try done. apply IH; [lia|done].
Qed.

Lemma split_partition start durationNs segs :
  0 <= start → splitRuntimeAtUtcMidnight start durationNs = Ok segs →
  day_partition 0 (start * nanosecondsPerMillisecond)
    (start * nanosecondsPerMillisecond + durationNs) segs.
Proof.
  intros Hs. unfold splitRuntimeAtUtcMidnight.
  destruct (durationNs <? 0) eqn:E1; bool_simp; [done|].
  destruct (durationNs =? 0) eqn:E2; bool_simp.
  - subst. intros [= <-]. rewrite Z.add_0_r. constructor.
  - apply split_loop_partition. unfold nanosecondsPerMillisecond. lia.
Qed.

(** The nanoseconds of [from, until) that lie in UTC day [d]. *)
Definition day_overlap (d from until : Z) : Z :=
  Z.max 0 (Z.min until ((d + 1) * dayNs) - Z.max from (d * dayNs)).

Lemma day_overlap_split d a b c : a <= b <= c → day_overlap d a c = day_overlap d a b + day_overlap d b c.
Proof. unfold day_overlap. lia. Qed.

Lemma day_overlap_piece d a b :
  a < b → b <= (a / dayNs + 1) * dayNs → day_overlap d a b = if a / dayNs =? d then b - a else 0.
Proof.
  intros Hab Hb. assert (0 < dayNs) as HD by done.
  pose proof (Z.mul_div_le a dayNs HD). pose proof (Z.mul_succ_div_gt a dayNs HD).
  set (c := a / dayNs) in *. unfold day_overlap. destruct (c =? d) eqn:E; bool_simp; [subst; lia|].
  assert (d < c ∨ c < d) as [?|?] by lia.
  - assert ((d + 1) * dayNs <= c * dayNs) by (apply Z.mul_le_mono_nonneg_r; lia). lia.
  - assert ((c + 1) * dayNs <= d * dayNs) by (apply Z.mul_le_mono_nonneg_r; lia). lia.
Qed.

(** The runtime of the segments stamped with a day is what the interval has in it. *)
Definition runtime_on (d : Z) (seg : UsageSegment) : Z :=
  if seg_start seg / msPerDay =? d then seg_runtimeNs seg else 0.

Lemma partition_days d index cursor terminal segs :
  day_partition index cursor terminal segs →
  cursor <= terminal ∧ sum_with (runtime_on d) segs = day_overlap d cursor terminal.
Proof.
  induction 1 as [index terminal|index cursor e terminal segs H1 H2 H3 _ _ [IH1 IH2]]; simpl.
  - unfold day_overlap. lia.
  - split; [lia|]. rewrite IH2, (day_overlap_split d cursor e terminal), (day_overlap_piece d cursor e) by lia.
    unfold runtime_on. simpl. by rewrite Z.div_div by done.
Qed.

(** The loop advances by at least a day per iteration from any start, so the
    fuel never runs out. *)
Lemma quot_ge_div a b : 0 < b → a / b <= Z.quot a b.
Proof.
  intros Hb. destruct (Z.le_gt_cases 0 a).
  - rewrite Z.quot_div_nonneg by lia. lia.
  - pose proof (Z.quot_rem' a b). pose proof (Z.rem_bound_pos_neg a b Hb ltac:(lia)).
    apply Z.div_le_upper_bound; lia.
Qed.

Lemma nextMidnight_ge cursor :
  (cursor / dayNs + 1) * dayNs
    <= nextMidnightMs (timestampFromNanoseconds cursor) * nanosecondsPerMillisecond.
Proof.
  unfold nextMidnightMs, dayNs, timestampFromNanoseconds.
  pose proof (quot_ge_div cursor nanosecondsPerMillisecond ltac:(done)).
  rewrite (Z.mul_comm msPerDay), <- Z.div_div by done.
  assert (cursor / nanosecondsPerMillisecond / msPerDay
    <= Z.quot cursor nanosecondsPerMillisecond / msPerDay) by (by apply Z.div_le_mono).
  unfold msPerDay, nanosecondsPerMillisecond in *. lia.
Qed.

Lemma split_loop_fuel fuel : ∀ index cursor terminal,
  (cursor < terminal → (terminal - 1) / dayNs - cursor / dayNs + 1 <= Z.of_nat fuel) →
  split_loop fuel index cursor terminal ≠ Err OutOfFuel.
Proof.
  assert (0 < dayNs) as HD by done.
  induction fuel as [|fuel IH]; intros index cursor terminal Hf; simpl;
    destruct (terminal <=? cursor) eqn:E; bool_simp; try done.
  - assert (cursor / dayNs <= (terminal - 1) / dayNs) by (apply Z.div_le_mono; lia). lia.
  - case_match; [done|].
    pose proof (nextMidnight_ge cursor) as Hge.
    set (e := if _ <? terminal then _ else _).
    specialize (IH (index + 1) e terminal).
    destruct (split_loop fuel (index + 1) e terminal) as [|[]]; try done.
    exfalso. apply IH; [|done]. intros Hlt. unfold e in *.
    destruct (_ <? terminal) eqn:Em; bool_simp; [|lia].
    assert (cursor / dayNs + 1 <= nextMidnightMs (timestampFromNanoseconds cursor)
      * nanosecondsPerMillisecond / dayNs) by (apply Z.div_le_lower_bound; lia). lia.
Qed.

Lemma split_no_fuel_error start durationNs :
  splitRuntimeAtUtcMidnight start durationNs ≠ Err OutOfFuel.
Proof.
  unfold splitRuntimeAtUtcMidnight.
  destruct (durationNs <? 0) eqn:E1; bool_simp; [done|].
  destruct (durationNs =? 0) eqn:E2; bool_simp; [done|].
  apply split_loop_fuel. intros _. by apply split_fuel_enough.
Qed.

(** ** Unique keys of projections *)

(** Every ledger key starts with the identifier of its observation. *)
Definition key_of_observation (id : Z) (key : string) : Prop :=
  ∃ rest, key = "meter:" +:+ pretty id +:+ String ":" rest.

Lemma key_of_observation_inj id id' key :
  key_of_observation id key → key_of_observation id' key → id = id'.
Proof. intros [r ->] [r' Heq]. by apply numbered_key_inj in Heq as [-> _]. Qed.

Lemma segment_key o i (suffix : string) :
  segment_prefix o i +:+ String ":" suffix
  = "meter:" +:+ pretty (so_id o) +:+ String ":" (pretty i +:+ String ":" suffix).
Proof. unfold segment_prefix. by rewrite !string_app_assoc. Qed.

Lemma segment_key_inj o i j s t :
  no_char ":" s → no_char ":" t →
  segment_prefix o i +:+ String ":" s = segment_prefix o j +:+ String ":" t →
  i = j ∧ s = t.
Proof.
  intros Hs Ht. rewrite !segment_key. intros H.
  apply numbered_key_inj in H as [_ H].
  by apply (numbered_key_inj "") in H.
Qed.

Lemma no_colon_dec s :
  forallb (λ c, negb (Ascii.eqb c ":")) (list_ascii_of_string s) = true → no_char ":" s.
Proof.
  rewrite forallb_forall. intros H Hin. apply list_elem_of_In in Hin.
  by apply H in Hin.
Qed.

Section projections.
Context (machine : string) (identity : MachineRow) (o : StoredObservation).

Lemma egress_key_not_segment i s :
  segment_prefix o i +:+ String ":" s ≠ "meter:" +:+ pretty (so_id o) +:+ ":egress".
Proof.
  rewrite segment_key. intros H. change ":egress" with (String ":" "egress") in H.
  apply numbered_key_inj in H as [_ H].
  assert (no_char ":" "egress") as Hn by by apply no_colon_dec.
  rewrite <- H in Hn. apply Hn. rewrite list_ascii_app. set_solver.
Qed.

Let keys ps : list string := pj_eventKey <$> ps.

Lemma segment_projections_keys segs key :
  key ∈ keys (concat (map (λ seg, [compute_projection machine identity o seg;
                                   memory_projection machine identity o seg]) segs)) ↔
  ∃ seg, seg ∈ segs ∧ (key = segment_prefix o (seg_index seg) +:+ ":compute" ∨
                       key = segment_prefix o (seg_index seg) +:+ ":memory").
Proof.
  unfold keys. induction segs as [|seg segs IH]; simpl; [set_solver|].
  rewrite !elem_of_cons, IH. set_solver.
Qed.

Lemma segment_projections_NoDup segs :
  NoDup (seg_index <$> segs) →
  NoDup (keys (concat (map (λ seg, [compute_projection machine identity o seg;
                                    memory_projection machine identity o seg]) segs))).
Proof.
  induction segs as [|seg segs IH]; simpl; intros Hnd; [constructor|].
  apply NoDup_cons in Hnd as [Hnew Hnd].
  assert (∀ s t (seg' : UsageSegment), seg' ∈ segs → no_char ":" s → no_char ":" t →
    segment_prefix o (seg_index seg) +:+ String ":" s
    ≠ segment_prefix o (seg_index seg') +:+ String ":" t) as Hne.
  { intros s t seg' Hin Hs Ht Heq. apply segment_key_inj in Heq as [Heq _]; [|done..].
    apply Hnew. rewrite Heq. by apply list_elem_of_fmap_2. }
  assert (no_char ":" "compute" ∧ no_char ":" "memory") as [? ?]
    by (split; by apply no_colon_dec).
  constructor; [|constructor; [|by apply IH]].
  - rewrite elem_of_cons, segment_projections_keys. simpl.
    intros [Heq|(seg' & Hin & [Heq|Heq])]; [|by apply Hne in Heq..].
    by apply segment_key_inj in Heq as [_ ?].
  - rewrite segment_projections_keys. simpl.
    intros (seg' & Hin & [Heq|Heq]); by apply Hne in Heq.
Qed.

Lemma observation_projections_NoDup segs delta start :
  NoDup (seg_index <$> segs) →
  NoDup (keys (observation_projections machine identity o segs delta start)).
Proof.
  intros Hnd. unfold observation_projections, keys. rewrite fmap_app.
  apply NoDup_app. split_and!.
  - by apply segment_projections_NoDup.
  - intros key Hkey Hin. destruct (0 <? delta); [|set_solver].
    apply list_elem_of_singleton in Hin.
    apply segment_projections_keys in Hkey as (seg & _ & [->| ->]);
      by apply egress_key_not_segment in Hin.
  - destruct (0 <? delta); [apply NoDup_singleton|constructor].
Qed.

Lemma observation_projections_keys segs delta start p :
  p ∈ observation_projections machine identity o segs delta start →
  key_of_observation (so_id o) (pj_eventKey p) ∧ pj_observationId p = so_id o ∧
  pj_machineId p = machine.
Proof.
  unfold observation_projections. intros [Hin|Hin]%elem_of_app.
  - induction segs as [|seg segs IH]; simpl in Hin; [set_solver|].
    apply elem_of_cons in Hin as [->|Hin].
    { split; [|done]. eexists. apply segment_key. }
    apply elem_of_cons in Hin as [->|Hin]; [|auto].
    split; [|done]. eexists. apply segment_key.
  - destruct (0 <? delta); [|set_solver].
    apply list_elem_of_singleton in Hin as ->. split; [|done].
    by exists "egress".
Qed.
End projections.

(** ** Segments without bounds on the clock *)

Lemma split_loop_shape fuel : ∀ index cursor terminal segs,
  split_loop fuel index cursor terminal = Ok segs →
  sum_with seg_runtimeNs segs = Z.max 0 (terminal - cursor) ∧
  (∀ seg, seg ∈ segs → index <= seg_index seg) ∧ NoDup (seg_index <$> segs).
Proof.
  induction fuel as [|fuel IH]; intros index cursor terminal segs; simpl;
    destruct (terminal <=? cursor) eqn:E; bool_simp.
  - intros [= <-]. simpl. split_and!; [lia|set_solver|constructor].
  - done.
  - intros [= <-]. simpl. split_and!; [lia|set_solver|constructor].
  - case_match; [done|]. set (e := if _ <? terminal then _ else _).
    intros H'. apply result_bind_Ok in H' as (rest & Hrest & [= <-]).
    apply IH in Hrest as (Hsum & Hge & Hnd). simpl. split_and!.
    + rewrite Hsum. unfold e. case_match; bool_simp; lia.
    + intros seg [->|Hin]%elem_of_cons; simpl; [lia|]. apply Hge in Hin. lia.
    + constructor; [|done]. intros (seg & Heq & Hin)%list_elem_of_fmap.
      apply Hge in Hin. lia.
Qed.

Lemma split_shape start durationNs segs :
  splitRuntimeAtUtcMidnight start durationNs = Ok segs →
  0 <= durationNs ∧ sum_with seg_runtimeNs segs = durationNs ∧ NoDup (seg_index <$> segs).
Proof.
  unfold splitRuntimeAtUtcMidnight.
  destruct (durationNs <? 0) eqn:E1; bool_simp; [done|].
  destruct (durationNs =? 0) eqn:E2; bool_simp.
  { intros [= <-]. subst. simpl. split_and!; [done|done|constructor]. }
  intros (Hsum & _ & Hnd)%split_loop_shape. rewrite Hsum. split_and!; [lia|lia|done].
Qed.

(** ** Appending projections to the two ledgers *)

(** The [usage_events] row written next to a raw event. *)
Definition usage_of_raw (e : RawUsageEvent) : UsageEventRow :=
  mkUsageEvent ("raw:" +:+ raw_key e) (raw_machine_id e) (raw_organization_id e)
    (raw_project_id e) (projection_of (raw_unit e)).1
    (quotient_9 (raw_quantity e) (projection_of (raw_unit e)).2) (raw_period_start e) (raw_period_end e) "host".

Lemma usage_of_raw_row p : usage_row p = usage_of_raw (raw_row p).
Proof. done. Qed.

Lemma has_key_usage (k : string) (raws : list RawUsageEvent) :
  has_key ue_key ("raw:" +:+ k) (usage_of_raw <$> raws) = has_key raw_key k raws.
Proof.
  apply eq_true_iff_eq. rewrite !has_key_true. split.
  - intros (y & (e & -> & He)%list_elem_of_fmap & Hk). exists e. split; [done|].
    by apply string_app_cancel in Hk.
  - intros (e & He & Hk). exists (usage_of_raw e). split; [by apply list_elem_of_fmap_2|].
    simpl. by rewrite Hk.
Qed.

Definition set_ledgers (raws : list RawUsageEvent) (usages : list UsageEventRow)
    (db : MeterDb) : MeterDb :=
  mkMeterDb (machines db) (hosts db) (meter_state db) (observations db)
    (next_observation_id db) raws usages (usage_outbox db) (exceptions db)
    (resolutions db) (audit_events db).

Definition nonzero (p : Projection) : bool := negb (pj_quantity p =? 0).

(** The raw rows a list of projections adds. *)
Definition new_rows (ps : list Projection) : list RawUsageEvent :=
  raw_row <$> List.filter nonzero ps.

Definition mirrored (db : MeterDb) : Prop :=
  usage_events db = usage_of_raw <$> raw_events db.

Lemma new_rows_cons p ps :
  new_rows (p :: ps) = (if nonzero p then [raw_row p] else []) ++ new_rows ps.
Proof. unfold new_rows. simpl. by destruct (nonzero p). Qed.

Lemma appendProjection_fresh p db :
  mirrored db → (∀ e, e ∈ raw_events db → raw_key e ≠ pj_eventKey p) →
  appendProjection p db =
    set_ledgers (raw_events db ++ new_rows [p])
      (usage_of_raw <$> (raw_events db ++ new_rows [p])) db.
Proof.
  intros Hm Hfresh. rewrite new_rows_cons. unfold appendProjection, nonzero.
  destruct (pj_quantity p =? 0) eqn:Eq; simpl.
  { rewrite app_nil_r, <- Hm. by destruct db. }
  rewrite insert_new_fresh by (apply has_key_false; auto).
  rewrite Hm, usage_of_raw_row, insert_new_fresh.
  - by rewrite fmap_app.
  - simpl. rewrite has_key_usage. apply has_key_false. auto.
Qed.

Lemma append_all_fresh ps : ∀ db,
  mirrored db → NoDup (pj_eventKey <$> ps) →
  (∀ p e, p ∈ ps → e ∈ raw_events db → raw_key e ≠ pj_eventKey p) →
  append_all ps db =
    set_ledgers (raw_events db ++ new_rows ps)
      (usage_of_raw <$> (raw_events db ++ new_rows ps)) db.
Proof.
  induction ps as [|p ps IH]; intros db Hm Hnd Hfresh.
  - unfold new_rows. simpl. rewrite app_nil_r, <- Hm. by destruct db.
  - apply NoDup_cons in Hnd as [Hnew Hnd]. change (append_all (p :: ps) db)
      with (append_all ps (appendProjection p db)).
    rewrite appendProjection_fresh by (auto; intros; apply Hfresh; set_solver).
    rewrite IH; [|done|done|].
    + rewrite (new_rows_cons p ps), (new_rows_cons p []). unfold set_ledgers. simpl.
      by rewrite !app_nil_r, <- !app_assoc.
    + simpl. intros q e Hq [He|He]%elem_of_app; [apply Hfresh; set_solver|].
      rewrite new_rows_cons, app_nil_r in He. destruct (nonzero p); [|set_solver].
      apply list_elem_of_singleton in He as ->. intros Heq. apply Hnew. simpl in Heq.
      rewrite Heq. by apply list_elem_of_fmap_2.
Qed.

(** ** Billed quantities *)

Definition contribution (machine : string) (dim : Dimension) (e : RawUsageEvent) : Z :=
  if String.eqb (raw_machine_id e) machine && bool_decide (raw_dimension e = dim)
  then raw_quantity e else 0.

(** What the raw ledger charges a machine in one dimension. *)
Definition billed (machine : string) (dim : Dimension) (db : MeterDb) : Z :=
  sum_with (contribution machine dim) (raw_events db).

Definition projected_quantity (dim : Dimension) (p : Projection) : Z :=
  if bool_decide (pj_dimension p = dim) then pj_quantity p else 0.

Lemma new_rows_sum machine dim ps :
  (∀ p, p ∈ ps → pj_machineId p = machine) →
  sum_with (contribution machine dim) (new_rows ps) = sum_with (projected_quantity dim) ps.
Proof.
  induction ps as [|p ps IH]; intros Hm; [done|].
  assert (pj_machineId p = machine) as Hp by (apply Hm; set_solver).
  rewrite new_rows_cons, sum_with_app, IH by set_solver. simpl.
  unfold nonzero, projected_quantity at 2.
  destruct (pj_quantity p =? 0) eqn:Eq; bool_simp; simpl.
  - rewrite Eq. by destruct (bool_decide _).
  - unfold contribution. simpl. rewrite Hp, String.eqb_refl. simpl. lia.
Qed.

Lemma new_rows_other machine machine' dim ps :
  (∀ p, p ∈ ps → pj_machineId p = machine) → machine' ≠ machine →
  sum_with (contribution machine' dim) (new_rows ps) = 0.
Proof.
  intros Hm Hne. apply sum_with_zero. intros e (p & -> & Hp)%list_elem_of_fmap.
  apply list_elem_of_In, filter_In in Hp as [Hp _]. apply list_elem_of_In in Hp.
  unfold contribution. simpl. rewrite (Hm p Hp).
  by destruct (String.eqb_spec machine machine').
Qed.

Definition priced (identity : MachineRow) (dim : Dimension) (runtime egress : Z) : Z :=
  match dim with
  | Compute_ => runtime * vcpus identity
  | Memory_ => runtime * memory_bytes identity
  | Egress_ => egress
  end.

Lemma observation_projections_sum machine identity o segs delta start dim :
  0 <= delta →
  sum_with (projected_quantity dim)
    (observation_projections machine identity o segs delta start)
  = priced identity dim (sum_with seg_runtimeNs segs) delta.
Proof.
  intros Hd. unfold observation_projections. rewrite sum_with_app.
  assert (sum_with (projected_quantity dim)
    (if 0 <? delta then
       [egress_projection machine identity o delta start
          match last segs with Some seg => seg_end seg | None => start end]
     else []) = if bool_decide (dim = Egress_) then delta else 0) as ->.
  { destruct (0 <? delta) eqn:E; bool_simp; simpl; [|case_bool_decide; lia].
    unfold projected_quantity. simpl. rewrite Z.add_0_r.
    destruct dim; done. }
  assert (sum_with (projected_quantity dim)
    (concat (map (λ seg, [compute_projection machine identity o seg;
                          memory_projection machine identity o seg]) segs))
    = match dim with
      | Egress_ => 0
      | _ => priced identity dim (sum_with seg_runtimeNs segs) 0
      end) as ->; [|destruct dim; simpl; lia].
  induction segs as [|seg segs IH]; simpl; [by destruct dim|].
  rewrite IH. unfold projected_quantity. destruct dim; simpl; lia.
Qed.

(** ** Billed quantities by day *)

(** What the raw ledger charges a machine in one dimension on one UTC day, the
    day an event's period starts on. *)
Definition billed_on (machine : string) (dim : Dimension) (d : Z) (db : MeterDb) : Z :=
  sum_with (λ e, if raw_period_start e / msPerDay =? d then contribution machine dim e else 0) (raw_events db).

Lemma new_rows_days machine identity o segs delta start dim d :
  dim ≠ Egress_ →
  sum_with (λ e, if raw_period_start e / msPerDay =? d then contribution machine dim e else 0)
    (new_rows (observation_projections machine identity o segs delta start))
  = priced identity dim (sum_with (runtime_on d) segs) 0.
Proof.
  intros Hdim. set (f := λ e, if _ =? d then contribution machine dim e else 0).
  assert (∀ p, pj_machineId p = machine → sum_with f (new_rows [p])
    = if bool_decide (pj_dimension p = dim) && (pj_periodStart p / msPerDay =? d) then pj_quantity p else 0) as Hone.
  { intros p Hp. unfold new_rows, nonzero. simpl. destruct (pj_quantity p =? 0) eqn:E; bool_simp; simpl.
    - rewrite E. by destruct (_ && _).
    - unfold f, contribution. simpl. rewrite Hp, String.eqb_refl. simpl.
      destruct (bool_decide _), (_ =? d); simpl; lia. }
  assert (∀ ps ps', sum_with f (new_rows (ps ++ ps')) = sum_with f (new_rows ps) + sum_with f (new_rows ps')) as Happ.
  { intros ps ps'. unfold new_rows. by rewrite List.filter_app, map_app, sum_with_app. }
  unfold observation_projections. rewrite Happ.
  assert (sum_with f (new_rows (if 0 <? delta then _ else [])) = 0) as ->.
  { destruct (0 <? delta); [|done]. rewrite Hone by done. simpl. by rewrite bool_decide_eq_false_2 by done. }
  rewrite Z.add_0_r. induction segs as [|seg segs IH]; simpl; [by destruct dim|].
  change (?a :: ?b :: ?l) with ([a] ++ [b] ++ l). rewrite !Happ, IH, !Hone by done.
  unfold runtime_on at 2. simpl. destruct dim; [| |done]; simpl; destruct (_ =? d); simpl; lia.
Qed.
