(* ===== verification/MeteringInv.v ===== *)
(** * Invariant and safety of authoritative metering

    The step that processes one stored observation as a relation on meter
    states, the invariant of the metering tables, and its preservation by the
    drain, a batch and a host loss. *)

From S2P Require Import Prelude Text Js Numeric Metering MeteringFacts.

(** ** One processed observation *)

(** A machine row without the two columns metering writes. *)
Definition billing_identity (m : MachineRow) : MachineRow :=
  m <| usage_checkpoint_at := None |> <| usage_finalized_at := None |>.

(** How one observation moves the meter, with the runtime and the egress it
    bills. *)
Inductive meter_step (now : Z) (identity : MachineRow) (st : MeterState)
    (o : StoredObservation) : MeterState → Z → Z → Prop :=
| step_reject reason :
    anomaly_of identity st o = Some reason →
    meter_step now identity st o (skip_state o (quarantine_meter now reason st)) 0 0
| step_start covered boundary :
    anomaly_of identity st o = None → so_kind o = "start" →
    covered = Z.max 0 (boundary - so_observed_at o) * nanosecondsPerMillisecond →
    boundary = cutover_boundary identity (so_observed_at o) →
    meter_step now identity st o (start_state o covered boundary st) 0 0
| step_delta periodEnd runtimeDelta :
    anomaly_of identity st o = None → so_kind o ≠ "start" →
    runtimeDelta = Z.max 0 (so_runtime_ns o - projected_runtime_ns st) →
    meter_step now identity st o
      (advance_state o (projected_runtime_ns st + runtimeDelta) periodEnd st)
      runtimeDelta (so_egress_bytes o - last_egress_bytes st)
| step_degraded periodEnd runtimeDelta :
    anomaly_of identity st o = None → so_kind o = "final" →
    runtimeDelta = Z.max 0 (so_runtime_ns o - projected_runtime_ns st) →
    meter_step now identity st o
      (quarantine_meter now "degraded_terminal"
         (advance_state o (projected_runtime_ns st + runtimeDelta) periodEnd st))
      runtimeDelta (so_egress_bytes o - last_egress_bytes st).

Record process_frame (db db' : MeterDb) : Prop := mkFrame {
  pf_observations : observations db' = observations db;
  pf_next : next_observation_id db' = next_observation_id db;
  pf_hosts : hosts db' = hosts db;
  pf_resolutions : resolutions db' = resolutions db;
  pf_machines : billing_identity <$> machines db' = billing_identity <$> machines db
}.

Definition fresh_observation (o : StoredObservation) (db : MeterDb) : Prop :=
  ∀ e, e ∈ raw_events db → ¬ key_of_observation (so_id o) (raw_key e).


#[export] Instance process_frame_refl : Reflexive process_frame.
Proof. by constructor. Qed.

#[export] Instance process_frame_trans : Transitive process_frame.
Proof. intros db1 db2 db3 [] []. constructor; congruence. Qed.

(** Everything one processed observation does to the tables. *)
Record processed (now : Z) (machine : string) (identity : MachineRow) (st : MeterState)
    (o : StoredObservation) (db db' : MeterDb) (st' : MeterState) (rt eg : Z)
    (ps : list Projection) : Prop := mkProcessed {
  pr_frame : process_frame db db';
  pr_meter : meter_state db' = <[machine := st']> (meter_state db);
  pr_step : meter_step now identity st o st' rt eg;
  pr_raw : raw_events db' = raw_events db ++ new_rows ps;
  pr_mirrored : mirrored db';
  pr_keys : NoDup (pj_eventKey <$> ps);
  pr_origin : ∀ p, p ∈ ps →
    key_of_observation (so_id o) (pj_eventKey p) ∧ pj_observationId p = so_id o ∧
    pj_machineId p = machine;
  pr_sum : 0 <= eg → ∀ dim,
    sum_with (projected_quantity dim) ps = priced identity dim rt eg
}.

Lemma finalize_machine_frame now machine identity periodEnd db :
  process_frame db (finalize_machine now machine identity periodEnd db).
Proof.
  constructor; try done. simpl. apply fmap_alter_same.
  intros m. by destruct (machine_matches _ _ _).
Qed.

Lemma update_meter_present machine f db st :
  meter_state db !! machine = Some st →
  meter_state (update_meter machine f db) = <[machine := f st]> (meter_state db).
Proof. intros Hst. simpl. by apply alter_as_insert. Qed.

Lemma update_meter_at_present machine f db st :
  meter_state db !! machine = Some st →
  meter_state (update_meter_at machine (last_sequence st) f db)
  = <[machine := f st]> (meter_state db).
Proof.
  intros Hst. unfold update_meter_at. rewrite (update_meter_present _ _ _ st) by done.
  by rewrite Z.eqb_refl.
Qed.

Lemma reject_processed now machine identity st o db reason :
  mirrored db → meter_state db !! machine = Some st →
  anomaly_of identity st o = Some reason →
  processed now machine identity st o db
    (reject_observation now machine identity st o reason db)
    (skip_state o (quarantine_meter now reason st)) 0 0 [].
Proof.
  intros Hm Hst Ha. constructor; try done.
  - unfold reject_observation. change (last_sequence st)
      with (last_sequence (quarantine_meter now reason st)).
    rewrite (update_meter_at_present _ _ _ (quarantine_meter now reason st)).
    + unfold setQuarantined. rewrite (update_meter_present _ _ _ st) by done.
      by rewrite insert_insert_eq.
    + unfold setQuarantined. rewrite (update_meter_present _ _ _ st) by done.
      by rewrite lookup_insert_eq.
  - by constructor.
  - unfold new_rows. simpl. by rewrite app_nil_r.
  - constructor.
  - set_solver.
  - intros _ dim. by destruct dim.
Qed.

Lemma closeLegacyPrefix_frame now machine identity hostStart db :
  let '(boundary, db') := closeLegacyPrefix now machine identity hostStart db in
  boundary = cutover_boundary identity hostStart ∧ process_frame db db' ∧
  meter_state db' = meter_state db ∧ raw_events db' = raw_events db ∧
  usage_events db' = usage_events db.
Proof.
  unfold closeLegacyPrefix.
  destruct (legacy_start identity) as [l|]; [destruct (l <? _)|];
    (split; [done|split; [constructor; try done|done]]);
    simpl; apply fmap_alter_same; intros m; by destruct (machine_matches _ _ _).
Qed.

Lemma start_processed now machine identity st o db :
  mirrored db → meter_state db !! machine = Some st →
  anomaly_of identity st o = None → so_kind o = "start" →
  ∃ st', processed now machine identity st o db (accept_start now machine identity st o db)
           st' 0 0 [].
Proof.
  intros Hm Hst Ha Hk. unfold accept_start.
  pose proof (closeLegacyPrefix_frame now machine identity (so_observed_at o) db) as Hc.
  destruct (closeLegacyPrefix _ _ _ _) as [boundary db1].
  destruct Hc as (Hb & Hf & Hms & Hr & Hu). eexists.
  constructor.
  - etransitivity; [done|]. constructor; done.
  - rewrite (update_meter_at_present _ _ _ st) by by rewrite Hms. by rewrite Hms.
  - by eapply step_start.
  - unfold new_rows. simpl. by rewrite app_nil_r.
  - unfold mirrored. simpl. by rewrite Hr, Hu.
  - constructor.
  - set_solver.
  - intros _ dim. by destruct dim.
Qed.

Lemma append_all_processed machine identity o segs eg start db :
  mirrored db → fresh_observation o db → NoDup (seg_index <$> segs) →
  let ps := observation_projections machine identity o segs eg start in
  append_all ps db = set_ledgers (raw_events db ++ new_rows ps)
    (usage_of_raw <$> (raw_events db ++ new_rows ps)) db.
Proof.
  intros Hm Hfresh Hnd ps. apply append_all_fresh; [done| |].
  - by apply observation_projections_NoDup.
  - intros p e Hp He Heq. apply observation_projections_keys in Hp as (Hk & _ & _).
    apply (Hfresh e He). by rewrite Heq.
Qed.

Lemma projected_max st o :
  (if projected_runtime_ns st <? so_runtime_ns o
   then so_runtime_ns o - projected_runtime_ns st else 0)
  = Z.max 0 (so_runtime_ns o - projected_runtime_ns st) ∧
  (if projected_runtime_ns st <? so_runtime_ns o
   then so_runtime_ns o else projected_runtime_ns st)
  = projected_runtime_ns st + Z.max 0 (so_runtime_ns o - projected_runtime_ns st).
Proof. case_match; bool_simp; lia. Qed.

(** The tables after the counters advanced, before a final is treated. *)
Lemma advance_processed now machine identity st o db segs start periodEnd rt :
  mirrored db → fresh_observation o db → meter_state db !! machine = Some st →
  anomaly_of identity st o = None → so_kind o ≠ "start" →
  rt = Z.max 0 (so_runtime_ns o - projected_runtime_ns st) →
  splitRuntimeAtUtcMidnight start rt = Ok segs →
  let eg := so_egress_bytes o - last_egress_bytes st in
  let ps := observation_projections machine identity o segs eg start in
  let st' := advance_state o (projected_runtime_ns st + rt) periodEnd st in
  processed now machine identity st o db
    (update_meter_at machine (last_sequence st)
       (advance_state o (projected_runtime_ns st + rt) periodEnd) (append_all ps db))
    st' rt eg ps.
Proof.
  intros Hm Hf Hst Ha Hk Hrt Hsplit eg ps st'.
  apply split_shape in Hsplit as (_ & Hsum & Hnd).
  pose proof (append_all_processed machine identity o segs eg start db Hm Hf Hnd) as Happ.
  fold ps in Happ. rewrite Happ. constructor.
  - by constructor.
  - by rewrite (update_meter_at_present _ _ _ st) by done.
  - by constructor.
  - done.
  - done.
  - by apply observation_projections_NoDup.
  - intros p Hp. eapply observation_projections_keys. exact Hp.
  - intros Heg dim. unfold ps. by rewrite observation_projections_sum, Hsum.
Qed.

(** Finalising the machine touches no meter and no ledger. *)
Lemma processed_finalize now machine identity st o db db' st' rt eg ps periodEnd :
  processed now machine identity st o db db' st' rt eg ps →
  processed now machine identity st o db
    (finalize_machine now machine identity periodEnd db') st' rt eg ps.
Proof.
  intros []. constructor; try done.
  etransitivity; [done|]. apply finalize_machine_frame.
Qed.

Lemma processed_degrade now machine identity st o db db' rt ps periodEnd :
  anomaly_of identity st o = None → so_kind o = "final" →
  rt = Z.max 0 (so_runtime_ns o - projected_runtime_ns st) →
  let eg := so_egress_bytes o - last_egress_bytes st in
  let st' := advance_state o (projected_runtime_ns st + rt) periodEnd st in
  processed now machine identity st o db db' st' rt eg ps →
  processed now machine identity st o db (degrade_terminal now machine identity o db')
    (quarantine_meter now "degraded_terminal" st') rt eg ps.
Proof.
  intros Ha Hk Hrt eg st' []. constructor; try done.
  - etransitivity; [done|]. by constructor.
  - unfold degrade_terminal, setQuarantined.
    rewrite (update_meter_present _ _ _ st') by (simpl; by rewrite pr_meter0, lookup_insert_eq).
    simpl. by rewrite pr_meter0, insert_insert_eq.
  - by apply step_degraded.
Qed.

(** Every outcome of [processObservation] is one meter step with its rows. *)
Lemma process_effect now machine identity st o db out db' :
  mirrored db → fresh_observation o db → meter_state db !! machine = Some st →
  processObservation now machine identity st o db = Ok (out, db') →
  ∃ st' rt eg ps, processed now machine identity st o db db' st' rt eg ps.
Proof.
  intros Hm Hf Hst. unfold processObservation.
  destruct (anomaly_of identity st o) as [reason|] eqn:Ha.
  { intros [= <- <-]. do 4 eexists. by apply reject_processed. }
  destruct (String.eqb_spec (so_kind o) "start") as [Hk|Hk].
  { intros [= <- <-]. destruct (start_processed now machine identity st o db) as [st' ?];
      [done..|]. by exists st', 0, 0, []. }
  unfold accept_delta. destruct (coalesce _ _) as [start|]; [|done].
  destruct (projected_max st o) as [-> ->].
  intros (segs & Hsplit & H)%result_bind_Ok.
  pose proof (advance_processed now machine identity st o db segs start
    (timestampFromNanoseconds (start * nanosecondsPerMillisecond +
       Z.max 0 (so_runtime_ns o - projected_runtime_ns st))) _ Hm Hf Hst Ha Hk eq_refl Hsplit)
    as Hp. cbv zeta in Hp.
  destruct (String.eqb_spec (so_kind o) "final") as [Hfin|_].
  - destruct (String.eqb (so_quality o) "last_defensible"); injection H as <- <-;
      do 4 eexists.
    + apply processed_degrade; [done..|]. apply processed_finalize, Hp.
    + apply processed_finalize, Hp.
  - injection H as <- <-. do 4 eexists. exact Hp.
Qed.

(** The rows each outcome writes, and the outcome itself. *)
Definition delta_rows (machine : string) (identity : MachineRow) (st : MeterState)
    (o : StoredObservation) (start : Z) (segs : list UsageSegment) : list RawUsageEvent :=
  new_rows (observation_projections machine identity o segs (so_egress_bytes o - last_egress_bytes st) start).

Lemma process_rows now machine identity st o db out db' :
  mirrored db → fresh_observation o db → meter_state db !! machine = Some st →
  processObservation now machine identity st o db = Ok (out, db') →
  match anomaly_of identity st o with
  | Some _ => out = Quarantined ∧ raw_events db' = raw_events db
  | None =>
      if String.eqb (so_kind o) "start" then out = Accepted ∧ raw_events db' = raw_events db
      else ∃ start segs,
        coalesce (last_period_end st) (last_observed_at st) = Some start ∧
        splitRuntimeAtUtcMidnight start (Z.max 0 (so_runtime_ns o - projected_runtime_ns st)) = Ok segs ∧
        raw_events db' = raw_events db ++ delta_rows machine identity st o start segs ∧
        out = if String.eqb (so_kind o) "final" && String.eqb (so_quality o) "last_defensible"
              then Quarantined else Accepted
  end.
Proof.
  intros Hm Hf Hst. unfold processObservation.
  destruct (anomaly_of identity st o) as [reason|] eqn:Ha; [by intros [= <- <-]|].
  destruct (String.eqb (so_kind o) "start").
  { intros [= <- <-]. split; [done|]. unfold accept_start.
    pose proof (closeLegacyPrefix_frame now machine identity (so_observed_at o) db) as Hc.
    destruct (closeLegacyPrefix _ _ _ _) as [boundary db1]. apply Hc. }
  unfold accept_delta. destruct (coalesce _ _) as [start|] eqn:Ec; [|done].
  destruct (projected_max st o) as [-> ->]. intros (segs & Hsplit & H)%result_bind_Ok.
  exists start, segs. split; [done|]. split; [done|].
  pose proof (split_shape _ _ _ Hsplit) as (_ & _ & Hnd).
  pose proof (append_all_processed machine identity o segs (so_egress_bytes o - last_egress_bytes st) start db
    Hm Hf Hnd) as Happ. simpl in Happ. rewrite Happ in H.
  destruct (String.eqb (so_kind o) "final"); simpl; [|by injection H as <- <-].
  destruct (String.eqb (so_quality o) "last_defensible"); by injection H as <- <-.
Qed.

(** ** What an accepted observation satisfies *)

Definition closed (st : MeterState) : Prop :=
  is_Some (quarantined_at st) ∨ is_Some (loss_closed_at st) ∨
  (start_seen st = true ∧ final_seen st = true).

Definition reasoned (st : MeterState) : Prop :=
  is_Some (quarantined_at st) → is_Some (quarantine_reason st).

Lemma state_anomaly_none identity st o :
  reasoned st → state_anomaly identity st o = None →
  ¬ closed st ∧ host_boot_id st = so_host_boot_id o ∧
  (if start_seen st
   then so_kind o ≠ "start" ∧ counter_reset st o = false
   else so_sequence o = 1 ∧ so_kind o = "start" ∧ so_runtime_ns o = 0) ∧
  observationIntegrityReason identity st (evidence_of o) (so_received_at o) = None.
Proof.
  intros Hr. unfold state_anomaly, closed.
  destruct (quarantined_at st) eqn:Eq.
  { intros Hn. destruct Hr as [? Hr]; [by rewrite Eq|congruence]. }
  destruct (String.eqb_spec (host_boot_id st) (so_host_boot_id o)); [|done].
  case_bool_decide as Hl; [done|].
  destruct (start_seen st); simpl.
  - destruct (String.eqb_spec (so_kind o) "start"); [done|].
    destruct (final_seen st); [done|].
    destruct (counter_reset st o) eqn:Ec; [done|]. intros Hi.
    split_and!; try done. intros [[? ?]|[?|[_ ?]]]; done.
  - case_match eqn:E; [done|]. bool_simp.
    destruct (final_seen st); [done|].
    case_match; [done|]. intros Hi. split_and!; try done.
    intros [[? ?]|[?|[? _]]]; done.
Qed.

Lemma anomaly_none_state identity st o :
  anomaly_of identity st o = None → state_anomaly identity st o = None.
Proof. unfold anomaly_of. by destruct (state_anomaly identity st o). Qed.

Lemma counter_reset_false st o :
  counter_reset st o = false →
  last_runtime_ns st <= so_runtime_ns o ∧ last_egress_bytes st <= so_egress_bytes o ∧
  so_egress_counter_epoch o = egress_counter_epoch st ∧
  (start_seen st = true → ∃ s l, start_monotonic_ns st = Some s ∧
     last_observed_monotonic_ns st = Some l ∧ l <= so_observed_monotonic_ns o ∧
     so_observed_monotonic_ns o - s = so_runtime_ns o).
Proof.
  unfold counter_reset. intros H. bool_simp. split_and!; [done..|].
  intros Hs. rewrite Hs in *. simpl in *.
  destruct (start_monotonic_ns st) as [s|]; [|done].
  destruct (last_observed_monotonic_ns st) as [l|]; [|done].
  bool_simp. eauto 10.
Qed.

(** A step never bills a closed meter and never reopens one; the counters only
    grow. *)
Record step_facts (st : MeterState) (o : StoredObservation) (st' : MeterState)
    (rt eg : Z) : Prop := mkStepFacts {
  sf_sequence : last_sequence st' = so_sequence o;
  sf_runtime : 0 <= rt;
  sf_egress : 0 <= eg;
  sf_closed : closed st → closed st' ∧ rt = 0 ∧ eg = 0;
  sf_reasoned : reasoned st';
  sf_final : final_seen st' = true → start_seen st' = true;
  sf_unstarted : start_seen st = false → rt = 0 ∧ eg = 0;
  sf_projected : start_seen st = true →
    projected_runtime_ns st' = projected_runtime_ns st + rt ∧
    last_egress_bytes st' = last_egress_bytes st + eg;
  sf_started : start_seen st = false →
    (projected_runtime_ns st' = projected_runtime_ns st ∧
     last_egress_bytes st' = last_egress_bytes st) ∨
    (0 <= projected_runtime_ns st' ∧ last_egress_bytes st' = so_egress_bytes o);
  sf_boot : host_boot_id st' = host_boot_id st;
  sf_generation : ms_lease_generation st' = ms_lease_generation st
}.

Lemma closed_quarantine now reason st : closed (quarantine_meter now reason st).
Proof. left. simpl. by destruct (quarantined_at st). Qed.

Lemma reasoned_quarantine now reason st : reasoned (quarantine_meter now reason st).
Proof. intros _. simpl. by destruct (quarantine_reason st). Qed.

Lemma meter_step_facts now identity st o st' rt eg :
  meter_step now identity st o st' rt eg →
  reasoned st → (final_seen st = true → start_seen st = true) →
  step_facts st o st' rt eg.
Proof.
  intros Hstep Hr Hfin.
  destruct Hstep as [reason Ha|covered boundary Ha Hk Hc Hb|pe rt Ha Hk Hrt|pe rt Ha Hk Hrt].
  - constructor; try done; simpl.
    + split; [|done]. apply (closed_quarantine now reason).
    + apply (reasoned_quarantine now reason).
    + intros _. lia.
    + intros Hs. by left.
  - apply anomaly_none_state, state_anomaly_none in Ha as (Hcl & _ & Hst & _); [|done].
    destruct (start_seen st) eqn:Es; [naive_solver|].
    constructor; try done; simpl.
    { congruence. }
    intros _. right. subst covered. unfold nanosecondsPerMillisecond. lia.
  - apply anomaly_none_state, state_anomaly_none in Ha as (Hcl & _ & Hst & _); [|done].
    destruct (start_seen st) eqn:Es; [|naive_solver].
    destruct Hst as [_ (Hrun & Heg & _ & _)%counter_reset_false].
    constructor; try done; simpl; try (lia || congruence).
  - apply anomaly_none_state, state_anomaly_none in Ha as (Hcl & _ & Hst & _); [|done].
    destruct (start_seen st) eqn:Es; [|destruct Hst as (_ & Hst & _); congruence].
    destruct Hst as [_ (Hrun & Heg & _ & _)%counter_reset_false].
    constructor; try done; simpl; try (lia || congruence).
    + apply (reasoned_quarantine now "degraded_terminal").
Qed.

(** Where a step leaves the counters. *)
Lemma step_counters now identity st o st' rt eg :
  meter_step now identity st o st' rt eg → reasoned st →
  match anomaly_of identity st o with
  | Some _ => is_Some (quarantined_at st')
  | None =>
      start_seen st' = true ∧ last_runtime_ns st' = so_runtime_ns o ∧ last_egress_bytes st' = so_egress_bytes o ∧
      (so_kind o ≠ "start" → projected_runtime_ns st' = Z.max (projected_runtime_ns st) (so_runtime_ns o))
  end.
Proof.
  intros Hstep Hr. pose proof (λ Ha, state_anomaly_none identity st o Hr (anomaly_none_state identity st o Ha)) as Hs.
  destruct Hstep as [reason Ha|covered boundary Ha Hk Hc Hb|pe rt Ha Hk Hrt|pe rt Ha Hk Hrt]; rewrite Ha; simpl.
  - by destruct (quarantined_at st).
  - done.
  - destruct (Hs Ha) as (_ & _ & Hst & _). destruct (start_seen st); [|naive_solver]. split_and!; [done..|lia].
  - destruct (Hs Ha) as (_ & _ & Hst & _). destruct (start_seen st); [|naive_solver congruence].
    split_and!; [done..|lia].
Qed.

(** ** The invariant *)

(** The origin of a ledger row: a stored observation of the charged machine
    that its meter has consumed. *)
Definition consumed (db : MeterDb) (e : RawUsageEvent) : Prop :=
  ∃ o st, o ∈ observations db ∧ so_id o = raw_observation_id e ∧
    key_of_observation (so_id o) (raw_key e) ∧ so_machine_id o = raw_machine_id e ∧
    meter_state db !! so_machine_id o = Some st ∧ so_sequence o <= last_sequence st.

(** A meter never charges more than its counters. *)
Definition within_counters (db : MeterDb) (k : string) (m : MachineRow) (st : MeterState)
    : Prop :=
  (∀ dim, billed k dim db <= priced m dim (projected_runtime_ns st) (last_egress_bytes st)) ∧
  (start_seen st = false → ∀ dim, billed k dim db = 0).

Record meter_wf (st : MeterState) : Prop := mkMeterWf {
  wf_reasoned : reasoned st;
  wf_final : final_seen st = true → start_seen st = true
}.

Record meter_inv (db : MeterDb) : Prop := mkMeterInv {
  inv_mirrored : mirrored db;
  inv_ids : NoDup (so_id <$> observations db);
  inv_ids_lt : ∀ o, o ∈ observations db → so_id o < next_observation_id db;
  inv_egress : ∀ o, o ∈ observations db → 0 <= so_egress_bytes o;
  inv_raw : ∀ e, e ∈ raw_events db → consumed db e;
  inv_wf : ∀ k st, meter_state db !! k = Some st → meter_wf st;
  inv_resources : ∀ k m, machines db !! k = Some m → 0 <= vcpus m ∧ 0 <= memory_mb m;
  inv_bill : ∀ k m st, machines db !! k = Some m → meter_state db !! k = Some st →
    within_counters db k m st
}.

Lemma priced_identity m m' dim rt eg :
  billing_identity m = billing_identity m' → priced m dim rt eg = priced m' dim rt eg.
Proof.
  intros H. pose proof (f_equal vcpus H). pose proof (f_equal memory_mb H). simpl in *.
  destruct dim; unfold priced, memory_bytes; congruence.
Qed.

Lemma priced_add m dim rt rt' eg eg' :
  priced m dim (rt + rt') (eg + eg') = priced m dim rt eg + priced m dim rt' eg'.
Proof. destruct dim; simpl; lia. Qed.

Lemma priced_nonneg m dim rt eg :
  0 <= vcpus m → 0 <= memory_mb m → 0 <= rt → 0 <= eg → 0 <= priced m dim rt eg.
Proof. intros. destruct dim; unfold priced, memory_bytes, bytesPerMebibyte; lia. Qed.

Lemma machines_lookup db db' k m' :
  billing_identity <$> machines db' = billing_identity <$> machines db →
  machines db' !! k = Some m' →
  ∃ m, machines db !! k = Some m ∧ billing_identity m' = billing_identity m.
Proof.
  intros Heq Hk. assert ((billing_identity <$> machines db') !! k
    = (billing_identity <$> machines db) !! k) as H by by rewrite Heq.
  rewrite !lookup_fmap, Hk in H. destruct (machines db !! k) as [m|]; [|done].
  apply (inj Some) in H. eauto.
Qed.

(** An observation beyond the meter's sequence has charged nothing yet. *)
Lemma next_is_fresh db o st :
  meter_inv db → o ∈ observations db → meter_state db !! so_machine_id o = Some st →
  last_sequence st < so_sequence o → fresh_observation o db.
Proof.
  intros Hinv Ho Hst Hseq e He Hkey.
  destruct (inv_raw db Hinv e He) as (o' & st' & Ho' & Hid & Hkey' & Hm & Hst' & Hle).
  assert (so_id o = so_id o') as Hids by by eapply key_of_observation_inj.
  assert (o = o') as <-.
  { apply list_elem_of_lookup in Ho as [i Hi], Ho' as [j Hj].
    assert (i = j) as ->; [|congruence].
    eapply (NoDup_lookup (so_id <$> observations db) i j (so_id o)); [by apply inv_ids| |];
      rewrite list_lookup_fmap; [rewrite Hi|rewrite Hj, Hids]; done. }
  simplify_eq. lia.
Qed.

Lemma billed_app machine dim db db' ps :
  raw_events db' = raw_events db ++ new_rows ps →
  billed machine dim db' = billed machine dim db
    + sum_with (contribution machine dim) (new_rows ps).
Proof. intros Hr. unfold billed. by rewrite Hr, sum_with_app. Qed.

(** What a processed observation charges: its machine the price of the step,
    every other machine nothing. *)
Lemma processed_billed now machine identity st o db db' st' rt eg ps dim :
  processed now machine identity st o db db' st' rt eg ps → 0 <= eg →
  billed machine dim db' = billed machine dim db + priced identity dim rt eg ∧
  ∀ k, k ≠ machine → billed k dim db' = billed k dim db.
Proof.
  intros Hp Heg. pose proof (pr_origin _ _ _ _ _ _ _ _ _ _ _ Hp) as Ho.
  split; [|intros k Hne];
    rewrite (billed_app _ _ _ _ _ (pr_raw _ _ _ _ _ _ _ _ _ _ _ Hp)).
  - rewrite new_rows_sum by (intros p Hin; by apply Ho).
    by rewrite (pr_sum _ _ _ _ _ _ _ _ _ _ _ Hp).
  - rewrite (new_rows_other machine) by (done || (intros p Hin; by apply Ho)). lia.
Qed.

Lemma within_counters_step db db' m identity st st' o rt eg machine now ps :
  processed now machine identity st o db db' st' rt eg ps →
  step_facts st o st' rt eg → within_counters db machine m st →
  billing_identity identity = billing_identity m →
  0 <= vcpus m ∧ 0 <= memory_mb m → 0 <= so_egress_bytes o →
  within_counters db' machine m st'.
Proof.
  intros Hp [] [Hle Hz] Hid [? ?] Ho. 
  assert (∀ dim, billed machine dim db' = billed machine dim db + priced m dim rt eg) as Hb.
  { intros dim. rewrite <- (priced_identity identity) by done.
    by apply (processed_billed _ _ _ _ _ _ _ _ _ _ _ dim Hp). }
  destruct (start_seen st) eqn:Es.
  - destruct sf_projected0 as [Hpr Heq]; [done|]. split.
    + intros dim. rewrite Hb, Hpr, Heq, priced_add. specialize (Hle dim). lia.
    + intros Hns. destruct (pr_step _ _ _ _ _ _ _ _ _ _ _ Hp); simpl in *; congruence.
  - destruct sf_unstarted0 as [-> ->]; [done|].
    assert (∀ dim, billed machine dim db' = 0) as Hz'.
    { intros dim. rewrite Hb, Hz by done. by destruct dim. }
    split; [|done]. intros dim. rewrite Hz'. 
    destruct sf_started0 as [[Hpr Heq]|[Hpr ->]]; [done| |].
    + rewrite Hpr, Heq, <- (Hz eq_refl dim). apply Hle.
    + by apply priced_nonneg.
Qed.

Lemma new_row_origin ps e :
  e ∈ new_rows ps → ∃ p, p ∈ ps ∧ e = raw_row p.
Proof.
  intros (p & -> & Hp)%list_elem_of_fmap. exists p.
  by apply list_elem_of_In, filter_In in Hp as [Hp%list_elem_of_In _].
Qed.

Lemma consumed_step now machine identity st o db db' st' rt eg ps e :
  processed now machine identity st o db db' st' rt eg ps →
  meter_state db !! machine = Some st → last_sequence st <= last_sequence st' →
  consumed db e → consumed db' e.
Proof.
  intros [[] Hm] Hst Hle (o' & st0 & Ho & Hid & Hk & Hmid & Hs & Hseq).
  destruct (decide (so_machine_id o' = machine)) as [Heq|Hne].
  - exists o', st'. rewrite Hm, Heq, lookup_insert_eq. 
    rewrite pf_observations0. rewrite Heq in *. simplify_eq. split_and!; (done || lia).
  - exists o', st0. rewrite Hm, lookup_insert_ne, pf_observations0 by done. done.
Qed.

Lemma inv_process now machine identity st o db db' out m :
  meter_inv db → o ∈ observations db → so_machine_id o = machine →
  meter_state db !! machine = Some st → so_sequence o = last_sequence st + 1 →
  machines db !! machine = Some m → billing_identity identity = billing_identity m →
  processObservation now machine identity st o db = Ok (out, db') →
  ∃ st' rt eg ps, meter_inv db' ∧ step_facts st o st' rt eg ∧
    processed now machine identity st o db db' st' rt eg ps.
Proof.
  intros Hinv Ho <- Hst Hseq Hm Hid Hproc. set (machine := so_machine_id o) in *.
  destruct (inv_wf db Hinv machine st Hst) as [Hr Hfin].
  assert (fresh_observation o db) as Hfresh by (eapply next_is_fresh; [done..|lia]).
  destruct (process_effect now machine identity st o db out db') as
    (st' & rt & eg & ps & Hp); [by apply inv_mirrored|done..|].
  pose proof (pr_step _ _ _ _ _ _ _ _ _ _ _ Hp) as Hstep.
  apply meter_step_facts in Hstep; [|done..].
  exists st', rt, eg, ps. split_and!; [|done..].
  pose proof (pr_frame _ _ _ _ _ _ _ _ _ _ _ Hp) as [Hobs Hnext _ _ Hmach].
  pose proof (pr_meter _ _ _ _ _ _ _ _ _ _ _ Hp) as Hmeter.
  constructor.
  - apply (pr_mirrored _ _ _ _ _ _ _ _ _ _ _ Hp).
  - rewrite Hobs. by apply inv_ids.
  - rewrite Hobs, Hnext. by apply inv_ids_lt.
  - rewrite Hobs. by apply inv_egress.
  - rewrite (pr_raw _ _ _ _ _ _ _ _ _ _ _ Hp). intros e [He|He]%elem_of_app.
    + eapply consumed_step; [done..| |by apply inv_raw].
      rewrite (sf_sequence _ _ _ _ _ Hstep). lia.
    + apply new_row_origin in He as (p & Hin & ->).
      apply (pr_origin _ _ _ _ _ _ _ _ _ _ _ Hp) in Hin as (Hkey & Hoid & Hmid).
      exists o, st'. rewrite Hobs, Hmeter. simpl. fold machine. rewrite lookup_insert_eq.
      rewrite Hmid, (sf_sequence _ _ _ _ _ Hstep). by split_and!.
  - rewrite Hmeter. intros k sk [[<- <-]|[_ Hk]]%lookup_insert_Some.
    + constructor; [apply (sf_reasoned _ _ _ _ _ Hstep)|apply (sf_final _ _ _ _ _ Hstep)].
    + by eapply inv_wf.
  - intros k m' Hk. eapply machines_lookup in Hk as (m0 & Hk & Heq); [|done].
    pose proof (f_equal vcpus Heq) as Hv. pose proof (f_equal memory_mb Heq) as Hmem.
    simpl in *. rewrite Hv, Hmem. by eapply inv_resources.
  - intros k m' sk Hk Hsk. rewrite Hmeter in Hsk.
    eapply machines_lookup in Hk as (m0 & Hk & Heq); [|done].
    apply lookup_insert_Some in Hsk as [[<- <-]|[Hne Hsk]].
    + assert (m0 = m) as -> by congruence. eapply within_counters_step; [done|done| |congruence| |by apply (inv_egress db)].
      * destruct (inv_bill db Hinv machine m st Hm Hst) as [Hle Hz]. split; [|done].
        intros dim. by rewrite (priced_identity m' m).
      * pose proof (f_equal vcpus Heq) as Hv. pose proof (f_equal memory_mb Heq) as Hmem.
        simpl in *. rewrite Hv, Hmem. by eapply inv_resources.
    + destruct (inv_bill db Hinv k m0 sk Hk Hsk) as [Hle Hz].
      assert (∀ dim, billed k dim db' = billed k dim db) as Hb.
      { intros dim. apply (processed_billed _ _ _ _ _ _ _ _ _ _ _ dim Hp); [|done].
        apply (sf_egress _ _ _ _ _ Hstep). }
      split; [intros dim|intros Hs dim]; rewrite Hb; [|auto].
      by rewrite (priced_identity m' m0).
Qed.

(** ** The drain *)

(** What draining one machine may do, from [db] to [db']. *)
Record drained_to (machine : string) (db db' : MeterDb) : Prop := mkDrained {
  dt_frame : process_frame db db';
  dt_others : ∀ k, k ≠ machine →
    meter_state db' !! k = meter_state db !! k ∧ ∀ dim, billed k dim db' = billed k dim db;
  dt_self : ∀ st, meter_state db !! machine = Some st →
    ∃ st', meter_state db' !! machine = Some st' ∧ last_sequence st <= last_sequence st' ∧
      host_boot_id st' = host_boot_id st ∧
      ms_lease_generation st' = ms_lease_generation st ∧
      (closed st → closed st' ∧ ∀ dim, billed machine dim db' = billed machine dim db)
}.

#[export] Instance drained_to_refl machine : Reflexive (drained_to machine).
Proof. constructor; [done|done|]. intros st Hst. exists st. split_and!; try done; lia. Qed.

#[export] Instance drained_to_trans machine : Transitive (drained_to machine).
Proof.
  intros db1 db2 db3 [F1 O1 S1] [F2 O2 S2]. constructor; [by etransitivity| |].
  - intros k Hk. destruct (O1 k Hk) as [H1 H1'], (O2 k Hk) as [H2 H2'].
    split; [congruence|]. intros dim. by rewrite H2', H1'.
  - intros st (st2 & Hst2 & ? & ? & ? & C1)%S1.
    apply S2 in Hst2 as (st3 & ? & ? & ? & ? & C2). exists st3.
    split_and!; [done|lia|congruence|congruence|].
    intros [Hc Hb1]%C1. apply C2 in Hc as [? Hb2]. split; [done|].
    intros dim. by rewrite Hb2, Hb1.
Qed.

Lemma processed_drained now machine identity st o db db' st' rt eg ps :
  processed now machine identity st o db db' st' rt eg ps →
  step_facts st o st' rt eg → meter_state db !! machine = Some st →
  last_sequence st <= so_sequence o → drained_to machine db db'.
Proof.
  intros Hp [] Hst Hseq.
  assert (∀ dim, _) as Hb
    by (intros dim; exact (processed_billed _ _ _ _ _ _ _ _ _ _ _ dim Hp sf_egress0)).
  pose proof (pr_meter _ _ _ _ _ _ _ _ _ _ _ Hp) as Hm.
  constructor; [apply (pr_frame _ _ _ _ _ _ _ _ _ _ _ Hp)| |].
  - intros k Hk. rewrite Hm, lookup_insert_ne by done. split; [done|].
    intros dim. by apply Hb.
  - intros st0 Hst0. simplify_eq. exists st'. rewrite Hm, lookup_insert_eq.
    split_and!; [done|lia|done|done|]. intros (Hc & -> & ->)%sf_closed0.
    split; [done|]. intros dim. destruct (Hb dim) as [-> _]. destruct dim; simpl; lia.
Qed.

Lemma next_pending_Some machine identity st db o :
  next_pending machine identity st db = Some o →
  o ∈ observations db ∧ so_machine_id o = machine ∧
  so_lease_generation o = lease_generation identity ∧
  so_host_boot_id o = host_boot_id st ∧ so_sequence o = last_sequence st + 1.
Proof.
  intros H. apply find_some in H as [Ho%list_elem_of_In H]. bool_simp. done.
Qed.

Lemma frame_identity db db' machine identity m :
  process_frame db db' → machines db !! machine = Some m →
  billing_identity identity = billing_identity m →
  ∃ m', machines db' !! machine = Some m' ∧
        billing_identity identity = billing_identity m'.
Proof.
  intros [] Hm Hid. symmetry in pf_machines0.
  eapply machines_lookup in Hm as (m' & Hm' & Heq); [|done].
  exists m'. split; [done|congruence].
Qed.

Lemma drain_spec fuel now machine identity target : ∀ pr q db pr' q' db' m,
  meter_inv db → machines db !! machine = Some m →
  billing_identity identity = billing_identity m →
  drain fuel now machine identity target pr q db = Ok (pr', q', db') →
  meter_inv db' ∧ drained_to machine db db' ∧
  ∃ st', meter_state db' !! machine = Some st' ∧
         next_pending machine identity st' db' = None.
Proof.
  induction fuel as [|fuel IH]; intros pr q db pr' q' db' m Hinv Hm Hid; simpl; [done|].
  destruct (meter_state db !! machine) as [st|] eqn:Hst; [|done].
  destruct (next_pending machine identity st db) as [o|] eqn:Hnext.
  2: { intros [= <- <- <-]. split_and!; [done|reflexivity|eauto]. }
  intros ([out db1] & Hproc & H)%result_bind_Ok.
  pose proof Hnext as (Ho & Hom & _ & _ & Hseq)%next_pending_Some.
  destruct (inv_process now machine identity st o db db1 out m) as
    (st1 & rt & eg & ps & Hinv1 & Hfacts & Hp); [done..|].
  assert (drained_to machine db db1) as Hd by (eapply processed_drained; [done..|lia]).
  destruct (frame_identity db db1 machine identity m) as (m1 & Hm1 & Hid1);
    [apply Hd|done..|].
  assert (∃ pr1 q1, drain fuel now machine identity target pr1 q1 db1
    = Ok (pr', q', db')) as (pr1 & q1 & Hrest) by (destruct (_ =? _); eauto).
  destruct (IH _ _ _ _ _ _ _ Hinv1 Hm1 Hid1 Hrest) as (? & ? & ?).
  split_and!; [done|by etransitivity|done].
Qed.

(** Stored observations of a machine that its meter has not consumed. *)
Definition remaining (machine : string) (last : Z) (db : MeterDb) : nat :=
  length (List.filter (λ o, String.eqb (so_machine_id o) machine && (last <? so_sequence o))
            (observations db)).

Lemma filter_length_strict {A} (p q : A → bool) (l : list A) x :
  (∀ y, q y = true → p y = true) → x ∈ l → p x = true → q x = false →
  (length (List.filter q l) < length (List.filter p l))%nat.
Proof.
  intros Himp Hx Hp Hq. induction l as [|y l IH]; [set_solver|].
  assert (length (List.filter q l) <= length (List.filter p l))%nat as Hle.
  { clear -Himp. induction l as [|z l IH]; simpl; [done|].
    destruct (q z) eqn:E; [rewrite (Himp z E); simpl; lia|].
    destruct (p z); simpl; lia. }
  apply elem_of_cons in Hx as [<-|Hx]; simpl.
  - rewrite Hp, Hq. simpl. lia.
  - specialize (IH Hx). destruct (q y) eqn:E.
    + rewrite (Himp y E). simpl. lia.
    + destruct (p y); simpl; lia.
Qed.

Lemma process_no_fuel_error now machine identity st o db :
  processObservation now machine identity st o db ≠ Err OutOfFuel.
Proof.
  unfold processObservation, accept_delta. destruct (anomaly_of identity st o); [done|].
  destruct (String.eqb (so_kind o) "start"); [done|].
  destruct (coalesce _ _) as [start|]; [|done].
  pose proof (split_no_fuel_error start (if projected_runtime_ns st <? so_runtime_ns o
    then so_runtime_ns o - projected_runtime_ns st else 0)) as Hs.
  destruct (splitRuntimeAtUtcMidnight _ _) as [segs|[]]; simpl; try done.
  repeat case_match; done.
Qed.

Lemma drain_fuel_enough fuel now machine identity target : ∀ pr q db m,
  meter_inv db → machines db !! machine = Some m →
  billing_identity identity = billing_identity m →
  (∀ st, meter_state db !! machine = Some st →
     (remaining machine (last_sequence st) db < fuel)%nat) →
  fuel ≠ O →
  drain fuel now machine identity target pr q db ≠ Err OutOfFuel.
Proof.
  induction fuel as [|fuel IH]; intros pr q db m Hinv Hm Hid Hfuel Hnz; [done|]. simpl.
  destruct (meter_state db !! machine) as [st|] eqn:Hst; [|done].
  destruct (next_pending machine identity st db) as [o|] eqn:Hnext; [|done].
  destruct (processObservation now machine identity st o db) as [[out db1]|e] eqn:Hproc;
    simpl.
  2: { intros [= ->]. by apply process_no_fuel_error in Hproc. }
  pose proof Hnext as (Ho & Hom & _ & _ & Hseq)%next_pending_Some.
  destruct (inv_process now machine identity st o db db1 out m) as
    (st1 & rt & eg & ps & Hinv1 & Hfacts & Hp); [done..|].
  assert (drained_to machine db db1) as Hd by (eapply processed_drained; [done..|lia]).
  destruct (frame_identity db db1 machine identity m) as (m1 & Hm1 & Hid1);
    [apply Hd|done..|].
  assert (remaining machine (last_sequence st1) db1
    < remaining machine (last_sequence st) db)%nat as Hlt.
  { unfold remaining. rewrite (pf_observations _ _ (dt_frame _ _ _ Hd)).
    rewrite (sf_sequence _ _ _ _ _ Hfacts), Hseq.
    apply (filter_length_strict _ _ _ o).
    - intros y Hy. apply andb_true_iff in Hy as [-> Hy%Z.ltb_lt]. simpl.
      apply Z.ltb_lt. lia.
    - done.
    - rewrite Hom, String.eqb_refl. simpl. apply Z.ltb_lt. lia.
    - rewrite Hom, String.eqb_refl. simpl. apply Z.ltb_ge. lia. }
  specialize (Hfuel st eq_refl).
  assert (∀ pr1 q1, drain fuel now machine identity target pr1 q1 db1 ≠ Err OutOfFuel)
    as Hrest; [|by destruct (_ =? _)].
  intros pr1 q1. apply (IH _ _ _ m1); [done..| |lia].
  intros st2 Hst2. rewrite (pr_meter _ _ _ _ _ _ _ _ _ _ _ Hp), lookup_insert_eq in Hst2.
  simplify_eq. lia.
Qed.

(** ** Updates around the drain *)

(** Observations only exist for machines with a meter, and no stored
    observation is next in sequence: what holds between two batches. *)
Record settled (db : MeterDb) : Prop := mkSettled {
  st_meter : ∀ o, o ∈ observations db → is_Some (meter_state db !! so_machine_id o);
  st_drained : ∀ k m st, machines db !! k = Some m → meter_state db !! k = Some st →
    next_pending k m st db = None
}.

Lemma within_counters_same db db' k m m' st :
  raw_events db' = raw_events db → billing_identity m' = billing_identity m →
  within_counters db k m st → within_counters db' k m' st.
Proof.
  intros Hr Hid [Hle Hz]. unfold within_counters, billed in *. rewrite Hr. split; [|done].
  intros dim. by rewrite (priced_identity m' m).
Qed.

(** The tables the invariant reads. *)
Record same_core (db db' : MeterDb) : Prop := mkSameCore {
  sc_meter : meter_state db' = meter_state db;
  sc_observations : observations db' = observations db;
  sc_next : next_observation_id db' = next_observation_id db;
  sc_raw : raw_events db' = raw_events db;
  sc_usage : usage_events db' = usage_events db;
  sc_machines : billing_identity <$> machines db' = billing_identity <$> machines db
}.

Lemma inv_resources_frame db db' :
  billing_identity <$> machines db' = billing_identity <$> machines db →
  meter_inv db → ∀ k m, machines db' !! k = Some m → 0 <= vcpus m ∧ 0 <= memory_mb m.
Proof.
  intros Hmach Hinv k m' Hk. eapply machines_lookup in Hk as (m & Hk & Heq); [|done].
  pose proof (f_equal vcpus Heq) as Hv. pose proof (f_equal memory_mb Heq) as Hmem.
  simpl in *. rewrite Hv, Hmem. by eapply inv_resources.
Qed.

Lemma inv_same_core db db' : same_core db db' → meter_inv db → meter_inv db'.
Proof.
  intros [Hms Hobs Hnext Hraw Husage Hmach] Hinv. constructor.
  - unfold mirrored. rewrite Husage, Hraw. by apply inv_mirrored.
  - rewrite Hobs. by apply inv_ids.
  - rewrite Hobs, Hnext. by apply inv_ids_lt.
  - rewrite Hobs. by apply inv_egress.
  - rewrite Hraw. intros e He. unfold consumed. rewrite Hms, Hobs. by apply inv_raw.
  - rewrite Hms. by apply inv_wf.
  - by eapply inv_resources_frame.
  - rewrite Hms. intros k m' st Hk Hst.
    eapply machines_lookup in Hk as (m & Hk & Heq); [|done].
    eapply within_counters_same; [done..|]. by apply inv_bill.
Qed.

Lemma next_pending_same k m m' st st' db db' :
  observations db' = observations db → billing_identity m' = billing_identity m →
  host_boot_id st' = host_boot_id st → last_sequence st' = last_sequence st →
  next_pending k m' st' db' = next_pending k m st db.
Proof.
  intros Hobs Hid Hb Hs. unfold next_pending. rewrite Hobs, Hb, Hs.
  by assert (lease_generation m' = lease_generation m) as ->
    by exact (f_equal lease_generation Hid).
Qed.

Lemma settled_same_core db db' : same_core db db' → settled db → settled db'.
Proof.
  intros [Hms Hobs _ _ _ Hmach] [Hm Hd]. constructor; rewrite Hms.
  - by rewrite Hobs.
  - intros k m' st Hk Hst. eapply machines_lookup in Hk as (m & Hk & Heq); [|done].
    rewrite (next_pending_same k m m' st st db db') by done. by apply Hd.
Qed.

(** An update of a meter that leaves its counters alone. *)
Record keeps_counters (f : MeterState → MeterState) : Prop := mkKeeps {
  kc_sequence : ∀ st, last_sequence (f st) = last_sequence st;
  kc_projected : ∀ st, projected_runtime_ns (f st) = projected_runtime_ns st;
  kc_egress : ∀ st, last_egress_bytes (f st) = last_egress_bytes st;
  kc_start : ∀ st, start_seen (f st) = start_seen st;
  kc_boot : ∀ st, host_boot_id (f st) = host_boot_id st;
  kc_generation : ∀ st, ms_lease_generation (f st) = ms_lease_generation st;
  kc_closed : ∀ st, closed st → closed (f st);
  kc_wf : ∀ st, meter_wf st → meter_wf (f st)
}.

Lemma keeps_quarantine now reason : keeps_counters (quarantine_meter now reason).
Proof.
  constructor; try done.
  - intros st _. apply closed_quarantine.
  - intros st [Hr Hf]. constructor; [apply reasoned_quarantine|done].
Qed.

Lemma inv_update_meter machine f db :
  keeps_counters f → meter_inv db → meter_inv (update_meter machine f db).
Proof.
  intros Hf Hinv. constructor; try by apply Hinv.
  - intros e He. destruct (inv_raw db Hinv e He) as (o & st & ? & ? & ? & ? & Hst & ?).
    unfold consumed. simpl. destruct (decide (so_machine_id o = machine)) as [Heq|Hne].
    + exists o, (f st). rewrite Heq, lookup_alter_eq, <- Heq, Hst, (kc_sequence f Hf). done.
    + exists o, st. by rewrite lookup_alter_ne by done.
  - simpl. intros k st' Hst'. apply lookup_alter_Some in Hst' as
      [(<- & st & Hst & ->)|[_ Hst]]; [apply (kc_wf f Hf)|]; by eapply inv_wf.
  - simpl. intros k m st' Hm Hst'. apply lookup_alter_Some in Hst' as
      [(<- & st & Hst & ->)|[_ Hst]]; [|exact (inv_bill db Hinv k m st' Hm Hst)].
    destruct (inv_bill db Hinv machine m st Hm Hst) as [Hle Hz]. unfold within_counters.
    by rewrite (kc_projected f Hf), (kc_egress f Hf), (kc_start f Hf).
Qed.

Lemma settled_update_meter machine f db :
  keeps_counters f → settled db → settled (update_meter machine f db).
Proof.
  intros Hf [Hm Hd]. constructor; simpl.
  - intros o Ho. apply Hm in Ho. destruct (decide (so_machine_id o = machine)) as [Heq|Hne].
    + rewrite Heq in *. rewrite lookup_alter_eq. by apply fmap_is_Some.
    + by rewrite lookup_alter_ne.
  - intros k m st' Hk Hst'. apply lookup_alter_Some in Hst' as
      [(<- & st & Hst & ->)|[_ Hst]]; [|by eapply Hd].
    rewrite (next_pending_same machine m m st (f st) db) by
      (done || apply (kc_boot f Hf) || apply (kc_sequence f Hf)). by apply Hd.
Qed.

(** ** One input of a batch *)

(** How a batch may change the tables: machines keep their billing identity,
    observations stay, meters advance, closed meters charge nothing more. *)
Record ingested (db db' : MeterDb) : Prop := mkIngested {
  ig_machines : billing_identity <$> machines db' = billing_identity <$> machines db;
  ig_observations : ∀ o, o ∈ observations db → o ∈ observations db';
  ig_meter : ∀ k st, meter_state db !! k = Some st →
    ∃ st', meter_state db' !! k = Some st' ∧ last_sequence st <= last_sequence st' ∧
      (closed st → closed st' ∧ ∀ dim, billed k dim db' = billed k dim db)
}.

#[export] Instance ingested_refl : Reflexive ingested.
Proof. constructor; [done..|]. intros k st Hst. exists st. split_and!; try done; lia. Qed.

#[export] Instance ingested_trans : Transitive ingested.
Proof.
  intros db1 db2 db3 [F1 O1 S1] [F2 O2 S2]. constructor; [congruence|eauto|].
  intros k st (st2 & Hst2 & ? & C1)%S1.
  apply S2 in Hst2 as (st3 & ? & ? & C2). exists st3.
  split_and!; [done|lia|]. intros [Hc Hb1]%C1. apply C2 in Hc as [? Hb2].
  split; [done|]. intros dim. by rewrite Hb2, Hb1.
Qed.

Lemma drained_ingested machine db db' : drained_to machine db db' → ingested db db'.
Proof.
  intros [[Hobs _ _ _ Hmach] Hoth Hself]. constructor; [done|by rewrite Hobs|].
  intros k st Hst. destruct (decide (k = machine)) as [->|Hne].
  - destruct (Hself st Hst) as (st' & ? & ? & _ & _ & ?). eauto.
  - destruct (Hoth k Hne) as [Hm Hb]. exists st. rewrite Hm. split_and!; try done; lia.
Qed.

Lemma same_core_ingested db db' : same_core db db' → ingested db db'.
Proof.
  intros [Hms Hobs _ Hraw _ Hmach]. constructor; [done|by rewrite Hobs|].
  intros k st Hst. exists st. rewrite Hms. unfold billed. rewrite Hraw.
  split_and!; try done; lia.
Qed.

Lemma update_meter_ingested machine f db :
  keeps_counters f → ingested db (update_meter machine f db).
Proof.
  intros Hf. constructor; [done..|]. intros k st Hst. simpl.
  destruct (decide (k = machine)) as [->|Hne].
  - exists (f st). rewrite lookup_alter_eq, Hst, (kc_sequence f Hf).
    split_and!; [done|lia|]. intros Hc. split; [by apply (kc_closed f Hf)|done].
  - exists st. rewrite lookup_alter_ne by done. split_and!; try done; lia.
Qed.

(** The preserved predicate, with the relation between the states. *)
Definition preserves (db db' : MeterDb) : Prop :=
  meter_inv db → settled db → meter_inv db' ∧ settled db' ∧ ingested db db'.

#[export] Instance preserves_refl : Reflexive preserves.
Proof. intros db ? ?. split_and!; [done..|reflexivity]. Qed.

#[export] Instance preserves_trans : Transitive preserves.
Proof.
  intros db1 db2 db3 H1 H2 Hi Hs. destruct (H1 Hi Hs) as (Hi2 & Hs2 & Hg).
  destruct (H2 Hi2 Hs2) as (? & ? & ?). split_and!; [done..|by etransitivity].
Qed.

Lemma same_core_preserves db db' : same_core db db' → preserves db db'.
Proof.
  intros Hc Hi Hs. split_and!.
  - by eapply inv_same_core.
  - by eapply settled_same_core.
  - by apply same_core_ingested.
Qed.

Lemma update_meter_preserves machine f db :
  keeps_counters f → preserves db (update_meter machine f db).
Proof.
  intros Hf Hi Hs. split_and!.
  - by apply inv_update_meter.
  - by apply settled_update_meter.
  - by apply update_meter_ingested.
Qed.

#[export] Hint Resolve same_core_preserves update_meter_preserves keeps_quarantine
  : nehemiah.

Lemma exception_core row db : same_core db (exception row db).
Proof. by constructor. Qed.

Lemma quarantineHost_core now hostId reason db :
  same_core db (quarantineHost now hostId reason db).
Proof. by constructor. Qed.

Lemma resolve_gaps_core machine generation last db :
  same_core db (resolve_gaps machine generation last db).
Proof. by constructor. Qed.

#[export] Hint Resolve exception_core quarantineHost_core resolve_gaps_core : nehemiah.

Lemma refuse_preserves now hostId identity input key reason hostReason db :
  preserves db (refuse_input now hostId identity input key reason hostReason db).
Proof.
  unfold refuse_input.
  etransitivity; [|apply same_core_preserves, quarantineHost_core].
  etransitivity; [|apply update_meter_preserves, keeps_quarantine].
  apply same_core_preserves, exception_core.
Qed.

Lemma no_meter_no_rows db k :
  meter_inv db → meter_state db !! k = None →
  ∀ e, e ∈ raw_events db → raw_machine_id e ≠ k.
Proof.
  intros Hinv Hk e He <-.
  destruct (inv_raw db Hinv e He) as (o & st & _ & _ & _ & Hm & Hst & _).
  rewrite Hm in Hst. congruence.
Qed.

Lemma ensure_meter_preserves identity input db :
  (∀ m, machines db !! machineId input = Some m → m = identity) →
  let '(st, db') := ensure_meter identity input db in
  preserves db db' ∧ meter_state db' !! machineId input = Some st ∧
  machines db' = machines db ∧ hosts db' = hosts db ∧ observations db' = observations db ∧
  next_observation_id db' = next_observation_id db ∧ raw_events db' = raw_events db.
Proof.
  intros Hm. unfold ensure_meter. set (k := machineId input).
  destruct (meter_state db !! k) as [st|] eqn:Hst.
  { split_and!; try done; reflexivity. }
  cbv zeta. set (st := fresh_meter identity input).
  assert (∀ o, o ∈ observations db → settled db → so_machine_id o ≠ k) as Hno.
  { intros o Ho Hs Heq. apply (st_meter db Hs) in Ho. rewrite Heq, Hst in Ho.
    by destruct Ho. }
  split; [|split_and!; try done; by apply lookup_insert_eq].
  intros Hinv Hs. split_and!.
  - constructor; try by apply Hinv.
    + intros e He. destruct (inv_raw db Hinv e He) as (o & st0 & ? & ? & ? & ? & Hs0 & ?).
      exists o, st0. simpl. split_and!; try done.
      rewrite lookup_insert_ne; [done|]. congruence.
    + simpl. intros k' st' [[<- <-]|[_ Hk]]%lookup_insert_Some; [|by eapply inv_wf].
      constructor; [by intros []|done].
    + simpl. intros k' m' st' Hk' [[<- <-]|[_ Hk]]%lookup_insert_Some;
        [|exact (inv_bill db Hinv k' m' st' Hk' Hk)].
      assert (∀ dim, billed k dim db = 0) as Hz.
      { intros dim. apply sum_with_zero. intros e He. unfold contribution.
        destruct (String.eqb_spec (raw_machine_id e) k) as [Heq|]; [|done].
        by destruct (no_meter_no_rows db k Hinv Hst e He). }
      split; [intros dim|intros _ dim].
      * change (billed k dim db <= priced m' dim 0 0). rewrite Hz.
        destruct (inv_resources db Hinv k m' Hk'). by apply priced_nonneg.
      * apply Hz.
  - constructor; simpl.
    + intros o Ho. rewrite lookup_insert_ne; [by apply (st_meter db Hs)|].
      intros Heq. by apply (Hno o).
    + intros k' m' st' Hk' [[<- <-]|[_ Hk]]%lookup_insert_Some;
        [|exact (st_drained db Hs k' m' st' Hk' Hk)].
      destruct (next_pending _ _ _ _) as [o|] eqn:Hn; [|done].
      apply next_pending_Some in Hn as (Ho & Heq & _). by apply Hno in Heq.
  - constructor; [done..|]. intros k' st' Hk'. exists st'. simpl.
    rewrite lookup_insert_ne by congruence. split_and!; try done; lia.
Qed.

Section ingest.
Context (sha256 : string → string) (Date_parse : string → option Z).
Implicit Types (db : MeterDb) (input : HostUsageObservation).

Lemma find_stored_Some hostId input db o :
  find_stored hostId input db = Some o →
  o ∈ observations db ∧ so_sequence o = parse_dec (sequence input) ∧
  so_host_boot_id o = uuid_text (hostBootId input).
Proof. intros [Ho%list_elem_of_In H]%find_some. unfold conflict_key in H. by bool_simp. Qed.

(** Storing a new row changes no meter and leaves every other machine
    settled. *)
Lemma store_preserves hostId input stamps db st :
  meter_inv db → settled db → meter_state db !! machineId input = Some st →
  0 <= parse_dec (egressBytes input) →
  let '(stored, duplicate, db') :=
    store_observation sha256 Date_parse hostId input stamps db in
  meter_inv db' ∧ ingested db db' ∧ machines db' = machines db ∧
  meter_state db' = meter_state db ∧
  (∀ o, o ∈ observations db' → is_Some (meter_state db' !! so_machine_id o)) ∧
  (∀ k m s, k ≠ machineId input → next_pending k m s db' = next_pending k m s db) ∧
  (duplicate = true → db' = db ∧ find_stored hostId input db = Some stored) ∧
  hosts db' = hosts db.
Proof.
  intros Hinv Hs Hst Heg. unfold store_observation.
  destruct (find_stored hostId input db) as [o|] eqn:Hf.
  { split_and!; try done; by apply st_meter. }
  set (row := stored_row _ _ _ _ _ _). split_and!; try done.
  - constructor; try (by apply Hinv); simpl.
    + rewrite fmap_app. apply NoDup_app. split_and!; [by apply inv_ids| |apply NoDup_singleton].
      intros i (o & -> & Ho)%list_elem_of_fmap Hi%list_elem_of_singleton.
      apply (inv_ids_lt db Hinv) in Ho. unfold row in Hi. simpl in Hi. lia.
    + intros o [Ho|Ho%list_elem_of_singleton]%elem_of_app.
      * apply (inv_ids_lt db Hinv) in Ho. lia.
      * subst o. unfold row. simpl. lia.
    + intros o [Ho|Ho%list_elem_of_singleton]%elem_of_app;
        [by apply (inv_egress db)|by subst o].
    + intros e He. destruct (inv_raw db Hinv e He) as (o & s & Ho & ?).
      exists o, s. split; [|done]. simpl. set_solver.
  - constructor; [done|simpl; set_solver|]. intros k s Hk. exists s.
    split_and!; try done; lia.
  - simpl. intros o [Ho|Ho%list_elem_of_singleton]%elem_of_app.
    + by apply st_meter.
    + subst o. unfold row. simpl. by rewrite Hst.
  - intros k m s Hne. unfold next_pending. simpl.
    induction (observations db) as [|o l IH]; simpl.
    + unfold row. simpl. by destruct (String.eqb_spec (machineId input) k).
    + by destruct (_ && _).
Qed.

Lemma drain_settles fuel now machine identity target db db' p q :
  meter_inv db → machines db !! machine = Some identity →
  (∀ o, o ∈ observations db → is_Some (meter_state db !! so_machine_id o)) →
  (∀ k m s, k ≠ machine → machines db !! k = Some m → meter_state db !! k = Some s →
     next_pending k m s db = None) →
  drain fuel now machine identity target false false db = Ok (p, q, db') →
  meter_inv db' ∧ settled db' ∧ ingested db db'.
Proof.
  intros Hinv Hm Hmeter Hothers Hdrain.
  destruct (drain_spec _ _ _ _ _ _ _ _ _ _ _ _ Hinv Hm eq_refl Hdrain)
    as (Hinv' & Hd & st' & Hst' & Hnext).
  pose proof Hd as [[Hobs _ _ _ Hmach] Hoth Hself].
  split_and!; [done| |by eapply drained_ingested]. constructor.
  - rewrite Hobs. intros o Ho. apply Hmeter in Ho as [s Ho].
    destruct (decide (so_machine_id o = machine)) as [Heq|Hne].
    + by rewrite Heq, Hst'.
    + destruct (Hoth _ Hne) as [-> _]. by rewrite Ho.
  - intros k m s Hk Hs. eapply machines_lookup in Hk as (m0 & Hk & Heq); [|done].
    destruct (decide (k = machine)) as [->|Hne].
    + assert (m0 = identity) as -> by congruence. assert (s = st') as -> by congruence.
      by rewrite (next_pending_same machine identity m st' st' db' db').
    + destruct (Hoth _ Hne) as [Hsame _]. rewrite Hsame in Hs.
      rewrite (next_pending_same k m0 m s s db db') by done. by apply Hothers.
Qed.

Lemma finish_preserves now hostId identity input dup p q db receipt q' db' :
  finish_input now hostId identity input dup p q db = Ok (receipt, q', db') →
  preserves db db' ∧ q' = q ∧
  (r_outcome receipt = Quarantined → q = true) ∧
  r_outcome receipt ≠ RejectedPayloadConflict.
Proof.
  unfold finish_input.
  set (db1 := if q then _ else _).
  assert (preserves db db1) as H1.
  { unfold db1. destruct q; [auto with nehemiah|reflexivity]. }
  destruct (meter_state db1 !! machineId input) as [st|]; [|done].
  intros [= <- <- <-]. split_and!; [|done| |].
  - etransitivity; [done|]. etransitivity; [|apply same_core_preserves, resolve_gaps_core].
    case_match; [|reflexivity]. apply same_core_preserves, exception_core.
  - simpl. unfold outcome_of. by repeat case_match.
  - simpl. unfold outcome_of. by repeat case_match.
Qed.

Definition input_ok input : Prop := 0 <= parse_dec (egressBytes input).

Lemma ingest_one_preserves now hostId stamps input db receipt q db' :
  input_ok input →
  ingest_one sha256 Date_parse now hostId stamps input db = Ok (receipt, q, db') →
  preserves db db' ∧
  (r_outcome receipt ∈ [Quarantined; RejectedPayloadConflict] → q = true).
Proof.
  intros Hok H. unfold ingest_one in H.
  apply result_bind_Ok in H as (identity & Hid & H).
  assert (machines db !! machineId input = Some identity) as Hm.
  { unfold load_identity in Hid. destruct (machines db !! _) as [m|]; [|done].
    destruct (identity_matches _ _ _); [congruence|done]. }
  pose proof (ensure_meter_preserves identity input db ltac:(congruence)) as He.
  destruct (ensure_meter identity input db) as [st db1].
  destruct He as (Hp1 & Hst1 & Hm1 & _).
  destruct (sequence_violation _ _ _ _).
  { injection H as <- <- <-. split; [|done].
    etransitivity; [done|]. apply refuse_preserves. }
  destruct (integrity_violation _ _ _ _) as [reason|].
  { injection H as <- <- <-. split; [|done].
    etransitivity; [done|]. apply refuse_preserves. }
  pose proof (λ Hi Hs, store_preserves hostId input stamps db1 st Hi Hs Hst1 Hok) as Hstore.
  destruct (store_observation _ _ _ _ _ _) as [[stored dup] db2].
  destruct (dup && _) eqn:Edup.
  { injection H as <- <- <-. split; [|done].
    etransitivity; [done|]. intros Hi Hs.
    destruct (Hstore Hi Hs) as (_ & _ & _ & _ & _ & _ & Hdup & _).
    apply andb_true_iff in Edup as [-> _]. destruct Hdup as [-> _]; [done|].
    by apply refuse_preserves. }
  apply result_bind_Ok in H as ([[p q1] db3] & Hdrain & H).
  apply finish_preserves in H as (Hfin & -> & Hq & Hrej). split.
  - etransitivity; [done|]. etransitivity; [|done]. intros Hi Hs.
    destruct (Hstore Hi Hs) as (Hi2 & Hg2 & Hm2 & Hms2 & Hmeter & Hnext & _).
    assert (machines db2 !! machineId input = Some identity) as Hm2' by congruence.
    assert (∀ k m s, k ≠ machineId input → machines db2 !! k = Some m →
      meter_state db2 !! k = Some s → next_pending k m s db2 = None) as Hoth.
    { intros k m s Hne Hk Hks. rewrite Hnext by done.
      apply (st_drained db1 Hs); congruence. }
    destruct (drain_settles _ _ _ _ _ _ _ _ _ Hi2 Hm2' Hmeter Hoth Hdrain)
      as (? & ? & ?).
    split_and!; [done..|by etransitivity].
  - intros Hin. apply Hq. set_solver.
Qed.
End ingest.
