(* ===== verification/MeteringTheorems.v ===== *)
(** * Theorems about authoritative metering

    The properties of [Metering] for the callers: hosts, billing and the
    operators of the fleet.  The helper lemmas are in [MeteringFacts] and
    [MeteringInv]. *)

From S2P Require Import Prelude Text Js Numeric Metering MeteringFacts MeteringInv.

(** ** Validated input *)

Lemma checkInput_Ok ok message u : checkInput ok message = Ok u → ok = true.
Proof. unfold checkInput. by destruct ok. Qed.

Lemma parseUnsigned_Ok value name z :
  parseUnsigned value name = Ok z → z = parse_dec value ∧ 0 <= z <= maxUnsignedBigint.
Proof.
  unfold parseUnsigned. destruct (negb (test unsignedInteger value)) eqn:Et; [done|].
  destruct (maxUnsignedBigint <? parse_dec value) eqn:Em; [done|]. intros [= <-].
  bool_simp. split; [done|]. split; [|done].
  apply test_lang, lang_alt_inv in Et as [Hl|Hl].
  - unfold parse_dec. assert (list_ascii_of_string value = ["0"%char]) as ->; [|done].
    apply lang_cat_inv in Hl as (l1 & l2 & -> & H1 & H2).
    inversion H1; inversion H2; subst. 
    by match goal with H : Ascii.eqb _ _ = true |- _ => apply Ascii.eqb_eq in H as <- end.
  - apply lang_cat_inv in Hl as (l1 & l2 & Heq & H1 & H2).
    apply lang_rep in H2 as [_ H2]; [|lia].
    unfold parse_dec. rewrite Heq. apply parse_digits_bounds, Forall_app. split; [|done].
    inversion H1; subst. constructor; [by apply digit19_value|done].
Qed.

Lemma parsePositiveBigint_Ok value name z :
  parsePositiveBigint value name = Ok z → z = parse_dec value ∧ 0 < z <= maxSignedBigint.
Proof.
  unfold parsePositiveBigint. destruct (negb (test positiveInteger value)) eqn:Et; [done|].
  destruct (maxSignedBigint <? parse_dec value) eqn:Em; [done|]. intros [= <-].
  bool_simp. split; [done|]. split; [|done].
  apply test_lang, lang_cat_inv in Et as (l1 & l2 & Heq & H1 & H2).
  apply lang_rep in H2 as [_ H2]; [|lia].
  unfold parse_dec, parse_digits. rewrite Heq. inversion H1; subst. simpl.
  match goal with H : digit19 ?c = true |- _ => apply digit19_value in H as [Hv Hd] end.
  apply (Z.lt_le_trans _ 1); [done|]. by apply foldl_digits_lower.
Qed.

(** ** Batches *)

Section batches.
Context (sha256 : string → string) (Date_parse : string → option Z).

Lemma validateObservation_facts o :
  validateObservation Date_parse o = Ok () →
  0 <= parse_dec (runtimeNs o) <= maxUnsignedBigint ∧
  0 <= parse_dec (egressBytes o) <= maxUnsignedBigint ∧
  0 < parse_dec (sequence o) <= maxSignedBigint ∧
  0 < parse_dec (leaseGeneration o) <= maxSignedBigint ∧
  0 < parse_dec (memoryBytes o) <= maxSignedBigint ∧
  (quality o = "exact" → qualityReason o = "none") ∧
  (quality o = "last_defensible" → kind o = "final" ∧ qualityReason o ≠ "none").
Proof.
  unfold validateObservation. intros H.
  repeat (apply result_bind_Ok in H as (? & ? & H)).
  repeat match goal with
  | H : checkInput _ _ = Ok _ |- _ => apply checkInput_Ok in H
  | H : parseUnsigned _ _ = Ok _ |- _ => apply parseUnsigned_Ok in H as [-> ?]
  | H : parsePositiveBigint _ _ = Ok _ |- _ => apply parsePositiveBigint_Ok in H as [-> ?]
  end.
  split_and!; try (done || lia);
  match goal with H : consistentQuality _ = true |- _ => unfold consistentQuality in H end;
  bool_simp; intros Hq; rewrite Hq in *; simpl in *; bool_simp; [done|].
  by destruct (String.eqb_spec (qualityReason o) "none").
Qed.

Lemma validate_all_ok l :
  validate_all Date_parse l = Ok () → Forall input_ok l.
Proof.
  induction l as [|o l IH]; simpl; [constructor|].
  intros ([] & Ho & Hl)%result_bind_Ok. constructor; [|auto].
  apply validateObservation_facts in Ho. unfold input_ok. lia.
Qed.

Lemma ingest_loop_preserves now hostId inputs : ∀ quarantined db receipts db',
  Forall input_ok inputs.*1 →
  ingest_loop sha256 Date_parse now hostId quarantined inputs db = Ok (receipts, db') →
  preserves db db'.
Proof.
  induction inputs as [|[input stamps] inputs IH]; intros quarantined db receipts db' Hok;
    simpl; inversion Hok; subst.
  { intros [= <- <-]. reflexivity. }
  destruct quarantined.
  - intros ([rs db1] & Hl & [= <- <-])%result_bind_Ok. by eapply IH.
  - intros ([[r q] db1] & Hone & H)%result_bind_Ok.
    apply result_bind_Ok in H as ([rs db2] & Hl & [= <- <-]).
    apply ingest_one_preserves in Hone as [Hp _]; [|done].
    etransitivity; [exact Hp|]. by eapply IH.
Qed.

Lemma ingest_inv interval clock hostId generation inputs db receipts db' :
  ingest sha256 Date_parse interval clock hostId generation inputs db = Ok (receipts, db') →
  Forall input_ok inputs.*1 ∧ ∃ h db1,
    hosts db !! hostId = Some h ∧ host_admits h generation = true ∧
    same_core db db1 ∧
    ingest_loop sha256 Date_parse (bc_now clock) hostId false inputs db1
      = Ok (receipts, db').
Proof.
  unfold ingest. case_match eqn:Elen; [done|].
  intros ([] & Hv & H)%result_bind_Ok. apply validate_all_ok in Hv. split; [done|].
  destruct (hosts db !! hostId) as [h|] eqn:Hh; [|done].
  destruct (host_admits h generation) eqn:Ha; [|done]. simpl in H.
  destruct (cadence_valid _ _ _); [|done]. simpl in H.
  eexists h, _. split_and!; [done|done| |exact H]. by constructor.
Qed.

Lemma ingest_preserves interval clock hostId generation inputs db receipts db' :
  ingest sha256 Date_parse interval clock hostId generation inputs db = Ok (receipts, db') →
  preserves db db'.
Proof.
  intros (Hok & h & db1 & _ & _ & Hc & Hl)%ingest_inv.
  etransitivity; [by apply same_core_preserves|].
  by eapply ingest_loop_preserves.
Qed.

(** ** Termination *)

Lemma ingest_one_no_fuel now hostId stamps input db :
  meter_inv db → settled db → input_ok input →
  ingest_one sha256 Date_parse now hostId stamps input db ≠ Err OutOfFuel.
Proof.
  intros Hinv Hs Hok. unfold ingest_one, load_identity.
  destruct (machines db !! machineId input) as [identity|] eqn:Hm; [|done].
  destruct (identity_matches _ _ _); [|done]. cbn [mbind result_bind].
  pose proof (ensure_meter_preserves identity input db ltac:(congruence)) as He.
  destruct (ensure_meter identity input db) as [st db1].
  destruct He as (Hp1 & Hst1 & Hm1 & _). destruct (Hp1 Hinv Hs) as (Hinv1 & Hs1 & _).
  destruct (sequence_violation _ _ _ _); [done|].
  destruct (integrity_violation _ _ _ _); [done|].
  pose proof (store_preserves sha256 Date_parse hostId input stamps db1 st Hinv1 Hs1
    Hst1 Hok) as Hstore.
  destruct (store_observation _ _ _ _ _ _) as [[stored dup] db2].
  destruct (dup && _); [done|].
  destruct Hstore as (Hinv2 & _ & Hm2 & _).
  assert (drain (drain_fuel db2) now (machineId input) identity (so_id stored)
    false false db2 ≠ Err OutOfFuel) as Hdrain.
  { apply (drain_fuel_enough _ _ _ _ _ _ _ _ identity); [done|congruence|done| |done].
    intros s _. unfold remaining, drain_fuel.
    pose proof (List.filter_length_le (λ o, String.eqb (so_machine_id o) (machineId input)
      && (last_sequence s <? so_sequence o)) (observations db2)). lia. }
  destruct (drain _ _ _ _ _ _ _ _) as [[[p q] db3]|e];
    cbn [mbind result_bind]; [|congruence].
  unfold finish_input. by case_match.
Qed.

Lemma ingest_loop_no_fuel now hostId inputs : ∀ quarantined db,
  meter_inv db → settled db → Forall input_ok inputs.*1 →
  ingest_loop sha256 Date_parse now hostId quarantined inputs db ≠ Err OutOfFuel.
Proof.
  induction inputs as [|[input stamps] inputs IH]; intros quarantined db Hinv Hs Hok;
    simpl; inversion Hok; subst; [done|].
  destruct quarantined.
  - specialize (IH true db Hinv Hs ltac:(done)).
    destruct (ingest_loop _ _ _ _ _ _ _) as [[rs db1]|e]; simpl; congruence.
  - destruct (ingest_one _ _ _ _ _ _ _) as [[[r q] db1]|e] eqn:Hone; simpl.
    + apply ingest_one_preserves in Hone as [Hp _]; [|done].
      destruct (Hp Hinv Hs) as (Hinv1 & Hs1 & _).
      specialize (IH q db1 Hinv1 Hs1 ltac:(done)).
      destruct (ingest_loop _ _ _ _ _ _ _) as [[rs db2]|e]; simpl; congruence.
    + intros [= ->]. by eapply ingest_one_no_fuel in Hone.
Qed.

Lemma bind_no_fuel {A B} (m : result MeteringError A) (f : A → result MeteringError B) :
  m ≠ Err OutOfFuel → (∀ a, f a ≠ Err OutOfFuel) → m ≫= f ≠ Err OutOfFuel.
Proof. intros Hm Hf. destruct m; cbn [mbind result_bind]; [done|congruence]. Qed.

Lemma input_checks_no_fuel :
  (∀ ok message, checkInput ok message ≠ Err OutOfFuel) ∧
  (∀ value name, parsePositiveBigint value name ≠ Err OutOfFuel) ∧
  (∀ value name, parseUnsigned value name ≠ Err OutOfFuel).
Proof.
  unfold checkInput, parsePositiveBigint, parseUnsigned.
  split_and!; intros; by repeat case_match.
Qed.

Lemma validate_all_no_fuel l : validate_all Date_parse l ≠ Err OutOfFuel.
Proof.
  destruct input_checks_no_fuel as (Hc & Hp & Hu).
  induction l as [|o l IH]; simpl; [done|]. apply bind_no_fuel; [|done].
  unfold validateObservation.
  repeat (apply bind_no_fuel; [by auto|intros _]). apply Hc.
Qed.

(** ** Quarantined hosts *)

(** No row of the host passes the admission query. *)
Definition host_blocked (hostId : string) (db : MeterDb) : Prop :=
  ∀ h generation, hosts db !! hostId = Some h → host_admits h generation = false.

Lemma quarantineHost_blocks now hostId reason db :
  host_blocked hostId (quarantineHost now hostId reason db).
Proof.
  intros h g Hh. simpl in Hh. rewrite lookup_alter_eq in Hh.
  destruct (hosts db !! hostId) as [h0|]; [|done]. injection Hh as <-.
  unfold quarantine_host_row, host_admits.
  destruct (string_in (desired_state h0) ["quarantined"; "revoked"]) eqn:E; [|done].
  apply string_in_spec in E. rewrite !elem_of_cons in E.
  destruct E as [-> |[-> |E]]; [done|done|set_solver].
Qed.

Lemma blocked_hosts db db' hostId :
  hosts db' = hosts db → host_blocked hostId db → host_blocked hostId db'.
Proof. intros Heq Hb h g. rewrite Heq. apply Hb. Qed.

Lemma ingest_one_blocks now hostId stamps input db receipt db' :
  ingest_one sha256 Date_parse now hostId stamps input db = Ok (receipt, true, db') →
  host_blocked hostId db'.
Proof.
  unfold ingest_one. intros (identity & _ & H)%result_bind_Ok.
  destruct (ensure_meter identity input db) as [st db1].
  destruct (sequence_violation _ _ _ _).
  { injection H as _ <-. apply quarantineHost_blocks. }
  destruct (integrity_violation _ _ _ _) as [reason|].
  { injection H as _ <-. apply quarantineHost_blocks. }
  destruct (store_observation _ _ _ _ _ _) as [[stored dup] db2].
  destruct (dup && _).
  { injection H as _ <-. apply quarantineHost_blocks. }
  apply result_bind_Ok in H as ([[p q1] db3] & _ & H).
  unfold finish_input in H. destruct (meter_state _ !! _) as [s|]; [|done].
  injection H as _ -> <-. eapply blocked_hosts; [|apply quarantineHost_blocks].
  by case_match.
Qed.

Lemma ingest_loop_blocks now hostId inputs : ∀ quarantined db receipts db',
  Forall input_ok inputs.*1 →
  ingest_loop sha256 Date_parse now hostId quarantined inputs db = Ok (receipts, db') →
  (quarantined = true → host_blocked hostId db) →
  (quarantined = true ∨
    ∃ r, r ∈ receipts ∧ r_outcome r ∈ [Quarantined; RejectedPayloadConflict]) →
  host_blocked hostId db'.
Proof.
  induction inputs as [|[input stamps] inputs IH];
    intros quarantined db receipts db' Hok H Hb Hor; simpl in H; inversion Hok; subst.
  { injection H as <- <-. destruct Hor as [Hq|(r & Hr & _)]; [auto|set_solver]. }
  destruct quarantined.
  - apply result_bind_Ok in H as ([rs db1] & Hl & [= <- <-]).
    eapply IH; [done|exact Hl|auto|auto].
  - apply result_bind_Ok in H as ([[r q] db1] & Hone & H).
    apply result_bind_Ok in H as ([rs db2] & Hl & [= <- <-]).
    destruct Hor as [|(r' & Hr' & Hout)]; [done|].
    assert (q = true → host_blocked hostId db1) as Hq.
    { intros ->. by eapply ingest_one_blocks. }
    eapply IH; [done|exact Hl|exact Hq|].
    apply elem_of_cons in Hr' as [->|Hr']; [left|right; eauto].
    apply ingest_one_preserves in Hone as [_ Hone]; auto.
Qed.
End batches.

(** ** Host loss *)

Lemma keeps_loss now lease :
  keeps_counters (λ st, if String.eqb (ms_lease_id st) lease
                        then st <| loss_closed_at := coalesce (loss_closed_at st) (Some now) |>
                        else st).
Proof.
  constructor; intros st; destruct (String.eqb _ _); try done.
  - intros [Hq|[Hl|Hf]]; [by left|right; left; simpl|by right; right].
    by destruct (loss_closed_at st).
  - intros [Hr Hf]. constructor; done.
Qed.

Lemma loss_exception_core machine lease m reason db :
  same_core db (loss_exception machine lease m reason db).
Proof. by constructor. Qed.

Lemma finalize_lost_core now machine lease periodEnd db :
  same_core db (finalize_lost now machine lease periodEnd db).
Proof.
  constructor; try done. simpl. apply fmap_alter_same.
  intros m. by destruct (String.eqb _ _).
Qed.

Lemma closeHostLoss_preserves now machine lease db periodEnd db' :
  closeHostLoss now machine lease db = Ok (periodEnd, db') → preserves db db'.
Proof.
  unfold closeHostLoss.
  destruct (machines db !! machine) as [m|]; [|intros [= <- <-]; reflexivity].
  destruct (negb _); [intros [= <- <-]; reflexivity|].
  destruct (meter_state db !! machine) as [st|]; [|intros [= <- <-]; reflexivity].
  destruct (negb (start_seen st)).
  { intros [= <- <-]. apply same_core_preserves, loss_exception_core. }
  intros [= <- <-].
  etransitivity; [|apply same_core_preserves, finalize_lost_core].
  destruct (final_seen st); [reflexivity|].
  etransitivity; [apply same_core_preserves, loss_exception_core|].
  apply update_meter_preserves, keeps_loss.
Qed.

(** * A concrete fleet for the witnesses *)

Definition demo_sha256 (s : string) : string := s.
Definition demo_parse (s : string) : option Z :=
  if String.eqb s "1970-01-01T00:00:10Z" then Some 10000
  else if String.eqb s "1970-01-01T00:00:20Z" then Some 20000 else None.

Definition demo_lease : string := "00000000-0000-4000-8000-000000000001".
Definition demo_boot : string := "00000000-0000-4000-8000-000000000002".
Definition demo_machine : string := "m_abcdefghijkl".

Definition demo_row : MachineRow :=
  mkMachineRow "org" "project" "host" "m-0123abcd" demo_lease 1 2 512 9000 (Some 10000)
    "running" 100000 None None.

Definition demo_host : HostRow :=
  mkHostRow "active" "healthy" "active" 1 None None None None None None None None None
    None None.

Definition demo_db : MeterDb :=
  mkMeterDb {[ demo_machine := demo_row ]} {[ "host" := demo_host ]} ∅ [] 1 [] [] [] [] [] [].

Definition demo_observation (seq kind runtime egress monotonic at_ : string)
    : HostUsageObservation :=
  mkObservation demo_machine "m-0123abcd" demo_lease "1" demo_boot seq kind "exact" "none"
    runtime egress "1" monotonic at_ (NInt 2) "536870912" (NInt 100).

Definition demo_start : HostUsageObservation :=
  demo_observation "1" "start" "0" "0" "5000000000" "1970-01-01T00:00:10Z".
Definition demo_checkpoint : HostUsageObservation :=
  demo_observation "2" "checkpoint" "10000000000" "4096" "15000000000"
    "1970-01-01T00:00:20Z".
Definition demo_stamps (at_ : Z) : Stamps := mkStamps at_ at_.
Definition demo_clock (at_ : Z) : BatchClock := mkBatchClock at_ at_ at_.

Definition demo_batch : list (HostUsageObservation * Stamps) :=
  [(demo_start, demo_stamps 20100); (demo_checkpoint, demo_stamps 20100)].

(** The tables after the batch. *)
Definition demo_after : MeterDb :=
  match ingest demo_sha256 demo_parse 1000 (demo_clock 20100) "host" (Some 1) demo_batch
          demo_db with
  | Ok (_, db) => db
  | Err _ => demo_db
  end.

Lemma demo_invariant : meter_inv demo_db ∧ settled demo_db.
Proof.
  split; constructor; try (intros; set_solver); try done.
  - constructor.
  - intros k m Hk. change (({[demo_machine := demo_row]} : gmap string MachineRow) !! k = Some m) in Hk.
    apply lookup_singleton_Some in Hk as [_ <-]. done.
Qed.

Lemma demo_after_invariant : meter_inv demo_after ∧ settled demo_after.
Proof.
  destruct demo_invariant as [Hi Hs]. unfold demo_after.
  destruct (ingest _ _ _ _ _ _ _ _) as [[rs db]|e] eqn:E; [|exact (conj Hi Hs)].
  apply ingest_preserves in E. destruct (E Hi Hs) as (Hi' & Hs' & _).
  exact (conj Hi' Hs').
Qed.

(** * Properties *)

(** The runtime of an observation is split into consecutive periods, each
    inside one UTC day, inner boundaries exactly at midnights, whose lengths add
    up to the whole runtime: no nanosecond is lost or charged twice, and the
    loop ends for every interval inside the range of JavaScript dates. *)
Theorem split_exact_partition start durationNs :
  0 <= start → 0 <= durationNs →
  start * nanosecondsPerMillisecond + durationNs
    <= maximumDateMs * nanosecondsPerMillisecond →
  ∃ segs, splitRuntimeAtUtcMidnight start durationNs = Ok segs ∧
    day_partition 0 (start * nanosecondsPerMillisecond)
      (start * nanosecondsPerMillisecond + durationNs) segs ∧
    sum_with seg_runtimeNs segs = durationNs.
Proof.
  intros Hs Hd Hmax. destruct (split_spec start durationNs Hs Hd Hmax) as (segs & He & Hp).
  exists segs. split_and!; [done..|]. apply day_partition_sum in Hp. lia.
Qed.

Lemma split_exact_partition_witness :
  ∃ segs, splitRuntimeAtUtcMidnight 86399000 3000000000 = Ok segs ∧
    day_partition 0 86399000000000 86402000000000 segs ∧
    sum_with seg_runtimeNs segs = 3000000000.
Proof. apply (split_exact_partition 86399000 3000000000); vm_compute; congruence. Defined.

(** An observation that passes validation carries counters that fit the
    widths the tables store (uint64 counters, positive PostgreSQL bigints for
    generation, sequence and memory), and an estimate is only ever a final
    observation with a reason, an exact one has none. *)
Theorem validated_observation_bounds Date_parse o :
  validateObservation Date_parse o = Ok () →
  0 <= parse_dec (runtimeNs o) <= maxUnsignedBigint ∧
  0 <= parse_dec (egressBytes o) <= maxUnsignedBigint ∧
  0 < parse_dec (sequence o) <= maxSignedBigint ∧
  0 < parse_dec (leaseGeneration o) <= maxSignedBigint ∧
  0 < parse_dec (memoryBytes o) <= maxSignedBigint ∧
  (quality o = "exact" → qualityReason o = "none") ∧
  (quality o = "last_defensible" → kind o = "final" ∧ qualityReason o ≠ "none").
Proof. apply validateObservation_facts. Qed.

Lemma validated_observation_bounds_witness :
  validateObservation demo_parse demo_checkpoint = Ok () ∧
  0 <= parse_dec (runtimeNs demo_checkpoint) <= maxUnsignedBigint.
Proof.
  assert (validateObservation demo_parse demo_checkpoint = Ok ()) as H by by vm_compute.
  split; [exact H|]. apply (validated_observation_bounds _ _ H).
Defined.

(** An observation of a started meter is only accepted when its counters
    did not go backwards, its runtime agrees with the host's monotonic clock and
    with the wall clock since the lease started, its egress stays within the
    managed rate, and a checkpoint carries at least four seconds. *)
Theorem accepted_observation_plausible identity st o :
  reasoned st → start_seen st = true → anomaly_of identity st o = None →
  let elapsed := defensible_elapsed_ns identity (so_received_at o) in
  let delta := so_runtime_ns o - last_runtime_ns st in
  ¬ closed st ∧ host_boot_id st = so_host_boot_id o ∧
  last_runtime_ns st <= so_runtime_ns o <= elapsed ∧
  last_egress_bytes st <= so_egress_bytes o <= egress_allowance elapsed ∧
  so_egress_bytes o - last_egress_bytes st
    <= (if delta =? 0 then 0 else egress_allowance delta) ∧
  (so_kind o = "checkpoint" → minimumCheckpointRuntimeDeltaNs <= delta) ∧
  ∃ s, start_monotonic_ns st = Some s ∧
       so_observed_monotonic_ns o = s + so_runtime_ns o.
Proof.
  intros Hr Hs Ha elapsed delta.
  apply anomaly_none_state, state_anomaly_none in Ha as (Hcl & Hboot & Hst & Hint); [|done].
  rewrite Hs in Hst. destruct Hst as [_ (Hrun & Heg & Hep & Hmono)%counter_reset_false].
  unfold observationIntegrityReason in Hint. simpl in Hint. rewrite Hs in Hint.
  fold elapsed delta in Hint. simpl in Hint.
  destruct (elapsed <? so_runtime_ns o) eqn:E1; [done|].
  destruct (egress_allowance elapsed <? so_egress_bytes o) eqn:E2; [done|]. bool_simp.
  destruct (so_runtime_ns o <? last_runtime_ns st) eqn:E3; bool_simp; [lia|].
  destruct (so_egress_bytes o <? last_egress_bytes st) eqn:E4; bool_simp; [lia|].
  cbn [orb] in Hint.
  destruct (String.eqb (so_kind o) "checkpoint" && _) eqn:E5; [done|].
  rewrite Hep, Z.eqb_refl in Hint. cbn [andb] in Hint.
  destruct (_ <? so_egress_bytes o - last_egress_bytes st) eqn:E6 in Hint; [done|].
  bool_simp. split_and!; try done.
  - intros Hk. rewrite Hk in E5. simpl in E5. bool_simp. lia.
  - destruct (Hmono Hs) as (s & l & ? & _ & _ & ?). exists s. split; [done|lia].
Qed.

Definition demo_meter : MeterState :=
  start_state (stored_row demo_sha256 demo_parse "host" demo_start (demo_stamps 20100) 1)
    0 10000 (fresh_meter demo_row demo_start).
Definition demo_stored : StoredObservation :=
  stored_row demo_sha256 demo_parse "host" demo_checkpoint (demo_stamps 20100) 2.

Lemma accepted_observation_plausible_witness :
  anomaly_of demo_row demo_meter demo_stored = None ∧
  so_runtime_ns demo_stored
    <= defensible_elapsed_ns demo_row (so_received_at demo_stored).
Proof.
  assert (anomaly_of demo_row demo_meter demo_stored = None) as H by by vm_compute.
  split; [exact H|].
  exact (proj2 (proj1 (proj2 (proj2 (accepted_observation_plausible demo_row demo_meter
    demo_stored ltac:(by intros []) eq_refl H))))).
Defined.

(** C8: processing the next observation of a lease charges its machine exactly
    the growth of the meter's projected runtime, priced at the machine's vcpus
    and memory, and the growth of its egress counter; every other machine is
    charged nothing, a meter that has not started charges nothing, and the
    billing ledger mirrors the raw ledger row by row.  An anomalous observation is
    answered as quarantined and writes no row.  An accepted one moves the counters
    to its own, and what it adds to a UTC day is priced at the nanoseconds of the
    interval it bills, from where the last one ended, that lie in that day. *)
Theorem observation_billed_exactly now identity st o db out db' :
  meter_inv db → o ∈ observations db →
  machines db !! so_machine_id o = Some identity →
  meter_state db !! so_machine_id o = Some st →
  so_sequence o = last_sequence st + 1 →
  processObservation now (so_machine_id o) identity st o db = Ok (out, db') →
  ∃ st', meter_state db' !! so_machine_id o = Some st' ∧
    last_sequence st' = so_sequence o ∧
    (∀ dim, billed (so_machine_id o) dim db' = billed (so_machine_id o) dim db +
       (if start_seen st
        then priced identity dim (projected_runtime_ns st' - projected_runtime_ns st)
               (last_egress_bytes st' - last_egress_bytes st)
        else 0)) ∧
    (∀ k dim, k ≠ so_machine_id o → billed k dim db' = billed k dim db) ∧
    usage_events db' = usage_of_raw <$> raw_events db' ∧
    match anomaly_of identity st o with
    | Some _ => out = Quarantined ∧ is_Some (quarantined_at st') ∧ raw_events db' = raw_events db
    | None =>
        out = (if String.eqb (so_kind o) "final" && String.eqb (so_quality o) "last_defensible"
               then Quarantined else Accepted) ∧
        start_seen st' = true ∧ last_runtime_ns st' = so_runtime_ns o ∧
        last_egress_bytes st' = so_egress_bytes o ∧
        (so_kind o ≠ "start" →
         projected_runtime_ns st' = Z.max (projected_runtime_ns st) (so_runtime_ns o) ∧
         ∃ start, coalesce (last_period_end st) (last_observed_at st) = Some start ∧
           ∀ d dim, 0 <= start → dim ≠ Egress_ →
           let from := start * nanosecondsPerMillisecond in
           billed_on (so_machine_id o) dim d db' = billed_on (so_machine_id o) dim d db +
             priced identity dim (day_overlap d from
               (from + (projected_runtime_ns st' - projected_runtime_ns st))) 0)
    end.
Proof.
  intros Hinv Ho Hm Hst Hseq Hproc.
  destruct (inv_process now (so_machine_id o) identity st o db db' out identity)
    as (st' & rt & eg & ps & Hinv' & Hf & Hp); [done..|].
  pose proof (sf_egress _ _ _ _ _ Hf) as Heg.
  exists st'. split_and!; [|apply (sf_sequence _ _ _ _ _ Hf)| | |by apply inv_mirrored|].
  - by rewrite (pr_meter _ _ _ _ _ _ _ _ _ _ _ Hp), lookup_insert_eq.
  - intros dim. destruct (processed_billed _ _ _ _ _ _ _ _ _ _ _ dim Hp Heg) as [-> _].
    destruct (start_seen st) eqn:Es.
    + destruct (sf_projected _ _ _ _ _ Hf Es) as [-> ->]. f_equal. f_equal; lia.
    + destruct (sf_unstarted _ _ _ _ _ Hf Es) as [-> ->]. by destruct dim.
  - intros k dim Hk. by apply (processed_billed _ _ _ _ _ _ _ _ _ _ _ dim Hp Heg).
  - assert (fresh_observation o db) as Hfresh by (eapply next_is_fresh; [done..|lia]).
    pose proof (process_rows now _ identity st o db out db' (inv_mirrored db Hinv) Hfresh Hst Hproc) as Hrows.
    pose proof (step_counters _ _ _ _ _ _ _ (pr_step _ _ _ _ _ _ _ _ _ _ _ Hp)
      (wf_reasoned st (inv_wf db Hinv _ st Hst))) as Hcount.
    destruct (anomaly_of identity st o) as [reason|]; [by destruct Hrows|].
    destruct Hcount as (Hs & Hr & He & Hproj).
    destruct (String.eqb_spec (so_kind o) "start") as [Hk|Hk].
    { destruct Hrows as [-> _]. rewrite Hk. split_and!; done. }
    destruct Hrows as (start & segs & Hc & Hsplit & Hraw & ->). split_and!; [done..|]. intros _.
    specialize (Hproj Hk). split; [done|]. exists start. split; [done|]. intros d dim Hstart Hdim. simpl.
    unfold billed_on. rewrite Hraw, sum_with_app. unfold delta_rows. rewrite new_rows_days by done.
    apply (split_partition start) in Hsplit; [|done]. apply (partition_days d) in Hsplit as [_ ->].
    rewrite Hproj.
    by replace (Z.max (projected_runtime_ns st) (so_runtime_ns o) - projected_runtime_ns st)
      with (Z.max 0 (so_runtime_ns o - projected_runtime_ns st)) by lia.
Qed.

(** The demo tables with the start drained and the checkpoint stored. *)
Definition demo_pending : MeterDb :=
  mkMeterDb {[ demo_machine := demo_row ]} {[ "host" := demo_host ]}
    {[ demo_machine := demo_meter ]} [demo_stored] 3 [] [] [] [] [] [].

Lemma demo_pending_inv : meter_inv demo_pending.
Proof.
  assert (∀ o, o ∈ [demo_stored] → o = demo_stored) as Hobs by set_solver.
  constructor.
  - done.
  - apply NoDup_singleton.
  - intros o Ho. by rewrite (Hobs o Ho).
  - intros o Ho. by rewrite (Hobs o Ho).
  - set_solver.
  - intros k st Hk. change (({[demo_machine := demo_meter]} : gmap _ _) !! k = Some st) in Hk.
    apply lookup_singleton_Some in Hk as [_ <-]. constructor; [by intros []|done].
  - intros k m Hk. change (({[demo_machine := demo_row]} : gmap _ _) !! k = Some m) in Hk.
    apply lookup_singleton_Some in Hk as [_ <-]. done.
  - intros k m st Hk Hst.
    change (({[demo_machine := demo_row]} : gmap _ _) !! k = Some m) in Hk.
    change (({[demo_machine := demo_meter]} : gmap _ _) !! k = Some st) in Hst.
    apply lookup_singleton_Some in Hk as [_ <-], Hst as [_ <-].
    split; [|done]. intros []; vm_compute; congruence.
Qed.

Lemma observation_billed_exactly_witness :
  ∃ db', processObservation 20100 demo_machine demo_row demo_meter demo_stored demo_pending
           = Ok (Accepted, db') ∧
    billed demo_machine Compute_ db' = billed demo_machine Compute_ demo_pending +
      priced demo_row Compute_ 10000000000 4096.
Proof.
  destruct (processObservation 20100 demo_machine demo_row demo_meter demo_stored demo_pending)
    as [[out db']|e] eqn:E; [|vm_compute in E; discriminate E].
  exists db'. split.
  { enough (out = Accepted) as -> by done. revert E. vm_compute. congruence. }
  destruct (observation_billed_exactly 20100 demo_row demo_meter demo_stored demo_pending
    out db' demo_pending_inv ltac:(by apply list_elem_of_singleton) eq_refl eq_refl eq_refl E)
    as (st' & Hst' & _ & Hb & _).
  etransitivity; [exact (Hb Compute_)|].
  enough (projected_runtime_ns st' = 10000000000) as Hp by (rewrite Hp; by vm_compute).
  revert E Hst'. vm_compute. intros [= <- <-]. vm_compute. intros [= <-]. done.
Defined.

(** C2: a batch preserves the invariant of the metering tables and never
    charges a machine more than its meter's counters, in any dimension. *)
Theorem ingest_never_overcharges sha256 Date_parse interval clock hostId generation inputs
    db receipts db' :
  meter_inv db → settled db →
  ingest sha256 Date_parse interval clock hostId generation inputs db = Ok (receipts, db') →
  meter_inv db' ∧ settled db' ∧
  ∀ k m st dim, machines db' !! k = Some m → meter_state db' !! k = Some st →
    billed k dim db' <= priced m dim (projected_runtime_ns st) (last_egress_bytes st).
Proof.
  intros Hi Hs H. apply ingest_preserves in H. destruct (H Hi Hs) as (Hi' & Hs' & _).
  split_and!; [done..|]. intros k m st dim Hm Hst.
  by apply (inv_bill db' Hi' k m st Hm Hst).
Qed.

Lemma ingest_never_overcharges_witness :
  ∃ receipts db',
    ingest demo_sha256 demo_parse 1000 (demo_clock 20100) "host" (Some 1) demo_batch demo_db
      = Ok (receipts, db') ∧ meter_inv db'.
Proof.
  destruct (ingest demo_sha256 demo_parse 1000 (demo_clock 20100) "host" (Some 1) demo_batch
    demo_db) as [[receipts db']|e] eqn:E; [|vm_compute in E; discriminate E].
  exists receipts, db'. split; [done|].
  apply (ingest_never_overcharges _ _ _ _ _ _ _ _ _ _ (proj1 demo_invariant)
    (proj2 demo_invariant) E).
Defined.

(** A meter that is quarantined, closed by a host loss or past its final
    observation is never charged again, whatever the host sends, and stays
    closed. *)
Theorem closed_meter_never_charged sha256 Date_parse interval clock hostId generation inputs
    db receipts db' k st :
  meter_inv db → settled db →
  ingest sha256 Date_parse interval clock hostId generation inputs db = Ok (receipts, db') →
  meter_state db !! k = Some st → closed st →
  (∀ dim, billed k dim db' = billed k dim db) ∧
  ∃ st', meter_state db' !! k = Some st' ∧ closed st'.
Proof.
  intros Hi Hs H Hk Hc. apply ingest_preserves in H.
  destruct (H Hi Hs) as (_ & _ & [_ _ Hm]).
  destruct (Hm k st Hk) as (st' & Hk' & _ & Hcl). destruct (Hcl Hc) as [Hc' Hb]. eauto.
Qed.

(** The demo machine after its host was lost. *)
Definition demo_lost : MeterDb :=
  match closeHostLoss 30000 demo_machine demo_lease demo_after with
  | Ok (_, db) => db
  | Err _ => demo_after
  end.

Lemma demo_lost_invariant : meter_inv demo_lost ∧ settled demo_lost.
Proof.
  destruct demo_after_invariant as [Hi Hs]. unfold demo_lost.
  destruct (closeHostLoss _ _ _ _) as [[p db]|e] eqn:E; [|exact (conj Hi Hs)].
  apply closeHostLoss_preserves in E. destruct (E Hi Hs) as (Hi' & Hs' & _).
  exact (conj Hi' Hs').
Qed.

Definition demo_late : HostUsageObservation :=
  demo_observation "3" "checkpoint" "20000000000" "8192" "25000000000"
    "1970-01-01T00:00:20Z".

Lemma closed_meter_never_charged_witness :
  ∃ receipts db',
    ingest demo_sha256 demo_parse 1000 (demo_clock 40000) "host" (Some 1)
      [(demo_late, demo_stamps 40000)] demo_lost = Ok (receipts, db') ∧
    billed demo_machine Compute_ db' = billed demo_machine Compute_ demo_lost.
Proof.
  destruct (ingest demo_sha256 demo_parse 1000 (demo_clock 40000) "host" (Some 1)
      [(demo_late, demo_stamps 40000)] demo_lost) as [[receipts db']|e] eqn:E;
    [|vm_compute in E; discriminate E].
  destruct (meter_state demo_lost !! demo_machine) as [st|] eqn:Hst;
    [|vm_compute in Hst; discriminate Hst].
  exists receipts, db'. split; [done|].
  apply (closed_meter_never_charged _ _ _ _ _ _ _ _ _ _ _ st (proj1 demo_lost_invariant)
    (proj2 demo_lost_invariant) E Hst).
  right; left. vm_compute in Hst. injection Hst as <-. by eexists.
Defined.

(** C16: the drain of stored observations always ends: a batch never exhausts
    the bound on its iterations, so [ingest] returns receipts or one of the
    errors the code throws. *)
Theorem ingest_terminates sha256 Date_parse interval clock hostId generation inputs db :
  meter_inv db → settled db →
  ingest sha256 Date_parse interval clock hostId generation inputs db ≠ Err OutOfFuel.
Proof.
  intros Hi Hs. unfold ingest. destruct (_ || _); [done|].
  destruct (validate_all Date_parse inputs.*1) as [[]|e] eqn:Hv; cbn [mbind result_bind].
  2: { intros [= ->]. by apply validate_all_no_fuel in Hv. }
  destruct (hosts db !! hostId) as [h|]; [|done].
  destruct (host_admits h generation); [|done].
  destruct (cadence_valid interval clock h); [|done]. cbv beta iota delta [negb].
  apply ingest_loop_no_fuel; [| |by eapply validate_all_ok].
  - apply (inv_same_core db); [by constructor|done].
  - apply (settled_same_core db); [by constructor|done].
Qed.

Lemma ingest_terminates_witness :
  ingest demo_sha256 demo_parse 1000 (demo_clock 20100) "host" (Some 1) demo_batch demo_db
    ≠ Err OutOfFuel.
Proof. apply (ingest_terminates _ _ _ _ _ _ _ _ (proj1 demo_invariant) (proj2 demo_invariant)).
Defined.

(** Once a batch answered an observation with quarantine or a payload
    conflict, its host is quarantined: no later batch of that host is accepted,
    with any credential generation. *)
Theorem quarantined_host_is_refused sha256 Date_parse interval clock hostId generation inputs
    db receipts db' r clock' generation' inputs' :
  ingest sha256 Date_parse interval clock hostId generation inputs db = Ok (receipts, db') →
  r ∈ receipts → r_outcome r ∈ [Quarantined; RejectedPayloadConflict] →
  is_ok (ingest sha256 Date_parse interval clock' hostId generation' inputs' db') = false.
Proof.
  intros H Hr Hout. apply ingest_inv in H as (Hok & h & db1 & _ & _ & _ & Hl).
  assert (host_blocked hostId db') as Hb.
  { eapply ingest_loop_blocks; [done|exact Hl|done|]. right. eauto. }
  unfold ingest. destruct (_ || _); [done|].
  destruct (validate_all Date_parse inputs'.*1) as [[]|e]; cbn [mbind result_bind]; [|done].
  destruct (hosts db' !! hostId) as [h'|] eqn:Hh; [|done].
  by rewrite (Hb h' generation' Hh).
Qed.

(** A runtime far beyond the lease's age. *)
Definition demo_implausible : HostUsageObservation :=
  demo_observation "3" "checkpoint" "9000000000000000" "8192" "9000005000000000"
    "1970-01-01T00:00:20Z".

Lemma quarantined_host_is_refused_witness :
  ∃ receipts db',
    ingest demo_sha256 demo_parse 1000 (demo_clock 40000) "host" (Some 1)
      [(demo_implausible, demo_stamps 40000)] demo_after = Ok (receipts, db') ∧
    is_ok (ingest demo_sha256 demo_parse 1000 (demo_clock 60000) "host" (Some 2)
             [(demo_late, demo_stamps 60000)] db') = false.
Proof.
  destruct (ingest demo_sha256 demo_parse 1000 (demo_clock 40000) "host" (Some 1)
      [(demo_implausible, demo_stamps 40000)] demo_after) as [[receipts db']|e] eqn:E;
    [|vm_compute in E; discriminate E].
  assert (receipts = [receiptFor demo_implausible Quarantined]) as Hr
    by (revert E; vm_compute; congruence).
  exists receipts, db'. split; [done|].
  apply (quarantined_host_is_refused _ _ _ _ _ _ _ _ _ _
    (receiptFor demo_implausible Quarantined) _ _ _ E).
  - rewrite Hr. by apply list_elem_of_singleton.
  - by left.
Defined.

(** Retransmitting an observation the meter already consumed is answered
    as a duplicate and changes nothing but the resolutions of closed gaps: no
    second charge, no quarantine. *)
Theorem replay_charges_nothing sha256 Date_parse now hostId stamps input db identity st o :
  settled db → load_identity hostId input db = Ok identity →
  meter_state db !! machineId input = Some st → host_boot_id st = hostBootId input →
  find_stored hostId input db = Some o → so_payload_hash o = payloadHash sha256 input →
  so_sequence o <= last_sequence st →
  ingest_one sha256 Date_parse now hostId stamps input db =
    Ok (receiptFor input Duplicate, false,
        resolve_gaps (machineId input) (lease_generation identity) (last_sequence st) db).
Proof.
  intros Hs Hid Hst Hboot Hf Hhash Hle.
  assert (machines db !! machineId input = Some identity) as Hm.
  { unfold load_identity in Hid. destruct (machines db !! _) as [m|]; [|done].
    destruct (identity_matches _ _ _); [congruence|done]. }
  pose proof Hf as (_ & Hseq & _)%find_stored_Some.
  unfold ingest_one. rewrite Hid. cbn [mbind result_bind]. unfold ensure_meter. rewrite Hst.
  cbv beta iota zeta.
  assert (sequence_violation hostId input st db = false) as ->.
  { unfold sequence_violation, maximumForwardSequenceWindow. rewrite Hboot, String.eqb_refl.
    repeat case_match; bool_simp; try done; lia. }
  assert (integrity_violation identity input st stamps = None) as ->.
  { unfold integrity_violation. case_match; bool_simp; [lia|done]. }
  unfold store_observation. rewrite Hf. cbv beta iota zeta.
  rewrite Hhash, String.eqb_refl. simpl andb. cbv beta iota.
  unfold drain_fuel. cbn [drain].
  rewrite Hst, (st_drained db Hs _ _ _ Hm Hst). cbn [mbind result_bind].
  unfold finish_input. rewrite Hst.
  assert ((last_sequence st <? parse_dec (sequence input)) = false) as -> by (apply Z.ltb_ge; lia).
  unfold outcome_of. by assert ((parse_dec (sequence input) <=? last_sequence st) = true)
    as -> by (apply Z.leb_le; lia).
Qed.

Lemma replay_charges_nothing_witness :
  ∃ db', ingest_one demo_sha256 demo_parse 40000 "host" (demo_stamps 40000) demo_checkpoint
           demo_after = Ok (receiptFor demo_checkpoint Duplicate, false, db').
Proof.
  destruct (load_identity "host" demo_checkpoint demo_after) as [identity|e] eqn:Hid;
    [|vm_compute in Hid; discriminate Hid].
  destruct (meter_state demo_after !! machineId demo_checkpoint) as [st|] eqn:Hst;
    [|vm_compute in Hst; discriminate Hst].
  destruct (find_stored "host" demo_checkpoint demo_after) as [o|] eqn:Ho;
    [|vm_compute in Ho; discriminate Ho].
  eexists.
  apply (replay_charges_nothing _ _ _ _ _ _ _ identity st o (proj2 demo_after_invariant)
    Hid Hst).
  - vm_compute in Hst. by injection Hst as <-.
  - exact Ho.
  - vm_compute in Ho. by injection Ho as <-.
  - vm_compute in Ho, Hst. by injection Ho as <-; injection Hst as <-.
Defined.

(** An observation whose stored twin has another payload is refused: the
    receipt reports the conflict, the meter is quarantined, the host is blocked,
    and nothing is charged. *)
Theorem payload_conflict_quarantines sha256 Date_parse now hostId stamps input db identity st o :
  load_identity hostId input db = Ok identity →
  meter_state db !! machineId input = Some st →
  sequence_violation hostId input st db = false →
  integrity_violation identity input st stamps = None →
  find_stored hostId input db = Some o → so_payload_hash o ≠ payloadHash sha256 input →
  ∃ db' st', ingest_one sha256 Date_parse now hostId stamps input db =
      Ok (receiptFor input RejectedPayloadConflict, true, db') ∧
    meter_state db' !! machineId input = Some st' ∧ is_Some (quarantined_at st') ∧
    raw_events db' = raw_events db ∧ usage_events db' = usage_events db ∧
    host_blocked hostId db'.
Proof.
  intros Hid Hst Hseq Hint Hf Hhash. eexists _, (quarantine_meter now "payload_conflict" st).
  split.
  { unfold ingest_one. rewrite Hid. cbn [mbind result_bind]. unfold ensure_meter. rewrite Hst.
    cbv beta iota zeta. rewrite Hseq, Hint. unfold store_observation. rewrite Hf.
    cbv beta iota zeta. destruct (String.eqb_spec (so_payload_hash o) (payloadHash sha256 input));
      [done|]. reflexivity. }
  split_and!.
  - simpl. by rewrite lookup_alter_eq, Hst.
  - simpl. by destruct (quarantined_at st).
  - done.
  - done.
  - apply quarantineHost_blocks.
Qed.

(** The checkpoint again, with other egress. *)
Definition demo_conflicting : HostUsageObservation :=
  demo_observation "2" "checkpoint" "10000000000" "9999" "15000000000"
    "1970-01-01T00:00:20Z".

Lemma payload_conflict_quarantines_witness :
  ∃ db', ingest_one demo_sha256 demo_parse 40000 "host" (demo_stamps 40000) demo_conflicting
           demo_after = Ok (receiptFor demo_conflicting RejectedPayloadConflict, true, db') ∧
    raw_events db' = raw_events demo_after.
Proof.
  destruct (load_identity "host" demo_conflicting demo_after) as [identity|e] eqn:Hid;
    [|vm_compute in Hid; discriminate Hid].
  destruct (meter_state demo_after !! machineId demo_conflicting) as [st|] eqn:Hst;
    [|vm_compute in Hst; discriminate Hst].
  destruct (find_stored "host" demo_conflicting demo_after) as [o|] eqn:Ho;
    [|vm_compute in Ho; discriminate Ho].
  destruct (payload_conflict_quarantines demo_sha256 demo_parse 40000 "host"
    (demo_stamps 40000) demo_conflicting demo_after identity st o Hid Hst)
    as (db' & st' & H1 & _ & _ & H2 & _).
  - vm_compute in Hst. injection Hst as <-. by vm_compute.
  - vm_compute in Hst, Hid. injection Hst as <-. injection Hid as <-. by vm_compute.
  - exact Ho.
  - vm_compute in Ho. injection Ho as <-. vm_compute. discriminate.
  - exists db'. exact (conj H1 H2).
Defined.

(** When a host is lost, the meter of a started lease is closed at its last
    defensible boundary and the machine is finalised there; nothing more is
    charged and the invariant is kept. *)
Theorem host_loss_closes_meter now machine lease db m st :
  meter_inv db → settled db → machines db !! machine = Some m → lease_id m = lease →
  meter_state db !! machine = Some st → ms_lease_id st = lease → start_seen st = true →
  ∃ db' m' st', closeHostLoss now machine lease db = Ok (last_period_end st, db') ∧
    machines db' !! machine = Some m' ∧ is_Some (usage_finalized_at m') ∧
    usage_checkpoint_at m' = coalesce (last_period_end st) (usage_checkpoint_at m) ∧
    meter_state db' !! machine = Some st' ∧ closed st' ∧
    raw_events db' = raw_events db ∧ meter_inv db' ∧ settled db'.
Proof.
  intros Hi Hs Hm Hl Hst Hml Hstart.
  assert (∃ db', closeHostLoss now machine lease db = Ok (last_period_end st, db')) as [db' H].
  { unfold closeHostLoss. rewrite Hm, Hl, String.eqb_refl, Hst, Hstart. by eexists. }
  pose proof (closeHostLoss_preserves _ _ _ _ _ _ H Hi Hs) as (Hi' & Hs' & _).
  unfold closeHostLoss in H. rewrite Hm, Hl, String.eqb_refl, Hst, Hstart in H. simpl in H.
  exists db', (m <| usage_checkpoint_at := coalesce (last_period_end st) (usage_checkpoint_at m) |>
         <| usage_finalized_at := coalesce (usage_finalized_at m) (Some now) |>),
    (if final_seen st then st
     else st <| loss_closed_at := coalesce (loss_closed_at st) (Some now) |>).
  split; [unfold closeHostLoss; rewrite Hm, Hl, String.eqb_refl, Hst, Hstart; exact H|].
  destruct (final_seen st) eqn:Ef; injection H as <-; simpl in *;
    rewrite ?lookup_alter_eq, ?Hm, ?Hst; simpl; rewrite ?Hl, ?Hml, ?String.eqb_refl;
    split_and!; try done; try (by destruct (usage_finalized_at m)).
  - by right; right.
  - right; left. simpl. by destruct (loss_closed_at st).
Qed.

Lemma host_loss_closes_meter_witness :
  ∃ db' st', closeHostLoss 30000 demo_machine demo_lease demo_after = Ok (Some 20000, db') ∧
    meter_state db' !! demo_machine = Some st' ∧ closed st'.
Proof.
  destruct (machines demo_after !! demo_machine) as [m|] eqn:Hm;
    [|vm_compute in Hm; discriminate Hm].
  destruct (meter_state demo_after !! demo_machine) as [st|] eqn:Hst;
    [|vm_compute in Hst; discriminate Hst].
  assert (lease_id m = demo_lease) as Hl by (vm_compute in Hm; by injection Hm as <-).
  assert (ms_lease_id st = demo_lease ∧ start_seen st = true ∧
    last_period_end st = Some 20000) as (Hml & Hs & Hp)
    by (vm_compute in Hst; injection Hst as <-; split_and!; reflexivity).
  destruct (host_loss_closes_meter 30000 demo_machine demo_lease demo_after m st
    (proj1 demo_after_invariant) (proj2 demo_after_invariant) Hm Hl Hst Hml Hs)
    as (db' & m' & st' & H1 & _ & _ & _ & H2 & H3 & _).
  exists db', st'. rewrite Hp in H1. exact (conj H1 (conj H2 H3)).
Defined.
