(* ===== verification/MeteringHandover.v ===== *)
(** * From the legacy producer to the meter

    Until the first observation of a lease is accepted its machine is billed by
    the usage producer; from then on by its meter.  [handover] is how metering may
    move the tables the producer works on: before the start nothing changes, the
    start closes the last interval of the producer at the boundary, and after it
    no interval is added. *)

From S2P Require Import Prelude Text Js Numeric Metering MeteringFacts MeteringInv MeteringTheorems.

Definition started (db : MeterDb) (id : string) : bool :=
  match meter_state db !! id with Some st => start_seen st | None => false end.

(** The intervals of a machine, in the order they were enqueued. *)
Definition rows_of (id : string) (l : list OutboxRow) : list OutboxRow :=
  List.filter (λ o, String.eqb (ob_machine_id o) id) l.

Definition legacy_columns (m : MachineRow) : option Z * option Z :=
  (usage_checkpoint_at m, started_at m).

(** The meter of a machine took over at [b] and has billed within its counters
    since: what the producer covers up to [b] is not billed again.  The start
    observation says when the host began to count. *)
Record start_of (id : string) (st : MeterState) (o : StoredObservation) : Prop := mkStartOf {
  so_own : so_machine_id o = id;
  so_started : start_seen st = true;
  so_first : so_kind o = "start" ∧ so_sequence o = 1;
  so_boot : so_host_boot_id o = host_boot_id st
}.

Definition covered_ns (o : StoredObservation) (b : Z) : Z := (b - so_observed_at o) * nanosecondsPerMillisecond.

Record within_cover (db : MeterDb) (id : string) (b : Z) (st : MeterState) (o : StoredObservation)
    : Prop := mkCover {
  wc_meter : meter_state db !! id = Some st;
  wc_stored : o ∈ observations db;
  wc_start : start_of id st o;
  wc_after : so_observed_at o <= b;
  wc_projected : covered_ns o b <= projected_runtime_ns st <= Z.max (covered_ns o b) (last_runtime_ns st);
  wc_billed : ∀ m dim, machines db !! id = Some m →
    billed id dim db <= priced m dim (projected_runtime_ns st - covered_ns o b) (last_egress_bytes st)
}.

Definition took_over (db : MeterDb) (id : string) (b : Z) : Prop := ∃ st o, within_cover db id b st o.

Definition covering (db db' : MeterDb) : Prop := ∀ id b, took_over db id b → took_over db' id b.

Definition snapshot_priced (db : MeterDb) (machine : string) (identity : MachineRow) : Prop :=
  ∀ m, machines db !! machine = Some m → billing_identity m = billing_identity identity.

Lemma step_runtime now identity st o st' rt eg :
  meter_step now identity st o st' rt eg → reasoned st → start_seen st = true →
  start_seen st' = true ∧ last_runtime_ns st <= last_runtime_ns st' ∧
  projected_runtime_ns st' <= Z.max (projected_runtime_ns st) (last_runtime_ns st').
Proof.
  intros Hstep Hr Hs. pose proof (λ Ha, state_anomaly_none identity st o Hr (anomaly_none_state identity st o Ha)) as Hn.
  destruct Hstep as [reason Ha|covered boundary Ha Hk Hc Hb|pe rt Ha Hk Hrt|pe rt Ha Hk Hrt]; simpl.
  - split_and!; [done|lia..].
  - destruct (Hn Ha) as (_ & _ & Hst & _). rewrite Hs in Hst. naive_solver.
  - destruct (Hn Ha) as (_ & _ & Hst & _). rewrite Hs in Hst. destruct Hst as [_ (? & _)%counter_reset_false].
    split_and!; [done|lia..].
  - destruct (Hn Ha) as (_ & _ & Hst & _). rewrite Hs in Hst. destruct Hst as [_ (? & _)%counter_reset_false].
    split_and!; [done|lia..].
Qed.

#[export] Instance covering_refl : Reflexive covering.
Proof. by intros db id b. Qed.

#[export] Instance covering_trans : Transitive covering.
Proof. intros db1 db2 db3 H1 H2 id b Hc. auto. Qed.

(** The columns of a meter a cover speaks of. *)
Definition meter_core (st : MeterState) : bool * string * Z * Z * Z :=
  (start_seen st, host_boot_id st, last_runtime_ns st, projected_runtime_ns st, last_egress_bytes st).

(** A change that leaves them and the ledger keeps every cover. *)
Lemma covering_frame db db' :
  (∀ id, meter_core <$> meter_state db' !! id = meter_core <$> meter_state db !! id) →
  (∀ o, o ∈ observations db → o ∈ observations db') → raw_events db' = raw_events db →
  billing_identity <$> machines db' = billing_identity <$> machines db → covering db db'.
Proof.
  intros Hc Ho Hr Hm id b (st & o & [Hst Hin [So Ss Sf Sb] Ha Hp Hb]).
  specialize (Hc id). rewrite Hst in Hc. destruct (meter_state db' !! id) as [st'|] eqn:Hst'; [|done].
  injection Hc as E1 E2 E3 E4 E5. exists st', o. constructor; [done|auto|constructor; congruence|done|congruence|].
  intros m' dim Hm'. destruct (machines_lookup db db' id m' Hm Hm') as (m & Hm0 & Heq).
  unfold billed. rewrite Hr, (priced_identity m' m) by done. rewrite E4, E5. by apply Hb.
Qed.

Lemma covering_update_meter machine f db :
  (∀ st, meter_core (f st) = meter_core st) → covering db (update_meter machine f db).
Proof.
  intros Hf. apply covering_frame; try done. intros id. simpl.
  destruct (decide (id = machine)) as [->|Hne].
  - rewrite lookup_alter_eq. destruct (meter_state db !! machine); simpl; [by rewrite Hf|done].
  - by rewrite lookup_alter_ne.
Qed.

(** Tables alike but for the outbox, exceptions and hosts. *)
Lemma covering_same db db' :
  meter_state db' = meter_state db → observations db' = observations db → raw_events db' = raw_events db →
  billing_identity <$> machines db' = billing_identity <$> machines db → covering db db'.
Proof. intros Hm Ho. apply covering_frame; [by rewrite Hm|by rewrite Ho]. Qed.

(** A step of a started meter bills the growth of its counters. *)
Lemma processed_covering now machine identity st o db db' st' rt eg ps :
  processed now machine identity st o db db' st' rt eg ps → step_facts st o st' rt eg → reasoned st →
  meter_state db !! machine = Some st → snapshot_priced db machine identity → covering db db'.
Proof.
  intros Hp Hf Hr Hst Hid id b (s & o0 & [Hs Hin [So Ss Sf Sb] Ha Hpr Hb]).
  pose proof (pr_frame _ _ _ _ _ _ _ _ _ _ _ Hp) as [Hobs _ _ _ Hmach].
  pose proof (pr_meter _ _ _ _ _ _ _ _ _ _ _ Hp) as Hmeter.
  pose proof (sf_egress _ _ _ _ _ Hf) as Heg.
  destruct (decide (id = machine)) as [->|Hne].
  - assert (s = st) as -> by congruence. exists st', o0.
    destruct (sf_projected _ _ _ _ _ Hf Ss) as [Hp' He'].
    destruct (step_runtime _ _ _ _ _ _ _ (pr_step _ _ _ _ _ _ _ _ _ _ _ Hp) Hr Ss) as (Hss & Hl & Hmax).
    pose proof (sf_runtime _ _ _ _ _ Hf) as Hrt.
    constructor; [by rewrite Hmeter, lookup_insert_eq|by rewrite Hobs| |done|lia|].
    + constructor; try done. by rewrite (sf_boot _ _ _ _ _ Hf).
    + intros m' dim Hm'. destruct (machines_lookup db db' machine m' Hmach Hm') as (m & Hm0 & Heq).
      destruct (processed_billed _ _ _ _ _ _ _ _ _ _ _ dim Hp Heg) as [-> _].
      rewrite (priced_identity m' m), <- (priced_identity m identity) by (done || by apply Hid).
      specialize (Hb m dim Hm0). rewrite Hp', He'.
      replace (projected_runtime_ns st + rt - covered_ns o0 b)
        with (projected_runtime_ns st - covered_ns o0 b + rt) by lia. rewrite priced_add. lia.
  - exists s, o0. constructor; [by rewrite Hmeter, lookup_insert_ne|by rewrite Hobs|done|done|done|].
    intros m' dim Hm'. destruct (machines_lookup db db' id m' Hmach Hm') as (m & Hm0 & Heq).
    destruct (processed_billed _ _ _ _ _ _ _ _ _ _ _ dim Hp Heg) as [_ ->]; [|done].
    rewrite (priced_identity m' m) by done. by apply Hb.
Qed.

(** The start takes over at its boundary with nothing billed. *)
Lemma start_covers now machine identity st o db :
  meter_inv db → meter_state db !! machine = Some st → start_seen st = false → snapshot_priced db machine identity →
  o ∈ observations db → so_machine_id o = machine → is_Some (machines db !! machine) →
  anomaly_of identity st o = None →
  took_over (accept_start now machine identity st o db) machine (cutover_boundary identity (so_observed_at o)).
Proof.
  intros Hinv Hst Hseen Hid Hin Hown [m Hm] Ha.
  destruct (inv_wf db Hinv machine st Hst) as [Hr _].
  pose proof Ha as (_ & Hboot & Hstart & _)%anomaly_none_state%state_anomaly_none; [|done].
  rewrite Hseen in Hstart. destruct Hstart as (Hseq & Hkind & Hrt).
  destruct (inv_bill db Hinv machine m st Hm Hst) as [_ Hzero]. specialize (Hzero Hseen).
  pose proof (inv_egress db Hinv o Hin) as Heg.
  unfold accept_start. pose proof (closeLegacyPrefix_frame now machine identity (so_observed_at o) db) as Hc.
  destruct (closeLegacyPrefix _ _ _ _) as [b db1]. destruct Hc as (Hb & [Hobs _ _ _ Hmach] & Hms & Hraw & _).
  assert (so_observed_at o <= b) as Hle.
  { rewrite Hb. unfold cutover_boundary. destruct (legacy_start identity); [case_match; bool_simp; lia|lia]. }
  rewrite <- Hb. eexists _, o. constructor.
  - rewrite (update_meter_at_present _ _ _ st) by by rewrite Hms. apply lookup_insert_eq.
  - simpl. by rewrite Hobs.
  - by constructor.
  - done.
  - unfold covered_ns, nanosecondsPerMillisecond. simpl. lia.
  - intros m' dim Hm'. unfold billed. simpl. rewrite Hraw. fold (billed machine dim db). rewrite Hzero.
    assert (0 <= vcpus m' ∧ 0 <= memory_mb m') as [? ?].
    { destruct (machines_lookup db _ machine m' Hmach Hm') as (m0 & Hm0 & Heq).
      pose proof (f_equal vcpus Heq) as Hv. pose proof (f_equal memory_mb Heq) as Hmem. simpl in *. rewrite Hv, Hmem.
      by apply (inv_resources db Hinv machine). }
    apply priced_nonneg; unfold covered_ns, nanosecondsPerMillisecond; simpl; lia.
Qed.

(** What may happen to the intervals of one machine. *)
Inductive handed (id : string) (db db' : MeterDb) : Prop :=
| handed_metered :
    started db id = true → started db' id = true →
    rows_of id (usage_outbox db') = rows_of id (usage_outbox db) →
    (∀ b, took_over db id b → took_over db' id b) → handed id db db'
| handed_waiting :
    started db id = false → started db' id = false →
    rows_of id (usage_outbox db') = rows_of id (usage_outbox db) →
    legacy_columns <$> machines db' !! id = legacy_columns <$> machines db !! id →
    handed id db db'
| handed_empty b :
    started db id = false → started db' id = true →
    rows_of id (usage_outbox db') = rows_of id (usage_outbox db) →
    took_over db' id b → (∀ m l, machines db !! id = Some m → legacy_start m = Some l → l = b) →
    handed id db db'
| handed_cut now m l boundary :
    started db id = false → started db' id = true → machines db !! id = Some m →
    legacy_start m = Some l → l < boundary →
    (rows_of id (usage_outbox db')
       = rows_of id (usage_outbox db) ++ [cutover_row now id m l boundary] ∨
     rows_of id (usage_outbox db') = rows_of id (usage_outbox db) ∧
     ∃ o, o ∈ usage_outbox db' ∧ ob_key o = cutover_key id (lease_generation m) boundary) →
    took_over db' id boundary → handed id db db'.

Record handover (db db' : MeterDb) : Prop := mkHandover {
  ho_each : ∀ id, handed id db db';
  ho_machines : billing_identity <$> machines db' = billing_identity <$> machines db;
  ho_meters : ∀ id, is_Some (meter_state db' !! id) →
    is_Some (meter_state db !! id) ∨ is_Some (machines db !! id);
  ho_keys : NoDup (ob_key <$> usage_outbox db) → NoDup (ob_key <$> usage_outbox db');
  ho_outbox : ∃ new, usage_outbox db' = usage_outbox db ++ new ∧
    ∀ o, o ∈ new → ∃ now id m l boundary,
      o = cutover_row now id m l boundary ∧ l < boundary ∧
      billing_identity <$> machines db !! id = Some (billing_identity m)
}.

Lemma started_cases b : b = true ∨ b = false.
Proof. destruct b; auto. Qed.

(** Steps that touch neither the producer's columns nor the meter's start. *)
Record quiet (db db' : MeterDb) : Prop := mkQuiet {
  qt_outbox : usage_outbox db' = usage_outbox db;
  qt_started : ∀ id, started db' id = started db id;
  qt_machines : billing_identity <$> machines db' = billing_identity <$> machines db;
  qt_columns : ∀ id, started db id = false →
    legacy_columns <$> machines db' !! id = legacy_columns <$> machines db !! id;
  qt_meters : ∀ id, is_Some (meter_state db' !! id) →
    is_Some (meter_state db !! id) ∨ is_Some (machines db !! id)
}.

Lemma quiet_handover db db' : quiet db db' → covering db db' → handover db db'.
Proof.
  intros [Ho Hs Hm Hc Hd] Hcov. constructor; [|done|done|by rewrite Ho|].
  - intros id. destruct (started_cases (started db id)) as [E|E].
    + apply handed_metered; [done|by rewrite Hs|by rewrite Ho|apply Hcov].
    + apply handed_waiting; [done|by rewrite Hs|by rewrite Ho|auto].
  - exists []. rewrite app_nil_r. set_solver.
Qed.

#[export] Instance handover_refl : Reflexive handover.
Proof. intros db. apply quiet_handover; [constructor; auto|reflexivity]. Qed.

Lemma machines_same_present db db' id :
  billing_identity <$> machines db' = billing_identity <$> machines db →
  is_Some (machines db' !! id) → is_Some (machines db !! id).
Proof. intros Hm [m' Hm']. destruct (machines_lookup _ _ _ _ Hm Hm') as (m & ? & _). by eexists. Qed.

(** The row of a cut made from rows with the same immutable and producer's
    columns is the same. *)
Lemma same_columns m m' :
  billing_identity m' = billing_identity m → legacy_columns m' = legacy_columns m →
  legacy_start m' = legacy_start m ∧
  ∀ now id l b, cutover_row now id m' l b = cutover_row now id m l b.
Proof.
  intros Hb Hl. unfold legacy_start. injection Hl as -> ->. split; [done|]. intros.
  unfold cutover_row, memory_bytes.
  assert (organization_id m' = organization_id m ∧ project_id m' = project_id m ∧
    lease_generation m' = lease_generation m ∧ vcpus m' = vcpus m ∧ memory_mb m' = memory_mb m)
    as (-> & -> & -> & -> & ->); [|done].
  unfold billing_identity in Hb. destruct m, m'. simpl in Hb. injection Hb. auto.
Qed.

#[export] Instance handover_trans : Transitive handover.
Proof.
  intros db1 db2 db3 [E1 M1 D1 K1 (n1 & O1 & N1)] [E2 M2 D2 K2 (n2 & O2 & N2)]. constructor.
  - intros id. specialize (E1 id). specialize (E2 id).
    destruct E1 as [A B R V|A B R C|b A B R V L|now m l b A B Hm Hl Hlt R V];
      destruct E2 as [A' B' R' V'|A' B' R' C'|b' A' B' R' V' L'|now' m' l' b' A' B' Hm' Hl' Hlt' R' V'];
      try congruence.
    + apply handed_metered; [congruence..|auto].
    + apply handed_waiting; congruence.
    + apply (handed_empty id db1 db3 b'); [congruence..|done|].
      intros m l Hm Hl. rewrite Hm in C. destruct (machines db2 !! id) as [m'|] eqn:Hm'; [|done].
      apply (inj Some) in C. apply (L' m' l eq_refl). unfold legacy_start in *. by injection C as -> ->.
    + rewrite Hm' in C. destruct (machines db1 !! id) as [m|] eqn:Hm; [|done].
      apply (inj Some) in C.
      destruct (machines_lookup db1 db2 id m' M1 Hm') as (m0 & Hm0 & Hb). rewrite Hm in Hm0.
      injection Hm0 as <-. destruct (same_columns m m' Hb C) as [Hls Hrow].
      apply (handed_cut id db1 db3 now' m l' b'); try congruence.
      assert (lease_generation m' = lease_generation m) as Hg by exact (f_equal lease_generation Hb).
      rewrite R, Hrow, Hg in R'. exact R'.
    + apply (handed_empty id db1 db3 b); [congruence..|auto|done].
    + apply (handed_cut id db1 db3 now m l b); try congruence.
      * destruct R as [R|(R & o & Ho & Hk)]; [left; congruence|right]. split; [congruence|].
        exists o. split; [|done]. rewrite O2. set_solver.
      * auto.
  - congruence.
  - intros id [?|Hm]%D2; [by apply D1|]. right. by eapply machines_same_present.
  - auto.
  - exists (n1 ++ n2). split; [by rewrite O2, O1, app_assoc|].
    intros o [Ho|Ho]%elem_of_app; [by apply N1|].
    destruct (N2 o Ho) as (now & id & m & l & b & -> & Hlt & Hm).
    exists now, id, m, l, b. split_and!; [done..|].
    by rewrite <- Hm, <- !lookup_fmap, M1.
Qed.

(** ** One observation *)

(** The snapshot [identity] of a machine the batch works with. *)
Definition snapshot (db : MeterDb) (machine : string) (identity : MachineRow) : Prop :=
  ∃ m, machines db !! machine = Some m ∧ billing_identity m = billing_identity identity ∧
    (started db machine = false → legacy_columns m = legacy_columns identity).

(** A change of meters alone, which keeps every start. *)
Lemma quiet_meters db db' :
  usage_outbox db' = usage_outbox db → machines db' = machines db →
  (∀ id, start_seen <$> meter_state db' !! id = start_seen <$> meter_state db !! id) → quiet db db'.
Proof.
  intros Ho Hm Hs. constructor; [done| |by rewrite Hm| |].
  - intros id. specialize (Hs id). unfold started.
    destruct (meter_state db' !! id), (meter_state db !! id); simpl in Hs; congruence.
  - intros id _. by rewrite Hm.
  - intros id [st Hst]. left. specialize (Hs id). rewrite Hst in Hs.
    by destruct (meter_state db !! id).
Qed.

Lemma update_meter_quiet machine f db :
  (∀ st, start_seen (f st) = start_seen st) → quiet db (update_meter machine f db).
Proof.
  intros Hf. apply quiet_meters; [done..|]. intros id. simpl.
  destruct (decide (id = machine)) as [->|Hne].
  - rewrite lookup_alter_eq. destruct (meter_state db !! machine); simpl; by rewrite ?Hf.
  - by rewrite lookup_alter_ne.
Qed.

Lemma same_parts_quiet db db' :
  usage_outbox db' = usage_outbox db → machines db' = machines db →
  meter_state db' = meter_state db → quiet db db'.
Proof. intros Ho Hm Hs. apply quiet_meters; [done..|]. intros id. by rewrite Hs. Qed.

#[export] Instance quiet_trans : Transitive quiet.
Proof.
  intros db1 db2 db3 [O1 S1 M1 C1 D1] [O2 S2 M2 C2 D2]. constructor; [congruence|congruence|congruence| |].
  - intros id Hs. rewrite C2, C1; [done|done|by rewrite S1].
  - intros id [?|?]%D2; [by apply D1|]. right. by eapply machines_same_present.
Qed.

Lemma reject_quiet now machine identity st o reason db :
  quiet db (reject_observation now machine identity st o reason db).
Proof.
  unfold reject_observation, setQuarantined.
  etransitivity; [|apply update_meter_quiet; intros st'; by destruct (_ =? _)].
  etransitivity; [|by apply update_meter_quiet].
  by apply same_parts_quiet.
Qed.

(** Changes of the machine rows of a metered lease are quiet. *)
Lemma finalize_quiet now machine identity periodEnd db :
  started db machine = true → quiet db (finalize_machine now machine identity periodEnd db).
Proof.
  intros Hs. constructor; try done.
  - apply finalize_machine_frame.
  - intros id Hid. simpl. rewrite lookup_alter_ne by (intros ->; congruence). done.
  - auto.
Qed.

Lemma append_all_parts ps db :
  usage_outbox (append_all ps db) = usage_outbox db ∧ machines (append_all ps db) = machines db ∧
  meter_state (append_all ps db) = meter_state db.
Proof.
  revert db. induction ps as [|p ps IH]; intros db; simpl; [done|].
  destruct (IH (appendProjection p db)) as (-> & -> & ->). unfold appendProjection.
  by destruct (_ =? _).
Qed.

Lemma accept_delta_quiet now machine identity st o db out db' :
  started db machine = true → accept_delta now machine identity st o db = Ok (out, db') → quiet db db'.
Proof.
  intros Hs. unfold accept_delta. destruct (coalesce _ _) as [start|]; [|done].
  intros (segs & _ & H)%result_bind_Ok.
  set (ps := observation_projections _ _ _ _ _ _) in H.
  set (adv := update_meter_at _ _ _ _) in H.
  assert (quiet db adv) as Hadv.
  { destruct (append_all_parts ps db) as (Ho & Hm & Hst).
    transitivity (append_all ps db); [by apply same_parts_quiet|].
    apply update_meter_quiet. intros st'. by destruct (_ =? _). }
  assert (started adv machine = true) as Hs' by by rewrite (qt_started _ _ Hadv).
  clearbody adv. destruct (String.eqb (so_kind o) "final"); [|by injection H as _ <-].
  set (fin := finalize_machine _ _ _ _ _) in H.
  assert (quiet db fin) as Hfin by (etransitivity; [exact Hadv|by apply finalize_quiet]).
  clearbody fin. destruct (String.eqb _ _); injection H as _ <-; [|done].
  etransitivity; [exact Hfin|]. unfold degrade_terminal, setQuarantined.
  etransitivity; [|by apply update_meter_quiet]. by apply same_parts_quiet.
Qed.

Lemma insert_new_cases {A} (key : A → string) x l :
  insert_new key x l = l ++ [x] ∨
  insert_new key x l = l ∧ ∃ y, y ∈ l ∧ key y = key x.
Proof.
  unfold insert_new. destruct (has_key key (key x) l) eqn:E; [right|by left].
  split; [done|]. by apply has_key_true in E.
Qed.

Lemma rows_of_app id l l' : rows_of id (l ++ l') = rows_of id l ++ rows_of id l'.
Proof. apply List.filter_app. Qed.

Lemma rows_of_other id o : ob_machine_id o ≠ id → rows_of id [o] = [].
Proof. intros Hne. unfold rows_of. simpl. by destruct (String.eqb_spec (ob_machine_id o) id). Qed.

Lemma rows_of_own o : rows_of (ob_machine_id o) [o] = [o].
Proof. unfold rows_of. simpl. by rewrite String.eqb_refl. Qed.

(** The cut: what [closeLegacyPrefix] and the start of the meter do. *)
Lemma accept_start_handover now machine identity st o db :
  snapshot db machine identity → meter_state db !! machine = Some st → start_seen st = false →
  took_over (accept_start now machine identity st o db) machine (cutover_boundary identity (so_observed_at o)) →
  (∀ id b, id ≠ machine → took_over db id b → took_over (accept_start now machine identity st o db) id b) →
  handover db (accept_start now machine identity st o db).
Proof.
  intros (m & Hm & Hb & Hc) Hst Hseen.
  assert (started db machine = false) as Hnot by (unfold started; by rewrite Hst).
  destruct (same_columns m identity (eq_sym Hb) (eq_sym (Hc Hnot))) as [Hls Hrow].
  pose proof (closeLegacyPrefix_frame now machine identity (so_observed_at o) db) as Hf.
  unfold accept_start. destruct (closeLegacyPrefix _ _ _ _ _) as [b db1] eqn:E. intros Hcov Hoc.
  destruct Hf as (Hbound & [Hobs Hnext Hhosts Hres Hmach] & Hms & _ & _).
  rewrite <- Hbound in Hcov.
  assert (∀ l, legacy_start m = Some l → l <= b) as Hlb.
  { intros l Hl. rewrite Hbound. unfold cutover_boundary. rewrite Hls, Hl. case_match; bool_simp; lia. }
  set (db' := update_meter_at _ _ _ db1) in *.
  assert (∀ id, started db' id = if decide (id = machine) then true else started db id) as Hstarted.
  { intros id. unfold db', started. destruct (decide (id = machine)) as [->|Hne].
    - rewrite (update_meter_at_present _ _ _ st) by by rewrite Hms. by rewrite lookup_insert_eq.
    - simpl. by rewrite lookup_alter_ne, Hms by done. }
  assert (usage_outbox db' = match legacy_start m with
    | Some l => if l <? b then insert_new ob_key (cutover_row now machine m l b) (usage_outbox db)
                else usage_outbox db
    | None => usage_outbox db end) as Hout.
  { unfold db'. simpl. unfold closeLegacyPrefix in E. injection E as <- <-. rewrite Hls.
    destruct (legacy_start m) as [l|]; [|done]. rewrite Hrow. by destruct (l <? _). }
  assert (∀ id, id ≠ machine → machines db' !! id = machines db !! id) as Hoth.
  { intros id Hne. unfold db'. simpl. unfold closeLegacyPrefix in E. injection E as _ <-.
    simpl. rewrite lookup_alter_ne by done.
    destruct (legacy_start identity) as [l|]; [|done]. by destruct (l <? _). }
  constructor; [|exact Hmach| | |].
  - intros id. pose proof (Hstarted id) as Hs. destruct (decide (id = machine)) as [->|Hne].
    + destruct (legacy_start m) as [l|] eqn:El.
      2:{ apply (handed_empty machine db db' b); [done|done|by rewrite Hout|done|]. intros m0 l Hm0 Hl. congruence. }
      destruct (l <? b) eqn:Elt.
      2:{ apply (handed_empty machine db db' b); [done|done|by rewrite Hout|done|]. intros m0 l' Hm0 Hl'.
          assert (l' = l) as -> by congruence. specialize (Hlb l eq_refl). bool_simp. lia. }
      apply (handed_cut machine db db' now m l b); [done..|bool_simp; lia| |done]. rewrite Hout.
      destruct (insert_new_cases ob_key (cutover_row now machine m l b) (usage_outbox db))
        as [->|[-> (y & Hy & Hk)]]; [left|right].
      * rewrite rows_of_app. f_equal. apply (rows_of_own (cutover_row now machine m l b)).
      * split; [done|]. by exists y.
    + assert (rows_of id (usage_outbox db') = rows_of id (usage_outbox db)) as Hr.
      { rewrite Hout. destruct (legacy_start m) as [l|]; [|done]. destruct (l <? b); [|done].
        destruct (insert_new_cases ob_key (cutover_row now machine m l b) (usage_outbox db))
          as [->|[-> _]]; [|done].
        rewrite rows_of_app, (rows_of_other id), app_nil_r; [done|]. simpl. congruence. }
      destruct (started_cases (started db id)) as [Ex|Ex].
      * apply handed_metered; [done|by rewrite Hs|done|]. intros c. by apply Hoc.
      * apply handed_waiting; [done|by rewrite Hs|done|by rewrite Hoth].
  - intros id Hid. destruct (decide (id = machine)) as [->|Hne]; [left; by eexists|].
    left. revert Hid. unfold db'. simpl. by rewrite lookup_alter_ne, Hms.
  - intros Hnd. rewrite Hout. destruct (legacy_start m) as [l|]; [|done].
    destruct (l <? b); [|done]. by apply insert_new_NoDup.
  - assert (∃ new, usage_outbox db' = usage_outbox db ++ new ∧
      ∀ o, o ∈ new → ∃ l, o = cutover_row now machine m l b ∧ l < b) as (new & Hn & Hnew).
    { rewrite Hout. destruct (legacy_start m) as [l|]; [|exists []; rewrite app_nil_r; set_solver].
      destruct (l <? b) eqn:Elt; [|exists []; rewrite app_nil_r; set_solver].
      destruct (insert_new_cases ob_key (cutover_row now machine m l b) (usage_outbox db))
        as [->|[-> _]].
      - eexists. split; [done|]. intros o' Ho'. apply list_elem_of_singleton in Ho' as ->.
        exists l. split; [done|lia].
      - exists []. rewrite app_nil_r. set_solver. }
    exists new. split; [done|]. intros o' (l & -> & Hl)%Hnew.
    exists now, machine, m, l, b. split_and!; [done..|]. by rewrite Hm.
Qed.

Lemma handover_snapshot db db' machine identity :
  handover db db' → snapshot db machine identity → snapshot db' machine identity.
Proof.
  intros [He Hm _ _ _] (m & Hid & Hb & Hc).
  destruct (machines db' !! machine) as [m'|] eqn:Hm'.
  2:{ assert (billing_identity <$> (machines db' !! machine) = billing_identity <$> machines db !! machine)
        as Heq by by rewrite <- !lookup_fmap, Hm. rewrite Hm', Hid in Heq. done. }
  destruct (machines_lookup db db' machine m' Hm Hm') as (m0 & Hm0 & Hb').
  rewrite Hid in Hm0. injection Hm0 as <-. exists m'. split; [done|]. split; [congruence|].
  destruct (He machine) as [A B R|A B R C|? A B R|? ? ? ? A B ? ? ? R]; intros Hs; try congruence.
  rewrite Hm', Hid in C. apply (inj Some) in C. rewrite C. by apply Hc.
Qed.

(** Processing keeps the meter's row well formed. *)
Definition live_meter (db : MeterDb) (machine : string) : Prop :=
  ∃ st, meter_state db !! machine = Some st ∧ meter_wf st.

Lemma live_update_meter machine f db :
  (∀ st, meter_wf st → meter_wf (f st)) → live_meter db machine → live_meter (update_meter machine f db) machine.
Proof.
  intros Hf (st & Hst & Hwf). exists (f st). split; [by rewrite (update_meter_present _ _ _ st), lookup_insert_eq|].
  by apply Hf.
Qed.

Lemma live_same db db' machine :
  meter_state db' = meter_state db → live_meter db machine → live_meter db' machine.
Proof. intros Hm (st & Hst & Hwf). exists st. by rewrite Hm. Qed.

Lemma wf_quarantine now reason st : meter_wf st → meter_wf (quarantine_meter now reason st).
Proof. intros [Hr Hf]. constructor; [apply reasoned_quarantine|done]. Qed.

Lemma process_handover now machine identity st o db out db' :
  meter_inv db → o ∈ observations db → so_machine_id o = machine → so_sequence o = last_sequence st + 1 →
  snapshot db machine identity → meter_state db !! machine = Some st → meter_wf st →
  processObservation now machine identity st o db = Ok (out, db') →
  handover db db' ∧ live_meter db' machine ∧ meter_inv db'.
Proof.
  intros Hinv Hin Hown Hseq Hsnap Hst Hwf Hproc.
  pose proof Hsnap as (m0 & Hm0 & Hb0 & _).
  destruct (inv_process now machine identity st o db db' out m0) as (st1 & rt & eg & ps1 & Hinv' & Hf1 & Hp1); [done..|].
  assert (snapshot_priced db machine identity) as Hpriced by (intros m1 Hm1; congruence).
  pose proof (processed_covering _ _ _ _ _ _ _ _ _ _ _ Hp1 Hf1 (wf_reasoned st Hwf) Hst Hpriced) as Hcov.
  cut (handover db db' ∧ live_meter db' machine); [tauto|]. clear Hp1 Hf1 Hinv'. revert Hproc. unfold processObservation.
  assert (live_meter db machine) as Hlive by by exists st.
  destruct (anomaly_of identity st o) as [reason|] eqn:Ha.
  { intros [= <- <-]. split; [apply quiet_handover; [apply reject_quiet|done]|].
    unfold reject_observation, setQuarantined.
    apply live_update_meter; [intros st' [Hr Hf]; destruct (_ =? _); by constructor|].
    apply live_update_meter; [intros; by apply wf_quarantine|]. by apply (live_same db). }
  pose proof Hwf as [Hr Hf]. pose proof Ha as Hnone.
  apply anomaly_none_state, state_anomaly_none in Ha as (_ & _ & Hcases & _); [|done].
  destruct (String.eqb_spec (so_kind o) "start") as [Hk|Hk].
  { intros [= <- <-]. destruct (start_seen st) eqn:Hs; [naive_solver|].
    split.
    { apply accept_start_handover; [done..| |intros id b _; apply Hcov].
      by apply start_covers. }
    pose proof (closeLegacyPrefix_frame now machine identity (so_observed_at o) db) as Hframe.
    unfold accept_start. destruct (closeLegacyPrefix _ _ _ _ _) as [b db1].
    destruct Hframe as (_ & _ & Hms & _).
    apply live_update_meter; [|by apply (live_same db)].
    intros st' [Hr' Hf']. destruct (_ =? _); by constructor. }
  destruct (start_seen st) eqn:Hs; [|naive_solver]. intros Hd. split.
  - apply quiet_handover; [|done]. eapply accept_delta_quiet; [|exact Hd].
    unfold started. by rewrite Hst.
  - unfold accept_delta in Hd. destruct (coalesce _ _) as [start|]; [|done].
    apply result_bind_Ok in Hd as (segs & _ & Hd). set (ps := observation_projections _ _ _ _ _ _) in Hd.
    assert (∀ proj pe, live_meter (update_meter_at machine (last_sequence st)
      (advance_state o proj pe) (append_all ps db)) machine) as Hadv.
    { intros proj pe. destruct (append_all_parts ps db) as (_ & _ & Hms).
      exists (advance_state o proj pe st). split.
      - rewrite (update_meter_at_present _ _ _ st) by by rewrite Hms. by rewrite lookup_insert_eq.
      - by constructor. }
    destruct (String.eqb (so_kind o) "final"); [|by injection Hd as _ <-].
    destruct (String.eqb (so_quality o) "last_defensible"); injection Hd as _ <-.
    + unfold degrade_terminal, setQuarantined. apply live_update_meter; [intros; by apply wf_quarantine|].
      eapply live_same; [reflexivity|]. eapply live_same; [|apply Hadv]. done.
    + eapply live_same; [|apply Hadv]. done.
Qed.

Lemma drain_handover fuel now machine identity target p q db r db' :
  meter_inv db → snapshot db machine identity → live_meter db machine →
  drain fuel now machine identity target p q db = Ok (r, db') → handover db db'.
Proof.
  revert p q db. induction fuel as [|fuel IH]; intros p q db Hinv Hsnap (st & Hst & Hwf); [done|].
  simpl. rewrite Hst. destruct (next_pending _ _ _ _) as [o|] eqn:Hnext.
  2:{ intros [= _ <-]. reflexivity. }
  intros ([out db1] & Hp & Hd)%result_bind_Ok.
  apply next_pending_Some in Hnext as (Hin & Hown & _ & _ & Hseq).
  apply process_handover in Hp as (Hho & Hlive & Hinv'); [|done..].
  etransitivity; [exact Hho|]. pose proof (handover_snapshot _ _ _ _ Hho Hsnap).
  destruct (so_id o =? target); (eapply IH; [| | |exact Hd]); done.
Qed.

(** ** A batch *)

Lemma quarantineHost_quiet now hostId reason db : quiet db (quarantineHost now hostId reason db).
Proof. by apply same_parts_quiet. Qed.

Lemma refuse_quiet now hostId identity input key reason hostReason db :
  quiet db (refuse_input now hostId identity input key reason hostReason db).
Proof.
  unfold refuse_input, setQuarantined.
  etransitivity; [|apply quarantineHost_quiet].
  etransitivity; [|by apply update_meter_quiet]. by apply same_parts_quiet.
Qed.

Lemma refuse_covering now hostId identity input key reason hostReason db :
  covering db (refuse_input now hostId identity input key reason hostReason db).
Proof.
  unfold refuse_input, setQuarantined.
  etransitivity; [|by apply (covering_same (update_meter (machineId input) (quarantine_meter now reason)
    (exception (mkException key hostId (machineId input) (lease_id identity) (lease_generation identity)
       (Some (uuid_text (hostBootId input))) (Some (parse_dec (sequence input))) reason) db)))].
  etransitivity; [|by apply covering_update_meter]. by apply covering_same.
Qed.

Lemma refuse_handover now hostId identity input key reason hostReason db :
  handover db (refuse_input now hostId identity input key reason hostReason db).
Proof. apply quiet_handover; [apply refuse_quiet|apply refuse_covering]. Qed.

Lemma ensure_meter_handover identity input db :
  machines db !! machineId input = Some identity → meter_inv db →
  let '(st, db') := ensure_meter identity input db in
  handover db db' ∧ snapshot db' (machineId input) identity ∧ live_meter db' (machineId input).
Proof.
  intros Hm Hinv. unfold ensure_meter. destruct (meter_state db !! machineId input) as [st|] eqn:Hst.
  { split_and!; [reflexivity|by exists identity|]. exists st. split; [done|]. by eapply inv_wf. }
  set (db' := set_field _ _ _).
  assert (handover db db') as Hho.
  { apply quiet_handover; [constructor; try done|].
    - intros id. unfold started. simpl. destruct (decide (id = machineId input)) as [->|Hne].
      + by rewrite lookup_insert_eq, Hst.
      + by rewrite lookup_insert_ne.
    - intros id. simpl. destruct (decide (id = machineId input)) as [->|Hne].
      + intros _. right. by eexists.
      + rewrite lookup_insert_ne by done. auto.
    - intros id b (s & o & [Hs Hin Hso Ha Hp Hb]). exists s, o. constructor; try done. simpl.
      rewrite lookup_insert_ne; [done|]. intros <-. congruence. }
  split_and!; [done|eapply handover_snapshot; [done|by exists identity]|].
  exists (fresh_meter identity input). split; [apply lookup_insert_eq|]. constructor; [by intros []|done].
Qed.

Lemma finish_handover now hostId identity input dup p q db r q' db' :
  finish_input now hostId identity input dup p q db = Ok (r, q', db') → handover db db'.
Proof.
  unfold finish_input. intros H. apply quiet_handover; revert H.
  all: destruct q; simpl; (destruct (meter_state db !! machineId input) as [st|]; [|done]);
    destruct (_ <? _); intros [= _ _ <-]; first [by apply same_parts_quiet|by apply covering_same].
Qed.

Section batch.
Context (sha256 : string → string) (Date_parse : string → option Z).

Lemma store_handover hostId input stamps db :
  handover db (store_observation sha256 Date_parse hostId input stamps db).2.
Proof.
  unfold store_observation. destruct (find_stored _ _ _); [reflexivity|].
  apply quiet_handover; [by apply same_parts_quiet|].
  apply covering_frame; [done| |done|done]. intros o Ho. simpl. set_solver.
Qed.

Lemma ingest_one_handover now hostId stamps input db receipt q db' :
  meter_inv db → settled db → input_ok input →
  ingest_one sha256 Date_parse now hostId stamps input db = Ok (receipt, q, db') → handover db db'.
Proof.
  intros Hinv Hset Hok H. unfold ingest_one in H.
  apply result_bind_Ok in H as (identity & Hid & H).
  assert (machines db !! machineId input = Some identity) as Hm.
  { unfold load_identity in Hid. destruct (machines db !! _) as [m|]; [|done].
    destruct (identity_matches _ _ _); [congruence|done]. }
  pose proof (ensure_meter_handover identity input db Hm Hinv) as He.
  pose proof (ensure_meter_preserves identity input db ltac:(congruence)) as Hens.
  destruct (ensure_meter identity input db) as [st db1]. destruct He as (Hho & Hsnap & Hlive).
  destruct Hens as (Hpres & Hst1 & _). destruct (Hpres Hinv Hset) as (Hinv1 & Hset1 & _).
  etransitivity; [exact Hho|]. clear Hho.
  destruct (sequence_violation _ _ _ _).
  { injection H as _ _ <-. apply refuse_handover. }
  destruct (integrity_violation _ _ _ _).
  { injection H as _ _ <-. apply refuse_handover. }
  pose proof (store_handover hostId input stamps db1) as Hstore.
  pose proof (store_preserves sha256 Date_parse hostId input stamps db1 st Hinv1 Hset1 Hst1 Hok) as Hsp.
  assert (live_meter (store_observation sha256 Date_parse hostId input stamps db1).2 (machineId input)) as Hl2.
  { eapply live_same; [|exact Hlive]. unfold store_observation. by destruct (find_stored _ _ _). }
  destruct (store_observation _ _ _ _ _ _) as [[o dup] db2]. simpl in Hstore, Hl2. cbv beta iota in H.
  destruct Hsp as [Hinv2 _].
  etransitivity; [exact Hstore|].
  destruct (dup && _).
  { injection H as _ _ <-. apply refuse_handover. }
  apply result_bind_Ok in H as ([[p qq] db3] & Hd & Hf).
  etransitivity; [eapply drain_handover; [exact Hinv2|by eapply handover_snapshot|exact Hl2|exact Hd]|].
  by eapply finish_handover.
Qed.

Lemma ingest_loop_handover now hostId inputs : ∀ quarantined db receipts db',
  meter_inv db → settled db → Forall input_ok inputs.*1 →
  ingest_loop sha256 Date_parse now hostId quarantined inputs db = Ok (receipts, db') →
  handover db db'.
Proof.
  induction inputs as [|[input stamps] inputs IH]; intros quarantined db receipts db' Hi Hs Hok;
    simpl; inversion Hok; subst.
  { intros [= _ <-]. reflexivity. }
  destruct quarantined.
  - intros ([rs db1] & Hl & [= _ <-])%result_bind_Ok. by eapply IH.
  - intros ([[r q] db1] & Hone & H)%result_bind_Ok.
    apply result_bind_Ok in H as ([rs db2] & Hl & [= _ <-]).
    pose proof Hone as Hone'. apply ingest_one_handover in Hone'; [|done..].
    apply ingest_one_preserves in Hone as [Hp _]; [|done].
    destruct (Hp Hi Hs) as (Hi1 & Hs1 & _).
    etransitivity; [exact Hone'|]. by eapply IH.
Qed.

Lemma ingest_handover interval clock hostId generation inputs db receipts db' :
  meter_inv db → settled db →
  ingest sha256 Date_parse interval clock hostId generation inputs db = Ok (receipts, db') →
  handover db db'.
Proof.
  intros Hi Hs H. pose proof H as (Hok & h & db1 & _ & _ & Hc & Hl)%ingest_inv.
  unfold ingest in H. destruct (_ || _); [done|].
  apply result_bind_Ok in H as ([] & _ & H). destruct (hosts db !! hostId); [|done].
  destruct (negb (host_admits _ _)); [done|]. destruct (negb (cadence_valid _ _ _)); [done|].
  set (db0 := set_field hosts _ db) in H.
  assert (same_core db db0) as Hc0 by by constructor.
  transitivity db0; [by apply quiet_handover; [apply same_parts_quiet|apply covering_same]|].
  eapply ingest_loop_handover; [by eapply inv_same_core|by eapply settled_same_core|exact Hok|exact H].
Qed.
End batch.

Lemma closeHostLoss_handover now machine lease db periodEnd db' :
  closeHostLoss now machine lease db = Ok (periodEnd, db') → handover db db'.
Proof.
  unfold closeHostLoss.
  destruct (machines db !! machine) as [m|]; [|intros [= _ <-]; reflexivity].
  destruct (negb _); [intros [= _ <-]; reflexivity|].
  destruct (meter_state db !! machine) as [st|] eqn:Hst; [|intros [= _ <-]; reflexivity].
  destruct (start_seen st) eqn:Hs; simpl.
  2:{ intros [= _ <-]. by apply quiet_handover; [apply same_parts_quiet|apply covering_same]. }
  intros [= _ <-].
  set (db1 := if final_seen st then db else _).
  assert (quiet db db1) as H1.
  { unfold db1. destruct (final_seen st); [by apply same_parts_quiet|].
    etransitivity; [|by apply update_meter_quiet; intros st'; destruct (String.eqb _ _)].
    by apply same_parts_quiet. }
  assert (covering db db1) as H2.
  { unfold db1. destruct (final_seen st); [by apply covering_same|].
    etransitivity; [|by apply covering_update_meter; intros st'; destruct (String.eqb _ _)].
    by apply covering_same. }
  assert (billing_identity <$> machines (finalize_lost now machine lease (last_period_end st) db1)
    = billing_identity <$> machines db1) as H3 by apply finalize_lost_core.
  apply quiet_handover; [|etransitivity; [exact H2|by apply covering_same]].
  etransitivity; [exact H1|].
  assert (started db1 machine = true) as Hstarted.
  { rewrite (qt_started _ _ H1). unfold started. by rewrite Hst. }
  clearbody db1. constructor; try done.
  - intros id Hid. simpl. by rewrite lookup_alter_ne by (intros ->; congruence).
  - auto.
Qed.
