(* ===== verification/Lifecycle.v ===== *)
(** * Machine states

    src/apps/nehemiah/src/db/schema.ts: the states of the [machine_state]
    enumeration, and the state sets the queries of the control plane name. *)

From S2P Require Import Prelude Text.

Inductive MachineState :=
| Requested | Placing | Starting | Running | Stopping | Stopped | Failed | Lost.

#[export] Instance MachineState_eq_dec : EqDecision MachineState.
Proof. solve_decision. Defined.

Definition machineStates : list MachineState :=
  [Requested; Placing; Starting; Running; Stopping; Stopped; Failed; Lost].

Definition state_text (s : MachineState) : string :=
  match s with
  | Requested => "requested" | Placing => "placing" | Starting => "starting"
  | Running => "running" | Stopping => "stopping" | Stopped => "stopped"
  | Failed => "failed" | Lost => "lost"
  end.

(** [isMachineState] on a string *)
Definition isMachineState (value : string) : bool :=
  string_in value (map state_text machineStates).

Definition in_states (s : MachineState) (l : list MachineState) : bool :=
  existsb (λ t, bool_decide (t = s)) l.

(** [IN ('stopped', 'failed', 'lost')] *)
Definition terminal (s : MachineState) : bool := in_states s [Stopped; Failed; Lost].

(** [NOT IN ('requested', 'placing', 'stopped', 'failed', 'lost')]: the states
    that count against a quota. *)
Definition counted (s : MachineState) : bool :=
  negb (in_states s [Requested; Placing; Stopped; Failed; Lost]).

(** The order in which a machine moves through its states. *)
Definition rank (s : MachineState) : Z :=
  match s with
  | Requested => 0 | Placing => 1 | Starting => 2 | Running => 3 | Stopping => 4
  | Stopped | Failed | Lost => 5
  end.

(** Parsing back the text of a state. *)
Definition state_of_text (value : string) : option MachineState :=
  find (λ s, String.eqb (state_text s) value) machineStates.

(** * Lemmas *)

Lemma in_states_spec s l : in_states s l = true ↔ s ∈ l.
Proof.
  unfold in_states. rewrite existsb_exists. split.
  - intros (t & Ht & Hd). apply bool_decide_eq_true in Hd as ->. by apply list_elem_of_In.
  - intros Hs. exists s. split; [by apply list_elem_of_In|by apply bool_decide_eq_true].
Qed.

Lemma unplaced_rank s : in_states s [Requested; Placing] = true ↔ rank s <= 1.
Proof. destruct s; simpl; (split; [done || intros; lia|done || lia]). Qed.

Lemma terminal_rank s : terminal s = true ↔ rank s = 5.
Proof. destruct s; simpl; split; done. Qed.

Lemma rank_last s : rank s <= 5.
Proof. by destruct s. Qed.

Lemma terminal_not_counted s : terminal s = true → counted s = false.
Proof. by destruct s. Qed.

(** The text of a state identifies it, and [isMachineState] accepts exactly
    the texts of states. *)
Theorem state_text_roundtrip value s :
  state_of_text value = Some s ↔ value = state_text s.
Proof.
  split.
  - intros [_ H]%find_some. by apply String.eqb_eq in H.
  - intros ->. by destruct s.
Qed.
