(* ===== verification/Billing.v ===== *)
(** * Billing admission

    src/apps/nehemiah/src/billing/admission.ts and rates.ts: the projection of
    an organization's cost from its durable usage and commitments, and the
    spend cap that new commitments must fit under.

    PostgreSQL's [numeric] is an exact decimal: a coefficient and a number of
    fractional digits.  Only a division rounds, as [Numeric.numeric_div] does. *)

From Stdlib Require Import QArith Qround Lqa.
From S2P Require Import Prelude Text Numeric Lifecycle.
Open Scope Z_scope.

(** ** Rates *)

Inductive MeterDimension :=
| vcpu_seconds | gib_seconds | storage_gib_hours | egress_bytes | inference_units.

#[export] Instance MeterDimension_eq_dec : EqDecision MeterDimension.
Proof. solve_decision. Defined.

Definition meterDimensions : list MeterDimension :=
  [vcpu_seconds; gib_seconds; storage_gib_hours; egress_bytes; inference_units].

Record Rate := mkRate {
  rate_dimension : MeterDimension;
  unitPriceMicros : Z;
  rate_unit : string
}.

Definition privateBetaRates : list Rate :=
  [mkRate vcpu_seconds 0 "vCPU-second"; mkRate gib_seconds 0 "GiB-second";
   mkRate storage_gib_hours 0 "GiB-hour"; mkRate egress_bytes 0 "byte";
   mkRate inference_units 0 "provider unit"].

Definition microsPerCent : Z := 10000.
Definition mebibytesPerGibibyte : Z := 1024.
Definition bytesPerGibibyteHour : Z := 1073741824 * 3600.

Inductive BillingCode := billing_delinquent | billing_plan_unavailable | spend_cap_exceeded.

Inductive BillingError :=
| BillingAdmissionRejected (code : BillingCode)
| BillingConfiguration (message : string).

(** The constructor's rate table: no duplicates, no negative price, no missing
    dimension. *)
Fixpoint configure (rates : list Rate) (configured : list (MeterDimension * Z))
    : result BillingError (list (MeterDimension * Z)) :=
  match rates with
  | [] => Ok configured
  | r :: rates =>
      if existsb (λ kv, bool_decide (kv.1 = rate_dimension r)) configured
         || (unitPriceMicros r <? 0)
      then Err (BillingConfiguration "billing rate configuration is invalid")
      else configure rates (configured ++ [(rate_dimension r, unitPriceMicros r)])
  end.

Definition rate_of (configured : list (MeterDimension * Z)) (d : MeterDimension) : option Z :=
  option_map snd (find (λ kv, bool_decide (kv.1 = d)) configured).

Record BillingAdmissionPolicy := mkPolicy {
  bp_rates : MeterDimension → Z;
  bp_plan : string
}.

Definition newPolicy (rates : list Rate) (plan : string)
    : result BillingError BillingAdmissionPolicy :=
  configured ← configure rates [];
  if forallb (λ d, match rate_of configured d with Some _ => true | None => false end)
       meterDimensions
  then Ok (mkPolicy (λ d, default 0 (rate_of configured d)) plan)
  else Err (BillingConfiguration "billing rate is missing").

(** ** Decimal quantities *)

Record numeric := mkNumeric {
  coefficient : Z;
  scale : nat
}.

Definition pow10 (n : nat) : Z := 10 ^ Z.of_nat n.

(** [n] decimal digits of [z], most significant first. *)
Fixpoint digits (n : nat) (z : Z) : list ascii :=
  match n with
  | O => []
  | S n => digits n (z / 10) ++ [ascii_of_N (Z.to_N (48 + z mod 10))]
  end.

(** The text PostgreSQL prints for a non-negative [numeric]. *)
Definition numeric_text (q : numeric) : string :=
  let whole := pretty (coefficient q / pow10 (scale q)) in
  match scale q with
  | O => whole
  | n => whole +:+ "." +:+ string_of_list_ascii (digits n (coefficient q mod pow10 n))
  end.

Fixpoint span_digits (l : list ascii) : list ascii * list ascii :=
  match l with
  | c :: l' => if digit c then let '(a, b) := span_digits l' in (c :: a, b) else ([], l)
  | [] => ([], [])
  end.

(** [/^(\d+)(?:\.(\d+))?$/]: the numerator and the power of ten under it. *)
Definition decimal (value : string) : result BillingError (Z * Z) :=
  let '(whole, rest) := span_digits (list_ascii_of_string value) in
  let error := Err (BillingConfiguration "billing quantity is not a non-negative decimal") in
  match whole, rest with
  | [], _ => error
  | _, [] => Ok (parse_digits whole, 1)
  | _, c :: frac =>
      match span_digits frac with
      | (_ :: _, []) =>
          if Ascii.eqb c "." then Ok (parse_digits (whole ++ frac), pow10 (length frac))
          else error
      | _ => error
      end
  end.

Inductive quantity :=
| QText (value : string)
| QBig (value : Z).

Definition parse_quantity (q : quantity) : result BillingError (Z * Z) :=
  match q with
  | QText value => decimal value
  | QBig value => Ok (value, 1)
  end.

Definition ceilingPrice (q : quantity) (rate divisor : Z) : result BillingError Z :=
  if (rate <? 0) || (divisor <? 1)
  then Err (BillingConfiguration "billing rate configuration is invalid")
  else
    '(num, den) ← parse_quantity q;
    if num <? 0 then Err (BillingConfiguration "billing commitment cannot be negative")
    else
      let numerator := num * rate in
      let denominator := den * divisor in
      Ok (if numerator =? 0 then 0 else (numerator + denominator - 1) / denominator).

(** ** Numeric aggregates *)

Definition nadd (a b : numeric) : numeric :=
  let n := Nat.max (scale a) (scale b) in
  mkNumeric (coefficient a * pow10 (n - scale a) + coefficient b * pow10 (n - scale b)) n.
Definition nscale (k : Z) (a : numeric) : numeric := mkNumeric (k * coefficient a) (scale a).
Definition nzero : numeric := mkNumeric 0 0.
Definition nsum (l : list numeric) : numeric := foldr nadd nzero l.

(** [GREATEST(EXTRACT(EPOCH FROM (b - a)), 0)] of two instants in milliseconds:
    seconds with six fractional digits. *)
Definition epoch_between (a b : Z) : numeric := mkNumeric (Z.max 0 (b - a) * 1000) 6.
(** [x / 1024] *)
Definition div1024 (a : numeric) : numeric :=
  let '(c, s) := numeric_div (coefficient a) (Z.of_nat (scale a)) 1024 0 in mkNumeric c (Z.to_nat s).

(** ** Tables *)

Record BillingAccount := mkAccount {
  ac_plan : string;
  spend_cap_cents : option Z;
  delinquent_at : option Z
}.

Record UsageEvent := mkUsage {
  us_organization : string;
  us_machine : option string;
  us_dimension : MeterDimension;
  us_quantity : numeric;
  us_period_end : Z
}.

Record OutboxEntry := mkOutboxEntry {
  ox_organization : string;
  ox_machine : string;
  ox_vcpus : Z;
  ox_memory_mb : Z;
  ox_period_start : Z;
  ox_period_end : Z;
  ox_processed_at : option Z
}.

(** The columns of [machines] and of its extend operations the commitment query
    reads. *)
Record CommitmentMachine := mkCommitment {
  cm_id : string;
  cm_organization : string;
  cm_vcpus : Z;
  cm_memory_mb : Z;
  cm_state : MachineState;
  cm_expires_at : Z;
  cm_extend_targets : list Z;
  cm_created_at : Z;
  cm_placed_at : option Z;
  cm_started_at : option Z;
  cm_stopped_at : option Z;
  cm_usage_finalized_at : option Z
}.

Record CommitmentVolume := mkCommitmentVolume {
  cv_organization : string;
  cv_size_limit_bytes : Z;
  cv_expires_at : Z;
  cv_deleted_at : option Z
}.

Record BillingTables := mkBillingTables {
  bt_accounts : gmap string BillingAccount;
  bt_usage : list UsageEvent;
  bt_outbox : list OutboxEntry;
  bt_volumes : list CommitmentVolume
}.

Record BillingCommitmentDelta := mkDelta {
  vcpuSeconds : Z;
  memoryMebibyteSeconds : Z;
  storageByteSeconds : Z
}.

Definition unprocessed (org : string) (o : OutboxEntry) : bool :=
  String.eqb (ox_organization o) org &&
  match ox_processed_at o with None => true | Some _ => false end.

(** The rows of [durable_usage] in one dimension. *)
Definition usage_quantities (org : string) (t : BillingTables) (d : MeterDimension)
    : list numeric :=
  map us_quantity (List.filter (λ e, String.eqb (us_organization e) org &&
                                     bool_decide (us_dimension e = d)) (bt_usage t)) ++
  let pending := List.filter (unprocessed org) (bt_outbox t) in
  match d with
  | vcpu_seconds =>
      map (λ o, nscale (ox_vcpus o) (epoch_between (ox_period_start o) (ox_period_end o)))
        pending
  | gib_seconds =>
      map (λ o, div1024 (nscale (ox_memory_mb o)
                  (epoch_between (ox_period_start o) (ox_period_end o)))) pending
  | _ => []
  end.

(** [GROUP BY dimension]: one row per dimension that occurs. *)
Definition usage_rows (org : string) (t : BillingTables) : list (MeterDimension * string) :=
  concat (map (λ d, match usage_quantities org t d with
                    | [] => []
                    | qs => [(d, numeric_text (nsum qs))]
                    end) meterDimensions).

Definition maximum (l : list Z) : option Z :=
  foldr (λ x acc, Some (match acc with Some y => Z.max x y | None => x end)) None l.

(** [max(period_end)] of the durable usage of a machine in one dimension. *)
Definition usage_through (t : BillingTables) (m : CommitmentMachine) (d : MeterDimension)
    : option Z :=
  maximum
    (map us_period_end (List.filter (λ e,
       bool_decide (us_machine e = Some (cm_id m)) &&
       String.eqb (us_organization e) (cm_organization m) &&
       bool_decide (us_dimension e = d)) (bt_usage t)) ++
     map ox_period_end (List.filter (λ o,
       String.eqb (ox_machine o) (cm_id m) && unprocessed (cm_organization m) o)
       (bt_outbox t))).

Definition commits (org : string) (m : CommitmentMachine) : bool :=
  String.eqb (cm_organization m) org &&
  (negb (in_states (cm_state m) [Requested; Placing; Stopped; Failed; Lost]) ||
   (terminal (cm_state m) &&
    match cm_usage_finalized_at m with None => true | Some _ => false end)).

Definition committed_until (m : CommitmentMachine) : Z :=
  match maximum (cm_extend_targets m) with
  | Some target => Z.max (cm_expires_at m) target
  | None => cm_expires_at m
  end.

(** The seconds a machine still owes in one dimension: what its lease still
    commits and what it used since the last durable usage. *)
Definition owed_seconds (now : Z) (t : BillingTables) (m : CommitmentMachine)
    (d : MeterDimension) : numeric :=
  let through := default (cm_created_at m)
    (coalesce (usage_through t m d) (coalesce (cm_started_at m) (cm_placed_at m))) in
  nadd (if terminal (cm_state m) then nzero else epoch_between now (committed_until m))
       (epoch_between through (default now (cm_stopped_at m))).

Definition vcpu_commitment (now : Z) (org : string) (ms : list CommitmentMachine)
    (t : BillingTables) : numeric :=
  nsum (map (λ m, nscale (cm_vcpus m) (owed_seconds now t m vcpu_seconds))
          (List.filter (commits org) ms)).

Definition memory_commitment (now : Z) (org : string) (ms : list CommitmentMachine)
    (t : BillingTables) : numeric :=
  nsum (map (λ m, nscale (cm_memory_mb m) (owed_seconds now t m gib_seconds))
          (List.filter (commits org) ms)).

Definition storage_commitment (now : Z) (org : string) (t : BillingTables) : numeric :=
  nsum (map (λ v, nscale (cv_size_limit_bytes v) (epoch_between now (cv_expires_at v)))
    (List.filter (λ v, String.eqb (cv_organization v) org &&
                       match cv_deleted_at v with None => true | Some _ => false end &&
                       (now <? cv_expires_at v)) (bt_volumes t))).

(** ** Admission *)

(** The priced terms in the order of the code. *)
Definition cost_terms (policy : BillingAdmissionPolicy) (now : Z) (org : string)
    (additional : BillingCommitmentDelta) (ms : list CommitmentMachine) (t : BillingTables)
    : list (quantity * Z * Z) :=
  let rate := bp_rates policy in
  map (λ row, (QText row.2, rate row.1, 1)) (usage_rows org t) ++
  [(QText (numeric_text (vcpu_commitment now org ms t)), rate vcpu_seconds, 1);
   (QText (numeric_text (memory_commitment now org ms t)), rate gib_seconds,
    mebibytesPerGibibyte);
   (QText (numeric_text (storage_commitment now org t)), rate storage_gib_hours,
    bytesPerGibibyteHour);
   (QBig (vcpuSeconds additional), rate vcpu_seconds, 1);
   (QBig (memoryMebibyteSeconds additional), rate gib_seconds, mebibytesPerGibibyte);
   (QBig (storageByteSeconds additional), rate storage_gib_hours, bytesPerGibibyteHour)].

(** The [projectedMicros +=] chain: every term rounded up on its own. *)
Fixpoint project (terms : list (quantity * Z * Z)) (projectedMicros : Z)
    : result BillingError Z :=
  match terms with
  | [] => Ok projectedMicros
  | (q, rate, divisor) :: terms =>
      price ← ceilingPrice q rate divisor;
      project terms (projectedMicros + price)
  end.

Definition enforce (policy : BillingAdmissionPolicy) (now : Z) (org : string)
    (additional : BillingCommitmentDelta) (ms : list CommitmentMachine) (t : BillingTables)
    : result BillingError unit :=
  match bt_accounts t !! org with
  | None => Ok ()
  | Some account =>
      match delinquent_at account with
      | Some _ => Err (BillingAdmissionRejected billing_delinquent)
      | None =>
          if negb (String.eqb (ac_plan account) (bp_plan policy))
          then Err (BillingAdmissionRejected billing_plan_unavailable)
          else
            match spend_cap_cents account with
            | None => Ok ()
            | Some cap =>
                projectedMicros ← project (cost_terms policy now org additional ms t) 0;
                if cap * microsPerCent <? projectedMicros
                then Err (BillingAdmissionRejected spend_cap_exceeded)
                else Ok ()
            end
      end
  end.

(** ** The interface the admission paths use

    Schedulers and repositories only see that a commitment is admitted or
    rejected for the tables they hold, and that admission is monotone. *)

Definition delta_le (a b : BillingCommitmentDelta) : Prop :=
  0 <= vcpuSeconds a <= vcpuSeconds b ∧
  0 <= memoryMebibyteSeconds a <= memoryMebibyteSeconds b ∧
  0 <= storageByteSeconds a <= storageByteSeconds b.

Class BillingAdmission (S : Type) := {
  admits : Z → string → BillingCommitmentDelta → S → result BillingError unit;
  admit_mono : ∀ now org d d' s,
    delta_le d' d → admits now org d s = Ok () → admits now org d' s = Ok ()
}.

(** * Lemmas *)

Lemma pow10_pos n : 0 < pow10 n.
Proof. unfold pow10. apply Z.pow_pos_nonneg; lia. Qed.

Lemma pow10_S n : pow10 (S n) = 10 * pow10 n.
Proof. unfold pow10. rewrite Nat2Z.inj_succ, Z.pow_succ_r by lia. done. Qed.

Lemma parse_digits_snoc l c : parse_digits (l ++ [c]) = parse_digits l * 10 + digit_value c.
Proof. unfold parse_digits. by rewrite foldl_app. Qed.

Lemma parse_digits_app l1 l2 :
  parse_digits (l1 ++ l2) = parse_digits l1 * pow10 (length l2) + parse_digits l2.
Proof.
  induction l2 as [|c l2 IH] using rev_ind.
  - rewrite app_nil_r. unfold pow10, parse_digits. simpl. lia.
  - rewrite app_assoc, !parse_digits_snoc, IH, length_app.
    replace (length l2 + length [c])%nat with (S (length l2)) by (simpl; lia).
    rewrite pow10_S. ring.
Qed.

Lemma digit_char_value d :
  0 <= d < 10 →
  digit (ascii_of_N (Z.to_N (48 + d))) = true ∧
  digit_value (ascii_of_N (Z.to_N (48 + d))) = d.
Proof.
  intros Hd. assert (d = 0 ∨ d = 1 ∨ d = 2 ∨ d = 3 ∨ d = 4 ∨ d = 5 ∨ d = 6 ∨ d = 7 ∨
    d = 8 ∨ d = 9) as H by lia.
  repeat destruct H as [->|H]; [done..|]. by subst.
Qed.

Lemma digits_spec n : ∀ z, 0 <= z →
  parse_digits (digits n z) = z mod pow10 n ∧ length (digits n z) = n ∧
  Forall (λ c, digit c = true) (digits n z).
Proof.
  induction n as [|n IH]; intros z Hz; cbn [digits].
  - unfold pow10. simpl. rewrite Z.mod_1_r. split_and!; [done..|constructor].
  - destruct (IH (z / 10)) as (Hp & Hl & Hd); [by apply Z.div_pos|].
    pose proof (Z.mod_pos_bound z 10 ltac:(lia)) as Hb.
    destruct (digit_char_value (z mod 10) Hb) as [Hdig Hval].
    split_and!.
    + rewrite parse_digits_snoc, Hp, Hval, pow10_S.
      pose proof (pow10_pos n). rewrite Z.rem_mul_r by lia. lia.
    + rewrite length_app, Hl. simpl. lia.
    + apply Forall_app. split; [done|]. by repeat constructor.
Qed.

Lemma pretty_N_char_spec x :
  (x < 10)%N → digit_value (pretty_N_char x) = Z.of_N x.
Proof.
  intros Hx. assert (x = 0 ∨ x = 1 ∨ x = 2 ∨ x = 3 ∨ x = 4 ∨ x = 5 ∨ x = 6 ∨ x = 7 ∨
    x = 8 ∨ x = 9)%N as H by lia.
  repeat destruct H as [->|H]; [done..|]. by subst.
Qed.

Lemma pretty_N_go_digits x : ∀ s, (0 < x)%N →
  ∃ ds, list_ascii_of_string (pretty_N_go x s) = ds ++ list_ascii_of_string s ∧
        Forall (λ c, digit c = true) ds ∧ parse_digits ds = Z.of_N x ∧ ds ≠ [].
Proof.
  induction (N.lt_wf_0 x) as [x _ IH]. intros s Hx. rewrite pretty_N_go_step by done.
  assert (x mod 10 < 10)%N as Hm by (apply N.mod_lt; lia).
  assert (x = 10 * (x / 10) + x mod 10)%N as Hdm by (apply N.div_mod; lia).
  destruct (N.eq_dec (x / 10)%N 0%N) as [Hz|Hz].
  - rewrite Hz, pretty_N_go_0. exists [pretty_N_char (x mod 10)%N].
    split_and!; [done|by repeat constructor; apply pretty_N_char_digit| |done].
    unfold parse_digits. cbn [foldl]. rewrite pretty_N_char_spec by done. lia.
  - destruct (IH (x / 10)%N ltac:(apply N.div_lt; lia)
      (String (pretty_N_char (x mod 10)%N) s) ltac:(lia)) as (ds & Hl & Hd & Hp & _).
    exists (ds ++ [pretty_N_char (x mod 10)%N]). split_and!.
    + rewrite Hl. by rewrite <- app_assoc.
    + apply Forall_app. split; [done|]. by repeat constructor; apply pretty_N_char_digit.
    + rewrite parse_digits_snoc, Hp, pretty_N_char_spec by done. lia.
    + by destruct ds.
Qed.

(** The decimal text of a non-negative integer. *)
Lemma pretty_digits z :
  0 <= z → ∃ ds, list_ascii_of_string (pretty z) = ds ∧
    Forall (λ c, digit c = true) ds ∧ parse_digits ds = z ∧ ds ≠ [].
Proof.
  intros Hz. destruct z as [|p|p]; [|clear Hz|lia].
  - eexists. split_and!; [reflexivity|by repeat constructor|done|done].
  - change (pretty (Z.pos p)) with (pretty_N_go (Npos p) "").
    destruct (pretty_N_go_digits (Npos p) "" ltac:(lia)) as (ds & Hl & Hd & Hp & Hn).
    exists ds. rewrite Hl, app_nil_r. done.
Qed.

Lemma span_digits_app ds rest :
  Forall (λ c, digit c = true) ds →
  match rest with c :: _ => digit c = false | [] => True end →
  span_digits (ds ++ rest) = (ds, rest).
Proof.
  intros Hd Hr. induction Hd as [|c ds Hc Hd IH]; cbn [app span_digits].
  - destruct rest as [|c rest]; [done|]. cbn [span_digits]. by rewrite Hr.
  - by rewrite Hc, IH.
Qed.

Lemma list_ascii_of_string_of_list l : list_ascii_of_string (string_of_list_ascii l) = l.
Proof. induction l; simpl; congruence. Qed.

Lemma numeric_split q n :
  scale q = n → 0 <= coefficient q →
  0 <= coefficient q / pow10 n ∧ 0 <= coefficient q mod pow10 n < pow10 n ∧
  coefficient q = coefficient q / pow10 n * pow10 n + coefficient q mod pow10 n.
Proof.
  intros _ Hq. pose proof (pow10_pos n).
  pose proof (Z.div_mod (coefficient q) (pow10 n) ltac:(lia)).
  pose proof (Z.mod_pos_bound (coefficient q) (pow10 n) ltac:(lia)).
  pose proof (Z.div_pos (coefficient q) (pow10 n) Hq ltac:(lia)). lia.
Qed.

Lemma decimal_digits ds :
  Forall (λ c, digit c = true) ds → ds ≠ [] →
  ∀ value, list_ascii_of_string value = ds → decimal value = Ok (parse_digits ds, 1).
Proof.
  intros Hd Hn value Hv. unfold decimal. rewrite Hv.
  pose proof (span_digits_app ds [] Hd I) as H. rewrite app_nil_r in H. rewrite H.
  by destruct ds.
Qed.

Lemma decimal_fraction ds fs :
  Forall (λ c, digit c = true) ds → ds ≠ [] →
  Forall (λ c, digit c = true) fs → fs ≠ [] →
  ∀ value, list_ascii_of_string value = ds ++ "."%char :: fs →
  decimal value = Ok (parse_digits (ds ++ fs), pow10 (length fs)).
Proof.
  intros Hd Hn Hf Hfn value Hv. unfold decimal. rewrite Hv, span_digits_app by done.
  pose proof (span_digits_app fs [] Hf I) as H. rewrite app_nil_r in H. rewrite H.
  destruct ds; [done|]. by destruct fs.
Qed.

Lemma decimal_text q :
  0 <= coefficient q → decimal (numeric_text q) = Ok (coefficient q, pow10 (scale q)).
Proof.
  intros Hq. destruct (scale q) as [|n] eqn:Hs.
  - unfold numeric_text. rewrite Hs. unfold pow10. simpl Z.pow. rewrite Z.div_1_r.
    destruct (pretty_digits (coefficient q) Hq) as (ds & Hl & Hd & Hp & Hn).
    rewrite (decimal_digits ds Hd Hn _ Hl). by rewrite Hp.
  - destruct (numeric_split q (S n) Hs Hq) as (Hw & Hm & Heq).
    destruct (pretty_digits _ Hw) as (ds & Hl & Hd & Hp & Hn).
    destruct (digits_spec (S n) (coefficient q mod pow10 (S n)) ltac:(lia)) as (Hfp & Hfl & Hfd).
    set (fs := digits (S n) (coefficient q mod pow10 (S n))) in *.
    assert (list_ascii_of_string (numeric_text q) = ds ++ "."%char :: fs) as Hv.
    { unfold numeric_text. rewrite Hs. fold fs.
      rewrite list_ascii_app, Hl. f_equal.
      change ("." +:+ string_of_list_ascii fs) with (String "." (string_of_list_ascii fs)).
      simpl. by rewrite list_ascii_of_string_of_list. }
    rewrite (decimal_fraction ds fs Hd Hn Hfd) by (done || by destruct fs).
    rewrite parse_digits_app, Hp, Hfp, Hfl, Z.mod_small by lia. by rewrite <- Heq.
Qed.

(** The smallest number of micros that covers the exact price. *)
Definition covers (num den rate divisor p : Z) : Prop :=
  den * divisor * (p - 1) < num * rate <= den * divisor * p.

Lemma ceilingPrice_covers q rate divisor p num den :
  parse_quantity q = Ok (num, den) → 0 < den →
  ceilingPrice q rate divisor = Ok p →
  0 <= num ∧ 0 <= rate ∧ 0 < divisor ∧ 0 <= p ∧ covers num den rate divisor p.
Proof.
  intros Hq Hden. unfold ceilingPrice. rewrite Hq.
  destruct ((rate <? 0) || (divisor <? 1)) eqn:E; [done|]. cbn [mbind result_bind].
  destruct (num <? 0) eqn:E2; [done|]. bool_simp. intros [= <-]. unfold covers.
  assert (0 < den * divisor) by nia. assert (0 <= num * rate) by nia.
  destruct (num * rate =? 0) eqn:E3; bool_simp; [nia|].
  pose proof (ceil_div_spec (num * rate) (den * divisor) ltac:(lia)) as Hc.
  pose proof (ceil_div_nonneg (num * rate) (den * divisor) ltac:(lia) ltac:(lia)) as Hnn.
  unfold ceil_div in *. lia.
Qed.

Lemma decimal_den value num den :
  decimal value = Ok (num, den) → 0 < den.
Proof.
  unfold decimal. destruct (span_digits (list_ascii_of_string value)) as [whole rest].
  destruct whole; [done|]. destruct rest as [|c frac]; [intros [= _ <-]; done|].
  destruct (span_digits frac) as [[|d fr] [|]]; try done.
  case_match; [|done]. intros [= _ <-]. apply pow10_pos.
Qed.

Lemma parse_quantity_den q num den : parse_quantity q = Ok (num, den) → 0 < den.
Proof. destruct q as [value|z]; simpl; [apply decimal_den|intros [= _ <-]; done]. Qed.

(** ** Exact cost *)

Definition q_of (num den : Z) : Q := Qmake num (Z.to_pos den).

(** The exact price of a term, unrounded. *)
Definition exact_price (term : quantity * Z * Z) : Q :=
  let '(q, rate, divisor) := term in
  match parse_quantity q with
  | Ok (num, den) => q_of (num * rate) (den * divisor)
  | Err _ => 0
  end.

Definition exact_cost (terms : list (quantity * Z * Z)) : Q :=
  foldr (λ t acc, exact_price t + acc)%Q 0%Q terms.

Lemma ceilingPrice_exact q rate divisor p :
  ceilingPrice q rate divisor = Ok p →
  (0 <= exact_price (q, rate, divisor) <= inject_Z p)%Q.
Proof.
  intros H. unfold exact_price.
  destruct (parse_quantity q) as [[num den]|e] eqn:Hq.
  - pose proof (parse_quantity_den _ _ _ Hq) as Hden.
    destruct (ceilingPrice_covers _ _ _ _ _ _ Hq Hden H) as (Hn & Hr & Hd & Hp & _ & Hc).
    assert (0 < den * divisor) by nia.
    unfold q_of, Qle, inject_Z. simpl. rewrite Z2Pos.id by done. nia.
  - unfold ceilingPrice in H. rewrite Hq in H. by case_match.
Qed.

Lemma project_exact terms : ∀ acc p,
  project terms acc = Ok p →
  (inject_Z acc + exact_cost terms <= inject_Z p)%Q ∧ acc <= p.
Proof.
  induction terms as [|[[q rate] divisor] terms IH]; intros acc p; cbn [project].
  - intros [= <-]. simpl. split; [|lia]. rewrite Qplus_0_r. apply Qle_refl.
  - intros (price & Hprice & H)%result_bind_Ok.
    destruct (IH _ _ H) as [Hle Hacc]. pose proof (ceilingPrice_exact _ _ _ _ Hprice) as Hx.
    rewrite inject_Z_plus in Hle. cbn [exact_cost foldr]. fold (exact_cost terms).
    split; [lra|]. destruct Hx as [H0 H1].
    assert (0 <= inject_Z price)%Q as Hp by lra.
    change 0%Q with (inject_Z 0) in Hp. rewrite <- Zle_Qle in Hp. lia.
Qed.

(** ** The cost that is compared with the cap

    The price of each row on its own, at no rounding: events as recorded, pending
    intervals, what machines owe, volumes and the new commitment. *)

Definition qsum {A} (f : A → Q) (l : list A) : Q := foldr (λ x acc, f x + acc)%Q 0%Q l.

Definition qvalue (q : numeric) : Q := q_of (coefficient q) (pow10 (scale q)).

Definition seconds_between (a b : Z) : Q := (inject_Z (Z.max 0 (b - a)) * (1 # 1000))%Q.

Definition of_org (org : string) (e : UsageEvent) : bool := String.eqb (us_organization e) org.

Definition usage_cost (rate : MeterDimension → Z) (org : string) (t : BillingTables) : Q :=
  qsum (λ e, inject_Z (rate (us_dimension e)) * qvalue (us_quantity e))%Q
    (List.filter (of_org org) (bt_usage t)).

Definition pending_cost (rate : MeterDimension → Z) (org : string) (t : BillingTables) : Q :=
  qsum (λ o, let seconds := seconds_between (ox_period_start o) (ox_period_end o) in
             inject_Z (rate vcpu_seconds) * (inject_Z (ox_vcpus o) * seconds) +
             inject_Z (rate gib_seconds) * (inject_Z (ox_memory_mb o) * seconds * (1 # 1024)))%Q
    (List.filter (unprocessed org) (bt_outbox t)).

(** What a machine owes: the rest of its lease and its use since it was last
    recorded. *)
Definition owed (now : Z) (t : BillingTables) (m : CommitmentMachine) (d : MeterDimension) : Q :=
  ((if terminal (cm_state m) then 0 else seconds_between now (committed_until m)) +
   seconds_between (default (cm_created_at m)
     (coalesce (usage_through t m d) (coalesce (cm_started_at m) (cm_placed_at m))))
     (default now (cm_stopped_at m)))%Q.

Definition machine_cost (rate : MeterDimension → Z) (now : Z) (org : string) (ms : list CommitmentMachine)
    (t : BillingTables) : Q :=
  qsum (λ m, inject_Z (rate vcpu_seconds) * (inject_Z (cm_vcpus m) * owed now t m vcpu_seconds) +
             inject_Z (rate gib_seconds) * (inject_Z (cm_memory_mb m) * owed now t m gib_seconds * (1 # 1024)))%Q
    (List.filter (commits org) ms).

Definition live_volume (now : Z) (org : string) (v : CommitmentVolume) : bool :=
  String.eqb (cv_organization v) org && bool_decide (cv_deleted_at v = None) && (now <? cv_expires_at v).

Definition volume_cost (rate : MeterDimension → Z) (now : Z) (org : string) (t : BillingTables) : Q :=
  qsum (λ v, inject_Z (rate storage_gib_hours) *
             (inject_Z (cv_size_limit_bytes v) * seconds_between now (cv_expires_at v) / (1073741824 * 3600)))%Q
    (List.filter (live_volume now org) (bt_volumes t)).

Definition delta_cost (rate : MeterDimension → Z) (d : BillingCommitmentDelta) : Q :=
  (inject_Z (rate vcpu_seconds) * inject_Z (vcpuSeconds d) +
   inject_Z (rate gib_seconds) * (inject_Z (memoryMebibyteSeconds d) * (1 # 1024)) +
   inject_Z (rate storage_gib_hours) * (inject_Z (storageByteSeconds d) / (1073741824 * 3600)))%Q.

Definition total_cost (rate : MeterDimension → Z) (now : Z) (org : string) (additional : BillingCommitmentDelta)
    (ms : list CommitmentMachine) (t : BillingTables) : Q :=
  (usage_cost rate org t + pending_cost rate org t + machine_cost rate now org ms t +
   volume_cost rate now org t + delta_cost rate additional)%Q.

Definition rounding_slack (rate : MeterDimension → Z) (org : string) (t : BillingTables) : Q :=
  (inject_Z (rate gib_seconds) * (inject_Z (Z.of_nat (length (List.filter (unprocessed org) (bt_outbox t))))
   * (1 # 2000000)))%Q.

(** What the CHECK constraints of the tables say. *)
Record rows_nonneg (ms : list CommitmentMachine) (t : BillingTables) : Prop := mkRowsNonneg {
  rn_usage : ∀ e, e ∈ bt_usage t → 0 <= coefficient (us_quantity e);
  rn_outbox : ∀ o, o ∈ bt_outbox t → 0 <= ox_vcpus o ∧ 0 <= ox_memory_mb o;
  rn_machines : ∀ m, m ∈ ms → 0 <= cm_vcpus m ∧ 0 <= cm_memory_mb m;
  rn_volumes : ∀ v, v ∈ bt_volumes t → 0 <= cv_size_limit_bytes v
}.

(** ** Values of the database's numerics *)

Lemma q_of_div n d : 0 < d → (q_of n d == inject_Z n / inject_Z d)%Q.
Proof.
  intros Hd. unfold q_of. rewrite (Qmake_Qdiv n (Z.to_pos d)). by rewrite Z2Pos.id.
Qed.

Lemma inject_pos z : 0 < z → ¬ (inject_Z z == 0)%Q.
Proof. intros Hz H. unfold Qeq in H. simpl in H. lia. Qed.

Lemma pow10_nonzero n : ¬ (inject_Z (pow10 n) == 0)%Q.
Proof. apply inject_pos, pow10_pos. Qed.

Lemma qvalue_div q : (qvalue q == inject_Z (coefficient q) / inject_Z (pow10 (scale q)))%Q.
Proof. apply q_of_div, pow10_pos. Qed.

Lemma pow10_add a b : pow10 (a + b) = pow10 a * pow10 b.
Proof. unfold pow10. rewrite Nat2Z.inj_add, Z.pow_add_r by lia. done. Qed.

Lemma rescale c s n : (s <= n)%nat →
  (inject_Z (c * pow10 (n - s)) / inject_Z (pow10 n) == inject_Z c / inject_Z (pow10 s))%Q.
Proof.
  intros Hs. replace n with ((n - s) + s)%nat at 2 by lia. rewrite pow10_add, !inject_Z_mult.
  field. split; apply pow10_nonzero.
Qed.

Lemma qvalue_add a b : (qvalue (nadd a b) == qvalue a + qvalue b)%Q.
Proof.
  rewrite !qvalue_div. simpl. rewrite inject_Z_plus.
  set (n := Nat.max (scale a) (scale b)).
  rewrite <- (rescale (coefficient a) (scale a) n), <- (rescale (coefficient b) (scale b) n) by lia.
  field. apply pow10_nonzero.
Qed.

Lemma qvalue_scale k a : (qvalue (nscale k a) == inject_Z k * qvalue a)%Q.
Proof. rewrite !qvalue_div. simpl. rewrite inject_Z_mult. field. apply pow10_nonzero. Qed.

Lemma qvalue_sum l : (qvalue (nsum l) == qsum qvalue l)%Q.
Proof. induction l as [|a l IH]; simpl; [done|]. by rewrite qvalue_add, IH. Qed.

Lemma qvalue_epoch a b : (qvalue (epoch_between a b) == seconds_between a b)%Q.
Proof.
  rewrite qvalue_div. unfold epoch_between, seconds_between. simpl. rewrite inject_Z_mult.
  change (inject_Z (pow10 6)) with 1000000%Q. change (inject_Z 1000) with 1000%Q. field.
Qed.

Lemma div_scale_ge c1 s1 c2 s2 : s1 <= 1000 → s1 <= div_scale c1 s1 c2 s2.
Proof. intros H. unfold div_scale. destruct (nbase_head c1 s1), (nbase_head c2 s2). lia. Qed.

(** The division rounds to no less than the digits it is given. *)
Lemma div1024_near a :
  0 <= coefficient a → (6 <= scale a <= 1000)%nat →
  0 <= coefficient (div1024 a) ∧
  (qvalue a * (1 # 1024) <= qvalue (div1024 a) + (1 # 2000000))%Q.
Proof.
  intros Hc Hs. unfold div1024, numeric_div.
  pose proof (div_scale_ge (coefficient a) (Z.of_nat (scale a)) 1024 0 ltac:(lia)) as Hr.
  set (r := div_scale _ _ _ _) in *. set (c := coefficient a) in *.
  set (k := pow10 (Z.to_nat r)). assert (0 < k) as Hk by apply pow10_pos.
  assert (10 ^ r = k) as Hpow by (unfold k, pow10; by rewrite Z2Nat.id by lia).
  assert (10 ^ Z.of_nat (scale a) = pow10 (scale a)) as Hsc by done. rewrite Hpow, Hsc.
  change (10 ^ 0) with 1. rewrite Z.mul_1_r.
  pose proof (pow10_pos (scale a)) as Hp. set (p := pow10 (scale a)) in *.
  assert (0 <= c * k) by nia.
  pose proof (round_half_near (c * k) (1024 * p) ltac:(lia) ltac:(lia)) as [_ Hnear].
  set (q := round_half (c * k) (1024 * p)) in *.
  split; [apply round_half_nonneg; lia|].
  rewrite !qvalue_div. simpl. fold p k c.
  assert (1000000 <= k) as Hk6.
  { unfold k, pow10. change 1000000 with (10 ^ 6). apply Z.pow_le_mono_r; lia. }
  assert (0 < inject_Z p)%Q as Hqp by (change 0%Q with (inject_Z 0); by rewrite <- Zlt_Qlt).
  assert (0 < inject_Z k)%Q as Hqk by (change 0%Q with (inject_Z 0); by rewrite <- Zlt_Qlt).
  assert (2 * (inject_Z c * inject_Z k) <= 2 * (1024 * inject_Z p) * inject_Z q + 1024 * inject_Z p)%Q as Hq.
  { change 2%Q with (inject_Z 2). change 1024%Q with (inject_Z 1024).
    rewrite <- !inject_Z_mult, <- inject_Z_plus, <- Zle_Qle. lia. }
  assert (1000000 <= inject_Z k)%Q as Hqk6 by (change 1000000%Q with (inject_Z 1000000); by rewrite <- Zle_Qle).
  apply (Qmult_le_r _ _ (inject_Z p * inject_Z k)); [by apply Qmult_lt_0_compat|].
  assert (inject_Z c / inject_Z p * (1 # 1024) * (inject_Z p * inject_Z k) == inject_Z c * inject_Z k * (1 # 1024))%Q
    as E1 by (field; by apply inject_pos).
  assert ((inject_Z q / inject_Z k + (1 # 2000000)) * (inject_Z p * inject_Z k)
    == inject_Z p * inject_Z q + (inject_Z p * inject_Z k) * (1 # 2000000))%Q
    as E2 by (field; by apply inject_pos).
  rewrite E1, E2. clear E1 E2.
  assert (inject_Z p * 1000000 <= inject_Z p * inject_Z k)%Q as Hpk by (apply Qmult_le_l; done).
  set (x := (inject_Z c * inject_Z k)%Q) in *. set (y := (inject_Z p * inject_Z k)%Q) in *.
  assert (2 * (1024 * inject_Z p) * inject_Z q == 2048 * (inject_Z p * inject_Z q))%Q as Hr2 by ring.
  rewrite Hr2 in Hq. set (z := (inject_Z p * inject_Z q)%Q) in *. clearbody x y z. lra.
Qed.

Lemma nadd_nonneg a b : 0 <= coefficient a → 0 <= coefficient b → 0 <= coefficient (nadd a b).
Proof.
  intros Ha Hb. simpl. pose proof (pow10_pos (scale a `max` scale b - scale a)).
  pose proof (pow10_pos (scale a `max` scale b - scale b)). nia.
Qed.

Lemma nsum_nonneg l : (∀ q, q ∈ l → 0 <= coefficient q) → 0 <= coefficient (nsum l).
Proof.
  induction l as [|a l IH]; intros Hl; [done|]. apply nadd_nonneg; [apply Hl; set_solver|apply IH; set_solver].
Qed.

Lemma epoch_nonneg a b : 0 <= coefficient (epoch_between a b).
Proof. simpl. lia. Qed.

Lemma nscale_nonneg k a : 0 <= k → 0 <= coefficient a → 0 <= coefficient (nscale k a).
Proof. simpl. nia. Qed.

Lemma owed_nonneg now t m d : 0 <= coefficient (owed_seconds now t m d).
Proof.
  apply nadd_nonneg; [destruct (terminal _); [done|]|]; apply epoch_nonneg.
Qed.

Lemma owed_value now t m d : (qvalue (owed_seconds now t m d) == owed now t m d)%Q.
Proof.
  unfold owed_seconds, owed. rewrite qvalue_add, qvalue_epoch. apply Qplus_comp; [|reflexivity].
  destruct (terminal _); [done|apply qvalue_epoch].
Qed.

(** ** The priced terms, row by row *)

Lemma qsum_app {A} (f : A → Q) l k : (qsum f (l ++ k) == qsum f l + qsum f k)%Q.
Proof. induction l as [|x l IH]; simpl; [ring|]. rewrite IH. ring. Qed.

Lemma qsum_map {A B} (f : B → Q) (g : A → B) l : qsum f (map g l) = qsum (λ x, f (g x)) l.
Proof. induction l as [|x l IH]; simpl; [done|]. by rewrite IH. Qed.

Lemma qsum_ext {A} (f g : A → Q) l : (∀ x, x ∈ l → f x == g x)%Q → (qsum f l == qsum g l)%Q.
Proof.
  induction l as [|x l IH]; intros Hl; simpl; [done|].
  rewrite (Hl x) by set_solver. by rewrite IH by set_solver.
Qed.

Lemma qsum_scale {A} (f : A → Q) (k : Q) l : (qsum (λ x, k * f x) l == k * qsum f l)%Q.
Proof. induction l as [|x l IH]; simpl; [ring|]. rewrite IH. ring. Qed.

Lemma qsum_scale_r {A} (f : A → Q) (k : Q) l : (qsum (λ x, f x * k) l == qsum f l * k)%Q.
Proof. induction l as [|x l IH]; simpl; [ring|]. rewrite IH. ring. Qed.

Lemma qsum_plus {A} (f g : A → Q) l : (qsum (λ x, f x + g x) l == qsum f l + qsum g l)%Q.
Proof. induction l as [|x l IH]; simpl; [ring|]. rewrite IH. ring. Qed.

Lemma exact_cost_app l k : (exact_cost (l ++ k) == exact_cost l + exact_cost k)%Q.
Proof. unfold exact_cost. apply (qsum_app exact_price). Qed.

Lemma exact_price_text q rate divisor :
  0 <= coefficient q → 0 < divisor →
  (exact_price (QText (numeric_text q), rate, divisor) == inject_Z rate * qvalue q / inject_Z divisor)%Q.
Proof.
  intros Hq Hd. unfold exact_price. simpl. rewrite (decimal_text q Hq).
  pose proof (pow10_pos (scale q)). rewrite q_of_div by nia. rewrite qvalue_div, !inject_Z_mult.
  field. split; apply inject_pos; [apply pow10_pos|done].
Qed.

Lemma exact_price_big z rate divisor :
  0 < divisor → (exact_price (QBig z, rate, divisor) == inject_Z rate * inject_Z z / inject_Z divisor)%Q.
Proof.
  intros Hd. unfold exact_price. simpl. rewrite q_of_div by lia. rewrite !inject_Z_mult.
  change (inject_Z 1) with 1%Q. field. by apply inject_pos.
Qed.

(** A rate that was used is not negative. *)
Lemma project_rates terms : ∀ acc p, project terms acc = Ok p → ∀ q rate divisor, (q, rate, divisor) ∈ terms → 0 <= rate.
Proof.
  induction terms as [|[[q0 rate0] div0] terms IH]; intros acc p; cbn [project]; [by intros _ ? ? ? ?%elem_of_nil|].
  intros (price & Hprice & H)%result_bind_Ok q rate divisor [[= -> -> ->]|Hin]%elem_of_cons; [|by eapply IH].
  unfold ceilingPrice in Hprice. destruct ((rate0 <? 0) || (div0 <? 1)) eqn:E; [done|]. by bool_simp.
Qed.

Lemma usage_quantities_nonneg org t ms d q :
  rows_nonneg ms t → q ∈ usage_quantities org t d → 0 <= coefficient q.
Proof.
  intros [Hu Ho _ _] [(e & -> & He)%list_elem_of_fmap|Hq]%elem_of_app.
  - apply list_elem_of_In, filter_In in He as [He%list_elem_of_In _]. by apply Hu.
  - assert (∀ o, o ∈ List.filter (unprocessed org) (bt_outbox t) → 0 <= ox_vcpus o ∧ 0 <= ox_memory_mb o) as Hp.
    { intros o H%list_elem_of_In. apply filter_In in H as [H%list_elem_of_In _]. by apply Ho. }
    destruct d; try (by apply elem_of_nil in Hq); apply list_elem_of_fmap in Hq as (o & -> & Hin).
    + apply nscale_nonneg; [by apply Hp|apply epoch_nonneg].
    + apply div1024_near; [apply nscale_nonneg; [by apply Hp|apply epoch_nonneg]|simpl; lia].
Qed.

Lemma usage_rows_cost rate org t ms :
  rows_nonneg ms t →
  (exact_cost (map (λ row, (QText row.2, rate row.1, 1%Z)) (usage_rows org t))
   == qsum (λ d, inject_Z (rate d) * qsum qvalue (usage_quantities org t d)) meterDimensions)%Q.
Proof.
  intros Hrows. unfold usage_rows.
  assert (∀ ds, (exact_cost (map (λ row, (QText row.2, rate row.1, 1%Z)) (concat (map (λ d,
    match usage_quantities org t d with [] => [] | qs => [(d, numeric_text (nsum qs))] end) ds)))
    == qsum (λ d, inject_Z (rate d) * qsum qvalue (usage_quantities org t d)) ds)%Q) as H; [|apply H].
  induction ds as [|d ds IH]; simpl; [done|]. rewrite map_app, exact_cost_app, IH. apply Qplus_comp; [|reflexivity].
  assert (∀ q, q ∈ usage_quantities org t d → 0 <= coefficient q) as Hq
    by (intros q; by apply (usage_quantities_nonneg org t ms)).
  destruct (usage_quantities org t d) as [|q qs] eqn:E; [simpl; ring|].
  cbn [map exact_cost foldr fst snd]. change (nadd q (nsum qs)) with (nsum (q :: qs)).
  rewrite exact_price_text by (done || by apply nsum_nonneg).
  rewrite qvalue_sum. change (inject_Z 1) with 1%Q. field.
Qed.

(** Summed by dimension or event by event. *)
Lemma usage_by_dimension rate org t :
  (qsum (λ d, inject_Z (rate d) * qsum qvalue (map us_quantity (List.filter (λ e,
     String.eqb (us_organization e) org && bool_decide (us_dimension e = d)) (bt_usage t)))) meterDimensions
   == usage_cost rate org t)%Q.
Proof.
  unfold usage_cost. induction (bt_usage t) as [|e l IH]; [simpl; ring|].
  unfold of_org in *. simpl in IH |- *. destruct (String.eqb (us_organization e) org); simpl; [|exact IH].
  rewrite <- IH. destruct (us_dimension e); simpl; ring.
Qed.

Lemma pending_le rate org t ms :
  rows_nonneg ms t → 0 <= rate gib_seconds →
  let pending := List.filter (unprocessed org) (bt_outbox t) in
  (pending_cost rate org t <=
   inject_Z (rate vcpu_seconds) * qsum qvalue (map (λ o, nscale (ox_vcpus o)
     (epoch_between (ox_period_start o) (ox_period_end o))) pending) +
   inject_Z (rate gib_seconds) * qsum qvalue (map (λ o, div1024 (nscale (ox_memory_mb o)
     (epoch_between (ox_period_start o) (ox_period_end o)))) pending) + rounding_slack rate org t)%Q.
Proof.
  intros Hrows Hrate pending. unfold pending_cost, rounding_slack. fold pending.
  assert (∀ o, o ∈ pending → 0 <= ox_memory_mb o) as Hp.
  { intros o [H%list_elem_of_In _]%list_elem_of_In%filter_In. by apply (rn_outbox ms t Hrows). }
  assert (0 <= inject_Z (rate gib_seconds))%Q as Hg by (change 0%Q with (inject_Z 0); by rewrite <- Zle_Qle).
  clearbody pending. induction pending as [|o l IH]; [simpl; change (inject_Z (Z.of_nat 0)) with 0%Q; lra|].
  specialize (IH ltac:(set_solver)). cbn [map qsum foldr length].
  rewrite Nat2Z.inj_succ, <- Z.add_1_r, inject_Z_plus. change (inject_Z 1) with 1%Q.
  rewrite qvalue_scale, qvalue_epoch.
  set (e := epoch_between (ox_period_start o) (ox_period_end o)).
  destruct (div1024_near (nscale (ox_memory_mb o) e)) as [_ Hd];
    [apply nscale_nonneg; [apply Hp; set_solver|apply epoch_nonneg]|simpl; lia|].
  rewrite qvalue_scale in Hd. unfold e in Hd at 1. rewrite qvalue_epoch in Hd.
  set (x := (inject_Z (ox_memory_mb o) * seconds_between _ _ * (1 # 1024))%Q) in *.
  set (y := qvalue (div1024 _)) in *.
  assert (inject_Z (rate gib_seconds) * x <= inject_Z (rate gib_seconds) * (y + (1 # 2000000)))%Q as Hm.
  { rewrite (Qmult_comm _ x), (Qmult_comm _ (y + _)). by apply Qmult_le_compat_r. }
  rewrite Qmult_plus_distr_r in Hm.
  unfold qsum in IH. set (g := inject_Z (rate gib_seconds)) in *. set (v := inject_Z (rate vcpu_seconds)) in *.
  rewrite !Qmult_plus_distr_r, Qmult_plus_distr_l, Qmult_plus_distr_r. lra.
Qed.

Lemma machines_cost (vcpus : CommitmentMachine → Z) d now org ms t :
  (∀ m, m ∈ ms → 0 <= vcpus m) →
  let q := nsum (map (λ m, nscale (vcpus m) (owed_seconds now t m d)) (List.filter (commits org) ms)) in
  0 <= coefficient q ∧
  (qvalue q == qsum (λ m, inject_Z (vcpus m) * owed now t m d) (List.filter (commits org) ms))%Q.
Proof.
  intros Hv q. split.
  - apply nsum_nonneg. intros x (m & -> & Hm)%list_elem_of_fmap.
    apply list_elem_of_In, filter_In in Hm as [Hm%list_elem_of_In _].
    apply nscale_nonneg; [by apply Hv|apply owed_nonneg].
  - unfold q. rewrite qvalue_sum, qsum_map. apply qsum_ext. intros m _. by rewrite qvalue_scale, owed_value.
Qed.

Lemma storage_value now org t ms :
  rows_nonneg ms t → 0 <= coefficient (storage_commitment now org t) ∧
  (qvalue (storage_commitment now org t)
   == qsum (λ v, inject_Z (cv_size_limit_bytes v) * seconds_between now (cv_expires_at v))
        (List.filter (live_volume now org) (bt_volumes t)))%Q.
Proof.
  intros Hrows. unfold storage_commitment.
  assert (List.filter (λ v, String.eqb (cv_organization v) org &&
      match cv_deleted_at v with None => true | Some _ => false end && (now <? cv_expires_at v)) (bt_volumes t)
    = List.filter (live_volume now org) (bt_volumes t)) as ->.
  { apply List.filter_ext. intros v. unfold live_volume. by destruct (cv_deleted_at v). }
  split.
  - apply nsum_nonneg. intros x (v & -> & Hv)%list_elem_of_fmap.
    apply list_elem_of_In, filter_In in Hv as [Hv%list_elem_of_In _].
    apply nscale_nonneg; [by apply (rn_volumes ms t Hrows)|apply epoch_nonneg].
  - rewrite qvalue_sum, qsum_map. apply qsum_ext. intros v _. by rewrite qvalue_scale, qvalue_epoch.
Qed.

(** The durable usage: what is recorded and what is pending. *)
Lemma usage_value rate org t :
  let pending := List.filter (unprocessed org) (bt_outbox t) in
  (qsum (λ d, inject_Z (rate d) * qsum qvalue (usage_quantities org t d)) meterDimensions
   == usage_cost rate org t +
   (inject_Z (rate vcpu_seconds) * qsum qvalue (map (λ o, nscale (ox_vcpus o)
     (epoch_between (ox_period_start o) (ox_period_end o))) pending) +
   inject_Z (rate gib_seconds) * qsum qvalue (map (λ o, div1024 (nscale (ox_memory_mb o)
     (epoch_between (ox_period_start o) (ox_period_end o)))) pending)))%Q.
Proof.
  intros pending. rewrite <- usage_by_dimension. unfold meterDimensions, usage_quantities. fold pending.
  cbn [qsum foldr]. fold (@qsum numeric). rewrite !app_nil_r.
  rewrite (qsum_app qvalue _ (map (λ o, nscale _ _) pending)), (qsum_app qvalue _ (map (λ o, div1024 _) pending)).
  ring.
Qed.

(** What is summed covers the total cost. *)
Lemma cost_terms_total policy now org additional ms t p :
  project (cost_terms policy now org additional ms t) 0 = Ok p → rows_nonneg ms t →
  (total_cost (bp_rates policy) now org additional ms t
   <= exact_cost (cost_terms policy now org additional ms t) + rounding_slack (bp_rates policy) org t)%Q.
Proof.
  intros Hproj Hrows. set (rate := bp_rates policy).
  assert (0 <= rate gib_seconds) as Hgib.
  { apply (project_rates _ _ _ Hproj (QBig (memoryMebibyteSeconds additional)) _ mebibytesPerGibibyte).
    unfold cost_terms. fold rate. set_solver. }
  pose proof (pending_le rate org t ms Hrows Hgib) as Hpend. cbv zeta in Hpend.
  unfold cost_terms. fold rate. rewrite exact_cost_app, (usage_rows_cost rate org t ms Hrows), usage_value.
  destruct (machines_cost cm_vcpus vcpu_seconds now org ms t) as [Hv1 Hv2]; [intros m Hm; by apply (rn_machines ms t Hrows)|].
  destruct (machines_cost cm_memory_mb gib_seconds now org ms t) as [Hm1 Hm2]; [intros m Hm; by apply (rn_machines ms t Hrows)|].
  destruct (storage_value now org t ms Hrows) as [Hs1 Hs2].
  unfold total_cost. cbn [exact_cost foldr]. unfold mebibytesPerGibibyte, bytesPerGibibyteHour.
  rewrite !exact_price_text, !exact_price_big by done.
  fold (vcpu_commitment now org ms t) in Hv2. fold (memory_commitment now org ms t) in Hm2.
  rewrite Hv2, Hm2, Hs2.
  assert (machine_cost rate now org ms t ==
    inject_Z (rate vcpu_seconds) * qsum (λ m, inject_Z (cm_vcpus m) * owed now t m vcpu_seconds) (List.filter (commits org) ms) +
    inject_Z (rate gib_seconds) * (qsum (λ m, inject_Z (cm_memory_mb m) * owed now t m gib_seconds)
      (List.filter (commits org) ms) * (1 # 1024)))%Q as ->
    by (unfold machine_cost; by rewrite qsum_plus, !qsum_scale, qsum_scale_r).
  assert (volume_cost rate now org t == inject_Z (rate storage_gib_hours) *
    (qsum (λ v, inject_Z (cv_size_limit_bytes v) * seconds_between now (cv_expires_at v))
      (List.filter (live_volume now org) (bt_volumes t)) / (1073741824 * 3600)))%Q as ->
    by (unfold volume_cost, Qdiv; by rewrite qsum_scale, qsum_scale_r).
  clear Hv1 Hv2 Hm1 Hm2 Hs1 Hs2.
  set (mv := qsum (λ m, _ * owed now t m vcpu_seconds)%Q _). set (mg := qsum (λ m, _ * owed now t m gib_seconds)%Q _).
  set (mc := qsum (λ v, _ * seconds_between now _)%Q _).
  set (pv := qsum qvalue (map (λ o, nscale _ _) _)) in *. set (pg := qsum qvalue (map (λ o, div1024 _) _)) in *.
  unfold delta_cost, Qdiv. change (/ inject_Z 1)%Q with 1%Q. change (/ inject_Z 1024)%Q with (1 # 1024)%Q.
  change (/ inject_Z (1073741824 * 3600))%Q with (1 # 3865470566400)%Q.
  change (/ (1073741824 * 3600))%Q with (1 # 3865470566400)%Q.
  set (sv := inject_Z (rate vcpu_seconds)) in *. set (sg := inject_Z (rate gib_seconds)) in *.
  set (ss := inject_Z (rate storage_gib_hours)). lra.
Qed.

(** ** Monotonicity *)

(** A term that costs no more: the same price, or a smaller commitment. *)
Inductive term_le : quantity * Z * Z → quantity * Z * Z → Prop :=
| term_same t : term_le t t
| term_smaller a a' rate divisor :
    0 <= a' <= a → term_le (QBig a', rate, divisor) (QBig a, rate, divisor).

Lemma ceilingPrice_mono a a' rate divisor p :
  0 <= a' <= a → ceilingPrice (QBig a) rate divisor = Ok p →
  ∃ p', ceilingPrice (QBig a') rate divisor = Ok p' ∧ p' <= p.
Proof.
  intros Ha H. unfold ceilingPrice in *. cbn [parse_quantity mbind result_bind] in *.
  destruct ((rate <? 0) || (divisor <? 1)) eqn:E; [done|].
  destruct (a <? 0) eqn:E2; [done|]. bool_simp. injection H as <-.
  destruct (a' <? 0) eqn:E3; bool_simp; [lia|]. eexists. split; [reflexivity|].
  assert (0 <= a' * rate <= a * rate) by nia.
  destruct (a' * rate =? 0) eqn:E4; destruct (a * rate =? 0) eqn:E5; bool_simp; try lia.
  - apply Z.div_pos; lia.
  - apply Z.div_le_mono; lia.
Qed.

Lemma project_mono terms terms' : Forall2 term_le terms' terms →
  ∀ acc acc' p, acc' <= acc → project terms acc = Ok p →
  ∃ p', project terms' acc' = Ok p' ∧ p' <= p.
Proof.
  induction 1 as [|t' [[q rate] divisor] terms' terms Ht _ IH]; intros acc acc' p Hacc;
    cbn [project].
  - intros [= <-]. eauto.
  - intros (price & Hprice & H)%result_bind_Ok.
    assert (∃ price', ceilingPrice t'.1.1 t'.1.2 t'.2 = Ok price' ∧ price' <= price)
      as (price' & Hprice' & Hle).
    { inversion Ht; subst; simpl; [eauto; exists price; split; [done|lia]|].
      by eapply ceilingPrice_mono. }
    destruct t' as [[q' rate'] divisor']. simpl in Hprice'. rewrite Hprice'.
    cbn [mbind result_bind]. apply (IH (acc + price)); [lia|done].
Qed.

Lemma cost_terms_mono policy now org d d' ms t :
  delta_le d' d →
  Forall2 term_le (cost_terms policy now org d' ms t) (cost_terms policy now org d ms t).
Proof.
  intros (Hv & Hm & Hs). unfold cost_terms. apply Forall2_app.
  - induction (usage_rows org t); simpl; constructor; [apply term_same|done].
  - repeat (constructor; [first [apply term_same|by apply term_smaller]|]). constructor.
Qed.

Lemma enforce_mono policy now org d d' ms t :
  delta_le d' d → enforce policy now org d ms t = Ok () →
  enforce policy now org d' ms t = Ok ().
Proof.
  intros Hd. unfold enforce. destruct (bt_accounts t !! org) as [a|]; [|done].
  destruct (delinquent_at a); [done|]. destruct (negb _); [done|].
  destruct (spend_cap_cents a) as [cap|]; [|done].
  intros (p & Hp & H)%result_bind_Ok.
  destruct (project_mono _ _ (cost_terms_mono policy now org d d' ms t Hd) 0 0 p)
    as (p' & Hp' & Hle); [lia|done|].
  rewrite Hp'. cbn [mbind result_bind].
  destruct (cap * microsPerCent <? p) eqn:E; [done|]. bool_simp.
  destruct (cap * microsPerCent <? p') eqn:E'; bool_simp; [lia|done].
Qed.

(** * Properties *)

(** The quantities PostgreSQL prints are read back exactly: the decimal
    parser returns the coefficient over the power of ten of its fraction. *)
Theorem decimal_numeric_text coeff sc :
  0 <= coeff → decimal (numeric_text (mkNumeric coeff sc)) = Ok (coeff, pow10 sc).
Proof. intros H. by apply (decimal_text (mkNumeric coeff sc)). Qed.

Lemma decimal_numeric_text_witness :
  decimal "12.000750" = Ok (12000750, 1000000).
Proof. apply (decimal_numeric_text 12000750 6). done. Defined.

(** C10: an admitted commitment keeps an organization with a spend cap under that
    cap: the exact price of every recorded event, every pending interval, what each
    live machine still owes, the volumes and the new commitment never exceeds the
    cap, but for the rounding of the database's division of pending memory time, at
    most half a unit of the sixth digit per interval. *)
Theorem admitted_cost_within_cap policy now org additional ms t account cap :
  enforce policy now org additional ms t = Ok () →
  bt_accounts t !! org = Some account → spend_cap_cents account = Some cap → rows_nonneg ms t →
  delinquent_at account = None ∧ ac_plan account = bp_plan policy ∧
  (total_cost (bp_rates policy) now org additional ms t
     <= inject_Z (cap * microsPerCent) + rounding_slack (bp_rates policy) org t)%Q.
Proof.
  unfold enforce. intros H Ha Hcap Hrows. rewrite Ha in H. destruct (delinquent_at account); [done|].
  destruct (String.eqb_spec (ac_plan account) (bp_plan policy)); [|done].
  rewrite Hcap in H. cbn [negb] in H. apply result_bind_Ok in H as (p & Hp & H).
  destruct (cap * microsPerCent <? p) eqn:E; [done|]. bool_simp.
  split_and!; [done|done|].
  pose proof (cost_terms_total policy now org additional ms t p Hp Hrows) as Htotal.
  apply project_exact in Hp as [Hp _].
  assert (inject_Z p <= inject_Z (cap * microsPerCent))%Q by (rewrite <- Zle_Qle; lia).
  change (inject_Z 0) with 0%Q in Hp. lra.
Qed.

(** A machine of 2 vCPUs with an hour left, an hour of usage on record and a cap
    of ten cents at 2 micros per vCPU-second. *)
Definition sample_policy : BillingAdmissionPolicy :=
  mkPolicy (λ d, match d with vcpu_seconds => 2 | _ => 0 end) "private_beta".
Definition sample_tables : BillingTables :=
  mkBillingTables {[ "org" := mkAccount "private_beta" (Some 10) None ]}
    [mkUsage "org" (Some "m") vcpu_seconds (mkNumeric 7200500000 6) 3600000] [] [].
Definition sample_machine : CommitmentMachine :=
  mkCommitment "m" "org" 2 1024 Running 7200000 [] 0 (Some 0) (Some 0) None None.

Lemma admitted_cost_within_cap_witness :
  enforce sample_policy 3600000 "org" (mkDelta 7200 0 0) [sample_machine] sample_tables = Ok ()
  ∧ (total_cost (bp_rates sample_policy) 3600000 "org" (mkDelta 7200 0 0) [sample_machine] sample_tables == 43201
     /\ total_cost (bp_rates sample_policy) 3600000 "org" (mkDelta 7200 0 0) [sample_machine] sample_tables
        <= inject_Z (10 * microsPerCent) + rounding_slack (bp_rates sample_policy) "org" sample_tables)%Q.
Proof.
  assert (enforce sample_policy 3600000 "org" (mkDelta 7200 0 0) [sample_machine]
            sample_tables = Ok ()) as H by by vm_compute.
  split; [exact H|]. split; [by vm_compute|].
  apply (admitted_cost_within_cap _ _ _ _ _ _ (mkAccount "private_beta" (Some 10) None) 10 H eq_refl eq_refl).
  constructor; [..|intros m Hm; apply list_elem_of_singleton in Hm as ->; simpl; lia|];
    unfold sample_tables; cbn [bt_usage bt_outbox bt_volumes].
  - intros e He. apply list_elem_of_singleton in He as ->. simpl. lia.
  - intros o Ho. inversion Ho.
  - intros v Hv. inversion Hv.
Defined.

(** Admission is monotone: whatever is admitted, any smaller commitment of
    the same organization is admitted too. *)
Theorem admission_monotone policy now org d d' ms t :
  delta_le d' d → enforce policy now org d ms t = Ok () →
  enforce policy now org d' ms t = Ok ().
Proof. apply enforce_mono. Qed.

Lemma admission_monotone_witness :
  enforce sample_policy 3600000 "org" (mkDelta 60 0 0) [sample_machine] sample_tables = Ok ().
Proof.
  apply (admission_monotone _ _ _ (mkDelta 7200 0 0)); [|by vm_compute].
  unfold delta_le. simpl. lia.
Defined.
