(* ===== verification/Fleet.v ===== *)
(** * The fleet tables

    The rows the machine repository, the scheduler and the reconciler of
    src/apps/nehemiah/src share: machines, hosts, templates, organizations,
    projects, extend and fork operations, machine events.  A machine row is
    grouped by what owns its columns: the identity an INSERT fixes, the
    placement, the lifecycle, the create claim, the reconcile claim and the
    usage checkpoint. *)

From S2P Require Import Prelude Text Capacity Lifecycle Billing.

(** ** Machines *)

Inductive NetworkMode := NetworkOff | NetworkAllowlist.

#[export] Instance NetworkMode_eq_dec : EqDecision NetworkMode.
Proof. solve_decision. Defined.

(** A normalised [NetworkPolicyDeclaration] *)
Record NetworkPolicyDeclaration := mkNetworkPolicy {
  np_mode : NetworkMode;
  np_hostnames : list string;
  np_cidrs : list string
}.

#[export] Instance NetworkPolicyDeclaration_eq_dec : EqDecision NetworkPolicyDeclaration.
Proof. solve_decision. Defined.

Definition networkOff : NetworkPolicyDeclaration := mkNetworkPolicy NetworkOff [] [].

(** Columns written by the INSERT and never updated. *)
Record Identity := mkIdentity {
  organization_id : string;
  project_id : string;
  lease_id : string;
  lease_generation : Z;
  idempotency_key : string;
  idempotency_request_hash : string;
  region_id : string;
  architecture : Architecture;
  template_name : option string;
  template_id : option string;
  source_oci_ref : option string;
  requested_ttl_seconds : Z;
  resources : Resources;
  network_policy : NetworkPolicyDeclaration;
  parent_machine_id : option string;
  fork_operation_id : option string;
  created_at : Z
}.

Record Placement := mkPlacement {
  host_id : option string;
  host_machine_id : option string;
  runtime_cohort_id : option string;
  source_sha256 : option string;
  placed_at : option Z;
  startup_deadline_at : option Z;
  reservation_released_at : option Z
}.
#[export] Instance Placement_eta : Settable Placement := λ r,
  mkPlacement (host_id r) (host_machine_id r) (runtime_cohort_id r) (source_sha256 r)
    (placed_at r) (startup_deadline_at r) (reservation_released_at r).

Record Life := mkLife {
  state : MachineState;
  state_reason : option string;
  ready : bool;
  started_at : option Z;
  ready_at : option Z;
  stopping_at : option Z;
  stopped_at : option Z;
  expires_at : Z
}.
#[export] Instance Life_eta : Settable Life := λ r,
  mkLife (state r) (state_reason r) (ready r) (started_at r) (ready_at r) (stopping_at r)
    (stopped_at r) (expires_at r).

(** [create_failure_status], [_code] and [_message] are written together. *)
Record Failure := mkFailure {
  f_status : Z;
  f_code : string;
  f_message : string
}.

Record CreateClaim := mkCreateClaim {
  create_claim_token : option string;
  create_claimed_until : option Z;
  create_failure : option Failure
}.
#[export] Instance CreateClaim_eta : Settable CreateClaim := λ r,
  mkCreateClaim (create_claim_token r) (create_claimed_until r) (create_failure r).

Record ReconcileClaim := mkReconcileClaim {
  reconcile_claim_token : option string;
  reconcile_claimed_until : option Z;
  reconcile_after : Z
}.
#[export] Instance ReconcileClaim_eta : Settable ReconcileClaim := λ r,
  mkReconcileClaim (reconcile_claim_token r) (reconcile_claimed_until r) (reconcile_after r).

Record UsageColumns := mkUsageColumns {
  usage_checkpoint_at : option Z;
  usage_finalized_at : option Z;
  usage_quarantined_at : option Z;
  usage_quarantine_reason : option string
}.
#[export] Instance UsageColumns_eta : Settable UsageColumns := λ r,
  mkUsageColumns (usage_checkpoint_at r) (usage_finalized_at r) (usage_quarantined_at r)
    (usage_quarantine_reason r).

Record MachineRow := mkMachine {
  ident : Identity;
  place : Placement;
  life : Life;
  claim : CreateClaim;
  recon : ReconcileClaim;
  usage : UsageColumns
}.
#[export] Instance MachineRow_eta : Settable MachineRow := λ r,
  mkMachine (ident r) (place r) (life r) (claim r) (recon r) (usage r).

Definition mstate (m : MachineRow) : MachineState := state (life m).

(** ** Hosts *)

Record HostRow := mkHost {
  h_address : string;
  h_region : string;
  h_architecture : Architecture;
  h_state : HostState;
  desired_state : string;
  credential_status : string;
  last_heartbeat_at : option Z;
  total : Resources;
  reserved : Resources;
  reported_vcpus : option Z;
  reported_memory_mb : option Z;
  reported_disk_mb : option Z;
  h_cohort_id : option string;
  python_sha256 : option string;
  desktop_sha256 : option string
}.
#[export] Instance HostRow_eta : Settable HostRow := λ r,
  mkHost (h_address r) (h_region r) (h_architecture r) (h_state r) (desired_state r)
    (credential_status r) (last_heartbeat_at r) (total r) (reserved r) (reported_vcpus r)
    (reported_memory_mb r) (reported_disk_mb r) (h_cohort_id r) (python_sha256 r)
    (desktop_sha256 r).

Definition radd (a b : Resources) : Resources :=
  mkResources (vcpus a + vcpus b) (memoryMb a + memoryMb b) (diskMb a + diskMb b).
Definition rscale (k : Z) (a : Resources) : Resources :=
  mkResources (k * vcpus a) (k * memoryMb a) (k * diskMb a).
(** [GREATEST(0, reserved - x)], column by column *)
Definition rsub0 (a b : Resources) : Resources :=
  mkResources (Z.max 0 (vcpus a - vcpus b)) (Z.max 0 (memoryMb a - memoryMb b))
    (Z.max 0 (diskMb a - diskMb b)).
Definition rzero : Resources := mkResources 0 0 0.

(** [LEAST(total - reserved, COALESCE(reported, total - reserved))] *)
Definition free_of (tot res : Z) (reported : option Z) : Z :=
  Z.min (tot - res) (default (tot - res) reported).

Definition host_free (h : HostRow) : Resources :=
  mkResources
    (free_of (vcpus (total h)) (vcpus (reserved h)) (reported_vcpus h))
    (free_of (memoryMb (total h)) (memoryMb (reserved h)) (reported_memory_mb h))
    (free_of (diskMb (total h)) (diskMb (reserved h)) (reported_disk_mb h)).

(** [last_heartbeat_at > now() - interval '30 seconds'] *)
Definition heartbeat_fresh (now : Z) (h : HostRow) : bool :=
  match last_heartbeat_at h with Some t => now - 30000 <? t | None => false end.

Definition accepts_work (now : Z) (h : HostRow) : bool :=
  bool_decide (h_state h = HostReady) && String.eqb (desired_state h) "active" &&
  String.eqb (credential_status h) "active" && heartbeat_fresh now h.

(** ** Tenants, templates, operations *)

Record Limits := mkLimits {
  max_machines : Z;
  max_resources : Resources
}.

Record ProjectRow := mkProject {
  p_organization : string;
  p_limits : Limits
}.

Record TemplateRow := mkTemplate {
  t_organization : string;
  t_project : string;
  t_checksum : string;
  t_host_template_name : option string;
  t_deleted_at : option Z
}.

Record ExtendRow := mkExtend {
  x_id : Z;
  x_organization : string;
  x_project : string;
  x_machine : string;
  x_key : string;
  x_request_hash : string;
  x_target_expires_at : Z;
  x_result_expires_at : option Z;
  x_completed_at : option Z
}.
#[export] Instance ExtendRow_eta : Settable ExtendRow := λ r,
  mkExtend (x_id r) (x_organization r) (x_project r) (x_machine r) (x_key r)
    (x_request_hash r) (x_target_expires_at r) (x_result_expires_at r) (x_completed_at r).

Inductive ForkState := ForkPending | ForkSucceeded | ForkFailed.

#[export] Instance ForkState_eq_dec : EqDecision ForkState.
Proof. solve_decision. Defined.

(** A row of [machine_fork_operations] with its [machine_fork_children]
    (machine and lease identifiers in ordinal order). *)
Record ForkRow := mkFork {
  k_organization : string;
  k_project : string;
  k_source_machine : string;
  k_source_host : string;
  k_source_host_machine : string;
  k_source_lease : string;
  k_key : string;
  k_request_hash : string;
  k_audit_operation : string;
  k_children : list (string * string);
  k_state : ForkState;
  k_created_at : Z;
  k_completed_at : option Z;
  k_failure : option Failure;
  k_recon : ReconcileClaim;
  k_cleanup : CreateClaim;
  k_cleanup_requested_at : option Z
}.
#[export] Instance ForkRow_eta : Settable ForkRow := λ r,
  mkFork (k_organization r) (k_project r) (k_source_machine r) (k_source_host r)
    (k_source_host_machine r) (k_source_lease r) (k_key r) (k_request_hash r)
    (k_audit_operation r) (k_children r) (k_state r) (k_created_at r) (k_completed_at r)
    (k_failure r) (k_recon r) (k_cleanup r) (k_cleanup_requested_at r).

Record MachineEvent := mkEvent {
  ev_key : string;
  ev_machine : string;
  ev_organization : string;
  ev_from : option MachineState;
  ev_to : MachineState;
  ev_reason : option string;
  ev_observed_by : string
}.

Record ForkAudit := mkForkAudit {
  fa_key : string;
  fa_operation : string;
  fa_outcome : string;
  fa_reason_code : option string
}.

Record FleetDb := mkFleet {
  machines : gmap string MachineRow;
  hosts : gmap string HostRow;
  templates : gmap string TemplateRow;
  ready_replicas : gset (string * string);
  organizations : gmap string Limits;
  projects : gmap string ProjectRow;
  extends : list ExtendRow;
  forks : gmap string ForkRow;
  events : list MachineEvent;
  fork_audits : list ForkAudit;
  billing : BillingTables
}.
#[export] Instance FleetDb_eta : Settable FleetDb := λ r,
  mkFleet (machines r) (hosts r) (templates r) (ready_replicas r) (organizations r)
    (projects r) (extends r) (forks r) (events r) (fork_audits r) (billing r).

Inductive FleetError :=
| QuotaExceeded (message : string)
| CapacityUnavailable (message : string)
| Billing_ (e : BillingError)
| MachineNotForkable (message : string)
| HostRequestError (status : option Z) (message : string) (ambiguous : bool) (code : option string)
| InvalidResources (message : string)
| Failure_ (message : string).

(** ** Table updates *)

(** [UPDATE machines SET ... WHERE id = $1] *)
Definition set_machine (id : string) (m : MachineRow) (db : FleetDb) : FleetDb :=
  db <| machines ::= <[id := m]> |>.

Definition set_fork (id : string) (k : ForkRow) (db : FleetDb) : FleetDb :=
  db <| forks ::= <[id := k]> |>.

(** [reserved + x] and [GREATEST(0, reserved - x)] on a host row; a missing row
    changes nothing. *)
Definition reserve_on (h : string) (r : Resources) (db : FleetDb) : FleetDb :=
  db <| hosts ::= alter (λ row, row <| reserved ::= λ x, radd x r |>) h |>.
Definition unreserve_on (h : string) (r : Resources) (db : FleetDb) : FleetDb :=
  db <| hosts ::= alter (λ row, row <| reserved ::= λ x, rsub0 x r |>) h |>.

(** [INSERT INTO machine_events ... ON CONFLICT DO NOTHING] *)
Definition add_event (e : MachineEvent) (db : FleetDb) : FleetDb :=
  db <| events ::= insert_new ev_key e |>.

(** The machines of a project or an organization that count against a quota. *)
Record Usage := mkUsageTotals {
  u_machines : Z;
  u_resources : Resources
}.

Definition usage_where (p : MachineRow → bool) (db : FleetDb) : Usage :=
  let counts m := p m && counted (mstate m) in
  mkUsageTotals
    (map_sum (λ m, if counts m then 1 else 0) (machines db))
    (mkResources
       (map_sum (λ m, if counts m then vcpus (resources (ident m)) else 0) (machines db))
       (map_sum (λ m, if counts m then memoryMb (resources (ident m)) else 0) (machines db))
       (map_sum (λ m, if counts m then diskMb (resources (ident m)) else 0) (machines db))).

Definition in_project (project : string) (m : MachineRow) : bool :=
  String.eqb (project_id (ident m)) project.
Definition in_organization (org : string) (m : MachineRow) : bool :=
  String.eqb (organization_id (ident m)) org.

(** The guard [usage + count * request > limit] of one tenant, negated. *)
Definition within_limits (l : Limits) (u : Usage) (count : Z) (r : Resources) : bool :=
  (u_machines u + count <=? max_machines l) &&
  (vcpus (u_resources u) + vcpus r * count <=? vcpus (max_resources l)) &&
  (memoryMb (u_resources u) + memoryMb r * count <=? memoryMb (max_resources l)) &&
  (diskMb (u_resources u) + diskMb r * count <=? diskMb (max_resources l)).

(** The operation of a machine is a fork that has not completed. *)
Definition fork_pending (db : FleetDb) (m : MachineRow) : bool :=
  match fork_operation_id (ident m) with
  | Some op => match forks db !! op with
               | Some k => bool_decide (k_state k = ForkPending)
               | None => false
               end
  | None => false
  end.

(** ** Billing over the fleet *)

(** The commitment rows of the billing query, from the machine table and the
    extend operations. *)
Definition commitment_of (db : FleetDb) (kv : string * MachineRow) : CommitmentMachine :=
  let '(id, m) := kv in
  mkCommitment id (organization_id (ident m)) (vcpus (resources (ident m)))
    (memoryMb (resources (ident m))) (mstate m) (expires_at (life m))
    (map x_target_expires_at
       (List.filter (λ x, String.eqb (x_machine x) id &&
                          String.eqb (x_organization x) (organization_id (ident m)))
          (extends db)))
    (created_at (ident m)) (placed_at (place m)) (started_at (life m))
    (stopped_at (life m)) (usage_finalized_at (usage m)).

Definition commitments (db : FleetDb) : list CommitmentMachine :=
  map (commitment_of db) (map_to_list (machines db)).

(** The policy as the interface the admission paths use. *)
#[refine] Instance fleet_billing (policy : BillingAdmissionPolicy)
    : BillingAdmission FleetDb := {
  admits now org d db := enforce policy now org d (commitments db) (billing db)
}.
Proof. intros now org d d' db. apply enforce_mono. Defined.
