(* ===== verification/Scheduler.v ===== *)
(** * The scheduler

    src/apps/nehemiah/src/scheduler/scheduler.ts: placing a machine on a host
    inside one transaction that checks the quotas and the billing cap, reserves
    the host's capacity and assigns the machine, and giving a reservation back.

    [now] is the transaction's clock; [locked] are the hosts a concurrent
    transaction holds, which the query skips. *)

From S2P Require Import Prelude Text Capacity Lifecycle Billing Cohort Fleet.

Record ScheduleRequest := mkScheduleRequest {
  s_organization : string;
  s_project : string;
  s_region : string;
  s_architecture : Architecture;
  s_resources : ResourceInput;
  s_templateId : option string;
  s_machineId : option string
}.

Record Reservation := mkReservation {
  rv_host : string;
  rv_address : string;
  rv_cachedTemplate : bool;
  rv_cohort : option string;
  rv_source : option string;
  assignmentCommitted : bool
}.

(** ** Candidate hosts *)

(** [regexp_replace(checksum, '^sha256:', '')] *)
Definition strip_sha256 (checksum : string) : string :=
  if String.prefix "sha256:" checksum
  then substring 7 (String.length checksum - 7) checksum else checksum.

Definition live_template (db : FleetDb) (id : string) : option TemplateRow :=
  match templates db !! id with
  | Some t => match t_deleted_at t with None => Some t | Some _ => None end
  | None => None
  end.

(** The image a host would boot for the candidate machine. *)
Definition source_for (db : FleetDb) (h : HostRow) (machineId : option string)
    : option string :=
  match machineId with
  | None => None
  | Some id =>
      match machines db !! id with
      | None => None
      | Some m =>
          match template_id (ident m) with
          | Some t => option_map (λ row, strip_sha256 (t_checksum row)) (live_template db t)
          | None =>
              match template_name (ident m) with
              | Some name =>
                  if String.eqb name "python" then python_sha256 h
                  else if String.eqb name "desktop" then desktop_sha256 h else None
              | None => None
              end
          end
      end
  end.

(** [COALESCE(tr.state = 'ready', false)] *)
Definition cached_template (db : FleetDb) (host : string) (templateId : option string) : bool :=
  match templateId with
  | Some t => bool_decide (is_Some (live_template db t)) &&
              bool_decide ((host, t) ∈ ready_replicas db)
  | None => false
  end.

(** The machine the request names exists and this host can boot its image. *)
Definition machine_bootable (db : FleetDb) (h : HostRow) (machineId : option string) : bool :=
  match machineId with
  | None => true
  | Some id =>
      bool_decide (is_Some (machines db !! id)) && bool_decide (is_Some (h_cohort_id h)) &&
      match source_for db h machineId with
      | Some digest => test digestPattern digest
      | None => false
      end
  end.

Definition candidate (now : Z) (db : FleetDb) (request : ScheduleRequest) (r : Resources)
    (kv : string * HostRow) : bool :=
  let '(id, h) := kv in
  String.eqb (h_region h) (s_region request) &&
  bool_decide (h_architecture h = s_architecture request) && accepts_work now h &&
  resources_le r (host_free h) &&
  match s_templateId request with None => true | Some _ => cached_template db id (s_templateId request) end &&
  machine_bootable db h (s_machineId request).

(** [ORDER BY cached_template DESC, residual memory, residual vcpus, id] *)
Definition placement_order (db : FleetDb) (request : ScheduleRequest) (a b : string * HostRow)
    : Z :=
  let cached x := cached_template db x.1 (s_templateId request) in
  let memory (x : string * HostRow) := memoryMb (total x.2) - memoryMb (reserved x.2) in
  let cpu (x : string * HostRow) := vcpus (total x.2) - vcpus (reserved x.2) in
  if negb (Bool.eqb (cached a) (cached b)) then (if cached a then -1 else 1)
  else if negb (memory a - memory b =? 0) then memory a - memory b
  else if negb (cpu a - cpu b =? 0) then cpu a - cpu b
  else codeUnitCompare a.1 b.1.

Definition select_host (now : Z) (locked : gset string) (request : ScheduleRequest)
    (r : Resources) (db : FleetDb) : option (string * HostRow) :=
  head (sort_by (placement_order db request)
    (List.filter (λ kv, candidate now db request r kv && bool_decide (kv.1 ∉ locked))
       (map_to_list (hosts db)))).

Section scheduler.
Context `{BillingAdmission FleetDb}.

(** ** Quotas *)

(** [CEIL(GREATEST(EXTRACT(EPOCH FROM (expires_at - now)), 0))] *)
Definition remaining_seconds (now expires : Z) : Z := ceil_div (Z.max 0 (expires - now)) msPerSecond.

Definition candidateSeconds (now : Z) (request : ScheduleRequest) (db : FleetDb) : Z :=
  match s_machineId request with
  | None => 0
  | Some id =>
      match machines db !! id with
      | Some m =>
          if String.eqb (organization_id (ident m)) (s_organization request) &&
             String.eqb (project_id (ident m)) (s_project request) &&
             in_states (mstate m) [Requested; Placing]
          then remaining_seconds now (expires_at (life m)) else 0
      | None => 0
      end
  end.

Definition delta_for (seconds : Z) (r : Resources) : BillingCommitmentDelta :=
  mkDelta (seconds * vcpus r) (seconds * memoryMb r) 0.

(** [enforceQuota]: organization limits, billing, project limits, then the two
    quota guards. *)
Definition enforceQuota (now : Z) (request : ScheduleRequest) (r : Resources)
    : Tx FleetDb FleetError unit := λ db,
  match organizations db !! s_organization request with
  | None => Err (QuotaExceeded "Organization does not exist.")
  | Some organizationLimits =>
      match admits now (s_organization request)
              (delta_for (candidateSeconds now request db) r) db with
      | Err e => Err (Billing_ e)
      | Ok _ =>
          match projects db !! s_project request with
          | None => Err (QuotaExceeded "Project does not belong to this organization.")
          | Some p =>
              if negb (String.eqb (p_organization p) (s_organization request))
              then Err (QuotaExceeded "Project does not belong to this organization.")
              else if negb (within_limits organizationLimits
                     (usage_where (in_organization (s_organization request)) db) 1 r)
              then Err (QuotaExceeded "Organization machine quota would be exceeded.")
              else if negb (within_limits (p_limits p)
                     (usage_where (in_project (s_project request)) db) 1 r)
              then Err (QuotaExceeded "Project machine quota would be exceeded.")
              else Ok ((), db)
          end
      end
  end.

(** ** Reserving *)

(** [UPDATE machines SET host_id = ..., state = 'starting', ...] of an
    unplaced machine. *)
Definition assigned_row (now : Z) (host : string) (cohort source : option string)
    (m : MachineRow) : MachineRow :=
  m <| place ::= λ p, mkPlacement (Some host) (host_machine_id p) cohort source (Some now)
                        (Some (now + 120000)) (reservation_released_at p) |>
    <| life ::= λ l, l <| state := Starting |> |>.

Definition assign_machine (now : Z) (id host : string) (cohort source : option string)
    (eventKey message : string) : Tx FleetDb FleetError unit := λ db,
  match machines db !! id with
  | Some m =>
      if in_states (mstate m) [Requested; Placing]
      then Ok ((), add_event
             (mkEvent eventKey id (organization_id (ident m)) (Some Requested) Starting None
                "control-plane")
             (set_machine id (assigned_row now host cohort source m) db))
      else Err (Failure_ message)
  | None => Err (Failure_ message)
  end.

Definition reserve (now : Z) (locked : gset string) (request : ScheduleRequest)
    : Tx FleetDb FleetError Reservation :=
  match validateResources (s_resources request) with
  | Err message => throw (InvalidResources message)
  | Ok r =>
      enforceQuota now request r ≫= λ _,
      gets (select_host now locked request r) ≫= λ selected,
      match selected with
      | None => throw (CapacityUnavailable "No healthy host has enough reserved capacity.")
      | Some (host, h) =>
          gets (λ db, (cached_template db host (s_templateId request),
                       source_for db h (s_machineId request))) ≫= λ cs,
          modify (reserve_on host r) ≫= λ _,
          match s_machineId request with
          | Some id => assign_machine now id host (h_cohort_id h) cs.2 (id +:+ ":assigned")
                         "machine could not be assigned atomically"
          | None => mret tt
          end ≫= λ _,
          mret (mkReservation host (h_address h) cs.1 (h_cohort_id h) cs.2
                  (bool_decide (is_Some (s_machineId request))))
      end
  end.

(** ** Releasing *)

(** [UPDATE machines SET reservation_released_at = now() WHERE id = $1 AND
    reservation_released_at IS NULL]: whether a row was claimed. *)
Definition claim_release (now : Z) (id : string) : Tx FleetDb FleetError bool := λ db,
  match machines db !! id with
  | Some m =>
      match reservation_released_at (place m) with
      | None => Ok (true, set_machine id
                     (m <| place ::= λ p, p <| reservation_released_at := Some now |> |>) db)
      | Some _ => Ok (false, db)
      end
  | None => Ok (false, db)
  end.

Definition release (now : Z) (hostId : string) (r : Resources) (machineId : option string)
    : Tx FleetDb FleetError unit :=
  match machineId with
  | Some id =>
      claim_release now id ≫= λ claimed : bool,
      if claimed then modify (unreserve_on hostId r) else mret tt
  | None => modify (unreserve_on hostId r)
  end.
End scheduler.
