(* ===== verification/MachineRepo.v ===== *)
(** * The machine repository: single machines

    [PostgresMachineRepository] of src/apps/nehemiah/src/domain/machines.ts
    without the fork operations: requested rows, create claims, assignment, host
    observations, state transitions and extend operations.

    [now] is the transaction's clock and every random identifier is an
    argument. *)

From S2P Require Import Prelude Text Capacity Lifecycle Billing Fleet Scheduler.

(** What a host reports about one of its machines; its timestamps parsed, an
    absent or unparsable one is [None]. *)
Record HostMachine := mkHostMachine {
  hm_id : string;
  hm_status : string;
  hm_lease_id : option string;
  hm_lease_generation : option Z;
  hm_public_machine_id : option string;
  hm_parent_machine_id : option string;
  hm_fork_operation_id : option string;
  hm_ready : bool;
  hm_started_at : option Z;
  hm_ready_at : option Z;
  hm_expires_at : option Z;
  hm_resources : option Resources;
  hm_network_policy : option NetworkPolicyDeclaration
}.

(** ** Queries *)

(** The visibility clause of [find] and [list]: children of a fork that has not
    succeeded are hidden. *)
Definition visible (db : FleetDb) (m : MachineRow) : bool :=
  match fork_operation_id (ident m) with
  | None => true
  | Some op => match forks db !! op with
               | Some k => bool_decide (k_state k = ForkSucceeded)
               | None => false
               end
  end.

Definition find (db : FleetDb) (id org : string) (project : option string)
    : option MachineRow :=
  match machines db !! id with
  | Some m =>
      if in_organization org m &&
         match project with Some p => in_project p m | None => true end && visible db m
      then Some m else None
  | None => None
  end.

Definition has_idempotency (org project key : string) (m : MachineRow) : bool :=
  in_organization org m && in_project project m && String.eqb (idempotency_key (ident m)) key.

Definition findByIdempotency (db : FleetDb) (org project key : string)
    : option (string * MachineRow) :=
  List.find (λ kv, has_idempotency org project key kv.2) (map_to_list (machines db)).

(** [ORDER BY m.id DESC LIMIT $4], the limit clamped to 1..100. *)
Definition list_machines (db : FleetDb) (org : string) (project cursor : option string)
    (limit : Z) : list (string * MachineRow) :=
  take (Z.to_nat (Z.min (Z.max limit 1) 100))
    (sort_by (λ a b, codeUnitCompare b.1 a.1)
       (List.filter (λ kv,
          in_organization org kv.2 &&
          match project with Some p => in_project p kv.2 | None => true end &&
          match cursor with Some c => codeUnitCompare kv.1 c <? 0 | None => true end &&
          visible db kv.2) (map_to_list (machines db)))).

(** ** Creating *)

Definition event (id org : string) (from : option MachineState) (to : MachineState)
    (reason : option string) (uuid : string) : MachineEvent :=
  mkEvent (id +:+ ":" +:+ state_text to +:+ ":" +:+ uuid) id org from to reason
    "control-plane".

(** The row an INSERT of a requested machine creates. *)
Definition requested_row (now : Z) (i : Identity) (expires : Z) : MachineRow :=
  mkMachine i (mkPlacement None None None None None None None)
    (mkLife Requested None false None None None None expires)
    (mkCreateClaim None None None) (mkReconcileClaim None None now)
    (mkUsageColumns None None None None).

(** [id] and [(organization_id, project_id, idempotency_key)] are unique. *)
Definition insert_conflicts (id : string) (i : Identity) (db : FleetDb) : bool :=
  bool_decide (is_Some (machines db !! id)) ||
  bool_decide (is_Some (findByIdempotency db (organization_id i) (project_id i)
                          (idempotency_key i))).

Definition insertRequested (now : Z) (id : string) (i : Identity) (expires : Z)
    (uuid : string) : Tx FleetDb FleetError unit := λ db,
  let available :=
    match template_id i with
    | None => true
    | Some t => match live_template db t with
                | Some row => String.eqb (t_organization row) (organization_id i) &&
                              String.eqb (t_project row) (project_id i)
                | None => false
                end
    end in
  if negb available then Err (Failure_ "template is not available to this project")
  else if insert_conflicts id i db then Err (Failure_ "duplicate key value")
  else Ok ((), add_event (event id (organization_id i) None Requested None uuid)
                 (set_machine id (requested_row now i expires) db)).

(** Whether a claim is free: never taken, or expired. *)
Definition claim_free (now : Z) (c : CreateClaim) : bool :=
  match create_claim_token c, create_claimed_until c with
  | None, _ => true
  | Some _, Some until => until <=? now
  | Some _, None => false
  end.

Definition claimCreate (now : Z) (id token : string)
    : Tx FleetDb FleetError (option string) := λ db,
  match machines db !! id with
  | Some m =>
      if bool_decide (mstate m = Requested) &&
         bool_decide (create_failure (claim m) = None) && claim_free now (claim m)
      then Ok (Some token, set_machine id
                 (m <| claim ::= λ c, c <| create_claim_token := Some token |>
                                        <| create_claimed_until := Some (now + 300000) |> |>)
                 db)
      else Ok (None, db)
  | None => Ok (None, db)
  end.

Definition clear_create_claim (m : MachineRow) : MachineRow :=
  m <| claim ::= λ c, c <| create_claim_token := None |> <| create_claimed_until := None |> |>.

Definition releaseCreateClaim (id token : string) : Tx FleetDb FleetError unit := λ db,
  match machines db !! id with
  | Some m => if bool_decide (create_claim_token (claim m) = Some token)
              then Ok ((), set_machine id (clear_create_claim m) db) else Ok ((), db)
  | None => Ok ((), db)
  end.

Definition failed_create_row (now : Z) (f : Failure) (m : MachineRow) : MachineRow :=
  clear_create_claim
    (m <| life ::= λ l, mkLife Failed (Some (f_message f)) false (started_at l) None
                          (stopping_at l) (Some now) (expires_at l) |>
       <| claim ::= λ c, c <| create_failure := Some f |> |>).

Definition failCreate (now : Z) (id token : string) (f : Failure) (uuid : string)
    : Tx FleetDb FleetError bool := λ db,
  match machines db !! id with
  | Some m =>
      if bool_decide (create_claim_token (claim m) = Some token) &&
         in_states (mstate m) [Requested; Placing; Starting]
      then Ok (true, add_event (event id (organization_id (ident m)) (Some (mstate m)) Failed
                                  (Some (f_message f)) uuid)
                       (set_machine id (failed_create_row now f m) db))
      else Ok (false, db)
  | None => Ok (false, db)
  end.

Definition assign (now : Z) (id : string) (r : Reservation) (uuid : string)
    : Tx FleetDb FleetError unit :=
  assign_machine now id (rv_host r) (rv_cohort r) (rv_source r)
    (id +:+ ":" +:+ state_text Starting +:+ ":" +:+ uuid) "machine could not be assigned".

(** [clock] is the [new Date()] of the process. *)
Definition observed_row (now clock : Z) (hm : HostMachine) (m : MachineRow) : MachineRow :=
  clear_create_claim
    (m <| place ::= λ p, p <| host_machine_id := Some (hm_id hm) |> |>
       <| life ::= λ l, mkLife (if hm_ready hm then Running else Starting) None (hm_ready hm)
             (coalesce (hm_started_at hm) (coalesce (started_at l) (Some now)))
             (if hm_ready hm then Some (default clock (hm_ready_at hm)) else None)
             (stopping_at l) (stopped_at l) (expires_at l) |>).

(** The UPDATE is guarded by [state = 'starting']; a machine in another state is
    left alone and the caller is not told. *)
Definition observeHost (now clock : Z) (id : string) (hm : HostMachine) (uuid : string)
    : Tx FleetDb FleetError unit := λ db,
  match machines db !! id with
  | Some m =>
      if bool_decide (mstate m = Starting) then
        let db := set_machine id (observed_row now clock hm m) db in
        Ok ((), if hm_ready hm
                then add_event (event id (organization_id (ident m)) (Some Starting) Running
                                  None uuid) db
                else db)
      else Ok ((), db)
  | None => Ok ((), db)
  end.

(** ** Transitions *)

Definition transitioned_row (now : Z) (to : MachineState) (reason : option string)
    (m : MachineRow) : MachineRow :=
  let m :=
    m <| life ::= λ l, mkLife to reason
           (if bool_decide (to = Running) then ready l else false)
           (started_at l)
           (if bool_decide (to = Running) then ready_at l else None)
           (if bool_decide (to = Stopping) then Some now else stopping_at l)
           (if terminal to then Some now else stopped_at l)
           (expires_at l) |> in
  if terminal to then clear_create_claim m else m.

Definition transition (now : Z) (id : string) (from : list MachineState) (to : MachineState)
    (reason : option string) (uuid : string) : Tx FleetDb FleetError bool := λ db,
  match machines db !! id with
  | Some m =>
      if in_states (mstate m) from
      then Ok (true, add_event (event id (organization_id (ident m)) (Some (mstate m)) to
                                  reason uuid)
                       (set_machine id (transitioned_row now to reason m) db))
      else Ok (false, db)
  | None => Ok (false, db)
  end.

(** ** Extending *)

Record ExtendOperation := mkExtendOperation {
  xo_id : Z;
  xo_requestHash : string;
  xo_targetExpiresAt : Z;
  xo_resultExpiresAt : option Z;
  xo_replayed : bool
}.

Definition fromExtendOperationRow (x : ExtendRow) (replayed : bool) : ExtendOperation :=
  mkExtendOperation (x_id x) (x_request_hash x) (x_target_expires_at x)
    (x_result_expires_at x) replayed.

(** The latest expiry any extend operation of the machine committed to. *)
Definition extend_commitment (db : FleetDb) (org id : string) (expires : Z) : Z :=
  match maximum (map x_target_expires_at
          (List.filter (λ x, String.eqb (x_organization x) org &&
                             String.eqb (x_machine x) id) (extends db))) with
  | Some t => Z.max expires t
  | None => expires
  end.

Definition extend_prior (db : FleetDb) (org id key : string) : option ExtendRow :=
  List.find (λ x, String.eqb (x_organization x) org && String.eqb (x_machine x) id &&
                  String.eqb (x_key x) key) (extends db).

Section extend.
Context `{BillingAdmission FleetDb}.

(** [admitted_at] is [clock_timestamp()]. *)
Definition beginExtend (admitted_at : Z) (id org project key requestHash : string)
    (ttlSeconds : Z) : Tx FleetDb FleetError (option ExtendOperation) := λ db,
  match organizations db !! org with
  | None => Ok (None, db)
  | Some _ =>
      match machines db !! id with
      | None => Ok (None, db)
      | Some m =>
          if negb (in_organization org m && in_project project m) then Ok (None, db)
          else
            match extend_prior db org id key with
            | Some x => Ok (Some (fromExtendOperationRow x true), db)
            | None =>
                if negb (in_states (mstate m) [Starting; Running]) ||
                   negb (truthy (host_id (place m))) || negb (truthy (host_machine_id (place m)))
                then Ok (None, db)
                else
                  let committed := extend_commitment db org id (expires_at (life m)) in
                  let target := Z.max committed (admitted_at + ttlSeconds * msPerSecond) in
                  let additional :=
                    ceil_div (Z.max 0 (target - Z.max committed admitted_at)) msPerSecond in
                  match admits admitted_at org
                          (delta_for additional (resources (ident m))) db with
                  | Err e => Err (Billing_ e)
                  | Ok _ =>
                      let x := mkExtend (Z.of_nat (length (extends db)) + 1) org project id
                                 key requestHash target None None in
                      Ok (Some (fromExtendOperationRow x false),
                          db <| extends ::= λ xs, xs ++ [x] |>)
                  end
            end
      end
  end.
End extend.

Definition extend_is (operation : Z) (id org : string) (x : ExtendRow) : bool :=
  (x_id x =? operation) && String.eqb (x_machine x) id && String.eqb (x_organization x) org.

(** Completing is recorded once: a completed operation keeps its first result. *)
Definition complete_row (now result : Z) (x : ExtendRow) : ExtendRow :=
  match x_completed_at x with
  | None => x <| x_result_expires_at := Some result |> <| x_completed_at := Some now |>
  | Some _ => x
  end.

Definition complete_rows (now operation : Z) (id org : string) (result : Z)
    (xs : list ExtendRow) : list ExtendRow :=
  map (λ x, if extend_is operation id org x then complete_row now result x else x) xs.

Definition completeExtend (now : Z) (operation : Z) (id org : string) (result : Z)
    : Tx FleetDb FleetError Z := λ db,
  match machines db !! id with
  | None => Err (Failure_ "machine disappeared while completing extend")
  | Some m =>
      if negb (in_organization org m)
      then Err (Failure_ "machine disappeared while completing extend")
      else
        let xs := complete_rows now operation id org result (extends db) in
        match List.find (extend_is operation id org) xs with
        | Some x =>
            match x_result_expires_at x with
            | Some recorded =>
                let db := db <| extends := xs |> in
                Ok (recorded,
                    if terminal (mstate m) then db
                    else set_machine id (m <| life ::= λ l,
                           l <| expires_at ::= λ e, Z.max e recorded |> |>) db)
            | None => Err (Failure_ "extend operation disappeared while completing")
            end
        | None => Err (Failure_ "extend operation disappeared while completing")
        end
  end.
