(* ===== verification/ForkRepo.v ===== *)
(** * The machine repository: fork operations

    The fork half of [PostgresMachineRepository] in
    src/apps/nehemiah/src/domain/machines.ts.  A fork reserves a whole batch of
    children on the source's host, stays pending until the host confirmed every
    child or its removal, and then succeeds or fails as a unit. *)

From S2P Require Import Prelude Text Capacity Lifecycle Billing Fleet Scheduler MachineRepo.

(** ** Loading an operation *)

Record ForkOperation := mkForkOperation {
  fo_id : string;
  fo_row : ForkRow;
  fo_children : list (string * MachineRow);
  fo_replayed : bool;
  fo_host_address : string;
  fo_cleanup_token : option string;
  fo_expired : bool;
  fo_deadlineReached : bool
}.
#[export] Instance ForkOperation_eta : Settable ForkOperation := λ r,
  mkForkOperation (fo_id r) (fo_row r) (fo_children r) (fo_replayed r) (fo_host_address r)
    (fo_cleanup_token r) (fo_expired r) (fo_deadlineReached r).

(** The children of an operation in ordinal order. *)
Definition fork_children (db : FleetDb) (k : ForkRow) : list (string * MachineRow) :=
  omap (λ child, option_map (pair child.1) (machines db !! child.1)) (k_children k).

Definition startup_deadline (m : MachineRow) : Z :=
  default (created_at (ident m) + 120000) (startup_deadline_at (place m)).

Definition loadForkOperation (now : Z) (id : string) (replayed : bool) (db : FleetDb)
    : option ForkOperation :=
  match forks db !! id with
  | None => None
  | Some k =>
      match hosts db !! k_source_host k with
      | None => None
      | Some h =>
          let children := fork_children db k in
          Some (mkForkOperation id k children replayed (h_address h)
            (create_claim_token (k_cleanup k))
            (negb (existsb (λ c, now <? expires_at (life c.2)) children))
            (negb (existsb (λ c, now <? startup_deadline c.2) children)))
      end
  end.

(** ** Beginning *)

(** The identifiers drawn for one child: machine, lease and request hash. *)
Record ChildIds := mkChildIds {
  c_machine : string;
  c_lease : string;
  c_hash : string
}.

(** [`fork:${operationId}:${ordinal}`] *)
Definition child_key (op : string) (ordinal : nat) : string :=
  "fork:" +:+ op +:+ ":" +:+ pretty (Z.of_nat ordinal).

Definition child_identity (op source : string) (m : MachineRow) (remaining now : Z)
    (ordinal : nat) (c : ChildIds) : Identity :=
  let i := ident m in
  mkIdentity (organization_id i) (project_id i) (c_lease c) 1
    (child_key op ordinal) (c_hash c) (region_id i)
    (architecture i) (template_name i) (template_id i) (source_oci_ref i)
    (Z.min remaining 86400) (resources i) (network_policy i) (Some source) (Some op) now.

Definition child_row (op source : string) (m : MachineRow) (remaining now : Z)
    (ordinal : nat) (c : ChildIds) : MachineRow :=
  mkMachine (child_identity op source m remaining now ordinal c)
    (mkPlacement (host_id (place m)) None (runtime_cohort_id (place m))
       (source_sha256 (place m)) (Some now) (Some (now + 120000)) None)
    (mkLife Starting None false None None None None (expires_at (life m)))
    (mkCreateClaim None None None) (mkReconcileClaim None None now)
    (mkUsageColumns None None None None).

(** One iteration of the insertion loop. *)
Definition insert_child (op source : string) (m : MachineRow) (remaining now : Z)
    (ordinal : nat) (c : ChildIds) (db : FleetDb) : FleetDb :=
  add_event
    (mkEvent (c_machine c +:+ ":fork-allocated") (c_machine c)
       (organization_id (ident m)) None Starting None "control-plane")
    (set_machine (c_machine c) (child_row op source m remaining now ordinal c) db).

Fixpoint insert_children (op source : string) (m : MachineRow) (remaining now : Z)
    (ordinal : nat) (cs : list ChildIds) (db : FleetDb) : FleetDb :=
  match cs with
  | [] => db
  | c :: cs =>
      insert_children op source m remaining now (S ordinal) cs
        (insert_child op source m remaining now ordinal c db)
  end.

Definition fork_prior (db : FleetDb) (org project source key : string)
    : option (string * ForkRow) :=
  List.find (λ kv, String.eqb (k_organization kv.2) org && String.eqb (k_project kv.2) project &&
                   String.eqb (k_source_machine kv.2) source && String.eqb (k_key kv.2) key)
    (map_to_list (forks db)).

(** The source is running, placed and has at least fifteen seconds left. *)
Definition forkable (remaining : Z) (m : MachineRow) : bool :=
  bool_decide (mstate m = Running) && ready (life m) &&
  truthy (host_id (place m)) && truthy (host_machine_id (place m)) &&
  truthy (runtime_cohort_id (place m)) && truthy (source_sha256 (place m)) && (15 <=? remaining).

(** Identifiers and idempotency keys that already exist make the INSERTs fail. *)
Definition fork_conflicts (op org project : string) (cs : list ChildIds) (db : FleetDb) : bool :=
  bool_decide (is_Some (forks db !! op)) ||
  existsb (λ c, bool_decide (is_Some (machines db !! c_machine c))) cs ||
  negb (bool_decide (NoDup (c_machine <$> cs))) ||
  existsb (λ n, bool_decide (is_Some (findByIdempotency db org project (child_key op n))))
    (seq 0 (length cs)).

Definition new_fork (now : Z) (org project source host hostMachine key requestHash audit : string)
    (m : MachineRow) (cs : list ChildIds) : ForkRow :=
  mkFork org project source host hostMachine (lease_id (ident m)) key requestHash audit
    (map (λ c, (c_machine c, c_lease c)) cs) ForkPending now None None
    (mkReconcileClaim None None now) (mkCreateClaim None None None) None.

Section begin_fork.
Context `{BillingAdmission FleetDb}.

(** The guards after the locks, for a source [m] on host [h]. *)
Definition fork_admission (now clock : Z) (org : string) (organizationLimits projectLimits : Limits)
    (project : string) (m : MachineRow) (h : HostRow) (count : Z) (db : FleetDb)
    : result FleetError unit :=
  let remaining := ceil_div (expires_at (life m) - clock) msPerSecond in
  let r := resources (ident m) in
  let committed := Z.max remaining 0 * count in
  if negb (forkable remaining m)
  then Err (MachineNotForkable "The source machine must be current, ready, and live.")
  else if negb (accepts_work now h)
  then Err (CapacityUnavailable "The source host is not accepting new fork children.")
  else if negb (within_limits organizationLimits (usage_where (in_organization org) db) count r)
  then Err (QuotaExceeded "Organization machine quota would be exceeded.")
  else if negb (within_limits projectLimits (usage_where (in_project project) db) count r)
  then Err (QuotaExceeded "Project machine quota would be exceeded.")
  else
    match admits clock org (delta_for committed r) db with
    | Err e => Err (Billing_ e)
    | Ok _ =>
        if resources_le (rscale count r) (host_free h) then Ok ()
        else Err (CapacityUnavailable "The source host cannot fit the entire fork batch.")
    end.

Definition beginFork (now clock : Z) (source org project key requestHash audit op : string)
    (cs : list ChildIds) : Tx FleetDb FleetError (option ForkOperation) := λ db,
  let count := Z.of_nat (length cs) in
  match organizations db !! org with
  | None => Ok (None, db)
  | Some organizationLimits =>
      match projects db !! project with
      | None => Ok (None, db)
      | Some p =>
          if negb (String.eqb (p_organization p) org) then Ok (None, db)
          else
            match machines db !! source with
            | None => Ok (None, db)
            | Some m =>
                match host_id (place m) ≫= λ host, option_map (pair host) (hosts db !! host) with
                | None => Ok (None, db)
                | Some (host, h) =>
                    if negb (in_organization org m && in_project project m) then Ok (None, db)
                    else
                      match fork_prior db org project source key with
                      | Some (prior, _) => Ok (loadForkOperation now prior true db, db)
                      | None =>
                          match fork_admission now clock org organizationLimits (p_limits p)
                                  project m h count db with
                          | Err e => Err e
                          | Ok _ =>
                              if fork_conflicts op org project cs db
                              then Err (Failure_ "duplicate key value")
                              else
                                let remaining :=
                                  ceil_div (expires_at (life m) - clock) msPerSecond in
                                let k := new_fork now org project source host
                                  (default "" (host_machine_id (place m))) key requestHash
                                  audit m cs in
                                let db := set_fork op k db in
                                let db := insert_children op source m remaining now 0 cs db in
                                let db := reserve_on host (rscale count (resources (ident m))) db in
                                Ok (loadForkOperation now op false db, db)
                          end
                      end
                end
            end
      end
  end.
End begin_fork.

(** ** Completing *)

(** A child as the completion reads it: identifier, allocated lease, row. *)
Record Expected := mkExpected {
  e_id : string;
  e_lease : string;
  e_row : MachineRow
}.

Definition fork_expected (db : FleetDb) (k : ForkRow) : list Expected :=
  omap (λ child, option_map (mkExpected child.1 child.2) (machines db !! child.1)) (k_children k).

(** The host's answer names every child once, with distinct host ids. *)
Definition complete_batch (expected : list Expected) (observed : list HostMachine)
    : bool :=
  let n := length expected in
  Nat.eqb (length (remove_dups (hm_public_machine_id <$> observed))) n &&
  Nat.eqb (length observed) n &&
  Nat.eqb (length (remove_dups (hm_id <$> observed))) n &&
  forallb (λ hm, negb (String.eqb (hm_id hm) "")) observed.

(** [byPublicId.get(id)]: a later entry replaces an earlier one. *)
Definition by_public_id (id : string) (observed : list HostMachine) : option HostMachine :=
  List.find (λ hm, bool_decide (hm_public_machine_id hm = Some id)) (rev observed).

Definition child_matches (op source : string) (child : Expected)
    (observed : list HostMachine) : bool :=
  let m := e_row child in
  match by_public_id (e_id child) observed with
  | None => false
  | Some hm =>
      bool_decide (hm_lease_id hm = Some (e_lease child)) &&
      bool_decide (hm_parent_machine_id hm = Some source) &&
      bool_decide (hm_fork_operation_id hm = Some op) &&
      match host_machine_id (place m) with Some h => String.eqb h (hm_id hm) | None => true end &&
      bool_decide (hm_resources hm = Some (resources (ident m))) &&
      bool_decide (hm_network_policy hm = Some (network_policy (ident m))) &&
      bool_decide (hm_expires_at hm = Some (expires_at (life m)))
  end.

Definition all_ready (observed : list HostMachine) : bool :=
  forallb (λ hm, hm_ready hm && String.eqb (hm_status hm) "running") observed.

Definition completed_child (now : Z) (allReady : bool) (hm : HostMachine) (m : MachineRow)
    : MachineRow :=
  m <| place ::= λ p, p <| host_machine_id := Some (hm_id hm) |> |>
    <| life ::= λ l, mkLife (if allReady then Running else state l) None allReady
         (coalesce (started_at l) (coalesce (hm_started_at hm) (Some now)))
         (if allReady then coalesce (ready_at l) (coalesce (hm_ready_at hm) (Some now)) else None)
         (stopping_at l) (stopped_at l) (expires_at l) |>.

(** The update loop; a child that is no longer starting aborts the
    transaction. *)
Fixpoint complete_children (now : Z) (op org : string) (allReady : bool)
    (observed : list HostMachine) (children : list Expected) (db : FleetDb)
    : result FleetError FleetDb :=
  match children with
  | [] => Ok db
  | mkExpected id lease m :: children =>
      match by_public_id id observed with
      | None => Err (Failure_ "fork child could not be completed")
      | Some hm =>
          if String.eqb (lease_id (ident m)) lease &&
             bool_decide (fork_operation_id (ident m) = Some op) &&
             bool_decide (mstate m = Starting)
          then
            let db := set_machine id (completed_child now allReady hm m) db in
            let db := if allReady
                      then add_event (mkEvent (id +:+ ":fork-ready") id org (Some Starting)
                                        Running None "control-plane") db
                      else db in
            complete_children now op org allReady observed children db
          else Err (Failure_ "fork child could not be completed")
      end
  end.

Definition fork_audit (op outcome : string) (reason : option string) (db : FleetDb) : FleetDb :=
  db <| fork_audits ::= insert_new fa_key
          (mkForkAudit ("audit:fork:" +:+ op +:+ ":terminal") op outcome reason) |>.

Definition batch_error (message : string) : FleetError :=
  HostRequestError None message true None.

Definition completeFork (now : Z) (op : string) (observed : list HostMachine)
    : Tx FleetDb FleetError unit := λ db,
  match forks db !! op with
  | None => Err (Failure_ "fork operation disappeared while completing")
  | Some k =>
      if negb (bool_decide (k_state k = ForkPending)) ||
         bool_decide (is_Some (k_cleanup_requested_at k))
      then Ok ((), db)
      else
        let expected := fork_expected db k in
        if negb (complete_batch expected observed)
        then Err (batch_error "host fork response did not contain the full batch")
        else if negb (forallb (λ c, child_matches op (k_source_machine k) c observed) expected)
        then Err (batch_error "host fork child identity or descriptor did not match")
        else
          let allReady := all_ready observed in
          db ← complete_children now op (k_organization k) allReady observed expected db;
          if negb allReady then Ok ((), db)
          else
            let k := k <| k_state := ForkSucceeded |> <| k_completed_at := Some now |>
                       <| k_recon ::= λ r, r <| reconcile_claim_token := None |>
                                             <| reconcile_claimed_until := None |> |> in
            Ok ((), fork_audit op "succeeded" None (set_fork op k db))
  end.

(** ** Failing *)

Definition of_fork (op : string) (m : MachineRow) : bool :=
  bool_decide (fork_operation_id (ident m) = Some op).

(** The sums over every machine of the operation. *)
Definition fork_totals (op : string) (db : FleetDb) : Resources :=
  let total_of (f : Resources → Z) :=
    map_sum (λ m, if of_fork op m then f (resources (ident m)) else 0) (machines db) in
  mkResources (total_of vcpus) (total_of memoryMb) (total_of diskMb).

Definition failed_child (now : Z) (message : string) (m : MachineRow) : MachineRow :=
  m <| life ::= λ l, mkLife Failed (Some message) false (started_at l) None (stopping_at l)
                       (Some now) (expires_at l) |>
    <| place ::= λ p, p <| reservation_released_at := Some now |> |>.

Definition fails_with (op : string) (m : MachineRow) : bool :=
  of_fork op m && in_states (mstate m) [Starting; Running].

(** The UPDATE of all children and the events it returns. *)
Definition fail_children (now : Z) (op org message : string) (db : FleetDb) : FleetDb :=
  let failed := List.filter (λ kv, fails_with op kv.2) (map_to_list (machines db)) in
  let db := db <| machines ::= λ ms,
    (λ m, if fails_with op m then failed_child now message m else m) <$> ms |> in
  foldl (λ db kv, add_event (mkEvent (kv.1 +:+ ":fork-failed") kv.1 org (Some (mstate kv.2))
                               Failed (Some message) "control-plane") db) db failed.

Definition failed_fork (now : Z) (f : Failure) (k : ForkRow) : ForkRow :=
  k <| k_state := ForkFailed |> <| k_completed_at := Some now |> <| k_failure := Some f |>
    <| k_recon ::= λ r, r <| reconcile_claim_token := None |>
                          <| reconcile_claimed_until := None |> |>
    <| k_cleanup ::= λ c, c <| create_claim_token := None |>
                            <| create_claimed_until := None |> |>.

(** Fail the children, give back the whole batch, close the operation. *)
Definition fail_batch (now : Z) (op : string) (k : ForkRow) (f : Failure) (db : FleetDb)
    : FleetDb :=
  let totals := fork_totals op db in
  let db := fail_children now op (k_organization k) (f_message f) db in
  let db := unreserve_on (k_source_host k) totals db in
  let db := set_fork op (failed_fork now f k) db in
  fork_audit op "failed" (Some (f_code f)) db.

Definition failFork (now : Z) (op : string) (f : Failure) : Tx FleetDb FleetError unit := λ db,
  match forks db !! op with
  | None => Err (Failure_ "fork operation disappeared while failing")
  | Some k =>
      if negb (bool_decide (k_state k = ForkPending)) ||
         bool_decide (is_Some (k_cleanup_requested_at k))
      then Ok ((), db)
      else Ok ((), fail_batch now op k f db)
  end.

(** ** Cleanup *)

(** Record the wish to clean up once, then try to take the cleanup claim: the
    token on success. *)
Definition requestForkCleanup (now : Z) (op : string) (f : Failure) (token : string)
    : Tx FleetDb FleetError (option string) := λ db,
  match forks db !! op with
  | None => Err (Failure_ "fork operation disappeared while requesting cleanup")
  | Some k =>
      if negb (bool_decide (k_state k = ForkPending)) then Ok (None, db)
      else
        let k := match k_cleanup_requested_at k with
                 | Some _ => k
                 | None => k <| k_cleanup_requested_at := Some now |>
                             <| k_cleanup ::= λ c, c <| create_failure := Some f |> |>
                             <| k_recon ::= λ r, r <| reconcile_after := now |> |>
                 end in
        if claim_free now (k_cleanup k)
        then Ok (Some token, set_fork op
               (k <| k_cleanup ::= λ c, c <| create_claim_token := Some token |>
                                          <| create_claimed_until := Some (now + 300000) |> |>)
               db)
        else Ok (None, set_fork op k db)
  end.

Definition releaseForkCleanupClaim (now : Z) (op token : string)
    : Tx FleetDb FleetError unit := λ db,
  match forks db !! op with
  | Some k =>
      if bool_decide (k_state k = ForkPending) &&
         bool_decide (create_claim_token (k_cleanup k) = Some token)
      then Ok ((), set_fork op
             (k <| k_cleanup ::= λ c, c <| create_claim_token := None |>
                                        <| create_claimed_until := None |> |>
                <| k_recon ::= λ r, r <| reconcile_after := now + 15000 |> |>) db)
      else Ok ((), db)
  | None => Ok ((), db)
  end.

Definition completeForkCleanup (now : Z) (op token : string)
    : Tx FleetDb FleetError unit := λ db,
  match forks db !! op with
  | None => Err (Failure_ "fork operation disappeared while completing cleanup")
  | Some k =>
      if negb (bool_decide (k_state k = ForkPending)) then Ok ((), db)
      else if negb (bool_decide (create_claim_token (k_cleanup k) = Some token)) then Ok ((), db)
      else match create_failure (k_cleanup k) with
           | None => Ok ((), db)
           | Some f => Ok ((), fail_batch now op k f db)
           end
  end.

(** ** Reconciliation claims *)

Definition fork_due (now : Z) (k : ForkRow) : bool :=
  bool_decide (k_state k = ForkPending) && (reconcile_after (k_recon k) <=? now) &&
  match reconcile_claimed_until (k_recon k) with Some u => u <=? now | None => true end.

Definition fork_order (a b : string * ForkRow) : Z :=
  let d := reconcile_after (k_recon a.2) - reconcile_after (k_recon b.2) in
  if d =? 0 then k_created_at a.2 - k_created_at b.2 else d.

Definition claimed_fork (now : Z) (token : string) (k : ForkRow) : ForkRow :=
  k <| k_recon := mkReconcileClaim (Some token) (Some (now + 300000)) (now + 30000) |>.

(** The operations claimed, in the order they are due; [locked] are skipped. *)
Definition claimPendingForks (now : Z) (limit : Z) (token : string) (locked : gset string)
    : Tx FleetDb FleetError (list string) := λ db,
  let ids := (take (Z.to_nat (Z.min (Z.max limit 1) 100))
    (sort_by fork_order (List.filter (λ kv, fork_due now kv.2 && bool_decide (kv.1 ∉ locked))
       (map_to_list (forks db))))).*1 in
  Ok (ids, db <| forks ::= λ ks, foldl (λ ks id, alter (claimed_fork now token) id ks) ks ids |>).

Definition releaseForkClaim (now : Z) (op token : string) (failed : bool)
    : Tx FleetDb FleetError unit := λ db,
  match forks db !! op with
  | Some k =>
      if bool_decide (reconcile_claim_token (k_recon k) = Some token)
      then Ok ((), set_fork op (k <| k_recon := mkReconcileClaim None None
               (if failed then now + 30000 else reconcile_after (k_recon k)) |>) db)
      else Ok ((), db)
  | None => Ok ((), db)
  end.
