(* ===== verification/ReconcileDb.v ===== *)
(** * The reconciler's transactions

    The statements of [MachineReconciler] in
    src/apps/nehemiah/src/jobs/reconcile-machines.ts: losing the machines of
    stale hosts, finishing a machine, giving its reservation back, claiming a
    batch, recording what the host answered.  The procedures that combine them
    are in [Reconciler]. *)

From S2P Require Import Prelude Text Capacity Lifecycle Billing Fleet Scheduler MachineRepo.

Definition reconcileBatchSize : nat := 100.
Definition reconcileClaimMs : Z := 5 * 60 * 1000.

(** The columns of [ReconcileRow] the procedures use. *)
Record ReconcileRow := mkReconcileRow {
  rr_id : string;
  rr_row : MachineRow;
  rr_host : string;
  rr_host_address : string;
  rr_host_template_name : option string;
  rr_deadline_reached : bool;
  rr_claim_token : string
}.

(** ** Losing the machines of stale hosts *)

Definition on_stale_host (db : FleetDb) (m : MachineRow) : bool :=
  match host_id (place m) with
  | Some h => match hosts db !! h with
              | Some row => bool_decide (h_state row = HostStale)
              | None => false
              end
  | None => false
  end.

(** The condition of both statements of [markLostOnStaleHosts]. *)
Definition loses (db : FleetDb) (m : MachineRow) : bool :=
  on_stale_host db m && negb (terminal (mstate m)) && negb (fork_pending db m).

(** [COALESCE(last_period_end, started_at, placed_at, created_at)] *)
Definition loss_instant (last_period_end : option Z) (m : MachineRow) : Z :=
  default (created_at (ident m))
    (coalesce last_period_end (coalesce (started_at (life m)) (placed_at (place m)))).

Definition lost_row (last_period_end : option Z) (m : MachineRow) : MachineRow :=
  m <| life ::= λ l, mkLife Lost (Some "host heartbeat expired") false (started_at l) None
                       (stopping_at l) (Some (loss_instant last_period_end m)) (expires_at l) |>.

(** [last_period_end] of the machines' meters. *)
Definition markLostOnStaleHosts (last_period_end : string → option Z)
    : Tx FleetDb FleetError (list string) := λ db,
  let lost := List.filter (λ kv, loses db kv.2) (map_to_list (machines db)) in
  let insert db (kv : string * MachineRow) :=
    add_event (mkEvent (kv.1 +:+ ":stale-host:lost") kv.1 (organization_id (ident kv.2))
                 (Some (mstate kv.2)) Lost (Some "host heartbeat expired") "reconciler") db in
  let db' := foldl insert db lost in
  Ok (lost.*1, db' <| machines ::= map_imap (λ id m,
        Some (if loses db m then lost_row (last_period_end id) m else m)) |>).

(** ** Finishing a machine *)

Definition finished_row (now : Z) (to : MachineState) (reason : string)
    (lossCutoff : option Z) (m : MachineRow) : MachineRow :=
  m <| life ::= λ l, mkLife to (Some reason) false (started_at l) None (stopping_at l)
         (Some (if bool_decide (to = Lost) then loss_instant lossCutoff m else now))
         (expires_at l) |>.

(** The transaction of [finishAndRelease]: whether the machine was live. *)
Definition finish (now : Z) (id lease : string) (to : MachineState) (reason : string)
    (lossCutoff : option Z) : Tx FleetDb FleetError bool := λ db,
  match machines db !! id with
  | Some m =>
      if String.eqb (lease_id (ident m)) lease && negb (terminal (mstate m))
      then Ok (true,
             add_event (mkEvent (id +:+ ":reconciled:" +:+ state_text to) id
                          (organization_id (ident m)) (Some (mstate m)) to (Some reason)
                          "reconciler")
               (set_machine id (finished_row now to reason lossCutoff m) db))
      else Ok (false, db)
  | None => Ok (false, db)
  end.

(** [release(machine)]: the same two statements as the scheduler's release. *)
Definition releaseRow (now : Z) (id host : string) (r : Resources)
    : Tx FleetDb FleetError unit := release now host r (Some id).

(** The rows of [releaseLeakedReservations]; any 100 of them. *)
Definition leaked (m : MachineRow) : bool :=
  terminal (mstate m) && bool_decide (reservation_released_at (place m) = None) &&
  bool_decide (is_Some (host_id (place m))).

Definition leakedReservations (db : FleetDb) : list (string * MachineRow) :=
  take 100 (List.filter (λ kv, leaked kv.2) (map_to_list (machines db))).

(** ** Claiming a batch *)

Definition reconcile_due (now : Z) (db : FleetDb) (m : MachineRow) : bool :=
  in_states (mstate m) [Starting; Stopping; Running] && negb (fork_pending db m) &&
  bool_decide (is_Some (host_id (place m))) &&
  (bool_decide (mstate m = Running) ||
   match placed_at (place m) with Some t => t <? now - 15000 | None => false end) &&
  (reconcile_after (recon m) <=? now) &&
  match reconcile_claimed_until (recon m) with Some u => u <? now | None => true end.

Definition state_priority (s : MachineState) : Z :=
  match s with Stopping => 0 | Starting => 1 | _ => 2 end.

Definition reconcile_order (a b : string * MachineRow) : Z :=
  let d1 := reconcile_after (recon a.2) - reconcile_after (recon b.2) in
  let d2 := state_priority (mstate a.2) - state_priority (mstate b.2) in
  let d3 := created_at (ident a.2) - created_at (ident b.2) in
  if negb (d1 =? 0) then d1 else if negb (d2 =? 0) then d2
  else if negb (d3 =? 0) then d3 else codeUnitCompare a.1 b.1.

Definition claimed_row (now : Z) (token : string) (m : MachineRow) : MachineRow :=
  m <| recon := mkReconcileClaim (Some token) (Some (now + reconcileClaimMs)) (now + 10000) |>.

Definition deadline_reached (now : Z) (m : MachineRow) : bool :=
  default (created_at (ident m) + 120000)
    (coalesce (startup_deadline_at (place m)) (option_map (Z.add 120000) (placed_at (place m))))
  <=? now.

Definition reconcile_row (now : Z) (token : string) (db : FleetDb) (kv : string * MachineRow)
    : option ReconcileRow :=
  let '(id, m) := kv in
  host ← host_id (place m);
  h ← hosts db !! host;
  Some (mkReconcileRow id (claimed_row now token m) host (h_address h)
          (template_id (ident m) ≫= λ t, templates db !! t ≫= t_host_template_name)
          (deadline_reached now m) token).

(** The final ORDER BY: the claim gave every row the same [reconcile_after]. *)
Definition claimed_order (a b : string * MachineRow) : Z :=
  let d := created_at (ident a.2) - created_at (ident b.2) in
  if negb (d =? 0) then d else codeUnitCompare a.1 b.1.

Definition claimReconcileBatch (now : Z) (token : string) (locked : gset string)
    : Tx FleetDb FleetError (list ReconcileRow) := λ db,
  let batch := take reconcileBatchSize (sort_by reconcile_order
    (List.filter (λ kv, reconcile_due now db kv.2 && bool_decide (kv.1 ∉ locked))
       (map_to_list (machines db)))) in
  Ok (omap (reconcile_row now token db) (sort_by claimed_order batch),
      db <| machines ::= λ ms,
        foldl (λ ms kv, alter (claimed_row now token) kv.1 ms) ms batch |>).

Definition releaseReconcileClaim (now : Z) (id lease token : string) (failed : bool)
    : Tx FleetDb FleetError unit := λ db,
  match machines db !! id with
  | Some m =>
      if String.eqb (lease_id (ident m)) lease &&
         bool_decide (reconcile_claim_token (recon m) = Some token)
      then Ok ((), set_machine id
             (m <| recon ::= λ r, mkReconcileClaim None None
                     (if failed then Z.max (reconcile_after r) (now + 30000)
                      else reconcile_after r) |>) db)
      else Ok ((), db)
  | None => Ok ((), db)
  end.

(** ** Recording what the host answered *)

(** The UPDATE after a recovered create: the state if the row took the host's
    machine id. *)
Definition persistRecovered (now : Z) (id lease : string) (hm : HostMachine)
    : Tx FleetDb FleetError (option MachineState) := λ db,
  match machines db !! id with
  | Some m =>
      if String.eqb (lease_id (ident m)) lease &&
         in_states (mstate m) [Starting; Stopping; Running] &&
         match host_machine_id (place m) with
         | Some h => String.eqb h (hm_id hm)
         | None => true
         end
      then Ok (Some (mstate m), set_machine id
             (m <| place ::= λ p, p <| host_machine_id := Some (hm_id hm) |> |>
                <| life ::= λ l, l <| started_at :=
                     coalesce (started_at l) (coalesce (hm_started_at hm) (Some now)) |> |>) db)
      else Ok (None, db)
  | None => Ok (None, db)
  end.

(** A running machine's readiness follows the host. *)
Definition observeRunning (now : Z) (id lease : string) (hm : HostMachine)
    : Tx FleetDb FleetError unit := λ db,
  match machines db !! id with
  | Some m =>
      if String.eqb (lease_id (ident m)) lease && bool_decide (mstate m = Running)
      then Ok ((), set_machine id
             (m <| life ::= λ l,
                l <| ready := hm_ready hm |>
                  <| ready_at := if hm_ready hm
                                 then coalesce (ready_at l) (coalesce (hm_ready_at hm) (Some now))
                                 else None |> |>) db)
      else Ok ((), db)
  | None => Ok ((), db)
  end.

(** A starting machine becomes running when the host reports it ready. *)
Definition observeStarting (now : Z) (id lease : string) (hm : HostMachine)
    : Tx FleetDb FleetError unit := λ db,
  match machines db !! id with
  | Some m =>
      if String.eqb (lease_id (ident m)) lease && bool_decide (mstate m = Starting)
      then
        let m' := m <| life ::= λ l,
          mkLife (if hm_ready hm then Running else Starting) (state_reason l) (hm_ready hm)
            (coalesce (started_at l) (coalesce (hm_started_at hm) (Some now)))
            (if hm_ready hm then coalesce (ready_at l) (coalesce (hm_ready_at hm) (Some now))
             else None)
            (stopping_at l) (stopped_at l) (expires_at l) |> in
        let db := set_machine id m' db in
        Ok ((), if hm_ready hm
                then add_event (mkEvent (id +:+ ":reconciled:" +:+ state_text Running) id
                                  (organization_id (ident m)) (Some Starting) Running
                                  (Some "guest agent ready") "reconciler") db
                else db)
      else Ok ((), db)
  | None => Ok ((), db)
  end.
