(* ===== verification/FleetInv.v ===== *)
(** * The fleet invariant

    What every transaction of the control plane preserves: a host's reserved
    capacity is exactly what its unreleased machines hold, machines without a
    placement have no host, children of a pending fork stay starting and
    reserved.  The lemmas here cover the updates that leave placements alone;
    the transactions that move capacity follow in [FleetSteps]. *)

From S2P Require Import Prelude Text Capacity Lifecycle Billing Fleet Scheduler MachineRepo ForkRepo.
From S2P Require Import ReconcileDb.

(** ** Resource vectors by dimension *)

Inductive dimension := Vcpus | MemoryMb | DiskMb.

Definition rget (d : dimension) (r : Resources) : Z :=
  match d with Vcpus => vcpus r | MemoryMb => memoryMb r | DiskMb => diskMb r end.

Lemma rget_radd d a b : rget d (radd a b) = rget d a + rget d b.
Proof. by destruct d. Qed.
Lemma rget_rscale d k a : rget d (rscale k a) = k * rget d a.
Proof. by destruct d. Qed.
Lemma rget_rsub0 d a b : rget d (rsub0 a b) = Z.max 0 (rget d a - rget d b).
Proof. by destruct d. Qed.

#[export] Hint Rewrite rget_radd rget_rscale rget_rsub0 : nehemiah.

(** ** The invariant *)

(** The machine holds capacity on host [h]. *)
Definition holds (h : string) (m : MachineRow) : bool :=
  bool_decide (host_id (place m) = Some h) &&
  bool_decide (reservation_released_at (place m) = None).

Definition holding (d : dimension) (h : string) (m : MachineRow) : Z :=
  if holds h m then rget d (resources (ident m)) else 0.

(** The capacity the machine table says host [h] owes. *)
Definition held (d : dimension) (h : string) (db : FleetDb) : Z :=
  map_sum (holding d h) (machines db).

Definition unplaced (m : MachineRow) : bool := in_states (mstate m) [Requested; Placing].

(** A machine of fork [op] against its operation. *)
Definition child_of (op : string) (id : string) (m : MachineRow) (k : ForkRow) : Prop :=
  host_id (place m) = Some (k_source_host k) ∧ id ∈ (k_children k).*1 ∧
  create_claim_token (claim m) = None ∧
  (k_state k = ForkPending →
     mstate m = Starting ∧ reservation_released_at (place m) = None).

Record fleet_inv (db : FleetDb) : Prop := mkFleetInv {
  fi_reserved : ∀ h row d, hosts db !! h = Some row → rget d (reserved row) = held d h db;
  fi_host : ∀ id m h, machines db !! id = Some m → host_id (place m) = Some h →
    is_Some (hosts db !! h);
  fi_unplaced : ∀ id m, machines db !! id = Some m → unplaced m = true →
    host_id (place m) = None ∧ reservation_released_at (place m) = None;
  fi_released : ∀ id m, machines db !! id = Some m →
    is_Some (reservation_released_at (place m)) → terminal (mstate m) = true;
  fi_fork : ∀ id m op, machines db !! id = Some m → fork_operation_id (ident m) = Some op →
    ∃ k, forks db !! op = Some k ∧ child_of op id m k;
  fi_children : ∀ op k c, forks db !! op = Some k → c ∈ (k_children k).*1 →
    ∃ m, machines db !! c = Some m ∧ fork_operation_id (ident m) = Some op;
  fi_positive : ∀ id m d, machines db !! id = Some m → 0 <= rget d (resources (ident m))
}.

(** ** Updates that leave placements alone *)

(** A row update that keeps identity, host and reservation; [pend] says which
    rows belong to a fork that stays pending. *)
Record soft (pend : MachineRow → bool) (m m' : MachineRow) : Prop := mkSoft {
  so_ident : ident m' = ident m;
  so_host : host_id (place m') = host_id (place m);
  so_released : reservation_released_at (place m') = reservation_released_at (place m);
  so_rank : rank (mstate m) <= rank (mstate m');
  so_final : terminal (mstate m) = true → mstate m' = mstate m;
  so_pending : pend m = true → mstate m' = mstate m;
  so_claim : is_Some (fork_operation_id (ident m)) → create_claim_token (claim m) = None →
    create_claim_token (claim m') = None
}.

#[export] Instance soft_refl pend : Reflexive (soft pend).
Proof. intros m. by constructor. Qed.

Lemma soft_unplaced pend m m' : soft pend m m' → unplaced m' = true → unplaced m = true.
Proof. intros [_ _ _ Hr _ _ _]. unfold unplaced. rewrite !unplaced_rank. lia. Qed.

Lemma soft_terminal pend m m' :
  soft pend m m' → terminal (mstate m) = true → terminal (mstate m') = true.
Proof. intros [] Ht. by rewrite so_final0. Qed.

Definition fork_key (k : ForkRow) : string * string * string * string :=
  (k_organization k, k_project k, k_source_machine k, k_key k).

(** A fork operation keeps its key, its host and its children; once completed its
    state is final. *)
Definition fork_advances (k k' : ForkRow) : Prop :=
  k_source_host k' = k_source_host k ∧ k_children k' = k_children k ∧
  (k_state k ≠ ForkPending → k_state k' = k_state k ∧ k_failure k' = k_failure k) ∧
  fork_key k' = fork_key k ∧
  k_request_hash k' = k_request_hash k.

#[export] Instance fork_advances_refl : Reflexive fork_advances.
Proof. by intros k. Qed.

Lemma fork_advances_pending k k' :
  fork_advances k k' → k_state k' = ForkPending → k_state k = ForkPending.
Proof. intros (_ & _ & H & _) Hp. destruct (k_state k); [done|..]; destruct H as [H _]; congruence. Qed.

(** A soft update never fails a fork. *)
Definition fork_soft (k k' : ForkRow) : Prop :=
  fork_advances k k' ∧ (k_state k' = ForkFailed → k_state k = ForkFailed).

#[export] Instance fork_soft_refl : Reflexive fork_soft.
Proof. by intros k. Qed.

Record soft_db (db db' : FleetDb) : Prop := mkSoftDb {
  sd_machines : ∀ id,
    option_Forall2 (soft (fork_pending db')) (machines db !! id) (machines db' !! id);
  sd_hosts : reserved <$> hosts db' = reserved <$> hosts db;
  sd_forks : ∀ op, option_Forall2 fork_soft (forks db !! op) (forks db' !! op)
}.

Lemma fmap_lookup {A B} (g : A → B) (t t' : gmap string A) k x' :
  g <$> t' = g <$> t → t' !! k = Some x' → ∃ x, t !! k = Some x ∧ g x' = g x.
Proof.
  intros Heq Hk. assert ((g <$> t') !! k = (g <$> t) !! k) as H by by rewrite Heq.
  rewrite !lookup_fmap, Hk in H. destruct (t !! k) as [x|]; [|done].
  apply (inj Some) in H. eauto.
Qed.

Lemma forall2_lookup {A B} (R : A → B → Prop) x y b :
  option_Forall2 R x y → y = Some b → ∃ a, x = Some a ∧ R a b.
Proof. intros H Hy. rewrite Hy in H. inversion H; subst. eauto. Qed.

Lemma forall2_lookup_l {A B} (R : A → B → Prop) x y a :
  option_Forall2 R x y → x = Some a → ∃ b, y = Some b ∧ R a b.
Proof. intros H Hy. rewrite Hy in H. inversion H; subst. eauto. Qed.

Lemma holding_soft pend d h m m' : soft pend m m' → holding d h m' = holding d h m.
Proof. intros []. unfold holding, holds. by rewrite so_ident0, so_host0, so_released0. Qed.

Lemma held_soft db db' d h : soft_db db db' → held d h db' = held d h db.
Proof.
  intros [Hm _ _]. unfold held. symmetry. apply map_sum_rel. intros id.
  destruct (Hm id); constructor. symmetry. by eapply holding_soft.
Qed.

Lemma fork_pending_lookup db m op k :
  fork_operation_id (ident m) = Some op → forks db !! op = Some k →
  fork_pending db m = bool_decide (k_state k = ForkPending).
Proof. intros Hf Hk. unfold fork_pending. by rewrite Hf, Hk. Qed.

Lemma inv_soft db db' : soft_db db db' → fleet_inv db → fleet_inv db'.
Proof.
  intros Hs Hinv. pose proof Hs as [Hmm Hh Hf]. constructor.
  - intros h row' d Hrow. destruct (fmap_lookup _ _ _ _ _ Hh Hrow) as (row & Hr & ->).
    rewrite (held_soft db db') by done. by apply fi_reserved.
  - intros id m' h Hid Hhost. destruct (forall2_lookup _ _ _ _ (Hmm id) Hid) as (m & Hm & []).
    rewrite so_host0 in Hhost. destruct (fi_host db Hinv id m h Hm Hhost) as [row Hrow].
    destruct (fmap_lookup _ _ _ _ _ (eq_sym Hh) Hrow) as (row' & ? & _). by eexists.
  - intros id m' Hid Hun. destruct (forall2_lookup _ _ _ _ (Hmm id) Hid) as (m & Hm & Hso).
    pose proof (soft_unplaced _ _ _ Hso Hun). destruct Hso. rewrite so_host0, so_released0.
    by eapply fi_unplaced.
  - intros id m' Hid Hrel. destruct (forall2_lookup _ _ _ _ (Hmm id) Hid) as (m & Hm & Hso).
    eapply soft_terminal; [done|]. destruct Hso. rewrite so_released0 in Hrel.
    by apply (fi_released db Hinv id).
  - intros id m' op Hid Hop.
    destruct (forall2_lookup _ _ _ _ (Hmm id) Hid) as (m & Hm & []).
    rewrite so_ident0 in Hop.
    destruct (fi_fork db Hinv id m op Hm Hop) as (k & Hk & Hhost & Hin & Hcl & Hpend).
    destruct (forall2_lookup_l _ _ _ _ (Hf op) Hk) as (k' & Hk' & Hadv & _).
    pose proof Hadv as (Hsrc & Hch & _). exists k'. split; [done|].
    unfold child_of. rewrite so_host0, so_released0, Hsrc, Hch.
    split_and!; [done|done|apply so_claim0; [by eexists|done]|].
    intros Hp. destruct (Hpend (fork_advances_pending _ _ Hadv Hp)) as [Hstart Hrel].
    split; [|done]. rewrite so_pending0; [done|].
    rewrite (fork_pending_lookup db' m op k') by done. by apply bool_decide_eq_true.
  - intros op k' c Hk' Hc.
    destruct (forall2_lookup _ _ _ _ (Hf op) Hk') as (k & Hk & (_ & Hch & _) & _).
    rewrite Hch in Hc. destruct (fi_children db Hinv op k c Hk Hc) as (m & Hm & Hop).
    destruct (forall2_lookup_l _ _ _ _ (Hmm c) Hm) as (m' & ? & []).
    exists m'. split; [done|]. by rewrite so_ident0.
  - intros id m' d Hid. destruct (forall2_lookup _ _ _ _ (Hmm id) Hid) as (m & Hm & []).
    rewrite so_ident0. by apply (fi_positive db Hinv id).
Qed.

Lemma forall2_refl {A} (R : A → A → Prop) `{!Reflexive R} x : option_Forall2 R x x.
Proof. destruct x; constructor. reflexivity. Qed.

#[export] Instance soft_db_refl : Reflexive soft_db.
Proof. intros db. constructor; [|done|]; intros; apply forall2_refl; apply _. Qed.

Lemma fork_pending_same db db' m : forks db' = forks db → fork_pending db' m = fork_pending db m.
Proof. intros H. unfold fork_pending. by rewrite H. Qed.

Lemma soft_pend pend pend' m m' :
  (∀ m, pend' m = true → pend m = true) → soft pend m m' → soft pend' m m'.
Proof. intros Hp []. constructor; auto. Qed.

(** One row changes softly, the other tables the invariant reads do not. *)
Lemma soft_db_set db db' id m m' :
  machines db !! id = Some m → soft (fork_pending db) m m' →
  machines db' = <[id := m']> (machines db) → hosts db' = hosts db → forks db' = forks db →
  soft_db db db'.
Proof.
  intros Hm Hs Heq Hh Hf. constructor; [|by rewrite Hh|].
  2: { intros op. rewrite Hf. apply forall2_refl, _. }
  intros id'. rewrite Heq. destruct (decide (id = id')) as [<-|Hne].
  - rewrite lookup_insert_eq, Hm. constructor.
    eapply soft_pend; [|exact Hs]. intros x. by rewrite (fork_pending_same db db').
  - rewrite lookup_insert_ne by done. apply forall2_refl, _.
Qed.

(** Every row changes by a soft function. *)
Lemma soft_db_imap db db' (f : string → MachineRow → MachineRow) :
  (∀ id m, machines db !! id = Some m → soft (fork_pending db) m (f id m)) →
  machines db' = map_imap (λ id m, Some (f id m)) (machines db) →
  hosts db' = hosts db → forks db' = forks db → soft_db db db'.
Proof.
  intros Hs Heq Hh Hf. constructor; [|by rewrite Hh|].
  2: { intros op. rewrite Hf. apply forall2_refl, _. }
  intros id. rewrite Heq, map_lookup_imap. specialize (Hs id).
  destruct (machines db !! id); simpl; constructor.
  eapply soft_pend; [|by apply Hs]. intros x. by rewrite (fork_pending_same db db').
Qed.

(** Only the rows of forks change. *)
Lemma soft_db_forks db db' :
  machines db' = machines db → hosts db' = hosts db →
  (∀ op, option_Forall2 fork_soft (forks db !! op) (forks db' !! op)) → soft_db db db'.
Proof.
  intros Hm Hh Hf. constructor; [|by rewrite Hh|done]. intros id. rewrite Hm.
  apply forall2_refl, _.
Qed.

Lemma set_fork_soft_rows (t : gmap string ForkRow) op k k' :
  t !! op = Some k → fork_soft k k' →
  ∀ i, option_Forall2 fork_soft (t !! i) (<[op := k']> t !! i).
Proof.
  intros Hk Hc i. destruct (decide (op = i)) as [<-|Hne].
  - rewrite lookup_insert_eq, Hk. by constructor.
  - rewrite lookup_insert_ne by done. apply forall2_refl, _.
Qed.
