(* ===== verification/FleetSteps.v ===== *)
(** * Transactions preserve the fleet invariant

    One lemma per transaction: those that leave placements alone are soft
    updates, those that place, release or fork move capacity and rows
    together. *)

From S2P Require Import Prelude Text Capacity Lifecycle Billing Fleet Scheduler MachineRepo ForkRepo.
From S2P Require Import ReconcileDb FleetInv.

(** ** Soft transactions *)

Lemma unplaced_no_fork db id m :
  fleet_inv db → machines db !! id = Some m → unplaced m = true →
  fork_operation_id (ident m) = None.
Proof.
  intros Hinv Hm Hun. destruct (fork_operation_id (ident m)) as [op|] eqn:Hop; [|done].
  destruct (fi_fork db Hinv id m op Hm Hop) as (k & _ & Hhost & _).
  destruct (fi_unplaced db Hinv id m Hm Hun). congruence.
Qed.

Lemma claimed_no_fork db id m token :
  fleet_inv db → machines db !! id = Some m → create_claim_token (claim m) = Some token →
  fork_operation_id (ident m) = None.
Proof.
  intros Hinv Hm Htok. destruct (fork_operation_id (ident m)) as [op|] eqn:Hop; [|done].
  destruct (fi_fork db Hinv id m op Hm Hop) as (k & _ & _ & _ & Hc & _). congruence.
Qed.

Lemma no_fork_not_pending db m : fork_operation_id (ident m) = None → fork_pending db m = false.
Proof. intros H. unfold fork_pending. by rewrite H. Qed.

Lemma visible_not_pending db m : visible db m = true → fork_pending db m = false.
Proof.
  unfold visible, fork_pending. destruct (fork_operation_id (ident m)) as [op|]; [|done].
  destruct (forks db !! op) as [k|]; [|done]. intros H%bool_decide_eq_true.
  by rewrite H.
Qed.

(** Splits a transaction's result into the branch that was taken. *)
Ltac branch H :=
  repeat (match type of H with context [match ?x with _ => _ end] =>
            let E := fresh "E" in destruct x eqn:E; try discriminate H end).

(** Closes the side conditions of a soft row update. *)
Ltac soft_row :=
  constructor; simpl; try done; try congruence; intros;
  try match goal with
  | H : in_states _ _ = true |- _ => apply in_states_spec in H
  end; auto.

Lemma claimCreate_soft now id token db r db' :
  fleet_inv db → claimCreate now id token db = Ok (r, db') → soft_db db db'.
Proof.
  intros Hinv H. unfold claimCreate in H. destruct (machines db !! id) as [m|] eqn:Hm;
    [|injection H as <- <-; reflexivity].
  destruct (_ && _) eqn:E; injection H as <- <-; [|reflexivity].
  bool_simp. eapply (soft_db_set _ _ id); [done| |done..]. constructor; try done.
  rewrite (unplaced_no_fork db id m) by (done || unfold unplaced, mstate in *; by
    match goal with H : _ = Requested |- _ => rewrite H end). by intros [].
Qed.

Lemma clear_claim_soft db m : soft (fork_pending db) m (clear_create_claim m).
Proof. by constructor. Qed.

Lemma releaseCreateClaim_soft id token db r db' :
  releaseCreateClaim id token db = Ok (r, db') → soft_db db db'.
Proof.
  unfold releaseCreateClaim. destruct (machines db !! id) as [m|] eqn:Hm;
    [|intros [= <- <-]; reflexivity].
  case_bool_decide; intros [= <- <-]; [|reflexivity].
  eapply (soft_db_set _ _ id); [done|apply clear_claim_soft|done..].
Qed.

Lemma failCreate_soft now id token f uuid db r db' :
  fleet_inv db → failCreate now id token f uuid db = Ok (r, db') → soft_db db db'.
Proof.
  intros Hinv H. unfold failCreate in H. destruct (machines db !! id) as [m|] eqn:Hm;
    [|injection H as <- <-; reflexivity].
  destruct (_ && _) eqn:E; injection H as <- <-; [|reflexivity]. bool_simp.
  eapply (soft_db_set _ _ id); [done| |done..].
  unfold in_states in *. constructor; try done; unfold mstate in *; simpl.
  - by destruct (state (life m)).
  - by destruct (state (life m)).
  - intros Hp. rewrite no_fork_not_pending in Hp; [done|]. by eapply claimed_no_fork.
Qed.

Lemma observeHost_soft now clock id hm uuid db r db' :
  (∀ m, machines db !! id = Some m → fork_operation_id (ident m) = None) →
  observeHost now clock id hm uuid db = Ok (r, db') → soft_db db db'.
Proof.
  intros Hf. unfold observeHost. destruct (machines db !! id) as [m|] eqn:Hm;
    [|intros [= <- <-]; reflexivity].
  case_bool_decide as Hs; [|intros [= <- <-]; reflexivity].
  assert (soft (fork_pending db) m (observed_row now clock hm m)) as Hsoft.
  { specialize (Hf m eq_refl). constructor; try done.
    - unfold mstate in *. simpl. rewrite Hs. by destruct (hm_ready hm).
    - unfold mstate in *. by rewrite Hs.
    - by rewrite no_fork_not_pending. }
  intros [= <- <-]. destruct (hm_ready hm);
    (eapply (soft_db_set _ _ id); [done|exact Hsoft|done..]).
Qed.

(** The edges the services ask [transition] for: the create compensation and
    the two of destroy. *)
Definition service_edges : list (list MachineState * MachineState) :=
  [([Starting; Running], Stopping);
   ([Requested; Placing; Starting; Running], Stopping);
   ([Stopping], Stopped)].

Lemma transitioned_state now to reason m : mstate (transitioned_row now to reason m) = to.
Proof. unfold transitioned_row, mstate. by destruct (terminal to). Qed.

Lemma transitioned_place now to reason m : place (transitioned_row now to reason m) = place m.
Proof. unfold transitioned_row. by destruct (terminal to). Qed.

Lemma transitioned_ident now to reason m : ident (transitioned_row now to reason m) = ident m.
Proof. unfold transitioned_row. by destruct (terminal to). Qed.

Lemma service_edge_spec from to s :
  (from, to) ∈ service_edges → in_states s from = true →
  rank s <= rank to ∧ terminal s = false.
Proof.
  unfold service_edges. intros He Hs. repeat (apply elem_of_cons in He as [[= -> ->]|He];
    [by destruct s|]). by apply not_elem_of_nil in He.
Qed.

Lemma transition_soft now id from to reason uuid db r db' :
  (from, to) ∈ service_edges →
  (∀ m, machines db !! id = Some m → fork_pending db m = false) →
  transition now id from to reason uuid db = Ok (r, db') → soft_db db db'.
Proof.
  intros Hedge Hp. unfold transition. destruct (machines db !! id) as [m|] eqn:Hm;
    [|intros [= <- <-]; reflexivity].
  destruct (in_states (mstate m) from) eqn:Hs; intros [= <- <-]; [|reflexivity].
  destruct (service_edge_spec _ _ _ Hedge Hs) as [Hto Hnt].
  eapply (soft_db_set _ _ id); [done| |done..]. constructor.
  - apply transitioned_ident.
  - by rewrite transitioned_place.
  - by rewrite transitioned_place.
  - by rewrite transitioned_state.
  - congruence.
  - rewrite Hp by done. done.
  - intros _ Hc. unfold transitioned_row. by destruct (terminal to).
Qed.

Lemma beginExtend_soft `{BillingAdmission FleetDb} admitted id org project key hash ttl db r db' :
  beginExtend admitted id org project key hash ttl db = Ok (r, db') → soft_db db db'.
Proof.
  unfold beginExtend. intros Hb. repeat case_match; simplify_eq; try reflexivity.
  by apply soft_db_forks.
Qed.

Lemma completeExtend_soft now op id org result db r db' :
  completeExtend now op id org result db = Ok (r, db') → soft_db db db'.
Proof.
  unfold completeExtend. intros Hc. destruct (machines db !! id) as [m|] eqn:Hm; [|done].
  destruct (negb _); [done|]. destruct (List.find _ _) as [x|]; [|done].
  destruct (x_result_expires_at x) as [recorded|]; [|done].
  destruct (terminal (mstate m)); injection Hc as <- <-.
  - by apply soft_db_forks.
  - eapply (soft_db_set _ _ id); [done| |done..]. by constructor.
Qed.

Lemma set_fork_soft db op k k' :
  forks db !! op = Some k → fork_soft k k' → soft_db db (set_fork op k' db).
Proof. intros Hk Hc. apply soft_db_forks; [done..|]. simpl. by apply (set_fork_soft_rows _ _ k). Qed.

Lemma requestForkCleanup_soft now op f token db r db' :
  requestForkCleanup now op f token db = Ok (r, db') → soft_db db db'.
Proof.
  unfold requestForkCleanup. destruct (forks db !! op) as [k|] eqn:Hk; [|done].
  destruct (negb _); [intros [= <- <-]; reflexivity|].
  destruct (k_cleanup_requested_at k); destruct (claim_free _ _); intros [= <- <-];
    by apply (set_fork_soft db op k).
Qed.

Lemma releaseForkCleanupClaim_soft now op token db r db' :
  releaseForkCleanupClaim now op token db = Ok (r, db') → soft_db db db'.
Proof.
  unfold releaseForkCleanupClaim. destruct (forks db !! op) as [k|] eqn:Hk;
    [|intros [= <- <-]; reflexivity].
  destruct (_ && _); intros [= <- <-]; [|reflexivity]. by apply (set_fork_soft db op k).
Qed.

Lemma claimPendingForks_soft now limit token locked db r db' :
  claimPendingForks now limit token locked db = Ok (r, db') → soft_db db db'.
Proof.
  unfold claimPendingForks. intros [= <- <-]. apply soft_db_forks; [done..|]. simpl.
  match goal with |- context [foldl _ (forks db) ?l] => generalize l end. intros ids.
  assert (∀ ks : gmap string ForkRow,
    (∀ op, option_Forall2 fork_soft (forks db !! op) (ks !! op)) →
    ∀ op, option_Forall2 fork_soft (forks db !! op)
      (foldl (λ ks id, alter (claimed_fork now token) id ks) ks ids !! op)) as Hgen.
  { induction ids as [|i ids IH]; intros ks Hks; simpl; [done|]. apply IH.
    intros op. specialize (Hks op). destruct (decide (i = op)) as [<-|Hne].
    - rewrite lookup_alter_eq. by destruct Hks; constructor.
    - by rewrite lookup_alter_ne. }
  apply Hgen. intros op. apply forall2_refl, _.
Qed.

Lemma releaseForkClaim_soft now op token failed db r db' :
  releaseForkClaim now op token failed db = Ok (r, db') → soft_db db db'.
Proof.
  unfold releaseForkClaim. destruct (forks db !! op) as [k|] eqn:Hk;
    [|intros [= <- <-]; reflexivity].
  case_bool_decide; intros [= <- <-]; [|reflexivity]. by apply (set_fork_soft db op k).
Qed.

(** ** The reconciler's soft transactions *)

Lemma foldl_add_event {A} (mk : A → MachineEvent) (l : list A) db :
  let db' := foldl (λ db x, add_event (mk x) db) db l in
  machines db' = machines db ∧ hosts db' = hosts db ∧ forks db' = forks db.
Proof. revert db. induction l as [|x l IH]; intros db; simpl; [done|]. apply (IH (add_event (mk x) db)). Qed.

Lemma markLost_soft lpe db r db' :
  markLostOnStaleHosts lpe db = Ok (r, db') → soft_db db db'.
Proof.
  unfold markLostOnStaleHosts. intros [= <- <-].
  match goal with |- context [foldl ?f db ?l] =>
    destruct (foldl_add_event (λ kv : string * MachineRow,
      mkEvent (kv.1 +:+ ":stale-host:lost") kv.1 (organization_id (ident kv.2))
        (Some (mstate kv.2)) Lost (Some "host heartbeat expired") "reconciler") l db)
      as (Hm & Hh & Hf) end.
  eapply soft_db_imap; [|simpl; by rewrite Hm|done..].
  intros id m Hid. cbv beta. destruct (loses db m) eqn:El; [|reflexivity].
  unfold loses in El. bool_simp. constructor; try done; try congruence.
  apply rank_last.
Qed.

Lemma finish_soft now id lease to reason cutoff db r db' :
  terminal to = true →
  (∀ m, machines db !! id = Some m → fork_pending db m = false) →
  finish now id lease to reason cutoff db = Ok (r, db') → soft_db db db'.
Proof.
  intros Hto Hp. unfold finish. destruct (machines db !! id) as [m|] eqn:Hm;
    [|intros [= <- <-]; reflexivity].
  destruct (_ && _) eqn:E; intros [= <- <-]; [|reflexivity].
  eapply (soft_db_set _ _ id); [done| |done..]. constructor; try done.
  - apply terminal_rank in Hto. unfold mstate at 2. simpl. rewrite Hto. apply rank_last.
  - bool_simp. congruence.
  - by rewrite Hp.
Qed.

Lemma claimReconcileBatch_soft now token locked db r db' :
  claimReconcileBatch now token locked db = Ok (r, db') → soft_db db db'.
Proof.
  unfold claimReconcileBatch. intros [= <- <-]. constructor; [|done|].
  2: { intros op. apply forall2_refl, _. }
  simpl.
  match goal with |- context [foldl _ (machines db) ?l] => generalize l end. intros batch.
  assert (∀ ms : gmap string MachineRow, (∀ id, option_Forall2 (soft (fork_pending db)) (machines db !! id) (ms !! id)) →
    ∀ id, option_Forall2 (soft (fork_pending db)) (machines db !! id)
      (foldl (λ ms kv, alter (claimed_row now token) kv.1 ms) ms batch !! id)) as Hgen.
  { induction batch as [|kv batch IH]; intros ms Hms; simpl; [done|]. apply IH.
    intros id. specialize (Hms id). destruct (decide (kv.1 = id)) as [<-|Hne].
    - rewrite lookup_alter_eq. destruct Hms as [m m' []|]; constructor. by constructor.
    - by rewrite lookup_alter_ne. }
  apply Hgen. intros id. destruct (machines db !! id); constructor. reflexivity.
Qed.

Lemma releaseReconcileClaim_soft now id lease token failed db r db' :
  releaseReconcileClaim now id lease token failed db = Ok (r, db') → soft_db db db'.
Proof.
  unfold releaseReconcileClaim. destruct (machines db !! id) as [m|] eqn:Hm;
    [|intros [= <- <-]; reflexivity].
  destruct (_ && _); intros [= <- <-]; [|reflexivity].
  eapply (soft_db_set _ _ id); [done| |done..]. by constructor.
Qed.

Lemma persistRecovered_soft now id lease hm db r db' :
  persistRecovered now id lease hm db = Ok (r, db') → soft_db db db'.
Proof.
  unfold persistRecovered. destruct (machines db !! id) as [m|] eqn:Hm;
    [|intros [= <- <-]; reflexivity].
  destruct (_ && _); intros [= <- <-]; [|reflexivity].
  eapply (soft_db_set _ _ id); [done| |done..]. by constructor.
Qed.

Lemma observeRunning_soft now id lease hm db r db' :
  observeRunning now id lease hm db = Ok (r, db') → soft_db db db'.
Proof.
  unfold observeRunning. destruct (machines db !! id) as [m|] eqn:Hm;
    [|intros [= <- <-]; reflexivity].
  destruct (_ && _); intros [= <- <-]; [|reflexivity].
  eapply (soft_db_set _ _ id); [done| |done..]. by constructor.
Qed.

Lemma observeStarting_soft now id lease hm db r db' :
  (∀ m, machines db !! id = Some m → fork_pending db m = false) →
  observeStarting now id lease hm db = Ok (r, db') → soft_db db db'.
Proof.
  intros Hp. unfold observeStarting. destruct (machines db !! id) as [m|] eqn:Hm;
    [|intros [= <- <-]; reflexivity].
  destruct (_ && _) eqn:E; [|intros [= <- <-]; reflexivity]. bool_simp.
  match goal with |- context [set_machine id ?m' db] => assert (soft (fork_pending db) m m') as Hs end.
  { constructor; try done; unfold mstate in *; simpl.
    - match goal with H : state _ = Starting |- _ => rewrite H end. by destruct (hm_ready hm).
    - match goal with H : state _ = Starting |- _ => by rewrite H end.
    - by rewrite Hp. }
  destruct (hm_ready hm); intros [= <- <-];
    (eapply (soft_db_set _ _ id); [done|exact Hs|done..]).
Qed.
