(* ===== verification/FleetHard.v ===== *)
(** * Transactions that move capacity

    Inserting a requested machine, reserving, releasing and the three ends of a
    fork preserve the fleet invariant: each changes a host's [reserved] columns
    and the machines holding that capacity by the same amount. *)

From S2P Require Import Prelude Text Capacity Lifecycle Billing Fleet Scheduler MachineRepo ForkRepo.
From S2P Require Import ReconcileDb FleetInv FleetSteps.

(** ** Host tables *)

Lemma alter_reserved_lookup (f : Resources → Resources) (t : gmap string HostRow) h h' row' :
  alter (λ row, row <| reserved ::= f |>) h t !! h' = Some row' →
  ∃ row, t !! h' = Some row ∧
    reserved row' = if decide (h' = h) then f (reserved row) else reserved row.
Proof.
  destruct (decide (h' = h)) as [->|Hne].
  - rewrite lookup_alter_eq. destruct (t !! h) as [row|]; [|done]. intros [= <-]. eauto.
  - rewrite lookup_alter_ne by done. eauto.
Qed.

Lemma alter_is_Some {A} (f : A → A) (t : gmap string A) h h' :
  is_Some (t !! h') → is_Some (alter f h t !! h').
Proof.
  intros [x Hx]. destruct (decide (h' = h)) as [->|Hne].
  - rewrite lookup_alter_eq, Hx. by eexists.
  - rewrite lookup_alter_ne by done. by eexists.
Qed.

(** ** Held capacity *)

Lemma held_set d h db db' id m m' :
  machines db !! id = Some m → machines db' = <[id := m']> (machines db) →
  held d h db' = held d h db - holding d h m + holding d h m'.
Proof. intros Hm Heq. unfold held. rewrite Heq. by apply map_sum_insert. Qed.

Lemma held_new d h db db' id m :
  machines db !! id = None → machines db' = <[id := m]> (machines db) →
  held d h db' = holding d h m + held d h db.
Proof. intros Hm Heq. unfold held. rewrite Heq. by apply map_sum_insert_new. Qed.

Lemma holding_nonneg d h m : 0 <= rget d (resources (ident m)) → 0 <= holding d h m.
Proof. intros. unfold holding. by destruct (holds h m). Qed.

Lemma holding_le_held db d h id m :
  fleet_inv db → machines db !! id = Some m → holding d h m <= held d h db.
Proof.
  intros Hinv Hm. apply (map_sum_lookup (holding d h) _ id); [|done].
  intros k x Hk. apply holding_nonneg. by eapply fi_positive.
Qed.

Lemma holding_no_host d h m : host_id (place m) = None → holding d h m = 0.
Proof. intros H. unfold holding, holds. rewrite H. by rewrite bool_decide_eq_false_2. Qed.

Lemma holding_released d h m : is_Some (reservation_released_at (place m)) → holding d h m = 0.
Proof.
  intros [t H]. unfold holding, holds. rewrite H, (bool_decide_eq_false_2 (Some t = None)) by done.
  by rewrite andb_false_r.
Qed.

Lemma holding_on d h h' m :
  host_id (place m) = Some h → reservation_released_at (place m) = None →
  holding d h' m = if decide (h' = h) then rget d (resources (ident m)) else 0.
Proof.
  intros Hh Hr. unfold holding, holds. rewrite Hh, Hr.
  rewrite (bool_decide_eq_true_2 (None = None)) by done. rewrite andb_true_r.
  destruct (decide (h' = h)) as [->|Hne].
  - by rewrite bool_decide_eq_true_2.
  - rewrite bool_decide_eq_false_2; [done|congruence].
Qed.

(** ** A single row changes placement *)

(** What a row update has to establish apart from the capacity equation. *)
Record row_ok (db : FleetDb) (m m' : MachineRow) : Prop := mkRowOk {
  ro_ident : ident m' = ident m;
  ro_host : ∀ h, host_id (place m') = Some h → is_Some (hosts db !! h);
  ro_unplaced : unplaced m' = false;
  ro_released : is_Some (reservation_released_at (place m')) → terminal (mstate m') = true;
  ro_fork : ∀ op, fork_operation_id (ident m) = Some op →
    host_id (place m') = host_id (place m) ∧ fork_pending db m = false ∧
    create_claim_token (claim m') = create_claim_token (claim m)
}.

Lemma inv_row db db' id m m' (f : Resources → Resources) h :
  fleet_inv db → machines db !! id = Some m → row_ok db m m' →
  machines db' = <[id := m']> (machines db) → forks db' = forks db →
  hosts db' = alter (λ row, row <| reserved ::= f |>) h (hosts db) →
  (∀ d h' row, hosts db !! h' = Some row →
     (if decide (h' = h) then rget d (f (reserved row)) else rget d (reserved row))
     = held d h' db - holding d h' m + holding d h' m') →
  fleet_inv db'.
Proof.
  intros Hinv Hm [] Hms Hfs Hhs Hcap. constructor.
  - intros h' row' d Hrow. rewrite Hhs in Hrow.
    apply alter_reserved_lookup in Hrow as (row & Hrow & ->).
    rewrite (held_set d h' db db' id m m') by done. rewrite <- (Hcap d h' row Hrow).
    by destruct (decide (h' = h)).
  - intros id' x h' Hx Hh'. rewrite Hhs. apply alter_is_Some. rewrite Hms in Hx.
    apply lookup_insert_Some in Hx as [[<- <-]|[_ Hx]]; [by apply ro_host0|].
    by eapply fi_host.
  - intros id' x Hx Hun. rewrite Hms in Hx.
    apply lookup_insert_Some in Hx as [[<- <-]|[_ Hx]]; [congruence|]. by eapply fi_unplaced.
  - intros id' x Hx Hr. rewrite Hms in Hx.
    apply lookup_insert_Some in Hx as [[<- <-]|[_ Hx]]; [by auto|]. by eapply fi_released.
  - intros id' x op Hx Hop. rewrite Hfs. rewrite Hms in Hx.
    apply lookup_insert_Some in Hx as [[<- <-]|[_ Hx]]; [|by eapply fi_fork].
    rewrite ro_ident0 in Hop.
    destruct (fi_fork db Hinv id m op Hm Hop) as (k & Hk & Hhost & Hin & Hc & _).
    destruct (ro_fork0 op Hop) as (Hsame & Hnp & Hcl).
    exists k. split; [done|]. split_and!; [congruence|done|congruence|].
    intros Hp. rewrite (fork_pending_lookup db m op k Hop Hk) in Hnp.
    apply bool_decide_eq_false in Hnp. done.
  - intros op k c Hk Hc. rewrite Hfs in Hk. rewrite Hms.
    destruct (fi_children db Hinv op k c Hk Hc) as (x & Hx & Hop).
    destruct (decide (id = c)) as [<-|Hne].
    + rewrite lookup_insert_eq. exists m'. split; [done|]. rewrite ro_ident0. congruence.
    + rewrite lookup_insert_ne by done. eauto.
  - intros id' x d Hx. rewrite Hms in Hx.
    apply lookup_insert_Some in Hx as [[<- <-]|[_ Hx]]; [|by eapply fi_positive].
    rewrite ro_ident0. by eapply fi_positive.
Qed.

(** ** Requested machines *)

Lemma insertRequested_inv now id i expires uuid db r db' :
  fleet_inv db → fork_operation_id i = None → (∀ d, 0 <= rget d (resources i)) →
  insertRequested now id i expires uuid db = Ok (r, db') → fleet_inv db'.
Proof.
  intros Hinv Hfork Hpos H. unfold insertRequested in H.
  destruct (negb _); [done|]. destruct (insert_conflicts id i db) eqn:E; [done|].
  apply (f_equal (λ x, match x with Ok (_, s) => s | Err _ => db end)) in H. subst db'.
  unfold insert_conflicts in E. bool_simp.
  assert (machines db !! id = None) as Hnone by by apply eq_None_not_Some.
  constructor; simpl.
  - intros h row d Hrow. rewrite (held_new d h db _ id (requested_row now i expires)) by done.
    rewrite holding_no_host by done. by rewrite (fi_reserved db Hinv h row d).
  - intros id' x h Hx Hh. apply lookup_insert_Some in Hx as [[<- <-]|[_ Hx]]; [done|].
    by eapply fi_host.
  - intros id' x Hx Hun. apply lookup_insert_Some in Hx as [[<- <-]|[_ Hx]]; [done|].
    by eapply fi_unplaced.
  - intros id' x Hx Hr. apply lookup_insert_Some in Hx as [[<- <-]|[_ Hx]]; [by destruct Hr|].
    by eapply fi_released.
  - intros id' x op Hx Hop. apply lookup_insert_Some in Hx as [[<- <-]|[_ Hx]];
      [simpl in Hop; congruence|]. by eapply fi_fork.
  - intros op k c Hk Hc. destruct (fi_children db Hinv op k c Hk Hc) as (x & Hx & Hop).
    exists x. split; [|done]. rewrite lookup_insert_ne; congruence.
  - intros id' x d Hx. apply lookup_insert_Some in Hx as [[<- <-]|[_ Hx]]; [apply Hpos|].
    by eapply fi_positive.
Qed.

(** ** Reserving *)

Lemma enforceQuota_state `{BillingAdmission FleetDb} now request r db u db' :
  enforceQuota now request r db = Ok (u, db') → db' = db.
Proof.
  unfold enforceQuota. intros Hq. branch Hq. by injection Hq as _ <-.
Qed.

Lemma select_host_spec now locked request r db host h :
  select_host now locked request r db = Some (host, h) →
  hosts db !! host = Some h ∧ candidate now db request r (host, h) = true ∧ host ∉ locked.
Proof.
  intros Hs%head_Some_elem_of. rewrite sort_by_perm in Hs.
  apply list_elem_of_In, filter_In in Hs as [Hin Hc]. apply list_elem_of_In in Hin.
  apply elem_of_map_to_list in Hin. by bool_simp.
Qed.

(** A reservation for a machine, taken apart. *)
Lemma reserve_spec `{BillingAdmission FleetDb} now locked request id db rv db' :
  s_machineId request = Some id →
  reserve now locked request db = Ok (rv, db') →
  ∃ r host h m,
    validateResources (s_resources request) = Ok r ∧
    enforceQuota now request r db = Ok ((), db) ∧
    select_host now locked request r db = Some (host, h) ∧
    machines db !! id = Some m ∧ unplaced m = true ∧
    rv = mkReservation host (h_address h) (cached_template db host (s_templateId request))
           (h_cohort_id h) (source_for db h (Some id)) true ∧
    db' = add_event (mkEvent (id +:+ ":assigned") id (organization_id (ident m))
                       (Some Requested) Starting None "control-plane")
            (set_machine id (assigned_row now host (h_cohort_id h) (source_for db h (Some id)) m)
               (reserve_on host r db)).
Proof.
  intros Hid H0. unfold reserve in H0.
  destruct (validateResources _) as [r|e] eqn:Hr; [|done].
  apply tx_bind_Ok in H0 as ([] & db1 & Hq & H0).
  pose proof (enforceQuota_state _ _ _ _ _ _ Hq) as ->.
  apply tx_bind_Ok in H0 as (sel & db2 & Hsel & H0). injection Hsel as <- <-.
  destruct (select_host now locked request r db) as [[host h]|] eqn:Hs; [|done].
  rewrite Hid in H0. unfold assign_machine, mbind, tx_bind, gets, modify in H0.
  simpl (machines _) in H0.
  destruct (machines db !! id) as [m|] eqn:Hm; [|done].
  destruct (in_states (mstate m) [Requested; Placing]) eqn:Hun; [|done].
  exists r, host, h, m. split_and!; try done.
  - exact (eq_sym (f_equal (λ x, match x with Ok (a, _) => a | Err _ => rv end) H0)).
  - exact (eq_sym (f_equal (λ x, match x with Ok (_, s) => s | Err _ => db' end) H0)).
Qed.

Lemma reserve_inv `{BillingAdmission FleetDb} now locked request id db rv db' :
  fleet_inv db → s_machineId request = Some id →
  (∀ m r, machines db !! id = Some m → validateResources (s_resources request) = Ok r →
     resources (ident m) = r) →
  reserve now locked request db = Ok (rv, db') → fleet_inv db'.
Proof.
  intros Hinv Hid Hres H0.
  destruct (reserve_spec _ _ _ _ _ _ _ Hid H0)
    as (r & host & h & m & Hr & _ & Hs & Hm & Hun & _ & ->).
  destruct (select_host_spec _ _ _ _ _ _ _ Hs) as (Hhost & _ & _).
  destruct (fi_unplaced db Hinv id m Hm Hun) as [Hnh Hnr].
  specialize (Hres m r Hm Hr).
  eapply (inv_row db _ id m _ (λ x, radd x r) host); [done|exact Hm| |done..|].
  - constructor; try done.
    + intros h' [= <-]. by eexists.
    + simpl. rewrite Hnr. by intros [].
    + intros op Hop. rewrite (unplaced_no_fork db id m) in Hop by done. done.
  - intros d h' row Hrow. rewrite (holding_no_host d h' m) by done.
    rewrite (holding_on d host h') by done. simpl.
    rewrite <- (fi_reserved db Hinv h' row d Hrow), Hres.
    destruct (decide (h' = host)); autorewrite with nehemiah; lia.
Qed.

(** ** Releasing *)

Lemma release_spec now host r id db u db' :
  release now host r (Some id) db = Ok (u, db') →
  db' = db ∨
  ∃ m, machines db !! id = Some m ∧ reservation_released_at (place m) = None ∧
    db' = unreserve_on host r (set_machine id
            (m <| place ::= λ p, p <| reservation_released_at := Some now |> |>) db).
Proof.
  unfold release, claim_release, mbind, tx_bind.
  destruct (machines db !! id) as [m|] eqn:Hm; [|intros [= _ <-]; by left].
  destruct (reservation_released_at (place m)) eqn:Hr; intros [= _ <-]; [by left|].
  right. by exists m.
Qed.

Lemma release_inv now host r id db u db' :
  fleet_inv db →
  (∀ m, machines db !! id = Some m → terminal (mstate m) = true ∧
     host_id (place m) = Some host ∧ resources (ident m) = r) →
  release now host r (Some id) db = Ok (u, db') → fleet_inv db'.
Proof.
  intros Hinv Hpre H0. destruct (release_spec _ _ _ _ _ _ _ H0) as [->|(m & Hm & Hr & ->)]; [done|].
  destruct (Hpre m Hm) as (Ht & Hh & Hres).
  eapply (inv_row db _ id m _ (λ x, rsub0 x r) host); [done|exact Hm| |done..|].
  - constructor; try done.
    + intros h' Hh'. by eapply fi_host.
    + unfold unplaced. simpl. unfold mstate in *. simpl. by destruct (state (life m)).
    + intros op Hop. split_and!; try done. unfold fork_pending. rewrite Hop.
      destruct (fi_fork db Hinv id m op Hm Hop) as (k & Hk & _ & _ & _ & Hp). rewrite Hk.
      apply bool_decide_eq_false. intros Hpend. destruct (Hp Hpend) as [Hst _].
      rewrite Hst in Ht. done.
  - intros d h' row Hrow. rewrite (holding_released d h' (set_field _ _ _)) by by eexists.
    pose proof (holding_le_held db d h' id m Hinv Hm) as Hle.
    rewrite (holding_on d host h' m) in * by done.
    rewrite <- (fi_reserved db Hinv h' row d Hrow) in *. rewrite <- Hres.
    pose proof (fi_positive db Hinv id m d Hm).
    destruct (decide (h' = host)); autorewrite with nehemiah; lia.
Qed.
