(* ===== verification/FleetForks.v ===== *)
(** * Forks preserve the fleet invariant

    A fork inserts its whole batch with the capacity it needs, stays pending
    while its children are starting and reserved, and ends either with every
    child running or with the whole batch failed and its capacity returned. *)

From S2P Require Import Prelude Text Capacity Lifecycle Billing Fleet Scheduler MachineRepo ForkRepo.
From S2P Require Import ReconcileDb FleetInv FleetSteps FleetHard.

(** ** Inserting the children *)

Record child_at (op source : string) (m : MachineRow) (remaining now : Z) (c : MachineRow)
    : Prop := mkChildAt {
  ca_row : ∃ ordinal ids, c = child_row op source m remaining now ordinal ids
}.

Lemma insert_children_tables op source m remaining now n cs db :
  let db' := insert_children op source m remaining now n cs db in
  hosts db' = hosts db ∧ forks db' = forks db ∧ organizations db' = organizations db ∧
  projects db' = projects db ∧ extends db' = extends db ∧ billing db' = billing db.
Proof.
  revert n db. induction cs as [|c cs IH]; intros n db; simpl; [done|].
  specialize (IH (S n) (insert_child op source m remaining now n c db)). done.
Qed.

Lemma insert_children_other op source m remaining now n cs db id :
  id ∉ (c_machine <$> cs) →
  machines (insert_children op source m remaining now n cs db) !! id = machines db !! id.
Proof.
  revert n db. induction cs as [|c cs IH]; intros n db Hid; simpl; [done|].
  apply not_elem_of_cons in Hid as [Hne Hid]. rewrite IH by done. simpl.
  by rewrite lookup_insert_ne.
Qed.

Lemma insert_children_new op source m remaining now n cs db c :
  NoDup (c_machine <$> cs) → c ∈ (c_machine <$> cs) →
  ∃ row, machines (insert_children op source m remaining now n cs db) !! c = Some row ∧
    child_at op source m remaining now row.
Proof.
  revert n db. induction cs as [|x cs IH]; intros n db Hnd Hc; simpl; [by apply not_elem_of_nil in Hc|].
  apply NoDup_cons in Hnd as [Hx Hnd]. apply elem_of_cons in Hc as [->|Hc]; [|by apply IH].
  rewrite insert_children_other by done. simpl. rewrite lookup_insert_eq.
  eexists. split; [done|]. constructor. by eexists _, _.
Qed.

(** The row of the child at a position of the batch. *)
Lemma insert_children_nth op source m remaining now n cs db i c :
  NoDup (c_machine <$> cs) → cs !! i = Some c →
  machines (insert_children op source m remaining now n cs db) !! c_machine c
  = Some (child_row op source m remaining now (n + i) c).
Proof.
  revert n db i. induction cs as [|x cs IH]; intros n db i Hnd Hi; [done|].
  apply NoDup_cons in Hnd as [Hx Hnd]. cbn [insert_children].
  destruct i as [|i].
  - injection Hi as ->. rewrite insert_children_other by done. simpl.
    by rewrite lookup_insert_eq, Nat.add_0_r.
  - simpl in Hi. rewrite (IH (S n) _ i Hnd Hi). by rewrite Nat.add_succ_r.
Qed.

(** Where a row of the table after the insertions comes from. *)
Lemma insert_children_lookup op source m remaining now n cs db id x :
  NoDup (c_machine <$> cs) →
  machines (insert_children op source m remaining now n cs db) !! id = Some x →
  ((id ∈ (c_machine <$> cs)) ∧ child_at op source m remaining now x) ∨
  ((id ∉ (c_machine <$> cs)) ∧ machines db !! id = Some x).
Proof.
  intros Hnd Hx. destruct (decide (id ∈ (c_machine <$> cs))) as [Hin|Hout].
  - left. split; [done|].
    destruct (insert_children_new op source m remaining now n cs db id Hnd Hin) as (y & Hy & Hc).
    rewrite Hx in Hy. by injection Hy as ->.
  - right. split; [done|]. by rewrite insert_children_other in Hx.
Qed.

Lemma held_child d h host op source m remaining now n c :
  host_id (place m) = Some host →
  holding d h (child_row op source m remaining now n c)
  = if decide (h = host) then rget d (resources (ident m)) else 0.
Proof. intros Hh. by rewrite (holding_on d host h). Qed.

Lemma insert_children_held d h host op source m remaining now n cs db :
  host_id (place m) = Some host → NoDup (c_machine <$> cs) →
  (∀ c, c ∈ (c_machine <$> cs) → machines db !! c = None) →
  held d h (insert_children op source m remaining now n cs db)
  = held d h db
    + (if decide (h = host) then Z.of_nat (length cs) * rget d (resources (ident m)) else 0).
Proof.
  intros Hh. revert n db. induction cs as [|c cs IH]; intros n db Hnd Hfresh; cbn [insert_children].
  - simpl. destruct (decide _); lia.
  - apply NoDup_cons in Hnd as [Hc Hnd]. rewrite IH; [|done|].
    + rewrite (held_new d h db _ (c_machine c) (child_row op source m remaining now n c));
        [|apply Hfresh; set_solver|done].
      rewrite (held_child d h host) by done. rewrite length_cons.
      destruct (decide (h = host)); lia.
    + intros c' Hc'. simpl. rewrite lookup_insert_ne by (intros <-; done).
      apply Hfresh. set_solver.
Qed.

(** ** Beginning *)

Lemma fork_conflicts_spec op org project cs db :
  fork_conflicts op org project cs db = false →
  forks db !! op = None ∧ (∀ c, c ∈ (c_machine <$> cs) → machines db !! c = None) ∧
  NoDup (c_machine <$> cs).
Proof.
  intros Hc. unfold fork_conflicts in Hc. bool_simp. split_and!; try done.
  - by apply eq_None_not_Some.
  - intros c (x & -> & Hx)%list_elem_of_fmap. apply eq_None_not_Some. intros Hs.
    match goal with H : existsb _ cs = false |- _ => rename H into He end.
    assert (existsb (λ c, bool_decide (is_Some (machines db !! c_machine c))) cs = true); [|congruence].
    apply existsb_exists. exists x. split; [by apply list_elem_of_In|by apply bool_decide_eq_true].
Qed.

(** The tables after a fork was begun. *)
Definition begun (now clock : Z) (org project source key requestHash audit op host : string)
    (m : MachineRow) (cs : list ChildIds) (db : FleetDb) : FleetDb :=
  let remaining := ceil_div (expires_at (life m) - clock) msPerSecond in
  reserve_on host (rscale (Z.of_nat (length cs)) (resources (ident m)))
    (insert_children op source m remaining now 0 cs
       (set_fork op (new_fork now org project source host
          (default "" (host_machine_id (place m))) key requestHash audit m cs) db)).

Lemma beginFork_spec `{BillingAdmission FleetDb} now clock source org project key requestHash
    audit op cs db r db' :
  beginFork now clock source org project key requestHash audit op cs db = Ok (r, db') →
  db' = db ∨
  ∃ organizationLimits p m host h,
    organizations db !! org = Some organizationLimits ∧ projects db !! project = Some p ∧
    p_organization p = org ∧ machines db !! source = Some m ∧
    host_id (place m) = Some host ∧ hosts db !! host = Some h ∧
    in_organization org m = true ∧ in_project project m = true ∧
    fork_prior db org project source key = None ∧
    fork_admission now clock org organizationLimits (p_limits p) project m h
      (Z.of_nat (length cs)) db = Ok () ∧
    fork_conflicts op org project cs db = false ∧
    db' = begun now clock org project source key requestHash audit op host m cs db.
Proof.
  intros Hb. unfold beginFork in Hb.
  destruct (organizations db !! org) as [ol|] eqn:Hol; [|left; by injection Hb as _ <-].
  destruct (projects db !! project) as [p|] eqn:Hp; [|left; by injection Hb as _ <-].
  destruct (String.eqb (p_organization p) org) eqn:Hpo; [|left; by injection Hb as _ <-].
  destruct (machines db !! source) as [m|] eqn:Hm; [|left; by injection Hb as _ <-].
  simpl negb in Hb. cbv iota in Hb.
  destruct (host_id (place m)) as [host|] eqn:Hh; [|left; by injection Hb as _ <-].
  simpl mbind in Hb. destruct (hosts db !! host) as [h|] eqn:Hrow; [|left; by injection Hb as _ <-].
  simpl option_map in Hb. cbv iota in Hb.
  destruct (in_organization org m && in_project project m) eqn:Hin;
    [|left; by injection Hb as _ <-].
  simpl negb in Hb. cbv iota in Hb.
  destruct (fork_prior db org project source key) as [[prior k]|] eqn:Hprior; [left; by injection Hb as _ <-|].
  destruct (fork_admission _ _ _ _ _ _ _ _ _ _) as [[]|e] eqn:Ha; [|done].
  destruct (fork_conflicts op org project cs db) eqn:Hc; [done|].
  right. exists ol, p, m, host, h. bool_simp. split_and!; try done.
  exact (eq_sym (f_equal (λ x, match x with Ok (_, s) => s | Err _ => db' end) Hb)).
Qed.

Lemma forkable_spec remaining m :
  forkable remaining m = true → mstate m = Running ∧ 15 <= remaining.
Proof. unfold forkable. intros Hf. by bool_simp. Qed.

Lemma begun_inv now clock org project source key requestHash audit op host h m cs db :
  fleet_inv db → machines db !! source = Some m → host_id (place m) = Some host →
  hosts db !! host = Some h → fork_conflicts op org project cs db = false →
  fleet_inv (begun now clock org project source key requestHash audit op host m cs db).
Proof.
  intros Hinv Hm Hh Hhost Hc. apply fork_conflicts_spec in Hc as (Hop & Hfresh & Hnd).
  unfold begun. set (remaining := ceil_div _ _).
  set (k := new_fork _ _ _ _ _ _ _ _ _ _ _).
  set (db1 := set_fork op k db).
  destruct (insert_children_tables op source m remaining now 0 cs db1) as (Hhs & Hfs & _).
  pose proof (λ id x, insert_children_lookup op source m remaining now 0 cs db1 id x Hnd) as Hrows.
  pose proof (λ d h', insert_children_held d h' host op source m remaining now 0 cs db1
    Hh Hnd Hfresh) as Hheld.
  pose proof (λ c, insert_children_new op source m remaining now 0 cs db1 c Hnd) as Hnew.
  pose proof (λ c, insert_children_other op source m remaining now 0 cs db1 c) as Hold.
  set (db2 := insert_children _ _ _ _ _ _ _ _) in *. clearbody db2.
  constructor; simpl.
  - intros h' row' d Hrow. rewrite Hhs in Hrow.
    apply (alter_reserved_lookup (λ x, radd x (rscale (Z.of_nat (length cs)) _)))
      in Hrow as (row & Hrow & ->).
    transitivity (held d h' db2); [|done]. rewrite Hheld.
    transitivity (held d h' db + if decide (h' = host)
      then Z.of_nat (length cs) * rget d (resources (ident m)) else 0); [|done].
    rewrite <- (fi_reserved db Hinv h' row d Hrow).
    destruct (decide (h' = host)); autorewrite with nehemiah; lia.
  - intros id x h' Hx Hh'. rewrite Hhs. apply alter_is_Some.
    destruct (Hrows id x Hx) as [(_ & [(n & c & ->)])|(_ & Hx')]; [|by apply (fi_host db Hinv id x)].
    by apply (fi_host db Hinv source m).
  - intros id x Hx Hun. destruct (Hrows id x Hx) as [(_ & [(n & c & ->)])|(_ & Hx')]; [done|].
    by eapply fi_unplaced.
  - intros id x Hx Hr. destruct (Hrows id x Hx) as [(_ & [(n & c & ->)])|(_ & Hx')];
      [by destruct Hr|]. by eapply fi_released.
  - intros id x op' Hx Hop'. rewrite Hfs. simpl.
    destruct (Hrows id x Hx) as [(Hin & [(n & c & ->)])|(_ & Hx')].
    + simpl in Hop'. injection Hop' as <-. exists k. rewrite lookup_insert_eq.
      split; [done|]. split_and!; [done| |done|done].
      simpl. rewrite list_elem_of_In, !map_map. simpl. by apply list_elem_of_In in Hin.
    + destruct (fi_fork db Hinv id x op' Hx' Hop') as (k' & Hk' & Hch). exists k'.
      rewrite lookup_insert_ne by congruence. done.
  - intros op' k' c Hk' Hc. rewrite Hfs in Hk'. simpl in Hk'.
    apply lookup_insert_Some in Hk' as [[<- <-]|[Hne Hk']].
    + simpl in Hc. rewrite list_elem_of_In, !map_map in Hc. simpl in Hc.
      apply list_elem_of_In in Hc. destruct (Hnew c Hc) as (row & Hrow & [(n & ids & ->)]).
      eexists. split; [exact Hrow|done].
    + destruct (fi_children db Hinv op' k' c Hk' Hc) as (x & Hx & Hxop).
      exists x. split; [|done]. rewrite Hold; [done|].
      intros Hin. rewrite (Hfresh c Hin) in Hx. done.
  - intros id x d Hx. destruct (Hrows id x Hx) as [(_ & [(n & c & ->)])|(_ & Hx')];
      [|by eapply fi_positive]. simpl. by apply (fi_positive db Hinv source).
Qed.

Lemma beginFork_inv `{BillingAdmission FleetDb} now clock source org project key requestHash
    audit op cs db r db' :
  fleet_inv db →
  beginFork now clock source org project key requestHash audit op cs db = Ok (r, db') →
  fleet_inv db'.
Proof.
  intros Hinv [->|(ol & p & m & host & h & _ & _ & _ & Hm & Hh & Hhost & _ & _ & _ & _ & Hc & ->)]
    %beginFork_spec; [done|]. by eapply begun_inv.
Qed.

(** ** Completing *)

(** A row after the completion loop: untouched, or a starting child of the
    operation completed with what the host reported. *)
Definition completed_from (now : Z) (op : string) (allReady : bool) (m m' : MachineRow) : Prop :=
  m' = m ∨
  (fork_operation_id (ident m) = Some op ∧ mstate m = Starting ∧
   ∃ hm, m' = completed_child now allReady hm m).

Lemma set_completed now op allReady (ms0 ms : gmap string MachineRow) id m m' :
  ms0 !! id = Some m → completed_from now op allReady m m' →
  (∀ i, option_Forall2 (completed_from now op allReady) (ms0 !! i) (ms !! i)) →
  ∀ i, option_Forall2 (completed_from now op allReady) (ms0 !! i) (<[id := m']> ms !! i).
Proof.
  intros Hm Hc Hrel i. destruct (decide (id = i)) as [<-|Hne].
  - rewrite lookup_insert_eq, Hm. by constructor.
  - by rewrite lookup_insert_ne.
Qed.

Lemma complete_children_spec now op org allReady observed children db0 db db' :
  (∀ c, c ∈ children → machines db0 !! e_id c = Some (e_row c)) →
  (∀ id, option_Forall2 (completed_from now op allReady) (machines db0 !! id) (machines db !! id)) →
  complete_children now op org allReady observed children db = Ok db' →
  (∀ id, option_Forall2 (completed_from now op allReady) (machines db0 !! id) (machines db' !! id)) ∧
  hosts db' = hosts db ∧ forks db' = forks db.
Proof.
  revert db. induction children as [|[id lease m] children IH]; intros db Hin Hrel Hc;
    cbn [complete_children] in Hc.
  { by injection Hc as <-. }
  destruct (by_public_id id observed) as [hm|]; [|done].
  destruct (_ && _ && _) eqn:E; [|done]. bool_simp.
  pose proof (Hin (mkExpected id lease m) ltac:(set_solver)) as Hm. simpl in Hm.
  apply IH in Hc as (Hrel' & Hhs & Hfs); [|by intros; apply Hin; set_solver|].
  - split; [done|]. rewrite Hhs, Hfs. by destruct allReady.
  - assert (completed_from now op allReady m (completed_child now allReady hm m)) as Hcf.
    { right. split_and!; [done..|]. by exists hm. }
    pose proof (set_completed _ _ _ _ _ _ _ _ Hm Hcf Hrel) as Hset.
    by destruct allReady.
Qed.

Lemma fork_expected_rows db k c : c ∈ fork_expected db k → machines db !! e_id c = Some (e_row c).
Proof.
  unfold fork_expected. rewrite list_elem_of_omap. intros ([id l] & _ & Hc). simpl in Hc.
  destruct (machines db !! id) as [m|] eqn:Hm; [|done]. by injection Hc as <-.
Qed.

Lemma completed_soft pend now op allReady m m' :
  completed_from now op allReady m m' →
  (allReady = true → fork_operation_id (ident m) = Some op → pend m = false) →
  soft pend m m'.
Proof.
  intros [->|(Hop & Hs & hm & ->)] Hp; [reflexivity|].
  constructor; try done; unfold mstate in *; simpl.
  - rewrite Hs. by destruct allReady.
  - by rewrite Hs.
  - destruct allReady; [|done]. by rewrite (Hp eq_refl Hop).
Qed.

Lemma completed_refl now op allReady : Reflexive (completed_from now op allReady).
Proof. intros m. by left. Qed.

(** A completion, taken apart. *)
Lemma completeFork_spec now op observed db r db' :
  completeFork now op observed db = Ok (r, db') →
  db' = db ∨
  ∃ k db1, forks db !! op = Some k ∧ k_state k = ForkPending ∧ k_cleanup_requested_at k = None ∧
    complete_batch (fork_expected db k) observed = true ∧
    forallb (λ c, child_matches op (k_source_machine k) c observed) (fork_expected db k) = true ∧
    complete_children now op (k_organization k) (all_ready observed) observed
      (fork_expected db k) db = Ok db1 ∧
    db' = if all_ready observed
          then fork_audit op "succeeded" None (set_fork op
                 (k <| k_state := ForkSucceeded |> <| k_completed_at := Some now |>
                    <| k_recon ::= λ r, r <| reconcile_claim_token := None |>
                                          <| reconcile_claimed_until := None |> |>) db1)
          else db1.
Proof.
  unfold completeFork. destruct (forks db !! op) as [k|] eqn:Hk; [|done].
  destruct (negb _ || _) eqn:E; [intros [= _ <-]; by left|].
  destruct (complete_batch _ _) eqn:Hb; [|done]. destruct (forallb _ _) eqn:Hma; [|done].
  cbn [negb]. intros Hc. apply result_bind_Ok in Hc as (db1 & Hc & Hr). right.
  exists k, db1. bool_simp. split_and!; try done.
  - match goal with H : ¬ is_Some _ |- _ => by apply eq_None_not_Some in H end.
  - destruct (all_ready observed);
      exact (eq_sym (f_equal (λ x, match x with Ok (_, s) => s | Err _ => db' end) Hr)).
Qed.

Lemma completeFork_soft now op observed db r db' :
  completeFork now op observed db = Ok (r, db') → soft_db db db'.
Proof.
  intros [->|(k & db1 & Hk & Hp & _ & _ & _ & Hc & ->)]%completeFork_spec; [reflexivity|].
  apply (complete_children_spec _ _ _ _ _ _ db) in Hc as (Hrel & Hhs & Hfs);
    [|apply fork_expected_rows|intros; apply forall2_refl, completed_refl].
  destruct (all_ready observed) eqn:Hall.
  - constructor; simpl.
    + intros id. destruct (Hrel id) as [m m' Hm|]; constructor.
      eapply completed_soft; [exact Hm|]. intros _ Hop. unfold fork_pending. simpl.
      by rewrite Hop, lookup_insert_eq.
    + by rewrite Hhs.
    + rewrite Hfs. apply (set_fork_soft_rows _ _ k); done.
  - constructor.
    + intros id. destruct (Hrel id) as [m m' Hm|]; constructor.
      by eapply completed_soft.
    + by rewrite Hhs.
    + rewrite Hfs. intros. apply forall2_refl, _.
Qed.

(** ** Failing *)

Lemma fail_children_tables now op org message db :
  let db' := fail_children now op org message db in
  machines db' = (λ m, if fails_with op m then failed_child now message m else m) <$> machines db ∧
  hosts db' = hosts db ∧ forks db' = forks db.
Proof.
  unfold fail_children. set (db1 := set_field machines _ db).
  destruct (foldl_add_event (λ kv : string * MachineRow,
    mkEvent (kv.1 +:+ ":fork-failed") kv.1 org (Some (mstate kv.2)) Failed (Some message)
      "control-plane")
    (List.filter (λ kv, fails_with op kv.2) (map_to_list (machines db))) db1) as (-> & -> & ->).
  done.
Qed.

(** Every machine of a pending fork is starting, reserved and on the source host. *)
Lemma pending_child db op k id m :
  fleet_inv db → forks db !! op = Some k → k_state k = ForkPending →
  machines db !! id = Some m → of_fork op m = true →
  mstate m = Starting ∧ reservation_released_at (place m) = None ∧
  host_id (place m) = Some (k_source_host k).
Proof.
  intros Hinv Hk Hp Hm Hop%bool_decide_eq_true.
  destruct (fi_fork db Hinv id m op Hm Hop) as (k' & Hk' & Hh & _ & _ & Hst).
  rewrite Hk in Hk'. injection Hk' as <-. by destruct (Hst Hp).
Qed.

Lemma fails_with_pending db op k id m :
  fleet_inv db → forks db !! op = Some k → k_state k = ForkPending →
  machines db !! id = Some m → fails_with op m = of_fork op m.
Proof.
  intros Hinv Hk Hp Hm. unfold fails_with. destruct (of_fork op m) eqn:Hop; [|done].
  destruct (pending_child db op k id m) as (Hs & _); try done. by rewrite Hs.
Qed.

Lemma rget_totals d op db :
  rget d (fork_totals op db)
  = map_sum (λ m, if of_fork op m then rget d (resources (ident m)) else 0) (machines db).
Proof. by destruct d. Qed.

Lemma failed_not_fork now message op m :
  fork_operation_id (ident (failed_child now message m)) = Some op ↔ of_fork op m = true.
Proof. unfold of_fork. by rewrite bool_decide_eq_true. Qed.

(** What the batch holds splits off from what the host owes. *)
Lemma held_split d h op k db :
  fleet_inv db → forks db !! op = Some k → k_state k = ForkPending →
  held d h db = (if decide (h = k_source_host k) then rget d (fork_totals op db) else 0)
    + map_sum (λ m, if of_fork op m then 0 else holding d h m) (machines db).
Proof.
  intros Hinv Hk Hp. unfold held. rewrite rget_totals.
  assert (∀ id m, machines db !! id = Some m → of_fork op m = true →
    holding d h m = if decide (h = k_source_host k) then rget d (resources (ident m)) else 0)
    as Hchild.
  { intros id m Hm Hop. destruct (pending_child db op k id m) as (_ & Hr & Hh); try done.
    by rewrite (holding_on d (k_source_host k)). }
  destruct (decide (h = k_source_host k)) as [Heq|Hne].
  - rewrite <- map_sum_add. apply map_sum_ext. intros id m Hm.
    destruct (of_fork op m) eqn:Hop; [|lia]. rewrite (Hchild id m) by done.
    rewrite Z.add_0_r. done.
  - apply map_sum_ext. intros id m Hm. destruct (of_fork op m) eqn:Hop; [|done].
    by rewrite (Hchild id m).
Qed.

Lemma fail_batch_held d h now op k f db :
  fleet_inv db → forks db !! op = Some k → k_state k = ForkPending →
  held d h (fail_batch now op k f db)
  = held d h db - (if decide (h = k_source_host k) then rget d (fork_totals op db) else 0).
Proof.
  intros Hinv Hk Hp. rewrite (held_split d h op k db) by done.
  unfold fail_batch, held. simpl.
  destruct (fail_children_tables now op (k_organization k) (f_message f) db) as (-> & _ & _).
  rewrite map_sum_fmap.
  rewrite (map_sum_ext _ (λ m, if of_fork op m then 0 else holding d h m)); [lia|].
  intros id m Hm. rewrite (fails_with_pending db op k id m) by done.
  destruct (of_fork op m) eqn:Hop; [|done]. by apply holding_released; eexists.
Qed.

Lemma fail_batch_inv now op k f db :
  fleet_inv db → forks db !! op = Some k → k_state k = ForkPending →
  fleet_inv (fail_batch now op k f db).
Proof.
  intros Hinv Hk Hp.
  pose proof (λ d h, fail_batch_held d h now op k f db Hinv Hk Hp) as Hheld.
  pose proof (λ d h, held_split d h op k db Hinv Hk Hp) as Hsplit.
  destruct (fail_children_tables now op (k_organization k) (f_message f) db) as (Hms & Hhs & Hfs).
  assert (∀ id x, machines (fail_batch now op k f db) !! id = Some x → ∃ m,
    machines db !! id = Some m ∧
    x = if of_fork op m then failed_child now (f_message f) m else m) as Hrows.
  { intros id x Hx. unfold fail_batch in Hx. simpl in Hx. rewrite Hms, lookup_fmap in Hx.
    destruct (machines db !! id) as [m|] eqn:Hm; [|done]. exists m. split; [done|].
    apply (inj Some) in Hx. rewrite (fails_with_pending db op k id m) in Hx by done. done. }
  constructor.
  - intros h row' d Hrow. rewrite Hheld.
    change (alter (λ row, row <| reserved ::= λ x, rsub0 x (fork_totals op db) |>)
      (k_source_host k) (hosts (fail_children now op (k_organization k) (f_message f) db))
      !! h = Some row') in Hrow. rewrite Hhs in Hrow.
    apply (alter_reserved_lookup (λ x, rsub0 x _)) in Hrow as (row & Hrow & ->).
    rewrite <- (fi_reserved db Hinv h row d Hrow).
    specialize (Hsplit d h). rewrite <- (fi_reserved db Hinv h row d Hrow) in Hsplit.
    assert (0 <= map_sum (λ m, if of_fork op m then 0 else holding d h m) (machines db)).
    { apply map_sum_nonneg. intros id m Hm. destruct (of_fork op m); [done|].
      apply holding_nonneg. by eapply fi_positive. }
    destruct (decide (h = k_source_host k)); autorewrite with nehemiah; lia.
  - intros id x h Hx Hh. destruct (Hrows id x Hx) as (m & Hm & ->).
    change (is_Some (alter (λ row, row <| reserved ::= λ x, rsub0 x (fork_totals op db) |>)
      (k_source_host k) (hosts (fail_children now op (k_organization k) (f_message f) db))
      !! h)). rewrite Hhs. apply alter_is_Some.
    apply (fi_host db Hinv id m); [done|]. by destruct (of_fork op m).
  - intros id x Hx Hun. destruct (Hrows id x Hx) as (m & Hm & ->).
    destruct (of_fork op m); [done|]. by apply (fi_unplaced db Hinv id m).
  - intros id x Hx Hr. destruct (Hrows id x Hx) as (m & Hm & ->).
    destruct (of_fork op m); [done|]. by apply (fi_released db Hinv id m).
  - intros id x op' Hx Hop'. destruct (Hrows id x Hx) as (m & Hm & ->).
    assert (fork_operation_id (ident m) = Some op') as Hop.
    { by destruct (of_fork op m). }
    destruct (fi_fork db Hinv id m op' Hm Hop) as (k' & Hk' & Hch).
    unfold fail_batch. simpl. rewrite Hfs. destruct (decide (op = op')) as [<-|Hne].
    + rewrite Hk in Hk'. injection Hk' as <-. rewrite lookup_insert_eq.
      eexists. split; [done|]. destruct Hch as (? & ? & ? & _).
      destruct (of_fork op m); split_and!; done.
    + rewrite lookup_insert_ne by done. exists k'. split; [done|].
      destruct (of_fork op m) eqn:Hof; [|done]. unfold of_fork in Hof.
      apply bool_decide_eq_true in Hof. congruence.
  - intros op' k' c Hk' Hc. unfold fail_batch in *. simpl in *. rewrite Hfs in Hk'.
    assert (∃ k0, forks db !! op' = Some k0 ∧ c ∈ (k_children k0).*1) as (k0 & Hk0 & Hc0).
    { apply lookup_insert_Some in Hk' as [[<- <-]|[_ Hk']]; eauto. }
    destruct (fi_children db Hinv op' k0 c Hk0 Hc0) as (m & Hm & Hop).
    rewrite Hms, lookup_fmap, Hm. eexists. split; [done|]. by destruct (fails_with op m).
  - intros id x d Hx. destruct (Hrows id x Hx) as (m & Hm & ->).
    pose proof (fi_positive db Hinv id m d Hm). by destruct (of_fork op m).
Qed.

Lemma failFork_spec now op f db r db' :
  failFork now op f db = Ok (r, db') →
  db' = db ∨ ∃ k, forks db !! op = Some k ∧ k_state k = ForkPending ∧
    db' = fail_batch now op k f db.
Proof.
  unfold failFork. destruct (forks db !! op) as [k|] eqn:Hk; [|done].
  destruct (negb _ || _) eqn:E; intros [= _ <-]; [by left|]. bool_simp. right. by exists k.
Qed.

Lemma failFork_inv now op f db r db' :
  fleet_inv db → failFork now op f db = Ok (r, db') → fleet_inv db'.
Proof. intros Hinv [->|(k & Hk & Hp & ->)]%failFork_spec; [done|]. by apply fail_batch_inv. Qed.

Lemma completeForkCleanup_spec now op token db r db' :
  completeForkCleanup now op token db = Ok (r, db') →
  db' = db ∨ ∃ k f, forks db !! op = Some k ∧ k_state k = ForkPending ∧
    create_claim_token (k_cleanup k) = Some token ∧ create_failure (k_cleanup k) = Some f ∧
    db' = fail_batch now op k f db.
Proof.
  unfold completeForkCleanup. destruct (forks db !! op) as [k|] eqn:Hk; [|done].
  destruct (negb (bool_decide (k_state k = _))) eqn:E1; [intros [= _ <-]; by left|].
  destruct (negb (bool_decide (create_claim_token _ = _))) eqn:E2; [intros [= <-]; by left|].
  destruct (create_failure _) as [f|] eqn:Hf; intros [= _ <-]; [|by left].
  bool_simp. right. by exists k, f.
Qed.

Lemma completeForkCleanup_inv now op token db r db' :
  fleet_inv db → completeForkCleanup now op token db = Ok (r, db') → fleet_inv db'.
Proof.
  intros Hinv [->|(k & f & Hk & Hp & _ & _ & ->)]%completeForkCleanup_spec; [done|].
  by apply fail_batch_inv.
Qed.
