(* ===== verification/FleetStep.v ===== *)
(** * Progress of the fleet tables

    The preorder every transaction moves the tables along: rows are never
    deleted, identities never change, a placement is taken once and given back
    once, states only advance and terminal states are final, a completed fork
    stays as it completed. *)

From S2P Require Import Prelude Text Capacity Lifecycle Billing Fleet Scheduler MachineRepo ForkRepo.
From S2P Require Import ReconcileDb FleetInv FleetSteps FleetHard FleetForks.

(** Once set, stays. *)
Definition set_once {A} (x y : option A) : Prop := is_Some x → y = x.

#[export] Instance set_once_preorder {A} : PreOrder (@set_once A).
Proof.
  split; [by intros x|]. intros x y z Hxy Hyz Hx.
  rewrite Hyz; rewrite Hxy; done.
Qed.

Record row_le (m m' : MachineRow) : Prop := mkRowLe {
  rl_ident : ident m' = ident m;
  rl_host : set_once (host_id (place m)) (host_id (place m'));
  rl_released : set_once (reservation_released_at (place m)) (reservation_released_at (place m'));
  rl_rank : rank (mstate m) <= rank (mstate m');
  rl_final : terminal (mstate m) = true → mstate m' = mstate m
}.

#[export] Instance row_le_preorder : PreOrder row_le.
Proof.
  split.
  - intros m. constructor; try done; reflexivity.
  - intros x y z [Hi1 Hh1 Hr1 Hk1 Hf1] [Hi2 Hh2 Hr2 Hk2 Hf2]. constructor.
    + congruence.
    + by etransitivity.
    + by etransitivity.
    + lia.
    + intros Ht. rewrite Hf2; [by apply Hf1|]. by rewrite Hf1.
Qed.

#[export] Instance fork_advances_preorder : PreOrder fork_advances.
Proof.
  split; [apply _|]. intros x y z (Hh1 & Hc1 & Hs1 & Hk1 & Hr1) (Hh2 & Hc2 & Hs2 & Hk2 & Hr2).
  split_and!; [congruence|congruence| |congruence|congruence]. intros Hx. destruct (Hs1 Hx) as [Ha Hb].
  destruct Hs2 as [Hc Hd]; [by rewrite Ha|]. split; congruence.
Qed.

Record fleet_le (db db' : FleetDb) : Prop := mkFleetLe {
  fl_machines : ∀ id m, machines db !! id = Some m →
    ∃ m', machines db' !! id = Some m' ∧ row_le m m';
  fl_forks : ∀ op k, forks db !! op = Some k →
    ∃ k', forks db' !! op = Some k' ∧ fork_advances k k'
}.

#[export] Instance fleet_le_preorder : PreOrder fleet_le.
Proof.
  split.
  - intros db. constructor.
    + intros id m Hm. exists m. split; [done|reflexivity].
    + intros op k Hk. exists k. split; [done|reflexivity].
  - intros x y z [Hm1 Hk1] [Hm2 Hk2]. constructor.
    + intros id m Hm. destruct (Hm1 id m Hm) as (m1 & Hm1' & Hle1).
      destruct (Hm2 id m1 Hm1') as (m2 & Hm2' & Hle2). exists m2. split; [done|].
      by etransitivity.
    + intros op k Hk. destruct (Hk1 op k Hk) as (k1 & Hk1' & Hle1).
      destruct (Hk2 op k1 Hk1') as (k2 & Hk2' & Hle2). exists k2. split; [done|].
      by etransitivity.
Qed.

Lemma soft_row_le pend m m' : soft pend m m' → row_le m m'.
Proof.
  intros [Hi Hh Hr Hk Hf _ _]. constructor; try done.
  - by rewrite Hh.
  - by rewrite Hr.
Qed.

Lemma soft_le db db' : soft_db db db' → fleet_le db db'.
Proof.
  intros [Hm _ Hf]. constructor.
  - intros id m Hid. destruct (forall2_lookup_l _ _ _ _ (Hm id) Hid) as (m' & Hm' & Hs).
    exists m'. split; [done|]. by eapply soft_row_le.
  - intros op k Hk. destruct (forall2_lookup_l _ _ _ _ (Hf op) Hk) as (k' & Hk' & Hs & _). eauto.
Qed.

Lemma set_row_le db db' id m m' :
  machines db !! id = Some m → row_le m m' →
  machines db' = <[id := m']> (machines db) → forks db' = forks db → fleet_le db db'.
Proof.
  intros Hm Hle Hms Hfs. constructor.
  - intros i x Hx. rewrite Hms. destruct (decide (id = i)) as [<-|Hne].
    + rewrite lookup_insert_eq. assert (x = m) as -> by congruence. by exists m'.
    + rewrite lookup_insert_ne by done. exists x. split; [done|reflexivity].
  - intros op k Hk. rewrite Hfs. exists k. split; [done|reflexivity].
Qed.

Lemma insertRequested_le now id i expires uuid db r db' :
  insertRequested now id i expires uuid db = Ok (r, db') → fleet_le db db'.
Proof.
  intros H. unfold insertRequested in H. destruct (negb _); [done|].
  destruct (insert_conflicts id i db) eqn:E; [done|].
  apply (f_equal (λ x, match x with Ok (_, s) => s | Err _ => db end)) in H. subst db'.
  unfold insert_conflicts in E. bool_simp. constructor; simpl.
  - intros i' x Hx. exists x. split; [|reflexivity]. rewrite lookup_insert_ne; [done|].
    intros <-. match goal with H : ¬ is_Some (machines db !! id) |- _ => apply H end. by eexists.
  - intros op k Hk. exists k. split; [done|reflexivity].
Qed.

Lemma reserve_le `{BillingAdmission FleetDb} now locked request id db rv db' :
  fleet_inv db → s_machineId request = Some id →
  reserve now locked request db = Ok (rv, db') → fleet_le db db'.
Proof.
  intros Hinv Hid H0.
  destruct (reserve_spec _ _ _ _ _ _ _ Hid H0)
    as (r & host & h & m & _ & _ & _ & Hm & Hun & _ & ->).
  destruct (fi_unplaced db Hinv id m Hm Hun) as [Hnh Hnr].
  eapply (set_row_le _ _ id); [exact Hm| |done..]. constructor; try done.
  - intros [h' Hh']. congruence.
  - apply unplaced_rank in Hun. unfold mstate in *. simpl. lia.
  - unfold unplaced, mstate in *. simpl. by destruct (state (life m)).
Qed.

Lemma release_le now host r id db u db' :
  release now host r (Some id) db = Ok (u, db') → fleet_le db db'.
Proof.
  intros H0. destruct (release_spec _ _ _ _ _ _ _ H0) as [->|(m & Hm & Hr & ->)]; [reflexivity|].
  eapply (set_row_le _ _ id); [exact Hm| |done..]. constructor; try done; simpl.
  rewrite Hr. by intros [].
Qed.

Lemma beginFork_le `{BillingAdmission FleetDb} now clock source org project key requestHash
    audit op cs db r db' :
  beginFork now clock source org project key requestHash audit op cs db = Ok (r, db') →
  fleet_le db db'.
Proof.
  intros [->|(ol & p & m & host & h & _ & _ & _ & _ & _ & _ & _ & _ & _ & _ & Hc & ->)]
    %beginFork_spec; [reflexivity|].
  apply fork_conflicts_spec in Hc as (Hop & Hfresh & Hnd). unfold begun.
  match goal with |- context [insert_children op source m ?rem now 0 cs ?db1] =>
    destruct (insert_children_tables op source m rem now 0 cs db1) as (_ & Hfs & _);
    pose proof (λ c, insert_children_other op source m rem now 0 cs db1 c) as Hold end.
  constructor; simpl.
  - intros id x Hx. exists x. split; [|reflexivity]. rewrite Hold; [done|].
    intros Hin. rewrite (Hfresh id Hin) in Hx. done.
  - intros op' k Hk. exists k. split; [|reflexivity]. rewrite Hfs. simpl.
    rewrite lookup_insert_ne; [done|]. congruence.
Qed.

Lemma fail_batch_le now op k f db :
  fleet_inv db → forks db !! op = Some k → k_state k = ForkPending → fleet_le db (fail_batch now op k f db).
Proof.
  intros Hinv Hk Hp.
  destruct (fail_children_tables now op (k_organization k) (f_message f) db) as (Hms & _ & Hfs).
  unfold fail_batch. constructor; simpl.
  - intros id m Hm. rewrite Hms, lookup_fmap, Hm. eexists. split; [done|].
    destruct (fails_with op m) eqn:E; [|reflexivity]. rewrite (fails_with_pending db op k id m) in E by done.
    destruct (pending_child db op k id m) as (Hs & Hr & _); try done.
    constructor; try done; unfold mstate in *; simpl.
    + rewrite Hr. by intros [].
    + apply rank_last.
    + by rewrite Hs.
  - intros op' k' Hk'. rewrite Hfs. destruct (decide (op = op')) as [<-|Hne].
    + rewrite lookup_insert_eq. eexists. split; [done|]. rewrite Hk in Hk'. injection Hk' as <-.
      split_and!; [done|done|by intros []|done|done].
    + rewrite lookup_insert_ne by done. exists k'. split; [done|reflexivity].
Qed.

(** * The fleet as a transition system

    Every transaction of the repository, the scheduler and the reconciler as a
    command, what its callers establish before they issue it, and the moves of
    the other parts of the system (hosts reporting, meters advancing, tenants
    and templates changing) as environment steps.  The interleaving of any
    number of service procedures is a sequence of these steps. *)

(** ** Commands *)

Inductive Command :=
| InsertRequested (now : Z) (id : string) (i : Identity) (expires : Z) (uuid : string)
| ClaimCreate (now : Z) (id token : string)
| ReleaseCreateClaim (id token : string)
| FailCreate (now : Z) (id token : string) (f : Failure) (uuid : string)
| Reserve (now : Z) (locked : gset string) (request : ScheduleRequest)
| Release (now : Z) (host : string) (r : Resources) (id : string)
| ObserveHost (now clock : Z) (id : string) (hm : HostMachine) (uuid : string)
| Transition (now : Z) (id : string) (from : list MachineState) (to : MachineState)
    (reason : option string) (uuid : string)
| BeginExtend (admitted_at : Z) (id org project key requestHash : string) (ttlSeconds : Z)
| CompleteExtend (now operation : Z) (id org : string) (recorded : Z)
| BeginFork (now clock : Z) (source org project key requestHash audit op : string)
    (cs : list ChildIds)
| CompleteFork (now : Z) (op : string) (observed : list HostMachine)
| FailFork (now : Z) (op : string) (f : Failure)
| RequestForkCleanup (now : Z) (op : string) (f : Failure) (token : string)
| ReleaseForkCleanupClaim (now : Z) (op token : string)
| CompleteForkCleanup (now : Z) (op token : string)
| ClaimPendingForks (now limit : Z) (token : string) (locked : gset string)
| ReleaseForkClaim (now : Z) (op token : string) (failed : bool)
| MarkLostOnStaleHosts (last_period_end : string → option Z)
| Finish (now : Z) (id lease : string) (to : MachineState) (reason : string) (cutoff : option Z)
| ClaimReconcileBatch (now : Z) (token : string) (locked : gset string)
| ReleaseReconcileClaim (now : Z) (id lease token : string) (failed : bool)
| PersistRecovered (now : Z) (id lease : string) (hm : HostMachine)
| ObserveRunning (now : Z) (id lease : string) (hm : HostMachine)
| ObserveStarting (now : Z) (id lease : string) (hm : HostMachine).

(** The tables after a transaction: unchanged when it throws. *)
Definition commit {A} (t : Tx FleetDb FleetError A) (db : FleetDb) : FleetDb :=
  (transaction t db).2.

Lemma commit_cases {A} (t : Tx FleetDb FleetError A) db :
  commit t db = db ∨ ∃ a, t db = Ok (a, commit t db).
Proof.
  unfold commit, transaction. destruct (t db) as [[a s]|e]; [right|left; done].
  by exists a.
Qed.

Section steps.
Context `{BillingAdmission FleetDb}.
(** The identities [MachineService.create] builds. *)
Context (created : Identity → Prop).

Definition exec (c : Command) : FleetDb → FleetDb :=
  match c with
  | InsertRequested now id i expires uuid => commit (insertRequested now id i expires uuid)
  | ClaimCreate now id token => commit (claimCreate now id token)
  | ReleaseCreateClaim id token => commit (releaseCreateClaim id token)
  | FailCreate now id token f uuid => commit (failCreate now id token f uuid)
  | Reserve now locked request => commit (reserve now locked request)
  | Release now host r id => commit (release now host r (Some id))
  | ObserveHost now clock id hm uuid => commit (observeHost now clock id hm uuid)
  | Transition now id from to reason uuid => commit (transition now id from to reason uuid)
  | BeginExtend at_ id org project key hash ttl => commit (beginExtend at_ id org project key hash ttl)
  | CompleteExtend now op id org t => commit (completeExtend now op id org t)
  | BeginFork now clock source org project key hash audit op cs =>
      commit (beginFork now clock source org project key hash audit op cs)
  | CompleteFork now op observed => commit (completeFork now op observed)
  | FailFork now op f => commit (failFork now op f)
  | RequestForkCleanup now op f token => commit (requestForkCleanup now op f token)
  | ReleaseForkCleanupClaim now op token => commit (releaseForkCleanupClaim now op token)
  | CompleteForkCleanup now op token => commit (completeForkCleanup now op token)
  | ClaimPendingForks now limit token locked => commit (claimPendingForks now limit token locked)
  | ReleaseForkClaim now op token failed => commit (releaseForkClaim now op token failed)
  | MarkLostOnStaleHosts lpe => commit (markLostOnStaleHosts lpe)
  | Finish now id lease to reason cutoff => commit (finish now id lease to reason cutoff)
  | ClaimReconcileBatch now token locked => commit (claimReconcileBatch now token locked)
  | ReleaseReconcileClaim now id lease token failed =>
      commit (releaseReconcileClaim now id lease token failed)
  | PersistRecovered now id lease hm => commit (persistRecovered now id lease hm)
  | ObserveRunning now id lease hm => commit (observeRunning now id lease hm)
  | ObserveStarting now id lease hm => commit (observeStarting now id lease hm)
  end.

Definition not_pending (db : FleetDb) (id : string) : Prop :=
  ∀ m, machines db !! id = Some m → fork_pending db m = false.

(** What the caller of a transaction has established about the tables it runs
    on; the services discharge this. *)
Definition permitted (db : FleetDb) (c : Command) : Prop :=
  match c with
  | InsertRequested _ _ i _ _ => created i
  | Reserve _ _ request =>
      ∃ id, s_machineId request = Some id ∧
        ∀ m r, machines db !! id = Some m → validateResources (s_resources request) = Ok r →
          resources (ident m) = r
  | Release _ host r id =>
      ∀ m, machines db !! id = Some m →
        terminal (mstate m) = true ∧ host_id (place m) = Some host ∧ resources (ident m) = r
  | ObserveHost _ _ id _ _ =>
      ∀ m, machines db !! id = Some m → fork_operation_id (ident m) = None
  | Transition _ id from to _ _ => (from, to) ∈ service_edges ∧ not_pending db id
  | Finish _ id _ to _ _ => terminal to = true ∧ not_pending db id
  | ObserveStarting _ id _ _ => not_pending db id
  | _ => True
  end.

(** ** The rest of the system *)

(** Only the usage columns of machines change, a host keeps its reserved
    capacity, a new host has none. *)
Record environment (db db' : FleetDb) : Prop := mkEnvironment {
  en_machines : ∀ id, option_Forall2 (λ m m', ∃ u, m' = m <| usage := u |>)
    (machines db !! id) (machines db' !! id);
  en_hosts : ∀ h row', hosts db' !! h = Some row' →
    match hosts db !! h with
    | Some row => reserved row' = reserved row
    | None => reserved row' = rzero
    end;
  en_hosts_stay : ∀ h, is_Some (hosts db !! h) → is_Some (hosts db' !! h);
  en_forks : forks db' = forks db;
  en_extends : extends db' = extends db
}.

Inductive fleet_step (db : FleetDb) : FleetDb → Prop :=
| step_command c : permitted db c → fleet_step db (exec c db)
| step_environment db' : environment db db' → fleet_step db db'.

Definition fleet_steps : FleetDb → FleetDb → Prop := rtc fleet_step.

(** ** The invariant and the progress order along steps *)

Hypothesis created_fork : ∀ i, created i → fork_operation_id i = None.
Hypothesis created_positive : ∀ i d, created i → 0 <= rget d (resources i).

Lemma environment_row pend m m' : (∃ u, m' = m <| usage := u |>) → soft pend m m'.
Proof. intros [u ->]. by constructor. Qed.

Lemma held_environment d h db db' : environment db db' → held d h db' = held d h db.
Proof.
  intros [Hm _ _ _ _]. unfold held. symmetry. apply map_sum_rel. intros id.
  destruct (Hm id) as [m m' [u ->]|]; by constructor.
Qed.

Lemma held_absent d h db : fleet_inv db → hosts db !! h = None → held d h db = 0.
Proof.
  intros Hinv Hh. transitivity (map_sum (λ _, 0) (machines db)).
  - apply map_sum_ext. intros id m Hm. unfold holding, holds.
    rewrite bool_decide_eq_false_2; [done|]. intros Hhost.
    destruct (fi_host db Hinv id m h Hm Hhost). congruence.
  - unfold map_sum. by apply sum_with_zero.
Qed.

Lemma environment_inv db db' : environment db db' → fleet_inv db → fleet_inv db'.
Proof.
  intros He Hinv. pose proof He as [Hm Hh Hstay Hf _].
  assert (∀ id m', machines db' !! id = Some m' → ∃ m, machines db !! id = Some m ∧
    ∃ u, m' = m <| usage := u |>) as Hrow.
  { intros id m' Hm'. by apply (forall2_lookup _ _ _ _ (Hm id)). }
  constructor.
  - intros h row' d Hr. rewrite (held_environment d h db db') by done.
    specialize (Hh h row' Hr). destruct (hosts db !! h) as [row|] eqn:E; rewrite Hh.
    + by apply fi_reserved.
    + rewrite held_absent by done. by destruct d.
  - intros id m' h Hm' Hhost. destruct (Hrow id m' Hm') as (m & Hid & u & ->).
    apply Hstay. by apply (fi_host db Hinv id m).
  - intros id m' Hm' Hun. destruct (Hrow id m' Hm') as (m & Hid & u & ->).
    by apply (fi_unplaced db Hinv id m).
  - intros id m' Hm' Hrel. destruct (Hrow id m' Hm') as (m & Hid & u & ->).
    by apply (fi_released db Hinv id m).
  - intros id m' op Hm' Hop. destruct (Hrow id m' Hm') as (m & Hid & u & ->).
    rewrite Hf. by apply (fi_fork db Hinv id m).
  - intros op k c Hk Hc. rewrite Hf in Hk.
    destruct (fi_children db Hinv op k c Hk Hc) as (m & Hid & Hop).
    destruct (forall2_lookup_l _ _ _ _ (Hm c) Hid) as (m' & Hid' & u & ->). by eexists.
  - intros id m' d Hm'. destruct (Hrow id m' Hm') as (m & Hid & u & ->).
    by apply (fi_positive db Hinv id m).
Qed.

Lemma environment_le db db' : environment db db' → fleet_le db db'.
Proof.
  intros [Hm _ _ Hf _]. constructor.
  - intros id m Hid. destruct (forall2_lookup_l _ _ _ _ (Hm id) Hid) as (m' & Hid' & Heq).
    exists m'. split; [done|]. by eapply soft_row_le, (environment_row (λ _, true)).
  - intros op k Hk. rewrite Hf. exists k. split; [done|reflexivity].
Qed.

(** A transaction that commits moves the tables softly, or is one of the
    five that move capacity. *)
Lemma exec_preserves c db :
  fleet_inv db → permitted db c → fleet_inv (exec c db) ∧ fleet_le db (exec c db).
Proof.
  intros Hinv Hp.
  assert (∀ db', soft_db db db' → fleet_inv db' ∧ fleet_le db db') as Hsoft.
  { intros db' Hs. split; [by eapply inv_soft|by apply soft_le]. }
  destruct c; cbn [exec permitted] in *;
    match goal with |- context [commit ?t db] =>
      destruct (commit_cases t db) as [->|[a Ha]]; [split; [done|reflexivity]|] end.
  - split; [|by eapply insertRequested_le].
    eapply insertRequested_inv; eauto.
  - by eapply Hsoft, claimCreate_soft.
  - by eapply Hsoft, releaseCreateClaim_soft.
  - by eapply Hsoft, failCreate_soft.
  - destruct Hp as (id & Hid & Hres).
    split; [by eapply reserve_inv|by eapply reserve_le].
  - split; [by eapply release_inv|by eapply release_le].
  - by eapply Hsoft, observeHost_soft.
  - destruct Hp. by eapply Hsoft, transition_soft.
  - by eapply Hsoft, beginExtend_soft.
  - by eapply Hsoft, completeExtend_soft.
  - split; [by eapply beginFork_inv|by eapply beginFork_le].
  - by eapply Hsoft, completeFork_soft.
  - split; [by eapply failFork_inv|].
    apply failFork_spec in Ha as [->|(k & Hk & Hpe & ->)]; [reflexivity|].
    by apply fail_batch_le.
  - by eapply Hsoft, requestForkCleanup_soft.
  - by eapply Hsoft, releaseForkCleanupClaim_soft.
  - split; [by eapply completeForkCleanup_inv|].
    apply completeForkCleanup_spec in Ha as [->|(k & f & Hk & Hpe & _ & _ & ->)]; [reflexivity|].
    by apply fail_batch_le.
  - by eapply Hsoft, claimPendingForks_soft.
  - by eapply Hsoft, releaseForkClaim_soft.
  - by eapply Hsoft, markLost_soft.
  - destruct Hp. by eapply Hsoft, finish_soft.
  - by eapply Hsoft, claimReconcileBatch_soft.
  - by eapply Hsoft, releaseReconcileClaim_soft.
  - by eapply Hsoft, persistRecovered_soft.
  - by eapply Hsoft, observeRunning_soft.
  - by eapply Hsoft, observeStarting_soft.
Qed.

Lemma step_preserves db db' :
  fleet_inv db → fleet_step db db' → fleet_inv db' ∧ fleet_le db db'.
Proof.
  intros Hinv [c Hp|db'' He].
  - by apply exec_preserves.
  - split; [by eapply environment_inv|by apply environment_le].
Qed.

Lemma steps_preserve db db' :
  fleet_inv db → fleet_steps db db' → fleet_inv db' ∧ fleet_le db db'.
Proof.
  intros Hinv Hs. revert Hinv.
  induction Hs as [db|db db1 db' Hstep _ IH]; intros Hinv; [split; [done|reflexivity]|].
  destruct (step_preserves db db1 Hinv Hstep) as [Hinv1 Hle].
  destruct (IH Hinv1) as [Hinv' Hle']. split; [done|]. by etransitivity.
Qed.
End steps.
