(* ===== verification/FleetKeys.v ===== *)
(** * Keys and failed forks

    Four more facts every step preserves: an idempotency key names at most one
    machine of a project, a fork key names at most one operation, the
    children of a failed fork are finished and hold no capacity, and a failed fork
    says why.  Each step has one of four effects on the machines and forks; the
    proofs are by cases on the effect.  The last part is the small fleet of the
    witnesses. *)

From S2P Require Import Prelude Text Capacity Lifecycle Billing Fleet Scheduler MachineRepo ForkRepo.
From S2P Require Import ReconcileDb FleetInv FleetSteps FleetHard FleetForks FleetStep.

(** ** Keys *)

Definition machine_key (m : MachineRow) : string * string * string :=
  (organization_id (ident m), project_id (ident m), idempotency_key (ident m)).

Lemma has_idempotency_key org project key m :
  has_idempotency org project key m = true ↔ machine_key m = (org, project, key).
Proof.
  unfold has_idempotency, in_organization, in_project, machine_key.
  rewrite !andb_true_iff, !String.eqb_eq. split; [by intros [[-> ->] ->]|by intros [= -> -> ->]].
Qed.

Lemma find_map_to_list {A} (p : string * A → bool) (t : gmap string A) k x :
  List.find p (map_to_list t) = Some (k, x) → t !! k = Some x ∧ p (k, x) = true.
Proof.
  intros [Hin Hp]%find_some. split; [|done].
  by apply elem_of_map_to_list, list_elem_of_In.
Qed.

Lemma find_map_to_list_None {A} (p : string * A → bool) (t : gmap string A) k x :
  List.find p (map_to_list t) = None → t !! k = Some x → p (k, x) = false.
Proof.
  intros Hf Hk. eapply find_none; [done|]. by apply list_elem_of_In, elem_of_map_to_list.
Qed.

Lemma findByIdempotency_Some db org project key id m :
  findByIdempotency db org project key = Some (id, m) →
  machines db !! id = Some m ∧ machine_key m = (org, project, key).
Proof.
  intros [Hm Hk]%find_map_to_list. split; [done|]. by apply has_idempotency_key.
Qed.

Lemma findByIdempotency_None db org project key id m :
  findByIdempotency db org project key = None → machines db !! id = Some m →
  machine_key m ≠ (org, project, key).
Proof.
  intros Hf Hm Hk. apply (find_map_to_list_None _ _ id m) in Hf; [|done].
  apply has_idempotency_key in Hk. simpl in Hf. congruence.
Qed.

Definition is_fork_key (org project source key : string) (kv : string * ForkRow) : bool :=
  String.eqb (k_organization kv.2) org && String.eqb (k_project kv.2) project &&
  String.eqb (k_source_machine kv.2) source && String.eqb (k_key kv.2) key.

Lemma is_fork_key_spec org project source key id k :
  is_fork_key org project source key (id, k) = true ↔ fork_key k = (org, project, source, key).
Proof.
  unfold is_fork_key, fork_key. simpl. rewrite !andb_true_iff, !String.eqb_eq.
  split; [by intros [[[-> ->] ->] ->]|by intros [= -> -> -> ->]].
Qed.

Lemma fork_prior_Some db org project source key op k :
  fork_prior db org project source key = Some (op, k) →
  forks db !! op = Some k ∧ fork_key k = (org, project, source, key).
Proof.
  intros [Hk Hp]%find_map_to_list. split; [done|]. by apply (is_fork_key_spec _ _ _ _ op).
Qed.

Lemma fork_prior_None db org project source key op k :
  fork_prior db org project source key = None → forks db !! op = Some k →
  fork_key k ≠ (org, project, source, key).
Proof.
  intros Hf Hk Hkey. apply (find_map_to_list_None _ _ op k) in Hf; [|done].
  apply (is_fork_key_spec _ _ _ _ op) in Hkey. unfold is_fork_key in Hkey. congruence.
Qed.

(** ** The invariant *)

Record keys_inv (db : FleetDb) : Prop := mkKeysInv {
  ki_machine : ∀ id id' m m', machines db !! id = Some m → machines db !! id' = Some m' →
    machine_key m = machine_key m' → id = id';
  ki_fork : ∀ op op' k k', forks db !! op = Some k → forks db !! op' = Some k' →
    fork_key k = fork_key k' → op = op';
  ki_failed : ∀ op k id m, forks db !! op = Some k → k_state k = ForkFailed →
    machines db !! id = Some m → fork_operation_id (ident m) = Some op →
    terminal (mstate m) = true ∧ is_Some (reservation_released_at (place m));
  ki_failure : ∀ op k, forks db !! op = Some k → k_state k = ForkFailed → is_Some (k_failure k)
}.

(** ** Effects *)

(** What a step does to machines and forks. *)
Inductive effect (created : Identity → Prop) (db db' : FleetDb) : Prop :=
| eff_rows :
    (∀ id, option_Forall2 row_le (machines db !! id) (machines db' !! id)) →
    (∀ op, option_Forall2 fork_soft (forks db !! op) (forks db' !! op)) → effect created db db'
| eff_insert now id i expires :
    machines db !! id = None → created i → fork_operation_id i = None →
    findByIdempotency db (organization_id i) (project_id i) (idempotency_key i) = None →
    machines db' = <[id := requested_row now i expires]> (machines db) →
    forks db' = forks db → effect created db db'
| eff_begun now clock org project source key requestHash audit op host m cs :
    fork_prior db org project source key = None →
    fork_conflicts op org project cs db = false →
    in_organization org m = true → in_project project m = true →
    db' = begun now clock org project source key requestHash audit op host m cs db →
    effect created db db'
| eff_failed now op k f :
    forks db !! op = Some k → k_state k = ForkPending → db' = fail_batch now op k f db →
    effect created db db'.

Lemma soft_effect created db db' : soft_db db db' → effect created db db'.
Proof.
  intros [Hm _ Hf]. apply eff_rows; [|done]. intros id.
  destruct (Hm id); constructor. by eapply soft_row_le.
Qed.

Lemma same_effect created db : effect created db db.
Proof. apply eff_rows; intros; apply forall2_refl, _. Qed.

Lemma row_effect created db db' id m m' :
  machines db !! id = Some m → row_le m m' →
  machines db' = <[id := m']> (machines db) → forks db' = forks db → effect created db db'.
Proof.
  intros Hm Hle Hms Hfs. apply eff_rows.
  - intros i. rewrite Hms. destruct (decide (id = i)) as [<-|Hne].
    + rewrite lookup_insert_eq, Hm. by constructor.
    + rewrite lookup_insert_ne by done. apply forall2_refl, _.
  - intros op. rewrite Hfs. apply forall2_refl, _.
Qed.

Section effects.
Context `{BillingAdmission FleetDb} (created : Identity → Prop).
Hypothesis created_fork : ∀ i, created i → fork_operation_id i = None.
Hypothesis created_positive : ∀ i d, created i → 0 <= rget d (resources i).

Lemma insert_effect now id i expires uuid db r db' :
  created i → insertRequested now id i expires uuid db = Ok (r, db') → effect created db db'.
Proof.
  intros Hc Hi. unfold insertRequested in Hi. destruct (negb _); [done|].
  destruct (insert_conflicts id i db) eqn:E; [done|].
  apply (f_equal (λ x, match x with Ok (_, s) => s | Err _ => db end)) in Hi. subst db'.
  unfold insert_conflicts in E. bool_simp.
  eapply (eff_insert _ _ _ now id i expires); [|done|by apply created_fork| |done..];
    by apply eq_None_not_Some.
Qed.

Lemma reserve_effect now locked request id db rv db' :
  fleet_inv db → s_machineId request = Some id →
  reserve now locked request db = Ok (rv, db') → effect created db db'.
Proof.
  intros Hinv Hid Hr. pose proof (reserve_le _ _ _ _ _ _ _ Hinv Hid Hr) as Hle.
  destruct (reserve_spec _ _ _ _ _ _ _ Hid Hr)
    as (r & host & h & m & _ & _ & _ & Hm & _ & _ & ->).
  destruct (fl_machines _ _ Hle id m Hm) as (m' & Hm' & Hrow). simpl in Hm'.
  rewrite lookup_insert_eq in Hm'. apply (inj Some) in Hm' as <-.
  by eapply (row_effect _ _ _ id).
Qed.

Lemma release_effect now host r id db u db' :
  release now host r (Some id) db = Ok (u, db') → effect created db db'.
Proof.
  intros Hr. pose proof (release_le _ _ _ _ _ _ _ Hr) as Hle.
  destruct (release_spec _ _ _ _ _ _ _ Hr) as [->|(m & Hm & _ & ->)]; [apply same_effect|].
  destruct (fl_machines _ _ Hle id m Hm) as (m' & Hm' & Hrow). simpl in Hm'.
  rewrite lookup_insert_eq in Hm'. apply (inj Some) in Hm' as <-.
  by eapply (row_effect _ _ _ id).
Qed.

Lemma beginFork_effect now clock source org project key requestHash audit op cs db r db' :
  beginFork now clock source org project key requestHash audit op cs db = Ok (r, db') →
  effect created db db'.
Proof.
  intros [->|(ol & p & m & host & h & _ & _ & _ & _ & _ & _ & Hio & Hip & Hpr & _ & Hc & ->)]
    %beginFork_spec; [apply same_effect|]. by eapply eff_begun.
Qed.

Lemma exec_effect c db : fleet_inv db → permitted created db c → effect created db (exec c db).
Proof.
  intros Hinv Hp.
  destruct c; cbn [exec permitted] in *;
    match goal with |- context [commit ?t db] =>
      destruct (commit_cases t db) as [->|[a Ha]]; [by apply same_effect|] end.
  - by eapply insert_effect.
  - by eapply soft_effect, claimCreate_soft.
  - by eapply soft_effect, releaseCreateClaim_soft.
  - by eapply soft_effect, failCreate_soft.
  - destruct Hp as (id & Hid & _). by eapply reserve_effect.
  - by eapply release_effect.
  - by eapply soft_effect, observeHost_soft.
  - destruct Hp. by eapply soft_effect, transition_soft.
  - by eapply soft_effect, beginExtend_soft.
  - by eapply soft_effect, completeExtend_soft.
  - by eapply beginFork_effect.
  - by eapply soft_effect, completeFork_soft.
  - apply failFork_spec in Ha as [->|(k & Hk & Hpe & ->)]; [apply same_effect|].
    by eapply eff_failed.
  - by eapply soft_effect, requestForkCleanup_soft.
  - by eapply soft_effect, releaseForkCleanupClaim_soft.
  - apply completeForkCleanup_spec in Ha as [->|(k & f & Hk & Hpe & _ & _ & ->)];
      [apply same_effect|]. by eapply eff_failed.
  - by eapply soft_effect, claimPendingForks_soft.
  - by eapply soft_effect, releaseForkClaim_soft.
  - by eapply soft_effect, markLost_soft.
  - destruct Hp. by eapply soft_effect, finish_soft.
  - by eapply soft_effect, claimReconcileBatch_soft.
  - by eapply soft_effect, releaseReconcileClaim_soft.
  - by eapply soft_effect, persistRecovered_soft.
  - by eapply soft_effect, observeRunning_soft.
  - by eapply soft_effect, observeStarting_soft.
Qed.

Lemma step_effect db db' : fleet_inv db → fleet_step created db db' → effect created db db'.
Proof.
  intros Hinv [c Hp|db'' He]; [by apply exec_effect|].
  destruct He as [Hm _ _ Hf _]. apply eff_rows.
  - intros id. destruct (Hm id) as [m m' Heq|]; constructor.
    by eapply soft_row_le, (environment_row (λ _, true)).
  - intros op. rewrite Hf. apply forall2_refl, _.
Qed.
End effects.

(** ** Effects preserve the invariant *)

Lemma row_le_key m m' : row_le m m' → machine_key m' = machine_key m.
Proof. intros [Hi _ _ _ _]. unfold machine_key. by rewrite Hi. Qed.

Lemma keys_rows db db' :
  (∀ id, option_Forall2 row_le (machines db !! id) (machines db' !! id)) →
  (∀ op, option_Forall2 fork_soft (forks db !! op) (forks db' !! op)) →
  keys_inv db → keys_inv db'.
Proof.
  intros Hm Hf [Hkm Hkf Hfa Hff]. constructor.
  - intros id1 id2 x1 x2 H1 H2 Heq.
    destruct (forall2_lookup _ _ _ _ (Hm id1) H1) as (m1 & Hm1 & Hle1).
    destruct (forall2_lookup _ _ _ _ (Hm id2) H2) as (m2 & Hm2 & Hle2).
    rewrite (row_le_key _ _ Hle1), (row_le_key _ _ Hle2) in Heq. by eapply Hkm.
  - intros op1 op2 x1 x2 H1 H2 Heq.
    destruct (forall2_lookup _ _ _ _ (Hf op1) H1) as (k1 & Hk1 & (_ & _ & _ & Hkey1 & _) & _).
    destruct (forall2_lookup _ _ _ _ (Hf op2) H2) as (k2 & Hk2 & (_ & _ & _ & Hkey2 & _) & _).
    rewrite Hkey1, Hkey2 in Heq. by eapply Hkf.
  - intros op k' id x Hk' Hfl Hx Hop.
    destruct (forall2_lookup _ _ _ _ (Hf op) Hk') as (k & Hk & _ & Hback).
    destruct (forall2_lookup _ _ _ _ (Hm id) Hx) as (m & Hm0 & [Hi _ Hr _ Hfin]).
    rewrite Hi in Hop. destruct (Hfa op k id m Hk (Hback Hfl) Hm0 Hop) as [Ht Hrel].
    rewrite (Hfin Ht), (Hr Hrel). done.
  - intros op k' Hk' Hfl.
    destruct (forall2_lookup _ _ _ _ (Hf op) Hk') as (k & Hk & (_ & _ & Hst & _) & Hback).
    destruct Hst as [_ ->]; [by rewrite Hback|]. by eapply Hff; eauto.
Qed.

Lemma keys_insert db db' now id i expires :
  machines db !! id = None → fork_operation_id i = None →
  findByIdempotency db (organization_id i) (project_id i) (idempotency_key i) = None →
  machines db' = <[id := requested_row now i expires]> (machines db) →
  forks db' = forks db → keys_inv db → keys_inv db'.
Proof.
  intros Hnone Hfork Hkey Hms Hfs [Hkm Hkf Hfa Hff].
  pose proof (λ id' m', findByIdempotency_None db _ _ _ id' m' Hkey) as Hnew. constructor.
  - intros id1 id2 x1 x2. rewrite Hms.
    intros [[<- <-]|[Hn1 H1]]%lookup_insert_Some [[<- <-]|[Hn2 H2]]%lookup_insert_Some Heq;
      [done|..|by eapply Hkm].
    + by destruct (Hnew id2 x2 H2).
    + by destruct (Hnew id1 x1 H1).
  - rewrite Hfs. apply Hkf.
  - rewrite Hfs, Hms. intros op k id' x Hk Hfl [[<- <-]|[_ Hx]]%lookup_insert_Some Hop.
    + simpl in Hop. congruence.
    + by eapply Hfa.
  - rewrite Hfs. apply Hff.
Qed.

#[export] Instance child_key_inj op : Inj (=) (=) (child_key op).
Proof.
  intros n n' Heq. unfold child_key in Heq.
  apply (inj (String.append "fork:")), (inj (String.append op)), (inj (String.append ":")) in Heq.
  apply (inj pretty) in Heq. lia.
Qed.

(** A machine after a fork was begun is old, or the child at some position. *)
Lemma begun_lookup now clock org project source key requestHash audit op host m cs db id x :
  NoDup (c_machine <$> cs) →
  machines (begun now clock org project source key requestHash audit op host m cs db) !! id = Some x →
  (∃ i c, cs !! i = Some c ∧ id = c_machine c ∧
     x = child_row op source m (ceil_div (expires_at (life m) - clock) msPerSecond) now i c) ∨
  machines db !! id = Some x.
Proof.
  intros Hnd Hx. unfold begun in Hx. simpl in Hx.
  destruct (insert_children_lookup _ _ _ _ _ _ _ _ _ _ Hnd Hx) as [(Hin & _)|(_ & Hx')];
    [|by right]. left.
  apply list_elem_of_fmap in Hin as (c & -> & [i Hi]%list_elem_of_lookup).
  exists i, c. split_and!; [done|done|].
  rewrite (insert_children_nth _ _ _ _ _ _ _ _ i c Hnd Hi) in Hx.
  by apply (inj Some) in Hx as <-.
Qed.

Lemma fork_conflicts_keys op org project cs db i :
  fork_conflicts op org project cs db = false → (i < length cs)%nat →
  findByIdempotency db org project (child_key op i) = None.
Proof.
  intros Hc Hi. unfold fork_conflicts in Hc. apply orb_false_iff in Hc as [_ Hc].
  apply eq_None_not_Some. intros Hs. rewrite <- not_true_iff_false, existsb_exists in Hc.
  apply Hc. exists i. split; [apply in_seq; lia|by apply bool_decide_eq_true].
Qed.

Lemma begun_forks now clock org project source key requestHash audit op host m cs db :
  forks (begun now clock org project source key requestHash audit op host m cs db)
  = <[op := new_fork now org project source host (default "" (host_machine_id (place m))) key
              requestHash audit m cs]> (forks db).
Proof.
  unfold begun. simpl.
  match goal with |- context [insert_children op source m ?rem now 0 cs ?db1] =>
    by destruct (insert_children_tables op source m rem now 0 cs db1) as (_ & -> & _) end.
Qed.

Lemma keys_begun now clock org project source key requestHash audit op host m cs db :
  fleet_inv db → fork_prior db org project source key = None →
  fork_conflicts op org project cs db = false →
  in_organization org m = true → in_project project m = true →
  keys_inv db →
  keys_inv (begun now clock org project source key requestHash audit op host m cs db).
Proof.
  intros Hinv Hprior Hc Horg%String.eqb_eq Hproj%String.eqb_eq [Hkm Hkf Hfa Hff].
  pose proof (λ i, fork_conflicts_keys op org project cs db i Hc) as Hkeys.
  apply fork_conflicts_spec in Hc as (Hop & Hfresh & Hnd).
  assert (∀ i c id x, cs !! i = Some c → machines db !! id = Some x →
    machine_key x ≠ (org, project, child_key op i)) as Hnew.
  { intros i c id x Hi%lookup_lt_Some Hx.
    by apply (findByIdempotency_None db org project (child_key op i) id), Hx; apply Hkeys. }
  constructor.
  - intros id1 id2 x1 x2
      [(i1 & c1 & Hi1 & -> & ->)|H1]%begun_lookup
      [(i2 & c2 & Hi2 & -> & ->)|H2]%begun_lookup Heq; try done.
    + assert (child_key op i1 = child_key op i2) as Hck by exact (f_equal snd Heq).
      apply (inj (child_key op)) in Hck as <-. congruence.
    + destruct (Hnew i1 c1 id2 x2 Hi1 H2). rewrite <- Heq. unfold machine_key. simpl.
      by rewrite Horg, Hproj.
    + destruct (Hnew i2 c2 id1 x1 Hi2 H1). rewrite Heq. unfold machine_key. simpl.
      by rewrite Horg, Hproj.
    + by eapply Hkm.
  - intros op1 op2 k1 k2. rewrite begun_forks.
    intros [[<- <-]|[_ H1]]%lookup_insert_Some [[<- <-]|[_ H2]]%lookup_insert_Some Heq;
      [done|..|by eapply Hkf].
    + by destruct (fork_prior_None _ _ _ _ _ _ _ Hprior H2).
    + by destruct (fork_prior_None _ _ _ _ _ _ _ Hprior H1).
  - intros op' k id x. rewrite begun_forks.
    intros [[<- <-]|[Hne Hk]]%lookup_insert_Some Hfl Hx Hxop; [done|].
    apply begun_lookup in Hx as [(i & c & _ & _ & ->)|Hx]; [simpl in Hxop; congruence| |done].
    by eapply Hfa.
  - intros op' k. rewrite begun_forks.
    intros [[<- <-]|[_ Hk]]%lookup_insert_Some Hfl; [done|]. by eapply Hff.
Qed.

Lemma keys_failed now op k f db :
  fleet_inv db → forks db !! op = Some k → k_state k = ForkPending → keys_inv db →
  keys_inv (fail_batch now op k f db).
Proof.
  intros Hinv Hk Hp [Hkm Hkf Hfa Hff].
  pose proof (fail_batch_le now op k f db Hinv Hk Hp) as [Hrows Hforks].
  destruct (fail_children_tables now op (k_organization k) (f_message f) db) as (Hms & _ & Hfs).
  assert (∀ id x, machines (fail_batch now op k f db) !! id = Some x → ∃ m,
    machines db !! id = Some m ∧ row_le m x ∧
    (of_fork op m = true → x = failed_child now (f_message f) m)) as Hback.
  { intros id x Hx. assert (∃ m, machines db !! id = Some m) as [m Hm].
    { unfold fail_batch in Hx. simpl in Hx. rewrite Hms, lookup_fmap in Hx.
      destruct (machines db !! id); [eauto|done]. }
    destruct (Hrows id m Hm) as (x' & Hx' & Hle). rewrite Hx in Hx'. apply (inj Some) in Hx' as <-.
    exists m. split_and!; [done..|]. intros Hof. unfold fail_batch in Hx. simpl in Hx.
    rewrite Hms, lookup_fmap, Hm in Hx. apply (inj Some) in Hx as <-.
    by rewrite (fails_with_pending db op k id m), Hof. }
  assert (∀ i x, forks (fail_batch now op k f db) !! i = Some x →
    (i = op ∧ x = failed_fork now f k) ∨ (i ≠ op ∧ forks db !! i = Some x)) as Hfb.
  { intros i x Hx. unfold fail_batch in Hx. simpl in Hx. rewrite Hfs in Hx.
    apply lookup_insert_Some in Hx as [[<- <-]|[Hne Hx]]; [by left|by right]. }
  constructor.
  - intros id1 id2 x1 x2 (m1 & Hm1 & Hle1 & _)%Hback (m2 & Hm2 & Hle2 & _)%Hback Heq.
    rewrite (row_le_key _ _ Hle1), (row_le_key _ _ Hle2) in Heq. by eapply Hkm.
  - intros op1 op2 k1 k2 H1%Hfb H2%Hfb Heq.
    destruct H1 as [[-> ->]|[_ H1]], H2 as [[-> ->]|[_ H2]];
      [done|by eapply Hkf|by eapply Hkf|by eapply Hkf].
  - intros op' k' id x Hk' Hfl (m & Hm & Hle & Hfail)%Hback Hop.
    rewrite (rl_ident _ _ Hle) in Hop. apply Hfb in Hk' as [[-> ->]|[Hne Hk']].
    + rewrite Hfail by by apply bool_decide_eq_true. split; [done|by eexists].
    + destruct (Hfa op' k' id m Hk' Hfl Hm Hop) as [Ht Hr].
      rewrite (rl_final _ _ Hle Ht), (rl_released _ _ Hle Hr). done.
  - intros op' k' [[-> ->]|[_ Hk']]%Hfb Hfl; [by eexists|]. by eapply Hff.
Qed.

Lemma effect_keys created db db' : fleet_inv db → effect created db db' → keys_inv db → keys_inv db'.
Proof.
  intros Hinv [Hm Hf|now id i expires Hn _ Hf Hk Hms Hfs|
    now clock org project source key hash audit op host m cs Hpr Hc Hio Hip ->|
    now op k f Hk Hp ->] Hkeys.
  - by eapply keys_rows.
  - by eapply keys_insert.
  - by apply keys_begun.
  - by apply keys_failed.
Qed.

(** * What the fleet's transactions leave to the usage producer

    No transaction of the scheduler, the repository or the reconciler's machine
    statements writes the usage columns of an existing machine, and none moves the
    start of one that has run. *)

Record usage_row (m m' : MachineRow) : Prop := mkUsageRow {
  ur_usage : usage m' = usage m;
  ur_started : 3 <= rank (mstate m) → ∀ s, started_at (life m) = Some s → started_at (life m') = Some s
}.

(** A new row has no checkpoint. *)
Definition usage_from (m : option MachineRow) (m' : MachineRow) : Prop :=
  match m with
  | Some m => usage_row m m'
  | None => usage_checkpoint_at (usage m') = None
  end.

Definition usage_kept (db db' : FleetDb) : Prop :=
  ∀ id m', machines db' !! id = Some m' → usage_from (machines db !! id) m'.

#[export] Instance usage_row_refl : Reflexive usage_row.
Proof. by constructor. Qed.

#[export] Instance usage_kept_refl : Reflexive usage_kept.
Proof. intros db id m' Hm'. rewrite Hm'. simpl. reflexivity. Qed.

Lemma machines_kept db db' : machines db' = machines db → usage_kept db db'.
Proof. intros Hms id m' Hm'. rewrite Hms in Hm'. rewrite Hm'. simpl. reflexivity. Qed.

Lemma set_kept db id m m' db' :
  machines db !! id = Some m → usage_row m m' → machines db' = <[id := m']> (machines db) →
  usage_kept db db'.
Proof.
  intros Hm Hr Hms k x' Hx'. rewrite Hms in Hx'.
  apply lookup_insert_Some in Hx' as [[<- <-]|[_ Hx']]; [by rewrite Hm|]. rewrite Hx'. simpl. reflexivity.
Qed.

(** The rows change by a function that keeps them. *)
Lemma map_kept db db' (f : string → MachineRow → MachineRow) :
  (∀ id m, machines db !! id = Some m → usage_row m (f id m)) →
  machines db' = map_imap (λ id m, Some (f id m)) (machines db) → usage_kept db db'.
Proof.
  intros Hf Hms id m' Hm'. rewrite Hms, map_lookup_imap in Hm'.
  destruct (machines db !! id) as [m|] eqn:Hm; [|done]. injection Hm' as <-. by apply Hf.
Qed.

Ltac row_kept :=
  constructor; simpl; [done|]; unfold mstate in *; intros Hrank;
  repeat match goal with H : state (life _) = _ |- _ => rewrite H in Hrank end;
  simpl in *; try lia; intros s Hs; rewrite ?Hs; done.

Lemma completed_kept now op allReady m m' : completed_from now op allReady m m' → usage_row m m'.
Proof.
  intros [->|(_ & Hs & hm & ->)]; [reflexivity|]. row_kept.
Qed.

Lemma fail_batch_kept tnow op k f db : usage_kept db (fail_batch tnow op k f db).
Proof.
  destruct (fail_children_tables tnow op (k_organization k) (f_message f) db) as (Hms & _ & _).
  intros id m' Hm'. unfold fail_batch in Hm'. simpl in Hm'. rewrite Hms, lookup_fmap in Hm'.
  destruct (machines db !! id) as [m|]; [|done]. injection Hm' as <-. simpl. destruct (fails_with op m); [row_kept|reflexivity].
Qed.

Section exec.
Context `{BillingAdmission FleetDb}.

Lemma claimed_batch_kept now token batch (ms ms0 : gmap string MachineRow) :
  (∀ id m', ms !! id = Some m' → usage_from (ms0 !! id) m') →
  ∀ id m', foldl (λ ms (kv : string * MachineRow), alter (claimed_row now token) kv.1 ms) ms batch !! id = Some m' →
    usage_from (ms0 !! id) m'.
Proof.
  revert ms. induction batch as [|kv batch IH]; intros ms Hms; simpl; [done|]. apply IH.
  intros id m' Hm'. apply lookup_alter_Some in Hm' as [(<- & y & Hy & ->)|[_ Hm']]; [|by apply Hms].
  apply Hms in Hy. destruct (ms0 !! kv.1); simpl in *; [|done]. destruct Hy. by constructor.
Qed.

Lemma begun_kept now clock org project source key hash audit op host m cs db :
  fork_conflicts op org project cs db = false →
  usage_kept db (begun now clock org project source key hash audit op host m cs db).
Proof.
  intros Hcf id m' Hm'. apply fork_conflicts_spec in Hcf as (_ & Hnew & Hnd).
  apply begun_lookup in Hm' as [(i & c & Hi & -> & ->)|Hm']; [| |done].
  - rewrite Hnew; [done|]. apply list_elem_of_fmap. exists c. split; [done|]. by eapply list_elem_of_lookup_2.
  - rewrite Hm'. simpl. reflexivity.
Qed.

(** A statement that updates one row, or nothing. *)
Ltac one_row Ha :=
  repeat match type of Ha with context [match ?x with _ => _ end] =>
    let E := fresh "E" in destruct x eqn:E; try done end;
  try (injection Ha; intros; subst; clear Ha); bool_simp;
  first [reflexivity | by apply machines_kept | eapply set_kept; [eassumption| |reflexivity]; row_kept].

Lemma exec_usage created c db : permitted created db c → usage_kept db (exec c db).
Proof.
  intros Hp.   destruct c; cbn [exec];
    match goal with |- context [commit ?t db] =>
      destruct (commit_cases t db) as [->|[a Ha]]; [reflexivity|]; revert Ha; generalize (commit t db) end;
    intros db' Ha; cbn [permitted] in Hp.
  - unfold insertRequested in Ha. destruct (negb _); [done|].
    destruct (insert_conflicts id i db) eqn:E; [done|]. injection Ha as _ <-.
    unfold insert_conflicts in E. bool_simp. intros k m' Hm'. simpl in Hm'.
    apply lookup_insert_Some in Hm' as [[<- <-]|[_ Hm']]; [|rewrite Hm'; simpl; reflexivity].
    match goal with H : ¬ is_Some (machines db !! id) |- _ => apply eq_None_not_Some in H; rewrite H end. done.
  - unfold claimCreate in Ha. one_row Ha.
  - unfold releaseCreateClaim in Ha. one_row Ha.
  - unfold failCreate in Ha. one_row Ha.
  - destruct Hp as (id & Hid & _).
    apply (reserve_spec _ _ _ id) in Ha as (r & host & h & m & _ & _ & _ & Hm & _ & _ & ->); [|done].
    eapply set_kept; [exact Hm| |reflexivity]. row_kept.
  - apply release_spec in Ha as [->|(m & Hm & _ & ->)]; [reflexivity|].
    eapply set_kept; [exact Hm| |reflexivity]. row_kept.
  - unfold observeHost in Ha. one_row Ha.
  - unfold transition in Ha. destruct (machines db !! id) as [m|] eqn:Hm; [|by injection Ha as _ <-].
    destruct (in_states _ _); injection Ha as _ <-; [|reflexivity].
    eapply set_kept; [exact Hm| |reflexivity]. unfold transitioned_row. destruct (terminal to); row_kept.
  - unfold beginExtend in Ha. one_row Ha.
  - unfold completeExtend in Ha. one_row Ha.
  - apply beginFork_spec in Ha as [->|(? & ? & m & host & h & _ & _ & _ & _ & _ & _ & _ & _ & _ & _ & Hcf & ->)];
      [reflexivity|]. by apply begun_kept.
  - apply completeFork_spec in Ha as [->|(k & db1 & Hk & _ & _ & _ & _ & Hc & ->)]; [reflexivity|].
    apply complete_children_spec with (db0 := db) in Hc as (Hrel & _ & _);
      [|intros c; apply fork_expected_rows|intros id; destruct (machines db !! id); by constructor; left].
    intros id m' Hm'. specialize (Hrel id).
    assert (machines db1 !! id = Some m') as Hm1 by by destruct (all_ready observed).
    rewrite Hm1 in Hrel. inversion Hrel as [m0 ? Hc Hm0|]; subst. by eapply completed_kept.
  - apply failFork_spec in Ha as [->|(k & Hk & _ & ->)]; [reflexivity|]. apply fail_batch_kept.
  - unfold requestForkCleanup in Ha. one_row Ha.
  - unfold releaseForkCleanupClaim in Ha. one_row Ha.
  - apply completeForkCleanup_spec in Ha as [->|(k & f & _ & _ & _ & _ & ->)]; [reflexivity|].
    apply fail_batch_kept.
  - unfold claimPendingForks in Ha. injection Ha as _ <-. by apply machines_kept.
  - unfold releaseForkClaim in Ha. one_row Ha.
  - unfold markLostOnStaleHosts in Ha. injection Ha as _ <-.
    match goal with |- context [foldl ?f db ?l] =>
      destruct (foldl_add_event (λ kv : string * MachineRow,
        mkEvent (kv.1 +:+ ":stale-host:lost") kv.1 (organization_id (ident kv.2))
          (Some (mstate kv.2)) Lost (Some "host heartbeat expired") "reconciler") l db)
        as (Hms & _ & _) end.
    eapply map_kept; [|simpl; by rewrite Hms].
    intros id m _. cbv beta. destruct (loses db m); [row_kept|reflexivity].
  - unfold finish in Ha. one_row Ha.
  - unfold claimReconcileBatch in Ha. injection Ha as _ <-. intros id m' Hm'. simpl in Hm'.
    eapply claimed_batch_kept; [|exact Hm']. intros k x' Hx'. rewrite Hx'. simpl. reflexivity.
  - unfold releaseReconcileClaim in Ha. one_row Ha.
  - unfold persistRecovered in Ha. one_row Ha.
  - unfold observeRunning in Ha. one_row Ha.
  - unfold observeStarting in Ha. one_row Ha.
Qed.
End exec.

(** * A small fleet

    One host, one project and the commands of a create, a fork and their ends:
    the inputs the witnesses evaluate. *)

#[export] Instance demo_billing : BillingAdmission FleetDb := fleet_billing sample_policy.

Definition demo_digest : string :=
  "0123456789abcdef0123456789abcdef0123456789abcdef0123456789abcdef".

Definition demo_resources : Resources := mkResources 2 1024 4096.

Definition demo_host : HostRow :=
  mkHost "10.0.0.1" "ca-tor-1" X86_64 HostReady "active" "active" (Some 1000)
    (mkResources 16 16384 100000) rzero (Some 12) (Some 12288) None
    (Some "cohort") (Some demo_digest) None.

(** A second host with more room: the worse fit. *)
Definition demo_large_host : HostRow :=
  mkHost "10.0.0.2" "ca-tor-1" X86_64 HostReady "active" "active" (Some 1000)
    (mkResources 32 32768 100000) rzero None None None
    (Some "cohort") (Some demo_digest) None.

Definition demo_limits : Limits := mkLimits 6 (mkResources 12 8192 100000).

Definition demo_identity (lease key : string) : Identity :=
  mkIdentity "org" "proj" lease 1 key "hash" "ca-tor-1" X86_64 (Some "python") None None 3600
    demo_resources networkOff None None 0.

Definition demo_start : FleetDb :=
  mkFleet ∅ {[ "h1" := demo_host; "h2" := demo_large_host ]} ∅ ∅ {[ "org" := demo_limits ]}
    {[ "proj" := mkProject "org" demo_limits ]} [] ∅ [] [] sample_tables.

Definition demo_request (id : string) : ScheduleRequest :=
  mkScheduleRequest "org" "proj" "ca-tor-1" X86_64
    (mkResourceInput (NInt 2) (NInt 1024) (NInt 4096)) None (Some id).

Definition demo_host_machine (id lease : string) : HostMachine :=
  mkHostMachine id "running" (Some lease) (Some 1) None None None true (Some 3000) (Some 4000)
    (Some 3600000) None None.

Definition demo_children : list ChildIds :=
  [mkChildIds "c0" "lease-c0" "hash-c0"; mkChildIds "c1" "lease-c1" "hash-c1"].

Definition demo_child_machine (id host lease : string) : HostMachine :=
  mkHostMachine host "running" (Some lease) (Some 1) (Some id) (Some "m1") (Some "op") true
    (Some 6000) (Some 7000) (Some 3600000) (Some demo_resources) (Some networkOff).

Definition demo_failure : Failure := mkFailure 502 "fork_batch_failed" "lost".

Definition demo_requested : FleetDb :=
  exec (InsertRequested 1000 "m1" (demo_identity "lease1" "key1") 3600000 "u1") demo_start.
Definition demo_claimed : FleetDb := exec (ClaimCreate 1000 "m1" "token") demo_requested.
Definition demo_placed : FleetDb := exec (Reserve 2000 ∅ (demo_request "m1")) demo_claimed.
Definition demo_running : FleetDb :=
  exec (ObserveHost 3000 3000 "m1" (demo_host_machine "vm1" "lease1") "u2") demo_placed.
Definition demo_forked : FleetDb :=
  exec (BeginFork 5000 5000 "m1" "org" "proj" "fork-key" "fork-hash" "audit" "op" demo_children)
    demo_running.
Definition demo_fork_done : FleetDb :=
  exec (CompleteFork 8000 "op"
          [demo_child_machine "c0" "vm2" "lease-c0"; demo_child_machine "c1" "vm3" "lease-c1"])
    demo_forked.
Definition demo_fork_failed : FleetDb := exec (FailFork 8000 "op" demo_failure) demo_forked.
