(* ===== verification/SchedulerTheorems.v ===== *)
(** * What the scheduler promises

    A reservation goes to a host that has the room, to the best such host, and
    only within the quotas of the organization and the project; a reservation
    is found whenever one is possible. *)

From S2P Require Import Prelude Text Capacity Lifecycle Billing Cohort Fleet Scheduler MachineRepo.
From S2P Require Import ForkRepo ReconcileDb FleetInv FleetSteps FleetHard FleetForks FleetStep.
From S2P Require Import FleetKeys.

(** ** The order of candidates *)

Lemma placement_order_total db request x y :
  placement_order db request x y <= 0 ∨ placement_order db request y x <= 0.
Proof.
  unfold placement_order.
  destruct (cached_template db x.1 _), (cached_template db y.1 _); simpl; try lia;
    repeat case_match; bool_simp; try lia; apply codeUnitCompare_total.
Qed.

Lemma placement_order_trans db request x y z :
  placement_order db request x y <= 0 → placement_order db request y z <= 0 →
  placement_order db request x z <= 0.
Proof.
  unfold placement_order.
  destruct (cached_template db x.1 _), (cached_template db y.1 _), (cached_template db z.1 _);
    simpl; try lia; repeat case_match; bool_simp; try lia; eauto using codeUnitCompare_trans.
Qed.

Lemma candidate_spec now db request r id h :
  candidate now db request r (id, h) = true →
  h_region h = s_region request ∧ h_architecture h = s_architecture request ∧
  accepts_work now h = true ∧ resources_le r (host_free h) = true ∧
  machine_bootable db h (s_machineId request) = true.
Proof. unfold candidate. intros Hc. bool_simp. split_and!; try done. Qed.

(** Room for a request leaves the host within its total. *)
Lemma host_free_room r h d :
  resources_le r (host_free h) = true → rget d (reserved h) + rget d r <= rget d (total h).
Proof.
  intros (Hv & Hm & Hd)%resources_le_spec. unfold host_free, free_of in *. simpl in *.
  destruct d; simpl; lia.
Qed.

(** ** Counted usage *)

Definition usage_count (p : MachineRow → bool) (m : MachineRow) : Z :=
  if p m && counted (mstate m) then 1 else 0.
Definition usage_of (d : dimension) (p : MachineRow → bool) (m : MachineRow) : Z :=
  if p m && counted (mstate m) then rget d (resources (ident m)) else 0.

Lemma usage_where_machines p db : u_machines (usage_where p db) = map_sum (usage_count p) (machines db).
Proof. done. Qed.
Lemma usage_where_resources p db d :
  rget d (u_resources (usage_where p db)) = map_sum (usage_of d p) (machines db).
Proof. by destruct d. Qed.

(** The limits hold of the usage itself. *)
Definition under_limits (l : Limits) (u : Usage) : Prop :=
  u_machines u <= max_machines l ∧ ∀ d, rget d (u_resources u) <= rget d (max_resources l).

Lemma within_limits_spec l u count r :
  within_limits l u count r = true ↔
  u_machines u + count <= max_machines l ∧
  ∀ d, rget d (u_resources u) + rget d r * count <= rget d (max_resources l).
Proof.
  unfold within_limits. rewrite !andb_true_iff, !Z.leb_le. split.
  - intros [[[Hm Hv] Hmem] Hd]. split; [done|]. by intros [].
  - intros [Hm Hr]. split_and!; [done|exact (Hr Vcpus)|exact (Hr MemoryMb)|exact (Hr DiskMb)].
Qed.

(** [count] machines of size [r] join the counted machines. *)
Definition usage_grows (p : MachineRow → bool) (count : Z) (r : Resources) (db db' : FleetDb) : Prop :=
  u_machines (usage_where p db') <= u_machines (usage_where p db) + count ∧
  ∀ d, rget d (u_resources (usage_where p db'))
       <= rget d (u_resources (usage_where p db)) + rget d r * count.

Lemma grows_under_limits l p count r db db' :
  within_limits l (usage_where p db) count r = true → usage_grows p count r db db' →
  under_limits l (usage_where p db').
Proof.
  intros [Hm Hr]%within_limits_spec [Hgm Hgr]. split; [lia|].
  intros d. specialize (Hr d). specialize (Hgr d). lia.
Qed.

(** A row that was not counted becomes counted. *)
Lemma usage_placed p db db' id m m' :
  machines db !! id = Some m → unplaced m = true → ident m' = ident m → p m' = p m →
  (∀ d, 0 <= rget d (resources (ident m))) →
  machines db' = <[id := m']> (machines db) →
  usage_grows p 1 (resources (ident m)) db db'.
Proof.
  intros Hm Hun Hi Hp Hpos Hms. unfold usage_grows.
  assert (counted (mstate m) = false) as Hc.
  { unfold unplaced, mstate, counted in *. by destruct (state (life m)). }
  split.
  - rewrite !usage_where_machines, Hms, (map_sum_insert _ _ _ _ m Hm).
    unfold usage_count at 2 3. rewrite Hc, andb_false_r. destruct (_ && _); lia.
  - intros d. rewrite !usage_where_resources, Hms, (map_sum_insert _ _ _ _ m Hm).
    unfold usage_of at 2 3. rewrite Hc, andb_false_r, Hi. specialize (Hpos d).
    destruct (_ && _); lia.
Qed.

Section enforce.
Context `{BillingAdmission FleetDb}.

(** A quota check that passed, taken apart. *)
Lemma enforceQuota_spec now request r db u db' :
  enforceQuota now request r db = Ok (u, db') →
  ∃ lo p, organizations db !! s_organization request = Some lo ∧
    projects db !! s_project request = Some p ∧ p_organization p = s_organization request ∧
    admits now (s_organization request) (delta_for (candidateSeconds now request db) r) db = Ok () ∧
    within_limits lo (usage_where (in_organization (s_organization request)) db) 1 r = true ∧
    within_limits (p_limits p) (usage_where (in_project (s_project request)) db) 1 r = true.
Proof.
  unfold enforceQuota. destruct (organizations db !! _) as [lo|] eqn:Ho; [|done].
  destruct (admits _ _ _ _) as [[]|] eqn:Ha; [|done].
  destruct (projects db !! _) as [p|] eqn:Hp; [|done].
  destruct (String.eqb _ _) eqn:Hpo; [|done]. cbn [negb].
  destruct (within_limits lo _ _ _) eqn:Hlo; [|done]. cbn [negb].
  destruct (within_limits (p_limits p) _ _ _) eqn:Hlp; [|done].
  intros _. exists lo, p. bool_simp. done.
Qed.
End enforce.

(** * Properties *)

(** C5: A reservation never overcommits a host.  The chosen host was unlocked,
    accepting work, in the requested region and architecture and booting the
    machine's image; after the transaction its reserved capacity has grown by
    exactly the validated request and stays within its total in every
    dimension, no other host changed, and the machine is starting on it. *)
Theorem reserve_within_capacity `{BillingAdmission FleetDb} now locked request id db rv db' :
  s_machineId request = Some id → reserve now locked request db = Ok (rv, db') →
  ∃ r h h' m,
    validateResources (s_resources request) = Ok r ∧
    hosts db !! rv_host rv = Some h ∧ (rv_host rv ∉ locked) ∧ accepts_work now h = true ∧
    h_region h = s_region request ∧ h_architecture h = s_architecture request ∧
    hosts db' !! rv_host rv = Some h' ∧ reserved h' = radd (reserved h) r ∧
    (∀ d, rget d (reserved h') <= rget d (total h')) ∧
    (∀ other, other ≠ rv_host rv → hosts db' !! other = hosts db !! other) ∧
    machines db' !! id = Some m ∧ mstate m = Starting ∧ host_id (place m) = Some (rv_host rv) ∧
    source_sha256 (place m) = rv_source rv ∧
    assignmentCommitted rv = true.
Proof.
  intros Hid Hr. destruct (reserve_spec _ _ _ _ _ _ _ Hid Hr)
    as (r & host & h & m & Hv & _ & Hs & Hm & Hun & -> & ->).
  destruct (select_host_spec _ _ _ _ _ _ _ Hs) as (Hh & Hc & Hl).
  destruct (candidate_spec _ _ _ _ _ _ Hc) as (Hreg & Harch & Hacc & Hroom & _).
  simpl. rewrite lookup_alter_eq, Hh, lookup_insert_eq.
  eexists r, h, _, _. split_and!; try done.
  - intros d. pose proof (host_free_room r h d Hroom). simpl. rewrite rget_radd. done.
  - intros other Hne. by rewrite lookup_alter_ne.
Qed.

Lemma reserve_within_capacity_witness :
  ∃ rv, reserve 2000 ∅ (demo_request "m1") demo_claimed = Ok (rv, demo_placed) ∧
    rv_host rv = "h1" ∧
    ∃ h', hosts demo_placed !! "h1" = Some h' ∧ ∀ d, rget d (reserved h') <= rget d (total h').
Proof.
  eexists. split; [vm_compute; reflexivity|]. split; [reflexivity|].
  assert (∃ rv, rv_host rv = "h1" ∧
    reserve 2000 ∅ (demo_request "m1") demo_claimed = Ok (rv, demo_placed)) as (rv & Hrv & Hr).
  { eexists. split; [|vm_compute; reflexivity]. reflexivity. }
  destruct (reserve_within_capacity 2000 ∅ (demo_request "m1") "m1" demo_claimed rv demo_placed
    eq_refl Hr) as (r & h & h' & m & _ & _ & _ & _ & _ & _ & Hh' & _ & Hd & _).
  rewrite Hrv in Hh'. exact (ex_intro _ h' (conj Hh' Hd)).
Defined.

(** A reservation is the best fit the query can see.  Every other unlocked
    candidate loses: it lacks a template cached on the chosen host, or has at
    least as much memory left over, or as much and at least as many vCPUs. *)
Theorem reserve_best_fit `{BillingAdmission FleetDb} now locked request id db rv db' r h :
  s_machineId request = Some id → reserve now locked request db = Ok (rv, db') →
  validateResources (s_resources request) = Ok r → hosts db !! rv_host rv = Some h →
  ∀ other x, hosts db !! other = Some x → other ∉ locked →
    candidate now db request r (other, x) = true →
    let cached := λ host, cached_template db host (s_templateId request) in
    let memory := λ host : HostRow, memoryMb (total host) - memoryMb (reserved host) in
    let cpus := λ host : HostRow, vcpus (total host) - vcpus (reserved host) in
    (cached other = true → cached (rv_host rv) = true) ∧
    (cached other = cached (rv_host rv) →
       memory h < memory x ∨ memory h = memory x ∧ cpus h <= cpus x).
Proof.
  intros Hid Hr Hv Hh other x Hx Hl Hc. destruct (reserve_spec _ _ _ _ _ _ _ Hid Hr)
    as (r' & host & h' & m & Hv' & _ & Hs & _ & _ & -> & _).
  rewrite Hv in Hv'. injection Hv' as <-. simpl in Hh.
  destruct (select_host_spec _ _ _ _ _ _ _ Hs) as (Hh' & _ & _).
  rewrite Hh in Hh'. apply (inj Some) in Hh' as <-.
  assert (placement_order db request (host, h) (other, x) <= 0) as Hmin.
  { eapply sort_by_head_min; [..|exact Hs|].
    - apply placement_order_total.
    - apply placement_order_trans.
    - apply list_elem_of_In, filter_In. split.
      + by apply list_elem_of_In, elem_of_map_to_list.
      + rewrite Hc. by apply bool_decide_eq_true. }
  cbv zeta. unfold placement_order in Hmin. simpl rv_host. cbv zeta in Hmin. cbn [fst snd] in Hmin.
  destruct (cached_template db host (s_templateId request)),
    (cached_template db other (s_templateId request)); simpl in Hmin;
    repeat case_match; bool_simp; split; intros; try done; lia.
Qed.

Lemma reserve_best_fit_witness :
  ∃ rv, reserve 2000 ∅ (demo_request "m1") demo_claimed = Ok (rv, demo_placed) ∧
    (memoryMb (total demo_host) - memoryMb (reserved demo_host)
     < memoryMb (total demo_large_host) - memoryMb (reserved demo_large_host) ∨
     memoryMb (total demo_host) - memoryMb (reserved demo_host)
     = memoryMb (total demo_large_host) - memoryMb (reserved demo_large_host) ∧
     vcpus (total demo_host) - vcpus (reserved demo_host)
     <= vcpus (total demo_large_host) - vcpus (reserved demo_large_host)).
Proof.
  assert (∃ rv, rv_host rv = "h1" ∧
    reserve 2000 ∅ (demo_request "m1") demo_claimed = Ok (rv, demo_placed)) as (rv & Hrv & Hr).
  { eexists. split; [|vm_compute; reflexivity]. reflexivity. }
  exists rv. split; [exact Hr|].
  refine (proj2 (reserve_best_fit 2000 ∅ (demo_request "m1") "m1" demo_claimed rv demo_placed
    demo_resources demo_host eq_refl Hr _ _ "h2" demo_large_host _ _ _) _).
  - reflexivity.
  - rewrite Hrv. reflexivity.
  - reflexivity.
  - apply not_elem_of_empty.
  - vm_compute. reflexivity.
  - reflexivity.
Defined.

(** The scheduler finds a reservation whenever there is one: a valid
    request within the quotas, for an unplaced machine, succeeds if any
    unlocked host is a candidate. *)
Theorem reserve_complete `{BillingAdmission FleetDb} now locked request id db r m host h :
  s_machineId request = Some id → validateResources (s_resources request) = Ok r →
  enforceQuota now request r db = Ok ((), db) →
  machines db !! id = Some m → unplaced m = true →
  hosts db !! host = Some h → host ∉ locked → candidate now db request r (host, h) = true →
  is_ok (reserve now locked request db) = true.
Proof.
  intros Hid Hv Hq Hm Hun Hh Hl Hc.
  assert (is_Some (select_host now locked request r db)) as [[best hb] Hs].
  { unfold select_host. eapply (sort_by_head_exists _ _ (host, h)).
    apply list_elem_of_In, filter_In. split.
    - by apply list_elem_of_In, elem_of_map_to_list.
    - rewrite Hc. by apply bool_decide_eq_true. }
  unfold reserve. rewrite Hv, Hid. unfold mbind, tx_bind. rewrite Hq.
  unfold gets. rewrite Hs. unfold modify, assign_machine. simpl (machines _).
  rewrite Hm. unfold unplaced in Hun. by rewrite Hun.
Qed.

Lemma reserve_complete_witness : is_ok (reserve 2000 ∅ (demo_request "m1") demo_claimed) = true.
Proof.
  assert (∃ m, machines demo_claimed !! "m1" = Some m ∧ unplaced m = true) as (m & Hm & Hun).
  { eexists. split; [vm_compute; reflexivity|reflexivity]. }
  refine (reserve_complete 2000 ∅ (demo_request "m1") "m1" demo_claimed demo_resources m "h2"
    demo_large_host eq_refl eq_refl _ Hm Hun eq_refl _ _).
  - vm_compute. reflexivity.
  - apply not_elem_of_empty.
  - vm_compute. reflexivity.
Defined.

(** A reservation respects the quotas: when the machine belongs to the
    requested organization and project and has the requested size, the counted
    machines of both, the new one included, are within their limits in number,
    vCPUs, memory and disk after the transaction. *)
Theorem reserve_respects_quota `{BillingAdmission FleetDb} now locked request id db rv db' m :
  s_machineId request = Some id → machines db !! id = Some m →
  in_organization (s_organization request) m = true → in_project (s_project request) m = true →
  validateResources (s_resources request) = Ok (resources (ident m)) →
  reserve now locked request db = Ok (rv, db') →
  ∃ lo p, organizations db !! s_organization request = Some lo ∧
    projects db !! s_project request = Some p ∧
    under_limits lo (usage_where (in_organization (s_organization request)) db') ∧
    under_limits (p_limits p) (usage_where (in_project (s_project request)) db').
Proof.
  intros Hid Hm Ho Hp Hv Hr. destruct (reserve_spec _ _ _ _ _ _ _ Hid Hr)
    as (r & host & h & m0 & Hv' & Hq & _ & Hm0 & Hun & _ & ->).
  rewrite Hm in Hm0. apply (inj Some) in Hm0 as <-.
  rewrite Hv in Hv'. injection Hv' as <-.
  destruct (enforceQuota_spec _ _ _ _ _ _ Hq) as (lo & p & Hlo & Hpr & _ & _ & Hwo & Hwp).
  assert (∀ d, 0 <= rget d (resources (ident m))) as Hpos.
  { apply validateResources_exact in Hv as (_ & ? & ? & ?). intros []; simpl; lia. }
  exists lo, p. split_and!; [done|done|..];
    (eapply grows_under_limits; [eassumption|];
     apply (usage_placed _ db _ id m (assigned_row now host (h_cohort_id h) (source_for db h (Some id)) m));
     try done).
Qed.

Lemma reserve_respects_quota_witness :
  ∃ rv, reserve 2000 ∅ (demo_request "m1") demo_claimed = Ok (rv, demo_placed) ∧
    under_limits demo_limits (usage_where (in_project "proj") demo_placed).
Proof.
  assert (∃ rv, reserve 2000 ∅ (demo_request "m1") demo_claimed = Ok (rv, demo_placed))
    as (rv & Hr) by (eexists; vm_compute; reflexivity).
  exists rv. split; [exact Hr|].
  assert (∃ m, machines demo_claimed !! "m1" = Some m ∧ in_organization "org" m = true ∧
    in_project "proj" m = true ∧ resources (ident m) = demo_resources) as (m & Hm & Ho & Hp & Hres).
  { eexists. split; [vm_compute; reflexivity|]. split; [|split]; reflexivity. }
  assert (validateResources (s_resources (demo_request "m1")) = Ok (resources (ident m))) as Hv.
  { rewrite Hres. reflexivity. }
  destruct (reserve_respects_quota 2000 ∅ (demo_request "m1") "m1" demo_claimed rv demo_placed m
    eq_refl Hm Ho Hp Hv Hr) as (lo & p & _ & Hpr & _ & Hu).
  change (Some (mkProject "org" demo_limits) = Some p) in Hpr. injection Hpr as <-. exact Hu.
Defined.
