(* ===== verification/FleetTheorems.v ===== *)
(** * What holds of the fleet in every reachable state

    From a control plane without machines, along any interleaving of the
    transactions of any number of clients, reconcilers and hosts. *)

From S2P Require Import Prelude Text Capacity Lifecycle Billing Fleet Scheduler MachineRepo ForkRepo.
From S2P Require Import ReconcileDb FleetInv FleetSteps FleetHard FleetForks FleetStep FleetKeys.

(** ** Starting states and reachability *)

Record fleet_start (db : FleetDb) : Prop := mkFleetStart {
  fs_machines : machines db = ∅;
  fs_forks : forks db = ∅;
  fs_hosts : ∀ h row, hosts db !! h = Some row → reserved row = rzero
}.

(** What [MachineService.create] guarantees of the identities it inserts. *)
Definition created_ok (created : Identity → Prop) : Prop :=
  ∀ i, created i → fork_operation_id i = None ∧ ∀ d, 0 <= rget d (resources i).

Lemma start_inv db : fleet_start db → fleet_inv db ∧ keys_inv db.
Proof.
  intros [Hm Hf Hh]. split; constructor; rewrite ?Hm, ?Hf; try (intros *; by rewrite lookup_empty).
  intros h row d Hrow. rewrite (Hh h row Hrow). unfold held. rewrite Hm, map_sum_empty.
  by destruct d.
Qed.

Section reachable.
Context `{BillingAdmission FleetDb} (created : Identity → Prop) (Hc : created_ok created).

Lemma steps_inv db db' :
  fleet_inv db → keys_inv db → fleet_steps created db db' →
  fleet_inv db' ∧ keys_inv db' ∧ fleet_le db db'.
Proof.
  assert (∀ i, created i → fork_operation_id i = None) as Hcf by (intros; by apply Hc).
  assert (∀ i d, created i → 0 <= rget d (resources i)) as Hcp by (intros; by apply Hc).
  intros Hinv Hkeys Hs. revert Hinv Hkeys.
  induction Hs as [db|db db1 db' Hstep _ IH]; intros Hinv Hkeys; [split_and!; [done..|reflexivity]|].
  destruct (step_preserves created Hcf Hcp db db1 Hinv Hstep) as [Hinv1 Hle].
  pose proof (effect_keys created db db1 Hinv (step_effect created Hcf db db1 Hinv Hstep) Hkeys) as Hk1.
  destruct (IH Hinv1 Hk1) as (Hinv' & Hk' & Hle'). split_and!; [done|done|]. by etransitivity.
Qed.

Lemma reachable_inv db db' :
  fleet_start db → fleet_steps created db db' → fleet_inv db' ∧ keys_inv db'.
Proof.
  intros [Hinv Hkeys]%start_inv Hs. by destruct (steps_inv db db' Hinv Hkeys Hs) as (? & ? & _).
Qed.
End reachable.

(** ** The demonstration run *)

Definition demo_created (i : Identity) : Prop :=
  fork_operation_id i = None ∧ resources i = demo_resources.

Lemma demo_created_ok : created_ok demo_created.
Proof. intros i [Hf Hr]. split; [done|]. rewrite Hr. by intros []. Qed.

Lemma demo_start_ok : fleet_start demo_start.
Proof.
  constructor; [done..|]. intros h row Hrow. unfold demo_start in Hrow. simpl in Hrow.
  apply lookup_insert_Some in Hrow as [[_ <-]|[_ Hrow]]; [done|].
  by apply lookup_singleton_Some in Hrow as [_ <-].
Qed.

Ltac demo_step c := eapply rtc_l; [apply (step_command _ _ c)|].

Lemma demo_reaches_running : fleet_steps demo_created demo_start demo_running.
Proof.
  demo_step (InsertRequested 1000 "m1" (demo_identity "lease1" "key1") 3600000 "u1"); [done|].
  demo_step (ClaimCreate 1000 "m1" "token"); [done|].
  demo_step (Reserve 2000 ∅ (demo_request "m1")).
  { exists "m1". split; [done|]. intros m r Hm Hr. vm_compute in Hm. injection Hm as <-.
    vm_compute in Hr. by injection Hr as <-. }
  demo_step (ObserveHost 3000 3000 "m1" (demo_host_machine "vm1" "lease1") "u2").
  { intros m Hm. vm_compute in Hm. by injection Hm as <-. }
  apply rtc_refl.
Qed.

Lemma demo_reaches_forked : fleet_steps demo_created demo_start demo_forked.
Proof.
  etransitivity; [exact demo_reaches_running|].
  demo_step (BeginFork 5000 5000 "m1" "org" "proj" "fork-key" "fork-hash" "audit" "op" demo_children);
    [done|]. apply rtc_refl.
Qed.

Lemma demo_reaches_failed : fleet_steps demo_created demo_start demo_fork_failed.
Proof.
  etransitivity; [exact demo_reaches_forked|].
  demo_step (FailFork 8000 "op" demo_failure); [done|]. apply rtc_refl.
Qed.

(** * Properties *)

(** C1: capacity accounting is exact.  In every reachable state, however the
    transactions of concurrent clients, reconcilers and hosts interleave, the
    reserved vCPUs, memory and disk of each host are exactly the sum over the
    machines placed on it whose reservation has not been given back: nothing is
    counted twice, lost, or cut off by [GREATEST(0, ...)]. *)
Theorem reserved_capacity_exact `{BillingAdmission FleetDb} created db db' h row d :
  created_ok created → fleet_start db → fleet_steps created db db' →
  hosts db' !! h = Some row → rget d (reserved row) = held d h db'.
Proof.
  intros Hc Hs Hsteps Hrow. destruct (reachable_inv created Hc db db' Hs Hsteps) as [Hinv _].
  by apply fi_reserved.
Qed.

Lemma reserved_capacity_exact_witness :
  ∃ row, hosts demo_forked !! "h1" = Some row ∧ rget Vcpus (reserved row) = 6 ∧
    held Vcpus "h1" demo_forked = 6.
Proof.
  assert (∃ row, hosts demo_forked !! "h1" = Some row ∧ rget Vcpus (reserved row) = 6)
    as (row & Hrow & Hv).
  { eexists. split; [vm_compute; reflexivity|reflexivity]. }
  exists row. split; [exact Hrow|]. split; [exact Hv|]. rewrite <- Hv. symmetry.
  exact (reserved_capacity_exact demo_created demo_start demo_forked "h1" row Vcpus
    demo_created_ok demo_start_ok demo_reaches_forked Hrow).
Defined.

(** C7: machines only move forward.  Along any steps from a reachable state a
    machine's row is never deleted, its identity (tenant, lease, template,
    resources, network policy, parent) never changes, it is placed at most once
    and released at most once, its state never moves back along requested,
    placing, starting, running, stopping, terminal, and a terminal state is
    final. *)
Theorem machine_lifecycle_monotone `{BillingAdmission FleetDb} created db0 db db' id m :
  created_ok created → fleet_start db0 → fleet_steps created db0 db →
  fleet_steps created db db' → machines db !! id = Some m →
  ∃ m', machines db' !! id = Some m' ∧ ident m' = ident m ∧
    (is_Some (host_id (place m)) → host_id (place m') = host_id (place m)) ∧
    (is_Some (reservation_released_at (place m)) →
       reservation_released_at (place m') = reservation_released_at (place m)) ∧
    rank (mstate m) <= rank (mstate m') ∧
    (terminal (mstate m) = true → mstate m' = mstate m).
Proof.
  intros Hc Hs Hsteps Hsteps' Hm.
  destruct (reachable_inv created Hc db0 db Hs Hsteps) as [Hinv Hkeys].
  destruct (steps_inv created Hc db db' Hinv Hkeys Hsteps') as (_ & _ & Hle).
  destruct (fl_machines _ _ Hle id m Hm) as (m' & Hm' & [Hi Hh Hr Hk Hf]).
  exists m'. split_and!; [exact Hm'|exact Hi|exact Hh|exact Hr|exact Hk|exact Hf].
Qed.

Lemma machine_lifecycle_monotone_witness :
  ∃ m, machines demo_running !! "m1" = Some m ∧
    ∃ m', machines demo_forked !! "m1" = Some m' ∧ ident m' = ident m ∧ 3 <= rank (mstate m').
Proof.
  assert (∃ m, machines demo_running !! "m1" = Some m ∧ rank (mstate m) = 3) as (m & Hm & Hr).
  { eexists. split; [vm_compute; reflexivity|reflexivity]. }
  exists m. split; [exact Hm|].
  assert (fleet_steps demo_created demo_running demo_forked) as Hs.
  { eapply rtc_l; [apply (step_command _ _ (BeginFork 5000 5000 "m1" "org" "proj" "fork-key"
      "fork-hash" "audit" "op" demo_children)); exact I|apply rtc_refl]. }
  destruct (machine_lifecycle_monotone demo_created demo_start demo_running demo_forked "m1" m
    demo_created_ok demo_start_ok demo_reaches_running Hs Hm) as (m' & Hm' & Hi & _ & _ & Hk & _).
  exists m'. split; [exact Hm'|]. split; [exact Hi|]. rewrite <- Hr. exact Hk.
Defined.

(** C6: a fork is all or nothing.  In every reachable state each child of a fork
    operation exists on the source's host; while the operation is pending every
    child is starting, holds its capacity and is hidden from [find] and [list];
    once it succeeded every child is visible; once it failed every child is
    terminal, its reservation is given back, and it stays hidden. *)
Theorem fork_all_or_nothing `{BillingAdmission FleetDb} created db db' op k c :
  created_ok created → fleet_start db → fleet_steps created db db' →
  forks db' !! op = Some k → c ∈ (k_children k).*1 →
  ∃ m, machines db' !! c = Some m ∧ fork_operation_id (ident m) = Some op ∧
    host_id (place m) = Some (k_source_host k) ∧
    match k_state k with
    | ForkPending => mstate m = Starting ∧ reservation_released_at (place m) = None ∧
                     visible db' m = false
    | ForkSucceeded => visible db' m = true
    | ForkFailed => terminal (mstate m) = true ∧ is_Some (reservation_released_at (place m)) ∧
                    visible db' m = false
    end.
Proof.
  intros Hc Hs Hsteps Hk Hin. destruct (reachable_inv created Hc db db' Hs Hsteps) as [Hinv Hkeys].
  destruct (fi_children db' Hinv op k c Hk Hin) as (m & Hm & Hop).
  destruct (fi_fork db' Hinv c m op Hm Hop) as (k' & Hk' & Hhost & _ & _ & Hpend).
  rewrite Hk in Hk'. apply (inj Some) in Hk' as <-.
  exists m. split_and!; [done..|]. unfold visible. rewrite Hop, Hk.
  destruct (k_state k) eqn:Hst.
  - destruct (Hpend eq_refl). done.
  - done.
  - by destruct (ki_failed db' Hkeys op k c m Hk Hst Hm Hop).
Qed.

Lemma fork_all_or_nothing_witness :
  ∃ k, forks demo_fork_failed !! "op" = Some k ∧
    ∃ m, machines demo_fork_failed !! "c0" = Some m ∧ terminal (mstate m) = true ∧
      visible demo_fork_failed m = false.
Proof.
  assert (∃ k, forks demo_fork_failed !! "op" = Some k ∧ k_state k = ForkFailed ∧
    (k_children k).*1 = ["c0"; "c1"]) as (k & Hk & Hst & Hch).
  { eexists. split; [vm_compute; reflexivity|]. split; reflexivity. }
  exists k. split; [exact Hk|].
  assert ("c0" ∈ (k_children k).*1) as Hin by (rewrite Hch; apply list_elem_of_here).
  destruct (fork_all_or_nothing demo_created demo_start demo_fork_failed "op" k "c0"
    demo_created_ok demo_start_ok demo_reaches_failed Hk Hin) as (m & Hm & _ & _ & Hcase).
  rewrite Hst in Hcase. exists m. exact (conj Hm (conj (proj1 Hcase) (proj2 (proj2 Hcase)))).
Defined.

(** Idempotency keys identify requests.  In every reachable state at most
    one machine carries an idempotency key within an organization and project,
    and at most one fork operation carries a key for a source machine. *)
Theorem idempotency_keys_unique `{BillingAdmission FleetDb} created db db' :
  created_ok created → fleet_start db → fleet_steps created db db' →
  (∀ id id' m m', machines db' !! id = Some m → machines db' !! id' = Some m' →
     organization_id (ident m) = organization_id (ident m') →
     project_id (ident m) = project_id (ident m') →
     idempotency_key (ident m) = idempotency_key (ident m') → id = id') ∧
  (∀ op op' k k', forks db' !! op = Some k → forks db' !! op' = Some k' →
     k_organization k = k_organization k' → k_project k = k_project k' →
     k_source_machine k = k_source_machine k' → k_key k = k_key k' → op = op').
Proof.
  intros Hc Hs Hsteps. destruct (reachable_inv created Hc db db' Hs Hsteps) as [_ Hkeys].
  split.
  - intros id id' m m' Hm Hm' Ho Hp Hk. eapply (ki_machine db' Hkeys); [done..|].
    unfold machine_key. congruence.
  - intros op op' k k' H1 H2 Ho Hp Hsrc Hk. eapply (ki_fork db' Hkeys); [done..|].
    unfold fork_key. congruence.
Qed.

Lemma idempotency_keys_unique_witness :
  ∃ m, machines demo_forked !! "m1" = Some m ∧ idempotency_key (ident m) = "key1" ∧
    ∀ id' m', machines demo_forked !! id' = Some m' → organization_id (ident m') = "org" →
      project_id (ident m') = "proj" → idempotency_key (ident m') = "key1" → "m1" = id'.
Proof.
  assert (∃ m, machines demo_forked !! "m1" = Some m ∧ idempotency_key (ident m) = "key1" ∧
    organization_id (ident m) = "org" ∧ project_id (ident m) = "proj") as (m & Hm & Hk & Ho & Hp).
  { eexists. split; [vm_compute; reflexivity|]. split; [|split]; reflexivity. }
  exists m. split; [exact Hm|]. split; [exact Hk|]. intros id' m' Hm' Ho' Hp' Hk'.
  refine (proj1 (idempotency_keys_unique demo_created demo_start demo_forked
    demo_created_ok demo_start_ok demo_reaches_forked) "m1" id' m m' Hm Hm' _ _ _); congruence.
Defined.
