(* ===== verification/ForkTheorems.v ===== *)
(** * What fork operations promise

    A begun fork reserves its whole batch within the host, the quotas and the
    lifetime of its source; it completes only for a host answer that matches
    every child; it fails giving back exactly its capacity; and its key replays
    to the same operation. *)

From S2P Require Import Prelude Text Capacity Lifecycle Billing Fleet Scheduler MachineRepo ForkRepo.
From S2P Require Import ReconcileDb FleetInv FleetSteps FleetHard FleetForks FleetStep FleetKeys.
From S2P Require Import SchedulerTheorems FleetTheorems.

(** ** The batch against the quotas *)

Lemma insert_children_sum (f : MachineRow → Z) b op source m remaining now n cs db :
  (∀ n c, f (child_row op source m remaining now n c) <= b) →
  NoDup (c_machine <$> cs) → (∀ c, c ∈ c_machine <$> cs → machines db !! c = None) →
  map_sum f (machines (insert_children op source m remaining now n cs db))
  <= map_sum f (machines db) + b * Z.of_nat (length cs).
Proof.
  intros Hb. revert n db. induction cs as [|c cs IH]; intros n db Hnd Hfresh; cbn [insert_children].
  - simpl. lia.
  - apply NoDup_cons in Hnd as [Hc Hnd]. specialize (Hb n c) as Hbc.
    etransitivity; [apply IH; [done|]|].
    + intros c' Hc'. simpl. rewrite lookup_insert_ne by (intros <-; done). apply Hfresh. set_solver.
    + simpl. rewrite map_sum_insert_new by (apply Hfresh; set_solver). lia.
Qed.

Lemma begun_grows p now clock org project source key requestHash audit op host m cs db :
  (∀ d, 0 <= rget d (resources (ident m))) →
  NoDup (c_machine <$> cs) → (∀ c, c ∈ c_machine <$> cs → machines db !! c = None) →
  usage_grows p (Z.of_nat (length cs)) (resources (ident m)) db
    (begun now clock org project source key requestHash audit op host m cs db).
Proof.
  intros Hpos Hnd Hfresh. split.
  - rewrite !usage_where_machines. unfold begun. simpl.
    etransitivity; [apply (insert_children_sum _ 1); [|done|done]|simpl; lia].
    intros n c. unfold usage_count. destruct (_ && _); lia.
  - intros d. rewrite !usage_where_resources. unfold begun. simpl.
    etransitivity; [apply (insert_children_sum _ (rget d (resources (ident m)))); [|done|done]|simpl; lia].
    intros n c. unfold usage_of. simpl. specialize (Hpos d). destruct (_ && _); lia.
Qed.

Lemma fork_admission_spec `{BillingAdmission FleetDb} now clock org lo lp project m h count db :
  fork_admission now clock org lo lp project m h count db = Ok () →
  forkable (ceil_div (expires_at (life m) - clock) msPerSecond) m = true ∧
  accepts_work now h = true ∧
  within_limits lo (usage_where (in_organization org) db) count (resources (ident m)) = true ∧
  within_limits lp (usage_where (in_project project) db) count (resources (ident m)) = true ∧
  resources_le (rscale count (resources (ident m))) (host_free h) = true.
Proof.
  unfold fork_admission. destruct (forkable _ _) eqn:Hf; [|done]. cbn [negb].
  destruct (accepts_work _ _) eqn:Ha; [|done]. cbn [negb].
  destruct (within_limits lo _ _ _) eqn:Hlo; [|done]. cbn [negb].
  destruct (within_limits lp _ _ _) eqn:Hlp; [|done]. cbn [negb].
  destruct (admits _ _ _ _); [|done]. by destruct (resources_le _ _) eqn:Hr.
Qed.

(** ** Loading *)

Lemma loadForkOperation_Some now op replayed db k host :
  forks db !! op = Some k → hosts db !! k_source_host k = Some host →
  ∃ o, loadForkOperation now op replayed db = Some o ∧
    fo_id o = op ∧ fo_row o = k ∧ fo_replayed o = replayed ∧ fo_children o = fork_children db k.
Proof.
  intros Hk Hh. unfold loadForkOperation. rewrite Hk, Hh. by eexists.
Qed.

(** ** The completion loop *)

Lemma complete_children_other now op org allReady observed children db db' id :
  complete_children now op org allReady observed children db = Ok db' →
  id ∉ e_id <$> children → machines db' !! id = machines db !! id.
Proof.
  revert db. induction children as [|[i lease m] children IH]; intros db Hc Hid; cbn [complete_children] in Hc.
  { by injection Hc as <-. }
  apply not_elem_of_cons in Hid as [Hne Hid].
  destruct (by_public_id i observed) as [hm|]; [|done]. destruct (_ && _); [|done].
  rewrite (IH _ Hc Hid). destruct allReady; simpl; by rewrite lookup_insert_ne.
Qed.

Lemma complete_children_all now op org allReady observed children (ms0 : gmap string MachineRow) db db' :
  (∀ c, c ∈ children → ms0 !! e_id c = Some (e_row c)) →
  complete_children now op org allReady observed children db = Ok db' →
  ∀ id lease m, mkExpected id lease m ∈ children → ∃ hm, by_public_id id observed = Some hm ∧
    lease_id (ident m) = lease ∧ fork_operation_id (ident m) = Some op ∧ mstate m = Starting ∧
    machines db' !! id = Some (completed_child now allReady hm m).
Proof.
  revert db. induction children as [|[i l x] children IH]; intros db Hin Hc id lease m Hm;
    [by apply not_elem_of_nil in Hm|].
  cbn [complete_children] in Hc. destruct (by_public_id i observed) as [hm|] eqn:Hby; [|done].
  destruct (_ && _ && _) eqn:E; [|done]. bool_simp.
  assert (∀ c, c ∈ children → ms0 !! e_id c = Some (e_row c)) as Hin' by (intros; apply Hin; set_solver).
  apply elem_of_cons in Hm as [[= -> -> ->]|Hm]; [|by eapply IH].
  exists hm. split_and!; try done.
  destruct (decide (i ∈ (e_id <$> children))) as [Hlater|Hlast].
  - apply list_elem_of_fmap in Hlater as ([id' l' m'] & Heq & Hl). simpl in Heq. subst id'.
    assert (m' = x) as ->.
    { pose proof (Hin (mkExpected i l x) ltac:(set_solver)) as Hrow1. pose proof (Hin' _ Hl) as Hrow2.
      simpl in *. congruence. }
    destruct (IH _ Hin' Hc i l' x Hl) as (hm' & Hby' & _ & _ & _ & ?).
    rewrite Hby in Hby'. by injection Hby' as <-.
  - rewrite (complete_children_other _ _ _ _ _ _ _ _ _ Hc Hlast).
    destruct allReady; simpl; by rewrite lookup_insert_eq.
Qed.

Lemma fork_expected_In db k c :
  fleet_inv db → ∀ op, forks db !! op = Some k → c ∈ (k_children k).*1 →
  ∃ l m, mkExpected c l m ∈ fork_expected db k ∧ machines db !! c = Some m.
Proof.
  intros Hinv op Hk Hc. destruct (fi_children db Hinv op k c Hk Hc) as (m & Hm & _).
  apply list_elem_of_fmap in Hc as ([c' l] & -> & Hin). exists l, m. split; [|done].
  unfold fork_expected. apply list_elem_of_omap. exists (c', l). split; [done|]. simpl in *.
  by rewrite Hm.
Qed.

Lemma fork_expected_length db op k :
  fleet_inv db → forks db !! op = Some k → length (fork_expected db k) = length (k_children k).
Proof.
  intros Hinv Hk. pose proof (λ c, fi_children db Hinv op k c Hk) as Hch. unfold fork_expected.
  induction (k_children k) as [|[c l] cs IH]; [done|].
  destruct (Hch c ltac:(set_solver)) as (m & Hm & _). cbn [omap list_omap]. simpl. rewrite Hm. simpl.
  f_equal. apply IH. intros c' Hc'. apply Hch. set_solver.
Qed.

(** The guard of a terminal transition of an operation. *)
Lemma fork_open k :
  k_state k = ForkPending → k_cleanup_requested_at k = None →
  negb (bool_decide (k_state k = ForkPending)) || bool_decide (is_Some (k_cleanup_requested_at k))
  = false.
Proof. by intros -> ->. Qed.

(** * Properties *)

(** C9: a fork begins as a whole or not at all.  A call that succeeds either
    changes nothing (an unknown source or a replayed key) or inserts every child
    of the batch on the source's host, starting, with the source's resources,
    template, image and expiry, under a pending operation; the host's reserved
    capacity grows by exactly the batch and stays within its total, the source
    and all other machines are untouched, and the organization and the project
    stay within their limits with the whole batch counted. *)
Theorem beginFork_reserves_batch `{BillingAdmission FleetDb} now clock source org project key
    requestHash audit op cs db r db' :
  fleet_inv db →
  beginFork now clock source org project key requestHash audit op cs db = Ok (r, db') →
  db' = db ∨
  ∃ m host h h' k lo p,
    machines db !! source = Some m ∧ mstate m = Running ∧
    host_id (place m) = Some host ∧ hosts db !! host = Some h ∧ accepts_work now h = true ∧
    forks db !! op = None ∧ forks db' !! op = Some k ∧ k_state k = ForkPending ∧
    (k_children k).*1 = c_machine <$> cs ∧
    (∀ c, c ∈ c_machine <$> cs → ∃ x, machines db' !! c = Some x ∧ mstate x = Starting ∧
       host_id (place x) = Some host ∧ resources (ident x) = resources (ident m) ∧
       template_id (ident x) = template_id (ident m) ∧ source_sha256 (place x) = source_sha256 (place m) ∧
       parent_machine_id (ident x) = Some source ∧ expires_at (life x) = expires_at (life m)) ∧
    (∀ id, id ∉ c_machine <$> cs → machines db' !! id = machines db !! id) ∧
    hosts db' !! host = Some h' ∧
    (∀ d, rget d (reserved h') = rget d (reserved h) + Z.of_nat (length cs) * rget d (resources (ident m)) ∧
          rget d (reserved h') <= rget d (total h')) ∧
    organizations db !! org = Some lo ∧ projects db !! project = Some p ∧
    under_limits lo (usage_where (in_organization org) db') ∧
    under_limits (p_limits p) (usage_where (in_project project) db').
Proof.
  intros Hinv Hb. destruct (beginFork_spec _ _ _ _ _ _ _ _ _ _ _ _ _ Hb)
    as [->|(lo & p & m & host & h & Hlo & Hp & Hpo & Hm & Hh & Hrow & Hio & Hip & Hpr & Ha & Hc & ->)];
    [by left|right].
  apply fork_admission_spec in Ha as (Hf & Hacc & Hwo & Hwp & Hroom).
  apply forkable_spec in Hf as [Hrun _].
  apply fork_conflicts_spec in Hc as (Hop & Hfresh & Hnd).
  pose proof (λ d, fi_positive db Hinv source m d Hm) as Hpos.
  pose proof (λ p, begun_grows p now clock org project source key requestHash audit op host m cs db
    Hpos Hnd Hfresh) as Hgrow.
  pose proof (begun_forks now clock org project source key requestHash audit op host m cs db) as Hforks.
  assert (hosts (begun now clock org project source key requestHash audit op host m cs db)
    = alter (λ row, row <| reserved ::= λ x, radd x (rscale (Z.of_nat (length cs)) (resources (ident m))) |>)
        host (hosts db)) as Hhosts.
  { unfold begun, reserve_on. simpl.
    match goal with |- context [insert_children op source m ?rem now 0 cs ?db1] =>
      by destruct (insert_children_tables op source m rem now 0 cs db1) as (-> & _) end. }
  eexists m, host, h, _, _, lo, p. rewrite Hhosts, lookup_alter_eq, Hrow, Hforks, lookup_insert_eq.
  split_and!; try done.
  - simpl. rewrite <- list_fmap_compose. done.
  - intros c Hin. unfold begun. simpl.
    match goal with |- context [insert_children op source m ?rem now 0 cs ?db1] =>
      destruct (insert_children_new op source m rem now 0 cs db1 c Hnd Hin) as (x & Hx & [(n & ids & ->)]) end.
    eexists. split; [exact Hx|]. by split_and!.
  - intros id Hid. unfold begun. simpl. by rewrite insert_children_other.
  - intros d. simpl. rewrite rget_radd, rget_rscale. split; [lia|].
    pose proof (host_free_room _ h d Hroom) as Hr. rewrite rget_rscale in Hr. exact Hr.
  - by eapply grows_under_limits.
  - by eapply grows_under_limits.
Qed.

Lemma beginFork_reserves_batch_witness :
  ∃ h', hosts demo_forked !! "h1" = Some h' ∧ rget Vcpus (reserved h') <= rget Vcpus (total h').
Proof.
  assert (fleet_inv demo_running) as Hinv.
  { exact (proj1 (reachable_inv demo_created demo_created_ok demo_start demo_running
      demo_start_ok demo_reaches_running)). }
  assert (∃ r, beginFork 5000 5000 "m1" "org" "proj" "fork-key" "fork-hash" "audit" "op"
    demo_children demo_running = Ok (r, demo_forked)) as [r Hr] by (eexists; vm_compute; reflexivity).
  assert (machines demo_running !! "c0" = None) as Hold by (vm_compute; reflexivity).
  assert (is_Some (machines demo_forked !! "c0")) as [x Hnew] by (eexists; vm_compute; reflexivity).
  destruct (beginFork_reserves_batch 5000 5000 "m1" "org" "proj" "fork-key" "fork-hash" "audit" "op"
    demo_children demo_running r demo_forked Hinv Hr) as [Heq|(m & host & h & h' & k & lo & p &
      Hm & _ & Hhost & _ & _ & _ & _ & _ & _ & _ & _ & Hh' & Hd & _)].
  - exfalso. rewrite Heq, Hold in Hnew. discriminate Hnew.
  - assert (Some host = Some "h1") as Hq.
    { rewrite <- Hhost. vm_compute in Hm. injection Hm as <-. reflexivity. }
    injection Hq as ->. exists h'. exact (conj Hh' (proj2 (Hd Vcpus))).
Defined.

(** C11: a fork completes only as a whole.  When the host's answer for a pending
    operation is accepted with every child ready, every child of the operation
    is running and ready under the host machine the answer names for it, with
    the lease, parent, operation, resources and network policy it was allocated
    with, and the operation has succeeded. *)
Theorem completeFork_completes_batch now op observed db u db' k :
  fleet_inv db → forks db !! op = Some k → k_state k = ForkPending →
  k_cleanup_requested_at k = None → all_ready observed = true →
  completeFork now op observed db = Ok (u, db') →
  length observed = length (k_children k) ∧
  (∃ k', forks db' !! op = Some k' ∧ k_state k' = ForkSucceeded) ∧
  ∀ c, c ∈ (k_children k).*1 → ∃ m m' hm,
    machines db !! c = Some m ∧ machines db' !! c = Some m' ∧ hm ∈ observed ∧
    hm_public_machine_id hm = Some c ∧
    mstate m' = Running ∧ ready (life m') = true ∧ host_machine_id (place m') = Some (hm_id hm) ∧
    hm_lease_id hm = Some (lease_id (ident m)) ∧ hm_fork_operation_id hm = Some op ∧
    hm_parent_machine_id hm = Some (k_source_machine k) ∧
    hm_resources hm = Some (resources (ident m)) ∧
    hm_network_policy hm = Some (network_policy (ident m)).
Proof.
  intros Hinv Hk Hp Hcl Hall Hc. pose proof Hc as Hc0.
  unfold completeFork in Hc. rewrite Hk, fork_open in Hc by done.
  destruct (complete_batch _ _) eqn:Hb; [|done]. destruct (forallb _ _) eqn:Hma; [|done].
  cbn [negb] in Hc. apply result_bind_Ok in Hc as (db1 & Hloop & Hr). rewrite Hall in *.
  cbn [negb] in Hr. apply (f_equal (λ x, match x with Ok (_, s) => s | Err _ => db end)) in Hr.
  pose proof (complete_children_all _ _ _ _ _ _ (machines db) _ _ (fork_expected_rows db k) Hloop) as Hrows.
  subst db'. split_and!.
  - unfold complete_batch in Hb. bool_simp.
    match goal with H : Nat.eqb (length observed) _ = true |- _ => apply Nat.eqb_eq in H as -> end.
    by apply (fork_expected_length db op).
  - eexists. simpl. by rewrite lookup_insert_eq.
  - intros c Hin. destruct (fork_expected_In db k c Hinv op Hk Hin) as (l & m & Hcm & Hm).
    destruct (Hrows c l m Hcm) as (hm & Hby & Hl & _ & _ & Hm').
    rewrite forallb_forall in Hma.
    specialize (Hma (mkExpected c l m) ltac:(by apply list_elem_of_In)).
    unfold child_matches in Hma. simpl in Hma. rewrite Hby in Hma. bool_simp. subst l.
    exists m, (completed_child now true hm m), hm.
    unfold by_public_id in Hby. apply find_some in Hby as [Hobs Hpub].
    apply bool_decide_eq_true in Hpub. apply in_rev, list_elem_of_In in Hobs.
    split_and!; done.
Qed.

Lemma completeFork_completes_batch_witness :
  ∃ m', machines demo_fork_done !! "c1" = Some m' ∧ mstate m' = Running.
Proof.
  assert (fleet_inv demo_forked) as Hinv.
  { exact (proj1 (reachable_inv demo_created demo_created_ok demo_start demo_forked
      demo_start_ok demo_reaches_forked)). }
  set (observed := [demo_child_machine "c0" "vm2" "lease-c0"; demo_child_machine "c1" "vm3" "lease-c1"]).
  assert (∃ k, forks demo_forked !! "op" = Some k ∧ k_state k = ForkPending ∧
    k_cleanup_requested_at k = None ∧ (k_children k).*1 = ["c0"; "c1"]) as (k & Hk & Hst & Hcl & Hch).
  { eexists. split; [vm_compute; reflexivity|]. split; [|split]; reflexivity. }
  assert (completeFork 8000 "op" observed demo_forked = Ok ((), demo_fork_done)) as Hc
    by (vm_compute; reflexivity).
  destruct (completeFork_completes_batch 8000 "op" observed demo_forked () demo_fork_done k
    Hinv Hk Hst Hcl eq_refl Hc) as (_ & _ & Hrows).
  assert ("c1" ∈ (k_children k).*1) as Hin by (rewrite Hch; right; left).
  destruct (Hrows "c1" Hin) as (m & m' & hm & _ & Hm' & _ & _ & Hrun & _).
  exact (ex_intro _ m' (conj Hm' Hrun)).
Defined.

(** A failed fork gives back exactly what it took.  Failing a pending
    operation marks every child failed and released, records the failure, leaves
    every other machine alone, and lowers the source host's reserved capacity by
    exactly the sum over the batch; no other host changes.  The truncation at
    zero in the statement never cuts anything off. *)
Theorem failFork_returns_capacity now op f db k :
  fleet_inv db → forks db !! op = Some k → k_state k = ForkPending →
  k_cleanup_requested_at k = None →
  ∃ db', failFork now op f db = Ok ((), db') ∧
    (∀ h row, hosts db !! h = Some row → ∃ row', hosts db' !! h = Some row' ∧
       ∀ d, rget d (reserved row') = rget d (reserved row) -
              (if decide (h = k_source_host k) then rget d (fork_totals op db) else 0)) ∧
    (∀ id m, machines db !! id = Some m → ∃ m', machines db' !! id = Some m' ∧
       if of_fork op m
       then mstate m' = Failed ∧ state_reason (life m') = Some (f_message f) ∧
            reservation_released_at (place m') = Some now
       else m' = m) ∧
    ∃ k', forks db' !! op = Some k' ∧ k_state k' = ForkFailed ∧ k_failure k' = Some f.
Proof.
  intros Hinv Hk Hp Hcl. exists (fail_batch now op k f db).
  pose proof (fail_batch_inv now op k f db Hinv Hk Hp) as Hinv'.
  pose proof (λ d h, fail_batch_held d h now op k f db Hinv Hk Hp) as Hheld.
  destruct (fail_children_tables now op (k_organization k) (f_message f) db) as (Hms & Hhs & Hfs).
  split_and!.
  - unfold failFork. by rewrite Hk, fork_open.
  - intros h row Hrow.
    assert (is_Some (hosts (fail_batch now op k f db) !! h)) as [row' Hrow'].
    { unfold fail_batch. apply (alter_is_Some _ (hosts (fail_children _ _ _ _ _))).
      rewrite Hhs. by eexists. }
    exists row'. split; [done|]. intros d.
    rewrite (fi_reserved _ Hinv' h row' d Hrow'), Hheld. by rewrite (fi_reserved db Hinv h row d Hrow).
  - intros id m Hm. eexists. split.
    + unfold fail_batch. simpl. rewrite Hms, lookup_fmap, Hm. reflexivity.
    + rewrite (fails_with_pending db op k id m) by done. by destruct (of_fork op m).
  - eexists. unfold fail_batch. simpl. rewrite lookup_insert_eq. by split_and!.
Qed.

Lemma failFork_returns_capacity_witness :
  ∃ db' row', failFork 8000 "op" demo_failure demo_forked = Ok ((), db') ∧
    hosts db' !! "h1" = Some row' ∧ rget Vcpus (reserved row') = 2.
Proof.
  assert (fleet_inv demo_forked) as Hinv.
  { exact (proj1 (reachable_inv demo_created demo_created_ok demo_start demo_forked
      demo_start_ok demo_reaches_forked)). }
  assert (∃ k, forks demo_forked !! "op" = Some k ∧ k_state k = ForkPending ∧
    k_cleanup_requested_at k = None ∧ k_source_host k = "h1") as (k & Hk & Hst & Hcl & Hh).
  { eexists. split; [vm_compute; reflexivity|]. split; [|split]; reflexivity. }
  assert (∃ row, hosts demo_forked !! "h1" = Some row ∧ rget Vcpus (reserved row) = 6) as (row & Hrow & Hv).
  { eexists. split; [vm_compute; reflexivity|reflexivity]. }
  assert (rget Vcpus (fork_totals "op" demo_forked) = 4) as Ht by (vm_compute; reflexivity).
  destruct (failFork_returns_capacity 8000 "op" demo_failure demo_forked k Hinv Hk Hst Hcl)
    as (db' & Hf & Hhosts & _).
  destruct (Hhosts "h1" row Hrow) as (row' & Hrow' & Hd). exists db', row'.
  split; [exact Hf|]. split; [exact Hrow'|]. rewrite (Hd Vcpus), Hh, Hv, Ht. reflexivity.
Defined.

(** Fork requests are idempotent.  Once a fork was begun, after any further
    steps of the system, the same key for the same source replays to the same
    operation whatever else the request carries: nothing changes, and the
    recorded request hash and children are those of the first request, so the
    caller can tell a replay from a conflict. *)
Theorem fork_replay_idempotent `{BillingAdmission FleetDb} created now clock source org project key
    hash audit op cs db r db1 db2 lo p :
  created_ok created → fleet_inv db → keys_inv db → forks db !! op = None →
  beginFork now clock source org project key hash audit op cs db = Ok (r, db1) →
  is_Some (forks db1 !! op) → fleet_steps created db1 db2 →
  organizations db2 !! org = Some lo → projects db2 !! project = Some p → p_organization p = org →
  ∀ now' clock' hash' audit' op' cs',
    ∃ o, beginFork now' clock' source org project key hash' audit' op' cs' db2 = Ok (Some o, db2) ∧
      fo_id o = op ∧ fo_replayed o = true ∧ k_request_hash (fo_row o) = hash ∧
      (k_children (fo_row o)).*1 = c_machine <$> cs.
Proof.
  intros Hcr Hinv Hkeys Hnone Hb Hsome Hsteps Hlo Hp Hpo now' clock' hash' audit' op' cs'.
  pose proof (beginFork_inv _ _ _ _ _ _ _ _ _ _ _ _ _ Hinv Hb) as Hinv1.
  pose proof (effect_keys created db db1 Hinv
    (beginFork_effect created _ _ _ _ _ _ _ _ _ _ _ _ _ Hb) Hkeys) as Hkeys1.
  destruct (beginFork_spec _ _ _ _ _ _ _ _ _ _ _ _ _ Hb)
    as [->|(lo0 & p0 & m & host & h & _ & _ & _ & Hm & Hh & Hrow & Hio & Hip & _ & _ & Hc & ->)].
  { rewrite Hnone in Hsome. by destruct Hsome. }
  destruct (steps_inv created Hcr _ db2 Hinv1 Hkeys1 Hsteps) as (Hinv2 & Hkeys2 & [Hle Hlef]).
  pose proof Hc as (_ & Hfresh & _)%fork_conflicts_spec.
  destruct (Hlef op (new_fork now org project source host (default "" (host_machine_id (place m))) key
    hash audit m cs)) as (k2 & Hk2 & (Hsrc & Hch & _ & Hkey & Hhash)).
  { rewrite begun_forks. apply lookup_insert_eq. }
  assert (machines (begun now clock org project source key hash audit op host m cs db) !! source = Some m)
    as Hm1.
  { unfold begun. simpl. rewrite insert_children_other; [done|]. intros Hin.
    rewrite (Hfresh source Hin) in Hm. done. }
  destruct (Hle source m Hm1) as (m2 & Hm2 & [Hi Hhost _ _ _]).
  assert (host_id (place m2) = Some host) as Hh2 by (rewrite Hhost; [done|by eexists]).
  destruct (fi_host db2 Hinv2 source m2 host Hm2 Hh2) as [h2 Hh2r].
  destruct (fork_prior db2 org project source key) as [[prior k]|] eqn:Hprior.
  - apply fork_prior_Some in Hprior as Hpk. destruct Hpk as [Hk Hkk].
    assert (prior = op) as ->.
    { eapply (ki_fork db2 Hkeys2); [exact Hk|exact Hk2|]. by rewrite Hkey, Hkk. }
    destruct (loadForkOperation_Some now' op true db2 k2 h2 Hk2) as (o & Ho & Hid & Hor & Hrep & _).
    { by rewrite Hsrc. }
    exists o. split_and!; [|done|done|by rewrite Hor, Hhash|].
    + unfold beginFork. rewrite Hlo, Hp, Hpo, String.eqb_refl, Hm2. cbn [negb].
      rewrite Hh2. simpl mbind. rewrite Hh2r. simpl option_map. cbv iota.
      unfold in_organization, in_project in *. rewrite Hi, Hio, Hip. cbn [negb andb].
      by rewrite Hprior, Ho.
    + rewrite Hor, Hch. simpl. by rewrite <- list_fmap_compose.
  - exfalso. by apply (fork_prior_None _ _ _ _ _ op k2 Hprior Hk2).
Qed.

Lemma fork_replay_idempotent_witness :
  ∃ o, beginFork 9000 9000 "m1" "org" "proj" "fork-key" "other" "audit2" "op2" [] demo_fork_failed
    = Ok (Some o, demo_fork_failed) ∧ fo_id o = "op" ∧ fo_replayed o = true.
Proof.
  destruct (reachable_inv demo_created demo_created_ok demo_start demo_running
    demo_start_ok demo_reaches_running) as [Hinv Hkeys].
  assert (∃ r, beginFork 5000 5000 "m1" "org" "proj" "fork-key" "fork-hash" "audit" "op"
    demo_children demo_running = Ok (r, demo_forked)) as [r Hr] by (eexists; vm_compute; reflexivity).
  assert (is_Some (forks demo_forked !! "op")) as Hsome by (eexists; vm_compute; reflexivity).
  assert (fleet_steps demo_created demo_forked demo_fork_failed) as Hs.
  { eapply rtc_l; [apply (step_command _ _ (FailFork 8000 "op" demo_failure)); exact I|apply rtc_refl]. }
  destruct (fork_replay_idempotent demo_created 5000 5000 "m1" "org" "proj" "fork-key" "fork-hash"
    "audit" "op" demo_children demo_running r demo_forked demo_fork_failed demo_limits
    (mkProject "org" demo_limits) demo_created_ok Hinv Hkeys ltac:(vm_compute; reflexivity) Hr Hsome Hs
    ltac:(vm_compute; reflexivity) ltac:(vm_compute; reflexivity) eq_refl
    9000 9000 "other" "audit2" "op2" []) as (o & Ho & Hid & Hrep & _).
  exact (ex_intro _ o (conj Ho (conj Hid Hrep))).
Defined.

(** * What extend operations promise

    An extension never shortens a lease, its key replays to the target it was
    first given, and its completion is recorded once. *)

Definition prior_is (org id key : string) (x : ExtendRow) : bool :=
  String.eqb (x_organization x) org && String.eqb (x_machine x) id && String.eqb (x_key x) key.

Lemma find_app_last {A} (p : A → bool) l x :
  List.find p l = None → p x = true → List.find p (l ++ [x]) = Some x.
Proof.
  intros Hn Hx. induction l as [|y l IH]; simpl in *; [by rewrite Hx|].
  destruct (p y); [done|]. by apply IH.
Qed.

(** A first extend request that was admitted, taken apart. *)
Lemma beginExtend_spec `{BillingAdmission FleetDb} at_ id org project key hash ttl db o db1 :
  beginExtend at_ id org project key hash ttl db = Ok (Some o, db1) →
  extend_prior db org id key = None →
  ∃ m, machines db !! id = Some m ∧ in_organization org m = true ∧ in_project project m = true ∧
    is_Some (organizations db !! org) ∧ in_states (mstate m) [Starting; Running] = true ∧
    let committed := extend_commitment db org id (expires_at (life m)) in
    let target := Z.max committed (at_ + ttl * msPerSecond) in
    let x := mkExtend (Z.of_nat (length (extends db)) + 1) org project id key hash target None None in
    o = fromExtendOperationRow x false ∧ db1 = db <| extends ::= λ xs, xs ++ [x] |> ∧
    admits at_ org (delta_for (ceil_div (Z.max 0 (target - Z.max committed at_)) msPerSecond)
                     (resources (ident m))) db = Ok ().
Proof.
  intros Hb Hprior. unfold beginExtend in Hb. rewrite Hprior in Hb.
  destruct (organizations db !! org) as [lo|] eqn:Ho; [|done].
  destruct (machines db !! id) as [m|] eqn:Hm; [|done].
  destruct (in_organization org m && in_project project m) eqn:Hin; [|done].
  destruct (in_states (mstate m) [Starting; Running]) eqn:Hst; [|done].
  cbn [negb orb] in Hb. destruct (_ || _); [done|]. cbv zeta in Hb.
  destruct (admits _ _ _ _) as [[]|] eqn:Ha; [|done].
  exists m. bool_simp. injection Hb as <- <-. split_and!; done.
Qed.

Lemma extend_commitment_ge db org id expires : expires <= extend_commitment db org id expires.
Proof. unfold extend_commitment. destruct (maximum _); lia. Qed.

(** * Properties *)

(** An extension only lengthens a lease.  The target a first request is given
    is at least the current expiry, at least every target promised before, and
    at least [ttl] seconds away; it is the one target of its key: repeating the
    key, whatever else the request carries, replays it and changes nothing. *)
Theorem beginExtend_target `{BillingAdmission FleetDb} at_ id org project key hash ttl db o db1 :
  extend_prior db org id key = None →
  beginExtend at_ id org project key hash ttl db = Ok (Some o, db1) →
  ∃ m, machines db !! id = Some m ∧ expires_at (life m) <= xo_targetExpiresAt o ∧
    extend_commitment db org id (expires_at (life m)) <= xo_targetExpiresAt o ∧
    at_ + ttl * msPerSecond <= xo_targetExpiresAt o ∧
    machines db1 = machines db ∧ hosts db1 = hosts db ∧
    ∀ at2 hash2 ttl2,
      beginExtend at2 id org project key hash2 ttl2 db1
      = Ok (Some (mkExtendOperation (xo_id o) hash (xo_targetExpiresAt o) None true), db1).
Proof.
  intros Hprior Hb.
  destruct (beginExtend_spec _ _ _ _ _ _ _ _ _ _ Hb Hprior)
    as (m & Hm & Hio & Hip & [lo Hlo] & Hst & -> & -> & _).
  exists m. pose proof (extend_commitment_ge db org id (expires_at (life m))).
  split_and!; try done; simpl; try lia.
  intros at2 hash2 ttl2. unfold beginExtend. simpl. rewrite Hlo, Hm, Hio, Hip. cbn [andb negb].
  unfold extend_prior in *. simpl. rewrite (find_app_last (prior_is org id key)); [done|exact Hprior|].
  unfold prior_is. simpl. by rewrite !String.eqb_refl.
Qed.

Lemma beginExtend_target_witness :
  ∃ o db1, beginExtend 5000 "m1" "org" "proj" "extend" "h" 7200 demo_running = Ok (Some o, db1) ∧
    xo_targetExpiresAt o = 7205000 ∧
    beginExtend 6000 "m1" "org" "proj" "extend" "other" 15 db1
    = Ok (Some (mkExtendOperation (xo_id o) "h" (xo_targetExpiresAt o) None true), db1).
Proof.
  assert (∃ o db1, beginExtend 5000 "m1" "org" "proj" "extend" "h" 7200 demo_running = Ok (Some o, db1) ∧
    xo_targetExpiresAt o = 7205000) as (o & db1 & Hb & Ht).
  { eexists _, _. split; [vm_compute; reflexivity|reflexivity]. }
  exists o, db1. split; [exact Hb|]. split; [exact Ht|].
  destruct (beginExtend_target 5000 "m1" "org" "proj" "extend" "h" 7200 demo_running o db1
    ltac:(vm_compute; reflexivity) Hb) as (m & _ & _ & _ & _ & _ & _ & Hrep).
  exact (Hrep 6000 "other" 15).
Defined.

(** Completing the same row twice changes it once. *)
Lemma complete_row_idem now now' t t' x :
  complete_row now' t' (complete_row now t x) = complete_row now t x.
Proof.
  destruct x as [i o p m k h tg rs cp]. unfold complete_row. destruct cp; done.
Qed.

Lemma complete_row_is now t op id org x :
  extend_is op id org (complete_row now t x) = extend_is op id org x.
Proof.
  destruct x as [i o p m k h tg rs cp]. unfold complete_row. by destruct cp.
Qed.

Lemma complete_rows_idem now now' op id org t t' xs :
  complete_rows now' op id org t' (complete_rows now op id org t xs)
  = complete_rows now op id org t xs.
Proof.
  unfold complete_rows. rewrite map_map. apply map_ext. intros y.
  destruct (extend_is op id org y) eqn:E; [|by rewrite E].
  rewrite complete_row_is, E. apply complete_row_idem.
Qed.

(** Completing an extension is recorded once.  The first completion fixes the
    expiry the host confirmed; repeating it with any other value returns the
    recorded one and changes nothing, and a live machine's expiry is never moved
    back nor left behind the recorded one. *)
Theorem completeExtend_once now op id org t db recorded db1 m :
  completeExtend now op id org t db = Ok (recorded, db1) → machines db !! id = Some m →
  (∀ now' t', completeExtend now' op id org t' db1 = Ok (recorded, db1)) ∧
  ∃ m', machines db1 !! id = Some m' ∧ mstate m' = mstate m ∧
    expires_at (life m) <= expires_at (life m') ∧
    (terminal (mstate m) = false → recorded <= expires_at (life m')) ∧
    (∀ other, other ≠ id → machines db1 !! other = machines db !! other).
Proof.
  intros Hc Hm. unfold completeExtend in Hc. rewrite Hm in Hc.
  destruct (in_organization org m) eqn:Hio; [|done]. cbn [negb] in Hc. cbv zeta in Hc.
  destruct (List.find (extend_is op id org) (complete_rows now op id org t (extends db)))
    as [x|] eqn:Hf; [|done].
  destruct (x_result_expires_at x) as [rec|] eqn:Hx; [|done].
  apply ok_pair in Hc as [<- <-].
  destruct (terminal (mstate m)) eqn:Ht.
  - split.
    + intros now' t'. unfold completeExtend. simpl. rewrite Hm, Hio. cbn [negb]. cbv zeta.
      rewrite complete_rows_idem, Hf, Hx, Ht. done.
    + exists m. by split_and!.
  - split.
    + intros now' t'. set (m' := m <| life ::= λ l, l <| expires_at ::= λ e, Z.max e rec |> |>).
      match goal with |- context [set_machine id m' ?db0] => set (db1 := set_machine id m' db0) end.
      assert (machines db1 !! id = Some m') as Hl by apply lookup_insert_eq.
      unfold completeExtend. rewrite Hl.
      change (in_organization org m') with (in_organization org m). rewrite Hio. cbn [negb].
      change (extends db1) with (complete_rows now op id org t (extends db)). cbv zeta.
      rewrite complete_rows_idem, Hf, Hx. change (mstate m') with (mstate m). rewrite Ht.
      unfold db1, set_machine, m'. simpl. rewrite insert_insert_eq.
      by rewrite <- Z.max_assoc, Z.max_id.
    + simpl. rewrite lookup_insert_eq. eexists. split; [done|]. split_and!; simpl; try lia; try done.
      intros other Hne. by rewrite lookup_insert_ne.
Qed.

Definition demo_extending : FleetDb :=
  exec (BeginExtend 5000 "m1" "org" "proj" "extend" "h" 7200) demo_running.

Lemma completeExtend_once_witness :
  ∃ db1, completeExtend 6000 1 "m1" "org" 7205000 demo_extending = Ok (7205000, db1) ∧
    completeExtend 7000 1 "m1" "org" 9999999 db1 = Ok (7205000, db1).
Proof.
  assert (∃ db1, completeExtend 6000 1 "m1" "org" 7205000 demo_extending = Ok (7205000, db1))
    as [db1 Hc] by (eexists; vm_compute; reflexivity).
  assert (∃ m, machines demo_extending !! "m1" = Some m) as [m Hm] by (eexists; vm_compute; reflexivity).
  exists db1. split; [exact Hc|].
  exact (proj1 (completeExtend_once 6000 1 "m1" "org" 7205000 demo_extending 7205000 db1 m Hc Hm) 7000 9999999).
Defined.
