(* ===== verification/NetworkPolicy.v ===== *)
(** * Network policy

    src/apps/nehemiah/src/domain/network-policy.ts: the egress policy of a
    machine, from the declaration a client sends to the decisions about hostnames
    and addresses.  Node's [isIP] and [BlockList] are the interface [NodeNet]. *)

From S2P Require Import Prelude Text Js Capacity Lifecycle Billing Fleet.

(** ** node:net *)

Inductive Version := IPv4 | IPv6.

#[export] Instance Version_eq_dec : EqDecision Version.
Proof. solve_decision. Defined.

(** A rule [addSubnet(network, prefix, family)] adds. *)
Record Subnet := mkSubnet {
  sn_network : string;
  sn_prefix : Z;
  sn_version : Version
}.

(** [isIP] answers 4, 6 or, here [None], 0; [BlockList.check] is whether some
    rule contains the address. *)
Class NodeNet := {
  isIP : string → option Version;
  subnet_contains : Subnet → string → Version → bool
}.

Definition check `{NodeNet} (block : list Subnet) (ip : string) (v : Version) : bool :=
  existsb (λ rule, subnet_contains rule ip v) block.

(** ** CIDRs and the hard floor *)

Definition hardFloorCidrs : list string :=
  ["0.0.0.0/8"; "10.0.0.0/8"; "100.64.0.0/10"; "127.0.0.0/8"; "169.254.0.0/16";
   "172.16.0.0/12"; "192.0.0.0/24"; "192.168.0.0/16"; "198.18.0.0/15"; "224.0.0.0/4";
   "240.0.0.0/4"; "::/128"; "::1/128"; "fc00::/7"; "fe80::/10"; "ff00::/8"].

Definition maximum_prefix (v : Version) : Z := match v with IPv4 => 32 | IPv6 => 128 end.

Definition addCidr `{NodeNet} (cidr : string) (block : list Subnet)
    : result string (list Subnet) :=
  let error := Err ("invalid IP CIDR: " +:+ cidr) in
  match js_split "/" cidr with
  | [network; prefixText] =>
      if String.eqb network "" then error
      else
        match isIP network with
        | None => error
        | Some v =>
            match safe_between 0 (maximum_prefix v) (js_Number prefixText) with
            | None => error
            | Some prefix => Ok (block ++ [mkSubnet network prefix v])
            end
        end
  | _ => error
  end.

Fixpoint addCidrs `{NodeNet} (cidrs : list string) (block : list Subnet)
    : result string (list Subnet) :=
  match cidrs with
  | [] => Ok block
  | cidr :: cidrs => block ← addCidr cidr block; addCidrs cidrs block
  end.

Definition isHardBlockedAddress `{NodeNet} (ip : string) (additional : list string)
    : result string bool :=
  match isIP ip with
  | None => Ok true
  | Some v => block ← addCidrs (hardFloorCidrs ++ additional) []; Ok (check block ip v)
  end.

(** ** Hostnames *)

(** [.replace(/\.$/, '')] *)
Definition drop_final_dot (s : string) : string :=
  match rev (list_ascii_of_string s) with
  | "."%char :: l => string_of_list_ascii (rev l)
  | _ => s
  end.

Definition normalizeHostname (hostname : string) : string :=
  drop_final_dot (toLowerCase hostname).

(** [[a-z0-9](?:[a-z0-9-]{0,61}[a-z0-9])?] *)
Definition hostLabel : re :=
  Cat (Chr lower_alnum)
    (re_opt (Cat (rep 0 61 (Chr (λ c, lower_alnum c || Ascii.eqb c "-"))) (Chr lower_alnum))).

Definition hostnameRule : re :=
  cats [re_opt (lit "*."); many1 (Cat hostLabel (lit ".")); rep 2 63 (Chr lower)].

Definition validHostnameRule (hostname : string) : bool := test hostnameRule hostname.

(** [hostname.endsWith(suffix)] *)
Definition endsWith (suffix hostname : string) : bool :=
  bool_decide (is_Some (strip_prefix (rev (list_ascii_of_string suffix))
                          (rev (list_ascii_of_string hostname)))).

(** [rule.slice(n)] *)
Definition slice (n : nat) (rule : string) : string :=
  string_of_list_ascii (drop n (list_ascii_of_string rule)).

Definition hostnameMatches (rule hostname : string) : bool :=
  if String.prefix "*." rule
  then endsWith (slice 1 rule) hostname && negb (String.eqb hostname (slice 2 rule))
  else String.eqb hostname rule.

(** ** The policy *)

Record LearnedAddress := mkLearned {
  la_hostname : string;
  la_expiresAt : Z
}.

Record EgressPolicy := mkEgress {
  eg_declaration : NetworkPolicyDeclaration;
  eg_allowedAddresses : list Subnet;
  eg_additionalBlocked : list string;
  eg_learned : gmap string LearnedAddress
}.
#[export] Instance EgressPolicy_eta : Settable EgressPolicy := λ r,
  mkEgress (eg_declaration r) (eg_allowedAddresses r) (eg_additionalBlocked r) (eg_learned r).

(** [[...new Set(l)].sort()] *)
Definition sorted_set (l : list string) : list string := sort_by codeUnitCompare (new_Set [] l).

(** An absent property or an array of strings. *)
Definition string_array (v : json) : option (list string) :=
  match v with
  | JUndefined => Some []
  | JArr l => if forallb (λ x, bool_decide (is_Some (as_string x))) l
              then Some (omap as_string l) else None
  | _ => None
  end.

(** The loop over the declared CIDRs. *)
Fixpoint allow_cidrs `{NodeNet} (cidrs : list string) (block : list Subnet)
    : result string (list Subnet) :=
  match cidrs with
  | [] => Ok block
  | cidr :: cidrs =>
      let network := default "" (head (js_split "/" cidr)) in
      if negb (String.eqb network "") && bool_decide (isIP network = Some IPv6)
      then Err "IPv6 egress allowlists are unavailable while managed IPv6 is disabled"
      else block ← addCidr cidr block; allow_cidrs cidrs block
  end.

(** The loop over the deployment's deny rules. *)
Fixpoint validate_cidrs `{NodeNet} (cidrs : list string) : result string unit :=
  match cidrs with
  | [] => Ok ()
  | cidr :: cidrs => _ ← addCidr cidr []; validate_cidrs cidrs
  end.

Definition parse_mode (v : json) : option NetworkMode :=
  match v with
  | JStr s => if String.eqb s "off" then Some NetworkOff
              else if String.eqb s "allowlist" then Some NetworkAllowlist else None
  | _ => None
  end.

(** The constructor after the shape of the declaration is known. *)
Definition build_policy `{NodeNet} (mode : NetworkMode) (declaredHostnames declaredCidrs : list string)
    (additionalBlockedCidrs : list string) : result string EgressPolicy :=
  if (64 <? Z.of_nat (length declaredHostnames)) || (64 <? Z.of_nat (length declaredCidrs))
  then Err "network allowlist is limited to 64 hostnames and CIDRs"
  else
    let hostnames := sorted_set (map normalizeHostname declaredHostnames) in
    if existsb (λ hostname, negb (validHostnameRule hostname)) hostnames
    then Err "network hostname allowlist contains an invalid rule"
    else
      let cidrs := sorted_set (map js_trim declaredCidrs) in
      let empty := Nat.eqb (length hostnames) 0 && Nat.eqb (length cidrs) 0 in
      if bool_decide (mode = NetworkOff) && negb empty
      then Err "network allowlists require mode=allowlist"
      else if bool_decide (mode = NetworkAllowlist) && empty
      then Err "allowlist mode requires at least one hostname or CIDR"
      else
        allowed ← allow_cidrs cidrs [];
        _ ← validate_cidrs additionalBlockedCidrs;
        Ok (mkEgress (mkNetworkPolicy mode hostnames cidrs) allowed additionalBlockedCidrs ∅).

(** [new EgressPolicy(declaration, additionalBlockedCidrs)] *)
Definition newEgressPolicy `{NodeNet} (declaration : json) (additionalBlockedCidrs : list string)
    : result string EgressPolicy :=
  match declaration with
  | JObj fields =>
      if existsb (λ key, negb (string_in key ["mode"; "hostnames"; "cidrs"])) (keys fields)
      then Err "network policy contains an unknown field"
      else
        match parse_mode (prop "mode" fields) with
        | None => Err "network mode must be off or allowlist"
        | Some mode =>
            match string_array (prop "hostnames" fields), string_array (prop "cidrs" fields) with
            | Some hostnames, Some cidrs => build_policy mode hostnames cidrs additionalBlockedCidrs
            | _, _ => Err "network hostnames and CIDRs must be string arrays"
            end
        end
  | _ => Err "network policy must be an object"
  end.

(** [policy.declaration] as a value, for parsing again. *)
Definition declaration_json (d : NetworkPolicyDeclaration) : json :=
  JObj [("mode", JStr match np_mode d with NetworkOff => "off" | NetworkAllowlist => "allowlist" end);
        ("hostnames", JArr (map JStr (np_hostnames d)));
        ("cidrs", JArr (map JStr (np_cidrs d)))].

(** ** Decisions *)

Definition is_off (p : EgressPolicy) : bool := bool_decide (np_mode (eg_declaration p) = NetworkOff).

Definition allowsHostname (p : EgressPolicy) (hostname : string) : bool :=
  if is_off p then false
  else existsb (λ rule, hostnameMatches rule (normalizeHostname hostname))
         (np_hostnames (eg_declaration p)).

(** [addresses.some((ip) => isHardBlockedAddress(...))] *)
Fixpoint some_blocked `{NodeNet} (p : EgressPolicy) (addresses : list string) : result string bool :=
  match addresses with
  | [] => Ok false
  | ip :: addresses =>
      blocked ← isHardBlockedAddress ip (eg_additionalBlocked p);
      if (blocked : bool) then Ok true else some_blocked p addresses
  end.

(** [Math.min(Math.max(Math.floor(ttlSeconds), 5), 300)], of a finite TTL that is
    already floored.  The code does not refuse [NaN], which would pass through and
    give an expiry that no clock reaches; the TTL of a DNS answer is a whole number
    of seconds, and only those are values here. *)
Definition clamp_ttl (ttlSeconds : Z) : Z := Z.min (Z.max ttlSeconds 5) 300.

Fixpoint learn_all `{NodeNet} (entry : LearnedAddress) (addresses : list string)
    : Act EgressPolicy string unit :=
  match addresses with
  | [] => mret tt
  | address :: addresses => λ p,
      match isIP address with
      | None => (Err "DNS response contains an invalid address", p)
      | Some _ => learn_all entry addresses (p <| eg_learned ::= <[address := entry]> |>)
      end
  end.

Definition learnDns `{NodeNet} (hostname : string) (addresses : list string) (ttlSeconds now : Z)
    : Act EgressPolicy string unit := λ p,
  let normalized := normalizeHostname hostname in
  if negb (allowsHostname p normalized) then (Err "hostname is not allowlisted", p)
  else if Nat.eqb (length addresses) 0 then (Err "DNS response has no addresses", p)
  else
    match some_blocked p addresses with
    | Err e => (Err e, p)
    | Ok true => (Err "DNS response resolves into the Nehemiah hard-deny floor", p)
    | Ok false =>
        learn_all (mkLearned normalized (now + clamp_ttl ttlSeconds * 1000)) addresses p
    end.

Definition allowsAddress `{NodeNet} (ip : string) (now : Z) : Act EgressPolicy string bool := λ p,
  if is_off p then (Ok false, p)
  else
    match isHardBlockedAddress ip (eg_additionalBlocked p) with
    | Err e => (Err e, p)
    | Ok true => (Ok false, p)
    | Ok false =>
        if match isIP ip with Some v => check (eg_allowedAddresses p) ip v | None => false end
        then (Ok true, p)
        else
          match eg_learned p !! ip with
          | None => (Ok false, p)
          | Some learned =>
              if la_expiresAt learned <=? now
              then (Ok false, p <| eg_learned ::= delete ip |>)
              else (Ok true, p)
          end
    end.
