(* ===== verification/NetworkTheorems.v ===== *)
(** * Theorems about network policies *)

From S2P Require Import Prelude Text Js Capacity Lifecycle Billing Fleet NetworkPolicy.

(** ** White space *)

Section strip.
Context (ws : list (list ascii)) (Hws : Forall (λ w, w ≠ []) ws).

Lemma strip_prefix_Some p l l' : strip_prefix p l = Some l' ↔ l = p ++ l'.
Proof.
  revert l. induction p as [|a p IH]; intros [|b l]; simpl.
  - split; congruence.
  - split; congruence.
  - split; [done|intros [=]].
  - destruct (Ascii.eqb_spec a b) as [->|Hne].
    + rewrite IH. split; congruence.
    + split; [done|intros [=]; congruence].
Qed.

(** No member of [ws] is a prefix. *)
Definition stripped (l : list ascii) : Prop := ∀ w, w ∈ ws → strip_prefix w l = None.

Lemma strip_any_None l : strip_any ws l = None ↔ stripped l.
Proof.
  unfold strip_any, stripped. induction ws as [|w ws' IH]; simpl.
  - split; [|done]. intros _ w Hw. by apply elem_of_nil in Hw.
  - inversion Hws as [|? ? _ Hws']; subst.
    destruct (strip_prefix w l) eqn:E; simpl.
    + split; [done|]. intros H. specialize (H w ltac:(set_solver)). congruence.
    + rewrite (IH Hws'). split; intros H x Hx.
      * apply elem_of_cons in Hx as [->|Hx]; auto.
      * apply H. set_solver.
Qed.

Lemma strip_any_Some l l' :
  strip_any ws l = Some l' → ∃ w, w ∈ ws ∧ w ≠ [] ∧ l = w ++ l'.
Proof.
  unfold strip_any. intros Hh.
  assert (l' ∈ omap (λ w, strip_prefix w l) ws) as Hin.
  { destruct (omap _ ws); [done|]. injection Hh as ->. apply list_elem_of_here. }
  apply list_elem_of_omap in Hin as (w & Hw & Hs). apply strip_prefix_Some in Hs.
  exists w. split_and!; [done| |done]. by eapply (proj1 (Forall_forall _ _) Hws).
Qed.

Lemma strip_all_stripped fuel l : (length l <= fuel)%nat → stripped (strip_all fuel ws l).
Proof.
  revert l. induction fuel as [|fuel IH]; intros l Hl; simpl.
  - destruct l; [|simpl in Hl; lia]. intros w Hw.
    destruct w; [|done]. by destruct (proj1 (Forall_forall _ _) Hws _ Hw).
  - destruct (strip_any ws l) as [l'|] eqn:E; [|by apply strip_any_None].
    apply IH. apply strip_any_Some in E as (w & _ & Hne & ->).
    rewrite length_app in Hl. destruct w; [done|]. simpl in Hl. lia.
Qed.

Lemma strip_all_id fuel l : stripped l → strip_all fuel ws l = l.
Proof.
  intros Hs. destruct fuel; simpl; [done|]. by apply strip_any_None in Hs as ->.
Qed.

Lemma strip_all_suffix fuel l : ∃ p, l = p ++ strip_all fuel ws l.
Proof.
  revert l. induction fuel as [|fuel IH]; intros l; simpl; [by exists []|].
  destruct (strip_any ws l) as [l'|] eqn:E; [|by exists []].
  apply strip_any_Some in E as (w & _ & _ & ->). destruct (IH l') as [p Hp].
  exists (w ++ p). rewrite <- app_assoc. by f_equal.
Qed.

Lemma stripped_prefix l r : stripped (l ++ r) → stripped l.
Proof.
  intros Hs w Hw. destruct (strip_prefix w l) eqn:E; [|done].
  apply strip_prefix_Some in E as ->. specialize (Hs w Hw).
  rewrite <- app_assoc in Hs. by rewrite (proj2 (strip_prefix_Some w _ _) eq_refl) in Hs.
Qed.
End strip.

Lemma whiteSpace_nonempty : Forall (λ w, w ≠ []) whiteSpace.
Proof. repeat constructor; done. Qed.
Lemma rev_whiteSpace_nonempty : Forall (λ w, w ≠ []) (map (@rev ascii) whiteSpace).
Proof. repeat constructor; done. Qed.

Lemma trim_list_idem l : trim_list (trim_list l) = trim_list l.
Proof.
  unfold trim_list, trim_start.
  set (a := strip_all (length l) whiteSpace l).
  set (b := strip_all (length (rev a)) (map (@rev ascii) whiteSpace) (rev a)).
  assert (stripped whiteSpace a) as Ha.
  { apply strip_all_stripped; [apply whiteSpace_nonempty|done]. }
  assert (stripped (map (@rev ascii) whiteSpace) b) as Hb.
  { apply strip_all_stripped; [apply rev_whiteSpace_nonempty|done]. }
  assert (stripped whiteSpace (rev b)) as Hrb.
  { destruct (strip_all_suffix _ rev_whiteSpace_nonempty (length (rev a)) (rev a)) as [p Hp].
    fold b in Hp. apply (f_equal (@rev ascii)) in Hp.
    rewrite rev_involutive, rev_app_distr in Hp. rewrite Hp in Ha.
    by apply stripped_prefix in Ha. }
  rewrite (strip_all_id _ whiteSpace_nonempty _ (rev b)) by done.
  rewrite rev_involutive.
  by rewrite (strip_all_id _ rev_whiteSpace_nonempty).
Qed.

Lemma js_trim_idem s : js_trim (js_trim s) = js_trim s.
Proof.
  unfold js_trim. rewrite list_ascii_of_string_of_list_ascii. by rewrite trim_list_idem.
Qed.

(** ** Sorted sets *)

Section sorting.
Context {A : Type} (cmp : A → A → Z).
Context (cmp_total : ∀ x y, cmp x y <= 0 ∨ cmp y x <= 0)
        (cmp_trans : ∀ x y z, cmp x y <= 0 → cmp y z <= 0 → cmp x z <= 0).

Lemma sort_by_sorted l : StronglySorted (λ x y, cmp x y <= 0) (sort_by cmp l).
Proof.
  induction l as [|x l IH]; [constructor|].
  change (StronglySorted (λ x y, cmp x y <= 0) (insert_by cmp x (sort_by cmp l))).
  revert IH. generalize (sort_by cmp l) as s. clear l.
  induction s as [|y s IHs]; intros Hs; simpl; [by repeat constructor|].
  inversion Hs as [|? ? Hs' Hy]; subst.
  destruct (cmp x y <=? 0) eqn:E; bool_simp; constructor; try done.
  - constructor; [done|]. eapply Forall_impl; [exact Hy|]. simpl. intros z Hz. by eapply cmp_trans.
  - by apply IHs.
  - rewrite (insert_by_perm cmp x s). constructor; [|done].
    destruct (cmp_total x y); [lia|done].
Qed.

Lemma sort_by_id l : StronglySorted (λ x y, cmp x y <= 0) l → sort_by cmp l = l.
Proof.
  induction 1 as [|x l Hl IH Hx]; [done|].
  change (insert_by cmp x (sort_by cmp l) = x :: l). rewrite IH.
  destruct l as [|y l]; [done|]. simpl. inversion Hx as [|? ? Hy]; subst.
  by rewrite (proj2 (Z.leb_le _ _) Hy).
Qed.
End sorting.

Lemma new_Set_id seen l : NoDup l → (∀ s, s ∈ l → s ∉ seen) → new_Set seen l = l.
Proof.
  revert seen. induction l as [|x l IH]; intros seen Hn Hd; simpl; [done|].
  inversion Hn; subst.
  destruct (string_in x seen) eqn:E; [apply string_in_spec in E; set_solver|].
  f_equal. apply IH; [done|]. set_solver.
Qed.

Lemma sorted_set_elem s l : s ∈ sorted_set l ↔ s ∈ l.
Proof.
  unfold sorted_set. rewrite sort_by_elem.
  destruct (new_Set_spec [] l) as (_ & -> & _). set_solver.
Qed.

Lemma sorted_set_length l : (length (sorted_set l) <= length l)%nat.
Proof.
  unfold sorted_set. rewrite (sort_by_perm codeUnitCompare (new_Set [] l)). apply new_Set_spec.
Qed.

Lemma sorted_set_idem l : sorted_set (sorted_set l) = sorted_set l.
Proof.
  unfold sorted_set at 1. rewrite new_Set_id; [|unfold sorted_set; rewrite sort_by_perm; apply new_Set_spec|set_solver].
  apply sort_by_id, sort_by_sorted; [apply codeUnitCompare_total|apply codeUnitCompare_trans].
Qed.

(** ** Hostnames *)

(** Every character class of [r] lies in [P]. *)
Fixpoint chars (P : ascii → Prop) (r : re) : Prop :=
  match r with
  | Nul | Eps => True
  | Chr p => ∀ c, p c = true → P c
  | Cat a b | Alt a b => chars P a ∧ chars P b
  | Star a => chars P a
  end.

Lemma lang_chars P r l : lang r l → chars P r → Forall P l.
Proof. induction 1; simpl; try rewrite Forall_app; naive_solver. Qed.

Lemma chars_rep P n m r : chars P r → chars P (rep n m r).
Proof.
  intros Hr. unfold rep. split.
  - unfold rep_exact. induction n; simpl; auto.
  - unfold rep_upto. induction (m - n)%nat; simpl; auto.
Qed.

Definition host_char (c : ascii) : Prop := lower_ascii c = c ∧ c ≠ "226"%char.

Lemma lower_alnum_host c : lower_alnum c = true → host_char c.
Proof.
  unfold lower_alnum, lower, digit, host_char, lower_ascii, upper, in_range. intros H.
  split.
  - case_match eqn:E; [|reflexivity]. exfalso.
    apply andb_true_iff in E as [E1 E2]. apply N.leb_le in E1, E2.
    change (N_of_ascii "A") with 65%N in E1. change (N_of_ascii "Z") with 90%N in E2.
    apply orb_true_iff in H as [[H1 H2]%andb_true_iff|[H1 H2]%andb_true_iff];
      apply N.leb_le in H1, H2.
    + change (N_of_ascii "a") with 97%N in H1. lia.
    + change (N_of_ascii "9") with 57%N in H2. lia.
  - intros ->. by vm_compute in H.
Qed.

Lemma lower_list_id l : Forall host_char l → lower_list l = l.
Proof.
  induction 1 as [|c l [Hc Hne] Hl IH]; [done|].
  destruct c as [[] [] [] [] [] [] [] []]; simpl; rewrite ?IH; try (f_equal; exact Hc); done.
Qed.

Lemma valid_host_chars h :
  validHostnameRule h = true → Forall host_char (list_ascii_of_string h).
Proof.
  intros Hv%test_lang. eapply lang_chars; [exact Hv|].
  assert (host_char "." ∧ host_char "*" ∧ host_char "-") as (Hdot & Hstar & Hdash).
  { by repeat split. }
  unfold hostnameRule, hostLabel, cats, re_opt, many1. cbn [foldr lit list_ascii_of_string chars].
  split_and!; try done; try apply chars_rep; try (intros c Hc%Ascii.eqb_eq; by subst c); simpl;
    try (intros c Hc; by apply lower_alnum_host).
  - intros c [Hc|Hc%Ascii.eqb_eq]%orb_true_iff; [by apply lower_alnum_host|by subst c].
  - intros c [Hc|Hc%Ascii.eqb_eq]%orb_true_iff; [by apply lower_alnum_host|by subst c].
  - intros c Hc. apply lower_alnum_host. unfold lower_alnum. by rewrite Hc.
Qed.

Lemma valid_host_last h :
  validHostnameRule h = true → ∃ l c, list_ascii_of_string h = l ++ [c] ∧ c ≠ "."%char.
Proof.
  intros Hv%test_lang. unfold hostnameRule in Hv. cbn [cats foldr] in Hv.
  apply lang_cat_inv in Hv as (l1 & l2 & -> & _ & H2).
  apply lang_cat_inv in H2 as (l3 & l4 & -> & _ & H4).
  apply lang_cat_inv in H4 as (l5 & l6 & -> & H5 & H6).
  inversion H6; subst. rewrite app_nil_r.
  apply lang_rep in H5 as [Hlen Hlow]; [|lia].
  destruct l5 as [|c l5 _] using rev_ind; [simpl in Hlen; lia|].
  exists (l1 ++ l3 ++ l5), c. rewrite <- !app_assoc. split; [done|].
  apply Forall_app in Hlow as [_ Hc]. inversion Hc as [|? ? Hc' _]; subst. intros ->. done.
Qed.

Lemma drop_final_dot_id h l c :
  list_ascii_of_string h = l ++ [c] → c ≠ "."%char → drop_final_dot h = h.
Proof.
  intros Hl Hc. unfold drop_final_dot. rewrite Hl, rev_app_distr. simpl.
  destruct c as [[] [] [] [] [] [] [] []]; try done.
Qed.

Lemma normalize_valid h : validHostnameRule h = true → normalizeHostname h = h.
Proof.
  intros Hv. unfold normalizeHostname, toLowerCase.
  rewrite lower_list_id by by apply valid_host_chars.
  rewrite string_of_list_ascii_of_string.
  destruct (valid_host_last h Hv) as (l & c & Hl & Hc). by eapply drop_final_dot_id.
Qed.

(** ** What the constructor returns *)

Section policies.
Context `{NodeNet}.

Lemma omap_as_string l : omap as_string (map JStr l) = l.
Proof. induction l; simpl; [done|]. by f_equal. Qed.

Lemma string_array_strings l : string_array (JArr (map JStr l)) = Some l.
Proof.
  simpl. rewrite omap_as_string.
  assert (forallb (λ x, bool_decide (is_Some (as_string x))) (map JStr l) = true) as ->; [|done].
  apply forallb_forall. intros x (s & <- & _)%in_map_iff. apply bool_decide_eq_true. by eexists.
Qed.

Record built (mode : NetworkMode) (hs cs extra : list string) (p : EgressPolicy) : Prop := mkBuilt {
  bu_few : (length hs <= 64)%nat ∧ (length cs <= 64)%nat;
  bu_declaration : eg_declaration p =
    mkNetworkPolicy mode (sorted_set (map normalizeHostname hs)) (sorted_set (map js_trim cs));
  bu_valid : ∀ h, h ∈ np_hostnames (eg_declaration p) → validHostnameRule h = true;
  bu_mode : mode = NetworkOff ↔ np_hostnames (eg_declaration p) = [] ∧ np_cidrs (eg_declaration p) = [];
  bu_allowed : allow_cidrs (np_cidrs (eg_declaration p)) [] = Ok (eg_allowedAddresses p);
  bu_extra : eg_additionalBlocked p = extra ∧ validate_cidrs extra = Ok ();
  bu_learned : eg_learned p = ∅
}.

Lemma build_policy_spec mode hs cs extra p :
  build_policy mode hs cs extra = Ok p → built mode hs cs extra p.
Proof.
  unfold build_policy. intros Hb.
  do 4 (destruct (_ : bool) eqn:? in Hb; [done|]).
  destruct (allow_cidrs _ []) as [allowed|e] eqn:Ea; [|done].
  destruct (validate_cidrs extra) as [[]|e] eqn:Ev; [|done].
  injection Hb as <-. bool_simp.
  assert (∀ l : list string, (length l =? 0)%nat = true ↔ l = []) as Hnil.
  { intros []; simpl; split; done. }
  constructor; simpl; try done; [lia| |].
  - intros h Hh. apply not_false_iff_true. intros Hf.
    assert (existsb (λ hostname, negb (validHostnameRule hostname))
      (sorted_set (map normalizeHostname hs)) = true); [|congruence].
    apply existsb_exists. exists h. rewrite Hf. split; [by apply list_elem_of_In|done].
  - rewrite <- !Hnil, <- andb_true_iff.
    match goal with |- _ ↔ ?b = true => destruct b end; destruct mode; simpl in *;
      split; intros; congruence.
Qed.

Lemma built_policy mode hs cs extra p :
  built mode hs cs extra p → build_policy mode hs cs extra = Ok p.
Proof.
  intros [[Hh Hc] Hd Hv Hm Ha [Hx He] Hl]. unfold build_policy.
  rewrite Hd in *. simpl in *.
  rewrite (proj2 (Z.ltb_ge _ _)), (proj2 (Z.ltb_ge _ _)) by lia. simpl.
  destruct (existsb _ _) eqn:E.
  { apply existsb_exists in E as (h & Hin & Hn). apply list_elem_of_In in Hin.
    by rewrite Hv in Hn. }
  assert (∀ l : list string, (length l =? 0)%nat = true ↔ l = []) as Hnil.
  { intros []; simpl; split; done. }
  rewrite <- !Hnil, <- andb_true_iff in Hm.
  destruct (bool_decide (mode = NetworkOff) && _) eqn:E1.
  { bool_simp. destruct Hm as [Hm _]. rewrite Hm in *; done. }
  destruct (bool_decide (mode = NetworkAllowlist) && _) eqn:E2.
  { apply andb_true_iff in E2 as [E2 E3]. apply bool_decide_eq_true in E2. apply Hm in E3. congruence. }
  rewrite Ha. unfold mbind, result_bind. rewrite He. f_equal.
  destruct p; simpl in *; congruence.
Qed.

Lemma newEgressPolicy_spec d extra p :
  newEgressPolicy d extra = Ok p → ∃ mode hs cs, built mode hs cs extra p.
Proof.
  unfold newEgressPolicy. intros Hn. destruct d; try done.
  destruct (existsb _ _); [done|]. destruct (parse_mode _) as [mode|]; [|done].
  destruct (string_array _) as [hs|]; [|done]. destruct (string_array _) as [cs|]; [|done].
  exists mode, hs, cs. by apply build_policy_spec.
Qed.

Lemma map_fixed {A} (f : A → A) l : (∀ x, x ∈ l → f x = x) → map f l = l.
Proof.
  induction l as [|x l IH]; intros Hx; simpl; [done|]. rewrite Hx, IH; set_solver.
Qed.

(** ** Runs of a policy *)

Inductive Operation :=
| Learn (hostname : string) (addresses : list string) (ttlSeconds now : Z)
| Ask (ip : string) (now : Z).

Definition operate (p : EgressPolicy) (op : Operation) : EgressPolicy :=
  match op with
  | Learn hostname addresses ttl now => (learnDns hostname addresses ttl now p).2
  | Ask ip now => (allowsAddress ip now p).2
  end.

Definition operate_all (p : EgressPolicy) (ops : list Operation) : EgressPolicy :=
  foldl operate p ops.

(** Why an address was learned. *)
Definition learned_from (p0 : EgressPolicy) (ops : list Operation) (ip : string)
    (entry : LearnedAddress) : Prop :=
  ∃ hostname addresses ttl t, Learn hostname addresses ttl t ∈ ops ∧ ip ∈ addresses ∧
    la_hostname entry = normalizeHostname hostname ∧
    allowsHostname p0 (la_hostname entry) = true ∧
    la_expiresAt entry = t + clamp_ttl ttl * 1000.

Record follows (p0 : EgressPolicy) (ops : list Operation) (p : EgressPolicy) : Prop := mkFollows {
  fo_declaration : eg_declaration p = eg_declaration p0;
  fo_allowed : eg_allowedAddresses p = eg_allowedAddresses p0;
  fo_blocked : eg_additionalBlocked p = eg_additionalBlocked p0;
  fo_learned : ∀ ip entry, eg_learned p !! ip = Some entry → learned_from p0 ops ip entry
}.

Lemma learn_all_spec entry addresses p :
  let p' := (learn_all entry addresses p).2 in
  eg_declaration p' = eg_declaration p ∧ eg_allowedAddresses p' = eg_allowedAddresses p ∧
  eg_additionalBlocked p' = eg_additionalBlocked p ∧
  ∀ ip e, eg_learned p' !! ip = Some e →
    eg_learned p !! ip = Some e ∨ (ip ∈ addresses ∧ e = entry).
Proof.
  revert p. induction addresses as [|a addresses IH]; intros p; simpl.
  - split_and!; auto.
  - destruct (isIP a); simpl; [|split_and!; auto].
    destruct (IH (p <| eg_learned ::= <[a := entry]> |>)) as (Hd & Ha & Hb & Hl).
    split_and!; [exact Hd|exact Ha|exact Hb|].
    intros ip e He. destruct (Hl ip e He) as [Hold|[Hin ->]]; [|set_solver].
    simpl in Hold. apply lookup_insert_Some in Hold as [[-> <-]|[_ Hold]]; set_solver.
Qed.

Lemma learned_from_mono p0 ops op ip entry :
  learned_from p0 ops ip entry → learned_from p0 (ops ++ [op]) ip entry.
Proof. intros (h & a & ttl & t & Hin & Hr). exists h, a, ttl, t. set_solver. Qed.

Lemma operate_follows p0 ops op p : follows p0 ops p → follows p0 (ops ++ [op]) (operate p op).
Proof.
  intros [Hd Ha Hb Hl].
  assert (follows p0 (ops ++ [op]) p) as Hsame.
  { constructor; try done. intros ip e He. by apply learned_from_mono, Hl. }
  destruct op as [hostname addresses ttl now|ip now]; simpl.
  - unfold learnDns. destruct (negb _) eqn:E1; [done|]. destruct (Nat.eqb _ _); [done|].
    destruct (some_blocked p addresses) as [[|]|]; [done| |done].
    destruct (learn_all_spec (mkLearned (normalizeHostname hostname) (now + clamp_ttl ttl * 1000))
      addresses p) as (Hd' & Ha' & Hb' & Hl').
    constructor; [congruence|congruence|congruence|].
    intros ip e He. destruct (Hl' ip e He) as [Hold|[Hin ->]].
    + by apply learned_from_mono, Hl.
    + exists hostname, addresses, ttl, now. apply negb_false_iff in E1.
      split_and!; [set_solver|done|done| |done].
      unfold allowsHostname, is_off in *. simpl. by rewrite <- Hd.
  - unfold allowsAddress. destruct (is_off p); [done|].
    destruct (isHardBlockedAddress _ _) as [[|]|]; [done| |done].
    match goal with |- context [if ?b then (Ok true, p) else _] => generalize b end.
    intros []; [done|].
    destruct (eg_learned p !! ip) as [e|]; [|done]. destruct (_ <=? _); [|done].
    destruct Hsame as [Hd' Ha' Hb' Hl']. constructor; try done.
    intros ip' e' He'. apply Hl'. simpl in He'. by apply lookup_delete_Some in He' as [_ ?].
Qed.

Lemma operate_all_follows p0 ops :
  eg_learned p0 = ∅ → follows p0 ops (operate_all p0 ops).
Proof.
  intros Hl. induction ops as [|op ops IH] using rev_ind.
  - constructor; try done. intros ip e. simpl. by rewrite Hl, lookup_empty.
  - unfold operate_all. rewrite foldl_app. by apply operate_follows.
Qed.

Lemma addCidr_Ok cidr block block' :
  addCidr cidr block = Ok block' →
  ∃ rule, block' = block ++ [rule] ∧ addCidr cidr [] = Ok [rule] ∧
    head (js_split "/" cidr) = Some (sn_network rule) ∧ sn_network rule ≠ "" ∧
    isIP (sn_network rule) = Some (sn_version rule) ∧
    0 <= sn_prefix rule <= maximum_prefix (sn_version rule).
Proof.
  unfold addCidr. destruct (js_split "/" cidr) as [|network [|prefixText [|]]]; try done.
  destruct (String.eqb network "") eqn:En; [done|].
  destruct (isIP network) as [v|] eqn:Ev; [|done].
  destruct (safe_between _ _ _) as [prefix|] eqn:Ep; [|done]. intros [= <-].
  exists (mkSubnet network prefix v). bool_simp. split_and!; try done; simpl;
    unfold safe_between in Ep; destruct (js_Number prefixText) as [z|]; try done;
    destruct (_ && _) eqn:Eb in Ep; try done; injection Ep as <-; bool_simp; lia.
Qed.

Lemma allow_cidrs_rules cidrs block block' :
  allow_cidrs cidrs block = Ok block' →
  ∀ rule, rule ∈ block' → rule ∈ block ∨
    ∃ cidr, cidr ∈ cidrs ∧ addCidr cidr [] = Ok [rule] ∧ sn_version rule = IPv4.
Proof.
  revert block. induction cidrs as [|cidr cidrs IH]; intros block; simpl.
  - intros [= <-]. auto.
  - destruct (negb _ && _) eqn:E; [done|]. unfold mbind, result_bind.
    destruct (addCidr cidr block) as [block1|] eqn:Ea; [|done]. intros Hr rule Hin.
    destruct (IH block1 Hr rule Hin) as [Hold|(c & Hc & Hx)]; [|right; exists c; set_solver].
    apply addCidr_Ok in Ea as (r & -> & Hone & Hh & Hne & Hv & _).
    apply elem_of_app in Hold as [?|Hr1]; [auto|]. apply list_elem_of_singleton in Hr1 as ->.
    right. exists cidr. split_and!; [set_solver|done|].
    rewrite Hh in E. simpl in E. destruct (sn_version r) eqn:Ever; [done|].
    rewrite Hv in E. apply andb_false_iff in E as [E|E]; bool_simp; done.
Qed.
End policies.

Lemma endsWith_spec suffix h : endsWith suffix h = true ↔ ∃ sub, h = sub +:+ suffix.
Proof.
  unfold endsWith. rewrite bool_decide_eq_true. split.
  - intros [l Hl]. apply strip_prefix_Some in Hl.
    exists (string_of_list_ascii (rev l)). apply list_ascii_inj.
    rewrite list_ascii_app, list_ascii_of_string_of_list_ascii.
    by rewrite <- (rev_involutive (list_ascii_of_string h)), Hl, rev_app_distr, rev_involutive.
  - intros [sub ->]. exists (rev (list_ascii_of_string sub)). apply strip_prefix_Some.
    by rewrite list_ascii_app, rev_app_distr.
Qed.

Lemma string_app_length a b : String.length (a +:+ b) = (String.length a + String.length b)%nat.
Proof. induction a as [|c a IH]; simpl; [done|]. by rewrite <- IH. Qed.

Lemma wildcard_cases rule :
  (∃ domain, rule = "*." +:+ domain) ∨ String.prefix "*." rule = false.
Proof.
  destruct rule as [|a [|b d]]; cbn [String.prefix];
    [by right|right; by destruct (ascii_dec _ a)|]. destruct (ascii_dec "*"%char a) as [<-|]; [|by right].
  destruct (ascii_dec "."%char b) as [<-|]; [left; by exists d|by right].
Qed.

Lemma hostnameMatches_spec rule x :
  hostnameMatches rule x = true ↔
  rule = x ∨ ∃ domain sub, rule = "*." +:+ domain ∧ x = sub +:+ "." +:+ domain.
Proof.
  unfold hostnameMatches. destruct (wildcard_cases rule) as [[domain ->]|Hp].
  - change (String.prefix "*." ("*." +:+ domain)) with (String.prefix "" domain).
    assert (String.prefix "" domain = true) as -> by by destruct domain.
    assert (slice 1 ("*." +:+ domain) = "." +:+ domain ∧ slice 2 ("*." +:+ domain) = domain)
      as [-> ->].
    { split; unfold slice; rewrite list_ascii_app; apply list_ascii_inj;
        by rewrite list_ascii_of_string_of_list_ascii. }
    assert (∀ y, (∃ sub, y = sub +:+ "." +:+ domain) → y ≠ domain) as Hne.
    { intros y [sub ->] He. apply (f_equal String.length) in He.
      rewrite !string_app_length in He. simpl in He. lia. }
    rewrite andb_true_iff, negb_true_iff, String.eqb_neq, endsWith_spec. split.
    + intros [[sub ->] _]. right. by exists domain, sub.
    + intros Hx. assert (∃ sub, x = sub +:+ "." +:+ domain) as Hs; [|by split; [|apply Hne]].
      destruct Hx as [<-|(d & sub & Hd & ->)]; [by exists "*"|].
      apply string_app_cancel in Hd as <-. by exists sub.
  - rewrite Hp, String.eqb_eq. split; [intros ->; by left|].
    intros [->|(d & sub & -> & _)]; [done|]. exfalso.
    change (String.prefix "" d = false) in Hp. by destruct d.
Qed.

(** ** A concrete [NodeNet]: dotted-quad IPv4 *)

Definition octet : re :=
  Alt (Chr digit) (Alt (Cat (Chr digit19) (Chr digit))
    (Alt (Cat (lit "1") (rep_exact 2 (Chr digit)))
       (Alt (cats [lit "2"; Chr (in_range "0" "4"); Chr digit])
            (Cat (lit "25") (Chr (in_range "0" "5")))))).

Definition ipv4Pattern : re := cats [octet; lit "."; octet; lit "."; octet; lit "."; octet].

Definition ipv4_value (ip : string) : Z :=
  foldl (λ acc field, acc * 256 + parse_dec field) 0 (js_split "." ip).

(** IPv6 is known by its colons and in no subnet. *)
Definition colon_text (ip : string) : bool := existsb (Ascii.eqb ":") (list_ascii_of_string ip).

Definition sample_net : NodeNet := {|
  isIP ip := if test ipv4Pattern ip then Some IPv4 else if colon_text ip then Some IPv6 else None;
  subnet_contains rule ip v :=
    bool_decide (v = IPv4) && bool_decide (sn_version rule = IPv4) &&
    (Z.shiftr (ipv4_value ip) (32 - sn_prefix rule) =?
     Z.shiftr (ipv4_value (sn_network rule)) (32 - sn_prefix rule))
|}.

Definition sample_declaration : json :=
  JObj [("mode", JStr "allowlist"); ("hostnames", JArr [JStr "API.Example.com."; JStr "*.example.com"]);
        ("cidrs", JArr [JStr " 8.8.8.0/24"])].

Definition sample_egress : EgressPolicy :=
  mkEgress (mkNetworkPolicy NetworkAllowlist ["*.example.com"; "api.example.com"] ["8.8.8.0/24"])
    [mkSubnet "8.8.8.0" 24 IPv4] ["9.9.9.0/24"] ∅.

Definition sample_operations : list Operation :=
  [Learn "api.example.com" ["1.1.1.1"] 10000 1000].

(** * Properties *)

(** C17: egress is denied by default.  After any sequence of learned DNS answers
    and address queries, an address is let through only under an allowlist
    policy, only outside the hard floor and the deployment's deny rules, and only
    if it lies in a declared IPv4 CIDR or was in a DNS answer for an allowlisted
    hostname whose clamped lifetime, at most five minutes, has not passed. *)
Theorem egress_denied_by_default `{NodeNet} d extra p0 ops ip now p' :
  newEgressPolicy d extra = Ok p0 →
  allowsAddress ip now (operate_all p0 ops) = (Ok true, p') →
  np_mode (eg_declaration p0) = NetworkAllowlist ∧
  isHardBlockedAddress ip extra = Ok false ∧
  ((∃ cidr rule, cidr ∈ np_cidrs (eg_declaration p0) ∧ addCidr cidr [] = Ok [rule] ∧
      sn_version rule = IPv4 ∧ ∃ v, isIP ip = Some v ∧ subnet_contains rule ip v = true) ∨
   (∃ hostname addresses ttl t, Learn hostname addresses ttl t ∈ ops ∧ ip ∈ addresses ∧
      allowsHostname p0 (normalizeHostname hostname) = true ∧
      now < t + clamp_ttl ttl * 1000 <= t + 300000)).
Proof.
  intros (mode & hs & cs & [_ _ _ _ Ha [Hx _] Hl])%newEgressPolicy_spec Hask.
  destruct (operate_all_follows p0 ops Hl) as [Hd Haa Hb Hll].
  unfold allowsAddress in Hask. unfold is_off in Hask. rewrite Hd, Hb, Hx in Hask.
  destruct (bool_decide _) eqn:Hoff; [done|].
  destruct (isHardBlockedAddress ip extra) as [[|]|] eqn:Hf; [done| |done].
  split; [by destruct (np_mode (eg_declaration p0)); bool_simp|]. split; [done|].
  rewrite Haa in Hask. destruct (match isIP ip with Some _ => _ | None => _ end) eqn:Hc in Hask.
  - left. destruct (isIP ip) as [v|] eqn:Hv; [|done].
    apply existsb_exists in Hc as (rule & Hin%list_elem_of_In & Hr).
    destruct (allow_cidrs_rules _ _ _ Ha rule Hin) as [Hn|(cidr & Hci & Hadd & H4)];
      [by apply elem_of_nil in Hn|].
    exists cidr, rule. split_and!; [done..|]. by exists v.
  - right. destruct (eg_learned _ !! ip) as [entry|] eqn:He; [|done].
    destruct (la_expiresAt entry <=? now) eqn:Hexp; [done|]. bool_simp.
    destruct (Hll ip entry He) as (h & a & ttl & t & Hin & Hia & Hh & Hal & Hex).
    exists h, a, ttl, t. rewrite Hh in Hal. split_and!; [done..|lia|].
    unfold clamp_ttl. lia.
Qed.

Lemma egress_denied_by_default_witness :
  ∃ p0 p', newEgressPolicy (H := sample_net) sample_declaration ["9.9.9.0/24"] = Ok p0 ∧
    allowsAddress (H := sample_net) "1.1.1.1" 300000
      (operate_all (H := sample_net) p0 sample_operations) = (Ok true, p') ∧
    np_mode (eg_declaration p0) = NetworkAllowlist.
Proof.
  exists sample_egress.
  assert (newEgressPolicy (H := sample_net) sample_declaration ["9.9.9.0/24"] = Ok sample_egress)
    as Hnew by (vm_compute; reflexivity).
  assert ((allowsAddress (H := sample_net) "1.1.1.1" 300000
      (operate_all (H := sample_net) sample_egress sample_operations)).1 = Ok true)
    as Hask by (vm_compute; reflexivity).
  destruct (allowsAddress (H := sample_net) "1.1.1.1" 300000 _) as [r p'] eqn:E.
  simpl in Hask. subst r. exists p'. split; [exact Hnew|]. split; [reflexivity|].
  exact (proj1 (egress_denied_by_default (H := sample_net) sample_declaration ["9.9.9.0/24"]
    sample_egress sample_operations "1.1.1.1" 300000 p' Hnew E)).
Defined.

(** Normalisation is idempotent: the declaration a policy keeps, sent back
    as a declaration, builds the same policy, so a stored policy compares equal
    to itself however often it is parsed. *)
Theorem egress_declaration_idempotent `{NodeNet} d extra p :
  newEgressPolicy d extra = Ok p →
  newEgressPolicy (declaration_json (eg_declaration p)) extra = Ok p.
Proof.
  intros (mode & hs & cs & [[Hh Hc] Hd Hv Hm Ha Hx Hl])%newEgressPolicy_spec.
  assert (newEgressPolicy (declaration_json (eg_declaration p)) extra =
    build_policy mode (np_hostnames (eg_declaration p)) (np_cidrs (eg_declaration p)) extra) as ->.
  { unfold newEgressPolicy, declaration_json. rewrite Hd. simpl np_mode.
    change (prop "hostnames" _) with (JArr (map JStr (sorted_set (map normalizeHostname hs)))).
    change (prop "cidrs" _) with (JArr (map JStr (sorted_set (map js_trim cs)))).
    rewrite !string_array_strings. by destruct mode. }
  apply built_policy.
  assert (map normalizeHostname (np_hostnames (eg_declaration p)) = np_hostnames (eg_declaration p))
    as Hnh.
  { apply map_fixed. intros h Hin. by apply normalize_valid, Hv. }
  assert (map js_trim (np_cidrs (eg_declaration p)) = np_cidrs (eg_declaration p)) as Hnc.
  { apply map_fixed. intros c Hin. rewrite Hd in Hin. simpl in Hin.
    apply (proj1 (sorted_set_elem _ _)), list_elem_of_In, in_map_iff in Hin as (x & <- & _).
    apply js_trim_idem. }
  constructor; try done; rewrite Hd in *; simpl in *.
  - pose proof (sorted_set_length (map normalizeHostname hs)).
    pose proof (sorted_set_length (map js_trim cs)). rewrite length_map in *. lia.
  - by rewrite Hnh, Hnc, !sorted_set_idem.
Qed.

Lemma egress_declaration_idempotent_witness :
  newEgressPolicy (H := sample_net) sample_declaration ["9.9.9.0/24"] = Ok sample_egress ∧
  newEgressPolicy (H := sample_net) (declaration_json (eg_declaration sample_egress)) ["9.9.9.0/24"]
    = Ok sample_egress.
Proof.
  assert (newEgressPolicy (H := sample_net) sample_declaration ["9.9.9.0/24"] = Ok sample_egress)
    as Hnew by (vm_compute; reflexivity).
  split; [exact Hnew|].
  exact (egress_declaration_idempotent (H := sample_net) sample_declaration ["9.9.9.0/24"]
    sample_egress Hnew).
Defined.

(** Hostname rules mean what they say: a hostname is allowed exactly when,
    lower-cased and without its final dot, it is a rule of an allowlist or lies
    under the domain of a [*.] rule, at a label boundary and never the domain
    itself. *)
Theorem allowsHostname_exact p hostname :
  allowsHostname p hostname = true ↔
  np_mode (eg_declaration p) = NetworkAllowlist ∧
  ∃ rule, rule ∈ np_hostnames (eg_declaration p) ∧
    (rule = normalizeHostname hostname ∨
     ∃ domain sub, rule = "*." +:+ domain ∧ normalizeHostname hostname = sub +:+ "." +:+ domain).
Proof.
  unfold allowsHostname, is_off. destruct (bool_decide _) eqn:E; bool_simp.
  - split; [done|]. intros [Hm _]. congruence.
  - rewrite existsb_exists. split.
    + intros (rule & Hin%list_elem_of_In & Hr%hostnameMatches_spec).
      split; [by destruct (np_mode _)|]. by exists rule.
    + intros [_ (rule & Hin & Hr)]. exists rule. split; [by apply list_elem_of_In|].
      by apply hostnameMatches_spec.
Qed.

(** An empty prefix length is accepted as zero.  A CIDR that ends in a slash
    is not refused: [Number('')] is 0, so the rule it adds has prefix length 0 and
    covers the whole address family. *)
Theorem addCidr_empty_prefix `{NodeNet} network v block :
  network ≠ "" → no_char "/" network → isIP network = Some v →
  addCidr (network +:+ "/") block = Ok (block ++ [mkSubnet network 0 v]).
Proof.
  intros Hne Hno Hv. unfold addCidr.
  assert (js_split "/" (network +:+ "/") = [network; ""]) as ->.
  { unfold js_split. rewrite list_ascii_app. unfold no_char in Hno.
    rewrite <- (string_of_list_ascii_of_string network) at 2.
    induction (list_ascii_of_string network) as [|c l IH]; simpl; [done|].
    apply not_elem_of_cons in Hno as [Hc Hno]. specialize (IH Hno).
    destruct (Ascii.eqb_spec c "/") as [->|_]; [done|].
    simpl in IH. destruct (split_list "/" (l ++ ["/"%char])) as [|f [|f' [|]]]; try done.
    simpl in *. by injection IH as -> ->. }
  rewrite (proj2 (String.eqb_neq _ _) Hne), Hv.
  change (js_Number "") with (NInt 0). by destruct v.
Qed.

Lemma addCidr_empty_prefix_witness :
  addCidr (H := sample_net) "8.8.8.8/" [] = Ok [mkSubnet "8.8.8.8" 0 IPv4] ∧
  subnet_contains (NodeNet := sample_net) (mkSubnet "8.8.8.8" 0 IPv4) "203.0.113.7" IPv4 = true.
Proof.
  split; [|vm_compute; reflexivity].
  refine (addCidr_empty_prefix (H := sample_net) "8.8.8.8" IPv4 [] _ _ _).
  - intros [=].
  - unfold no_char. simpl. intros Hin. repeat (apply elem_of_cons in Hin as [Hin|Hin]; [done|]).
    by apply elem_of_nil in Hin.
  - vm_compute. reflexivity.
Defined.
