(* ===== verification/Tables.v ===== *)
(** * The tables of the control plane together

    The scheduler, the repository and the reconciler share the tables of [Fleet];
    metering (src/apps/nehemiah/src/billing/metering.ts) and the usage ledger
    (src/apps/nehemiah/src/billing/usage.ts) share those of [Metering] and read
    and write columns of the machines and hosts of the fleet.  [Tables] is the one
    database behind both.  A metering transaction runs on [load], the metering
    tables with the fleet's columns read in, and [store] writes the columns it may
    change back. *)

From S2P Require Import Prelude Text Metering Capacity Lifecycle Billing Fleet Scheduler.

Record Tables := mkTables {
  fleet : FleetDb;
  meter : MeterDb;
  (** The rows of [usage_events] the usage ledger appended; those of metering are
      in [meter], and no key is in both: the latter begin with [raw:]. *)
  recorded : list UsageEventRow
}.
#[export] Instance Tables_eta : Settable Tables := λ r,
  mkTables (fleet r) (meter r) (recorded r).

(** ** The columns of the fleet that metering reads *)

Definition meter_machine (m : MachineRow) : Metering.MachineRow :=
  let i := ident m in
  Metering.mkMachineRow (organization_id i) (project_id i) (default "" (host_id (place m)))
    (default "" (host_machine_id (place m))) (lease_id i) (lease_generation i)
    (vcpus (resources i)) (memoryMb (resources i)) (created_at i) (started_at (life m))
    (state_text (mstate m)) (expires_at (life m)) (usage_checkpoint_at (usage m))
    (usage_finalized_at (usage m)).

Definition host_state_text (s : HostState) : string :=
  match s with
  | HostReady => "ready" | HostDraining => "draining" | HostUnhealthy => "unhealthy"
  | HostStale => "stale"
  end.

Definition meter_host (h : HostRow) (r : Metering.HostRow) : Metering.HostRow :=
  r <| Metering.desired_state := desired_state h |>
    <| Metering.h_state := host_state_text (h_state h) |>
    <| Metering.credential_status := credential_status h |>
    <| reported_available_vcpus := reported_vcpus h |>
    <| reported_available_memory_mb := reported_memory_mb h |>
    <| reported_available_disk_mb := reported_disk_mb h |>.

Definition load (t : Tables) : MeterDb :=
  (meter t)
    <| Metering.machines := meter_machine <$> machines (fleet t) |>
    <| Metering.hosts ::= map_imap (λ h r,
         Some (match hosts (fleet t) !! h with Some row => meter_host row r | None => r end)) |>.

(** ** The columns metering writes

    Of machines and hosts metering has these UPDATE statements: those of
    [usage_checkpoint_at] and [usage_finalized_at] in the cutover and in
    finalizing a lease, and [quarantineHost].  The columns they set are written
    back.  That the others keep their values on the metering side too is
    [MeteringHandover.ho_machines]. *)

Definition host_state_of (s : string) (h : HostState) : HostState :=
  if String.eqb s "ready" then HostReady
  else if String.eqb s "draining" then HostDraining
  else if String.eqb s "unhealthy" then HostUnhealthy
  else if String.eqb s "stale" then HostStale else h.

Definition write_machine (r : Metering.MachineRow) (m : MachineRow) : MachineRow :=
  m <| usage ::= λ u, u <| usage_checkpoint_at := Metering.usage_checkpoint_at r |>
                        <| usage_finalized_at := Metering.usage_finalized_at r |> |>.

Definition write_host (r : Metering.HostRow) (h : HostRow) : HostRow :=
  h <| desired_state := Metering.desired_state r |>
    <| h_state := host_state_of (Metering.h_state r) (h_state h) |>
    <| credential_status := Metering.credential_status r |>
    <| reported_vcpus := reported_available_vcpus r |>
    <| reported_memory_mb := reported_available_memory_mb r |>
    <| reported_disk_mb := reported_available_disk_mb r |>.

Definition write_fleet (db : MeterDb) (f : FleetDb) : FleetDb :=
  f <| machines ::= map_imap (λ id m,
         Some (match Metering.machines db !! id with Some r => write_machine r m | None => m end)) |>
    <| hosts ::= map_imap (λ id h,
         Some (match Metering.hosts db !! id with Some r => write_host r h | None => h end)) |>.

Definition store (db : MeterDb) (t : Tables) : Tables :=
  mkTables (write_fleet db (fleet t)) db (recorded t).

(** ** Transactions on one part *)

Definition on_fleet {A} (m : Tx FleetDb FleetError A) : Tx Tables FleetError A := λ t,
  match m (fleet t) with
  | Ok (a, f) => Ok (a, t <| fleet := f |>)
  | Err e => Err e
  end.

Definition metering_failure (e : MeteringError) : FleetError :=
  Failure_ (match e with
            | MeteringInputError message => message
            | MeteringHostLifecycleError => "metering host is not active"
            | MeteringRateLimitError => "metering batch arrived too soon"
            | InternalError message => message
            | RangeError => "Invalid time value"
            | OutOfFuel => "drain"
            end).

Definition on_meter {A} (m : Tx MeterDb MeteringError A) : Tx Tables FleetError A := λ t,
  match m (load t) with
  | Ok (a, db) => Ok (a, store db t)
  | Err e => Err (metering_failure e)
  end.

(** The meter of a machine has seen its first observation. *)
Definition meter_started (t : Tables) (id : string) : bool :=
  match meter_state (meter t) !! id with Some st => start_seen st | None => false end.

(** ** Loading and storing *)

Lemma write_meter_machine m : write_machine (meter_machine m) m = m.
Proof. by destruct m as [? ? ? ? ? []]. Qed.

Lemma write_meter_host h r : write_host (meter_host h r) h = h.
Proof. by destruct h as [? ? ? [] ? ? ? ? ? ? ? ? ? ? ?]. Qed.

Lemma load_machine t id :
  Metering.machines (load t) !! id = meter_machine <$> machines (fleet t) !! id.
Proof. apply lookup_fmap. Qed.

Lemma write_fleet_machine db f id :
  machines (write_fleet db f) !! id = (λ m,
    match Metering.machines db !! id with Some r => write_machine r m | None => m end)
    <$> machines f !! id.
Proof. simpl. rewrite map_lookup_imap. by destruct (machines f !! id). Qed.

Lemma write_fleet_host db f id :
  hosts (write_fleet db f) !! id = (λ h,
    match Metering.hosts db !! id with Some r => write_host r h | None => h end)
    <$> hosts f !! id.
Proof. simpl. rewrite map_lookup_imap. by destruct (hosts f !! id). Qed.

(** Reading the columns in and writing them back changes nothing. *)
Lemma write_load t : write_fleet (load t) (fleet t) = fleet t.
Proof.
  assert (machines (write_fleet (load t) (fleet t)) = machines (fleet t)) as Hm.
  { apply map_eq. intros id. rewrite write_fleet_machine, load_machine.
    destruct (machines (fleet t) !! id) as [m|]; simpl; [|done]. by rewrite write_meter_machine. }
  assert (hosts (write_fleet (load t) (fleet t)) = hosts (fleet t)) as Hh.
  { apply map_eq. intros h. rewrite write_fleet_host. simpl. rewrite map_lookup_imap.
    destruct (hosts (fleet t) !! h) as [row|] eqn:E; simpl; [|done].
    destruct (Metering.hosts (meter t) !! h); simpl; [|done]. rewrite ?E. by rewrite write_meter_host. }
  unfold write_fleet in *. destruct (fleet t). simpl in *. by rewrite Hm, Hh.
Qed.
