(* ===== verification/UsageOutbox.v ===== *)
(** * The usage outbox

    The usage transactions of [MachineReconciler]
    (src/apps/nehemiah/src/jobs/reconcile-machines.ts) and the ledger they feed
    (src/apps/nehemiah/src/billing/usage.ts).  Machines without an authoritative
    meter are billed by intervals: [enqueueUsageIntervals] cuts the runtime of a
    machine at each checkpoint and at its end into outbox rows, a worker claims
    rows, records each in the ledger split at UTC midnights, and settles it.  The
    ledger computes seconds and quantities in binary64 and the table keeps nine
    digits of them ([Numeric]). *)

From Stdlib Require Import QArith Qround Lqa.
From S2P Require Import Prelude Text Js Numeric Metering Capacity Lifecycle Billing Fleet Scheduler MachineRepo.
From S2P Require Import ReconcileDb Tables MeteringFacts.
Open Scope Z_scope.

(** ** The usage ledger *)

(** The segments of [recordMachineRuntime]: index, start, end. *)
Fixpoint runtime_segments (fuel : nat) (segment start end_ : Z) : list (Z * Z * Z) :=
  match fuel with
  | O => []
  | S fuel =>
      if start <? end_ then
        let stop := if nextMidnightMs start <? end_ then nextMidnightMs start else end_ in
        (segment, start, stop) :: runtime_segments fuel (segment + 1) stop end_
      else []
  end.

(** One iteration per UTC day the period touches. *)
Definition segment_fuel (start end_ : Z) : nat := Z.to_nat (end_ / msPerDay - start / msPerDay + 1).

Record UsageEvent := mkEvent {
  eventKey : string;
  ev_organizationId : string;
  ev_projectId : string;
  ev_machineId : string;
  ev_dimension : string;
  ev_quantity : Q;
  ev_periodStart : Z;
  ev_periodEnd : Z;
  ev_source : string
}.

Definition segment_events (row : OutboxRow) (s : Z * Z * Z) : list UsageEvent :=
  let '(segment, start, stop) := s in
  let seconds := js_div (inject_Z (stop - start)) 1000 in
  let prefix := ob_key row +:+ ":" +:+ pretty segment +:+ ":" +:+ toISOString start in
  [mkEvent (prefix +:+ ":vcpu") (ob_organization_id row) (ob_project_id row) (ob_machine_id row)
     "vcpu_seconds" (js_mul seconds (inject_Z (ob_vcpus row))) start stop (ob_source row);
   mkEvent (prefix +:+ ":memory") (ob_organization_id row) (ob_project_id row) (ob_machine_id row)
     "gib_seconds" (js_mul seconds (js_div (inject_Z (ob_memory_mb row)) 1024)) start stop
     (ob_source row)].

Definition outbox_segments (row : OutboxRow) : list (Z * Z * Z) :=
  runtime_segments (segment_fuel (ob_period_start row) (ob_period_end row)) 0
    (ob_period_start row) (ob_period_end row).

(** Every event [recordMachineRuntime] appends for a row. *)
Definition outbox_events (row : OutboxRow) : list UsageEvent :=
  concat (map (segment_events row) (outbox_segments row)).

(** The row an event is stored as: the number travels as its decimal text. *)
Definition event_row (e : UsageEvent) : UsageEventRow :=
  mkUsageEvent (eventKey e) (ev_machineId e) (ev_organizationId e) (ev_projectId e) (ev_dimension e)
    (numeric_9 (js_decimal (ev_quantity e))) (ev_periodStart e) (ev_periodEnd e) (ev_source e).

(** [UsageLedger.append]: whether the event is new. *)
Definition append (e : UsageEvent) : Tx Tables FleetError bool := λ t,
  if negb (Qle_bool 0 (ev_quantity e))
  then Err (Failure_ "usage quantity must be a non-negative finite number")
  else if ev_periodEnd e <? ev_periodStart e then Err (Failure_ "usage period is inverted")
  else Ok (negb (has_key ue_key (eventKey e) (recorded t)),
           t <| recorded ::= insert_new ue_key (event_row e) |>).

(** ** Enqueueing intervals *)

Definition outbox (t : Tables) : list OutboxRow := usage_outbox (meter t).

Definition set_outbox (f : list OutboxRow → list OutboxRow) (t : Tables) : Tables :=
  t <| meter ::= λ db, db <| usage_outbox ::= f |> |>.

Definition update_usage (id : string) (f : UsageColumns → UsageColumns) (t : Tables) : Tables :=
  t <| fleet ::= λ db, db <| machines ::= alter (λ m, m <| usage ::= f |>) id |> |>.

(** [COALESCE(usage_checkpoint_at, started_at)] *)
Definition usage_start (m : MachineRow) : option Z :=
  coalesce (usage_checkpoint_at (usage m)) (started_at (life m)).

(** The clauses the two queries share: the lease is the legacy producer's. *)
Definition legacy_lease (exclude : bool) (t : Tables) (id : string) (m : MachineRow) : bool :=
  bool_decide (is_Some (started_at (life m))) &&
  bool_decide (usage_quarantined_at (usage m) = None) && negb (exclude && meter_started t id).

Definition ends_usage (exclude : bool) (t : Tables) (id : string) (m : MachineRow) : bool :=
  terminal (mstate m) && bool_decide (is_Some (stopped_at (life m))) &&
  bool_decide (usage_finalized_at (usage m) = None) && legacy_lease exclude t id m &&
  negb (existsb (λ o, String.eqb (ob_machine_id o) id && ob_final o) (outbox t)).

Definition checkpoint_due (exclude : bool) (now : Z) (t : Tables) (id : string) (m : MachineRow) : bool :=
  bool_decide (mstate m = Running) && legacy_lease exclude t id m &&
  match usage_start m with Some s => s <? now - 300000 | None => false end.

(** [ORDER BY instant, id FOR UPDATE SKIP LOCKED LIMIT 100] *)
Definition oldest (instant : MachineRow → option Z) (a b : string * MachineRow) : Z :=
  let d := default 0 (instant a.2) - default 0 (instant b.2) in
  if negb (d =? 0) then d else codeUnitCompare a.1 b.1.

Definition usage_batch (instant : MachineRow → option Z) (p : string → MachineRow → bool)
    (locked : gset string) (t : Tables) : list (string * MachineRow) :=
  take 100 (sort_by (oldest instant)
    (List.filter (λ kv, p kv.1 kv.2 && bool_decide (kv.1 ∉ locked))
       (map_to_list (machines (fleet t))))).

Definition interval (now : Z) (key : string) (id : string) (m : MachineRow) (start stop : Z)
    (final : bool) : OutboxRow :=
  let i := ident m in
  new_outbox_row now key (organization_id i) (project_id i) id (vcpus (resources i))
    (memoryMb (resources i)) start stop final.

Definition final_key (id : string) (stop : Z) : string :=
  "machine:" +:+ id +:+ ":final:" +:+ toISOString stop.
Definition checkpoint_key (id : string) (now : Z) : string :=
  "machine:" +:+ id +:+ ":checkpoint:" +:+ toISOString now.

Definition quarantine_usage (now : Z) (reason : string) (u : UsageColumns) : UsageColumns :=
  match usage_quarantined_at u with
  | None => mkUsageColumns (usage_checkpoint_at u) (usage_finalized_at u) (Some now) (Some reason)
  | Some _ => u
  end.

(** One row of the first loop. *)
Definition enqueue_final (now : Z) (kv : string * MachineRow) (t : Tables) : Tables :=
  let '(id, m) := kv in
  let start := default 0 (usage_start m) in
  let stop := default 0 (stopped_at (life m)) in
  if stop <? start
  then update_usage id (quarantine_usage now "usage interval starts after it ends") t
  else if now + 30000 <? stop
  then update_usage id (quarantine_usage now "usage interval ends in the future") t
  else
    update_usage id (λ u, u <| usage_checkpoint_at := Some stop |>)
      (set_outbox (insert_new ob_key (interval now (final_key id stop) id m start stop true)) t).

(** One row of the second loop: its INSERT has no ON CONFLICT clause. *)
Definition enqueue_checkpoint (now : Z) (kv : string * MachineRow) : Tx Tables FleetError unit := λ t,
  let '(id, m) := kv in
  let key := checkpoint_key id now in
  if has_key ob_key key (outbox t)
  then Err (Failure_ "duplicate key value violates unique constraint")
  else
    Ok (tt, update_usage id (λ u, u <| usage_checkpoint_at := Some now |>)
          (set_outbox (λ l, l ++ [interval now key id m (default 0 (usage_start m)) now false]) t)).

Fixpoint each {A} (f : A → Tx Tables FleetError unit) (l : list A) : Tx Tables FleetError unit :=
  match l with
  | [] => mret tt
  | a :: l => _ ← f a; each f l
  end.

(** The first loop, over the leases that ended. *)
Definition enqueue_ended (now : Z) (exclude : bool) (locked : gset string) (t : Tables) : Tables :=
  foldl (λ t kv, enqueue_final now kv t) t
    (usage_batch (λ m, stopped_at (life m)) (ends_usage exclude t) locked t).

(** [enqueueUsageIntervals]; the two queries skip the rows others hold. *)
Definition enqueueUsageIntervals (now : Z) (excludeAuthoritativeLeases : bool) (locked : gset string)
    : Tx Tables FleetError unit := λ t,
  let t := enqueue_ended now excludeAuthoritativeLeases locked t in
  each (enqueue_checkpoint now)
    (usage_batch usage_start (checkpoint_due excludeAuthoritativeLeases now t) locked t) t.

(** ** Delivering intervals *)

Definition usageClaimMs : Z := 5 * 60 * 1000.

Definition delivery_due (now : Z) (t : Tables) (o : OutboxRow) : bool :=
  bool_decide (ob_processed_at o = None) && (ob_next_attempt_at o <=? now) &&
  match ob_claimed_until o with Some u => u <? now | None => true end &&
  (negb (ob_final o) ||
   negb (existsb (λ prior, String.eqb (ob_machine_id prior) (ob_machine_id o) &&
                           bool_decide (ob_processed_at prior = None) && negb (ob_final prior))
           (outbox t))).

Definition delivery_order (a b : OutboxRow) : Z :=
  let d1 := ob_next_attempt_at a - ob_next_attempt_at b in
  let d2 := ob_created_at a - ob_created_at b in
  if negb (d1 =? 0) then d1 else if negb (d2 =? 0) then d2 else codeUnitCompare (ob_key a) (ob_key b).

Definition claimed_delivery (now : Z) (token : string) (o : OutboxRow) : OutboxRow :=
  o <| ob_claim_token := Some token |> <| ob_claimed_until := Some (now + usageClaimMs) |>.

Definition claimUsageOutbox (now : Z) (token : string) (locked : gset string)
    : Tx Tables FleetError (list OutboxRow) := λ t,
  let batch := take reconcileBatchSize (sort_by delivery_order
    (List.filter (λ o, delivery_due now t o && bool_decide (ob_key o ∉ locked)) (outbox t))) in
  Ok (map (claimed_delivery now token) batch,
      set_outbox (map (λ o, if string_in (ob_key o) (map ob_key batch)
                            then claimed_delivery now token o else o)) t).

(** The row a worker still holds: [event_key = $1 AND claim_token = $2 AND
    processed_at IS NULL]. *)
Definition held_by (key token : string) (o : OutboxRow) : bool :=
  String.eqb (ob_key o) key && bool_decide (ob_claim_token o = Some token) &&
  bool_decide (ob_processed_at o = None).

Definition settled_delivery (now : Z) (o : OutboxRow) : OutboxRow :=
  mkOutbox (ob_key o) (ob_organization_id o) (ob_project_id o) (ob_machine_id o) (ob_vcpus o)
    (ob_memory_mb o) (ob_period_start o) (ob_period_end o) (ob_final o) (ob_source o)
    (ob_created_at o) (ob_attempts o + 1) (ob_next_attempt_at o) None None (Some now) None.

(** The final interval is delivered and none is left. *)
Definition fully_delivered (id : string) (l : list OutboxRow) : bool :=
  existsb (λ o, String.eqb (ob_machine_id o) id && ob_final o &&
                bool_decide (is_Some (ob_processed_at o))) l &&
  negb (existsb (λ o, String.eqb (ob_machine_id o) id && bool_decide (ob_processed_at o = None)) l).

(** The transaction after a row was recorded. *)
Definition settleUsage (now : Z) (key token machine : string) : Tx Tables FleetError unit := λ t,
  if existsb (held_by key token) (outbox t)
  then
    let t := set_outbox (map (λ o, if held_by key token o then settled_delivery now o else o)) t in
    Ok (tt, if fully_delivered machine (outbox t)
            then update_usage machine (λ u,
                   u <| usage_finalized_at := coalesce (usage_finalized_at u) (Some now) |>) t
            else t)
  else Ok (tt, t).

Definition retry_delay (attempts : Z) : Z := Z.min 300 (2 ^ Z.min attempts 8).

(** The UPDATE after a failure; [attempts] is what the claim read. *)
Definition retryUsage (now : Z) (key token error : string) (attempts : Z)
    : Tx Tables FleetError unit := λ t,
  Ok (tt, set_outbox (map (λ o, if held_by key token o
    then o <| ob_attempts := ob_attempts o + 1 |> <| ob_last_error := Some (substring 0 1024 error) |>
           <| ob_next_attempt_at := now + retry_delay attempts * 1000 |>
           <| ob_claim_token := None |> <| ob_claimed_until := None |>
    else o)) t).

(** * The events of an interval

    The segments [recordMachineRuntime] cuts a period into partition it, none
    crosses a UTC midnight, and the key of an event names its row, segment and
    dimension: what the ledger's exactly-once accounting rests on. *)

(** ** Segments *)

Definition segment_ms (s : Z * Z * Z) : Z := let '(_, start, stop) := s in stop - start.

Lemma next_midnight_after ms : ms < nextMidnightMs ms.
Proof. unfold nextMidnightMs, msPerDay. pose proof (Z.div_mod ms 86400000). pose proof (Z.mod_pos_bound ms 86400000). lia. Qed.

Lemma next_midnight_day ms : nextMidnightMs ms / msPerDay = ms / msPerDay + 1.
Proof. unfold nextMidnightMs. by apply Z.div_mul. Qed.

(** Enough fuel: the segments add up to the period. *)
Lemma segments_total fuel segment start end_ :
  start <= end_ → (segment_fuel start end_ <= fuel)%nat →
  sum_with segment_ms (runtime_segments fuel segment start end_) = end_ - start.
Proof.
  revert segment start. induction fuel as [|fuel IH]; intros segment start Hle Hfuel.
  - exfalso. unfold segment_fuel in Hfuel.
    assert (start / msPerDay <= end_ / msPerDay) by (by apply Z.div_le_mono). lia.
  - simpl. destruct (start <? end_) eqn:E; simpl; [|lia].
    destruct (nextMidnightMs start <? end_) eqn:E2; simpl.
    + rewrite IH; [lia|lia|]. unfold segment_fuel in *. rewrite next_midnight_day.
      assert (start / msPerDay < end_ / msPerDay); [|lia].
      assert (nextMidnightMs start / msPerDay <= end_ / msPerDay) as H by (apply Z.div_le_mono; lia || done).
      rewrite next_midnight_day in H. lia.
    + assert (runtime_segments fuel (segment + 1) end_ end_ = []) as ->; [|simpl; lia].
      destruct fuel; simpl; [done|]. by rewrite Z.ltb_irrefl.
Qed.

Lemma segment_bounds fuel segment start end_ i a b :
  (i, a, b) ∈ runtime_segments fuel segment start end_ →
  segment <= i ∧ start <= a ∧ a < b ∧ b <= end_ ∧ b <= nextMidnightMs a.
Proof.
  revert segment start. induction fuel as [|fuel IH]; intros segment start; simpl; [by intros ?%elem_of_nil|].
  destruct (start <? end_) eqn:E; [|by intros ?%elem_of_nil].
  pose proof (next_midnight_after start).
  intros [Heq|Hin]%elem_of_cons.
  - injection Heq as -> -> ->. destruct (nextMidnightMs start <? end_) eqn:E2; lia.
  - apply IH in Hin. destruct (nextMidnightMs start <? end_) eqn:E2; lia.
Qed.

Lemma segment_index fuel segment start end_ i a b a' b' :
  (i, a, b) ∈ runtime_segments fuel segment start end_ →
  (i, a', b') ∈ runtime_segments fuel segment start end_ → a = a' ∧ b = b'.
Proof.
  revert segment start. induction fuel as [|fuel IH]; intros segment start; simpl; [by intros ?%elem_of_nil|].
  destruct (start <? end_) eqn:E; [|by intros ?%elem_of_nil].
  intros [H1|H1]%elem_of_cons [H2|H2]%elem_of_cons.
  - rewrite <- H1 in H2. by injection H2 as -> ->.
  - injection H1 as -> -> ->. apply segment_bounds in H2. lia.
  - injection H2 as -> -> ->. apply segment_bounds in H1. lia.
  - by eapply IH.
Qed.

Lemma segments_NoDup fuel segment start end_ : NoDup (runtime_segments fuel segment start end_).
Proof.
  revert segment start. induction fuel as [|fuel IH]; intros segment start; simpl; [constructor|].
  destruct (start <? end_); [|constructor]. constructor; [|apply IH].
  intros Hin%segment_bounds. lia.
Qed.

(** ** Keys *)

Definition event_key (row : OutboxRow) (s : Z * Z * Z) (suffix : string) : string :=
  let '(segment, start, stop) := s in
  ob_key row +:+ ":" +:+ pretty segment +:+ ":" +:+ toISOString start +:+ suffix.

(** Text after the last separator, read from the right. *)
Lemma split_last (c : ascii) s1 s2 t1 t2 :
  no_char c t1 → no_char c t2 →
  s1 +:+ String c t1 = s2 +:+ String c t2 → s1 = s2 ∧ t1 = t2.
Proof.
  intros H1 H2 Heq.
  assert (list_ascii_of_string (s1 +:+ String c t1)
    = list_ascii_of_string (s2 +:+ String c t2)) as Hl by by rewrite Heq.
  rewrite !list_ascii_app in Hl. simpl in Hl. apply (f_equal (@rev ascii)) in Hl.
  rewrite !rev_app_distr in Hl. simpl in Hl. rewrite <- !app_assoc in Hl. simpl in Hl.
  apply split_sep_list in Hl as [Ht Hs].
  - apply (f_equal (@rev ascii)) in Ht, Hs. rewrite !rev_involutive in Ht, Hs.
    eauto using list_ascii_inj.
  - rewrite list_elem_of_In, <- in_rev, <- list_elem_of_In. exact H1.
  - rewrite list_elem_of_In, <- in_rev, <- list_elem_of_In. exact H2.
Qed.

Definition suffixes : list string := [":vcpu"; ":memory"].

Lemma suffix_text x : x ∈ suffixes → ∃ y, x = String ":" y ∧ no_char ":" y.
Proof.
  intros [->|[->|[]%elem_of_nil]%elem_of_cons]%elem_of_cons; eexists; (split; [reflexivity|]);
    unfold no_char; simpl; set_solver.
Qed.

Lemma event_key_split row i a b (x : string) :
  event_key row (i, a, b) x
  = ((ob_key row +:+ String ":" (pretty i)) +:+ String ":" (toISOString a)) +:+ x.
Proof. unfold event_key. by rewrite !string_app_assoc. Qed.

Lemma event_key_inj row row' s s' x x' :
  x ∈ suffixes → x' ∈ suffixes → event_key row s x = event_key row' s' x' →
  ob_key row = ob_key row' ∧ s.1.1 = s'.1.1 ∧ x = x'.
Proof.
  intros (y & -> & Hy)%suffix_text (y' & -> & Hy')%suffix_text.
  destruct s as [[i a] b], s' as [[i' a'] b']. rewrite !event_key_split. intros Heq.
  apply split_last in Heq as [Heq ->]; [|done..].
  apply split_last in Heq as [Heq _]; [|apply pretty_no_colon..].
  apply split_last in Heq as [-> Hi]; [|apply pretty_no_colon..].
  split_and!; [done|by apply (inj pretty)|done].
Qed.

(** ** Events *)

Lemma segment_events_keys row s :
  eventKey <$> segment_events row s = [event_key row s ":vcpu"; event_key row s ":memory"].
Proof. destruct s as [[i a] b]. unfold event_key. simpl. by rewrite !string_app_assoc. Qed.

Lemma outbox_events_elem row e :
  e ∈ outbox_events row ↔ ∃ s, s ∈ outbox_segments row ∧ e ∈ segment_events row s.
Proof.
  unfold outbox_events. rewrite list_elem_of_In, in_concat. setoid_rewrite in_map_iff.
  setoid_rewrite list_elem_of_In. naive_solver.
Qed.

Lemma segment_event_key row s e :
  e ∈ segment_events row s → ∃ x, x ∈ suffixes ∧ eventKey e = event_key row s x.
Proof.
  intros He. apply (list_elem_of_fmap_2 eventKey) in He. rewrite segment_events_keys in He.
  apply elem_of_cons in He as [->|[->|[]%elem_of_nil]%elem_of_cons]; eexists; (split; [|reflexivity]); set_solver.
Qed.

Lemma NoDup_key_inj {A} (f : A → string) (l : list A) x y :
  NoDup (f <$> l) → x ∈ l → y ∈ l → f x = f y → x = y.
Proof.
  induction l as [|z l IH]; intros Hnd; [by intros ?%elem_of_nil|].
  apply NoDup_cons in Hnd as [Hz Hnd].
  intros [->|Hx]%elem_of_cons [->|Hy]%elem_of_cons Hk; [done| | |by apply IH].
  - exfalso. apply Hz. rewrite Hk. by apply list_elem_of_fmap_2.
  - exfalso. apply Hz. rewrite <- Hk. by apply list_elem_of_fmap_2.
Qed.

Lemma segment_keys_NoDup row s : NoDup (eventKey <$> segment_events row s).
Proof.
  rewrite segment_events_keys. apply NoDup_cons. split; [|apply NoDup_singleton].
  intros Hin%list_elem_of_singleton. apply event_key_inj in Hin as (_ & _ & ?); [done|set_solver..].
Qed.

(** In one segment the key says which of its two events it is. *)
Lemma segment_event_inj row s e e' :
  e ∈ segment_events row s → e' ∈ segment_events row s → eventKey e = eventKey e' → e = e'.
Proof. apply (NoDup_key_inj eventKey), segment_keys_NoDup. Qed.

(** The key of an event names its row, and the event in it. *)
Lemma event_inj row row' e e' :
  e ∈ outbox_events row → e' ∈ outbox_events row' → eventKey e = eventKey e' →
  ob_key row = ob_key row' ∧ (row = row' → e = e').
Proof.
  intros (s & Hs & He)%outbox_events_elem (s' & Hs' & He')%outbox_events_elem Hk.
  pose proof (segment_event_key _ _ _ He) as (x & Hx & K). pose proof (segment_event_key _ _ _ He') as (x' & Hx' & K').
  destruct (event_key_inj row row' s s' x x' Hx Hx') as (Hrow & Hi & _); [congruence|].
  split; [done|]. intros <-.
  assert (s = s') as <-; [|by eapply segment_event_inj].
  destruct s as [[i a] b], s' as [[i' a'] b']. simpl in Hi. subst i'.
  by destruct (segment_index _ _ _ _ _ _ _ _ _ Hs Hs') as [-> ->].
Qed.

Lemma outbox_events_NoDup row : NoDup (outbox_events row).
Proof.
  unfold outbox_events, outbox_segments.
  set (l := runtime_segments _ _ _ _). assert (NoDup l) as Hnd by apply segments_NoDup.
  assert (∀ s, s ∈ l → s ∈ outbox_segments row) as Hsub by done. clearbody l.
  induction Hnd as [|s l Hs Hnd IH]; simpl; [constructor|].
  apply NoDup_app. split_and!.
  - apply (NoDup_fmap_1 eventKey), segment_keys_NoDup.
  - intros e He Hin. apply list_elem_of_In, in_concat in Hin as (es & Hes & Hin).
    apply in_map_iff in Hes as (s' & <- & Hs'). apply list_elem_of_In in Hs', Hin.
    apply segment_event_key in He as (x & Hx & K). apply segment_event_key in Hin as (x' & Hx' & K').
    destruct (event_key_inj row row s s' x x' Hx Hx') as (_ & Hi & _); [congruence|].
    destruct s as [[i a] b], s' as [[i' a'] b']. simpl in Hi. subst i'.
    destruct (segment_index _ _ _ _ i a b a' b' (Hsub (i, a, b) ltac:(set_solver))
      (Hsub (i, a', b') ltac:(set_solver))) as [-> ->].
    done.
  - apply IH. set_solver.
Qed.

(** ** What a row charges *)

(** The stored quantity of an event of a machine in a dimension, in units of
    10 ^ -9, and the milliseconds it is for. *)
Definition charged (id dimension : string) (e : UsageEventRow) : bool :=
  String.eqb (ue_machine_id e) id && String.eqb (ue_dimension e) dimension.
Definition charge (id dimension : string) (e : UsageEventRow) : Z :=
  if charged id dimension e then ue_quantity e else 0.
Definition charged_ms (id dimension : string) (e : UsageEventRow) : Z :=
  if charged id dimension e then ue_period_end e - ue_period_start e else 0.
Definition charges (id dimension : string) (l : list UsageEventRow) : Z :=
  sum_with (λ e, if charged id dimension e then 1 else 0) l.

Definition runtime_dimension (dimension : string) : bool :=
  String.eqb dimension "vcpu_seconds" || String.eqb dimension "gib_seconds".

(** The exact quantity of a millisecond. *)
Definition per_ms (dimension : string) (cpus memory : Z) : Q :=
  if String.eqb dimension "vcpu_seconds" then (inject_Z cpus * (1 # 1000))%Q
  else if String.eqb dimension "gib_seconds" then (inject_Z memory * (1 # 1024) * (1 # 1000))%Q
  else 0%Q.

Definition outbox_rows (row : OutboxRow) : list UsageEventRow := event_row <$> outbox_events row.

Lemma outbox_rows_elem row e :
  e ∈ outbox_rows row ↔ ∃ ev, e = event_row ev ∧ ev ∈ outbox_events row.
Proof. unfold outbox_rows. apply list_elem_of_fmap. Qed.

Lemma event_row_inj row row' e e' :
  e ∈ outbox_events row → e' ∈ outbox_events row' → ue_key (event_row e) = ue_key (event_row e') →
  ob_key row = ob_key row' ∧ (row = row' → e = e').
Proof. apply event_inj. Qed.

Lemma segment_charged_ms id dimension row s :
  sum_with (charged_ms id dimension) (event_row <$> segment_events row s)
  = if String.eqb (ob_machine_id row) id && runtime_dimension dimension then segment_ms s else 0.
Proof.
  destruct s as [[i a] b]. unfold charged_ms, charged, runtime_dimension.
  cbn [sum_with segment_events foldr map fmap list_fmap event_row ue_machine_id ue_dimension ue_period_start
    ue_period_end ev_machineId ev_dimension ev_periodStart ev_periodEnd segment_ms].
  destruct (String.eqb (ob_machine_id row) id); cbn [andb]; [|done].
  rewrite !(String.eqb_sym _ dimension).
  destruct (String.eqb_spec dimension "vcpu_seconds") as [->|_]; [simpl; lia|].
  destruct (String.eqb dimension "gib_seconds"); simpl; lia.
Qed.

Lemma sum_with_concat {A} (f : A → Z) (ls : list (list A)) :
  sum_with f (concat ls) = sum_with (sum_with f) ls.
Proof. induction ls as [|l ls IH]; simpl; [done|]. by rewrite sum_with_app, IH. Qed.

Lemma sum_with_map {A B} (f : B → Z) (g : A → B) l : sum_with f (map g l) = sum_with (λ x, f (g x)) l.
Proof. induction l as [|x l IH]; simpl; [done|]. by rewrite IH. Qed.

Lemma fmap_concat {A B} (f : A → B) (ls : list (list A)) : f <$> concat ls = concat (map (fmap f) ls).
Proof. induction ls as [|l ls IH]; simpl; [done|]. by rewrite fmap_app, IH. Qed.

(** A row charges its whole period, whatever midnights it spans. *)
Lemma outbox_charged_ms id dimension row :
  ob_period_start row <= ob_period_end row →
  sum_with (charged_ms id dimension) (outbox_rows row)
  = if String.eqb (ob_machine_id row) id && runtime_dimension dimension
    then ob_period_end row - ob_period_start row else 0.
Proof.
  intros Hle. unfold outbox_rows, outbox_events.
  rewrite fmap_concat, map_map, sum_with_concat, sum_with_map.
  rewrite (sum_with_ext _ (λ s, if String.eqb (ob_machine_id row) id && runtime_dimension dimension
    then segment_ms s else 0)) by (intros; apply segment_charged_ms).
  destruct (_ && _); [|by apply sum_with_zero]. unfold outbox_segments. by rewrite segments_total.
Qed.

(** What is stored is within the rounding of the exact quantity. *)
Lemma stored_event row e :
  0 <= ob_vcpus row → 0 <= ob_memory_mb row → e ∈ outbox_events row → runtime_dimension (ev_dimension e) = true ∧
  ev_periodStart e <= ev_periodEnd e ∧ ev_machineId e = ob_machine_id row ∧
  stored_near (numeric_9 (js_decimal (ev_quantity e)))
    (per_ms (ev_dimension e) (ob_vcpus row) (ob_memory_mb row) * inject_Z (ev_periodEnd e - ev_periodStart e)).
Proof.
  intros Hv Hm ([[i a] b] & Hs%segment_bounds & He)%outbox_events_elem.
  assert (0 <= inject_Z (b - a))%Q as Ht by (change 0%Q with (inject_Z 0); rewrite <- Zle_Qle; lia).
  assert (0 <= inject_Z (ob_vcpus row) ∧ 0 <= inject_Z (ob_memory_mb row))%Q as [Hv' Hm']
    by (change 0%Q with (inject_Z 0); rewrite <- !Zle_Qle; lia).
  assert (0 <= inject_Z (b - a) / 1000)%Q as Hsec by (apply Qle_shift_div_l; [done|lra]).
  assert (0 <= inject_Z (ob_memory_mb row) / 1024)%Q as Hgib by (apply Qle_shift_div_l; [done|lra]).
  apply elem_of_cons in He as [->|[->|[]%elem_of_nil]%elem_of_cons]; simpl; (split_and!; [done|lia|done|]).
  - eapply stored_near_eq; [|apply (stored_product _ _ _ _ Hsec Hv'); [by apply binary64_near|by apply ulp_near_refl]].
    unfold per_ms. simpl. field.
  - eapply stored_near_eq; [|apply (stored_product _ _ _ _ Hsec Hgib); by apply binary64_near].
    unfold per_ms. simpl. field.
Qed.
