(* ===== verification/System.v ===== *)
(** * The control plane as one transition system

    Every transaction of the machine services, the reconciler, metering and the
    usage producer as a step of [Tables], with the moves of the other parts (hosts
    reporting, tenants and templates changing) as environment steps.  Seen from
    the fleet, each is a step of [FleetStep]. *)

From S2P Require Import Prelude Text Metering Capacity Lifecycle Billing Fleet Scheduler MachineRepo.
From S2P Require Import ForkRepo ReconcileDb FleetInv FleetSteps FleetHard FleetForks FleetStep.
From S2P Require Import FleetKeys Tables UsageOutbox.

(** The tables after a transaction: unchanged when it throws. *)
Definition commits {A} (m : Tx Tables FleetError A) (t : Tables) : Tables := (transaction m t).2.

Lemma commits_cases {A} (m : Tx Tables FleetError A) t :
  commits m t = t ∨ ∃ a, m t = Ok (a, commits m t).
Proof.
  unfold commits, transaction. destruct (m t) as [[a s]|e]; [right|left; done].
  by exists a.
Qed.

Section system.
Context (sha256 : string → string) (Date_parse : string → option Z).
Context `{BillingAdmission FleetDb} (created : Identity → Prop).

(** Moves of the other parts: they leave the usage columns alone, which only
    metering and the usage producer write. *)
Definition elsewhere (f f' : FleetDb) : Prop :=
  environment f f' ∧ ∀ id, usage <$> machines f' !! id = usage <$> machines f !! id.

(** [recordMachineRuntime] has returned for a row: each event was appended, so
    its key is taken. *)
Definition delivered (row : OutboxRow) (t : Tables) : Prop :=
  ∀ e, e ∈ outbox_events row → has_key ue_key (eventKey e) (recorded t) = true.

Inductive system_step (t : Tables) : Tables → Prop :=
| sys_fleet c :
    permitted created (fleet t) c → system_step t (t <| fleet := exec c (fleet t) |>)
| sys_elsewhere f hs :
    elsewhere (fleet t) f →
    system_step t (t <| fleet := f |> <| meter ::= λ db, db <| Metering.hosts := hs |> |>)
| sys_ingest interval clock host generation inputs :
    system_step t (commits (on_meter (ingest sha256 Date_parse interval clock host generation inputs)) t)
| sys_loss now id lease :
    system_step t (commits (on_meter (closeHostLoss now id lease)) t)
| sys_enqueue now locked :
    system_step t (commits (enqueueUsageIntervals now true locked) t)
| sys_claim now token locked :
    system_step t (commits (claimUsageOutbox now token locked) t)
| sys_append row e :
    row ∈ outbox t → e ∈ outbox_events row → system_step t (commits (append e) t)
| sys_settle now row token :
    row ∈ outbox t → delivered row t →
    system_step t (commits (settleUsage now (ob_key row) token (ob_machine_id row)) t)
| sys_retry now key token error attempts :
    system_step t (commits (retryUsage now key token error attempts) t).

Definition system_steps : Tables → Tables → Prop := rtc system_step.

(** ** Seen from the fleet *)

Lemma environment_refl f : environment f f.
Proof.
  constructor; try done.
  - intros id. destruct (machines f !! id) as [m|]; constructor. exists (usage m). by destruct m.
  - intros h row Hrow. by rewrite Hrow.
Qed.

Lemma write_fleet_environment db f : environment f (write_fleet db f).
Proof.
  constructor; try done.
  - intros id. rewrite write_fleet_machine. destruct (machines f !! id) as [m|]; constructor.
    destruct (Metering.machines db !! id); eexists; [done|]. by instantiate (1 := usage m); destruct m.
  - intros h row. rewrite write_fleet_host. destruct (hosts f !! h) as [r|]; [|done].
    intros [= <-]. by destruct (Metering.hosts db !! h).
  - intros h [r Hr]. rewrite write_fleet_host, Hr. by eexists.
Qed.

Lemma on_meter_environment {A} (m : Tx MeterDb MeteringError A) t :
  environment (fleet t) (fleet (commits (on_meter m) t)).
Proof.
  unfold commits, transaction, on_meter. destruct (m (load t)) as [[a db]|e]; simpl.
  - apply write_fleet_environment.
  - apply environment_refl.
Qed.

Lemma update_usage_environment id f t : environment (fleet t) (fleet (update_usage id f t)).
Proof.
  constructor; try done.
  - intros k. simpl. destruct (decide (k = id)) as [->|Hne].
    + rewrite lookup_alter_eq. destruct (machines (fleet t) !! id) as [m|]; constructor. by eexists.
    + rewrite lookup_alter_ne by done. destruct (machines (fleet t) !! k) as [m|]; constructor.
      exists (usage m). by destruct m.
  - intros h row Hrow. simpl in Hrow. by rewrite Hrow.
Qed.

Lemma environment_trans f1 f2 f3 : environment f1 f2 → environment f2 f3 → environment f1 f3.
Proof.
  intros [M1 H1 S1 F1 X1] [M2 H2 S2 F2 X2]. constructor; [| | |congruence..].
  - intros id. specialize (M1 id). specialize (M2 id).
    destruct M1 as [m m2 [u ->]|]; inversion M2 as [? m3 [u' ->]|]; subst; constructor. by exists u'.
  - intros h row Hrow. specialize (H2 h row Hrow).
    destruct (hosts f2 !! h) as [r2|] eqn:E2.
    + specialize (H1 h r2 E2). destruct (hosts f1 !! h); congruence.
    + destruct (hosts f1 !! h) as [r1|] eqn:E1; [|done].
      destruct (S1 h); [by eexists|congruence].
  - eauto.
Qed.

Lemma enqueue_final_environment now kv t :
  environment (fleet t) (fleet (enqueue_final now kv t)).
Proof.
  destruct kv as [id m]. unfold enqueue_final.
  destruct (_ <? _); [apply update_usage_environment|].
  destruct (_ <? _); [apply update_usage_environment|].
  by apply (update_usage_environment id _ (set_outbox _ t)).
Qed.

Lemma enqueue_checkpoint_environment now kv t u t' :
  enqueue_checkpoint now kv t = Ok (u, t') → environment (fleet t) (fleet t').
Proof.
  destruct kv as [id m]. unfold enqueue_checkpoint. destruct (has_key _ _ _); [done|].
  intros [= _ <-]. by apply (update_usage_environment id _ (set_outbox _ t)).
Qed.

Lemma enqueue_finals_environment now l t :
  environment (fleet t) (fleet (foldl (λ t kv, enqueue_final now kv t) t l)).
Proof.
  revert t. induction l as [|kv l IH]; intros t; simpl; [apply environment_refl|].
  eapply environment_trans; [apply enqueue_final_environment|apply IH].
Qed.

Lemma enqueue_checkpoints_environment now l t u t' :
  each (enqueue_checkpoint now) l t = Ok (u, t') → environment (fleet t) (fleet t').
Proof.
  revert t. induction l as [|kv l IH]; intros t E; simpl in E.
  - injection E as _ <-. apply environment_refl.
  - apply tx_bind_Ok in E as (u1 & t1 & E1 & E2).
    eapply environment_trans; [by eapply enqueue_checkpoint_environment|by apply IH].
Qed.

Lemma enqueue_environment now exclude locked t :
  environment (fleet t) (fleet (commits (enqueueUsageIntervals now exclude locked) t)).
Proof.
  destruct (commits_cases (enqueueUsageIntervals now exclude locked) t) as [->|[u E]];
    [apply environment_refl|].
  unfold enqueueUsageIntervals in E at 1. cbv zeta in E.
  eapply environment_trans; [|by eapply enqueue_checkpoints_environment].
  apply enqueue_finals_environment.
Qed.

(** A step of the system is a step of the fleet. *)
Lemma system_step_fleet t t' :
  system_step t t' → fleet_step created (fleet t) (fleet t').
Proof.
  intros [].
  - by apply (step_command _ _ c).
  - by apply step_environment; destruct H0.
  - apply step_environment, on_meter_environment.
  - apply step_environment, on_meter_environment.
  - apply step_environment, enqueue_environment.
  - apply step_environment. apply environment_refl.
  - apply step_environment. unfold commits, transaction, append.
    repeat case_match; simplify_eq/=; apply environment_refl.
  - apply step_environment. unfold commits, transaction, settleUsage.
    destruct (existsb _ _); simpl; [|apply environment_refl].
    destruct (fully_delivered _ _); [|apply environment_refl].
    by apply (update_usage_environment _ _ (set_outbox _ t)).
  - apply step_environment. apply environment_refl.
Qed.

Lemma system_steps_fleet t t' :
  system_steps t t' → fleet_steps created (fleet t) (fleet t').
Proof.
  intros Hs. induction Hs; [done|]. eapply rtc_l; [by apply system_step_fleet|done].
Qed.
End system.
