(* ===== verification/SystemInv.v ===== *)
(** * Invariants of the whole system

    What every reachable state of [System] satisfies beyond the fleet's own
    invariant: the metering invariant on the loaded tables, the legacy intervals
    of each machine as one chain, and the ledger as a set of events of those
    intervals. *)

From S2P Require Import Prelude Text Metering MeteringFacts MeteringInv MeteringTheorems.
From S2P Require Import MeteringHandover Capacity Lifecycle Billing Fleet Scheduler MachineRepo.
From S2P Require Import ForkRepo ReconcileDb FleetInv FleetSteps FleetHard FleetForks FleetStep.
From S2P Require Import FleetKeys Tables UsageOutbox System.

(** ** The metering tables when machines move *)

Record metering_ok (t : Tables) : Prop := mkMeteringOk {
  mo_inv : meter_inv (load t);
  mo_settled : settled (load t);
  mo_machines : ∀ id, is_Some (meter_state (meter t) !! id) → is_Some (machines (fleet t) !! id)
}.

(** The parts of a machine the metering invariant reads. *)
Definition meter_same (m m' : Metering.MachineRow) : Prop :=
  Metering.vcpus m' = Metering.vcpus m ∧ memory_mb m' = memory_mb m ∧
  Metering.lease_generation m' = Metering.lease_generation m.

Lemma priced_same m m' dim rt eg : meter_same m m' → priced m' dim rt eg = priced m dim rt eg.
Proof. intros (Hv & Hm & _). destruct dim; unfold priced, memory_bytes; congruence. Qed.

(** The invariant survives changes of the machine rows that keep what it reads of
    the metered ones. *)
Lemma meter_inv_machines db db' :
  meter_state db' = meter_state db → observations db' = observations db →
  next_observation_id db' = next_observation_id db → raw_events db' = raw_events db →
  usage_events db' = usage_events db →
  (∀ id st m', meter_state db !! id = Some st → Metering.machines db' !! id = Some m' →
     ∃ m, Metering.machines db !! id = Some m ∧ meter_same m m') →
  (∀ id m', Metering.machines db' !! id = Some m' → 0 <= Metering.vcpus m' ∧ 0 <= memory_mb m') →
  meter_inv db → settled db → meter_inv db' ∧ settled db'.
Proof.
  intros Hms Hobs Hnext Hraw Huse Hrows Hpos Hinv [Hm Hd]. split.
  - constructor.
    + unfold mirrored. rewrite Huse, Hraw. apply Hinv.
    + rewrite Hobs. apply Hinv.
    + rewrite Hobs, Hnext. apply Hinv.
    + rewrite Hobs. apply Hinv.
    + rewrite Hraw. intros e He. unfold consumed. rewrite Hms, Hobs. by apply inv_raw.
    + rewrite Hms. apply Hinv.
    + exact Hpos.
    + rewrite Hms. intros id m' st Hm' Hst. destruct (Hrows id st m' Hst Hm') as (m & Hm0 & Hsame).
      destruct (inv_bill db Hinv id m st Hm0 Hst) as [Hle Hz].
      unfold within_counters, billed in *. rewrite Hraw. split; [|done].
      intros dim. by rewrite (priced_same m).
  - constructor; [by rewrite Hms, Hobs|]. rewrite Hms. intros id m' st Hm' Hst.
    destruct (Hrows id st m' Hst Hm') as (m & Hm0 & _ & _ & Hg).
    rewrite <- (Hd id m st Hm0 Hst). unfold next_pending. by rewrite Hobs, Hg.
Qed.

(** Machines of the fleet only gain rows and keep their identity. *)
Definition fleet_grows (f f' : FleetDb) : Prop :=
  ∀ id m, machines f !! id = Some m → ∃ m', machines f' !! id = Some m' ∧ row_le m m'.

Lemma load_positive t :
  fleet_inv (fleet t) → ∀ id m, Metering.machines (load t) !! id = Some m →
  0 <= Metering.vcpus m ∧ 0 <= memory_mb m.
Proof.
  intros Hinv id m. rewrite load_machine. destruct (machines (fleet t) !! id) as [r|] eqn:Hr; [|done].
  intros [= <-]. simpl.
  split; [apply (fi_positive _ Hinv id r Vcpus Hr)|apply (fi_positive _ Hinv id r MemoryMb Hr)].
Qed.

(** Steps that leave the meters' tables alone. *)
Lemma metering_ok_fleet t t' :
  metering_ok t → fleet_inv (fleet t') → fleet_grows (fleet t) (fleet t') →
  meter_state (meter t') = meter_state (meter t) →
  observations (meter t') = observations (meter t) →
  next_observation_id (meter t') = next_observation_id (meter t) →
  raw_events (meter t') = raw_events (meter t) → usage_events (meter t') = usage_events (meter t) →
  metering_ok t'.
Proof.
  intros [Hinv Hs Hdom] Hfinv Hgrow Hms Hobs Hnext Hraw Huse.
  assert (meter_inv (load t') ∧ settled (load t')) as [? ?]; [|constructor; [done..|]].
  - apply (meter_inv_machines (load t) (load t')); try done; [|by apply load_positive].
    intros id st m' Hst. rewrite !load_machine.
    destruct (Hdom id) as [m Hm]; [by eexists|]. destruct (Hgrow id m Hm) as (m1 & Hm1 & Hle).
    rewrite Hm, Hm1. intros [= <-]. eexists. split; [done|]. unfold meter_same. simpl.
    by rewrite (rl_ident _ _ Hle).
  - intros id. rewrite Hms. intros [m Hm]%Hdom. destruct (Hgrow id m Hm) as (m' & Hm' & _). by eexists.
Qed.

(** Storing what metering did and loading it again gives its machines back. *)
Lemma meter_write_machine r m :
  billing_identity r = billing_identity (meter_machine m) → meter_machine (write_machine r m) = r.
Proof.
  destruct r, m. unfold billing_identity, meter_machine, write_machine. simpl. intros [=]. by subst.
Qed.

Lemma load_store db t :
  billing_identity <$> Metering.machines db = billing_identity <$> Metering.machines (load t) →
  Metering.machines (load (store db t)) = Metering.machines db.
Proof.
  intros Hb. apply map_eq. intros id. rewrite load_machine. simpl. rewrite map_lookup_imap.
  assert (billing_identity <$> Metering.machines db !! id
    = billing_identity <$> (meter_machine <$> machines (fleet t) !! id)) as Hid.
  { rewrite <- load_machine, <- !lookup_fmap. by rewrite Hb. }
  destruct (machines (fleet t) !! id) as [m|] eqn:Hm, (Metering.machines db !! id) as [r|] eqn:Hr;
    simpl in *; try done.
  - apply (inj Some) in Hid. by rewrite meter_write_machine.
Qed.

Lemma store_grows db t : fleet_grows (fleet t) (write_fleet db (fleet t)).
Proof.
  intros id m Hm. rewrite write_fleet_machine, Hm. eexists. split; [done|].
  destruct (Metering.machines db !! id); [|reflexivity]. constructor; try done; simpl; lia.
Qed.

Lemma metering_ok_store db t :
  metering_ok t → preserves (load t) db → handover (load t) db → metering_ok (store db t).
Proof.
  intros [Hinv Hs Hdom] Hp Hh. destruct (Hp Hinv Hs) as (Hinv' & Hs' & _).
  pose proof (load_store db t (ho_machines _ _ Hh)) as Hload.
  assert (same_core db (load (store db t))) as Hcore by (constructor; try done; by rewrite Hload).
  constructor; [by eapply inv_same_core|by eapply settled_same_core|].
  intros id Hid.
  assert (is_Some (machines (fleet t) !! id)) as [m Hm].
  { destruct (ho_meters _ _ Hh id Hid) as [Hst|Hst]; [by apply Hdom|].
    rewrite load_machine in Hst. by apply fmap_is_Some in Hst. }
  destruct (store_grows db t id m Hm) as (m' & Hm' & _). by eexists.
Qed.

(** ** The legacy intervals *)

(** The rows run from [s] to [e] without gap or overlap. *)
Fixpoint chain (s : Z) (l : list OutboxRow) (e : Z) : Prop :=
  match l with
  | [] => s = e
  | o :: l => ob_period_start o = s ∧ s <= ob_period_end o ∧ chain (ob_period_end o) l e
  end.

Lemma chain_snoc s l e o :
  chain s l e → ob_period_start o = e → e <= ob_period_end o → chain s (l ++ [o]) (ob_period_end o).
Proof.
  revert s. induction l as [|x l IH]; intros s; simpl.
  - intros -> ? ?. done.
  - intros (? & ? & Hc) ? ?. split_and!; [done..|]. by apply IH.
Qed.

(** The columns of a row its delivery leaves alone. *)
Definition undelivered (o : OutboxRow) : OutboxRow :=
  mkOutbox (ob_key o) (ob_organization_id o) (ob_project_id o) (ob_machine_id o) (ob_vcpus o)
    (ob_memory_mb o) (ob_period_start o) (ob_period_end o) (ob_final o) (ob_source o) 0 0 0 None None
    None None.

Lemma fmap_cons_eq {A B} (f : A → B) x y l k :
  f <$> x :: l = f <$> y :: k → f x = f y ∧ f <$> l = f <$> k.
Proof. by intros [=]. Qed.

Lemma chain_undelivered s (l l' : list OutboxRow) e : undelivered <$> l' = undelivered <$> l → chain s l e → chain s l' e.
Proof.
  revert s l'. induction l as [|o l IH]; intros s [|o' l'] Hu; try done.
  apply fmap_cons_eq in Hu as [Hu Hl]. simpl.
  assert (ob_period_start o' = ob_period_start o ∧ ob_period_end o' = ob_period_end o) as [-> ->].
  { unfold undelivered in Hu. by injection Hu. }
  intros (? & ? & ?). split_and!; [done..|]. by apply IH.
Qed.

Lemma rows_of_undelivered id (l l' : list OutboxRow) :
  undelivered <$> l' = undelivered <$> l → undelivered <$> rows_of id l' = undelivered <$> rows_of id l.
Proof.
  revert l'. induction l as [|o l IH]; intros [|o' l'] Hu; try done.
  apply fmap_cons_eq in Hu as [Hu Hl]. unfold rows_of in *. simpl.
  assert (ob_machine_id o' = ob_machine_id o) as -> by (unfold undelivered in Hu; by injection Hu).
  destruct (String.eqb _ _); simpl; [|by apply IH]. f_equal; [done|by apply IH].
Qed.

Lemma elem_undelivered (l l' : list OutboxRow) o' :
  undelivered <$> l' = undelivered <$> l → o' ∈ l' → ∃ o, o ∈ l ∧ undelivered o' = undelivered o.
Proof.
  intros Hu Ho. assert (undelivered o' ∈ undelivered <$> l) as Hin.
  { rewrite <- Hu. by apply list_elem_of_fmap_2. }
  apply list_elem_of_fmap in Hin as (o & ? & ?). by exists o.
Qed.

(** The key of a row says its machine and what cut it. *)
Inductive cut_by (o : OutboxRow) : Prop :=
| cut_end : ob_final o = true → ob_key o = final_key (ob_machine_id o) (ob_period_end o) → cut_by o
| cut_checkpoint :
    ob_final o = false → ob_key o = checkpoint_key (ob_machine_id o) (ob_period_end o) → cut_by o
| cut_meter generation :
    ob_final o = false → ob_key o = cutover_key (ob_machine_id o) generation (ob_period_end o) →
    cut_by o.

(** A row against its machine. *)
Record row_of (t : Tables) (o : OutboxRow) (m : MachineRow) : Prop := mkRowOf {
  ro_machine : machines (fleet t) !! ob_machine_id o = Some m;
  ro_vcpus : ob_vcpus o = vcpus (resources (ident m));
  ro_memory : ob_memory_mb o = memoryMb (resources (ident m));
  ro_organization : ob_organization_id o = organization_id (ident m);
  ro_project : ob_project_id o = project_id (ident m);
  ro_period : ob_period_start o <= ob_period_end o;
  ro_source : ob_source o = "reconciler";
  ro_cut : cut_by o;
  ro_metered : meter_started t (ob_machine_id o) = false →
    ∀ g, ob_key o ≠ cutover_key (ob_machine_id o) g (ob_period_end o)
}.

(** The intervals of a machine are a chain; until its meter starts the chain
    runs from the start of the machine to its checkpoint. *)
Definition waiting_ok (l : list OutboxRow) (s e : Z) (m : MachineRow) : Prop :=
  (l = [] ∧ usage_checkpoint_at (usage m) = None) ∨
  (l ≠ [] ∧ 3 <= rank (mstate m) ∧ started_at (life m) = Some s ∧
   usage_checkpoint_at (usage m) = Some e).

Definition chain_ok (t : Tables) (id : string) : Prop :=
  ∃ s e, chain s (rows_of id (outbox t)) e ∧
    (meter_started t id = false → ∀ m, machines (fleet t) !! id = Some m →
       waiting_ok (rows_of id (outbox t)) s e m).

Record intervals_ok (t : Tables) : Prop := mkIntervalsOk {
  in_keys : NoDup (ob_key <$> outbox t);
  in_rows : ∀ o, o ∈ outbox t → ∃ m, row_of t o m;
  in_chain : ∀ id, chain_ok t id
}.

(** Machine identifiers carry no separator. *)
Definition plain_ids (t : Tables) : Prop :=
  ∀ id, is_Some (machines (fleet t) !! id) → no_char ":" id.

(** ** Keys *)

Inductive cut_key (key id : string) : Prop :=
| ck_final stop : key = final_key id stop → cut_key key id
| ck_checkpoint now : key = checkpoint_key id now → cut_key key id
| ck_cutover g b : key = cutover_key id g b → cut_key key id.

Lemma keyed_inj id id' r r' :
  no_char ":" id → no_char ":" id' →
  "machine:" +:+ id +:+ String ":" r = "machine:" +:+ id' +:+ String ":" r' → id = id' ∧ r = r'.
Proof. intros Hid Hid' H%string_app_cancel. by apply split_sep in H. Qed.

Lemma final_key_inj id id' stop key :
  no_char ":" id → no_char ":" id' → cut_key key id' → key = final_key id stop →
  id' = id ∧ key = final_key id' stop.
Proof.
  intros Hid Hid' Hc ->. destruct Hc as [s H|n H|g b H]; symmetry in H;
    apply (keyed_inj id' id) in H as [-> H]; done.
Qed.

Lemma checkpoint_key_inj id id' now key :
  no_char ":" id → no_char ":" id' → cut_key key id' → key = checkpoint_key id now → id' = id.
Proof.
  intros Hid Hid' Hc ->. destruct Hc as [s H|n H|g b H]; symmetry in H;
    by apply (keyed_inj id' id) in H as [-> _].
Qed.

Lemma cutover_key_inj id id' g b key :
  no_char ":" id → no_char ":" id' → cut_key key id' → key = cutover_key id g b → id' = id.
Proof.
  intros Hid Hid' Hc ->. destruct Hc as [s H|n H|g' b' H]; symmetry in H;
    by apply (keyed_inj id' id) in H as [-> _].
Qed.

Lemma final_not_checkpoint id stop now : final_key id stop ≠ checkpoint_key id now.
Proof. unfold final_key, checkpoint_key. intros H%string_app_cancel%string_app_cancel. done. Qed.
Lemma final_not_cutover id stop g b : final_key id stop ≠ cutover_key id g b.
Proof. unfold final_key, cutover_key. intros H%string_app_cancel%string_app_cancel. done. Qed.
Lemma checkpoint_not_cutover id now g b : checkpoint_key id now ≠ cutover_key id g b.
Proof. unfold checkpoint_key, cutover_key. intros H%string_app_cancel%string_app_cancel. done. Qed.

Lemma cut_by_key o : cut_by o → cut_key (ob_key o) (ob_machine_id o).
Proof. intros [_ ->|_ ->|g _ ->]; by econstructor. Qed.

(** No final interval of the machine: its final key is free. *)
Lemma final_key_fresh t id stop :
  intervals_ok t → plain_ids t → is_Some (machines (fleet t) !! id) →
  existsb (λ o, String.eqb (ob_machine_id o) id && ob_final o) (outbox t) = false →
  has_key ob_key (final_key id stop) (outbox t) = false.
Proof.
  intros [_ Hrows _] Hplain Hid Hno. apply has_key_false. intros o Ho Hkey.
  destruct (Hrows o Ho) as (m & [Hm _ _ _ _ _ _ Hcut _]).
  destruct (final_key_inj id (ob_machine_id o) stop (ob_key o)) as [Heq _];
    [by apply Hplain|apply Hplain; by eexists|by apply cut_by_key|done|].
  destruct Hcut as [Hf _|_ Hk|g _ Hk]; rewrite Heq in *.
  - assert (existsb (λ o, String.eqb (ob_machine_id o) id && ob_final o) (outbox t) = true); [|congruence].
    apply existsb_exists. exists o. split; [by apply list_elem_of_In|].
    by rewrite Heq, String.eqb_refl, Hf.
  - rewrite Hkey in Hk. by apply final_not_checkpoint in Hk.
  - rewrite Hkey in Hk. by apply final_not_cutover in Hk.
Qed.

Lemma update_usage_machine id f t :
  machines (fleet (update_usage id f t)) !! id
  = (λ m, m <| usage ::= f |>) <$> machines (fleet t) !! id.
Proof. apply lookup_alter_eq. Qed.

Lemma update_usage_other id f t k :
  k ≠ id → machines (fleet (update_usage id f t)) !! k = machines (fleet t) !! k.
Proof. intros. simpl. by apply lookup_alter_ne. Qed.

(** Rows of the outbox when machines move. *)
Lemma row_of_grows t t' o m :
  fleet_grows (fleet t) (fleet t') →
  (meter_started t' (ob_machine_id o) = false → meter_started t (ob_machine_id o) = false) →
  row_of t o m → ∃ m', row_of t' o m'.
Proof.
  intros Hg Hs [Hm Hv Hmem Ho Hp Hper Hsrc Hcut Hmet]. destruct (Hg _ m Hm) as (m' & Hm' & Hle).
  exists m'. pose proof (rl_ident _ _ Hle) as Hi. constructor; try done; rewrite ?Hi; auto.
Qed.

Lemma update_usage_grows id f t : fleet_grows (fleet t) (fleet (update_usage id f t)).
Proof.
  intros k m Hm. destruct (decide (k = id)) as [->|Hne].
  - rewrite update_usage_machine, Hm. eexists. split; [done|]. constructor; try done; simpl; lia.
  - rewrite update_usage_other by done. exists m. split; [done|reflexivity].
Qed.

Definition checkpointed (id : string) (stop : Z) (t : Tables) : Tables :=
  update_usage id (λ u, u <| usage_checkpoint_at := Some stop |>) t.

(** Cutting a machine's runtime at [stop]. *)
Lemma add_interval t id m s0 stop now key (final : bool) :
  intervals_ok t → machines (fleet t) !! id = Some m → meter_started t id = false →
  3 <= rank (mstate m) → is_Some (started_at (life m)) → usage_start m = Some s0 → s0 <= stop →
  has_key ob_key key (outbox t) = false → key = (if final then final_key else checkpoint_key) id stop →
  intervals_ok (checkpointed id stop
    (set_outbox (λ l, l ++ [interval now key id m s0 stop final]) t)).
Proof.
  intros [Hnd Hrows Hchain] Hm Hmeter Hrank [s Hs] Hstart Hle Hfresh Hkey.
  set (o := interval now key id m s0 stop final).
  set (t' := checkpointed _ _ _).
  assert (outbox t' = outbox t ++ [o]) as Hout by done.
  assert (∀ k, meter_started t' k = meter_started t k) as Hms by done.
  assert (fleet_grows (fleet t) (fleet t')) as Hg by apply (update_usage_grows id _ (set_outbox _ t)).
  constructor.
  - rewrite Hout, fmap_app. apply NoDup_app. split_and!; [done| |apply NoDup_singleton].
    intros k (x & -> & Hx)%list_elem_of_fmap Hin. apply list_elem_of_singleton in Hin.
    rewrite has_key_false in Hfresh. by apply (Hfresh x Hx).
  - intros x. rewrite Hout, elem_of_app, list_elem_of_singleton. intros [Hx| ->].
    + destruct (Hrows x Hx) as [mx Hmx]. by eapply row_of_grows.
    + destruct (Hg id m Hm) as (m' & Hm' & Hrow). exists m'. pose proof (rl_ident _ _ Hrow) as Hi.
      constructor; try done; simpl; rewrite ?Hi; try done.
      * destruct final; [by apply cut_end|by apply cut_checkpoint].
      * intros _ g. rewrite Hkey. destruct final; [apply final_not_cutover|apply checkpoint_not_cutover].
  - intros k. destruct (decide (k = id)) as [->|Hne].
    + destruct (Hchain id) as (s1 & e1 & Hc & Hw). specialize (Hw Hmeter m Hm).
      assert (rows_of id (outbox t') = rows_of id (outbox t) ++ [o]) as Hr.
      { rewrite Hout, rows_of_app. f_equal. apply (rows_of_own o). }
      assert (∃ s2, chain s2 (rows_of id (outbox t) ++ [o]) stop ∧ started_at (life m) = Some s2) as (s2 & Hc2 & Hst).
      { destruct Hw as [[Hnil Hcp]|(_ & _ & Hst & Hcp)]; unfold usage_start in Hstart; rewrite Hcp in Hstart.
        - simpl in Hstart. exists s0. rewrite Hnil. split; [|done]. split_and!; done.
        - injection Hstart as <-. exists s1. split; [|done].
          by apply (chain_snoc s1 (rows_of id (outbox t)) e1 o). }
      exists s2, stop. rewrite Hr. split; [done|]. intros _ m' Hm'. right.
      unfold t', checkpointed in Hm'. rewrite update_usage_machine in Hm'.
      simpl in Hm'. rewrite Hm in Hm'. injection Hm' as <-.
      split_and!; [by destruct (rows_of id (outbox t))|done..].
    + assert (rows_of k (outbox t') = rows_of k (outbox t)) as Hr.
      { rewrite Hout, rows_of_app, (rows_of_other k o), app_nil_r; [done|]. simpl. congruence. }
      destruct (Hchain k) as (s1 & e1 & Hc & Hw). exists s1, e1. rewrite Hr. split; [done|].
      intros Hmk x Hx. unfold t', checkpointed in Hx. rewrite update_usage_other in Hx by done.
      by apply Hw.
Qed.

(** What the chain of a machine depends on. *)
Definition keeps_clock (m : option MachineRow) (m' : MachineRow) : Prop :=
  match m with
  | Some m =>
      usage_checkpoint_at (usage m') = usage_checkpoint_at (usage m) ∧
      (3 <= rank (mstate m) → ∀ s, started_at (life m) = Some s → started_at (life m') = Some s)
  | None => usage_checkpoint_at (usage m') = None
  end.

Lemma usage_from_clock m m' : usage_from m m' → keeps_clock m m'.
Proof. destruct m; [|done]. intros [Hu Hs]. by split; [rewrite Hu|]. Qed.

Lemma no_rows t id :
  (∀ o, o ∈ outbox t → ∃ m, row_of t o m) → machines (fleet t) !! id = None → rows_of id (outbox t) = [].
Proof.
  intros Hrows Hid. apply elem_of_nil_inv. intros o [Ho Hm]%list_elem_of_In%filter_In.
  apply String.eqb_eq in Hm. apply list_elem_of_In, Hrows in Ho as (m & [Hx _ _ _ _ _ _ _ _]). congruence.
Qed.

Lemma row_of_undelivered t o o' m : undelivered o' = undelivered o → row_of t o m → row_of t o' m.
Proof.
  intros Hu [Hm Hv Hmem Ho Hp Hper Hsrc Hcut Hmet].
  destruct o, o'. unfold undelivered in Hu. simpl in *. injection Hu. intros. subst.
  constructor; try done. simpl. destruct Hcut as [? ?|? ?|? ? ?]; simpl in *;
    [by apply cut_end|by apply cut_checkpoint|by eapply cut_meter].
Qed.

(** Steps that only deliver intervals and move machines. *)
Lemma intervals_frame t t' :
  undelivered <$> outbox t' = undelivered <$> outbox t →
  (∀ id, meter_started t' id = meter_started t id) → fleet_grows (fleet t) (fleet t') →
  (∀ id m', machines (fleet t') !! id = Some m' → keeps_clock (machines (fleet t) !! id) m') →
  intervals_ok t → intervals_ok t'.
Proof.
  intros Hu Hs Hg Hclock [Hnd Hrows Hchain].
  constructor.
  - assert (ob_key <$> outbox t' = ob_key <$> outbox t) as ->; [|done].
    assert (∀ l : list OutboxRow, ob_key <$> l = ob_key <$> (undelivered <$> l)) as Hk.
    { intros l. by rewrite <- list_fmap_compose. }
    by rewrite Hk, Hu, <- Hk.
  - intros o' Ho'. destruct (elem_undelivered _ _ _ Hu Ho') as (o & Ho & Heq).
    destruct (Hrows o Ho) as [m Hm]. apply (row_of_grows t t' o' m); [done|by rewrite Hs|].
    by apply (row_of_undelivered t o).
  - intros id. destruct (Hchain id) as (s & e & Hc & Hw).
    pose proof (rows_of_undelivered id _ _ Hu) as Hr. exists s, e.
    split; [by eapply chain_undelivered|]. rewrite Hs. intros Hmeter m' Hm'.
    assert (rows_of id (outbox t') = [] ↔ rows_of id (outbox t) = []) as Hnil.
    { split; intros H0; rewrite H0 in Hr; [symmetry in Hr|]; by apply fmap_nil_inv in Hr. }
    specialize (Hclock id m' Hm'). destruct (machines (fleet t) !! id) as [m|] eqn:Hm.
    + destruct Hclock as [Hcp Hst]. destruct (Hw Hmeter m eq_refl) as [[? ?]|(? & Hrank & ? & ?)].
      * left. split; [by apply Hnil|congruence].
      * right. destruct (Hg id m Hm) as (m1 & Hm1 & Hle). rewrite Hm' in Hm1. injection Hm1 as <-.
        pose proof (rl_rank _ _ Hle). split_and!; [by rewrite Hnil|lia|by apply Hst|congruence].
    + left. split; [|done]. apply Hnil. by apply no_rows.
Qed.

(** ** Enqueueing *)

Lemma sublist_fmap {A B} (f : A → B) l k : l `sublist_of` k → f <$> l `sublist_of` f <$> k.
Proof. induction 1; simpl; by constructor. Qed.

Lemma filter_sublist {A} (p : A → bool) l : List.filter p l `sublist_of` l.
Proof. induction l as [|x l IH]; simpl; [done|]. destruct (p x); by constructor. Qed.

Lemma usage_batch_spec instant p locked t :
  NoDup (usage_batch instant p locked t).*1 ∧
  ∀ id m, (id, m) ∈ usage_batch instant p locked t → machines (fleet t) !! id = Some m ∧ p id m = true.
Proof.
  unfold usage_batch. set (l := List.filter _ _).
  assert (NoDup l.*1) as Hnd.
  { eapply sublist_NoDup; [apply (NoDup_fst_map_to_list (machines (fleet t)))|apply sublist_fmap, filter_sublist]. }
  split.
  - eapply sublist_NoDup; [|apply sublist_fmap, sublist_take].
    by rewrite (sort_by_perm (oldest instant) l).
  - intros id m Hin. apply elem_of_take in Hin as (i & Hin & _).
    apply list_elem_of_lookup_2 in Hin. rewrite (sort_by_perm (oldest instant) l) in Hin.
    apply list_elem_of_In, filter_In in Hin as [Hin Hp]. apply andb_true_iff in Hp as [Hp _].
    split; [|done]. apply elem_of_map_to_list. by apply list_elem_of_In.
Qed.

(** An enqueueing of machine [id] leaves the others alone. *)
Record only (id : string) (t t' : Tables) : Prop := mkOnly {
  on_meters : ∀ k, meter_started t' k = meter_started t k;
  on_machines : ∀ k, k ≠ id → machines (fleet t') !! k = machines (fleet t) !! k;
  on_present : ∀ k, is_Some (machines (fleet t') !! k) ↔ is_Some (machines (fleet t) !! k);
  on_outbox : ∃ new, outbox t' = outbox t ++ new ∧ ∀ o, o ∈ new → ob_machine_id o = id
}.

Lemma only_plain id t t' : only id t t' → plain_ids t → plain_ids t'.
Proof. intros Ho Hp k Hk. apply Hp. by apply (on_present id t t'). Qed.

Lemma only_ends id t t' k m :
  only id t t' → k ≠ id → ends_usage true t' k m = ends_usage true t k m.
Proof.
  intros [Hm _ _ (new & Hout & Hnew)] Hne. unfold ends_usage, legacy_lease. rewrite Hm, Hout, existsb_app.
  assert (existsb (λ o, String.eqb (ob_machine_id o) k && ob_final o) new = false) as ->;
    [|by rewrite orb_false_r].
  apply not_true_iff_false. intros (o & Ho & Hx)%existsb_exists. apply list_elem_of_In, Hnew in Ho.
  apply andb_true_iff in Hx as [Hx _]. apply String.eqb_eq in Hx. congruence.
Qed.

Lemma only_due id now t t' k m :
  only id t t' → checkpoint_due true now t' k m = checkpoint_due true now t k m.
Proof. intros [Hm _ _ _]. unfold checkpoint_due, legacy_lease. by rewrite Hm. Qed.

Lemma update_usage_only id f t new :
  (∀ o, o ∈ new → ob_machine_id o = id) → only id t (update_usage id f (set_outbox (λ l, l ++ new) t)).
Proof.
  intros Hnew. constructor; [done| | |by exists new].
  - intros k Hne. by rewrite update_usage_other.
  - intros k. destruct (decide (k = id)) as [->|Hne].
    + rewrite update_usage_machine. by rewrite fmap_is_Some.
    + by rewrite update_usage_other.
Qed.

Lemma update_usage_only' id f t : only id t (update_usage id f t).
Proof.
  pose proof (update_usage_only id f t [] ltac:(set_solver)) as [Hm Hk Hp _]. constructor; [done..|].
  exists []. split; [by rewrite app_nil_r|set_solver].
Qed.

Lemma quarantine_usage_ok id now reason t :
  intervals_ok t → intervals_ok (update_usage id (quarantine_usage now reason) t).
Proof.
  apply intervals_frame; [done|done|apply update_usage_grows|].
  intros k m'. destruct (decide (k = id)) as [->|Hne].
  - rewrite update_usage_machine. destruct (machines (fleet t) !! id) as [m|]; [|done]. intros [= <-].
    simpl. unfold quarantine_usage. by destruct (usage_quarantined_at (usage m)).
  - rewrite update_usage_other by done. intros ->. done.
Qed.

Definition ended (t : Tables) (kv : string * MachineRow) : Prop :=
  machines (fleet t) !! kv.1 = Some kv.2 ∧ ends_usage true t kv.1 kv.2 = true.

Lemma usage_start_some m : is_Some (started_at (life m)) → ∃ s, usage_start m = Some s.
Proof. intros [s Hs]. unfold usage_start. rewrite Hs. destruct (usage_checkpoint_at (usage m)); by eexists. Qed.

Lemma enqueue_final_ok now kv t :
  intervals_ok t → plain_ids t → ended t kv →
  intervals_ok (enqueue_final now kv t) ∧ only kv.1 t (enqueue_final now kv t).
Proof.
  destruct kv as [id m]. intros Hok Hplain [Hm Hend]. simpl in Hm, Hend. unfold enqueue_final. simpl fst.
  cbv zeta. set (stop := default 0 (stopped_at (life m))).
  destruct (stop <? default 0 (usage_start m)) eqn:E1;
    [split; [by apply quarantine_usage_ok|apply update_usage_only']|].
  destruct (now + 30000 <? stop); [split; [by apply quarantine_usage_ok|apply update_usage_only']|].
  unfold ends_usage, legacy_lease in Hend.
  apply andb_true_iff in Hend as [Hend Hno]. apply negb_true_iff in Hno.
  apply andb_true_iff in Hend as [Hend Hlease]. apply andb_true_iff in Hlease as [Hlease Hmeter].
  apply andb_true_iff in Hlease as [Hstarted _]. apply andb_true_iff in Hend as [Hend _].
  apply andb_true_iff in Hend as [Hterm _].
  apply bool_decide_eq_true in Hstarted. destruct (usage_start_some m Hstarted) as [s0 Hs0].
  rewrite Hs0 in *. simpl in *. apply negb_true_iff in Hmeter.
  assert (has_key ob_key (final_key id stop) (outbox t) = false) as Hfresh.
  { apply final_key_fresh; [done..|by eexists|done]. }
  assert (insert_new ob_key (interval now (final_key id stop) id m s0 stop true) (outbox t)
    = outbox t ++ [interval now (final_key id stop) id m s0 stop true]) as Hins.
  { by apply insert_new_fresh. }
  assert (set_outbox (insert_new ob_key (interval now (final_key id stop) id m s0 stop true)) t
    = set_outbox (λ l, l ++ [interval now (final_key id stop) id m s0 stop true]) t) as ->.
  { unfold set_outbox. simpl. unfold outbox in Hins. by rewrite Hins. }
  split.
  - apply (add_interval t id m s0 stop now (final_key id stop) true); try done; [|lia].
    apply terminal_rank in Hterm. lia.
  - apply update_usage_only. intros o ->%list_elem_of_singleton. done.
Qed.

Lemma enqueue_finals_ok now l t :
  NoDup l.*1 → intervals_ok t → plain_ids t → (∀ kv, kv ∈ l → ended t kv) →
  intervals_ok (foldl (λ t kv, enqueue_final now kv t) t l) ∧
  plain_ids (foldl (λ t kv, enqueue_final now kv t) t l).
Proof.
  revert t. induction l as [|kv l IH]; intros t Hnd Hok Hp Hl; simpl; [done|].
  inversion Hnd as [|? ? Hnin Hnd']; subst.
  destruct (enqueue_final_ok now kv t Hok Hp (Hl kv ltac:(set_solver))) as [Hok1 Honly].
  apply IH; [done|done|by eapply only_plain|].
  intros kv' Hin. destruct (Hl kv' ltac:(set_solver)) as [Hm He].
  assert (kv'.1 ≠ kv.1) as Hne. { intros Heq. apply Hnin. rewrite <- Heq. by apply list_elem_of_fmap_2. }
  split; [by rewrite (on_machines _ _ _ Honly)|by rewrite (only_ends kv.1 t)].
Qed.

Definition due (now : Z) (t : Tables) (kv : string * MachineRow) : Prop :=
  machines (fleet t) !! kv.1 = Some kv.2 ∧ checkpoint_due true now t kv.1 kv.2 = true.

Lemma enqueue_checkpoint_ok now kv t u t' :
  intervals_ok t → plain_ids t → due now t kv → enqueue_checkpoint now kv t = Ok (u, t') →
  intervals_ok t' ∧ only kv.1 t t'.
Proof.
  destruct kv as [id m]. intros Hok Hplain [Hm Hdue]. simpl in Hm, Hdue. unfold enqueue_checkpoint.
  destruct (has_key _ _ _) eqn:Hfresh; [done|]. intros [= _ <-]. simpl fst.
  unfold checkpoint_due, legacy_lease in Hdue.
  apply andb_true_iff in Hdue as [Hdue Hlate]. apply andb_true_iff in Hdue as [Hrun Hlease].
  apply andb_true_iff in Hlease as [Hlease Hmeter]. apply andb_true_iff in Hlease as [Hstarted _].
  apply bool_decide_eq_true in Hstarted, Hrun. apply negb_true_iff in Hmeter.
  destruct (usage_start m) as [s0|] eqn:Hs0; [|done]. simpl.
  split.
  - apply (add_interval t id m s0 now now (checkpoint_key id now) false); try done; [|lia].
    by rewrite Hrun.
  - apply update_usage_only. intros o ->%list_elem_of_singleton. done.
Qed.

Lemma enqueue_checkpoints_ok now l t u t' :
  NoDup l.*1 → intervals_ok t → plain_ids t → (∀ kv, kv ∈ l → due now t kv) →
  each (enqueue_checkpoint now) l t = Ok (u, t') → intervals_ok t'.
Proof.
  revert t. induction l as [|kv l IH]; intros t Hnd Hok Hp Hl; simpl.
  { by intros [= _ <-]. }
  intros (u1 & t1 & E1 & E2)%tx_bind_Ok. inversion Hnd as [|? ? Hnin Hnd']; subst.
  destruct (enqueue_checkpoint_ok now kv t u1 t1 Hok Hp (Hl kv ltac:(set_solver)) E1) as [Hok1 Honly].
  apply (IH t1); [done|done|by eapply only_plain| |done].
  intros kv' Hin. destruct (Hl kv' ltac:(set_solver)) as [Hm He].
  assert (kv'.1 ≠ kv.1) as Hne. { intros Heq. apply Hnin. rewrite <- Heq. by apply list_elem_of_fmap_2. }
  split; [by rewrite (on_machines _ _ _ Honly)|by rewrite (only_due kv.1 now t)].
Qed.

Lemma enqueue_intervals_ok now locked t :
  intervals_ok t → plain_ids t → intervals_ok (commits (enqueueUsageIntervals now true locked) t).
Proof.
  intros Hok Hp.
  destruct (commits_cases (enqueueUsageIntervals now true locked) t) as [->|[u E]]; [done|].
  unfold enqueueUsageIntervals in E at 1. cbv zeta in E. unfold enqueue_ended in E.
  destruct (usage_batch_spec (λ m, stopped_at (life m)) (ends_usage true t) locked t) as [Hnd1 Hb1].
  destruct (enqueue_finals_ok now _ t Hnd1 Hok Hp) as [Hok1 Hp1]; [intros [id m]; apply Hb1|].
  set (t1 := foldl _ t _) in *.
  destruct (usage_batch_spec usage_start (checkpoint_due true now t1) locked t1) as [Hnd2 Hb2].
  eapply enqueue_checkpoints_ok; [exact Hnd2|exact Hok1|exact Hp1| |exact E]. intros [id m]. apply Hb2.
Qed.

(** ** Metering *)

Lemma started_load t id : started (load t) id = meter_started t id.
Proof. done. Qed.

Lemma handed_started id db db' : handed id db db' → started db' id = false → started db id = false.
Proof. intros [] ?; congruence. Qed.

(** The row the meter adds describes its machine. *)
Lemma cutover_row_of t now id m l b :
  billing_identity <$> Metering.machines (load t) !! id = Some (billing_identity m) → l < b →
  ∃ mf, machines (fleet t) !! id = Some mf ∧
    ob_vcpus (cutover_row now id m l b) = vcpus (resources (ident mf)) ∧
    ob_memory_mb (cutover_row now id m l b) = memoryMb (resources (ident mf)) ∧
    ob_organization_id (cutover_row now id m l b) = organization_id (ident mf) ∧
    ob_project_id (cutover_row now id m l b) = project_id (ident mf).
Proof.
  rewrite load_machine. destruct (machines (fleet t) !! id) as [mf|]; [|done].
  intros Hb Hlt. apply (inj Some) in Hb. exists mf. split; [done|].
  destruct m. unfold billing_identity, meter_machine in Hb. simpl in Hb. injection Hb. intros. subst.
  unfold cutover_row, new_outbox_row, memory_bytes, bytesPerMebibyte. simpl.
  split_and!; try done. by rewrite Z.quot_mul.
Qed.

Lemma elem_rows_of o l : o ∈ l → o ∈ rows_of (ob_machine_id o) l.
Proof.
  intros Ho. apply list_elem_of_In, filter_In. split; [by apply list_elem_of_In|apply String.eqb_refl].
Qed.

Lemma rows_of_elem id o l : o ∈ rows_of id l → o ∈ l ∧ ob_machine_id o = id.
Proof. intros [Ho Hid]%list_elem_of_In%filter_In. apply String.eqb_eq in Hid. by apply list_elem_of_In in Ho. Qed.

(** A row metering added belongs to a machine whose meter has started. *)
Lemma new_row_started db db' new o :
  usage_outbox db' = usage_outbox db ++ new → o ∈ new → handed (ob_machine_id o) db db' →
  started db' (ob_machine_id o) = true.
Proof.
  intros Hout Ho Hh. destruct Hh as [? ? R|A B R C|? ? ? R|]; try done.
  rewrite Hout, rows_of_app in R. apply (f_equal length) in R. rewrite length_app in R.
  apply elem_rows_of in Ho. destruct (rows_of (ob_machine_id o) new); [by apply elem_of_nil in Ho|].
  simpl in R. lia.
Qed.

(** The cutover key of a machine whose meter has not started is free. *)
Lemma cutover_key_fresh t db id m g b :
  intervals_ok t → plain_ids t → handover (load t) db → machines (fleet t) !! id = Some m →
  meter_started t id = false → rows_of id (usage_outbox db) = rows_of id (outbox t) →
  ∀ o, o ∈ usage_outbox db → ob_key o ≠ cutover_key id g b.
Proof.
  intros [_ Hrows _] Hplain Hh Hid Hmeter Hsame o Ho Hkey.
  assert (ob_machine_id o = id → False) as Hno.
  { intros Heq. apply elem_rows_of in Ho. rewrite Heq, Hsame in Ho.
    apply rows_of_elem in Ho as [Ho _]. destruct (Hrows o Ho) as (x & [_ _ _ _ _ _ _ Hcut Hmet]).
    rewrite Heq in *. destruct Hcut as [_ Hk|_ Hk|g' _ Hk].
    - rewrite Hkey, Heq in Hk. symmetry in Hk. by apply final_not_cutover in Hk.
    - rewrite Hkey, Heq in Hk. symmetry in Hk. by apply checkpoint_not_cutover in Hk.
    - apply (Hmet Hmeter g'). by rewrite <- Heq. }
  apply Hno. destruct (ho_outbox _ _ Hh) as (new & Hout & Hnew). rewrite Hout in Ho.
  apply elem_of_app in Ho as [Ho|Ho].
  - destruct (Hrows o Ho) as (x & [Hx _ _ _ _ _ _ Hcut _]).
    apply (cutover_key_inj id (ob_machine_id o) g b (ob_key o)); [apply Hplain; by eexists..| |done].
    by apply cut_by_key.
  - destruct (Hnew o Ho) as (now & id' & m' & l' & b' & -> & Hlt & Hm'). simpl in *.
    destruct (cutover_row_of t now id' m' l' b' Hm' Hlt) as (mf & Hmf & _).
    apply (cutover_key_inj id id' g b (cutover_key id' (Metering.lease_generation m') b'));
      [apply Hplain; by eexists..|by eapply ck_cutover|done].
Qed.

Lemma intervals_handover t db :
  intervals_ok t → plain_ids t → handover (load t) db → intervals_ok (store db t).
Proof.
  intros Hok Hplain Hh. pose proof Hok as [Hnd Hrows Hchain]. pose proof Hh as [He Hm _ Hk (new & Hout & Hnew)].
  assert (outbox (store db t) = outbox t ++ new) as Hout' by exact Hout.
  constructor.
  - by apply Hk.
  - intros o. rewrite Hout', elem_of_app. intros [Ho|Ho].
    + destruct (Hrows o Ho) as [m Hro]. eapply row_of_grows; [apply store_grows| |exact Hro].
      apply (handed_started _ (load t) db), He.
    + pose proof (new_row_started (load t) db new o Hout Ho (He _)) as Hst.
      destruct (Hnew o Ho) as (now & id & m & l & b & -> & Hlt & Hid). simpl in *.
      destruct (cutover_row_of t now id m l b Hid Hlt) as (mf & Hmf & Hv & Hmem & Hog & Hpr).
      destruct (store_grows db t id mf Hmf) as (m' & Hm' & Hle). exists m'.
      pose proof (rl_ident _ _ Hle) as Hi.
      constructor; rewrite ?Hi; try done; simpl.
      * lia.
      * by eapply cut_meter.
      * intros Hf. exfalso. assert (meter_started (store db t) id = started db id) as Hs by done. congruence.
  - intros id. destruct (Hchain id) as (s & e & Hc & Hw). pose proof (He id) as Hid.
    assert (meter_started (store db t) id = started db id) as Hms by done.
    destruct Hid as [A B R|A B R C|? A B R|now m l b A B Hm0 Hl Hlt R].
    + exists s, e. split; [unfold outbox; simpl; by rewrite R|]. congruence.
    + exists s, e. split; [unfold outbox; simpl; by rewrite R|]. intros _ m'.
      change (machines (fleet (store db t)) !! id) with (machines (write_fleet db (fleet t)) !! id).
      rewrite write_fleet_machine. destruct (machines (fleet t) !! id) as [mf|] eqn:Hmf; [|done].
      rewrite load_machine, Hmf in C. specialize (Hw A mf eq_refl). intros [= <-].
      unfold outbox. simpl. rewrite R. destruct (Metering.machines db !! id) as [r|]; [|done].
      apply (inj Some) in C. assert (Metering.usage_checkpoint_at r = usage_checkpoint_at (usage mf)) as Hcp.
      { by injection C. }
      destruct Hw as [[? ?]|(? & ? & ? & ?)]; [left|right]; simpl; rewrite Hcp; done.
    + exists s, e. split; [unfold outbox; simpl; by rewrite R|]. congruence.
    + rewrite load_machine in Hm0. destruct (machines (fleet t) !! id) as [mf|] eqn:Hmf; [|done].
      injection Hm0 as <-. specialize (Hw A mf eq_refl).
      destruct R as [R|(R & o & Ho & Hkey)].
      2:{ exfalso. by eapply (cutover_key_fresh t db id mf). }
      assert (∃ s', chain s' (rows_of id (outbox t) ++ [cutover_row now id (meter_machine mf) l b]) b)
        as [s' Hc'].
      { unfold legacy_start in Hl. simpl in Hl. destruct Hw as [[Hnil Hcp]|(_ & _ & Hst & Hcp)];
          rewrite Hcp in Hl; simpl in Hl.
        - exists l. rewrite Hnil. simpl. split_and!; [done|lia|done].
        - injection Hl as <-. exists s.
          apply (chain_snoc s _ e (cutover_row now id (meter_machine mf) e b)); [done|done|simpl; lia]. }
      exists s', b. split; [unfold outbox; simpl; by rewrite R|]. congruence.
Qed.
