(* ===== verification/SystemSteps.v ===== *)
(** * The invariants of the system through its steps

    Every step of [System] keeps the fleet's invariant, the metering invariant of
    the loaded tables, the chains of legacy intervals and the ledger. *)

From Stdlib Require QArith.
From S2P Require Import Prelude Text Metering MeteringFacts MeteringInv MeteringTheorems.
From S2P Require Import MeteringHandover Capacity Lifecycle Billing Fleet Scheduler MachineRepo.
From S2P Require Import ForkRepo ReconcileDb FleetInv FleetSteps FleetHard FleetForks FleetStep.
From S2P Require Import FleetKeys FleetTheorems Tables UsageOutbox System SystemInv.

(** ** The ledger *)

(** Each event recorded belongs to an interval, and a processed interval is
    recorded whole. *)
Record ledger_ok (t : Tables) : Prop := mkLedgerOk {
  lg_keys : NoDup (ue_key <$> recorded t);
  lg_rows : ∀ e, e ∈ recorded t → ∃ o, o ∈ outbox t ∧ e ∈ outbox_rows o;
  lg_processed : ∀ o e, o ∈ outbox t → is_Some (ob_processed_at o) → e ∈ outbox_events o →
    event_row e ∈ recorded t
}.

Lemma outbox_events_undelivered o o' : undelivered o' = undelivered o → outbox_events o' = outbox_events o.
Proof.
  destruct o, o'. unfold undelivered. simpl. intros Hu. injection Hu. intros. by subst.
Qed.

Lemma undelivered_key o o' : undelivered o' = undelivered o → ob_key o' = ob_key o.
Proof. unfold undelivered. by intros [=]. Qed.

(** The key of a row's event in the ledger is that event. *)
Lemma recorded_event t o e :
  NoDup (ob_key <$> outbox t) → ledger_ok t → o ∈ outbox t → e ∈ outbox_events o →
  has_key ue_key (eventKey e) (recorded t) = true → event_row e ∈ recorded t.
Proof.
  intros Hnd [_ Hrows _] Ho He (e' & He' & Hk)%has_key_true.
  destruct (Hrows e' He') as (o' & Ho' & (ev & -> & Hev)%outbox_rows_elem).
  destruct (event_inj o' o ev e Hev He Hk) as [Hkey Heq].
  by rewrite <- (Heq (NoDup_key_inj ob_key _ _ _ Hnd Ho' Ho Hkey)).
Qed.

(** New intervals come unprocessed. *)
Lemma ledger_new t t' new :
  recorded t' = recorded t → outbox t' = outbox t ++ new →
  (∀ o, o ∈ new → ob_processed_at o = None) → ledger_ok t → ledger_ok t'.
Proof.
  intros Hr Ho Hnew [Hk Hrows Hp]. constructor; rewrite ?Hr, ?Ho.
  - done.
  - intros e (o & Hin & He)%Hrows. exists o. set_solver.
  - intros o e [Hin|Hin]%elem_of_app; [by eauto|]. rewrite (Hnew o Hin). by intros [? ?].
Qed.

Lemma ledger_same t t' : recorded t' = recorded t → outbox t' = outbox t → ledger_ok t → ledger_ok t'.
Proof. intros Hr Ho. apply (ledger_new t t' []); [done|by rewrite app_nil_r|set_solver]. Qed.

(** Deliveries change the rows, not their events. *)
Lemma ledger_deliver t t' (f : OutboxRow → OutboxRow) :
  recorded t' = recorded t → outbox t' = map f (outbox t) →
  (∀ o, undelivered (f o) = undelivered o) →
  (∀ o, o ∈ outbox t → is_Some (ob_processed_at (f o)) →
     is_Some (ob_processed_at o) ∨ ∀ e, e ∈ outbox_events o → event_row e ∈ recorded t) →
  ledger_ok t → ledger_ok t'.
Proof.
  intros Hr Ho Hu Hdone [Hk Hrows Hp]. constructor; rewrite ?Hr, ?Ho; [done| |].
  - intros e (o & Hin & He)%Hrows. exists (f o). split; [by apply list_elem_of_fmap_2|].
    unfold outbox_rows. by rewrite (outbox_events_undelivered o).
  - intros o' e (o & -> & Hin)%list_elem_of_fmap Hproc He.
    rewrite (outbox_events_undelivered o) in He by done. destruct (Hdone o Hin Hproc); eauto.
Qed.

Lemma map_undelivered (f : OutboxRow → OutboxRow) l :
  (∀ o, undelivered (f o) = undelivered o) → undelivered <$> map f l = undelivered <$> l.
Proof. intros Hf. induction l as [|o l IH]; [done|]. simpl. by f_equal. Qed.

Lemma append_cases e t :
  commits (append e) t = t ∨ commits (append e) t = t <| recorded ::= insert_new ue_key (event_row e) |>.
Proof. unfold commits, transaction, append. repeat case_match; simplify_eq/=; auto. Qed.

Lemma ledger_append t o e :
  o ∈ outbox t → e ∈ outbox_events o → ledger_ok t → ledger_ok (t <| recorded ::= insert_new ue_key (event_row e) |>).
Proof.
  intros Ho He [Hk Hrows Hp]. constructor; simpl.
  - by apply insert_new_NoDup.
  - intros e' [Hin| ->]%insert_new_elem; [by apply Hrows|exists o; split; [done|by apply outbox_rows_elem; exists e]].
  - intros o' e' Ho' Hproc He'. apply insert_new_incl. by apply (Hp o').
Qed.

(** ** Enqueueing *)

(** What one row of the enqueueing leaves to the ledger and the meters. *)
Record enqueues (t t' : Tables) : Prop := mkEnqueues {
  eq_recorded : recorded t' = recorded t;
  eq_outbox : ∃ new, outbox t' = outbox t ++ new ∧ ∀ o, o ∈ new → ob_processed_at o = None;
  eq_meter : ∃ l, meter t' = (meter t) <| usage_outbox := l |>;
  eq_fleet : environment (fleet t) (fleet t')
}.

#[export] Instance enqueues_refl : Reflexive enqueues.
Proof.
  intros t. constructor; [done| | |apply environment_refl].
  - exists []. split; [by rewrite app_nil_r|set_solver].
  - exists (usage_outbox (meter t)). by destruct (meter t).
Qed.

#[export] Instance enqueues_trans : Transitive enqueues.
Proof.
  intros t1 t2 t3 [R1 (n1 & O1 & N1) (l1 & M1) E1] [R2 (n2 & O2 & N2) (l2 & M2) E2].
  constructor; [congruence| | |by eapply environment_trans].
  - exists (n1 ++ n2). rewrite O2, O1, app_assoc. split; [done|]. intros o [?|?]%elem_of_app; auto.
  - exists l2. by rewrite M2, M1.
Qed.

Lemma update_usage_enqueues id f t : enqueues t (update_usage id f t).
Proof.
  constructor; [done| | |apply update_usage_environment].
  - exists []. split; [by rewrite app_nil_r|set_solver].
  - exists (usage_outbox (meter t)). simpl. by destruct (meter t).
Qed.

Lemma set_outbox_enqueues f t new :
  f (outbox t) = outbox t ++ new → (∀ o, o ∈ new → ob_processed_at o = None) →
  enqueues t (set_outbox f t).
Proof.
  intros Hf Hnew. constructor; [done| | |apply environment_refl].
  - by exists new.
  - by eexists.
Qed.

Lemma enqueue_final_enqueues now kv t : enqueues t (enqueue_final now kv t).
Proof.
  destruct kv as [id m]. unfold enqueue_final.
  destruct (_ <? _); [apply update_usage_enqueues|].
  destruct (_ <? _); [apply update_usage_enqueues|].
  etransitivity; [|apply update_usage_enqueues]. set (o := interval _ _ _ _ _ _ _).
  destruct (has_key ob_key (ob_key o) (outbox t)) eqn:E.
  - apply (set_outbox_enqueues _ t []); [rewrite app_nil_r; by apply insert_new_present|set_solver].
  - apply (set_outbox_enqueues _ t [o]); [by apply insert_new_fresh|].
    by intros ? ->%list_elem_of_singleton.
Qed.

Lemma enqueue_checkpoint_enqueues now kv t u t' :
  enqueue_checkpoint now kv t = Ok (u, t') → enqueues t t'.
Proof.
  destruct kv as [id m]. unfold enqueue_checkpoint. destruct (has_key _ _ _); [done|]. intros [= _ <-].
  etransitivity; [|apply update_usage_enqueues]. eapply set_outbox_enqueues; [done|].
  by intros ? ->%list_elem_of_singleton.
Qed.

Lemma enqueue_finals_enqueues now l t : enqueues t (foldl (λ t kv, enqueue_final now kv t) t l).
Proof.
  revert t. induction l as [|kv l IH]; intros t; simpl; [reflexivity|].
  etransitivity; [apply enqueue_final_enqueues|apply IH].
Qed.

Lemma enqueue_enqueues now exclude locked t :
  enqueues t (commits (enqueueUsageIntervals now exclude locked) t).
Proof.
  destruct (commits_cases (enqueueUsageIntervals now exclude locked) t) as [->|[u E]]; [reflexivity|].
  unfold enqueueUsageIntervals in E at 1. cbv zeta in E.
  transitivity (enqueue_ended now exclude locked t).
  - apply enqueue_finals_enqueues.
  - revert E. generalize (enqueue_ended now exclude locked t).
    generalize (commits (enqueueUsageIntervals now exclude locked) t).
    intros t' t1. generalize (usage_batch usage_start (checkpoint_due exclude now t1) locked t1).
    intros l. revert t1. induction l as [|kv l IH]; intros t1; simpl; [by intros [= _ <-]|].
    intros (u1 & t2 & E1 & E2)%tx_bind_Ok.
    etransitivity; [by eapply enqueue_checkpoint_enqueues|by apply IH].
Qed.

(** ** Every step *)

Record system_inv (t : Tables) : Prop := mkSystemInv {
  si_fleet : fleet_inv (fleet t);
  si_meter : metering_ok t;
  si_intervals : intervals_ok t;
  si_ledger : ledger_ok t
}.

Lemma le_grows f f' : fleet_le f f' → fleet_grows f f'.
Proof. intros Hle id m Hm. by apply (fl_machines _ _ Hle). Qed.

Lemma grows_plain t t' : fleet_grows (fleet t) (fleet t') → plain_ids t' → plain_ids t.
Proof. intros Hg Hp id [m Hm]. destruct (Hg id m Hm) as (m' & Hm' & _). apply Hp. by eexists. Qed.

Lemma enqueues_started t t' id : enqueues t t' → meter_started t' id = meter_started t id.
Proof. intros [_ _ [l Hl] _]. unfold meter_started. by rewrite Hl. Qed.

(** What a metering transaction must keep for the system to keep its invariant. *)
Lemma metered_inv {A} (m : Tx MeterDb MeteringError A) t :
  (∀ a db, m (load t) = Ok (a, db) → preserves (load t) db ∧ handover (load t) db) →
  fleet_inv (fleet (commits (on_meter m) t)) → plain_ids t →
  system_inv t → system_inv (commits (on_meter m) t).
Proof.
  intros Hm Hfi Hplain [Hf Hmo Hi Hl]. unfold commits, transaction, on_meter in *.
  destruct (m (load t)) as [[a db]|e] eqn:E; simpl in *; [|by constructor].
  destruct (Hm a db eq_refl) as [Hp Hh]. constructor; [done|by apply metering_ok_store|by apply intervals_handover|].
  destruct (ho_outbox _ _ Hh) as (new & Hout & Hnew).
  apply (ledger_new t (store db t) new); [done|exact Hout| |done].
  intros o Ho. by destruct (Hnew o Ho) as (? & ? & ? & ? & ? & -> & _).
Qed.

Section steps.
Context (sha256 : string → string) (Date_parse : string → option Z).
Context `{BillingAdmission FleetDb} (created : Identity → Prop) (Hc : created_ok created).
Abbreviation system_step := (system_step sha256 Date_parse created).

(** Moves of the machines and deliveries: the meters stand. *)
Lemma moved_inv t t' :
  meter_state (meter t') = meter_state (meter t) →
  observations (meter t') = observations (meter t) →
  next_observation_id (meter t') = next_observation_id (meter t) →
  raw_events (meter t') = raw_events (meter t) → usage_events (meter t') = usage_events (meter t) →
  fleet_inv (fleet t') → fleet_grows (fleet t) (fleet t') →
  (∀ id m', machines (fleet t') !! id = Some m' → keeps_clock (machines (fleet t) !! id) m') →
  undelivered <$> outbox t' = undelivered <$> outbox t → ledger_ok t' →
  system_inv t → system_inv t'.
Proof.
  intros H1 H2 H3 H4 H5 Hf Hg Hk Hu Hl [_ Hmo Hi _]. constructor; [done| | |done].
  - by eapply metering_ok_fleet.
  - eapply intervals_frame; [exact Hu| |exact Hg|exact Hk|exact Hi].
    intros id. unfold meter_started. by rewrite H1.
Qed.

Lemma system_step_grows t t' :
  fleet_inv (fleet t) → system_step t t' → fleet_inv (fleet t') ∧ fleet_grows (fleet t) (fleet t').
Proof.
  intros Hf Hs%system_step_fleet.
  destruct (step_preserves created (λ i Hi, proj1 (Hc i Hi)) (λ i d Hi, proj2 (Hc i Hi) d)
    _ _ Hf Hs) as [? Hle]. split; [done|by apply le_grows].
Qed.

Lemma keeps_same (ms : gmap string MachineRow) id m : ms !! id = Some m → keeps_clock (ms !! id) m.
Proof. by intros ->. Qed.

(** A change of usage columns that leaves the checkpoint. *)
Lemma alter_keeps (f : UsageColumns → UsageColumns) (ms : gmap string MachineRow) k id m' :
  (∀ u, usage_checkpoint_at (f u) = usage_checkpoint_at u) →
  alter (λ m, m <| usage ::= f |>) k ms !! id = Some m' → keeps_clock (ms !! id) m'.
Proof.
  intros Hf [(<- & m & -> & ->)|[_ ->]]%lookup_alter_Some; [|done]. simpl. by rewrite Hf.
Qed.

Lemma held_by_processed key token o : held_by key token o = true → ob_key o = key ∧ ob_processed_at o = None.
Proof.
  unfold held_by. intros [[Hk _]%andb_true_iff Hp]%andb_true_iff.
  split; [by apply String.eqb_eq|by apply bool_decide_eq_true in Hp].
Qed.

Lemma elsewhere_rows f f' id m' :
  elsewhere f f' → machines f' !! id = Some m' → machines f !! id = Some m'.
Proof.
  intros [[He _ _ _ _] Hu] Hm'. specialize (He id). specialize (Hu id). rewrite Hm' in *.
  inversion He as [m ? [u ->] Hm|]; subst. rewrite <- Hm in *. simpl in Hu. injection Hu as ->.
  by destruct m.
Qed.

Lemma settle_inv now row token t :
  row ∈ outbox t → delivered row t → fleet_inv (fleet (commits (settleUsage now (ob_key row) token (ob_machine_id row)) t)) →
  fleet_grows (fleet t) (fleet (commits (settleUsage now (ob_key row) token (ob_machine_id row)) t)) →
  system_inv t → system_inv (commits (settleUsage now (ob_key row) token (ob_machine_id row)) t).
Proof.
  intros Hrow Hd. unfold commits, transaction, settleUsage.
  destruct (existsb _ _); simpl; [|done].
  set (f := λ o, if held_by (ob_key row) token o then settled_delivery now o else o).
  intros Hf Hg Hinv. pose proof Hinv as [_ _ Hi Hl].
  assert (∀ o, undelivered (f o) = undelivered o) as Hu by (intros o; unfold f; by destruct (held_by _ _ o)).
  assert (∀ t', recorded t' = recorded t → outbox t' = map f (outbox t) → ledger_ok t') as Hled.
  { intros t' Hr Ho. apply (ledger_deliver t t' f); [done..| |done].
    intros o Hin. unfold f. destruct (held_by _ _ o) eqn:E; [|by left]. intros _. right. intros e He.
    apply held_by_processed in E as [Hk _].
    assert (o = row) as -> by (eapply (NoDup_key_inj ob_key); [apply Hi|done..]).
    eapply recorded_event; [apply Hi|done..|]. by apply Hd. }
  destruct (fully_delivered _ _);
    (eapply (moved_inv t); [done|done|done|done|done|exact Hf|exact Hg| |by apply map_undelivered|by apply Hled|done]).
  - intros id m' Hm'. 
    eapply (alter_keeps (λ u, u <| usage_finalized_at := coalesce (usage_finalized_at u) (Some now) |>)); [done|exact Hm'].
  - intros id m' Hm'. by eapply keeps_same.
Qed.

(** Changes of a row that its delivery owns. *)
Lemma deliver_inv t (f : OutboxRow → OutboxRow) :
  (∀ o, undelivered (f o) = undelivered o) →
  (∀ o, is_Some (ob_processed_at (f o)) → is_Some (ob_processed_at o)) →
  system_inv t → system_inv (set_outbox (map f) t).
Proof.
  intros Hu Hp Hinv. pose proof Hinv as [Hf _ _ Hl].
  eapply (moved_inv t); [done|done|done|done|done|exact Hf| | |by apply map_undelivered| |done].
  - intros id m Hm. exists m. split; [done|reflexivity].
  - intros id m' Hm'. by eapply keeps_same.
  - apply (ledger_deliver t _ f); auto.
Qed.

Lemma system_step_inv t t' : system_inv t → plain_ids t → system_step t t' → system_inv t'.
Proof.
  intros Hinv Hplain Hs. pose proof Hinv as [Hf Hmo Hi Hl].
  destruct (system_step_grows t t' Hf Hs) as [Hf' Hg'].
  destruct Hs as [c Hp|f hs He|interval clock host generation inputs|now id lease|now locked
    |now token locked|row e Hrow Hev|now row token Hrow Hd|now key token error attempts].
  - eapply (moved_inv t); [done|done|done|done|done|exact Hf'|exact Hg'| |done|by apply (ledger_same t)|done].
    intros id m' Hm'. apply usage_from_clock. exact (exec_usage created c (fleet t) Hp id m' Hm').
  - eapply (moved_inv t); [done|done|done|done|done|exact Hf'|exact Hg'| |done|by apply (ledger_same t)|done].
    intros id m' Hm'. eapply keeps_same. by eapply elsewhere_rows.
  - apply metered_inv; [|done..]. intros a db E.
    split; [by eapply ingest_preserves|eapply ingest_handover; [apply Hmo..|exact E]].
  - apply metered_inv; [|done..]. intros a db E.
    split; [by eapply closeHostLoss_preserves|by eapply closeHostLoss_handover].
  - pose proof (enqueue_enqueues now true locked t) as [Hr (new & Ho & Hnew) [l Hm] _].
    constructor; [done| | |by apply (ledger_new t _ new)].
    + eapply metering_ok_fleet; [done|done|done|by rewrite Hm..].
    + by apply enqueue_intervals_ok.
  - apply (deliver_inv t (λ o, if string_in (ob_key o) _ then claimed_delivery now token o else o)); [| |done];
      intros o; by destruct (string_in _ _).
  - destruct (append_cases e t) as [Ht|Ht]; rewrite Ht in *; [done|].
    eapply (moved_inv t); [done|done|done|done|done|exact Hf'|exact Hg'| |done|by apply (ledger_append t row e)|done].
    intros id m' Hm'. by eapply keeps_same.
  - by apply settle_inv.
  - apply (deliver_inv t (λ o, if held_by key token o then _ else o)); [| |done];
      intros o; by destruct (held_by _ _ _).
Qed.

Lemma system_steps_grow t t' :
  fleet_inv (fleet t) → system_steps sha256 Date_parse created t t' → fleet_grows (fleet t) (fleet t').
Proof.
  intros Hf Hs. apply le_grows.
  apply (steps_preserve created (λ i Hi, proj1 (Hc i Hi)) (λ i d Hi, proj2 (Hc i Hi) d) _ _ Hf).
  by eapply system_steps_fleet.
Qed.

(** Every reachable state, as long as machine identifiers carry no separator. *)
Lemma system_steps_inv t t' :
  system_inv t → system_steps sha256 Date_parse created t t' → plain_ids t' → system_inv t'.
Proof.
  intros Hinv Hs Hplain. revert Hinv. induction Hs as [t|t t1 t' Hstep Hrest IH]; intros Hinv; [done|].
  destruct (system_step_grows t t1 (si_fleet t Hinv) Hstep) as [Hf1 Hg].
  apply IH; [done|]. eapply system_step_inv; [done| |done].
  apply (grows_plain t t1); [done|]. eapply grows_plain; [|exact Hplain]. by apply system_steps_grow.
Qed.
End steps.

(** ** The empty tables *)

Record system_start (t : Tables) : Prop := mkSystemStart {
  st_fleet : fleet_start (fleet t);
  st_states : meter_state (meter t) = ∅;
  st_observations : observations (meter t) = [];
  st_raw : raw_events (meter t) = [];
  st_usage : usage_events (meter t) = [];
  st_outbox : usage_outbox (meter t) = [];
  st_recorded : recorded t = []
}.

Lemma system_start_inv t : system_start t → system_inv t.
Proof.
  intros [Hf Hst Hob Hraw Hus Hout Hrec]. pose proof (start_inv _ Hf) as [Hfi _].
  assert (machines (fleet t) = ∅) as Hm by apply Hf.
  constructor; [done| | |].
  - constructor.
    + constructor; simpl; rewrite ?Hst, ?Hob, ?Hraw, ?Hus, ?Hm; try done; try apply NoDup_nil_2;
        try (by intros ? ?%elem_of_nil); try (by intros *; rewrite ?fmap_empty, lookup_empty).
      unfold mirrored. simpl. by rewrite Hus, Hraw.
    + constructor; simpl; rewrite ?Hst, ?Hob, ?Hm; [by intros ? ?%elem_of_nil || done|].
      intros id m st. by rewrite fmap_empty, lookup_empty.
    + intros id. rewrite Hst, lookup_empty. by intros [? ?].
  - assert (outbox t = []) as Ho by done. constructor; rewrite ?Ho.
    + apply NoDup_nil_2.
    + by intros ? ?%elem_of_nil.
    + intros id. exists 0, 0. rewrite Ho. split; [done|]. intros _ m. by rewrite Hm, lookup_empty.
  - assert (outbox t = []) as Ho by done. constructor; rewrite ?Hrec, ?Ho.
    + apply NoDup_nil_2.
    + by intros ? ?%elem_of_nil.
    + by intros ? ? ?%elem_of_nil.
Qed.

(** * A small system

    The fleet of [FleetKeys] with its usage producer: a machine runs, an interval
    of it is cut, claimed, recorded and settled. *)

Definition demo_meters : MeterDb :=
  mkMeterDb ∅ {[ "h1" := MeteringTheorems.demo_host ]} ∅ [] 1 [] [] [] [] [] [].

Definition sys_start : Tables := mkTables FleetKeys.demo_start demo_meters [].

(** The machine runs from 3000. *)
Definition on (c : Command) (t : Tables) : Tables := t <| fleet := exec c (fleet t) |>.
Definition sys_requested : Tables :=
  on (InsertRequested 1000 demo_machine (demo_identity demo_lease "key1") 3600000 "u1") sys_start.
Definition sys_claimed : Tables := on (ClaimCreate 1000 demo_machine "token") sys_requested.
Definition sys_placed : Tables := on (Reserve 2000 ∅ (demo_request demo_machine)) sys_claimed.
Definition sys_running : Tables :=
  on (ObserveHost 3000 3000 demo_machine (demo_host_machine "m-0123abcd" demo_lease) "u2") sys_placed.

(** Its runtime is cut at 400000, and the interval claimed, recorded, settled. *)
Definition sys_due : Tables := commits (enqueueUsageIntervals 400000 true ∅) sys_running.
Definition sys_taken : Tables := commits (claimUsageOutbox 401000 "token" ∅) sys_due.
Definition demo_interval : OutboxRow :=
  mkOutbox "machine:m_abcdefghijkl:checkpoint:400000" "org" "proj" demo_machine 2 1024 3000 400000
    false "reconciler" 400000 0 400000 (Some "token") (Some 701000) None None.
Definition demo_event (n : nat) : UsageEvent :=
  nth n (outbox_events demo_interval) (mkEvent "" "" "" "" "" (QArith_base.inject_Z 0) 0 0 "").
Definition sys_half : Tables := commits (append (demo_event 0)) sys_taken.
Definition sys_recorded : Tables := commits (append (demo_event 1)) sys_half.
Definition sys_settled : Tables :=
  commits (settleUsage 402000 (ob_key demo_interval) "token" demo_machine) sys_recorded.

(** The meter takes over at 410000: the machine's first observation. *)
Definition demo_start_observation : HostUsageObservation :=
  mkObservation demo_machine "m-0123abcd" demo_lease "1" demo_boot "1" "start" "exact" "none"
    "0" "0" "1" "5000000000" "1970-01-01T00:06:50Z" (NInt 2) "1073741824" (NInt 100).
Definition demo_time (s : string) : option Z :=
  if String.eqb s "1970-01-01T00:06:50Z" then Some 410000
  else if String.eqb s "1970-01-01T00:07:00Z" then Some 420000 else None.
Definition sys_metered : Tables :=
  commits (on_meter (ingest demo_sha256 demo_time 1000 (demo_clock 410100) "h1" (Some 1)
    [(demo_start_observation, demo_stamps 410100)])) sys_settled.

Definition demo_checkpoint_observation : HostUsageObservation :=
  mkObservation demo_machine "m-0123abcd" demo_lease "1" demo_boot "2" "checkpoint" "exact" "none"
    "10000000000" "4096" "1" "15000000000" "1970-01-01T00:07:00Z" (NInt 2) "1073741824" (NInt 100).
Definition sys_billed : Tables :=
  commits (on_meter (ingest demo_sha256 demo_time 1000 (demo_clock 420100) "h1" (Some 1)
    [(demo_checkpoint_observation, demo_stamps 420100)])) sys_metered.

(** ** The run is one of the system *)

Abbreviation demo_steps := (system_steps demo_sha256 demo_time demo_created).

Lemma sys_start_ok : system_start sys_start.
Proof. constructor; [exact demo_start_ok|done..]. Qed.

Ltac sys_command c := eapply rtc_l; [apply (sys_fleet _ _ _ _ c)|].

Lemma sys_reaches_running : demo_steps sys_start sys_running.
Proof.
  sys_command (InsertRequested 1000 demo_machine (demo_identity demo_lease "key1") 3600000 "u1"); [done|].
  sys_command (ClaimCreate 1000 demo_machine "token"); [done|].
  sys_command (Reserve 2000 ∅ (demo_request demo_machine)).
  { exists demo_machine. split; [done|]. intros m r Hm Hr. vm_compute in Hm. injection Hm as <-.
    vm_compute in Hr. by injection Hr as <-. }
  sys_command (ObserveHost 3000 3000 demo_machine (demo_host_machine "m-0123abcd" demo_lease) "u2").
  { intros m Hm. vm_compute in Hm. by injection Hm as <-. }
  apply rtc_refl.
Qed.

Lemma demo_event_in n : (n < 2)%nat → demo_event n ∈ outbox_events demo_interval.
Proof. intros Hn. apply list_elem_of_In, nth_In. exact Hn. Qed.

Lemma demo_interval_in l : outbox l = [demo_interval] → demo_interval ∈ outbox l.
Proof. intros ->. by apply list_elem_of_singleton. Qed.

Lemma sys_reaches_settled : demo_steps sys_start sys_settled.
Proof.
  etransitivity; [exact sys_reaches_running|].
  eapply rtc_l; [apply (sys_enqueue _ _ _ _ 400000 ∅)|].
  eapply rtc_l; [apply (sys_claim _ _ _ _ 401000 "token" ∅)|].
  eapply rtc_l; [apply (sys_append _ _ _ _ demo_interval (demo_event 0))|].
  { apply demo_interval_in. vm_compute. reflexivity. }
  { apply demo_event_in. lia. }
  eapply rtc_l; [apply (sys_append _ _ _ _ demo_interval (demo_event 1))|].
  { apply demo_interval_in. vm_compute. reflexivity. }
  { apply demo_event_in. lia. }
  eapply rtc_l; [apply (sys_settle _ _ _ _ 402000 demo_interval "token")|].
  { apply demo_interval_in. vm_compute. reflexivity. }
  { intros e He. assert (e = demo_event 0 ∨ e = demo_event 1) as [-> | ->].
    { change (outbox_events demo_interval) with [demo_event 0; demo_event 1] in He. set_solver. }
    all: vm_compute; reflexivity. }
  apply rtc_refl.
Qed.

Lemma sys_reaches_metered : demo_steps sys_settled sys_metered.
Proof. eapply rtc_l; [|apply rtc_refl]. apply sys_ingest. Qed.

Lemma sys_reaches_billed : demo_steps sys_metered sys_billed.
Proof. eapply rtc_l; [|apply rtc_refl]. apply sys_ingest. Qed.

(** Every state of the run has one machine, whose identifier has no colon. *)
Lemma demo_plain t : map fst (map_to_list (machines (fleet t))) = [demo_machine] → plain_ids t.
Proof.
  intros Hl id [m Hm]. apply elem_of_map_to_list in Hm.
  assert (id ∈ map fst (map_to_list (machines (fleet t)))) as Hin.
  { apply list_elem_of_In, in_map_iff. exists (id, m). split; [done|]. by apply list_elem_of_In. }
  rewrite Hl in Hin. apply list_elem_of_singleton in Hin as ->.
  unfold no_char, demo_machine. simpl. set_solver.
Qed.

Lemma sys_settled_plain : plain_ids sys_settled.
Proof. apply demo_plain. vm_compute. reflexivity. Qed.
Lemma sys_billed_plain : plain_ids sys_billed.
Proof. apply demo_plain. vm_compute. reflexivity. Qed.
Lemma sys_metered_plain : plain_ids sys_metered.
Proof. apply demo_plain. vm_compute. reflexivity. Qed.
