(* ===== verification/SystemTheorems.v ===== *)
(** * Theorems about the whole system

    The fleet, metering and the usage producer run on one database.  Whatever
    their interleaving: a machine billed by intervals is billed for its runtime
    once, up to the cut where its meter takes over, and the two ledgers together
    never charge a machine for more time than passed. *)

From Stdlib Require Import QArith Qround Lqa.
From S2P Require Import Prelude Text Js Numeric Metering MeteringFacts MeteringInv MeteringTheorems.
From S2P Require Import MeteringHandover Capacity Lifecycle Billing Fleet Scheduler MachineRepo.
From S2P Require Import ForkRepo ReconcileDb FleetInv FleetSteps FleetHard FleetForks FleetStep.
From S2P Require Import FleetKeys FleetTheorems Tables UsageOutbox System SystemInv.
From S2P Require Import SystemSteps.
Open Scope Z_scope.

(** ** Sums over the ledger *)

Lemma sum_with_elems_le {A} (f : A → Z) (l k : list A) :
  (∀ x, x ∈ k → 0 <= f x) → NoDup l → (∀ x, x ∈ l → x ∈ k) → sum_with f l <= sum_with f k.
Proof. intros Hf Hnd Hin. apply sum_with_submseteq; [done|]. by apply NoDup_submseteq. Qed.

Lemma rows_events_NoDup l :
  NoDup (ob_key <$> l) → NoDup (concat (map outbox_rows l)).
Proof.
  assert (∀ o, NoDup (outbox_rows o)) as Hone.
  { intros o. apply NoDup_fmap_2_strong; [|apply outbox_events_NoDup].
    intros e e' He He' Heq. apply (f_equal ue_key) in Heq. by destruct (event_row_inj o o e e' He He' Heq) as [_ ->]. }
  induction l as [|o l IH]; intros Hnd; simpl; [constructor|].
  apply NoDup_cons in Hnd as [Ho Hnd]. apply NoDup_app. split_and!; [apply Hone| |by apply IH].
  intros x (e & -> & He)%outbox_rows_elem Hin. apply list_elem_of_In, in_concat in Hin as (es & Hes & Hin).
  apply in_map_iff in Hes as (o' & <- & Ho'). apply list_elem_of_In in Ho', Hin.
  apply outbox_rows_elem in Hin as (e' & Heq & He'). apply (f_equal ue_key) in Heq.
  destruct (event_row_inj o o' e e' He He' Heq) as [Hk _].
  apply Ho. rewrite Hk. by apply list_elem_of_fmap_2.
Qed.

(** The time a chain of intervals charges. *)
Lemma chain_charged_ms id dimension l : ∀ s e,
  chain s l e → (∀ o, o ∈ l → ob_machine_id o = id) → runtime_dimension dimension = true →
  sum_with (charged_ms id dimension) (concat (map outbox_rows l)) = e - s.
Proof.
  induction l as [|o l IH]; intros s e; simpl; [intros -> _ _; lia|].
  intros (<- & Hle & Hc) Hl Hd. rewrite sum_with_app, outbox_charged_ms by done.
  rewrite (Hl o) by set_solver. rewrite String.eqb_refl, Hd. simpl.
  rewrite (IH _ _ Hc) by set_solver. lia.
Qed.

(** The charges of a machine come from its own intervals. *)
Lemma own_charged_ms id dimension l :
  (∀ o, o ∈ l → ob_period_start o <= ob_period_end o) →
  sum_with (charged_ms id dimension) (concat (map outbox_rows l))
  = sum_with (charged_ms id dimension) (concat (map outbox_rows (rows_of id l))).
Proof.
  induction l as [|o l IH]; intros Hl; simpl; [done|].
  rewrite sum_with_app, IH, outbox_charged_ms by set_solver. unfold rows_of. simpl.
  destruct (String.eqb (ob_machine_id o) id) eqn:E; [|done]. simpl.
  rewrite sum_with_app, outbox_charged_ms, E by set_solver. done.
Qed.

Lemma row_of_machine t id o :
  intervals_ok t → o ∈ rows_of id (outbox t) →
  ∃ m, machines (fleet t) !! id = Some m ∧ row_of t o m.
Proof.
  intros Hi [Ho Hid]%rows_of_elem. destruct (in_rows t Hi o Ho) as [m Hm]. exists m.
  split; [|done]. rewrite <- Hid. apply (ro_machine t o m Hm).
Qed.

(** A recorded row is an event of an interval of a machine of the fleet. *)
Lemma recorded_row t x :
  system_inv t → x ∈ recorded t →
  ∃ o e m, o ∈ outbox t ∧ e ∈ outbox_events o ∧ x = event_row e ∧ row_of t o m ∧
    0 <= ob_vcpus o ∧ 0 <= ob_memory_mb o.
Proof.
  intros [Hf _ Hi [_ Hrows _]] Hx. destruct (Hrows x Hx) as (o & Ho & (e & -> & He)%outbox_rows_elem).
  destruct (in_rows t Hi o Ho) as [m Hm]. exists o, e, m. pose proof Hm as [Hid Hv Hmem _ _ _ _ _ _].
  pose proof (fi_positive _ Hf _ m Vcpus Hid) as Hpv. pose proof (fi_positive _ Hf _ m MemoryMb Hid) as Hpm.
  simpl in Hpv, Hpm. split_and!; try done; [by rewrite Hv|by rewrite Hmem].
Qed.

Lemma event_time o e : e ∈ outbox_events o → ev_periodStart e <= ev_periodEnd e.
Proof.
  intros ([[i a] b] & Hs%segment_bounds & He)%outbox_events_elem.
  apply elem_of_cons in He as [->|[->|[]%elem_of_nil]%elem_of_cons]; simpl; lia.
Qed.

Lemma charged_ms_nonneg t id dimension x :
  x ∈ concat (map outbox_rows (outbox t)) → 0 <= charged_ms id dimension x.
Proof.
  intros Hin. apply list_elem_of_In, in_concat in Hin as (es & Hes & Hin).
  apply in_map_iff in Hes as (o & <- & Ho). apply list_elem_of_In in Ho, Hin.
  apply outbox_rows_elem in Hin as (e & -> & He). pose proof (event_time o e He).
  unfold charged_ms. destruct (charged _ _ _); simpl; lia.
Qed.

(** The ledger charges a machine at most the time of its intervals, and exactly
    it when all are processed. *)
Lemma ledger_time t id dimension s e :
  system_inv t → runtime_dimension dimension = true → chain s (rows_of id (outbox t)) e →
  sum_with (charged_ms id dimension) (recorded t) <= e - s ∧
  ((∀ o, o ∈ rows_of id (outbox t) → is_Some (ob_processed_at o)) →
   sum_with (charged_ms id dimension) (recorded t) = e - s).
Proof.
  intros Hinv Hd Hc. pose proof Hinv as [_ _ Hi [Hkeys Hrows Hproc]].
  assert (NoDup (recorded t)) as Hnd by by apply (NoDup_fmap_1 ue_key).
  assert (∀ x, x ∈ recorded t → x ∈ concat (map outbox_rows (outbox t))) as Hin.
  { intros x (o & Ho & Hx)%Hrows. apply list_elem_of_In, in_concat. exists (outbox_rows o).
    split; [apply in_map_iff; exists o|]; by rewrite <- ?list_elem_of_In. }
  assert (∀ o, o ∈ outbox t → ob_period_start o <= ob_period_end o) as Hper.
  { intros o Ho. destruct (in_rows t Hi o Ho) as [? Hr]. apply Hr. }
  assert (sum_with (charged_ms id dimension) (concat (map outbox_rows (outbox t))) = e - s) as Htotal.
  { rewrite own_charged_ms by done. apply chain_charged_ms; [done| |done].
    intros o Ho. by apply rows_of_elem in Ho as [_ Hid]. }
  assert (∀ x, x ∈ concat (map outbox_rows (outbox t)) → 0 <= charged_ms id dimension x) as Hpos
    by (intros; by eapply charged_ms_nonneg).
  split; [rewrite <- Htotal; by apply sum_with_elems_le|].
  intros Hall. apply Z.le_antisymm; [rewrite <- Htotal; by apply sum_with_elems_le|].
  rewrite <- Htotal, own_charged_ms by done.
  apply sum_with_elems_le; [by intros; apply Hpos, Hin|apply rows_events_NoDup|].
  - eapply sublist_NoDup; [apply (in_keys t Hi)|]. apply sublist_fmap, filter_sublist.
  - intros x Hx. apply list_elem_of_In, in_concat in Hx as (es & Hes & Hx).
    apply in_map_iff in Hes as (o & <- & Ho). apply list_elem_of_In in Ho, Hx.
    apply outbox_rows_elem in Hx as (ev & -> & Hev).
    apply (Hproc o); [|by apply Hall|done]. by apply rows_of_elem in Ho as [? _].
Qed.

(** The exact quantity of a millisecond of a machine. *)
Definition machine_rate (dimension : string) (m : MachineRow) : Q :=
  per_ms dimension (vcpus (resources (ident m))) (memoryMb (resources (ident m))).

(** The stored quantities are the exact ones but for the rounding of each row. *)
Lemma ledger_quantity t id dimension m l :
  system_inv t → machines (fleet t) !! id = Some m → (∀ x, x ∈ l → x ∈ recorded t) →
  total_near (sum_with (charge id dimension) l)
    (machine_rate dimension m * inject_Z (sum_with (charged_ms id dimension) l)) (charges id dimension l).
Proof.
  intros Hinv Hm. induction l as [|x l IH]; intros Hl; unfold charges; simpl.
  { eapply total_near_eq; [|apply total_near_zero]. ring. }
  specialize (IH ltac:(set_solver)). unfold charges in IH. unfold charge at 1, charged_ms at 1.
  destruct (charged id dimension x) eqn:Ex; [|exact IH].
  destruct (recorded_row t x Hinv ltac:(set_solver)) as (o & e & m' & Ho & He & -> & Hr & Hv & Hmem).
  destruct (stored_event o e Hv Hmem He) as (_ & _ & Hid & Hnear).
  unfold charged in Ex. simpl in Ex. apply andb_true_iff in Ex as [E1%String.eqb_eq E2%String.eqb_eq].
  assert (m' = m) as ->.
  { pose proof (ro_machine t o m' Hr) as H. rewrite <- Hid, E1 in H. congruence. }
  eapply total_near_eq; [|eapply total_near_add; [exact Hnear|exact IH]].
  rewrite inject_Z_plus. unfold machine_rate. rewrite (ro_vcpus t o m Hr), (ro_memory t o m Hr), E2. simpl. ring.
Qed.

(** ** After the cut *)

Lemma rows_of_app_other id (l : list OutboxRow) o : ob_machine_id o ≠ id → rows_of id (l ++ [o]) = rows_of id l.
Proof. intros Hne. by rewrite rows_of_app, (rows_of_other id o), app_nil_r. Qed.

Lemma enqueue_final_rows now kv t id :
  kv.1 ≠ id → rows_of id (outbox (enqueue_final now kv t)) = rows_of id (outbox t).
Proof.
  destruct kv as [k m]. simpl. intros Hne. unfold enqueue_final.
  destruct (_ <? _); [done|]. destruct (_ <? _); [done|]. unfold outbox. simpl. unfold insert_new.
  destruct (has_key _ _ _); [done|]. by apply rows_of_app_other.
Qed.

Lemma enqueue_finals_rows now id l t :
  (∀ kv, kv ∈ l → kv.1 ≠ id) →
  rows_of id (outbox (foldl (λ t kv, enqueue_final now kv t) t l)) = rows_of id (outbox t).
Proof.
  revert t. induction l as [|kv l IH]; intros t Hl; simpl; [done|].
  rewrite IH by set_solver. apply enqueue_final_rows. set_solver.
Qed.

Lemma enqueue_checkpoints_rows now id l t u t' :
  (∀ kv, kv ∈ l → kv.1 ≠ id) → each (enqueue_checkpoint now) l t = Ok (u, t') →
  rows_of id (outbox t') = rows_of id (outbox t).
Proof.
  revert t. induction l as [|[k m] l IH]; intros t Hl E; simpl in E; [by injection E as _ <-|].
  apply tx_bind_Ok in E as (u1 & t1 & E1 & E2). rewrite (IH t1) by set_solver.
  unfold enqueue_checkpoint in E1. destruct (has_key _ _ _); [done|]. injection E1 as _ <-.
  apply rows_of_app_other. apply (Hl (k, m)). set_solver.
Qed.

Lemma legacy_not_started t k m id :
  legacy_lease true t k m = true → meter_started t id = true → k ≠ id.
Proof.
  unfold legacy_lease. intros [_ Hn]%andb_true_iff Hs ->. rewrite Hs in Hn. done.
Qed.

Lemma enqueue_rows now locked t id :
  meter_started t id = true →
  rows_of id (outbox (commits (enqueueUsageIntervals now true locked) t)) = rows_of id (outbox t).
Proof.
  intros Hs. destruct (commits_cases (enqueueUsageIntervals now true locked) t) as [->|[u E]]; [done|].
  unfold enqueueUsageIntervals in E at 1. cbv zeta in E. unfold enqueue_ended in E.
  etransitivity; [eapply enqueue_checkpoints_rows; [|exact E]|apply enqueue_finals_rows].
  - intros [k m] Hin. destruct (usage_batch_spec usage_start (checkpoint_due true now
      (foldl (λ t kv, enqueue_final now kv t) t (usage_batch (λ m, stopped_at (life m)) (ends_usage true t) locked t)))
      locked (foldl (λ t kv, enqueue_final now kv t) t (usage_batch (λ m, stopped_at (life m)) (ends_usage true t) locked t)))
      as [_ Hb].
    destruct (Hb k m Hin) as [_ Hd]. unfold checkpoint_due in Hd.
    apply andb_true_iff in Hd as [Hd _]. apply andb_true_iff in Hd as [_ Hd].
    eapply legacy_not_started; [exact Hd|]. rewrite <- Hs. apply enqueues_started.
    apply enqueue_finals_enqueues.
  - intros [k m] Hin. destruct (usage_batch_spec (λ m, stopped_at (life m)) (ends_usage true t) locked t) as [_ Hb].
    destruct (Hb k m Hin) as [_ Hd]. unfold ends_usage in Hd.
    apply andb_true_iff in Hd as [Hd _]. apply andb_true_iff in Hd as [_ Hd].
    by eapply legacy_not_started.
Qed.

Section system.
Context (sha256 : string → string) (Date_parse : string → option Z).
Context `{BillingAdmission FleetDb} (created : Identity → Prop) (Hc : created_ok created).

Lemma metered_rows {A} (m : Tx MeterDb MeteringError A) t id :
  (∀ a db, m (load t) = Ok (a, db) → handover (load t) db) → meter_started t id = true →
  rows_of id (outbox (commits (on_meter m) t)) = rows_of id (outbox t) ∧
  meter_started (commits (on_meter m) t) id = true.
Proof.
  intros Hm Hs. unfold commits, transaction, on_meter.
  destruct (m (load t)) as [[a db]|e] eqn:E; simpl; [|done].
  pose proof (ho_each _ _ (Hm a db eq_refl) id) as Hh. rewrite <- started_load in Hs.
  destruct Hh as [_ ? R|?|?|]; [|congruence..]. split; [exact R|done].
Qed.

(** A step leaves the intervals of a metered machine alone. *)
Lemma step_metered t t' id :
  metering_ok t → meter_started t id = true → system_step sha256 Date_parse created t t' →
  undelivered <$> rows_of id (outbox t') = undelivered <$> rows_of id (outbox t) ∧
  meter_started t' id = true.
Proof.
  intros Hmo Hs Hstep.
  assert (∀ f, (∀ o, undelivered (f o) = undelivered o) →
    undelivered <$> rows_of id (map f (outbox t)) = undelivered <$> rows_of id (outbox t)) as Hmap.
  { intros f Hf. by apply rows_of_undelivered, map_undelivered. }
  destruct Hstep.
  - done.
  - done.
  - edestruct (metered_rows (A := list Receipt)) as [-> ?]; [|done|done].
    intros a db E. by eapply ingest_handover; [apply Hmo..|exact E].
  - edestruct @metered_rows as [-> ?]; [|done|done]. intros a db E. by eapply closeHostLoss_handover.
  - rewrite enqueue_rows by done. split; [done|]. rewrite <- Hs. apply enqueues_started, enqueue_enqueues.
  - split; [|done]. apply Hmap. intros o. by destruct (string_in _ _).
  - by destruct (append_cases e t) as [-> | ->].
  - unfold commits, transaction, settleUsage. destruct (existsb _ _); simpl; [|done].
    destruct (fully_delivered _ _); (split; [|done]); apply Hmap; intros o; by destruct (held_by _ _ _).
  - split; [|done]. apply Hmap. intros o. by destruct (held_by _ _ _).
Qed.

Lemma steps_metered t t' id :
  system_inv t → plain_ids t' → meter_started t id = true →
  system_steps sha256 Date_parse created t t' →
  undelivered <$> rows_of id (outbox t') = undelivered <$> rows_of id (outbox t) ∧
  meter_started t' id = true.
Proof.
  intros Hinv Hp Hs Hsteps. revert Hinv Hs.
  induction Hsteps as [t|t t1 t' Hstep Hrest IH]; intros Hinv Hs; [done|].
  destruct (step_metered t t1 id (si_meter t Hinv) Hs Hstep) as [Hr1 Hs1].
  destruct (system_step_grows sha256 Date_parse created Hc t t1 (si_fleet t Hinv) Hstep) as [Hf1 Hg].
  assert (plain_ids t1) as Hp1.
  { eapply grows_plain; [|exact Hp]. by eapply system_steps_grow. }
  destruct (IH Hp) as [Hr Hs']; [|done|by rewrite Hr, Hr1].
  eapply system_step_inv; [exact Hc|exact Hinv| |exact Hstep]. by apply (grows_plain t t1).
Qed.
End system.

(** ** The cut between the two ledgers *)

(** Where the meter of a machine took over its intervals end. *)
Definition cover_ok (t : Tables) : Prop :=
  ∀ id, meter_started t id = true →
    ∃ b, took_over (load t) id b ∧ ∃ s, chain s (rows_of id (outbox t)) b.

Lemma chain_end s l e o : chain s (l ++ [o]) e → e = ob_period_end o.
Proof. revert s. induction l as [|x l IH]; intros s; simpl; [by intros (_ & _ & <-)|]. intros (_ & _ & Hc). by eapply IH. Qed.

(** Moves of the machines keep the covers. *)
Lemma covers_moved t t' id b :
  metering_ok t → fleet_grows (fleet t) (fleet t') →
  meter_state (meter t') = meter_state (meter t) → observations (meter t') = observations (meter t) →
  raw_events (meter t') = raw_events (meter t) → took_over (load t) id b → took_over (load t') id b.
Proof.
  intros [_ _ Hdom] Hg Hms Hobs Hraw (st & o & [Hst Hin Hso Ha Hp Hb]).
  exists st, o. constructor; try done; [simpl; by rewrite Hms|simpl; by rewrite Hobs|].
  intros m' dim Hm'. rewrite load_machine in Hm'.
  destruct (Hdom id) as [m Hm]; [by eexists|]. destruct (Hg id m Hm) as (m1 & Hm1 & Hle).
  rewrite Hm1 in Hm'. injection Hm' as <-.
  rewrite (priced_same (meter_machine m)) by (unfold meter_same; simpl; by rewrite (rl_ident _ _ Hle)).
  unfold billed. simpl. rewrite Hraw. apply Hb. by rewrite load_machine, Hm.
Qed.

Lemma covers_store db t id b :
  billing_identity <$> Metering.machines db = billing_identity <$> Metering.machines (load t) →
  took_over db id b → took_over (load (store db t)) id b.
Proof.
  intros Hb (st & o & [Hst Hin Hso Ha Hp Hbill]). exists st, o. constructor; try done.
  intros m dim Hm. rewrite (load_store db t Hb) in Hm. by apply Hbill.
Qed.

(** A metering transaction: the start of a meter cuts the intervals at its
    boundary, and after it they stand. *)
Lemma cover_metered {A} (m : Tx MeterDb MeteringError A) t :
  (∀ a db, m (load t) = Ok (a, db) → handover (load t) db) → system_inv t → plain_ids t →
  system_inv (commits (on_meter m) t) → cover_ok t → cover_ok (commits (on_meter m) t).
Proof.
  intros Hm Hinv Hplain. pose proof Hinv as [_ Hmo Hi _]. unfold commits, transaction, on_meter.
  destruct (m (load t)) as [[a db]|e] eqn:E; simpl; [|done]. intros Hinv' Hcov id Hs.
  pose proof (Hm a db eq_refl) as Hh. pose proof (ho_each _ _ Hh id) as Hid.
  assert (meter_started (store db t) id = started db id) as Hms by done. rewrite Hms in Hs.
  destruct (in_chain t Hi id) as (s0 & e0 & Hc & Hw).
  assert (∀ b, took_over db id b → took_over (load (store db t)) id b) as Hst
    by (intros b; apply covers_store, Hh).
  destruct Hid as [X Y R V|X Y R C|b X Y R V L|now mm l b X Y Hm0 Hl Hlt R V]; [|congruence|..].
  - destruct (Hcov id X) as (b & Hb & s & Hch). exists b. split; [by apply Hst, V|].
    exists s. change (outbox (store db t)) with (usage_outbox db). by rewrite R.
  - exists b. split; [by apply Hst|]. change (outbox (store db t)) with (usage_outbox db).
    rewrite R. change (usage_outbox (load t)) with (outbox t).
    assert (is_Some (machines (fleet t) !! id)) as [mf Hmf].
    { destruct (meter_state db !! id) as [st|] eqn:Est; [|unfold started in Y; by rewrite Est in Y].
      destruct (ho_meters _ _ Hh id ltac:(by eexists)) as [?|Hx]; [by apply Hmo|].
      rewrite load_machine in Hx. by apply fmap_is_Some in Hx. }
    destruct (Hw X mf Hmf) as [[Hnil _]|(_ & _ & _ & Hcp)]; [rewrite Hnil; by exists b|].
    exists s0. rewrite <- (L (meter_machine mf) e0); [done|by rewrite load_machine, Hmf|].
    unfold legacy_start. simpl. by rewrite Hcp.
  - exists b. split; [by apply Hst|].
    assert (is_Some (machines (fleet t) !! id)) as [mf Hmf].
    { rewrite load_machine in Hm0. by destruct (machines (fleet t) !! id). }
    destruct R as [R|(R & o & Ho & Hkey)].
    2:{ exfalso. by eapply (cutover_key_fresh t db id mf). }
    destruct (in_chain _ (si_intervals _ Hinv') id) as (s & e & Hch & _). exists s.
    change (outbox (store db t)) with (usage_outbox db) in *. rewrite R in *.
    pose proof (chain_end _ _ _ _ Hch) as ->. exact Hch.
Qed.

Section cover.
Context (sha256 : string → string) (Date_parse : string → option Z).
Context `{BillingAdmission FleetDb} (created : Identity → Prop) (Hc : created_ok created).

Lemma cover_step t t' :
  system_inv t → plain_ids t → system_inv t' → system_step sha256 Date_parse created t t' →
  cover_ok t → cover_ok t'.
Proof.
  intros Hinv Hplain Hinv' Hs Hcov. pose proof Hinv as [Hf Hmo _ _].
  destruct (system_step_grows sha256 Date_parse created Hc t t' Hf Hs) as [_ Hg].
  assert (meter_state (meter t') = meter_state (meter t) → observations (meter t') = observations (meter t) →
    raw_events (meter t') = raw_events (meter t) → cover_ok t') as Hmoved.
  { intros H1 H2 H3 id Hst. assert (meter_started t id = true) as Hst0.
    { unfold meter_started in *. by rewrite <- H1. }
    destruct (Hcov id Hst0) as (b & Hb & s & Hch). exists b. split; [by apply (covers_moved t)|].
    exists s. eapply chain_undelivered; [|exact Hch].
    apply (step_metered sha256 Date_parse created t t' id Hmo Hst0 Hs). }
  destruct Hs as [c Hp|f hs He|interval clock host generation inputs|now id lease|now locked
    |now token locked|row e Hrow Hev|now row token Hrow Hd|now key token error attempts].
  - by apply Hmoved.
  - by apply Hmoved.
  - apply cover_metered; try done. intros a db E. by eapply ingest_handover; [apply Hmo..|exact E].
  - apply cover_metered; try done. intros a db E. by eapply closeHostLoss_handover.
  - destruct (enqueue_enqueues now true locked t) as [_ _ [l Hl] _]. apply Hmoved; by rewrite Hl.
  - by apply Hmoved.
  - destruct (append_cases e t) as [Ht|Ht]; rewrite Ht in *; [done|by apply Hmoved].
  - apply Hmoved; unfold commits, transaction, settleUsage;
      (destruct (existsb _ _); simpl; [by destruct (fully_delivered _ _)|done]).
  - by apply Hmoved.
Qed.

Lemma cover_steps t0 t :
  system_start t0 → system_steps sha256 Date_parse created t0 t → plain_ids t → cover_ok t.
Proof.
  intros Hs Hsteps Hp.
  assert (cover_ok t0) as H0.
  { intros id Hst. unfold meter_started in Hst. by rewrite (st_states t0 Hs), lookup_empty in Hst. }
  pose proof (system_start_inv t0 Hs) as Hi0. clear Hs. revert Hi0 H0.
  induction Hsteps as [t|t t1 t' Hstep Hrest IH]; intros Hi H0; [done|].
  destruct (system_step_grows sha256 Date_parse created Hc t t1 (si_fleet t Hi) Hstep) as [Hf1 Hg].
  assert (plain_ids t1) as Hp1.
  { eapply grows_plain; [|exact Hp]. by eapply system_steps_grow. }
  assert (plain_ids t) as Hp0 by by apply (grows_plain t t1).
  assert (system_inv t1) as Hi1 by (by eapply system_step_inv). apply IH; [done..|].
  exact (cover_step t t1 Hi Hp0 Hi1 Hstep H0).
Qed.
End cover.

(** * Properties *)

(** C4: no machine is charged for more time than passed, by both ledgers together.
    In every reachable state a machine whose meter has started has the start
    observation [o] of its host stored, at which the host began to count, and its
    intervals run from [s] to a cut [b] not before it.  The time the interval ledger
    charges and the time the meter bills are together at most the longer of the
    intervals and the time up to the host's start plus the host's counter; the
    meter's rows are worth that metered time at the machine's size and no more
    egress than counted, and the billing ledger holds those rows and no others. *)
Theorem system_never_overcharges `{BillingAdmission FleetDb} sha256 Date_parse created t0 t id m st dimension :
  created_ok created → system_start t0 → system_steps sha256 Date_parse created t0 t → plain_ids t →
  machines (fleet t) !! id = Some m → meter_state (meter t) !! id = Some st → start_seen st = true →
  runtime_dimension dimension = true →
  ∃ o s b metered,
    o ∈ observations (meter t) ∧ start_of id st o ∧ so_observed_at o <= b ∧
    chain s (rows_of id (outbox t)) b ∧
    0 <= metered ∧
    sum_with (charged_ms id dimension) (recorded t) * nanosecondsPerMillisecond + metered
      <= Z.max ((b - s) * nanosecondsPerMillisecond)
           ((so_observed_at o - s) * nanosecondsPerMillisecond + last_runtime_ns st) ∧
    (∀ dim, billed id dim (load t) <= priced (meter_machine m) dim metered (last_egress_bytes st)) ∧
    usage_events (meter t) = usage_of_raw <$> raw_events (meter t).
Proof.
  intros Hc Hs Hsteps Hp Hm Hst Hseen Hd.
  pose proof (system_steps_inv _ _ created Hc t0 t (system_start_inv t0 Hs) Hsteps Hp) as Hinv.
  destruct (cover_steps _ _ created Hc t0 t Hs Hsteps Hp id) as (b & (st' & o & [Hst' Hin Hso Ha Hpr Hb]) & s & Hch).
  { unfold meter_started. by rewrite Hst. }
  assert (st' = st) as -> by (simpl in Hst'; congruence).
  destruct (ledger_time t id dimension s b Hinv Hd Hch) as [Hle _].
  exists o, s, b, (projected_runtime_ns st - covered_ns o b).
  split_and!; try done; [lia| | |apply (inv_mirrored (load t)), (si_meter t Hinv)].
  - unfold covered_ns in *. unfold nanosecondsPerMillisecond in *. lia.
  - intros dim. apply Hb. by rewrite load_machine, Hm.
Qed.

Lemma system_never_overcharges_witness :
  ∃ m st o s b metered, machines (fleet sys_billed) !! demo_machine = Some m ∧
    meter_state (meter sys_billed) !! demo_machine = Some st ∧
    start_of demo_machine st o ∧ chain s (rows_of demo_machine (outbox sys_billed)) b ∧
    sum_with (charged_ms demo_machine "vcpu_seconds") (recorded sys_billed) * nanosecondsPerMillisecond + metered
      <= Z.max ((b - s) * nanosecondsPerMillisecond)
           ((so_observed_at o - s) * nanosecondsPerMillisecond + last_runtime_ns st) ∧
    0 < billed demo_machine Compute_ (load sys_billed)
      <= priced (meter_machine m) Compute_ metered (last_egress_bytes st).
Proof.
  assert (is_Some (machines (fleet sys_billed) !! demo_machine)) as [m Hm] by (vm_compute; by eexists).
  assert (is_Some (meter_state (meter sys_billed) !! demo_machine)) as [st Hst] by (vm_compute; by eexists).
  assert (start_seen <$> meter_state (meter sys_billed) !! demo_machine = Some true) as Hseen by (vm_compute; reflexivity).
  rewrite Hst in Hseen. injection Hseen as Hseen.
  assert (demo_steps sys_start sys_billed) as Hsteps.
  { etransitivity; [exact sys_reaches_settled|]. etransitivity; [exact sys_reaches_metered|exact sys_reaches_billed]. }
  destruct (system_never_overcharges demo_sha256 demo_time demo_created sys_start sys_billed demo_machine m st
    "vcpu_seconds" demo_created_ok sys_start_ok Hsteps sys_billed_plain Hm Hst Hseen eq_refl) as (o & s & b & metered & _ & Ho & _ & Hch & _ & Hle & Hb & _).
  exists m, st, o, s, b, metered. split; [exact Hm|]. split; [exact Hst|]. split; [exact Ho|]. split; [exact Hch|].
  split; [exact Hle|]. split; [vm_compute; reflexivity|exact (Hb Compute_)].
Defined.

(** A machine billed by intervals is billed for its runtime without gap or
    overlap.  In every reachable state the intervals of a machine form one chain;
    while its meter has not started the chain runs from the start of the machine to
    its checkpoint, through retries, host losses and the end of the machine. *)
Theorem legacy_intervals_contiguous `{BillingAdmission FleetDb} sha256 Date_parse created t0 t id :
  created_ok created → system_start t0 → system_steps sha256 Date_parse created t0 t → plain_ids t →
  ∃ s e, chain s (rows_of id (outbox t)) e ∧
    ∀ m, machines (fleet t) !! id = Some m → meter_started t id = false →
      (rows_of id (outbox t) = [] ∧ usage_checkpoint_at (usage m) = None) ∨
      (started_at (life m) = Some s ∧ usage_checkpoint_at (usage m) = Some e).
Proof.
  intros Hc Hs Hsteps Hp.
  destruct (system_steps_inv _ _ created Hc t0 t (system_start_inv t0 Hs) Hsteps Hp) as [_ _ Hi _].
  destruct (in_chain t Hi id) as (s & e & Hch & Hw). exists s, e. split; [exact Hch|].
  intros m Hm Hms. destruct (Hw Hms m Hm) as [?|(_ & _ & ? & ?)]; [by left|by right].
Qed.

Lemma legacy_intervals_contiguous_witness :
  chain 3000 (rows_of demo_machine (outbox sys_settled)) 400000.
Proof.
  destruct (legacy_intervals_contiguous demo_sha256 demo_time demo_created sys_start sys_settled demo_machine
    demo_created_ok sys_start_ok sys_reaches_settled sys_settled_plain) as (s & e & Hch & Hw).
  assert (∃ m, machines (fleet sys_settled) !! demo_machine = Some m ∧
    started_at (life m) = Some 3000 ∧ usage_checkpoint_at (usage m) = Some 400000) as (m & Hm & Hst & Hcp).
  { eexists. split; [vm_compute; reflexivity|]. split; reflexivity. }
  assert (meter_started sys_settled demo_machine = false) as Hf by (vm_compute; reflexivity).
  destruct (Hw m Hm Hf) as [[_ Hn]|[H1 H2]]; [rewrite Hn in Hcp; discriminate Hcp|].
  rewrite Hst in H1. rewrite Hcp in H2. injection H1 as <-. injection H2 as <-. exact Hch.
Defined.

(** C3: usage is recorded exactly once.  In every reachable state the intervals of a
    machine form one chain, and the rows the ledger recorded of it in vCPU or
    memory time have distinct keys and charge at most the length of the chain,
    however often workers die, retry or deliver an interval twice; when each
    interval is processed, exactly it.  What is stored is the machine's size times
    the time charged up to one part in 2 ^ 50, for the binary64 arithmetic, and half
    a unit of the ninth digit per row, for the column. *)
Theorem usage_recorded_exactly_once `{BillingAdmission FleetDb} sha256 Date_parse created t0 t id m dimension :
  created_ok created → system_start t0 → system_steps sha256 Date_parse created t0 t → plain_ids t →
  machines (fleet t) !! id = Some m → runtime_dimension dimension = true →
  ∃ s e, chain s (rows_of id (outbox t)) e ∧ NoDup (ue_key <$> recorded t) ∧
    sum_with (charged_ms id dimension) (recorded t) <= e - s ∧
    ((∀ o, o ∈ rows_of id (outbox t) → is_Some (ob_processed_at o)) →
     sum_with (charged_ms id dimension) (recorded t) = e - s) ∧
    total_near (sum_with (charge id dimension) (recorded t))
      (machine_rate dimension m * inject_Z (sum_with (charged_ms id dimension) (recorded t)))
      (charges id dimension (recorded t)).
Proof.
  intros Hc Hs Hsteps Hp Hm Hd.
  pose proof (system_steps_inv _ _ created Hc t0 t (system_start_inv t0 Hs) Hsteps Hp) as Hinv.
  destruct (in_chain t (si_intervals t Hinv) id) as (s & e & Hch & _). exists s, e.
  destruct (ledger_time t id dimension s e Hinv Hd Hch) as [H1 H2].
  split_and!; [done|apply (lg_keys t), (si_ledger t Hinv)|done|done|by apply (ledger_quantity t)].
Qed.

Lemma usage_recorded_exactly_once_witness :
  ∃ s e, sum_with (charge demo_machine "vcpu_seconds") (recorded sys_settled) = 794000000000 ∧
    sum_with (charged_ms demo_machine "vcpu_seconds") (recorded sys_settled) = e - s ∧ e - s = 397000.
Proof.
  assert (is_Some (machines (fleet sys_settled) !! demo_machine)) as [m Hm] by (vm_compute; by eexists).
  destruct (usage_recorded_exactly_once demo_sha256 demo_time demo_created sys_start sys_settled demo_machine
    m "vcpu_seconds" demo_created_ok sys_start_ok sys_reaches_settled sys_settled_plain Hm eq_refl)
    as (s & e & _ & _ & _ & Heq & _).
  exists s, e. split; [vm_compute; reflexivity|].
  assert (sum_with (charged_ms demo_machine "vcpu_seconds") (recorded sys_settled) = e - s) as H.
  { apply Heq.
    assert (forallb (λ o, bool_decide (is_Some (ob_processed_at o))) (rows_of demo_machine (outbox sys_settled))
      = true) as Hall by (vm_compute; reflexivity).
    intros o Ho. rewrite forallb_forall in Hall. apply list_elem_of_In, Hall in Ho.
    by apply bool_decide_eq_true in Ho. }
  split; [exact H|]. rewrite <- H. vm_compute. reflexivity.
Defined.

(** Once its meter has started a machine leaves interval billing for good:
    no step adds an interval of it or moves one, and whatever the ledger still
    records stays within the intervals cut before. *)
Theorem metered_machine_leaves_intervals `{BillingAdmission FleetDb} sha256 Date_parse created t0 t t' id
    dimension :
  created_ok created → system_start t0 → system_steps sha256 Date_parse created t0 t →
  system_steps sha256 Date_parse created t t' → plain_ids t' →
  meter_started t id = true → runtime_dimension dimension = true →
  undelivered <$> rows_of id (outbox t') = undelivered <$> rows_of id (outbox t) ∧
  ∃ s e, chain s (rows_of id (outbox t)) e ∧
    sum_with (charged_ms id dimension) (recorded t') <= e - s.
Proof.
  intros Hc Hs Hsteps Hsteps' Hp Hms Hd.
  assert (fleet_inv (fleet t)) as Hf.
  { apply system_steps_fleet in Hsteps. by apply (reachable_inv created Hc (fleet t0)); [apply Hs|]. }
  assert (plain_ids t) as Hpt.
  { eapply grows_plain; [|exact Hp]. by eapply system_steps_grow. }
  pose proof (system_steps_inv _ _ created Hc t0 t (system_start_inv t0 Hs) Hsteps Hpt) as Hinv.
  pose proof (system_steps_inv _ _ created Hc t t' Hinv Hsteps' Hp) as Hinv'.
  destruct (steps_metered _ _ created Hc t t' id Hinv Hp Hms Hsteps') as [Hrows _].
  split; [exact Hrows|]. destruct (in_chain t (si_intervals t Hinv) id) as (s & e & Hch & _).
  exists s, e. split; [exact Hch|].
  assert (chain s (rows_of id (outbox t')) e) as Hch' by by eapply chain_undelivered.
  by destruct (ledger_time t' id dimension s e Hinv' Hd Hch') as [? _].
Qed.

Lemma metered_machine_leaves_intervals_witness :
  undelivered <$> rows_of demo_machine (outbox sys_billed)
    = undelivered <$> rows_of demo_machine (outbox sys_metered) ∧
  length (rows_of demo_machine (outbox sys_metered)) = 2%nat.
Proof.
  assert (meter_started sys_metered demo_machine = true) as Hms by (vm_compute; reflexivity).
  split; [|vm_compute; reflexivity].
  apply (metered_machine_leaves_intervals demo_sha256 demo_time demo_created sys_start sys_metered sys_billed
    demo_machine "vcpu_seconds"); [exact demo_created_ok|exact sys_start_ok| |exact sys_reaches_billed
    |exact sys_billed_plain|exact Hms|exact eq_refl].
  etransitivity; [exact sys_reaches_settled|exact sys_reaches_metered].
Defined.

(** The system refines the fleet.  Every interleaving of the transactions of
    machine services, reconciler, metering and usage producer on one database is,
    on the fleet's tables, a run of [FleetStep], and every state it reaches keeps
    the fleet's invariants. *)
Theorem system_refines_fleet `{BillingAdmission FleetDb} sha256 Date_parse created t0 t :
  created_ok created → system_start t0 → system_steps sha256 Date_parse created t0 t →
  fleet_steps created (fleet t0) (fleet t) ∧ fleet_inv (fleet t) ∧ keys_inv (fleet t).
Proof.
  intros Hc Hs Hsteps. apply system_steps_fleet in Hsteps. split; [done|].
  by apply (reachable_inv created Hc (fleet t0)); [apply Hs|].
Qed.

Lemma system_refines_fleet_witness : fleet_steps demo_created FleetKeys.demo_start (fleet sys_settled).
Proof.
  exact (proj1 (system_refines_fleet demo_sha256 demo_time demo_created sys_start sys_settled
    demo_created_ok sys_start_ok sys_reaches_settled)).
Defined.

(** What metering does to the machines' rows is stored completely: [store] writes two
    columns back, and metering leaves every other one as it was.  So that it keeps
    the fleet's columns is a property of its statements and not of [store]. *)
Theorem metering_stores_what_it_writes t db :
  handover (load t) db → Metering.machines (load (store db t)) = Metering.machines db.
Proof.
  intros Hh. pose proof (ho_machines _ _ Hh) as Hm. apply map_eq. intros id.
  rewrite load_machine. cbn [store fleet]. rewrite write_fleet_machine.
  assert ((billing_identity <$> Metering.machines db) !! id = (billing_identity <$> Metering.machines (load t)) !! id)
    as E by by rewrite Hm.
  rewrite !lookup_fmap, load_machine in E.
  destruct (machines (fleet t) !! id) as [m|], (Metering.machines db !! id) as [r|]; simpl in *; try done.
  f_equal. injection E. destruct m as [i p l u]. destruct i, p, l, u, r. simpl. intros. by subst.
Qed.
