(* ===== verification/RateWindow.v ===== *)
(** * Fixed-window request counters

    The statement that counts requests, which
    src/apps/nehemiah/src/domain/stream-admission.ts and
    src/apps/nehemiah/src/auth/api-admission.ts share up to the name of its table:
    one row per bucket, a window aligned on the epoch, a saturating count. *)

From S2P Require Import Prelude Text Js.

Record WindowRow := mkWindow { window_started_at : Z; request_count : Z }.

(** A bucket a request is counted in. *)
Record Bucket := mkBucket { b_scope : string; b_slot : Z; b_limit : Z }.

#[export] Instance Bucket_eq : EqDecision Bucket.
Proof. solve_decision. Defined.

Definition b_key (b : Bucket) : string * Z := (b_scope b, b_slot b).

Abbreviation Windows := (gmap (string * Z) WindowRow).

Definition bucketSlots : Z := Z.shiftl 1 20.
Definition maximumStoredCount : Z := 1000001.

(** [createHash('sha256')...digest().readUInt32BE(0) & (bucketSlots - 1)]; the
    argument [digest32] is the first word of the digest. *)
Definition slotFor (digest32 : string → Z) (scope identifier : string) : Z :=
  Z.land (digest32 (scope +:+ nul +:+ identifier)) (bucketSlots - 1).

(** [floor(extract(epoch FROM statement_timestamp()) / w) * w] *)
Definition window_start (windowSeconds now : Z) : Z :=
  now / (windowSeconds * msPerSecond) * (windowSeconds * msPerSecond).

(** [INSERT ... ON CONFLICT (scope, bucket_slot) DO UPDATE] *)
Definition counted (start : Z) (row : option WindowRow) : WindowRow :=
  match row with
  | None => mkWindow start 1
  | Some r =>
      mkWindow (Z.max (window_started_at r) start)
        (if window_started_at r <? start then 1 else Z.min (request_count r + 1) maximumStoredCount)
  end.

Definition apply_windows (start : Z) (bs : list Bucket) (w : Windows) : Windows :=
  foldl (λ w b, <[b_key b := counted start (w !! b_key b)]> w) w bs.

(** [applied.request_count <= requested.request_limit] fails. *)
Definition over_limit (w : Windows) (b : Bucket) : bool :=
  match w !! b_key b with Some r => b_limit b <? request_count r | None => false end.

Definition bucket_retry (windowSeconds now : Z) (w : Windows) (b : Bucket) : Z :=
  match w !! b_key b with
  | Some r => Z.max 1 (ceil_div (window_started_at r + windowSeconds * msPerSecond - now) msPerSecond)
  | None => 1
  end.

(** [COALESCE(max(...) FILTER (WHERE ... > ...), 1)] *)
Definition retry_after (windowSeconds now : Z) (w : Windows) (bs : list Bucket) : Z :=
  match map (bucket_retry windowSeconds now w) (List.filter (over_limit w) bs) with
  | [] => 1
  | r :: rs => foldl Z.max r rs
  end.

(** The whole statement: [None] when allowed, else the seconds to wait.  Its
    buckets have distinct scopes, so no row is updated twice. *)
Definition rate_statement (windowSeconds now : Z) (bs : list Bucket) (w : Windows)
    : option Z * Windows :=
  let w := apply_windows (window_start windowSeconds now) bs w in
  (if existsb (over_limit w) bs then Some (retry_after windowSeconds now w bs) else None, w).

(** What the callers make of a refusal. *)
Definition refusal_seconds (windowSeconds retryAfter : Z) : Z :=
  if (0 <? retryAfter) && (retryAfter <=? max_safe_integer) then Z.min retryAfter windowSeconds else 1.

(** ** Facts *)

Lemma slotFor_bounds digest32 scope identifier :
  0 <= digest32 (scope +:+ nul +:+ identifier) →
  0 <= slotFor digest32 scope identifier < bucketSlots.
Proof.
  intros Hd. unfold slotFor. change (bucketSlots - 1) with (Z.ones 20). rewrite Z.land_ones by lia.
  change bucketSlots with (2 ^ 20). apply Z.mod_pos_bound. lia.
Qed.

Lemma window_start_bounds ws now :
  0 < ws → window_start ws now <= now < window_start ws now + ws * msPerSecond.
Proof.
  intros Hw. unfold window_start, msPerSecond. pose proof (Z.div_mod now (ws * 1000)) as Hd.
  pose proof (Z.mod_pos_bound now (ws * 1000)). lia.
Qed.

Lemma window_start_mono ws now now' : 0 < ws → now <= now' → window_start ws now <= window_start ws now'.
Proof.
  intros Hw Hle. unfold window_start, msPerSecond. apply Z.mul_le_mono_nonneg_r; [lia|].
  apply Z.div_le_mono; lia.
Qed.

Lemma apply_windows_other start bs w k :
  k ∉ map b_key bs → apply_windows start bs w !! k = w !! k.
Proof.
  revert w. induction bs as [|b bs IH]; intros w Hk; [done|]. simpl in *.
  apply not_elem_of_cons in Hk as [Hk Hbs]. unfold apply_windows in *. simpl. rewrite IH by done.
  by rewrite lookup_insert_ne.
Qed.

Lemma apply_windows_own start bs w b :
  NoDup (map b_key bs) → b ∈ bs → apply_windows start bs w !! b_key b = Some (counted start (w !! b_key b)).
Proof.
  revert w. induction bs as [|b' bs IH]; intros w Hnd Hb; [by apply elem_of_nil in Hb|]. simpl in Hnd.
  apply NoDup_cons in Hnd as [Hb' Hnd]. apply elem_of_cons in Hb as [->|Hb].
  - change (apply_windows start bs (<[b_key b' := counted start (w !! b_key b')]> w) !! b_key b'
      = Some (counted start (w !! b_key b'))).
    rewrite apply_windows_other by done. by rewrite lookup_insert_eq.
  - change (apply_windows start bs (<[b_key b' := counted start (w !! b_key b')]> w) !! b_key b
      = Some (counted start (w !! b_key b))).
    rewrite IH by done. rewrite lookup_insert_ne; [done|]. intros Heq. apply Hb'. rewrite Heq.
    by apply list_elem_of_fmap_2.
Qed.

(** ** Requests in a window *)

(** A statement that counted in bucket [b]: its instant and whether it was
    allowed. *)
Record Request := mkRequest { rq_at : Z; rq_buckets : list Bucket }.

Definition rate_step (ws : Z) (r : Request) (w : Windows) : bool * Windows :=
  let '(refused, w') := rate_statement ws (rq_at r) (rq_buckets r) w in
  (match refused with None => true | Some _ => false end, w').

(** The allowed requests of a sequence that counted in [b] during the window that
    starts at [start]. *)
Fixpoint allowed_in (ws : Z) (b : Bucket) (start : Z) (rs : list Request) (w : Windows) : Z :=
  match rs with
  | [] => 0
  | r :: rs =>
      let '(ok, w') := rate_step ws r w in
      (if ok && bool_decide (b ∈ rq_buckets r) && (window_start ws (rq_at r) =? start) then 1 else 0)
      + allowed_in ws b start rs w'
  end.

(** Requests in the order of their statements, each with distinct buckets. *)
Fixpoint ordered_from (t : Z) (rs : list Request) : Prop :=
  match rs with
  | [] => True
  | r :: rs => t <= rq_at r ∧ NoDup (map b_key (rq_buckets r)) ∧ ordered_from (rq_at r) rs
  end.

(** How much of its limit the bucket has used in the window. *)
Definition used (b : Bucket) (start : Z) (row : option WindowRow) : Z :=
  match row with
  | None => 0
  | Some r =>
      if window_started_at r =? start then Z.min (b_limit b) (request_count r)
      else if start <? window_started_at r then b_limit b else 0
  end.

Definition row_ok (t ws : Z) (row : option WindowRow) : Prop :=
  match row with
  | None => True
  | Some r => window_started_at r <= window_start ws t ∧ 0 <= request_count r
  end.

Lemma counted_ok t ws row : row_ok t ws row → row_ok t ws (Some (counted (window_start ws t) row)).
Proof.
  destruct row as [r|]; simpl; [|unfold maximumStoredCount; lia].
  intros [? ?]. unfold maximumStoredCount. destruct (_ <? _) eqn:E; simpl; lia.
Qed.

Lemma row_ok_later t t' ws row : 0 < ws → t <= t' → row_ok t ws row → row_ok t' ws row.
Proof.
  intros Hws Ht. destruct row as [r|]; [|done]. simpl. intros [? ?].
  pose proof (window_start_mono ws t t' Hws Ht). lia.
Qed.

(** Counting never gives back what is used, and an allowed request in the window
    uses one more. *)
Lemma used_counted b start t ws row :
  0 < b_limit b < maximumStoredCount → row_ok t ws row →
  used b start row <= used b start (Some (counted (window_start ws t) row)) ∧
  (window_start ws t = start →
   request_count (counted (window_start ws t) row) <= b_limit b →
   used b start row + 1 <= used b start (Some (counted (window_start ws t) row))).
Proof.
  intros Hl. unfold maximumStoredCount in *. destruct row as [r|]; simpl.
  - intros [Hle Hc]. unfold maximumStoredCount.
    rewrite Z.max_r by lia.
    destruct (Z.ltb_spec (window_started_at r) (window_start ws t));
      destruct (Z.eqb_spec (window_started_at r) start);
      destruct (Z.eqb_spec (window_start ws t) start);
      destruct (Z.ltb_spec start (window_started_at r));
      destruct (Z.ltb_spec start (window_start ws t)); lia.
  - intros _. destruct (Z.eqb_spec (window_start ws t) start);
      destruct (Z.ltb_spec start (window_start ws t)); lia.
Qed.

Lemma allowed_bound ws b start rs : ∀ t w,
  0 < ws → 0 < b_limit b < maximumStoredCount → ordered_from t rs → row_ok t ws (w !! b_key b) →
  allowed_in ws b start rs w <= b_limit b - used b start (w !! b_key b).
Proof.
  induction rs as [|r rs IH]; intros t w Hws Hl Hord Hrow; simpl.
  - destruct (w !! b_key b) as [x|]; simpl; [|lia].
    destruct (_ =? _); [lia|]. destruct (_ <? _); lia.
  - destruct Hord as (Ht & Hnd & Hord). destruct r as [now bs]. simpl in *.
    set (w' := apply_windows (window_start ws now) bs w).
    apply (row_ok_later t now) in Hrow; [|done|done].
    destruct (decide (b ∈ bs)) as [Hb|Hb].
    + pose proof (apply_windows_own (window_start ws now) bs w b Hnd Hb) as Hown. fold w' in Hown.
      destruct (used_counted b start now ws (w !! b_key b) Hl Hrow) as [Hmono Hone].
      assert (row_ok now ws (w' !! b_key b)) as Hrow' by (rewrite Hown; by apply counted_ok).
      pose proof (IH now w' Hws Hl Hord Hrow') as Hrest. rewrite Hown in Hrest.
      rewrite bool_decide_eq_true_2 by done. unfold rate_step, rate_statement. simpl. fold w'.
      destruct (existsb (over_limit w') bs) eqn:E; simpl; [lia|].
      destruct (Z.eqb_spec (window_start ws now) start); simpl; [|lia].
      assert (request_count (counted (window_start ws now) (w !! b_key b)) <= b_limit b) as Hc.
      { apply not_true_iff_false in E. apply Z.nlt_ge. intros Hlt. apply E. apply existsb_exists.
        exists b. split; [by apply list_elem_of_In|]. unfold over_limit. rewrite Hown. by apply Z.ltb_lt. }
      specialize (Hone e Hc). lia.
    + rewrite bool_decide_eq_false_2 by done. unfold rate_step, rate_statement. simpl. fold w'.
      assert (allowed_in ws b start rs w' <= b_limit b - used b start (w !! b_key b)) as Hrest.
      { destruct (decide (b_key b ∈ map b_key bs)) as [Hk|Hk].
        - apply list_elem_of_In, in_map_iff in Hk as (b' & Hk & Hb'). apply list_elem_of_In in Hb'.
          pose proof (apply_windows_own (window_start ws now) bs w b' Hnd Hb') as Hown. rewrite Hk in Hown.
          fold w' in Hown.
          destruct (used_counted b start now ws (w !! b_key b) Hl Hrow) as [Hmono _].
          assert (row_ok now ws (w' !! b_key b)) as Hrow' by (rewrite Hown; by apply counted_ok).
          pose proof (IH now w' Hws Hl Hord Hrow') as Hrest. rewrite Hown in Hrest. lia.
        - pose proof (apply_windows_other (window_start ws now) bs w (b_key b) Hk) as Hother. fold w' in Hother.
          rewrite <- Hother. apply (IH now); [done|done|done|]. by rewrite Hother. }
      rewrite andb_false_r. simpl. destruct (existsb (over_limit w') bs); simpl; lia.
Qed.

(** ** Requests by the window they are counted in

    Statements need not run in the order of their clocks: a late one is counted in
    the window its row has reached. *)

(** The window the bucket's row stands at. *)
Definition stands_at (b : Bucket) (start : Z) (w : Windows) : bool :=
  match w !! b_key b with Some r => window_started_at r =? start | None => false end.

(** The allowed requests of a sequence that were counted in [b] in the window. *)
Fixpoint counted_in (ws : Z) (b : Bucket) (start : Z) (rs : list Request) (w : Windows) : Z :=
  match rs with
  | [] => 0
  | r :: rs =>
      let '(ok, w') := rate_step ws r w in
      (if ok && bool_decide (b ∈ rq_buckets r) && stands_at b start w' then 1 else 0) + counted_in ws b start rs w'
  end.

Definition distinct_buckets (r : Request) : Prop := NoDup (map b_key (rq_buckets r)).

Definition row_nonneg (row : option WindowRow) : Prop :=
  match row with None => True | Some r => 0 <= request_count r end.

Lemma used_nonneg b start row : 0 < b_limit b → row_nonneg row → 0 <= used b start row <= b_limit b.
Proof. destruct row as [r|]; simpl; [|lia]. repeat case_match; lia. Qed.

(** Whatever window a statement counts for, what is used only grows, by one for an
    allowed request the row counts at [start]. *)
Lemma used_any b start start' row :
  0 < b_limit b < maximumStoredCount → row_nonneg row →
  let row' := counted start' row in
  row_nonneg (Some row') ∧ used b start row <= used b start (Some row') ∧
  (window_started_at row' = start → request_count row' <= b_limit b → used b start row + 1 <= used b start (Some row')).
Proof.
  intros Hl. unfold maximumStoredCount in *. destruct row as [r|]; simpl; unfold maximumStoredCount.
  - intros Hc. destruct (Z.ltb_spec (window_started_at r) start'); destruct (Z.eqb_spec (window_started_at r) start);
      destruct (Z.eqb_spec (window_started_at r `max` start') start); destruct (Z.ltb_spec start (window_started_at r));
      destruct (Z.ltb_spec start (window_started_at r `max` start')); lia.
  - intros _. destruct (Z.eqb_spec start' start); destruct (Z.ltb_spec start start'); lia.
Qed.

Lemma rate_step_used ws r b start w :
  0 < b_limit b < maximumStoredCount → distinct_buckets r → row_nonneg (w !! b_key b) →
  let '(ok, w') := rate_step ws r w in
  row_nonneg (w' !! b_key b) ∧
  used b start (w !! b_key b) + (if ok && bool_decide (b ∈ rq_buckets r) && stands_at b start w' then 1 else 0)
    <= used b start (w' !! b_key b).
Proof.
  intros Hl Hnd Hrow. destruct r as [now bs]. unfold distinct_buckets in Hnd. simpl in *.
  unfold rate_step, rate_statement. simpl. set (w' := apply_windows (window_start ws now) bs w).
  destruct (used_any b start (window_start ws now) (w !! b_key b) Hl Hrow) as (Hrow' & Hmono & Hone).
  destruct (decide (b_key b ∈ map b_key bs)) as [Hk|Hk].
  - assert (w' !! b_key b = Some (counted (window_start ws now) (w !! b_key b))) as Hown.
    { apply list_elem_of_In, in_map_iff in Hk as (b' & <- & Hb'). apply list_elem_of_In in Hb'.
      by apply apply_windows_own. }
    unfold stands_at. rewrite Hown. set (row' := counted _ _) in *.
    destruct (existsb (over_limit w') bs) eqn:E; cbn [andb]; [split; [done|lia]|].
    split; [done|]. destruct (bool_decide (b ∈ bs)) eqn:Eb; cbn [andb]; [|lia]. bool_simp.
    destruct (Z.eqb_spec (window_started_at row') start); [|lia].
    apply Hone; [done|]. apply Z.nlt_ge. intros Hlt. apply not_true_iff_false in E. apply E, existsb_exists.
    exists b. split; [by apply list_elem_of_In|]. unfold over_limit. rewrite Hown. by apply Z.ltb_lt.
  - rewrite (bool_decide_eq_false_2 (b ∈ bs)); [|intros Hb; by apply Hk, list_elem_of_fmap_2].
    assert (w' !! b_key b = w !! b_key b) as -> by (by apply apply_windows_other).
    rewrite andb_false_r. destruct (existsb (over_limit w') bs); cbn [andb]; split; done || lia.
Qed.

Lemma counted_bound ws b start rs : ∀ w,
  0 < b_limit b < maximumStoredCount → Forall distinct_buckets rs → row_nonneg (w !! b_key b) →
  counted_in ws b start rs w <= b_limit b - used b start (w !! b_key b).
Proof.
  induction rs as [|r rs IH]; intros w Hl Hnd Hrow; cbn [counted_in].
  - pose proof (used_nonneg b start _ ltac:(lia) Hrow). lia.
  - apply Forall_cons in Hnd as [Hr Hnd]. pose proof (rate_step_used ws r b start w Hl Hr Hrow) as Hstep.
    destruct (rate_step ws r w) as [ok w']. destruct Hstep as [Hrow' Hu]. specialize (IH w' Hl Hnd Hrow'). lia.
Qed.

(** ** Waiting *)

Lemma foldl_max_spec r rs : r <= foldl Z.max r rs ∧ (foldl Z.max r rs = r ∨ foldl Z.max r rs ∈ rs).
Proof.
  revert r. induction rs as [|x rs IH]; intros r; simpl; [auto with lia|].
  destruct (IH (Z.max r x)) as [Hle Hin]. split; [lia|].
  destruct Hin as [Hin|Hin]; [|right; set_solver].
  rewrite Hin in *. destruct (Z.max_spec r x) as [[_ ->]|[_ ->]]; [right; set_solver|by left].
Qed.

(** Rows that no later instant than [now] wrote all stand in its window. *)
Lemma counted_now ws now row :
  row_ok now ws row → window_started_at (counted (window_start ws now) row) = window_start ws now.
Proof. destruct row; simpl; [|done]. intros [? _]. lia. Qed.

Definition wait (ws now : Z) : Z :=
  Z.max 1 (ceil_div (window_start ws now + ws * msPerSecond - now) msPerSecond).

Lemma wait_bounds ws now :
  0 < ws → 1 <= wait ws now <= ws ∧
    window_start ws now + ws * msPerSecond <= now + wait ws now * msPerSecond.
Proof.
  intros Hws. pose proof (window_start_bounds ws now Hws). unfold wait, msPerSecond in *.
  pose proof (ceil_div_spec (window_start ws now + ws * 1000 - now) 1000 ltac:(lia)). lia.
Qed.

Lemma retry_is_wait ws now bs w :
  (∀ b, b ∈ bs → row_ok now ws (w !! b_key b)) → NoDup (map b_key bs) →
  existsb (over_limit (apply_windows (window_start ws now) bs w)) bs = true →
  retry_after ws now (apply_windows (window_start ws now) bs w) bs = wait ws now.
Proof.
  intros Hok Hnd Hex. set (w' := apply_windows _ _ _) in *.
  assert (∀ b, b ∈ bs → bucket_retry ws now w' b = wait ws now) as Hb.
  { intros b Hb. unfold bucket_retry, w'. rewrite apply_windows_own by done.
    by rewrite counted_now by auto. }
  unfold retry_after.
  destruct (map (bucket_retry ws now w') (List.filter (over_limit w') bs)) as [|r rs] eqn:E.
  - exfalso. apply existsb_exists in Hex as (b & Hin & Ho).
    assert (b ∈ List.filter (over_limit w') bs) as Hf by (apply list_elem_of_In, filter_In; done).
    apply (list_elem_of_fmap_2 (bucket_retry ws now w')) in Hf.
    change (bucket_retry ws now w' <$> List.filter (over_limit w') bs)
      with (map (bucket_retry ws now w') (List.filter (over_limit w') bs)) in Hf.
    rewrite E in Hf. by apply elem_of_nil in Hf.
  - assert (∀ x, x ∈ r :: rs → x = wait ws now) as Hall.
    { rewrite <- E. intros x Hx. apply list_elem_of_In, in_map_iff in Hx as (b & <- & Hx).
      apply filter_In in Hx as [Hx _]. apply Hb. by apply list_elem_of_In. }
    destruct (foldl_max_spec r rs) as [_ [->|Hin]]; apply Hall; set_solver.
Qed.

(** A refusal names a wait within the window, and a caller that waits so long is
    admitted when no one else took the bucket. *)
Lemma wait_is_enough ws now bs w r w' :
  0 < ws <= max_safe_integer → (∀ b, b ∈ bs → row_ok now ws (w !! b_key b)) → NoDup (map b_key bs) →
  (∀ b, b ∈ bs → 1 <= b_limit b) → rate_statement ws now bs w = (Some r, w') →
  1 <= refusal_seconds ws r <= ws ∧
  (rate_statement ws (now + refusal_seconds ws r * msPerSecond) bs w').1 = None.
Proof.
  intros Hws Hok Hnd Hl H. unfold rate_statement in H.
  destruct (existsb _ bs) eqn:E; [|done]. injection H as <- <-.
  rewrite retry_is_wait by done. destruct (wait_bounds ws now ltac:(lia)) as [Hw Hlate].
  assert (refusal_seconds ws (wait ws now) = wait ws now) as ->.
  { unfold refusal_seconds. destruct (Z.ltb_spec 0 (wait ws now)); [|lia].
    destruct (Z.leb_spec (wait ws now) max_safe_integer); simpl; lia. }
  split; [done|]. set (later := now + wait ws now * msPerSecond) in *.
  set (w1 := apply_windows (window_start ws now) bs w).
  assert (window_start ws now < window_start ws later) as Hnew.
  { pose proof (window_start_bounds ws later ltac:(lia)). unfold window_start, msPerSecond in *. nia. }
  unfold rate_statement. simpl.
  assert (existsb (over_limit (apply_windows (window_start ws later) bs w1)) bs = false) as ->; [|done].
  apply not_true_iff_false. intros (b & Hb & Ho)%existsb_exists. apply list_elem_of_In in Hb.
  unfold over_limit in Ho. rewrite apply_windows_own in Ho by done. unfold w1 in Ho.
  rewrite apply_windows_own in Ho by done. simpl in Ho. rewrite counted_now in Ho by auto.
  destruct (Z.ltb_spec (window_start ws now) (window_start ws later)); [|lia].
  apply Z.ltb_lt in Ho. specialize (Hl b Hb). lia.
Qed.
