(* ===== verification/StreamAdmission.v ===== *)
(** * Stream admission

    src/apps/nehemiah/src/domain/stream-admission.ts: the leases gateways hold for
    streams, the quotas of organization and project they count against, and the
    counters of route requests.  Each statement of a transaction has its own
    [statement_timestamp()]. *)

From S2P Require Import Prelude Text Js Capacity RateWindow.

Record StreamAdmissionRequest := mkStreamRequest {
  sr_id : string;
  sr_organization_id : string;
  sr_project_id : string;
  sr_authority_kind : string;
  sr_authority_id : string;
  sr_instance_id : string;
  sr_bandwidth : number
}.

Record StreamRequestRateConfig := mkStreamRate {
  st_window_seconds : Z;
  st_authority_requests : Z;
  st_project_requests : Z;
  st_organization_requests : Z
}.

Inductive StreamError : Type :=
| StreamAdmissionRejected
| StreamRequestRateExceeded (retryAfterSeconds : Z)
| InvalidStreamAdmission (message : string).

(** A row of [gateway_stream_leases]; its key is the lease's uuid. *)
Record LeaseRow := mkLease {
  gl_organization_id : string;
  gl_project_id : string;
  gl_authority_kind : string;
  gl_authority_id : string;
  gl_instance_id : string;
  gl_bandwidth : Z;
  gl_heartbeat_at : Z;
  gl_expires_at : Z
}.
#[export] Instance LeaseRow_eta : Settable LeaseRow := λ r,
  mkLease (gl_organization_id r) (gl_project_id r) (gl_authority_kind r) (gl_authority_id r)
    (gl_instance_id r) (gl_bandwidth r) (gl_heartbeat_at r) (gl_expires_at r).

Record StreamLimits := mkStreamLimits { max_streams : Z; max_bandwidth : Z }.

Record StreamDb := mkStreamDb {
  stream_organizations : gmap string StreamLimits;
  (** with the organization that owns the project *)
  stream_projects : gmap string (string * StreamLimits);
  leases : gmap string LeaseRow;
  request_windows : Windows
}.
#[export] Instance StreamDb_eta : Settable StreamDb := λ r,
  mkStreamDb (stream_organizations r) (stream_projects r) (leases r) (request_windows r).

(** ** Validation *)

(** [/^[A-Za-z0-9][A-Za-z0-9._:-]{0,127}$/] *)
Definition identityPattern : re :=
  Cat (Chr alnum) (rep 0 127 (Chr (λ c, alnum c || one_of "._:-" c))).
(** [/^[A-Za-z0-9][A-Za-z0-9._:-]{0,254}$/] *)
Definition authorityIdentityPattern : re :=
  Cat (Chr alnum) (rep 0 254 (Chr (λ c, alnum c || one_of "._:-" c))).

(** The bandwidth of a valid request. *)
Definition validate (request : StreamAdmissionRequest) : result StreamError Z :=
  if negb (test uuidPattern (sr_id request)) || negb (test uuidPattern (sr_organization_id request))
     || negb (test uuidPattern (sr_project_id request))
  then Err (InvalidStreamAdmission "stream and tenant identities must be UUIDs")
  else if negb (test identityPattern (sr_instance_id request))
     || negb (test authorityIdentityPattern (sr_authority_id request))
     || negb (string_in (sr_authority_kind request) ["machine_capability"; "volume_capability"])
  then Err (InvalidStreamAdmission "stream admission fields are invalid")
  else match safe_between 1 1073741824 (sr_bandwidth request) with
       | Some bandwidth => Ok bandwidth
       | None => Err (InvalidStreamAdmission "stream admission fields are invalid")
       end.

(** The constructor's check of the rate configuration. *)
Definition valid_rate (c : StreamRequestRateConfig) : bool :=
  (10 <=? st_window_seconds c) && (st_window_seconds c <=? 3600) &&
  forallb (λ l, (1 <=? l) && (l <=? 1000000))
    [st_authority_requests c; st_project_requests c; st_organization_requests c].

Definition defaultRequestRateConfig : StreamRequestRateConfig := mkStreamRate 60 120 3000 12000.

(** ** Route requests *)

(** The lease this very request holds at [now]. *)
Definition exact_active_lease (now : Z) (request : StreamAdmissionRequest) (bandwidth : Z)
    (db : StreamDb) : bool :=
  match leases db !! uuid_text (sr_id request) with
  | Some l =>
      String.eqb (gl_organization_id l) (uuid_text (sr_organization_id request)) &&
      String.eqb (gl_project_id l) (uuid_text (sr_project_id request)) &&
      String.eqb (gl_authority_kind l) (sr_authority_kind request) &&
      String.eqb (gl_authority_id l) (sr_authority_id request) &&
      String.eqb (gl_instance_id l) (sr_instance_id request) &&
      (gl_bandwidth l =? bandwidth) && (now <? gl_expires_at l)
  | None => false
  end.

Section admission.
Context (digest32 : string → Z) (requestRate : StreamRequestRateConfig).

Definition requestSlot : string → string → Z := slotFor digest32.

Definition route_buckets (request : StreamAdmissionRequest) : list Bucket :=
  [mkBucket "authority" (requestSlot "authority" (sr_organization_id request +:+ nul +:+
      sr_authority_kind request +:+ nul +:+ sr_authority_id request))
     (st_authority_requests requestRate);
   mkBucket "project" (requestSlot "project" (sr_organization_id request +:+ nul +:+ sr_project_id request))
     (st_project_requests requestRate);
   mkBucket "organization" (requestSlot "organization" (sr_organization_id request))
     (st_organization_requests requestRate)].

(** [admitRouteRequest]: the statement commits its counts also when it refuses. *)
Definition admitRouteRequest (now : Z) (request : StreamAdmissionRequest)
    : Act StreamDb StreamError unit := λ db,
  match validate request with
  | Err e => (Err e, db)
  | Ok bandwidth =>
      if exact_active_lease now request bandwidth db then (Ok tt, db)
      else
        let '(refused, w) := rate_statement (st_window_seconds requestRate) now
          (route_buckets request) (request_windows db) in
        (match refused with
         | None => Ok tt
         | Some retryAfter =>
             Err (StreamRequestRateExceeded (refusal_seconds (st_window_seconds requestRate) retryAfter))
         end, db <| request_windows := w |>)
  end.
End admission.

(** ** Leases *)

Definition leaseSeconds : Z := 15.

Definition expired_of (organization : string) (now : Z) (l : LeaseRow) : bool :=
  String.eqb (gl_organization_id l) organization && (gl_expires_at l <=? now).

Definition counts_for (organization : string) (project : option string) (now : Z) (l : LeaseRow) : bool :=
  String.eqb (gl_organization_id l) organization && (now <? gl_expires_at l) &&
  match project with Some p => String.eqb (gl_project_id l) p | None => true end.

(** [count( * )] and [sum(bandwidth_bytes_per_second)] *)
Definition streams (p : LeaseRow → bool) (ls : gmap string LeaseRow) : Z :=
  map_sum (λ l, if p l then 1 else 0) ls.
Definition bandwidths (p : LeaseRow → bool) (ls : gmap string LeaseRow) : Z :=
  map_sum (λ l, if p l then gl_bandwidth l else 0) ls.

(** The comparisons of the service: the columns print canonical text, the
    request is compared as it came. *)
Definition same_identity (request : StreamAdmissionRequest) (bandwidth : Z) (l : LeaseRow) : bool :=
  String.eqb (gl_organization_id l) (sr_organization_id request) &&
  String.eqb (gl_project_id l) (sr_project_id request) &&
  String.eqb (gl_authority_kind l) (sr_authority_kind request) &&
  String.eqb (gl_authority_id l) (sr_authority_id request) &&
  String.eqb (gl_instance_id l) (sr_instance_id request) && (gl_bandwidth l =? bandwidth).

Definition new_lease (now : Z) (request : StreamAdmissionRequest) (bandwidth : Z) : LeaseRow :=
  mkLease (uuid_text (sr_organization_id request)) (uuid_text (sr_project_id request))
    (sr_authority_kind request) (sr_authority_id request) (sr_instance_id request) bandwidth now
    (now + leaseSeconds * msPerSecond).

(** The WHERE clause of the upsert. *)
Definition same_row (a b : LeaseRow) : bool :=
  String.eqb (gl_organization_id a) (gl_organization_id b) &&
  String.eqb (gl_project_id a) (gl_project_id b) &&
  String.eqb (gl_authority_kind a) (gl_authority_kind b) &&
  String.eqb (gl_authority_id a) (gl_authority_id b) &&
  String.eqb (gl_instance_id a) (gl_instance_id b) && (gl_bandwidth a =? gl_bandwidth b).

(** The clocks of the statements that read it: the DELETE, the count, the
    INSERT. *)
Record AcquireClock := mkAcquireClock { ac_reap : Z; ac_count : Z; ac_insert : Z }.

Record StreamLease := mkStreamLease { ls_id : string; ls_bandwidth : Z; ls_expires_at : Z }.

Definition exhausted (limit : StreamLimits) (p : LeaseRow → bool) (streams_more bandwidth_more : Z)
    (ls : gmap string LeaseRow) : bool :=
  (max_streams limit <? streams p ls + streams_more) ||
  (max_bandwidth limit <? bandwidths p ls + bandwidth_more).

Definition replayed : StreamError :=
  InvalidStreamAdmission "stream id was replayed with a different identity".

Definition upsert_lease (now : Z) (id : string) (row : LeaseRow) : Tx StreamDb StreamError StreamLease :=
  λ db,
    match leases db !! id with
    | None =>
        Ok (mkStreamLease id (gl_bandwidth row) (gl_expires_at row), db <| leases ::= <[id := row]> |>)
    | Some l =>
        if same_row l row
        then Ok (mkStreamLease id (gl_bandwidth l) (gl_expires_at row),
                 db <| leases ::= <[id := l <| gl_heartbeat_at := now |>
                                             <| gl_expires_at := gl_expires_at row |>]> |>)
        else Err replayed
    end.

Definition acquire (clock : AcquireClock) (request : StreamAdmissionRequest)
    : Tx StreamDb StreamError StreamLease := λ db,
  match validate request with
  | Err e => Err e
  | Ok bandwidth =>
      let organization := uuid_text (sr_organization_id request) in
      let project := uuid_text (sr_project_id request) in
      let id := uuid_text (sr_id request) in
      match stream_organizations db !! organization, stream_projects db !! project with
      | Some organizationLimit, Some (owner, projectLimit) =>
          if negb (String.eqb owner organization)
          then Err (InvalidStreamAdmission "stream tenant does not exist")
          else
            let db := db <| leases ::= filter (λ kv, expired_of organization (ac_reap clock) kv.2 = false) |> in
            let current := leases db !! id in
            if match current with Some l => negb (same_identity request bandwidth l) | None => false end
            then Err replayed
            else
              let fresh := bool_decide (current = None) in
              let more_streams := if fresh then 1 else 0 in
              let more_bandwidth := if fresh then bandwidth else 0 in
              if exhausted organizationLimit (counts_for organization None (ac_count clock))
                   more_streams more_bandwidth (leases db) ||
                 exhausted projectLimit (counts_for organization (Some project) (ac_count clock))
                   more_streams more_bandwidth (leases db)
              then Err StreamAdmissionRejected
              else upsert_lease (ac_insert clock) id (new_lease (ac_insert clock) request bandwidth) db
      | _, _ => Err (InvalidStreamAdmission "stream tenant does not exist")
      end
  end.

Definition release (id instanceId : string) : Tx StreamDb StreamError unit := λ db,
  if negb (test uuidPattern id) || negb (test identityPattern instanceId)
  then Err (InvalidStreamAdmission "stream release identity is invalid")
  else Ok (tt, match leases db !! uuid_text id with
               | Some l => if String.eqb (gl_instance_id l) instanceId
                           then db <| leases ::= delete (uuid_text id) |> else db
               | None => db
               end).

(** [ORDER BY expires_at, id] *)
Definition reap_order (a b : string * LeaseRow) : Z :=
  let d := gl_expires_at a.2 - gl_expires_at b.2 in
  if negb (d =? 0) then d else codeUnitCompare a.1 b.1.

Definition reap_batch (now : Z) (limit : nat) (locked : gset string) (db : StreamDb)
    : list (string * LeaseRow) :=
  take limit (sort_by reap_order
    (List.filter (λ kv, (gl_expires_at kv.2 <=? now) && bool_decide (kv.1 ∉ locked))
       (map_to_list (leases db)))).

Definition reapExpired (now : Z) (limit : number) (locked : gset string) : Tx StreamDb StreamError Z := λ db,
  match safe_between 1 10000 limit with
  | None => Err (InvalidStreamAdmission "stream reap limit is invalid")
  | Some n =>
      let batch := reap_batch now (Z.to_nat n) locked db in
      Ok (Z.of_nat (length batch),
          db <| leases ::= filter (λ kv, string_in kv.1 (map fst batch) = false) |>)
  end.
