(* ===== verification/StreamTheorems.v ===== *)
(** * Theorems about stream admission

    Leases stay within the quotas of organization and project at every instant,
    requests within their windows, and a lease can be renewed; but only by a
    caller that spells its tenant the way the database prints it. *)

From S2P Require Import Prelude Text Js Capacity RateWindow StreamAdmission.

(** ** Weights of leases *)

Definition weigh (w : LeaseRow → Z) (p : LeaseRow → bool) (ls : gmap string LeaseRow) : Z :=
  map_sum (λ l, if p l then w l else 0) ls.

Lemma streams_weigh p ls : streams p ls = weigh (λ _, 1) p ls.
Proof. done. Qed.
Lemma bandwidths_weigh p ls : bandwidths p ls = weigh gl_bandwidth p ls.
Proof. done. Qed.

Section weights.
Context (w : LeaseRow → Z).

Definition weighty (ls : gmap string LeaseRow) : Prop := ∀ id l, ls !! id = Some l → 0 <= w l.

Lemma weigh_le p q ls :
  weighty ls → (∀ l, p l = true → q l = true) → weigh w p ls <= weigh w q ls.
Proof.
  intros Hw Hpq. apply map_sum_le. intros id l Hl. specialize (Hw id l Hl). specialize (Hpq l).
  destruct (p l), (q l); try lia; by discriminate Hpq.
Qed.

Lemma weigh_subseteq p ls ls' : weighty ls → ls' ⊆ ls → weigh w p ls' <= weigh w p ls.
Proof.
  intros Hw Hsub. apply map_sum_subseteq; [|done]. intros id l Hl. specialize (Hw id l Hl).
  destruct (p l); lia.
Qed.

Lemma weigh_new p ls id l :
  ls !! id = None → weigh w p (<[id := l]> ls) = (if p l then w l else 0) + weigh w p ls.
Proof. apply map_sum_insert_new. Qed.

Lemma weigh_set p ls id l l' :
  ls !! id = Some l →
  weigh w p (<[id := l']> ls)
  = weigh w p ls - (if p l then w l else 0) + (if p l' then w l' else 0).
Proof. apply map_sum_insert. Qed.

Lemma weigh_take p ls id l :
  ls !! id = Some l → weigh w p ls = (if p l then w l else 0) + weigh w p (delete id ls).
Proof. apply map_sum_delete. Qed.
End weights.

(** Time only ends leases. *)
Lemma counts_later org project t t' l :
  t <= t' → counts_for org project t' l = true → counts_for org project t l = true.
Proof.
  intros Ht. unfold counts_for. intros [[-> Hl]%andb_true_iff ->]%andb_true_iff.
  apply Z.ltb_lt in Hl. assert ((t <? gl_expires_at l) = true) as -> by (apply Z.ltb_lt; lia). done.
Qed.

(** ** Quotas *)

(** The leases of a scope weigh at most its limit from [t] on. *)
Definition below (w : LeaseRow → Z) (limit t : Z) (org : string) (project : option string)
    (ls : gmap string LeaseRow) : Prop :=
  ∀ t', t <= t' → weigh w (counts_for org project t') ls <= limit.

Definition within (limit : StreamLimits) (t : Z) (org : string) (project : option string)
    (ls : gmap string LeaseRow) : Prop :=
  below (λ _, 1) (max_streams limit) t org project ls ∧
  below gl_bandwidth (max_bandwidth limit) t org project ls.

Definition positive (ls : gmap string LeaseRow) : Prop := weighty gl_bandwidth ls.

(** [clock o]: the last instant at which a transaction held the row of [o]. *)
Record quotas_ok (clock : string → Z) (db : StreamDb) : Prop := mkQuotasOk {
  qo_positive : positive (leases db);
  qo_organization : ∀ o limit, stream_organizations db !! o = Some limit →
    within limit (clock o) o None (leases db);
  qo_project : ∀ p o limit, stream_projects db !! p = Some (o, limit) →
    within limit (clock o) o (Some p) (leases db)
}.

Lemma below_subseteq w limit t org project ls ls' :
  weighty w ls → ls' ⊆ ls → below w limit t org project ls → below w limit t org project ls'.
Proof.
  intros Hw Hsub Hb t' Ht. specialize (Hb t' Ht).
  pose proof (weigh_subseteq w (counts_for org project t') ls ls' Hw Hsub). lia.
Qed.

Lemma below_later w limit t t' org project ls :
  t <= t' → below w limit t org project ls → below w limit t' org project ls.
Proof. intros Ht Hb u Hu. apply Hb. lia. Qed.

(** Leases of another organization do not count. *)
Lemma counts_elsewhere org project t l : gl_organization_id l ≠ org → counts_for org project t l = false.
Proof. unfold counts_for. intros Hne. destruct (String.eqb_spec (gl_organization_id l) org); [done|]. done. Qed.

(** A new lease, after its weight was checked at [t]. *)
Lemma below_new w limit t t' org project ls id l :
  weighty w ls → ls !! id = None → 0 <= w l → t <= t' →
  weigh w (counts_for org project t) ls + w l <= limit →
  below w limit t' org project (<[id := l]> ls).
Proof.
  intros Hw Hid Hl Ht Hle u Hu. rewrite weigh_new by done.
  pose proof (weigh_le w (counts_for org project u) (counts_for org project t) ls Hw
    (λ l, counts_later org project t u l ltac:(lia))).
  destruct (counts_for org project u l); lia.
Qed.

(** A renewed lease counted when its transaction began. *)
Lemma below_renewed w limit t t' org project ls id l l' :
  weighty w ls → ls !! id = Some l → w l' = w l → t <= t' →
  (∀ u, counts_for org project u l' = true → counts_for org project t l = true) →
  below w limit t org project ls → below w limit t' org project (<[id := l']> ls).
Proof.
  intros Hw Hid Hl Ht Hc Hb u Hu. rewrite weigh_set with (l := l) by done.
  specialize (Hb t ltac:(lia)). rewrite (weigh_take w _ ls id l) by done.
  rewrite (weigh_take w _ ls id l) in Hb by done.
  assert (weighty w (delete id ls)) as Hw'.
  { intros k x Hx. apply lookup_delete_Some in Hx as [_ Hx]. by apply (Hw k). }
  pose proof (weigh_le w (counts_for org project u) (counts_for org project t) (delete id ls) Hw'
    (λ l, counts_later org project t u l ltac:(lia))).
  specialize (Hc u). specialize (Hw id l Hid).
  destruct (counts_for org project u l'), (counts_for org project t l), (counts_for org project u l);
    try lia; discriminate (Hc eq_refl).
Qed.

(** ** Runs *)

(** The tables after a transaction. *)
Definition settles {A} (m : Tx StreamDb StreamError A) (db : StreamDb) : StreamDb := (transaction m db).2.

Lemma settles_cases {A} (m : Tx StreamDb StreamError A) db :
  settles m db = db ∨ ∃ a, m db = Ok (a, settles m db).
Proof.
  unfold settles, transaction. destruct (m db) as [[a s]|e]; [right|left; done]. by exists a.
Qed.

Definition tick (o : string) (t : Z) (clock : string → Z) : string → Z :=
  λ o', if String.eqb o' o then t else clock o'.

(** Tenants appear and their limits are raised. *)
Definition limit_le (a b : StreamLimits) : Prop :=
  max_streams a <= max_streams b ∧ max_bandwidth a <= max_bandwidth b.
Definition no_lease (o : string) (project : option string) (db : StreamDb) : Prop :=
  ∀ id l, leases db !! id = Some l →
    (String.eqb (gl_organization_id l) o &&
     match project with Some p => String.eqb (gl_project_id l) p | None => true end) = false.
Definition limit_from (o : string) (project : option string) (db : StreamDb) (old : option StreamLimits)
    (limit : StreamLimits) : Prop :=
  match old with
  | Some before => limit_le before limit
  | None => no_lease o project db ∧ 0 <= max_streams limit ∧ 0 <= max_bandwidth limit
  end.
Definition owned_limit (o : string) (row : option (string * StreamLimits)) : option StreamLimits :=
  match row with Some (o', limit) => if String.eqb o' o then Some limit else None | None => None end.

Record tenants (db db' : StreamDb) : Prop := mkTenants {
  te_leases : leases db' = leases db;
  te_organizations : ∀ o limit, stream_organizations db' !! o = Some limit →
    limit_from o None db (stream_organizations db !! o) limit;
  te_projects : ∀ p o limit, stream_projects db' !! p = Some (o, limit) →
    limit_from o (Some p) db (owned_limit o (stream_projects db !! p)) limit
}.

(** The row of an organization is locked from before the first statement of an
    acquisition that reads the clock, so its acquisitions happen one after
    another. *)
Inductive stream_step (digest32 : string → Z) (rate : StreamRequestRateConfig) :
    (string → Z) * StreamDb → (string → Z) * StreamDb → Prop :=
| step_acquire clock db c request :
    clock (uuid_text (sr_organization_id request)) <= ac_reap c →
    ac_reap c <= ac_count c → ac_count c <= ac_insert c →
    stream_step digest32 rate (clock, db)
      (tick (uuid_text (sr_organization_id request)) (ac_insert c) clock, settles (acquire c request) db)
| step_release clock db id instance :
    stream_step digest32 rate (clock, db) (clock, settles (release id instance) db)
| step_reap clock db now limit locked :
    stream_step digest32 rate (clock, db) (clock, settles (reapExpired now limit locked) db)
| step_route clock db now request :
    stream_step digest32 rate (clock, db) (clock, (admitRouteRequest digest32 rate now request db).2)
| step_tenants clock db db' :
    tenants db db' → stream_step digest32 rate (clock, db) (clock, db').

Lemma quotas_subseteq clock db ls :
  ls ⊆ leases db → quotas_ok clock db → quotas_ok clock (db <| leases := ls |>).
Proof.
  intros Hsub [Hp Ho Hpr].
  assert (∀ limit t o pr, within limit t o pr (leases db) → within limit t o pr ls) as Hw.
  { intros limit t o pr [H1 H2]. split; (eapply below_subseteq; [|exact Hsub|done]); [by intros ?|exact Hp]. }
  constructor; simpl.
  - intros id l Hl. apply (Hp id). eapply lookup_weaken; [exact Hl|exact Hsub].
  - intros o limit Hl. by apply Hw, Ho.
  - intros p o limit Hl. by apply Hw, Hpr.
Qed.

Lemma filter_leases (P : string * LeaseRow → Prop) `{∀ x, Decision (P x)} db :
  db <| leases ::= filter P |> = db <| leases := filter P (leases db) |>.
Proof. done. Qed.

Lemma delete_leases id db : db <| leases ::= delete id |> = db <| leases := delete id (leases db) |>.
Proof. done. Qed.

(** The rows of the organization an acquisition reads after its DELETE. *)
Definition swept (c : AcquireClock) (request : StreamAdmissionRequest) (db : StreamDb) : gmap string LeaseRow :=
  filter (λ kv, expired_of (uuid_text (sr_organization_id request)) (ac_reap c) kv.2 = false) (leases db).

(** What a successful acquisition found, besides what it wrote. *)
Record acquired (c : AcquireClock) (request : StreamAdmissionRequest) (db : StreamDb)
    (ol pl : StreamLimits) (l' : LeaseRow) : Prop := mkAcquired {
  aq_positive : 1 <= gl_bandwidth l';
  aq_organization : stream_organizations db !! gl_organization_id l' = Some ol;
  aq_project : stream_projects db !! gl_project_id l' = Some (gl_organization_id l', pl);
  aq_own : gl_organization_id l' = uuid_text (sr_organization_id request);
  aq_expires : gl_expires_at l' = ac_insert c + leaseSeconds * msPerSecond;
  aq_found :
    match swept c request db !! uuid_text (sr_id request) with
    | None => ∀ pr limit, (pr = None ∧ limit = ol) ∨ (pr = Some (gl_project_id l') ∧ limit = pl) →
        streams (counts_for (gl_organization_id l') pr (ac_count c)) (swept c request db) + 1 <= max_streams limit ∧
        bandwidths (counts_for (gl_organization_id l') pr (ac_count c)) (swept c request db) + gl_bandwidth l'
          <= max_bandwidth limit
    | Some l => gl_organization_id l = gl_organization_id l' ∧ gl_project_id l = gl_project_id l' ∧
        gl_bandwidth l = gl_bandwidth l' ∧ ac_reap c < gl_expires_at l
    end
}.

Lemma exhausted_false limit p ms mb ls :
  exhausted limit p ms mb ls = false →
  streams p ls + ms <= max_streams limit ∧ bandwidths p ls + mb <= max_bandwidth limit.
Proof. unfold exhausted. intros [?%Z.ltb_ge ?%Z.ltb_ge]%orb_false_iff. lia. Qed.

Lemma swept_lookup c request db id l :
  swept c request db !! id = Some l →
  gl_organization_id l = uuid_text (sr_organization_id request) → ac_reap c < gl_expires_at l.
Proof.
  intros [_ He]%map_lookup_filter_Some Ho. simpl in He. unfold expired_of in He.
  rewrite Ho, String.eqb_refl in He. simpl in He. by apply Z.leb_gt in He.
Qed.

Lemma acquire_spec c request db lease db' :
  acquire c request db = Ok (lease, db') →
  ∃ ol pl l', acquired c request db ol pl l' ∧
    db' = db <| leases := <[uuid_text (sr_id request) := l']> (swept c request db) |> ∧
    lease = mkStreamLease (uuid_text (sr_id request)) (gl_bandwidth l') (gl_expires_at l').
Proof.
  unfold acquire. destruct (validate request) as [bandwidth|e] eqn:Ev; [|done].
  assert (1 <= bandwidth) as Hb.
  { unfold validate in Ev. destruct (_ || _ || _); [done|]. destruct (_ || _ || _); [done|].
    destruct (safe_between _ _ _) as [z|] eqn:Es; [|done]. injection Ev as <-.
    apply safe_between_Some in Es. lia. }
  cbv zeta. set (o := uuid_text (sr_organization_id request)). set (p := uuid_text (sr_project_id request)).
  set (id := uuid_text (sr_id request)).
  destruct (stream_organizations db !! o) as [ol|] eqn:Eo; [|done].
  destruct (stream_projects db !! p) as [[owner pl]|] eqn:Ep; [|done].
  destruct (String.eqb_spec owner o) as [->|]; [|done]. cbn [negb].
  rewrite filter_leases. cbn [leases set_field]. fold o. change (filter _ (leases db)) with (swept c request db).
  set (new := new_lease (ac_insert c) request bandwidth).
  destruct (match swept c request db !! id with Some l => _ | None => false end) eqn:Esame; [done|].
  destruct (exhausted ol _ _ _ _ || exhausted pl _ _ _ _) eqn:Eq; [done|].
  apply orb_false_iff in Eq as [Eo1 Ep1]. apply exhausted_false in Eo1, Ep1.
  unfold upsert_lease. cbn [leases].
  destruct (swept c request db !! id) as [l|] eqn:El.
  - destruct (same_row l new) eqn:Erow; [|done]. intros [= <- <-].
    unfold same_row in Erow. repeat (apply andb_true_iff in Erow as [Erow ?]).
    apply String.eqb_eq in Erow. match goal with H : (_ =? _) = true |- _ => apply Z.eqb_eq in H; rename H into Hbw end.
    match goal with H : String.eqb (gl_project_id l) _ = true |- _ => apply String.eqb_eq in H; rename H into Hpr end.
    exists ol, pl, (l <| gl_heartbeat_at := ac_insert c |> <| gl_expires_at := gl_expires_at new |>).
    split; [|split; done]. constructor; fold id; simpl; rewrite ?El; rewrite ?Erow, ?Hpr, ?Hbw; try done.
    split_and!; [done..|]. by eapply swept_lookup.
  - intros [= <- <-]. exists ol, pl, new. split; [|split; done].
    constructor; fold id; rewrite ?El; try done.
    intros pr limit [[-> ->]|[-> ->]]; done.
Qed.

Lemma one_weighty ls : weighty (λ _, 1) ls.
Proof. by intros ?. Qed.

Lemma tick_le clock o t o' : clock o <= t → clock o' <= tick o t clock o'.
Proof. intros Ht. unfold tick. destruct (String.eqb_spec o' o) as [->|]; lia. Qed.

Lemma tick_eq clock o t : tick o t clock o = t.
Proof. unfold tick. by rewrite String.eqb_refl. Qed.

(** A scope after an acquisition. *)
Lemma within_acquired c request db ol pl l' clock o pr limit :
  acquired c request db ol pl l' → positive (leases db) →
  clock (gl_organization_id l') <= ac_reap c → ac_reap c <= ac_count c → ac_count c <= ac_insert c →
  (o = gl_organization_id l' → pr = None → limit = ol) →
  (o = gl_organization_id l' → pr = Some (gl_project_id l') → limit = pl) →
  within limit (clock o) o pr (leases db) →
  within limit (tick (gl_organization_id l') (ac_insert c) clock o) o pr
    (<[uuid_text (sr_id request) := l']> (swept c request db)).
Proof.
  intros [Hb _ _ Hown _ Hf] Hpos Hc1 Hc2 Hc3 Hol Hpl [Hws Hwb].
  set (ls := swept c request db) in *. set (id := uuid_text (sr_id request)) in *.
  assert (ls ⊆ leases db) as Hsub by apply map_filter_subseteq.
  assert (positive ls) as Hpos' by (intros k x Hx; by apply (Hpos k), (lookup_weaken ls _ k)).
  apply (below_subseteq _ _ _ _ _ _ ls) in Hws; [|apply one_weighty|done].
  apply (below_subseteq _ _ _ _ _ _ ls) in Hwb; [|done|done].
  pose proof (tick_le clock (gl_organization_id l') (ac_insert c) o ltac:(lia)) as Ht.
  assert (∀ w, weighty w ls → w l' = match ls !! id with Some l => w l | None => w l' end →
    0 <= w l' → ∀ m, below w m (clock o) o pr ls →
    ((∃ u, counts_for o pr u l' = true) → ls !! id = None →
      o = gl_organization_id l' ∧ weigh w (counts_for o pr (ac_count c)) ls + w l' <= m) →
    below w m (tick (gl_organization_id l') (ac_insert c) clock o) o pr (<[id := l']> ls)) as Hgen.
  { intros w Hw Hwl Hw0 m Hm Hnew. destruct (ls !! id) as [l|] eqn:Hl.
    - destruct Hf as (Hlo & Hlp & _ & Hle).
      destruct (decide (o = gl_organization_id l')) as [->|Hne].
      + rewrite tick_eq. eapply (below_renewed w m (ac_reap c)); [done|done|done|lia| |by eapply below_later].
        intros u. unfold counts_for. rewrite Hlo, Hlp.
        intros [[-> _]%andb_true_iff ->]%andb_true_iff. apply Z.ltb_lt in Hle. by rewrite Hle.
      + eapply (below_renewed w m (clock o)); [done|done|done|done| |done].
        intros u. by rewrite counts_elsewhere by congruence.
    - intros u Hu. rewrite weigh_new by done.
      destruct (counts_for o pr u l') eqn:Ec.
      + destruct Hnew as [-> Hle]; [by exists u|done|]. rewrite tick_eq in Hu.
        pose proof (weigh_le w (counts_for (gl_organization_id l') pr u)
          (counts_for (gl_organization_id l') pr (ac_count c)) ls Hw
          (λ l, counts_later _ pr (ac_count c) u l ltac:(lia))). lia.
      + specialize (Hm u ltac:(lia)). lia. }
  assert (∀ u, counts_for o pr u l' = true →
    o = gl_organization_id l' ∧ (pr = None ∨ pr = Some (gl_project_id l'))) as Hscope.
  { intros u Hu. unfold counts_for in Hu. apply andb_true_iff in Hu as [[Ho _]%andb_true_iff Hp].
    apply String.eqb_eq in Ho. split; [done|]. destruct pr as [p|]; [|by left].
    apply String.eqb_eq in Hp. right. by rewrite Hp. }
  split; apply Hgen.
  - apply one_weighty.
  - by destruct (ls !! id).
  - lia.
  - done.
  - intros [u Hu] Hn. destruct (Hscope u Hu) as [-> Hpr]. split; [done|]. rewrite Hn in Hf.
    rewrite <- streams_weigh. destruct Hpr as [-> | ->]; apply Hf; auto.
  - done.
  - destruct (ls !! id) as [l|]; [|done]. symmetry. apply Hf.
  - lia.
  - done.
  - intros [u Hu] Hn. destruct (Hscope u Hu) as [-> Hpr]. split; [done|]. rewrite Hn in Hf.
    rewrite <- bandwidths_weigh. destruct Hpr as [-> | ->]; apply Hf; auto.
Qed.

Lemma acquire_quotas c request db lease db' clock :
  acquire c request db = Ok (lease, db') → quotas_ok clock db →
  clock (uuid_text (sr_organization_id request)) <= ac_reap c →
  ac_reap c <= ac_count c → ac_count c <= ac_insert c →
  quotas_ok (tick (uuid_text (sr_organization_id request)) (ac_insert c) clock) db'.
Proof.
  intros (ol & pl & l' & Ha & -> & _)%acquire_spec [Hp Ho Hpr] Hc1 Hc2 Hc3.
  pose proof Ha as [Hb Hol Hpl Hown _ _]. rewrite <- Hown in *. constructor; simpl.
  - intros id l [[_ <-]|[_ Hl]]%lookup_insert_Some; [lia|].
    apply (Hp id). eapply lookup_weaken; [exact Hl|apply map_filter_subseteq].
  - intros o limit Hl. eapply within_acquired; [done|done|done|done|done| | |by apply Ho].
    + intros -> _. congruence.
    + by intros.
  - intros p o limit Hl. eapply within_acquired; [done|done|done|done|done| | |by apply Hpr].
    + by intros.
    + intros -> [= ->]. congruence.
Qed.

Lemma counts_none o pr db t :
  no_lease o pr db → ∀ w, weigh w (counts_for o pr t) (leases db) = 0.
Proof.
  intros Hn w. unfold weigh. rewrite (map_sum_ext _ (λ _, 0)).
  - unfold map_sum. by apply sum_with_zero.
  - intros id l Hl. specialize (Hn id l Hl). unfold counts_for. 
    destruct (String.eqb _ _); [|done]. simpl in Hn. destruct (_ <? _); [|done]. by rewrite Hn.
Qed.

Lemma limit_from_within o pr db old limit t :
  limit_from o pr db old limit →
  (∀ before, old = Some before → within before t o pr (leases db)) → within limit t o pr (leases db).
Proof.
  intros Hf Hw. destruct old as [before|]; simpl in Hf.
  - destruct (Hw before eq_refl) as [H1 H2], Hf as [? ?].
    split; intros u Hu; [specialize (H1 u Hu)|specialize (H2 u Hu)]; lia.
  - destruct Hf as (Hn & ? & ?). split; intros u Hu; by rewrite (counts_none o pr db u Hn).
Qed.

Lemma tenants_quotas clock db db' : tenants db db' → quotas_ok clock db → quotas_ok clock db'.
Proof.
  intros [Hl Ho' Hp'] [Hp Ho Hpr]. constructor; rewrite ?Hl; [done| |].
  - intros o limit H. eapply limit_from_within; [by apply Ho'|]. intros before Hb. by apply Ho.
  - intros p o limit H. eapply limit_from_within; [by apply Hp'|]. intros before Hb.
    apply Hpr. unfold owned_limit in Hb. destruct (stream_projects db !! p) as [[o' x]|]; [|done].
    destruct (String.eqb_spec o' o) as [->|]; [|done]. congruence.
Qed.

Lemma stream_step_quotas digest32 rate s s' :
  stream_step digest32 rate s s' → quotas_ok s.1 s.2 → quotas_ok s'.1 s'.2.
Proof.
  intros [clock db c request H1 H2 H3|clock db id instance|clock db now limit locked
    |clock db now request|clock db db' Ht] Hq; simpl in *.
  - destruct (settles_cases (acquire c request) db) as [->|[a E]]; [|by eapply acquire_quotas].
    destruct Hq as [Hp Ho Hpr]. constructor; [done| |].
    + intros o l Hl. destruct (Ho o l Hl) as [W1 W2].
      split; (eapply below_later; [|done]); apply tick_le; lia.
    + intros p o l Hl. destruct (Hpr p o l Hl) as [W1 W2].
      split; (eapply below_later; [|done]); apply tick_le; lia.
  - destruct (settles_cases (release id instance) db) as [->|[a E]]; [done|].
    unfold release in E at 1. destruct (_ || _); [done|]. injection E as _ <-.
    destruct (leases db !! _) as [l|]; [|done]. destruct (String.eqb _ _); [|done].
    apply quotas_subseteq; [apply delete_subseteq|done].
  - destruct (settles_cases (reapExpired now limit locked) db) as [->|[a E]]; [done|].
    unfold reapExpired in E at 1. destruct (safe_between _ _ _); [|done]. injection E as _ <-.
    apply (quotas_subseteq clock db (filter _ (leases db))); [apply map_filter_subseteq|done].
  - unfold admitRouteRequest. destruct (validate request); [|done].
    destruct (exact_active_lease _ _ _ _); [done|]. destruct (rate_statement _ _ _ _) as [r w]. simpl.
    by destruct Hq.
  - by eapply tenants_quotas.
Qed.

(** ** Requests *)

(** One route request: the leases at its instant (others move them), the instant
    and the request. *)
Record RouteEvent := mkRouteEvent {
  re_leases : gmap string LeaseRow;
  re_now : Z;
  re_request : StreamAdmissionRequest
}.

Section routes.
Context (digest32 : string → Z) (rate : StreamRequestRateConfig).
Abbreviation ws := (st_window_seconds rate).

Definition route_db (e : RouteEvent) (w : Windows) : StreamDb := mkStreamDb ∅ ∅ (re_leases e) w.

(** A request that is counted: valid, and of no lease already held. *)
Definition is_counted (e : RouteEvent) : bool :=
  match validate (re_request e) with
  | Ok bandwidth => negb (exact_active_lease (re_now e) (re_request e) bandwidth (route_db e ∅))
  | Err _ => false
  end.

Definition route_ok (e : RouteEvent) (w : Windows) : bool * Windows :=
  let '(r, db) := admitRouteRequest digest32 rate (re_now e) (re_request e) (route_db e w) in
  (is_ok r, request_windows db).

(** The counted requests of bucket [b] the service lets through in the window that
    starts at [start]. *)
Fixpoint routed (b : Bucket) (start : Z) (es : list RouteEvent) (w : Windows) : Z :=
  match es with
  | [] => 0
  | e :: es =>
      let '(ok, w') := route_ok e w in
      (if ok && is_counted e && bool_decide (b ∈ route_buckets digest32 rate (re_request e)) &&
          (window_start ws (re_now e) =? start) then 1 else 0)
      + routed b start es w'
  end.

Fixpoint in_order (t : Z) (es : list RouteEvent) : Prop :=
  match es with [] => True | e :: es => t <= re_now e ∧ in_order (re_now e) es end.

Definition statements (es : list RouteEvent) : list Request :=
  map (λ e, mkRequest (re_now e) (route_buckets digest32 rate (re_request e))) (List.filter is_counted es).

Lemma route_ok_counted e w :
  route_ok e w = if is_counted e
    then rate_step ws (mkRequest (re_now e) (route_buckets digest32 rate (re_request e))) w
    else (is_ok (validate (re_request e)), w).
Proof.
  unfold route_ok, is_counted, admitRouteRequest, rate_step.
  destruct (validate (re_request e)) as [bandwidth|x]; [|done].
  change (exact_active_lease (re_now e) (re_request e) bandwidth (route_db e w))
    with (exact_active_lease (re_now e) (re_request e) bandwidth (route_db e ∅)).
  destruct (exact_active_lease _ _ _ _); [done|]. cbn [negb rq_at rq_buckets request_windows route_db].
  destruct (rate_statement _ _ _ _) as [[r|] w']; done.
Qed.

Lemma routed_statements b start es : ∀ w, routed b start es w = allowed_in ws b start (statements es) w.
Proof.
  induction es as [|e es IH]; intros w; [done|]. cbn [routed]. rewrite route_ok_counted.
  unfold statements. cbn [List.filter]. destruct (is_counted e); cbn [map].
  - cbn [allowed_in]. destruct (rate_step _ _ w) as [ok w'] eqn:E. rewrite IH, andb_true_r. done.
  - rewrite andb_false_r. simpl. apply IH.
Qed.

Lemma route_keys_NoDup request : NoDup (map b_key (route_buckets digest32 rate request)).
Proof. simpl. repeat (apply NoDup_cons; split; [set_solver|]). apply NoDup_nil_2. Qed.

Lemma statements_ordered es : ∀ t, in_order t es → ordered_from t (statements es).
Proof.
  induction es as [|e es IH]; intros t; [done|]. intros [Ht Ho]. unfold statements. cbn [List.filter].
  destruct (is_counted e); cbn [map].
  - cbn [ordered_from rq_at rq_buckets]. split_and!; [done|apply route_keys_NoDup|by apply IH].
  - apply IH. destruct es as [|e' es]; [done|]. destruct Ho. split; [lia|done].
Qed.
End routes.

(** Tables before any lease. *)
Record stream_start (db : StreamDb) : Prop := mkStreamStart {
  ss_leases : leases db = ∅;
  ss_organizations : ∀ o limit, stream_organizations db !! o = Some limit →
    0 <= max_streams limit ∧ 0 <= max_bandwidth limit;
  ss_projects : ∀ p o limit, stream_projects db !! p = Some (o, limit) →
    0 <= max_streams limit ∧ 0 <= max_bandwidth limit
}.

Lemma start_quotas clock db : stream_start db → quotas_ok clock db.
Proof.
  intros [Hl Ho Hp].
  assert (∀ o pr t w, weigh w (counts_for o pr t) (leases db) = 0) as H0.
  { intros. apply counts_none. intros id l. by rewrite Hl, lookup_empty. }
  constructor.
  - intros id l. by rewrite Hl, lookup_empty.
  - intros o limit [? ?]%Ho. split; intros u _; by rewrite H0.
  - intros p o limit [? ?]%Hp. split; intros u _; by rewrite H0.
Qed.

(** ** A small run *)

Definition demo_org : string := "00000000-0000-4000-8000-00000000000a".
Definition demo_upper_org : string := "00000000-0000-4000-8000-00000000000A".
Definition demo_project_id : string := "00000000-0000-4000-8000-00000000000b".
Definition demo_stream (org : string) : StreamAdmissionRequest :=
  mkStreamRequest "00000000-0000-4000-8000-00000000000c" org demo_project_id "machine_capability"
    "cap" "gateway-1" (NInt 100).
Definition demo_stream_db : StreamDb :=
  mkStreamDb {[ demo_org := mkStreamLimits 1 100 ]}
    {[ demo_project_id := (demo_org, mkStreamLimits 1 100) ]} ∅ ∅.
Definition demo_rate : StreamRequestRateConfig := mkStreamRate 60 1 10 10.
Definition demo_acquire (t : Z) : AcquireClock := mkAcquireClock t (t + 1) (t + 2).
Definition demo_leased (org : string) : StreamDb :=
  settles (acquire (demo_acquire 1000) (demo_stream org)) demo_stream_db.
Definition demo_word (s : string) : Z := Z.of_nat (String.length s).

Lemma demo_stream_start : stream_start demo_stream_db.
Proof.
  constructor; [done| |].
  - intros o limit H. unfold demo_stream_db in H. simpl in H. apply lookup_singleton_Some in H as [_ <-]. done.
  - intros p o limit H. unfold demo_stream_db in H. simpl in H.
    apply lookup_singleton_Some in H as [_ H]. by injection H as <- <-.
Qed.

Lemma demo_stream_run :
  rtc (stream_step demo_word demo_rate) (λ _, 0, demo_stream_db)
    (tick demo_org 1002 (λ _, 0), demo_leased demo_org).
Proof.
  eapply rtc_l; [|apply rtc_refl].
  apply (step_acquire demo_word demo_rate (λ _, 0) demo_stream_db (demo_acquire 1000) (demo_stream demo_org));
    simpl; lia.
Qed.

Definition demo_routes : list RouteEvent :=
  [mkRouteEvent ∅ 1000 (demo_stream demo_org); mkRouteEvent ∅ 2000 (demo_stream demo_org);
   mkRouteEvent ∅ 70000 (demo_stream demo_org)].
Definition demo_bucket : Bucket :=
  nth 0 (route_buckets demo_word demo_rate (demo_stream demo_org)) (mkBucket "" 0 0).
Definition demo_counted : StreamDb :=
  (admitRouteRequest demo_word demo_rate 1000 (demo_stream demo_org) demo_stream_db).2.

(** * Properties *)

(** C32: Stream quotas hold at every instant.  Whatever acquisitions, renewals,
    releases and sweeps interleave, and however long statements take, the leases
    of an organization, and of each of its projects, that have not expired are
    within its stream and bandwidth limits, as long as limits are not lowered. *)
Theorem stream_quotas_hold digest32 rate clock db clock' db' t :
  stream_start db → rtc (stream_step digest32 rate) (clock, db) (clock', db') →
  (∀ o limit, stream_organizations db' !! o = Some limit → clock' o <= t →
     streams (counts_for o None t) (leases db') <= max_streams limit ∧
     bandwidths (counts_for o None t) (leases db') <= max_bandwidth limit) ∧
  (∀ p o limit, stream_projects db' !! p = Some (o, limit) → clock' o <= t →
     streams (counts_for o (Some p) t) (leases db') <= max_streams limit ∧
     bandwidths (counts_for o (Some p) t) (leases db') <= max_bandwidth limit).
Proof.
  intros Hs Hsteps.
  assert (quotas_ok clock' db') as [_ Ho Hp].
  { change (quotas_ok (clock', db').1 (clock', db').2).
    apply (start_quotas clock) in Hs. change (quotas_ok (clock, db).1 (clock, db).2) in Hs. revert Hs.
    induction Hsteps as [|s1 s2 s3 Hstep _ IH]; [done|]. intros Hq. by eapply IH, stream_step_quotas. }
  split.
  - intros o limit Hl Ht. destruct (Ho o limit Hl) as [W1 W2]. split; [by apply W1|by apply W2].
  - intros p o limit Hl Ht. destruct (Hp p o limit Hl) as [W1 W2]. split; [by apply W1|by apply W2].
Qed.

Lemma stream_quotas_hold_witness :
  streams (counts_for demo_org None 2000) (leases (demo_leased demo_org)) = 1 ∧
  streams (counts_for demo_org None 2000) (leases (demo_leased demo_org)) <= 1.
Proof.
  split; [vm_compute; reflexivity|].
  assert (stream_organizations (demo_leased demo_org) !! demo_org = Some (mkStreamLimits 1 100)) as Hl
    by (vm_compute; reflexivity).
  apply (proj1 (stream_quotas_hold demo_word demo_rate (λ _, 0) demo_stream_db (tick demo_org 1002 (λ _, 0))
    (demo_leased demo_org) 2000 demo_stream_start demo_stream_run) demo_org _ Hl).
  vm_compute. discriminate.
Defined.

(** Route requests stay within their windows.  Over any sequence of requests,
    in the order of their statements, while leases come and go, at most the limit
    of a bucket are let through in one window; colliding identities only share
    the budget. *)
Theorem route_requests_within_window digest32 rate b start t es w :
  valid_rate rate = true → 1 <= b_limit b <= 1000000 → in_order t es →
  (∀ r, w !! b_key b = Some r → window_started_at r <= window_start (st_window_seconds rate) t ∧ 0 <= request_count r) →
  routed digest32 rate b start es w <= b_limit b.
Proof.
  intros Hv Hl Ho Hw. rewrite routed_statements.
  assert (0 < st_window_seconds rate) as Hws.
  { unfold valid_rate in Hv. apply andb_true_iff in Hv as [[Hv _]%andb_true_iff _]. lia. }
  assert (row_ok t (st_window_seconds rate) (w !! b_key b)) as Hrow.
  { destruct (w !! b_key b) as [r|] eqn:E; [|done]. by apply Hw. }
  pose proof (allowed_bound (st_window_seconds rate) b start (statements digest32 rate es) t w Hws
    ltac:(unfold maximumStoredCount; lia) (statements_ordered digest32 rate es t Ho) Hrow) as Hb.
  assert (0 <= used b start (w !! b_key b)); [|lia]. unfold used.
  destruct (w !! b_key b) as [r|]; [|done]. destruct Hrow as [_ ?].
  destruct (_ =? _); [lia|]. destruct (_ <? _); lia.
Qed.

Lemma route_requests_within_window_witness :
  routed demo_word demo_rate demo_bucket 0 demo_routes ∅ = 1 ∧
  routed demo_word demo_rate demo_bucket 0 demo_routes ∅ <= 1.
Proof.
  split; [vm_compute; reflexivity|].
  apply (route_requests_within_window demo_word demo_rate demo_bucket 0 0 demo_routes ∅).
  - vm_compute. reflexivity.
  - vm_compute. split; discriminate.
  - simpl. lia.
  - intros r Hr. rewrite lookup_empty in Hr. discriminate Hr.
Defined.

(** A refused caller is told how long to wait, within the window, and is let
    through after that wait when no one else took its buckets. *)
Theorem refused_route_may_retry digest32 rate now request db seconds db' :
  valid_rate rate = true →
  (∀ k r, request_windows db !! k = Some r →
     window_started_at r <= window_start (st_window_seconds rate) now ∧ 0 <= request_count r) →
  admitRouteRequest digest32 rate now request db = (Err (StreamRequestRateExceeded seconds), db') →
  1 <= seconds <= st_window_seconds rate ∧
  is_ok (admitRouteRequest digest32 rate (now + seconds * msPerSecond) request db').1 = true.
Proof.
  intros Hv Hw. unfold admitRouteRequest.
  destruct (validate request) as [bandwidth|e] eqn:Ev; [|].
  2:{ unfold validate in Ev. repeat case_match; simplify_eq; by intros [=]. }
  destruct (exact_active_lease now request bandwidth db); [done|].
  destruct (rate_statement _ now _ _) as [[r|] w'] eqn:Er; [|done]. intros [= <- <-].
  unfold valid_rate in Hv. apply andb_true_iff in Hv as [[Hv1 Hv2]%andb_true_iff Hv3].
  eapply wait_is_enough in Er as [Hs Hok].
  - split; [exact Hs|]. destruct (exact_active_lease _ _ _ _); [done|].
    cbn [request_windows set_field].
    destruct (rate_statement _ (now + _) _ w') as [[x|] w2]; [done|done].
  - unfold max_safe_integer. lia.
  - intros b _. destruct (request_windows db !! b_key b) as [x|] eqn:E; [|done]. by apply (Hw (b_key b)).
  - apply route_keys_NoDup.
  - rewrite forallb_forall in Hv3. intros b Hb. unfold route_buckets in Hb.
    assert (b_limit b ∈ [st_authority_requests rate; st_project_requests rate; st_organization_requests rate]) as Hin.
    { set_solver. }
    apply list_elem_of_In, Hv3 in Hin. lia.
Qed.

Lemma refused_route_may_retry_witness :
  ∃ seconds db', admitRouteRequest demo_word demo_rate 2000 (demo_stream demo_org) demo_counted
      = (Err (StreamRequestRateExceeded seconds), db') ∧ seconds = 58 ∧
    is_ok (admitRouteRequest demo_word demo_rate 60000 (demo_stream demo_org) db').1 = true.
Proof.
  destruct (admitRouteRequest demo_word demo_rate 2000 (demo_stream demo_org) demo_counted)
    as [[u|[|seconds|m]] db'] eqn:E; try (vm_compute in E; discriminate E).
  exists seconds, db'. split; [reflexivity|].
  assert (seconds = 58) as -> by (vm_compute in E; by injection E as <- _). split; [reflexivity|].
  refine (proj2 (refused_route_may_retry demo_word demo_rate 2000 (demo_stream demo_org) demo_counted 58 db'
    ltac:(vm_compute; reflexivity) _ E)).
  intros k r Hr. apply elem_of_map_to_list in Hr.
  assert (Forall (λ kr, window_started_at kr.2 <= window_start (st_window_seconds demo_rate) 2000 ∧
    0 <= request_count kr.2) (map_to_list (request_windows demo_counted))) as Hall.
  { vm_compute. repeat constructor; discriminate. }
  rewrite Forall_forall in Hall. exact (Hall (k, r) Hr).
Defined.

(** A held lease renews.  In every reachable state a lease that has not expired
    is renewed for fifteen seconds when its holder asks with the same canonical
    identity, even with every quota exhausted. *)
Theorem held_lease_renews digest32 rate clock0 db0 clock db c request bandwidth l ol pl :
  stream_start db0 → rtc (stream_step digest32 rate) (clock0, db0) (clock, db) →
  validate request = Ok bandwidth →
  uuid_text (sr_organization_id request) = sr_organization_id request →
  uuid_text (sr_project_id request) = sr_project_id request →
  stream_organizations db !! sr_organization_id request = Some ol →
  stream_projects db !! sr_project_id request = Some (sr_organization_id request, pl) →
  leases db !! uuid_text (sr_id request) = Some l → same_identity request bandwidth l = true →
  clock (sr_organization_id request) <= ac_reap c → ac_reap c < gl_expires_at l →
  ac_reap c <= ac_count c →
  ∃ lease db', acquire c request db = Ok (lease, db') ∧
    ls_expires_at lease = ac_insert c + leaseSeconds * msPerSecond.
Proof.
  intros Hs Hsteps Hv Hco Hcp Hol Hpl Hl Hsame Hc Hlive Hcc.
  assert (quotas_ok clock db) as [Hpos Ho Hp].
  { change (quotas_ok (clock, db).1 (clock, db).2). apply (start_quotas clock0) in Hs.
    change (quotas_ok (clock0, db0).1 (clock0, db0).2) in Hs. revert Hs.
    induction Hsteps as [|s1 s2 s3 Hstep _ IH]; [done|]. intros Hq. by eapply IH, stream_step_quotas. }
  unfold acquire. rewrite Hv. cbv zeta. cbn [leases set_field].
  change (filter _ (leases db)) with (swept c request db).
  set (ls := swept c request db).
  assert (ls !! uuid_text (sr_id request) = Some l) as Hls.
  { apply map_lookup_filter_Some. split; [done|]. simpl. unfold expired_of.
    apply andb_false_iff. right. by apply Z.leb_gt. }
  assert (ls ⊆ leases db) as Hsub by apply map_filter_subseteq. clearbody ls.
  rewrite Hco, Hcp, Hol, Hpl, String.eqb_refl. cbn [negb]. rewrite Hls, Hsame. cbn [negb].
  rewrite bool_decide_eq_false_2 by done.
  assert (∀ pr limit, within limit (clock (sr_organization_id request)) (sr_organization_id request) pr (leases db) →
    exhausted limit (counts_for (sr_organization_id request) pr (ac_count c)) 0 0 ls = false) as Hroom.
  { intros pr limit [W1 W2]. unfold exhausted. rewrite streams_weigh, bandwidths_weigh.
    pose proof (below_subseteq _ _ _ _ _ _ ls (one_weighty _) Hsub W1 (ac_count c) ltac:(lia)).
    pose proof (below_subseteq _ _ _ _ _ _ ls Hpos Hsub W2 (ac_count c) ltac:(lia)).
    apply orb_false_iff. split; apply Z.ltb_ge; lia. }
  rewrite !Hroom by auto. cbn [orb]. unfold upsert_lease. cbn [leases]. rewrite Hls.
  assert (same_row l (new_lease (ac_insert c) request bandwidth) = true) as ->.
  { unfold same_row, new_lease, same_identity in *. cbn. by rewrite Hco, Hcp. }
  by eexists _, _.
Qed.

Lemma held_lease_renews_witness :
  ∃ lease db', acquire (demo_acquire 3000) (demo_stream demo_org) (demo_leased demo_org) = Ok (lease, db') ∧
    ls_expires_at lease = 18002.
Proof.
  apply (held_lease_renews demo_word demo_rate (λ _, 0) demo_stream_db (tick demo_org 1002 (λ _, 0))
    (demo_leased demo_org) (demo_acquire 3000) (demo_stream demo_org) 100
    (mkLease demo_org demo_project_id "machine_capability" "cap" "gateway-1" 100 1002 16002)
    (mkStreamLimits 1 100) (mkStreamLimits 1 100) demo_stream_start demo_stream_run);
    try (vm_compute; reflexivity); vm_compute; discriminate.
Defined.

(** An identity in upper case cannot keep its stream.  The validator accepts
    the upper-case spelling of a tenant and the first acquisition succeeds, but
    every renewal of the live lease is refused as a replay: the columns print
    lower case and are compared with the request as it was spelled. *)
Theorem upper_case_tenant_cannot_renew c c' request db lease db' :
  acquire c request db = Ok (lease, db') →
  uuid_text (sr_organization_id request) ≠ sr_organization_id request →
  ac_reap c' < ls_expires_at lease →
  acquire c' request db' = Err replayed.
Proof.
  intros E Hup. pose proof E as (ol & pl & l' & [_ Hol Hpl Hown _ _] & -> & ->)%acquire_spec.
  simpl. intros Hlive. unfold acquire in *.
  destruct (validate request) as [bandwidth|e]; [|done]. cbv zeta in *. cbn [leases set_field].
  destruct (stream_organizations db !! uuid_text (sr_organization_id request)) as [ol'|] eqn:Eo; [|done].
  destruct (stream_projects db !! uuid_text (sr_project_id request)) as [[owner pl']|] eqn:Ep; [|done].
  destruct (negb (String.eqb owner _)) eqn:En; [done|]. clear E.
  cbn [stream_organizations stream_projects]. rewrite Eo, Ep, En.
  match goal with |- context [filter ?P (<[?i := ?x]> ?m) !! _] =>
    assert (filter P (<[i := x]> m) !! i = Some l') as Hl end.
  { apply map_lookup_filter_Some. split; [apply lookup_insert_eq|]. simpl. unfold expired_of.
    apply andb_false_iff. right. by apply Z.leb_gt. }
  rewrite Hl.
  assert (same_identity request bandwidth l' = false) as ->; [|done].
  unfold same_identity. rewrite Hown.
  destruct (String.eqb_spec (uuid_text (sr_organization_id request)) (sr_organization_id request)); done.
Qed.

Lemma upper_case_tenant_cannot_renew_witness :
  ∃ lease db', acquire (demo_acquire 1000) (demo_stream demo_upper_org) demo_stream_db = Ok (lease, db') ∧
    acquire (demo_acquire 3000) (demo_stream demo_upper_org) db' = Err replayed.
Proof.
  destruct (acquire (demo_acquire 1000) (demo_stream demo_upper_org) demo_stream_db) as [[lease db']|e] eqn:E;
    [|vm_compute in E; discriminate E].
  exists lease, db'. split; [reflexivity|].
  apply (upper_case_tenant_cannot_renew (demo_acquire 1000) (demo_acquire 3000) (demo_stream demo_upper_org)
    demo_stream_db lease db' E).
  - vm_compute. discriminate.
  - vm_compute in E. injection E as <- _. vm_compute. reflexivity.
Defined.
