(* ===== verification/Identity.v ===== *)
(** * Identities and their credentials

    The tables that src/apps/nehemiah/src/auth/api-key.ts, auth/device.ts and
    domain/identity-lifecycle.ts share: users, organizations and memberships, API
    keys, device logins with their token families, gateway grants, provider
    receipts and the audit log; with the triggers of
    src/apps/nehemiah/src/db/migrations that revoke what hangs on an identity. *)

From S2P Require Import Prelude Text Js.

(** ** Rows *)

Record UserRow := mkUser { u_clerk_user_id : string; u_disabled_at : option Z }.
#[export] Instance UserRow_eta : Settable UserRow := λ r, mkUser (u_clerk_user_id r) (u_disabled_at r).

Record KeyRow := mkKey {
  ak_organization_id : string;
  ak_project_id : option string;
  ak_name : string;
  ak_prefix : string;
  ak_hash : string;
  ak_scopes : list string;
  ak_created_by : option string;
  ak_created_at : Z;
  ak_last_used_at : option Z;
  ak_expires_at : option Z;
  ak_disabled_at : option Z;
  ak_revoked_at : option Z
}.
#[export] Instance KeyRow_eta : Settable KeyRow := λ r,
  mkKey (ak_organization_id r) (ak_project_id r) (ak_name r) (ak_prefix r) (ak_hash r) (ak_scopes r)
    (ak_created_by r) (ak_created_at r) (ak_last_used_at r) (ak_expires_at r) (ak_disabled_at r)
    (ak_revoked_at r).

(** [device_authorizations]: the state and what each state requires. *)
Inductive DeviceStatus := Pending | Approved | Denied | Consumed.
#[export] Instance DeviceStatus_eq : EqDecision DeviceStatus.
Proof. solve_decision. Defined.

Record DeviceRow := mkDevice {
  dv_token_hash : string;
  dv_user_code_hash : string;
  dv_client_id : string;
  dv_requested_scopes : list string;
  dv_approved_scopes : option (list string);
  dv_status : DeviceStatus;
  dv_organization_id : option string;
  dv_project_id : option string;
  dv_approved_by : option string;
  dv_poll_interval_seconds : Z;
  dv_next_poll_at : Z;
  dv_poll_violations : Z;
  dv_created_at : Z;
  dv_expires_at : Z;
  dv_authorized_at : option Z;
  dv_denied_at : option Z;
  dv_consumed_at : option Z
}.
#[export] Instance DeviceRow_eta : Settable DeviceRow := λ r,
  mkDevice (dv_token_hash r) (dv_user_code_hash r) (dv_client_id r) (dv_requested_scopes r)
    (dv_approved_scopes r) (dv_status r) (dv_organization_id r) (dv_project_id r) (dv_approved_by r)
    (dv_poll_interval_seconds r) (dv_next_poll_at r) (dv_poll_violations r) (dv_created_at r)
    (dv_expires_at r) (dv_authorized_at r) (dv_denied_at r) (dv_consumed_at r).

Record FamilyRow := mkFamily {
  fm_device_authorization_id : string;
  fm_organization_id : string;
  fm_project_id : string;
  fm_scopes : list string;
  fm_created_at : Z;
  fm_expires_at : Z;
  fm_revoked_at : option Z;
  fm_reuse_detected_at : option Z
}.
#[export] Instance FamilyRow_eta : Settable FamilyRow := λ r,
  mkFamily (fm_device_authorization_id r) (fm_organization_id r) (fm_project_id r) (fm_scopes r)
    (fm_created_at r) (fm_expires_at r) (fm_revoked_at r) (fm_reuse_detected_at r).

Record RefreshTokenRow := mkRefreshToken {
  rt_family_id : string;
  rt_generation : Z;
  rt_token_hash : string;
  rt_created_at : Z;
  rt_expires_at : Z;
  rt_used_at : option Z;
  rt_replaced_by : option string
}.
#[export] Instance RefreshTokenRow_eta : Settable RefreshTokenRow := λ r,
  mkRefreshToken (rt_family_id r) (rt_generation r) (rt_token_hash r) (rt_created_at r)
    (rt_expires_at r) (rt_used_at r) (rt_replaced_by r).

Record AccessTokenRow := mkAccessToken {
  at_family_id : string;
  at_organization_id : string;
  at_project_id : string;
  at_scopes : list string;
  at_token_hash : string;
  at_created_at : Z;
  at_expires_at : Z;
  at_revoked_at : option Z;
  at_last_used_at : option Z
}.
#[export] Instance AccessTokenRow_eta : Settable AccessTokenRow := λ r,
  mkAccessToken (at_family_id r) (at_organization_id r) (at_project_id r) (at_scopes r)
    (at_token_hash r) (at_created_at r) (at_expires_at r) (at_revoked_at r) (at_last_used_at r).

(** The columns of [machine_gateway_grants] that say who issued a grant. *)
Record GrantRow := mkGrant {
  gr_issuer_type : string;
  gr_issuer_id : string;
  gr_organization_id : string;
  gr_expires_at : Z;
  gr_revoked_at : option Z
}.
#[export] Instance GrantRow_eta : Settable GrantRow := λ r,
  mkGrant (gr_issuer_type r) (gr_issuer_id r) (gr_organization_id r) (gr_expires_at r) (gr_revoked_at r).

Record ReceiptRow := mkReceiptRow {
  rc_provider : string;
  rc_event_id : string;
  rc_payload_sha256 : string;
  rc_stream_sha256 : string;
  rc_source_version : Z;
  rc_event_type : string;
  rc_user_id : string;
  rc_organization_id : option string;
  rc_role : option string;
  rc_applied : bool;
  rc_changed : bool
}.

Record AuditEntry := mkAudit {
  au_event_key : string;
  au_operation_id : string;
  au_organization_id : option string;
  au_project_id : option string;
  au_actor_type : string;
  au_actor_id : option string;
  au_action : string;
  au_outcome : string;
  au_reason_code : option string;
  au_resource_type : string;
  au_resource_id : string;
  au_request_id : option string;
  au_user_agent : option string;
  au_metadata : json
}.

Record IdentityDb := mkIdentityDb {
  users : gmap string UserRow;
  (** the [disabled_at] of an organization *)
  organizations : gmap string (option Z);
  (** the organization that owns a project *)
  projects : gmap string string;
  (** [organization_members]: the role of a user in an organization *)
  members : gmap (string * string) string;
  (** [fleet_operator_organizations] *)
  operators : gset string;
  api_keys : gmap string KeyRow;
  devices : gmap string DeviceRow;
  families : gmap string FamilyRow;
  refresh_tokens : gmap string RefreshTokenRow;
  access_tokens : gmap string AccessTokenRow;
  grants : gmap string GrantRow;
  (** [device_authorization_rate_limits]: attempts by kind, key and window *)
  device_rates : gmap (string * string * Z) Z;
  receipts : list ReceiptRow;
  audit_log : list AuditEntry
}.
#[export] Instance IdentityDb_eta : Settable IdentityDb := λ r,
  mkIdentityDb (users r) (organizations r) (projects r) (members r) (operators r) (api_keys r)
    (devices r) (families r) (refresh_tokens r) (access_tokens r) (grants r) (device_rates r)
    (receipts r) (audit_log r).

(** ** Errors *)

Inductive IdError : Type :=
| UniqueViolation (constraint : string)
| CheckViolation (constraint : string)
| InvalidApiKeyRequest (message : string)
| ApiKeyPrefixCollision
| ApiKeyAllocationUnavailable
| ApiKeyAuthorizationDenied
| ApiKeyVerifierBusy
| ApiKeyHasherBusy
| ApiKeyQuotaExceeded
| DeviceAuthorizationError (code message : string) (status : Z) (retryAfterSeconds : option Z)
| InvalidIdentityLifecycleRequest (message : string)
| IdentityLifecycleAuthorizationDenied
| IdentityProviderSyncTargetNotFound
| IdentityProviderSyncConflict
| PlainError (message : string).

Abbreviation IdTx := (Tx IdentityDb IdError).

(** ** Reading identities *)

(** [organizations.disabled_at IS NULL] *)
Definition organization_enabled (db : IdentityDb) (organization : string) : bool :=
  match organizations db !! organization with Some None => true | _ => false end.

(** The user of a Clerk subject, which is unique. *)
Definition user_of_subject (db : IdentityDb) (subject : string) : option (string * UserRow) :=
  head (List.filter (λ kv, String.eqb (u_clerk_user_id kv.2) subject) (map_to_list (users db))).

Definition enabled_user_of_subject (db : IdentityDb) (subject : string) : option string :=
  match user_of_subject db subject with
  | Some (id, u) => if bool_decide (u_disabled_at u = None) then Some id else None
  | None => None
  end.

Definition is_administrator (role : string) : bool := string_in role ["owner"; "admin"].

(** The role through which an enabled user acts in an enabled organization. *)
Definition live_role (db : IdentityDb) (organization user : string) : option string :=
  match users db !! user with
  | Some u =>
      if bool_decide (u_disabled_at u = None) && organization_enabled db organization
      then members db !! (organization, user) else None
  | None => None
  end.

(** ** Audit rows *)

(** [INSERT INTO audit_events]: [event_key] is unique. *)
Definition insert_audit (a : AuditEntry) : IdTx unit := λ db,
  if has_key au_event_key (au_event_key a) (audit_log db)
  then Err (UniqueViolation "audit_events_event_key_key")
  else Ok (tt, db <| audit_log ::= λ l, l ++ [a] |>).

(** [auditUserAgentFingerprint] (src/apps/nehemiah/src/audit/audit.ts) *)
Definition auditUserAgentFingerprint (sha256 : string → string) (value : option string) : option string :=
  match value with
  | Some v => if String.eqb v "" then None else Some ("sha256:" +:+ sha256 v)
  | None => None
  end.

Record RequestContext := mkContext { cx_request_id : option string; cx_user_agent : option string }.

Definition sliced (n : nat) (s : option string) : option string := substring 0 n <$> s.

(** ** Triggers *)

(** [revoked_at = COALESCE(revoked_at, now)] *)
Definition revoke_family (now : Z) (f : FamilyRow) : FamilyRow :=
  f <| fm_revoked_at := coalesce (fm_revoked_at f) (Some now) |>.
Definition revoke_access (now : Z) (a : AccessTokenRow) : AccessTokenRow :=
  a <| at_revoked_at := coalesce (at_revoked_at a) (Some now) |>.
Definition revoke_grant (now : Z) (g : GrantRow) : GrantRow :=
  g <| gr_revoked_at := coalesce (gr_revoked_at g) (Some now) |>.

Definition revoke_grants (now : Z) (p : GrantRow → bool) (db : IdentityDb) : IdentityDb :=
  db <| grants ::= fmap (λ g, if p g then revoke_grant now g else g) |>.

(** The families a set of clauses selects, with their access tokens. *)
Definition revoke_families (now : Z) (p : FamilyRow → bool) (db : IdentityDb) : IdentityDb :=
  db <| access_tokens ::= fmap (λ a,
          match families db !! at_family_id a with
          | Some f => if p f then revoke_access now a else a
          | None => a
          end) |>
     <| families ::= fmap (λ f, if p f then revoke_family now f else f) |>.

(** Families approved by a user. *)
Definition approved_by (db : IdentityDb) (user : string) (f : FamilyRow) : bool :=
  match devices db !! fm_device_authorization_id f with
  | Some d => bool_decide (dv_approved_by d = Some user)
  | None => false
  end.

(** A grant issued by a family the clauses select. *)
Definition issued_by_family (db : IdentityDb) (p : FamilyRow → bool) (g : GrantRow) : bool :=
  String.eqb (gr_issuer_type g) "device_family" &&
  match families db !! gr_issuer_id g with Some f => p f | None => false end.

Definition issued_by_subject (subject : string) (g : GrantRow) : bool :=
  String.eqb (gr_issuer_type g) "clerk_user" && String.eqb (gr_issuer_id g) subject.

(** [identity_revoke_user_dependents], after [disabled_at] was set. *)
Definition revoke_user_dependents (now : Z) (user : string) (db : IdentityDb) : IdentityDb :=
  match users db !! user with
  | Some u =>
      let own := approved_by db user in
      revoke_grants now (λ g, issued_by_subject (u_clerk_user_id u) g || issued_by_family db own g)
        (revoke_families now own db)
  | None => db
  end.

(** [identity_revoke_organization_dependents] *)
Definition revoke_organization_dependents (now : Z) (organization : string) (db : IdentityDb) : IdentityDb :=
  revoke_grants now (λ g, String.eqb (gr_organization_id g) organization)
    (db <| families ::= fmap (λ f,
             if String.eqb (fm_organization_id f) organization then revoke_family now f else f) |>
        <| access_tokens ::= fmap (λ a,
             if String.eqb (at_organization_id a) organization then revoke_access now a else a) |>).

(** [identity_revoke_membership_dependents], after the row was deleted. *)
Definition revoke_membership_dependents (now : Z) (organization user : string) (db : IdentityDb) : IdentityDb :=
  let own := λ f, String.eqb (fm_organization_id f) organization && approved_by db user f in
  revoke_grants now (λ g, String.eqb (gr_organization_id g) organization &&
      (match users db !! user with Some u => issued_by_subject (u_clerk_user_id u) g | None => false end
       || issued_by_family db own g))
    (revoke_families now own db).

(** [identity_revoke_api_key_dependents]; the columns are text and uuid, the key
    prints lower case. *)
Definition revoke_key_grants (now : Z) (id organization : string) (db : IdentityDb) : IdentityDb :=
  revoke_grants now (λ g, String.eqb (gr_issuer_type g) "api_key" && String.eqb (gr_issuer_id g) id &&
                          String.eqb (gr_organization_id g) organization) db.
