(* ===== verification/ApiKeys.v ===== *)
(** * API keys

    src/apps/nehemiah/src/auth/api-key.ts: the store of keys, one definition per
    method of [PostgresApiKeyStore], and the service over it.  Argon2, the random
    material and SHA-256 are arguments; [now] is the database's clock, [clock] the
    service's. *)

From S2P Require Import Prelude Text Js Capacity Identity.

Definition apiKeyScopes : list string :=
  ["machines:read"; "machines:write"; "templates:read"; "templates:write"; "volumes:read";
   "volumes:write"; "billing:read"].

Record ApiKeyPrincipal := mkPrincipal {
  pr_api_key_id : string;
  pr_device_family_id : option string;
  pr_organization_id : string;
  pr_project_id : option string;
  pr_scopes : list string
}.

Definition hasScope (principal : ApiKeyPrincipal) (required : string) : bool :=
  string_in required (pr_scopes principal).

(** ** Credentials *)

Definition token_char (c : ascii) : bool := alnum c || one_of "_-" c.

(** [/^(bc_(?:live|test)_[a-f0-9]{12})_[A-Za-z0-9_-]{32,}$/] *)
Definition keyPattern : re :=
  cats [lit "bc_"; Alt (lit "live") (lit "test"); lit "_"; rep_exact 12 (Chr hex_lower); lit "_";
        rep_exact 32 (Chr token_char); Star (Chr token_char)].

(** [parse]: the captured prefix is the first twenty characters.  A raw key of
    which only the UTF-8 form exceeds 512 units fails the pattern. *)
Definition parse (raw : string) : option string :=
  if 512 <? str_length raw then None
  else if test keyPattern raw then Some (substring 0 20 raw) else None.

Definition apiKeyPublicPrefix (raw : string) : option string := parse raw.

Record ApiKeyMaterial := mkMaterial { mt_public_id : string; mt_secret : string }.

(** [validateMaterial] *)
Definition valid_material (m : ApiKeyMaterial) : bool :=
  test (rep_exact 12 (Chr hex_lower)) (mt_public_id m) &&
  test (rep_exact 43 (Chr token_char)) (mt_secret m).

Record Credential := mkCredential { cr_id : string; cr_key : string; cr_prefix : string }.

Definition credential (environment id : string) (m : ApiKeyMaterial) : result IdError Credential :=
  if negb (valid_material m) then Err (PlainError "API-key material generator returned an invalid value")
  else
    let prefix := "bc_" +:+ environment +:+ "_" +:+ mt_public_id m in
    Ok (mkCredential id (prefix +:+ "_" +:+ mt_secret m) prefix).

(** ** The store *)

(** [lockApiKeyAdministrator]: no actor is the system. *)
Definition key_administrator (db : IdentityDb) (organization : string) (actor : option string) : bool :=
  match actor with
  | Some subject =>
      if String.eqb subject "" then true
      else match enabled_user_of_subject db subject with
           | Some user =>
               organization_enabled db organization &&
               match members db !! (organization, user) with
               | Some role => is_administrator role
               | None => false
               end
           | None => false
           end
  | None => true
  end.

Definition actor_type (actor : option string) : string := if truthy actor then "user" else "system".

Section store.
Context (sha256 : string → string).

(** [insertAudit] *)
Definition key_audit (event operation organization : string) (project actor : option string)
    (action resource : string) (cx : RequestContext) (metadata : json) : AuditEntry :=
  mkAudit event operation (Some organization) project (actor_type actor) (sliced 256 actor) action
    "succeeded" None "api_key" resource (sliced 128 (cx_request_id cx))
    (auditUserAgentFingerprint sha256 (cx_user_agent cx)) metadata.

(** Keys of a scope: those not revoked, and all. *)
Definition of_organization (organization : string) (k : KeyRow) : bool :=
  String.eqb (ak_organization_id k) organization.
Definition of_project (organization project : string) (k : KeyRow) : bool :=
  of_organization organization k && bool_decide (ak_project_id k = Some project).
Definition unrevoked (k : KeyRow) : bool := bool_decide (ak_revoked_at k = None).

Definition count_keys (p : KeyRow → bool) (keys : gmap string KeyRow) : Z :=
  map_sum (λ k, if p k then 1 else 0) keys.

(** [enforce_api_key_allocation_bounds] (migrations/0032): the violated
    constraint. *)
Definition allocation_violation (organization : string) (project : option string)
    (keys : gmap string KeyRow) : option string :=
  if 64 <=? count_keys (λ k, of_organization organization k && unrevoked k) keys
  then Some "api_keys_organization_active_quota"
  else if 4096 <=? count_keys (of_organization organization) keys
  then Some "api_keys_organization_retained_quota"
  else match project with
       | None => None
       | Some p =>
           if 16 <=? count_keys (λ k, of_project organization p k && unrevoked k) keys
           then Some "api_keys_project_active_quota"
           else if 1024 <=? count_keys (of_project organization p) keys
           then Some "api_keys_project_retained_quota" else None
       end.

(** [INSERT INTO api_keys], through its trigger and unique constraints. *)
Definition insert_key (id : string) (row : KeyRow) : IdTx unit := λ db,
  match allocation_violation (ak_organization_id row) (ak_project_id row) (api_keys db) with
  | Some constraint => Err (CheckViolation constraint)
  | None =>
      if bool_decide (is_Some (api_keys db !! id)) then Err (UniqueViolation "api_keys_pkey")
      else if existsb (λ kv, String.eqb (ak_prefix kv.2) (ak_prefix row)) (map_to_list (api_keys db))
      then Err (UniqueViolation "api_keys_prefix_key")
      else Ok (tt, db <| api_keys ::= <[id := row]> |>)
  end.

Definition allocation_constraints : list string :=
  ["api_keys_organization_active_quota"; "api_keys_organization_retained_quota";
   "api_keys_project_active_quota"; "api_keys_project_retained_quota"].

(** The catch clauses of [insert] and [rotate]: [isPrefixCollision],
    [isAllocationQuotaExceeded]. *)
Definition store_error (e : IdError) : IdError :=
  match e with
  | UniqueViolation c => if String.eqb c "api_keys_prefix_key" then ApiKeyPrefixCollision else e
  | CheckViolation c => if string_in c allocation_constraints then ApiKeyQuotaExceeded else e
  | _ => e
  end.

Definition catching {A} (m : IdTx A) : IdTx A := λ db,
  match m db with Ok r => Ok r | Err e => Err (store_error e) end.

(** What [ApiKeyService.create] hands to the store. *)
Record NewKey := mkNewKey {
  nk_id : string;
  nk_organization_id : string;
  nk_project_id : option string;
  nk_name : string;
  nk_prefix : string;
  nk_hash : string;
  nk_scopes : list string;
  nk_expires_at : option Z
}.

Definition created_by (db : IdentityDb) (actor : option string) : option string :=
  actor ≫= enabled_user_of_subject db.

(** The WHERE clause of the INSERT: the organization, the project and, unless the
    parameter is null, the administrator are there. *)
Definition key_insertable (db : IdentityDb) (k : NewKey) (actor : option string) : bool :=
  organization_enabled db (nk_organization_id k) &&
  match nk_project_id k with
  | None => true
  | Some p => bool_decide (projects db !! uuid_text p = Some (nk_organization_id k))
  end &&
  match actor with
  | None => true
  | Some subject =>
      match enabled_user_of_subject db subject with
      | Some user =>
          match members db !! (nk_organization_id k, user) with
          | Some role => is_administrator role
          | None => false
          end
      | None => false
      end
  end.

Definition insert (now : Z) (operation : string) (k : NewKey) (actor : option string)
    (cx : RequestContext) : IdTx unit :=
  catching (λ db,
    if negb (key_administrator db (nk_organization_id k) actor) then Err ApiKeyAuthorizationDenied
    else if negb (key_insertable db k actor)
    then Err (InvalidApiKeyRequest "organization, project, or administrator is not currently available")
    else
      (_ ← insert_key (nk_id k)
             (mkKey (nk_organization_id k) (uuid_text <$> nk_project_id k) (nk_name k) (nk_prefix k)
                (nk_hash k) (nk_scopes k) (created_by db actor) now None (nk_expires_at k) None None);
       insert_audit (key_audit ("api-key-created:" +:+ nk_id k) operation (nk_organization_id k)
         (nk_project_id k) actor "api_key.created" (nk_id k) cx (JObj []))) db).

Definition findByPrefix (db : IdentityDb) (prefix : string) : option (string * KeyRow * option Z) :=
  match head (List.filter (λ kv, String.eqb (ak_prefix kv.2) prefix) (map_to_list (api_keys db))) with
  | Some (id, k) =>
      match organizations db !! ak_organization_id k with
      | Some disabled => Some (id, k, disabled)
      | None => None
      end
  | None => None
  end.

(** Not disabled, not revoked, not expired, in an enabled organization. *)
Definition key_active (now : Z) (db : IdentityDb) (k : KeyRow) : bool :=
  bool_decide (ak_disabled_at k = None) && unrevoked k &&
  match ak_expires_at k with Some e => now <? e | None => true end &&
  organization_enabled db (ak_organization_id k).

Definition isActive (now : Z) (db : IdentityDb) (id organization : string) : bool :=
  match api_keys db !! id with
  | Some k => of_organization organization k && key_active now db k
  | None => false
  end.

(** [ORDER BY created_at DESC] *)
Definition list_keys (db : IdentityDb) (organization : string) (project : option string)
    : list (string * KeyRow) :=
  sort_by (λ a b, ak_created_at b.2 - ak_created_at a.2)
    (List.filter (λ kv, of_organization organization kv.2 &&
       match project with Some p => bool_decide (ak_project_id kv.2 = Some (uuid_text p)) | None => true end)
       (map_to_list (api_keys db))).

Definition own_key (db : IdentityDb) (id organization : string) : option KeyRow :=
  k ← api_keys db !! uuid_text id;
  if of_organization organization k then Some k else None.

Definition with_key (id : string) (f : KeyRow → KeyRow) (db : IdentityDb) : IdentityDb :=
  db <| api_keys ::= alter f id |>.

(** The explicit UPDATE of the grants, by the identifier as it was passed, and
    the trigger's, by the row's. *)
Definition revoke_issued (now : Z) (id organization : string) (db : IdentityDb) : IdentityDb :=
  revoke_key_grants now id organization (revoke_key_grants now (uuid_text id) organization db).

Definition setDisabled (now : Z) (event operation id organization : string) (disabled : bool)
    (actor : option string) (cx : RequestContext) : IdTx bool := λ db,
  if negb (key_administrator db organization actor) then Err ApiKeyAuthorizationDenied
  else
    match own_key db id organization with
    | Some k =>
        if negb (unrevoked k) then Ok (false, db)
        else
          let changed := if disabled then bool_decide (ak_disabled_at k = None)
                         else negb (bool_decide (ak_disabled_at k = None)) in
          let db1 :=
            if changed then
              let db := with_key (uuid_text id) (λ k,
                k <| ak_disabled_at := if disabled then Some now else None |>) db in
              if disabled then revoke_issued now id organization db else db
            else db in
          (_ ← insert_audit (key_audit ("api-key-" +:+ (if disabled then "disabled" else "enabled") +:+
                  ":" +:+ event) operation organization (ak_project_id k) actor
                  (if disabled then "api_key.disabled" else "api_key.enabled") id cx
                  (JObj [("changed", JBool changed)]));
           mret true) db1
    | None => Ok (false, db)
    end.

Definition rotated_key (now : Z) (k : KeyRow) : KeyRow := k <| ak_revoked_at := Some now |>.

Record Replacement := mkReplacement { rp_id : string; rp_prefix : string; rp_hash : string }.

Definition rotate_store (now : Z) (operation id organization : string) (r : Replacement)
    (actor : option string) (cx : RequestContext) : IdTx bool :=
  catching (λ db,
    if negb (key_administrator db organization actor) then Err ApiKeyAuthorizationDenied
    else
      match own_key db id organization with
      | Some k =>
          if negb (key_active now db k) then Ok (false, db)
          else
            let db1 := revoke_issued now id organization
              (with_key (uuid_text id) (rotated_key now) db) in
            (_ ← insert_key (rp_id r)
                   (mkKey organization (ak_project_id k) (ak_name k) (rp_prefix r) (rp_hash r)
                      (ak_scopes k) (created_by db actor) now None (ak_expires_at k) None None);
             _ ← insert_audit (key_audit ("api-key-rotated:" +:+ id) operation organization
                   (ak_project_id k) actor "api_key.rotated" id cx
                   (JObj [("replacement_id", JStr (rp_id r))]));
             _ ← insert_audit (key_audit ("api-key-rotation-created:" +:+ rp_id r) operation organization
                   (ak_project_id k) actor "api_key.rotation_created" (rp_id r) cx
                   (JObj [("replaced_id", JStr id)]));
             mret true) db1
      | None => Ok (false, db)
      end).

(** The audit row of a revocation is inserted ON CONFLICT DO NOTHING. *)
Definition revoke_store (now : Z) (operation id organization : string) (actor : option string)
    (cx : RequestContext) : IdTx bool := λ db,
  if negb (key_administrator db organization actor) then Err ApiKeyAuthorizationDenied
  else
    match own_key db id organization with
    | Some k =>
        let db := revoke_issued now id organization
          (with_key (uuid_text id) (λ k,
             k <| ak_revoked_at := coalesce (ak_revoked_at k) (Some now) |>) db) in
        Ok (true, db <| audit_log ::= insert_new au_event_key
              (key_audit ("api-key-revoked:" +:+ id) operation organization (ak_project_id k) actor
                 "api_key.revoked" id cx (JObj [])) |>)
    | None => Ok (false, db)
    end.

Definition touch (now : Z) (id : string) (db : IdentityDb) : IdentityDb :=
  with_key id (λ k, k <| ak_last_used_at := Some now |>) db.
End store.

(** ** Bounded cryptography *)

(** [BoundedCryptoAdmission]: operations running and waiting, by ticket. *)
Record CryptoState := mkCrypto {
  cs_active : Z;
  cs_waiters : list nat;
  cs_running : gset nat
}.

(** [run] is called: it starts, queues or throws the busy error. *)
Definition crypto_arrive (concurrentLimit queueLimit : Z) (ticket : nat) (s : CryptoState)
    : option CryptoState :=
  if cs_active s <? concurrentLimit
  then Some (mkCrypto (cs_active s + 1) (cs_waiters s) ({[ ticket ]} ∪ cs_running s))
  else if queueLimit <=? Z.of_nat (length (cs_waiters s)) then None
  else Some (mkCrypto (cs_active s) (cs_waiters s ++ [ticket]) (cs_running s)).

(** The operation of a ticket settles: its slot passes to the first waiter. *)
Definition crypto_finish (ticket : nat) (s : CryptoState) : CryptoState :=
  match cs_waiters s with
  | next :: waiters => mkCrypto (cs_active s) waiters ({[ next ]} ∪ (cs_running s ∖ {[ ticket ]}))
  | [] => mkCrypto (cs_active s - 1) [] (cs_running s ∖ {[ ticket ]})
  end.

(** ** The service *)

Definition unknownId : string := "00000000-0000-4000-8000-000000000000".
Definition allocationAttempts : nat := 5.

Record CreateKey := mkCreateKey {
  ck_organization_id : string;
  ck_project_id : option string;
  ck_name : string;
  ck_scopes : list string;
  ck_expires_at : option Z;
  ck_actor_id : option string
}.

(** [#validateCreate]; an invalid date never reaches it as an instant. *)
Definition validateCreate (clock : Z) (input : CreateKey) : option string :=
  if String.eqb (js_trim (ck_name input)) "" || (160 <? str_length (js_trim (ck_name input)))
  then Some "API key name must contain 1 to 160 characters"
  else if bool_decide (ck_scopes input = []) || existsb (λ s, negb (string_in s apiKeyScopes)) (ck_scopes input)
  then Some "at least one valid API key scope is required"
  else if match ck_project_id input with Some p => negb (test uuidPattern p) | None => false end
  then Some "project_id must be a UUID"
  else if match ck_expires_at input with Some e => e <=? clock | None => false end
  then Some "expires_at must be a future timestamp"
  else None.

(** One allocation attempt: the random identifiers and material, what hashing the
    key came to, what the rest of the system did before the store's transaction,
    its clock and its random audit operation. *)
Record Attempt := mkAttempt {
  am_id : string;
  am_material : ApiKeyMaterial;
  am_hash : result IdError string;
  am_others : IdentityDb → IdentityDb;
  am_now : Z;
  am_operation : string
}.

(** The loop both [create] and [rotate] run: a prefix collision takes the next
    attempt, the last one gives up. *)
Fixpoint allocate {A} (environment : string) (attempts : list Attempt)
    (store : Attempt → Credential → string → IdTx A) (db : IdentityDb)
    : result IdError (A * Credential) * IdentityDb :=
  match attempts with
  | [] => (Err ApiKeyAllocationUnavailable, db)
  | t :: attempts =>
      match credential environment (am_id t) (am_material t) with
      | Err e => (Err e, db)
      | Ok c =>
          match am_hash t with
          | Err e => (Err e, db)
          | Ok hash =>
              match transaction (store t c hash) (am_others t db) with
              | (Ok a, db) => (Ok (a, c), db)
              | (Err ApiKeyPrefixCollision, db) => allocate environment attempts store db
              | (Err e, db) => (Err e, db)
              end
          end
      end
  end.

Section service.
Context (sha256 : string → string) (verifySecret : string → string → bool) (environment : string)
  (apiKeyDummyHash : string).

(** [attempts] are the five the loop may take. *)
Definition create (clock : Z) (input : CreateKey) (cx : RequestContext) (attempts : list Attempt)
    : Act IdentityDb IdError Credential := λ db,
  match validateCreate clock input with
  | Some message => (Err (InvalidApiKeyRequest message), db)
  | None =>
      let '(r, db) := allocate environment (take allocationAttempts attempts)
        (λ t c hash, insert sha256 (am_now t) (am_operation t)
           (mkNewKey (cr_id c) (ck_organization_id input) (ck_project_id input)
              (js_trim (ck_name input)) (cr_prefix c) hash (new_Set [] (ck_scopes input))
              (ck_expires_at input)) (ck_actor_id input) cx) db in
      (match r with Ok (_, c) => Ok c | Err e => Err e end, db)
  end.

Definition rotate (id organization : string) (actor : option string) (cx : RequestContext)
    (attempts : list Attempt) : Act IdentityDb IdError (option Credential) := λ db,
  let '(r, db) := allocate environment (take allocationAttempts attempts)
    (λ t c hash, rotate_store sha256 (am_now t) (am_operation t) id organization
       (mkReplacement (cr_id c) (cr_prefix c) hash) actor cx) db in
  (match r with Ok (rotated, c) => Ok (if rotated then Some c else None) | Err e => Err e end, db).

(** The reads of an authentication: the tables it looks the key up in, whether the
    verifier ran, the tables it checks the key is active in. *)
Record Authentication := mkAuthentication {
  an_found : IdentityDb;
  an_admitted : option (result unit unit);
  an_active : IdentityDb;
  an_now : Z;
  an_clock : Z
}.

(** [authenticate]: [an_admitted] is [None] when the verifier was busy, an error
    when it threw. *)
Definition authenticate (raw : string) (a : Authentication) : result IdError (option ApiKeyPrincipal) :=
  match parse raw with
  | None => Ok None
  | Some prefix =>
      let record := findByPrefix (an_found a) prefix in
      let hash := match record with Some (_, k, _) => ak_hash k | None => apiKeyDummyHash end in
      match an_admitted a with
      | None => Err ApiKeyVerifierBusy
      | Some outcome =>
          let verified := is_ok outcome && verifySecret hash raw in
          match record with
          | None => Ok None
          | Some (id, k, organization_disabled_at) =>
              let active := isActive (an_now a) (an_active a) id (ak_organization_id k) in
              if negb verified || negb active || bool_decide (is_Some (ak_disabled_at k))
                 || bool_decide (is_Some organization_disabled_at) || bool_decide (is_Some (ak_revoked_at k))
                 || match ak_expires_at k with Some e => e <=? an_clock a | None => false end
              then Ok None
              else Ok (Some (mkPrincipal id None (ak_organization_id k) (ak_project_id k)
                     (new_Set [] (ak_scopes k))))
          end
      end
  end.
End service.
