(* ===== verification/Device.v ===== *)
(** * Device logins

    src/apps/nehemiah/src/auth/device.ts: a device asks for a code, a user decides
    on it, the device exchanges it for an access and a refresh token, and refreshes
    rotate the pair within a family that can be revoked as a whole.  [clock] is the
    service's clock, [now] the database's; random identifiers and secrets are
    arguments, SHA-256 and the keyed lookup digest are parameters. *)

From S2P Require Import Prelude Text Js Capacity Identity ApiKeys.

Definition DEVICE_LIFETIME_MS : Z := 10 * 60 * 1000.
Definition ACCESS_LIFETIME_MS : Z := 15 * 60 * 1000.
Definition REFRESH_LIFETIME_MS : Z := 30 * 24 * 60 * 60 * 1000.
Definition MINIMUM_REFRESH_INTERVAL_MS : Z := 10 * 60 * 1000.
Definition MAXIMUM_REFRESH_GENERATION : Z := 4095.
Definition INITIAL_POLL_SECONDS : Z := 5.
Definition USER_CODE_ALPHABET : string := "23456789ABCDEFGHJKLMNPQRSTUVWXYZ".

Definition device_error (code message : string) : IdError := DeviceAuthorizationError code message 400 None.

(** ** Codes and tokens *)

Definition upper_ascii (c : ascii) : ascii :=
  if lower c then ascii_of_N (N_of_ascii c - 32) else c.

(** The characters outside ASCII whose upper case is ASCII: the sharp and the long
    s, the dotless i and the Latin ligatures. *)
Definition special_upper : list (list ascii * string) :=
  map (λ p : list N * string, (map ascii_of_N p.1, p.2))
    [([195; 159], "SS"); ([197; 191], "S"); ([196; 177], "I"); ([239; 172; 128], "FF");
     ([239; 172; 129], "FI"); ([239; 172; 130], "FL"); ([239; 172; 131], "FFI");
     ([239; 172; 132], "FFL"); ([239; 172; 133], "ST"); ([239; 172; 134], "ST")]%N.

Fixpoint strip_upper (table : list (list ascii * string)) (l : list ascii)
    : option (string * list ascii) :=
  match table with
  | [] => None
  | (w, u) :: table =>
      match strip_any [w] l with Some l' => Some (u, l') | None => strip_upper table l end
  end.

(** [value.toUpperCase().replace(/[-\s]/g, '')]; [fuel] is the number of bytes.  The
    upper case of any other character outside ASCII is outside ASCII. *)
Fixpoint upper_undashed (fuel : nat) (l : list ascii) : list ascii :=
  match fuel with
  | O => []
  | S fuel =>
      match strip_any whiteSpace l with
      | Some l => upper_undashed fuel l
      | None =>
          match strip_upper special_upper l with
          | Some (u, l) => list_ascii_of_string u ++ upper_undashed fuel l
          | None =>
              match l with
              | [] => []
              | c :: l => (if Ascii.eqb c "-" then [] else [upper_ascii c]) ++ upper_undashed fuel l
              end
          end
      end
  end.

(** [normalizeUserCode] *)
Definition normalizeUserCode (value : string) : option string :=
  let l := list_ascii_of_string value in
  let l := upper_undashed (length l) l in
  if (Nat.eqb (length l) 8) && forallb (one_of USER_CODE_ALPHABET) l
  then Some (string_of_list_ascii l) else None.

Definition formatUserCode (normalized : string) : string :=
  substring 0 4 normalized +:+ "-" +:+ substring 4 4 normalized.

Definition opaqueToken (kind id secret : string) : string :=
  "bc_" +:+ kind +:+ "_" +:+ id +:+ "_" +:+ secret.

(** A literal under the [i] flag. *)
Definition lit_i (s : string) : re :=
  foldr (λ c r, Cat (Chr (λ d, Ascii.eqb (lower_ascii d) c)) r) Eps (list_ascii_of_string s).

Definition tokenPattern (kind : string) : re :=
  cats [lit_i ("bc_" +:+ kind +:+ "_"); uuidPattern; lit "_"; rep_exact 43 (Chr token_char)].

(** [tokenId]: the identifier is the 36 characters after the kind. *)
Definition tokenId (raw kind : string) : option string :=
  if test (tokenPattern kind) raw
  then Some (substring (String.length ("bc_" +:+ kind +:+ "_")) 36 raw) else None.

(** ** Scopes and roles *)

Definition uniqueScopes (scopes : list string) : list string := new_Set [] scopes.

(** [validScopes] on the unknown elements of a request. *)
Definition validScopes (scopes : list json) : option (list string) :=
  if (Nat.eqb (length scopes) 0) || (Nat.ltb (length apiKeyScopes) (length scopes)) then None
  else foldr (λ s acc,
         match s, acc with
         | JStr s, Some l => if string_in s apiKeyScopes then Some (s :: l) else None
         | _, _ => None
         end) (Some []) scopes.

Definition rolePermits (role scope : string) : bool :=
  if is_administrator role then true
  else if String.eqb role "billing" then String.eqb scope "billing:read"
  else string_in scope
    ["machines:read"; "machines:write"; "templates:read"; "volumes:read"; "volumes:write"].

(** [identityPermits] on the joined row: the approver, its membership now and the
    organization of the family. *)
Definition identityPermits (db : IdentityDb) (user organization : string) (scopes : list string) : bool :=
  match live_role db organization user with
  | Some role => forallb (rolePermits role) scopes
  | None => false
  end.

Section device.
Context (sha256 : string → string) (digest : string → string) (lookup : string → string).

Definition ZERO_DIGEST : string :=
  string_of_list_ascii (repeat Ascii.zero 32).

(** [equalDigest] *)
Definition equalDigest (expected : option string) (raw : string) : bool :=
  match expected with
  | Some h => String.eqb (if Nat.eqb (String.length h) 32 then h else ZERO_DIGEST) (digest raw)
  | None => false
  end.

Definition device_audit (event : string) (organization project : option string) (actorType : string)
    (actor : option string) (action outcome : string) (reason : option string) (resource : string)
    (cx : RequestContext) (metadata : json) : AuditEntry :=
  mkAudit ("device-auth:" +:+ event) "" organization project actorType (sliced 256 actor) action outcome
    reason "device_authorization" resource (sliced 128 (cx_request_id cx))
    (auditUserAgentFingerprint sha256 (cx_user_agent cx)) metadata.

(** ** Retention *)

(** [account_device_retained_row] (migrations/0034): the counters are the sizes
    of the tables. *)
Definition below_capacity {A} (capacity : Z) (constraint : string) (rows : gmap string A) : result IdError unit :=
  if Z.of_nat (size rows) <? capacity then Ok tt else Err (CheckViolation constraint).

Definition retention_constraints : list string :=
  ["device_retention_authorization_capacity"; "device_retention_family_capacity";
   "device_retention_refresh_capacity"; "device_retention_access_capacity"].

(** [throwDeviceRetentionCapacity] *)
Definition retention_error (e : IdError) : IdError :=
  match e with
  | CheckViolation c =>
      if string_in c retention_constraints
      then DeviceAuthorizationError "rate_limited" "Device login capacity is temporarily exhausted." 429 (Some 60)
      else e
  | _ => e
  end.

Definition insert_device (id : string) (row : DeviceRow) : IdTx unit := λ db,
  _ ← below_capacity 50000 "device_retention_authorization_capacity" (devices db);
  if bool_decide (is_Some (devices db !! id)) then Err (UniqueViolation "device_authorizations_pkey")
  else if existsb (λ kv, String.eqb (dv_user_code_hash kv.2) (dv_user_code_hash row)) (map_to_list (devices db))
  then Err (UniqueViolation "device_authorizations_user_code_hash_key")
  else Ok (tt, db <| devices ::= <[id := row]> |>).

Definition insert_family (id : string) (row : FamilyRow) : IdTx unit := λ db,
  _ ← below_capacity 4096 "device_retention_family_capacity" (families db);
  if bool_decide (is_Some (families db !! id)) then Err (UniqueViolation "device_refresh_families_pkey")
  else if existsb (λ kv, String.eqb (fm_device_authorization_id kv.2) (fm_device_authorization_id row))
            (map_to_list (families db))
  then Err (UniqueViolation "device_refresh_families_device_authorization_id_key")
  else Ok (tt, db <| families ::= <[id := row]> |>).

Definition insert_refresh_token (id : string) (row : RefreshTokenRow) : IdTx unit := λ db,
  _ ← below_capacity 1048576 "device_retention_refresh_capacity" (refresh_tokens db);
  if bool_decide (is_Some (refresh_tokens db !! id)) then Err (UniqueViolation "device_refresh_tokens_pkey")
  else if existsb (λ kv, String.eqb (rt_family_id kv.2) (rt_family_id row) &&
                         (rt_generation kv.2 =? rt_generation row)) (map_to_list (refresh_tokens db))
  then Err (UniqueViolation "device_refresh_tokens_family_id_generation_key")
  else Ok (tt, db <| refresh_tokens ::= <[id := row]> |>).

Definition insert_access_token (id : string) (row : AccessTokenRow) : IdTx unit := λ db,
  _ ← below_capacity 1048576 "device_retention_access_capacity" (access_tokens db);
  if bool_decide (is_Some (access_tokens db !! id)) then Err (UniqueViolation "device_access_tokens_pkey")
  else Ok (tt, db <| access_tokens ::= <[id := row]> |>).

(** ** Rate limits *)

(** [rateLimit]: the seconds to wait when the window is spent. *)
Definition rateLimit (kind keyHash : string) (limit clock windowSeconds : Z) (db : IdentityDb)
    : option Z * IdentityDb :=
  let windowMs := windowSeconds * 1000 in
  let windowStart := clock / windowMs * windowMs in
  let attempts := match device_rates db !! (kind, keyHash, windowStart) with Some n => n + 1 | None => 1 end in
  (if limit <? attempts
   then Some (Z.max 1 (ceil_div (windowStart + windowMs - clock) 1000)) else None,
   db <| device_rates ::= <[(kind, keyHash, windowStart) := attempts]> |>).

(** [cleanupRateLimits]: the oldest 256 windows more than an hour old; of equal
    ones, the first in the order of the table. *)
Definition cleanupRateLimits (clock : Z) (db : IdentityDb) : IdentityDb :=
  let old := take 256 (sort_by (λ a b : (string * string * Z) * Z, a.1.2 - b.1.2)
    (List.filter (λ kv : (string * string * Z) * Z, kv.1.2 <? clock - 60 * 60 * 1000)
       (map_to_list (device_rates db)))) in
  db <| device_rates ::= λ rates, foldl (λ r kv, delete kv.1 r) rates old |>.

Definition tooMany (retryAfter : Z) : IdError :=
  DeviceAuthorizationError "rate_limited" "Too many device authorization attempts." 429 (Some retryAfter).

(** The source's and the global window, each counted whether or not the other is
    spent. *)
Definition consumeIssueRateLimits (source : string) (clock : Z) : Act IdentityDb IdError unit := λ db,
  let '(global, db) := rateLimit "issue_global" (lookup "global") 300 clock 60 (cleanupRateLimits clock db) in
  let '(perSource, db) := rateLimit "issue_source"
    (lookup (if String.eqb source "" then "unknown" else source)) 10 clock 60 db in
  let retryAfter := Z.max (default 0 global) (default 0 perSource) in
  (if retryAfter =? 0 then Ok tt else Err (tooMany retryAfter), db).

Definition consumeActorRateLimit (actor : string) (clock : Z) : Act IdentityDb IdError unit := λ db,
  let '(retryAfter, db) := rateLimit "approve_actor" (lookup actor) 30 clock 300 (cleanupRateLimits clock db) in
  (match retryAfter with Some s => Err (tooMany s) | None => Ok tt end, db).

(** ** Issuing a code *)

Record IssueInput := mkIssue {
  ii_client_id : string;
  ii_scopes : list json;
  ii_source : string;
  ii_context : RequestContext
}.

(** What one attempt draws, and what others did before its transaction. *)
Record DeviceDraw := mkDraw {
  dd_id : string;
  dd_secret : string;
  dd_user_code : string;
  dd_event : string;
  dd_others : IdentityDb → IdentityDb
}.

Record DeviceCode := mkDeviceCode { dc_device_code : string; dc_user_code : string; dc_scopes : list string }.

Definition new_device (clock : Z) (clientId : string) (scopes : list string) (d : DeviceDraw) : DeviceRow :=
  mkDevice (digest (opaqueToken "device" (dd_id d) (dd_secret d))) (lookup (dd_user_code d)) clientId
    scopes None Pending None None None INITIAL_POLL_SECONDS
    (clock + INITIAL_POLL_SECONDS * 1000) 0 clock (clock + DEVICE_LIFETIME_MS) None None None.

Definition issue_once (clock : Z) (clientId : string) (scopes : list string) (cx : RequestContext)
    (d : DeviceDraw) : IdTx unit :=
  _ ← insert_device (dd_id d) (new_device clock clientId scopes d);
  insert_audit (device_audit (dd_event d) None None "system" None "device_authorization.requested"
    "requested" None (dd_id d) cx
    (JObj [("client_id", JStr clientId); ("scopes", JArr (map JStr scopes))])).

(** A unique violation takes the next attempt, except at the last. *)
Fixpoint issue_loop (clock : Z) (clientId : string) (scopes : list string) (cx : RequestContext)
    (draws : list DeviceDraw) : Act IdentityDb IdError DeviceCode := λ db,
  match draws with
  | [] => (Err (PlainError "could not allocate a unique device authorization code"), db)
  | d :: draws =>
      match transaction (issue_once clock clientId scopes cx d) (dd_others d db) with
      | (Ok tt, db) =>
          (Ok (mkDeviceCode (opaqueToken "device" (dd_id d) (dd_secret d)) (formatUserCode (dd_user_code d)) scopes), db)
      | (Err (UniqueViolation c), db) =>
          match draws with
          | [] => (Err (UniqueViolation c), db)
          | _ => issue_loop clock clientId scopes cx draws db
          end
      | (Err e, db) => (Err (retention_error e), db)
      end
  end.

Definition issue (clock : Z) (input : IssueInput) (draws : list DeviceDraw)
    : Act IdentityDb IdError DeviceCode := λ db,
  match consumeIssueRateLimits (ii_source input) clock db with
  | (Err e, db) => (Err e, db)
  | (Ok tt, db) =>
      if negb (String.eqb (ii_client_id input) "nehemiah-cli")
      then (Err (device_error "invalid_client" "The device client is not allowed."), db)
      else match validScopes (ii_scopes input) with
           | None => (Err (device_error "invalid_scope" "At least one valid scope is required."), db)
           | Some scopes =>
               issue_loop clock (ii_client_id input) (uniqueScopes scopes) (ii_context input) (take 5 draws) db
           end
  end.

(** ** Deciding on a code *)

Definition device_of_code (db : IdentityDb) (code : string) : option (string * DeviceRow) :=
  head (List.filter (λ kv, String.eqb (dv_user_code_hash kv.2) (lookup code)) (map_to_list (devices db))).

Definition expiredCode : IdError :=
  DeviceAuthorizationError "expired_token" "The device code is invalid or expired." 404 None.
Definition decidedCode : IdError :=
  DeviceAuthorizationError "invalid_grant" "The device authorization has already been decided." 409 None.

(** The row of a code that is still to be decided. *)
Definition undecided (clock : Z) (db : IdentityDb) (code : string) : result IdError (string * DeviceRow) :=
  match device_of_code db code with
  | Some (id, d) =>
      if dv_expires_at d <=? clock then Err expiredCode
      else if bool_decide (dv_status d = Pending) then Ok (id, d) else Err decidedCode
  | None => Err expiredCode
  end.

Definition inspect (clock : Z) (userCode actor : string) : Act IdentityDb IdError DeviceRow := λ db,
  match consumeActorRateLimit actor clock db with
  | (Err e, db) => (Err e, db)
  | (Ok tt, db) =>
      match normalizeUserCode userCode with
      | None => (Err (device_error "invalid_request" "The user code is invalid."), db)
      | Some code =>
          (match undecided clock db code with Ok (_, d) => Ok d | Err e => Err e end, db)
      end
  end.

Record AuthorizeInput := mkAuthorize {
  az_user_code : string;
  az_decision : string;
  az_organization_id : string;
  az_project_id : option string;
  az_scopes : option (list json);
  az_clerk_user_id : string;
  az_context : RequestContext
}.

Definition denied_device (clock : Z) (organization user : string) (d : DeviceRow) : DeviceRow :=
  d <| dv_status := Denied |> <| dv_organization_id := Some organization |>
    <| dv_approved_by := Some user |> <| dv_denied_at := Some clock |>.

Definition approved_device (clock : Z) (organization project user : string) (scopes : list string)
    (d : DeviceRow) : DeviceRow :=
  d <| dv_status := Approved |> <| dv_organization_id := Some organization |>
    <| dv_project_id := Some project |> <| dv_approved_by := Some user |>
    <| dv_approved_scopes := Some scopes |> <| dv_authorized_at := Some clock |>.

Definition with_device (id : string) (f : DeviceRow → DeviceRow) (db : IdentityDb) : IdentityDb :=
  db <| devices ::= alter f id |>.

Definition subject_role (db : IdentityDb) (organization subject : string) : option (string * string) :=
  match user_of_subject db subject with
  | Some (user, _) => (λ role, (user, role)) <$> live_role db organization user
  | None => None
  end.

(** The transaction of [authorize].  Its first statement reads the membership without
    a lock; [seen] is the database as that statement sees it. *)
Definition decide_device (clock : Z) (event code : string) (input : AuthorizeInput) (seen : IdentityDb)
    : IdTx unit := λ db,
  let organization := az_organization_id input in
  match subject_role seen organization (az_clerk_user_id input) with
  | None => Err (DeviceAuthorizationError "access_denied"
                   "The selected organization is not available to this user." 403 None)
  | Some (user, role) =>
      '(id, d) ← undecided clock db code;
      if String.eqb (az_decision input) "deny" then
        insert_audit (device_audit event (Some organization) None "user" (Some (az_clerk_user_id input))
          "device_authorization.denied" "denied" (Some "user_denied") id (az_context input) (JObj []))
          (with_device id (denied_device clock organization user) db)
      else
        match az_project_id input, az_scopes input ≫= validScopes with
        | Some project, Some scopes =>
            let scopes := uniqueScopes scopes in
            if existsb (λ s, negb (string_in s (dv_requested_scopes d)) || negb (rolePermits role s)) scopes
            then Err (DeviceAuthorizationError "invalid_scope"
                        "One or more scopes were not requested or are not permitted for this user." 403 None)
            else if negb (bool_decide (projects db !! uuid_text project = Some organization))
            then Err (DeviceAuthorizationError "access_denied"
                        "The selected project is not available to this organization." 403 None)
            else
              insert_audit (device_audit event (Some organization) (Some project) "user"
                (Some (az_clerk_user_id input)) "device_authorization.approved" "succeeded" None id
                (az_context input) (JObj [("scopes", JArr (map JStr scopes))]))
                (with_device id (approved_device clock organization (uuid_text project) user scopes) db)
        | _, _ => Err (device_error "invalid_scope" "Approval requires a project and at least one valid scope.")
        end
  end.

(** [during] is what others commit between that statement and the device's lock. *)
Definition authorize (clock : Z) (event : string) (input : AuthorizeInput) (during : IdentityDb → IdentityDb)
    : Act IdentityDb IdError unit := λ db,
  match consumeActorRateLimit (az_clerk_user_id input) clock db with
  | (Err e, db) => (Err e, db)
  | (Ok tt, db) =>
      match normalizeUserCode (az_user_code input) with
      | None => (Err (device_error "invalid_request" "The authorization request is invalid."), db)
      | Some code =>
          if negb (string_in (az_decision input) ["approve"; "deny"])
          then (Err (device_error "invalid_request" "The authorization request is invalid."), db)
          else if String.eqb (az_decision input) "approve" &&
                  match az_project_id input with Some p => negb (test uuidPattern p) | None => true end
          then (Err (device_error "invalid_request" "Approval requires a valid project identifier."), db)
          else transaction (decide_device clock event code input db) (during db)
      end
  end.
End device.
