(* ===== verification/DeviceTokens.v ===== *)
(** * The tokens of a device login

    The second half of src/apps/nehemiah/src/auth/device.ts: the device exchanges an
    approved code for a family of tokens, rotates its refresh token, revokes the
    family and authenticates with its access token.  Each method reads the
    presented token first and runs its transaction later; [others] is what the rest
    of the system does in between. *)

From S2P Require Import Prelude Text Js Capacity Identity ApiKeys Device.

(** ** Rows a token leads to *)

Definition family_live (clock : Z) (f : FamilyRow) : bool :=
  bool_decide (fm_revoked_at f = None) && (clock <? fm_expires_at f).

(** The inner joins on the authorization, its approver and the organization. *)
Definition approver (db : IdentityDb) (f : FamilyRow) : option string :=
  d ← devices db !! fm_device_authorization_id f;
  user ← dv_approved_by d;
  if bool_decide (is_Some (users db !! user)) && bool_decide (is_Some (organizations db !! fm_organization_id f))
  then Some user else None.

Definition refresh_of (db : IdentityDb) (id : string) : option (RefreshTokenRow * FamilyRow) :=
  t ← refresh_tokens db !! id; f ← families db !! rt_family_id t; Some (t, f).

Definition access_of (db : IdentityDb) (id : string) : option (AccessTokenRow * FamilyRow) :=
  t ← access_tokens db !! id; f ← families db !! at_family_id t; Some (t, f).

(** Token and family unexpired, the family not revoked. *)
Definition refresh_live (clock : Z) (p : RefreshTokenRow * FamilyRow) : bool :=
  (clock <? rt_expires_at p.1) && family_live clock p.2.

Definition access_live (clock : Z) (p : AccessTokenRow * FamilyRow) : bool :=
  (clock <? at_expires_at p.1) && bool_decide (at_revoked_at p.1 = None) && family_live clock p.2.

(** ** Ending a family *)

Definition with_family (id : string) (f : FamilyRow → FamilyRow) (db : IdentityDb) : IdentityDb :=
  db <| families ::= alter f id |>.

(** [UPDATE device_access_tokens ... WHERE family_id = $1] *)
Definition revoke_accesses (clock : Z) (family : string) (db : IdentityDb) : IdentityDb :=
  db <| access_tokens ::= fmap (λ a,
    if String.eqb (at_family_id a) family then revoke_access clock a else a) |>.

Definition family_grant (family organization : string) (g : GrantRow) : bool :=
  String.eqb (gr_issuer_type g) "device_family" && String.eqb (gr_issuer_id g) family &&
  String.eqb (gr_organization_id g) organization.

(** The three updates that end a family: its row, its access tokens, its grants
    that have not expired. *)
Definition end_family (clock now : Z) (id : string) (f : FamilyRow) (mark : FamilyRow → FamilyRow)
    (db : IdentityDb) : IdentityDb :=
  revoke_grants now (λ g, family_grant id (fm_organization_id f) g && (now <? gr_expires_at g))
    (revoke_accesses clock id (with_family id mark db)).

(** The first revocation of a family, by its owner. *)
Definition revoked_family (clock : Z) (f : FamilyRow) : FamilyRow := f <| fm_revoked_at := Some clock |>.

Definition reused_family (clock : Z) (f : FamilyRow) : FamilyRow :=
  revoke_family clock f <| fm_reuse_detected_at := coalesce (fm_reuse_detected_at f) (Some clock) |>.

Section tokens.
Context (sha256 : string → string) (digest : string → string).

Definition family_audit (event : string) (id : string) (f : FamilyRow) (actorType actor action outcome : string)
    (reason : option string) (cx : RequestContext) (metadata : json) : AuditEntry :=
  device_audit sha256 event (Some (fm_organization_id f)) (Some (fm_project_id f)) actorType (Some actor)
    action outcome reason id cx metadata.

(** [revokeFamilyForIdentity] *)
Definition revokeFamilyForIdentity (clock now : Z) (event id : string) (f : FamilyRow) (cx : RequestContext)
    : IdTx unit := λ db,
  let fresh := match families db !! id with
               | Some f => bool_decide (fm_revoked_at f = None)
               | None => false
               end in
  let db := revoke_grants now (family_grant id (fm_organization_id f))
    (revoke_accesses clock id (if fresh then with_family id (revoke_family clock) db else db)) in
  if fresh then
    insert_audit (family_audit event id f "system" "identity-lifecycle"
      "device_authorization.identity_invalidated" "denied" (Some "identity_inactive") cx (JObj [])) db
  else Ok (tt, db).

(** ** Exchanging a code *)

(** What an exchange or a refresh draws. *)
Record TokenDraw := mkTokenDraw {
  td_access_id : string;
  td_access_secret : string;
  td_refresh_id : string;
  td_refresh_secret : string;
  td_family_id : string;
  td_event : string
}.

Definition accessToken (t : TokenDraw) : string := opaqueToken "access" (td_access_id t) (td_access_secret t).
Definition refreshToken (t : TokenDraw) : string := opaqueToken "refresh" (td_refresh_id t) (td_refresh_secret t).

Record DeviceTokenResponse := mkTokens {
  tr_access_token : string;
  tr_expires_in : Z;
  tr_refresh_token : string;
  tr_refresh_expires_in : Z;
  tr_organization_id : string;
  tr_project_id : string;
  tr_scopes : list string
}.

(** What a transaction commits with: an error to throw afterwards, or the answer. *)
Inductive TokenOutcome :=
| TokenRefused (code : string) (seconds : option Z)
| TokenIssued (response : DeviceTokenResponse).

Definition new_family (clock : Z) (id organization project : string) (scopes : list string) : FamilyRow :=
  mkFamily id organization project scopes clock (clock + REFRESH_LIFETIME_MS) None None.

Definition new_refresh (clock : Z) (t : TokenDraw) (family : string) (generation expires : Z) : RefreshTokenRow :=
  mkRefreshToken family generation (digest (refreshToken t)) clock expires None None.

Definition new_access (clock : Z) (t : TokenDraw) (family organization project : string)
    (scopes : list string) (expires : Z) : AccessTokenRow :=
  mkAccessToken family organization project scopes (digest (accessToken t)) clock expires None None.

(** A pending code was polled: too early, or not. *)
Definition polled_early (clock : Z) (d : DeviceRow) : DeviceRow :=
  let interval := Z.min 60 (dv_poll_interval_seconds d + 5) in
  d <| dv_poll_interval_seconds := interval |> <| dv_next_poll_at := clock + interval * 1000 |>
    <| dv_poll_violations := dv_poll_violations d + 1 |>.
Definition polled (clock : Z) (d : DeviceRow) : DeviceRow :=
  d <| dv_next_poll_at := clock + dv_poll_interval_seconds d * 1000 |>.

Definition invalidated_device (clock : Z) (d : DeviceRow) : DeviceRow :=
  d <| dv_status := Denied |> <| dv_project_id := None |> <| dv_approved_scopes := None |>
    <| dv_authorized_at := None |> <| dv_denied_at := Some clock |>.
Definition consumed_device (clock : Z) (d : DeviceRow) : DeviceRow :=
  d <| dv_status := Consumed |> <| dv_consumed_at := Some clock |>.

(** The inserts of an exchange of an approved row. *)
Definition found_family (clock : Z) (id : string) (t : TokenDraw) (cx : RequestContext)
    (organization project : string) (scopes : list string) : IdTx TokenOutcome :=
  _ ← insert_family (td_family_id t) (new_family clock id organization project scopes);
  _ ← insert_refresh_token (td_refresh_id t)
        (new_refresh clock t (td_family_id t) 0 (clock + REFRESH_LIFETIME_MS));
  _ ← insert_access_token (td_access_id t)
        (new_access clock t (td_family_id t) organization project scopes (clock + ACCESS_LIFETIME_MS));
  _ ← modify (with_device id (consumed_device clock));
  _ ← insert_audit (device_audit sha256 (td_event t) (Some organization) (Some project) "system" None
        "device_authorization.exchanged" "succeeded" None id cx (JObj [("scopes", JArr (map JStr scopes))]));
  mret (TokenIssued (mkTokens (accessToken t) (ACCESS_LIFETIME_MS / 1000) (refreshToken t)
          (REFRESH_LIFETIME_MS / 1000) organization project scopes)).

(** The transaction of [exchange].  The row of the code is locked; the approver's
    membership is not, and [seen] is the database as the statement that reads it
    found it. *)
Definition exchange_tx (clock : Z) (id : string) (t : TokenDraw) (cx : RequestContext) (seen : IdentityDb)
    : IdTx TokenOutcome := λ db,
  match devices db !! id with
  | None => Ok (TokenRefused "expired_token" None, db)
  | Some d =>
      if dv_expires_at d <=? clock then Ok (TokenRefused "expired_token" None, db)
      else
        match dv_status d with
        | Denied => Ok (TokenRefused "access_denied" None, db)
        | Consumed => Ok (TokenRefused "invalid_grant" None, db)
        | Pending =>
            if clock <? dv_next_poll_at d
            then Ok (TokenRefused "slow_down" (Some (Z.min 60 (dv_poll_interval_seconds d + 5))),
                     with_device id (polled_early clock) db)
            else Ok (TokenRefused "authorization_pending" (Some (dv_poll_interval_seconds d)),
                     with_device id (polled clock) db)
        | Approved =>
            match dv_organization_id d, dv_project_id d, dv_approved_by d, dv_approved_scopes d with
            | Some organization, Some project, Some user, Some scopes =>
                if identityPermits seen user organization scopes
                then found_family clock id t cx organization project scopes db
                else
                  (_ ← insert_audit (device_audit sha256 (td_event t) (Some organization) None "system"
                         (Some "identity-lifecycle") "device_authorization.identity_invalidated" "denied"
                         (Some "identity_inactive") id cx (JObj []));
                   mret (TokenRefused "access_denied" None)) (with_device id (invalidated_device clock) db)
            | _, _, _, _ => Err (PlainError "approved device authorization is missing its tenant binding")
            end
        end
  end.

Definition exchange_message (code : string) : string :=
  if String.eqb code "expired_token" then "The device code has expired."
  else if String.eqb code "access_denied" then "The device authorization was denied."
  else if String.eqb code "invalid_grant" then "The device code has already been exchanged."
  else if String.eqb code "authorization_pending" then "The device authorization is pending."
  else "The device is polling too quickly.".

(** Clock, draws and interference of one call: [rc_before] acts before the
    transaction, [rc_during] between its read of the identity and its commit,
    leaving alone the rows it locked. *)
Record TokenCall := mkTokenCall {
  tc_clock : Z;
  tc_now : Z;
  tc_draw : TokenDraw;
  tc_context : RequestContext;
  tc_before : IdentityDb → IdentityDb;
  tc_during : IdentityDb → IdentityDb
}.

Definition answer (refused : string → option Z → IdError) (r : result IdError TokenOutcome)
    : result IdError DeviceTokenResponse :=
  match r with
  | Ok (TokenIssued response) => Ok response
  | Ok (TokenRefused code seconds) => Err (refused code seconds)
  | Err e => Err (retention_error e)
  end.

Definition exchange (deviceCode : string) (c : TokenCall) : Act IdentityDb IdError DeviceTokenResponse := λ db,
  let invalid := device_error "invalid_grant" "The device code is invalid." in
  match tokenId deviceCode "device" with
  | None => (Err invalid, db)
  | Some id =>
      if negb (equalDigest digest (dv_token_hash <$> devices db !! uuid_text id) deviceCode)
      then (Err invalid, db)
      else
        let seen := tc_before c db in
        let '(r, db) := transaction (exchange_tx (tc_clock c) (uuid_text id) (tc_draw c) (tc_context c) seen)
                          (tc_during c seen) in
        (answer (λ code seconds, DeviceAuthorizationError code (exchange_message code) 400 seconds) r, db)
  end.

(** ** Refreshing *)

Definition invalidRefresh : IdError := device_error "invalid_grant" "The refresh token is invalid.".
Definition reuseDetected : IdError :=
  device_error "refresh_reuse_detected" "Refresh-token reuse was detected; this login has been revoked.".

(** The check of the row read before the transaction. *)
Definition presented (clock : Z) (raw : string) (found : option (RefreshTokenRow * FamilyRow))
    : result IdError unit :=
  if negb (equalDigest digest (rt_token_hash ∘ fst <$> found) raw) then Err invalidRefresh
  else match found with
       | None => Err invalidRefresh
       | Some (t, f) =>
           if bool_decide (is_Some (fm_reuse_detected_at f)) then Err reuseDetected
           else if refresh_live clock (t, f) then Ok tt else Err invalidRefresh
       end.

(** The token replaced by the next generation, with a new access token. *)
Definition rotated (clock : Z) (id : string) (t : RefreshTokenRow) (f : FamilyRow) (d : TokenDraw)
    (cx : RequestContext) : IdTx TokenOutcome :=
  let accessExpires := Z.min (clock + ACCESS_LIFETIME_MS) (fm_expires_at f) in
  _ ← insert_refresh_token (td_refresh_id d)
        (new_refresh clock d (rt_family_id t) (rt_generation t + 1) (fm_expires_at f));
  _ ← modify (λ db, db <| refresh_tokens ::= alter (λ t,
        t <| rt_used_at := Some clock |> <| rt_replaced_by := Some (td_refresh_id d) |>) id |>);
  _ ← insert_access_token (td_access_id d)
        (new_access clock d (rt_family_id t) (fm_organization_id f) (fm_project_id f) (fm_scopes f) accessExpires);
  _ ← insert_audit (family_audit (td_event d) (rt_family_id t) f "api_key" (rt_family_id t)
        "device_authorization.refreshed" "succeeded" None cx
        (JObj [("generation", JNum (NInt (rt_generation t + 1)))]));
  mret (TokenIssued (mkTokens (accessToken d) (Z.max 1 ((accessExpires - clock) / 1000)) (refreshToken d)
          (Z.max 1 ((fm_expires_at f - clock) / 1000)) (fm_organization_id f) (fm_project_id f) (fm_scopes f))).

Definition refresh_tx (clock now : Z) (id : string) (d : TokenDraw) (cx : RequestContext)
    : IdTx TokenOutcome := λ db,
  match refresh_of db id with
  | None => Ok (TokenRefused "invalid_grant" None, db)
  | Some (t, f) =>
      let family := rt_family_id t in
      if negb (refresh_live clock (t, f)) then Ok (TokenRefused "invalid_grant" None, db)
      else
        match approver db f with
        | None => Ok (TokenRefused "invalid_grant" None, db)
        | Some user =>
            if bool_decide (is_Some (rt_used_at t)) then
              (_ ← modify (end_family clock now family f (reused_family clock));
               _ ← (if bool_decide (fm_reuse_detected_at f = None)
                    then insert_audit (family_audit (td_event d) family f "api_key" family
                           "device_authorization.refresh_reuse_detected" "denied"
                           (Some "refresh_reuse_detected") cx (JObj []))
                    else mret tt);
               mret (TokenRefused "refresh_reuse_detected" None)) db
            else if negb (identityPermits db user (fm_organization_id f) (fm_scopes f)) then
              (_ ← revokeFamilyForIdentity clock now (td_event d) family f cx;
               mret (TokenRefused "invalid_grant" None)) db
            else if clock <? rt_created_at t + MINIMUM_REFRESH_INTERVAL_MS then
              Ok (TokenRefused "slow_down"
                    (Some (Z.max 1 (ceil_div (rt_created_at t + MINIMUM_REFRESH_INTERVAL_MS - clock) 1000))), db)
            else if MAXIMUM_REFRESH_GENERATION <=? rt_generation t then
              (_ ← modify (end_family clock now family f (revoke_family clock));
               _ ← insert_audit (family_audit (td_event d) family f "api_key" family
                     "device_authorization.refresh_generation_exhausted" "denied"
                     (Some "refresh_generation_exhausted") cx
                     (JObj [("maximum_generation", JNum (NInt MAXIMUM_REFRESH_GENERATION))]));
               mret (TokenRefused "expired_token" None)) db
            else rotated clock id t f d cx db
        end
  end.

Definition refresh_refused (code : string) (seconds : option Z) : IdError :=
  if String.eqb code "slow_down"
  then DeviceAuthorizationError "slow_down" "The refresh credential was rotated too recently." 429 seconds
  else if String.eqb code "refresh_reuse_detected" then reuseDetected
  else device_error code "The refresh token is invalid, expired, or requires reauthentication.".

(** The family is locked before its approver is read, and every revocation of
    identities updates the family: nothing revokes it in between, so the
    transaction is one step. *)
Definition refresh (raw : string) (c : TokenCall) : Act IdentityDb IdError DeviceTokenResponse := λ db,
  match tokenId raw "refresh" with
  | None => (Err invalidRefresh, db)
  | Some id =>
      match presented (tc_clock c) raw (refresh_of db (uuid_text id)) with
      | Err e => (Err e, db)
      | Ok tt =>
          let '(r, db) := transaction
            (refresh_tx (tc_clock c) (tc_now c) (uuid_text id) (tc_draw c) (tc_context c)) (tc_before c db) in
          (answer refresh_refused r, db)
      end
  end.

(** ** Revoking *)

Definition revoke_tx (clock now : Z) (id event : string) (cx : RequestContext) : IdTx bool := λ db,
  match refresh_of db id with
  | Some (t, f) =>
      if refresh_live clock (t, f) then
        (_ ← modify (end_family clock now (rt_family_id t) f (revoked_family clock));
         _ ← insert_audit (family_audit event (rt_family_id t) f "api_key" (rt_family_id t)
               "device_authorization.revoked" "succeeded" None cx (JObj []));
         mret true) db
      else Ok (false, db)
  | None => Ok (false, db)
  end.

Definition revoke (raw : string) (c : TokenCall) : Act IdentityDb IdError bool := λ db,
  match tokenId raw "refresh" with
  | None => (Ok false, db)
  | Some id =>
      let found := p ← refresh_of db (uuid_text id); if refresh_live (tc_clock c) p then Some p else None in
      if negb (equalDigest digest (rt_token_hash ∘ fst <$> found) raw) then (Ok false, db)
      else transaction (revoke_tx (tc_clock c) (tc_now c) (uuid_text id) (td_event (tc_draw c)) (tc_context c))
             (tc_before c db)
  end.

(** ** Authenticating *)

Definition device_principal (raw_id : string) (t : AccessTokenRow) : ApiKeyPrincipal :=
  mkPrincipal ("device-access:" +:+ raw_id) (Some (at_family_id t)) (at_organization_id t)
    (Some (at_project_id t)) (new_Set [] (at_scopes t)).

Definition access_tx (clock now : Z) (raw raw_id event : string) (cx : RequestContext)
    : IdTx (option ApiKeyPrincipal) := λ db,
  let id := uuid_text raw_id in
  match access_of db id with
  | None => Ok (None, db)
  | Some (t, f) =>
      if negb (access_live clock (t, f)) then Ok (None, db)
      else
        match approver db f with
        | None => Ok (None, db)
        | Some user =>
            if negb (equalDigest digest (Some (at_token_hash t)) raw) then Ok (None, db)
            else if negb (identityPermits db user (fm_organization_id f) (at_scopes t)) then
              (_ ← revokeFamilyForIdentity clock now event (at_family_id t)
                     (f <| fm_organization_id := at_organization_id t |> <| fm_project_id := at_project_id t |>) cx;
               mret None) db
            else Ok (Some (device_principal raw_id t),
                     db <| access_tokens ::= alter (λ t, t <| at_last_used_at := Some clock |>) id |>)
        end
  end.

Definition authenticateAccess (raw : string) (c : TokenCall) : Act IdentityDb IdError (option ApiKeyPrincipal) :=
  λ db,
  match tokenId raw "access" with
  | None => (Ok None, db)
  | Some id =>
      let found := p ← access_of db (uuid_text id); if access_live (tc_clock c) p then Some p else None in
      if negb (equalDigest digest (at_token_hash ∘ fst <$> found) raw) then (Ok None, db)
      else transaction (access_tx (tc_clock c) (tc_now c) raw id (td_event (tc_draw c)) (tc_context c))
             (tc_before c db)
  end.
End tokens.

(** * Retention of logins

    src/apps/nehemiah/src/jobs/reap-expired-device-authorizations.ts and
    jobs/reap-expired-gateway-grants.ts: bounded batches of rows that carry no
    authority any more are deleted, oldest first, passing over rows that others
    hold ([locked]). *)

Record DeviceRetentionReport := mkRetention {
  rr_skipped : bool;
  rr_access_tokens : Z;
  rr_refresh_tokens : Z;
  rr_families : Z;
  rr_authorizations : Z
}.

Definition emptyReport (skipped : bool) : DeviceRetentionReport := mkRetention skipped 0 0 0 0.

(** [positiveBatch] *)
Definition positiveBatch (value : number) (maximum : Z) (label : string) : result IdError nat :=
  match safe_between 1 maximum value with
  | Some n => Ok (Z.to_nat n)
  | None => Err (PlainError (label +:+ " must be from 1 to " +:+ pretty maximum))
  end.

(** [ORDER BY at, id LIMIT limit FOR UPDATE SKIP LOCKED] over the rows that are
    due. *)
Definition due_batch {A} (at_ : A → Z) (due : string → A → bool) (limit : nat) (locked : gset string)
    (rows : gmap string A) : list string :=
  map fst (take limit (sort_by (λ a b : string * A,
      if at_ a.2 =? at_ b.2 then codeUnitCompare a.1 b.1 else at_ a.2 - at_ b.2)
    (List.filter (λ kv, due kv.1 kv.2 && bool_decide (kv.1 ∉ locked)) (map_to_list rows)))).

Definition without {A} (ids : list string) (rows : gmap string A) : gmap string A :=
  filter (λ kv : string * A, string_in kv.1 ids = false) rows.

Definition hour : Z := 60 * 60 * 1000.

Definition access_ended_at (t : AccessTokenRow) : Z := default (at_expires_at t) (at_revoked_at t).
Definition family_ended_at (f : FamilyRow) : Z := default (fm_expires_at f) (fm_revoked_at f).

(** No family was exchanged for the authorization. *)
Definition family_free (db : IdentityDb) (authorization : string) : bool :=
  forallb (λ kv, negb (String.eqb (fm_device_authorization_id kv.2) authorization)) (map_to_list (families db)).

(** The rows that others hold, by table. *)
Record Held := mkHeld { hd_accesses : gset string; hd_families : gset string; hd_authorizations : gset string }.

(** [reapTransaction]: access tokens, whole families with all that hangs on them,
    then authorizations without a family. *)
Definition reap_accesses (now : Z) (limit : nat) (h : Held) (db : IdentityDb) : Z * IdentityDb :=
  let ids := due_batch access_ended_at (λ _ t, access_ended_at t <=? now - hour) limit (hd_accesses h)
    (access_tokens db) in
  (Z.of_nat (length ids), db <| access_tokens ::= without ids |>).

Definition families_due (now : Z) (limit : nat) (h : Held) (db : IdentityDb) : list string :=
  due_batch family_ended_at (λ _ f, family_ended_at f <=? now - 24 * hour) limit (hd_families h) (families db).

Definition of_families {A} (family : A → string) (ids : list string) (rows : gmap string A) : list string :=
  map fst (List.filter (λ kv, string_in (family kv.2) ids) (map_to_list rows)).

Definition reap_families (now : Z) (limit : nat) (h : Held) (db : IdentityDb)
    : DeviceRetentionReport * IdentityDb :=
  let ids := families_due now limit h db in
  let authorizations := omap (λ id, fm_device_authorization_id <$> families db !! id) ids in
  let accesses := of_families at_family_id ids (access_tokens db) in
  let refreshes := of_families rt_family_id ids (refresh_tokens db) in
  let db := db <| access_tokens ::= without accesses |> <| refresh_tokens ::= without refreshes |>
               <| families ::= without ids |> in
  let gone := List.filter (λ id, bool_decide (is_Some (devices db !! id)) && family_free db id) authorizations in
  (mkRetention false (Z.of_nat (length accesses)) (Z.of_nat (length refreshes)) (Z.of_nat (length ids))
     (Z.of_nat (length gone)), db <| devices ::= without gone |>).

Definition reap_authorizations (now : Z) (limit : nat) (h : Held) (db : IdentityDb) : Z * IdentityDb :=
  let ids := due_batch dv_expires_at (λ id d, (dv_expires_at d <=? now - hour) && family_free db id) limit
    (hd_authorizations h) (devices db) in
  (Z.of_nat (length ids), db <| devices ::= without ids |>).

Definition reapTransaction (now : Z) (accessBatch familyBatch authorizationBatch : nat) (h : Held)
    : IdTx DeviceRetentionReport := λ db,
  let '(accesses, db) := reap_accesses now accessBatch h db in
  let '(r, db) := reap_families now familyBatch h db in
  let '(authorizations, db) := reap_authorizations now authorizationBatch h db in
  Ok (mkRetention false (accesses + rr_access_tokens r) (rr_refresh_tokens r) (rr_families r)
        (rr_authorizations r + authorizations), db).

(** [reapExpiredDeviceAuthorizations]: [singleton] tells whether this process got
    the advisory lock. *)
Definition reapExpiredDeviceAuthorizations (now : Z) (singleton : bool)
    (accessBatch familyBatch authorizationBatch : number) (h : Held) : IdTx DeviceRetentionReport := λ db,
  access ← positiveBatch accessBatch 10000 "device access cleanup batch";
  family ← positiveBatch familyBatch 32 "device family cleanup batch";
  authorization ← positiveBatch authorizationBatch 10000 "device authorization cleanup batch";
  if singleton then reapTransaction now access family authorization h db else Ok (emptyReport true, db).

(** [reapExpiredGatewayGrants] *)
Definition reapExpiredGatewayGrants (now : Z) (batchSize : number) (locked : gset string) : IdTx Z := λ db,
  match safe_between 1 10000 batchSize with
  | None => Err (PlainError "gateway grant reaper batch size must be from 1 to 10000")
  | Some n =>
      let ids := due_batch gr_expires_at (λ _ g, gr_expires_at g <=? now) (Z.to_nat n) locked (grants db) in
      Ok (Z.of_nat (length ids), db <| grants ::= without ids |>)
  end.
