(* ===== verification/IdentityLifecycle.v ===== *)
(** * The lifecycle of identities

    src/apps/nehemiah/src/domain/identity-lifecycle.ts and the queries of
    domain/organizations.ts: operators disable and enable users and organizations,
    and the identity provider's events, which may come late, twice or out of order,
    disable users and change memberships. *)

From S2P Require Import Prelude Text Js Capacity Identity.

Record LifecycleContext := mkLifecycleContext {
  lc_actor_type : string;
  lc_actor_id : string;
  lc_actor_organization_id : option string;
  lc_reason : string;
  lc_request_id : option string;
  lc_user_agent : option string
}.

Record SyncInput := mkSync {
  sy_provider : string;
  sy_event_id : string;
  sy_source_version : number;
  sy_event_type : string;
  sy_clerk_user_id : string;
  sy_organization_id : option string;
  sy_role : option string
}.

Inductive SyncResultKind := Applied | Stale | Replayed.
#[export] Instance SyncResultKind_eq : EqDecision SyncResultKind.
Proof. solve_decision. Defined.

Record SyncResult := mkSyncResult {
  so_event_id : string;
  so_source_version : Z;
  so_result : SyncResultKind;
  so_changed : bool;
  so_user_id : string;
  so_organization_id : option string
}.

Record LifecycleState := mkLifecycleState {
  ls_id : string;
  ls_disabled_at : option Z;
  ls_changed : bool
}.

Definition result_text (k : SyncResultKind) : string :=
  match k with Applied => "applied" | Stale => "stale" | Replayed => "replayed" end.

(** ** Validation *)

Definition bounded (value : option string) (maximum : nat) : option string :=
  if truthy value then substring 0 maximum <$> value else None.

Definition validateContext (c : LifecycleContext) : option string :=
  if String.eqb (js_trim (lc_actor_id c)) "" || (256 <? str_length (lc_actor_id c))
  then Some "actor identity must contain 1 to 256 characters"
  else if String.eqb (js_trim (lc_reason c)) "" || (512 <? str_length (lc_reason c))
  then Some "reason must contain 1 to 512 characters"
  else if String.eqb (lc_actor_type c) "user" &&
          match lc_actor_organization_id c with Some o => negb (test uuidPattern o) | None => true end
  then Some "user lifecycle actors require a valid operator organization"
  else None.

(** [/^[A-Za-z0-9][A-Za-z0-9._:-]{0,255}$/] *)
Definition safeProviderToken : re :=
  Cat (Chr alnum) (rep 0 255 (Chr (λ c, alnum c || one_of "._:-" c))).

Definition syncEventTypes : list string :=
  ["user.disabled"; "user.deleted"; "membership.upserted"; "membership.removed"].
Definition membershipRoles : list string := ["owner"; "admin"; "member"; "billing"].

Definition membershipEvent (eventType : string) : bool :=
  String.eqb (substring 0 11 eventType) "membership.".

(** The source version of a valid input. *)
Definition validateSyncInput (i : SyncInput) : result string Z :=
  if negb (String.eqb (sy_provider i) "clerk") then Err "The identity provider is not supported."
  else if negb (test safeProviderToken (sy_event_id i)) || (128 <? str_length (sy_event_id i))
  then Err "event_id must be a safe 1 to 128 character token"
  else match safe_between 1 max_safe_integer (sy_source_version i) with
  | None => Err "source_version must be a positive safe integer"
  | Some version =>
  if negb (test safeProviderToken (sy_clerk_user_id i))
  then Err "clerk_user_id must be a safe 1 to 256 character subject"
  else if negb (string_in (sy_event_type i) syncEventTypes) then Err "event_type is not supported"
  else if negb (Bool.eqb (membershipEvent (sy_event_type i)) (truthy (sy_organization_id i)))
  then Err "membership events require exactly one local organization target"
  else if truthy (sy_organization_id i) &&
          match sy_organization_id i with Some o => negb (test uuidPattern o) | None => false end
  then Err "organization_id must be a valid local UUID"
  else if String.eqb (sy_event_type i) "membership.upserted" then
    if match sy_role i with Some r => negb (string_in r membershipRoles) | None => true end
    then Err "membership.upserted requires a supported role" else Ok version
  else if bool_decide (is_Some (sy_role i)) then Err "role is valid only for membership.upserted"
  else Ok version
  end.

(** ** Authority and audit *)

(** [lockLifecycleActor] *)
Definition lifecycle_actor (db : IdentityDb) (c : LifecycleContext) : bool :=
  if String.eqb (lc_actor_type c) "system" then true
  else
    match lc_actor_organization_id c, enabled_user_of_subject db (lc_actor_id c) with
    | Some o, Some user =>
        let organization := uuid_text o in
        bool_decide (organization ∈ operators db) && organization_enabled db organization &&
        match members db !! (organization, user) with
        | Some role => is_administrator role
        | None => false
        end
    | _, _ => false
    end.

(** What a transaction commits with: a denial to throw, or the state. *)
Inductive Outcome (A : Type) := Denied_ (e : IdError) | Settled (a : A).
Arguments Denied_ {A} e.
Arguments Settled {A} a.

Definition settle {A} (r : result IdError (Outcome A)) : result IdError A :=
  match r with Ok (Denied_ e) => Err e | Ok (Settled a) => Ok a | Err e => Err e end.

Section lifecycle.
Context (sha256 : string → string).

(** The random event key and operation of an audit row. *)
Record AuditDraw := mkAuditDraw { ad_event : string; ad_operation : string }.

Definition lifecycle_audit (d : AuditDraw) (c : LifecycleContext) (action resourceType resource : string)
    (organization : option string) (outcome : string) (reason : option string) (changed : option bool)
    (retainReason : bool) (metadata : list (string * json)) : AuditEntry :=
  mkAudit ("identity-lifecycle:" +:+ ad_event d) (ad_operation d)
    (coalesce organization (lc_actor_organization_id c)) None (lc_actor_type c)
    (Some (substring 0 256 (lc_actor_id c))) action outcome reason resourceType (substring 0 256 resource)
    (bounded (lc_request_id c) 128) (auditUserAgentFingerprint sha256 (lc_user_agent c))
    (JObj ((if retainReason then [("reason", JStr (js_trim (lc_reason c)))] else []) ++
           match changed with Some b => [("changed", JBool b)] | None => [] end ++ metadata ++
           match lc_actor_organization_id c with
           | Some o => if String.eqb o "" then [] else [("actor_organization_id", JStr o)]
           | None => []
           end)).

(** ** Disabling *)

Definition switched (disabled : bool) (current : option Z) : bool :=
  if disabled then bool_decide (current = None) else negb (bool_decide (current = None)).

(** The UPDATE of a user, with its trigger. *)
Definition disable_user (now : Z) (id : string) (db : IdentityDb) : IdentityDb :=
  revoke_user_dependents now id (db <| users ::= alter (λ u, u <| u_disabled_at := Some now |>) id |>).
Definition enable_user (id : string) (db : IdentityDb) : IdentityDb :=
  db <| users ::= alter (λ u, u <| u_disabled_at := None |>) id |>.

Definition disable_organization (now : Z) (id : string) (db : IdentityDb) : IdentityDb :=
  revoke_organization_dependents now id (db <| organizations ::= alter (λ _, Some now) id |>).
Definition enable_organization (id : string) (db : IdentityDb) : IdentityDb :=
  db <| organizations ::= alter (λ _, None) id |>.

Definition set_disabled_tx (kind : string) (read : IdentityDb → string → option (option Z))
    (disable : string → IdentityDb → IdentityDb) (enable : string → IdentityDb → IdentityDb) (now : Z)
    (id : string) (disabled : bool) (c : LifecycleContext) (d : AuditDraw)
    : IdTx (Outcome (option LifecycleState)) := λ db,
  let action := "identity." +:+ kind +:+ (if disabled then ".disable" else ".enable") in
  let row := uuid_text id in
  let record := λ organization outcome reason changed,
    lifecycle_audit d c action kind id organization outcome reason changed true [] in
  if negb (lifecycle_actor db c) then
    (_ ← insert_audit (record None "denied" (Some "operator_authorization_changed") None);
     mret (Denied_ IdentityLifecycleAuthorizationDenied)) db
  else
    match read db row with
    | None =>
        (_ ← insert_audit (record None "denied" (Some "target_not_found") None); mret (Settled None)) db
    | Some current =>
        let changed := switched disabled current in
        let db := if changed then (if disabled then disable row db else enable row db) else db in
        let state := if changed then (if disabled then Some now else None) else current in
        (_ ← insert_audit (record (if String.eqb kind "organization" then Some id else None) "succeeded"
               None (Some changed));
         mret (Settled (Some (mkLifecycleState row state changed)))) db
    end.

Definition user_disabled_at (db : IdentityDb) (id : string) : option (option Z) :=
  u_disabled_at <$> users db !! id.
Definition organization_disabled_at (db : IdentityDb) (id : string) : option (option Z) :=
  organizations db !! id.

Definition validated {A} (c : LifecycleContext) (m : Act IdentityDb IdError A) : Act IdentityDb IdError A := λ db,
  match validateContext c with
  | Some message => (Err (InvalidIdentityLifecycleRequest message), db)
  | None => m db
  end.

(** [#setUserDisabled] and [#setOrganizationDisabled]; the four public methods
    fix [disabled]. *)
Definition setUserDisabled (now : Z) (id : string) (disabled : bool) (c : LifecycleContext) (d : AuditDraw)
    : Act IdentityDb IdError (option LifecycleState) :=
  validated c (λ db,
    let '(r, db) := transaction
      (set_disabled_tx "user" user_disabled_at (disable_user now) enable_user now id disabled c d) db in
    (settle r, db)).

Definition setOrganizationDisabled (now : Z) (id : string) (disabled : bool) (c : LifecycleContext)
    (d : AuditDraw) : Act IdentityDb IdError (option LifecycleState) :=
  validated c (λ db,
    let '(r, db) := transaction
      (set_disabled_tx "organization" organization_disabled_at (disable_organization now)
         enable_organization now id disabled c d) db in
    (settle r, db)).

(** ** Provider events *)

Definition json_opt (s : option string) : string :=
  match s with Some s => json_text s | None => "null" end.

(** [JSON.stringify] of the array of eight. *)
Definition sync_payload (i : SyncInput) (version : Z) (c : LifecycleContext) : string :=
  "[" +:+ join "," [json_text (sy_provider i); json_text (sy_event_id i); pretty version;
    json_text (sy_event_type i); json_text (sy_clerk_user_id i); json_opt (sy_organization_id i);
    json_opt (sy_role i); json_text (js_trim (lc_reason c))] +:+ "]".

Definition syncPayloadHash (i : SyncInput) (version : Z) (c : LifecycleContext) : string :=
  sha256 (sync_payload i version c).

Definition sync_stream (provider user : string) (organization : option string) : string :=
  match organization with
  | Some o => provider +:+ nul +:+ "membership" +:+ nul +:+ user +:+ nul +:+ toLowerCase o
  | None => provider +:+ nul +:+ "user" +:+ nul +:+ user
  end.

(** The empty organization is no organization. *)
Definition target (i : SyncInput) : option string :=
  if truthy (sy_organization_id i) then sy_organization_id i else None.

Definition syncStreamHash (i : SyncInput) (user : string) : string :=
  sha256 (sync_stream (sy_provider i) user (target i)).

Definition syncAuditMetadata (i : SyncInput) (version : Z) (payload : string) (k : option SyncResultKind)
    : list (string * json) :=
  [("provider", JStr (sy_provider i)); ("event_type", JStr (sy_event_type i));
   ("source_version", JNum (NInt version)); ("payload_sha256", JStr payload)] ++
  (if truthy (sy_role i) then match sy_role i with Some r => [("role", JStr r)] | None => [] end else []) ++
  match k with Some k => [("sync_result", JStr (result_text k))] | None => [] end.

Definition event_key (provider event : string) (r : ReceiptRow) : bool :=
  String.eqb (rc_provider r) provider && String.eqb (rc_event_id r) event.
Definition in_stream (provider stream : string) (r : ReceiptRow) : bool :=
  String.eqb (rc_provider r) provider && String.eqb (rc_stream_sha256 r) stream.

(** The organization of a membership event is not there. *)
Definition target_missing (db : IdentityDb) (i : SyncInput) : bool :=
  match target i with
  | Some o => negb (bool_decide (is_Some (organizations db !! uuid_text o)))
  | None => false
  end.

Definition newest (l : list ReceiptRow) : option Z :=
  match map rc_source_version l with [] => None | v :: vs => Some (foldl Z.max v vs) end.

(** A newer version of the stream was accepted before. *)
Definition stale (own : list ReceiptRow) (version : Z) : bool :=
  match newest own with Some v => version <? v | None => false end.

(** [INSERT INTO identity_provider_sync_receipts], with its primary key and its
    unique constraint; the empty text is no uuid. *)
Definition insert_receipt (r : ReceiptRow) : IdTx unit := λ db,
  if bool_decide (rc_organization_id r = Some "") then Err (PlainError "invalid input syntax for type uuid")
  else if existsb (event_key (rc_provider r) (rc_event_id r)) (receipts db)
  then Err (UniqueViolation "identity_provider_sync_receipts_pkey")
  else if existsb (λ r', in_stream (rc_provider r) (rc_stream_sha256 r) r' &&
                         (rc_source_version r' =? rc_source_version r)) (receipts db)
  then Err (UniqueViolation "identity_provider_sync_receipts_provider_stream_sha256_source_v_key")
  else Ok (tt, db <| receipts ::= λ l, l ++ [r] |>).

(** The effect of an event on the tables, and whether it changed them. *)
Definition apply_event (now : Z) (i : SyncInput) (user : string) (db : IdentityDb) : bool * IdentityDb :=
  if string_in (sy_event_type i) ["user.disabled"; "user.deleted"] then
    match users db !! user with
    | Some u => if bool_decide (u_disabled_at u = None) then (true, disable_user now user db) else (false, db)
    | None => (false, db)
    end
  else
    match sy_organization_id i with
    | None => (false, db)
    | Some o =>
        let key := (uuid_text o, user) in
        if String.eqb (sy_event_type i) "membership.upserted" then
          match sy_role i with
          | Some role =>
              if bool_decide (members db !! key = Some role) then (false, db)
              else (true, db <| members ::= <[key := role]> |>)
          | None => (false, db)
          end
        else
          match members db !! key with
          | Some _ => (true, revoke_membership_dependents now key.1 user (db <| members ::= delete key |>))
          | None => (false, db)
          end
    end.

Definition receipt (i : SyncInput) (version : Z) (payload stream user : string) (applied changed : bool)
    : ReceiptRow :=
  mkReceiptRow (sy_provider i) (sy_event_id i) payload stream version (sy_event_type i) user
    (uuid_text <$> sy_organization_id i) (sy_role i) applied changed.

(** The transaction of [syncIdentityProvider].  Its two advisory locks and the row
    locks make it one step. *)
Definition sync_tx (now : Z) (i : SyncInput) (version : Z) (c : LifecycleContext) (d : AuditDraw)
    : IdTx (Outcome SyncResult) := λ db,
  let payload := syncPayloadHash i version c in
  let record := λ (exists_ : bool) outcome reason changed k,
    lifecycle_audit d c "identity.provider.sync"
      (if truthy (sy_organization_id i) then "organization_membership" else "identity_provider_event")
      (sy_event_id i) (if exists_ then target i else None) outcome reason changed false
      (syncAuditMetadata i version payload k) in
  let deny := λ exists_ reason e,
    (_ ← insert_audit (record exists_ "denied" (Some reason) None None); mret (Denied_ e)) in
  let conclude := λ exists_ changed k user,
    (_ ← insert_audit (record exists_ "succeeded" None (Some changed) (Some k));
     mret (Settled (mkSyncResult (sy_event_id i) version k changed user (target i)))) in
  if negb (String.eqb (lc_actor_type c) "user" && lifecycle_actor db c)
  then deny false "operator_authorization_changed" IdentityLifecycleAuthorizationDenied db
  else
    match user_of_subject db (sy_clerk_user_id i) with
    | None => deny false "target_user_not_found" IdentityProviderSyncTargetNotFound db
    | Some (user, _) =>
        if target_missing db i
        then deny false "target_organization_not_found" IdentityProviderSyncTargetNotFound db
        else
          let exists_ := truthy (sy_organization_id i) in
          let stream := syncStreamHash i user in
          match find (event_key (sy_provider i) (sy_event_id i)) (receipts db) with
          | Some r =>
              if negb (String.eqb (rc_payload_sha256 r) payload)
              then deny exists_ "event_id_conflict" IdentityProviderSyncConflict db
              else
                (_ ← insert_audit (record exists_ "succeeded" None (Some (rc_changed r)) (Some Replayed));
                 mret (Settled (mkSyncResult (sy_event_id i) (rc_source_version r) Replayed (rc_changed r)
                         (rc_user_id r) (rc_organization_id r)))) db
          | None =>
              let own := List.filter (in_stream (sy_provider i) stream) (receipts db) in
              if existsb (λ r, rc_source_version r =? version) own
              then deny exists_ "source_version_conflict" IdentityProviderSyncConflict db
              else if stale own version
              then
                (_ ← insert_receipt (receipt i version payload stream user false false);
                 conclude exists_ false Stale user) db
              else
                let '(changed, db) := apply_event now i user db in
                (_ ← insert_receipt (receipt i version payload stream user true changed);
                 conclude exists_ changed Applied user) db
          end
    end.

Definition syncIdentityProvider (now : Z) (i : SyncInput) (c : LifecycleContext) (d : AuditDraw)
    : Act IdentityDb IdError SyncResult :=
  validated c (λ db,
    match validateSyncInput i with
    | Err message => (Err (InvalidIdentityLifecycleRequest message), db)
    | Ok version => let '(r, db) := transaction (sync_tx now i version c d) db in (settle r, db)
    end).
End lifecycle.

(** ** Queries *)

Definition userEnabled (db : IdentityDb) (subject : string) : bool :=
  bool_decide (is_Some (enabled_user_of_subject db subject)).

Definition membershipRole (db : IdentityDb) (subject organization : string) : option string :=
  user ← enabled_user_of_subject db subject; live_role db (uuid_text organization) user.
