(* ===== verification/LoginMachine.v ===== *)
(** * The protocol of device logins

    What src/apps/nehemiah/src/auth/device.ts promises about codes, families and
    tokens, as an abstract machine: seven moves over the four tables, and the
    invariant they keep.  [IdentityStep] shows that every transaction on the tables
    is a sequence of these moves. *)

From S2P Require Import Prelude Text Js Capacity Identity ApiKeys Device DeviceTokens.

Record Logins := mkLogins {
  lg_devices : gmap string DeviceRow;
  lg_families : gmap string FamilyRow;
  lg_refresh : gmap string RefreshTokenRow;
  lg_access : gmap string AccessTokenRow
}.

Definition logins (db : IdentityDb) : Logins :=
  mkLogins (devices db) (families db) (refresh_tokens db) (access_tokens db).

(** ** Rows *)

Definition scopes_within (s t : list string) : Prop := ∀ x, x ∈ s → x ∈ t.

#[export] Instance scopes_within_preorder : PreOrder scopes_within.
Proof. split; [by intros s x|intros s t u Hst Htu x Hx; eauto]. Qed.

(** A code before its decision. *)
Record fresh_code (d : DeviceRow) : Prop := {
  fc_pending : dv_status d = Pending;
  fc_undecided : dv_approved_scopes d = None;
  fc_scopes : scopes_within (dv_requested_scopes d) apiKeyScopes
}.

(** What a decided, polled or consumed code keeps of the request. *)
Record same_request (d d' : DeviceRow) : Prop := {
  sq_token : dv_token_hash d' = dv_token_hash d;
  sq_code : dv_user_code_hash d' = dv_user_code_hash d;
  sq_scopes : dv_requested_scopes d' = dv_requested_scopes d
}.

Inductive device_moves (d d' : DeviceRow) : Prop :=
| dm_polled :
    same_request d d' → dv_status d = Pending → dv_status d' = Pending →
    dv_approved_scopes d' = dv_approved_scopes d → device_moves d d'
| dm_approved scopes :
    same_request d d' → dv_status d = Pending → dv_status d' = Approved →
    dv_approved_scopes d' = Some scopes → scopes_within scopes (dv_requested_scopes d) → device_moves d d'
| dm_denied :
    same_request d d' → dv_status d = Pending ∨ dv_status d = Approved → dv_status d' = Denied →
    dv_approved_scopes d' = dv_approved_scopes d ∨ dv_approved_scopes d' = None → device_moves d d'.

(** A family ends at most once, and forgets no reuse. *)
Inductive family_ends (f : FamilyRow) : FamilyRow → Prop :=
| fe_same : family_ends f f
| fe_ended r u :
    fm_revoked_at f = None ∨ fm_revoked_at f = Some r → fm_reuse_detected_at f = None ∨ fm_reuse_detected_at f = u →
    family_ends f (f <| fm_revoked_at := Some r |> <| fm_reuse_detected_at := u |>).

Inductive access_ends (a : AccessTokenRow) : AccessTokenRow → Prop :=
| ae_same : access_ends a a
| ae_ended r : at_revoked_at a = None → access_ends a (a <| at_revoked_at := Some r |>).

(** ** Moves *)

Section machine.
(** The identifiers the environment may draw for families. *)
Context (drawn : string → Prop).

Inductive login_move (l : Logins) : Logins → Prop :=
| mv_code id d :
    lg_devices l !! id = None → fresh_code d →
    login_move l (mkLogins (<[id := d]> (lg_devices l)) (lg_families l) (lg_refresh l) (lg_access l))
| mv_device id d d' :
    lg_devices l !! id = Some d → device_moves d d' →
    login_move l (mkLogins (<[id := d']> (lg_devices l)) (lg_families l) (lg_refresh l) (lg_access l))
| mv_exchange id d d' fid f rid t aid a :
    lg_devices l !! id = Some d → dv_status d = Approved → same_request d d' → dv_status d' = Consumed →
    dv_approved_scopes d' = dv_approved_scopes d → dv_organization_id d' = Some (fm_organization_id f) →
    dv_project_id d' = Some (fm_project_id f) → dv_approved_scopes d' = Some (fm_scopes f) →
    drawn fid → lg_families l !! fid = None → fm_device_authorization_id f = id →
    (∀ i g, lg_families l !! i = Some g → fm_device_authorization_id g ≠ id) →
    fm_revoked_at f = None → fm_reuse_detected_at f = None →
    lg_refresh l !! rid = None → rt_family_id t = fid → rt_generation t = 0 →
    lg_access l !! aid = None → at_family_id a = fid → at_organization_id a = fm_organization_id f →
    at_project_id a = fm_project_id f → at_scopes a = fm_scopes f → at_expires_at a <= fm_expires_at f →
    login_move l (mkLogins (<[id := d']> (lg_devices l)) (<[fid := f]> (lg_families l))
                    (<[rid := t]> (lg_refresh l)) (<[aid := a]> (lg_access l)))
| mv_rotate id t f t' nid n aid a :
    lg_refresh l !! id = Some t → rt_used_at t = None → lg_families l !! rt_family_id t = Some f →
    fm_revoked_at f = None → rt_generation t < MAXIMUM_REFRESH_GENERATION →
    rt_family_id t' = rt_family_id t → rt_generation t' = rt_generation t → is_Some (rt_used_at t') →
    lg_refresh l !! nid = None → rt_family_id n = rt_family_id t → rt_generation n = rt_generation t + 1 →
    lg_access l !! aid = None → at_family_id a = rt_family_id t → at_organization_id a = fm_organization_id f →
    at_project_id a = fm_project_id f → at_scopes a = fm_scopes f → at_expires_at a <= fm_expires_at f →
    login_move l (mkLogins (lg_devices l) (lg_families l) (<[id := t']> (<[nid := n]> (lg_refresh l)))
                    (<[aid := a]> (lg_access l)))
| mv_end fs as_ :
    (∀ i, option_Forall2 family_ends (lg_families l !! i) (fs !! i)) →
    (∀ i, option_Forall2 access_ends (lg_access l !! i) (as_ !! i)) →
    (∀ i a f f', as_ !! i = Some a → lg_families l !! at_family_id a = Some f → fs !! at_family_id a = Some f' →
       f' ≠ f → is_Some (at_revoked_at a)) →
    login_move l (mkLogins (lg_devices l) fs (lg_refresh l) as_)
| mv_touch id a at_ :
    lg_access l !! id = Some a →
    login_move l (mkLogins (lg_devices l) (lg_families l) (lg_refresh l)
                    (<[id := a <| at_last_used_at := at_ |>]> (lg_access l)))
| mv_reap l' :
    lg_devices l' ⊆ lg_devices l → lg_families l' ⊆ lg_families l → lg_refresh l' ⊆ lg_refresh l →
    lg_access l' ⊆ lg_access l →
    (∀ i t, lg_refresh l' !! i = Some t → is_Some (lg_families l' !! rt_family_id t)) →
    (∀ i a, lg_access l' !! i = Some a → is_Some (lg_families l' !! at_family_id a)) →
    (∀ i f, lg_families l' !! i = Some f → is_Some (lg_devices l' !! fm_device_authorization_id f)) →
    login_move l l'.
End machine.

(** ** The invariant *)

(** The authorization a family was exchanged for. *)
Record family_of (f : FamilyRow) (d : DeviceRow) : Prop := {
  fo_consumed : dv_status d = Consumed;
  fo_organization : dv_organization_id d = Some (fm_organization_id f);
  fo_project : dv_project_id d = Some (fm_project_id f);
  fo_scopes : dv_approved_scopes d = Some (fm_scopes f)
}.

(** What an access token takes from its family. *)
Record access_within (a : AccessTokenRow) (f : FamilyRow) : Prop := {
  aw_organization : at_organization_id a = fm_organization_id f;
  aw_project : at_project_id a = fm_project_id f;
  aw_scopes : at_scopes a = fm_scopes f;
  aw_expires : at_expires_at a <= fm_expires_at f;
  aw_revoked : is_Some (fm_revoked_at f) → is_Some (at_revoked_at a)
}.

Record login_inv (l : Logins) : Prop := {
  li_request i d : lg_devices l !! i = Some d → scopes_within (dv_requested_scopes d) apiKeyScopes;
  li_approved i d s :
    lg_devices l !! i = Some d → dv_approved_scopes d = Some s → scopes_within s (dv_requested_scopes d);
  li_family i f :
    lg_families l !! i = Some f →
    ∃ d, lg_devices l !! fm_device_authorization_id f = Some d ∧ family_of f d;
  li_one_family i j f g :
    lg_families l !! i = Some f → lg_families l !! j = Some g →
    fm_device_authorization_id f = fm_device_authorization_id g → i = j;
  li_reuse i f :
    lg_families l !! i = Some f → is_Some (fm_reuse_detected_at f) → is_Some (fm_revoked_at f);
  li_refresh i t :
    lg_refresh l !! i = Some t →
    is_Some (lg_families l !! rt_family_id t) ∧ 0 <= rt_generation t <= MAXIMUM_REFRESH_GENERATION;
  li_generation i j t u :
    lg_refresh l !! i = Some t → lg_refresh l !! j = Some u → rt_family_id t = rt_family_id u →
    rt_generation t = rt_generation u → i = j;
  li_newest i j t u :
    lg_refresh l !! i = Some t → lg_refresh l !! j = Some u → rt_family_id t = rt_family_id u →
    rt_used_at t = None → rt_generation u <= rt_generation t;
  li_access i a :
    lg_access l !! i = Some a → ∃ f, lg_families l !! at_family_id a = Some f ∧ access_within a f
}.

(** ** Preservation *)

Ltac insert_cases H :=
  apply lookup_insert_Some in H as [[? ?]|[? H]]; simplify_eq/=.

Lemma lookup_insert_both {A} (m : gmap string A) i j x y :
  m !! i = Some x → ∃ z, <[j := y]> m !! i = Some z ∧ (i = j ∧ z = y ∨ i ≠ j ∧ z = x).
Proof.
  intros Hi. destruct (decide (i = j)) as [->|Hn].
  - exists y. rewrite lookup_insert, decide_True by done. eauto.
  - exists x. rewrite lookup_insert_ne by done. eauto.
Qed.

Lemma family_ends_keeps f f' :
  family_ends f f' →
  fm_device_authorization_id f' = fm_device_authorization_id f ∧
  fm_organization_id f' = fm_organization_id f ∧ fm_project_id f' = fm_project_id f ∧
  fm_scopes f' = fm_scopes f ∧ fm_expires_at f' = fm_expires_at f.
Proof. by intros []. Qed.

Lemma family_ends_revoked f f' : family_ends f f' → is_Some (fm_revoked_at f) → is_Some (fm_revoked_at f').
Proof. intros []; simpl; eauto. Qed.

Lemma family_ends_reused f f' :
  family_ends f f' → is_Some (fm_reuse_detected_at f) → is_Some (fm_reuse_detected_at f').
Proof. intros []; [done|]. intros [x Hx]. simpl. rewrite Hx in *. naive_solver. Qed.

Lemma access_ends_keeps a a' :
  access_ends a a' →
  at_family_id a' = at_family_id a ∧ at_organization_id a' = at_organization_id a ∧
  at_project_id a' = at_project_id a ∧ at_scopes a' = at_scopes a ∧ at_expires_at a' = at_expires_at a ∧
  (is_Some (at_revoked_at a) → is_Some (at_revoked_at a')).
Proof. intros []; simpl; naive_solver. Qed.

Lemma option_Forall2_some_r {A B} (R : A → B → Prop) x (b : B) :
  option_Forall2 R x (Some b) → ∃ a, x = Some a ∧ R a b.
Proof. inversion 1; eauto. Qed.

Lemma option_Forall2_some_l {A B} (R : A → B → Prop) (a : A) y :
  option_Forall2 R (Some a) y → ∃ b, y = Some b ∧ R a b.
Proof. inversion 1; eauto. Qed.

(** A decided code keeps its request, and what was approved stays within it. *)
Lemma device_moves_keeps d d' :
  device_moves d d' → dv_requested_scopes d' = dv_requested_scopes d ∧ dv_status d ≠ Consumed ∧
    ∀ s, dv_approved_scopes d' = Some s → dv_approved_scopes d = Some s ∨ scopes_within s (dv_requested_scopes d).
Proof.
  intros [[_ _ ->] Hs _ E|s [_ _ ->] Hs _ E Hw|[_ _ ->] Hs _ E]; (split; [done|]).
  - rewrite E, Hs. eauto.
  - rewrite Hs. split; [done|]. intros s' Hs'. right. by assert (s' = s) as -> by congruence.
  - split; [by destruct Hs as [-> | ->]|]. intros s Es. destruct E as [E|E]; [left|]; congruence.
Qed.

Lemma family_of_not d f : family_of f d → dv_status d = Consumed.
Proof. by intros []. Qed.

Section preservation.
Context (l : Logins) (Hinv : login_inv l).

(** A row of a code is added or replaced, no consumed one. *)
Lemma device_preserves id d' :
  (∀ d, lg_devices l !! id = Some d → dv_status d ≠ Consumed) →
  scopes_within (dv_requested_scopes d') apiKeyScopes →
  (∀ s, dv_approved_scopes d' = Some s → scopes_within s (dv_requested_scopes d')) →
  login_inv (mkLogins (<[id := d']> (lg_devices l)) (lg_families l) (lg_refresh l) (lg_access l)).
Proof.
  intros Hold Hreq Happ. destruct Hinv. split; simpl; try done.
  - intros i d Hd. insert_cases Hd; eauto.
  - intros i d s Hd. insert_cases Hd; eauto.
  - intros i f Hf. destruct (li_family0 i f Hf) as (d & Hd & Hof).
    destruct (lookup_insert_both (lg_devices l) _ id d d' Hd) as (z & Hz & [[E ->]|[? ->]]); [|eauto].
    rewrite E in Hd. destruct (Hold d Hd). by apply family_of_not in Hof.
Qed.

Lemma end_preserves fs as_ :
  (∀ i, option_Forall2 family_ends (lg_families l !! i) (fs !! i)) →
  (∀ i, option_Forall2 access_ends (lg_access l !! i) (as_ !! i)) →
  (∀ i a f f', as_ !! i = Some a → lg_families l !! at_family_id a = Some f → fs !! at_family_id a = Some f' →
     f' ≠ f → is_Some (at_revoked_at a)) →
  login_inv (mkLogins (lg_devices l) fs (lg_refresh l) as_).
Proof.
  intros Hf Ha Hrev.
  assert (∀ i f', fs !! i = Some f' → ∃ f, lg_families l !! i = Some f ∧ family_ends f f') as Hback.
  { intros i f' E. specialize (Hf i). rewrite E in Hf. by apply option_Forall2_some_r in Hf. }
  assert (∀ i, is_Some (lg_families l !! i) → is_Some (fs !! i)) as Hfwd.
  { intros i [f E]. specialize (Hf i). rewrite E in Hf. apply option_Forall2_some_l in Hf as (? & -> & _). eauto. }
  destruct Hinv. split; simpl; try done.
  - intros i f' Hf'. destruct (Hback i f' Hf') as (f & Ef & Ee). destruct (family_ends_keeps f f' Ee) as (-> & Eo & Ep & Es & _).
    destruct (li_family0 i f Ef) as (d & Hd & []). exists d. split; [done|]. split; congruence.
  - intros i j f' g' Ei Ej Eq. destruct (Hback i f' Ei) as (f & Ef & Ee), (Hback j g' Ej) as (g & Eg & Ge).
    apply (li_one_family0 i j f g Ef Eg). destruct (family_ends_keeps f f' Ee), (family_ends_keeps g g' Ge). congruence.
  - intros i f' Ei Hr. destruct (Hback i f' Ei) as (f & Ef & He).
    inversion He; subst f'; [by eapply li_reuse0|simpl; by eexists].
  - intros i t Ht. destruct (li_refresh0 i t Ht). eauto.
  - intros i a' Ei. pose proof (Ha i) as Hai. rewrite Ei in Hai. apply option_Forall2_some_r in Hai as (a & Ea & Hae).
    destruct (access_ends_keeps a a' Hae) as (Ef & Eo & Ep & Es & Ee & Er).
    destruct (li_access0 i a Ea) as (f & Hff & []).
    destruct (Hfwd (at_family_id a) ltac:(by eexists)) as [f' Hf']. exists f'. rewrite Ef. split; [done|].
    destruct (Hback _ f' Hf') as (f0 & E0 & Hfe). assert (f0 = f) as -> by congruence. clear E0.
    destruct (family_ends_keeps f f' Hfe) as (_ & Eo' & Ep' & Es' & Ee').
    split; [congruence..|by rewrite Ee, Ee'|].
    intros Hr. inversion Hfe as [Heq|r u Hor Hou Heq]; subst f'; [by apply Er, aw_revoked0|].
    destruct (fm_revoked_at f) as [r0|] eqn:E; [apply Er, aw_revoked0; rewrite ?E; by eexists|].
    eapply (Hrev i a' f _ Ei); rewrite ?Ef; [done|exact Hf'|].
    intros Hbad. apply (f_equal fm_revoked_at) in Hbad. simpl in Hbad. congruence.
Qed.

Lemma touch_preserves id a at_ :
  lg_access l !! id = Some a →
  login_inv (mkLogins (lg_devices l) (lg_families l) (lg_refresh l)
               (<[id := a <| at_last_used_at := at_ |>]> (lg_access l))).
Proof.
  intros Ha. destruct Hinv. split; simpl; try done.
  intros i b Hb. insert_cases Hb; [|eauto]. simpl. destruct (li_access0 _ a Ha) as (f & Hf & []). by exists f.
Qed.

Lemma reap_preserves l' :
  lg_devices l' ⊆ lg_devices l → lg_families l' ⊆ lg_families l → lg_refresh l' ⊆ lg_refresh l →
  lg_access l' ⊆ lg_access l →
  (∀ i t, lg_refresh l' !! i = Some t → is_Some (lg_families l' !! rt_family_id t)) →
  (∀ i a, lg_access l' !! i = Some a → is_Some (lg_families l' !! at_family_id a)) →
  (∀ i f, lg_families l' !! i = Some f → is_Some (lg_devices l' !! fm_device_authorization_id f)) →
  login_inv l'.
Proof.
  intros Hd Hf Hr Ha Kr Ka Kf.
  assert (∀ {A} (m m' : gmap string A) i x, m' ⊆ m → m' !! i = Some x → m !! i = Some x) as Hsub
    by (intros; by eapply lookup_weaken).
  destruct Hinv. split.
  - intros i d E. eapply li_request0, Hsub; done.
  - intros i d s E. eapply li_approved0, Hsub; done.
  - intros i f E. destruct (Kf i f E) as [d Ed].
    destruct (li_family0 i f) as (d0 & Ed0 & Hof); [by eapply Hsub|].
    apply (Hsub _ _ _ _ _ Hd) in Ed as Ed'. simplify_eq. eauto.
  - intros i j f g Ei Ej. eapply li_one_family0; by eapply Hsub.
  - intros i f E. eapply li_reuse0, Hsub; done.
  - intros i t E. split; [eauto|]. apply (li_refresh0 i t). by eapply Hsub.
  - intros i j t u Ei Ej. eapply li_generation0; by eapply Hsub.
  - intros i j t u Ei Ej. eapply li_newest0; by eapply Hsub.
  - intros i a E. destruct (Ka i a E) as [f Ef]. destruct (li_access0 i a) as (f0 & Ef0 & Hw); [by eapply Hsub|].
    apply (Hsub _ _ _ _ _ Hf) in Ef as Ef'. simplify_eq. eauto.
Qed.
End preservation.

Section inserting.
Context (l : Logins) (Hinv : login_inv l).

Lemma exchange_preserves id d d' fid f rid t aid a :
  lg_devices l !! id = Some d → dv_status d = Approved → same_request d d' → dv_status d' = Consumed →
  dv_approved_scopes d' = dv_approved_scopes d → dv_organization_id d' = Some (fm_organization_id f) →
  dv_project_id d' = Some (fm_project_id f) → dv_approved_scopes d' = Some (fm_scopes f) →
  lg_families l !! fid = None → fm_device_authorization_id f = id →
  (∀ i g, lg_families l !! i = Some g → fm_device_authorization_id g ≠ id) →
  fm_revoked_at f = None → fm_reuse_detected_at f = None →
  lg_refresh l !! rid = None → rt_family_id t = fid → rt_generation t = 0 →
  lg_access l !! aid = None → at_family_id a = fid → at_organization_id a = fm_organization_id f →
  at_project_id a = fm_project_id f → at_scopes a = fm_scopes f → at_expires_at a <= fm_expires_at f →
  login_inv (mkLogins (<[id := d']> (lg_devices l)) (<[fid := f]> (lg_families l))
               (<[rid := t]> (lg_refresh l)) (<[aid := a]> (lg_access l))).
Proof.
  intros Hd Hst [_ _ Hreq] Hcons Hsc Hdo Hdp Hds Hfid Hauth Hfree Hrev Hreu Hrid Htf Htg Haid Haf Hao Hap Has Hae.
  destruct Hinv. split; simpl.
  - intros i e He. insert_cases He; [rewrite Hreq|]; eauto.
  - intros i e s He Hs. insert_cases He; [rewrite Hreq; eapply li_approved0; [done|congruence]|eauto].
  - intros i g Hg. insert_cases Hg.
    + exists d'. rewrite lookup_insert, decide_True by done. done.
    + destruct (li_family0 i g Hg) as (e & He & Hof). exists e. rewrite lookup_insert_ne; [done|].
      intros E. by apply (Hfree i g Hg).
  - intros i j g h Hg Hh E. insert_cases Hg; insert_cases Hh; try done.
    + by destruct (Hfree j h Hh).
    + by destruct (Hfree i g Hg).
    + by eapply li_one_family0.
  - intros i g Hg Hr. insert_cases Hg; [rewrite Hreu in Hr; by destruct Hr|eauto].
  - intros i u Hu. insert_cases Hu.
    + rewrite lookup_insert, decide_True, Htg by done. split; [eauto|by unfold MAXIMUM_REFRESH_GENERATION].
    + destruct (li_refresh0 i u Hu) as [[g Hg] ?]. split; [|done].
      destruct (lookup_insert_both (lg_families l) _ (rt_family_id t) g f Hg) as (? & ? & _). eauto.
  - intros i j u v Hu Hv Ef Eg. insert_cases Hu; insert_cases Hv; try done.
    + destruct (li_refresh0 j v Hv) as [[g Hg] _]. congruence.
    + destruct (li_refresh0 i u Hu) as [[g Hg] _]. congruence.
    + by eapply li_generation0.
  - intros i j u v Hu Hv Ef Eg. insert_cases Hu; insert_cases Hv; try done.
    + destruct (li_refresh0 j v Hv) as [[g Hg] _]. congruence.
    + destruct (li_refresh0 i u Hu) as [[g Hg] _]. congruence.
    + by eapply li_newest0.
  - intros i b Hb. insert_cases Hb.
    + exists f. rewrite lookup_insert, decide_True by done. split; [done|]. split; try done. by intros [? ?]; simplify_eq.
    + destruct (li_access0 i b Hb) as (g & Hg & Hw). exists g. rewrite lookup_insert_ne; [done|congruence].
Qed.

Lemma rotate_preserves id t f t' nid n aid a :
  lg_refresh l !! id = Some t → rt_used_at t = None → lg_families l !! rt_family_id t = Some f →
  fm_revoked_at f = None → rt_generation t < MAXIMUM_REFRESH_GENERATION →
  rt_family_id t' = rt_family_id t → rt_generation t' = rt_generation t → is_Some (rt_used_at t') →
  lg_refresh l !! nid = None → rt_family_id n = rt_family_id t → rt_generation n = rt_generation t + 1 →
  lg_access l !! aid = None → at_family_id a = rt_family_id t → at_organization_id a = fm_organization_id f →
  at_project_id a = fm_project_id f → at_scopes a = fm_scopes f → at_expires_at a <= fm_expires_at f →
  login_inv (mkLogins (lg_devices l) (lg_families l) (<[id := t']> (<[nid := n]> (lg_refresh l)))
               (<[aid := a]> (lg_access l))).
Proof.
  intros Ht Hun Hf Hrev Hmax Ef' Eg' Hused Hnid Enf Eng Haid Haf Hao Hap Has Hae.
  assert (id ≠ nid) as Hne by congruence.
  (* every row of the new table is the old one, the used one or the next generation *)
  assert (∀ i u, <[id := t']> (<[nid := n]> (lg_refresh l)) !! i = Some u →
    (i = id ∧ u = t') ∨ (i = nid ∧ u = n) ∨ (i ≠ id ∧ lg_refresh l !! i = Some u)) as Hrows.
  { intros i u Hu. insert_cases Hu; [by left|]. insert_cases Hu; [by right; left|by right; right]. }
  destruct Hinv.
  assert (∀ i u, lg_refresh l !! i = Some u → rt_family_id u = rt_family_id t → rt_generation u <= rt_generation t)
    as Htop by (intros i u Hu E; by apply (li_newest0 id i t u)).
  destruct (li_refresh0 id t Ht) as [Hfam Hgen].
  split; simpl; try done.
  - intros i u Hu. destruct (Hrows i u Hu) as [[-> ->]|[[-> ->]|[? Hold]]]; [| |eauto].
    + by rewrite Ef', Eg'.
    + rewrite Enf, Eng. split; [done|lia].
  - intros i j u v Hu Hv Ef Eg.
    destruct (Hrows i u Hu) as [[-> ->]|[[-> ->]|[? Hou]]], (Hrows j v Hv) as [[-> ->]|[[-> ->]|[? Hov]]]; try done;
      rewrite ?Ef', ?Enf, ?Eg', ?Eng in *; try lia.
    + by apply (li_generation0 id j t v).
    + pose proof (Htop j v Hov ltac:(done)). lia.
    + by apply (li_generation0 i id u t).
    + pose proof (Htop i u Hou ltac:(done)). lia.
    + by apply (li_generation0 i j u v).
  - intros i j u v Hu Hv Ef Hnone.
    destruct (Hrows i u Hu) as [[-> ->]|[[-> ->]|[? Hou]]].
    + rewrite Hnone in Hused. by destruct Hused.
    + destruct (Hrows j v Hv) as [[-> ->]|[[-> ->]|[? Hov]]]; [lia|done|].
      pose proof (Htop j v Hov ltac:(congruence)). lia.
    + assert (rt_family_id u ≠ rt_family_id t) as Hno.
      { intros E. pose proof (li_newest0 i id u t Hou Ht E Hnone). pose proof (Htop i u Hou E).
        by destruct (li_generation0 i id u t Hou Ht E ltac:(lia)). }
      destruct (Hrows j v Hv) as [[-> ->]|[[-> ->]|[? Hov]]]; [congruence|congruence|].
      by apply (li_newest0 i j u v).
  - intros i b Hb. insert_cases Hb; [|by eapply li_access0].
    exists f. rewrite Haf. split; [done|]. split; try done. rewrite Hrev. by intros [? ?].
Qed.
End inserting.

(** Every move keeps the invariant. *)
Theorem login_move_inv drawn l l' : login_inv l → login_move drawn l l' → login_inv l'.
Proof.
  intros Hinv Hm. destruct Hm.
  - apply device_preserves; [done|by intros ? E; rewrite E in *|by destruct H0|].
    intros s. by rewrite (fc_undecided _ H0).
  - destruct (device_moves_keeps _ _ H0) as (Er & Hn & Hs). apply device_preserves; [done|by intros; simplify_eq| |].
    + rewrite Er. by eapply li_request.
    + intros s Es. rewrite Er. destruct (Hs s Es) as [E|]; [by eapply li_approved|done].
  - by eapply exchange_preserves.
  - by eapply rotate_preserves.
  - by apply end_preserves.
  - by apply touch_preserves.
  - by eapply reap_preserves.
Qed.

Lemma login_moves_inv drawn l l' : login_inv l → rtc (login_move drawn) l l' → login_inv l'.
Proof. intros Hinv Hr. induction Hr as [|l l1 l' Hm _ IH]; [done|]. by eapply IH, login_move_inv. Qed.

Lemma login_inv_empty : login_inv (mkLogins ∅ ∅ ∅ ∅).
Proof. split; simpl; intros *; rewrite lookup_empty; done. Qed.

(** ** What an ended family stays *)

(** Whatever row the identifier still names is ended, or marked reused. *)
Definition ended (fid : string) (l : Logins) : Prop :=
  ∀ f, lg_families l !! fid = Some f → is_Some (fm_revoked_at f).
Definition reused (fid : string) (l : Logins) : Prop :=
  ∀ f, lg_families l !! fid = Some f → is_Some (fm_reuse_detected_at f).

(** A property of a family that ending keeps is kept by every move that does not
    draw its identifier again. *)
Lemma family_property_kept (P : FamilyRow → Prop) drawn fid l l' :
  (∀ f f', family_ends f f' → P f → P f') → ¬ drawn fid → login_move drawn l l' →
  (∀ f, lg_families l !! fid = Some f → P f) → ∀ f, lg_families l' !! fid = Some f → P f.
Proof.
  intros Hends Hnd Hm HP. destruct Hm; simpl; try done.
  - intros g Hg. insert_cases Hg; [done|eauto].
  - intros g Hg. specialize (H fid). rewrite Hg in H. apply option_Forall2_some_r in H as (g0 & Hg0 & He).
    by eapply Hends, HP.
  - intros g Hg. apply HP. by eapply lookup_weaken.
Qed.

Lemma ended_stays drawn fid l l' : ¬ drawn fid → rtc (login_move drawn) l l' → ended fid l → ended fid l'.
Proof.
  intros Hnd Hr. induction Hr as [|l l1 l' Hm _ IH]; [done|]. intros He. apply IH.
  exact (family_property_kept (λ f, is_Some (fm_revoked_at f)) drawn fid l l1 family_ends_revoked Hnd Hm He).
Qed.

Lemma reused_stays drawn fid l l' : ¬ drawn fid → rtc (login_move drawn) l l' → reused fid l → reused fid l'.
Proof.
  intros Hnd Hr. induction Hr as [|l l1 l' Hm _ IH]; [done|]. intros He. apply IH.
  exact (family_property_kept (λ f, is_Some (fm_reuse_detected_at f)) drawn fid l l1 family_ends_reused Hnd Hm He).
Qed.
