(* ===== verification/IdentityStep.v ===== *)
(** * Steps of the identity tables

    Every transaction of [ApiKeys], [Device], [DeviceTokens] and
    [IdentityLifecycle], and what provisioning does to the tables, as one step
    relation.  The login tables move only by the machine of [LoginMachine]. *)

From S2P Require Import Prelude Text Js Capacity Identity ApiKeys Device DeviceTokens.
From S2P Require Import IdentityLifecycle LoginMachine.

(** Operators of the deployment provision identities and gateways grants; rows
    that are there stay as they are, and only new users come with memberships. *)
Record provisioned (db db' : IdentityDb) : Prop := {
  pv_users : users db ⊆ users db';
  pv_subjects i j u v :
    users db' !! i = Some u → users db' !! j = Some v → u_clerk_user_id u = u_clerk_user_id v → i = j;
  pv_organizations : organizations db ⊆ organizations db';
  (** a [uuid] column prints 36 characters *)
  pv_uuid o : is_Some (organizations db' !! o) → String.length o = 36%nat;
  pv_projects : projects db ⊆ projects db';
  pv_members o i : is_Some (users db !! i) → members db' !! (o, i) = members db !! (o, i);
  pv_grants : grants db ⊆ grants db';
  pv_keys : api_keys db' = api_keys db;
  pv_logins : logins db' = logins db;
  pv_rates : device_rates db' = device_rates db;
  pv_receipts : receipts db' = receipts db;
  pv_audit : ∃ l, audit_log db' = audit_log db ++ l
}.

Section steps.
Context (sha256 digest lookup : string → string) (drawn : string → Prop).

Inductive identity_step : IdentityDb → IdentityDb → Prop :=
| st_insert_key now op k actor cx db db' :
    Forall (λ s, s ∈ apiKeyScopes) (nk_scopes k) →
    insert sha256 now op k actor cx db = Ok (tt, db') → identity_step db db'
| st_disable_key now event op id organization disabled actor cx db b db' :
    setDisabled sha256 now event op id organization disabled actor cx db = Ok (b, db') → identity_step db db'
| st_rotate_key now op id organization r actor cx db b db' :
    rotate_store sha256 now op id organization r actor cx db = Ok (b, db') → identity_step db db'
| st_revoke_key now op id organization actor cx db b db' :
    revoke_store sha256 now op id organization actor cx db = Ok (b, db') → identity_step db db'
| st_touch_key now id db : identity_step db (touch now id db)
| st_issue_limits source clock db : identity_step db (consumeIssueRateLimits lookup source clock db).2
| st_actor_limit actor clock db : identity_step db (consumeActorRateLimit lookup actor clock db).2
| st_issue clock clientId scopes cx d db db' :
    Forall (λ s, s ∈ apiKeyScopes) scopes →
    issue_once sha256 digest lookup clock clientId scopes cx d db = Ok (tt, db') → identity_step db db'
| st_decide clock event code input seen db db' :
    decide_device sha256 lookup clock event code input seen db = Ok (tt, db') → identity_step db db'
| st_exchange clock id t cx seen db o db' :
    drawn (td_family_id t) →
    exchange_tx sha256 digest clock id t cx seen db = Ok (o, db') → identity_step db db'
| st_refresh clock now id t cx db o db' :
    refresh_tx sha256 digest clock now id t cx db = Ok (o, db') → identity_step db db'
| st_revoke clock now id event cx db b db' :
    revoke_tx sha256 clock now id event cx db = Ok (b, db') → identity_step db db'
| st_access clock now raw id event cx db p db' :
    access_tx sha256 digest clock now raw id event cx db = Ok (p, db') → identity_step db db'
| st_reap now accesses fs authorizations h db r db' :
    reapTransaction now accesses fs authorizations h db = Ok (r, db') → identity_step db db'
| st_reap_grants now n locked db r db' :
    reapExpiredGatewayGrants now n locked db = Ok (r, db') → identity_step db db'
| st_user now id disabled c d db o db' :
    set_disabled_tx sha256 "user" user_disabled_at (disable_user now) enable_user now id disabled c d db
      = Ok (o, db') → identity_step db db'
| st_organization now id disabled c d db o db' :
    set_disabled_tx sha256 "organization" organization_disabled_at (disable_organization now)
      enable_organization now id disabled c d db = Ok (o, db') → identity_step db db'
| st_sync now i version c d db o db' :
    validateSyncInput i = Ok version →
    sync_tx sha256 now i version c d db = Ok (o, db') → identity_step db db'
| st_provision db db' : provisioned db db' → identity_step db db'.
End steps.

(** ** Frames *)

Lemma insert_audit_Ok a db x db' :
  insert_audit a db = Ok (x, db') → db' = db <| audit_log ::= λ l, l ++ [a] |>.
Proof. unfold insert_audit. case_match; [done|]. by intros [= _ <-]. Qed.

(** The audit log and what surrounds it are no login tables. *)
Lemma logins_audit f db : logins (db <| audit_log ::= f |>) = logins db.
Proof. done. Qed.

Lemma logins_grants now p db : logins (revoke_grants now p db) = logins db.
Proof. done. Qed.

(** Opens the hypothesis that a transaction committed, up to the audit rows it
    wrote. *)
Ltac audit_done :=
  repeat match goal with
  | H : insert_audit _ _ = Ok _ |- _ => apply insert_audit_Ok in H; subst
  | H : (insert_audit _) _ = Ok _ |- _ => apply insert_audit_Ok in H; subst
  end.

Ltac open_tx := tx_inv; audit_done.

Lemma insert_Ok sha256 now op k actor cx db db' :
  insert sha256 now op k actor cx db = Ok (tt, db') →
  ∃ row db1, insert_key (nk_id k) row db = Ok (tt, db1) ∧ logins db' = logins db1 ∧
    row = mkKey (nk_organization_id k) (uuid_text <$> nk_project_id k) (nk_name k) (nk_prefix k)
            (nk_hash k) (nk_scopes k) (created_by db actor) now None (nk_expires_at k) None None ∧
    db' = db1 <| audit_log := audit_log db' |> ∧ key_administrator db (nk_organization_id k) actor = true ∧
    key_insertable db k actor = true.
Proof.
  unfold insert, catching. destruct (negb (key_administrator _ _ _)) eqn:Ea; [done|].
  destruct (negb (key_insertable _ _ _)) eqn:Ei; [done|]. bool_simp.
  intros H. case_match eqn:E; [|done]. simplify_eq. tx_simp.
  destruct x. audit_done. eexists _, _. split_and!; try done.
Qed.

(** ** Transactions that leave the logins alone *)

Lemma insert_key_logins id row db x db' : insert_key id row db = Ok (x, db') → logins db' = logins db.
Proof. unfold insert_key. intros. open_tx. Qed.

Section login_frames.
Context (sha256 digest lookup : string → string).

Lemma setDisabled_logins now event op id organization disabled actor cx db b db' :
  setDisabled sha256 now event op id organization disabled actor cx db = Ok (b, db') → logins db' = logins db.
Proof. unfold setDisabled, revoke_issued, revoke_key_grants. intros. open_tx; done. Qed.

Lemma rotate_store_logins now op id organization r actor cx db b db' :
  rotate_store sha256 now op id organization r actor cx db = Ok (b, db') → logins db' = logins db.
Proof.
  unfold rotate_store, catching. intros. open_tx; try done.
  by match goal with H : insert_key _ _ _ = Ok _ |- _ => apply insert_key_logins in H; rewrite logins_audit, logins_audit, H end.
Qed.

Lemma revoke_store_logins now op id organization actor cx db b db' :
  revoke_store sha256 now op id organization actor cx db = Ok (b, db') → logins db' = logins db.
Proof. unfold revoke_store, revoke_issued, revoke_key_grants. intros. open_tx; done. Qed.

Lemma rateLimit_db kind key limit clock w db :
  ∃ rates, (rateLimit kind key limit clock w db).2 = db <| device_rates := rates |>.
Proof. unfold rateLimit. eexists. done. Qed.

Lemma issue_limits_db source clock db :
  ∃ rates, (consumeIssueRateLimits lookup source clock db).2 = db <| device_rates := rates |>.
Proof. unfold consumeIssueRateLimits, rateLimit, cleanupRateLimits. simpl. eexists. done. Qed.

Lemma actor_limit_db actor clock db :
  ∃ rates, (consumeActorRateLimit lookup actor clock db).2 = db <| device_rates := rates |>.
Proof. unfold consumeActorRateLimit, rateLimit, cleanupRateLimits. simpl. eexists. done. Qed.

Lemma reap_grants_logins now n locked db r db' :
  reapExpiredGatewayGrants now n locked db = Ok (r, db') → logins db' = logins db.
Proof. unfold reapExpiredGatewayGrants. intros. open_tx. Qed.
End login_frames.

(** ** Ending families *)

Section ending.
Context (drawn : string → Prop).

Abbreviation moves := (rtc (login_move drawn)).

Lemma revoke_family_ends now f : family_ends f (revoke_family now f).
Proof.
  destruct f as [a b c d e g [r|] u]; [by constructor|].
  apply (fe_ended (mkFamily a b c d e g None u) now u); simpl; eauto.
Qed.

Lemma reused_family_ends now f : family_ends f (reused_family now f).
Proof.
  unfold reused_family, revoke_family, coalesce.
  destruct f as [a b c d e g [r|] [u|]]; simpl;
    [exact (fe_ended (mkFamily a b c d e g (Some r) (Some u)) r (Some u) ltac:(auto) ltac:(auto))
    |exact (fe_ended (mkFamily a b c d e g (Some r) None) r (Some now) ltac:(auto) ltac:(auto))
    |exact (fe_ended (mkFamily a b c d e g None (Some u)) now (Some u) ltac:(auto) ltac:(auto))
    |exact (fe_ended (mkFamily a b c d e g None None) now (Some now) ltac:(auto) ltac:(auto))].
Qed.

Lemma revoke_access_ends now a : access_ends a (revoke_access now a).
Proof.
  destruct a as [a b c d e g h [r|] u]; [by constructor|].
  apply (ae_ended (mkAccessToken a b c d e g h None u) now); done.
Qed.

Lemma revoke_access_revoked now a : is_Some (at_revoked_at (revoke_access now a)).
Proof. unfold revoke_access, coalesce. destruct a as [???????[|]?]; by eexists. Qed.

Lemma revoke_family_revoked now f : is_Some (fm_revoked_at (revoke_family now f)).
Proof. unfold revoke_family, coalesce. destruct f as [??????[|]?]; by eexists. Qed.

(** Families mapped by an ending, access tokens by a revocation that covers the
    families that change. *)
Lemma fmap_ends (ff : FamilyRow → FamilyRow) (fi : string → bool) (fa : AccessTokenRow → AccessTokenRow) l fs as_ :
  (∀ f, family_ends f (ff f)) → (∀ a, access_ends a (fa a)) →
  (∀ i, fs !! i = (λ f, if fi i then ff f else f) <$> lg_families l !! i) →
  (∀ i, as_ !! i = fa <$> lg_access l !! i) →
  (∀ i a f, lg_access l !! i = Some a → lg_families l !! at_family_id a = Some f →
     fi (at_family_id a) = true → ff f ≠ f → is_Some (at_revoked_at (fa a))) →
  moves l (mkLogins (lg_devices l) fs (lg_refresh l) as_).
Proof.
  intros Hf Ha Efs Eas Hcov. apply rtc_once, mv_end.
  - intros i. rewrite Efs. destruct (lg_families l !! i); simpl; constructor. destruct (fi i); [done|constructor].
  - intros i. rewrite Eas. destruct (lg_access l !! i); simpl; constructor. done.
  - intros i a' f f' Ei Ef Ef' Hne. rewrite Eas in Ei. apply fmap_Some in Ei as (a & Ea & ->).
    destruct (access_ends_keeps a (fa a) (Ha a)) as (Eid & _). rewrite Eid in *.
    rewrite Efs, Ef in Ef'. simpl in Ef'. injection Ef' as <-.
    destruct (fi (at_family_id a)) eqn:E; [|done]. by apply (Hcov i a f).
Qed.

(** The three updates that end one family. *)
Lemma end_family_moves clock id mark db :
  (∀ f, family_ends f (mark f)) → moves (logins db) (logins (revoke_accesses clock id (with_family id mark db))).
Proof.
  intros Hm.
  apply (fmap_ends mark (String.eqb id) (λ a, if String.eqb (at_family_id a) id then revoke_access clock a else a)
           (logins db)); simpl.
  - done.
  - intros a. case_match; [apply revoke_access_ends|constructor].
  - intros i. destruct (String.eqb_spec id i) as [->|Hn].
    + by rewrite lookup_alter, decide_True by done.
    + rewrite lookup_alter_ne by done. by rewrite option_fmap_id.
  - intros i. by rewrite lookup_fmap.
  - intros i a f _ _ E _. rewrite (String.eqb_sym (at_family_id a) id), E. apply revoke_access_revoked.
Qed.

Lemma revoke_accesses_moves clock id db : moves (logins db) (logins (revoke_accesses clock id db)).
Proof.
  apply (fmap_ends (λ f, f) (λ _, false) (λ a, if String.eqb (at_family_id a) id then revoke_access clock a else a)
           (logins db)); simpl; try done.
  - constructor.
  - intros a. case_match; [apply revoke_access_ends|constructor].
  - intros i. by rewrite option_fmap_id.
  - intros i. by rewrite lookup_fmap.
Qed.
End ending.

(** ** Triggers *)

Section triggers.
Context (drawn : string → Prop).

Abbreviation moves := (rtc (login_move drawn)).

Definition selected (p : FamilyRow → bool) (fs : gmap string FamilyRow) (i : string) : bool :=
  match fs !! i with Some f => p f | None => false end.

Lemma revoke_families_moves now p db : moves (logins db) (logins (revoke_families now p db)).
Proof.
  apply (fmap_ends drawn (revoke_family now) (selected p (families db)) (λ a,
           if selected p (families db) (at_family_id a) then revoke_access now a else a) (logins db)); simpl.
  - apply revoke_family_ends.
  - intros a. case_match; [apply revoke_access_ends|constructor].
  - intros i. rewrite lookup_fmap. unfold selected. by destruct (families db !! i).
  - intros i. rewrite lookup_fmap. destruct (access_tokens db !! i) as [a|]; simpl; [|done].
    unfold selected. f_equal. by destruct (families db !! at_family_id a).
  - intros i a f _ _ E _. rewrite E. apply revoke_access_revoked.
Qed.

Lemma revoke_user_moves now user db : moves (logins db) (logins (revoke_user_dependents now user db)).
Proof. unfold revoke_user_dependents. case_match; [|done]. rewrite logins_grants. apply revoke_families_moves. Qed.

Lemma disable_user_moves now user db : moves (logins db) (logins (disable_user now user db)).
Proof.
  unfold disable_user. match goal with |- rtc _ _ (logins (revoke_user_dependents _ _ ?x)) => set (db1 := x) end.
  change (logins db) with (logins db1).
  apply revoke_user_moves.
Qed.

Lemma revoke_membership_moves now organization user db :
  moves (logins db) (logins (revoke_membership_dependents now organization user db)).
Proof. unfold revoke_membership_dependents. rewrite logins_grants. apply revoke_families_moves. Qed.

(** An organization's tokens are those of its families. *)
Lemma disable_organization_moves now organization db :
  login_inv (logins db) → moves (logins db) (logins (disable_organization now organization db)).
Proof.
  intros Hinv. unfold disable_organization, revoke_organization_dependents. rewrite logins_grants.
  apply (fmap_ends drawn (revoke_family now)
    (selected (λ f, String.eqb (fm_organization_id f) organization) (families db))
    (λ a, if String.eqb (at_organization_id a) organization then revoke_access now a else a) (logins db)); simpl.
  - apply revoke_family_ends.
  - intros a. case_match; [apply revoke_access_ends|constructor].
  - intros i. rewrite lookup_fmap. unfold selected. by destruct (families db !! i).
  - intros i. by rewrite lookup_fmap.
  - intros i a f Ha Hf E _. unfold selected in E. simpl in *. rewrite Hf in E.
    destruct (li_access _ Hinv i a Ha) as (g & Hg & Hw). simpl in Hg. assert (g = f) as -> by congruence.
    rewrite (aw_organization _ _ Hw), E. apply revoke_access_revoked.
Qed.
End triggers.

(** ** Codes *)

Section codes.
Context (sha256 digest lookup : string → string) (drawn : string → Prop).

Abbreviation moves := (rtc (login_move drawn)).

Lemma with_device_move id d d' f db :
  devices db !! id = Some d → f d = d' → device_moves d d' → moves (logins db) (logins (with_device id f db)).
Proof.
  intros Hd <- Hm. apply rtc_once. unfold with_device, logins. simpl.
  rewrite (alter_as_insert f (devices db) id d Hd). by apply (mv_device drawn (logins db) id d).
Qed.

Lemma insert_device_Ok id row db x db' :
  insert_device id row db = Ok (x, db') → devices db !! id = None ∧ db' = db <| devices ::= <[id := row]> |>.
Proof.
  unfold insert_device, below_capacity. intros. tx_inv. bool_simp. split; [|done]. by apply eq_None_not_Some.
Qed.

Lemma issue_once_moves clock clientId scopes cx d db db' :
  Forall (λ s, s ∈ apiKeyScopes) scopes →
  issue_once sha256 digest lookup clock clientId scopes cx d db = Ok (tt, db') → moves (logins db) (logins db').
Proof.
  unfold issue_once. intros Hs H. tx_simp. audit_done. destruct x.
  match goal with H : insert_device _ _ _ = Ok _ |- _ => apply insert_device_Ok in H as [Hn ->] end.
  apply rtc_once, (mv_code drawn (logins db)); [done|]. split; simpl; [done..|].
  intros s Hin. rewrite Forall_forall in Hs. by apply Hs.
Qed.

Lemma undecided_Ok clock db code id d :
  undecided lookup clock db code = Ok (id, d) → devices db !! id = Some d ∧ dv_status d = Pending.
Proof.
  unfold undecided, device_of_code. intros H. repeat (case_match; simplify_eq). bool_simp. split; [|done].
  match goal with H : head _ = Some _ |- _ => rename H into Hh end.
  destruct (List.filter _ _) as [|p ps] eqn:E in Hh; [done|]. simpl in Hh. injection Hh as ->.
  assert ((id, d) ∈ map_to_list (devices db)) as Hin.
  { apply list_elem_of_In. assert (In (id, d) ((id, d) :: ps)) as Hi by by left. rewrite <- E in Hi.
    by apply List.filter_In in Hi as [? _]. }
  by apply elem_of_map_to_list in Hin.
Qed.

Lemma existsb_false_forall {A} (p : A → bool) l : existsb p l = false → ∀ x, x ∈ l → p x = false.
Proof.
  intros He x Hx. apply list_elem_of_In in Hx. destruct (p x) eqn:E; [|done].
  assert (existsb p l = true) by (apply existsb_exists; eauto). congruence.
Qed.

Lemma decide_device_moves clock event code input seen db db' :
  decide_device sha256 lookup clock event code input seen db = Ok (tt, db') → moves (logins db) (logins db').
Proof.
  unfold decide_device. intros H. case_match; [|done]. destruct p as [user role].
  apply result_bind_Ok in H as ([id d] & Hu & H). apply undecided_Ok in Hu as [Hd Hp].
  destruct (String.eqb _ "deny"); [audit_done; rewrite logins_audit; eapply with_device_move; [done|done|]|].
  { apply dm_denied; [done|by left|done|by left]. }
  destruct (az_project_id input) as [project|]; [|done]. destruct (_ ≫= validScopes) as [scopes|]; [|done].
  destruct (existsb _ _) eqn:Es; [done|]. destruct (negb _); [done|]. audit_done. rewrite logins_audit.
  eapply with_device_move; [done|done|]. apply (dm_approved _ _ (uniqueScopes scopes)); try done.
  intros s Hs. apply existsb_false_forall with (x := s) in Es; [|done]. bool_simp.
  by apply string_in_spec.
Qed.
End codes.

(** ** Tokens *)

Lemma existsb_map_false {A} (p : A → bool) (m : gmap string A) i x :
  existsb (λ kv, p kv.2) (map_to_list m) = false → m !! i = Some x → p x = false.
Proof.
  intros He Hi. apply (existsb_false_forall (λ kv : string * A, p kv.2) _ He (i, x)).
  by apply elem_of_map_to_list.
Qed.

Lemma insert_family_Ok id row db x db' :
  insert_family id row db = Ok (x, db') →
  families db !! id = None ∧ db' = db <| families ::= <[id := row]> |> ∧
  ∀ i g, families db !! i = Some g → fm_device_authorization_id g ≠ fm_device_authorization_id row.
Proof.
  unfold insert_family, below_capacity. intros. tx_inv. bool_simp. split_and!; [by apply eq_None_not_Some|done|].
  intros i g Hg.
  match goal with H : existsb _ _ = false |- _ => apply (existsb_map_false (λ g,
    String.eqb (fm_device_authorization_id g) (fm_device_authorization_id row)) _ i g) in H; [|done] end.
  by bool_simp.
Qed.

Lemma insert_refresh_token_Ok id row db x db' :
  insert_refresh_token id row db = Ok (x, db') →
  refresh_tokens db !! id = None ∧ db' = db <| refresh_tokens ::= <[id := row]> |>.
Proof.
  unfold insert_refresh_token, below_capacity. intros. tx_inv. bool_simp. split; [|done].
  by apply eq_None_not_Some.
Qed.

Lemma insert_access_token_Ok id row db x db' :
  insert_access_token id row db = Ok (x, db') →
  access_tokens db !! id = None ∧ db' = db <| access_tokens ::= <[id := row]> |>.
Proof.
  unfold insert_access_token, below_capacity. intros. tx_inv. bool_simp. split; [|done].
  by apply eq_None_not_Some.
Qed.

Section tokens.
Context (sha256 digest lookup : string → string) (drawn : string → Prop).

Abbreviation moves := (rtc (login_move drawn)).

Lemma exchange_moves clock id t cx seen db o db' :
  drawn (td_family_id t) → exchange_tx sha256 digest clock id t cx seen db = Ok (o, db') →
  moves (logins db) (logins db').
Proof.
  intros Hdrawn. unfold exchange_tx. destruct (devices db !! id) as [d|] eqn:Hd; [|intros; by tx_inv].
  destruct (dv_expires_at d <=? clock); [intros; by tx_inv|].
  destruct (dv_status d) eqn:Hs; [| |intros; by tx_inv..].
  - case_match; intros; tx_simp; subst; (eapply with_device_move; [done|done|]); by apply dm_polled.
  - destruct (dv_organization_id d) as [organization|] eqn:Eo; [|done].
    destruct (dv_project_id d) as [project|] eqn:Ep; [|done].
    destruct (dv_approved_by d) as [user|]; [|done]. destruct (dv_approved_scopes d) as [scopes|] eqn:Es; [|done].
    destruct (identityPermits _ _ _ _).
    + unfold found_family. intros H. tx_simp. audit_done.
      match goal with H : insert_family _ _ _ = Ok _ |- _ => apply insert_family_Ok in H as (Hf & -> & Hfree) end.
      match goal with H : insert_refresh_token _ _ _ = Ok _ |- _ => apply insert_refresh_token_Ok in H as (Hr & ->) end.
      match goal with H : insert_access_token _ _ _ = Ok _ |- _ => apply insert_access_token_Ok in H as (Ha & ->) end.
      apply rtc_once. rewrite logins_audit. unfold logins, with_device. simpl in *.
      rewrite (alter_as_insert (consumed_device clock) (devices db) id d Hd).
      apply (mv_exchange drawn (logins db) id d); simpl; try done.
      unfold ACCESS_LIFETIME_MS, REFRESH_LIFETIME_MS. lia.
    + intros H. tx_simp. audit_done. rewrite logins_audit. eapply with_device_move; [done|done|].
      apply dm_denied; [done|by right|done|by right].
Qed.

Lemma revokeFamilyForIdentity_moves clock now event id f cx db x db' :
  revokeFamilyForIdentity sha256 clock now event id f cx db = Ok (x, db') → moves (logins db) (logins db').
Proof.
  unfold revokeFamilyForIdentity. intros H.
  destruct (match families db !! id with Some g => bool_decide (fm_revoked_at g = None) | None => false end).
  - apply insert_audit_Ok in H as ->. rewrite logins_audit, logins_grants.
    apply end_family_moves. intros. apply revoke_family_ends.
  - injection H as _ <-. rewrite logins_grants. apply revoke_accesses_moves.
Qed.

Lemma refresh_of_Some db id t f :
  refresh_of db id = Some (t, f) → refresh_tokens db !! id = Some t ∧ families db !! rt_family_id t = Some f.
Proof.
  unfold refresh_of. destruct (refresh_tokens db !! id) as [u|]; simpl; [|done].
  destruct (families db !! rt_family_id u) as [g|] eqn:E; simpl; [|done]. intros [= -> ->]. done.
Qed.

Lemma access_of_Some db id t f :
  access_of db id = Some (t, f) → access_tokens db !! id = Some t ∧ families db !! at_family_id t = Some f.
Proof.
  unfold access_of. destruct (access_tokens db !! id) as [u|]; simpl; [|done].
  destruct (families db !! at_family_id u) as [g|] eqn:E; simpl; [|done]. intros [= -> ->]. done.
Qed.

Lemma end_family_logins_moves clock now id f mark db :
  (∀ f, family_ends f (mark f)) → moves (logins db) (logins (end_family clock now id f mark db)).
Proof. intros. unfold end_family. rewrite logins_grants. by apply end_family_moves. Qed.

Lemma refresh_moves clock now id t cx db o db' :
  refresh_tx sha256 digest clock now id t cx db = Ok (o, db') → moves (logins db) (logins db').
Proof.
  unfold refresh_tx. destruct (refresh_of db id) as [[r f]|] eqn:Er; [|intros; by tx_inv].
  apply refresh_of_Some in Er as [Hr Hf].
  destruct (negb (refresh_live clock (r, f))) eqn:El; [intros; by tx_inv|].
  destruct (approver db f) as [user|]; [|intros; by tx_inv].
  destruct (bool_decide (is_Some (rt_used_at r))) eqn:Eu.
  { intros H. tx_simp. subst.
    assert (∀ g, family_ends g (reused_family clock g)) as He by apply reused_family_ends.
    case_match; audit_done; tx_simp; subst; rewrite ?logins_audit; by apply end_family_logins_moves. }
  destruct (negb (identityPermits _ _ _ _)).
  { intros H. tx_simp. subst. by eapply revokeFamilyForIdentity_moves. }
  destruct (clock <? _); [intros; by tx_inv|].
  destruct (MAXIMUM_REFRESH_GENERATION <=? rt_generation r) eqn:Eg.
  { intros H. tx_simp. audit_done. subst. rewrite logins_audit. apply end_family_logins_moves, revoke_family_ends. }
  unfold refresh_live, family_live in El. simpl in El. bool_simp.
  unfold rotated. intros Htx. tx_simp. audit_done. subst.
  match goal with H : insert_refresh_token _ _ _ = Ok _ |- _ => apply insert_refresh_token_Ok in H as (Hn & ->) end.
  match goal with H : insert_access_token _ _ _ = Ok _ |- _ => apply insert_access_token_Ok in H as (Ha & ->) end.
  apply rtc_once. rewrite logins_audit. unfold logins. simpl in *.
  assert (id ≠ td_refresh_id t) as Hne by congruence.
  rewrite (alter_as_insert _ (<[td_refresh_id t := _]> (refresh_tokens db)) id r) by (by rewrite lookup_insert_ne).
  apply (mv_rotate drawn (logins db) id r f); simpl; try done; [|lia].
  by apply eq_None_not_Some.
Qed.

Lemma revoke_moves clock now id event cx db b db' :
  revoke_tx sha256 clock now id event cx db = Ok (b, db') → moves (logins db) (logins db').
Proof.
  unfold revoke_tx. destruct (refresh_of db id) as [[r f]|] eqn:Er; [|intros; by tx_inv].
  apply refresh_of_Some in Er as [Hr Hf].
  destruct (refresh_live clock (r, f)) eqn:El; [|intros; by tx_inv].
  unfold refresh_live, family_live in El. simpl in El. bool_simp.
  intros. tx_simp. audit_done. subst. rewrite logins_audit. unfold end_family. rewrite logins_grants.
  (* the family is not revoked: overwriting its mark is a first revocation *)
  assert (with_family (rt_family_id r) (revoked_family clock) db =
          with_family (rt_family_id r) (revoke_family clock) db) as ->.
  { unfold with_family. simpl. f_equal. rewrite !(alter_as_insert _ _ _ f Hf).
    by destruct f as [??????[|]?]; simplify_eq/=. }
  apply end_family_moves, revoke_family_ends.
Qed.

Lemma access_moves clock now raw id event cx db p db' :
  access_tx sha256 digest clock now raw id event cx db = Ok (p, db') → moves (logins db) (logins db').
Proof.
  unfold access_tx. destruct (access_of _ _) as [[a f]|] eqn:Ea; [|intros; by tx_inv].
  apply access_of_Some in Ea as [Ha Hf].
  destruct (negb (access_live clock (a, f))); [intros; by tx_inv|].
  destruct (approver db f) as [user|]; [|intros; by tx_inv].
  destruct (negb (equalDigest _ _ _)); [intros; by tx_inv|].
  destruct (negb (identityPermits _ _ _ _)).
  { intros H. tx_simp. subst. by eapply revokeFamilyForIdentity_moves. }
  intros. tx_simp. subst. apply rtc_once. unfold logins. simpl.
  rewrite (alter_as_insert _ _ _ a Ha). by apply (mv_touch drawn (logins db) _ a).
Qed.
End tokens.

(** ** Retention *)

Lemma without_subseteq {A} ids (rows : gmap string A) : without ids rows ⊆ rows.
Proof. apply map_filter_subseteq. Qed.

Lemma without_Some {A} ids (rows : gmap string A) i x :
  without ids rows !! i = Some x ↔ rows !! i = Some x ∧ i ∉ ids.
Proof.
  unfold without. rewrite map_lookup_filter_Some. simpl. rewrite <- string_in_spec.
  destruct (string_in i ids); naive_solver.
Qed.

Lemma family_free_spec db id i f :
  family_free db id = true → families db !! i = Some f → fm_device_authorization_id f ≠ id.
Proof.
  unfold family_free. intros Hf Hi E. rewrite forallb_forall in Hf.
  specialize (Hf (i, f)). rewrite <- list_elem_of_In, elem_of_map_to_list in Hf. specialize (Hf Hi). simpl in Hf.
  bool_simp. done.
Qed.

Lemma of_families_spec {A} (family : A → string) ids (rows : gmap string A) i x :
  rows !! i = Some x → i ∉ of_families family ids rows → family x ∉ ids.
Proof.
  unfold of_families. intros Hi Hn Hin. apply Hn. apply list_elem_of_fmap. exists (i, x). split; [done|].
  apply list_elem_of_In, List.filter_In. split; [by apply list_elem_of_In, elem_of_map_to_list|].
  by apply string_in_spec.
Qed.

Section retention.
Context (drawn : string → Prop).

Abbreviation moves := (rtc (login_move drawn)).

(** Authorizations that are removed have no family. *)
Lemma devices_without_move ids db :
  login_inv (logins db) → (∀ id, id ∈ ids → family_free db id = true) →
  moves (logins db) (logins (db <| devices ::= without ids |>)).
Proof.
  intros Hinv Hfree. apply rtc_once, mv_reap; simpl; try done; [apply without_subseteq|..].
  - intros i t Ht. by apply (li_refresh _ Hinv i t Ht).
  - intros i a Ha. destruct (li_access _ Hinv i a Ha) as (f & Hf & _). by exists f.
  - intros i f Hf. destruct (li_family _ Hinv i f Hf) as (d & Hd & _). exists d. apply without_Some.
    split; [done|]. intros Hin. by apply (family_free_spec db _ i f (Hfree _ Hin)).
Qed.

Lemma reap_accesses_moves now limit h db :
  login_inv (logins db) → moves (logins db) (logins (reap_accesses now limit h db).2).
Proof.
  intros Hinv. apply rtc_once, mv_reap; simpl; try done; [apply without_subseteq|..].
  - intros i t Ht. by apply (li_refresh _ Hinv i t Ht).
  - intros i a [Ha _]%without_Some. destruct (li_access _ Hinv i a Ha) as (f & Hf & _). by exists f.
  - intros i f Hf. destruct (li_family _ Hinv i f Hf) as (d & Hd & _). by exists d.
Qed.

Lemma reap_families_moves now limit h db :
  login_inv (logins db) → moves (logins db) (logins (reap_families now limit h db).2).
Proof.
  intros Hinv. unfold reap_families. cbv zeta. cbn [snd]. set (ids := families_due _ _ _ _).
  match goal with |- rtc _ _ (logins (set_field devices _ ?x)) => set (db1 := x) end.
  assert (login_move drawn (logins db) (logins db1)) as Hm.
  { apply mv_reap; simpl; try done; try apply without_subseteq.
    - intros i t [Ht Hn]%without_Some. destruct (li_refresh _ Hinv i t Ht) as [[f Hf] _]. exists f.
      apply without_Some. split; [done|]. by eapply of_families_spec.
    - intros i a [Ha Hn]%without_Some. destruct (li_access _ Hinv i a Ha) as (f & Hf & _). exists f.
      apply without_Some. split; [done|]. by eapply of_families_spec.
    - intros i f [Hf _]%without_Some. destruct (li_family _ Hinv i f Hf) as (d & Hd & _). by exists d. }
  etrans; [by apply rtc_once|]. apply devices_without_move; [by eapply login_move_inv|].
  intros id Hin. apply list_elem_of_In, List.filter_In in Hin as [_ Hc]. by bool_simp.
Qed.

Lemma due_batch_due {A} at_ due limit locked (rows : gmap string A) id :
  id ∈ due_batch at_ due limit locked rows → ∃ x, rows !! id = Some x ∧ due id x = true.
Proof.
  unfold due_batch. intros (kv & -> & Hin)%list_elem_of_fmap. apply elem_of_take in Hin as (i & Hi & _).
  apply list_elem_of_lookup_2, sort_by_elem in Hi.
  apply list_elem_of_In, List.filter_In in Hi as [Hi Hd]. apply list_elem_of_In in Hi. destruct kv as [k x].
  apply elem_of_map_to_list in Hi. bool_simp. simpl in *. eauto.
Qed.

Lemma reap_moves now a f d h db r db' :
  login_inv (logins db) → reapTransaction now a f d h db = Ok (r, db') → moves (logins db) (logins db').
Proof.
  intros Hinv. unfold reapTransaction.
  destruct (reap_accesses now a h db) as [n1 db1] eqn:E1. destruct (reap_families now f h db1) as [r2 db2] eqn:E2.
  destruct (reap_authorizations now d h db2) as [n3 db3] eqn:E3. intros [= _ <-].
  pose proof (reap_accesses_moves now a h db Hinv) as H1. rewrite E1 in H1.
  assert (login_inv (logins db1)) as I1 by by eapply login_moves_inv.
  pose proof (reap_families_moves now f h db1 I1) as H2. rewrite E2 in H2.
  assert (login_inv (logins db2)) as I2 by by eapply login_moves_inv.
  etrans; [exact H1|]. etrans; [exact H2|]. injection E3 as _ <-. apply devices_without_move; [done|].
  intros id Hin. apply due_batch_due in Hin as (x & _ & Hd). by bool_simp.
Qed.
End retention.

(** ** Lifecycle *)

Section lifecycle.
Context (sha256 digest lookup : string → string) (drawn : string → Prop).

Abbreviation moves := (rtc (login_move drawn)).

Lemma set_disabled_db kind read disable enable now id disabled c d db o db' :
  set_disabled_tx sha256 kind read disable enable now id disabled c d db = Ok (o, db') →
  ∃ db1 f, db' = db1 <| audit_log ::= f |> ∧
    (db1 = db ∨ (disabled = true ∧ db1 = disable (uuid_text id) db) ∨
     (disabled = false ∧ db1 = enable (uuid_text id) db)).
Proof.
  unfold set_disabled_tx. destruct (negb (lifecycle_actor db c)).
  { intros. tx_simp. audit_done. subst. eexists db, _. split; [done|by left]. }
  destruct (read db (uuid_text id)) as [current|]; [|intros; tx_simp; audit_done; subst; eexists db, _; split; [done|by left]].
  intros. tx_simp. audit_done. subst. eexists _, _. split; [done|].
  destruct (switched disabled current); [|by left]. destruct disabled; [right; left|right; right]; done.
Qed.

(** A provider event commits with an audit row alone, or with its receipt as
    well and, when it is not stale, its effect. *)
Lemma sync_db now i version c d db o db' :
  sync_tx sha256 now i version c d db = Ok (o, db') →
  ∃ db1 f, db' = db1 <| audit_log ::= f |> ∧
    (db1 = db ∨
     ∃ user u changed db2, user_of_subject db (sy_clerk_user_id i) = Some (user, u) ∧
       target_missing db i = false ∧ find (event_key (sy_provider i) (sy_event_id i)) (receipts db) = None ∧
       let stream := syncStreamHash sha256 i user in
       let own := List.filter (in_stream (sy_provider i) stream) (receipts db) in
       existsb (λ r, rc_source_version r =? version) own = false ∧
       (if stale own version then (false, db) else apply_event now i user db) = (changed, db2) ∧
       insert_receipt (receipt i version (syncPayloadHash sha256 i version c) stream user
                         (negb (stale own version)) changed) db2 = Ok (tt, db1)).
Proof.
  unfold sync_tx. destruct (negb (_ && lifecycle_actor db c));
    [intros; tx_simp; audit_done; subst; eexists db, _; split; [done|by left]|].
  destruct (user_of_subject db (sy_clerk_user_id i)) as [[user u]|] eqn:Eu;
    [|intros; tx_simp; audit_done; subst; eexists db, _; split; [done|by left]].
  destruct (target_missing db i) eqn:Em; [intros; tx_simp; audit_done; subst; eexists db, _; split; [done|by left]|].
  destruct (find _ (receipts db)) as [r|] eqn:Ef.
  { destruct (negb _); intros; tx_simp; audit_done; subst; (eexists db, _; split; [done|by left]). }
  destruct (existsb (λ r, rc_source_version r =? version) _) eqn:Ev;
    [intros; tx_simp; audit_done; subst; eexists db, _; split; [done|by left]|].
  destruct (stale _ version) eqn:Es.
  - intros. tx_simp. audit_done. subst. destruct x. eexists _, _. split; [done|]. right.
    exists user, u, false, db. rewrite Es. split_and!; done.
  - destruct (apply_event now i user db) as [changed db2] eqn:Ea.
    intros. tx_simp. audit_done. subst. destruct x. eexists _, _. split; [done|]. right.
    exists user, u, changed, db2. rewrite Es. split_and!; done.
Qed.

Lemma insert_receipt_Ok r db x db' :
  insert_receipt r db = Ok (x, db') →
  db' = db <| receipts ::= λ l, l ++ [r] |> ∧ rc_organization_id r ≠ Some "" ∧
  existsb (event_key (rc_provider r) (rc_event_id r)) (receipts db) = false ∧
  existsb (λ r', in_stream (rc_provider r) (rc_stream_sha256 r) r' &&
                 (rc_source_version r' =? rc_source_version r)) (receipts db) = false.
Proof.
  unfold insert_receipt. destruct (bool_decide (rc_organization_id r = Some "")) eqn:E0; [done|]. bool_simp.
  destruct (existsb (event_key _ _) (receipts db)) eqn:E1; [done|].
  destruct (existsb (λ r', _) (receipts db)) eqn:E2; [done|]. by intros [= _ <-].
Qed.

Lemma apply_event_moves now i user db changed db' :
  apply_event now i user db = (changed, db') → moves (logins db) (logins db').
Proof.
  unfold apply_event. destruct (string_in _ _).
  - destruct (users db !! user) as [u|]; [|by intros [= _ <-]].
    case_match; intros [= _ <-]; [apply disable_user_moves|done].
  - destruct (sy_organization_id i) as [organization|]; [|by intros [= _ <-]].
    destruct (String.eqb _ _).
    + destruct (sy_role i); [case_match|]; by intros [= _ <-].
    + destruct (members db !! _); intros [= _ <-]; [|done].
      match goal with |- rtc _ _ (logins (revoke_membership_dependents _ _ _ ?x)) => set (db1 := x) end.
      change (logins db) with (logins db1). apply revoke_membership_moves.
Qed.

(** ** All transactions *)

(** The login tables implement the machine: whatever commits is a sequence of its
    moves. *)
Theorem step_moves db db' :
  login_inv (logins db) → identity_step sha256 digest lookup drawn db db' → moves (logins db) (logins db').
Proof.
  intros Hinv Hs. destruct Hs.
  - apply insert_Ok in H0 as (row & db1 & Hk & El & _). apply insert_key_logins in Hk. by rewrite El, Hk.
  - by apply setDisabled_logins in H as ->.
  - by apply rotate_store_logins in H as ->.
  - by apply revoke_store_logins in H as ->.
  - done.
  - by destruct (issue_limits_db lookup source clock db) as [rates ->].
  - by destruct (actor_limit_db lookup actor clock db) as [rates ->].
  - by eapply issue_once_moves.
  - by eapply decide_device_moves.
  - by eapply exchange_moves.
  - by eapply refresh_moves.
  - by eapply revoke_moves.
  - by eapply access_moves.
  - by eapply reap_moves.
  - by apply reap_grants_logins in H as ->.
  - apply set_disabled_db in H as (db1 & f & -> & [->|[[_ ->]|[_ ->]]]); rewrite logins_audit; [done| |done].
    apply disable_user_moves.
  - apply set_disabled_db in H as (db1 & f & -> & [->|[[_ ->]|[_ ->]]]); rewrite logins_audit; [done| |done].
    by apply disable_organization_moves.
  - apply sync_db in H0 as (db1 & f & -> & [->|(user & u & changed & db2 & _ & _ & _ & _ & Ha & Hr)]);
      rewrite logins_audit; [done|]. apply insert_receipt_Ok in Hr as (-> & _).
    match goal with |- rtc _ _ (logins (set_field receipts ?f db2)) => change (logins (set_field receipts f db2)) with (logins db2) end.
    destruct (stale _ version) in Ha; [by injection Ha as _ <-|by eapply apply_event_moves].
  - by rewrite (pv_logins _ _ H).
Qed.

Lemma step_login_inv db db' :
  login_inv (logins db) → identity_step sha256 digest lookup drawn db db' → login_inv (logins db').
Proof. intros Hinv Hs. by eapply login_moves_inv, step_moves. Qed.

Lemma steps_moves db db' :
  login_inv (logins db) → rtc (identity_step sha256 digest lookup drawn) db db' →
  login_inv (logins db') ∧ moves (logins db) (logins db').
Proof.
  intros Hinv Hr. induction Hr as [db|db db1 db' Hs _ IH]; [done|].
  destruct (IH (step_login_inv db db1 Hinv Hs)) as [H1 H2]. split; [done|].
  etrans; [by eapply step_moves|done].
Qed.
End lifecycle.

(** ** What the login transactions leave alone

    Issuing, deciding, exchanging, refreshing and revoking logins touch no user, no
    organization, no membership, no API key and no provider receipt; the
    transactions on API keys touch the keys and their grants only. *)

Record Subjects := mkSubjects {
  sj_users : gmap string UserRow;
  sj_organizations : gmap string (option Z);
  sj_projects : gmap string string;
  sj_members : gmap (string * string) string;
  sj_receipts : list ReceiptRow
}.

Definition subjects (db : IdentityDb) : Subjects :=
  mkSubjects (users db) (organizations db) (projects db) (members db) (receipts db).

(** Everything but the login tables, grants, rates and the audit log. *)
Definition standing (db : IdentityDb) : Subjects * gmap string KeyRow := (subjects db, api_keys db).

Section frames.
Context (sha256 digest lookup : string → string).

Lemma issue_once_standing clock clientId scopes cx d db db' :
  issue_once sha256 digest lookup clock clientId scopes cx d db = Ok (tt, db') → standing db' = standing db.
Proof.
  unfold issue_once. intros. tx_simp. audit_done.
  by match goal with H : insert_device _ _ _ = Ok _ |- _ => apply insert_device_Ok in H as [_ ->] end.
Qed.

Lemma decide_device_standing clock event code input seen db db' :
  decide_device sha256 lookup clock event code input seen db = Ok (tt, db') → standing db' = standing db.
Proof.
  unfold decide_device. intros H. case_match; [|done]. destruct p as [user role].
  apply result_bind_Ok in H as ([id d] & _ & H).
  destruct (String.eqb _ "deny"); [by audit_done|].
  destruct (az_project_id input) as [project|]; [|done]. destruct (_ ≫= validScopes) as [scopes|]; [|done].
  destruct (existsb _ _); [done|]. destruct (negb _); [done|]. by audit_done.
Qed.

Lemma exchange_standing clock id t cx seen db o db' :
  exchange_tx sha256 digest clock id t cx seen db = Ok (o, db') → standing db' = standing db.
Proof.
  unfold exchange_tx. destruct (devices db !! id) as [d|]; [|by intros [= _ <-]].
  destruct (dv_expires_at d <=? clock); [by intros [= _ <-]|].
  destruct (dv_status d); [|  |by intros [= _ <-]..].
  - case_match; by intros [= _ <-].
  - destruct (dv_organization_id d), (dv_project_id d), (dv_approved_by d), (dv_approved_scopes d); try done.
    destruct (identityPermits _ _ _ _).
    + unfold found_family. intros H. tx_simp. audit_done.
      match goal with H : insert_family _ _ _ = Ok _ |- _ => apply insert_family_Ok in H as (_ & -> & _) end.
      match goal with H : insert_refresh_token _ _ _ = Ok _ |- _ => apply insert_refresh_token_Ok in H as (_ & ->) end.
      by match goal with H : insert_access_token _ _ _ = Ok _ |- _ => apply insert_access_token_Ok in H as (_ & ->) end.
    + intros H. tx_simp. by audit_done.
Qed.

Lemma revokeFamilyForIdentity_standing clock now event id f cx db x db' :
  revokeFamilyForIdentity sha256 clock now event id f cx db = Ok (x, db') → standing db' = standing db.
Proof.
  unfold revokeFamilyForIdentity. intros H.
  destruct (match families db !! id with Some g => bool_decide (fm_revoked_at g = None) | None => false end).
  - by apply insert_audit_Ok in H as ->.
  - by injection H as _ <-.
Qed.

Lemma refresh_standing clock now id t cx db o db' :
  refresh_tx sha256 digest clock now id t cx db = Ok (o, db') → standing db' = standing db.
Proof.
  unfold refresh_tx. destruct (refresh_of db id) as [[r f]|]; [|by intros [= _ <-]].
  destruct (negb (refresh_live clock (r, f))); [by intros [= _ <-]|].
  destruct (approver db f) as [user|]; [|by intros [= _ <-]].
  destruct (bool_decide (is_Some (rt_used_at r))).
  { intros H. tx_simp. subst. case_match; audit_done; tx_simp; by subst. }
  destruct (negb (identityPermits _ _ _ _)).
  { intros H. tx_simp. subst. by eapply revokeFamilyForIdentity_standing. }
  destruct (clock <? _); [by intros [= _ <-]|].
  destruct (MAXIMUM_REFRESH_GENERATION <=? rt_generation r).
  { intros H. tx_simp. audit_done. by subst. }
  unfold rotated. intros Htx. tx_simp. audit_done. subst.
  match goal with H : insert_refresh_token _ _ _ = Ok _ |- _ => apply insert_refresh_token_Ok in H as (_ & ->) end.
  by match goal with H : insert_access_token _ _ _ = Ok _ |- _ => apply insert_access_token_Ok in H as (_ & ->) end.
Qed.

Lemma revoke_standing clock now id event cx db b db' :
  revoke_tx sha256 clock now id event cx db = Ok (b, db') → standing db' = standing db.
Proof.
  unfold revoke_tx. destruct (refresh_of db id) as [[r f]|]; [|by intros [= _ <-]].
  destruct (refresh_live clock (r, f)); [|by intros [= _ <-]]. intros. tx_simp. audit_done. by subst.
Qed.

Lemma access_standing clock now raw id event cx db p db' :
  access_tx sha256 digest clock now raw id event cx db = Ok (p, db') → standing db' = standing db.
Proof.
  unfold access_tx. destruct (access_of _ _) as [[a f]|]; [|by intros [= _ <-]].
  destruct (negb (access_live clock (a, f))); [by intros [= _ <-]|].
  destruct (approver db f) as [user|]; [|by intros [= _ <-]].
  destruct (negb (equalDigest _ _ _)); [by intros [= _ <-]|].
  destruct (negb (identityPermits _ _ _ _)); [|by intros [= _ <-]].
  intros H. tx_simp. subst. by eapply revokeFamilyForIdentity_standing.
Qed.

Lemma reap_standing now a f d h db r db' :
  reapTransaction now a f d h db = Ok (r, db') → standing db' = standing db.
Proof.
  unfold reapTransaction, reap_accesses, reap_families, reap_authorizations. by intros [= _ <-].
Qed.

Lemma reap_grants_standing now n locked db r db' :
  reapExpiredGatewayGrants now n locked db = Ok (r, db') → standing db' = standing db.
Proof. unfold reapExpiredGatewayGrants. case_match; [|done]. by intros [= _ <-]. Qed.

(** ** Keys *)

Lemma insert_key_Ok id row db x db' :
  insert_key id row db = Ok (x, db') →
  db' = db <| api_keys ::= <[id := row]> |> ∧ api_keys db !! id = None ∧
  allocation_violation (ak_organization_id row) (ak_project_id row) (api_keys db) = None ∧
  (∀ i k, api_keys db !! i = Some k → ak_prefix k ≠ ak_prefix row).
Proof.
  unfold insert_key. intros. tx_inv. bool_simp. split_and!; [done|by apply eq_None_not_Some|done|].
  intros i k Hk.
  match goal with H : existsb _ _ = false |- _ => apply (existsb_map_false (λ k,
    String.eqb (ak_prefix k) (ak_prefix row)) _ i k) in H; [|done] end.
  by bool_simp.
Qed.

Lemma setDisabled_subjects now event op id organization disabled actor cx db b db' :
  setDisabled sha256 now event op id organization disabled actor cx db = Ok (b, db') → subjects db' = subjects db.
Proof. unfold setDisabled, revoke_issued, revoke_key_grants. intros. open_tx; done. Qed.

Lemma rotate_store_subjects now op id organization r actor cx db b db' :
  rotate_store sha256 now op id organization r actor cx db = Ok (b, db') → subjects db' = subjects db.
Proof.
  unfold rotate_store, catching. intros. open_tx; try done.
  by match goal with H : insert_key _ _ _ = Ok _ |- _ => apply insert_key_Ok in H as [-> _] end.
Qed.

Lemma revoke_store_subjects now op id organization actor cx db b db' :
  revoke_store sha256 now op id organization actor cx db = Ok (b, db') → subjects db' = subjects db.
Proof. unfold revoke_store, revoke_issued, revoke_key_grants. intros. open_tx; done. Qed.

(** ** Lifecycle *)

Lemma disable_user_keys now user db : api_keys (disable_user now user db) = api_keys db.
Proof.
  unfold disable_user, revoke_user_dependents. case_match; done.
Qed.

Lemma apply_event_keys now i user db changed db' :
  apply_event now i user db = (changed, db') → api_keys db' = api_keys db.
Proof.
  unfold apply_event. destruct (string_in _ _).
  - destruct (users db !! user) as [u|]; [|by intros [= _ <-]].
    case_match; intros [= _ <-]; [apply disable_user_keys|done].
  - destruct (sy_organization_id i) as [organization|]; [|by intros [= _ <-]].
    destruct (String.eqb _ _).
    + destruct (sy_role i); [case_match|]; by intros [= _ <-].
    + destruct (members db !! _); by intros [= _ <-].
Qed.
End frames.
