(* ===== verification/KeyMachine.v ===== *)
(** * The life of API keys

    What src/apps/nehemiah/src/auth/api-key.ts and the trigger of
    migrations/0032 promise about the table of keys: it grows within its quotas by
    keys with a prefix of their own, and a key that is there changes only whether it
    is disabled, revoked and when it was last used. *)

From S2P Require Import Prelude Text Js Capacity Identity ApiKeys Device DeviceTokens.
From S2P Require Import IdentityLifecycle LoginMachine IdentityStep.

Abbreviation Keys := (gmap string KeyRow).

(** What a key keeps for life; a revocation is for ever. *)
Record key_same (k k' : KeyRow) : Prop := {
  ks_organization : ak_organization_id k' = ak_organization_id k;
  ks_project : ak_project_id k' = ak_project_id k;
  ks_prefix : ak_prefix k' = ak_prefix k;
  ks_hash : ak_hash k' = ak_hash k;
  ks_scopes : ak_scopes k' = ak_scopes k;
  ks_expires : ak_expires_at k' = ak_expires_at k;
  ks_revoked : is_Some (ak_revoked_at k) → is_Some (ak_revoked_at k')
}.

#[export] Instance key_same_preorder : PreOrder key_same.
Proof. split; [done|]. intros k1 k2 k3 [] []. split; first [congruence|tauto]. Qed.

Inductive key_move (ks : Keys) : Keys → Prop :=
| km_mint id k :
    allocation_violation (ak_organization_id k) (ak_project_id k) ks = None → ks !! id = None →
    (∀ i k', ks !! i = Some k' → ak_prefix k' ≠ ak_prefix k) →
    Forall (λ s, s ∈ apiKeyScopes) (ak_scopes k) → key_move ks (<[id := k]> ks)
| km_change id k k' : ks !! id = Some k → key_same k k' → key_move ks (<[id := k']> ks).

Record key_inv (ks : Keys) : Prop := {
  ki_prefix i j k k' : ks !! i = Some k → ks !! j = Some k' → ak_prefix k = ak_prefix k' → i = j;
  ki_scopes i k : ks !! i = Some k → Forall (λ s, s ∈ apiKeyScopes) (ak_scopes k);
  ki_organization_active o : count_keys (λ k, of_organization o k && unrevoked k) ks <= 64;
  ki_organization_retained o : count_keys (of_organization o) ks <= 4096;
  ki_project_active o p : count_keys (λ k, of_project o p k && unrevoked k) ks <= 16;
  ki_project_retained o p : count_keys (of_project o p) ks <= 1024
}.

(** ** Counting *)

Lemma count_mint p id k (ks : Keys) :
  ks !! id = None → count_keys p (<[id := k]> ks) = (if p k then 1 else 0) + count_keys p ks.
Proof. intros Hn. unfold count_keys. by rewrite map_sum_insert_new. Qed.

Lemma count_change p id k k' (ks : Keys) :
  ks !! id = Some k → (p k' = true → p k = true) → count_keys p (<[id := k']> ks) <= count_keys p ks.
Proof.
  intros Hk Hp. unfold count_keys. rewrite (map_sum_insert _ _ _ _ k Hk).
  destruct (p k'); [rewrite Hp by done; lia|destruct (p k); lia].
Qed.

Lemma unrevoked_same k k' : key_same k k' → unrevoked k' = true → unrevoked k = true.
Proof.
  intros [?????? Hr]. unfold unrevoked. rewrite !bool_decide_eq_true. intros E.
  destruct (ak_revoked_at k); [|done]. rewrite E in *. by destruct Hr.
Qed.

Lemma allocation_None organization project ks :
  allocation_violation organization project ks = None →
  count_keys (λ k, of_organization organization k && unrevoked k) ks < 64 ∧
  count_keys (of_organization organization) ks < 4096 ∧
  ∀ p, project = Some p →
    count_keys (λ k, of_project organization p k && unrevoked k) ks < 16 ∧
    count_keys (of_project organization p) ks < 1024.
Proof.
  unfold allocation_violation. intros H. do 2 (case_match; [done|]). bool_simp. split_and!; [done..|].
  intros p ->. do 2 (case_match; [done|]). by bool_simp.
Qed.

Lemma key_move_inv ks ks' : key_inv ks → key_move ks ks' → key_inv ks'.
Proof.
  intros Hinv Hm. destruct Hm as [id k Ha Hn Hp Hs|id k k' Hk Hsame].
  - apply allocation_None in Ha as (Ho & Hr & Hpr). destruct Hinv. split.
    + intros i j k1 k2 H1 H2 E. insert_cases H1; insert_cases H2; try done;
        [by destruct (Hp _ _ H2)|by destruct (Hp _ _ H1)|by eapply ki_prefix0].
    + intros i k1 H1. insert_cases H1; eauto.
    + intros o. rewrite count_mint by done. pose proof (ki_organization_active0 o).
      destruct (of_organization o k) eqn:E; simpl; [|done]. unfold of_organization in E. bool_simp. subst.
      destruct (unrevoked k); lia.
    + intros o. rewrite count_mint by done. pose proof (ki_organization_retained0 o).
      destruct (of_organization o k) eqn:E; [|done]. unfold of_organization in E. bool_simp. subst. lia.
    + intros o p. rewrite count_mint by done. pose proof (ki_project_active0 o p).
      destruct (of_project o p k) eqn:E; simpl; [|done]. unfold of_project, of_organization in E. bool_simp. subst.
      destruct (Hpr p); [done|]. destruct (unrevoked k); lia.
    + intros o p. rewrite count_mint by done. pose proof (ki_project_retained0 o p).
      destruct (of_project o p k) eqn:E; [|done]. unfold of_project, of_organization in E. bool_simp. subst.
      destruct (Hpr p); [done|]. lia.
  - assert (∀ o, of_organization o k' = of_organization o k) as Eo
      by (intros; unfold of_organization; by rewrite (ks_organization _ _ Hsame)).
    assert (∀ o p, of_project o p k' = of_project o p k) as Ep
      by (intros; unfold of_project; by rewrite Eo, (ks_project _ _ Hsame)).
    pose proof (unrevoked_same k k' Hsame) as Hun. destruct Hinv. split.
    + intros i j k1 k2 H1 H2 E.
      destruct (decide (i = j)); [done|]. exfalso.
      insert_cases H1; insert_cases H2; try done; rewrite ?(ks_prefix _ _ Hsame) in *;
        [by eapply n, (ki_prefix0 _ _ k k2)|by eapply n, (ki_prefix0 _ _ k1 k)|by eapply n, ki_prefix0].
    + intros i k1 H1. insert_cases H1; [rewrite (ks_scopes _ _ Hsame)|]; eauto.
    + intros o. etrans; [apply (count_change _ id k k'); [done|]|done]. rewrite Eo. intros. bool_simp.
      apply andb_true_iff. auto.
    + intros o. etrans; [apply (count_change _ id k k'); [done|]|done]. by rewrite Eo.
    + intros o p. etrans; [apply (count_change _ id k k'); [done|]|done]. rewrite Ep. intros. bool_simp.
      apply andb_true_iff. auto.
    + intros o p. etrans; [apply (count_change _ id k k'); [done|]|done]. by rewrite Ep.
Qed.

(** A key that is there stays, with what it keeps for life. *)
Lemma key_move_keeps ks ks' i k :
  key_move ks ks' → ks !! i = Some k → ∃ k', ks' !! i = Some k' ∧ key_same k k'.
Proof.
  intros Hm Hi. destruct Hm as [id k1 _ Hn _ _|id k1 k1' Hk1 Hsame].
  - exists k. rewrite lookup_insert_ne by congruence. done.
  - destruct (decide (id = i)) as [->|Hne].
    + exists k1'. rewrite lookup_insert, decide_True by done. split; [done|]. by assert (k1 = k) as <- by congruence.
    + exists k. by rewrite lookup_insert_ne.
Qed.

(** ** The store implements the machine *)

Lemma alter_absent {A} (f : A → A) (m : gmap string A) i : m !! i = None → alter f i m = m.
Proof.
  intros Hi. apply map_eq. intros j. destruct (decide (i = j)) as [<-|Hn].
  - by rewrite lookup_alter, decide_True, Hi by done.
  - by rewrite lookup_alter_ne.
Qed.

Section steps.
Context (sha256 digest lookup : string → string) (drawn : string → Prop).

Abbreviation moves := (rtc key_move).

Lemma with_key_move id f k ks :
  ks !! id = Some k → key_same k (f k) → key_move ks (alter f id ks).
Proof. intros Hk Hs. rewrite (alter_as_insert f ks id k Hk). by apply (km_change ks id k). Qed.

Lemma own_key_Some db id organization k :
  own_key db id organization = Some k →
  api_keys db !! uuid_text id = Some k ∧ ak_organization_id k = organization.
Proof.
  unfold own_key. intros H. destruct (api_keys db !! uuid_text id) as [k'|]; simpl in H; [|done].
  destruct (of_organization organization k') eqn:E; [|done]. unfold of_organization in E. bool_simp.
  by injection H as ->.
Qed.

Lemma setDisabled_keys now event op id organization disabled actor cx db b db' :
  setDisabled sha256 now event op id organization disabled actor cx db = Ok (b, db') →
  moves (api_keys db) (api_keys db').
Proof.
  unfold setDisabled. destruct (negb _); [done|].
  destruct (own_key db id organization) as [k|] eqn:Ek; [|by intros [= _ <-]].
  apply own_key_Some in Ek as [Hk _].
  destruct (negb (unrevoked k)); [by intros [= _ <-]|]. intros H. tx_simp. audit_done. subst.
  change (api_keys (?x <| audit_log ::= ?f |>)) with (api_keys x).
  destruct (if disabled then _ else _); [|done].
  assert (moves (api_keys db)
    (alter (λ k, k <| ak_disabled_at := if disabled then Some now else None |>) (uuid_text id) (api_keys db))) as Hm
    by (by apply rtc_once, (with_key_move _ _ k)).
  by destruct disabled.
Qed.

Lemma revoke_store_keys now op id organization actor cx db b db' :
  revoke_store sha256 now op id organization actor cx db = Ok (b, db') → moves (api_keys db) (api_keys db').
Proof.
  unfold revoke_store. destruct (negb _); [done|].
  destruct (own_key db id organization) as [k|] eqn:Ek; [|by intros [= _ <-]].
  apply own_key_Some in Ek as [Hk _]. intros [= _ <-]. simpl.
  apply rtc_once, (with_key_move _ _ k); [done|]. split; try done. intros [r Hr]. unfold coalesce. simpl.
  rewrite Hr. by eexists.
Qed.

(** A rotation: the key as it was, revoked, and a new one in its place. *)
Lemma rotate_store_Ok now op id organization r actor cx db b db' :
  rotate_store sha256 now op id organization r actor cx db = Ok (b, db') →
  (b = false ∧ db' = db) ∨
  ∃ k, b = true ∧ api_keys db !! uuid_text id = Some k ∧ ak_organization_id k = organization ∧
    key_active now db k = true ∧
    let ks := alter (rotated_key now) (uuid_text id) (api_keys db) in
    let new := mkKey organization (ak_project_id k) (ak_name k) (rp_prefix r) (rp_hash r) (ak_scopes k)
                 (created_by db actor) now None (ak_expires_at k) None None in
    allocation_violation organization (ak_project_id k) ks = None ∧ ks !! rp_id r = None ∧
    (∀ i k', ks !! i = Some k' → ak_prefix k' ≠ rp_prefix r) ∧ api_keys db' = <[rp_id r := new]> ks ∧
    grants db' = grants (revoke_issued now id organization db).
Proof.
  unfold rotate_store, catching. destruct (negb (key_administrator _ _ _)); [done|].
  destruct (own_key db id organization) as [k|] eqn:Ek; [|by intros [= <- <-]; left].
  apply own_key_Some in Ek as [Hk Ho]. destruct (negb (key_active now db k)) eqn:Ea; [by intros [= <- <-]; left|].
  bool_simp. intros H. case_match eqn:E; [|done]. injection H as ->. tx_simp. audit_done.
  match goal with H : insert_key _ _ _ = Ok _ |- _ => apply insert_key_Ok in H as (-> & Hn & Hal & Hp) end.
  right. exists k. split_and!; done.
Qed.

Lemma step_keys db db' :
  key_inv (api_keys db) → identity_step sha256 digest lookup drawn db db' → moves (api_keys db) (api_keys db').
Proof.
  intros Hinv Hs.
  assert (∀ db', standing db' = standing db → moves (api_keys db) (api_keys db')) as Hst
    by (intros db1 E; apply (f_equal snd) in E; simpl in E; by rewrite E).
  destruct Hs.
  - apply insert_Ok in H0 as (row & db1 & Hk & _ & -> & -> & _). simpl.
    apply insert_key_Ok in Hk as (-> & Hn & Hal & Hp). by apply rtc_once, km_mint.
  - by eapply setDisabled_keys.
  - apply rotate_store_Ok in H as [[_ ->]|(k & _ & Hk & Ho & _ & Hal & Hn & Hp & -> & _)]; [done|].
    apply (rtc_l _ _ (alter (rotated_key now) (uuid_text id) (api_keys db))); [by apply (with_key_move _ _ k)|].
    apply rtc_once, km_mint; simpl; [done..|]. by eapply ki_scopes.
  - by eapply revoke_store_keys.
  - unfold touch, with_key. simpl. destruct (api_keys db !! id) as [k|] eqn:Hk.
    + by apply rtc_once, (with_key_move _ _ k).
    + by rewrite alter_absent.
  - by destruct (issue_limits_db lookup source clock db) as [rates ->].
  - by destruct (actor_limit_db lookup actor clock db) as [rates ->].
  - by eapply Hst, issue_once_standing.
  - by eapply Hst, decide_device_standing.
  - by eapply Hst, exchange_standing.
  - by eapply Hst, refresh_standing.
  - by eapply Hst, revoke_standing.
  - by eapply Hst, access_standing.
  - by eapply Hst, reap_standing.
  - by eapply Hst, reap_grants_standing.
  - apply set_disabled_db in H as (db1 & f & -> & [->|[[_ ->]|[_ ->]]]); simpl; [done| |done].
    by rewrite disable_user_keys.
  - by apply set_disabled_db in H as (db1 & f & -> & [->|[[_ ->]|[_ ->]]]).
  - apply sync_db in H0 as (db1 & f & -> & [->|(user & u & changed & db2 & _ & _ & _ & _ & Ha & Hr)]); [done|].
    apply insert_receipt_Ok in Hr as (-> & _). simpl.
    destruct (stale _ version); [by injection Ha as _ <-|by apply apply_event_keys in Ha as ->].
  - by rewrite (pv_keys _ _ H).
Qed.

Lemma key_moves_keep ks ks' :
  key_inv ks → moves ks ks' →
  key_inv ks' ∧ ∀ i k, ks !! i = Some k → ∃ k', ks' !! i = Some k' ∧ key_same k k'.
Proof.
  intros Hinv Hm. induction Hm as [ks|ks ks1 ks' Hm _ IH].
  { split; [done|]. intros i k Hk. by exists k. }
  destruct (IH (key_move_inv _ _ Hinv Hm)) as [H1 H2]. split; [done|]. intros i k Hk.
  destruct (key_move_keeps _ _ _ _ Hm Hk) as (k1 & Hk1 & Hs1). destruct (H2 i k1 Hk1) as (k2 & Hk2 & Hs2).
  exists k2. split; [done|by etrans].
Qed.

Lemma steps_keys db db' :
  key_inv (api_keys db) → rtc (identity_step sha256 digest lookup drawn) db db' →
  key_inv (api_keys db') ∧
  ∀ i k, api_keys db !! i = Some k → ∃ k', api_keys db' !! i = Some k' ∧ key_same k k'.
Proof.
  intros Hinv Hr. apply key_moves_keep; [done|].
  induction Hr as [db|db db1 db' Hs _ IH]; [done|].
  pose proof (step_keys db db1 Hinv Hs) as Hm. etrans; [exact Hm|]. by apply IH, (key_moves_keep (api_keys db)).
Qed.
End steps.

Lemma key_inv_empty : key_inv ∅.
Proof.
  assert (∀ p, count_keys p ∅ = 0) as Hz by (intros; apply map_sum_empty).
  split; intros *; rewrite ?lookup_empty, ?Hz; done.
Qed.
