(* ===== verification/SyncMachine.v ===== *)
(** * Provider events

    What domain/identity-lifecycle.ts promises about the events of the identity
    provider, whatever their order: receipts only accumulate, each event and each
    version of a stream once, and a membership is what the newest event of its
    stream made it. *)

From S2P Require Import Prelude Text Js Capacity Identity ApiKeys Device DeviceTokens.
From S2P Require Import IdentityLifecycle LoginMachine IdentityStep.

(** The membership a receipt is about, and what it makes of it. *)
Definition membership_key (r : ReceiptRow) : option (string * string) :=
  (λ o, (o, rc_user_id r)) <$> rc_organization_id r.

Definition membership_effect (r : ReceiptRow) : option string :=
  if String.eqb (rc_event_type r) "membership.upserted" then rc_role r else None.

Definition same_stream (r r' : ReceiptRow) : Prop :=
  rc_provider r = rc_provider r' ∧ rc_stream_sha256 r = rc_stream_sha256 r'.

Definition newest_of_stream (l : list ReceiptRow) (r : ReceiptRow) : Prop :=
  r ∈ l ∧ ∀ r', r' ∈ l → same_stream r' r → rc_source_version r' <= rc_source_version r.

Record receipt_well_formed (sha256 : string → string) (db : IdentityDb) (r : ReceiptRow) : Prop := {
  rw_provider : rc_provider r = "clerk";
  rw_type : rc_event_type r ∈ syncEventTypes;
  rw_membership : membershipEvent (rc_event_type r) = bool_decide (is_Some (rc_organization_id r));
  rw_user : is_Some (users db !! rc_user_id r);
  rw_stream o :
    rc_organization_id r = Some o →
    rc_stream_sha256 r = sha256 (rc_provider r +:+ nul +:+ "membership" +:+ nul +:+ rc_user_id r +:+ nul +:+ o);
  rw_user_stream :
    rc_organization_id r = None → rc_stream_sha256 r = sha256 (rc_provider r +:+ nul +:+ "user" +:+ nul +:+ rc_user_id r);
  rw_uuid o : rc_organization_id r = Some o → String.length o = 36%nat;
  rw_role : rc_event_type r = "membership.upserted" → is_Some (rc_role r)
}.

Record sync_inv (sha256 : string → string) (db : IdentityDb) : Prop := {
  si_subjects i j u v :
    users db !! i = Some u → users db !! j = Some v → u_clerk_user_id u = u_clerk_user_id v → i = j;
  si_uuid o : is_Some (organizations db !! o) → String.length o = 36%nat;
  si_receipt r : r ∈ receipts db → receipt_well_formed sha256 db r;
  si_event : NoDup (map (λ r, (rc_provider r, rc_event_id r)) (receipts db));
  si_version : NoDup (map (λ r, (rc_provider r, rc_stream_sha256 r, rc_source_version r)) (receipts db));
  si_newest r key :
    newest_of_stream (receipts db) r → membership_key r = Some key → members db !! key = membership_effect r
}.

(** ** The newest version *)

Lemma newest_spec l v : newest l = Some v → (∃ r, r ∈ l ∧ rc_source_version r = v) ∧ ∀ r, r ∈ l → rc_source_version r <= v.
Proof.
  unfold newest. destruct (map rc_source_version l) as [|x xs] eqn:E; [done|]. intros [= <-].
  assert (∀ a (ys : list Z), (foldl Z.max a ys = a ∨ foldl Z.max a ys ∈ ys) ∧ a <= foldl Z.max a ys ∧
    ∀ y, y ∈ ys → y <= foldl Z.max a ys) as Hf.
  { intros a ys. revert a. induction ys as [|y ys IH]; intros a; simpl; [set_solver by lia|].
    destruct (IH (Z.max a y)) as (Hor & Hle & Hall). split_and!; [|lia|].
    - destruct Hor as [->|Hin]; [|set_solver]. destruct (Z.max_spec a y) as [[? ->]|[? ->]]; set_solver.
    - intros z [->|Hz]%elem_of_cons; [lia|auto]. }
  destruct (Hf x xs) as (Hor & Hle & Hall). split.
  - assert (foldl Z.max x xs ∈ map rc_source_version l) as Hin by (rewrite E; destruct Hor as [->|]; set_solver).
    apply list_elem_of_fmap in Hin as (r & -> & Hr). eauto.
  - intros r Hr. assert (rc_source_version r ∈ map rc_source_version l) as Hin by by apply list_elem_of_fmap_2.
    rewrite E in Hin. apply elem_of_cons in Hin as [->|]; auto.
Qed.

Lemma newest_None l : newest l = None → l = [].
Proof. unfold newest. by destruct l. Qed.

Lemma in_stream_spec p s r : in_stream p s r = true ↔ rc_provider r = p ∧ rc_stream_sha256 r = s.
Proof. unfold in_stream. by rewrite andb_true_iff, !String.eqb_eq. Qed.

Lemma own_spec p s l r :
  r ∈ List.filter (in_stream p s) l ↔ r ∈ l ∧ rc_provider r = p ∧ rc_stream_sha256 r = s.
Proof. by rewrite !list_elem_of_In, List.filter_In, in_stream_spec. Qed.

Lemma stale_spec own v : stale own v = true ↔ ∃ r, r ∈ own ∧ v < rc_source_version r.
Proof.
  unfold stale. destruct (newest own) as [m|] eqn:E.
  - apply newest_spec in E as [(r & Hr & <-) Hall]. rewrite Z.ltb_lt. split; [eauto|].
    intros (r' & Hr' & Hlt). pose proof (Hall r' Hr'). lia.
  - apply newest_None in E as ->. split; [done|]. by intros (r & Hr%elem_of_nil & _).
Qed.

(** Every accepted membership has a newest receipt. *)
Lemma newest_exists l r : r ∈ l → ∃ r', newest_of_stream l r' ∧ same_stream r r'.
Proof.
  intros Hr. set (own := List.filter (in_stream (rc_provider r) (rc_stream_sha256 r)) l).
  assert (r ∈ own) as Hown by by apply own_spec.
  destruct (newest own) as [v|] eqn:E; [|apply newest_None in E; rewrite E in Hown; by apply elem_of_nil in Hown].
  apply newest_spec in E as [(r' & Hr' & <-) Hall]. apply own_spec in Hr' as (Hl & Hp & Hs).
  exists r'. split; [split; [done|]|by split].
  intros r'' Hl'' [Hp'' Hs'']. apply Hall, own_spec. split_and!; [done|congruence..].
Qed.

(** ** Frames *)

Lemma user_of_subject_Some db subject user u :
  user_of_subject db subject = Some (user, u) → users db !! user = Some u ∧ u_clerk_user_id u = subject.
Proof.
  unfold user_of_subject. intros H. destruct (List.filter _ _) as [|p ps] eqn:E in H; [done|]. simpl in H.
  injection H as ->. assert (In (user, u) ((user, u) :: ps)) as Hi by by left. rewrite <- E in Hi.
  apply List.filter_In in Hi as [Hi Hs]. apply list_elem_of_In, elem_of_map_to_list in Hi. by bool_simp.
Qed.

Section sync.
Context (sha256 digest lookup : string → string) (drawn : string → Prop).

(** Steps that write no receipt keep the memberships receipts are about. *)
Lemma sync_inv_frame db db' :
  receipts db' = receipts db →
  (∀ i, is_Some (users db !! i) → is_Some (users db' !! i)) →
  (∀ i j u v, users db' !! i = Some u → users db' !! j = Some v → u_clerk_user_id u = u_clerk_user_id v → i = j) →
  (∀ o i, is_Some (users db !! i) → members db' !! (o, i) = members db !! (o, i)) →
  (∀ o, is_Some (organizations db' !! o) → String.length o = 36%nat) →
  sync_inv sha256 db → sync_inv sha256 db'.
Proof.
  intros Er Eu Hsub Em Hid []. split; rewrite ?Er; try done.
  - intros r Hr. destruct (si_receipt0 r Hr). split; auto.
  - intros r [o i] Hn Hk. rewrite Em; [by apply si_newest0|].
    unfold membership_key in Hk. destruct (rc_organization_id r); simplify_eq/=. by apply si_receipt0, Hn.
Qed.

Lemma sync_inv_standing db db' : subjects db' = subjects db → sync_inv sha256 db → sync_inv sha256 db'.
Proof.
  intros [= Eu Eo _ Em Er] Hinv. apply (sync_inv_frame db); rewrite ?Eu, ?Em, ?Eo; try done; by destruct Hinv.
Qed.

(** Changing when users were disabled changes no subject. *)
Lemma alter_user_subjects f i db :
  (∀ u, u_clerk_user_id (f u) = u_clerk_user_id u) → sync_inv sha256 db →
  ∀ j k u v, alter f i (users db) !! j = Some u → alter f i (users db) !! k = Some v →
    u_clerk_user_id u = u_clerk_user_id v → j = k.
Proof.
  intros Hf Hinv j k u v Hj Hk E.
  assert (∀ j u, alter f i (users db) !! j = Some u →
    ∃ u0, users db !! j = Some u0 ∧ u_clerk_user_id u = u_clerk_user_id u0) as Hback.
  { clear -Hf. intros j u Hj. destruct (decide (i = j)) as [<-|Hn].
    - rewrite lookup_alter, decide_True in Hj by done. apply fmap_Some in Hj as (u0 & Hu0 & ->). eauto.
    - rewrite lookup_alter_ne in Hj by done. eauto. }
  destruct (Hback j u Hj) as (u0 & Hj0 & Eu), (Hback k v Hk) as (v0 & Hk0 & Ev).
  apply (si_subjects _ _ Hinv j k u0 v0); congruence.
Qed.

Lemma alter_user_some f i (us : gmap string UserRow) j : is_Some (us !! j) → is_Some (alter f i us !! j).
Proof.
  intros [u Hu]. destruct (decide (i = j)) as [<-|Hn].
  - rewrite lookup_alter, decide_True, Hu by done. by eexists.
  - rewrite lookup_alter_ne, Hu by done. by eexists.
Qed.

Lemma revoke_user_subjects now user db : subjects (revoke_user_dependents now user db) = subjects db.
Proof. unfold revoke_user_dependents. by case_match. Qed.

Lemma disable_user_sync now user db : sync_inv sha256 db → sync_inv sha256 (disable_user now user db).
Proof.
  intros Hinv. unfold disable_user. eapply sync_inv_standing; [apply revoke_user_subjects|].
  apply (sync_inv_frame db); try done.
  - intros i. apply alter_user_some.
  - by apply (alter_user_subjects _ _ db).
  - apply Hinv.
Qed.

Lemma enable_user_sync user db : sync_inv sha256 db → sync_inv sha256 (enable_user user db).
Proof.
  intros Hinv. apply (sync_inv_frame db); try done.
  - intros i. apply alter_user_some.
  - by apply (alter_user_subjects _ _ db).
  - apply Hinv.
Qed.

Lemma alter_organization_sync f i db db' :
  subjects db' = subjects (db <| organizations ::= alter f i |>) → sync_inv sha256 db → sync_inv sha256 db'.
Proof.
  intros [= Eu Eo _ Em Er] Hinv. apply (sync_inv_frame db); rewrite ?Eu, ?Em, ?Eo; try done; try by destruct Hinv.
  intros o [x Hx]. apply (si_uuid _ _ Hinv). destruct (decide (i = o)) as [<-|Hn].
  - rewrite lookup_alter, decide_True in Hx by done. apply fmap_Some in Hx as (y & Hy & _). eauto.
  - rewrite lookup_alter_ne in Hx by done. eauto.
Qed.

(** ** Accepting an event *)

Lemma validateSyncInput_Ok i version :
  validateSyncInput i = Ok version →
  sy_provider i = "clerk" ∧ sy_event_type i ∈ syncEventTypes ∧
  membershipEvent (sy_event_type i) = truthy (sy_organization_id i) ∧
  (sy_event_type i = "membership.upserted" → is_Some (sy_role i)) ∧ 1 <= version.
Proof.
  unfold validateSyncInput. destruct (negb (String.eqb (sy_provider i) _)) eqn:E1; [done|].
  destruct (negb (test _ _) || _); [done|].
  destruct (safe_between _ _ _) as [v|] eqn:Ev; [|done]. apply safe_between_Some in Ev as (_ & _ & Hv).
  destruct (negb (test _ _)); [done|]. destruct (negb (string_in _ _)) eqn:E2; [done|].
  destruct (negb (Bool.eqb _ _)) eqn:E3; [done|]. destruct (truthy _ && _); [done|]. bool_simp.
  apply string_in_spec in E2. apply Bool.eqb_prop in E3.
  destruct (String.eqb_spec (sy_event_type i) "membership.upserted") as [Et|Et].
  - destruct (sy_role i); [|done]. destruct (negb _); [done|]. intros [= ->]. split_and!; try done; eauto. lia.
  - destruct (bool_decide _); [done|]. intros [= ->]. split_and!; try done. lia.
Qed.

(** What an applied event does to the memberships. *)
Lemma apply_event_members now i user db changed db' :
  sy_event_type i ∈ syncEventTypes →
  membershipEvent (sy_event_type i) = truthy (sy_organization_id i) →
  (sy_event_type i = "membership.upserted" → is_Some (sy_role i)) →
  apply_event now i user db = (changed, db') →
  receipts db' = receipts db ∧ organizations db' = organizations db ∧
  (∀ j, is_Some (users db !! j) → is_Some (users db' !! j)) ∧
  (sync_inv sha256 db → ∀ j k u v, users db' !! j = Some u → users db' !! k = Some v →
     u_clerk_user_id u = u_clerk_user_id v → j = k) ∧
  ∀ key, members db' !! key =
    if bool_decide (membershipEvent (sy_event_type i) = true ∧ (λ o, (uuid_text o, user)) <$> sy_organization_id i = Some key)
    then (if String.eqb (sy_event_type i) "membership.upserted" then sy_role i else None)
    else members db !! key.
Proof.
  intros Ht Hm Hr. unfold apply_event.
  destruct (string_in _ _) eqn:Es.
  { assert (membershipEvent (sy_event_type i) = false) as ->.
    { apply string_in_spec in Es. unfold membershipEvent. set_unfold in Es. by destruct Es as [->|[->|[]]]. }
    destruct (users db !! user) as [u|] eqn:Eu.
    - destruct (bool_decide (u_disabled_at u = None)); intros [= _ <-].
      + assert (subjects (disable_user now user db) =
          subjects (db <| users ::= alter (λ u, u <| u_disabled_at := Some now |>) user |>)) as [= E1 E0 _ E2 E3]
          by apply revoke_user_subjects.
        rewrite E1, E0, E2, E3. split_and!; [done|done|intros j; apply alter_user_some| |].
        * intros Hinv. by apply (alter_user_subjects _ _ db).
        * intros key. by rewrite bool_decide_eq_false_2 by naive_solver.
      + split_and!; [done..|by intros []|]. intros key. by rewrite bool_decide_eq_false_2 by naive_solver.
    - intros [= _ <-]. split_and!; [done..|by intros []|]. intros key. by rewrite bool_decide_eq_false_2 by naive_solver. }
  assert (membershipEvent (sy_event_type i) = true) as Hme.
  { unfold syncEventTypes in Ht. set_unfold in Ht. by destruct Ht as [Ht|[Ht|[Ht|[Ht|[]]]]]; rewrite Ht in *. }
  rewrite Hme in *. destruct (sy_organization_id i) as [o|]; [|done]. simpl.
  destruct (String.eqb_spec (sy_event_type i) "membership.upserted") as [Eu|Eu].
  - destruct (Hr Eu) as [role Er]. rewrite Er. destruct (bool_decide (members db !! _ = Some role)) eqn:Ec;
      intros [= _ <-]; bool_simp; (split_and!; [done..|by intros []|]); intros key.
    + case_bool_decide as Hk; [|done]. destruct Hk as [_ [= <-]]. done.
    + simpl. case_bool_decide as Hk.
      * destruct Hk as [_ [= <-]]. by rewrite lookup_insert, decide_True.
      * rewrite lookup_insert_ne; [done|naive_solver].
  - destruct (members db !! (uuid_text o, user)) as [role|] eqn:Em; intros [= _ <-];
      (split_and!; [done..|by intros []|]); intros key; simpl.
    + case_bool_decide as Hk.
      * destruct Hk as [_ [= <-]]. by rewrite lookup_delete, decide_True.
      * rewrite lookup_delete_ne; [done|naive_solver].
    + case_bool_decide as Hk; [|done]. by destruct Hk as [_ [= <-]].
Qed.

(** An event that passed validation, for a target that is there, and the receipt
    the code is about to add. *)
Section acceptance.
Context (now : Z) (i : SyncInput) (version : Z) (c : LifecycleContext) (user : string) (db : IdentityDb).

Let stream := syncStreamHash sha256 i user.
Let own := List.filter (in_stream (sy_provider i) stream) (receipts db).

Context (changed : bool) (r : ReceiptRow).
Hypothesis Hr : r = receipt i version (syncPayloadHash sha256 i version c) stream user (negb (stale own version)) changed.
Hypothesis Hval : validateSyncInput i = Ok version.
Hypothesis Hinv : sync_inv sha256 db.
Hypothesis Huser : is_Some (users db !! user).
Hypothesis Htarget : target_missing db i = false.
Hypothesis Hversion : existsb (λ r, rc_source_version r =? version) own = false.
Hypothesis Horganization : ∀ o, sy_organization_id i = Some o → truthy (sy_organization_id i) = true.

Lemma accepted_fresh r0 : r0 ∈ receipts db → same_stream r0 r → rc_source_version r0 ≠ version.
Proof using Hr Hversion.
  intros H0 [E1 E2] Ev. subst r.
  assert (r0 ∈ own) as Hown by (apply own_spec; split_and!; done).
  pose proof (existsb_false_forall _ _ Hversion r0 Hown) as Hf. simpl in Hf. bool_simp. done.
Qed.

Lemma accepted_key : membership_key r = (λ o, (uuid_text o, user)) <$> sy_organization_id i.
Proof using Hr. clear -Hr. subst r. unfold membership_key. simpl. by destruct (sy_organization_id i). Qed.

Lemma accepted_well_formed : receipt_well_formed sha256 db r.
Proof using Hr Hval Hinv Huser Htarget Horganization.
  apply validateSyncInput_Ok in Hval as (Hp & Ht & Hm & Hrole & _). subst r. split; simpl; auto.
  - rewrite Hm. destruct (sy_organization_id i) as [o|] eqn:Eo; simpl; [by apply (Horganization o)|done].
  - intros o' E. apply fmap_Some in E as (o & Eo & ->). unfold stream, syncStreamHash, target.
    by rewrite (Horganization o Eo), Eo.
  - intros E. unfold stream, syncStreamHash, target. by destruct (sy_organization_id i).
  - intros o' E. apply fmap_Some in E as (o & Eo & ->). apply (si_uuid _ _ Hinv). revert Htarget.
    unfold target_missing, target. rewrite (Horganization o Eo), Eo. intros E. by bool_simp.
Qed.

(** What the event does, unless a newer one of its stream came before. *)
Lemma accepted_effect db2 :
  (if stale own version then (false, db) else apply_event now i user db) = (changed, db2) →
  receipts db2 = receipts db ∧ organizations db2 = organizations db ∧
  (∀ j, is_Some (users db !! j) → is_Some (users db2 !! j)) ∧
  (∀ j k u v, users db2 !! j = Some u → users db2 !! k = Some v → u_clerk_user_id u = u_clerk_user_id v → j = k) ∧
  ∀ key, members db2 !! key =
    if bool_decide (stale own version = false ∧ membership_key r = Some key) then membership_effect r else members db !! key.
Proof using Hr Hval Hinv Horganization digest lookup drawn.
  rewrite accepted_key. apply validateSyncInput_Ok in Hval as (Hp & Ht & Hm & Hrole & _).
  intros Happ. destruct (stale own version) eqn:Est.
  - injection Happ as _ <-. split_and!; [done..|by destruct Hinv|]. intros key.
    by rewrite bool_decide_eq_false_2 by naive_solver.
  - apply apply_event_members in Happ as (E1 & E0 & E2 & E3 & E4); [|done..]. split_and!; [done..|by apply E3|].
    intros key. rewrite E4, Hr. unfold membership_effect. simpl.
    match goal with |- (if bool_decide ?P then _ else _) = (if bool_decide ?Q then _ else _) =>
      assert (P ↔ Q) as Hiff end.
    { split; [by intros [_ ?]|]. intros [_ E]. split; [|done]. apply fmap_Some in E as (o & Eo & _).
      rewrite Hm. by apply (Horganization o). }
    by rewrite (bool_decide_ext _ _ Hiff).
Qed.

(** A receipt about the same membership is of the same stream. *)
Lemma accepted_same_stream r0 key :
  r0 ∈ receipts db → membership_key r0 = Some key → membership_key r = Some key → same_stream r0 r.
Proof using Hr Hval Hinv Horganization.
  intros Hin Hkey Ekr. apply validateSyncInput_Ok in Hval as (Hp & _). subst r.
  destruct (si_receipt _ _ Hinv r0 Hin). split; [by rewrite rw_provider0|]. simpl.
  unfold membership_key in Hkey, Ekr. simpl in Ekr.
  destruct (rc_organization_id r0) as [o0|] eqn:E0; [|done]. injection Hkey as <-.
  destruct (sy_organization_id i) as [o|] eqn:Eo; [|done]. injection Ekr as Eoo Euu.
  rewrite (rw_stream0 o0 eq_refl). unfold stream, syncStreamHash, target, sync_stream.
  rewrite Eo, (Horganization o eq_refl), <- Eoo, <- Euu, rw_provider0, Hp. done.
Qed.

(** The newest receipt of a stream still says what the membership is. *)
Lemma accepted_newest r0 key :
  newest_of_stream (receipts db ++ [r]) r0 → membership_key r0 = Some key →
  (if bool_decide (stale own version = false ∧ membership_key r = Some key)
   then membership_effect r else members db !! key) = membership_effect r0.
Proof using Hr Hval Hinv Hversion Horganization.
  intros [Hin Hmax] Hkey. apply elem_of_app in Hin as [Hin|Hin].
  - assert (members db !! key = membership_effect r0) as Hold.
    { apply (si_newest _ _ Hinv); [|done]. split; [done|]. intros r' Hr'. apply Hmax, elem_of_app. by left. }
    destruct (bool_decide _) eqn:Ed; [|done]. apply bool_decide_eq_true in Ed as [Ens Ekr].
    pose proof (accepted_same_stream r0 key Hin Hkey Ekr) as Hss.
    (* the accepted version is newer than every one of its stream *)
    pose proof (Hmax r ltac:(apply elem_of_app; right; by apply list_elem_of_singleton)
      ltac:(destruct Hss; by split)) as Hle. pose proof (accepted_fresh r0 Hin Hss). subst r. simpl in Hle.
    assert (stale own version = true) as Hst; [|congruence].
    apply stale_spec. exists r0. split; [|lia]. apply own_spec. destruct Hss; split_and!; done.
  - apply list_elem_of_singleton in Hin as ->. destruct (stale own version) eqn:Est.
    + apply stale_spec in Est as (r' & (Hr' & Hp' & Hs')%own_spec & Hlt).
      pose proof (Hmax r' ltac:(apply elem_of_app; by left) ltac:(subst r; by split)) as Hle. subst r. simpl in Hle. lia.
    + by rewrite bool_decide_eq_true_2.
Qed.
End acceptance.

(** A receipt that was accepted keeps the invariant, with its effect when it is
    not stale. *)
Lemma accept_sync now i version c user u changed db db2 db' :
  validateSyncInput i = Ok version → sync_inv sha256 db → users db !! user = Some u → target_missing db i = false →
  let stream := syncStreamHash sha256 i user in
  let own := List.filter (in_stream (sy_provider i) stream) (receipts db) in
  existsb (λ r, rc_source_version r =? version) own = false →
  (if stale own version then (false, db) else apply_event now i user db) = (changed, db2) →
  insert_receipt (receipt i version (syncPayloadHash sha256 i version c) stream user
                    (negb (stale own version)) changed) db2 = Ok (tt, db') →
  sync_inv sha256 db'.
Proof.
  intros Hval Hinv Hu Htm stream own Hver Happ Hins.
  remember (receipt _ _ _ _ _ _ _) as r eqn:Hr in Hins. apply insert_receipt_Ok in Hins as (-> & Hempty & He & Hv).
  assert (∀ o, sy_organization_id i = Some o → truthy (sy_organization_id i) = true) as Htr.
  { intros o Eo. rewrite Eo. simpl. apply negb_true_iff, String.eqb_neq. intros ->.
    apply Hempty. rewrite Hr. simpl. by rewrite Eo. }
  assert (is_Some (users db !! user)) as Hus by eauto.
  destruct (accepted_effect _ _ _ _ _ _ _ _ Hr Hval Hinv Htr _ Happ) as (Er & Eorg & Eu & Es & Em).
  pose proof (accepted_well_formed _ _ _ _ _ _ _ Hr Hval Hinv Hus Htm Htr) as Hwf.
  split; simpl; rewrite ?Er, ?Eorg; [done|apply Hinv| | | |].
  - intros r0 [H0|E0]%elem_of_app; [destruct (si_receipt _ _ Hinv r0 H0)|]; [split; auto|].
    apply list_elem_of_singleton in E0 as ->. destruct Hwf; split; auto.
  - rewrite map_app. apply NoDup_app. split_and!; [apply Hinv| |apply NoDup_singleton].
    intros k (r0 & -> & H0)%list_elem_of_fmap Hk. apply list_elem_of_singleton in Hk. injection Hk as E1 E2.
    pose proof (existsb_false_forall _ _ He r0) as Hf. rewrite Er in Hf. specialize (Hf H0).
    unfold event_key in Hf. by rewrite E1, E2, !String.eqb_refl in Hf.
  - rewrite map_app. apply NoDup_app. split_and!; [apply Hinv| |apply NoDup_singleton].
    intros k (r0 & -> & H0)%list_elem_of_fmap Hk. apply list_elem_of_singleton in Hk. injection Hk as E1 E2 E3.
    apply (accepted_fresh _ _ _ _ _ _ _ Hr Hver r0 H0); [by split|]. by rewrite E3, Hr.
  - intros r0 key Hn Hkey. rewrite Em. by apply (accepted_newest _ _ _ _ _ _ _ Hr Hval Hinv Hver Htr).
Qed.

(** ** Every step *)

Theorem step_sync_inv db db' :
  sync_inv sha256 db → identity_step sha256 digest lookup drawn db db' → sync_inv sha256 db'.
Proof.
  intros Hinv Hs.
  assert (∀ db', subjects db' = subjects db → sync_inv sha256 db') as Hsub by (intros; by apply (sync_inv_standing db)).
  assert (∀ db', standing db' = standing db → sync_inv sha256 db') as Hst
    by (intros db1 E; apply (f_equal fst) in E; by apply Hsub).
  destruct Hs.
  - apply insert_Ok in H0 as (row & db1 & Hk & _ & _ & -> & _). apply insert_key_Ok in Hk as (-> & _). by apply Hsub.
  - by eapply Hsub, setDisabled_subjects.
  - by eapply Hsub, rotate_store_subjects.
  - by eapply Hsub, revoke_store_subjects.
  - by apply Hsub.
  - destruct (issue_limits_db lookup source clock db) as [rates ->]. by apply Hsub.
  - destruct (actor_limit_db lookup actor clock db) as [rates ->]. by apply Hsub.
  - by eapply Hst, issue_once_standing.
  - by eapply Hst, decide_device_standing.
  - by eapply Hst, exchange_standing.
  - by eapply Hst, refresh_standing.
  - by eapply Hst, revoke_standing.
  - by eapply Hst, access_standing.
  - by eapply Hst, reap_standing.
  - by eapply Hst, reap_grants_standing.
  - apply set_disabled_db in H as (db1 & f & -> & Hor). apply (sync_inv_standing db1); [done|].
    destruct Hor as [->|[[_ ->]|[_ ->]]]; [done|by apply disable_user_sync|by apply enable_user_sync].
  - apply set_disabled_db in H as (db1 & f & -> & Hor). apply (sync_inv_standing db1); [done|].
    destruct Hor as [->|[[_ ->]|[_ ->]]]; [done|by eapply (alter_organization_sync _ _ db); [reflexivity|]..].
  - apply sync_db in H0 as (db1 & f & -> & Hor). apply (sync_inv_standing db1); [done|].
    destruct Hor as [->|(user & u & changed & db2 & Hu & Htm & _ & Hv & Ha & Hr)]; [done|].
    apply user_of_subject_Some in Hu as [Hu _]. by eapply accept_sync.
  - destruct H. apply (sync_inv_frame db); try done. intros j [u Hu]. exists u. by eapply lookup_weaken.
Qed.

Lemma steps_sync_inv db db' :
  sync_inv sha256 db → rtc (identity_step sha256 digest lookup drawn) db db' → sync_inv sha256 db'.
Proof. intros Hinv Hr. induction Hr as [|db db1 db' Hs _ IH]; [done|]. by eapply IH, step_sync_inv. Qed.
End sync.

(** ** Receipts only accumulate *)

Section receipts.
Context (sha256 digest lookup : string → string) (drawn : string → Prop).

Definition receipts_grow (db db' : IdentityDb) : Prop := ∃ l, receipts db' = receipts db ++ l.

Lemma receipts_same db db' : receipts db' = receipts db → receipts_grow db db'.
Proof. intros E. exists []. by rewrite E, app_nil_r. Qed.

Lemma receipts_standing db db' : standing db' = standing db → receipts_grow db db'.
Proof. intros E. apply receipts_same. exact (f_equal (λ p, sj_receipts p.1) E). Qed.

Lemma receipts_subjects db db' : subjects db' = subjects db → receipts_grow db db'.
Proof. intros E. apply receipts_same. exact (f_equal sj_receipts E). Qed.

Lemma disable_user_receipts now user db : receipts (disable_user now user db) = receipts db.
Proof. unfold disable_user, revoke_user_dependents. by case_match. Qed.

Lemma apply_event_receipts now i user db changed db' :
  apply_event now i user db = (changed, db') → receipts db' = receipts db.
Proof.
  unfold apply_event. destruct (string_in _ _).
  - destruct (users db !! user) as [u|]; [|by intros [= _ <-]].
    case_match; intros [= _ <-]; [apply disable_user_receipts|done].
  - destruct (sy_organization_id i) as [organization|]; [|by intros [= _ <-]].
    destruct (String.eqb _ _); [destruct (sy_role i); [case_match|]|destruct (members db !! _)]; by intros [= _ <-].
Qed.

Lemma step_receipts db db' : identity_step sha256 digest lookup drawn db db' → receipts_grow db db'.
Proof.
  intros Hs. destruct Hs.
  - apply insert_Ok in H0 as (row & db1 & Hk & _ & _ & -> & _). apply insert_key_Ok in Hk as (-> & _).
    by apply receipts_same.
  - by eapply receipts_subjects, setDisabled_subjects.
  - by eapply receipts_subjects, rotate_store_subjects.
  - by eapply receipts_subjects, revoke_store_subjects.
  - by apply receipts_same.
  - destruct (issue_limits_db lookup source clock db) as [rates ->]. by apply receipts_same.
  - destruct (actor_limit_db lookup actor clock db) as [rates ->]. by apply receipts_same.
  - by eapply receipts_standing, issue_once_standing.
  - by eapply receipts_standing, decide_device_standing.
  - by eapply receipts_standing, exchange_standing.
  - by eapply receipts_standing, refresh_standing.
  - by eapply receipts_standing, revoke_standing.
  - by eapply receipts_standing, access_standing.
  - by eapply receipts_standing, reap_standing.
  - by eapply receipts_standing, reap_grants_standing.
  - apply set_disabled_db in H as (db1 & f & -> & Hor). apply receipts_same. simpl.
    destruct Hor as [->|[[_ ->]|[_ ->]]]; [done|apply disable_user_receipts|done].
  - apply set_disabled_db in H as (db1 & f & -> & Hor). apply receipts_same.
    by destruct Hor as [->|[[_ ->]|[_ ->]]].
  - apply sync_db in H0 as (db1 & f & -> & Hor).
    destruct Hor as [->|(user & u & changed & db2 & _ & _ & _ & _ & Ha & Hr)]; [by apply receipts_same|].
    apply insert_receipt_Ok in Hr as (-> & _). eexists. simpl. f_equal.
    destruct (stale _ version); [by injection Ha as _ <-|by eapply apply_event_receipts].
  - apply receipts_same, (pv_receipts _ _ H).
Qed.

Lemma steps_receipts db db' : rtc (identity_step sha256 digest lookup drawn) db db' → receipts_grow db db'.
Proof.
  intros Hr. induction Hr as [|db db1 db' Hs _ [l E]]; [by apply receipts_same|].
  destruct (step_receipts db db1 Hs) as [l' E']. exists (l' ++ l). by rewrite E, E', app_assoc.
Qed.
End receipts.
