(* ===== verification/IdentityProcedures.v ===== *)
(** * Reachable identity tables

    The states the transactions of [IdentityStep] reach from tables without
    credentials, and what an authentication read in them; the file ends with a
    concrete deployment.  The theorems are in [LoginTheorems], [KeyTheorems] and
    [SyncTheorems]. *)

From S2P Require Import Prelude Text Js Capacity Identity ApiKeys Device DeviceTokens.
From S2P Require Import IdentityLifecycle LoginMachine IdentityStep KeyMachine.
From S2P Require Import SyncMachine.

(** ** Reachable states *)

(** A deployment as it is provisioned: no credentials and no receipts yet. *)
Record identity_start (db : IdentityDb) : Prop := {
  is_logins : logins db = mkLogins ∅ ∅ ∅ ∅;
  is_keys : api_keys db = ∅;
  is_receipts : receipts db = [];
  is_subjects i j u v :
    users db !! i = Some u → users db !! j = Some v → u_clerk_user_id u = u_clerk_user_id v → i = j;
  (** a [uuid] column prints 36 characters *)
  is_uuid o : is_Some (organizations db !! o) → String.length o = 36%nat
}.

Section reachable.
Context (sha256 digest lookup : string → string).

(** Any identifier may be drawn. *)
Definition anything (_ : string) : Prop := True.
(** Any identifier but one. *)
Definition not_again (id x : string) : Prop := x ≠ id.

Abbreviation steps drawn := (rtc (identity_step sha256 digest lookup drawn)).

Definition identity_reachable (db : IdentityDb) : Prop :=
  ∃ db0, identity_start db0 ∧ steps anything db0 db.

Lemma step_weaken (drawn drawn' : string → Prop) db db' :
  (∀ x, drawn x → drawn' x) → identity_step sha256 digest lookup drawn db db' →
  identity_step sha256 digest lookup drawn' db db'.
Proof.
  intros Hd Hs. destruct Hs;
    [eapply st_insert_key|eapply st_disable_key|eapply st_rotate_key|eapply st_revoke_key|eapply st_touch_key
    |eapply st_issue_limits|eapply st_actor_limit|eapply st_issue|eapply st_decide|eapply st_exchange
    |eapply st_refresh|eapply st_revoke|eapply st_access|eapply st_reap|eapply st_reap_grants|eapply st_user
    |eapply st_organization|eapply st_sync|eapply st_provision]; eauto.
Qed.

Lemma steps_weaken (drawn drawn' : string → Prop) db db' :
  (∀ x, drawn x → drawn' x) → steps drawn db db' → steps drawn' db db'.
Proof. intros Hd Hr. induction Hr as [|db db1 db' Hs _ IH]; [done|]. eapply rtc_l; [by eapply step_weaken|done]. Qed.

Lemma reachable_steps drawn db db' : identity_reachable db → steps drawn db db' → identity_reachable db'.
Proof.
  intros (db0 & Hs & Hr) Hr'. exists db0. split; [done|]. etrans; [done|]. by eapply steps_weaken.
Qed.

Lemma start_logins db : identity_start db → login_inv (logins db).
Proof. intros [-> _ _ _ _]. apply login_inv_empty. Qed.

Lemma reachable_logins db : identity_reachable db → login_inv (logins db).
Proof. intros (db0 & Hs & Hr). by eapply steps_moves; [apply start_logins|]. Qed.

Lemma reachable_keys db : identity_reachable db → key_inv (api_keys db).
Proof.
  intros (db0 & [_ Hk _ _ _] & Hr). eapply steps_keys; [|exact Hr]. rewrite Hk. apply key_inv_empty.
Qed.

Lemma reachable_sync db : identity_reachable db → sync_inv sha256 db.
Proof.
  intros (db0 & [_ _ Hr0 Hs Hu] & Hr). eapply steps_sync_inv; [|exact Hr].
  split; rewrite ?Hr0; simpl; try done; try apply NoDup_nil_2.
  - by intros r ?%elem_of_nil.
  - by intros r key [?%elem_of_nil _].
Qed.

(** ** Reading an authentication *)

(** The login an access token stands for, as the tables have it. *)
Record live_login (clock : Z) (db : IdentityDb) (t : AccessTokenRow) (f : FamilyRow) (user role : string) : Prop := {
  ll_token : access_live clock (t, f) = true;
  ll_approver : approver db f = Some user;
  ll_user : ∃ u, users db !! user = Some u ∧ u_disabled_at u = None;
  ll_organization : organizations db !! fm_organization_id f = Some None;
  ll_role : members db !! (fm_organization_id f, user) = Some role;
  ll_permits : ∀ s, s ∈ at_scopes t → rolePermits role s = true
}.

Lemma identityPermits_spec db user organization scopes :
  identityPermits db user organization scopes = true →
  ∃ u role, users db !! user = Some u ∧ u_disabled_at u = None ∧ organizations db !! organization = Some None ∧
    members db !! (organization, user) = Some role ∧ ∀ s, s ∈ scopes → rolePermits role s = true.
Proof.
  unfold identityPermits, live_role, organization_enabled. destruct (users db !! user) as [u|]; [|done].
  destruct (bool_decide _) eqn:Eu; [|done]. destruct (organizations db !! organization) as [[|]|]; try done.
  simpl. destruct (members db !! _) as [role|]; [|done]. intros H. bool_simp. exists u, role. split_and!; try done.
  intros s Hs. rewrite forallb_forall in H. by apply H, list_elem_of_In.
Qed.

Lemma access_tx_Some clock now raw id event cx db p db' :
  access_tx sha256 digest clock now raw id event cx db = Ok (Some p, db') →
  ∃ t f user role, access_of db (uuid_text id) = Some (t, f) ∧ equalDigest digest (Some (at_token_hash t)) raw = true ∧
    live_login clock db t f user role ∧ p = device_principal id t.
Proof.
  unfold access_tx. destruct (access_of db (uuid_text id)) as [[t f]|]; [|done].
  destruct (negb (access_live clock (t, f))) eqn:El; [done|]. destruct (approver db f) as [user|] eqn:Ea; [|done].
  destruct (negb (equalDigest _ _ _)) eqn:Ed; [done|].
  destruct (negb (identityPermits _ _ _ _)) eqn:Ei; [intros; by tx_simp|]. intros [= <- _]. bool_simp.
  apply identityPermits_spec in Ei as (u & role & Hu & Hn & Ho & Hm & Hs).
  exists t, f, user, role. split_and!; try done. split; eauto.
Qed.

Lemma authenticateAccess_Some raw c db p db' :
  authenticateAccess sha256 digest raw c db = (Ok (Some p), db') →
  ∃ id, tokenId raw "access" = Some id ∧
    access_tx sha256 digest (tc_clock c) (tc_now c) raw id (td_event (tc_draw c)) (tc_context c) (tc_before c db)
      = Ok (Some p, db').
Proof.
  unfold authenticateAccess. destruct (tokenId raw "access") as [id|]; [|done].
  destruct (negb _); [done|]. intros H. apply transaction_atomic in H as [(x & [= <-] & H)|(e & ? & _)]; [|done].
  eauto.
Qed.

Lemma ended_refuses clock fid db t f : ended fid (logins db) → families db !! fid = Some f → access_live clock (t, f) = false.
Proof.
  intros He Hf. unfold access_live, family_live. destruct (He f Hf) as [r Hr]. simpl. rewrite Hr.
  rewrite (bool_decide_eq_false_2 (Some r = None)) by done. simpl. by rewrite andb_false_r.
Qed.

(** No credential of an ended family authenticates or refreshes. *)
Lemma ended_family_refused fid db :
  ended fid (logins db) →
  (∀ clock now raw id event cx p db',
     access_tx sha256 digest clock now raw id event cx db = Ok (Some p, db') → pr_device_family_id p ≠ Some fid) ∧
  (∀ clock now id d cx response db' t,
     refresh_tx sha256 digest clock now id d cx db = Ok (TokenIssued response, db') →
     refresh_tokens db !! id = Some t → rt_family_id t ≠ fid).
Proof.
  intros He. split.
  - intros clock now raw id event cx p db' H. apply access_tx_Some in H as (t & f & user & role & Ha & _ & Hl & ->).
    apply access_of_Some in Ha as [_ Hf]. simpl. intros [= E]. rewrite E in Hf.
    pose proof (ended_refuses clock fid db t f He Hf) as Hd. by rewrite (ll_token _ _ _ _ _ _ Hl) in Hd.
  - intros clock now id d cx response db' t H Ht E. unfold refresh_tx in H.
    destruct (refresh_of db id) as [[t' f]|] eqn:Er; [|done]. apply refresh_of_Some in Er as [Ht' Hf].
    assert (t' = t) as -> by congruence. rewrite E in Hf.
    assert (refresh_live clock (t, f) = false) as Hl.
    { unfold refresh_live, family_live. destruct (He f Hf) as [r Hr]. simpl. rewrite Hr.
      rewrite (bool_decide_eq_false_2 (Some r = None)) by done. simpl. by rewrite andb_false_r. }
    by rewrite Hl in H.
Qed.
End reachable.

(** * The services move the tables by steps

    Every method of the API-key, device and lifecycle services, whatever it answers
    and whatever others commit between its statements, changes the tables only by
    transactions of [IdentityStep]. *)

Section procedures.
Context (sha256 digest lookup : string → string) (drawn : string → Prop).

Abbreviation steps := (rtc (identity_step sha256 digest lookup drawn)).

(** What others do between the statements of a call is steps as well. *)
Definition by_steps (f : IdentityDb → IdentityDb) : Prop := ∀ db, steps db (f db).

Lemma id_by_steps : by_steps (λ db, db).
Proof. intros db. reflexivity. Qed.

Lemma transaction_steps {A} (m : IdTx A) db :
  (∀ a db', m db = Ok (a, db') → steps db db') → steps db (transaction m db).2.
Proof.
  intros Hm. unfold transaction. destruct (m db) as [[a db']|e] eqn:E; simpl; [by eapply Hm|done].
Qed.

Lemma issue_limits_steps source clock db : steps db (consumeIssueRateLimits lookup source clock db).2.
Proof. apply rtc_once, st_issue_limits. Qed.

Lemma validScopes_spec scopes l : validScopes scopes = Some l → Forall (λ s, s ∈ apiKeyScopes) l.
Proof.
  unfold validScopes. destruct (_ || _); [done|]. revert l. induction scopes as [|x scopes IH]; cbn [foldr].
  - intros l [= <-]. constructor.
  - intros l. destruct x; try done. destruct (foldr _ _ scopes) as [l'|]; [|done].
    destruct (string_in s apiKeyScopes) eqn:E; [|done]. intros [= <-]. constructor; [by apply string_in_spec|auto].
Qed.

Lemma unique_scopes_valid l :
  Forall (λ s, s ∈ apiKeyScopes) l → Forall (λ s, s ∈ apiKeyScopes) (uniqueScopes l).
Proof.
  rewrite !Forall_forall. intros Hl s Hs. apply Hl.
  destruct (new_Set_spec [] l) as (_ & Hspec & _). by apply Hspec in Hs as [? _].
Qed.

Lemma issue_loop_steps clock clientId scopes cx draws db :
  Forall (λ s, s ∈ apiKeyScopes) scopes → Forall (λ d, by_steps (dd_others d)) draws →
  steps db (issue_loop sha256 digest lookup clock clientId scopes cx draws db).2.
Proof.
  intros Hs Hd. revert db. induction Hd as [|d draws Ho Hrest IH]; intros db; simpl; [done|].
  pose proof (transaction_steps (issue_once sha256 digest lookup clock clientId scopes cx d) (dd_others d db)) as Ht.
  destruct (transaction _ _) as [r db1]. simpl in Ht.
  assert (steps db db1) as Hdb.
  { etrans; [apply Ho|]. apply Ht. intros [] db' E. by eapply rtc_once, st_issue. }
  destruct r as [[]|e]; [done|]. destruct e; try done. destruct draws; [done|]. etrans; [exact Hdb|]. apply IH.
Qed.


Theorem issue_steps clock input draws db :
  Forall (λ d, by_steps (dd_others d)) draws →
  steps db (issue sha256 digest lookup clock input draws db).2.
Proof.
  intros Hd. unfold issue. pose proof (issue_limits_steps (ii_source input) clock db) as Hl.
  destruct (consumeIssueRateLimits _ _ _ _) as [[[]|e] db1]; [|done]. simpl in Hl.
  destruct (negb _); [done|]. destruct (validScopes _) as [scopes|] eqn:Es; [|done].
  etrans; [exact Hl|]. apply issue_loop_steps; [by eapply unique_scopes_valid, validScopes_spec|].
  by apply Forall_take.
Qed.

Lemma actor_limit_steps actor clock db : steps db (consumeActorRateLimit lookup actor clock db).2.
Proof. apply rtc_once, st_actor_limit. Qed.

Theorem inspect_steps clock code actor db : steps db (inspect lookup clock code actor db).2.
Proof.
  unfold inspect. pose proof (actor_limit_steps actor clock db) as Hl.
  destruct (consumeActorRateLimit _ _ _ _) as [[[]|e] db1]; [|done]. by destruct (normalizeUserCode code).
Qed.

Theorem authorize_steps clock event input during db :
  by_steps during → steps db (authorize sha256 lookup clock event input during db).2.
Proof.
  intros Hd. unfold authorize. pose proof (actor_limit_steps (az_clerk_user_id input) clock db) as Hl.
  destruct (consumeActorRateLimit _ _ _ _) as [[[]|e] db1]; [|done]. simpl in Hl.
  destruct (normalizeUserCode _); [|done]. destruct (negb _); [done|]. destruct (_ && _); [done|].
  etrans; [exact Hl|]. etrans; [apply Hd|]. apply transaction_steps. intros [] db' E. by eapply rtc_once, st_decide.
Qed.

Theorem exchange_steps code c db :
  by_steps (tc_before c) → by_steps (tc_during c) → drawn (td_family_id (tc_draw c)) →
  steps db (exchange sha256 digest code c db).2.
Proof.
  intros Hb Hd Hf. unfold exchange. destruct (tokenId code "device") as [id|]; [|done].
  destruct (negb _); [done|]. cbv zeta.
  destruct (transaction (exchange_tx _ _ _ _ _ _ _) _) as [r db1] eqn:Et.
  apply (f_equal snd) in Et. simpl in *. rewrite <- Et. etrans; [apply Hb|]. etrans; [apply Hd|].
  apply transaction_steps. intros o db' E. by eapply rtc_once, st_exchange.
Qed.

Theorem refresh_steps raw c db : by_steps (tc_before c) → steps db (refresh sha256 digest raw c db).2.
Proof.
  intros Hb. unfold refresh. destruct (tokenId raw "refresh") as [id|]; [|done].
  destruct (presented _ _ _ _) as [[]|e]; [|done].
  destruct (transaction (refresh_tx _ _ _ _ _ _ _) _) as [r db1] eqn:Et.
  apply (f_equal snd) in Et. simpl in *. rewrite <- Et. etrans; [apply Hb|].
  apply transaction_steps. intros o db' E. by eapply rtc_once, st_refresh.
Qed.

Theorem revoke_steps raw c db : by_steps (tc_before c) → steps db (revoke sha256 digest raw c db).2.
Proof.
  intros Hb. unfold revoke. destruct (tokenId raw "refresh") as [id|]; [|done]. cbv zeta.
  destruct (negb _); [done|]. etrans; [apply Hb|].
  apply transaction_steps. intros o db' E. by eapply rtc_once, st_revoke.
Qed.

Theorem authenticateAccess_steps raw c db :
  by_steps (tc_before c) → steps db (authenticateAccess sha256 digest raw c db).2.
Proof.
  intros Hb. unfold authenticateAccess. destruct (tokenId raw "access") as [id|]; [|done]. cbv zeta.
  destruct (negb _); [done|]. etrans; [apply Hb|].
  apply transaction_steps. intros o db' E. by eapply rtc_once, st_access.
Qed.

(** ** API keys *)

Lemma allocate_steps {A} environment attempts (store : Attempt → Credential → string → IdTx A) db :
  Forall (λ t, by_steps (am_others t)) attempts →
  (∀ t c hash db a db', store t c hash db = Ok (a, db') → steps db db') →
  steps db (allocate environment attempts store db).2.
Proof.
  intros Ha Hs. revert db. induction Ha as [|t attempts Ho Hrest IH]; intros db; simpl; [done|].
  destruct (credential _ _ _) as [c|e]; [|done]. destruct (am_hash t) as [hash|e]; [|done].
  pose proof (transaction_steps (store t c hash) (am_others t db)) as Ht.
  destruct (transaction _ _) as [r db1]. simpl in Ht.
  assert (steps db db1) as Hdb by (etrans; [apply Ho|]; apply Ht; intros a db' E; by eapply Hs).
  destruct r as [a|e]; [done|]. destruct e; try done. etrans; [exact Hdb|]. apply IH.
Qed.

Lemma validateCreate_scopes clock input :
  validateCreate clock input = None → Forall (λ s, s ∈ apiKeyScopes) (ck_scopes input).
Proof.
  unfold validateCreate. destruct (_ || _); [done|]. destruct (_ || existsb _ _) eqn:E; [done|]. intros _. bool_simp.
  rewrite Forall_forall. intros s Hs.
  match goal with H : existsb _ _ = false |- _ => apply (existsb_false_forall _ _) with (x := s) in H; [|done] end.
  bool_simp. by apply string_in_spec.
Qed.

Theorem create_steps environment clock input cx attempts db :
  Forall (λ t, by_steps (am_others t)) attempts →
  steps db (create sha256 environment clock input cx attempts db).2.
Proof.
  intros Ha. unfold create. destruct (validateCreate clock input) eqn:Ev; [done|].
  apply validateCreate_scopes in Ev.
  destruct (allocate _ _ _ db) as [r db1] eqn:Et. apply (f_equal snd) in Et. simpl in *. rewrite <- Et.
  apply allocate_steps; [by apply Forall_take|].
  intros t c hash db0 [] db' E. eapply rtc_once, st_insert_key; [|exact E]. by apply unique_scopes_valid.
Qed.

Theorem rotate_steps environment id organization actor cx attempts db :
  Forall (λ t, by_steps (am_others t)) attempts →
  steps db (rotate sha256 environment id organization actor cx attempts db).2.
Proof.
  intros Ha. unfold rotate.
  destruct (allocate _ _ _ db) as [r db1] eqn:Et. apply (f_equal snd) in Et. simpl in *. rewrite <- Et.
  apply allocate_steps; [by apply Forall_take|]. intros t c hash db0 b db' E. by eapply rtc_once, st_rotate_key.
Qed.

(** ** Lifecycle *)

Theorem setUserDisabled_steps now id disabled c d db : steps db (setUserDisabled sha256 now id disabled c d db).2.
Proof.
  unfold setUserDisabled, validated. destruct (validateContext c); [done|].
  destruct (transaction _ db) as [r db1] eqn:Et. apply (f_equal snd) in Et. simpl in *. rewrite <- Et.
  apply transaction_steps. intros o db' E. by eapply rtc_once, st_user.
Qed.

Theorem setOrganizationDisabled_steps now id disabled c d db :
  steps db (setOrganizationDisabled sha256 now id disabled c d db).2.
Proof.
  unfold setOrganizationDisabled, validated. destruct (validateContext c); [done|].
  destruct (transaction _ db) as [r db1] eqn:Et. apply (f_equal snd) in Et. simpl in *. rewrite <- Et.
  apply transaction_steps. intros o db' E. by eapply rtc_once, st_organization.
Qed.

Theorem syncIdentityProvider_steps now i c d db : steps db (syncIdentityProvider sha256 now i c d db).2.
Proof.
  unfold syncIdentityProvider, validated. destruct (validateContext c); [done|].
  destruct (validateSyncInput i) as [version|] eqn:Ev; [|done].
  destruct (transaction _ db) as [r db1] eqn:Et. apply (f_equal snd) in Et. simpl in *. rewrite <- Et.
  apply transaction_steps. intros o db' E. by eapply rtc_once, st_sync.
Qed.
End procedures.

(** * A concrete deployment

    One organization with a project, its owner and an operator, a device login that
    was issued, approved and exchanged, and the calls the witnesses of the identity
    theorems make.  Digests are readable: the last 32 characters of a token. *)

Definition demo_sha (s : string) : string := s.
Definition demo_lookup (s : string) : string := s.
Definition demo_digest (s : string) : string := substring (String.length s - 32) 32 s.

Definition organization1 : string := "0a000000-0000-4000-8000-000000000001".
Definition operator1 : string := "0a000000-0000-4000-8000-000000000002".
Definition project1 : string := "0b000000-0000-4000-8000-000000000001".
Definition user1 : string := "0c000000-0000-4000-8000-000000000001".
Definition user2 : string := "0c000000-0000-4000-8000-000000000002".

Definition empty_identity : IdentityDb := mkIdentityDb ∅ ∅ ∅ ∅ ∅ ∅ ∅ ∅ ∅ ∅ ∅ ∅ [] [].

Definition demo_db : IdentityDb :=
  empty_identity
    <| users := {[ user1 := mkUser "user_ada" None; user2 := mkUser "user_bob" None ]} |>
    <| organizations := {[ organization1 := None; operator1 := None ]} |>
    <| projects := {[ project1 := organization1 ]} |>
    <| members := {[ (organization1, user1) := "owner"; (operator1, user2) := "admin" ]} |>
    <| operators := {[ operator1 ]} |>.

Definition demo_context : RequestContext := mkContext None None.
Definition demo_operator : LifecycleContext :=
  mkLifecycleContext "user" "user_bob" (Some operator1) "incident" None None.

(** 43 characters, the last of which tells secrets apart. *)
Definition demo_secret (s : string) : string := "abcdefghijklmnopqrstuvwxyzABCDEFGHIJKLMNOP" +:+ s.

Definition demo_draw (n event : string) : TokenDraw :=
  mkTokenDraw ("1a000000-0000-4000-8000-00000000000" +:+ n) (demo_secret ("a"))
    ("1b000000-0000-4000-8000-00000000000" +:+ n) (demo_secret n) "1f000000-0000-4000-8000-000000000001" event.

(** A call at an instant, with no interference. *)
Definition demo_call (clock : Z) (n event : string) : TokenCall :=
  mkTokenCall clock clock (demo_draw n event) demo_context (λ db, db) (λ db, db).

Definition demo_device : string := "1d000000-0000-4000-8000-000000000001".
Definition demo_code : string := opaqueToken "device" demo_device (demo_secret "d").

Definition demo_issued : IdentityDb :=
  (issue demo_sha demo_digest demo_lookup 0
     (mkIssue "nehemiah-cli" [JStr "machines:read"; JStr "machines:write"] "10.0.0.1" demo_context)
     [mkDraw demo_device (demo_secret "d") "ABCDEFGH" "e1" (λ db, db)] demo_db).2.

Definition demo_approved : IdentityDb :=
  (authorize demo_sha demo_lookup 1000 "e2"
     (mkAuthorize "abcd-efgh" "approve" organization1 (Some project1) (Some [JStr "machines:read"]) "user_ada"
        demo_context) (λ db, db) demo_issued).2.

Definition demo_exchanged : IdentityDb :=
  (exchange demo_sha demo_digest demo_code (demo_call 6000 "1" "e3") demo_approved).2.

(** Ten minutes later the refresh token is rotated. *)
Definition demo_refreshed : IdentityDb :=
  (refresh demo_sha demo_digest (refreshToken (demo_draw "1" "e3")) (demo_call 700000 "2" "e4") demo_exchanged).2.

Definition demo_disable (clock : Z) (disabled : bool) (event : string) (db : IdentityDb) : IdentityDb :=
  (setUserDisabled demo_sha clock user1 disabled demo_operator (mkAuditDraw event event) db).2.

(** ** The states are reachable *)

Abbreviation demo_reachable := (identity_reachable demo_sha demo_digest demo_lookup).

Lemma demo_start : identity_start demo_db.
Proof.
  split; try done.
  - intros i j u v Hi Hj. unfold demo_db in Hi, Hj. simpl in Hi, Hj.
    apply lookup_insert_Some in Hi as [[<- <-]|[_ Hi]]; apply lookup_insert_Some in Hj as [[<- <-]|[_ Hj]]; [done| | |];
      rewrite ?lookup_singleton_Some in *; naive_solver.
  - intros o [x Ho]. unfold demo_db in Ho. simpl in Ho. 
    by apply lookup_insert_Some in Ho as [[<- _]|[_ [<- _]%lookup_singleton_Some]].
Qed.

Lemma demo_issued_reachable : demo_reachable demo_issued.
Proof.
  exists demo_db. split; [exact demo_start|]. unfold demo_issued. apply issue_steps. by repeat constructor.
Qed.

Lemma demo_approved_reachable : demo_reachable demo_approved.
Proof.
  apply (reachable_steps _ _ _ anything demo_issued); [exact demo_issued_reachable|].
  apply authorize_steps, id_by_steps.
Qed.

Lemma demo_exchanged_reachable : demo_reachable demo_exchanged.
Proof.
  apply (reachable_steps _ _ _ anything demo_approved); [exact demo_approved_reachable|].
  apply exchange_steps; [apply id_by_steps|apply id_by_steps|done].
Qed.

Lemma demo_refreshed_reachable : demo_reachable demo_refreshed.
Proof.
  apply (reachable_steps _ _ _ anything demo_exchanged); [exact demo_exchanged_reachable|].
  apply refresh_steps, id_by_steps.
Qed.

Definition demo_family : string := "1f000000-0000-4000-8000-000000000001".

Definition demo_authenticated : result IdError (option ApiKeyPrincipal) * IdentityDb :=
  authenticateAccess demo_sha demo_digest (accessToken (demo_draw "2" "e4")) (demo_call 700001 "9" "e5")
    demo_refreshed.

Definition demo_principal : ApiKeyPrincipal :=
  mkPrincipal "device-access:1a000000-0000-4000-8000-000000000002" (Some demo_family) organization1
    (Some project1) ["machines:read"].

Lemma demo_login_works : demo_authenticated.1 = Ok (Some demo_principal).
Proof. vm_compute. reflexivity. Qed.
