(* ===== verification/LoginTheorems.v ===== *)
(** * What holds of device logins *)

From S2P Require Import Prelude Text Js Capacity Identity ApiKeys Device DeviceTokens.
From S2P Require Import IdentityLifecycle LoginMachine IdentityStep KeyMachine.
From S2P Require Import SyncMachine IdentityProcedures.

Section logins.
Context (sha256 digest lookup : string → string).

Abbreviation reachable := (identity_reachable sha256 digest lookup).
Abbreviation steps drawn := (rtc (identity_step sha256 digest lookup drawn)).

(** C19: In every reachable state a family of tokens belongs to one consumed code,
    alone, with exactly the tenant and the scopes its user approved, which the
    device asked for; at most one refresh token of a family is unused; and an
    access token carries its family's authority and no longer life. *)
Theorem logins_within_authority db :
  reachable db →
  (∀ i f, families db !! i = Some f →
     ∃ d, devices db !! fm_device_authorization_id f = Some d ∧ family_of f d ∧
       scopes_within (fm_scopes f) (dv_requested_scopes d) ∧ scopes_within (dv_requested_scopes d) apiKeyScopes) ∧
  (∀ i j f g, families db !! i = Some f → families db !! j = Some g →
     fm_device_authorization_id f = fm_device_authorization_id g → i = j) ∧
  (∀ i j t u, refresh_tokens db !! i = Some t → refresh_tokens db !! j = Some u →
     rt_family_id t = rt_family_id u → rt_used_at t = None → rt_used_at u = None → i = j) ∧
  (∀ i a, access_tokens db !! i = Some a →
     ∃ f, families db !! at_family_id a = Some f ∧ access_within a f).
Proof.
  intros Hr. pose proof (reachable_logins _ _ _ db Hr) as Hinv. split_and!.
  - intros i f Hf. destruct (li_family _ Hinv i f Hf) as (d & Hd & Hof). exists d. split_and!; [done..| |].
    + by apply (li_approved _ Hinv _ d _ Hd), fo_scopes.
    + by apply (li_request _ Hinv _ d Hd).
  - apply (li_one_family _ Hinv).
  - intros i j t u Ht Hu E Hnt Hnu. apply (li_generation _ Hinv i j t u Ht Hu E).
    pose proof (li_newest _ Hinv i j t u Ht Hu E Hnt). pose proof (li_newest _ Hinv j i u t Hu Ht (eq_sym E) Hnu). lia.
  - apply (li_access _ Hinv).
Qed.

(** Whoever authenticates with an access token holds the token of a live
    login: unexpired and unrevoked with its family, approved by a user who is
    enabled in an enabled organization and whose role now permits every scope; and
    the principal has the tenant and scopes that user approved. *)
Theorem access_authenticates_live_login raw c db p db' :
  reachable (tc_before c db) → authenticateAccess sha256 digest raw c db = (Ok (Some p), db') →
  ∃ id t f d user role,
    tokenId raw "access" = Some id ∧ access_of (tc_before c db) (uuid_text id) = Some (t, f) ∧
    equalDigest digest (Some (at_token_hash t)) raw = true ∧
    live_login (tc_clock c) (tc_before c db) t f user role ∧
    devices (tc_before c db) !! fm_device_authorization_id f = Some d ∧ dv_approved_by d = Some user ∧
    pr_device_family_id p = Some (at_family_id t) ∧ Some (pr_organization_id p) = dv_organization_id d ∧
    pr_project_id p = dv_project_id d ∧
    (∀ s, s ∈ pr_scopes p ↔ ∃ l, dv_approved_scopes d = Some l ∧ s ∈ l).
Proof.
  intros Hr H. apply authenticateAccess_Some in H as (id & Hid & H).
  apply access_tx_Some in H as (t & f & user & role & Ha & Hd & Hl & ->).
  pose proof (reachable_logins _ _ _ _ Hr) as Hinv. apply access_of_Some in Ha as Hrows. destruct Hrows as [Ht Hf].
  destruct (li_family _ Hinv _ f Hf) as (d & Hdev & []). destruct (li_access _ Hinv _ t Ht) as (f' & Hf' & []).
  simpl in Hf', Hdev. assert (f' = f) as -> by congruence.
  exists id, t, f, d, user, role. split_and!; try done.
  - destruct Hl as [_ Hap _ _ _ _]. unfold approver in Hap. rewrite Hdev in Hap. simpl in Hap.
    destruct (dv_approved_by d) as [u|]; simpl in Hap; [|done]. by case_match.
  - rewrite fo_organization. simpl. by f_equal.
  - rewrite fo_project. simpl. by f_equal.
  - intros s. rewrite fo_scopes. simpl. rewrite aw_scopes. destruct (new_Set_spec [] (fm_scopes f)) as (_ & -> & _).
    split; [intros [Hs _]; by exists (fm_scopes f)|]. intros (l & [= <-] & Hs). split; [done|apply not_elem_of_nil].
Qed.

(** ** Ending a login *)

(** What no later step undoes: the credentials of the family are refused. *)
Definition login_over (fid : string) (db : IdentityDb) : Prop :=
  ∀ db', steps (not_again fid) db db' →
    (∀ clock now raw id event cx p db2,
       access_tx sha256 digest clock now raw id event cx db' = Ok (Some p, db2) → pr_device_family_id p ≠ Some fid) ∧
    (∀ clock now id d cx response db2 t,
       refresh_tx sha256 digest clock now id d cx db' = Ok (TokenIssued response, db2) →
       refresh_tokens db' !! id = Some t → rt_family_id t ≠ fid).

Lemma ended_is_over fid db : login_inv (logins db) → ended fid (logins db) → login_over fid db.
Proof.
  intros Hinv He db' Hr. apply ended_family_refused.
  apply steps_moves in Hr as [_ Hm]; [|done]. eapply ended_stays; [|exact Hm|done]. by intros [].
Qed.

Lemma with_family_lookup id f db i :
  families (with_family id f db) !! i = if bool_decide (id = i) then f <$> families db !! i else families db !! i.
Proof.
  unfold with_family. simpl. case_bool_decide as E.
  - subst. by rewrite lookup_alter, decide_True.
  - by rewrite lookup_alter_ne.
Qed.

Lemma reused_family_revoked clock f : is_Some (fm_revoked_at (reused_family clock f)).
Proof. unfold reused_family, revoke_family, coalesce. destruct f as [??????[|]?]; by eexists. Qed.

Lemma end_family_ended clock now fid f mark db :
  (∀ g, is_Some (fm_revoked_at (mark g))) → ended fid (logins (end_family clock now fid f mark db)).
Proof.
  intros Hm g Hg. unfold end_family in Hg. rewrite logins_grants in Hg. simpl in Hg.
  rewrite lookup_alter, decide_True in Hg by done. by apply fmap_Some in Hg as (? & _ & ->).
Qed.

Lemma fresh_audit a db :
  has_key au_event_key (au_event_key a) (audit_log db) = false →
  insert_audit a db = Ok (tt, db <| audit_log ::= λ l, l ++ [a] |>).
Proof. unfold insert_audit. by intros ->. Qed.

(** The transaction that finds the presented token used. *)
Lemma refresh_tx_reuse clock now id d cx db t f user :
  refresh_of db id = Some (t, f) → refresh_live clock (t, f) = true → approver db f = Some user →
  is_Some (rt_used_at t) → has_key au_event_key ("device-auth:" +:+ td_event d) (audit_log db) = false →
  ∃ db', refresh_tx sha256 digest clock now id d cx db = Ok (TokenRefused "refresh_reuse_detected" None, db') ∧
    ended (rt_family_id t) (logins db').
Proof.
  intros Hr Hl Ha Hu Hk. unfold refresh_tx. rewrite Hr, Hl, Ha. simpl.
  rewrite (bool_decide_eq_true_2 _ Hu). unfold modify.
  set (db1 := end_family clock now (rt_family_id t) f (reused_family clock) db).
  assert (ended (rt_family_id t) (logins db1)) as He by apply end_family_ended, reused_family_revoked.
  destruct (bool_decide (fm_reuse_detected_at f = None)).
  - unfold mbind, tx_bind. rewrite fresh_audit; [|exact Hk]. eexists. split; [reflexivity|exact He].
  - eexists. split; [reflexivity|exact He].
Qed.

(** C18: Presenting a refresh token that was already used is answered with the
    detected reuse and ends the whole login for good: whatever happens later, no
    access token of the family authenticates and none of its refresh tokens is
    exchanged again. *)
Theorem refresh_reuse_ends_login raw c db id t f user :
  reachable db → steps anything db (tc_before c db) →
  tokenId raw "refresh" = Some id → presented digest (tc_clock c) raw (refresh_of db (uuid_text id)) = Ok tt →
  refresh_of (tc_before c db) (uuid_text id) = Some (t, f) → refresh_live (tc_clock c) (t, f) = true →
  approver (tc_before c db) f = Some user → is_Some (rt_used_at t) →
  has_key au_event_key ("device-auth:" +:+ td_event (tc_draw c)) (audit_log (tc_before c db)) = false →
  ∃ db', refresh sha256 digest raw c db = (Err reuseDetected, db') ∧ login_over (rt_family_id t) db'.
Proof.
  intros Hr Hs Hid Hp Hof Hl Ha Hu Hk. unfold refresh. rewrite Hid, Hp.
  destruct (refresh_tx_reuse (tc_clock c) (tc_now c) (uuid_text id) (tc_draw c) (tc_context c) (tc_before c db) t f user)
    as (db' & Htx & He); [done..|].
  exists db'. unfold transaction. rewrite Htx. split; [done|]. apply ended_is_over; [|done].
  eapply step_login_inv; [|by eapply (st_refresh sha256 digest lookup anything)].
  by eapply (reachable_logins sha256 digest lookup), reachable_steps.
Qed.

(** ** Disabling a user *)

Lemma set_user_changed now id c d db st db' :
  set_disabled_tx sha256 "user" user_disabled_at (disable_user now) enable_user now id true c d db
    = Ok (Settled (Some st), db') → ls_changed st = true →
  is_Some (users db !! uuid_text id) ∧ logins db' = logins (disable_user now (uuid_text id) db).
Proof.
  unfold set_disabled_tx. destruct (negb _); [intros; by tx_simp|].
  destruct (user_disabled_at db (uuid_text id)) as [current|] eqn:Eu; [|intros; by tx_simp].
  destruct (switched true current); intros H Hc; tx_simp; audit_done; subst; [|done]. split; [|done].
  unfold user_disabled_at in Eu. by destruct (users db !! uuid_text id).
Qed.

Lemma disable_user_ends now user db fid f :
  is_Some (users db !! user) → families db !! fid = Some f → approved_by db user f = true →
  ended fid (logins (disable_user now user db)).
Proof.
  intros [u Hu] Hf Ha. unfold disable_user, revoke_user_dependents. simpl.
  rewrite lookup_alter, decide_True, Hu by done. simpl. intros g Hg. simpl in Hg.
  rewrite lookup_fmap, Hf in Hg. simpl in Hg. unfold approved_by in *. simpl in Hg. rewrite Ha in Hg.
  injection Hg as <-. apply revoke_family_revoked.
Qed.

(** Disabling a user ends every login that user approved and that is in the
    tables, for good: enabling the user again, or anything else, brings none of
    them back. *)
Theorem disabled_user_loses_logins now id c d db st db' fid f :
  reachable db → setUserDisabled sha256 now id true c d db = (Ok (Some st), db') → ls_changed st = true →
  families db !! fid = Some f → approved_by db (uuid_text id) f = true → login_over fid db'.
Proof.
  intros Hr H Hc Hf Ha. unfold setUserDisabled, validated in H. destruct (validateContext c); [done|].
  destruct (transaction _ db) as [r db1] eqn:Et. injection H as Hres <-.
  apply transaction_atomic in Et as [(o & -> & Htx)|(e & -> & _)]; [|done].
  destruct o as [e|o]; [done|]. injection Hres as ->.
  destruct (set_user_changed _ _ _ _ _ _ _ Htx Hc) as [Hu El].
  apply ended_is_over; [|rewrite El; by eapply disable_user_ends].
  eapply step_login_inv; [by apply (reachable_logins sha256 digest lookup)|by eapply (st_user sha256 digest lookup anything)].
Qed.

(** ** A login that outlives the disabling of its user *)

(** The rows of an exchange that succeeded. *)
Lemma exchange_tx_Issued clock id t cx seen db response db' :
  exchange_tx sha256 digest clock id t cx seen db = Ok (TokenIssued response, db') →
  ∃ d organization project user scopes,
    devices db !! id = Some d ∧ dv_approved_by d = Some user ∧
    dv_organization_id d = Some organization ∧ dv_project_id d = Some project ∧ dv_approved_scopes d = Some scopes ∧
    identityPermits seen user organization scopes = true ∧
    families db' !! td_family_id t = Some (new_family clock id organization project scopes) ∧
    devices db' !! id = Some (consumed_device clock d) ∧ standing db' = standing db.
Proof.
  intros Htx. pose proof (exchange_standing _ _ _ _ _ _ _ _ _ _ Htx) as Hst. revert Htx.
  unfold exchange_tx. destruct (devices db !! id) as [d|] eqn:Hd; [|done].
  destruct (dv_expires_at d <=? clock); [done|].
  destruct (dv_status d); [by case_match| |done..].
  destruct (dv_organization_id d) as [organization|] eqn:Eo; [|done].
  destruct (dv_project_id d) as [project|] eqn:Ep; [|done].
  destruct (dv_approved_by d) as [user|] eqn:Eu; [|done]. destruct (dv_approved_scopes d) as [scopes|] eqn:Es; [|done].
  destruct (identityPermits seen user organization scopes) eqn:Ei; [|intros; by tx_simp].
  unfold found_family. intros H. tx_simp. audit_done.
  match goal with H : insert_family _ _ _ = Ok _ |- _ => apply insert_family_Ok in H as (Hf & -> & Hfree) end.
  match goal with H : insert_refresh_token _ _ _ = Ok _ |- _ => apply insert_refresh_token_Ok in H as (Hr & ->) end.
  match goal with H : insert_access_token _ _ _ = Ok _ |- _ => apply insert_access_token_Ok in H as (Ha & ->) end.
  exists d, organization, project, user, scopes. split_and!; try done; simpl.
  - by rewrite lookup_insert, decide_True.
  - by rewrite lookup_alter, decide_True, Hd.
Qed.

(** C39: An exchange reads the approver's membership without a lock.  When the
    approver is disabled between that read and the commit, the exchange still
    succeeds and leaves a family that nothing revoked, of a disabled user. *)
Theorem exchange_races_disable code c db response db' id d user u :
  exchange sha256 digest code c db = (Ok response, db') → tokenId code "device" = Some id →
  devices (tc_during c (tc_before c db)) !! uuid_text id = Some d → dv_approved_by d = Some user →
  users (tc_during c (tc_before c db)) !! user = Some u → is_Some (u_disabled_at u) →
  users db' !! user = Some u ∧
  ∃ f, families db' !! td_family_id (tc_draw c) = Some f ∧ family_live (tc_clock c) f = true ∧
    approved_by db' user f = true.
Proof.
  unfold exchange. intros H Hid Hd Hap Hu Hdis. rewrite Hid in H.
  destruct (negb _); [done|]. cbv zeta in H. destruct (transaction _ _) as [r db1] eqn:Et.
  injection H as Hr <-. apply transaction_atomic in Et as [(o & -> & Htx)|(e & -> & _)]; [|done].
  destruct o as [refused seconds|issued]; [done|].
  apply exchange_tx_Issued in Htx as (d' & o & p & user' & scopes & Hd' & Hap' & _ & _ & _ & _ & Hf & Hc & Hst).
  assert (d' = d) as -> by congruence. assert (user' = user) as -> by congruence.
  injection Hst as -> _ _ _ _ _. split; [done|]. eexists. split; [exact Hf|]. split.
  - unfold family_live. simpl. apply Z.ltb_lt. unfold REFRESH_LIFETIME_MS. lia.
  - unfold approved_by. simpl. rewrite Hc. simpl. rewrite Hap. by apply bool_decide_eq_true.
Qed.
End logins.

(** ** Witnesses *)

Lemma logins_within_authority_witness :
  is_Some (families demo_refreshed !! demo_family) ∧
  (∀ i a, access_tokens demo_refreshed !! i = Some a →
     ∃ f, families demo_refreshed !! at_family_id a = Some f ∧ access_within a f).
Proof.
  split; [vm_compute; by eexists|].
  apply (logins_within_authority demo_sha demo_digest demo_lookup demo_refreshed demo_refreshed_reachable).
Defined.

Lemma access_authenticates_live_login_witness :
  ∃ d, (∃ i, devices demo_refreshed !! i = Some d) ∧ dv_approved_by d = Some user1 ∧
    ∃ l, dv_approved_scopes d = Some l ∧ "machines:read" ∈ l.
Proof.
  destruct demo_authenticated as [r db'] eqn:E. pose proof demo_login_works as Hp. rewrite E in Hp.
  simpl in Hp. subst r.
  destruct (access_authenticates_live_login demo_sha demo_digest demo_lookup
              (accessToken (demo_draw "2" "e4")) (demo_call 700001 "9" "e5") demo_refreshed demo_principal db'
              demo_refreshed_reachable E) as (id & t & f & d & user & role & Hid & Ha & _ & Hl & Hd & Hap & _ & _ & _ & Hs).
  exists d. split; [by eexists|]. split; [|apply Hs; vm_compute; by left].
  rewrite Hap. destruct Hl as [_ Hap' _ _ _ _]. vm_compute in Hid. injection Hid as <-.
  vm_compute in Ha. injection Ha as <- <-. vm_compute in Hap'. by injection Hap' as <-.
Defined.

Lemma refresh_reuse_ends_login_witness :
  ∃ db', refresh demo_sha demo_digest (refreshToken (demo_draw "1" "e3")) (demo_call 800000 "3" "e6") demo_refreshed
           = (Err reuseDetected, db') ∧
    login_over demo_sha demo_digest demo_lookup demo_family db'.
Proof.
  destruct (refresh_of demo_refreshed "1b000000-0000-4000-8000-000000000001") as [[t f]|] eqn:E;
    [|exfalso; vm_compute in E; done].
  assert (rt_family_id t = demo_family ∧ is_Some (rt_used_at t) ∧
    refresh_live 800000 (t, f) = true ∧ approver demo_refreshed f = Some user1) as (Ef & Hu & Hl & Ha).
  { vm_compute in E. injection E as <- <-. vm_compute. split_and!; by try eexists. }
  assert (tokenId (refreshToken (demo_draw "1" "e3")) "refresh" = Some "1b000000-0000-4000-8000-000000000001") as Hid
    by (vm_compute; reflexivity).
  assert (presented demo_digest 800000 (refreshToken (demo_draw "1" "e3"))
    (refresh_of demo_refreshed (uuid_text "1b000000-0000-4000-8000-000000000001")) = Ok tt) as Hp
    by (vm_compute; reflexivity).
  assert (has_key au_event_key "device-auth:e6" (audit_log demo_refreshed) = false) as Hk by (vm_compute; reflexivity).
  rewrite <- Ef.
  exact (refresh_reuse_ends_login demo_sha demo_digest demo_lookup (refreshToken (demo_draw "1" "e3"))
    (demo_call 800000 "3" "e6") demo_refreshed _ t f user1 demo_refreshed_reachable (rtc_refl _ _) Hid Hp E Hl Ha Hu Hk).
Defined.

Lemma disabled_user_loses_logins_witness :
  login_over demo_sha demo_digest demo_lookup demo_family
    (demo_disable 900000 true "e7" demo_refreshed).
Proof.
  destruct (setUserDisabled demo_sha 900000 user1 true demo_operator (mkAuditDraw "e7" "e7") demo_refreshed)
    as [r db'] eqn:E.
  destruct (families demo_refreshed !! demo_family) as [f|] eqn:Ef;
    [|exfalso; vm_compute in Ef; done].
  assert (∃ st, r = Ok (Some st) ∧ ls_changed st = true) as (st & -> & Hc).
  { apply (f_equal fst) in E. vm_compute in E. rewrite <- E. eexists. split; [reflexivity|done]. }
  assert (approved_by demo_refreshed (uuid_text user1) f = true) as Ha
    by (vm_compute in Ef; injection Ef as <-; vm_compute; reflexivity).
  unfold demo_disable. rewrite E.
  exact (disabled_user_loses_logins demo_sha demo_digest demo_lookup 900000 user1 demo_operator
           (mkAuditDraw "e7" "e7") demo_refreshed st db' demo_family f demo_refreshed_reachable E Hc Ef Ha).
Defined.

(** The user is disabled while the exchange runs; once enabled again, the access
    token the exchange handed out authenticates. *)
Lemma exchange_races_disable_witness :
  let call := mkTokenCall 6000 6000 (demo_draw "1" "e3") demo_context (λ db, db) (demo_disable 6001 true "e8") in
  let db' := (exchange demo_sha demo_digest demo_code call demo_approved).2 in
  (∃ f, families db' !! demo_family = Some f ∧ family_live 6000 f = true ∧
     approved_by db' user1 f = true) ∧
  userEnabled db' "user_ada" = false ∧
  match (authenticateAccess demo_sha demo_digest (accessToken (demo_draw "1" "e3")) (demo_call 8000 "9" "e9")
          (demo_disable 7000 false "e10" db')).1 with Ok (Some _) => True | _ => False end.
Proof.
  intros call db'. split; [|split; vm_compute; done].
  destruct (exchange demo_sha demo_digest demo_code call demo_approved) as [[response|e] db1] eqn:E;
    [|exfalso; apply (f_equal fst) in E; vm_compute in E; done].
  destruct (devices (demo_disable 6001 true "e8" demo_approved) !! demo_device) as [d|] eqn:Ed;
    [|exfalso; vm_compute in Ed; done].
  destruct (users (demo_disable 6001 true "e8" demo_approved) !! user1) as [u|] eqn:Eu;
    [|exfalso; vm_compute in Eu; done].
  assert (tokenId demo_code "device" = Some demo_device) as Hid by (vm_compute; reflexivity).
  assert (dv_approved_by d = Some user1) as Hap by (vm_compute in Ed; injection Ed as <-; reflexivity).
  assert (is_Some (u_disabled_at u)) as Hu by (vm_compute in Eu; injection Eu as <-; by eexists).
  assert (db' = db1) as -> by (unfold db'; first [by rewrite E|done]).
  exact (proj2 (exchange_races_disable demo_sha demo_digest demo_code call demo_approved response db1 demo_device
    d user1 u E Hid Ed Hap Eu Hu)).
Defined.
