(* ===== verification/KeyTheorems.v ===== *)
(** * What holds of API keys *)

From S2P Require Import Prelude Text Js Capacity Identity ApiKeys Device DeviceTokens.
From S2P Require Import IdentityLifecycle LoginMachine IdentityStep KeyMachine.
From S2P Require Import SyncMachine IdentityProcedures.

Section keys.
Context (sha256 digest lookup : string → string).

Abbreviation reachable := (identity_reachable sha256 digest lookup).
Abbreviation steps := (rtc (identity_step sha256 digest lookup anything)).

(** In every reachable state an organization has at most 64 keys that are not
    revoked and 4096 in all, a project 16 and 1024; no two keys share a public
    prefix; and every key has known scopes only. *)
Theorem api_key_quotas_hold db organization project :
  reachable db →
  count_keys (λ k, of_organization organization k && unrevoked k) (api_keys db) <= 64 ∧
  count_keys (of_organization organization) (api_keys db) <= 4096 ∧
  count_keys (λ k, of_project organization project k && unrevoked k) (api_keys db) <= 16 ∧
  count_keys (of_project organization project) (api_keys db) <= 1024 ∧
  (∀ i j k k', api_keys db !! i = Some k → api_keys db !! j = Some k' → ak_prefix k = ak_prefix k' → i = j) ∧
  (∀ i k, api_keys db !! i = Some k → ∀ s, s ∈ ak_scopes k → s ∈ apiKeyScopes).
Proof.
  intros Hr. destruct (reachable_keys _ _ _ db Hr). split_and!; try done.
  intros i k Hk s Hs. specialize (ki_scopes i k Hk). rewrite Forall_forall in ki_scopes. auto.
Qed.

(** ** Authenticating *)

Lemma findByPrefix_Some db prefix id k disabled :
  findByPrefix db prefix = Some (id, k, disabled) → api_keys db !! id = Some k ∧ ak_prefix k = prefix.
Proof.
  unfold findByPrefix. destruct (List.filter _ _) as [|[i r] ps] eqn:E; simpl; [done|].
  destruct (organizations db !! ak_organization_id r); [|done]. intros [= -> -> ->].
  assert (In (id, k) ((id, k) :: ps)) as Hi by by left. rewrite <- E in Hi.
  apply List.filter_In in Hi as [Hi Hs]. apply list_elem_of_In, elem_of_map_to_list in Hi. by bool_simp.
Qed.

Lemma authenticate_Some verifySecret dummy raw a p :
  authenticate verifySecret dummy raw a = Ok (Some p) →
  ∃ prefix id k, parse raw = Some prefix ∧ findByPrefix (an_found a) prefix = Some (id, k, None) ∧
    verifySecret (ak_hash k) raw = true ∧
    isActive (an_now a) (an_active a) id (ak_organization_id k) = true ∧
    match ak_expires_at k with Some e => an_clock a < e | None => True end ∧
    p = mkPrincipal id None (ak_organization_id k) (ak_project_id k) (new_Set [] (ak_scopes k)).
Proof.
  unfold authenticate. destruct (parse raw) as [prefix|]; [|done]. cbv zeta.
  destruct (an_admitted a) as [outcome|]; [|done].
  destruct (findByPrefix (an_found a) prefix) as [[[id k] disabled]|] eqn:Ef; [|done].
  destruct (_ || _) eqn:E; [done|]. intros [= <-]. bool_simp. exists prefix, id, k.
  assert (disabled = None) as -> by (destruct disabled; [by destruct H2|done]).
  split_and!; try done. destruct (ak_expires_at k); [|done]. by apply Z.leb_gt.
Qed.

(** Whoever authenticates with an API key presented a key whose stored hash
    verifies it and which, when its activity was read, was neither revoked,
    disabled nor expired, in an enabled organization; the principal has the tenant
    and the scopes the key has at that moment. *)
Theorem authenticated_key_is_live verifySecret dummy raw a p :
  reachable (an_found a) → steps (an_found a) (an_active a) →
  authenticate verifySecret dummy raw a = Ok (Some p) →
  ∃ k, api_keys (an_active a) !! pr_api_key_id p = Some k ∧ parse raw = Some (ak_prefix k) ∧
    verifySecret (ak_hash k) raw = true ∧ key_active (an_now a) (an_active a) k = true ∧
    pr_organization_id p = ak_organization_id k ∧ pr_project_id p = ak_project_id k ∧
    (∀ s, s ∈ pr_scopes p ↔ s ∈ ak_scopes k) ∧ (∀ s, s ∈ pr_scopes p → s ∈ apiKeyScopes).
Proof.
  intros Hr Hs H. apply authenticate_Some in H as (prefix & id & k & Hp & Hf & Hv & Ha & _ & ->).
  apply findByPrefix_Some in Hf as [Hk <-].
  destruct (steps_keys sha256 digest lookup anything _ _ (reachable_keys _ _ _ _ Hr) Hs) as [_ Hkeep].
  destruct (Hkeep id k Hk) as (k' & Hk' & []). unfold isActive in Ha. rewrite Hk' in Ha. bool_simp.
  destruct (new_Set_spec [] (ak_scopes k)) as (_ & Hset & _).
  exists k'. simpl. split_and!; try done; try congruence.
  - intros s. rewrite Hset, ks_scopes. split; [by intros [? _]|]. intros ?. split; [done|apply not_elem_of_nil].
  - intros s [Hin _]%Hset. pose proof (ki_scopes _ (reachable_keys _ _ _ _ Hr) id k Hk) as Hall.
    rewrite Forall_forall in Hall. auto.
Qed.

Lemma revoke_store_Ok now op id organization actor cx db db' :
  revoke_store sha256 now op id organization actor cx db = Ok (true, db') →
  ∃ k, api_keys db !! uuid_text id = Some k ∧ ak_organization_id k = organization ∧
    api_keys db' !! uuid_text id = Some (k <| ak_revoked_at := coalesce (ak_revoked_at k) (Some now) |>) ∧
    grants db' = grants (revoke_issued now id organization db).
Proof.
  unfold revoke_store. destruct (negb _); [done|].
  destruct (own_key db id organization) as [k|] eqn:Ek; [|done].
  apply own_key_Some in Ek as [Hk Ho]. intros [= <-]. exists k. split_and!; try done. simpl.
  by rewrite lookup_alter, decide_True, Hk.
Qed.

(** The grants a key issued are revoked with it. *)
Lemma revoke_issued_grants now id organization db i g :
  grants (revoke_issued now id organization db) !! i = Some g →
  gr_issuer_type g = "api_key" → gr_issuer_id g = uuid_text id → gr_organization_id g = organization →
  is_Some (gr_revoked_at g).
Proof.
  unfold revoke_issued, revoke_key_grants, revoke_grants. simpl. rewrite !lookup_fmap.
  destruct (grants db !! i) as [g0|]; [|done]. simpl. intros [= <-].
  assert (∀ g, is_Some (gr_revoked_at (revoke_grant now g))) as Hrev.
  { intros [a b c d [r|]]; by eexists. }
  set (p := λ x g, String.eqb (gr_issuer_type g) "api_key" && String.eqb (gr_issuer_id g) x &&
                   String.eqb (gr_organization_id g) organization).
  fold (p (uuid_text id) g0). destruct (p (uuid_text id) g0) eqn:E1.
  - intros _ _ _. case_match; [done|]. apply Hrev.
  - case_match; [intros; apply Hrev|]. intros Et Ei Eo. unfold p in E1. rewrite Et, Ei, Eo in E1.
    by rewrite !String.eqb_refl in E1.
Qed.

(** A revocation is final: every gateway grant the key issued is revoked with
    it, and from its commit on no authentication that reads the key's activity
    later is answered with a principal of that key. *)
Theorem revoked_key_never_authenticates verifySecret dummy now op id organization actor cx db db' :
  reachable db → revoke_store sha256 now op id organization actor cx db = Ok (true, db') →
  (∀ i g, grants db' !! i = Some g → gr_issuer_type g = "api_key" → gr_issuer_id g = uuid_text id →
     gr_organization_id g = organization → is_Some (gr_revoked_at g)) ∧
  (∀ raw a p, steps db' (an_active a) → authenticate verifySecret dummy raw a = Ok (Some p) →
     pr_api_key_id p ≠ uuid_text id).
Proof.
  intros Hr Hrev. apply revoke_store_Ok in Hrev as Hok. destruct Hok as (k & Hk & Ho & Hk' & Hg). split.
  - intros i g Hi. rewrite Hg in Hi. by eapply revoke_issued_grants.
  - intros raw a p Hs Ha E. apply authenticate_Some in Ha as (prefix & id' & k1 & _ & _ & _ & Hact & _ & ->).
    simpl in E. subst id'.
    assert (key_inv (api_keys db')) as Hinv.
    { eapply reachable_keys, (reachable_steps sha256 digest lookup anything db); [done|].
      by eapply rtc_once, st_revoke_key. }
    destruct (steps_keys sha256 digest lookup anything _ _ Hinv Hs) as [_ Hkeep].
    destruct (Hkeep _ _ Hk') as (k2 & Hk2 & Hsame). unfold isActive in Hact. rewrite Hk2 in Hact.
    unfold key_active, unrevoked in Hact. bool_simp.
    destruct (ks_revoked _ _ Hsame) as [r Hr']; [|congruence]. simpl. unfold coalesce.
    destruct (ak_revoked_at k); by eexists.
Qed.

(** ** Rotating *)

(** A rotation revokes the key with every grant it issued and puts in its
    place one key with a new prefix and secret and the same tenant, project,
    scopes and expiry, touching no other key; the number of keys in use does not
    change. *)
Theorem rotation_keeps_authority now op id organization r actor cx db db' :
  rotate_store sha256 now op id organization r actor cx db = Ok (true, db') →
  ∃ k new, api_keys db !! uuid_text id = Some k ∧ key_active now db k = true ∧
    api_keys db' !! uuid_text id = Some (rotated_key now k) ∧ api_keys db' !! rp_id r = Some new ∧
    ak_organization_id new = ak_organization_id k ∧ ak_project_id new = ak_project_id k ∧
    ak_scopes new = ak_scopes k ∧ ak_expires_at new = ak_expires_at k ∧
    ak_prefix new = rp_prefix r ∧ ak_hash new = rp_hash r ∧ ak_revoked_at new = None ∧
    (∀ i, i ≠ uuid_text id → i ≠ rp_id r → api_keys db' !! i = api_keys db !! i) ∧
    (∀ o, count_keys (λ k, of_organization o k && unrevoked k) (api_keys db') =
          count_keys (λ k, of_organization o k && unrevoked k) (api_keys db)) ∧
    (∀ i g, grants db' !! i = Some g → gr_issuer_type g = "api_key" → gr_issuer_id g = uuid_text id →
       gr_organization_id g = organization → is_Some (gr_revoked_at g)).
Proof.
  intros H. apply rotate_store_Ok in H as [[? _]|(k & _ & Hk & Ho & Ha & _ & Hn & _ & Hks & Hg)]; [done|].
  rewrite (alter_as_insert (rotated_key now) _ _ k Hk) in Hn, Hks.
  assert (rp_id r ≠ uuid_text id) as Hne by (intros E; rewrite E, lookup_insert, decide_True in Hn; done).
  exists k. eexists. rewrite Hks. split_and!; [done|done| |by rewrite lookup_insert, decide_True|done..| | |].
  - by rewrite lookup_insert_ne, lookup_insert, decide_True.
  - intros i H1 H2. by rewrite !lookup_insert_ne.
  - intros o. rewrite count_mint by done. unfold count_keys at 1. rewrite (map_sum_insert _ _ _ _ k Hk). fold (count_keys (λ k, of_organization o k && unrevoked k) (api_keys db)).
    unfold key_active in Ha. bool_simp.
    match goal with |- (if of_organization o ?new && unrevoked ?new then _ else _) + _ = _ =>
      assert (of_organization o new = of_organization o k) as -> by (unfold of_organization; by rewrite Ho);
      assert (unrevoked new = true) as -> by done end.
    assert (of_organization o (rotated_key now k) = of_organization o k) as -> by done.
    assert (unrevoked (rotated_key now k) = false) as -> by done.
    assert (unrevoked k = true) as -> by done.
    destruct (of_organization o k); simpl; lia.
  - intros i g Hi. rewrite Hg in Hi. by eapply revoke_issued_grants.
Qed.
End keys.

(** ** Bounded cryptography *)

(** The runs of one [BoundedCryptoAdmission]. *)
Inductive crypto_reachable (limit queue : Z) : CryptoState → Prop :=
| cr_start : crypto_reachable limit queue (mkCrypto 0 [] ∅)
| cr_arrive ticket s s' :
    crypto_reachable limit queue s → ticket ∉ cs_running s → ticket ∉ cs_waiters s →
    crypto_arrive limit queue ticket s = Some s' → crypto_reachable limit queue s'
| cr_finish ticket s :
    crypto_reachable limit queue s → ticket ∈ cs_running s → crypto_reachable limit queue (crypto_finish ticket s).

Record crypto_inv (limit queue : Z) (s : CryptoState) : Prop := {
  ci_active : cs_active s = Z.of_nat (size (cs_running s));
  ci_limit : cs_active s <= limit;
  ci_queue : Z.of_nat (length (cs_waiters s)) <= Z.max 0 queue;
  ci_full : cs_waiters s ≠ [] → cs_active s = limit;
  ci_waiters : NoDup (cs_waiters s);
  ci_disjoint t : t ∈ cs_waiters s → t ∉ cs_running s
}.

Lemma size_remove_add (X : gset nat) x y :
  x ∈ X → y ∉ X → size ({[ y ]} ∪ (X ∖ {[ x ]})) = size X.
Proof.
  intros Hx Hy. rewrite size_union by set_solver. rewrite size_singleton.
  rewrite size_difference by set_solver. rewrite size_singleton.
  assert (size X ≠ 0%nat) by (apply size_non_empty_iff; set_solver). lia.
Qed.

Lemma crypto_reachable_inv limit queue s : 0 <= limit → crypto_reachable limit queue s → crypto_inv limit queue s.
Proof.
  intros Hl Hr. induction Hr as [|ticket s s' _ [] Hrun Hwait Ha|ticket s _ [] Hrun].
  - split; simpl; [done|lia|lia|done|apply NoDup_nil_2|set_solver].
  - unfold crypto_arrive in Ha. destruct (cs_active s <? limit) eqn:E1.
    + injection Ha as <-. bool_simp. split; simpl.
      * rewrite size_union by set_solver. rewrite size_singleton. lia.
      * lia.
      * done.
      * intros Hw. specialize (ci_full0 Hw). lia.
      * done.
      * set_solver.
    + destruct (queue <=? _) eqn:E2; [done|]. injection Ha as <-. bool_simp. split; simpl.
      * done.
      * done.
      * rewrite length_app. simpl. lia.
      * lia.
      * apply NoDup_app. split_and!; [done|set_solver|apply NoDup_singleton].
      * intros t [Ht| ->%list_elem_of_singleton]%elem_of_app; auto.
  - unfold crypto_finish. destruct (cs_waiters s) as [|next waiters] eqn:Ew.
    + assert (size (cs_running s) ≠ 0%nat) by (apply size_non_empty_iff; set_solver).
      split; simpl; [|lia|lia|done|apply NoDup_nil_2|set_solver].
      rewrite size_difference by set_solver. rewrite size_singleton. lia.
    + apply NoDup_cons in ci_waiters0 as [Hn Hnd]. assert (next ∉ cs_running s) as Hnext by (apply ci_disjoint0; by left).
      simpl in ci_queue0. split; simpl.
      * by rewrite size_remove_add.
      * done.
      * lia.
      * intros _. by apply ci_full0.
      * done.
      * intros t Ht. assert (t ≠ next) by congruence. assert (t ∉ cs_running s) by (apply ci_disjoint0; by right). set_solver.
Qed.

(** However requests arrive and settle, the operations that run hold exactly
    the counted slots, never more than the limit; at most the queue's length wait,
    and only while every slot is taken; and a request is turned away only when
    all slots are taken and the queue is full. *)
Theorem crypto_admission_bounded limit queue s :
  0 <= limit → crypto_reachable limit queue s →
  Z.of_nat (size (cs_running s)) = cs_active s ∧ cs_active s <= limit ∧
  Z.of_nat (length (cs_waiters s)) <= Z.max 0 queue ∧ (cs_waiters s ≠ [] → cs_active s = limit) ∧
  (∀ t, crypto_arrive limit queue t s = None → cs_active s = limit ∧ queue <= Z.of_nat (length (cs_waiters s))) ∧
  (∀ t next waiters, t ∈ cs_running s → cs_waiters s = next :: waiters →
     next ∈ cs_running (crypto_finish t s) ∧ cs_waiters (crypto_finish t s) = waiters).
Proof.
  intros Hl Hr. destruct (crypto_reachable_inv limit queue s Hl Hr). split_and!; try done.
  - intros t. unfold crypto_arrive. destruct (cs_active s <? limit) eqn:E1; [done|].
    destruct (queue <=? _) eqn:E2; [|done]. intros _. bool_simp. lia.
  - intros t next waiters Ht Hw. unfold crypto_finish. rewrite Hw. simpl. split; [set_solver|done].
Qed.

(** ** Witnesses *)

Definition demo_material (n : string) : ApiKeyMaterial := mkMaterial ("00000000000" +:+ n) (demo_secret n).
Definition demo_attempt (n : string) : Attempt :=
  mkAttempt ("1e000000-0000-4000-8000-00000000000" +:+ n) (demo_material n) (Ok ("hash" +:+ n)) (λ db, db) 5000 n.
Definition demo_verify (hash raw : string) : bool := String.eqb hash "hash1".

Definition demo_created : IdentityDb :=
  (create demo_sha "live" 5000
     (mkCreateKey organization1 (Some project1) " deploy " ["machines:read"; "machines:read"] None (Some "user_ada"))
     demo_context [demo_attempt "1"] demo_db).2.

Definition demo_key : string := "bc_live_000000000001_" +:+ demo_secret "1".
Definition demo_key_id : string := "1e000000-0000-4000-8000-000000000001".
Definition demo_key_call : Authentication := mkAuthentication demo_created (Some (Ok tt)) demo_created 6000 6000.
Definition demo_key_principal : ApiKeyPrincipal :=
  mkPrincipal demo_key_id None organization1 (Some project1) ["machines:read"].

Lemma demo_created_reachable : demo_reachable demo_created.
Proof.
  apply (reachable_steps _ _ _ anything demo_db); [exists demo_db; split; [exact demo_start|done]|].
  unfold demo_created. apply create_steps. by repeat constructor.
Qed.

Lemma demo_key_works : authenticate demo_verify "none" demo_key demo_key_call = Ok (Some demo_key_principal).
Proof. vm_compute. reflexivity. Qed.

Lemma api_key_quotas_hold_witness :
  count_keys (of_organization organization1) (api_keys demo_created) = 1 ∧
  count_keys (λ k, of_organization organization1 k && unrevoked k) (api_keys demo_created) <= 64.
Proof.
  split; [vm_compute; reflexivity|].
  apply (api_key_quotas_hold demo_sha demo_digest demo_lookup demo_created organization1 project1 demo_created_reachable).
Defined.

Lemma authenticated_key_is_live_witness :
  ∃ k, api_keys demo_created !! demo_key_id = Some k ∧ parse demo_key = Some (ak_prefix k).
Proof.
  destruct (authenticated_key_is_live demo_sha demo_digest demo_lookup demo_verify "none" demo_key demo_key_call
    demo_key_principal demo_created_reachable (rtc_refl _ _) demo_key_works) as (k & Hk & Hp & _).
  exists k. split; [exact Hk|exact Hp].
Defined.

Definition demo_revoked : result IdError (bool * IdentityDb) :=
  revoke_store demo_sha 7000 "r" demo_key_id organization1 (Some "user_ada") demo_context demo_created.

Lemma demo_revoked_Ok : match demo_revoked with Ok (true, _) => True | _ => False end.
Proof. vm_compute. exact I. Qed.

Lemma revoked_key_never_authenticates_witness :
  ∃ db', demo_revoked = Ok (true, db') ∧
    ∀ raw p, authenticate demo_verify "none" raw (mkAuthentication demo_created (Some (Ok tt)) db' 7000 7000) = Ok (Some p) →
      pr_api_key_id p ≠ uuid_text demo_key_id.
Proof.
  pose proof demo_revoked_Ok as Hok. destruct demo_revoked as [[[|] db']|e] eqn:E; try (exfalso; exact Hok).
  exists db'. split; [reflexivity|]. intros raw p.
  exact (proj2 (revoked_key_never_authenticates demo_sha demo_digest demo_lookup demo_verify "none" 7000 "r" demo_key_id
    organization1 (Some "user_ada") demo_context demo_created db' demo_created_reachable E) raw
    (mkAuthentication demo_created (Some (Ok tt)) db' 7000 7000) p (rtc_refl _ _)).
Defined.

Definition demo_rotated : result IdError (bool * IdentityDb) :=
  rotate_store demo_sha 7000 "r" demo_key_id organization1
    (mkReplacement "1e000000-0000-4000-8000-000000000002" "bc_live_000000000002" "hash2") (Some "user_ada")
    demo_context demo_created.

Lemma demo_rotated_Ok : match demo_rotated with Ok (true, _) => True | _ => False end.
Proof. vm_compute. exact I. Qed.

Lemma rotation_keeps_authority_witness :
  ∃ db' new, demo_rotated = Ok (true, db') ∧
    api_keys db' !! "1e000000-0000-4000-8000-000000000002" = Some new ∧ ak_prefix new = "bc_live_000000000002".
Proof.
  pose proof demo_rotated_Ok as Hok. destruct demo_rotated as [[[|] db']|e] eqn:E; try (exfalso; exact Hok).
  destruct (rotation_keeps_authority demo_sha 7000 "r" demo_key_id organization1 _ _ _ _ db' E)
    as (k & new & _ & _ & _ & Hnew & _ & _ & _ & _ & Hp & _).
  exists db', new. split; [reflexivity|]. split; [exact Hnew|exact Hp].
Defined.

Lemma crypto_admission_bounded_witness :
  ∃ s, crypto_reachable 1 1 s ∧ cs_waiters s = [2%nat] ∧ cs_active s = 1 ∧ cs_active s <= 1.
Proof.
  set (s1 := mkCrypto 1 [] ({[ 1%nat ]} ∪ ∅)). set (s2 := mkCrypto 1 [2%nat] ({[ 1%nat ]} ∪ ∅)).
  assert (crypto_reachable 1 1 s1) as H1 
    by (apply (cr_arrive 1 1 1%nat (mkCrypto 0 [] ∅) s1); [constructor|set_solver|set_solver|reflexivity]).
  assert (crypto_reachable 1 1 s2) as H2 
    by (apply (cr_arrive 1 1 2%nat s1 s2); [exact H1|set_solver|set_solver|reflexivity]).
  exists s2. split_and!; [done..|]. apply (crypto_admission_bounded 1 1 s2); [lia|done].
Defined.
