(* ===== verification/SyncTheorems.v ===== *)
(** * What holds of the events of the identity provider *)

From S2P Require Import Prelude Text Js Capacity Identity ApiKeys Device DeviceTokens.
From S2P Require Import IdentityLifecycle LoginMachine IdentityStep KeyMachine.
From S2P Require Import SyncMachine IdentityProcedures.

(** What an accepted event says, whatever it did when it came. *)
Definition receipt_claim (r : ReceiptRow) : ReceiptRow :=
  mkReceiptRow (rc_provider r) (rc_event_id r) (rc_payload_sha256 r) (rc_stream_sha256 r) (rc_source_version r)
    (rc_event_type r) (rc_user_id r) (rc_organization_id r) (rc_role r) false false.

Definition same_events (db db' : IdentityDb) : Prop :=
  ∀ x, x ∈ map receipt_claim (receipts db) ↔ x ∈ map receipt_claim (receipts db').

Lemma same_events_sym db db' : same_events db db' → same_events db' db.
Proof. intros H x. symmetry. apply H. Qed.

Lemma claim_in r l : receipt_claim r ∈ map receipt_claim l → ∃ r', r' ∈ l ∧ receipt_claim r = receipt_claim r'.
Proof. intros (r' & E & Hr')%list_elem_of_fmap. eauto. Qed.

Lemma claim_out r r' :
  receipt_claim r = receipt_claim r' →
  rc_source_version r = rc_source_version r' ∧ membership_effect r = membership_effect r' ∧
  membership_key r = membership_key r' ∧ rc_provider r = rc_provider r' ∧ rc_stream_sha256 r = rc_stream_sha256 r'.
Proof.
  destruct r, r'. unfold receipt_claim, membership_effect, membership_key. simpl. intros [= -> -> -> -> -> -> -> -> ->].
  done.
Qed.

(** The newest event of a stream is the newest wherever the same events came. *)
Lemma newest_elsewhere db db' r r' :
  same_events db db' → newest_of_stream (receipts db) r → r' ∈ receipts db' →
  receipt_claim r = receipt_claim r' → newest_of_stream (receipts db') r'.
Proof.
  intros He [_ Hmax] Hr' Ec. split; [done|]. intros q' Hq' [Ep Es].
  assert (receipt_claim q' ∈ map receipt_claim (receipts db)) as Hq by by apply He, list_elem_of_fmap_2.
  apply claim_in in Hq as (q & Hq & Ecq).
  apply claim_out in Ec as (Ev & _ & _ & Ep1 & Es1). apply claim_out in Ecq as (Evq & _ & _ & Ep2 & Es2).
  rewrite <- Ev, Evq. apply Hmax; [done|]. split; congruence.
Qed.

(** ** Streams *)

Lemma length_list_ascii s : length (list_ascii_of_string s) = String.length s.
Proof. induction s; simpl; congruence. Qed.

Lemma append_inj_r a b x y : a +:+ x = b +:+ y → String.length x = String.length y → a = b ∧ x = y.
Proof.
  intros E Hl. apply (f_equal list_ascii_of_string) in E. rewrite !list_ascii_app in E.
  apply app_inj_2 in E as [E1 E2]; [|by rewrite !length_list_ascii]. by split; apply list_ascii_inj.
Qed.

Lemma append_inj_l a x y : a +:+ x = a +:+ y → x = y.
Proof. induction a; simpl; [done|]. intros [= E]. auto. Qed.

Lemma append_assoc' a b c : (a +:+ b) +:+ c = a +:+ (b +:+ c).
Proof. induction a as [|x a IH]; [done|]. exact (f_equal (String x) IH). Qed.

(** Receipts of one stream are about one membership. *)
Lemma stream_key sha256 db r r' :
  (∀ x y, sha256 x = sha256 y → x = y) → receipt_well_formed sha256 db r → receipt_well_formed sha256 db r' →
  same_stream r r' → membership_key r = membership_key r'.
Proof.
  intros Hsha [] [] [Ep Es]. unfold membership_key.
  destruct (rc_organization_id r) as [o|] eqn:Eo, (rc_organization_id r') as [o'|] eqn:Eo'; simpl; [| | |done].
  - rewrite (rw_stream o eq_refl), (rw_stream0 o' eq_refl), rw_provider, rw_provider0 in Es. apply Hsha in Es.
    do 4 apply append_inj_l in Es.
    assert (rc_user_id r +:+ nul = rc_user_id r' +:+ nul ∧ o = o') as [Eu ->].
    { apply append_inj_r; [by rewrite !append_assoc'|]. by rewrite rw_uuid, rw_uuid0. }
    by apply append_inj_r in Eu as [-> _].
  - rewrite (rw_stream o eq_refl), (rw_user_stream0 eq_refl), rw_provider, rw_provider0 in Es. by apply Hsha in Es.
  - rewrite (rw_user_stream eq_refl), (rw_stream0 o' eq_refl), rw_provider, rw_provider0 in Es. by apply Hsha in Es.
Qed.

Section sync.
Context (sha256 digest lookup : string → string).

Abbreviation reachable := (identity_reachable sha256 digest lookup).
Abbreviation steps drawn := (rtc (identity_step sha256 digest lookup drawn)).

(** ** An event and its receipt *)

(** The receipt an answered event left, or had left before. *)
Record answered (i : SyncInput) (version : Z) (payload : string) (x : SyncResult) (r : ReceiptRow) : Prop := {
  an_provider : rc_provider r = sy_provider i;
  an_event : rc_event_id r = sy_event_id i;
  an_payload : rc_payload_sha256 r = payload;
  an_id : so_event_id x = sy_event_id i;
  an_version : rc_source_version r = so_source_version x;
  an_changed : rc_changed r = so_changed x;
  an_user : rc_user_id r = so_user_id x;
  (** the column prints the organization's uuid in lower case *)
  an_organization : rc_organization_id r = so_organization_id x ∨ rc_organization_id r = uuid_text <$> so_organization_id x
}.

Lemma find_event db r :
  sync_inv sha256 db → r ∈ receipts db → find (event_key (rc_provider r) (rc_event_id r)) (receipts db) = Some r.
Proof.
  intros Hinv Hr. pose proof (si_event _ _ Hinv) as Hnd. clear Hinv. revert Hnd Hr.
  generalize (receipts db) as l. intros l. induction l as [|q l IH]; simpl; intros Hnd Hr; [by apply elem_of_nil in Hr|].
  apply NoDup_cons in Hnd as [Hn Hnd]. apply elem_of_cons in Hr as [->|Hr].
  - unfold event_key. by rewrite !String.eqb_refl.
  - unfold event_key at 1. destruct (_ && _) eqn:E; [|by apply IH]. bool_simp. exfalso. apply Hn.
    apply list_elem_of_fmap. exists r. split; [congruence|done].
Qed.

(** Answering a redelivery writes an audit row and nothing else. *)
Lemma redelivered now i version c d db r user u :
  sync_inv sha256 db → r ∈ receipts db → rc_provider r = sy_provider i → rc_event_id r = sy_event_id i →
  lc_actor_type c = "user" → lifecycle_actor db c = true →
  user_of_subject db (sy_clerk_user_id i) = Some (user, u) → target_missing db i = false →
  has_key au_event_key ("identity-lifecycle:" +:+ ad_event d) (audit_log db) = false →
  ∃ e, sync_tx sha256 now i version c d db =
    Ok (if String.eqb (rc_payload_sha256 r) (syncPayloadHash sha256 i version c)
        then Settled (mkSyncResult (sy_event_id i) (rc_source_version r) Replayed (rc_changed r) (rc_user_id r)
                        (rc_organization_id r))
        else Denied_ IdentityProviderSyncConflict,
        db <| audit_log ::= λ l, l ++ [e] |>).
Proof.
  intros Hinv Hr Ep Ee Et Ha Hu Hm Hk. unfold sync_tx. rewrite Et, String.eqb_refl, Ha. simpl.
  rewrite Hu, Hm. rewrite <- Ep, <- Ee, (find_event db r Hinv Hr).
  destruct (String.eqb_spec (rc_payload_sha256 r) (syncPayloadHash sha256 i version c)) as [E|E]; simpl;
    unfold insert_audit, mbind, tx_bind, mret, tx_ret; simpl; rewrite Hk; by eexists.
Qed.

Lemma sync_tx_answered now i version c d db x db' :
  sync_tx sha256 now i version c d db = Ok (Settled x, db') →
  ∃ r, r ∈ receipts db' ∧ answered i version (syncPayloadHash sha256 i version c) x r.
Proof.
  unfold sync_tx. destruct (negb (_ && lifecycle_actor db c)); [intros; by tx_simp|].
  destruct (user_of_subject db (sy_clerk_user_id i)) as [[user u]|]; [|intros; by tx_simp].
  destruct (target_missing db i); [intros; by tx_simp|].
  destruct (find _ (receipts db)) as [r|] eqn:Ef.
  { destruct (negb (String.eqb _ _)) eqn:Ep; [intros; by tx_simp|]. bool_simp. intros. tx_simp. audit_done. subst.
    apply find_some in Ef as [Hr Hk]. unfold event_key in Hk. bool_simp. apply list_elem_of_In in Hr.
    exists r. split; [done|]. split; try done. by left. }
  destruct (existsb _ _); [intros; by tx_simp|].
  assert (∀ applied changed db1 db2,
    insert_receipt (receipt i version (syncPayloadHash sha256 i version c) (syncStreamHash sha256 i user) user applied
      changed) db1 = Ok (tt, db2) →
    ∀ x, so_event_id x = sy_event_id i → so_source_version x = version → so_changed x = changed →
    so_user_id x = user → so_organization_id x = target i →
    ∃ r, r ∈ receipts db2 ∧ answered i version (syncPayloadHash sha256 i version c) x r) as Hnew.
  { intros applied changed db1 db2 H y E1 E2 E3 E4 E5. apply insert_receipt_Ok in H as (-> & Hne & _). eexists.
    split; [apply elem_of_app; right; by apply list_elem_of_singleton|]. split; simpl; try done.
    right. rewrite E5. simpl in Hne. unfold target. destruct (sy_organization_id i) as [o|]; [|done]. simpl.
    destruct (String.eqb_spec o "") as [->|Hn]; [exfalso; apply Hne; vm_compute; reflexivity|done]. }
  destruct (stale _ version).
  - intros. tx_simp. audit_done. subst. destruct x0. eapply Hnew in H; [exact H|done..].
  - destruct (apply_event _ _ _ _) as [changed db1]. intros. tx_simp. audit_done. subst. destruct x0.
    eapply Hnew in H; [exact H|done..].
Qed.

Lemma payload_reason i version c c' :
  (∀ x y, sha256 x = sha256 y → x = y) → syncPayloadHash sha256 i version c = syncPayloadHash sha256 i version c' →
  js_trim (lc_reason c) = js_trim (lc_reason c').
Proof.
  intros Hsha E. apply Hsha in E. unfold sync_payload in E. revert E.
  generalize (json_text (sy_provider i)), (json_text (sy_event_id i)), (json_text (sy_event_type i)),
    (json_text (sy_clerk_user_id i)), (json_opt (sy_organization_id i)), (json_opt (sy_role i)).
  intros s1 s2 s3 s4 s5 s6 E. cbn [join String.append] in E. injection E as E.
  rewrite !append_assoc' in E. repeat apply append_inj_l in E. by apply json_text_inj in E as [E _].
Qed.

(** ** Properties *)

(** C22: The order in which the events of the identity provider come does not
    matter: two deployments that accepted the same events, in whatever orders and
    whatever else happened in between, agree on every membership an event is
    about. *)
Theorem provider_sync_converges db db' :
  (∀ x y, sha256 x = sha256 y → x = y) → reachable db → reachable db' → same_events db db' →
  ∀ r key, r ∈ receipts db → membership_key r = Some key → members db !! key = members db' !! key.
Proof.
  intros Hsha Hr Hr' He r key Hin Hkey.
  pose proof (reachable_sync _ _ _ db Hr) as Hinv. pose proof (reachable_sync _ _ _ db' Hr') as Hinv'.
  destruct (newest_exists (receipts db) r Hin) as (n & Hn & Hss).
  assert (membership_key n = Some key) as Hkn.
  { rewrite <- (stream_key sha256 db r n Hsha); [done|by apply (si_receipt _ _ Hinv)| |done].
    by apply (si_receipt _ _ Hinv), Hn. }
  assert (receipt_claim n ∈ map receipt_claim (receipts db')) as Hc by by apply He, list_elem_of_fmap_2, Hn.
  apply claim_in in Hc as (n' & Hn' & Ec).
  pose proof (newest_elsewhere db db' n n' He Hn Hn' Ec) as Hnew.
  apply claim_out in Ec as (_ & Eeff & Ekey & _).
  rewrite (si_newest _ _ Hinv n key Hn Hkn), Eeff. symmetry. apply (si_newest _ _ Hinv' n' key Hnew). by rewrite <- Ekey.
Qed.

(** An answered event of the identity provider is answered again, whatever
    happened since, without touching anything but the audit log: with the version,
    the change and the user of the first answer when its reason is the same, as a
    conflict when it is not. *)
Theorem provider_event_replay now now' i c c' d d' db x db1 db2 :
  (∀ x y, sha256 x = sha256 y → x = y) → reachable db →
  syncIdentityProvider sha256 now i c d db = (Ok x, db1) → steps anything db1 db2 →
  validateContext c' = None → lc_actor_type c' = "user" → lifecycle_actor db2 c' = true →
  is_Some (user_of_subject db2 (sy_clerk_user_id i)) → target_missing db2 i = false →
  has_key au_event_key ("identity-lifecycle:" +:+ ad_event d') (audit_log db2) = false →
  ∃ o e, (o = so_organization_id x ∨ o = uuid_text <$> so_organization_id x) ∧
    syncIdentityProvider sha256 now' i c' d' db2 =
      (if String.eqb (js_trim (lc_reason c)) (js_trim (lc_reason c'))
       then Ok (mkSyncResult (so_event_id x) (so_source_version x) Replayed (so_changed x) (so_user_id x) o)
       else Err IdentityProviderSyncConflict,
       db2 <| audit_log ::= λ l, l ++ [e] |>).
Proof.
  intros Hsha Hr Hfirst Hsteps Hc Ht Ha [[user u] Hu] Hm Hk.
  pose proof (syncIdentityProvider_steps sha256 digest lookup anything now i c d db) as Hs. rewrite Hfirst in Hs.
  assert (reachable db2) as Hr2 by by apply (reachable_steps _ _ _ anything db1), Hsteps; eapply reachable_steps.
  unfold syncIdentityProvider, validated in Hfirst. destruct (validateContext c); [done|].
  destruct (validateSyncInput i) as [version|e] eqn:Ev; [|done].
  destruct (sync_tx sha256 now i version c d db) as [[o db0]|e] eqn:Etx; unfold transaction in Hfirst;
    rewrite Etx in Hfirst; [|done]. destruct o as [e|x0]; [done|]. injection Hfirst as -> ->.
  apply sync_tx_answered in Etx as (r & Hr1 & []).
  destruct (steps_receipts _ _ _ _ _ _ Hsteps) as [l El].
  assert (r ∈ receipts db2) as Hin by (rewrite El; apply elem_of_app; by left).
  destruct (redelivered now' i version c' d' db2 r user u (reachable_sync _ _ _ db2 Hr2) Hin) as [e E]; try done.
  exists (rc_organization_id r), e. split; [done|].
  unfold syncIdentityProvider, validated, transaction. rewrite Hc, Ev, E, an_payload0.
  destruct (String.eqb_spec (js_trim (lc_reason c)) (js_trim (lc_reason c'))) as [Er|Er].
  - assert (syncPayloadHash sha256 i version c = syncPayloadHash sha256 i version c') as ->
      by (unfold syncPayloadHash, sync_payload; by rewrite Er).
    rewrite String.eqb_refl. simpl. by rewrite an_id0, an_version0, an_changed0, an_user0.
  - destruct (String.eqb_spec (syncPayloadHash sha256 i version c) (syncPayloadHash sha256 i version c')) as [Ep|]; [|done].
    by apply payload_reason in Ep.
Qed.
End sync.

(** ** Witnesses *)

Definition demo_event (id : string) (version : Z) (role : option string) : SyncInput :=
  mkSync "clerk" id (NInt version)
    (match role with Some _ => "membership.upserted" | None => "membership.removed" end) "user_ada" (Some organization1) role.

Definition demo_sync (i : SyncInput) (event : string) (db : IdentityDb) : IdentityDb :=
  (syncIdentityProvider demo_sha 5000 i demo_operator (mkAuditDraw event event) db).2.

(** The user is made a member and later removed; the second deployment hears of
    the removal first. *)
Definition demo_in_order : IdentityDb :=
  demo_sync (demo_event "evt_2" 20 None) "e12" (demo_sync (demo_event "evt_1" 10 (Some "member")) "e11" demo_db).
Definition demo_late : IdentityDb :=
  demo_sync (demo_event "evt_1" 10 (Some "member")) "e11" (demo_sync (demo_event "evt_2" 20 None) "e12" demo_db).

Lemma demo_sync_reachable i event db : demo_reachable db → demo_reachable (demo_sync i event db).
Proof.
  intros H. apply (reachable_steps _ _ _ anything db); [exact H|]. apply syncIdentityProvider_steps.
Qed.

Lemma demo_in_order_reachable : demo_reachable demo_in_order.
Proof. do 2 apply demo_sync_reachable. exists demo_db. split; [exact demo_start|constructor]. Qed.

Lemma demo_late_reachable : demo_reachable demo_late.
Proof. do 2 apply demo_sync_reachable. exists demo_db. split; [exact demo_start|constructor]. Qed.

Lemma demo_same_events : same_events demo_in_order demo_late.
Proof.
  assert (map receipt_claim (receipts demo_late) = reverse (map receipt_claim (receipts demo_in_order))) as E
    by (vm_compute; reflexivity).
  intros x. rewrite E. symmetry. apply elem_of_reverse.
Qed.

Lemma demo_sha_inj x y : demo_sha x = demo_sha y → x = y.
Proof. done. Qed.

Lemma provider_sync_converges_witness :
  members demo_late !! (organization1, user1) = None ∧
  members demo_in_order !! (organization1, user1) = members demo_late !! (organization1, user1).
Proof.
  split; [vm_compute; reflexivity|].
  destruct (receipts demo_in_order) as [|r l] eqn:E; [exfalso; vm_compute in E; discriminate E|].
  assert (membership_key r = Some (organization1, user1)) as Hk.
  { apply (f_equal (map membership_key)) in E. vm_compute in E. injection E as E _. exact (eq_sym E). }
  assert (r ∈ receipts demo_in_order) as Hr by (rewrite E; left).
  exact (provider_sync_converges demo_sha demo_digest demo_lookup demo_in_order demo_late demo_sha_inj
           demo_in_order_reachable demo_late_reachable demo_same_events r _ Hr Hk).
Defined.

(** The removal is delivered again after both. *)
Lemma provider_event_replay_witness :
  ∃ o e, (o = Some organization1 ∨ o = Some (uuid_text organization1)) ∧
    syncIdentityProvider demo_sha 9000 (demo_event "evt_2" 20 None) demo_operator (mkAuditDraw "e13" "e13") demo_late =
      (Ok (mkSyncResult "evt_2" 20 Replayed true user1 o), demo_late <| audit_log ::= λ l, l ++ [e] |>).
Proof.
  destruct (syncIdentityProvider demo_sha 5000 (demo_event "evt_2" 20 None) demo_operator (mkAuditDraw "e12" "e12")
              demo_db) as [r db1] eqn:E.
  assert (r = Ok (mkSyncResult "evt_2" 20 Applied true user1 (Some organization1))) as ->.
  { apply (f_equal fst) in E. vm_compute in E. rewrite <- E. reflexivity. }
  assert (db1 = demo_sync (demo_event "evt_2" 20 None) "e12" demo_db) as Edb
    by (apply (f_equal snd) in E; symmetry; exact E).
  assert (rtc (identity_step demo_sha demo_digest demo_lookup anything) db1 demo_late) as Hs
    by (rewrite Edb; apply syncIdentityProvider_steps).
  assert (demo_reachable demo_db) as H0 by (exists demo_db; split; [exact demo_start|constructor]).
  assert (validateContext demo_operator = None) as Hc by (vm_compute; reflexivity).
  assert (lifecycle_actor demo_late demo_operator = true) as Ha by (vm_compute; reflexivity).
  assert (is_Some (user_of_subject demo_late (sy_clerk_user_id (demo_event "evt_2" 20 None)))) as Hu.
  { destruct (user_of_subject demo_late _) eqn:Eu; [by eexists|exfalso; vm_compute in Eu; discriminate Eu]. }
  assert (target_missing demo_late (demo_event "evt_2" 20 None) = false) as Hm by (vm_compute; reflexivity).
  assert (has_key au_event_key "identity-lifecycle:e13" (audit_log demo_late) = false) as Hk by (vm_compute; reflexivity).
  exact (provider_event_replay demo_sha demo_digest demo_lookup 5000 9000 (demo_event "evt_2" 20 None) demo_operator
    demo_operator (mkAuditDraw "e12" "e12") (mkAuditDraw "e13" "e13") demo_db _ db1 demo_late demo_sha_inj H0 E Hs Hc
    eq_refl Ha Hu Hm Hk).
Defined.
