(* ===== verification/Volumes.v ===== *)
(** * Volumes

    The class PostgresVolumeRepository (src/apps/nehemiah/src/domain/volumes.ts):
    the allocation of storage to organizations and projects, the reservations
    behind write grants and the outbox of deletions.  One definition per method;
    an object store never appears here. *)

From S2P Require Import Prelude Text Js Capacity Billing.

Definition mebibyte : Z := 1048576.
Definition maximumVolumeBytes : Z := 1099511627776.
Definition defaultVolumeSizeLimitMb : Z := 10240.
Definition defaultVolumeTtlSeconds : Z := 30 * 24 * 60 * 60.
Definition maximumVolumeTtlSeconds : Z := 365 * 24 * 60 * 60.
Definition volumeDeletionRetentionSeconds : Z := 7 * 24 * 60 * 60.
Definition defaultVolumeGrantTtlSeconds : Z := 300.
Definition maximumVolumeGrantTtlSeconds : Z := 900.

(** ** Rows *)

(** A row of [volumes]; its key is the volume's id.  The uuid columns hold what
    PostgreSQL prints. *)
Record VolumeRow := mkVolume {
  vo_organization_id : string;
  vo_project_id : string;
  vo_object_prefix : string;
  vo_size_limit_bytes : Z;
  vo_observed_size_bytes : Z;
  vo_created_at : Z;
  vo_expires_at : Z;
  vo_deleted_at : option Z;
  vo_idempotency_key : option string;
  vo_create_request_hash : option string
}.
#[export] Instance VolumeRow_eta : Settable VolumeRow := λ r,
  mkVolume (vo_organization_id r) (vo_project_id r) (vo_object_prefix r) (vo_size_limit_bytes r)
    (vo_observed_size_bytes r) (vo_created_at r) (vo_expires_at r) (vo_deleted_at r)
    (vo_idempotency_key r) (vo_create_request_hash r).

Definition Volume : Type := string * VolumeRow.

(** A row of [volume_write_grant_reservations], by its uuid. *)
Record ReservationRow := mkReservation {
  rv_volume_id : string;
  rv_organization_id : string;
  rv_operation_key : option string;
  rv_attempt : Z;
  rv_observed_size : Z;
  rv_maximum_bytes : Z;
  rv_created_at : Z;
  rv_expires_at : Z;
  rv_issued_at : option Z
}.
#[export] Instance ReservationRow_eta : Settable ReservationRow := λ r,
  mkReservation (rv_volume_id r) (rv_organization_id r) (rv_operation_key r) (rv_attempt r)
    (rv_observed_size r) (rv_maximum_bytes r) (rv_created_at r) (rv_expires_at r) (rv_issued_at r).

(** A row of [volume_deletion_jobs], by its volume. *)
Record JobRow := mkJob {
  jb_organization_id : string;
  jb_project_id : string;
  jb_delete_after : Z;
  jb_requested_at : Z;
  jb_next_attempt_at : Z;
  jb_attempt_count : Z;
  jb_claim_token : option string;
  jb_claimed_at : option Z;
  jb_claim_expires_at : option Z;
  jb_scheduled_at : option Z;
  jb_last_error_code : option string;
  jb_updated_at : Z
}.
#[export] Instance JobRow_eta : Settable JobRow := λ r,
  mkJob (jb_organization_id r) (jb_project_id r) (jb_delete_after r) (jb_requested_at r)
    (jb_next_attempt_at r) (jb_attempt_count r) (jb_claim_token r) (jb_claimed_at r)
    (jb_claim_expires_at r) (jb_scheduled_at r) (jb_last_error_code r) (jb_updated_at r).

Record VolumeWriteGrantReservation := mkWriteReservation {
  wr_id : string;
  wr_volume_id : string;
  wr_maximum_bytes : Z;
  wr_expires_at : Z
}.

Record VolumeDeletionJob := mkDeletionJob {
  dj_volume : Volume;
  dj_delete_after : Z;
  dj_attempt_count : Z;
  dj_claim_token : string
}.

(** The tables; the columns of tenants are their storage limits in MiB, and a
    project names its organization. *)
Record VolumeDb := mkVolumeDb {
  storage_organizations : gmap string Z;
  storage_projects : gmap string (string * Z);
  volumes : gmap string VolumeRow;
  reservations : gmap string ReservationRow;
  deletion_jobs : gmap string JobRow;
  (** what billing admission reads besides *)
  storage_machines : list CommitmentMachine;
  storage_billing : BillingTables
}.
#[export] Instance VolumeDb_eta : Settable VolumeDb := λ r,
  mkVolumeDb (storage_organizations r) (storage_projects r) (volumes r) (reservations r)
    (deletion_jobs r) (storage_machines r) (storage_billing r).

Inductive VolumeError : Type :=
| InvalidVolumeRequest (message : string)
| VolumeProjectUnavailable
| VolumeQuotaExceeded (message : string)
| VolumeIdempotencyConflict
| VolumeInfrastructureUnavailable (message : string)
| VolumeIntegrityError
| VolumeBilling (e : BillingError)
| VolumeDatabaseError (constraint : string)
| VolumePlainError (message : string)
| VolumeAggregateError (errors : list VolumeError).

Abbreviation VolumeTx := (Tx VolumeDb VolumeError).

(** ** Billing *)

Definition commitment_volume (v : VolumeRow) : CommitmentVolume :=
  mkCommitmentVolume (vo_organization_id v) (vo_size_limit_bytes v) (vo_expires_at v) (vo_deleted_at v).

Definition billing_tables (db : VolumeDb) : BillingTables :=
  mkBillingTables (bt_accounts (storage_billing db)) (bt_usage (storage_billing db))
    (bt_outbox (storage_billing db)) (map (λ kv, commitment_volume kv.2) (map_to_list (volumes db))).

(** The policy as the interface the admission paths use. *)
#[refine] Instance volume_billing (policy : BillingAdmissionPolicy) : BillingAdmission VolumeDb := {
  admits now org d db := enforce policy now org d (storage_machines db) (billing_tables db)
}.
Proof. intros now org d d' db. apply enforce_mono. Defined.

(** ** Allocation *)

Definition retention : Z := volumeDeletionRetentionSeconds * msPerSecond.

(** [EXISTS (SELECT 1 FROM volume_deletion_jobs ... scheduled_at IS NOT NULL)] *)
Definition deletion_scheduled (jobs : gmap string JobRow) (id : string) : bool :=
  match jobs !! id with Some j => bool_decide (is_Some (jb_scheduled_at j)) | None => false end.

(** The volume still counts against the quotas at [now]. *)
Definition allocated (now : Z) (jobs : gmap string JobRow) (id : string) (v : VolumeRow) : bool :=
  (now <? default (vo_expires_at v) (vo_deleted_at v) + retention) || negb (deletion_scheduled jobs id).

Definition in_scope (organization : string) (project : option string) (v : VolumeRow) : bool :=
  String.eqb (vo_organization_id v) organization &&
  match project with Some p => String.eqb (vo_project_id v) p | None => true end.

(** [COALESCE(sum(size_limit_bytes) FILTER (...), 0)] *)
Definition allocated_bytes (organization : string) (project : option string) (now : Z) (db : VolumeDb) : Z :=
  sum_with (λ kv : Volume,
    if in_scope organization project kv.2 && allocated now (deletion_jobs db) kv.1 kv.2
    then vo_size_limit_bytes kv.2 else 0) (map_to_list (volumes db)).

(** ** Methods *)

Section repository.
Context `{BillingAdmission VolumeDb}.

Definition billed (now : Z) (organization : string) (d : BillingCommitmentDelta) : VolumeTx unit := λ db,
  match admits now organization d db with Ok _ => Ok (tt, db) | Err e => Err (VolumeBilling e) end.

Definition of_key (organization project key : string) (kv : Volume) : bool :=
  in_scope organization (Some project) kv.2 && bool_decide (vo_idempotency_key kv.2 = Some key).

(** [INSERT INTO volumes] *)
Definition insert_volume (id : string) (v : VolumeRow) : VolumeTx unit := λ db,
  if bool_decide (is_Some (volumes db !! id)) then Err (VolumeDatabaseError "volumes_pkey")
  else if existsb (λ kv, String.eqb (vo_object_prefix kv.2) (vo_object_prefix v)) (map_to_list (volumes db))
  then Err (VolumeDatabaseError "volumes_object_prefix_key")
  else Ok (tt, db <| volumes ::= <[id := v]> |>).

Definition storage_quota : VolumeError :=
  VolumeQuotaExceeded "The storage allocation exceeds the project or organization quota.".

Definition storage_delta (v : VolumeRow) : BillingCommitmentDelta :=
  mkDelta 0 0 (vo_size_limit_bytes v * Z.max 0 (ceil_div (vo_expires_at v - vo_created_at v) msPerSecond)).

(** [now] is the database's clock, which billing reads; the volume brings the
    clock of the process. *)
Definition admitCreate (now : Z) (volume : Volume) (idempotencyKey requestHash : string)
    : VolumeTx (Volume * bool) := λ db,
  let '(id, v) := volume in
  let organization := uuid_text (vo_organization_id v) in
  let project := uuid_text (vo_project_id v) in
  match storage_organizations db !! organization, storage_projects db !! project with
  | Some organizationLimit, Some (owner, projectLimit) =>
      if negb (String.eqb owner organization) then Err VolumeProjectUnavailable
      else
        match find (of_key organization project idempotencyKey) (map_to_list (volumes db)) with
        | Some existing =>
            if bool_decide (vo_create_request_hash existing.2 = Some requestHash)
            then Ok ((existing, true), db) else Err VolumeIdempotencyConflict
        | None =>
            (_ ← billed now organization (storage_delta v);
             _ ← require (vo_size_limit_bytes v + allocated_bytes organization (Some project) (vo_created_at v) db
                            <=? projectLimit * mebibyte) storage_quota;
             _ ← require (vo_size_limit_bytes v + allocated_bytes organization None (vo_created_at v) db
                            <=? organizationLimit * mebibyte) storage_quota;
             _ ← insert_volume id (mkVolume organization project (vo_object_prefix v) (vo_size_limit_bytes v) 0
                    (vo_created_at v) (vo_expires_at v) None (Some idempotencyKey) (Some requestHash));
             mret ((id, v <| vo_idempotency_key := Some idempotencyKey |>
                          <| vo_create_request_hash := Some requestHash |>), false)) db
        end
  | _, _ => Err VolumeProjectUnavailable
  end.

(** [deleted_at IS NULL AND expires_at > now] *)
Definition volume_live (now : Z) (v : VolumeRow) : bool :=
  bool_decide (vo_deleted_at v = None) && (now <? vo_expires_at v).

Definition list_volumes (db : VolumeDb) (organization : string) (project : option string) (now : Z)
    : list Volume :=
  sort_by (λ a b : Volume,
      if vo_created_at a.2 =? vo_created_at b.2 then codeUnitCompare a.1 b.1
      else vo_created_at b.2 - vo_created_at a.2)
    (List.filter (λ kv, in_scope organization project kv.2 && volume_live now kv.2) (map_to_list (volumes db))).

(** The volume a tenant names. *)
Definition own_volume (db : VolumeDb) (id organization : string) (project : option string) : option VolumeRow :=
  v ← volumes db !! id; if in_scope (uuid_text organization) (uuid_text <$> project) v then Some v else None.

Definition find_volume (db : VolumeDb) (id organization : string) (project : option string) (now : Z)
    : option Volume :=
  v ← own_volume db id organization project; if volume_live now v then Some (id, v) else None.

Definition findForDeletion (db : VolumeDb) (id organization : string) (project : option string) : option Volume :=
  pair id <$> own_volume db id organization project.

Definition set_volume (id : string) (v : VolumeRow) (db : VolumeDb) : VolumeDb := db <| volumes ::= <[id := v]> |>.

Definition updateObservedSize (id organization : string) (observed : Z) : VolumeTx bool := λ db,
  match own_volume db id organization None with
  | Some v =>
      if bool_decide (vo_deleted_at v = None)
      then Ok (true, set_volume id (v <| vo_observed_size_bytes := observed |>) db) else Ok (false, db)
  | None => Ok (false, db)
  end.

(** ** Write grants *)

Record ReserveInput := mkReserve {
  ri_id : string;
  ri_organization_id : string;
  ri_project_id : option string;
  ri_observed_size : number;
  ri_now : Z;
  ri_expires_at : Z;
  ri_operation_key : option string
}.

(** [GREATEST(maximum_bytes - GREATEST(observed - observed_size_at_reservation, 0), 0)] *)
Definition outstanding_of (observed : Z) (r : ReservationRow) : Z :=
  Z.max (rv_maximum_bytes r - Z.max (observed - rv_observed_size r) 0) 0.

Definition reservation_active (volume : string) (now : Z) (r : ReservationRow) : bool :=
  String.eqb (rv_volume_id r) volume && (now <? rv_expires_at r).

Definition outstanding (volume : string) (now observed : Z) (db : VolumeDb) : Z :=
  map_sum (λ r, if reservation_active volume now r then outstanding_of observed r else 0) (reservations db).

Definition for_operation (volume : string) (key : string) (kv : string * ReservationRow) : bool :=
  String.eqb (rv_volume_id kv.2) volume && bool_decide (rv_operation_key kv.2 = Some key).

(** The newest active reservation of the operation. *)
Definition replayed_reservation (db : VolumeDb) (volume : string) (key : option string) (now : Z)
    : option (string * ReservationRow) :=
  k ← key;
  head (sort_by (λ a b : string * ReservationRow, rv_attempt b.2 - rv_attempt a.2)
    (List.filter (λ kv, for_operation volume k kv && (now <? rv_expires_at kv.2)) (map_to_list (reservations db)))).

Definition next_attempt (db : VolumeDb) (volume : string) (key : option string) : Z :=
  match key with
  | Some k =>
      if String.eqb k "" then 1
      else foldr Z.max 0 (map (λ kv, rv_attempt kv.2)
             (List.filter (for_operation volume k) (map_to_list (reservations db)))) + 1
  | None => 1
  end.

Definition write_reservation (volume : string) (id : string) (r : ReservationRow) : VolumeWriteGrantReservation :=
  mkWriteReservation id volume (rv_maximum_bytes r) (rv_expires_at r).

Definition insert_reservation (id : string) (r : ReservationRow) : VolumeTx unit := λ db,
  if bool_decide (is_Some (reservations db !! id))
  then Err (VolumeDatabaseError "volume_write_grant_reservations_pkey")
  else Ok (tt, db <| reservations ::= <[id := r]> |>).

(** [rid] is the identifier the database draws. *)
Definition reserveWriteGrant (now : Z) (rid : string) (input : ReserveInput)
    : VolumeTx (option (Volume * VolumeWriteGrantReservation)) := λ db,
  let id := ri_id input in
  match storage_organizations db !! uuid_text (ri_organization_id input),
        own_volume db id (ri_organization_id input) (ri_project_id input) with
  | Some _, Some v =>
      if negb (volume_live (ri_now input) v) then Ok (None, db)
      else
        match safe_between 0 (vo_size_limit_bytes v) (ri_observed_size input) with
        | None => Err VolumeIntegrityError
        | Some observed =>
            let v' := v <| vo_observed_size_bytes := observed |> in
            let db := set_volume id v' db in
            match replayed_reservation db id (ri_operation_key input) (ri_now input) with
            | Some (r, row) => Ok (Some ((id, v'), write_reservation id r row), db)
            | None =>
                (_ ← billed now (uuid_text (ri_organization_id input)) (mkDelta 0 0 0);
                 let maximum := vo_size_limit_bytes v - observed - outstanding id (ri_now input) observed db in
                 _ ← require (1 <=? maximum)
                       (VolumeQuotaExceeded "The volume has no unreserved storage while another PUT grant is active.");
                 let row := mkReservation id (uuid_text (ri_organization_id input)) (ri_operation_key input)
                              (next_attempt db id (ri_operation_key input)) observed maximum (ri_now input)
                              (ri_expires_at input) None in
                 _ ← insert_reservation rid row;
                 mret (Some ((id, v'), write_reservation id rid row))) db
            end
        end
  | _, _ => Ok (None, db)
  end.

Definition markWriteGrantIssued (rid organization : string) (now : Z) : VolumeTx bool := λ db,
  match reservations db !! rid with
  | Some r =>
      if String.eqb (rv_organization_id r) (uuid_text organization)
      then match own_volume db (rv_volume_id r) organization None with
           | Some v =>
               if volume_live now v && (now <? rv_expires_at r)
               then Ok (true, db <| reservations ::= <[rid := r <| rv_issued_at := coalesce (rv_issued_at r) (Some now) |>]> |>)
               else Ok (false, db)
           | None => Ok (false, db)
           end
      else Ok (false, db)
  | None => Ok (false, db)
  end.

(** ** Deletion *)

Record EnqueueInput := mkEnqueue {
  eq_id : string;
  eq_organization_id : string;
  eq_project_id : option string;
  eq_requested_at : Z;
  eq_observed_size : Z
}.

Definition new_job (v : VolumeRow) (deleteAfter requested now : Z) : JobRow :=
  mkJob (vo_organization_id v) (vo_project_id v) deleteAfter requested requested 0 None None None None None now.

(** [ON CONFLICT (volume_id) DO NOTHING] *)
Definition insert_job (id : string) (j : JobRow) (jobs : gmap string JobRow) : gmap string JobRow :=
  match jobs !! id with Some _ => jobs | None => <[id := j]> jobs end.

Definition enqueueDeletion (input : EnqueueInput) : VolumeTx (option (Volume * Z)) := λ db,
  let id := eq_id input in
  match own_volume db id (eq_organization_id input) (eq_project_id input) with
  | None => Ok (None, db)
  | Some v =>
      let requested := default (eq_requested_at input) (vo_deleted_at v) in
      let v' := v <| vo_deleted_at := Some requested |> <| vo_observed_size_bytes := eq_observed_size input |> in
      let deleteAfter := requested + retention in
      Ok (Some ((id, v'), deleteAfter),
          set_volume id v' db <| deletion_jobs ::= insert_job id (new_job v' deleteAfter requested requested) |>)
  end.

(** Volumes past their expiry, oldest first, that nobody else holds. *)
Definition expired_volumes (now : Z) (limit : nat) (locked : gset string) (db : VolumeDb) : list Volume :=
  take limit (sort_by (λ a b : Volume,
      if vo_expires_at a.2 =? vo_expires_at b.2 then codeUnitCompare a.1 b.1
      else vo_expires_at a.2 - vo_expires_at b.2)
    (List.filter (λ kv, bool_decide (vo_deleted_at kv.2 = None) && (vo_expires_at kv.2 <=? now) &&
                        bool_decide (kv.1 ∉ locked)) (map_to_list (volumes db)))).

Definition expire_volume (now : Z) (kv : Volume) (db : VolumeDb) : VolumeDb :=
  let '(id, v) := kv in
  let v' := v <| vo_deleted_at := Some (vo_expires_at v) |>
              <| vo_observed_size_bytes := Z.min (vo_observed_size_bytes v) (vo_size_limit_bytes v) |> in
  set_volume id v' db
    <| deletion_jobs ::= insert_job id (new_job v' (vo_expires_at v + retention) (vo_expires_at v) now) |>.

Definition enqueueExpiredDeletions (now : Z) (limit : number) (locked : gset string) : VolumeTx Z := λ db,
  match safe_between 1 1000 limit with
  | None => Err (VolumePlainError "volume deletion enqueue limit must be between 1 and 1000")
  | Some n =>
      let batch := expired_volumes now (Z.to_nat n) locked db in
      Ok (Z.of_nat (length (List.filter (λ kv, negb (bool_decide (is_Some (deletion_jobs db !! kv.1)))) batch)),
          foldr (expire_volume now) db batch)
  end.

Record ClaimInput := mkClaim {
  ci_now : Z;
  ci_limit : number;
  ci_claim_token : string;
  ci_claim_ttl_seconds : number
}.

Definition claimable (now : Z) (j : JobRow) : bool :=
  bool_decide (jb_scheduled_at j = None) && (jb_next_attempt_at j <=? now) &&
  (bool_decide (jb_claim_token j = None) ||
   match jb_claim_expires_at j with Some t => t <=? now | None => false end).

Definition job_order (a b : string * JobRow) : Z :=
  if negb (jb_next_attempt_at a.2 =? jb_next_attempt_at b.2) then jb_next_attempt_at a.2 - jb_next_attempt_at b.2
  else if negb (jb_requested_at a.2 =? jb_requested_at b.2) then jb_requested_at a.2 - jb_requested_at b.2
  else codeUnitCompare a.1 b.1.

Definition claim_batch (now : Z) (limit : nat) (locked : gset string) (db : VolumeDb) : list (string * JobRow) :=
  take limit (sort_by job_order
    (List.filter (λ kv, claimable now kv.2 && bool_decide (kv.1 ∉ locked)) (map_to_list (deletion_jobs db)))).

Definition claimed_job (now : Z) (token : string) (ttl : Z) (j : JobRow) : JobRow :=
  j <| jb_claim_token := Some token |> <| jb_claimed_at := Some now |>
    <| jb_claim_expires_at := Some (now + ttl * msPerSecond) |>
    <| jb_attempt_count ::= Z.add 1 |> <| jb_updated_at := now |>.

(** The rows come back in no particular order. *)
Definition claimDeletionJobs (input : ClaimInput) (locked : gset string) : VolumeTx (list VolumeDeletionJob) := λ db,
  match safe_between 1 1000 (ci_limit input) with
  | None => Err (VolumePlainError "volume deletion claim limit must be between 1 and 1000")
  | Some n =>
      match safe_between 1 3600 (ci_claim_ttl_seconds input) with
      | None => Err (VolumePlainError "volume deletion claim TTL must be between 1 and 3600 seconds")
      | Some ttl =>
          let now := ci_now input in
          let token := uuid_text (ci_claim_token input) in
          let batch := map (prod_map id (claimed_job now token ttl)) (claim_batch now (Z.to_nat n) locked db) in
          Ok (omap (λ kv : string * JobRow,
                v ← volumes db !! kv.1;
                Some (mkDeletionJob (kv.1, v) (jb_delete_after kv.2) (jb_attempt_count kv.2) token)) batch,
              db <| deletion_jobs ::= λ jobs, list_to_map batch ∪ jobs |>)
      end
  end.

Definition unclaimed (j : JobRow) : JobRow :=
  j <| jb_claim_token := None |> <| jb_claimed_at := None |> <| jb_claim_expires_at := None |>.

Definition scheduled_job (at_ : Z) (j : JobRow) : JobRow :=
  unclaimed j <| jb_scheduled_at := coalesce (jb_scheduled_at j) (Some (Z.max at_ (jb_requested_at j))) |>
    <| jb_last_error_code := None |> <| jb_updated_at := at_ |>.

Definition markDeletionScheduled (id : string) (at_ : Z) : VolumeTx bool := λ db,
  match deletion_jobs db !! id with
  | Some j => Ok (true, db <| deletion_jobs ::= <[id := scheduled_job at_ j]> |>)
  | None => Ok (false, db)
  end.

Record DeferInput := mkDefer {
  di_volume_id : string;
  di_now : Z;
  di_next_attempt_at : Z;
  di_claim_token : option string;
  di_error_code : string
}.

Definition deferred_job (input : DeferInput) (j : JobRow) : JobRow :=
  unclaimed j <| jb_next_attempt_at ::= Z.max (di_next_attempt_at input) |>
    <| jb_attempt_count ::= Z.add (match di_claim_token input with Some _ => 0 | None => 1 end) |>
    <| jb_last_error_code := Some (di_error_code input) |> <| jb_updated_at := di_now input |>.

(** A claim can only be deferred by its holder; without a token anybody's is. *)
Definition may_defer (token : option string) (j : JobRow) : bool :=
  bool_decide (jb_scheduled_at j = None) &&
  match token with Some t => bool_decide (jb_claim_token j = Some (uuid_text t)) | None => true end.

Definition deferDeletion (input : DeferInput) : VolumeTx bool := λ db,
  match deletion_jobs db !! di_volume_id input with
  | Some j =>
      if may_defer (di_claim_token input) j
      then Ok (true, db <| deletion_jobs ::= <[di_volume_id input := deferred_job input j]> |>)
      else Ok (false, db)
  | None => Ok (false, db)
  end.
End repository.
