(* ===== verification/VolumeInv.v ===== *)
(** * What holds of the volume tables

    The steps of the volume repository, the invariant they keep and how rows
    move: volumes are never removed, a deletion is never taken back, and what
    counts against a quota only stops counting. *)

From S2P Require Import Prelude Text Js Capacity Billing Volumes.

(** ** Sums that see the key *)

Definition key_sum {A} (f : string → A → Z) (m : gmap string A) : Z :=
  sum_with (λ kv : string * A, f kv.1 kv.2) (map_to_list m).

Section key_sum.
Context {A : Type}.
Implicit Types (f g : string → A → Z) (m : gmap string A).

Lemma key_sum_new f m k x : m !! k = None → key_sum f (<[k := x]> m) = f k x + key_sum f m.
Proof. intros Hk. unfold key_sum. rewrite (sum_with_perm _ _ _ (map_to_list_insert m k x Hk)). done. Qed.

Lemma key_sum_take f m k x : m !! k = Some x → key_sum f m = f k x + key_sum f (delete k m).
Proof.
  intros Hk. rewrite <- (insert_delete_id m k x Hk) at 1. apply key_sum_new, lookup_delete_eq.
Qed.

Lemma key_sum_set f m k x y :
  m !! k = Some x → key_sum f (<[k := y]> m) = key_sum f m - f k x + f k y.
Proof.
  intros Hk. rewrite (key_sum_take f m k x Hk), <- insert_delete_eq, key_sum_new by apply lookup_delete_eq. lia.
Qed.

Lemma key_sum_le f g m m' :
  (∀ k, match m !! k, m' !! k with
        | Some x, Some y => f k x <= g k y
        | None, Some y => 0 <= g k y
        | Some x, None => False
        | None, None => True end) → key_sum f m <= key_sum g m'.
Proof.
  revert m'. induction m as [|k x m Hk IH] using map_ind; intros m' Hle.
  - unfold key_sum at 1. rewrite map_to_list_empty. simpl. apply sum_with_nonneg.
    intros [k y] Hy%elem_of_map_to_list. specialize (Hle k). by rewrite lookup_empty, Hy in Hle.
  - rewrite key_sum_new by done. pose proof (Hle k) as Hx. rewrite lookup_insert_eq in Hx.
    destruct (m' !! k) as [y|] eqn:Ey; [|done]. rewrite (key_sum_take g m' k y Ey).
    assert (key_sum f m <= key_sum g (delete k m')); [|lia]. apply IH. intros j.
    destruct (decide (j = k)) as [->|Hj]; [by rewrite Hk, lookup_delete_eq|].
    specialize (Hle j). rewrite lookup_insert_ne in Hle by done. by rewrite lookup_delete_ne.
Qed.

Lemma key_sum_nonneg f m : (∀ k x, m !! k = Some x → 0 <= f k x) → 0 <= key_sum f m.
Proof. intros H. apply sum_with_nonneg. intros [k x] Hx%elem_of_map_to_list. by apply H. Qed.
End key_sum.

Lemma allocated_bytes_sum organization project now db :
  allocated_bytes organization project now db =
  key_sum (λ id v, if in_scope organization project v && allocated now (deletion_jobs db) id v
                   then vo_size_limit_bytes v else 0) (volumes db).
Proof. done. Qed.

(** ** Steps *)

(** What code outside the repository changes: tenants appear, their limits are
    raised, billing moves. *)
Record volume_environment (db db' : VolumeDb) : Prop := {
  ve_volumes : volumes db' = volumes db;
  ve_reservations : reservations db' = reservations db;
  ve_jobs : deletion_jobs db' = deletion_jobs db;
  ve_organizations o l :
    storage_organizations db !! o = Some l → ∃ l', storage_organizations db' !! o = Some l' ∧ l <= l';
  ve_new_organizations o l' :
    storage_organizations db' !! o = Some l' → storage_organizations db !! o = None → 0 <= l';
  ve_projects p o l :
    storage_projects db !! p = Some (o, l) → ∃ l', storage_projects db' !! p = Some (o, l') ∧ l <= l';
  ve_new_projects p o l' :
    storage_projects db' !! p = Some (o, l') → storage_projects db !! p = None → 0 <= l'
}.

Section steps.
Context `{BillingAdmission VolumeDb}.

(** [volume_step t]: a transaction whose process read its clock at [t]. *)
Inductive volume_step : Z → VolumeDb → VolumeDb → Prop :=
| vs_admit now id v key hash a db db' :
    0 < vo_size_limit_bytes v → vo_deleted_at v = None →
    admitCreate now (id, v) key hash db = Ok (a, db') → volume_step (vo_created_at v) db db'
| vs_observe t id organization observed b db db' :
    updateObservedSize id organization observed db = Ok (b, db') → volume_step t db db'
| vs_reserve now rid input a db db' :
    reserveWriteGrant now rid input db = Ok (a, db') → volume_step (ri_now input) db db'
| vs_issued rid organization t b db db' :
    markWriteGrantIssued rid organization t db = Ok (b, db') → volume_step t db db'
| vs_enqueue input a db db' :
    enqueueDeletion input db = Ok (a, db') → volume_step (eq_requested_at input) db db'
| vs_expired now limit locked n db db' :
    enqueueExpiredDeletions now limit locked db = Ok (n, db') → volume_step now db db'
| vs_claim input locked l db db' :
    claimDeletionJobs input locked db = Ok (l, db') → volume_step (ci_now input) db db'
| vs_scheduled id t b db db' :
    markDeletionScheduled id t db = Ok (b, db') → volume_step t db db'
| vs_defer input b db db' :
    deferDeletion input db = Ok (b, db') → volume_step (di_now input) db db'
| vs_environment t db db' : volume_environment db db' → volume_step t db db'.

(** The latest instant a process has read, and the tables. *)
Definition timed_step (s s' : Z * VolumeDb) : Prop :=
  ∃ t, volume_step t s.2 s'.2 ∧ s'.1 = Z.max s.1 t.

Definition some_step (db db' : VolumeDb) : Prop := ∃ t, volume_step t db db'.

Lemma timed_some s s' : rtc timed_step s s' → rtc some_step s.2 s'.2.
Proof.
  induction 1 as [|s s1 s' (t & Ht & _) _ IH]; [done|]. eapply rtc_l; [by exists t|done].
Qed.
End steps.

(** ** Moves

    What the transactions do to the rows, one row at a time. *)

Record job_le (j j' : JobRow) : Prop := {
  jl_requested : jb_requested_at j' = jb_requested_at j;
  jl_delete_after : jb_delete_after j' = jb_delete_after j;
  jl_next : jb_next_attempt_at j <= jb_next_attempt_at j';
  jl_scheduled x : jb_scheduled_at j = Some x → jb_scheduled_at j' = Some x
}.

Definition deleted_volume (d o : Z) (v : VolumeRow) : VolumeRow :=
  v <| vo_deleted_at := Some d |> <| vo_observed_size_bytes := o |>.

Inductive volume_move (t : Z) (db : VolumeDb) : VolumeDb → Prop :=
| mv_new id v organizationLimit projectLimit :
    volumes db !! id = None → vo_deleted_at v = None → 0 < vo_size_limit_bytes v →
    vo_observed_size_bytes v = 0 → vo_created_at v = t →
    storage_organizations db !! vo_organization_id v = Some organizationLimit →
    storage_projects db !! vo_project_id v = Some (vo_organization_id v, projectLimit) →
    vo_size_limit_bytes v + allocated_bytes (vo_organization_id v) None t db <= organizationLimit * mebibyte →
    vo_size_limit_bytes v + allocated_bytes (vo_organization_id v) (Some (vo_project_id v)) t db
      <= projectLimit * mebibyte →
    (∀ key, vo_idempotency_key v = Some key → ∀ j w, volumes db !! j = Some w →
       of_key (vo_organization_id v) (vo_project_id v) key (j, w) = false) →
    volume_move t db (set_volume id v db)
| mv_observe id v o :
    volumes db !! id = Some v → volume_move t db (set_volume id (v <| vo_observed_size_bytes := o |>) db)
| mv_delete id v d o now :
    volumes db !! id = Some v → vo_deleted_at v = None ∨ vo_deleted_at v = Some d →
    volume_move t db (set_volume id (deleted_volume d o v) db
      <| deletion_jobs ::= insert_job id (new_job (deleted_volume d o v) (d + retention) d now) |>)
| mv_reserve rid r v :
    volumes db !! rv_volume_id r = Some v → volume_live t v = true → reservations db !! rid = None →
    rv_organization_id r = vo_organization_id v → rv_observed_size r = vo_observed_size_bytes v →
    0 <= vo_observed_size_bytes v → 1 <= rv_maximum_bytes r →
    rv_maximum_bytes r = vo_size_limit_bytes v - vo_observed_size_bytes v
      - outstanding (rv_volume_id r) t (vo_observed_size_bytes v) db →
    volume_move t db (db <| reservations ::= <[rid := r]> |>)
| mv_issued rid r x :
    reservations db !! rid = Some r →
    volume_move t db (db <| reservations ::= <[rid := r <| rv_issued_at := x |>]> |>)
| mv_jobs jobs :
    (∀ id, option_relation job_le (λ _, False) (λ _, False) (deletion_jobs db !! id) (jobs !! id)) →
    volume_move t db (db <| deletion_jobs := jobs |>)
| mv_environment db' : volume_environment db db' → volume_move t db db'.

Abbreviation moves t := (rtc (volume_move t)).

(** ** Every step is a run of moves *)

Lemma own_volume_Some db id organization project v :
  own_volume db id organization project = Some v →
  volumes db !! id = Some v ∧ vo_organization_id v = uuid_text organization.
Proof.
  unfold own_volume. intros H. apply bind_Some in H as (w & Hw & H).
  destruct (in_scope _ _ w) eqn:E; [|done]. injection H as ->. unfold in_scope in E. by bool_simp.
Qed.

Lemma in_scope_spec organization project v :
  in_scope organization project v = true ↔
  vo_organization_id v = organization ∧ ∀ p, project = Some p → vo_project_id v = p.
Proof.
  unfold in_scope. rewrite andb_true_iff, String.eqb_eq. destruct project as [p|]; [rewrite String.eqb_eq|];
    naive_solver.
Qed.

Lemma find_None {A} (p : A → bool) l : find p l = None → ∀ x, x ∈ l → p x = false.
Proof. intros H x Hx. by eapply find_none, list_elem_of_In. Qed.

Section volume_step_moves.
Context `{BillingAdmission VolumeDb}.

Lemma billed_Ok now organization d db x db' : billed now organization d db = Ok (x, db') → db' = db.
Proof. unfold billed. destruct (admits _ _ _ _); [by intros [= _ <-]|done]. Qed.

Lemma require_Ok {S E} b (e : E) (s : S) x s' : require b e s = Ok (x, s') → b = true ∧ s' = s.
Proof. unfold require. destruct b; [by intros [= _ <-]|done]. Qed.

Lemma admitCreate_moves now id v key hash db a db' :
  0 < vo_size_limit_bytes v → vo_deleted_at v = None →
  admitCreate now (id, v) key hash db = Ok (a, db') → moves (vo_created_at v) db db'.
Proof.
  intros Hs Hd. unfold admitCreate. destruct (storage_organizations db !! _) as [ol|] eqn:Eo; [|done].
  destruct (storage_projects db !! _) as [[owner pl]|] eqn:Ep; [|done].
  destruct (negb (String.eqb owner _)) eqn:Eown; [done|]. bool_simp.
  destruct (find _ _) as [ex|] eqn:Ef.
  { destruct (bool_decide _); [|done]. by intros [= _ <-]. }
  intros Hx. apply tx_bind_Ok in Hx as (? & db1 & ->%billed_Ok & Hx).
  apply tx_bind_Ok in Hx as (? & db2 & [Hp ->]%require_Ok & Hx).
  apply tx_bind_Ok in Hx as (? & db3 & [Ho ->]%require_Ok & Hx).
  apply tx_bind_Ok in Hx as (? & db4 & Hi & Hx). injection Hx as _ ->. unfold insert_volume in Hi.
  destruct (bool_decide (is_Some _)) eqn:En; [done|]. destruct (existsb _ _); [done|]. injection Hi as _ <-.
  bool_simp. apply rtc_once.
  eapply (mv_new _ _ id); simpl; try done; try lia.
  - destruct (volumes db !! id) eqn:E; [|done]. exfalso. apply En. by eexists.
  - by rewrite Ep, Eown.
  - intros k [= <-] j w Hw. eapply find_None in Ef; [exact Ef|]. by apply elem_of_map_to_list.
Qed.

Lemma set_volume_get id v db : volumes db !! id = Some v → set_volume id v db = db.
Proof. intros Hv. destruct db. unfold set_volume. simpl in *. by rewrite insert_id. Qed.

Lemma updateObservedSize_moves t id organization o b db db' :
  updateObservedSize id organization o db = Ok (b, db') → moves t db db'.
Proof.
  unfold updateObservedSize. destruct (own_volume _ _ _ _) as [v|] eqn:Ev; [|by intros [= _ <-]].
  apply own_volume_Some in Ev as [Hv _]. destruct (bool_decide _); intros [= _ <-]; [|done].
  by apply rtc_once, mv_observe.
Qed.

Lemma insert_reservation_Ok rid r db x db' :
  insert_reservation rid r db = Ok (x, db') →
  db' = db <| reservations ::= <[rid := r]> |> ∧ reservations db !! rid = None.
Proof.
  unfold insert_reservation. destruct (bool_decide _) eqn:En; [done|]. intros [= _ <-]. bool_simp. split; [done|].
  destruct (reservations db !! rid) eqn:E; [exfalso; apply En; by eexists|done].
Qed.

(** What a reservation does: nothing, recording the observed size, or recording
    it and reserving all that is left. *)
Definition reserved (now : Z) (rid : string) (input : ReserveInput) (v : VolumeRow) (o : Z) (db : VolumeDb)
    (r : ReservationRow) : Prop :=
  r = mkReservation (ri_id input) (vo_organization_id v) (ri_operation_key input)
        (next_attempt (set_volume (ri_id input) (v <| vo_observed_size_bytes := o |>) db) (ri_id input)
           (ri_operation_key input)) o
        (vo_size_limit_bytes v - o - outstanding (ri_id input) (ri_now input) o db) (ri_now input)
        (ri_expires_at input) None ∧
  1 <= rv_maximum_bytes r ∧ reservations db !! rid = None.

Lemma reserveWriteGrant_effect now rid input a db db' :
  reserveWriteGrant now rid input db = Ok (a, db') →
  (a = None ∧ db' = db) ∨
  ∃ v o, volumes db !! ri_id input = Some v ∧ volume_live (ri_now input) v = true ∧
    0 <= o <= vo_size_limit_bytes v ∧
    let db1 := set_volume (ri_id input) (v <| vo_observed_size_bytes := o |>) db in
    (db' = db1 ∧ ∃ r row, replayed_reservation db1 (ri_id input) (ri_operation_key input) (ri_now input) = Some (r, row) ∧
       a = Some ((ri_id input, v <| vo_observed_size_bytes := o |>), write_reservation (ri_id input) r row)) ∨
    ∃ r, reserved now rid input v o db r ∧ db' = db1 <| reservations ::= <[rid := r]> |> ∧
      a = Some ((ri_id input, v <| vo_observed_size_bytes := o |>), write_reservation (ri_id input) rid r).
Proof.
  unfold reserveWriteGrant. destruct (storage_organizations db !! _) as [ol|]; [|by intros [= <- <-]; left].
  destruct (own_volume _ _ _ _) as [v|] eqn:Ev; [|by intros [= <- <-]; left].
  apply own_volume_Some in Ev as [Hv Horg]. destruct (negb (volume_live _ v)) eqn:El; [by intros [= <- <-]; left|].
  destruct (safe_between _ _ _) as [o|] eqn:Eo; [|done]. apply safe_between_Some in Eo as (_ & _ & Ho). bool_simp.
  intros Hx. right. exists v, o. split_and!; [done..|lia|lia|].
  set (v' := v <| vo_observed_size_bytes := o |>) in *. set (db1 := set_volume (ri_id input) v' db) in *.
  destruct (replayed_reservation _ _ _ _) as [[r row]|]; [injection Hx as <- <-; left; eauto|].
  apply tx_bind_Ok in Hx as (? & db2 & ->%billed_Ok & Hx). cbv zeta in Hx.
  apply tx_bind_Ok in Hx as (? & db3 & [Hp ->]%require_Ok & Hx).
  apply tx_bind_Ok in Hx as (? & db4 & Hi & Hx). injection Hx as <- ->. apply insert_reservation_Ok in Hi as [-> Hn].
  bool_simp. right. eexists. split_and!; [|done|rewrite <- Horg; reflexivity].
  unfold reserved. rewrite <- Horg. split_and!; [done|simpl; exact Hp|done].
Qed.

Lemma reserveWriteGrant_moves now rid input a db db' :
  reserveWriteGrant now rid input db = Ok (a, db') → moves (ri_now input) db db'.
Proof.
  intros [[_ ->]|(v & o & Hv & Hl & Ho & Hor)]%reserveWriteGrant_effect; [done|]. cbv zeta in Hor.
  set (v' := v <| vo_observed_size_bytes := o |>) in *. set (db1 := set_volume (ri_id input) v' db) in *.
  assert (moves (ri_now input) db db1) as Hm by by apply rtc_once, mv_observe.
  destruct Hor as [[-> _]|(r & (-> & H1 & Hn) & -> & _)]; [done|].
  eapply rtc_r; [exact Hm|]. eapply (mv_reserve _ _ rid _ v'); simpl in *; try done; try lia.
  unfold db1, set_volume. simpl. by rewrite lookup_insert_eq.
Qed.

Lemma markWriteGrantIssued_moves rid organization t b db db' :
  markWriteGrantIssued rid organization t db = Ok (b, db') → moves t db db'.
Proof.
  unfold markWriteGrantIssued. destruct (reservations db !! rid) as [r|] eqn:Er; [|by intros [= _ <-]].
  destruct (String.eqb _ _); [|by intros [= _ <-]]. destruct (own_volume _ _ _ _) as [v|]; [|by intros [= _ <-]].
  destruct (_ && _); intros [= _ <-]; [|done]. by apply rtc_once, mv_issued.
Qed.

Lemma enqueueDeletion_moves input a db db' :
  enqueueDeletion input db = Ok (a, db') → moves (eq_requested_at input) db db'.
Proof.
  unfold enqueueDeletion. destruct (own_volume _ _ _ _) as [v|] eqn:Ev; [|by intros [= _ <-]].
  apply own_volume_Some in Ev as [Hv _]. intros [= _ <-]. apply rtc_once.
  apply (mv_delete _ _ (eq_id input) v); [done..|]. destruct (vo_deleted_at v) as [d|]; [by right|by left].
Qed.

Lemma jobs_refl id (jobs : gmap string JobRow) :
  option_relation job_le (λ _, False) (λ _, False) (jobs !! id) (jobs !! id).
Proof. destruct (jobs !! id); simpl; [|done]. split; [done..|lia|done]. Qed.

Lemma job_update_move t db id j j' :
  deletion_jobs db !! id = Some j → job_le j j' →
  volume_move t db (db <| deletion_jobs ::= <[id := j']> |>).
Proof.
  intros Hj Hle. apply (mv_jobs t db (<[id := j']> (deletion_jobs db))). intros k.
  destruct (decide (k = id)) as [->|Hn]; [by rewrite Hj, lookup_insert_eq|].
  rewrite lookup_insert_ne by done. apply jobs_refl.
Qed.

Lemma markDeletionScheduled_moves id t b db db' :
  markDeletionScheduled id t db = Ok (b, db') → moves t db db'.
Proof.
  unfold markDeletionScheduled. destruct (deletion_jobs db !! id) as [j|] eqn:Ej; intros [= _ <-]; [|done].
  apply rtc_once. eapply job_update_move; [done|]. split; simpl; [done..|lia|].
  intros x ->. done.
Qed.

Lemma deferDeletion_moves input b db db' :
  deferDeletion input db = Ok (b, db') → moves (di_now input) db db'.
Proof.
  unfold deferDeletion. destruct (deletion_jobs db !! _) as [j|] eqn:Ej; [|by intros [= _ <-]].
  destruct (may_defer _ j); intros [= _ <-]; [|done]. apply rtc_once. eapply job_update_move; [done|].
  split; simpl; [done..|lia|done].
Qed.

Lemma expire_batch now batch db :
  NoDup (map fst batch) →
  (∀ id v, (id, v) ∈ batch → volumes db !! id = Some v ∧ vo_deleted_at v = None) →
  moves now db (foldr (expire_volume now) db batch) ∧
  ∀ id, id ∉ map fst batch → volumes (foldr (expire_volume now) db batch) !! id = volumes db !! id.
Proof.
  induction batch as [|[id v] batch IH]; simpl; intros Hnd Hb; [done|].
  apply NoDup_cons in Hnd as [Hid Hnd]. destruct IH as [IHm IHl]; [done|intros; apply Hb; by right|].
  destruct (Hb id v) as [Hv Hd]; [by left|]. split.
  - eapply rtc_r; [exact IHm|]. apply mv_delete; [by rewrite IHl|by left].
  - intros j Hj. apply not_elem_of_cons in Hj as [Hj1 Hj2]. simpl. rewrite lookup_insert_ne by done. by apply IHl.
Qed.

Lemma NoDup_take {A} (l : list A) n : NoDup l → NoDup (take n l).
Proof. intros Hl. rewrite <- (take_drop n l) in Hl. by apply NoDup_app in Hl as [? _]. Qed.

Lemma NoDup_keys_filter {A} (p : string * A → bool) (m : gmap string A) :
  NoDup (map fst (List.filter p (map_to_list m))).
Proof.
  pose proof (NoDup_fst_map_to_list m) as Hnd. induction (map_to_list m) as [|x l IH]; simpl; [constructor|].
  simpl in Hnd. apply NoDup_cons in Hnd as [Hx Hnd]. destruct (p x); simpl; [|by apply IH].
  constructor; [|by apply IH]. intros (y & Ey & Hy)%list_elem_of_fmap. apply Hx. rewrite Ey.
  apply list_elem_of_fmap_2, list_elem_of_In. apply list_elem_of_In, List.filter_In in Hy. apply Hy.
Qed.

(** The rows of a batch: [ORDER BY ... LIMIT n] over a table. *)
Lemma batch_rows {A} cmp (p : string * A → bool) n (m : gmap string A) :
  let batch := take n (sort_by cmp (List.filter p (map_to_list m))) in
  NoDup (map fst batch) ∧ ∀ id x, (id, x) ∈ batch → m !! id = Some x ∧ p (id, x) = true.
Proof.
  intros batch. split.
  - unfold batch. rewrite <- firstn_map. apply NoDup_take.
    rewrite (sort_by_perm cmp). apply NoDup_keys_filter.
  - intros id x Hx. apply elem_of_take in Hx as (i & Hx%list_elem_of_lookup_2 & _).
    apply sort_by_elem, list_elem_of_In, List.filter_In in Hx as [Hx Hp].
    split; [|done]. by apply elem_of_map_to_list, list_elem_of_In.
Qed.

Lemma enqueueExpired_moves now limit locked n db db' :
  enqueueExpiredDeletions now limit locked db = Ok (n, db') → moves now db db'.
Proof.
  unfold enqueueExpiredDeletions. destruct (safe_between _ _ _) as [k|]; [|done]. intros [= _ <-].
  destruct (batch_rows (λ a b : Volume,
      if vo_expires_at a.2 =? vo_expires_at b.2 then codeUnitCompare a.1 b.1
      else vo_expires_at a.2 - vo_expires_at b.2)
    (λ kv, bool_decide (vo_deleted_at kv.2 = None) && (vo_expires_at kv.2 <=? now) && bool_decide (kv.1 ∉ locked))
    (Z.to_nat k) (volumes db)) as [Hnd Hb].
  apply expire_batch; [exact Hnd|]. intros id v Hin. apply Hb in Hin as [Hv Hp]. by bool_simp.
Qed.

Lemma claimDeletionJobs_moves input locked l db db' :
  claimDeletionJobs input locked db = Ok (l, db') → moves (ci_now input) db db'.
Proof.
  unfold claimDeletionJobs. destruct (safe_between 1 1000 _) as [n|]; [|done].
  destruct (safe_between 1 3600 _) as [ttl|] eqn:Ettl; [|done]. intros [= _ <-]. apply rtc_once.
  set (f := claimed_job (ci_now input) (uuid_text (ci_claim_token input)) ttl).
  destruct (batch_rows job_order (λ kv, claimable (ci_now input) kv.2 && bool_decide (kv.1 ∉ locked)) (Z.to_nat n)
    (deletion_jobs db)) as [Hnd Hb]. fold (claim_batch (ci_now input) (Z.to_nat n) locked db) in Hnd, Hb.
  set (batch := claim_batch (ci_now input) (Z.to_nat n) locked db) in *.
  apply (mv_jobs _ db (list_to_map (map (prod_map id f) batch) ∪ deletion_jobs db)). intros i.
  assert (NoDup (map fst (map (prod_map id f) batch))) as Hnd'.
  { rewrite map_map. erewrite map_ext; [exact Hnd|]. by intros []. }
  rewrite lookup_union. destruct (list_to_map (map (prod_map id f) batch) !! i) as [j'|] eqn:Ej.
  - apply elem_of_list_to_map_2, list_elem_of_fmap in Ej as ([i' j] & [= -> ->] & Hin). apply Hb in Hin as [Hj _].
    unfold id. rewrite Hj. simpl. split; [done..|simpl; lia|done].
  - rewrite (left_id None union). apply jobs_refl.
Qed.

Lemma volume_step_moves t db db' : volume_step t db db' → moves t db db'.
Proof.
  intros Hs. destruct Hs.
  - by eapply admitCreate_moves.
  - by eapply updateObservedSize_moves.
  - by eapply reserveWriteGrant_moves.
  - by eapply markWriteGrantIssued_moves.
  - by eapply enqueueDeletion_moves.
  - by eapply enqueueExpired_moves.
  - by eapply claimDeletionJobs_moves.
  - by eapply markDeletionScheduled_moves.
  - by eapply deferDeletion_moves.
  - by apply rtc_once, mv_environment.
Qed.
End volume_step_moves.

(** ** The invariant *)

Record volume_inv (clock : Z) (db : VolumeDb) : Prop := mkVolumeInv {
  vi_tenant id v : volumes db !! id = Some v →
    is_Some (storage_organizations db !! vo_organization_id v) ∧
    ∃ l, storage_projects db !! vo_project_id v = Some (vo_organization_id v, l);
  vi_size id v : volumes db !! id = Some v → 0 < vo_size_limit_bytes v;
  (** a job is about a deleted volume, and every deleted volume has one *)
  vi_job id j : deletion_jobs db !! id = Some j →
    ∃ v, volumes db !! id = Some v ∧ vo_deleted_at v = Some (jb_requested_at j) ∧
      jb_delete_after j = jb_requested_at j + retention;
  vi_deleted id v : volumes db !! id = Some v → is_Some (vo_deleted_at v) → is_Some (deletion_jobs db !! id);
  vi_organization o l : storage_organizations db !! o = Some l →
    ∀ t, clock <= t → allocated_bytes o None t db <= l * mebibyte;
  vi_project p o l : storage_projects db !! p = Some (o, l) →
    ∀ t, clock <= t → allocated_bytes o (Some p) t db <= l * mebibyte;
  vi_reservation rid r : reservations db !! rid = Some r →
    ∃ v, volumes db !! rv_volume_id r = Some v ∧ rv_organization_id r = vo_organization_id v ∧
      1 <= rv_maximum_bytes r ∧ 0 <= rv_observed_size r ∧
      rv_observed_size r + rv_maximum_bytes r <= vo_size_limit_bytes v;
  vi_key i j v w key : volumes db !! i = Some v → volumes db !! j = Some w →
    of_key (vo_organization_id v) (vo_project_id v) key (i, v) = true →
    of_key (vo_organization_id v) (vo_project_id v) key (j, w) = true → i = j
}.

Lemma allocated_later t t' jobs id v : t <= t' → allocated t' jobs id v = true → allocated t jobs id v = true.
Proof. unfold allocated. rewrite !orb_true_iff, !Z.ltb_lt. intros Ht [H|H]; [left; lia|by right]. Qed.

Lemma allocated_bytes_later o p t t' clock db :
  volume_inv clock db → t <= t' → allocated_bytes o p t' db <= allocated_bytes o p t db.
Proof.
  intros Hinv Ht. rewrite !allocated_bytes_sum. apply key_sum_le. intros id.
  destruct (volumes db !! id) as [v|] eqn:Ev; [|done]. pose proof (vi_size _ _ Hinv id v Ev).
  destruct (in_scope o p v); simpl; [|lia]. destruct (allocated t' _ id v) eqn:Ea.
  - rewrite (allocated_later t t' _ _ _ Ht Ea). lia.
  - destruct (allocated t _ id v); lia.
Qed.

(** What counts after a change that keeps scope and size, if it counted before. *)
Lemma allocated_bytes_shrinks o p t clock db db' :
  volume_inv clock db →
  (∀ id, match volumes db !! id, volumes db' !! id with
         | Some v, Some v' => in_scope o p v' = in_scope o p v ∧ vo_size_limit_bytes v' = vo_size_limit_bytes v ∧
             (allocated t (deletion_jobs db') id v' = true → allocated t (deletion_jobs db) id v = true)
         | None, None => True
         | _, _ => False end) →
  allocated_bytes o p t db' <= allocated_bytes o p t db.
Proof.
  intros Hinv Hrow. rewrite !allocated_bytes_sum. apply key_sum_le. intros id. specialize (Hrow id).
  destruct (volumes db !! id) as [v|] eqn:Ev, (volumes db' !! id) as [v'|]; try done.
  destruct Hrow as (-> & -> & Ha). pose proof (vi_size _ _ Hinv id v Ev).
  destruct (in_scope o p v); simpl; [|lia]. destruct (allocated t (deletion_jobs db') id v'); [by rewrite Ha|].
  destruct (allocated t _ id v); lia.
Qed.

Lemma allocated_bytes_new o p t db id v :
  volumes db !! id = None →
  allocated_bytes o p t (set_volume id v db) =
  (if in_scope o p v && allocated t (deletion_jobs db) id v then vo_size_limit_bytes v else 0) +
  allocated_bytes o p t db.
Proof.
  intros Hn. rewrite !allocated_bytes_sum.
  exact (key_sum_new (λ id v, if in_scope o p v && allocated t (deletion_jobs db) id v
    then vo_size_limit_bytes v else 0) (volumes db) id v Hn).
Qed.

Lemma no_job db clock id v :
  volume_inv clock db → volumes db !! id = Some v → vo_deleted_at v = None → deletion_jobs db !! id = None.
Proof.
  intros Hinv Hv Hd. destruct (deletion_jobs db !! id) as [j|] eqn:Ej; [|done].
  destruct (vi_job _ _ Hinv id j Ej) as (w & Hw & Hdw & _). congruence.
Qed.

Lemma new_inv clock t db id v ol pl :
  volume_inv clock db → volumes db !! id = None → vo_deleted_at v = None → 0 < vo_size_limit_bytes v →
  storage_organizations db !! vo_organization_id v = Some ol →
  storage_projects db !! vo_project_id v = Some (vo_organization_id v, pl) →
  vo_size_limit_bytes v + allocated_bytes (vo_organization_id v) None t db <= ol * mebibyte →
  vo_size_limit_bytes v + allocated_bytes (vo_organization_id v) (Some (vo_project_id v)) t db <= pl * mebibyte →
  (∀ key, vo_idempotency_key v = Some key → ∀ j w, volumes db !! j = Some w →
     of_key (vo_organization_id v) (vo_project_id v) key (j, w) = false) →
  volume_inv (Z.max clock t) (set_volume id v db).
Proof.
  intros Hinv Hn Hd Hs Hol Hpl Ho Hp Hkey.
  assert (∀ o p t' limit, Z.max clock t <= t' → allocated_bytes o p t' db <= limit →
    (in_scope o p v = true → vo_size_limit_bytes v + allocated_bytes o p t db <= limit) →
    allocated_bytes o p t' (set_volume id v db) <= limit) as Hle.
  { intros o p t' limit Ht Hl Hin. rewrite allocated_bytes_new by done.
    pose proof (allocated_bytes_later o p t t' clock db Hinv ltac:(lia)).
    destruct (in_scope o p v) eqn:Ei; simpl; [|lia]. specialize (Hin eq_refl). destruct (allocated _ _ _ _); lia. }
  pose proof Hinv as [Htn Hsz Hjb Hdl Hor Hpr Hrs Hk]. split; simpl.
  - intros i w Hw. apply lookup_insert_Some in Hw as [[<- <-]|[_ Hw]]; [eauto|by apply (Htn i)].
  - intros i w Hw. apply lookup_insert_Some in Hw as [[<- <-]|[_ Hw]]; [done|by apply (Hsz i)].
  - intros i j Hj. destruct (Hjb i j Hj) as (w & Hw & Hrest). exists w. split; [|done].
    rewrite lookup_insert_ne; [done|congruence].
  - intros i w Hw. apply lookup_insert_Some in Hw as [[<- <-]|[_ Hw]]; [by rewrite Hd; intros []|by apply Hdl].
  - intros o l Hl t' Ht. apply Hle; [done|apply Hor; [done|lia]|].
    intros [<- _]%in_scope_spec. rewrite Hol in Hl. by injection Hl as <-.
  - intros p o l Hl t' Ht. apply Hle; [done|eapply Hpr; [done|lia]|].
    intros [<- Hpp]%in_scope_spec. rewrite <- (Hpp p eq_refl) in *. rewrite Hpl in Hl. by injection Hl as <-.
  - intros rid r Hr. destruct (Hrs rid r Hr) as (w & Hw & Hrest). exists w. split; [|done].
    rewrite lookup_insert_ne; [done|congruence].
  - intros i j w x key Hw Hx Hi Hj. apply lookup_insert_Some in Hw as [[<- <-]|[Hni Hw]], Hx as [[<- <-]|[Hnj Hx]]; try done.
    + unfold of_key in Hi. simpl in Hi. bool_simp. by rewrite (Hkey key ltac:(done) j x Hx) in Hj.
    + exfalso. unfold of_key in Hj. simpl in Hj. bool_simp.
      match goal with H : in_scope _ _ v = true |- _ => apply in_scope_spec in H as [Eo Ep] end.
      specialize (Ep _ eq_refl). assert (of_key (vo_organization_id v) (vo_project_id v) key (i, w) = true) as Hw'
        by by rewrite Eo, Ep. by rewrite (Hkey key ltac:(done) i w Hw) in Hw'.
    + by apply (Hk i j w x key).
Qed.

(** What never changes in a volume, and a deletion once it is recorded. *)
Record volume_keeps (v v' : VolumeRow) : Prop := {
  vk_organization : vo_organization_id v' = vo_organization_id v;
  vk_project : vo_project_id v' = vo_project_id v;
  vk_prefix : vo_object_prefix v' = vo_object_prefix v;
  vk_size : vo_size_limit_bytes v' = vo_size_limit_bytes v;
  vk_created : vo_created_at v' = vo_created_at v;
  vk_expires : vo_expires_at v' = vo_expires_at v;
  vk_key : vo_idempotency_key v' = vo_idempotency_key v;
  vk_hash : vo_create_request_hash v' = vo_create_request_hash v;
  vk_deleted d : vo_deleted_at v = Some d → vo_deleted_at v' = Some d
}.

#[export] Instance volume_keeps_preorder : PreOrder volume_keeps.
Proof.
  split; [by split|]. intros u v w [? ? ? ? ? ? ? ? Hd] [? ? ? ? ? ? ? ? Hd']. split; try congruence.
  intros d Hu. by apply Hd', Hd.
Qed.

Definition keeps_rows (db db' : VolumeDb) : Prop :=
  ∀ id, option_relation volume_keeps (λ _, False) (λ _, False) (volumes db !! id) (volumes db' !! id).

Lemma keeps_back db db' id v' : keeps_rows db db' → volumes db' !! id = Some v' →
  ∃ v, volumes db !! id = Some v ∧ volume_keeps v v'.
Proof. intros Hk Hv. specialize (Hk id). rewrite Hv in Hk. destruct (volumes db !! id); [by eexists|done]. Qed.

Lemma keeps_forth db db' id v : keeps_rows db db' → volumes db !! id = Some v →
  ∃ v', volumes db' !! id = Some v' ∧ volume_keeps v v'.
Proof. intros Hk Hv. specialize (Hk id). rewrite Hv in Hk. destruct (volumes db' !! id); [by eexists|done]. Qed.

Lemma of_key_keeps o p key i v v' : volume_keeps v v' → of_key o p key (i, v') = of_key o p key (i, v).
Proof. intros []. unfold of_key, in_scope. simpl. by rewrite vk_organization0, vk_project0, vk_key0. Qed.

Lemma in_scope_keeps o p v v' : volume_keeps v v' → in_scope o p v' = in_scope o p v.
Proof. intros []. unfold in_scope. by rewrite vk_organization0, vk_project0. Qed.

Lemma keep_inv clock db db' :
  volume_inv clock db → storage_organizations db' = storage_organizations db →
  storage_projects db' = storage_projects db → reservations db' = reservations db → keeps_rows db db' →
  (∀ t id v v', volumes db !! id = Some v → volumes db' !! id = Some v' →
     allocated t (deletion_jobs db') id v' = true → allocated t (deletion_jobs db) id v = true) →
  (∀ id j, deletion_jobs db' !! id = Some j → ∃ v, volumes db' !! id = Some v ∧
     vo_deleted_at v = Some (jb_requested_at j) ∧ jb_delete_after j = jb_requested_at j + retention) →
  (∀ id v, volumes db' !! id = Some v → is_Some (vo_deleted_at v) → is_Some (deletion_jobs db' !! id)) →
  volume_inv clock db'.
Proof.
  intros Hinv Eo Ep Er Hk Ha Hj Hd. pose proof Hinv as [Htn Hsz _ _ Hor Hpr Hrs Hky].
  assert (∀ o p t, allocated_bytes o p t db' <= allocated_bytes o p t db) as Hle.
  { intros o p t. apply (allocated_bytes_shrinks o p t clock); [done|]. intros id. specialize (Hk id).
    destruct (volumes db !! id) as [v|] eqn:Ev, (volumes db' !! id) as [v'|] eqn:Ev'; try done.
    split_and!; [by apply in_scope_keeps|apply Hk|by eapply Ha]. }
  split; rewrite ?Eo, ?Ep, ?Er; try done.
  - intros id v' Hv'. destruct (keeps_back _ _ _ _ Hk Hv') as (v & Hv & []). rewrite vk_organization0, vk_project0.
    by apply (Htn id).
  - intros id v' Hv'. destruct (keeps_back _ _ _ _ Hk Hv') as (v & Hv & []). rewrite vk_size0. by apply (Hsz id).
  - intros o l Hl t Ht. specialize (Hle o None t). specialize (Hor o l Hl t Ht). lia.
  - intros p o l Hl t Ht. specialize (Hle o (Some p) t). specialize (Hpr p o l Hl t Ht). lia.
  - intros rid r Hr. destruct (Hrs rid r Hr) as (v & Hv & Hrest). destruct (keeps_forth _ _ _ _ Hk Hv) as (v' & Hv' & []).
    exists v'. rewrite vk_organization0, vk_size0. done.
  - intros i j v' w' key Hv' Hw' Hi Hj'. destruct (keeps_back _ _ _ _ Hk Hv') as (v & Hv & Hkv).
    destruct (keeps_back _ _ _ _ Hk Hw') as (w & Hw & Hkw). rewrite (of_key_keeps _ _ _ _ _ _ Hkv) in Hi.
    rewrite (of_key_keeps _ _ _ _ _ _ Hkw) in Hj'. destruct Hkv. rewrite vk_organization0, vk_project0 in *.
    by apply (Hky i j v w key).
Qed.

Lemma keeps_update db db' id v v' :
  volumes db' = <[id := v']> (volumes db) → volumes db !! id = Some v → volume_keeps v v' → keeps_rows db db'.
Proof.
  intros E Hv Hk i. rewrite E. destruct (decide (i = id)) as [->|Hn]; [by rewrite Hv, lookup_insert_eq|].
  rewrite lookup_insert_ne by done. by destruct (volumes db !! i).
Qed.

Lemma keeps_refl db db' : volumes db' = volumes db → keeps_rows db db'.
Proof. intros E i. rewrite E. by destruct (volumes db !! i). Qed.

Lemma insert_job_present id j jobs : is_Some (jobs !! id) → insert_job id j jobs = jobs.
Proof. intros [k Hk]. unfold insert_job. by rewrite Hk. Qed.

Lemma insert_job_absent id j jobs : jobs !! id = None → insert_job id j jobs = <[id := j]> jobs.
Proof. intros Hk. unfold insert_job. by rewrite Hk. Qed.

(** A deletion is recorded with its job, whether or not it was already. *)
Lemma delete_inv clock db id v d o now :
  volume_inv clock db → volumes db !! id = Some v → vo_deleted_at v = None ∨ vo_deleted_at v = Some d →
  volume_inv clock (set_volume id (deleted_volume d o v) db
    <| deletion_jobs ::= insert_job id (new_job (deleted_volume d o v) (d + retention) d now) |>).
Proof.
  intros Hinv Hv Hd. set (v' := deleted_volume d o v).
  assert (volume_keeps v v') as Hk by (split; try done; intros x Hx; simpl; destruct Hd; congruence).
  assert (∃ j, (deletion_jobs db !! id = Some j ∨ deletion_jobs db !! id = None) ∧
    insert_job id (new_job v' (d + retention) d now) (deletion_jobs db) = <[id := j]> (deletion_jobs db) ∧
    jb_requested_at j = d ∧ jb_delete_after j = d + retention ∧
    (vo_deleted_at v = None → deletion_jobs db !! id = None ∧ jb_scheduled_at j = None) ∧
    (vo_deleted_at v = Some d → deletion_jobs db !! id = Some j)) as (j & Hor & Ej & Hr & Ha & Hnone & Hsome).
  { destruct Hd as [Hd|Hd].
    - pose proof (no_job db clock id v Hinv Hv Hd) as Hn. exists (new_job v' (d + retention) d now).
      rewrite insert_job_absent by done. split_and!; try done; [by right|congruence].
    - destruct (vi_deleted _ _ Hinv id v Hv ltac:(eauto)) as [j Hj]. exists j.
      destruct (vi_job _ _ Hinv id j Hj) as (w & Hw & Hdw & Haw).
      rewrite insert_job_present by eauto. rewrite insert_id by done.
      split_and!; try done; [by left|congruence..]. }
  apply (keep_inv clock db); simpl; try done; rewrite ?Ej.
  - by apply (keeps_update _ _ id v v').
  - intros t i w w' Hw Hw'. unfold allocated, deletion_scheduled. destruct (decide (i = id)) as [->|Hn].
    + rewrite lookup_insert_eq. rewrite lookup_insert_eq in Hw'. simplify_eq. destruct Hd as [Hd|Hd].
      * intros _. destruct (Hnone Hd) as [-> _]. apply orb_true_r.
      * by rewrite (Hsome Hd), Hd.
    + rewrite lookup_insert_ne in Hw' by done. rewrite lookup_insert_ne by done. by simplify_eq.
  - intros i j' Hj'. destruct (decide (i = id)) as [->|Hn].
    + rewrite lookup_insert_eq. rewrite lookup_insert_eq in Hj'. simplify_eq. exists v'. split_and!; [done|done|lia].
    + rewrite lookup_insert_ne by done. rewrite lookup_insert_ne in Hj' by done. by apply (vi_job _ _ Hinv).
  - intros i w Hw Hdw. destruct (decide (i = id)) as [->|Hn]; [by rewrite lookup_insert_eq|].
    rewrite lookup_insert_ne by done. rewrite lookup_insert_ne in Hw by done. by eapply (vi_deleted _ _ Hinv).
Qed.

Lemma jobs_inv clock db jobs :
  volume_inv clock db →
  (∀ id, option_relation job_le (λ _, False) (λ _, False) (deletion_jobs db !! id) (jobs !! id)) →
  volume_inv clock (db <| deletion_jobs := jobs |>).
Proof.
  intros Hinv Hle. apply (keep_inv clock db); simpl; try done.
  - by apply keeps_refl.
  - intros t id v v' Hv Hv'. simplify_eq. unfold allocated, deletion_scheduled. specialize (Hle id).
    destruct (deletion_jobs db !! id) as [j|], (jobs !! id) as [j'|]; try done.
    rewrite !orb_true_iff, !negb_true_iff, !bool_decide_eq_false. intros [H|H]; [by left|right].
    intros [x Hx]. apply H. rewrite (jl_scheduled _ _ Hle x Hx). by eexists.
  - intros id j' Hj'. specialize (Hle id). rewrite Hj' in Hle. destruct (deletion_jobs db !! id) as [j|] eqn:Ej; [|done].
    destruct Hle. rewrite jl_requested0, jl_delete_after0. by apply (vi_job _ _ Hinv).
  - intros id v Hv Hd. destruct (vi_deleted _ _ Hinv id v Hv Hd) as [j Hj]. specialize (Hle id). rewrite Hj in Hle.
    by destruct (jobs !! id).
Qed.

Lemma observe_inv clock db id v o :
  volume_inv clock db → volumes db !! id = Some v → volume_inv clock (set_volume id (v <| vo_observed_size_bytes := o |>) db).
Proof.
  intros Hinv Hv. apply (keep_inv clock db); simpl; try done.
  - by eapply (keeps_update _ _ id v); [done..|split].
  - intros t i w w' Hw Hw'. apply lookup_insert_Some in Hw' as [[<- <-]|[_ Hw']]; by simplify_eq.
  - intros i j Hj. destruct (vi_job _ _ Hinv i j Hj) as (w & Hw & Hrest). destruct (decide (i = id)) as [->|Hn].
    + rewrite lookup_insert_eq. simplify_eq. eexists. split; [done|]. done.
    + rewrite lookup_insert_ne by done. eauto.
  - intros i w Hw Hd. apply lookup_insert_Some in Hw as [[<- <-]|[_ Hw]]; by eapply (vi_deleted _ _ Hinv).
Qed.

Lemma reservations_inv clock db rid r :
  volume_inv clock db →
  (∃ v, volumes db !! rv_volume_id r = Some v ∧ rv_organization_id r = vo_organization_id v ∧
    1 <= rv_maximum_bytes r ∧ 0 <= rv_observed_size r ∧
    rv_observed_size r + rv_maximum_bytes r <= vo_size_limit_bytes v) →
  volume_inv clock (db <| reservations ::= <[rid := r]> |>).
Proof.
  intros [] Hr. split; simpl; try done.
  intros i r' Hr'. apply lookup_insert_Some in Hr' as [[<- <-]|[_ Hr']]; [done|by apply (vi_reservation0 i)].
Qed.

Lemma outstanding_nonneg volume now o db : 0 <= outstanding volume now o db.
Proof. apply map_sum_nonneg. intros i r _. unfold outstanding_of. case_match; lia. Qed.

Lemma volume_environment_inv clock db db' : volume_inv clock db → volume_environment db db' → volume_inv clock db'.
Proof.
  intros Hinv [Ev Er Ej Ho Hno Hp Hnp]. pose proof Hinv as [Htn Hsz Hjb Hdl Hor Hpr Hrs Hky].
  assert (∀ o p t, allocated_bytes o p t db' = allocated_bytes o p t db) as Ea
    by (intros; unfold allocated_bytes; by rewrite Ev, Ej).
  assert (∀ o p t, (∀ id v, volumes db !! id = Some v → in_scope o p v = false) → allocated_bytes o p t db = 0) as Hz.
  { intros o p t Hs. unfold allocated_bytes. apply sum_with_zero. intros [id v] Hv%elem_of_map_to_list. simpl.
    by rewrite (Hs id v Hv). }
  assert (∀ l, 0 <= l → 0 <= l * mebibyte) as Hm by (unfold mebibyte; lia).
  assert (∀ l l', l <= l' → l * mebibyte <= l' * mebibyte) as Hmm by (unfold mebibyte; lia).
  split; rewrite ?Ev, ?Er, ?Ej; try done.
  - intros id v Hv. destruct (Htn id v Hv) as [[ol Hol] [pl Hpl]]. split.
    + destruct (Ho _ _ Hol) as (? & ? & _). by eexists.
    + destruct (Hp _ _ _ Hpl) as (? & ? & _). eauto.
  - intros o l' Hl' t Ht. rewrite Ea. destruct (storage_organizations db !! o) as [l|] eqn:El.
    + destruct (Ho o l El) as (l1 & Hl1 & Hle). simplify_eq. specialize (Hor o l El t Ht). specialize (Hmm l l' Hle). lia.
    + rewrite Hz; [by apply Hm, (Hno o)|]. intros id v Hv. destruct (Htn id v Hv) as [[ol Hol] _].
      destruct (in_scope o None v) eqn:Es; [|done]. apply in_scope_spec in Es as [<- _]. congruence.
  - intros p o l' Hl' t Ht. rewrite Ea. destruct (storage_projects db !! p) as [[o1 l]|] eqn:El.
    + destruct (Hp p o1 l El) as (l1 & Hl1 & Hle). simplify_eq. specialize (Hpr p o l El t Ht). specialize (Hmm l l' Hle). lia.
    + rewrite Hz; [by apply Hm, (Hnp p o)|]. intros id v Hv. destruct (Htn id v Hv) as [_ [pl Hpl]].
      destruct (in_scope o (Some p) v) eqn:Es; [|done]. apply in_scope_spec in Es as [_ Es].
      rewrite (Es p eq_refl) in Hpl. congruence.
Qed.

Lemma inv_later clock clock' db : clock <= clock' → volume_inv clock db → volume_inv clock' db.
Proof. intros Hle []. split; try done; intros; [eapply vi_organization0|eapply vi_project0]; try done; lia. Qed.

Lemma move_inv clock t db db' : volume_inv clock db → volume_move t db db' → volume_inv (Z.max clock t) db'.
Proof.
  intros Hinv Hm. destruct Hm as [id v ol pl Hn Hd Hs _ _ Ho Hp Hlo Hlp Hk|id v o Hv|id v d o now Hv Hd
    |rid r v Hv _ _ Horg Ho Hz H1 Hmax|rid r x Hr|jobs Hj|db' He].
  - by eapply new_inv.
  - eapply inv_later; [|by eapply observe_inv]. lia.
  - eapply inv_later; [|by eapply delete_inv]. lia.
  - eapply inv_later; [|eapply reservations_inv; [done|]]; [lia|]. exists v.
    pose proof (outstanding_nonneg (rv_volume_id r) t (vo_observed_size_bytes v) db). split_and!; try done; lia.
  - eapply inv_later; [|eapply reservations_inv; [done|]]; [lia|]. exact (vi_reservation _ _ Hinv rid r Hr).
  - eapply inv_later; [|by apply jobs_inv]. lia.
  - eapply inv_later; [|by eapply volume_environment_inv]. lia.
Qed.

Lemma moves_inv clock t db db' : volume_inv clock db → moves t db db' → volume_inv (Z.max clock t) db'.
Proof.
  intros Hinv Hm. assert (∀ c, c <= Z.max clock t → volume_inv c db → volume_inv (Z.max clock t) db') as Hi; [|by apply (Hi clock); [lia|]].
  clear Hinv. induction Hm as [db|db db1 db' Hs _ IH]; intros c Hc Hinv; [by eapply inv_later|].
  apply (IH (Z.max c t)); [lia|]. by apply (move_inv _ _ db).
Qed.

(** ** Reachable tables *)

(** Tenants without volumes. *)
Record storage_start (db : VolumeDb) : Prop := {
  ss_volumes : volumes db = ∅;
  ss_reservations : reservations db = ∅;
  ss_jobs : deletion_jobs db = ∅;
  ss_organizations o l : storage_organizations db !! o = Some l → 0 <= l;
  ss_projects p o l : storage_projects db !! p = Some (o, l) → 0 <= l
}.

Lemma storage_start_inv clock db : storage_start db → volume_inv clock db.
Proof.
  intros [Ev Er Ej Ho Hp].
  assert (∀ o p t, allocated_bytes o p t db = 0) as Hz by (intros; unfold allocated_bytes; by rewrite Ev, map_to_list_empty).
  split; rewrite ?Ev, ?Er, ?Ej; try (by intros *; rewrite lookup_empty).
  - intros o l Hl t _. rewrite Hz. unfold mebibyte. specialize (Ho o l Hl). lia.
  - intros p o l Hl t _. rewrite Hz. unfold mebibyte. specialize (Hp p o l Hl). lia.
Qed.

(** Rows persist. *)
Record volume_tables_le (db db' : VolumeDb) : Prop := {
  vt_volume id v : volumes db !! id = Some v → ∃ v', volumes db' !! id = Some v' ∧ volume_keeps v v';
  vt_job id j : deletion_jobs db !! id = Some j → ∃ j', deletion_jobs db' !! id = Some j' ∧ job_le j j';
  vt_reservation rid r : reservations db !! rid = Some r →
    ∃ r', reservations db' !! rid = Some r' ∧ rv_volume_id r' = rv_volume_id r ∧
      rv_maximum_bytes r' = rv_maximum_bytes r ∧ rv_expires_at r' = rv_expires_at r;
  vt_organization o : is_Some (storage_organizations db !! o) → is_Some (storage_organizations db' !! o);
  vt_project p o l : storage_projects db !! p = Some (o, l) → ∃ l', storage_projects db' !! p = Some (o, l')
}.

#[export] Instance job_le_preorder : PreOrder job_le.
Proof.
  split; [split; [done..|lia|done]|]. intros i j k [E1 E2 E3 H1] [E4 E5 E6 H2]. split; [congruence..|lia|auto].
Qed.

(** Tables whose rows are the same. *)
Ltac same_rows :=
  split; simpl; try done; try (let x := fresh in intros ? x ?; by exists x); try (let x := fresh in intros ? ? x ?; by exists x).

#[export] Instance volume_tables_le_preorder : PreOrder volume_tables_le.
Proof.
  split.
  - intros db. by same_rows.
  - intros a b c [] []. split.
    + intros id v Hv. destruct (vt_volume0 id v Hv) as (v1 & Hv1 & H1), (vt_volume1 id v1 Hv1) as (v2 & Hv2 & H2).
      exists v2. split; [done|]. by transitivity v1.
    + intros id j Hj. destruct (vt_job0 id j Hj) as (j1 & Hj1 & H1), (vt_job1 id j1 Hj1) as (j2 & Hj2 & H2).
      exists j2. split; [done|]. by transitivity j1.
    + intros rid r Hr. destruct (vt_reservation0 rid r Hr) as (r1 & Hr1 & ? & ? & ?).
      destruct (vt_reservation1 rid r1 Hr1) as (r2 & ? & ? & ? & ?). exists r2. split_and!; congruence.
    + auto.
    + intros p o l Hl. destruct (vt_project0 p o l Hl) as [l1 Hl1]. eauto.
Qed.

Lemma keep_le db db' :
  storage_organizations db' = storage_organizations db → storage_projects db' = storage_projects db →
  reservations db' = reservations db →
  (∀ id v, volumes db !! id = Some v → ∃ v', volumes db' !! id = Some v' ∧ volume_keeps v v') →
  (∀ id j, deletion_jobs db !! id = Some j → ∃ j', deletion_jobs db' !! id = Some j' ∧ job_le j j') →
  volume_tables_le db db'.
Proof. intros Eo Ep Er Hv Hj. split; rewrite ?Eo, ?Ep, ?Er; try done; [intros i r Hr; by exists r|intros p o l Hl; by exists l]. Qed.

Lemma insert_keeps (vs : gmap string VolumeRow) id v v' i w :
  vs !! id = Some v → volume_keeps v v' → vs !! i = Some w →
  ∃ w', <[id := v']> vs !! i = Some w' ∧ volume_keeps w w'.
Proof.
  intros Hv Hk Hw. destruct (decide (i = id)) as [->|Hn].
  - rewrite lookup_insert_eq. simplify_eq. eauto.
  - rewrite lookup_insert_ne by done. by exists w.
Qed.

Lemma move_le t db db' : volume_move t db db' → volume_tables_le db db'.
Proof.
  intros Hm. destruct Hm as [id v ol pl Hn Hd Hs _ _ Ho Hp Hlo Hlp Hk|id v o Hv|id v d o now Hv Hd
    |rid r v Hv _ Hnr Horg Ho Hz H1 Hmax|rid r x Hr|jobs Hj|db' He].
  - apply keep_le; simpl; try done.
    + intros i w Hw. rewrite lookup_insert_ne by congruence. by exists w.
    + intros i j Hj. by exists j.
  - apply keep_le; simpl; try done.
    + intros i w. apply (insert_keeps _ id v); [done|by split].
    + intros i j Hj. by exists j.
  - apply keep_le; simpl; try done.
    + intros i w. apply (insert_keeps _ id v); [done|]. split; try done.
      intros x Hx. simpl. destruct Hd as [Hd|Hd]; rewrite Hd in Hx; [done|by injection Hx as ->].
    + intros i j Hj. exists j. split; [|done]. unfold insert_job.
      destruct (deletion_jobs db !! id) eqn:E; [done|]. rewrite lookup_insert_ne; [done|congruence].
  - same_rows.
    intros i r' Hr'. exists r'. rewrite lookup_insert_ne; [done|congruence].
  - same_rows.
    intros i r' Hr'. destruct (decide (i = rid)) as [->|Hne].
    + rewrite lookup_insert_eq. simplify_eq. eexists. split; [done|]. done.
    + rewrite lookup_insert_ne by done. by exists r'.
  - same_rows. intros i j E. specialize (Hj i). rewrite E in Hj. destruct (jobs !! i); [by eexists|done].
  - destruct He as [Ev Er Ej Ho _ Hp _]. same_rows; rewrite ?Ev, ?Er, ?Ej.
    + intros i v Hv. by exists v.
    + intros i j Hj. by exists j.
    + intros i r Hr. by exists r.
    + intros o [l Hl]. destruct (Ho o l Hl) as (l' & Hl' & _). by eexists.
    + intros p o l Hl. destruct (Hp p o l Hl) as (l' & Hl' & _). eauto.
Qed.

Lemma moves_le t db db' : moves t db db' → volume_tables_le db db'.
Proof. induction 1 as [|db db1 db' Hs _ IH]; [done|]. etrans; [by eapply move_le|done]. Qed.

Section reachable.
Context `{BillingAdmission VolumeDb}.

Definition storage_reachable (clock : Z) (db : VolumeDb) : Prop :=
  ∃ clock0 db0, storage_start db0 ∧ rtc timed_step (clock0, db0) (clock, db).

Lemma timed_inv s s' : volume_inv s.1 s.2 → rtc timed_step s s' → volume_inv s'.1 s'.2.
Proof.
  intros Hinv Hr. induction Hr as [|s s1 s' (t & Ht & E) _ IH]; [done|]. apply IH. rewrite E.
  eapply moves_inv; [done|by apply volume_step_moves].
Qed.

Lemma reachable_volumes clock db : storage_reachable clock db → volume_inv clock db.
Proof.
  intros (clock0 & db0 & Hs & Hr). apply (timed_inv (clock0, db0) (clock, db)); [by apply storage_start_inv|done].
Qed.

Lemma some_steps_le db db' : rtc some_step db db' → volume_tables_le db db'.
Proof. induction 1 as [|db db1 db' [t Ht] _ IH]; [done|]. etrans; [by eapply moves_le, volume_step_moves|done]. Qed.

Lemma some_steps_inv clock db db' :
  volume_inv clock db → rtc some_step db db' → ∃ clock', clock <= clock' ∧ volume_inv clock' db'.
Proof.
  intros Hinv Hr. revert clock Hinv. induction Hr as [db|db db1 db' [t Ht] _ IH]; intros clock Hinv; [by exists clock|].
  destruct (IH (Z.max clock t)) as (c & Hc & Hi); [by eapply moves_inv, volume_step_moves|]. exists c. split; [lia|done].
Qed.
End reachable.

(** * A tenant with one volume

    A small organization, and runs of the volume repository in it: the concrete
    inputs at which the theorems about volumes are applied. *)

#[export] Instance demo_volume_billing : BillingAdmission VolumeDb := volume_billing sample_policy.

(** ** Running a transaction *)

Definition run {S E A} (tx : Tx S E A) (s : S) : S := match tx s with Ok (_, s') => s' | Err _ => s end.
Definition answer {S E A} (tx : Tx S E A) (s : S) : option A := match tx s with Ok (a, _) => Some a | Err _ => None end.

Lemma answered {S E A} (tx : Tx S E A) s a : answer tx s = Some a → tx s = Ok (a, run tx s).
Proof. unfold answer, run. destruct (tx s) as [[x s']|e]; [by intros [= ->]|done]. Qed.

Lemma ran {S E A} (tx : Tx S E A) s : is_ok (tx s) = true → ∃ a, tx s = Ok (a, run tx s).
Proof. unfold run. destruct (tx s) as [[x s']|e]; [eauto|done]. Qed.

(** ** The tenant *)

Definition demo_org : string := "0a000000-0000-4000-8000-000000000001".
Definition demo_project : string := "0b000000-0000-4000-8000-000000000001".

(** 100 bytes, created at 0 and kept for an hour. *)
Definition demo_volume : VolumeRow :=
  mkVolume demo_org demo_project "organizations/o/projects/p/volumes/vol_1/" 100 0 0 3600000 None None None.

Definition demo_tables : VolumeDb :=
  mkVolumeDb {[ demo_org := 1 ]} {[ demo_project := (demo_org, 1) ]} ∅ ∅ ∅ [] (mkBillingTables ∅ [] [] []).

Definition demo_create : VolumeTx (Volume * bool) := admitCreate 0 ("vol_1", demo_volume) "key" "hash".
Definition demo_created : VolumeDb := run demo_create demo_tables.

(** A reservation at [now] that expires at [expires]. *)
Definition demo_request (observed now expires : Z) (key : option string) : ReserveInput :=
  mkReserve "vol_1" demo_org (Some demo_project) (NInt observed) now expires key.
Definition demo_reserve (rid : string) (observed now expires : Z) :
    VolumeTx (option (Volume * VolumeWriteGrantReservation)) :=
  reserveWriteGrant 0 rid (demo_request observed now expires None).

Definition demo_reserved : VolumeDb := run (demo_reserve "ra" 50 1000 2000) demo_created.
Definition demo_shrunk : VolumeDb := run (updateObservedSize "vol_1" demo_org 20) demo_reserved.
Definition demo_second : VolumeDb := run (demo_reserve "rb" 20 1500 9000) demo_shrunk.
Definition demo_third : VolumeDb := run (demo_reserve "rc" 20 2500 9000) demo_second.

Definition demo_deletion : EnqueueInput := mkEnqueue "vol_1" demo_org None 5000 20.
Definition demo_deleted : VolumeDb := run (enqueueDeletion demo_deletion) demo_third.

(** ** Its runs *)

Lemma demo_storage_start : storage_start demo_tables.
Proof.
  split; [reflexivity..| |].
  - intros o l Hl. cbn in Hl. apply lookup_singleton_Some in Hl as [_ <-]. lia.
  - intros p o l Hl. cbn in Hl. apply lookup_singleton_Some in Hl as [_ [= <- <-]]. lia.
Qed.

Lemma ran_step {A} t (tx : VolumeTx A) clock db :
  (∀ a db', tx db = Ok (a, db') → volume_step t db db') → is_ok (tx db) = true →
  timed_step (clock, db) (Z.max clock t, run tx db).
Proof. intros Hs [a Ha]%ran. exists t. split; [by apply (Hs a)|done]. Qed.

Lemma reachable_then clock clock' db db' :
  storage_reachable clock db → timed_step (clock, db) (clock', db') → storage_reachable clock' db'.
Proof. intros (c0 & d0 & Hs & Hr) Ht. exists c0, d0. split; [done|]. by eapply rtc_r. Qed.

Lemma demo_create_step : timed_step (0, demo_tables) (0, demo_created).
Proof.
  apply (ran_step 0 demo_create 0).
  - intros a db'. apply (vs_admit 0 "vol_1" demo_volume "key" "hash"); [reflexivity|reflexivity].
  - vm_compute. reflexivity.
Qed.

Lemma demo_reserve_step rid observed now expires clock db :
  is_ok (demo_reserve rid observed now expires db) = true →
  timed_step (clock, db) (Z.max clock now, run (demo_reserve rid observed now expires) db).
Proof. apply (ran_step now). intros a db'. apply vs_reserve. Qed.

Lemma demo_reserved_step : timed_step (0, demo_created) (1000, demo_reserved).
Proof. apply (demo_reserve_step "ra" 50 1000 2000 0). vm_compute. reflexivity. Qed.

Lemma demo_volume_reachable : storage_reachable 0 demo_created.
Proof. exists 0, demo_tables. split; [exact demo_storage_start|]. apply rtc_once, demo_create_step. Qed.

Lemma demo_third_reachable : storage_reachable 2500 demo_third.
Proof.
  eapply reachable_then; [eapply reachable_then; [eapply reachable_then; [eapply reachable_then|]|]|].
  - exact demo_volume_reachable.
  - exact demo_reserved_step.
  - apply (ran_step 1000 (updateObservedSize "vol_1" demo_org 20) 1000).
    + intros a db'. apply vs_observe.
    + vm_compute. reflexivity.
  - apply (demo_reserve_step "rb" 20 1500 9000 1000). vm_compute. reflexivity.
  - apply (demo_reserve_step "rc" 20 2500 9000 1500). vm_compute. reflexivity.
Qed.

(** ** The reservations of the last run *)

Definition demo_reservation (observed maximum now expires : Z) : ReservationRow :=
  mkReservation "vol_1" demo_org None 1 observed maximum now expires None.
Definition demo_observed : VolumeRow :=
  demo_volume <| vo_observed_size_bytes := 20 |> <| vo_idempotency_key := Some "key" |>
              <| vo_create_request_hash := Some "hash" |>.

Lemma demo_reservations :
  reservations demo_third =
    {[ "ra" := demo_reservation 50 50 1000 2000; "rb" := demo_reservation 20 30 1500 9000;
       "rc" := demo_reservation 20 50 2500 9000 ]}.
Proof. vm_compute. reflexivity. Qed.

Lemma demo_active i r :
  reservations demo_third !! i = Some r → reservation_active "vol_1" 3000 r = true → i = "rb" ∨ i = "rc".
Proof.
  rewrite demo_reservations. intros Hr Ha.
  apply lookup_insert_Some in Hr as [[<- <-]|[_ Hr]]; [discriminate Ha|].
  apply lookup_insert_Some in Hr as [[<- _]|[_ Hr]]; [by left|].
  apply lookup_singleton_Some in Hr as [<- _]. by right.
Qed.
