(* ===== verification/VolumeTheorems.v ===== *)
(** * What holds of volumes *)

From S2P Require Import Prelude Text Js Capacity Billing Volumes VolumeInv.

Section theorems.
Context `{BillingAdmission VolumeDb}.

(** ** Creation *)

(** What an admitted creation left: the volume of its key, with its hash. *)
Lemma admitCreate_Ok now id v key hash db a db' :
  admitCreate now (id, v) key hash db = Ok (a, db') →
  let organization := uuid_text (vo_organization_id v) in
  let project := uuid_text (vo_project_id v) in
  is_Some (storage_organizations db !! organization) ∧
  (∃ l, storage_projects db !! project = Some (organization, l)) ∧
  ∃ w, volumes db' !! a.1.1 = Some w ∧ of_key organization project key (a.1.1, w) = true ∧
    vo_create_request_hash w = Some hash.
Proof.
  unfold admitCreate. destruct (storage_organizations db !! _) as [ol|] eqn:Eo; [|done].
  destruct (storage_projects db !! _) as [[owner pl]|] eqn:Ep; [|done].
  destruct (negb (String.eqb owner _)) eqn:Eown; [done|]. bool_simp.
  intros Hx. split; [by eexists|]. split; [exists pl; by rewrite Eown|].
  destruct (find _ _) as [[i w]|] eqn:Ef.
  { destruct (bool_decide _) eqn:Eh; [|done]. injection Hx as <- <-. bool_simp.
    apply find_some in Ef as [Hin Hk]. exists w. split_and!; [|done..].
    by apply elem_of_map_to_list, list_elem_of_In. }
  apply tx_bind_Ok in Hx as (? & db1 & ->%billed_Ok & Hx).
  apply tx_bind_Ok in Hx as (? & db2 & [_ ->]%require_Ok & Hx).
  apply tx_bind_Ok in Hx as (? & db3 & [_ ->]%require_Ok & Hx).
  apply tx_bind_Ok in Hx as (? & db4 & Hi & Hx). injection Hx as <- ->. unfold insert_volume in Hi.
  destruct (bool_decide (is_Some _)); [done|]. destruct (existsb _ _); [done|]. injection Hi as _ <-. simpl.
  eexists. rewrite lookup_insert_eq. split_and!; [done| |done].
  unfold of_key, in_scope. simpl. rewrite !String.eqb_refl. by rewrite bool_decide_eq_true_2.
Qed.

Lemma find_key clock db id w organization project key :
  volume_inv clock db → volumes db !! id = Some w → of_key organization project key (id, w) = true →
  find (of_key organization project key) (map_to_list (volumes db)) = Some (id, w).
Proof.
  intros Hinv Hw Hk. destruct (find _ _) as [[i x]|] eqn:Ef.
  - apply find_some in Ef as [Hin Hk']. apply list_elem_of_In, elem_of_map_to_list in Hin.
    assert (i = id) as ->; [|by simplify_eq].
    assert (organization = vo_organization_id w ∧ project = vo_project_id w) as [-> ->].
    { unfold of_key in Hk. simpl in Hk. bool_simp.
      match goal with H : in_scope _ _ _ = true |- _ => apply in_scope_spec in H as [? Hp] end.
      split; [done|]. symmetry. by apply Hp. }
    symmetry. by apply (vi_key _ _ Hinv id i w x key).
  - eapply find_None in Ef; [|by apply elem_of_map_to_list]. congruence.
Qed.

(** C25: Storage quotas hold at every instant.  However creations, deletions and
    deliveries interleave, the volumes of an organization and of a project that
    have not been deleted from the store weigh at most its limit, from the latest
    clock reading on. *)
Theorem storage_quota_holds clock db t :
  storage_reachable clock db → clock <= t →
  (∀ o l, storage_organizations db !! o = Some l → allocated_bytes o None t db <= l * mebibyte) ∧
  (∀ p o l, storage_projects db !! p = Some (o, l) → allocated_bytes o (Some p) t db <= l * mebibyte).
Proof.
  intros Hr Ht. apply reachable_volumes in Hr. split.
  - intros o l Hl. by apply (vi_organization _ _ Hr).
  - intros p o l Hl. by eapply (vi_project _ _ Hr).
Qed.

(** A creation key names one volume for good: whatever happened since, the
    key is answered with the volume it first admitted and changes nothing when
    the request is the same, and is refused as a conflict when it is not. *)
Theorem create_key_replays clock now now' id id' v v' key hash hash' a db db1 db2 :
  storage_reachable clock db → 0 < vo_size_limit_bytes v → vo_deleted_at v = None →
  admitCreate now (id, v) key hash db = Ok (a, db1) → rtc some_step db1 db2 →
  uuid_text (vo_organization_id v') = uuid_text (vo_organization_id v) →
  uuid_text (vo_project_id v') = uuid_text (vo_project_id v) →
  ∃ w, volumes db2 !! a.1.1 = Some w ∧ vo_create_request_hash w = Some hash ∧
    admitCreate now' (id', v') key hash' db2 =
      if String.eqb hash hash' then Ok ((a.1.1, w, true), db2) else Err VolumeIdempotencyConflict.
Proof.
  intros Hr Hs Hd Ha Hsteps Eo Ep. pose proof (admitCreate_Ok _ _ _ _ _ _ _ _ Ha) as (Ho & (l & Hl) & w & Hw & Hk & Hh).
  assert (rtc some_step db db2) as Hall by (eapply rtc_l; [by exists (vo_created_at v); eapply vs_admit|done]).
  destruct (some_steps_inv clock db db2 (reachable_volumes _ _ Hr) Hall) as (c & _ & Hinv2).
  pose proof (some_steps_le _ _ Hsteps) as Hle. pose proof (some_steps_le _ _ Hall) as Hle'.
  destruct (vt_volume _ _ Hle _ _ Hw) as (w2 & Hw2 & Hkeep). exists w2.
  assert (vo_create_request_hash w2 = Some hash) as Hh2 by (destruct Hkeep; congruence).
  split_and!; [done..|]. destruct (vt_organization _ _ Hle' _ Ho) as [ol Hol].
  destruct (vt_project _ _ Hle' _ _ _ Hl) as [pl Hpl].
  unfold admitCreate. rewrite Eo, Ep, Hol, Hpl, String.eqb_refl. simpl.
  rewrite (find_key c db2 a.1.1 w2); [|done..|by rewrite (of_key_keeps _ _ _ _ _ _ Hkeep)]. simpl. rewrite Hh2.
  destruct (String.eqb_spec hash hash') as [->|Hn]; [by rewrite bool_decide_eq_true_2|].
  rewrite bool_decide_eq_false_2; [done|congruence].
Qed.

(** ** Deletion *)

Lemma enqueueDeletion_Some input i v deleteAfter db db' :
  enqueueDeletion input db = Ok (Some ((i, v), deleteAfter), db') →
  i = eq_id input ∧ volumes db' !! i = Some v ∧
  ∃ d, vo_deleted_at v = Some d ∧ deleteAfter = d + retention.
Proof.
  unfold enqueueDeletion. destruct (own_volume _ _ _ _) as [w|]; [|done]. intros [= <- <- <- <-]. simpl.
  split; [done|]. rewrite lookup_insert_eq. split; [done|]. eauto.
Qed.

Lemma deleted_not_live now v d : vo_deleted_at v = Some d → volume_live now v = false.
Proof. intros Hd. unfold volume_live. by rewrite Hd. Qed.

Lemma own_volume_not db id organization project v :
  volumes db !! id = Some v → own_volume db id organization project = Some v ∨ own_volume db id organization project = None.
Proof. intros Hv. unfold own_volume. rewrite Hv. simpl. destruct (in_scope _ _ v); auto. Qed.

(** A deletion is final.  Whatever happens after it, the volume keeps its
    deletion time and a job that is due seven days later, no tenant finds it, no
    write is reserved for it and no reserved write is issued, and its bytes stay
    allocated until the job is done. *)
Theorem deleted_volume_is_over clock input i v deleteAfter db db1 db2 :
  storage_reachable clock db → enqueueDeletion input db = Ok (Some ((i, v), deleteAfter), db1) →
  rtc some_step db1 db2 →
  ∃ v2 j d, volumes db2 !! i = Some v2 ∧ vo_deleted_at v2 = Some d ∧ vo_deleted_at v = Some d ∧
    deletion_jobs db2 !! i = Some j ∧ jb_delete_after j = deleteAfter ∧ deleteAfter = d + retention ∧
    (∀ organization project t, find_volume db2 i organization project t = None) ∧
    (∀ now rid r, ri_id r = i → reserveWriteGrant now rid r db2 = Ok (None, db2)) ∧
    (∀ rid r organization t, reservations db2 !! rid = Some r → rv_volume_id r = i →
       markWriteGrantIssued rid organization t db2 = Ok (false, db2)) ∧
    (jb_scheduled_at j = None → ∀ t, allocated t (deletion_jobs db2) i v2 = true).
Proof.
  intros Hr He Hsteps. pose proof (enqueueDeletion_Some _ _ _ _ _ _ He) as (Hi & Hv & d & Hd & ->).
  assert (rtc some_step db db2) as Hall by (eapply rtc_l; [by eexists; eapply vs_enqueue|done]).
  destruct (some_steps_inv clock db db2 (reachable_volumes _ _ Hr) Hall) as (c & _ & Hinv2).
  destruct (vt_volume _ _ (some_steps_le _ _ Hsteps) _ _ Hv) as (v2 & Hv2 & Hkeep).
  pose proof (vk_deleted _ _ Hkeep d Hd) as Hd2.
  destruct (vi_deleted _ _ Hinv2 i v2 Hv2 ltac:(eauto)) as [j Hj].
  destruct (vi_job _ _ Hinv2 i j Hj) as (w & Hw & Hdw & Haft). assert (w = v2) as -> by congruence.
  assert (∀ t, volume_live t v2 = false) as Hlive by (intros; by eapply deleted_not_live).
  exists v2, j, d. split_and!; try done; [congruence|..].
  - intros o p t. unfold find_volume. destruct (own_volume_not db2 i o p v2 Hv2) as [->| ->]; simpl; [by rewrite Hlive|done].
  - intros now rid r E. unfold reserveWriteGrant. destruct (storage_organizations db2 !! _); [|done]. rewrite E.
    destruct (own_volume_not db2 i (ri_organization_id r) (ri_project_id r) v2 Hv2) as [->| ->]; [by rewrite Hlive|done].
  - intros rid r o t Hres E. unfold markWriteGrantIssued. rewrite Hres, E. destruct (String.eqb _ _); [|done].
    destruct (own_volume_not db2 i o None v2 Hv2) as [->| ->]; [by rewrite Hlive|done].
  - intros Hn t. unfold allocated, deletion_scheduled. rewrite Hj, Hn. apply orb_true_r.
Qed.

(** ** Writers *)

(** The observed size of a volume does not shrink in this step. *)
Definition growing_step (id : string) (s s' : Z * VolumeDb) : Prop :=
  timed_step s s' ∧
  ∀ v v', volumes s.2 !! id = Some v → volumes s'.2 !! id = Some v' →
    vo_observed_size_bytes v <= vo_observed_size_bytes v'.

Definition same_grant (r r' : ReservationRow) : Prop :=
  rv_volume_id r' = rv_volume_id r ∧ rv_observed_size r' = rv_observed_size r ∧
  rv_maximum_bytes r' = rv_maximum_bytes r ∧ rv_expires_at r' = rv_expires_at r.

(** Only a reservation adds reservations. *)
Lemma step_reservations t db db' :
  volume_step t db db' →
  (∀ rid r', reservations db' !! rid = Some r' → ∃ r, reservations db !! rid = Some r ∧ same_grant r r') ∨
  ∃ now rid input a, t = ri_now input ∧ reserveWriteGrant now rid input db = Ok (a, db').
Proof.
  intros Hs. assert (reservations db' = reservations db →
    ∀ rid r', reservations db' !! rid = Some r' → ∃ r, reservations db !! rid = Some r ∧ same_grant r r') as Hsame.
  { intros -> rid r Hr. by exists r. }
  destruct Hs as [now id v key hash a db db' Hsz Hd Ha|t id o ob b db db' Ha|now rid input a db db' Ha
    |rid o t b db db' Ha|input a db db' Ha|now limit locked n db db' Ha|input locked l db db' Ha|id t b db db' Ha
    |input b db db' Ha|t db db' He].
  - left. apply Hsame. unfold admitCreate in Ha. destruct (storage_organizations db !! _); [|done].
    destruct (storage_projects db !! _) as [[]|]; [|done]. destruct (negb _); [done|].
    destruct (find _ _); [destruct (bool_decide _); [by injection Ha as _ <-|done]|].
    apply tx_bind_Ok in Ha as (? & db1 & ->%billed_Ok & Hx).
    apply tx_bind_Ok in Hx as (? & db2 & [_ ->]%require_Ok & Hx).
    apply tx_bind_Ok in Hx as (? & db3 & [_ ->]%require_Ok & Hx).
    apply tx_bind_Ok in Hx as (? & db4 & Hi & Hx). injection Hx as _ ->. unfold insert_volume in Hi.
    destruct (bool_decide (is_Some _)); [done|]. destruct (existsb _ _); [done|]. by injection Hi as _ <-.
  - left. apply Hsame. unfold updateObservedSize in Ha. destruct (own_volume _ _ _ _); [|by injection Ha as _ <-].
    destruct (bool_decide _); by injection Ha as _ <-.
  - right. by exists now, rid, input, a.
  - left. unfold markWriteGrantIssued in Ha. destruct (reservations db !! rid) as [r|] eqn:Er; [|injection Ha as _ <-; by apply Hsame].
    destruct (String.eqb _ _); [|injection Ha as _ <-; by apply Hsame].
    destruct (own_volume _ _ _ _); [|injection Ha as _ <-; by apply Hsame].
    destruct (_ && _); injection Ha as _ <-; [|by apply Hsame]. intros i r' Hr'. simpl in Hr'.
    apply lookup_insert_Some in Hr' as [[<- <-]|[_ Hr']]; [by exists r|by exists r'].
  - left. apply Hsame. unfold enqueueDeletion in Ha. destruct (own_volume _ _ _ _); by injection Ha as _ <-.
  - left. apply Hsame. unfold enqueueExpiredDeletions in Ha. destruct (safe_between _ _ _); [|done].
    injection Ha as _ <-. clear Hsame. induction (expired_volumes _ _ _ _) as [|[i v] l IH]; [done|]. exact IH.
  - left. apply Hsame. unfold claimDeletionJobs in Ha. destruct (safe_between 1 1000 _); [|done].
    destruct (safe_between 1 3600 _); [|done]. by injection Ha as _ <-.
  - left. apply Hsame. unfold markDeletionScheduled in Ha. destruct (deletion_jobs db !! _); by injection Ha as _ <-.
  - left. apply Hsame. unfold deferDeletion in Ha. destruct (deletion_jobs db !! _); [|by injection Ha as _ <-].
    destruct (may_defer _ _); by injection Ha as _ <-.
  - left. apply Hsame, He.
Qed.

(** Every reservation takes the rest of the volume, and one at a time. *)
Record one_writer (id : string) (clock : Z) (db : VolumeDb) : Prop := {
  ow_rest rid r : reservations db !! rid = Some r → rv_volume_id r = id →
    ∃ v, volumes db !! id = Some v ∧ rv_observed_size r + rv_maximum_bytes r = vo_size_limit_bytes v ∧
      rv_observed_size r <= vo_observed_size_bytes v;
  ow_alone t rid rid' r r' : clock <= t → reservations db !! rid = Some r → reservations db !! rid' = Some r' →
    reservation_active id t r = true → reservation_active id t r' = true → rid = rid'
}.

Lemma active_later id t t' r : t <= t' → reservation_active id t' r = true → reservation_active id t r = true.
Proof. unfold reservation_active. rewrite !andb_true_iff, !Z.ltb_lt. intros Ht [? ?]. split; [done|lia]. Qed.

Lemma same_grant_active id t r r' : same_grant r r' → reservation_active id t r' = reservation_active id t r.
Proof. intros (E1 & _ & _ & E2). unfold reservation_active. by rewrite E1, E2. Qed.

Lemma one_writer_keeps id clock db db' :
  one_writer id clock db → volume_tables_le db db' →
  (∀ v v', volumes db !! id = Some v → volumes db' !! id = Some v' →
     vo_observed_size_bytes v <= vo_observed_size_bytes v') →
  (∀ rid r', reservations db' !! rid = Some r' → ∃ r, reservations db !! rid = Some r ∧ same_grant r r') →
  one_writer id clock db'.
Proof.
  intros [Hrest Halone] Hle Hgrow Hback. split.
  - intros rid r' Hr' E. destruct (Hback rid r' Hr') as (r & Hr & E1 & E2 & E3 & _).
    destruct (Hrest rid r Hr) as (v & Hv & Hs & Ho); [congruence|].
    destruct (vt_volume _ _ Hle _ _ Hv) as (v' & Hv' & Hk). exists v'. rewrite E2, E3, (vk_size _ _ Hk).
    split_and!; [done..|]. specialize (Hgrow v v' Hv Hv'). lia.
  - intros t rid rid' r r' Ht Hr Hr' Ha Ha'. destruct (Hback _ _ Hr) as (q & Hq & Sq), (Hback _ _ Hr') as (q' & Hq' & Sq').
    rewrite (same_grant_active _ _ _ _ Sq) in Ha. rewrite (same_grant_active _ _ _ _ Sq') in Ha'.
    by apply (Halone t rid rid' q q').
Qed.

(** While a reservation is active nothing is left to reserve. *)
Lemma nothing_left id now v o rid r db :
  reservations db !! rid = Some r → reservation_active id now r = true → rv_observed_size r <= o →
  rv_observed_size r + rv_maximum_bytes r = vo_size_limit_bytes v →
  vo_size_limit_bytes v - o - outstanding id now o db <= 0.
Proof.
  intros Hr Ha Ho Hs. unfold outstanding.
  assert (∀ k x, reservations db !! k = Some x →
    0 <= (if reservation_active id now x then outstanding_of o x else 0)) as Hnn
    by (intros; unfold outstanding_of; case_match; lia).
  pose proof (map_sum_lookup (λ r, if reservation_active id now r then outstanding_of o r else 0)
    (reservations db) rid r Hnn Hr) as Hle. simpl in Hle. rewrite Ha in Hle.
  unfold outstanding_of in *. lia.
Qed.

Lemma grow_writer id s s' : one_writer id s.1 s.2 → growing_step id s s' → one_writer id s'.1 s'.2.
Proof.
  intros Hw [(t & Hs & Ec) Hgrow]. destruct s as [clock db], s' as [clock' db']; simpl in *. subst clock'.
  pose proof (moves_le _ _ _ (volume_step_moves _ _ _ Hs)) as Hle.
  assert (one_writer id (Z.max clock t) db) as Hw'.
  { destruct Hw as [H1 H2]. split; [done|]. intros t' rid rid' r r' Ht. apply H2. lia. }
  destruct (step_reservations t db db' Hs) as [Hback|(now & rid & input & a & -> & Hres)];
    [by apply (one_writer_keeps id _ db)|].
  apply reserveWriteGrant_effect in Hres as [[_ ->]|(v & o & Hv & Hl & Ho & Hor)]; [done|]. cbv zeta in Hor.
  set (db1 := set_volume (ri_id input) (v <| vo_observed_size_bytes := o |>) db) in *.
  assert (one_writer id (Z.max clock (ri_now input)) db1) as Hw1.
  { apply (one_writer_keeps id _ db); [done| | |intros i r Hr; by exists r].
    - eapply move_le, (mv_observe 0). done.
    - intros w w' Hw1 Hw2. apply (Hgrow w w' Hw1). destruct Hor as [[-> _]|(r & _ & -> & _)]; done. }
  destruct Hor as [[-> _]|(r & (Er & H1 & Hn) & -> & _)]; [done|]. clear Hle Hgrow.
  destruct (decide (rv_volume_id r = id)) as [Eid|Hid].
  - assert (ri_id input = id) as Ei by (rewrite Er in Eid; done).
    assert (∀ i q, reservations db !! i = Some q → reservation_active id (ri_now input) q = true → False) as Hnone.
    { intros i q Hq Ha. destruct (ow_rest _ _ _ Hw1 i q Hq) as (w & Hw2 & Hs1 & Ho1).
      { unfold reservation_active in Ha. by bool_simp. }
      unfold db1, set_volume in Hw2. simpl in Hw2. rewrite Ei, lookup_insert_eq in Hw2. simplify_eq. simpl in *.
      pose proof (nothing_left _ _ v o i q db Hq Ha Ho1 Hs1). lia. }
    split; simpl.
    + intros i q Hq Eq. apply lookup_insert_Some in Hq as [[<- <-]|[_ Hq]]; [|by apply (ow_rest _ _ _ Hw1 i q)].
      exists (v <| vo_observed_size_bytes := o |>). rewrite Ei, lookup_insert_eq. split; [done|].
      assert (outstanding (ri_id input) (ri_now input) o db = 0) as Hz.
      { rewrite Ei. unfold outstanding, map_sum. apply sum_with_zero. intros [j q] Hj%elem_of_map_to_list. simpl.
        destruct (reservation_active _ _ q) eqn:Ea; [exfalso; by eapply Hnone|done]. }
      rewrite Er. simpl. rewrite Hz. lia.
    + intros t' i j q q' Ht Hq Hq' Ha Ha'. apply lookup_insert_Some in Hq as [[<- <-]|[Hni Hq]], Hq' as [[<- <-]|[Hnj Hq']].
      * done.
      * exfalso. apply (Hnone j q' Hq'). eapply active_later; [|done]. lia.
      * exfalso. apply (Hnone i q Hq). eapply active_later; [|done]. lia.
      * by apply (ow_alone _ _ _ Hw1 t' i j q q').
  - assert (∀ t', reservation_active id t' r = false) as Hina.
    { intros t'. unfold reservation_active. destruct (String.eqb_spec (rv_volume_id r) id); [done|done]. }
    split; simpl.
    + intros i q Hq Eq. apply lookup_insert_Some in Hq as [[<- <-]|[_ Hq]]; [done|by apply (ow_rest _ _ _ Hw1 i q)].
    + intros t' i j q q' Ht Hq Hq' Ha Ha'. apply lookup_insert_Some in Hq as [[<- <-]|[Hni Hq]], Hq' as [[<- <-]|[Hnj Hq']];
        try done; [congruence..|]. by apply (ow_alone _ _ _ Hw1 t' i j q q').
Qed.

(** As long as the store never reports less than before for a volume, its
    writers do not overlap: from the latest clock reading on at most one
    reservation is active, and what it may write is exactly what the volume had
    left when it was reserved. *)
Theorem write_grants_do_not_overlap id clock0 db0 clock db :
  storage_start db0 → rtc (growing_step id) (clock0, db0) (clock, db) →
  (∀ t rid rid' r r', clock <= t → reservations db !! rid = Some r → reservations db !! rid' = Some r' →
     reservation_active id t r = true → reservation_active id t r' = true → rid = rid') ∧
  (∀ rid r, reservations db !! rid = Some r → rv_volume_id r = id →
     ∃ v, volumes db !! id = Some v ∧ rv_observed_size r + rv_maximum_bytes r = vo_size_limit_bytes v).
Proof.
  intros Hs Hr. assert (one_writer id clock db) as [Hrest Halone].
  { change (one_writer id (clock, db).1 (clock, db).2). assert (one_writer id (clock0, db0).1 (clock0, db0).2) as Hw.
    { destruct Hs as [_ Er _ _ _]. split; simpl; rewrite Er; by intros *; rewrite lookup_empty. }
    revert Hw Hr. generalize (clock0, db0) as s, (clock, db) as s'. intros s s' Hw Hr.
    induction Hr as [|s s1 s' Hs1 _ IH]; [done|]. apply IH. by eapply grow_writer. }
  split; [done|]. intros rid r Hres E. destruct (Hrest rid r Hres E) as (v & Hv & Hsum & _). eauto.
Qed.

Lemma outstanding_two id now o db rid1 rid2 r1 r2 :
  rid1 ≠ rid2 → reservations db !! rid1 = Some r1 → reservations db !! rid2 = Some r2 →
  reservation_active id now r1 = true → reservation_active id now r2 = true →
  (∀ rid r, reservations db !! rid = Some r → reservation_active id now r = true → rid = rid1 ∨ rid = rid2) →
  outstanding id now o db = outstanding_of o r1 + outstanding_of o r2.
Proof.
  intros Hn H1 H2 Ha1 Ha2 Hall. unfold outstanding.
  set (f := λ r, if reservation_active id now r then outstanding_of o r else 0).
  rewrite (map_sum_delete f _ rid1 r1 H1), (map_sum_delete f _ rid2 r2) by by rewrite lookup_delete_ne.
  assert (map_sum f (delete rid2 (delete rid1 (reservations db))) = 0) as ->.
  { unfold map_sum. apply sum_with_zero. intros [rid r] Hr%elem_of_map_to_list. simpl.
    apply lookup_delete_Some in Hr as [Hr2 Hr]. apply lookup_delete_Some in Hr as [Hr1 Hr]. unfold f.
    destruct (reservation_active id now r) eqn:Ea; [|done]. destruct (Hall rid r Hr Ea); congruence. }
  unfold f. rewrite Ha1, Ha2. lia.
Qed.

(** The growth of a volume is counted for every active reservation.  When two
    reservations made at the same observed size are active and hold together all
    that was left, then after their writers wrote [g] bytes between them another
    writer is granted [g] bytes, so that what was written, what the two may still
    write and the new grant exceed the volume's size by [g]. *)
Theorem growth_counted_twice now rid input db v rid1 rid2 r1 r2 g :
  let id := ri_id input in
  is_Some (storage_organizations db !! uuid_text (ri_organization_id input)) →
  own_volume db id (ri_organization_id input) (ri_project_id input) = Some v →
  volume_live (ri_now input) v = true → ri_operation_key input = None → reservations db !! rid = None →
  billed now (uuid_text (ri_organization_id input)) (mkDelta 0 0 0) (set_volume id
    (v <| vo_observed_size_bytes := rv_observed_size r1 + g |>) db) =
    Ok (tt, set_volume id (v <| vo_observed_size_bytes := rv_observed_size r1 + g |>) db) →
  rid1 ≠ rid2 → reservations db !! rid1 = Some r1 → reservations db !! rid2 = Some r2 →
  reservation_active id (ri_now input) r1 = true → reservation_active id (ri_now input) r2 = true →
  (∀ i r, reservations db !! i = Some r → reservation_active id (ri_now input) r = true → i = rid1 ∨ i = rid2) →
  rv_observed_size r2 = rv_observed_size r1 → 0 <= rv_observed_size r1 → vo_size_limit_bytes v <= max_safe_integer →
  rv_observed_size r1 + rv_maximum_bytes r1 + rv_maximum_bytes r2 = vo_size_limit_bytes v →
  0 < g <= rv_maximum_bytes r1 → g <= rv_maximum_bytes r2 →
  ri_observed_size input = NInt (rv_observed_size r1 + g) →
  ∃ w wr db', reserveWriteGrant now rid input db = Ok (Some (w, wr), db') ∧ wr_maximum_bytes wr = g ∧
    vo_observed_size_bytes w.2 + (rv_maximum_bytes r1 + rv_maximum_bytes r2 - g) + wr_maximum_bytes wr
      = vo_size_limit_bytes v + g.
Proof.
  intros id [ol Hol] Hv Hl Hkey Hfresh Hb Hn H1 H2 Ha1 Ha2 Hall E2 Hz Hsafe Hsum Hg1 Hg2 Ho.
  unfold reserveWriteGrant. rewrite Hol. fold id. rewrite Hv, Hl, Ho, Hkey. simpl (negb true). cbv iota.
  assert (safe_between 0 (vo_size_limit_bytes v) (NInt (rv_observed_size r1 + g)) = Some (rv_observed_size r1 + g)) as ->.
  { unfold safe_between. assert (isSafeInteger (NInt (rv_observed_size r1 + g)) && (0 <=? rv_observed_size r1 + g) &&
      (rv_observed_size r1 + g <=? vo_size_limit_bytes v) = true) as ->; [|done].
    unfold isSafeInteger. rewrite !andb_true_iff, !Z.leb_le. lia. }
  set (v' := v <| vo_observed_size_bytes := rv_observed_size r1 + g |>) in *. set (db1 := set_volume id v' db) in *.
  simpl (replayed_reservation _ _ None _). cbv iota.
  assert (vo_size_limit_bytes v - (rv_observed_size r1 + g) - outstanding id (ri_now input) (rv_observed_size r1 + g) db1 = g)
    as Em.
  { change (outstanding id (ri_now input) (rv_observed_size r1 + g) db1)
      with (outstanding id (ri_now input) (rv_observed_size r1 + g) db).
    rewrite (outstanding_two _ _ _ _ rid1 rid2 r1 r2) by done. unfold outstanding_of. rewrite E2. lia. }
  set (row := mkReservation id (uuid_text (ri_organization_id input)) None (next_attempt db1 id None)
    (rv_observed_size r1 + g) g (ri_now input) (ri_expires_at input) None).
  exists (id, v'), (write_reservation id rid row), (db1 <| reservations ::= <[rid := row]> |>).
  split; [|split; [done|simpl; lia]].
  rewrite (tx_bind_ok_intro _ _ _ _ _ Hb). cbv beta zeta. rewrite Em.
  assert (1 <=? g = true) as -> by lia. fold row. unfold insert_reservation.
  assert (bool_decide (is_Some (reservations db1 !! rid)) = false) as Hfr.
  { apply bool_decide_eq_false_2. unfold db1. simpl. rewrite Hfresh. by intros []. }
  unfold require, mbind, tx_bind, mret, tx_ret. cbv beta iota. rewrite Hfr. reflexivity.
Qed.
End theorems.

(** ** Witnesses *)

Lemma storage_quota_holds_witness :
  allocated_bytes demo_org None 5000 demo_third = 100 ∧
  (∀ o l, storage_organizations demo_third !! o = Some l → allocated_bytes o None 5000 demo_third <= l * mebibyte) ∧
  (∀ p o l, storage_projects demo_third !! p = Some (o, l) →
     allocated_bytes o (Some p) 5000 demo_third <= l * mebibyte).
Proof.
  split; [vm_compute; reflexivity|].
  apply (storage_quota_holds 2500 demo_third 5000); [exact demo_third_reachable|lia].
Defined.

Lemma create_key_replays_witness :
  ∃ w, volumes demo_reserved !! "vol_1" = Some w ∧ vo_create_request_hash w = Some "hash" ∧
    admitCreate 0 ("vol_2", demo_volume) "key" "other" demo_reserved =
      if String.eqb "hash" "other" then Ok (("vol_1", w, true), demo_reserved) else Err VolumeIdempotencyConflict.
Proof.
  apply (create_key_replays 0 0 0 "vol_1" "vol_2" demo_volume demo_volume "key" "hash" "other"
           (("vol_1", demo_volume <| vo_idempotency_key := Some "key" |> <| vo_create_request_hash := Some "hash" |>), false)
           demo_tables demo_created demo_reserved).
  - exists 0, demo_tables. split; [exact demo_storage_start|apply rtc_refl].
  - reflexivity.
  - reflexivity.
  - apply (answered demo_create). vm_compute. reflexivity.
  - apply rtc_once. destruct demo_reserved_step as (t & Ht & _). exists t. exact Ht.
  - reflexivity.
  - reflexivity.
Defined.

Lemma deleted_volume_is_over_witness :
  ∃ v2 j d, volumes demo_deleted !! "vol_1" = Some v2 ∧ vo_deleted_at v2 = Some d ∧
    deletion_jobs demo_deleted !! "vol_1" = Some j ∧ jb_delete_after j = 5000 + retention.
Proof.
  destruct (deleted_volume_is_over 2500 demo_deletion "vol_1"
    (demo_volume <| vo_idempotency_key := Some "key" |> <| vo_create_request_hash := Some "hash" |>
       <| vo_deleted_at := Some 5000 |> <| vo_observed_size_bytes := 20 |>) (5000 + retention)
    demo_third demo_deleted demo_deleted) as (v2 & j & d & Hv & Hd & _ & Hj & Ha & _).
  - exact demo_third_reachable.
  - apply (answered (enqueueDeletion demo_deletion)). vm_compute. reflexivity.
  - apply rtc_refl.
  - exists v2, j, d. split; [exact Hv|]. split; [exact Hd|]. split; [exact Hj|exact Ha].
Defined.

Lemma write_grants_do_not_overlap_witness :
  (∀ t rid rid' r r', 1000 <= t → reservations demo_reserved !! rid = Some r →
     reservations demo_reserved !! rid' = Some r' →
     reservation_active "vol_1" t r = true → reservation_active "vol_1" t r' = true → rid = rid') ∧
  (∀ rid r, reservations demo_reserved !! rid = Some r → rv_volume_id r = "vol_1" →
     ∃ v, volumes demo_reserved !! "vol_1" = Some v ∧
       rv_observed_size r + rv_maximum_bytes r = vo_size_limit_bytes v).
Proof.
  apply (write_grants_do_not_overlap "vol_1" 0 demo_tables 1000 demo_reserved); [exact demo_storage_start|].
  apply (rtc_l _ _ (0, demo_created)).
  - split; [exact demo_create_step|]. intros v v' Hv. cbn in Hv. rewrite lookup_empty in Hv. discriminate Hv.
  - apply rtc_once. split; [exact demo_reserved_step|]. intros v v' Hv Hv'.
    assert (vo_observed_size_bytes <$> volumes demo_created !! "vol_1" = Some 0) as E by (vm_compute; reflexivity).
    assert (vo_observed_size_bytes <$> volumes demo_reserved !! "vol_1" = Some 50) as E' by (vm_compute; reflexivity).
    change (volumes demo_created !! "vol_1" = Some v) in Hv. change (volumes demo_reserved !! "vol_1" = Some v') in Hv'.
    rewrite Hv in E. rewrite Hv' in E'. cbn in E, E'. injection E as ->. injection E' as ->. lia.
Defined.

Lemma growth_counted_twice_witness :
  ∃ w wr db', reserveWriteGrant 0 "rd" (demo_request 50 3000 9500 None) demo_third = Ok (Some (w, wr), db') ∧
    wr_maximum_bytes wr = 30 ∧ vo_observed_size_bytes w.2 + (30 + 50 - 30) + wr_maximum_bytes wr = 100 + 30.
Proof.
  apply (growth_counted_twice 0 "rd" (demo_request 50 3000 9500 None) demo_third demo_observed "rb" "rc"
    (demo_reservation 20 30 1500 9000) (demo_reservation 20 50 2500 9000) 30).
  - exists 1. vm_compute. reflexivity.
  - vm_compute. reflexivity.
  - vm_compute. reflexivity.
  - reflexivity.
  - vm_compute. reflexivity.
  - vm_compute. reflexivity.
  - discriminate.
  - vm_compute. reflexivity.
  - vm_compute. reflexivity.
  - vm_compute. reflexivity.
  - vm_compute. reflexivity.
  - exact demo_active.
  - reflexivity.
  - vm_compute. discriminate.
  - vm_compute. discriminate.
  - reflexivity.
  - split; [reflexivity|vm_compute; discriminate].
  - vm_compute. discriminate.
  - reflexivity.
Defined.
