(* ===== verification/Awaiting.v ===== *)
(** * Code that awaits

    The frame of every service: code that runs transactions and calls other
    programs, with the rest of the system moving between any two of them.  A
    [Turn] of the schedule says what happens while the code awaits one statement:
    what the others do first, the clocks and the random values the statement
    draws, and whether its answer arrives.  The tables [T] and the calls [C] are
    the service's. *)

From S2P Require Import Prelude.

(** Whether a statement's answer arrives: it does, the statement never ran, or
    it committed and the answer was lost. *)
Inductive Delivery := Delivered | NeverRan | AnswerLost.

Record Turn (T : Type) := mkTurn {
  others : T → T;
  t_now : Z;
  t_clock : Z;
  t_random : nat → string;
  t_locked : gset string;
  delivery : Delivery
}.
Arguments mkTurn {T} _ _ _ _ _ _.
Arguments others {T} _ _.
Arguments t_now {T} _.
Arguments t_clock {T} _.
Arguments t_random {T} _ _.
Arguments t_locked {T} _.
Arguments delivery {T} _.

(** The tables, the statements awaited so far and the calls made so far. *)
Record World (T C : Type) := mkWorld {
  w_db : T;
  w_tick : nat;
  w_calls : list C
}.
Arguments mkWorld {T C} _ _ _.
Arguments w_db {T C} _.
Arguments w_tick {T C} _.
Arguments w_calls {T C} _.

(** Converts a caught throw into a value: [try { ... } catch (error)]. *)
Definition attempt {S E E' A} (m : Act S E A) : Act S E' (result E A) := λ w,
  let '(r, w') := m w in (Ok r, w').

Definition lift {S E A} (r : result E A) : Act S E A := λ w, (r, w).

(** Errors of the repository seen as errors of the service, and the error of a
    statement whose answer never arrives. *)
Class Thrown (E F : Type) := {
  thrown : E → F;
  connection_lost : F
}.

Section awaiting.
Context {T C E F : Type} `{Thrown E F} (schedule : nat → Turn T).

(** One awaited statement: a query outside a transaction or a whole
    transaction. *)
Definition await {A} (t : Turn T → Tx T E A) : Act (World T C) F A := λ w,
  let turn := schedule (w_tick w) in
  let db := others turn (w_db w) in
  let tick := S (w_tick w) in
  match delivery turn, transaction (t turn) db with
  | Delivered, (Ok a, db') => (Ok a, mkWorld db' tick (w_calls w))
  | Delivered, (Err e, db') => (Err (thrown e), mkWorld db' tick (w_calls w))
  | NeverRan, _ => (Err connection_lost, mkWorld db tick (w_calls w))
  | AnswerLost, (_, db') => (Err connection_lost, mkWorld db' tick (w_calls w))
  end.

Definition query {A} (f : Turn T → T → A) : Act (World T C) F A := await (λ turn, gets (f turn)).

(** The process reads its clock and draws random values without awaiting. *)
Definition draw : Act (World T C) F (Turn T) := λ w,
  (Ok (schedule (w_tick w)), mkWorld (w_db w) (S (w_tick w)) (w_calls w)).
End awaiting.

(** A call to another program, whose answer may depend on every call made
    before. *)
Definition call_with {T C E F A} (thrown_by : E → F) (c : C) (answer : list C → result E A)
    : Act (World T C) F A := λ w,
  let calls := w_calls w ++ [c] in
  (match answer calls with Ok a => Ok a | Err e => Err (thrown_by e) end,
   mkWorld (w_db w) (w_tick w) calls).

(** ** Reading a computation backwards *)

Lemma act_bind_eq {S E A B} (m : Act S E A) (k : A → Act S E B) w :
  (m ≫= k) w = match m w with (Ok a, w') => k a w' | (Err e, w') => (Err e, w') end.
Proof. done. Qed.

Lemma act_bind_step {S E A B} (m : Act S E A) (k : A → Act S E B) w a w1 :
  m w = (Ok a, w1) → (m ≫= k) w = k a w1.
Proof. rewrite act_bind_eq. by intros ->. Qed.

Lemma lift_step {S E A B} (a : A) (k : A → Act S E B) w : (lift (Ok a) ≫= k) w = k a w.
Proof. done. Qed.
Lemma ret_step {S E A B} (a : A) (k : A → Act S E B) w : (mret a ≫= k) w = k a w.
Proof. done. Qed.

Lemma act_bind_Ok {S E A B} (m : Act S E A) (k : A → Act S E B) w b w' :
  (m ≫= k) w = (Ok b, w') → ∃ a w1, m w = (Ok a, w1) ∧ k a w1 = (Ok b, w').
Proof. rewrite act_bind_eq. destruct (m w) as [[a|e] w1]; [eauto|done]. Qed.

Lemma lift_Ok {S E A} (r : result E A) (w : S) a w' : lift r w = (Ok a, w') → r = Ok a ∧ w' = w.
Proof. unfold lift. by intros [= -> ->]. Qed.

Section reading.
Context {T C E F : Type} `{Thrown E F} (schedule : nat → Turn T).
Implicit Types w : World T C.

Lemma await_Ok {A} (t : Turn T → Tx T E A) w a w' :
  await schedule t w = (Ok a, w') →
  t (schedule (w_tick w)) (others (schedule (w_tick w)) (w_db w)) = Ok (a, w_db w') ∧
  w_tick w' = S (w_tick w) ∧ w_calls w' = w_calls w.
Proof.
  unfold await, transaction. destruct (delivery _); destruct (t _ _) as [[x db']|e]; by intros [= <- <-].
Qed.

Lemma draw_Ok w t w' :
  draw (F := F) schedule w = (Ok t, w') →
  t = schedule (w_tick w) ∧ w' = mkWorld (w_db w) (S (w_tick w)) (w_calls w).
Proof. unfold draw. by intros [= <- <-]. Qed.

(** The tables after a statement, whatever becomes of its answer: those the
    others left, or what the statement makes of them. *)
Lemma await_tables {A} (t : Turn T → Tx T E A) w :
  let turn := schedule (w_tick w) in
  let w' := (await schedule t w).2 in
  let db := others turn (w_db w) in
  w_tick w' = S (w_tick w) ∧ w_calls w' = w_calls w ∧
  (w_db w' = db ∨ ∃ a, t turn db = Ok (a, w_db w')).
Proof.
  simpl. unfold await, transaction. destruct (delivery _); destruct (t _ _) as [[x db']|e] eqn:Ht; simpl; eauto 6.
Qed.
End reading.
