(* ===== verification/ApiAdmission.v ===== *)
(** * API admission

    src/apps/nehemiah/src/http/client-identity.ts: which address a request is
    held to come from; src/apps/nehemiah/src/auth/api-admission.ts: the networks
    addresses are collapsed to, the buckets a request is counted in and what is
    made of the counters of [RateWindow];
    src/apps/nehemiah/src/http/incoming-request.ts: how many bodies may be pending
    and which are read. *)

From S2P Require Import Prelude Text Js Capacity RateWindow NetworkPolicy Awaiting Identity ApiKeys.

Record ApiRateLimitConfig := mkApiRateLimit {
  ar_enabled : bool;
  ar_windowSeconds : Z;
  ar_preAuthIpRequests : Z;
  ar_preAuthApiKeyRequests : Z;
  ar_principalRequests : Z;
  ar_organizationRequests : Z;
  ar_projectRequests : Z;
  ar_failClosed : bool
}.

Record AdmissionIdentity := mkAdmissionIdentity {
  ai_principalId : string;
  ai_organizationId : option string;
  ai_projectId : option string
}.

Inductive AdmissionError :=
| ApiRateLimitExceeded (retryAfterSeconds : Z)
| ApiAdmissionUnavailable
| AdmissionDatabaseError.

(** ** Addresses *)

Definition octets4 : re :=
  let octet := rep 1 3 (Chr digit) in
  cats [octet; Chr (Ascii.eqb "."); octet; Chr (Ascii.eqb "."); octet; Chr (Ascii.eqb "."); octet].

(** The octets of a dotted address. *)
Definition ipv4Octets (address : string) : option (list Z) :=
  if negb (test octets4 address) then None
  else
    let octets := map parse_dec (js_split "." address) in
    if existsb (λ o, 255 <? o) octets then None else Some octets.

Definition ipv4Network (address : string) : option string :=
  match ipv4Octets address with
  | Some (a :: b :: c :: _) => Some (pretty a +:+ "." +:+ pretty b +:+ "." +:+ pretty c +:+ ".0/24")
  | _ => None
  end.

(** [address.split('::')] *)
Fixpoint split_colons (l : list ascii) : list (list ascii) :=
  match l with
  | [] => [[]]
  | ":" :: ((":" :: rest) as _) => [] :: split_colons rest
  | c :: rest => match split_colons rest with
                 | field :: fields => (c :: field) :: fields
                 | [] => [[c]]
                 end
  end%char.

Definition wordPattern : re := rep 1 4 (Chr hex_lower).

Definition parse_word (part : list ascii) : option Z :=
  if matches wordPattern part then radix_digits 16 0 part else None.

Fixpoint parse_words (parts : list (list ascii)) : option (list Z) :=
  match parts with
  | [] => Some []
  | part :: parts => w ← parse_word part; ws ← parse_words parts; Some (w :: ws)
  end.

Definition parseHalf (half : list ascii) : option (list Z) :=
  match half with [] => Some [] | _ => parse_words (split_list ":" half) end.

Definition word_bytes (w : Z) : list Z := [Z.shiftr w 8; Z.land w 255].

Definition ipv6Words (address : string) : option (list Z) :=
  if bool_decide ("%"%char ∈ list_ascii_of_string address) then None
  else
    let exact (left right : list Z) (missing : Z) : option (list Z) :=
      Some (left ++ replicate (Z.to_nat missing) 0 ++ right) in
    match split_colons (list_ascii_of_string (toLowerCase address)) with
    | [half] =>
        left ← parseHalf half;
        if Z.of_nat (length left) =? 8 then exact left [] 0 else None
    | [half; half'] =>
        left ← parseHalf half;
        right ← parseHalf half';
        let missing := 8 - Z.of_nat (length left) - Z.of_nat (length right) in
        if missing <? 1 then None else exact left right missing
    | _ => None
    end.

Definition ipv6Bytes (address : string) : option (list Z) := mjoin ∘ fmap word_bytes <$> ipv6Words address.

(** [Buffer.toString('hex')] *)
Definition hex_digit (d : Z) : ascii := ascii_of_N (Z.to_N (if d <? 10 then 48 + d else 87 + d)).
Definition hex_bytes (bs : list Z) : list ascii := bs ≫= λ b, [hex_digit (b / 16); hex_digit (b `mod` 16)].

Definition dotted : re :=
  let octet := many1 (Chr digit) in
  cats [octet; Chr (Ascii.eqb "."); octet; Chr (Ascii.eqb "."); octet; Chr (Ascii.eqb "."); octet].

(** [replace(/^::ffff:(?=\d+\.\d+\.\d+\.\d+$)/i, '')] *)
Definition drop_mapped (address : string) : string :=
  match list_ascii_of_string address with
  | ":" :: ":" :: a :: b :: c :: d :: ":" :: rest =>
      if forallb (one_of "fF") [a; b; c; d] && matches dotted rest then string_of_list_ascii rest else address
  | _ => address
  end%char.

Definition clean_address (raw : option string) : string := drop_mapped (js_trim (default "" raw)).

Definition coarseClientIdentity `{NodeNet} (raw : option string) : string :=
  let address := clean_address raw in
  match isIP address with
  | Some IPv4 => "ipv4:" +:+ default "invalid" (ipv4Network address)
  | Some IPv6 =>
      match ipv6Bytes address with
      | Some bytes => "ipv6:" +:+ string_of_list_ascii (hex_bytes (take 7 bytes)) +:+ "/56"
      | None => "unknown"
      end
  | None => "unknown"
  end.

(** ** The address a request comes from *)

Definition canonicalAddress `{NodeNet} (raw : option string) : option string :=
  let value := clean_address raw in
  if bool_decide (","%char ∈ list_ascii_of_string value) || bool_decide (isIP value = None) then None
  else Some (toLowerCase value).

Definition newline : string := String (ascii_of_nat 10) EmptyString.

Definition signaturePayload (address timestamp : string) : string :=
  "nehemiah-client-address-v1" +:+ newline +:+ timestamp +:+ newline +:+ address.

Definition timestampPattern : re := rep 1 12 (Chr digit).
Definition signaturePattern : re := rep_exact 64 (Chr hex_lower).

(** The headers are given by their values, [hmac] is the keyed digest in
    hexadecimal. *)
Definition verifiedClientAddress `{NodeNet} (hmac : string → string → string)
    (address timestamp signature directAddress : option string) (gatewayToken : string) (now : Z) : string :=
  let direct := default "unknown" (canonicalAddress directAddress) in
  match canonicalAddress address, js_trim <$> timestamp, toLowerCase ∘ js_trim <$> signature with
  | Some forwarded, Some timestamp, Some signature =>
      if negb (test timestampPattern timestamp) then direct
      else if 30 <? Z.abs (now / msPerSecond - parse_dec timestamp) then direct
      else if negb (test signaturePattern signature) then direct
      else if String.eqb signature (hmac gatewayToken (signaturePayload forwarded timestamp))
      then forwarded else direct
  | _, _, _ => direct
  end.

(** ** Counting *)

#[export] Instance admission_errors : Thrown AdmissionError AdmissionError := {|
  thrown := id;
  connection_lost := AdmissionDatabaseError
|}.

Abbreviation AdmissionAct := (Act (World Windows Empty_set) AdmissionError).

Section admission.
Context `{NodeNet} (schedule : nat → Turn Windows).
Context (digest32 : string → Z) (sha256 : string → string) (localeCompare : string → string → Z).
Context (config : ApiRateLimitConfig).

(** A bucket before its identifier is hashed. *)
Record AdmissionBucket := mkAdmissionBucket {
  ab_scope : string;
  ab_identifier : string;
  ab_limit : Z
}.

Definition compareBuckets (left right : AdmissionBucket) : Z :=
  let d := localeCompare (ab_scope left) (ab_scope right) in
  if negb (d =? 0) then d else localeCompare (ab_identifier left) (ab_identifier right).

Definition requested (b : AdmissionBucket) : Bucket :=
  mkBucket (ab_scope b) (slotFor digest32 (ab_scope b) (ab_identifier b)) (ab_limit b).

Definition consume (buckets : list AdmissionBucket) : AdmissionAct unit :=
  if negb (ar_enabled config) then mret tt
  else
    let ordered := map requested (sort_by compareBuckets buckets) in
    result ← attempt (await (E := AdmissionError) (F := AdmissionError) schedule
      (λ t w, Ok (rate_statement (ar_windowSeconds config) (t_clock t) ordered w)));
    match (result : Prelude.result AdmissionError (option Z)) with
    | Ok None => mret tt
    | Ok (Some retryAfter) => athrow (ApiRateLimitExceeded (refusal_seconds (ar_windowSeconds config) retryAfter))
    | Err _ => if ar_failClosed config then athrow ApiAdmissionUnavailable else mret tt
    end.

(** [source] is the header with the client's address. *)
Definition preauth_buckets (source : option string) (token : option string) : list AdmissionBucket :=
  let client := coarseClientIdentity source in
  mkAdmissionBucket "preauth_ip" client (ar_preAuthIpRequests config) ::
  match token with
  | None => []
  | Some token =>
      if String.eqb token "" then []
      else
        mkAdmissionBucket "preauth_credential" (sha256 ("nehemiah-preauth-credential-v1" +:+ nul +:+ token))
          (ar_preAuthApiKeyRequests config) ::
        match apiKeyPublicPrefix token with
        | Some prefix =>
            if String.eqb prefix "" then []
            else [mkAdmissionBucket "preauth_api_key" (client +:+ nul +:+ prefix) (ar_preAuthApiKeyRequests config)]
        | None => []
        end
  end.

Definition preAuthenticate (source token : option string) : AdmissionAct unit :=
  consume (preauth_buckets source token).

Definition optional_bucket (scope : string) (identifier : option string) (limit : Z) : list AdmissionBucket :=
  match identifier with
  | Some i => if String.eqb i "" then [] else [mkAdmissionBucket scope i limit]
  | None => []
  end.

Definition identity_buckets (identity : AdmissionIdentity) : list AdmissionBucket :=
  mkAdmissionBucket "principal" (ai_principalId identity) (ar_principalRequests config) ::
  optional_bucket "organization" (ai_organizationId identity) (ar_organizationRequests config) ++
  optional_bucket "project" (ai_projectId identity) (ar_projectRequests config).

Definition authenticate (identity : AdmissionIdentity) : AdmissionAct unit := consume (identity_buckets identity).
End admission.

(** ** Pending request bodies *)

(** The closure [tryAcquire] answers: its client and its [released]. *)
Record BodyLease := mkBodyLease {
  bl_client : string;
  bl_released : bool
}.

(** [#total], [#byClient] and the closures handed out, by their order. *)
Record PendingBodies := mkPendingBodies {
  pb_total : Z;
  pb_byClient : gmap string Z;
  pb_leases : list BodyLease
}.

Definition no_bodies : PendingBodies := mkPendingBodies 0 ∅ [].

(** What the constructor accepts. *)
Definition valid_body_limits (maximumTotal maximumPerClient : number) : option (Z * Z) :=
  match maximumTotal, maximumPerClient with
  | NInt total, NInt each =>
      if isSafeInteger maximumTotal && isSafeInteger maximumPerClient &&
         (1 <=? total) && (1 <=? each) && (each <=? total) then Some (total, each) else None
  | _, _ => None
  end.

Section bodies.
Context (maximumTotal maximumPerClient : Z).

(** The new state and the number of the lease, unless a limit is reached. *)
Definition tryAcquire (client : string) (b : PendingBodies) : option (nat * PendingBodies) :=
  let current := default 0 (pb_byClient b !! client) in
  if (maximumTotal <=? pb_total b) || (maximumPerClient <=? current) then None
  else Some (length (pb_leases b),
    mkPendingBodies (pb_total b + 1) (<[client := current + 1]> (pb_byClient b))
      (pb_leases b ++ [mkBodyLease client false])).

(** Calling the closure, for the first time or again. *)
Definition release_body (n : nat) (b : PendingBodies) : PendingBodies :=
  match pb_leases b !! n with
  | Some (mkBodyLease client false) =>
      let remaining := default 1 (pb_byClient b !! client) - 1 in
      mkPendingBodies (pb_total b - 1)
        (if remaining =? 0 then delete client (pb_byClient b) else <[client := remaining]> (pb_byClient b))
        (<[n := mkBodyLease client true]> (pb_leases b))
  | _ => b
  end.

(** [snapshot]: bodies and clients. *)
Definition bodies_snapshot (b : PendingBodies) : Z * Z := (pb_total b, Z.of_nat (size (pb_byClient b))).
End bodies.

(** ** Reading a body *)

Inductive HttpRequestError := mkHttpRequestError (status : Z) (code detail : string).

Definition invalid_length : HttpRequestError :=
  mkHttpRequestError 400 "invalid_json" "The request body length is invalid.".
Definition body_too_large : HttpRequestError :=
  mkHttpRequestError 413 "request_too_large" "The request body is too large.".

Definition lengthPattern : re := Alt (lit "0") (Cat (Chr digit19) (Star (Chr digit))).

(** [content-length], by its value. *)
Definition validateDeclaredBodyLength (declared : option string) (maximum : Z)
    : result HttpRequestError (option Z) :=
  match declared with
  | None => Ok None
  | Some declared =>
      if negb (test lengthPattern declared) then Err invalid_length
      else match js_Number declared with
           | NInt length =>
               if negb (isSafeInteger (NInt length)) then Err invalid_length
               else if maximum <? length then Err body_too_large else Ok (Some length)
           | NNonInt => Err invalid_length
           end
  end.

(** The chunks as they come, until they are too many. *)
Fixpoint read_chunks (maximum size : Z) (read chunks : list (list ascii)) : result HttpRequestError (list ascii) :=
  match chunks with
  | [] => Ok (concat read)
  | chunk :: chunks =>
      let size := size + Z.of_nat (length chunk) in
      if maximum <? size then Err body_too_large else read_chunks maximum size (read ++ [chunk]) chunks
  end.

(** The body of the request [incomingRequest] makes. *)
Definition incomingBody (method : string) (declared : option string) (transferEncoding : bool)
    (chunks : list (list ascii)) (maximum : Z) : result HttpRequestError (option (list ascii)) :=
  declaredLength ← validateDeclaredBodyLength declared maximum;
  let bodyless := String.eqb method "GET" || String.eqb method "HEAD" in
  if bodyless && ((0 <? default 0 declaredLength) || transferEncoding)
  then Err (mkHttpRequestError 400 "invalid_json" "GET and HEAD request bodies are not accepted.")
  else if bodyless then Ok None
  else body ← read_chunks maximum 0 [] chunks; Ok (Some body).
