(* ===== verification/ApiTheorems.v ===== *)
(** * What holds of API admission *)

From S2P Require Import Prelude Text Js Capacity RateWindow NetworkPolicy Awaiting Identity ApiKeys.
From S2P Require Import ApiAdmission.

(** ** Buckets commute *)

Lemma apply_windows_perm start bs bs' w :
  NoDup (map b_key bs) → bs ≡ₚ bs' → apply_windows start bs w = apply_windows start bs' w.
Proof.
  intros Hnd Hp. assert (NoDup (map b_key bs')) as Hnd'.
  { eapply NoDup_Permutation_proper; [|exact Hnd]. symmetry. by apply (fmap_Permutation b_key). }
  apply map_eq. intros k. destruct (decide (k ∈ map b_key bs)) as [Hk|Hk].
  - apply list_elem_of_In, in_map_iff in Hk as (b & <- & Hb). apply list_elem_of_In in Hb.
    rewrite !apply_windows_own; [done|done| |done|done]. by rewrite <- Hp.
  - rewrite !apply_windows_other; [done| |done]. intros Hk'. apply Hk.
    by rewrite (fmap_Permutation b_key _ _ Hp : map b_key bs ≡ₚ map b_key bs').
Qed.

Lemma existsb_perm {A} (p : A → bool) (l l' : list A) : l ≡ₚ l' → existsb p l = existsb p l'.
Proof.
  intros Hp. apply eq_true_iff_eq. rewrite !existsb_exists. setoid_rewrite <- list_elem_of_In.
  by setoid_rewrite Hp.
Qed.

Lemma foldl_max_le r rs x : foldl Z.max r rs <= x ↔ r <= x ∧ ∀ y, y ∈ rs → y <= x.
Proof.
  revert r. induction rs as [|z rs IH]; intros r; simpl; [set_solver by lia|]. rewrite IH. split.
  - intros [H1 H2]. split; [lia|]. intros y [->|Hy]%elem_of_cons; [lia|auto].
  - intros [H1 H2]. split; [|set_solver]. pose proof (H2 z ltac:(left)). lia.
Qed.

Lemma largest_perm (l l' : list Z) :
  l ≡ₚ l' →
  (match l with [] => 1 | r :: rs => foldl Z.max r rs end) = match l' with [] => 1 | r :: rs => foldl Z.max r rs end.
Proof.
  intros Hp. destruct l as [|r rs], l' as [|r' rs']; [done|by apply Permutation_nil_cons in Hp|
    by apply symmetry, Permutation_nil_cons in Hp|].
  assert (∀ x, foldl Z.max r rs <= x ↔ foldl Z.max r' rs' <= x) as H.
  { intros x. rewrite !foldl_max_le. assert (∀ y, y ∈ r :: rs ↔ y ∈ r' :: rs') as He by (intros y; by rewrite Hp).
    setoid_rewrite elem_of_cons in He. naive_solver. }
  pose proof (proj1 (H _) (Z.le_refl _)). pose proof (proj2 (H _) (Z.le_refl _)). lia.
Qed.

Lemma list_filter_perm {A} (p : A → bool) (l l' : list A) : l ≡ₚ l' → List.filter p l ≡ₚ List.filter p l'.
Proof.
  induction 1 as [|x l l' _ IH|x y l|l1 l2 l3 _ IH1 _ IH2]; simpl; [done| | |by transitivity (List.filter p l2)].
  - destruct (p x); [by apply Permutation_skip|done].
  - destruct (p x), (p y); try done. apply Permutation_swap.
Qed.

Lemma rate_statement_perm ws now bs bs' w :
  NoDup (map b_key bs) → bs ≡ₚ bs' → rate_statement ws now bs w = rate_statement ws now bs' w.
Proof.
  intros Hnd Hp. unfold rate_statement. rewrite (apply_windows_perm _ bs bs') by done.
  rewrite (existsb_perm _ bs bs') by done. unfold retry_after.
  rewrite (largest_perm _ (map (bucket_retry ws now (apply_windows (window_start ws now) bs' w))
    (List.filter (over_limit (apply_windows (window_start ws now) bs' w)) bs'))); [done|].
  by apply (fmap_Permutation (bucket_retry _ _ _)), list_filter_perm.
Qed.

Section admission.
Context `{NodeNet} (schedule : nat → Turn Windows).
Context (digest32 : string → Z) (sha256 : string → string) (config : ApiRateLimitConfig).

Abbreviation consume := (consume schedule digest32).
Abbreviation requested := (requested digest32).

Definition scopes_distinct (buckets : list AdmissionBucket) : Prop := NoDup (map ab_scope buckets).

Lemma keys_distinct buckets : scopes_distinct buckets → NoDup (map b_key (map requested buckets)).
Proof.
  intros Hnd. apply (NoDup_fmap_1 fst). unfold scopes_distinct in Hnd.
  by rewrite !map_map in *.
Qed.

Lemma preauth_scopes source token : scopes_distinct (preauth_buckets sha256 config source token).
Proof.
  unfold scopes_distinct, preauth_buckets. destruct token as [token|]; [destruct (String.eqb token "")|];
    [|destruct (apiKeyPublicPrefix token) as [prefix|]; [destruct (String.eqb prefix "")|]|]; simpl;
    repeat constructor; set_solver.
Qed.

Lemma identity_scopes identity : scopes_distinct (identity_buckets config identity).
Proof.
  unfold scopes_distinct, identity_buckets, optional_bucket.
  destruct (ai_organizationId identity) as [o|], (ai_projectId identity) as [q|];
    repeat match goal with |- context [String.eqb ?a ?b] => destruct (String.eqb a b) end; simpl;
    repeat constructor; set_solver.
Qed.

Lemma ordered_perm lc buckets : map requested (sort_by (compareBuckets lc) buckets) ≡ₚ map requested buckets.
Proof. apply (fmap_Permutation requested), sort_by_perm. Qed.

(** The collation of the process is of no consequence: whatever order
    [localeCompare] gives its buckets, a request is admitted or refused alike and
    leaves the same counters. *)
Theorem admission_ignores_collation lc lc' buckets w :
  scopes_distinct buckets → consume lc config buckets w = consume lc' config buckets w.
Proof.
  intros Hnd. unfold ApiAdmission.consume. destruct (negb _); [done|].
  assert (∀ w t, rate_statement (ar_windowSeconds config) t (map requested (sort_by (compareBuckets lc) buckets)) w =
    rate_statement (ar_windowSeconds config) t (map requested (sort_by (compareBuckets lc') buckets)) w) as E.
  { intros w' t. apply rate_statement_perm; [|by rewrite !ordered_perm].
    eapply NoDup_Permutation_proper; [apply (fmap_Permutation b_key), ordered_perm|by apply keys_distinct]. }
  rewrite !act_bind_eq. unfold attempt, await, transaction. by rewrite E.
Qed.

(** ** Requests within a window *)

(** Requests of other replicas. *)
Definition served (ws : Z) (rs : list Request) (w : Windows) : Windows :=
  foldl (λ w r, (rate_step ws r w).2) w rs.

Lemma allowed_nonneg ws b start rs w : 0 <= allowed_in ws b start rs w.
Proof.
  revert w. induction rs as [|r rs IH]; intros w; [done|]. cbn [allowed_in].
  destruct (rate_step ws r w) as [ok w'].
  pose proof (IH w'). destruct (_ && _); lia.
Qed.

Lemma allowed_app ws b start rs rs' w :
  allowed_in ws b start (rs ++ rs') w = allowed_in ws b start rs w + allowed_in ws b start rs' (served ws rs w).
Proof.
  revert w. induction rs as [|r rs IH]; intros w; [done|]. cbn [allowed_in app].
  unfold served. cbn [foldl]. destruct (rate_step ws r w) as [ok w']. rewrite IH. unfold served. simpl. lia.
Qed.

Context (lc : string → string → Z) (elsewhere : nat → list Request).
Abbreviation ws := (ar_windowSeconds config).

(** Every statement that ran, of this replica and of the others, in order. *)
Fixpoint statements (es : list (list AdmissionBucket)) (k : nat) : list Request :=
  match es with
  | [] => []
  | bs :: es =>
      elsewhere k ++
      (match delivery (schedule k) with
       | NeverRan => []
       | _ => [mkRequest (t_clock (schedule k)) (map requested (sort_by (compareBuckets lc) bs))]
       end) ++ statements es (S k)
  end.

(** The requests admitted here that count in [b] during the window at [start]. *)
Fixpoint admitted (b : Bucket) (start : Z) (es : list (list AdmissionBucket)) (w : World Windows Empty_set) : Z :=
  match es with
  | [] => 0
  | bs :: es =>
      let '(r, w') := consume lc config bs w in
      (if is_ok r && bool_decide (b ∈ map requested bs) &&
          (window_start ws (t_clock (schedule (w_tick w))) =? start) then 1 else 0) + admitted b start es w'
  end.

Lemma admitted_le_allowed b start es w :
  ar_enabled config = true → ar_failClosed config = true →
  (∀ k w, others (schedule k) w = served ws (elsewhere k) w) →
  admitted b start es w <= allowed_in ws b start (statements es (w_tick w)) (w_db w).
Proof.
  intros He Hf Ho. revert w. induction es as [|bs es IH]; intros w; simpl; [done|].
  rewrite allowed_app, <- Ho. unfold ApiAdmission.consume. rewrite He. simpl. rewrite act_bind_eq.
  unfold attempt, await, transaction. pose proof (allowed_nonneg ws b start (elsewhere (w_tick w)) (w_db w)) as H0.
  set (db := others (schedule (w_tick w)) (w_db w)). set (bs' := map requested (sort_by (compareBuckets lc) bs)).
  assert (bool_decide (b ∈ map requested bs) = bool_decide (b ∈ bs')) as ->.
  { apply bool_decide_ext. unfold bs'. by rewrite ordered_perm. }
  destruct (delivery (schedule (w_tick w))) eqn:Ed; cbn [fst snd app].
  - cbn [allowed_in]. unfold rate_step. cbn [rq_at rq_buckets].
    destruct (rate_statement ws (t_clock (schedule (w_tick w))) bs' db) as [[ra|] db'] eqn:Er; simpl.
    + specialize (IH (mkWorld db' (S (w_tick w)) (w_calls w))). simpl in IH. lia.
    + specialize (IH (mkWorld db' (S (w_tick w)) (w_calls w))). simpl in IH. lia.
  - rewrite Hf. simpl. specialize (IH (mkWorld db (S (w_tick w)) (w_calls w))). simpl in IH. lia.
  - rewrite Hf. cbn [allowed_in]. unfold rate_step. cbn [rq_at rq_buckets].
    destruct (rate_statement ws (t_clock (schedule (w_tick w))) bs' db) as [ra db'] eqn:Er; simpl.
    specialize (IH (mkWorld db' (S (w_tick w)) (w_calls w))). simpl in IH.
    assert (∀ c : bool, 0 <= if c then 1 else 0) as Hc by (intros []; lia). specialize (Hc (
      match ra with None => true | Some _ => false end && bool_decide (b ∈ bs') &&
      (window_start ws (t_clock (schedule (w_tick w))) =? start))). lia.
Qed.

Lemma counted_nonneg b start rs w : 0 <= counted_in ws b start rs w.
Proof.
  revert w. induction rs as [|r rs IH]; intros w; [done|]. cbn [counted_in].
  destruct (rate_step ws r w) as [ok w']. pose proof (IH w'). destruct (_ && _); lia.
Qed.

Lemma counted_app b start rs rs' w :
  counted_in ws b start (rs ++ rs') w = counted_in ws b start rs w + counted_in ws b start rs' (served ws rs w).
Proof.
  revert w. induction rs as [|r rs IH]; intros w; [done|]. cbn [counted_in app].
  unfold served. cbn [foldl]. destruct (rate_step ws r w) as [ok w']. rewrite IH. unfold served. simpl. lia.
Qed.

(** The requests admitted by all replicas that were counted in [b] in the window:
    those the database allowed elsewhere, and those this replica let through. *)
Fixpoint admitted_everywhere (b : Bucket) (start : Z) (es : list (list AdmissionBucket)) (w : World Windows Empty_set)
    : Z :=
  match es with
  | [] => 0
  | bs :: es =>
      let '(r, w') := consume lc config bs w in
      counted_in ws b start (elsewhere (w_tick w)) (w_db w) +
      (if is_ok r && bool_decide (b ∈ map requested bs) && stands_at b start (w_db w') then 1 else 0) +
      admitted_everywhere b start es w'
  end.

Lemma admitted_le_counted b start es w :
  ar_enabled config = true → ar_failClosed config = true →
  (∀ k w, others (schedule k) w = served ws (elsewhere k) w) →
  admitted_everywhere b start es w <= counted_in ws b start (statements es (w_tick w)) (w_db w).
Proof.
  intros He Hf Ho. revert w. induction es as [|bs es IH]; intros w; simpl; [done|].
  rewrite counted_app, <- Ho. unfold ApiAdmission.consume. rewrite He. simpl. rewrite act_bind_eq.
  unfold attempt, await, transaction.
  set (db := others (schedule (w_tick w)) (w_db w)). set (bs' := map requested (sort_by (compareBuckets lc) bs)).
  assert (bool_decide (b ∈ map requested bs) = bool_decide (b ∈ bs')) as ->.
  { apply bool_decide_ext. unfold bs'. by rewrite ordered_perm. }
  assert (∀ c : bool, 0 <= if c then 1 else 0) as Hc by (intros []; lia).
  destruct (delivery (schedule (w_tick w))) eqn:Ed; cbn [fst snd app].
  - cbn [counted_in]. unfold rate_step. cbn [rq_at rq_buckets].
    destruct (rate_statement ws (t_clock (schedule (w_tick w))) bs' db) as [[ra|] db'] eqn:Er; simpl;
      specialize (IH (mkWorld db' (S (w_tick w)) (w_calls w))); simpl in IH; lia.
  - rewrite Hf. simpl. specialize (IH (mkWorld db (S (w_tick w)) (w_calls w))). simpl in IH. lia.
  - rewrite Hf. cbn [counted_in]. unfold rate_step. cbn [rq_at rq_buckets].
    destruct (rate_statement ws (t_clock (schedule (w_tick w))) bs' db) as [ra db'] eqn:Er; simpl.
    specialize (IH (mkWorld db' (S (w_tick w)) (w_calls w))). simpl in IH.
    specialize (Hc (match ra with None => true | Some _ => false end && bool_decide (b ∈ bs') && stands_at b start db')).
    lia.
Qed.

(** C37: With admission enabled and failing closed, all replicas together let no more
    requests through a bucket than its limit in any window, in whatever order their
    statements run, whatever their clocks say and whichever answers are lost.  A
    request belongs to the window its bucket's row stands at once it is counted: the
    one of the statement's clock, or a later one that the row had already reached. *)
Theorem api_requests_within_limit b start es w :
  ar_enabled config = true → ar_failClosed config = true → 0 < b_limit b < maximumStoredCount →
  (∀ k w, others (schedule k) w = served ws (elsewhere k) w) →
  Forall distinct_buckets (statements es (w_tick w)) → row_nonneg (w_db w !! b_key b) →
  admitted_everywhere b start es w <= b_limit b.
Proof.
  intros He Hf Hl Ho Hnd Hrow. pose proof (admitted_le_counted b start es w He Hf Ho) as Ha.
  pose proof (counted_bound ws b start _ (w_db w) Hl Hnd Hrow) as Hb.
  pose proof (used_nonneg b start _ ltac:(lia) Hrow). lia.
Qed.

(** When the statements run in the order of their clocks, the window is the one of
    the clock. *)
Theorem ordered_requests_within_limit b start es w t :
  ar_enabled config = true → ar_failClosed config = true → 0 < ws → 0 < b_limit b < maximumStoredCount →
  (∀ k w, others (schedule k) w = served ws (elsewhere k) w) →
  ordered_from t (statements es (w_tick w)) →
  (∀ r, w_db w !! b_key b = Some r → window_started_at r <= window_start ws t ∧ 0 <= request_count r) →
  admitted b start es w <= b_limit b.
Proof.
  intros He Hf Hws Hl Ho Hord Hrow. pose proof (admitted_le_allowed b start es w He Hf Ho) as Ha.
  assert (row_ok t ws (w_db w !! b_key b)) as Hok by (destruct (w_db w !! b_key b) as [r|] eqn:E; [by apply Hrow|done]).
  pose proof (allowed_bound ws b start _ t _ Hws Hl Hord Hok) as Hb.
  assert (0 <= used b start (w_db w !! b_key b)); [|lia]. unfold used.
  destruct (w_db w !! b_key b) as [r|]; [|done]. destruct Hok as [_ ?]. repeat case_match; lia.
Qed.
End admission.

(** ** Networks *)

Section networks.
Context `{NodeNet}.

(** The network an address belongs to. *)
Definition network (raw : option string) : option (Version * list Z) :=
  let address := clean_address raw in
  match isIP address with
  | Some IPv4 =>
      match ipv4Octets address with Some (a :: b :: c :: _) => Some (IPv4, [a; b; c]) | _ => None end
  | Some IPv6 => (λ b, (IPv6, take 7 b)) <$> ipv6Bytes address
  | None => None
  end.

(** How a network is written. *)
Definition network_text (n : Version * list Z) : string :=
  match n with
  | (IPv4, [a; b; c]) => "ipv4:" +:+ pretty a +:+ "." +:+ pretty b +:+ "." +:+ pretty c +:+ ".0/24"
  | (IPv4, _) => "ipv4:invalid"
  | (IPv6, l) => "ipv6:" +:+ string_of_list_ascii (hex_bytes l) +:+ "/56"
  end.

Lemma identity_text raw n : network raw = Some n → coarseClientIdentity raw = network_text n.
Proof.
  unfold network, coarseClientIdentity, ipv4Network. destruct (isIP _) as [[]|]; [|  |done].
  - destruct (ipv4Octets _) as [[|a [|b [|c o]]]|]; try done. by intros [= <-].
  - intros (b & -> & ->)%fmap_Some. done.
Qed.

Lemma network_v4 raw l : network raw = Some (IPv4, l) → ∃ a b c, l = [a; b; c].
Proof.
  unfold network. destruct (isIP _) as [[]|]; [| |done].
  - destruct (ipv4Octets _) as [[|a [|b [|c o]]]|]; try done. intros [= <-]. eauto.
  - by intros (b & _ & ?)%fmap_Some.
Qed.

Lemma hex_digit_inj a b : 0 <= a < 16 → 0 <= b < 16 → hex_digit a = hex_digit b → a = b.
Proof.
  unfold hex_digit. intros Ha Hb E. apply (f_equal N_of_ascii) in E.
  rewrite !N_ascii_embedding in E by (repeat case_match; lia).
  destruct (Z.ltb_spec a 10), (Z.ltb_spec b 10); lia.
Qed.

Lemma hex_bytes_inj (l l' : list Z) :
  Forall (λ b, 0 <= b < 256) l → Forall (λ b, 0 <= b < 256) l' → hex_bytes l = hex_bytes l' → l = l'.
Proof.
  intros Hl. revert l'. induction Hl as [|b l Hb Hl IH]; intros [|b' l'] Hl'; simpl; try done.
  apply Forall_cons in Hl' as [Hb' Hl']. intros [= E1 E2 E]. f_equal; [|by apply IH].
  apply hex_digit_inj in E1, E2; try (apply Z.mod_pos_bound; lia).
  - rewrite (Z.div_mod b 16), (Z.div_mod b' 16) by lia. congruence.
  - split; [apply Z.div_pos; lia|apply Z.div_lt_upper_bound; lia].
  - split; [apply Z.div_pos; lia|apply Z.div_lt_upper_bound; lia].
Qed.

Lemma radix_digits_bounds l : ∀ acc w,
  0 <= acc → radix_digits 16 acc l = Some w → 0 <= w < (acc + 1) * 16 ^ Z.of_nat (length l).
Proof.
  induction l as [|c l IH]; intros acc w Ha; simpl; [intros [= <-]; lia|].
  destruct (radix_value 16 c) as [v|] eqn:Ev; [|done]. intros Hw.
  assert (0 <= v < 16) as Hv.
  { unfold radix_value in Ev. destruct (Z.ltb_spec (if digit c then digit_value c else
      if hex c then Z.of_N (N_of_ascii (lower_ascii c)) - 87 else 16) 16) as [Hlt|]; [|done]. injection Ev as <-.
    split; [|done]. destruct (digit c) eqn:Ed; [by apply digit_value_bounds|]. destruct (hex c) eqn:Eh; [|lia].
    clear -Ed Eh. revert Ed Eh. destruct c as [[] [] [] [] [] [] [] []]; vm_compute; congruence. }
  apply IH in Hw; [|lia]. rewrite Nat2Z.inj_succ, Z.pow_succ_r by lia. nia.
Qed.

Lemma parse_word_bounds part w : parse_word part = Some w → 0 <= w < 65536.
Proof.
  unfold parse_word. destruct (matches wordPattern part) eqn:Em; [|done]. intros Hw.
  apply radix_digits_bounds in Hw; [|lia]. apply matches_lang, lang_rep in Em as (Hl & _); [|lia].
  assert (16 ^ Z.of_nat (length part) <= 16 ^ 4) by (apply Z.pow_le_mono_r; lia). lia.
Qed.

Lemma parse_words_bounds parts ws : parse_words parts = Some ws → Forall (λ w, 0 <= w < 65536) ws.
Proof.
  revert ws. induction parts as [|part parts IH]; intros ws; simpl; [intros [= <-]; constructor|].
  intros (w & Hw & Hx)%bind_Some. apply bind_Some in Hx as (ws' & Hws & [= <-]).
  constructor; [by eapply parse_word_bounds|by apply IH].
Qed.

Lemma parseHalf_bounds half ws : parseHalf half = Some ws → Forall (λ w, 0 <= w < 65536) ws.
Proof. destruct half; [intros [= <-]; constructor|apply parse_words_bounds]. Qed.

Lemma ipv6Words_spec address ws :
  ipv6Words address = Some ws → length ws = 8%nat ∧ Forall (λ w, 0 <= w < 65536) ws.
Proof.
  unfold ipv6Words. case_bool_decide; [done|]. destruct (split_colons _) as [|half [|half' [|? ?]]]; try done.
  - intros (left & Hl & Hx)%bind_Some. destruct (Z.eqb_spec (Z.of_nat (length left)) 8); [|done]. injection Hx as <-.
    simpl. rewrite app_nil_r. split; [lia|by eapply parseHalf_bounds].
  - intros (left & Hl & Hx)%bind_Some. apply bind_Some in Hx as (right & Hr & Hx).
    destruct (Z.ltb_spec (8 - Z.of_nat (length left) - Z.of_nat (length right)) 1); [done|]. injection Hx as <-.
    rewrite !length_app, length_replicate. split; [lia|]. apply Forall_app. split; [by eapply parseHalf_bounds|].
    apply Forall_app. split; [|by eapply parseHalf_bounds]. apply Forall_replicate. lia.
Qed.

Lemma ipv6Bytes_spec address bs : ipv6Bytes address = Some bs → length bs = 16%nat ∧ Forall (λ b, 0 <= b < 256) bs.
Proof.
  unfold ipv6Bytes. intros (ws & Hw & ->)%fmap_Some. apply ipv6Words_spec in Hw as [Hl Hb]. simpl.
  assert (length (mjoin (word_bytes <$> ws)) = (2 * length ws)%nat) as ->.
  { clear. induction ws as [|w ws IH]; [done|].
    change (length (word_bytes w ++ mjoin (word_bytes <$> ws)) = (2 * length (w :: ws))%nat).
    rewrite length_app, IH. simpl. lia. }
  split; [lia|]. clear Hl. induction Hb as [|w ws Hw _ IH]; simpl; [constructor|]. repeat constructor; [..|exact IH].
  - apply Z.shiftr_nonneg. lia.
  - rewrite Z.shiftr_div_pow2 by lia. apply Z.div_lt_upper_bound; lia.
  - apply Z.land_nonneg. lia.
  - change 255 with (Z.ones 8). rewrite Z.land_ones by lia. apply Z.mod_pos_bound. lia.
Qed.

Lemma network_v6 raw l : network raw = Some (IPv6, l) → length l = 7%nat ∧ Forall (λ b, 0 <= b < 256) l.
Proof.
  unfold network. destruct (isIP _) as [[]|]; [| |done].
  - destruct (ipv4Octets _) as [[|a [|b [|c o]]]|]; done.
  - intros (bs & Hb & [= ->])%fmap_Some. apply ipv6Bytes_spec in Hb as [Hl Hb].
    rewrite length_take. split; [lia|by apply Forall_take].
Qed.

(** What API admission takes a client for is the network of its address, /24
    of an IPv4 and /56 of an IPv6 address: two addresses are counted together
    exactly when their networks are the same. *)
Theorem client_identity_is_network raw raw' n n' :
  network raw = Some n → network raw' = Some n' →
  (coarseClientIdentity raw = coarseClientIdentity raw' ↔ n = n').
Proof.
  intros Hn Hn'. rewrite (identity_text raw n), (identity_text raw' n') by done. split; [|by intros ->].
  destruct n as [[] l], n' as [[] l'].
  - apply network_v4 in Hn as (a & b & c & ->), Hn' as (a' & b' & c' & ->). unfold network_text. intros E.
    apply string_app_cancel in E. apply split_sep in E as [E1 E]; [|by apply pretty_Z_chars..].
    apply split_sep in E as [E2 E]; [|by apply pretty_Z_chars..].
    apply split_sep in E as [E3 _]; [|by apply pretty_Z_chars..]. apply (inj pretty) in E1, E2, E3. congruence.
  - apply network_v4 in Hn as (a & b & c & ->). by intros [=].
  - apply network_v4 in Hn' as (a & b & c & ->). by intros [=].
  - apply network_v6 in Hn as [Hl Hb], Hn' as [Hl' Hb']. unfold network_text. intros E.
    apply string_app_cancel in E. f_equal. apply hex_bytes_inj; [done|done|].
    apply (f_equal list_ascii_of_string) in E. rewrite !list_ascii_app, !list_ascii_of_string_of_list_ascii in E.
    by apply app_inj_2 in E as [E _].
Qed.
End networks.

(** ** At concrete inputs *)

Definition api_demo_net : NodeNet := {|
  isIP s := if bool_decide (":"%char ∈ list_ascii_of_string s) then Some IPv6
            else if bool_decide ("."%char ∈ list_ascii_of_string s) then Some IPv4 else None;
  subnet_contains _ _ _ := false
|}.

Definition api_demo_config : ApiRateLimitConfig := mkApiRateLimit true 60 10 10 10 10 10 true.

(** Another replica counts one request before every statement. *)
Definition api_demo_request (now : Z) : Request := mkRequest now [mkBucket "preauth_ip" 7 10].
Definition api_demo_schedule (k : nat) : Turn Windows :=
  let now := 1000 * Z.of_nat (S k) in
  mkTurn (served 60 [api_demo_request now]) now now (λ _, "") ∅ Delivered.
Definition api_demo_elsewhere (k : nat) : list Request := [api_demo_request (1000 * Z.of_nat (S k))].
Definition api_demo_word (s : string) : Z := str_length s.

Definition api_demo_buckets : list AdmissionBucket :=
  identity_buckets api_demo_config (mkAdmissionIdentity "user:u" (Some "o") None).
Definition api_demo_bucket : Bucket := requested api_demo_word (mkAdmissionBucket "principal" "user:u" 10).

Lemma admission_ignores_collation_witness :
  consume api_demo_schedule api_demo_word codeUnitCompare api_demo_config api_demo_buckets (mkWorld ∅ O []) =
  consume api_demo_schedule api_demo_word (λ a b, codeUnitCompare b a) api_demo_config api_demo_buckets (mkWorld ∅ O []).
Proof.
  exact (admission_ignores_collation api_demo_schedule api_demo_word api_demo_config codeUnitCompare
    (λ a b, codeUnitCompare b a) api_demo_buckets (mkWorld ∅ O [])
    (identity_scopes api_demo_word id api_demo_config (mkAdmissionIdentity "user:u" (Some "o") None))).
Defined.

Lemma api_requests_within_limit_witness :
  admitted_everywhere api_demo_schedule api_demo_word api_demo_config codeUnitCompare api_demo_elsewhere api_demo_bucket 0
    [api_demo_buckets; api_demo_buckets] (mkWorld ∅ O []) = 2 ∧
  admitted_everywhere api_demo_schedule api_demo_word api_demo_config codeUnitCompare api_demo_elsewhere api_demo_bucket 0
    [api_demo_buckets; api_demo_buckets] (mkWorld ∅ O []) <= 10.
Proof.
  split; [vm_compute; reflexivity|].
  apply (api_requests_within_limit api_demo_schedule api_demo_word api_demo_config codeUnitCompare api_demo_elsewhere
    api_demo_bucket 0 [api_demo_buckets; api_demo_buckets] (mkWorld ∅ O [])).
  - reflexivity.
  - reflexivity.
  - split; reflexivity.
  - intros k w. reflexivity.
  - assert (∀ bs, bool_decide (NoDup (map b_key bs)) = true → NoDup (map b_key bs)) as Hb
      by (intros bs; apply bool_decide_eq_true_1).
    repeat (apply Forall_cons_2; [apply Hb; vm_compute; reflexivity|]). apply Forall_nil_2.
  - exact I.
Defined.

Lemma ordered_requests_within_limit_witness :
  admitted api_demo_schedule api_demo_word api_demo_config codeUnitCompare api_demo_bucket 0
    [api_demo_buckets; api_demo_buckets] (mkWorld ∅ O []) = 2 ∧
  admitted api_demo_schedule api_demo_word api_demo_config codeUnitCompare api_demo_bucket 0
    [api_demo_buckets; api_demo_buckets] (mkWorld ∅ O []) <= 10.
Proof.
  split; [vm_compute; reflexivity|].
  apply (ordered_requests_within_limit api_demo_schedule api_demo_word api_demo_config codeUnitCompare api_demo_elsewhere
    api_demo_bucket 0 [api_demo_buckets; api_demo_buckets] (mkWorld ∅ O []) 0).
  - reflexivity.
  - reflexivity.
  - reflexivity.
  - split; reflexivity.
  - intros k w. reflexivity.
  - assert (∀ bs, bool_decide (NoDup (map b_key bs)) = true → NoDup (map b_key bs)) as Hb
      by (intros bs; apply bool_decide_eq_true_1).
    repeat split; try (apply Hb; vm_compute; reflexivity); vm_compute; discriminate.
  - intros r Hr. simpl in Hr. rewrite lookup_empty in Hr. discriminate Hr.
Defined.

Lemma client_identity_is_network_witness :
  @network api_demo_net (Some "2001:db8::1") = Some (IPv6, [32; 1; 13; 184; 0; 0; 0]) ∧
  @coarseClientIdentity api_demo_net (Some "2001:db8::1") = @coarseClientIdentity api_demo_net (Some "2001:DB8:0:ff::2").
Proof.
  assert (@network api_demo_net (Some "2001:db8::1") = Some (IPv6, [32; 1; 13; 184; 0; 0; 0])) as H1
    by (vm_compute; reflexivity).
  assert (@network api_demo_net (Some "2001:DB8:0:ff::2") = Some (IPv6, [32; 1; 13; 184; 0; 0; 0])) as H2
    by (vm_compute; reflexivity).
  split; [exact H1|].
  exact (proj2 (@client_identity_is_network api_demo_net (Some "2001:db8::1") (Some "2001:DB8:0:ff::2") _ _ H1 H2) eq_refl).
Defined.

(** ** Pending request bodies *)

Inductive BodyOperation := AcquireBody (client : string) | ReleaseBody (n : nat).

Section bodies.
Context (maximumTotal maximumPerClient : Z).

Definition body_operation (b : PendingBodies) (o : BodyOperation) : PendingBodies :=
  match o with
  | AcquireBody client => default b (snd <$> tryAcquire maximumTotal maximumPerClient client b)
  | ReleaseBody n => release_body n b
  end.

Definition held_body (l : BodyLease) : Z := if bl_released l then 0 else 1.
Definition held_by_client (client : string) (l : BodyLease) : Z :=
  if String.eqb (bl_client l) client then held_body l else 0.

(** Requests whose body is still being read: all, and those of a client. *)
Definition reading (b : PendingBodies) : Z := sum_with held_body (pb_leases b).
Definition reading_of (client : string) (b : PendingBodies) : Z := sum_with (held_by_client client) (pb_leases b).

Record bodies_ok (b : PendingBodies) : Prop := {
  bo_total : pb_total b = reading b;
  bo_client : ∀ client, default 0 (pb_byClient b !! client) = reading_of client b;
  bo_active : ∀ client n, pb_byClient b !! client = Some n → 0 < n;
  bo_bound : reading b <= maximumTotal;
  bo_each : ∀ client, reading_of client b <= maximumPerClient
}.

Lemma sum_with_insert {A} (f : A → Z) l n x y :
  l !! n = Some x → sum_with f (<[n := y]> l) = sum_with f l - f x + f y.
Proof.
  intros Hn. rewrite <- (take_drop_middle l n x Hn) at 2.
  rewrite insert_take_drop by (by eapply lookup_lt_Some). rewrite !sum_with_app. simpl. lia.
Qed.

Lemma held_nonneg client l : 0 <= held_by_client client l.
Proof. unfold held_by_client, held_body. destruct (String.eqb _ _), (bl_released l); lia. Qed.

Lemma tryAcquire_ok client b : bodies_ok b → bodies_ok (body_operation b (AcquireBody client)).
Proof.
  intros Hok. pose proof Hok as [Ht Hcl Hac Hb He]. simpl.
  unfold tryAcquire. destruct (_ || _) eqn:E; [done|]. bool_simp. simpl.
  assert (∀ c, reading_of c (mkPendingBodies (pb_total b + 1)
    (<[client := default 0 (pb_byClient b !! client) + 1]> (pb_byClient b)) (pb_leases b ++ [mkBodyLease client false]))
    = reading_of c b + if String.eqb client c then 1 else 0) as Hr.
  { intros c. unfold reading_of. simpl. rewrite sum_with_app. f_equal.
    unfold held_by_client, held_body, sum_with. simpl. lia. }
  assert (sum_with held_body (pb_leases b ++ [mkBodyLease client false]) = reading b + 1) as Ht'
    by (rewrite sum_with_app; done).
  constructor; unfold reading in *; simpl.
  - rewrite Ht'. lia.
  - intros c. rewrite Hr. destruct (String.eqb_spec client c) as [->|Hne].
    + rewrite lookup_insert_eq. simpl. by rewrite Hcl.
    + rewrite lookup_insert_ne by done. rewrite Hcl. lia.
  - intros c k [[<- <-]|[_ Hk]]%lookup_insert_Some; [|by eapply Hac].
    destruct (pb_byClient b !! client) as [m|] eqn:Em; simpl; [apply Hac in Em|]; lia.
  - rewrite Ht'. lia.
  - intros c. rewrite Hr. specialize (He c). rewrite Hcl in *.
    destruct (String.eqb_spec client c) as [->|Hne]; lia.
Qed.

Lemma release_body_ok n b : bodies_ok b → bodies_ok (release_body n b).
Proof.
  intros Hok. pose proof Hok as [Ht Hcl Hac Hb He].
  unfold release_body. destruct (pb_leases b !! n) as [[client []]|] eqn:En; [done| |done].
  assert (∀ c, sum_with (held_by_client c) (<[n := mkBodyLease client true]> (pb_leases b))
    = reading_of c b - if String.eqb client c then 1 else 0) as Hr.
  { intros c. rewrite (sum_with_insert _ _ _ _ _ En). fold (reading_of c b).
    assert (held_by_client c (mkBodyLease client true) = 0) as -> by (unfold held_by_client; by destruct (String.eqb _ _)).
    assert (held_by_client c (mkBodyLease client false) = if String.eqb client c then 1 else 0) as -> by done. lia. }
  assert (sum_with held_body (<[n := mkBodyLease client true]> (pb_leases b)) = reading b - 1) as Ht'.
  { rewrite (sum_with_insert _ _ _ _ _ En). fold (reading b). unfold held_body. simpl. lia. }
  assert (0 < reading_of client b) as Hpos.
  { pose proof (Hr client) as H. rewrite String.eqb_refl in H.
    assert (0 <= sum_with (held_by_client client) (<[n := mkBodyLease client true]> (pb_leases b))); [|lia].
    apply sum_with_nonneg. intros l _. apply held_nonneg. }
  assert (pb_byClient b !! client = Some (reading_of client b)) as Hk.
  { specialize (Hcl client). destruct (pb_byClient b !! client); simpl in Hcl; [by f_equal|lia]. }
  rewrite Hk. simpl. constructor; unfold reading, reading_of in *; simpl.
  - rewrite Ht'. lia.
  - intros c. rewrite Hr. destruct (String.eqb_spec client c) as [<-|Hne].
    + destruct (_ =? 0) eqn:E0; bool_simp; [rewrite lookup_delete_eq|rewrite lookup_insert_eq]; simpl; lia.
    + destruct (_ =? 0); [rewrite lookup_delete_ne by done|rewrite lookup_insert_ne by done]; rewrite Hcl; lia.
  - intros c k. destruct (_ =? 0) eqn:E0; bool_simp.
    + intros [_ Hc]%lookup_delete_Some. by eapply Hac.
    + intros [[<- <-]|[_ Hc]]%lookup_insert_Some; [lia|by eapply Hac].
  - rewrite Ht'. lia.
  - intros c. rewrite Hr. specialize (He c). destruct (String.eqb client c); lia.
Qed.

Lemma body_operation_ok b o : bodies_ok b → bodies_ok (body_operation b o).
Proof. destruct o; [apply tryAcquire_ok|apply release_body_ok]. Qed.

(** At any moment, after any bodies were admitted and any leases given back, once
    or more often, no more bodies are being read than the limits allow, in all and
    per client, the counters are exact and a client without pending bodies takes
    no room; and a body is refused only when a limit is reached. *)
Theorem pending_bodies_bounded operations :
  0 <= maximumTotal → 0 <= maximumPerClient →
  let b := foldl body_operation no_bodies operations in
  pb_total b = reading b ∧ reading b <= maximumTotal ∧
  (∀ client, pb_byClient b !! client =
     if reading_of client b =? 0 then None else Some (reading_of client b)) ∧
  (∀ client, reading_of client b <= maximumPerClient) ∧
  (∀ client, tryAcquire maximumTotal maximumPerClient client b = None ↔
     reading b = maximumTotal ∨ reading_of client b = maximumPerClient).
Proof.
  intros H0 H1. assert (bodies_ok (foldl body_operation no_bodies operations)) as Hok.
  { assert (bodies_ok no_bodies) as Hstart by (constructor; try done; intros c; by rewrite ?lookup_empty).
    revert Hstart. generalize no_bodies. induction operations as [|o l IH]; intros b Hb; simpl; [done|].
    by apply IH, body_operation_ok. }
  cbv zeta. destruct Hok as [Ht Hcl Hac Hb He]. split_and!; [done|done| |done|].
  - intros client. specialize (Hcl client). destruct (pb_byClient _ !! client) as [n|] eqn:En; simpl in Hcl.
    + apply Hac in En. rewrite Hcl in En. destruct (Z.eqb_spec (reading_of client (foldl body_operation no_bodies operations)) 0);
        [lia|by rewrite Hcl].
    + by rewrite <- Hcl.
  - intros client. unfold tryAcquire. rewrite Hcl, Ht. specialize (He client).
    destruct (_ || _) eqn:E; split; intros H; try done; bool_simp; [|lia].
    apply orb_true_iff in E as [E|E]; apply Z.leb_le in E; lia.
Qed.
End bodies.

Lemma read_chunks_spec maximum read chunks body :
  read_chunks maximum (Z.of_nat (length (concat read))) read chunks = Ok body →
  body = concat read ++ concat chunks ∧ (chunks ≠ [] → Z.of_nat (length body) <= maximum).
Proof.
  revert read. induction chunks as [|chunk chunks IH]; intros read; simpl.
  - intros [= <-]. by rewrite app_nil_r.
  - destruct (_ <? _) eqn:E; [done|]. intros Hr. specialize (IH (read ++ [chunk])).
    rewrite concat_app in IH. simpl in IH. rewrite app_nil_r, length_app, Nat2Z.inj_add in IH.
    destruct (IH Hr) as [-> Hl]. bool_simp. rewrite <- app_assoc. split; [done|]. intros _.
    destruct chunks; [|by rewrite app_assoc; apply Hl]. simpl. rewrite app_nil_r, length_app. lia.
Qed.

(** A body that is accepted is the chunks that came, and no longer than the limit. *)
Theorem incoming_body_bounded method declared encoded chunks maximum body :
  0 <= maximum → incomingBody method declared encoded chunks maximum = Ok (Some body) →
  body = concat chunks ∧ Z.of_nat (length body) <= maximum.
Proof.
  intros Hm. unfold incomingBody, mbind, result_bind.
  destruct (validateDeclaredBodyLength declared maximum) as [n|]; [|done].
  destruct (_ && _); [done|]. destruct (_ || _); [done|].
  destruct (read_chunks _ _ _ _) as [read|] eqn:E; [|done]. intros [= <-].
  apply (read_chunks_spec maximum []) in E as [-> Hl]. split; [done|].
  destruct chunks; [done|by apply Hl].
Qed.

Lemma pending_bodies_bounded_witness :
  let b := foldl (body_operation 64 4) no_bodies
    [AcquireBody "a"; AcquireBody "a"; ReleaseBody 0; ReleaseBody 0; AcquireBody "b"] in
  pb_total b = 2 ∧ pb_total b = reading b.
Proof.
  cbv zeta. split; [vm_compute; reflexivity|].
  exact (proj1 (pending_bodies_bounded 64 4
    [AcquireBody "a"; AcquireBody "a"; ReleaseBody 0; ReleaseBody 0; AcquireBody "b"] ltac:(lia) ltac:(lia))).
Defined.

Lemma incoming_body_bounded_witness :
  incomingBody "POST" (Some "2") false [["a"]; ["b"]]%char 10 = Ok (Some ["a"; "b"]%char) ∧
  Z.of_nat (length ["a"; "b"]%char) <= 10.
Proof.
  assert (incomingBody "POST" (Some "2") false [["a"]; ["b"]]%char 10 = Ok (Some ["a"; "b"]%char)) as H
    by (vm_compute; reflexivity).
  split; [exact H|]. exact (proj2 (incoming_body_bounded _ _ _ _ 10 _ ltac:(lia) H)).
Defined.
