(* ===== verification/HostAdmission.v ===== *)
(** * Admission of host credentials

    src/apps/nehemiah/src/auth/host-admission.ts: the counters one process keeps
    in front of Argon2 when a host presents its credential.  The slots and the
    number of verifications under way are the state; [begin_verify] and
    [end_verify] are what [verify] does before and after the operation it
    guards, between which other calls run. *)

From S2P Require Import Prelude Text Js.

Inductive HostAdmissionError :=
| HostCredentialRateLimitExceeded (retryAfterSeconds : Z)
| HostCredentialVerifierBusy
| InvalidHostAdmission (message : string)
| OperationFailed.

Record Slot := mkSlot { sl_window : Z; sl_count : Z }.

(** A slot that is not in the map is as it was created. *)
Record HostCredentialAdmission := mkHostAdmission {
  ha_slots : gmap Z Slot;
  ha_active : Z
}.
#[export] Instance HostCredentialAdmission_eta : Settable HostCredentialAdmission := λ r,
  mkHostAdmission (ha_slots r) (ha_active r).

Record HostAdmissionLimits := mkHostLimits {
  hl_mask : Z;
  hl_requestsPerSecond : Z;
  hl_maximumConcurrentVerifications : Z
}.

Definition fresh_slot : Slot := mkSlot (-1) 0.
Definition idle : HostCredentialAdmission := mkHostAdmission ∅ 0.

(** The constructor; absent options have their defaults. *)
Definition newHostCredentialAdmission (slots requestsPerSecond maximumConcurrentVerifications : option number)
    : result HostAdmissionError HostAdmissionLimits :=
  match safe_between 1024 1048576 (default (NInt 65536) slots) with
  | Some n =>
      if negb (Z.land n (n - 1) =? 0)
      then Err (InvalidHostAdmission "host credential admission slots must be a power of two from 1024 to 1048576")
      else
        match safe_between 1 1000 (default (NInt 8) requestsPerSecond) with
        | None => Err (InvalidHostAdmission "host credential requests per second must be from 1 to 1000")
        | Some r =>
            match safe_between 1 64 (default (NInt 4) maximumConcurrentVerifications) with
            | None => Err (InvalidHostAdmission "host credential verifier concurrency must be from 1 to 64")
            | Some m => Ok (mkHostLimits (n - 1) r m)
            end
        end
  | None => Err (InvalidHostAdmission "host credential admission slots must be a power of two from 1024 to 1048576")
  end.

Section admission.
Context (digest32 : string → Z) (limits : HostAdmissionLimits).

Definition slotIndex (source : option string) (hostId : string) : Z :=
  Z.land (digest32 (substring 0 128 (default "unknown" source) +:+ nul +:+ substring 0 128 hostId)) (hl_mask limits).

Definition slot_at (s : HostCredentialAdmission) (i : Z) : Slot := default fresh_slot (ha_slots s !! i).

(** The slot reset when its window is over, and counted. *)
Definition counted_slot (window : Z) (slot : Slot) : Slot :=
  mkSlot window ((if negb (sl_window slot =? window) then 0 else sl_count slot) + 1).

Definition begin_verify (now : Z) (source : option string) (hostId : string)
    : Act HostCredentialAdmission HostAdmissionError unit := λ s,
  let window := now / msPerSecond in
  let i := slotIndex source hostId in
  let slot := counted_slot window (slot_at s i) in
  let s := s <| ha_slots ::= <[i := slot]> |> in
  if hl_requestsPerSecond limits <? sl_count slot
  then (Err (HostCredentialRateLimitExceeded (Z.max 1 (ceil_div ((window + 1) * msPerSecond - now) msPerSecond))), s)
  else if hl_maximumConcurrentVerifications limits <=? ha_active s
  then (Err HostCredentialVerifierBusy, s)
  else (Ok tt, s <| ha_active ::= Z.add 1 |>).

Definition end_verify (s : HostCredentialAdmission) : HostCredentialAdmission := s <| ha_active ::= Z.pred |>.

(** [try { return await operation(); } finally { ... }] *)
Definition verify {A} (now : Z) (source : option string) (hostId : string)
    (operation : Act HostCredentialAdmission HostAdmissionError A)
    : Act HostCredentialAdmission HostAdmissionError A := λ s,
  match begin_verify now source hostId s with
  | (Err e, s1) => (Err e, s1)
  | (Ok _, s1) => let '(r, s2) := operation s1 in (r, end_verify s2)
  end.

(** ** Runs of the process *)

Inductive AdmissionEvent :=
| Begins (now : Z) (source : option string) (hostId : string)
| Ends.

(** The process with the number of operations under way: an operation ends only
    after it began. *)
Definition process_step (e : AdmissionEvent) (p : HostCredentialAdmission * nat)
    : option (HostCredentialAdmission * nat) :=
  match e with
  | Begins now source hostId =>
      match begin_verify now source hostId p.1 with
      | (Ok _, s) => Some (s, S p.2)
      | (Err _, s) => Some (s, p.2)
      end
  | Ends => match p.2 with S n => Some (end_verify p.1, n) | O => None end
  end.

Fixpoint process_run (es : list AdmissionEvent) (p : HostCredentialAdmission * nat)
    : option (HostCredentialAdmission * nat) :=
  match es with
  | [] => Some p
  | e :: es => p ← process_step e p; process_run es p
  end.

(** The operations begun in slot [i] during [window]. *)
Fixpoint begun (i window : Z) (es : list AdmissionEvent) (p : HostCredentialAdmission * nat) : Z :=
  match es with
  | [] => 0
  | e :: es =>
      match process_step e p with
      | None => 0
      | Some p' =>
          (match e with
           | Begins now source hostId =>
               if is_ok (begin_verify now source hostId p.1).1 && (slotIndex source hostId =? i) &&
                  (now / msPerSecond =? window) then 1 else 0
           | Ends => 0
           end) + begun i window es p'
      end
  end.

(** The clock does not go back. *)
Fixpoint clock_from (t : Z) (es : list AdmissionEvent) : Prop :=
  match es with
  | [] => True
  | Begins now _ _ :: es => t <= now ∧ clock_from now es
  | Ends :: es => clock_from t es
  end.

(** ** What holds of a run *)

Lemma begin_active now source hostId s :
  ha_active s <= hl_maximumConcurrentVerifications limits →
  let '(r, s') := begin_verify now source hostId s in
  ha_active s' = ha_active s + (if is_ok r then 1 else 0) ∧
  ha_active s' <= hl_maximumConcurrentVerifications limits.
Proof.
  intros Ha. unfold begin_verify. simpl. destruct (_ <? _); simpl; [lia|].
  destruct (Z.leb_spec (hl_maximumConcurrentVerifications limits) (ha_active s)); simpl; lia.
Qed.

Lemma step_active e p p' :
  process_step e p = Some p' → ha_active p.1 = Z.of_nat p.2 → ha_active p.1 <= hl_maximumConcurrentVerifications limits →
  ha_active p'.1 = Z.of_nat p'.2 ∧ ha_active p'.1 <= hl_maximumConcurrentVerifications limits.
Proof.
  destruct p as [s n]. destruct e as [now source hostId|]; simpl.
  - intros Hp Ha Hm. pose proof (begin_active now source hostId s Hm) as Hb.
    destruct (begin_verify now source hostId s) as [[[]|e] s']; simpl in Hb; injection Hp as <-; simpl; lia.
  - destruct n as [|n]; [done|]. intros [= <-]. simpl. lia.
Qed.

Lemma begin_slots now source hostId s :
  let '(r, s') := begin_verify now source hostId s in
  let slot := counted_slot (now / msPerSecond) (slot_at s (slotIndex source hostId)) in
  ha_slots s' = <[slotIndex source hostId := slot]> (ha_slots s) ∧
  (is_ok r = true → sl_count slot <= hl_requestsPerSecond limits).
Proof.
  unfold begin_verify. set (slot := counted_slot _ _). destruct (Z.ltb_spec (hl_requestsPerSecond limits) (sl_count slot)).
  - done.
  - destruct (_ <=? _); [done|]. split; [done|]. intros _. lia.
Qed.

(** How much of its rate a slot has used in [window]. *)
Definition slot_used (window : Z) (slot : Slot) : Z :=
  if sl_window slot =? window then Z.min (hl_requestsPerSecond limits) (sl_count slot)
  else if window <? sl_window slot then hl_requestsPerSecond limits else 0.

Lemma begun_bound i window es : ∀ t p,
  1 <= hl_requestsPerSecond limits → clock_from t es → 0 <= sl_count (slot_at p.1 i) →
  sl_window (slot_at p.1 i) <= t / msPerSecond →
  begun i window es p <= hl_requestsPerSecond limits - slot_used window (slot_at p.1 i).
Proof.
  induction es as [|e es IH]; intros t [s n] Hr Hc Hn Ht; simpl in *.
  { unfold slot_used. destruct (_ =? _); [lia|]. destruct (_ <? _); lia. }
  destruct e as [now source hostId|]; simpl.
  - destruct Hc as [Htn Hc]. assert (t / msPerSecond <= now / msPerSecond) as Hmono by (apply Z.div_le_mono; done).
    pose proof (begin_slots now source hostId s) as Hb.
    destruct (begin_verify now source hostId s) as [r s'] eqn:Eb. destruct Hb as [Hs' Hok].
    set (n' := match r with Ok _ => S n | Err _ => n end).
    assert (match r with Ok _ => Some (s', S n) | Err _ => Some (s', n) end = Some (s', n')) as -> by (by destruct r).
    simpl. set (ok := is_ok r) in *. destruct (Z.eqb_spec (slotIndex source hostId) i) as [Hi|Hi].
    + rewrite Hi in *.
      assert (slot_at s' i = counted_slot (now / msPerSecond) (slot_at s i)) as E
        by (unfold slot_at; by rewrite Hs', lookup_insert_eq).
      specialize (IH now (s', n') Hr Hc). simpl in IH. rewrite E in IH.
      assert (0 <= sl_count (counted_slot (now / msPerSecond) (slot_at s i))) as Hc0
        by (simpl; destruct (negb _); lia).
      assert (sl_window (counted_slot (now / msPerSecond) (slot_at s i)) <= now / msPerSecond) as Hw by (simpl; lia).
      specialize (IH Hc0 Hw). unfold slot_used, counted_slot in *. simpl in *.
      destruct ok; simpl; [specialize (Hok eq_refl)|];
        repeat match goal with
        | |- context [?a =? ?b] => destruct (Z.eqb_spec a b); simpl in *
        | H : context [?a =? ?b] |- _ => destruct (Z.eqb_spec a b); simpl in *
        | |- context [?a <? ?b] => destruct (Z.ltb_spec a b); simpl in *
        | H : context [?a <? ?b] |- _ => destruct (Z.ltb_spec a b); simpl in *
        end; lia.
    + assert (slot_at s' i = slot_at s i) as E by (unfold slot_at; by rewrite Hs', lookup_insert_ne).
      specialize (IH now (s', n') Hr Hc). simpl in IH. rewrite E in IH.
      rewrite andb_false_r. simpl. apply IH; [done|lia].
  - destruct n as [|n].
    + unfold slot_used. destruct (_ =? _); [lia|]. destruct (_ <? _); lia.
    + exact (IH t (end_verify s, n) Hr Hc Hn Ht).
Qed.
End admission.

(** ** Theorems *)

(** However verifications of host credentials interleave in a process, at
    every moment exactly those under way are counted and they are no more than the
    limit, also after operations that failed; and while the clock does not go back
    at most the rate of them begins in one slot in one second, so that no source
    makes the process run Argon2 for one host more often. *)
Theorem host_verifications_bounded digest32 limits es p i window t :
  newHostCredentialAdmission (Some (NInt (hl_mask limits + 1))) (Some (NInt (hl_requestsPerSecond limits)))
    (Some (NInt (hl_maximumConcurrentVerifications limits))) = Ok limits →
  process_run digest32 limits es (idle, O) = Some p →
  (ha_active p.1 = Z.of_nat p.2 ∧ Z.of_nat p.2 <= hl_maximumConcurrentVerifications limits) ∧
  (clock_from t es → 0 <= t → begun digest32 limits i window es (idle, O) <= hl_requestsPerSecond limits).
Proof.
  unfold newHostCredentialAdmission.
  destruct (safe_between 1024 1048576 _) as [n|]; [|done]. destruct (negb _); [done|].
  destruct (safe_between 1 1000 _) as [r|] eqn:Er; [|done]. destruct (safe_between 1 64 _) as [m|] eqn:Em; [|done].
  intros _ Hrun. apply safe_between_Some in Er as (Er & _ & Hr), Em as (Em & _ & Hm). simpl in Er, Em.
  injection Er as Er. injection Em as Em.
  split.
  - assert (ha_active (idle, O).1 = Z.of_nat (idle, O).2 ∧ ha_active (idle, O).1 <= hl_maximumConcurrentVerifications limits) as H0
      by (simpl; lia). revert Hrun H0. generalize (idle, O).
    induction es as [|e es IH]; intros q; simpl.
    + intros [= ->] [E ?]. split; [done|lia].
    + intros Hq [E Hmax]. apply bind_Some in Hq as (q' & Hs & Hq). apply (IH q' Hq).
      by apply (step_active digest32 limits e q).
  - intros Hc Ht. pose proof (begun_bound digest32 limits i window es t (idle, O) ltac:(lia) Hc) as Hb.
    unfold slot_at in Hb. simpl in Hb. rewrite lookup_empty in Hb. simpl in Hb.
    assert (0 <= t / msPerSecond) as Htw by (apply Z.div_pos; [done|unfold msPerSecond; lia]).
    specialize (Hb ltac:(lia) ltac:(lia)).
    assert (0 <= slot_used limits window fresh_slot); [|lia].
    unfold slot_used. simpl. repeat case_match; lia.
Qed.

Definition demo_host_limits : HostAdmissionLimits := mkHostLimits 1023 3 1.
Definition demo_word (s : string) : Z := str_length s.
Definition demo_verifications : list AdmissionEvent :=
  [Begins 1000 None "h"; Begins 1100 None "g"; Ends; Begins 1200 None "h"; Begins 1300 None "h"].

Lemma host_verifications_bounded_witness :
  ∃ p, process_run demo_word demo_host_limits demo_verifications (idle, O) = Some p ∧ ha_active p.1 = 1 ∧
    begun demo_word demo_host_limits 9 1 demo_verifications (idle, O) <= 3.
Proof.
  assert (∃ p, process_run demo_word demo_host_limits demo_verifications (idle, O) = Some p ∧ p.2 = 1%nat) as (p & Hp & Hn).
  { eexists. split; [vm_compute; reflexivity|reflexivity]. }
  assert (newHostCredentialAdmission (Some (NInt (hl_mask demo_host_limits + 1)))
    (Some (NInt (hl_requestsPerSecond demo_host_limits)))
    (Some (NInt (hl_maximumConcurrentVerifications demo_host_limits))) = Ok demo_host_limits) as Hl
    by (vm_compute; reflexivity).
  destruct (host_verifications_bounded demo_word demo_host_limits demo_verifications p 9 1 0 Hl Hp) as ((E & _) & Hb).
  exists p. split; [exact Hp|]. split; [rewrite E, Hn; reflexivity|]. apply Hb; [|lia]. simpl. lia.
Defined.
