(* ===== verification/AuditLog.v ===== *)
(** * The audit log

    src/apps/nehemiah/src/audit/audit.ts: events that are only appended, the
    counters of authentication attempts, and [capture], which puts an event before
    and after an operation.  What an operation throws is seen through its code and
    its class. *)

From S2P Require Import Prelude Text Js Identity Awaiting.

Record AuditActor := mkActor {
  aa_organizationId : option string;
  aa_projectId : option string;
  aa_actorType : string;
  aa_actorId : option string;
  aa_requestId : option string;
  aa_userAgent : option string
}.
#[export] Instance AuditActor_eta : Settable AuditActor := λ r,
  mkActor (aa_organizationId r) (aa_projectId r) (aa_actorType r) (aa_actorId r) (aa_requestId r) (aa_userAgent r).

Record AuditRecord := mkAuditRecord {
  ad_actor : AuditActor;
  ad_operationId : option string;
  ad_action : string;
  ad_outcome : string;
  ad_reasonCode : option string;
  ad_resourceType : option string;
  ad_resourceId : option string;
  ad_metadata : option json
}.

Record AuthenticationAuditRecord := mkAttempt {
  at_action : string;
  at_credentialKind : string;
  at_dedupeIdentity : string;
  at_outcome : string;
  at_reasonCode : string;
  at_actor : AuditActor;
  at_source : string;
  at_route : string;
  at_method : string
}.

Record AuditCompletion := mkCompletion {
  co_outcome : option string;
  co_reasonCode : option string;
  co_projectId : option string;
  co_resourceId : option string;
  co_metadata : option json;
  co_deferTerminal : bool
}.

(** A row of [audit_events]. *)
Record AuditEvent := mkAuditEvent {
  ev_event_key : string;
  ev_operation_id : string;
  ev_organization_id : option string;
  ev_project_id : option string;
  ev_actor_type : string;
  ev_actor_id : option string;
  ev_action : string;
  ev_outcome : string;
  ev_reason_code : option string;
  ev_resource_type : option string;
  ev_resource_id : option string;
  ev_request_id : option string;
  ev_user_agent : option string;
  ev_metadata : json
}.

(** A row of [authentication_attempt_windows], by its kind and slot. *)
Record AttemptRow := mkAttemptRow {
  aw_window_started_at : Z;
  aw_attempt_count : Z;
  aw_succeeded_count : Z;
  aw_denied_count : Z;
  aw_last_reason_code : string;
  aw_last_seen_at : Z
}.

Record AuditDb := mkAuditDb {
  audit_events : list AuditEvent;
  attempt_windows : gmap (string * Z) AttemptRow
}.
#[export] Instance AuditDb_eta : Settable AuditDb := λ r, mkAuditDb (audit_events r) (attempt_windows r).

Inductive AuditDbError := EventKeyTaken.

(** ** Text *)

(** [/^[a-z][a-z0-9._:-]{0,127}$/] *)
Definition tokenPattern : re := Cat (Chr lower) (rep 0 127 (Chr (λ c, lower_alnum c || one_of "._:-" c))).

Definition safeToken (value fallback : string) : string := if test tokenPattern value then value else fallback.

(** [replace(/([a-z0-9])([A-Z])/g, '$1_$2')]: matches cannot overlap. *)
Fixpoint split_words (l : list ascii) : list ascii :=
  match l with
  | a :: ((b :: _) as rest) =>
      if (lower a || digit a) && upper b then a :: "_"%char :: split_words rest else a :: split_words rest
  | _ => l
  end.

Definition classReason (name : string) : string :=
  toLowerCase (string_of_list_ascii
    (map (λ c, if alnum c || one_of "._:-" c then c else "_"%char) (split_words (list_ascii_of_string name)))).

(** A thrown value: its [code] when it is a string, and the name of its class
    when it is an [Error]. *)
Record ThrownValue := mkThrown { th_code : option string; th_class : option string }.

Definition auditFailureReason (e : ThrownValue) : string :=
  match th_code e with
  | Some code => safeToken (toLowerCase code) "operation_failed"
  | None => match th_class e with
            | Some name => safeToken (classReason name) "operation_failed"
            | None => "operation_failed"
            end
  end.

(** [toUpperCase] of an HTTP method, which is an ASCII token. *)
Definition upper_token (s : string) : string :=
  string_of_list_ascii
    (map (λ c, if lower c then ascii_of_N (N_of_ascii c - 32) else c) (list_ascii_of_string s)).

Definition bounded (value : option string) (maximum : nat) : option string :=
  match value with
  | Some v => if String.eqb v "" then None else Some (substring 0 maximum v)
  | None => None
  end.

(** ** Events *)

(** [INSERT INTO audit_events]: [event_key] is unique. *)
Definition insert_event (e : AuditEvent) : Tx AuditDb AuditDbError unit := λ db,
  if has_key ev_event_key (ev_event_key e) (audit_events db) then Err EventKeyTaken
  else Ok (tt, db <| audit_events ::= λ l, l ++ [e] |>).

Definition event_of (sha256 : string → string) (eventKey operationId : string) (input : AuditRecord) : AuditEvent :=
  let a := ad_actor input in
  mkAuditEvent eventKey operationId (aa_organizationId a) (aa_projectId a) (aa_actorType a)
    (bounded (aa_actorId a) 256) (safeToken (ad_action input) "unknown_action") (ad_outcome input)
    (match ad_reasonCode input with
     | Some r => if String.eqb r "" then None else Some (safeToken (toLowerCase r) "operation_failed")
     | None => None
     end)
    (bounded (ad_resourceType input) 128) (bounded (ad_resourceId input) 256)
    (bounded (aa_requestId a) 128) (auditUserAgentFingerprint sha256 (aa_userAgent a))
    (default (JObj []) (ad_metadata input)).

(** ** Attempts *)

Definition windowSeconds : Z := 3600.

(** [digest16] is the first two bytes of the digest. *)
Definition attempt_slot (digest16 : string → Z) (input : AuthenticationAuditRecord) : Z :=
  digest16 ("nehemiah-authentication-audit-v1" +:+ nul +:+ at_action input +:+ nul +:+ at_credentialKind input
    +:+ nul +:+ at_dedupeIdentity input +:+ nul +:+ at_source input).

Definition hour_start (now : Z) : Z := now / (windowSeconds * msPerSecond) * (windowSeconds * msPerSecond).

(** [INSERT ... ON CONFLICT (credential_kind, bucket_slot) DO UPDATE] *)
Definition counted_attempt (now : Z) (outcome reason : string) (row : option AttemptRow) : AttemptRow :=
  let start := hour_start now in
  let s := if String.eqb outcome "succeeded" then 1 else 0 in
  let d := if String.eqb outcome "denied" then 1 else 0 in
  match row with
  | None => mkAttemptRow start 1 s d reason now
  | Some r =>
      let fresh := aw_window_started_at r <? start in
      mkAttemptRow (Z.max (aw_window_started_at r) start)
        (if fresh then 1 else Z.min (aw_attempt_count r + 1) 2000000002)
        (if fresh then s else Z.min (aw_succeeded_count r + s) 1000000001)
        (if fresh then d else Z.min (aw_denied_count r + d) 1000000001)
        reason now
  end.

Definition attempt_event (sha256 : string → string) (operationId : string) (slot start : Z)
    (input : AuthenticationAuditRecord) : AuditEvent :=
  let a := at_actor input in
  mkAuditEvent
    (at_action input +:+ ":" +:+ at_credentialKind input +:+ ":" +:+ pretty slot +:+ ":" +:+
     pretty (start / msPerSecond) +:+ ":" +:+ at_outcome input)
    operationId (aa_organizationId a) (aa_projectId a) (aa_actorType a) (bounded (aa_actorId a) 256)
    (at_action input +:+ "." +:+ at_credentialKind input) (at_outcome input)
    (Some (safeToken (toLowerCase (at_reasonCode input)) "authentication_failed"))
    (Some "credential") (bounded (aa_actorId a) 256) (bounded (aa_requestId a) 128)
    (auditUserAgentFingerprint sha256 (aa_userAgent a))
    (JObj [("source", from_option JStr JNull (bounded (Some (at_source input)) 128));
           ("route", from_option JStr JNull (bounded (Some (at_route input)) 128));
           ("method", from_option JStr JNull (bounded (Some (upper_token (at_method input))) 16));
           ("coalesced_window_seconds", JNum (NInt windowSeconds))]).

(** The statement of [authentication]. *)
Definition count_attempt (sha256 : string → string) (digest16 : string → Z) (now : Z) (operationId : string)
    (input : AuthenticationAuditRecord) : Tx AuditDb AuditDbError unit := λ db,
  let slot := attempt_slot digest16 input in
  let key := (at_credentialKind input, slot) in
  let reason := safeToken (toLowerCase (at_reasonCode input)) "authentication_failed" in
  let row := counted_attempt now (at_outcome input) reason (attempt_windows db !! key) in
  let event := attempt_event sha256 operationId slot (aw_window_started_at row) input in
  Ok (tt, db <| attempt_windows ::= <[key := row]> |> <| audit_events ::= insert_new ev_event_key event |>).

(** ** The service *)

(** The database whose part the audit tables are. *)
Class AuditTables (T : Type) := {
  audit_tables : T → AuditDb;
  set_audit_tables : AuditDb → T → T;
  audit_tables_set d t : audit_tables (set_audit_tables d t) = d
}.

#[export] Instance audit_alone : AuditTables AuditDb.
Proof. refine {| audit_tables t := t; set_audit_tables d _ := d |}. done. Defined.

(** A statement on them. *)
Definition on_audit `{AuditTables T} {E A} (f : Tx AuditDb E A) : Tx T E A := λ t,
  match f (audit_tables t) with Ok (a, d) => Ok (a, set_audit_tables d t) | Err e => Err e end.

Section service.
Context {T C E : Type} `{AuditTables T} `{Thrown AuditDbError E}.
Context (schedule : nat → Turn T) (sha256 : string → string) (digest16 : string → Z).

Abbreviation AuditAct := (Act (World T C) E).

Definition record (input : AuditRecord) : AuditAct (string * string) :=
  t ← draw schedule;
  let eventKey := "audit:" +:+ t_random t 0 in
  let operationId := default (t_random t 1) (ad_operationId input) in
  _ ← await schedule (λ _, on_audit (insert_event (event_of sha256 eventKey operationId input)));
  mret (eventKey, operationId).

Definition authentication (input : AuthenticationAuditRecord) : AuditAct unit :=
  await schedule (λ t, on_audit (count_attempt sha256 digest16 (t_clock t) (t_random t 0) input)).

(** [thrown_value] is what the audit sees of an error, [unavailable] wraps the
    error of an event in an AuditCompletionUnavailable. *)
Record AuditOperation (X : Type) := mkOperation {
  op_actor : AuditActor;
  op_operationId : option string;
  op_action : string;
  op_resourceType : option string;
  op_resourceId : option string;
  op_metadata : option json;
  op_complete : option (X → AuditCompletion);
  op_failureReason : option (E → string);
  op_failureHandled : option (E → bool)
}.

Definition capture {X} (thrown_value : E → ThrownValue) (unavailable : E → E) (input : AuditOperation X)
    (operation : AuditAct X) : AuditAct X :=
  t ← draw schedule;
  let operationId := default (t_random t 0) (op_operationId X input) in
  let base (actor : AuditActor) (outcome : string) (reason resourceId : option string) (metadata : option json) :=
    mkAuditRecord actor (Some operationId) (op_action X input) outcome reason (op_resourceType X input)
      resourceId metadata in
  _ ← record (base (op_actor X input) "requested" None (op_resourceId X input) (op_metadata X input));
  outcome ← attempt operation;
  match (outcome : result E X) with
  | Err e =>
      if match op_failureHandled X input with Some handled => handled e | None => false end then athrow e
      else
        let reason := match op_failureReason X input with
                      | Some f => f e | None => auditFailureReason (thrown_value e) end in
        recorded ← attempt (record (base (op_actor X input) "failed" (Some reason) (op_resourceId X input) None));
        match (recorded : result E (string * string)) with
        | Err auditError => athrow (unavailable auditError)
        | Ok _ => athrow e
        end
  | Ok x =>
      let completion : option AuditCompletion := (λ f : X → AuditCompletion, f x) <$> op_complete X input in
      if match completion with Some c => co_deferTerminal c | None => false end then mret x
      else
        let actor := (op_actor X input) <| aa_projectId ::= coalesce (completion ≫= co_projectId) |> in
        recorded ← attempt (record (base actor
          (default "succeeded" (completion ≫= co_outcome)) (completion ≫= co_reasonCode)
          (coalesce (completion ≫= co_resourceId) (op_resourceId X input)) (completion ≫= co_metadata)));
        match (recorded : result E (string * string)) with
        | Err auditError => athrow (unavailable auditError)
        | Ok _ => mret x
        end
  end.
End service.
Arguments mkOperation {E X}.

(** ** What holds of the log *)

Definition log_grows (db db' : AuditDb) : Prop := ∃ l, audit_events db' = audit_events db ++ l.

#[export] Instance log_grows_preorder : PreOrder log_grows.
Proof.
  split.
  - intros db. exists []. by rewrite app_nil_r.
  - intros a b c [l E] [l' E']. exists (l ++ l'). by rewrite E', E, app_assoc.
Qed.

Lemma log_grows_elem db db' e : log_grows db db' → e ∈ audit_events db → e ∈ audit_events db'.
Proof. intros [l ->] He. apply elem_of_app. by left. Qed.

Section capturing.
Context {T C E : Type} `{AuditTables T} `{Thrown AuditDbError E}.
Context (schedule : nat → Turn T) (sha256 : string → string).
(** Everyone only appends to the log: the trigger [audit_events_append_only]. *)
Context (append_only : ∀ k db, log_grows (audit_tables db) (audit_tables (others (schedule k) db))).
Implicit Types w : World T C.

(** The log as a world has it. *)
Definition audit_w (w : World T C) : AuditDb := audit_tables (w_db w).

Lemma insert_event_Ok e db u db' : insert_event e db = Ok (u, db') → log_grows db db' ∧ e ∈ audit_events db'.
Proof.
  unfold insert_event. destruct (has_key _ _ _); [done|]. intros Hx. injection Hx as _ <-. simpl. split.
  - by exists [e].
  - apply elem_of_app. right. by left.
Qed.

Lemma on_audit_event_Ok e (db : T) u db' :
  on_audit (insert_event e) db = Ok (u, db') →
  log_grows (audit_tables db) (audit_tables db') ∧ e ∈ audit_events (audit_tables db').
Proof.
  unfold on_audit. destruct (insert_event e (audit_tables db)) as [[x d]|] eqn:Ei; [|done]. intros [= _ <-].
  rewrite audit_tables_set. by eapply insert_event_Ok.
Qed.

Lemma record_spec input w :
  let '(r, w') := record schedule sha256 input w in
  log_grows (audit_w w) (audit_w w') ∧
  ∀ k oid, r = Ok (k, oid) → ∃ e, e ∈ audit_events (audit_w w') ∧
    e = event_of sha256 k oid input ∧ (∀ i, ad_operationId input = Some i → oid = i).
Proof.
  unfold record. rewrite act_bind_eq. unfold draw at 1. set (t := schedule (w_tick w)).
  set (oid := default _ _). set (e := event_of _ _ _ _). rewrite act_bind_eq.
  set (w1 := mkWorld _ _ _).
  destruct (await_tables (F := E) (C := C) schedule (λ _, on_audit (insert_event e)) w1) as (_ & _ & Hdb).
  destruct (await schedule (λ _, on_audit (insert_event e)) w1) as [r w'] eqn:Ea. cbn [snd] in Hdb.
  assert (log_grows (audit_w w) (audit_w w')) as Hg.
  { etrans; [apply (append_only (w_tick w1))|]. unfold audit_w. destruct Hdb as [->|[u Hu]]; [done|].
    by apply on_audit_event_Ok in Hu as [? _]. }
  destruct r as [u|e']; [|split; [done|by intros]]. split; [done|]. intros k o [= <- <-]. exists e. split_and!.
  - apply await_Ok in Ea as [Hu _]. by apply on_audit_event_Ok in Hu as [_ He].
  - done.
  - intros i Hi. unfold oid. by rewrite Hi.
Qed.

(** The terminal event of an operation. *)
Definition concluded (operationId outcome : string) (db : AuditDb) : Prop :=
  ∃ e, e ∈ audit_events db ∧ ev_operation_id e = operationId ∧ ev_outcome e = outcome.

Lemma record_concludes input w k o w' oid :
  ad_operationId input = Some oid → record schedule sha256 input w = (Ok (k, o), w') →
  concluded oid (ad_outcome input) (audit_w w').
Proof.
  intros Ho Hr. pose proof (record_spec input w) as Hs. rewrite Hr in Hs. destruct Hs as [_ Hs].
  destruct (Hs k o eq_refl) as (e & He & -> & Hi). rewrite (Hi oid Ho) in He. eexists. split; [exact He|done].
Qed.

(** C38: No audited operation runs unseen.  Whatever the operation does and
    wherever an answer is lost, [capture] either refuses without running it, the
    same for every operation, or the operation ran after its requested event was
    committed, and when its own result is answered a terminal event with the same
    operation id and the outcome is in the log, unless the operation defers it or
    handled its failure itself; otherwise the caller is told that the audit is
    unavailable. *)
Theorem operations_are_audited {X} thrown_value unavailable (input : AuditOperation (E := E) X)
    (operation : Act (World T C) E X) w r w' :
  (∀ w, log_grows (audit_w w) (audit_w (operation w).2)) →
  capture schedule sha256 thrown_value unavailable input operation w = (r, w') →
  let oid := default (t_random (schedule (w_tick w)) 0) (op_operationId X input) in
  (∀ operation', capture schedule sha256 thrown_value unavailable input operation' w = (r, w')) ∨
  ∃ w1 r1 w2, operation w1 = (r1, w2) ∧
    concluded oid "requested" (audit_w w1) ∧ concluded oid "requested" (audit_w w') ∧
    match r with
    | Ok x => r1 = Ok x ∧
        let completion : option AuditCompletion := (λ f : X → AuditCompletion, f x) <$> op_complete X input in
        ((∃ c, completion = Some c ∧ co_deferTerminal c = true) ∨
         concluded oid (default "succeeded" (completion ≫= co_outcome)) (audit_w w'))
    | Err e =>
        (r1 = Err e ∧
         ((∃ handled, op_failureHandled X input = Some handled ∧ handled e = true) ∨ concluded oid "failed" (audit_w w'))) ∨
        ∃ a, e = unavailable a
    end.
Proof.
  intros Hop. unfold capture at 1. rewrite act_bind_eq. unfold draw at 1. set (oid := default _ _). cbn zeta.
  set (w0 := mkWorld (w_db w) (S (w_tick w)) (w_calls w)). set (requested := mkAuditRecord _ _ _ _ _ _ _ _).
  rewrite act_bind_eq. destruct (record schedule sha256 requested w0) as [[[k o]|e] w1] eqn:E1; [|].
  2:{ intros [= <- <-]. left. intros operation'. unfold capture. rewrite act_bind_eq. unfold draw at 1. cbn zeta.
      rewrite act_bind_eq. unfold w0, requested, oid in E1. by rewrite E1. }
  assert (concluded oid "requested" (audit_w w1)) as Hreq by (by apply (record_concludes requested w0 k o w1)).
  rewrite act_bind_eq. unfold attempt at 1. destruct (operation w1) as [r1 w2] eqn:E2. intros Hr. right.
  exists w1, r1, w2. split; [done|]. split; [done|].
  assert (log_grows (audit_w w1) (audit_w w2)) as H12 by (pose proof (Hop w1) as Hg; by rewrite E2 in Hg).
  assert (∀ w3, log_grows (audit_w w2) (audit_w w3) → concluded oid "requested" (audit_w w3)) as Hkeep.
  { intros w3 H23. destruct Hreq as (e & He & Hx). exists e. split; [|done].
    apply (log_grows_elem _ _ _ H23), (log_grows_elem _ _ _ H12), He. }
  destruct r1 as [x|e].
  - cbn zeta in Hr |- *. set (completion := (λ f : X → AuditCompletion, f x) <$> op_complete X input) in *.
    destruct (match completion with Some c => co_deferTerminal c | None => false end) eqn:Ed.
    + injection Hr as <- <-. split; [by apply Hkeep|]. split; [done|]. left.
      destruct completion as [c|] eqn:Ec; [exists c; split; [exact Ec|exact Ed]|done].
    + rewrite act_bind_eq in Hr. unfold attempt in Hr. set (terminal := mkAuditRecord _ _ _ _ _ _ _ _) in Hr.
      pose proof (record_spec terminal w2) as Hs.
      destruct (record schedule sha256 terminal w2) as [[[k' o']|e] w3] eqn:E3; injection Hr as <- <-;
        (split; [apply Hkeep, Hs|]).
      * split; [done|]. right. by apply (record_concludes terminal w2 k' o' w3).
      * right. by eexists.
  - destruct (match op_failureHandled X input with Some handled => handled e | None => false end) eqn:Ed.
    + injection Hr as <- <-. split; [by apply Hkeep|]. left. split; [done|]. left.
      destruct (op_failureHandled X input) as [f|]; [by exists f|done].
    + cbn zeta in Hr. rewrite act_bind_eq in Hr. unfold attempt in Hr.
      set (terminal := mkAuditRecord _ _ _ _ _ _ _ _) in Hr. pose proof (record_spec terminal w2) as Hs.
      destruct (record schedule sha256 terminal w2) as [[[k' o']|e'] w3] eqn:E3; injection Hr as <- <-;
        (split; [apply Hkeep, Hs|]).
      * left. split; [done|]. right. by apply (record_concludes terminal w2 k' o' w3).
      * right. by eexists.
Qed.
End capturing.

(** ** Attempts are counted *)

Section counting.
Context (sha256 : string → string) (digest16 : string → Z).

(** An attempt with the instant of its statement and the id of its event. *)
Record Attempted := mkAttempted { an_now : Z; an_id : string; an_input : AuthenticationAuditRecord }.

Definition counted (a : Attempted) (db : AuditDb) : AuditDb :=
  (transaction (count_attempt sha256 digest16 (an_now a) (an_id a) (an_input a)) db).2.

Definition count_all (l : list Attempted) (db : AuditDb) : AuditDb := foldl (λ db a, counted a db) db l.

Definition an_key (a : Attempted) : string * Z := (at_credentialKind (an_input a), attempt_slot digest16 (an_input a)).

(** How many attempts fall in a row's window, of those with an outcome. *)
Definition tally (p : string → bool) (key : string * Z) (start : Z) (l : list Attempted) : Z :=
  Z.of_nat (length (List.filter
    (λ a, bool_decide (an_key a = key) && (hour_start (an_now a) =? start) && p (at_outcome (an_input a))) l)).

Fixpoint attempts_from (t : Z) (l : list Attempted) : Prop :=
  match l with
  | [] => True
  | a :: l => t <= an_now a ∧ at_outcome (an_input a) ∈ ["succeeded"; "denied"] ∧ attempts_from (an_now a) l
  end.

Lemma tally_app p key start l l' : tally p key start (l ++ l') = tally p key start l + tally p key start l'.
Proof. unfold tally. rewrite List.filter_app, length_app. lia. Qed.

Lemma tally_one p key start a :
  tally p key start [a] =
    if bool_decide (an_key a = key) && (hour_start (an_now a) =? start) && p (at_outcome (an_input a)) then 1 else 0.
Proof. unfold tally. simpl. by destruct (_ && _). Qed.

Lemma tally_bounds p key start l : 0 <= tally p key start l <= Z.of_nat (length l).
Proof. unfold tally. pose proof (filter_length_le (λ a, bool_decide (an_key a = key) &&
  (hour_start (an_now a) =? start) && p (at_outcome (an_input a))) l). lia. Qed.

Lemma tally_none p key start l :
  (∀ a, a ∈ l → an_key a = key → hour_start (an_now a) ≠ start) → tally p key start l = 0.
Proof.
  intros Hn. unfold tally. destruct (List.filter _ l) as [|a r] eqn:E; [done|exfalso].
  assert (a ∈ List.filter (λ a, bool_decide (an_key a = key) && (hour_start (an_now a) =? start) &&
    p (at_outcome (an_input a))) l) as Ha by (rewrite E; left).
  apply list_elem_of_In, filter_In in Ha as [Ha Hp]. bool_simp. apply (Hn a); [by apply list_elem_of_In|done|lia].
Qed.

Definition is_outcome (o : string) (x : string) : bool := String.eqb x o.

(** A row counts the attempts of its window. *)
Record row_counts (key : string * Z) (past : list Attempted) (r : AttemptRow) : Prop := {
  rc_attempts : aw_attempt_count r = tally (λ _, true) key (aw_window_started_at r) past;
  rc_succeeded : aw_succeeded_count r = tally (is_outcome "succeeded") key (aw_window_started_at r) past;
  rc_denied : aw_denied_count r = tally (is_outcome "denied") key (aw_window_started_at r) past;
  rc_latest a : a ∈ past → an_key a = key → hour_start (an_now a) <= aw_window_started_at r
}.

Record log_counts (t : Z) (past : list Attempted) (db : AuditDb) : Prop := {
  lc_rows key r : attempt_windows db !! key = Some r → row_counts key past r ∧ aw_window_started_at r <= hour_start t;
  lc_none key : attempt_windows db !! key = None → ∀ a, a ∈ past → an_key a ≠ key;
  lc_events a : a ∈ past → has_key ev_event_key
    (ev_event_key (attempt_event sha256 (an_id a) (attempt_slot digest16 (an_input a)) (hour_start (an_now a)) (an_input a)))
    (audit_events db) = true
}.

Lemma hour_start_mono t t' : t <= t' → hour_start t <= hour_start t'.
Proof. intros Ht. unfold hour_start. apply Z.mul_le_mono_nonneg_r; [done|]. apply Z.div_le_mono; [done|lia]. Qed.

Lemma counted_row t past db a :
  log_counts t past db → t <= an_now a → at_outcome (an_input a) ∈ ["succeeded"; "denied"] →
  Z.of_nat (length past) < 1000000000 →
  ∀ reason,
  row_counts (an_key a) (past ++ [a])
    (counted_attempt (an_now a) (at_outcome (an_input a)) reason (attempt_windows db !! an_key a)) ∧
  aw_window_started_at
    (counted_attempt (an_now a) (at_outcome (an_input a)) reason (attempt_windows db !! an_key a)) = hour_start (an_now a).
Proof.
  intros [Hrows Hnone _] Ht Ho Hlen reason. set (h := hour_start (an_now a)).
  assert (∀ p, tally p (an_key a) h [a] = if p (at_outcome (an_input a)) then 1 else 0) as Hone.
  { intros p. rewrite tally_one, bool_decide_eq_true_2, Z.eqb_refl by done. done. }
  pose proof (λ p, tally_bounds p (an_key a) h past) as Hb.
  assert (∀ o, (if String.eqb (at_outcome (an_input a)) o then 1 else 0) <= 1) as H1 by (intros o; by destruct (String.eqb _ _)).
  destruct (attempt_windows db !! an_key a) as [r|] eqn:Er; simpl.
  - destruct (Hrows _ _ Er) as [[Ha Hs Hd Hl] Hw]. pose proof (hour_start_mono t (an_now a) Ht) as Hm. fold h in Hm |- *.
    destruct (Z.ltb_spec (aw_window_started_at r) h) as [Hlt|Hge].
    + assert (Z.max (aw_window_started_at r) h = h) as E by lia.
      assert (∀ p, tally p (an_key a) h past = 0) as H0.
      { intros p. apply tally_none. intros a' Ha' Hk. pose proof (Hl a' Ha' Hk). lia. }
      split; [|simpl; lia]. split; simpl; rewrite ?E, ?tally_app, ?Hone, ?H0; try done.
      intros a' [Ha'|Ha'%list_elem_of_singleton]%elem_of_app Hk; [pose proof (Hl a' Ha' Hk); lia|by subst].
    + assert (aw_window_started_at r = h) as E by lia. rewrite E in *. rewrite Z.max_id.
      split; [|done]. pose proof (H1 "succeeded") as HS. pose proof (H1 "denied") as HD.
      pose proof (Hb (λ _, true)). pose proof (Hb (is_outcome "succeeded")). pose proof (Hb (is_outcome "denied")).
      split; simpl; rewrite ?tally_app, ?Hone; unfold is_outcome in *.
      * rewrite Ha. lia.
      * rewrite Hs. lia.
      * rewrite Hd. lia.
      * intros a' [Ha'|Ha'%list_elem_of_singleton]%elem_of_app Hk; [by apply Hl|by subst].
  - assert (∀ p, tally p (an_key a) h past = 0) as H0.
    { intros p. apply tally_none. intros a' Ha' Hk. by destruct (Hnone _ Er a' Ha'). }
    fold h. split; [|done]. split; simpl; rewrite ?tally_app, ?Hone, ?H0; try done.
    intros a' [Ha'|Ha'%list_elem_of_singleton]%elem_of_app Hk; [by destruct (Hnone _ Er a' Ha')|by subst].
Qed.

Lemma row_counts_other key past a r : an_key a ≠ key → row_counts key past r → row_counts key (past ++ [a]) r.
Proof.
  intros Hn [Ha Hs Hd Hl].
  assert (∀ p, tally p key (aw_window_started_at r) (past ++ [a]) = tally p key (aw_window_started_at r) past) as E.
  { intros p. rewrite tally_app, tally_one, bool_decide_eq_false_2 by done. simpl. lia. }
  split; rewrite ?E; try done.
  intros a' [Ha'|Ha'%list_elem_of_singleton]%elem_of_app Hk; [by apply Hl|by subst].
Qed.

Lemma counted_log t past db a :
  log_counts t past db → t <= an_now a → at_outcome (an_input a) ∈ ["succeeded"; "denied"] →
  Z.of_nat (length past) < 1000000000 → log_counts (an_now a) (past ++ [a]) (counted a db).
Proof.
  intros Hc Ht Ho Hlen. destruct (counted_row t past db a Hc Ht Ho Hlen
    (safeToken (toLowerCase (at_reasonCode (an_input a))) "authentication_failed")) as [Hrow Hstart].
  destruct Hc as [Hrows Hnone Hev]. unfold counted, transaction, count_attempt. cbn [snd]. fold (an_key a).
  set (row := counted_attempt _ _ _ _) in *. split; simpl.
  - intros key r Hr. apply lookup_insert_Some in Hr as [[<- <-]|[Hn Hr]]; [split; [done|lia]|].
    destruct (Hrows _ _ Hr) as [Hc Hw]. split; [by apply row_counts_other|].
    pose proof (hour_start_mono t (an_now a) Ht). lia.
  - intros key Hr. apply lookup_insert_None in Hr as [Hr Hn].
    intros a' [Ha'|Ha'%list_elem_of_singleton]%elem_of_app; [by apply Hnone|by subst].
  - rewrite Hstart. intros a' [Ha'|Ha'%list_elem_of_singleton]%elem_of_app.
    + specialize (Hev a' Ha'). apply has_key_true in Hev as (e & He & Hk). apply has_key_true.
      exists e. split; [by apply insert_new_incl|done].
    + subst a'. exact (insert_new_has ev_event_key (attempt_event sha256 (an_id a) (attempt_slot digest16 (an_input a))
        (hour_start (an_now a)) (an_input a)) (audit_events db)).
Qed.

Lemma count_all_log l : ∀ t past db,
  attempts_from t l → Z.of_nat (length past + length l) < 1000000000 → log_counts t past db →
  ∃ t', log_counts t' (past ++ l) (count_all l db).
Proof.
  induction l as [|a l IH]; intros t past db Hl Hlen H0; [rewrite app_nil_r; by exists t|].
  destruct Hl as (Ht & Ho & Hl). replace (past ++ a :: l) with ((past ++ [a]) ++ l) by by rewrite <- app_assoc.
  apply (IH (an_now a)); [done|rewrite length_app; simpl in *; lia|].
  apply (counted_log t); [done..|simpl in Hlen; lia].
Qed.

(** Authentication attempts are counted exactly.  However attempts of any
    kinds, sources and outcomes follow each other, fewer than a thousand million of
    them, the row of a slot counts the attempts of its current hour by outcome, so
    that its CHECK constraints hold and no attempt is refused by the counter, and
    the log has an event for the outcome of every attempt in its hour. *)
Theorem attempts_are_counted l t :
  attempts_from t l → Z.of_nat (length l) < 1000000000 →
  let db := count_all l (mkAuditDb [] ∅) in
  (∀ key r, attempt_windows db !! key = Some r →
     aw_attempt_count r = tally (λ _, true) key (aw_window_started_at r) l ∧
     aw_succeeded_count r = tally (is_outcome "succeeded") key (aw_window_started_at r) l ∧
     aw_denied_count r = tally (is_outcome "denied") key (aw_window_started_at r) l ∧
     aw_succeeded_count r + aw_denied_count r <= aw_attempt_count r <= 2000000002) ∧
  (∀ a, a ∈ l → is_Some (attempt_windows db !! an_key a) ∧
     ∃ e, e ∈ audit_events db ∧ ev_event_key e = ev_event_key (attempt_event sha256 (an_id a)
       (attempt_slot digest16 (an_input a)) (hour_start (an_now a)) (an_input a))).
Proof.
  intros Hl Hlen. assert (∃ t', log_counts t' l (count_all l (mkAuditDb [] ∅))) as (t' & [Hrows Hnone Hev]).
  { apply (count_all_log l t [] (mkAuditDb [] ∅)); [done..|].
    split; simpl; [by intros key r ?%lookup_empty_Some|by intros key _ a ?%elem_of_nil|by intros a ?%elem_of_nil]. }
  split.
  - intros key r Hr. destruct (Hrows _ _ Hr) as [[Ha Hs Hd _] _]. split_and!; [done..| |].
    + rewrite Ha, Hs, Hd. clear. induction l as [|a l IH]; [done|].
      change (a :: l) with ([a] ++ l). rewrite !tally_app, !tally_one. unfold is_outcome in *.
      destruct (_ && (_ =? _)); simpl; [|lia].
      destruct (String.eqb_spec (at_outcome (an_input a)) "succeeded") as [->|]; simpl; [lia|].
      destruct (String.eqb _ _); lia.
    + rewrite Ha. pose proof (tally_bounds (λ _, true) key (aw_window_started_at r) l). lia.
  - intros a Ha. split.
    + destruct (attempt_windows _ !! an_key a) eqn:E; [by eexists|]. by destruct (Hnone _ E a Ha).
    + specialize (Hev a Ha). by apply has_key_true in Hev.
Qed.
End counting.

(** ** At concrete inputs *)

Definition audit_demo_errors : Thrown AuditDbError string := {| thrown _ := "event_key"; connection_lost := "lost" |}.

Definition audit_demo_turn (k : nat) : Turn AuditDb :=
  mkTurn id 1000 1000 (λ i, pretty (Z.of_nat k) +:+ "." +:+ pretty (Z.of_nat i)) ∅ Delivered.
Definition audit_demo_actor : AuditActor := mkActor (Some "org") None "user" (Some "user_1") None None.
Definition audit_demo_operation : AuditOperation (E := string) Z :=
  mkOperation audit_demo_actor (Some "op") "machine.create" None None None None None None.
Definition audit_demo_world : World AuditDb Empty_set := mkWorld (mkAuditDb [] ∅) O [].
Definition audit_demo_run : result string Z * World AuditDb Empty_set :=
  @capture AuditDb Empty_set string audit_alone audit_demo_errors audit_demo_turn id Z (λ _, mkThrown None None) id audit_demo_operation
    (mret 7) audit_demo_world.

Lemma operations_are_audited_witness :
  audit_demo_run.1 = Ok 7 ∧ concluded "op" "requested" (w_db audit_demo_run.2) ∧
  concluded "op" "succeeded" (w_db audit_demo_run.2).
Proof.
  assert (audit_demo_run.1 = Ok 7) as Hr by (vm_compute; reflexivity).
  assert (∀ k db, log_grows db (others (audit_demo_turn k) db)) as Ho.
  { intros k db. exists []. symmetry. apply app_nil_r. }
  assert (∀ w : World AuditDb Empty_set, log_grows (w_db w) (w_db ((mret 7 : Act (World AuditDb Empty_set) string Z) w).2)) as Hop.
  { intros w. exists []. symmetry. apply app_nil_r. }
  destruct (@operations_are_audited AuditDb Empty_set string audit_alone audit_demo_errors audit_demo_turn id Ho Z (λ _, mkThrown None None) id
    audit_demo_operation (mret 7) audit_demo_world audit_demo_run.1 audit_demo_run.2 Hop (surjective_pairing _))
    as [Hall|(w1 & r1 & w2 & _ & _ & Hreq & Hx)].
  - exfalso. specialize (Hall (athrow "no")). apply (f_equal fst) in Hall. rewrite Hr in Hall.
    assert (is_ok (@capture AuditDb Empty_set string audit_alone audit_demo_errors audit_demo_turn id Z (λ _, mkThrown None None) id
      audit_demo_operation (athrow "no") audit_demo_world).1 = false) as E by (vm_compute; reflexivity).
    rewrite Hall in E. discriminate E.
  - rewrite Hr in Hx. destruct Hx as (_ & [(c & Hc & _)|Hc]); [discriminate Hc|].
    split; [exact Hr|]. split; [exact Hreq|exact Hc].
Defined.

Definition audit_demo_attempt (now : Z) (outcome : string) : Attempted :=
  mkAttempted now "id" (mkAttempt "authentication" "api_key" "bc_live" outcome "credential_verified" audit_demo_actor
    "ipv4:10.0.0.0/24" "/v1/machines" "GET").
Definition audit_demo_attempts : list Attempted :=
  [audit_demo_attempt 1000 "denied"; audit_demo_attempt 2000 "succeeded"; audit_demo_attempt 4000000 "denied"].
Definition audit_demo_word (s : string) : Z := str_length s.

Lemma attempts_are_counted_witness :
  ∃ r, attempt_windows (count_all id audit_demo_word audit_demo_attempts (mkAuditDb [] ∅)) !!
         an_key audit_demo_word (audit_demo_attempt 1000 "denied") = Some r ∧ aw_denied_count r = 1 ∧
    aw_attempt_count r = tally audit_demo_word (λ _, true) (an_key audit_demo_word (audit_demo_attempt 1000 "denied"))
      (aw_window_started_at r) audit_demo_attempts.
Proof.
  assert (attempts_from 0 audit_demo_attempts) as Hl.
  { simpl. split; [lia|]. split; [right; left|]. split; [lia|]. split; [left|]. split; [lia|]. split; [right; left|exact I]. }
  assert (Z.of_nat (length audit_demo_attempts) < 1000000000) as Hn by (vm_compute; reflexivity).
  destruct (attempts_are_counted id audit_demo_word audit_demo_attempts 0 Hl Hn) as [Hrows Hrun].
  destruct (Hrun (audit_demo_attempt 1000 "denied") ltac:(left)) as [[r Hr] _].
  destruct (Hrows _ _ Hr) as (Ha & _). exists r. split; [exact Hr|]. split; [|exact Ha].
  assert (aw_denied_count <$> attempt_windows (count_all id audit_demo_word audit_demo_attempts (mkAuditDb [] ∅)) !!
    an_key audit_demo_word (audit_demo_attempt 1000 "denied") = Some 1) as E by (vm_compute; reflexivity).
  rewrite Hr in E. injection E as E. exact E.
Defined.
