(* ===== verification/HttpAuth.v ===== *)
(** * Authenticating a request

    src/apps/nehemiah/src/http/auth.ts: which credential a request presents, the
    services that admit and verify it, the principal that comes out and the
    attempt that is recorded; with the session check of
    src/apps/nehemiah/src/auth/clerk.ts.  Every call to a service is a call of the
    frame of [Awaiting], so that what was asked, and in which order, is in
    [w_calls]; the state is the entry of [authenticatedRequests] for the request. *)

From S2P Require Import Prelude Text Js NetworkPolicy Identity ApiKeys Device Awaiting ApiAdmission AuditLog.

(** What the code reads of a request; headers by their values. *)
Record HttpRequest := mkHttpRequest {
  hq_authorization : option string;
  hq_client_address : option string;
  hq_organization_id : option string;
  hq_user_agent : option string;
  hq_request_id : string;
  hq_pathname : string;
  hq_method : string
}.

Record DashboardPrincipal := mkDashboard {
  du_clerkUserId : string;
  du_organizationId : option string
}.

Inductive RawIdentity :=
| KeyIdentity (p : ApiKeyPrincipal)
| UserIdentity (u : DashboardPrincipal).

Inductive Principal :=
| KeyPrincipal (p : ApiKeyPrincipal)
| UserPrincipal (clerkUserId organizationId role : string).

Inductive CredentialKind := ApiKeyCredential | DeviceAccess | Clerk | UnknownCredential.

Definition kind_text (k : CredentialKind) : string :=
  match k with
  | ApiKeyCredential => "api_key" | DeviceAccess => "device_access" | Clerk => "clerk" | UnknownCredential => "unknown"
  end.

Record RawAuthentication := mkRaw {
  ra_identity : option RawIdentity;
  ra_credentialKind : CredentialKind;
  ra_dedupeIdentity : string;
  ra_actorId : option string;
  ra_reasonCode : string
}.

(** What [recordAttempt] is told of the principal. *)
Inductive Seen := SeenKey (p : ApiKeyPrincipal) | SeenUser (clerkUserId : string) (organizationId : option string).

Record AuthenticatedRequest := mkAuthenticated {
  ah_principal : Seen;
  ah_attempt : RawAuthentication
}.

(** Errors of the services, as far as the code distinguishes them. *)
Inductive AuthError :=
| RateLimited (retryAfterSeconds : Z)
| VerifierBusy
| ServiceFailed (message : string).

(** The calls to the services. *)
Inductive AuthCall :=
| PreAuthenticate (source token : option string)
| AuthenticateAccess (token : string)
| AuthenticateKey (token : string)
| VerifySession (token : string)
| UserEnabled (clerkUserId : string)
| MembershipRole (clerkUserId organizationId : string)
| Admit (identity : AdmissionIdentity)
| RecordAttempt (a : AuthenticationAuditRecord).

(** The services of a deployment: which of the optional ones it has, and what they
    answer, which may depend on every call so far. *)
Class AuthServices := {
  has_admission : bool;
  has_device_authorizations : bool;
  has_session_verifier : bool;
  has_attempt_audit : bool;
  on_preAuthenticate : list AuthCall → result AuthError unit;
  on_authenticateAccess : list AuthCall → result AuthError (option ApiKeyPrincipal);
  on_authenticateKey : list AuthCall → result AuthError (option ApiKeyPrincipal);
  (** the subject and the organization of a session *)
  on_verifySession : list AuthCall → result AuthError (option string * option string);
  on_userEnabled : list AuthCall → result AuthError bool;
  on_membershipRole : list AuthCall → result AuthError (option string);
  on_admit : list AuthCall → result AuthError unit;
  on_record : list AuthCall → result AuthError unit
}.

Abbreviation AuthAct := (Act (World (option AuthenticatedRequest) AuthCall) AuthError).

Definition ask {A} (c : AuthCall) (answer : list AuthCall → result AuthError A) : AuthAct A := call_with id c answer.

Definition starts_with (prefix s : string) : bool := String.eqb (substring 0 (String.length prefix) s) prefix.
Definition drop (n : nat) (s : string) : string := substring n (String.length s - n) s.

(** A string in a condition: [''] counts as absent. *)
Definition truthy_text (s : option string) : option string :=
  match s with Some t => if String.eqb t "" then None else Some t | None => None end.

Section auth.
Context `{NodeNet} `{AuthServices} (sha256 : string → string).

(** An empty token counts as none. *)
Definition bearer (request : HttpRequest) : option string :=
  value ← hq_authorization request;
  if starts_with "Bearer " value
  then let token := js_trim (drop 7 value) in if String.eqb token "" then None else Some token
  else None.

Definition tokenFingerprint (token : string) : string := sha256 ("nehemiah-auth-attempt-v1" +:+ nul +:+ token).

Definition classifyPresentedCredential (token : string) : RawAuthentication :=
  if starts_with "bc_access_" token
  then mkRaw None DeviceAccess (tokenFingerprint token) None "credential_unverified"
  else if starts_with "bc_" token
  then let prefix := apiKeyPublicPrefix token in
       mkRaw None ApiKeyCredential (default (tokenFingerprint token) prefix) prefix "credential_unverified"
  else mkRaw None Clerk (tokenFingerprint token) None "credential_unverified".

Definition resourcePattern : re := Cat (Chr lower) (rep 0 31 (Chr (λ c, lower_alnum c || one_of "-" c))).

(** [pathname.split('/').filter(Boolean)[1]] *)
Definition routeClass (request : HttpRequest) : string :=
  match List.filter (λ s, negb (String.eqb s "")) (js_split "/" (hq_pathname request)) with
  | _ :: resource :: _ => if test resourcePattern resource then "/v1/" +:+ resource else "/unknown"
  | _ => "/unknown"
  end.

Definition seen_actor (principal : option Seen) (attempt : RawAuthentication) : string * option string :=
  match principal with
  | Some (SeenUser user _) => ("user", Some user)
  | Some (SeenKey p) => ("api_key", coalesce (pr_device_family_id p) (Some (pr_api_key_id p)))
  | None => (match ra_actorId attempt with
             | Some a => if String.eqb a "" then "system" else "api_key" | None => "system" end,
             ra_actorId attempt)
  end.

Definition attempt_record (request : HttpRequest) (attempt : RawAuthentication) (action outcome reason : string)
    (principal : option Seen) (route : option string) : AuthenticationAuditRecord :=
  let '(actorType, actorId) := seen_actor principal attempt in
  mkAttempt action (kind_text (ra_credentialKind attempt))
    (ra_dedupeIdentity attempt +:+ nul +:+ action +:+ nul +:+ reason) outcome reason
    (mkActor (match principal with
              | Some (SeenKey p) => Some (pr_organization_id p) | Some (SeenUser _ o) => o | None => None end)
       (match principal with Some (SeenKey p) => pr_project_id p | _ => None end)
       actorType actorId (Some (hq_request_id request)) (hq_user_agent request))
    (coarseClientIdentity (hq_client_address request)) (default (routeClass request) route) (hq_method request).

Definition recordAttempt (request : HttpRequest) (attempt : RawAuthentication) (action outcome reason : string)
    (principal : option Seen) (route : option string) : AuthAct unit :=
  if has_attempt_audit
  then ask (RecordAttempt (attempt_record request attempt action outcome reason principal route)) on_record
  else mret tt.

(** [authenticateClerkSession] *)
Definition authenticateClerkSession (token : string) : AuthAct (option DashboardPrincipal) :=
  session ← attempt (ask (VerifySession token) on_verifySession);
  match (session : result AuthError (option string * option string)) with
  | Ok (Some sub, org) => mret (if String.eqb sub "" then None else Some (mkDashboard sub org))
  | Ok (None, _) | Err _ => mret None
  end.

Definition outcome_reason (identity : bool) : string :=
  if identity then "credential_verified" else "credential_invalid_or_inactive".

Definition admission_checked (request : HttpRequest) (presented : RawAuthentication) (token : option string)
    : AuthAct unit :=
  if negb has_admission then mret tt
  else
    admitted ← attempt (ask (PreAuthenticate (hq_client_address request) token) on_preAuthenticate);
    match (admitted : result AuthError unit) with
    | Ok _ => mret tt
    | Err (RateLimited s) =>
        _ ← recordAttempt request presented "authentication" "denied" "preauth_rate_limited" None None;
        athrow (RateLimited s)
    | Err e => athrow e
    end.

Definition authenticate_device (presented : RawAuthentication) (token : string) : AuthAct RawAuthentication :=
  identity ← (if has_device_authorizations then ask (AuthenticateAccess token) on_authenticateAccess else mret None);
  let family := identity ≫= pr_device_family_id in
  mret (mkRaw (KeyIdentity <$> identity) DeviceAccess (default (ra_dedupeIdentity presented) family) family
          (outcome_reason (bool_decide (is_Some identity)))).

Definition authenticate_key (request : HttpRequest) (presented : RawAuthentication) (token : string)
    : AuthAct RawAuthentication :=
  verified ← attempt (ask (AuthenticateKey token) on_authenticateKey);
  match (verified : result AuthError (option ApiKeyPrincipal)) with
  | Ok identity =>
      let id := coalesce (pr_api_key_id <$> identity) (apiKeyPublicPrefix token) in
      mret (mkRaw (KeyIdentity <$> identity) ApiKeyCredential (default (tokenFingerprint token) id) id
              (outcome_reason (bool_decide (is_Some identity))))
  | Err VerifierBusy =>
      _ ← recordAttempt request presented "authentication" "denied" "verifier_capacity_limited" None None;
      athrow (RateLimited 1)
  | Err e => athrow e
  end.

Definition authenticate_session (token : string) : AuthAct RawAuthentication :=
  identity ← (if has_session_verifier then authenticateClerkSession token else mret None);
  let user := du_clerkUserId <$> identity in
  mret (mkRaw (UserIdentity <$> identity) Clerk (default (tokenFingerprint token) user) user
          (outcome_reason (bool_decide (is_Some identity)))).

Definition authenticateRawIdentity (request : HttpRequest) : AuthAct RawAuthentication :=
  let token := bearer request in
  let presented := match token with
                   | Some t => classifyPresentedCredential t
                   | None => mkRaw None UnknownCredential "missing" None "credential_missing" end in
  _ ← admission_checked request presented token;
  match token with
  | None => mret presented
  | Some token =>
      if starts_with "bc_access_" token then authenticate_device presented token
      else if starts_with "bc_" token then authenticate_key request presented token
      else authenticate_session token
  end.

Definition admission_identity (identity : RawIdentity) (organizationId : option string) : AdmissionIdentity :=
  match identity with
  | KeyIdentity p => mkAdmissionIdentity ("api_key:" +:+ pr_api_key_id p) organizationId (pr_project_id p)
  | UserIdentity u => mkAdmissionIdentity ("user:" +:+ du_clerkUserId u) organizationId None
  end.

Definition admitIdentity (identity : RawIdentity) (organizationId : option string) : AuthAct unit :=
  if has_admission then ask (Admit (admission_identity identity organizationId)) on_admit else mret tt.

(** [organizationId ? { ...identity, organizationId } : identity] *)
Definition seen (identity : RawIdentity) (organizationId : option string) : Seen :=
  match identity with
  | KeyIdentity p =>
      SeenKey (mkPrincipal (pr_api_key_id p) (pr_device_family_id p)
                 (match organizationId with
                  | Some o => if String.eqb o "" then pr_organization_id p else o
                  | None => pr_organization_id p end)
                 (pr_project_id p) (pr_scopes p))
  | UserIdentity u =>
      SeenUser (du_clerkUserId u)
        (match organizationId with
         | Some o => if String.eqb o "" then du_organizationId u else Some o
         | None => du_organizationId u end)
  end.

Definition identity_organization (identity : RawIdentity) : option string :=
  match identity with KeyIdentity p => Some (pr_organization_id p) | UserIdentity u => du_organizationId u end.

Definition admitIdentityWithAudit (request : HttpRequest) (attempt' : RawAuthentication) (identity : RawIdentity)
    (organizationId : option string) : AuthAct unit :=
  admitted ← attempt (admitIdentity identity organizationId);
  match (admitted : result AuthError unit) with
  | Ok _ => mret tt
  | Err (RateLimited s) =>
      _ ← recordAttempt request attempt' "authentication" "denied" "postauth_rate_limited"
            (Some (seen identity organizationId)) None;
      athrow (RateLimited s)
  | Err e => athrow e
  end.

(** [authenticatedRequests.set(request, ...)] *)
Definition remember (principal : Seen) (attempt' : RawAuthentication) : AuthAct unit := λ w,
  (Ok tt, mkWorld (Some (mkAuthenticated principal attempt')) (w_tick w) (w_calls w)).

Definition authenticateIdentity (request : HttpRequest) : AuthAct (option RawIdentity) :=
  attempt' ← authenticateRawIdentity request;
  let denied (action reason : string) (principal : option Seen) : AuthAct (option RawIdentity) :=
    _ ← recordAttempt request attempt' action "denied" reason principal None; mret None in
  match ra_identity attempt' with
  | None => denied "authentication" (ra_reasonCode attempt') None
  | Some identity =>
      enabled ← match identity with
                | UserIdentity u => ask (UserEnabled (du_clerkUserId u)) on_userEnabled
                | KeyIdentity _ => mret true end;
      match (enabled : bool) with
      | false => denied "authorization" "user_disabled" (Some (seen identity (identity_organization identity)))
      | true =>
          _ ← admitIdentityWithAudit request attempt' identity (identity_organization identity);
          let principal := seen identity (identity_organization identity) in
          _ ← recordAttempt request attempt' "authentication" "succeeded" "credential_verified" (Some principal) None;
          _ ← remember principal attempt';
          mret (Some identity)
      end
  end.

Definition authenticate (request : HttpRequest) : AuthAct (option Principal) :=
  attempt' ← authenticateRawIdentity request;
  let denied (action reason : string) (principal : option Seen) : AuthAct (option Principal) :=
    _ ← recordAttempt request attempt' action "denied" reason principal None; mret None in
  match ra_identity attempt' with
  | None => denied "authentication" (ra_reasonCode attempt') None
  | Some (KeyIdentity p) =>
      _ ← admitIdentityWithAudit request attempt' (KeyIdentity p) (Some (pr_organization_id p));
      _ ← recordAttempt request attempt' "authentication" "succeeded" "credential_verified" (Some (SeenKey p)) None;
      _ ← remember (SeenKey p) attempt';
      mret (Some (KeyPrincipal p))
  | Some (UserIdentity u) =>
      match coalesce (hq_organization_id request) (du_organizationId u) with
      | None => denied "authorization" "organization_required" (Some (SeenUser (du_clerkUserId u) (du_organizationId u)))
      | Some organization =>
          if String.eqb organization ""
          then denied "authorization" "organization_required" (Some (SeenUser (du_clerkUserId u) (du_organizationId u)))
          else
            role ← ask (MembershipRole (du_clerkUserId u) organization) on_membershipRole;
            match truthy_text role with
            | None =>
                denied "authorization" "membership_inactive" (Some (SeenUser (du_clerkUserId u) (Some organization)))
            | Some role =>
                _ ← admitIdentityWithAudit request attempt' (UserIdentity u) (Some organization);
                let principal := SeenUser (du_clerkUserId u) (Some organization) in
                _ ← recordAttempt request attempt' "authentication" "succeeded" "credential_verified"
                      (Some principal) None;
                _ ← remember principal attempt';
                mret (Some (UserPrincipal (du_clerkUserId u) organization role))
            end
      end
  end.

Definition auditHttpAuthorizationDenial (request : HttpRequest) (route : string) (status : Z) : AuthAct unit := λ w,
  if negb (status =? 403) && negb (status =? 404) then (Ok tt, w)
  else match w_db w with
       | None => (Ok tt, w)
       | Some authenticated =>
           recordAttempt request (ah_attempt authenticated) "authorization" "denied"
             (if status =? 403 then "scope_or_role_denied" else "resource_not_found_or_denied")
             (Some (ah_principal authenticated)) (Some route) w
       end.
End auth.

(** ** What a principal may do *)

Definition projectFor (principal : Principal) (requested : option string) : option string :=
  match principal with
  | KeyPrincipal p =>
      match pr_project_id p with
      | Some project => if String.eqb project "" then requested else Some project
      | None => requested
      end
  | UserPrincipal _ _ _ => requested
  end.

Definition permits (principal : Principal) (scope : string) : bool :=
  match principal with
  | KeyPrincipal p => string_in scope (pr_scopes p)
  | UserPrincipal _ _ role =>
      if is_administrator role then true
      else if String.eqb role "billing" then String.eqb scope "billing:read"
      else string_in scope ["machines:read"; "machines:write"; "templates:read"; "volumes:read"; "volumes:write"]
  end.

Definition canAdminister (principal : Principal) : bool :=
  match principal with KeyPrincipal _ => false | UserPrincipal _ _ role => is_administrator role end.

(** ** Reading a request's calls *)

Section theorems.
Context `{NodeNet} `{AuthServices} (sha256 : string → string).
Abbreviation AuthWorld := (World (option AuthenticatedRequest) AuthCall).
Implicit Types w : AuthWorld.

(** [c] was asked and answered with a value that satisfies [P]. *)
Definition granted {A} (c : AuthCall) (answer : list AuthCall → result AuthError A) (P : A → Prop)
    (before after : list AuthCall) : Prop :=
  after = before ++ [c] ∧ ∃ a, answer after = Ok a ∧ P a.

(** The same of an optional service. *)
Definition granted_if {A} (present : bool) (c : AuthCall) (answer : list AuthCall → result AuthError A)
    (before after : list AuthCall) : Prop :=
  if present then granted c answer (λ _, True) before after else after = before.

Lemma ask_granted {A} c (answer : list AuthCall → result AuthError A) w a w' :
  ask c answer w = (Ok a, w') → granted c answer (λ x, x = a) (w_calls w) (w_calls w') ∧ w_db w' = w_db w.
Proof.
  unfold ask, call_with. destruct (answer _) as [x|e] eqn:E; [|done]. intros [= <- <-]. split; [|done].
  split; [done|]. by exists x.
Qed.

Lemma granted_weaken {A} c (answer : list AuthCall → result AuthError A) (P Q : A → Prop) before after :
  (∀ a, P a → Q a) → granted c answer P before after → granted c answer Q before after.
Proof. intros HPQ [E (a & Ha & HP)]. split; [done|]. exists a. auto. Qed.

Lemma recordAttempt_Ok request a action outcome reason principal route w u w' :
  recordAttempt request a action outcome reason principal route w = (Ok u, w') →
  granted_if has_attempt_audit (RecordAttempt (attempt_record request a action outcome reason principal route))
    on_record (w_calls w) (w_calls w') ∧ w_db w' = w_db w.
Proof.
  unfold recordAttempt, granted_if. destruct has_attempt_audit; [|by intros [= _ <-]].
  intros [Hg Hd]%ask_granted. split; [|done]. by eapply granted_weaken.
Qed.

Lemma admission_checked_Ok request presented token w u w' :
  admission_checked request presented token w = (Ok u, w') →
  granted_if has_admission (PreAuthenticate (hq_client_address request) token) on_preAuthenticate
    (w_calls w) (w_calls w') ∧ w_db w' = w_db w.
Proof.
  unfold admission_checked, granted_if. destruct has_admission; simpl; [|by intros [= _ <-]].
  intros (x & w1 & Hx & Hk)%act_bind_Ok. unfold attempt in Hx.
  destruct (ask _ _ w) as [r w2] eqn:Ea. injection Hx as <- <-. destruct r as [v|[s| |m]]; [|exfalso..].
  - injection Hk as _ <-. apply ask_granted in Ea as [Hg Hd]. split; [|done]. by eapply granted_weaken.
  - by apply act_bind_Ok in Hk as (y & w3 & _ & ?).
  - done.
  - done.
Qed.

Lemma admitIdentityWithAudit_Ok request a identity o w u w' :
  admitIdentityWithAudit request a identity o w = (Ok u, w') →
  granted_if has_admission (Admit (admission_identity identity o)) on_admit (w_calls w) (w_calls w') ∧ w_db w' = w_db w.
Proof.
  unfold admitIdentityWithAudit, granted_if, admitIdentity. intros (x & w1 & Hx & Hk)%act_bind_Ok.
  unfold attempt in Hx. destruct has_admission.
  - destruct (ask _ _ w) as [r w2] eqn:Ea. injection Hx as <- <-. destruct r as [v|[s| |m]]; [|exfalso..].
    + injection Hk as _ <-. apply ask_granted in Ea as [Hg Hd]. split; [|done]. by eapply granted_weaken.
    + by apply act_bind_Ok in Hk as (y & w3 & _ & ?).
    + done.
    + done.
  - injection Hx as <- <-. by injection Hk as _ <-.
Qed.

(** The verification a principal rests on. *)
Definition verified (request : HttpRequest) (identity : RawIdentity) (before after : list AuthCall) : Prop :=
  ∃ token, bearer request = Some token ∧
    match identity with
    | KeyIdentity p =>
        starts_with "bc_" token = true ∧
        if starts_with "bc_access_" token
        then granted (AuthenticateAccess token) on_authenticateAccess (λ x, x = Some p) before after
        else granted (AuthenticateKey token) on_authenticateKey (λ x, x = Some p) before after
    | UserIdentity u =>
        starts_with "bc_" token = false ∧
        granted (VerifySession token) on_verifySession (λ x, x = (Some (du_clerkUserId u), du_organizationId u)) before after
    end.

Lemma starts_with_access token : starts_with "bc_access_" token = true → starts_with "bc_" token = true.
Proof.
  unfold starts_with. intros E%String.eqb_eq. apply String.eqb_eq. simpl in *.
  destruct token as [|a [|b [|c token]]]; try done. injection E as -> -> -> _. by destruct token.
Qed.

Lemma raw_verified request w a w' identity :
  authenticateRawIdentity sha256 request w = (Ok a, w') → ra_identity a = Some identity →
  ∃ cs, granted_if has_admission (PreAuthenticate (hq_client_address request) (bearer request)) on_preAuthenticate
          (w_calls w) cs ∧ verified request identity cs (w_calls w') ∧ w_db w' = w_db w.
Proof.
  unfold authenticateRawIdentity, verified. intros (u & w1 & Hu & Hk)%act_bind_Ok Hi.
  apply admission_checked_Ok in Hu as [Hg Hd]. exists (w_calls w1). split; [done|]. rewrite <- Hd. clear Hg Hd.
  destruct (bearer request) as [token|]; [|injection Hk as <- <-; done].
  destruct (starts_with "bc_access_" token) eqn:Ea; [|destruct (starts_with "bc_" token) eqn:Eb].
  - unfold authenticate_device in Hk. apply act_bind_Ok in Hk as (x & w2 & Hx & Hk). injection Hk as <- <-. simpl in Hi.
    destruct has_device_authorizations; [|by injection Hx as <- <-]. apply ask_granted in Hx as [Hg Hd]. split; [|done].
    exists token. split; [done|]. destruct x as [p|]; [|done]. injection Hi as <-.
    split; [by apply starts_with_access|]. by rewrite Ea.
  - unfold authenticate_key in Hk. apply act_bind_Ok in Hk as (x & w2 & Hx & Hk). unfold attempt in Hx.
    destruct (ask _ _ w1) as [r w3] eqn:Eq. injection Hx as <- <-. destruct r as [o|[s| |m]].
    + injection Hk as <- <-. simpl in Hi. apply ask_granted in Eq as [Hg Hd]. split; [|done].
      exists token. split; [done|]. destruct o as [p|]; [|done]. injection Hi as <-. by rewrite Ea, Eb.
    + done.
    + by apply act_bind_Ok in Hk as (y & w4 & _ & ?).
    + done.
  - unfold authenticate_session in Hk. apply act_bind_Ok in Hk as (x & w2 & Hx & Hk). injection Hk as <- <-. simpl in Hi.
    destruct has_session_verifier; [|by injection Hx as <- <-]. unfold authenticateClerkSession in Hx.
    apply act_bind_Ok in Hx as (y & w3 & Hy & Hx). unfold attempt in Hy.
    destruct (ask _ _ w1) as [r w4] eqn:Eq. injection Hy as <- <-.
    destruct r as [[[sub|] org]|e]; [|by injection Hx as <- _|by injection Hx as <- _]. injection Hx as <- <-.
    destruct (String.eqb sub ""); [done|]. injection Hi as <-. apply ask_granted in Eq as [Hg Hd].
    split; [|done]. exists token. by split_and!.
Qed.

(** The principal as [recordAttempt] sees it. *)
Definition seen_principal (p : Principal) : Seen :=
  match p with KeyPrincipal p => SeenKey p | UserPrincipal u o _ => SeenUser u (Some o) end.

(** C36: A principal is never made up.  When a request is authenticated, its calls
    were exactly these, in this order and each granted: admission before the
    credential is looked at, one verification by the service its prefix selects,
    for a user the role in the organization that was selected, admission of the
    identity, and the record of the success; and the principal has the tenant and
    scopes its key was verified with, or the role the user was found to have. *)
Theorem principal_is_verified request w p w' :
  authenticate sha256 request w = (Ok (Some p), w') →
  ∃ identity cs1 cs2 cs3 cs4 attempt',
    granted_if has_admission (PreAuthenticate (hq_client_address request) (bearer request)) on_preAuthenticate
      (w_calls w) cs1 ∧
    verified request identity cs1 cs2 ∧
    match p with
    | KeyPrincipal k => identity = KeyIdentity k ∧ cs3 = cs2
    | UserPrincipal user organization role =>
        ∃ u, identity = UserIdentity u ∧ du_clerkUserId u = user ∧ organization ≠ "" ∧ role ≠ "" ∧
          organization = default (default "" (du_organizationId u)) (hq_organization_id request) ∧
          granted (MembershipRole user organization) on_membershipRole (λ r, r = Some role) cs2 cs3
    end ∧
    granted_if has_admission
      (Admit (admission_identity identity (match p with KeyPrincipal k => Some (pr_organization_id k)
                                                      | UserPrincipal _ o _ => Some o end))) on_admit cs3 cs4 ∧
    granted_if has_attempt_audit
      (RecordAttempt (attempt_record request attempt' "authentication" "succeeded" "credential_verified"
         (Some (seen_principal p)) None)) on_record cs4 (w_calls w') ∧
    w_db w' = Some (mkAuthenticated (seen_principal p) attempt').
Proof.
  unfold authenticate. intros (a & w1 & Ha & Hk)%act_bind_Ok. cbn zeta in Hk.
  destruct (ra_identity a) as [[k|u]|] eqn:Ei; [| |by apply act_bind_Ok in Hk as (? & ? & _ & ?)].
  - apply act_bind_Ok in Hk as (x & w2 & Hadm & Hk). apply act_bind_Ok in Hk as (y & w3 & Hrec & Hk).
    apply act_bind_Ok in Hk as (z & w4 & Hrem & Hk). injection Hk as <- <-. injection Hrem as _ <-.
    destruct (raw_verified _ _ _ _ _ Ha Ei) as (cs & Hpre & Hver & _).
    apply admitIdentityWithAudit_Ok in Hadm as [Hadm _]. apply recordAttempt_Ok in Hrec as [Hrec _].
    exists (KeyIdentity k), cs, (w_calls w1), (w_calls w1), (w_calls w2), a. by split_and!.
  - destruct (coalesce (hq_organization_id request) (du_organizationId u)) as [organization|] eqn:Eo;
      [|by apply act_bind_Ok in Hk as (? & ? & _ & ?)].
    destruct (String.eqb_spec organization "") as [|Hne]; [by apply act_bind_Ok in Hk as (? & ? & _ & ?)|].
    apply act_bind_Ok in Hk as (r & w2 & Hrole & Hk).
    destruct (truthy_text r) as [role|] eqn:Er; [|by apply act_bind_Ok in Hk as (? & ? & _ & ?)].
    apply act_bind_Ok in Hk as (x & w3 & Hadm & Hk). apply act_bind_Ok in Hk as (y & w4 & Hrec & Hk).
    apply act_bind_Ok in Hk as (z & w5 & Hrem & Hk). injection Hk as <- <-. injection Hrem as _ <-.
    destruct (raw_verified _ _ _ _ _ Ha Ei) as (cs & Hpre & Hver & _).
    apply admitIdentityWithAudit_Ok in Hadm as [Hadm _]. apply recordAttempt_Ok in Hrec as [Hrec _].
    apply ask_granted in Hrole as [Hrole _]. destruct r as [r|]; [|done]. simpl in Er.
    destruct (String.eqb_spec r "") as [|Hr]; [done|]. injection Er as <-.
    exists (UserIdentity u), cs, (w_calls w1), (w_calls w2), (w_calls w3), a. split_and!; try done.
    exists u. split_and!; try done. destruct (hq_organization_id request); simpl in *; [by injection Eo|by rewrite Eo].
Qed.

(** ** What a computation may ask *)

(** It asks only calls with [P], and with [keeps] what is remembered stays. *)
Definition asks {A} (P : AuthCall → Prop) (keeps : bool) (m : AuthAct A) : Prop := ∀ w,
  (∃ cs, w_calls (m w).2 = w_calls w ++ cs ∧ Forall P cs) ∧ (keeps = true → w_db (m w).2 = w_db w).

Lemma asks_result {A} P b (r : result AuthError A) : asks P b (λ w, (r, w)).
Proof. intros w. split; [|done]. exists []. by rewrite app_nil_r. Qed.

Lemma asks_ask {A} (P : AuthCall → Prop) b c (answer : list AuthCall → result AuthError A) : P c → asks P b (ask c answer).
Proof.
  intros Hc w. unfold ask, call_with. split; [|done]. exists [c]. split; [done|]. by constructor.
Qed.

Lemma asks_attempt {A} P b (m : AuthAct A) : asks P b m → asks P b (attempt m : AuthAct (result AuthError A)).
Proof. intros Hm w. specialize (Hm w). unfold attempt. by destruct (m w). Qed.

Lemma asks_bind {A B} P b (m : AuthAct A) (k : A → AuthAct B) :
  asks P b m → (∀ a, asks P b (k a)) → asks P b (m ≫= k).
Proof.
  intros Hm Hk w. rewrite act_bind_eq. destruct (Hm w) as ((cs & E & Hcs) & Ed).
  destruct (m w) as [[a|e] w1]; cbn [snd] in *; [|split; [by exists cs|done]].
  destruct (Hk a w1) as ((cs' & E' & Hcs') & Ed'). split; [|intros Hb; rewrite Ed', Ed; done].
  exists (cs ++ cs'). rewrite E', E, app_assoc. split; [done|]. by apply Forall_app.
Qed.

Lemma asks_record P b request a action outcome reason principal route :
  (∀ a, P (RecordAttempt a)) → asks P b (recordAttempt request a action outcome reason principal route).
Proof. intros HP. unfold recordAttempt. destruct has_attempt_audit; [by apply asks_ask|apply asks_result]. Qed.

Lemma asks_remember P principal a : asks P false (remember principal a).
Proof. intros w. split; [|done]. exists []. by rewrite app_nil_r. Qed.

Ltac asking :=
  repeat first
    [ apply asks_bind; [|intros]
    | apply asks_attempt
    | apply asks_record; [by intros]
    | apply asks_ask; [done]
    | apply asks_remember
    | apply asks_result
    | progress unfold mret, act_ret, athrow
    | case_match ].

Lemma asks_admission P b request presented token :
  (∀ s t, P (PreAuthenticate s t)) → (∀ a, P (RecordAttempt a)) → asks P b (admission_checked request presented token).
Proof. intros HP HR. unfold admission_checked. asking. Qed.

(** What follows the admission of a request. *)
Definition credential_checked (request : HttpRequest) (presented : RawAuthentication) : AuthAct RawAuthentication :=
  match bearer request with
  | None => mret presented
  | Some token =>
      if starts_with "bc_access_" token then authenticate_device presented token
      else if starts_with "bc_" token then authenticate_key sha256 request presented token
      else authenticate_session sha256 token
  end.

Lemma asks_credential request presented : asks (λ _, True) true (credential_checked request presented).
Proof.
  unfold credential_checked, authenticate_device, authenticate_key, authenticate_session, authenticateClerkSession.
  asking.
Qed.

Lemma asks_raw request : asks (λ _, True) true (authenticateRawIdentity sha256 request).
Proof.
  apply asks_bind; [by apply asks_admission|intros _]. apply asks_credential.
Qed.

(** No denial goes unrecorded: a request that is answered no principal ends
    with the durable record of a denied attempt, whatever was denied about it, and
    leaves nothing behind that a later denial could be attributed to. *)
Theorem denials_are_recorded request w w' :
  has_attempt_audit = true → authenticate sha256 request w = (Ok None, w') →
  w_db w' = w_db w ∧ ∃ a cs, w_calls w' = cs ++ [RecordAttempt a] ∧ on_record (w_calls w') = Ok tt ∧ at_outcome a = "denied".
Proof.
  intros Haudit. unfold authenticate. intros (a & w1 & Ha & Hk)%act_bind_Ok. cbn zeta in Hk.
  pose proof (asks_raw request w) as [_ Hdb]. rewrite Ha in Hdb. specialize (Hdb eq_refl). cbn [snd] in Hdb.
  assert (∀ action reason principal w2,
    (recordAttempt request a action "denied" reason principal None ≫= λ _, mret (None : option Principal)) w2 = (Ok None, w') →
    w_db w2 = w_db w →
    w_db w' = w_db w ∧ ∃ a cs, w_calls w' = cs ++ [RecordAttempt a] ∧ on_record (w_calls w') = Ok tt ∧ at_outcome a = "denied") as Hden.
  { intros action reason principal w2 Hx E. apply act_bind_Ok in Hx as (u & w3 & Hx & Hy). injection Hy as <-.
    apply recordAttempt_Ok in Hx as [Hg Hd]. rewrite Haudit in Hg. destruct Hg as [Ec ([] & Hr & _)].
    split; [congruence|]. do 2 eexists. split; [exact Ec|]. split; [exact Hr|].
    unfold attempt_record. by destruct (seen_actor _ _). }
  destruct (ra_identity a) as [[k|u]|] eqn:Ei; [| |by eapply Hden].
  - apply act_bind_Ok in Hk as (? & ? & _ & Hk). apply act_bind_Ok in Hk as (? & ? & _ & Hk).
    by apply act_bind_Ok in Hk as (? & ? & _ & Hk).
  - destruct (coalesce _ _) as [organization|]; [|by eapply Hden].
    destruct (String.eqb organization ""); [by eapply Hden|].
    apply act_bind_Ok in Hk as (r & w2 & Hrole & Hk). apply ask_granted in Hrole as [_ Hd].
    destruct (truthy_text r); [|eapply Hden; [exact Hk|congruence]].
    apply act_bind_Ok in Hk as (? & ? & _ & Hk). apply act_bind_Ok in Hk as (? & ? & _ & Hk).
    by apply act_bind_Ok in Hk as (? & ? & _ & Hk).
Qed.

(** Authentication is admission, then the rest. *)
Lemma authenticate_after_admission request :
  ∃ presented (k : AuthAct (option Principal)),
    (∀ w, authenticate sha256 request w =
          (admission_checked request presented (bearer request) ≫= λ _, k) w) ∧ asks (λ _, True) false k.
Proof.
  unfold authenticate. unfold authenticateRawIdentity.
  set (presented := match bearer request with Some t => classifyPresentedCredential sha256 t | None => _ end).
  set (rest := λ a, _ : AuthAct (option Principal)).
  exists presented, (credential_checked request presented ≫= rest). split.
  - intros w. rewrite !act_bind_eq. by destruct (admission_checked _ _ _ w) as [[u|e] w1].
  - apply asks_bind; [intros w; destruct (asks_credential request presented w) as [Hc _]; by split|]. intros a. unfold rest. cbn zeta.
    unfold admitIdentityWithAudit, admitIdentity. asking.
Qed.

(** Nothing is spent on a request that is not admitted: whatever the services
    answer, admission is asked first, and when it does not grant the request no
    credential is verified, no session, key or token service is called, and no
    identity comes out. *)
Theorem credentials_wait_for_admission request w :
  has_admission = true →
  let cs0 := w_calls w ++ [PreAuthenticate (hq_client_address request) (bearer request)] in
  let '(r, w') := authenticate sha256 request w in
  (∃ cs, w_calls w' = cs0 ++ cs) ∧
  (is_ok (on_preAuthenticate cs0) = false →
   is_ok r = false ∧ ∃ cs, w_calls w' = cs0 ++ cs ∧ Forall (λ c, ∃ a, c = RecordAttempt a) cs).
Proof.
  intros Hadm. cbn zeta. set (c0 := PreAuthenticate _ _).
  destruct (authenticate_after_admission request) as (presented & k & E & Hk). rewrite E, act_bind_eq.
  unfold admission_checked. rewrite Hadm. cbn [negb]. rewrite act_bind_eq. unfold attempt, ask, call_with. fold c0.
  set (w1 := mkWorld (w_db w) (w_tick w) (w_calls w ++ [c0])).
  destruct (on_preAuthenticate (w_calls w ++ [c0])) as [u|e] eqn:Ep; cbn [is_ok].
  - destruct (Hk w1) as ((cs & Ec & _) & _). unfold mret, act_ret. destruct (k w1) as [r w']. split; [by exists cs|done].
  - assert (∀ (e : AuthError) , ∃ cs, w_calls w1 = (w_calls w ++ [c0]) ++ cs ∧
      Forall (λ c, ∃ a, c = RecordAttempt a) cs) as H1 by (intros _; exists []; by rewrite app_nil_r).
    destruct e as [s| |m]; [|destruct (H1 VerifierBusy) as (cs & Ec & Hcs)|destruct (H1 VerifierBusy) as (cs & Ec & Hcs)].
    + cbn [id]. rewrite act_bind_eq. set (rec := recordAttempt _ _ _ _ _ _ _).
      assert (asks (λ c, ∃ a, c = RecordAttempt a) true rec) as Hrec by (apply asks_record; eauto).
      destruct (Hrec w1) as ((cs & Ec & Hcs) & _). destruct (rec w1) as [[u|e] w2]; cbn [snd is_ok] in *.
      * split; [by exists cs|]. intros _. split; [done|]. by exists cs.
      * split; [by exists cs|]. intros _. split; [done|]. by exists cs.
    + cbn [id]. unfold athrow. split; [by exists cs|]. intros _. split; [done|]. by exists cs.
    + cbn [id]. unfold athrow. split; [by exists cs|]. intros _. split; [done|]. by exists cs.
Qed.
End theorems.

(** ** At a concrete deployment *)

(** Every service answers; [refuse] says whether admission refuses, [key] what the
    key service finds. *)
Definition http_demo_services (refuse : bool) (key : option ApiKeyPrincipal) : AuthServices := {|
  has_admission := true; has_device_authorizations := true; has_session_verifier := true; has_attempt_audit := true;
  on_preAuthenticate _ := if refuse then Err (RateLimited 5) else Ok tt;
  on_authenticateAccess _ := Ok None;
  on_authenticateKey _ := Ok key;
  on_verifySession _ := Ok (Some "user_1", None);
  on_userEnabled _ := Ok true;
  on_membershipRole _ := Ok (Some "member");
  on_admit _ := Ok tt;
  on_record _ := Ok tt
|}.
Definition http_demo_net : NodeNet := {| isIP _ := None; subnet_contains _ _ _ := false |}.
Definition http_demo_key : ApiKeyPrincipal := mkPrincipal "key-1" None "org" None ["machines:read"].
Definition http_demo_request : HttpRequest :=
  mkHttpRequest (Some "Bearer bc_live_0123") None None None "request" "/v1/machines" "GET".
Definition http_demo_world : World (option AuthenticatedRequest) AuthCall := mkWorld None O [].
Definition http_demo_run (refuse : bool) (key : option ApiKeyPrincipal) :=
  @authenticate http_demo_net (http_demo_services refuse key) id http_demo_request http_demo_world.

Lemma principal_is_verified_witness :
  (http_demo_run false (Some http_demo_key)).1 = Ok (Some (KeyPrincipal http_demo_key)) ∧
  ah_principal <$> w_db (http_demo_run false (Some http_demo_key)).2 = Some (SeenKey http_demo_key).
Proof.
  assert (http_demo_run false (Some http_demo_key) =
    (Ok (Some (KeyPrincipal http_demo_key)), (http_demo_run false (Some http_demo_key)).2)) as E
    by (vm_compute; reflexivity).
  split; [vm_compute; reflexivity|].
  destruct (@principal_is_verified http_demo_net (http_demo_services false (Some http_demo_key)) id http_demo_request
    http_demo_world _ _ E) as (i & c1 & c2 & c3 & c4 & a & _ & _ & _ & _ & _ & Hw).
  rewrite Hw. reflexivity.
Defined.

Lemma denials_are_recorded_witness :
  (http_demo_run false None).1 = Ok None ∧
  ∃ a cs, w_calls (http_demo_run false None).2 = cs ++ [RecordAttempt a] ∧ at_outcome a = "denied".
Proof.
  assert (http_demo_run false None = (Ok None, (http_demo_run false None).2)) as E by (vm_compute; reflexivity).
  split; [vm_compute; reflexivity|].
  destruct (@denials_are_recorded http_demo_net (http_demo_services false None) id http_demo_request
    http_demo_world _ eq_refl E) as (_ & a & cs & Hc & _ & Ho).
  exists a, cs. split; [exact Hc|exact Ho].
Defined.

Lemma credentials_wait_for_admission_witness :
  is_ok (http_demo_run true (Some http_demo_key)).1 = false ∧
  ∃ cs, w_calls (http_demo_run true (Some http_demo_key)).2 =
    [PreAuthenticate None (Some "bc_live_0123")] ++ cs ∧ Forall (λ c, ∃ a, c = RecordAttempt a) cs.
Proof.
  pose proof (@credentials_wait_for_admission http_demo_net (http_demo_services true (Some http_demo_key)) id
    http_demo_request http_demo_world eq_refl) as H.
  unfold http_demo_run. cbv zeta in H.
  destruct (@authenticate http_demo_net (http_demo_services true (Some http_demo_key)) id http_demo_request
    http_demo_world) as [r w']. exact (proj2 H eq_refl).
Defined.
