(* ===== verification/Router.v ===== *)
(** * The router

    src/apps/nehemiah/src/http/router.ts: how a path selects a handler, what is
    made of the handler's answer and of what it throws; with the request
    identifiers and the records that are logged, of
    src/apps/nehemiah/src/telemetry.ts.  Handlers are effects over any state [S];
    [auditHttpAuthorizationDenial] is the one of [HttpAuth] and an argument here. *)

From S2P Require Import Prelude Text Js Awaiting ApiAdmission.

(** ** Percent encoding *)

Definition byte (c : ascii) : Z := Z.of_N (N_of_ascii c).
Definition of_byte (z : Z) : ascii := ascii_of_N (Z.to_N z).

(** The value of a hexadecimal digit of either case. *)
Definition hex_digit (c : ascii) : option Z :=
  if digit c then Some (byte c - 48)
  else if in_range "A" "F" c then Some (byte c - 55)
  else if in_range "a" "f" c then Some (byte c - 87)
  else None.

Definition hex_byte (a b : ascii) : option Z :=
  match hex_digit a, hex_digit b with Some x, Some y => Some (16 * x + y) | _, _ => None end.

(** How many octets a UTF-8 sequence has that starts with this one, when they are
    more than one. *)
Definition sequence_length (b : Z) : option nat :=
  if (192 <=? b) && (b <? 224) then Some 2%nat
  else if (224 <=? b) && (b <? 240) then Some 3%nat
  else if (240 <=? b) && (b <? 248) then Some 4%nat
  else None.

(** Whether the octets are the shortest encoding of a character: no surrogate,
    nothing beyond U+10FFFF. *)
Definition valid_sequence (octets : list Z) : bool :=
  let low (b : Z) := b mod 64 in
  match octets with
  | [a; b] => 128 <=? a mod 32 * 64 + low b
  | [a; b; c] =>
      let p := a mod 16 * 4096 + low b * 64 + low c in
      (2048 <=? p) && negb ((55296 <=? p) && (p <=? 57343))
  | [a; b; c; d] =>
      let p := a mod 8 * 262144 + low b * 4096 + low c * 64 + low d in
      (65536 <=? p) && (p <=? 1114111)
  | _ => false
  end.

(** An octet arrives while [pending] octets of a sequence are read and [n] are
    still missing: what is complete now, and what is still pending. *)
Definition utf8_step (pending : option (nat * list Z)) (b : Z) : option (list ascii * option (nat * list Z)) :=
  match pending with
  | None =>
      if b <? 128 then Some ([of_byte b], None)
      else match sequence_length b with
           | Some n => Some ([], Some (Nat.pred n, [b]))
           | None => None
           end
  | Some (n, octets) =>
      if (128 <=? b) && (b <? 192) then
        let octets := octets ++ [b] in
        if Nat.eqb n 1 then if valid_sequence octets then Some (map of_byte octets, None) else None
        else Some ([], Some (Nat.pred n, octets))
      else None
  end.

(** [decodeURIComponent]: an escape that is malformed, or whose octets are not
    UTF-8, throws. *)
Fixpoint decode_component (pending : option (nat * list Z)) (l : list ascii) : option (list ascii) :=
  match l with
  | [] => if pending is Some _ then None else Some []
  | "%"%char :: a :: b :: l =>
      match hex_byte a b ≫= utf8_step pending with
      | Some (out, pending) => app out <$> decode_component pending l
      | None => None
      end
  | "%"%char :: _ => None
  | c :: l => if pending is Some _ then None else cons c <$> decode_component None l
  end.

Definition decodeURIComponent (s : string) : option string :=
  string_of_list_ascii <$> decode_component None (list_ascii_of_string s).

(** What [encodeURIComponent] keeps; the clients build their paths with it. *)
Definition unescaped (c : ascii) : bool := alnum c || one_of "-_.!~*'()" c.

Definition upper_hex (n : Z) : ascii := of_byte (if n <? 10 then 48 + n else 55 + n).

Definition escape (c : ascii) : list ascii := ["%"%char; upper_hex (byte c / 16); upper_hex (byte c mod 16)].

Definition encode_char (c : ascii) : list ascii := if unescaped c then [c] else escape c.

Definition encodeURIComponent (s : string) : string :=
  string_of_list_ascii (concat (map encode_char (list_ascii_of_string s))).

(** Texts are UTF-8. *)
Fixpoint utf8 (pending : option (nat * list Z)) (l : list ascii) : bool :=
  match l with
  | [] => if pending is Some _ then false else true
  | c :: l => match utf8_step pending (byte c) with Some (_, pending) => utf8 pending l | None => false end
  end.

(** ** Paths *)

(** The pathname of a URL, by the URL standard ([new URL(...).pathname] on the
    server, and what a client's [fetch] makes of a path before it sends it): tabs
    and line ends are dropped, the query is cut off, a backslash is a slash, some
    characters are escaped, and segments that say [.] or [..], escaped or not, are
    resolved. *)
Fixpoint cut_query (l : list ascii) : list ascii :=
  match l with
  | [] => []
  | c :: l => if one_of "?#" c then [] else c :: cut_query l
  end.

Definition line_end (c : ascii) : bool := (byte c =? 9) || (byte c =? 10) || (byte c =? 13).

(** The path percent-encode set. *)
Definition path_set (c : ascii) : bool :=
  (byte c <? 33) || (126 <? byte c) || (byte c =? 34) || one_of "#<>?^`{}" c.

Definition escape_path (s : string) : string :=
  string_of_list_ascii (concat (map (λ c, if path_set c then escape c else [c]) (list_ascii_of_string s))).

Definition ascii_lower (s : string) : string := string_of_list_ascii (map lower_ascii (list_ascii_of_string s)).
Definition single_dot (s : string) : bool := string_in (ascii_lower s) ["."; "%2e"].
Definition double_dot (s : string) : bool := string_in (ascii_lower s) [".."; ".%2e"; "%2e."; "%2e%2e"].

(** The path state of the parser, over the segments that are left. *)
Fixpoint resolve_dots (segments path : list string) : list string :=
  match segments with
  | [] => path
  | [s] => if double_dot s then removelast path ++ [""] else if single_dot s then path ++ [""] else path ++ [s]
  | s :: segments =>
      resolve_dots segments (if double_dot s then removelast path else if single_dot s then path else path ++ [s])
  end.

Definition join_path (segments : list string) : string := foldr (λ s path, "/" +:+ s +:+ path) "" segments.

Definition url_pathname (target : string) : string :=
  let text := map (λ c, if Ascii.eqb c "\" then "/"%char else c)
                (cut_query (List.filter (λ c, negb (line_end c)) (list_ascii_of_string target))) in
  let segments := match js_split "/" (string_of_list_ascii text) with "" :: s :: ss => s :: ss | ss => ss end in
  join_path (resolve_dots (map escape_path segments) []).

(** [path.split('/').filter(Boolean)] *)
Definition path_segments (path : string) : list string :=
  List.filter (λ s, negb (String.eqb s "")) (js_split "/" path).

(** The name a segment binds: [':name']. *)
Definition param_name (expected : string) : option string :=
  match expected with String ":" name => Some name | _ => None end.

(** The loop of [match] over segments that are as many. *)
Fixpoint match_segments (expected actual : list string) (params : gmap string string) : option (gmap string string) :=
  match expected, actual with
  | e :: expected, a :: actual =>
      match param_name e with
      | Some name =>
          match decodeURIComponent a with
          | Some value => match_segments expected actual (<[name := value]> params)
          | None => None
          end
      | None => if String.eqb e a then match_segments expected actual params else None
      end
  | _, _ => Some params
  end.

Definition match_path (segments : list string) (pathname : string) : option (gmap string string) :=
  let actual := path_segments pathname in
  if negb (Nat.eqb (length actual) (length segments)) then None else match_segments segments actual ∅.

(** ** Responses *)

Record Response := mkResponse {
  rp_status : Z;
  (** by lower-case name *)
  rp_headers : gmap string string;
  rp_body : option json
}.

(** [json], with the headers the caller adds. *)
Definition json_response (body : json) (status : Z) (headers : list (string * string)) : Response :=
  mkResponse status (foldl (λ m kv, <[kv.1 := kv.2]> m) {["content-type" := "application/json; charset=utf-8"]} headers)
    (Some body).

Definition problem (status : Z) (code detail requestId : string) (extra : list (string * json)) : Response :=
  json_response
    (JObj ([("type", JStr ("https://docs.boringcomputers.com/problems/" +:+ code)); ("title", JStr code);
            ("status", JNum (NInt status)); ("detail", JStr detail); ("request_id", JStr requestId)] ++ extra))
    status [("content-type", "application/problem+json")].

Definition set_header (name value : string) (r : Response) : Response :=
  mkResponse (rp_status r) (<[name := value]> (rp_headers r)) (rp_body r).

(** ** What handlers throw *)

Inductive HandlerError :=
| RateLimitExceeded (retryAfterSeconds : Z)
| AdmissionUnavailable
| RequestRejected (e : HttpRequestError)
| AuditCompletionUnavailable
(** any other value, by its [code] and its class *)
| Unexpected (code : option string) (class : string).

Definition error_response (id : string) (e : HandlerError) : Response :=
  match e with
  | RateLimitExceeded n =>
      set_header "x-request-id" id (set_header "cache-control" "no-store" (set_header "retry-after" (pretty n)
        (problem 429 "rate_limit_exceeded" "The API request rate limit has been reached." id
           [("retry_after_seconds", JNum (NInt n))])))
  | AdmissionUnavailable =>
      set_header "x-request-id" id (set_header "cache-control" "no-store" (set_header "retry-after" "1"
        (problem 503 "api_admission_unavailable" "API admission is temporarily unavailable." id [])))
  | RequestRejected (mkHttpRequestError status code detail) => problem status code detail id []
  | AuditCompletionUnavailable =>
      problem 503 "operation_result_pending"
        "The operation may have completed, but its terminal audit result is not durable. Do not retry non-idempotent work without operator confirmation."
        id [("operation_may_have_completed", JBool true)]
  | Unexpected _ _ => problem 500 "internal_error" "The request could not be completed." id []
  end.

Definition not_found (id : string) : Response := problem 404 "not_found" "No route matches this request." id [].

(** [readJson]: [parse] is [JSON.parse] of the decoded bytes. *)
Definition readJson (parse : list ascii → option json) (declared : option string) (chunks : list (list ascii))
    (maxBytes : Z) : result HandlerError json :=
  let invalid := mkHttpRequestError 400 "invalid_json" "The request body length is invalid." in
  let parsed :=
    match read_chunks maxBytes 0 [] chunks with
    | Ok bytes =>
        match parse bytes with
        | Some v => Ok v
        | None => Err (RequestRejected (mkHttpRequestError 400 "invalid_json" "The request body is not valid JSON."))
        end
    | Err e => Err (RequestRejected e)
    end in
  match declared with
  | None => parsed
  | Some d =>
      match js_Number d with
      | NInt n => if negb (isSafeInteger (NInt n)) || (n <? 0) then Err (RequestRejected invalid)
                  else if maxBytes <? n then Err (RequestRejected body_too_large) else parsed
      | NNonInt => Err (RequestRejected invalid)
      end
  end.

(** ** Routing *)

Section router.
Context {S : Type}.

Record RequestContext := mkContext {
  cx_pathname : string;
  cx_params : gmap string string;
  cx_request_id : string
}.

Record Route := mkRoute {
  rt_method : string;
  rt_path : string;
  rt_segments : list string;
  rt_handler : RequestContext → Act S HandlerError Response
}.

(** [add] appends. *)
Definition add_route (method path : string) (handler : RequestContext → Act S HandlerError Response)
    (routes : list Route) : list Route :=
  routes ++ [mkRoute method path (path_segments path) handler].

(** The route the loop of [handle] stops at. *)
Fixpoint find_route (method pathname : string) (routes : list Route) : option (Route * gmap string string) :=
  match routes with
  | [] => None
  | r :: routes =>
      if negb (String.eqb (rt_method r) method) then find_route method pathname routes
      else match match_path (rt_segments r) pathname with
           | Some params => Some (r, params)
           | None => find_route method pathname routes
           end
  end.

Definition handle (audit_denial : string → Z → Act S HandlerError unit) (routes : list Route)
    (method target id : string) : Act S HandlerError Response :=
  let pathname := url_pathname target in
  match find_route method pathname routes with
  | Some (route, params) =>
      answered ← attempt (response ← rt_handler route (mkContext pathname params id);
                          _ ← audit_denial (rt_path route) (rp_status response);
                          mret (set_header "x-request-id" id response));
      match (answered : result HandlerError Response) with
      | Ok response => mret response
      | Err e => mret (error_response id e)
      end
  | None => mret (not_found id)
  end.
End router.
Arguments Route S : clear implicits.

(** ** Request identifiers *)

(** [/^(?:[a-f0-9]{32}|[a-f0-9]{8}(?:-[a-f0-9]{4}){3}-[a-f0-9]{12})$/i] *)
Definition requestIdPattern : re :=
  Alt (rep_exact 32 (Chr hex))
      (cats [rep_exact 8 (Chr hex); rep_exact 3 (Cat (lit "-") (rep_exact 4 (Chr hex))); lit "-"; rep_exact 12 (Chr hex)]).

(** [existing] is the request's entry in [generatedRequestIds]; the identifier
    and the new entry. *)
Definition requestId (supplied existing : option string) (drawn : string) : string * option string :=
  match supplied with
  | Some s => if negb (String.eqb s "") && test requestIdPattern s then (s, existing)
              else match existing with Some e => (e, existing) | None => (drawn, Some drawn) end
  | None => match existing with Some e => (e, existing) | None => (drawn, Some drawn) end
  end.

(** ** Logging *)

Definition idPattern : re := Cat (Chr alnum) (rep 0 127 (Chr (λ c, alnum c || one_of "._:-" c))).

(** [/^\/(?:[A-Za-z0-9._-]+|:[A-Za-z0-9_-]+)(?:\/...)*$/] *)
Definition path_segment : re :=
  Cat (lit "/") (Alt (many1 (Chr (λ c, alnum c || one_of "._-" c))) (Cat (lit ":") (many1 (Chr (λ c, alnum c || one_of "_-" c))))).
Definition normalizedPathPattern : re := many1 path_segment.

Definition boundedEnumPattern : re := Cat (Chr lower) (rep 0 63 (Chr (λ c, lower_alnum c || one_of "_" c))).
Definition errorNamePattern : re := Cat (Chr alpha) (rep 0 63 (Chr (λ c, alnum c || one_of "_.-" c))).
Definition log_methods : list string := ["GET"; "POST"; "PUT"; "PATCH"; "DELETE"; "HEAD"; "OPTIONS"].
Definition log_environments : list string := ["development"; "test"; "staging"; "production"].

(** [safeIdentifier], of a value that is absent or a string. *)
Definition safeIdentifier (value : option string) : option string :=
  match value with Some v => if test idPattern v then Some v else None | None => None end.

(** What is thrown: the name of an [Error], or any other value. *)
Definition errorType (name : option string) : string :=
  match name with Some n => if test errorNamePattern n then n else "Error" | None => "Error" end.

Record LogContext := mkLog {
  (** the eight identifiers, by their keys in the code's order *)
  lc_identifiers : list (option string);
  lc_method : option string;
  lc_path : option string;
  lc_status : option number;
  (** a finite number of milliseconds, as a fraction *)
  lc_duration_ms : option (Z * positive);
  lc_port : option number;
  lc_environment : option string;
  lc_reason : option string;
  lc_result : option string;
  lc_error : option (option string)
}.

Definition log_identifiers : list string :=
  ["requestId"; "machineId"; "organizationId"; "projectId"; "hostId"; "leaseId"; "forkOperationId"; "sourceMachineId"].

Definition field (key : string) (value : option json) : list (string * json) :=
  match value with Some v => [(key, v)] | None => [] end.

Definition passing (p : string → bool) (value : option string) : option json :=
  match value with Some v => if negb (String.eqb v "") && p v then Some (JStr v) else None | None => None end.

Definition within (lo hi : Z) (n : option number) : option json :=
  match n with Some (NInt z) => if (lo <=? z) && (z <=? hi) then Some (JNum (NInt z)) else None | _ => None end.

(** [Math.round], of a fraction that is not negative *)
Definition rounded (d : option (Z * positive)) : option json :=
  match d with
  | Some (n, den) => if 0 <=? n then Some (JNum (NInt ((2 * n + Zpos den) / (2 * Zpos den)))) else None
  | None => None
  end.

(** [timestamp] is the time as [toISOString] prints it; messages are ASCII. *)
Definition safeLogRecord (timestamp level message : string) (input : LogContext) : list (string * json) :=
  [("timestamp", JStr timestamp); ("level", JStr level); ("message", JStr (substring 0 128 message))] ++
  concat (zip_with (λ key value, field key (JStr <$> safeIdentifier value)) log_identifiers (lc_identifiers input)) ++
  field "method" (passing (λ m, string_in m log_methods) (lc_method input)) ++
  field "route" (passing (test normalizedPathPattern) (lc_path input)) ++
  field "status" (within 100 599 (lc_status input)) ++
  field "duration_ms" (rounded (lc_duration_ms input)) ++
  field "port" (within 1 65535 (lc_port input)) ++
  field "environment" (passing (λ e, string_in e log_environments) (lc_environment input)) ++
  field "reason" (passing (test boundedEnumPattern) (lc_reason input)) ++
  field "result" (passing (test boundedEnumPattern) (lc_result input)) ++
  field "error_type" ((λ name, JStr (errorType name)) <$> lc_error input).

(** * What holds of it *)

(** ** Values in paths *)

Lemma byte_range c : 0 <= byte c < 256.
Proof. unfold byte. pose proof (N_ascii_bounded c). lia. Qed.

Lemma of_byte_byte c : of_byte (byte c) = c.
Proof. unfold of_byte, byte. rewrite N2Z.id. apply ascii_N_embedding. Qed.

Lemma byte_of_byte z : 0 <= z < 256 → byte (of_byte z) = z.
Proof. intros Hz. unfold byte, of_byte. rewrite N_ascii_embedding by lia. lia. Qed.

(** A property of all bytes, checked on each. *)
Lemma all_bytes (p : ascii → bool) : forallb (λ n, p (ascii_of_nat n)) (seq 0 256) = true → ∀ c, p c = true.
Proof.
  intros H c. rewrite forallb_forall in H. specialize (H (nat_of_ascii c)).
  rewrite ascii_nat_embedding in H. apply H, in_seq. pose proof (nat_ascii_bounded c). lia.
Qed.

Lemma unescaped_small c : unescaped c = true → byte c < 128 ∧ Ascii.eqb c "%" = false ∧ Ascii.eqb c "/" = false.
Proof.
  pose proof (all_bytes (λ c, negb (unescaped c) || ((byte c <? 128) && negb (Ascii.eqb c "%") && negb (Ascii.eqb c "/")))
    ltac:(vm_compute; reflexivity) c) as H.
  cbv beta in H. intros E. rewrite E in H. simpl in H. bool_simp. split_and!; [lia|done..].
Qed.

Lemma hex_byte_encoded c : hex_byte (upper_hex (byte c / 16)) (upper_hex (byte c mod 16)) = Some (byte c).
Proof.
  pose proof (all_bytes (λ c, match hex_byte (upper_hex (byte c / 16)) (upper_hex (byte c mod 16)) with
    Some z => z =? byte c | None => false end) ltac:(vm_compute; reflexivity) c) as H. cbv beta in H.
  destruct (hex_byte _ _) as [z|]; [|done]. by apply Z.eqb_eq in H as ->.
Qed.

Definition pending_octets (pending : option (nat * list Z)) : list ascii :=
  match pending with Some (_, octets) => map of_byte octets | None => [] end.

(** A step keeps every octet. *)
Lemma utf8_step_octets pending c out pending' :
  utf8_step pending (byte c) = Some (out, pending') → pending_octets pending ++ [c] = out ++ pending_octets pending'.
Proof.
  unfold utf8_step. destruct pending as [[n octets]|]; simpl.
  - destruct (_ && _); [|done]. destruct (Nat.eqb n 1).
    + destruct (valid_sequence _); [|done]. intros [= <- <-]. by rewrite map_app, app_nil_r; simpl; rewrite of_byte_byte.
    + intros [= <- <-]. simpl. by rewrite map_app; simpl; rewrite of_byte_byte.
  - destruct (_ <? _); [intros [= <- <-]; simpl; by rewrite of_byte_byte|].
    destruct (sequence_length _); [|done]. intros [= <- <-]. simpl. by rewrite of_byte_byte.
Qed.

Lemma decode_plain c l : Ascii.eqb c "%" = false → decode_component None (c :: l) = cons c <$> decode_component None l.
Proof. by destruct c as [[] [] [] [] [] [] [] []]. Qed.

Lemma decode_encoded l : ∀ pending, utf8 pending l = true →
  decode_component pending (concat (map encode_char l)) = Some (pending_octets pending ++ l).
Proof.
  induction l as [|c l IH]; intros pending; simpl.
  - destruct pending; [done|]. by intros.
  - destruct (utf8_step pending (byte c)) as [[out pending']|] eqn:Es; [|done]. intros Hl.
    pose proof (utf8_step_octets _ _ _ _ Es) as Eo. rewrite cons_middle, app_assoc, Eo, <- app_assoc.
    destruct (unescaped c) eqn:Eu.
    + assert (encode_char c = [c]) as -> by (unfold encode_char; by rewrite Eu). cbn [app]. apply unescaped_small in Eu as (Hb & Hc & _). unfold utf8_step in Es. destruct pending as [[n octets]|].
      { destruct (_ && _) eqn:E; [bool_simp; lia|done]. }
      destruct (byte c <? 128) eqn:E; [|bool_simp; lia]. injection Es as <- <-. rewrite of_byte_byte.
      rewrite decode_plain by done. by rewrite (IH None).
    + assert (encode_char c = escape c) as ->
        by (unfold encode_char; by rewrite Eu). simpl. rewrite hex_byte_encoded. simpl. rewrite Es. by rewrite (IH pending').
Qed.

(** Decoding gives back what a client encoded. *)
Theorem component_round_trip s : utf8 None (list_ascii_of_string s) = true → decodeURIComponent (encodeURIComponent s) = Some s.
Proof.
  intros Hs. unfold decodeURIComponent, encodeURIComponent. rewrite list_ascii_of_string_of_list_ascii.
  rewrite decode_encoded by done. simpl. by rewrite string_of_list_ascii_of_string.
Qed.

(** ** Requests reach their routes *)

(** The path a client asks for: the segments of a route, its parameters encoded. *)
Definition path_part (value : string → string) (segment : string) : string :=
  match param_name segment with Some name => encodeURIComponent (value name) | None => segment end.

Definition request_path (value : string → string) (segments : list string) : string :=
  join_path (map (path_part value) segments).

(** The path the router sees of it: the client's [fetch] has made a URL of it, and
    the server makes one of what it is asked for. *)
Definition received_path (value : string → string) (segments : list string) : string :=
  url_pathname (url_pathname (request_path value segments)).

(** A part of a path that neither ends, splits nor is escaped. *)
Definition url_char (c : ascii) : bool := negb (path_set c) && negb (one_of "/\\" c).
Definition url_part (s : string) : Prop := Forall (λ c, url_char c = true) (list_ascii_of_string s).

Definition dotted (s : string) : bool := single_dot s || double_dot s.

Lemma split_list_part (part rest : list ascii) :
  "/"%char ∉ part → ∃ field fields, split_list "/" rest = field :: fields ∧
    split_list "/" (part ++ rest) = (part ++ field) :: fields.
Proof.
  intros Hp. induction part as [|c part IH]; simpl.
  - destruct (split_list "/" rest) as [|field fields] eqn:E; [|by exists field, fields].
    exfalso. revert E. destruct rest as [|c rest]; simpl; [done|]. by destruct (Ascii.eqb c "/"), (split_list _ _).
  - destruct IH as (field & fields & E1 & E2); [set_solver|]. exists field, fields. split; [done|].
    destruct (Ascii.eqb_spec c "/") as [->|_]; [set_solver|]. by rewrite E2.
Qed.

Lemma url_char_spec c :
  url_char c = true →
  path_set c = false ∧ one_of "?#" c = false ∧ Ascii.eqb c "\" = false ∧ line_end c = false ∧ c ≠ "/"%char.
Proof.
  pose proof (all_bytes (λ c, negb (url_char c) || (negb (path_set c) && negb (one_of "?#" c) &&
    negb (Ascii.eqb c "\") && negb (line_end c) && negb (Ascii.eqb c "/"))) ltac:(vm_compute; reflexivity) c) as H.
  cbv beta in H. intros E. rewrite E in H. cbn [negb orb] in H. bool_simp. split_and!; try done. by apply Ascii.eqb_neq.
Qed.

(** Splitting a path that was put together. *)
Lemma split_join segments : Forall url_part segments → js_split "/" (join_path segments) = "" :: segments.
Proof.
  unfold js_split. induction 1 as [|s segments Hs _ IH]; [done|]. cbn [join_path foldr].
  assert (list_ascii_of_string ("/" +:+ s +:+ join_path segments) =
    "/"%char :: list_ascii_of_string s ++ list_ascii_of_string (join_path segments)) as E
    by (change ("/" +:+ s +:+ join_path segments) with (String "/" (s +:+ join_path segments)); simpl; by rewrite list_ascii_app).
  unfold join_path in E. rewrite E. cbn [split_list]. rewrite Ascii.eqb_refl. cbn [map].
  destruct (split_list_part (list_ascii_of_string s) (list_ascii_of_string (join_path segments))) as (f & fs & E1 & E2).
  { intros Hin. apply (proj1 (Forall_forall _ _) Hs) in Hin. by apply url_char_spec in Hin as (_ & _ & _ & _ & ?). }
  unfold join_path in E2. rewrite E2. unfold join_path in IH, E1. rewrite E1 in IH. cbn [map] in *. injection IH as Ef Efs.
  rewrite Efs. f_equal. f_equal. apply (f_equal list_ascii_of_string) in Ef.
  rewrite list_ascii_of_string_of_list_ascii in Ef. simpl in Ef. by rewrite Ef, app_nil_r, string_of_list_ascii_of_string.
Qed.

Lemma path_segments_join segments :
  Forall url_part segments → path_segments (join_path segments) = List.filter (λ s, negb (String.eqb s "")) segments.
Proof. intros Hs. unfold path_segments. by rewrite split_join. Qed.

Lemma escape_path_part s : url_part s → escape_path s = s.
Proof.
  unfold url_part, escape_path. intros Hs. rewrite <- (string_of_list_ascii_of_string s) at 2. f_equal.
  induction Hs as [|c l Hc _ IH]; [done|]. cbn [map concat]. apply url_char_spec in Hc as (-> & _). simpl. by rewrite IH.
Qed.

Lemma join_chars segments :
  Forall url_part segments →
  Forall (λ c, one_of "?#" c = false ∧ Ascii.eqb c "\" = false ∧ line_end c = false) (list_ascii_of_string (join_path segments)).
Proof.
  induction 1 as [|s segments Hs _ IH]; [constructor|]. cbn [join_path foldr]. fold (join_path segments).
  change (list_ascii_of_string ("/" +:+ s +:+ join_path segments))
    with ("/"%char :: list_ascii_of_string (s +:+ join_path segments)).
  constructor; [done|]. rewrite list_ascii_app. apply Forall_app. split; [|exact IH].
  eapply Forall_impl; [exact Hs|]. by intros c (_ & ? & ? & ? & _)%url_char_spec.
Qed.

(** A path of such parts is parsed as it was put together, but for its dots. *)
Lemma url_pathname_join segments :
  Forall url_part segments →
  url_pathname (join_path segments) = join_path (resolve_dots (match segments with [] => [""] | _ => segments end) []).
Proof.
  intros Hs. unfold url_pathname. pose proof (join_chars segments Hs) as Hc.
  assert (map (λ c, if Ascii.eqb c "\" then "/"%char else c)
      (cut_query (List.filter (λ c, negb (line_end c)) (list_ascii_of_string (join_path segments))))
    = list_ascii_of_string (join_path segments)) as ->.
  { induction Hc as [|c l (Hq & Hb & Hn) _ IH]; [done|]. cbn [List.filter]. rewrite Hn. cbn [negb cut_query].
    rewrite Hq. cbn [map]. by rewrite Hb, IH. }
  rewrite string_of_list_ascii_of_string, split_join by done.
  assert (∀ l, Forall url_part l → map escape_path l = l) as He.
  { induction 1 as [|s l Hx _ IH]; [done|]. cbn [map]. by rewrite escape_path_part, IH. }
  destruct segments as [|s segments]; [done|]. by rewrite He.
Qed.

Lemma resolve_no_dots segments path :
  Forall (λ s, dotted s = false) segments → resolve_dots segments path = path ++ segments.
Proof.
  intros Hs. revert path. induction Hs as [|s segments Hd _ IH]; intros path; [by rewrite app_nil_r|].
  unfold dotted in Hd. apply orb_false_iff in Hd as [H1 H2]. destruct segments as [|s' segments].
  - cbn [resolve_dots]. by rewrite H1, H2.
  - change (resolve_dots (s :: s' :: segments) path)
      with (resolve_dots (s' :: segments) (if double_dot s then removelast path else if single_dot s then path else path ++ [s])).
    rewrite H1, H2, IH, <- app_assoc. done.
Qed.

(** Segments that [path_segments] keeps. *)
Definition named (s : string) : bool := negb (String.eqb s "").
Definition settled (s : string) : Prop := url_part s ∧ dotted s = false.

Lemma settled_parts path : Forall settled path → Forall url_part path.
Proof. intros Hp. eapply Forall_impl; [exact Hp|by intros s [? _]]. Qed.

Lemma settled_last path s : Forall settled path → settled s → Forall settled (path ++ [s]).
Proof. intros. apply Forall_app. split; [done|by constructor]. Qed.

Lemma removelast_named path :
  Forall settled path →
  Forall settled (removelast path) ∧
  (length (List.filter named (removelast path)) <= length (List.filter named path))%nat.
Proof.
  destruct path as [|x path _] using rev_ind; [done|]. rewrite removelast_last, List.filter_app, length_app.
  intros [? _]%Forall_app. split; [done|lia].
Qed.

(** What is resolved has no dots left, and no more names than the names that were
    not dots. *)
Lemma resolve_spec segments : ∀ path,
  Forall settled path → Forall url_part segments →
  Forall settled (resolve_dots segments path) ∧
  (length (List.filter named (resolve_dots segments path)) <= length (List.filter named path) +
     length (List.filter (λ s, named s && negb (dotted s)) segments))%nat.
Proof.
  induction segments as [|s segments IH]; intros path Hp Hs; [split; [done|simpl; lia]|].
  apply Forall_cons in Hs as [Hs Hrest]. destruct (removelast_named path Hp) as [Hr Hl].
  assert (settled "") as He by (by split; [constructor|]).
  assert (dotted s = false → settled s) as Hd by (by split).
  destruct segments as [|s' segments].
  - cbn [resolve_dots List.filter]. unfold dotted in *.
    destruct (double_dot s), (single_dot s); cbn [orb negb andb] in *;
      rewrite ?andb_true_r, ?andb_false_r; (split; [apply settled_last; auto|]);
      rewrite List.filter_app, length_app; simpl; destruct (named s); simpl; lia.
  - change (resolve_dots (s :: s' :: segments) path)
      with (resolve_dots (s' :: segments) (if double_dot s then removelast path else if single_dot s then path else path ++ [s])).
    set (f := λ s, named s && negb (dotted s)) in *. set (rest := List.filter f (s' :: segments)) in *.
    change (List.filter f (s :: s' :: segments)) with (if f s then s :: rest else rest).
    assert (f s = named s && negb (single_dot s || double_dot s)) as -> by done. unfold dotted in Hd.
    destruct (double_dot s) eqn:Ed; [|destruct (single_dot s) eqn:Esd].
    + destruct (IH (removelast path) Hr Hrest) as [H1 H2]. split; [exact H1|]. rewrite orb_true_r, andb_false_r. lia.
    + destruct (IH path Hp Hrest) as [H1 H2]. split; [exact H1|]. rewrite andb_false_r. exact H2.
    + destruct (IH (path ++ [s])) as [H1 H2]; [by apply settled_last; [|apply Hd]|done|]. split; [exact H1|].
      rewrite List.filter_app, length_app in H2. cbn [List.filter orb negb] in *. rewrite andb_true_r.
      destruct (named s); simpl in *; lia.
Qed.

(** A path without dots is left as it is. *)
Lemma path_segments_settled path :
  Forall settled path → path_segments (url_pathname (join_path path)) = List.filter named path.
Proof.
  intros Hp. rewrite url_pathname_join by by apply settled_parts.
  assert (Forall settled (match path with [] => [""] | _ => path end)) as Hq
    by (destruct path; [repeat constructor|done]).
  rewrite resolve_no_dots by (eapply Forall_impl; [exact Hq|by intros s [_ ?]]). simpl.
  rewrite path_segments_join by by apply settled_parts. by destruct path.
Qed.

(** Encoding leaves the dots, and makes no others. *)
Lemma encoded_head c l :
  ∃ x rest, map lower_ascii (encode_char c ++ l) = x :: rest ∧
    (x = "."%char ∧ c = "."%char ∧ rest = map lower_ascii l ∨ x ≠ "."%char ∧ x ≠ "%"%char ∨
     ∃ a b, rest = a :: b :: map lower_ascii l ∧ x = "%"%char ∧ ¬ (a = "2"%char ∧ b = "e"%char)).
Proof.
  pose proof (all_bytes (λ c, match map lower_ascii (encode_char c) with
    | [x] => if Ascii.eqb x "." then Ascii.eqb c "." else negb (Ascii.eqb x "%")
    | [x; a; b] => Ascii.eqb x "%" && negb (Ascii.eqb a "2" && Ascii.eqb b "e")
    | _ => false end) ltac:(vm_compute; reflexivity) c) as H. cbv beta in H. rewrite map_app.
  destruct (map lower_ascii (encode_char c)) as [|x [|a [|b [|]]]]; try done; eexists x, _; (split; [reflexivity|]); simpl app.
  - destruct (Ascii.eqb_spec x ".") as [Hx|Hx].
    + left. split; [exact Hx|]. by apply Ascii.eqb_eq in H.
    + right; left. split; [done|]. by destruct (Ascii.eqb_spec x "%").
  - right; right. exists a, b. bool_simp. split; [done|]. split; [by apply Ascii.eqb_eq|]. by intros [-> ->].
Qed.

Definition encoded_lower (l : list ascii) : list ascii := map lower_ascii (concat (map encode_char l)).

Lemma encoded_lower_nil l : encoded_lower l = [] → l = [].
Proof.
  destruct l as [|c l]; [done|]. unfold encoded_lower. cbn [map concat].
  destruct (encoded_head c (concat (map encode_char l))) as (x & rest & -> & _). done.
Qed.

Lemma encoded_lower_dot l r : encoded_lower l = "."%char :: r → ∃ l', l = "."%char :: l' ∧ encoded_lower l' = r.
Proof.
  destruct l as [|c l]; [done|]. unfold encoded_lower. cbn [map concat].
  destruct (encoded_head c (concat (map encode_char l))) as (x & rest & -> & H). intros [= -> ->].
  destruct H as [(_ & -> & ->)|[[? _]|(? & ? & _ & ? & _)]]; [by exists l|done..].
Qed.

Lemma encoded_lower_escape l r : encoded_lower l ≠ "%"%char :: "2"%char :: "e"%char :: r.
Proof.
  destruct l as [|c l]; [done|]. unfold encoded_lower. cbn [map concat].
  destruct (encoded_head c (concat (map encode_char l))) as (x & rest & -> & H). intros [= -> ->].
  destruct H as [(? & _)|[[_ ?]|(? & ? & [= <- <- _] & _ & H)]]; [done..|by apply H].
Qed.

Lemma dotted_encoded s : dotted (encodeURIComponent s) = true ↔ s = "." ∨ s = "..".
Proof.
  split; [|by intros [->| ->]]. unfold dotted, single_dot, double_dot, ascii_lower, encodeURIComponent.
  rewrite list_ascii_of_string_of_list_ascii. fold (encoded_lower (list_ascii_of_string s)).
  rewrite orb_true_iff, !string_in_spec. intros H.
  assert (string_of_list_ascii (encoded_lower (list_ascii_of_string s)) ∈ ["."; "%2e"; ".."; ".%2e"; "%2e."; "%2e%2e"])
    as Hin by set_solver. clear H.
  assert (∀ text, string_of_list_ascii (encoded_lower (list_ascii_of_string s)) = text →
    encoded_lower (list_ascii_of_string s) = list_ascii_of_string text) as Ht
    by (intros text <-; by rewrite list_ascii_of_string_of_list_ascii).
  assert (∀ text, list_ascii_of_string s = list_ascii_of_string text → s = text) as Hs
    by (intros text E; apply (f_equal string_of_list_ascii) in E; by rewrite !string_of_list_ascii_of_string in E).
  repeat apply elem_of_cons in Hin as [Hin%Ht|Hin]; [..|by apply elem_of_nil in Hin]; cbn in Hin;
    try (by apply encoded_lower_escape in Hin); apply encoded_lower_dot in Hin as (l & E & Hin).
  - left. apply Hs. rewrite E. by apply encoded_lower_nil in Hin as ->.
  - right. apply Hs. rewrite E. apply encoded_lower_dot in Hin as (l' & -> & Hin). by apply encoded_lower_nil in Hin as ->.
  - by apply encoded_lower_escape in Hin.
Qed.

Lemma encoded_part s : url_part (encodeURIComponent s).
Proof.
  unfold encodeURIComponent, url_part. rewrite list_ascii_of_string_of_list_ascii.
  apply Forall_forall. intros x Hx. apply list_elem_of_In, in_concat in Hx as (l & (c & <- & _)%in_map_iff & Hx).
  pose proof (all_bytes (λ c, forallb url_char (encode_char c)) ltac:(vm_compute; reflexivity) c) as H. cbv beta in H.
  rewrite forallb_forall in H. by apply H.
Qed.

Lemma kept_encoded s :
  named (encodeURIComponent s) && negb (dotted (encodeURIComponent s)) = negb (string_in s [""; "."; ".."]).
Proof.
  apply eq_bool_prop_intro. rewrite andb_True, !negb_True, !Is_true_true, string_in_spec.
  rewrite dotted_encoded, !elem_of_cons, elem_of_nil. unfold named. rewrite negb_true_iff, String.eqb_neq.
  assert (encodeURIComponent s = "" ↔ s = "") as ->; [|tauto].
  split; [|by intros ->]. destruct s as [|c s]; [done|].
  unfold encodeURIComponent. cbn [list_ascii_of_string map concat].
  unfold encode_char. by destruct (unescaped c).
Qed.

Lemma filter_all {A} (f : A → bool) l : Forall (λ x, f x = true) l → List.filter f l = l.
Proof. induction 1 as [|x l Hx _ IH]; [done|]. simpl. by rewrite Hx, IH. Qed.

(** The parts of a request that arrive as segments: all, or too few. *)
Lemma kept_parts value segments :
  let kept p := named p && negb (dotted p) in
  let keeps s := if param_name s is Some name then negb (string_in (value name) [""; "."; ".."]) else true in
  (∀ s, s ∈ segments → kept (path_part value s) = keeps s) →
  if forallb keeps segments then Forall (λ p, kept p = true) (map (path_part value) segments)
  else (length (List.filter kept (map (path_part value) segments)) < length segments)%nat.
Proof.
  intros kept keeps. induction segments as [|s segments IH]; intros H; [constructor|]. cbn [forallb map List.filter].
  rewrite (H s) by by left. specialize (IH ltac:(by intros; apply H; right)).
  destruct (keeps s) eqn:Ek; cbn [andb].
  - destruct (forallb keeps segments); [constructor; [by rewrite (H s) by by left|done]|simpl; lia].
  - pose proof (List.filter_length_le kept (map (path_part value) segments)) as Hl. rewrite length_map in Hl. simpl. lia.
Qed.

Lemma match_segments_request value segments : ∀ params,
  Forall (λ s, ∀ name, param_name s = Some name → utf8 None (list_ascii_of_string (value name)) = true) segments →
  ∃ params', match_segments segments (map (path_part value) segments) params = Some params' ∧
    ∀ name, params' !! name = if bool_decide (Some name ∈ map param_name segments) then Some (value name) else params !! name.
Proof.
  induction segments as [|s segments IH]; intros params Hu; [exists params; split; [done|by intros]|].
  apply Forall_cons in Hu as [Hs Hu]. cbn [map match_segments].
  assert (path_part value s = match param_name s with Some name => encodeURIComponent (value name) | None => s end) as -> by done.
  destruct (param_name s) as [name|] eqn:Es.
  - rewrite component_round_trip by by apply Hs.
    destruct (IH (<[name := value name]> params) Hu) as (params' & Hm & Hp). exists params'. split; [done|].
    intros x. rewrite Hp, (bool_decide_ext _ _ (elem_of_cons _ _ _)).
    case_bool_decide as H1; case_bool_decide as H2; [done|by destruct H2; right| |].
    + destruct H2 as [[= ->]|]; [by rewrite lookup_insert_eq|done].
    + apply lookup_insert_ne. intros ->. by destruct H2; left.
  - rewrite String.eqb_refl. destruct (IH params Hu) as (params' & Hm & Hp). exists params'. split; [done|].
    intros x. rewrite Hp, (bool_decide_ext _ _ (elem_of_cons _ _ _)).
    case_bool_decide as H1; case_bool_decide as H2; [done|by destruct H2; right|by destruct H2|done].
Qed.

(** C31: Identifiers that a client encodes the way the SDK does reach the handler as they
    are, whatever their characters: its [fetch] and the server make URLs of the path,
    the path matches the route, and each parameter is the identifier it was.  The
    exceptions are exactly the identifiers [""], ["."] and [".."]: with one of those
    among the parameters the path that arrives does not match the route. *)
Theorem identifiers_reach_handlers value segments :
  Forall (λ s, match param_name s with
               | Some name => utf8 None (list_ascii_of_string (value name)) = true
               | None => settled s ∧ named s = true
               end) segments →
  if forallb (λ s, if param_name s is Some name then negb (string_in (value name) [""; "."; ".."]) else true) segments
  then ∃ params, match_path segments (received_path value segments) = Some params ∧
         ∀ name, params !! name = if bool_decide (Some name ∈ map param_name segments) then Some (value name) else None
  else match_path segments (received_path value segments) = None.
Proof.
  intros Hs. set (parts := map (path_part value) segments).
  assert (Forall url_part parts) as Hparts.
  { apply Forall_map. eapply Forall_impl; [exact Hs|]. intros s H. cbv beta in H. unfold path_part.
    destruct (param_name s); [apply encoded_part|by destruct H as [[? _] _]]. }
  assert (∀ s, s ∈ segments → (named (path_part value s) && negb (dotted (path_part value s)) =
    if param_name s is Some name then negb (string_in (value name) [""; "."; ".."]) else true)) as Hkept.
  { intros s Hin. pose proof (proj1 (Forall_forall _ _) Hs s Hin) as H. cbv beta in H. unfold path_part.
    destruct (param_name s) as [name|]; [apply kept_encoded|]. destruct H as [[_ ->] ->]. done. }
  unfold received_path, request_path. fold parts. rewrite url_pathname_join by done.
  set (ps := match parts with [] => [""] | _ => parts end).
  assert (Forall url_part ps) as Hps by (unfold ps; destruct parts; [repeat constructor|done]).
  destruct (resolve_spec ps []) as [Hset Hlen]; [done..|].
  unfold match_path. rewrite path_segments_settled by done.
  pose proof (kept_parts value segments Hkept) as Hcount. fold parts in Hcount.
  destruct (forallb _ segments) eqn:Hall.
  - assert (List.filter named (resolve_dots ps []) = parts) as ->.
    { rewrite resolve_no_dots; [simpl|].
      - transitivity (List.filter named parts); [unfold ps; by destruct parts|].
        apply filter_all. eapply Forall_impl; [exact Hcount|by intros s [? _]%andb_true_iff].
      - assert (Forall (λ s, dotted s = false) parts)
          by (eapply Forall_impl; [exact Hcount|by intros s [_ ?%negb_true_iff]%andb_true_iff]).
        unfold ps. destruct parts; [repeat constructor|done]. }
    assert (length parts = length segments) as -> by apply length_map. rewrite Nat.eqb_refl. cbn [negb].
    destruct (match_segments_request value segments ∅) as (params & Hm & Hp).
    + eapply Forall_impl; [exact Hs|]. intros s H name E. cbv beta in H. by rewrite E in H.
    + exists params. split; [done|]. intros name. by rewrite Hp.
  - assert (List.filter (λ s, named s && negb (dotted s)) ps = List.filter (λ s, named s && negb (dotted s)) parts) as Ep
      by (unfold ps; by destruct parts).
    rewrite Ep in Hlen. cbn [List.filter length] in Hlen.
    destruct (Nat.eqb_spec (length (List.filter named (resolve_dots ps []))) (length segments)); [lia|done].
Qed.

Definition router_demo_segments : list string := path_segments "/v1/machines/:id/sessions/:sessionId".
Definition router_demo_value (name : string) : string :=
  if String.eqb name "id" then "a/b c" else "m" +:+ string_of_list_ascii [of_byte 195; of_byte 169].
Definition router_dot_value (name : string) : string := if String.eqb name "id" then ".." else "exec".

Lemma identifiers_reach_handlers_witness :
  received_path router_demo_value router_demo_segments = "/v1/machines/a%2Fb%20c/sessions/m%C3%A9" ∧
  (∃ params, match_path router_demo_segments (received_path router_demo_value router_demo_segments) = Some params ∧
    params !! "id" = Some "a/b c") ∧
  received_path router_dot_value router_demo_segments = "/v1/sessions/exec" ∧
  match_path router_demo_segments (received_path router_dot_value router_demo_segments) = None.
Proof.
  assert (router_demo_segments = ["v1"; "machines"; ":id"; "sessions"; ":sessionId"]) as E by (vm_compute; reflexivity).
  split; [vm_compute; reflexivity|].
  pose proof (identifiers_reach_handlers router_demo_value router_demo_segments) as H1.
  pose proof (identifiers_reach_handlers router_dot_value router_demo_segments) as H2.
  rewrite E in *. split_and!; [|vm_compute; reflexivity|].
  - destruct H1 as (params & Hm & Hp); [repeat constructor|]. exists params. split; [exact Hm|].
    rewrite Hp. vm_compute. reflexivity.
  - apply H2. repeat constructor.
Defined.

(** ** Answers *)

Section answers.
Context {S : Type} (audit_denial : string → Z → Act S HandlerError unit).

(** The route that answers is the first whose method and path match. *)
Lemma find_route_spec method pathname (routes : list (Route S)) :
  match find_route method pathname routes with
  | Some (r, params) =>
      ∃ before after, routes = before ++ r :: after ∧ rt_method r = method ∧
        match_path (rt_segments r) pathname = Some params ∧
        ∀ r', r' ∈ before → rt_method r' = method → match_path (rt_segments r') pathname = None
  | None => ∀ r', r' ∈ routes → rt_method r' = method → match_path (rt_segments r') pathname = None
  end.
Proof.
  induction routes as [|r routes IH]; simpl; [intros r' []%elem_of_nil|].
  destruct (String.eqb_spec (rt_method r) method) as [Em|Em]; cbn [negb].
  - destruct (match_path (rt_segments r) pathname) as [params|] eqn:Ep.
    + exists [], routes. split_and!; [done..|by intros r' []%elem_of_nil].
    + destruct (find_route method pathname routes) as [[r0 params]|].
      * destruct IH as (before & after & -> & Hm & Hp & Hb). exists (r :: before), after. split_and!; try done.
        by intros r' [->|H]%elem_of_cons; [|apply Hb].
      * by intros r' [->|H]%elem_of_cons; [|apply IH].
  - destruct (find_route method pathname routes) as [[r0 params]|].
    + destruct IH as (before & after & -> & Hm & Hp & Hb). exists (r :: before), after. split_and!; try done.
      by intros r' [->|H]%elem_of_cons; [|apply Hb].
    + by intros r' [->|H]%elem_of_cons; [|apply IH].
Qed.

(** The router always answers: with what the first matching handler returned,
    after a refusal of it was recorded; with what [error_response] makes of what
    the handler or the record threw, which says nothing of an unexpected error;
    and with 404 only when no route matches. *)
Theorem requests_are_answered routes method target id w :
  let pathname := url_pathname target in
  ∃ response w', handle audit_denial routes method target id w = (Ok response, w') ∧
    match find_route method pathname routes with
    | Some (route, params) =>
        (∃ answer w1, rt_handler route (mkContext pathname params id) w = (Ok answer, w1) ∧
           audit_denial (rt_path route) (rp_status answer) w1 = (Ok tt, w') ∧
           rp_status response = rp_status answer ∧ rp_body response = rp_body answer ∧
           rp_headers response !! "x-request-id" = Some id) ∨
        (∃ e, response = error_response id e ∧
           (rt_handler route (mkContext pathname params id) w = (Err e, w') ∨
            ∃ answer w1, rt_handler route (mkContext pathname params id) w = (Ok answer, w1) ∧
              audit_denial (rt_path route) (rp_status answer) w1 = (Err e, w')))
    | None => response = not_found id ∧ w' = w ∧
        ∀ r, r ∈ routes → rt_method r = method → match_path (rt_segments r) pathname = None
    end.
Proof.
  intros pathname. unfold handle. fold pathname. pose proof (find_route_spec method pathname routes) as Hf.
  destruct (find_route method pathname routes) as [[route params]|]; [|by exists (not_found id), w].
  rewrite act_bind_eq. unfold attempt. rewrite act_bind_eq.
  destruct (rt_handler route (mkContext pathname params id) w) as [[answer|e] w1] eqn:Eh.
  - rewrite act_bind_eq. destruct (audit_denial (rt_path route) (rp_status answer) w1) as [[[]|e] w2] eqn:Ea.
    + eexists _, w2. split; [done|]. left. exists answer, w1. split_and!; try done. apply lookup_insert_eq.
    + eexists _, w2. split; [done|]. right. exists e. split; [done|]. right. by exists answer, w1.
  - eexists _, w1. split; [done|]. right. exists e. split; [done|]. by left.
Qed.
End answers.

(** ** Logs *)

(** The characters a pattern can match. *)
Fixpoint re_within (p : ascii → Prop) (r : re) : Prop :=
  match r with
  | Nul | Eps => True
  | Chr q => ∀ c, q c = true → p c
  | Cat a b | Alt a b => re_within p a ∧ re_within p b
  | Star a => re_within p a
  end.

Lemma lang_within p r l : lang r l → re_within p r → Forall p l.
Proof. induction 1; simpl; intros Hw; try destruct Hw; rewrite ?Forall_app; auto. Qed.

Lemma test_within p r s : test r s = true → re_within p r → Forall p (list_ascii_of_string s).
Proof. intros ?%test_lang. by apply lang_within. Qed.

Lemma within_rep p lo hi q : (∀ c, q c = true → p c) → re_within p (rep lo hi (Chr q)).
Proof.
  intros Hq. split; [induction lo; simpl; auto|]. induction (hi - lo)%nat; simpl; auto.
Qed.

(** Letters, digits and five marks: nothing a line of JSON has to escape. *)
Definition log_char (c : ascii) : Prop := alnum c || one_of "._:-/" c = true.

Lemma log_char_of (q : ascii → bool) :
  forallb (λ n, negb (q (ascii_of_nat n)) || (alnum (ascii_of_nat n) || one_of "._:-/" (ascii_of_nat n))) (seq 0 256) = true →
  ∀ c, q c = true → log_char c.
Proof.
  intros H c Hq. pose proof (all_bytes (λ c, negb (q c) || (alnum c || one_of "._:-/" c)) H c) as Hc.
  cbv beta in Hc. by rewrite Hq in Hc.
Qed.

Ltac log_chars := refine (log_char_of _ _); vm_compute; reflexivity.

Lemma logged_identifier v : test idPattern v = true → Forall log_char (list_ascii_of_string v).
Proof. intros H. apply (test_within _ _ _ H). split; [log_chars|]. apply within_rep. log_chars. Qed.

Lemma logged_path v : test normalizedPathPattern v = true → Forall log_char (list_ascii_of_string v).
Proof.
  intros H. apply (test_within _ _ _ H).
  assert (re_within log_char path_segment) as Hs; [|by split].
  unfold path_segment, many1. simpl. split_and!; try done; log_chars.
Qed.

Lemma logged_enum v : test boundedEnumPattern v = true → Forall log_char (list_ascii_of_string v).
Proof. intros H. apply (test_within _ _ _ H). split; [log_chars|]. apply within_rep. log_chars. Qed.

Lemma logged_error name : Forall log_char (list_ascii_of_string (errorType name)).
Proof.
  assert (Forall log_char (list_ascii_of_string "Error")) as He by by repeat constructor.
  unfold errorType. destruct name as [n|]; [|done]. destruct (test errorNamePattern n) eqn:H; [|done].
  apply (test_within _ _ _ H). split; [log_chars|]. apply within_rep. log_chars.
Qed.

Lemma logged_constant l v :
  forallb (λ s, forallb (λ c, alnum c || one_of "._:-/" c) (list_ascii_of_string s)) l = true →
  string_in v l = true → Forall log_char (list_ascii_of_string v).
Proof.
  intros Hl Hv%string_in_spec. rewrite forallb_forall in Hl. specialize (Hl v ltac:(by apply list_elem_of_In)).
  rewrite forallb_forall in Hl. apply Forall_forall. intros c Hc. by apply Hl, list_elem_of_In.
Qed.

(** A member of a field that lets only some texts pass. *)
Lemma field_passing key p value k v :
  (k, JStr v) ∈ field key (passing p value) → (∀ s, p s = true → Forall log_char (list_ascii_of_string s)) →
  Forall log_char (list_ascii_of_string v).
Proof.
  unfold field, passing. destruct value as [s|]; [|by intros ?%elem_of_nil].
  destruct (negb _ && p s) eqn:E; [|by intros ?%elem_of_nil]. intros [= -> ->]%list_elem_of_singleton H.
  bool_simp. by apply H.
Qed.

Lemma field_number key n k v : (∀ j, n = Some j → ∃ z, j = JNum z) → (k, JStr v) ∈ field key n → False.
Proof.
  unfold field. destruct n as [j|]; [|by intros _ ?%elem_of_nil]. intros H [= -> Hj]%list_elem_of_singleton.
  destruct (H j eq_refl) as [z Hz]. congruence.
Qed.

(** Whatever the context of a log line holds, beyond the time, the level and the
    message every text that leaves the process is made of letters, digits and
    [._:-/]: no header, query, command, quote or line break gets into a record. *)
Theorem log_values_are_plain timestamp level message input key v :
  (key, JStr v) ∈ safeLogRecord timestamp level message input →
  key ∈ ["timestamp"; "level"; "message"] ∨ Forall log_char (list_ascii_of_string v).
Proof.
  unfold safeLogRecord. rewrite !elem_of_app.
  intros [H|[H|[H|[H|[H|[H|[H|[H|[H|[H|H]]]]]]]]]].
  - left. repeat (apply elem_of_cons in H as [[= -> _]|H]; [set_solver|]). by apply elem_of_nil in H.
  - right. apply list_elem_of_In, in_concat in H as (l & Hl & H).
    apply list_elem_of_In in Hl, H. apply elem_of_lookup_zip_with in Hl as (i & k & value & -> & _ & _).
    unfold field, safeIdentifier in H. destruct value as [s|]; [|by apply elem_of_nil in H].
    destruct (test idPattern s) eqn:E; [|by apply elem_of_nil in H]. apply list_elem_of_singleton in H as [= -> ->].
    by apply logged_identifier.
  - right. apply (field_passing _ _ _ _ _ H). intros s. by apply logged_constant.
  - right. apply (field_passing _ _ _ _ _ H), logged_path.
  - exfalso. revert H. apply field_number. intros j. unfold within. destruct (lc_status input) as [[z|]|]; try done.
    destruct (_ && _); [|done]. intros [= <-]. eauto.
  - exfalso. revert H. apply field_number. intros j. unfold rounded. destruct (lc_duration_ms input) as [[n d]|]; [|done].
    destruct (_ <=? _); [|done]. intros [= <-]. eauto.
  - exfalso. revert H. apply field_number. intros j. unfold within. destruct (lc_port input) as [[z|]|]; try done.
    destruct (_ && _); [|done]. intros [= <-]. eauto.
  - right. apply (field_passing _ _ _ _ _ H). intros s. by apply logged_constant.
  - right. apply (field_passing _ _ _ _ _ H), logged_enum.
  - right. apply (field_passing _ _ _ _ _ H), logged_enum.
  - right. unfold field in H. destruct (lc_error input) as [name|]; [|by apply elem_of_nil in H].
    simpl in H. apply list_elem_of_singleton in H as [= _ ->]. apply logged_error.
Qed.

Lemma log_values_are_plain_witness :
  let input := mkLog (replicate 8 None) (Some "TRACE") (Some "/v1/machines/:id") (Some (NInt 200)) (Some (5, 2%positive)) None
                 (Some "prod;uction") (Some "line_break") None (Some (Some "Type Error")) in
  safeLogRecord "1970-01-01T00:00:00.000Z" "info" "request complete" input =
    [("timestamp", JStr "1970-01-01T00:00:00.000Z"); ("level", JStr "info"); ("message", JStr "request complete");
     ("route", JStr "/v1/machines/:id"); ("status", JNum (NInt 200)); ("duration_ms", JNum (NInt 3));
     ("reason", JStr "line_break"); ("error_type", JStr "Error")] ∧
  ("route" ∈ ["timestamp"; "level"; "message"] ∨ Forall log_char (list_ascii_of_string "/v1/machines/:id")).
Proof.
  set (input := mkLog _ _ _ _ _ _ _ _ _ _). cbv zeta.
  assert (safeLogRecord "1970-01-01T00:00:00.000Z" "info" "request complete" input =
    [("timestamp", JStr "1970-01-01T00:00:00.000Z"); ("level", JStr "info"); ("message", JStr "request complete");
     ("route", JStr "/v1/machines/:id"); ("status", JNum (NInt 200)); ("duration_ms", JNum (NInt 3));
     ("reason", JStr "line_break"); ("error_type", JStr "Error")]) as E by (vm_compute; reflexivity).
  split; [exact E|].
  apply (log_values_are_plain "1970-01-01T00:00:00.000Z" "info" "request complete" input). rewrite E.
  apply list_elem_of_In. simpl. tauto.
Defined.
