(* ===== verification/Gateway.v ===== *)
(** * Gateway sessions

    src/apps/nehemiah/src/auth/capability.ts, the session routes of
    src/apps/nehemiah/src/http/routes/machines.ts and the routing route of
    http/routes/internal-hosts.ts: a tenant asks for a token that lets a gateway
    into a machine, a row of [machine_gateway_grants] stands behind it, and the
    gateway asks for the machine's host with what the token claims.  A grant is the
    [GrantRow] of [Identity], which the revocations of identities reach, and the
    rest of its columns, a [GrantBinding]. *)

From S2P Require Import Prelude Text Js NetworkPolicy Capacity Lifecycle Billing Fleet MachineRepo FleetStep RateWindow.
From S2P Require Import StreamAdmission Identity ApiKeys Device DeviceTokens IdentityLifecycle LoginMachine.
From S2P Require Import IdentityStep Awaiting ApiAdmission AuditLog HttpAuth Router.

(** ** Capabilities *)

Definition gatewayCapabilities : list string := ["tty"; "vnc"; "agent"; "files"; "preview"].

Definition canonicalGatewayCapabilities (capabilities : list string) : list string :=
  List.filter (λ c, string_in c capabilities) gatewayCapabilities.

Record CapabilityClaims := mkClaims {
  cc_machineId : string;
  cc_organizationId : string;
  cc_projectId : string;
  cc_leaseId : string;
  cc_capabilities : list string;
  cc_port : option number
}.

(** What is signed, and what a verified token says. *)
Record Jwt := mkJwt {
  jw_subject : option string;
  jw_claims : list (string * json);
  jw_issuer : string;
  jw_audience : string;
  jw_issuedAt : Z;
  jw_expires : Z;
  jw_id : string
}.

(** The package jose, with HS256: [jwtVerify secret issuer audience now] gives
    back what was signed with the secret, for the issuer and the audience, until it
    expires. *)
Class Jose := {
  sign : string → Jwt → string;
  jwtVerify : string → string → string → Z → string → option Jwt;
  jwt_verifies secret t now : now < jw_expires t →
    jwtVerify secret (jw_issuer t) (jw_audience t) now (sign secret t) = Some t
}.

Section tokens.
Context `{Jose}.

(** [issuedAt] is the time in milliseconds. *)
Definition issueCapabilityToken (claims : CapabilityClaims) (secret : string) (ttlSeconds : Z)
    (capabilityId : string) (issuedAt : Z) : result string string :=
  if (ttlSeconds <? 1) || (900 <? ttlSeconds) then Err "capability TTL must be at most 15 minutes"
  else if bool_decide (cc_capabilities claims = []) then Err "at least one capability is required"
  else
    let capabilities := canonicalGatewayCapabilities (cc_capabilities claims) in
    if negb (Nat.eqb (length capabilities) (length (cc_capabilities claims)))
       || existsb (λ c, negb (string_in c gatewayCapabilities)) (cc_capabilities claims)
    then Err "unknown gateway capability"
    else
      let issuedAt := issuedAt / msPerSecond in
      if negb (isSafeInteger (NInt issuedAt)) || (issuedAt <=? 0) then Err "invalid issued-at time"
      else if negb (test uuidPattern capabilityId) then Err "capability ID must be a UUID"
      else Ok (sign secret (mkJwt (Some (cc_machineId claims))
        ([("org", JStr (cc_organizationId claims)); ("project", JStr (cc_projectId claims));
          ("lease", JStr (cc_leaseId claims)); ("cap", JArr (map JStr capabilities))] ++
         match cc_port claims with Some port => [("port", JNum port)] | None => [] end)
        "nehemiah-control-plane" "nehemiah-gateway" issuedAt (issuedAt + ttlSeconds) capabilityId)).

(** The strings of an array of known capabilities. *)
Fixpoint known_capabilities (values : list json) : option (list string) :=
  match values with
  | [] => Some []
  | JStr c :: values => if string_in c gatewayCapabilities then cons c <$> known_capabilities values else None
  | _ :: _ => None
  end.

(** [now] is the gateway's clock in seconds. *)
Definition verifyCapabilityToken (token secret : string) (now : Z) : result string CapabilityClaims :=
  match jwtVerify secret "nehemiah-control-plane" "nehemiah-gateway" now token with
  | None => Err "signature verification failed"
  | Some payload =>
      let claim key := prop key (jw_claims payload) in
      match jw_subject payload, claim "org", claim "project", claim "lease", claim "cap" with
      | Some machine, JStr org, JStr project, JStr lease, JArr cap =>
          match known_capabilities cap with
          | Some capabilities =>
              if String.eqb machine "" then Err "invalid capability claims"
              else Ok (mkClaims machine org project lease capabilities
                     match claim "port" with JNum port => Some port | _ => None end)
          | None => Err "invalid capability claims"
          end
      | _, _, _, _, _ => Err "invalid capability claims"
      end
  end.
End tokens.

(** ** Grants *)

(** The columns of [machine_gateway_grants] that say what a grant is for. *)
Record GrantBinding := mkBinding {
  gb_machine_id : string;
  gb_project_id : string;
  gb_lease_id : string;
  gb_capabilities : list string;
  gb_port : option Z;
  gb_created_at : Z
}.

(** A row is in both maps; one that was deleted is no longer in [grants]. *)
Record GatewayDb := mkGatewayDb {
  gw_identity : IdentityDb;
  gw_bindings : gmap string GrantBinding;
  gw_fleet : FleetDb;
  gw_audit : AuditDb
}.
#[export] Instance GatewayDb_eta : Settable GatewayDb := λ r,
  mkGatewayDb (gw_identity r) (gw_bindings r) (gw_fleet r) (gw_audit r).

#[export] Instance gateway_audit : AuditTables GatewayDb.
Proof. refine {| audit_tables := gw_audit; set_audit_tables d r := mkGatewayDb (gw_identity r) (gw_bindings r) (gw_fleet r) d |}. done. Defined.

(** Roles that let a member into machines. *)
Definition session_roles : list string := ["owner"; "admin"; "member"].

Definition member_in (db : IdentityDb) (organization user : string) : bool :=
  match members db !! (organization, user) with Some role => string_in role session_roles | None => false end.

(** The issuer of a grant still has the authority it was issued with, at [now]: the
    key, the device login, or the membership of the user.  The same conditions are
    written out in both statements. *)
Definition issuer_active (db : IdentityDb) (now : Z) (issuerType issuerId organization project : string) : bool :=
  organization_enabled db organization &&
  if String.eqb issuerType "api_key" then
    match api_keys db !! issuerId with
    | Some k =>
        String.eqb (ak_organization_id k) organization &&
        match ak_project_id k with Some p => String.eqb p project | None => true end &&
        bool_decide (ak_disabled_at k = None) && bool_decide (ak_revoked_at k = None) &&
        match ak_expires_at k with Some e => now <? e | None => true end
    | None => false
    end
  else if String.eqb issuerType "device_family" then
    match families db !! issuerId with
    | Some f =>
        String.eqb (fm_organization_id f) organization && String.eqb (fm_project_id f) project &&
        bool_decide (fm_revoked_at f = None) && (now <? fm_expires_at f) &&
        match devices db !! fm_device_authorization_id f ≫= dv_approved_by with
        | Some user =>
            match users db !! user with
            | Some u => bool_decide (u_disabled_at u = None) && member_in db organization user
            | None => false
            end
        | None => false
        end
    | None => false
    end
  else if String.eqb issuerType "clerk_user" then
    existsb (λ kv, String.eqb (u_clerk_user_id kv.2) issuerId && bool_decide (u_disabled_at kv.2 = None) &&
                   member_in db organization kv.1) (map_to_list (users db))
  else false.

Inductive GrantError := GrantCheckFailed | GrantIdTaken.

Record NewGrant := mkNewGrant {
  ng_id : string;
  ng_machine_id : string;
  ng_organization_id : string;
  ng_project_id : string;
  ng_lease_id : string;
  ng_capabilities : list string;
  ng_port : option Z;
  ng_ttl_seconds : Z;
  ng_issuer_type : string;
  ng_issuer_id : string
}.

(** The checks of db/migrations/0011 and 0019; [btrim] removes spaces. *)
Definition untrimmed (s : string) : bool :=
  match list_ascii_of_string s with
  | [] => false
  | c :: l => Ascii.eqb c " " || Ascii.eqb (List.last l c) " "
  end.

Definition grant_checks (n : NewGrant) : bool :=
  negb (bool_decide (ng_capabilities n = [])) &&
  bool_decide (ng_capabilities n = canonicalGatewayCapabilities (ng_capabilities n)) &&
  Bool.eqb (bool_decide (is_Some (ng_port n))) (string_in "preview" (ng_capabilities n)) &&
  match ng_port n with Some p => (1 <=? p) && (p <=? 65535) | None => true end &&
  string_in (ng_issuer_type n) ["api_key"; "clerk_user"; "device_family"] &&
  negb (String.eqb (ng_issuer_id n) "") && (utf16_length (ng_issuer_id n) <=? 256) && negb (untrimmed (ng_issuer_id n)) &&
  (1 <=? ng_ttl_seconds n).

(** The machine a statement of the session routes finds: running, ready, and not
    expired. *)
Definition live_machine (db : GatewayDb) (now : Z) (machine organization project lease : string) : option MachineRow :=
  match machines (gw_fleet db) !! machine with
  | Some m =>
      if String.eqb (Fleet.organization_id (ident m)) organization && String.eqb (Fleet.project_id (ident m)) project &&
         String.eqb (lease_id (ident m)) lease && bool_decide (mstate m = Running) && ready (life m) &&
         (now <? expires_at (life m))
      then Some m else None
  | None => None
  end.

(** [INSERT INTO machine_gateway_grants ... RETURNING created_at, expires_at],
    when the machine's lease and the issuer's authority are still there.  The clock
    of the statement is cut to seconds. *)
Definition insert_session_grant (now : Z) (n : NewGrant) : Tx GatewayDb GrantError (option (Z * Z)) := λ db,
  let issued := now / msPerSecond * msPerSecond in
  match live_machine db issued (ng_machine_id n) (ng_organization_id n) (ng_project_id n) (ng_lease_id n) with
  | None => Ok (None, db)
  | Some _ =>
      if negb (issuer_active (gw_identity db) issued (ng_issuer_type n) (ng_issuer_id n) (ng_organization_id n)
                 (ng_project_id n))
      then Ok (None, db)
      else if negb (grant_checks n) then Err GrantCheckFailed
      else if bool_decide (is_Some (grants (gw_identity db) !! ng_id n)) then Err GrantIdTaken
      else
        let expires := issued + ng_ttl_seconds n * msPerSecond in
        Ok (Some (issued, expires),
            db <| gw_identity ::= λ i, i <| grants ::= <[ng_id n := mkGrant (ng_issuer_type n) (ng_issuer_id n)
                    (ng_organization_id n) expires None]> |> |>
               <| gw_bindings ::= <[ng_id n := mkBinding (ng_machine_id n) (ng_project_id n) (ng_lease_id n)
                    (ng_capabilities n) (ng_port n) issued]> |>)
  end.

(** [UPDATE ... SET revoked_at = COALESCE(...) ... RETURNING id] *)
Definition revoke_session (now : Z) (session machine organization project : string) : Tx GatewayDb GrantError bool := λ db,
  let id := uuid_text session in
  match grants (gw_identity db) !! id, gw_bindings db !! id with
  | Some g, Some b =>
      if String.eqb (gb_machine_id b) machine && String.eqb (gr_organization_id g) organization &&
         String.eqb (gb_project_id b) project
      then Ok (true, db <| gw_identity ::= λ i, i <| grants ::= <[id := revoke_grant now g]> |> |>)
      else Ok (false, db)
  | _, _ => Ok (false, db)
  end.

(** ** Routes *)

(** What a gateway says of a token it verified. *)
Record RouteScope := mkScope {
  rs_capability : string;
  rs_capabilityId : string;
  rs_capabilities : list string;
  rs_organizationId : string;
  rs_projectId : string;
  rs_leaseId : string;
  rs_expiresAt : Z;
  rs_port : option Z
}.

Record RouteRow := mkRouteRow {
  ro_host_id : string;
  ro_host_address : string;
  ro_host_machine_id : option string;
  ro_lease_id : string;
  ro_organization_id : string;
  ro_project_id : string;
  ro_expires_at : Z;
  ro_capability_id : string;
  ro_capabilities : list string;
  ro_capability_port : option Z;
  ro_capability_expires_at : Z
}.

Definition heartbeatWindow : Z := 30 * msPerSecond.

(** The host of the machine, if it serves. *)
Definition serving_host (db : GatewayDb) (now : Z) (m : MachineRow) : option (string * HostRow) :=
  host ← host_id (place m);
  h ← hosts (gw_fleet db) !! host;
  if bool_decide (h_state h = HostReady ∨ h_state h = HostDraining) &&
     string_in (desired_state h) ["active"; "draining"] && String.eqb (credential_status h) "active" &&
     match last_heartbeat_at h with Some t => now - heartbeatWindow <? t | None => false end
  then Some (host, h) else None.

(** The grant is the one the scope describes, and stands. *)
Definition grant_matches (now : Z) (machine : string) (scope : RouteScope) (g : GrantRow) (b : GrantBinding) : bool :=
  String.eqb (gb_machine_id b) machine &&
  String.eqb (gr_organization_id g) (uuid_text (rs_organizationId scope)) &&
  String.eqb (gb_project_id b) (uuid_text (rs_projectId scope)) &&
  String.eqb (gb_lease_id b) (uuid_text (rs_leaseId scope)) &&
  string_in (rs_capability scope) (gb_capabilities b) && bool_decide (gb_capabilities b = rs_capabilities scope) &&
  bool_decide (gb_port b = rs_port scope) && (gr_expires_at g =? rs_expiresAt scope) &&
  bool_decide (gr_revoked_at g = None) && (now <? gr_expires_at g).

(** The query of [GET /internal/v1/routing/machines/:id]. *)
Definition resolve_route (now : Z) (machine : string) (scope : RouteScope) (db : GatewayDb) : option RouteRow :=
  let id := uuid_text (rs_capabilityId scope) in
  g ← grants (gw_identity db) !! id;
  b ← gw_bindings db !! id;
  if negb (grant_matches now machine scope g b) then None
  else
    m ← live_machine db now machine (gr_organization_id g) (gb_project_id b) (gb_lease_id b);
    '(host, h) ← serving_host db now m;
    if issuer_active (gw_identity db) now (gr_issuer_type g) (gr_issuer_id g) (gr_organization_id g) (gb_project_id b)
    then Some (mkRouteRow host (h_address h) (host_machine_id (place m)) (gb_lease_id b) (gr_organization_id g)
                 (gb_project_id b) (Z.min (expires_at (life m)) (gr_expires_at g)) id (gb_capabilities b) (gb_port b)
                 (gr_expires_at g))
    else None.

(** ** Session routes *)

(** What [readJson] gave is read as an object: a property of [null] throws. *)
Definition body_prop (key : string) (body : json) : result HandlerError json :=
  match body with
  | JNull | JUndefined => Err (Unexpected None "TypeError")
  | JObj fields => Ok (prop key fields)
  | _ => Ok JUndefined
  end.

(** [value ?? fallback] *)
Definition or_else (v fallback : json) : json := match v with JUndefined | JNull => fallback | _ => v end.

Definition number_of (v : json) : option number := match v with JNum n => Some n | _ => None end.

Record SessionTerms := mkTerms {
  se_capabilities : list string;
  se_port : option Z;
  se_ttl : Z
}.

(** The validation of [POST /v1/machines/:id/sessions]: the terms, or the problem
    the route answers with. *)
Definition session_terms (requestId : string) (capabilities port ttl : json) : Response + SessionTerms :=
  let refuse (status : Z) (code detail : string) := inl (problem status code detail requestId []) in
  match match capabilities with JUndefined => JArr [JStr "tty"] | _ => capabilities end with
  | JArr values =>
      if bool_decide (values = []) then refuse 400 "invalid_capability" "An unknown capability was requested."
      else
        match known_capabilities values with
        | None => refuse 400 "invalid_capability" "An unknown capability was requested."
        | Some requested =>
            let capabilities := canonicalGatewayCapabilities (new_Set [] requested) in
            if string_in "agent" capabilities
            then refuse 501 "not_supported" "Managed host-local LLM agents are not supported. Run an agent inside the guest through exec, TTY, and file primitives."
            else
              let valid := number_of port ≫= safe_between 1 65535 in
              if string_in "preview" capabilities && bool_decide (valid = None)
              then refuse 400 "invalid_port" "Preview sessions require a valid port."
              else if negb (string_in "preview" capabilities) && match port with JUndefined => false | _ => true end
              then refuse 400 "invalid_port" "port is only valid for preview sessions."
              else
                match number_of (or_else ttl (JNum (NInt 300))) ≫= safe_between 1 900 with
                | Some ttl => inr (mkTerms capabilities valid ttl)
                | None => refuse 400 "invalid_ttl" "ttl_seconds must be an integer from 1 to 900."
                end
        end
  | _ => refuse 400 "invalid_capability" "capabilities must be a nonempty array."
  end.

(** Whom the grant is issued for. *)
Definition session_issuer (principal : Principal) : string * string :=
  match principal with
  | UserPrincipal clerkUserId _ _ => ("clerk_user", clerkUserId)
  | KeyPrincipal p =>
      match truthy_text (pr_device_family_id p) with
      | Some family => ("device_family", family)
      | None => ("api_key", default (pr_api_key_id p) (pr_device_family_id p))
      end
  end.

Definition principal_organization (principal : Principal) : string :=
  match principal with KeyPrincipal p => pr_organization_id p | UserPrincipal _ organization _ => organization end.

(** [auditActor] *)
Definition auditActor (principal : Principal) (userAgent : option string) (requestId projectId : string) : AuditActor :=
  mkActor (Some (principal_organization principal)) (Some projectId)
    match principal with KeyPrincipal _ => "api_key" | UserPrincipal _ _ _ => "user" end
    (Some match principal with KeyPrincipal p => pr_api_key_id p | UserPrincipal user _ _ => user end)
    (Some requestId) userAgent.

(** MachineSessionLeaseUnavailable *)
Definition lease_unavailable : HandlerError :=
  Unexpected (Some "machine_session_lease_unavailable") "MachineSessionLeaseUnavailable".

(** What the audit sees of an error. *)
Definition thrown_value (e : HandlerError) : ThrownValue :=
  match e with
  | RateLimitExceeded _ => mkThrown (Some "rate_limit_exceeded") (Some "ApiRateLimitExceeded")
  | AdmissionUnavailable => mkThrown (Some "api_admission_unavailable") (Some "ApiAdmissionUnavailable")
  | RequestRejected (mkHttpRequestError _ code _) => mkThrown (Some code) (Some "HttpRequestError")
  | AuditCompletionUnavailable => mkThrown (Some "audit_completion_unavailable") (Some "AuditCompletionUnavailable")
  | Unexpected code class => mkThrown code (Some class)
  end.

(** Errors of the statements: the class and the codes of the driver. *)
#[export] Instance grant_thrown : Thrown GrantError HandlerError := {|
  thrown e := Unexpected (Some match e with GrantCheckFailed => "23514" | GrantIdTaken => "23505" end) "DatabaseError";
  connection_lost := Unexpected None "Error"
|}.
#[export] Instance audit_thrown : Thrown AuditDbError HandlerError := {|
  thrown e := Unexpected (Some "23505") "DatabaseError";
  connection_lost := Unexpected None "Error"
|}.

(** What a request to these routes brings: who sends it, as [authenticate] found,
    and its body, as [readJson] did. *)
Record MachineRequest := mkMachineRequest {
  mq_principal : option Principal;
  mq_user_agent : option string;
  mq_request_id : string;
  mq_body : result HandlerError json
}.

Section routes.
Context `{Jose} {C : Type} (schedule : nat → Turn GatewayDb) (sha256 : string → string).
(** Of a deployment: the secret, the gateway's address, and the URL a preview is
    reached at, by machine, lease, port and token. *)
Context (gatewaySecret gatewayPublicUrl : string) (previewUrl : string → string → Z → string → string).

Abbreviation RouteAct := (Act (World GatewayDb C) HandlerError).

Definition captured {X} (input : AuditOperation X) (operation : RouteAct X) : RouteAct X :=
  capture schedule sha256 thrown_value (λ _, AuditCompletionUnavailable) input operation.

Definition owned (request : MachineRequest) (id scope : string) : RouteAct (option (Principal * MachineRow)) :=
  match mq_principal request with
  | Some principal =>
      if negb (permits principal scope) then mret None
      else
        found ← query schedule (λ _ db, find (gw_fleet db) id (principal_organization principal) (projectFor principal None));
        mret ((λ m, (principal, m)) <$> (found : option MachineRow))
  | None => mret None
  end.

(** The operation of the capture: the grant, then the token. *)
Definition grant_session (id : string) (terms : SessionTerms) (principal : Principal) (machine : string)
    (m : MachineRow) : RouteAct string :=
  let '(issuerType, issuerId) := session_issuer principal in
  let organization := Fleet.organization_id (ident m) in
  let project := Fleet.project_id (ident m) in
  persisted ← await schedule (λ t, insert_session_grant (t_clock t)
    (mkNewGrant id machine organization project (lease_id (ident m)) (se_capabilities terms) (se_port terms)
       (se_ttl terms) issuerType issuerId));
  match (persisted : option (Z * Z)) with
  | None => athrow lease_unavailable
  | Some (created, _) =>
      match issueCapabilityToken (mkClaims machine organization project (lease_id (ident m)) (se_capabilities terms)
                                    (NInt <$> se_port terms)) gatewaySecret (se_ttl terms) id created with
      | Ok token => mret token
      | Err _ => athrow (Unexpected None "Error")
      end
  end.

(** [POST /v1/machines/:id/sessions] *)
Definition create_session (request : MachineRequest) (machine : string) : RouteAct Response :=
  let refuse (status : Z) (code detail : string) := problem status code detail (mq_request_id request) [] in
  result ← owned request machine "machines:write";
  match (result : option (Principal * MachineRow)) with
  | None => mret (refuse 404 "not_found" "Machine not found.")
  | Some (principal, m) =>
      let actor := auditActor principal (mq_user_agent request) (mq_request_id request) (Fleet.project_id (ident m)) in
      if negb (ready (life m)) then
        _ ← record schedule sha256 (mkAuditRecord actor None "machine.session.issue" "denied" (Some "machine_not_ready")
              (Some "machine") (Some machine) None);
        mret (refuse 409 "machine_not_ready" "The guest agent is not ready.")
      else
        body ← lift (mq_body request);
        capabilities ← lift (body_prop "capabilities" body);
        port ← lift (body_prop "port" body);
        ttl ← lift (body_prop "ttl_seconds" body);
        match session_terms (mq_request_id request) capabilities port ttl with
        | inl response => mret response
        | inr terms =>
            t ← draw schedule;
            let id := t_random t 0 in
            let metadata := JObj ([("capabilities", JArr (map JStr (se_capabilities terms)))] ++
              match se_port terms with Some p => [("port", JNum (NInt p))] | None => [] end ++
              [("ttl_seconds", JNum (NInt (se_ttl terms)))]) in
            issued ← attempt (captured
              (mkOperation actor None "machine.session.issue" (Some "machine") (Some machine) (Some metadata) None None None)
              (grant_session id terms principal machine m));
            match (issued : Prelude.result HandlerError string) with
            | Err e =>
                match e with
                | Unexpected _ class =>
                    if String.eqb class "MachineSessionLeaseUnavailable"
                    then mret (refuse 409 "machine_lease_changed" "The machine lease changed while the session was being issued.")
                    else athrow e
                | _ => athrow e
                end
            | Ok token =>
                mret (json_response (JObj ([("id", JStr id); ("token", JStr token); ("expires_in", JNum (NInt (se_ttl terms)));
                    ("gateway_url", JStr gatewayPublicUrl)] ++
                  match se_port terms with
                  | Some p => [("preview_url", JStr (previewUrl machine (lease_id (ident m)) p token))]
                  | None => []
                  end)) 200 [("cache-control", "no-store")])
            end
        end
  end.

(** [DELETE /v1/machines/:id/sessions/:sessionId] *)
Definition delete_session (request : MachineRequest) (machine session : string) : RouteAct Response :=
  let missing := problem 404 "not_found" "Machine session not found." (mq_request_id request) [] in
  result ← owned request machine "machines:write";
  match (result : option (Principal * MachineRow)) with
  | None => mret missing
  | Some (principal, m) =>
      if negb (test uuidPattern session) then mret missing
      else
        revoked ← captured
          (mkOperation (auditActor principal (mq_user_agent request) (mq_request_id request) (Fleet.project_id (ident m)))
             None "machine.session.revoke" (Some "machine_session") (Some session) None None None None)
          (await schedule (λ t, revoke_session (t_clock t) session machine (Fleet.organization_id (ident m))
             (Fleet.project_id (ident m))));
        mret (if (revoked : bool) then mkResponse 204 {["cache-control" := "no-store"]} None else missing)
  end.
End routes.

(** ** The routing route *)

(** The headers of [GET /internal/v1/routing/machines/:id]. *)
Record RouteRequest := mkRouteRequest {
  rq_authorization : option string;
  rq_capability : option string;
  rq_capability_id : option string;
  rq_capabilities : option string;
  rq_organization_id : option string;
  rq_project_id : option string;
  rq_lease_id : option string;
  rq_expires_at : option string;
  rq_port : option string;
  rq_stream_id : option string;
  rq_stream_instance_id : option string;
  rq_stream_bandwidth : option string
}.

(** [bearer] *)
Definition route_bearer (authorization : option string) : option string :=
  match authorization with
  | Some value => if starts_with "Bearer " value then Some (js_trim (drop 7 value)) else None
  | None => None
  end.

(** [equal]: whatever it takes to compare them takes the same time. *)
Definition equal (left : option string) (right : string) : bool :=
  match truthy_text left with Some l => String.eqb l right | None => false end.

Definition uuid_header (value : option string) : option string :=
  match truthy_text value with Some v => if test uuidPattern v then Some v else None | None => None end.

(** [Number(header)], where an absent header is [null]. *)
Definition number_header (value : option string) : number := match value with Some v => js_Number v | None => NInt 0 end.

Section scope.
(** [new Date(text).getTime()], when that is a time. *)
Context (parse_date : string → option Z).

(** The scope a request claims and the stream it wants, if all of it is there. *)
Definition route_scope (q : RouteRequest) : option (RouteScope * StreamAdmissionRequest) :=
  let requested := match rq_capabilities q with Some text => js_split "," text | None => [] end in
  let capabilities := canonicalGatewayCapabilities (List.filter (λ c, string_in c gatewayCapabilities) requested) in
  capability ← truthy_text (rq_capability q);
  if negb (string_in capability gatewayCapabilities) then None else
  capabilityId ← uuid_header (rq_capability_id q);
  organizationId ← uuid_header (rq_organization_id q);
  projectId ← uuid_header (rq_project_id q);
  leaseId ← uuid_header (rq_lease_id q);
  if bool_decide (requested = []) || negb (Nat.eqb (length requested) (length capabilities))
     || negb (bool_decide (rq_capabilities q = Some (join "," capabilities)))
     || negb (string_in capability capabilities) then None else
  expiresAt ← truthy_text (rq_expires_at q) ≫= parse_date;
  if negb (expiresAt mod msPerSecond =? 0) then None else
  streamId ← uuid_header (rq_stream_id q);
  instanceId ← truthy_text (rq_stream_instance_id q);
  match safe_between 1 1073741824 (number_header (rq_stream_bandwidth q)) with
  | None => None
  | Some _ =>
      let port := rq_port q ≫= λ text, safe_between 1 65535 (js_Number text) in
      if (if string_in "preview" capabilities then bool_decide (port = None) else bool_decide (is_Some (rq_port q)))
      then None
      else Some (mkScope capability capabilityId capabilities organizationId projectId leaseId expiresAt port,
                 mkStreamRequest streamId organizationId projectId "machine_capability" capabilityId instanceId
                   (number_header (rq_stream_bandwidth q)))
  end.
End scope.

(** What the services of the route throw: a refusal of [StreamAdmission], or
    anything else. *)
Inductive RouteError :=
| StreamRefused (e : StreamError)
| RouteFailed (e : HandlerError).

(** The services behind the route, over any state: [StreamAdmissionService] and its
    leases [L], the query of the route and [HostService.gatewayCredential]. *)
Record RouteServices (S L : Type) := mkRouteServices {
  admitRouteRequest : StreamAdmissionRequest → Act S RouteError unit;
  queryRoute : string → RouteScope → Act S RouteError (option RouteRow);
  gatewayCredential : string → Act S RouteError (option string);
  acquireStream : StreamAdmissionRequest → Act S RouteError L;
  leaseJson : L → list (string * json)
}.
Arguments mkRouteServices {S L}.
Arguments admitRouteRequest {S L}.
Arguments queryRoute {S L}.
Arguments gatewayCredential {S L}.
Arguments acquireStream {S L}.
Arguments leaseJson {S L}.

Section routing.
Context {S L : Type} (services : RouteServices S L) (stream_admission : bool).
Context (parse_date : string → option Z) (iso : Z → string) (gatewayToken : string).

(** Errors that are not refusals of streams pass. *)
Definition route_failed (e : RouteError) : HandlerError :=
  match e with StreamRefused _ => Unexpected None "Error" | RouteFailed e => e end.

Definition uncaught {A} (m : Act S RouteError A) : Act S HandlerError A := λ s,
  match m s with (Ok a, s) => (Ok a, s) | (Err e, s) => (Err (route_failed e), s) end.

(** The stream is counted again as the one of the row that was found. *)
Definition stream_of (request : StreamAdmissionRequest) (r : RouteRow) : StreamAdmissionRequest :=
  mkStreamRequest (sr_id request) (ro_organization_id r) (ro_project_id r) "machine_capability" (ro_capability_id r)
    (sr_instance_id request) (sr_bandwidth request).

Definition route_json (r : RouteRow) (lease : L) (hostToken : string) : json :=
  JObj ([("host_address", JStr (ro_host_address r));
         ("host_machine_id", from_option JStr JNull (ro_host_machine_id r));
         ("lease_id", JStr (ro_lease_id r)); ("organization_id", JStr (ro_organization_id r));
         ("project_id", JStr (ro_project_id r)); ("expires_at", JStr (iso (ro_expires_at r)));
         ("capability_id", JStr (ro_capability_id r)); ("capabilities", JArr (map JStr (ro_capabilities r)))] ++
        match ro_capability_port r with Some p => [("capability_port", JNum (NInt p))] | None => [] end ++
        [("capability_expires_at", JStr (iso (ro_capability_expires_at r)))] ++ leaseJson services lease ++
        [("host_token", JStr hostToken)]).

(** From the row that was found to the answer. *)
Definition route_found (requestId : string) (stream : StreamAdmissionRequest) (r : RouteRow) : Act S HandlerError Response :=
  let refuse (status : Z) (code detail : string) := problem status code detail requestId [] in
  hostToken ← uncaught (gatewayCredential services (ro_host_id r));
  match truthy_text (hostToken : option string) with
  | None => mret (refuse 502 "host_credential_unavailable" "The host route is not usable.")
  | Some hostToken =>
      acquired ← attempt (acquireStream services (stream_of stream r));
      match (acquired : Prelude.result RouteError L) with
      | Ok lease => mret (json_response (route_json r lease hostToken) 200 [("cache-control", "no-store")])
      | Err (StreamRefused StreamAdmissionRejected) =>
          mret (refuse 429 "stream_quota_exceeded" "The organization or project stream quota is exhausted.")
      | Err (StreamRefused (InvalidStreamAdmission message)) => mret (refuse 400 "invalid_stream_admission" message)
      | Err e => athrow (route_failed e)
      end
  end.

Definition route_machine (requestId machine : string) (q : RouteRequest) : Act S HandlerError Response :=
  let refuse (status : Z) (code detail : string) := problem status code detail requestId [] in
  if negb (equal (route_bearer (rq_authorization q)) gatewayToken)
  then mret (refuse 401 "unauthorized" "The gateway credential is invalid.")
  else
    match route_scope parse_date q with
    | None =>
        mret (refuse 400 "invalid_route_capability" "The complete signed capability scope and exact preview port are required.")
    | Some (scope, stream) =>
        if negb stream_admission
        then mret (refuse 503 "stream_admission_unavailable" "Global stream admission is unavailable.")
        else
          admitted ← attempt (admitRouteRequest services stream);
          match (admitted : Prelude.result RouteError unit) with
          | Err (StreamRefused (StreamRequestRateExceeded seconds)) =>
              mret (set_header "retry-after" (pretty seconds)
                (problem 429 "stream_request_rate_exceeded" "The capability request rate limit has been reached." requestId
                   [("retry_after_seconds", JNum (NInt seconds))]))
          | Err (StreamRefused (InvalidStreamAdmission message)) => mret (refuse 400 "invalid_stream_admission" message)
          | Err e => athrow (route_failed e)
          | Ok _ =>
              route ← uncaught (queryRoute services machine scope);
              match (route : option RouteRow) with
              | None => mret (refuse 404 "route_not_found" "No live route exists for this machine.")
              | Some r => route_found requestId stream r
              end
          end
    end.
End routing.

(** * What holds of sessions *)

(** ** Grants are only revoked and deleted *)

Record grant_le (g g' : GrantRow) : Prop := {
  gl_type : gr_issuer_type g' = gr_issuer_type g;
  gl_issuer : gr_issuer_id g' = gr_issuer_id g;
  gl_organization : gr_organization_id g' = gr_organization_id g;
  gl_expires : gr_expires_at g' = gr_expires_at g;
  gl_revoked : is_Some (gr_revoked_at g) → gr_revoked_at g' = gr_revoked_at g
}.

#[export] Instance grant_le_preorder : PreOrder grant_le.
Proof.
  split; [done|]. intros a b c [] []. split; try congruence.
  intros Ha. rewrite gl_revoked1; rewrite gl_revoked0; done.
Qed.

Lemma revoke_grant_le now g : grant_le g (revoke_grant now g).
Proof. split; try done. unfold revoke_grant. simpl. by intros [t ->]. Qed.

Definition grants_move (m m' : gmap string GrantRow) : Prop := ∀ id g',
  m' !! id = Some g' → ∃ g, m !! id = Some g ∧ grant_le g g'.

#[export] Instance grants_move_preorder : PreOrder grants_move.
Proof.
  split; [by intros m id g Hg; exists g|]. intros a b c Hab Hbc id g3 H3.
  destruct (Hbc id g3 H3) as (g2 & H2 & ?), (Hab id g2 H2) as (g1 & H1 & ?). exists g1. split; [done|by etrans].
Qed.

Lemma revoke_grants_move now p db : grants_move (grants db) (grants (revoke_grants now p db)).
Proof.
  intros id g'. unfold revoke_grants. simpl. rewrite lookup_fmap. intros (g & -> & ->)%fmap_Some.
  exists g. split; [done|]. destruct (p g); [apply revoke_grant_le|done].
Qed.

Lemma revoke_key_grants_move now id organization db : grants_move (grants db) (grants (revoke_key_grants now id organization db)).
Proof. unfold revoke_key_grants. apply revoke_grants_move. Qed.

Lemma revoke_issued_move now id organization db : grants_move (grants db) (grants (revoke_issued now id organization db)).
Proof. unfold revoke_issued. etrans; apply revoke_key_grants_move. Qed.

Section moves.
Context (sha256 digest lookup : string → string) (drawn : string → Prop).

Lemma keys_grants_move now event op id organization disabled actor cx db b db' :
  setDisabled sha256 now event op id organization disabled actor cx db = Ok (b, db') → grants_move (grants db) (grants db').
Proof.
  unfold setDisabled. destruct (negb (key_administrator _ _ _)); [done|].
  destruct (own_key db id organization) as [k|]; [|by intros [= _ <-]].
  destruct (negb (unrevoked k)); [by intros [= _ <-]|]. intros H. tx_simp. audit_done. subst. simpl.
  destruct disabled; (case_match; [|done]); [|done].
  change (grants db) with (grants (with_key (uuid_text id) (λ k, k <| ak_disabled_at := Some now |>) db)).
  apply revoke_issued_move.
Qed.

Lemma rotate_grants_move now op id organization r actor cx db b db' :
  rotate_store sha256 now op id organization r actor cx db = Ok (b, db') → grants_move (grants db) (grants db').
Proof.
  unfold rotate_store, catching. intros. open_tx; try reflexivity.
  match goal with H : insert_key _ _ _ = Ok _ |- _ => apply insert_key_Ok in H as [-> _] end. simpl.
  change (grants db) with (grants (with_key (uuid_text id) (rotated_key now) db)). apply revoke_issued_move.
Qed.

Lemma revoke_store_grants_move now op id organization actor cx db b db' :
  revoke_store sha256 now op id organization actor cx db = Ok (b, db') → grants_move (grants db) (grants db').
Proof.
  unfold revoke_store. destruct (negb (key_administrator _ _ _)); [done|].
  destruct (own_key db id organization) as [k|]; [|by intros [= _ <-]]. intros [= _ <-].
  exact (revoke_issued_move now id organization
    (with_key (uuid_text id) (λ k, k <| ak_revoked_at := coalesce (ak_revoked_at k) (Some now) |>) db)).
Qed.

Lemma end_family_grants_move clock now id f mark db :
  grants_move (grants db) (grants (end_family clock now id f mark db)).
Proof. unfold end_family. etrans; [|apply revoke_grants_move]. done. Qed.

Lemma invalidate_grants_move clock now event id f cx db x db' :
  revokeFamilyForIdentity sha256 clock now event id f cx db = Ok (x, db') → grants_move (grants db) (grants db').
Proof.
  unfold revokeFamilyForIdentity. destruct (match families db !! id with Some _ => _ | None => _ end).
  - intros ->%insert_audit_Ok. simpl. etrans; [|apply revoke_grants_move]. done.
  - intros [= _ <-]. etrans; [|apply revoke_grants_move]. done.
Qed.

Lemma refresh_grants_move clock now id t cx db o db' :
  refresh_tx sha256 digest clock now id t cx db = Ok (o, db') → grants_move (grants db) (grants db').
Proof.
  unfold refresh_tx. destruct (refresh_of db id) as [[r f]|]; [|by intros [= _ <-]].
  destruct (negb (refresh_live clock (r, f))); [by intros [= _ <-]|].
  destruct (approver db f) as [user|]; [|by intros [= _ <-]].
  destruct (bool_decide (is_Some (rt_used_at r))).
  { intros H. tx_simp. subst. case_match; audit_done; tx_simp; subst; apply end_family_grants_move. }
  destruct (negb (identityPermits _ _ _ _)).
  { intros H. tx_simp. subst. by eapply invalidate_grants_move. }
  destruct (clock <? _); [by intros [= _ <-]|].
  destruct (MAXIMUM_REFRESH_GENERATION <=? rt_generation r).
  { intros H. tx_simp. audit_done. subst. apply end_family_grants_move. }
  unfold rotated. intros Htx. tx_simp. audit_done. subst.
  match goal with H : insert_refresh_token _ _ _ = Ok _ |- _ => apply insert_refresh_token_Ok in H as (_ & ->) end.
  match goal with H : insert_access_token _ _ _ = Ok _ |- _ => apply insert_access_token_Ok in H as (_ & ->) end. done.
Qed.

Lemma revoke_tx_grants_move clock now id event cx db b db' :
  revoke_tx sha256 clock now id event cx db = Ok (b, db') → grants_move (grants db) (grants db').
Proof.
  unfold revoke_tx. destruct (refresh_of db id) as [[r f]|]; [|by intros [= _ <-]].
  destruct (refresh_live clock (r, f)); [|by intros [= _ <-]]. intros. tx_simp. audit_done. subst.
  apply end_family_grants_move.
Qed.

Lemma access_grants_move clock now raw id event cx db p db' :
  access_tx sha256 digest clock now raw id event cx db = Ok (p, db') → grants_move (grants db) (grants db').
Proof.
  unfold access_tx. destruct (access_of _ _) as [[a f]|]; [|by intros [= _ <-]].
  destruct (negb (access_live clock (a, f))); [by intros [= _ <-]|].
  destruct (approver db f) as [user|]; [|by intros [= _ <-]].
  destruct (negb (equalDigest _ _ _)); [by intros [= _ <-]|].
  destruct (negb (identityPermits _ _ _ _)); [|by intros [= _ <-]].
  intros H. tx_simp. subst. by eapply invalidate_grants_move.
Qed.

Lemma disable_user_grants_move now user db : grants_move (grants db) (grants (disable_user now user db)).
Proof.
  unfold disable_user, revoke_user_dependents. case_match; [|done]. etrans; [|apply revoke_grants_move]. done.
Qed.

Lemma disable_organization_grants_move now organization db :
  grants_move (grants db) (grants (disable_organization now organization db)).
Proof. unfold disable_organization, revoke_organization_dependents. etrans; [|apply revoke_grants_move]. done. Qed.

Lemma apply_event_grants_move now i user db changed db' :
  apply_event now i user db = (changed, db') → grants_move (grants db) (grants db').
Proof.
  unfold apply_event. destruct (string_in _ _).
  - destruct (users db !! user) as [u|]; [|by intros [= _ <-]].
    case_match; intros [= _ <-]; [apply disable_user_grants_move|done].
  - destruct (sy_organization_id i) as [organization|]; [|by intros [= _ <-]].
    destruct (String.eqb _ _); [destruct (sy_role i); [case_match|]; by intros [= _ <-]|].
    destruct (members db !! _); intros [= _ <-]; [|done].
    unfold revoke_membership_dependents. etrans; [|apply revoke_grants_move]. done.
Qed.

Lemma without_move ids db : grants_move (grants db) (without ids (grants db)).
Proof. intros id g. unfold without. rewrite map_lookup_filter_Some. intros [Hg _]. by exists g. Qed.

Lemma issue_once_grants clock clientId scopes cx d db db' :
  issue_once sha256 digest lookup clock clientId scopes cx d db = Ok (tt, db') → grants db' = grants db.
Proof.
  unfold issue_once. intros. tx_simp. audit_done.
  by match goal with H : insert_device _ _ _ = Ok _ |- _ => apply insert_device_Ok in H as [_ ->] end.
Qed.

Lemma decide_device_grants clock event code input seen db db' :
  decide_device sha256 lookup clock event code input seen db = Ok (tt, db') → grants db' = grants db.
Proof.
  unfold decide_device. intros H. case_match; [|done]. destruct p as [user role].
  apply result_bind_Ok in H as ([id d] & _ & H).
  destruct (String.eqb _ "deny"); [by audit_done|].
  destruct (az_project_id input) as [project|]; [|done]. destruct (_ ≫= validScopes) as [scopes|]; [|done].
  destruct (existsb _ _); [done|]. destruct (negb _); [done|]. by audit_done.
Qed.

Lemma exchange_grants clock id t cx seen db o db' :
  exchange_tx sha256 digest clock id t cx seen db = Ok (o, db') → grants db' = grants db.
Proof.
  unfold exchange_tx. destruct (devices db !! id) as [d|]; [|by intros [= _ <-]].
  destruct (dv_expires_at d <=? clock); [by intros [= _ <-]|].
  destruct (dv_status d); [|  |by intros [= _ <-]..].
  - case_match; by intros [= _ <-].
  - destruct (dv_organization_id d), (dv_project_id d), (dv_approved_by d), (dv_approved_scopes d); try done.
    destruct (identityPermits _ _ _ _).
    + unfold found_family. intros H. tx_simp. audit_done.
      match goal with H : insert_family _ _ _ = Ok _ |- _ => apply insert_family_Ok in H as (_ & -> & _) end.
      match goal with H : insert_refresh_token _ _ _ = Ok _ |- _ => apply insert_refresh_token_Ok in H as (_ & ->) end.
      by match goal with H : insert_access_token _ _ _ = Ok _ |- _ => apply insert_access_token_Ok in H as (_ & ->) end.
    + intros H. tx_simp. by audit_done.
Qed.

(** Every transaction on identities but the insertion of a grant moves the grants
    forward. *)
Lemma identity_grants_move db db' :
  identity_step sha256 digest lookup drawn db db' → provisioned db db' ∨ grants_move (grants db) (grants db').
Proof.
  intros Hs. destruct Hs; [right..|by left].
  - apply insert_Ok in H0 as (row & db1 & Hk & _ & _ & -> & _). by apply insert_key_Ok in Hk as [-> _].
  - by eapply keys_grants_move.
  - by eapply rotate_grants_move.
  - by eapply revoke_store_grants_move.
  - done.
  - by destruct (issue_limits_db lookup source clock db) as [rates ->].
  - by destruct (actor_limit_db lookup actor clock db) as [rates ->].
  - by apply issue_once_grants in H0 as ->.
  - by apply decide_device_grants in H as ->.
  - by apply exchange_grants in H0 as ->.
  - by eapply refresh_grants_move.
  - by eapply revoke_tx_grants_move.
  - by eapply access_grants_move.
  - unfold reapTransaction, reap_accesses, reap_families, reap_authorizations in H. by injection H as _ <-.
  - unfold reapExpiredGatewayGrants in H. destruct (safe_between _ _ _); [|done]. injection H as _ <-. apply without_move.
  - apply set_disabled_db in H as (db1 & f & -> & [->|[[_ ->]|[_ ->]]]); [done| |done]. apply disable_user_grants_move.
  - apply set_disabled_db in H as (db1 & f & -> & [->|[[_ ->]|[_ ->]]]); [done| |done].
    apply disable_organization_grants_move.
  - apply sync_db in H0 as (db1 & f & -> & [->|(user & u & changed & db2 & _ & _ & _ & _ & Ha & Hr)]); [done|].
    apply insert_receipt_Ok in Hr as (-> & _). destruct (stale _ version) in Ha; [by injection Ha as _ <-|].
    by eapply (apply_event_grants_move now i user db changed db2).
Qed.
End moves.

(** ** The tables a gateway depends on, together *)

(** A session that was granted, and the tables it was granted in. *)
Record Issue := mkIssue { is_now : Z; is_grant : NewGrant; is_db : GatewayDb }.

Definition issued_at (i : Issue) : Z := is_now i / msPerSecond * msPerSecond.
Definition session_expires (i : Issue) : Z := issued_at i + ng_ttl_seconds (is_grant i) * msPerSecond.

Section system.
Context (sha256 digest lookup : string → string) (drawn : string → Prop).

(** Grants are inserted by the session route alone; identities move by their
    transactions, the fleet forward. *)
Inductive gateway_step : option Issue → GatewayDb → GatewayDb → Prop :=
| gs_issue now n r db db' :
    insert_session_grant now n db = Ok (Some r, db') → gateway_step (Some (mkIssue now n db)) db db'
| gs_revoke now session machine organization project b db db' :
    revoke_session now session machine organization project db = Ok (b, db') → gateway_step None db db'
| gs_identity db i :
    identity_step sha256 digest lookup drawn (gw_identity db) i →
    (∀ id, grants (gw_identity db) !! id = None → grants i !! id = None) →
    gateway_step None db (db <| gw_identity := i |>)
| gs_fleet db f : fleet_le (gw_fleet db) f → gateway_step None db (db <| gw_fleet := f |>)
| gs_audit db a : gateway_step None db (db <| gw_audit := a |>).

Inductive gateway_run : list Issue → GatewayDb → GatewayDb → Prop :=
| gr_refl db : gateway_run [] db db
| gr_step h o db1 db2 db3 :
    gateway_run h db1 db2 → gateway_step o db2 db3 → gateway_run (h ++ option_list o) db1 db3.

Lemma insert_session_grant_Ok now n db r db' :
  insert_session_grant now n db = Ok (Some r, db') →
  let issued := now / msPerSecond * msPerSecond in
  let expires := issued + ng_ttl_seconds n * msPerSecond in
  is_Some (live_machine db issued (ng_machine_id n) (ng_organization_id n) (ng_project_id n) (ng_lease_id n)) ∧
  issuer_active (gw_identity db) issued (ng_issuer_type n) (ng_issuer_id n) (ng_organization_id n) (ng_project_id n) = true ∧
  grant_checks n = true ∧ grants (gw_identity db) !! ng_id n = None ∧ r = (issued, expires) ∧
  gw_fleet db' = gw_fleet db ∧
  gw_identity db' = (gw_identity db) <| grants ::= <[ng_id n := mkGrant (ng_issuer_type n) (ng_issuer_id n)
    (ng_organization_id n) expires None]> |> ∧
  gw_bindings db' = <[ng_id n := mkBinding (ng_machine_id n) (ng_project_id n) (ng_lease_id n)
    (ng_capabilities n) (ng_port n) issued]> (gw_bindings db).
Proof.
  unfold insert_session_grant. destruct (live_machine _ _ _ _ _ _) as [m|]; [|done].
  destruct (issuer_active _ _ _ _ _ _); [|done]. destruct (grant_checks n); [|done].
  destruct (bool_decide (is_Some _)) eqn:E; [done|]. bool_simp. cbv zeta. intros [= <- <-]. simpl.
  split_and!; try done. by apply eq_None_not_Some.
Qed.

(** Rows that are deleted and not inserted again only move forward. *)
Lemma identity_step_grants i i' :
  identity_step sha256 digest lookup drawn i i' → (∀ id, grants i !! id = None → grants i' !! id = None) →
  grants_move (grants i) (grants i').
Proof.
  intros [Hp|Hm]%identity_grants_move Hn; [|done]. intros id g' Hg'. exists g'. split; [|done].
  destruct (grants i !! id) as [g|] eqn:Eg; [|by rewrite Hn in Hg'].
  pose proof (lookup_weaken _ _ id g Eg (pv_grants _ _ Hp)). congruence.
Qed.

Lemma revoke_session_grants now session machine organization project b db db' :
  revoke_session now session machine organization project db = Ok (b, db') →
  grants_move (grants (gw_identity db)) (grants (gw_identity db')) ∧ gw_bindings db' = gw_bindings db ∧ gw_fleet db' = gw_fleet db.
Proof.
  unfold revoke_session. destruct (grants _ !! _) as [g|] eqn:Eg; [|by intros [= _ <-]].
  destruct (gw_bindings db !! _) as [bd|]; [|by intros [= _ <-]].
  destruct (_ && _); intros [= _ <-]; [|done]. split; [|done]. intros id g'. simpl.
  intros [[<- <-]|[_ Hg]]%lookup_insert_Some; [|by exists g'].
  exists g. split; [done|apply revoke_grant_le].
Qed.

(** A step that grants nothing. *)
Lemma quiet_step_grants db db' :
  gateway_step None db db' →
  grants_move (grants (gw_identity db)) (grants (gw_identity db')) ∧ gw_bindings db' = gw_bindings db ∧
  fleet_le (gw_fleet db) (gw_fleet db').
Proof.
  inversion 1; subst; simpl; try done.
  - apply revoke_session_grants in H0 as (? & ? & ->). done.
  - split; [by apply identity_step_grants|done].
Qed.

(** Each row is of a session that was granted, in tables the current ones follow. *)
Definition describes (i : Issue) (id : string) (g : GrantRow) (b : GrantBinding) : Prop :=
  let n := is_grant i in
  ng_id n = id ∧ gr_issuer_type g = ng_issuer_type n ∧ gr_issuer_id g = ng_issuer_id n ∧
  gr_organization_id g = ng_organization_id n ∧ gr_expires_at g = session_expires i ∧
  b = mkBinding (ng_machine_id n) (ng_project_id n) (ng_lease_id n) (ng_capabilities n) (ng_port n) (issued_at i).

Definition was_granted (i : Issue) : Prop := ∃ r db', insert_session_grant (is_now i) (is_grant i) (is_db i) = Ok (Some r, db').

Record traced (h : list Issue) (db : GatewayDb) : Prop := {
  tr_rows id g b : grants (gw_identity db) !! id = Some g → gw_bindings db !! id = Some b →
    ∃ i, i ∈ h ∧ describes i id g b;
  tr_issues i : i ∈ h → was_granted i ∧ fleet_le (gw_fleet (is_db i)) (gw_fleet db)
}.

Lemma step_traced h o db db' : traced h db → gateway_step o db db' → traced (h ++ option_list o) db'.
Proof.
  intros [Hrows His] Hstep. destruct o as [i|].
  - inversion Hstep as [now n r ? ? Hi| | | |]; subst. pose proof Hi as Hi0.
    apply insert_session_grant_Ok in Hi0 as (_ & _ & _ & Hn & _ & Ef & Ei & Eb). split.
    + intros id g b. rewrite Ei, Eb. simpl. intros [[<- <-]|[Hne Hg]]%lookup_insert_Some Hb.
      * rewrite lookup_insert_eq in Hb. injection Hb as <-. exists (mkIssue now n db).
        split; [apply elem_of_app; right; by left|]. by split_and!.
      * rewrite lookup_insert_ne in Hb by done. destruct (Hrows id g b Hg Hb) as (i & Hin & Hd).
        exists i. split; [apply elem_of_app; by left|done].
    + intros i [Hin|Ei0]%elem_of_app; [rewrite Ef; by apply His|].
      apply list_elem_of_singleton in Ei0 as ->. simpl. rewrite Ef. split; [by exists r, db'|done].
  - simpl. rewrite app_nil_r. apply quiet_step_grants in Hstep as (Hg & Eb & Hf). split.
    + intros id g' b Hg' Hb. rewrite Eb in Hb. destruct (Hg id g' Hg') as (g & Hg0 & []).
      destruct (Hrows id g b Hg0 Hb) as (i & Hin & ? & ? & ? & ? & ? & ?). exists i. split; [done|].
      split_and!; congruence.
    + intros i Hin. destruct (His i Hin) as [? ?]. split; [done|by etrans].
Qed.

Lemma run_traced h db0 db : grants (gw_identity db0) = ∅ → gateway_run h db0 db → traced h db.
Proof.
  intros H0 Hr. induction Hr as [db|h o db1 db2 db3 _ IH Hs]; [|eapply step_traced; eauto].
  split; [|by intros i ?%elem_of_nil]. intros id g b. by rewrite H0, lookup_empty.
Qed.
Lemma live_machine_Some db now machine organization project lease m :
  live_machine db now machine organization project lease = Some m →
  machines (gw_fleet db) !! machine = Some m ∧ Fleet.organization_id (ident m) = organization ∧
  Fleet.project_id (ident m) = project ∧ lease_id (ident m) = lease ∧ mstate m = Running ∧ ready (life m) = true ∧
  now < expires_at (life m).
Proof.
  unfold live_machine. destruct (machines _ !! machine) as [x|]; [|done]. destruct (_ && _) eqn:E; [|done].
  intros [= ->]. bool_simp. split_and!; try done; lia.
Qed.

Lemma resolve_route_Some now machine scope db r :
  resolve_route now machine scope db = Some r →
  let id := uuid_text (rs_capabilityId scope) in
  ∃ g b m host h, grants (gw_identity db) !! id = Some g ∧ gw_bindings db !! id = Some b ∧
    grant_matches now machine scope g b = true ∧
    live_machine db now machine (gr_organization_id g) (gb_project_id b) (gb_lease_id b) = Some m ∧
    serving_host db now m = Some (host, h) ∧
    issuer_active (gw_identity db) now (gr_issuer_type g) (gr_issuer_id g) (gr_organization_id g) (gb_project_id b) = true ∧
    r = mkRouteRow host (h_address h) (host_machine_id (place m)) (gb_lease_id b) (gr_organization_id g)
          (gb_project_id b) (Z.min (expires_at (life m)) (gr_expires_at g)) id (gb_capabilities b) (gb_port b)
          (gr_expires_at g).
Proof.
  unfold resolve_route. cbv zeta. set (id := uuid_text _).
  destruct (grants _ !! id) as [g|]; [|done]. cbn [mbind option_bind]. destruct (gw_bindings db !! id) as [b|]; [|done].
  cbn [mbind option_bind]. destruct (grant_matches now machine scope g b) eqn:Eg; [|done]. cbn [negb].
  destruct (live_machine _ _ _ _ _ _) as [m|] eqn:Em; [|done]. cbn [mbind option_bind].
  destruct (serving_host db now m) as [[host h]|] eqn:Eh; [|done]. cbn [mbind option_bind].
  destruct (issuer_active _ _ _ _ _ _) eqn:Ei; [|done]. intros [= <-]. by exists g, b, m, host, h.
Qed.

(** C29: No route without a session: whatever identities, machines and sessions did
    since no grant existed, a gateway is told a machine's host only for a session
    that was granted for this machine and its lease, while the machine ran and to an
    issuer who had authority in its organization; and only while the issuer still
    has that authority, the machine still runs under that lease, and neither the
    session nor the machine has expired. *)
Theorem routes_trace_to_sessions db0 h db now machine scope r :
  grants (gw_identity db0) = ∅ → gateway_run h db0 db → resolve_route now machine scope db = Some r →
  ∃ i m0 m, i ∈ h ∧
    let n := is_grant i in
    (ng_machine_id n = machine ∧ rs_capability scope ∈ ng_capabilities n ∧ ro_capability_port r = ng_port n) ∧
    (machines (gw_fleet (is_db i)) !! machine = Some m0 ∧ mstate m0 = Running ∧
     issuer_active (gw_identity (is_db i)) (issued_at i) (ng_issuer_type n) (ng_issuer_id n)
       (Fleet.organization_id (ident m0)) (Fleet.project_id (ident m0)) = true) ∧
    (machines (gw_fleet db) !! machine = Some m ∧ ident m = ident m0 ∧ mstate m = Running ∧
     issuer_active (gw_identity db) now (ng_issuer_type n) (ng_issuer_id n)
       (Fleet.organization_id (ident m)) (Fleet.project_id (ident m)) = true) ∧
    (ro_organization_id r = Fleet.organization_id (ident m) ∧ ro_lease_id r = lease_id (ident m) ∧
     now < ro_expires_at r ∧ ro_expires_at r <= session_expires i).
Proof.
  intros H0 Hrun Hr. destruct (run_traced h db0 db H0 Hrun) as [Hrows His].
  apply resolve_route_Some in Hr as (g & b & m & host & hs & Hg & Hb & Hmatch & Hm & _ & Hact & ->).
  destruct (Hrows _ g b Hg Hb) as (i & Hin & Hid & Et & Ei & Eo & Ex & Eb).
  destruct (His i Hin) as [(ri & dbi & Hins) Hle]. apply insert_session_grant_Ok in Hins as ([m0 Hm0] & Ha0 & _).
  unfold grant_matches in Hmatch. bool_simp. subst b. simpl in *.
  match goal with H : string_in _ _ = true |- _ => apply string_in_spec in H end.
  apply live_machine_Some in Hm0 as (Hm0 & Eo0 & Ep0 & El0 & Hs0 & _ & _), Hm as (Hm & Eo1 & Ep1 & El1 & Hs1 & _ & Hx1).
  match goal with H : ng_machine_id _ = machine |- _ => rewrite H in * end.
  destruct (fl_machines _ _ Hle _ _ Hm0) as (m' & Hm' & Hrow). assert (m' = m) as -> by congruence.
  pose proof (rl_ident _ _ Hrow) as Erow.
  assert (issuer_active (gw_identity db) now (ng_issuer_type (is_grant i)) (ng_issuer_id (is_grant i))
    (Fleet.organization_id (ident m)) (Fleet.project_id (ident m)) = true) by (by rewrite Eo1, Ep1, <- Et, <- Ei).
  exists i, m0, m. split; [done|]. simpl. split_and!; try done; try congruence; try lia. by rewrite Eo0, Ep0.
Qed.

(** A session is over: deleted, revoked or expired. *)
Definition ended (now : Z) (id : string) (db : GatewayDb) : Prop :=
  ∀ g, grants (gw_identity db) !! id = Some g → is_Some (gr_revoked_at g) ∨ gr_expires_at g <= now.

Lemma ended_run h db db' id now :
  gateway_run h db db' → (∀ i, i ∈ h → ng_id (is_grant i) ≠ id) → ended now id db → ended now id db'.
Proof.
  intros Hrun Hnew He. induction Hrun as [db|h o db1 db2 db3 _ IH Hs]; [done|].
  assert (ended now id db2) as He2.
  { apply IH; [|done]. intros i Hi. apply Hnew, elem_of_app. by left. }
  intros g' Hg'. destruct o as [i|].
  - assert (ng_id (is_grant i) ≠ id) as Hne by (apply Hnew, elem_of_app; right; by left).
    inversion Hs as [nw n r ? ? Hi| | | |]; subst. apply insert_session_grant_Ok in Hi as (_ & _ & _ & _ & _ & _ & Ei & _).
    rewrite Ei in Hg'. simpl in Hg', Hne. rewrite lookup_insert_ne in Hg' by done. by apply He2.
  - apply quiet_step_grants in Hs as (Hg & _). destruct (Hg id g' Hg') as (g & Hg0 & Hle).
    destruct (He2 g Hg0) as [Hr|Hx]; [left; by rewrite (gl_revoked _ _ Hle Hr)|right; by rewrite (gl_expires _ _ Hle)].
Qed.

Lemma ended_no_route now now' machine scope db :
  ended now (uuid_text (rs_capabilityId scope)) db → now <= now' → resolve_route now' machine scope db = None.
Proof.
  intros He Hn. destruct (resolve_route now' machine scope db) as [r|] eqn:Hr; [|done]. exfalso.
  apply resolve_route_Some in Hr as (g & b & m & host & h & Hg & _ & Hmatch & _).
  unfold grant_matches in Hmatch. bool_simp. destruct (He g Hg) as [[t Ht]|Hx]; [congruence|lia].
Qed.

(** What ends a session, in one transaction: it is revoked; the key it was issued
    with is; the user who issued it, or who approved the login it was issued with,
    is disabled; the organization is; or its machine reaches an end. *)
Inductive cut_off (id : string) : GatewayDb → GatewayDb → Prop :=
| co_session now session machine organization project db db' :
    uuid_text session = id → revoke_session now session machine organization project db = Ok (true, db') →
    cut_off id db db'
| co_key now op key organization actor cx db i :
    revoke_store sha256 now op key organization actor cx (gw_identity db) = Ok (true, i) →
    (∀ g, grants (gw_identity db) !! id = Some g → gr_issuer_type g = "api_key" ∧ gr_issuer_id g = uuid_text key ∧
       gr_organization_id g = organization) →
    cut_off id db (db <| gw_identity := i |>)
| co_user now user c d db s u i :
    set_disabled_tx sha256 "user" user_disabled_at (disable_user now) enable_user now user true c d (gw_identity db)
      = Ok (Settled (Some s), i) → ls_changed s = true → users (gw_identity db) !! uuid_text user = Some u →
    (∀ g, grants (gw_identity db) !! id = Some g →
       (gr_issuer_type g = "clerk_user" ∧ gr_issuer_id g = u_clerk_user_id u) ∨
       (gr_issuer_type g = "device_family" ∧ ∃ f dv, families (gw_identity db) !! gr_issuer_id g = Some f ∧
          devices (gw_identity db) !! fm_device_authorization_id f = Some dv ∧ dv_approved_by dv = Some (uuid_text user))) →
    cut_off id db (db <| gw_identity := i |>)
| co_organization now organization c d db s i :
    set_disabled_tx sha256 "organization" organization_disabled_at (disable_organization now) enable_organization now
      organization true c d (gw_identity db) = Ok (Settled (Some s), i) → ls_changed s = true →
    (∀ g, grants (gw_identity db) !! id = Some g → gr_organization_id g = uuid_text organization) →
    cut_off id db (db <| gw_identity := i |>)
| co_machine machine m db :
    machines (gw_fleet db) !! machine = Some m → terminal (mstate m) = true →
    (∀ b, gw_bindings db !! id = Some b → gb_machine_id b = machine) → cut_off id db db.
(** Every grant under the identifier is revoked. *)
Definition grant_revoked (id : string) (m : gmap string GrantRow) : Prop := ∀ g, m !! id = Some g → is_Some (gr_revoked_at g).

Lemma revoke_grants_revoked now p id db :
  (∀ g, grants db !! id = Some g → p g = true) → grant_revoked id (grants (revoke_grants now p db)).
Proof.
  intros Hp g'. unfold revoke_grants. simpl. rewrite lookup_fmap. intros (g & Hg & ->)%fmap_Some.
  rewrite (Hp g Hg). unfold revoke_grant, coalesce. simpl. destruct (gr_revoked_at g); by eexists.
Qed.

Lemma grants_move_revoked id m m' : grants_move m m' → grant_revoked id m → grant_revoked id m'.
Proof. intros Hm Hr g' Hg'. destruct (Hm id g' Hg') as (g & Hg & Hle). rewrite (gl_revoked _ _ Hle); by apply Hr. Qed.

Lemma revoked_key_grants now op key organization actor cx db i id :
  revoke_store sha256 now op key organization actor cx db = Ok (true, i) →
  (∀ g, grants db !! id = Some g → gr_issuer_type g = "api_key" ∧ gr_issuer_id g = uuid_text key ∧
     gr_organization_id g = organization) →
  grant_revoked id (grants i).
Proof.
  unfold revoke_store. destruct (negb (key_administrator _ _ _)); [done|].
  destruct (own_key db key organization) as [k|]; [|done]. intros [= <-] Hg.
  pose (row := with_key (uuid_text key) (λ k, k <| ak_revoked_at := coalesce (ak_revoked_at k) (Some now) |>) db).
  apply (grants_move_revoked id (grants (revoke_key_grants now (uuid_text key) organization row)));
    [exact (revoke_key_grants_move now key organization (revoke_key_grants now (uuid_text key) organization row))|].
  apply revoke_grants_revoked. intros g E. destruct (Hg g E) as (-> & -> & ->). by rewrite !String.eqb_refl.
Qed.

Lemma set_disabled_changed kind read disable enable now row c d db s i :
  set_disabled_tx sha256 kind read disable enable now row true c d db = Ok (Settled (Some s), i) → ls_changed s = true →
  grants i = grants (disable (uuid_text row) db).
Proof.
  unfold set_disabled_tx. destruct (negb (lifecycle_actor db c)); [intros; tx_simp; done|].
  destruct (read db (uuid_text row)) as [current|]; [|intros; tx_simp; done].
  intros H Hc. tx_simp. audit_done. subst. cbn [ls_changed] in Hc. change (switched true current = true) in Hc. by rewrite Hc.
Qed.

Lemma disabled_user_grants now user u db id :
  users db !! user = Some u →
  (∀ g, grants db !! id = Some g →
     (gr_issuer_type g = "clerk_user" ∧ gr_issuer_id g = u_clerk_user_id u) ∨
     (gr_issuer_type g = "device_family" ∧ ∃ f dv, families db !! gr_issuer_id g = Some f ∧
        devices db !! fm_device_authorization_id f = Some dv ∧ dv_approved_by dv = Some user)) →
  grant_revoked id (grants (disable_user now user db)).
Proof.
  intros Hu Hg. unfold disable_user, revoke_user_dependents. simpl. rewrite lookup_alter_eq, Hu. simpl.
  apply revoke_grants_revoked. simpl. intros g [[Et Ei]|(Et & f & dv & Hf & Hd & Ha)]%Hg; apply orb_true_iff.
  - left. unfold issued_by_subject. simpl. by rewrite Et, Ei, !String.eqb_refl.
  - right. unfold issued_by_family, approved_by. simpl. rewrite Et, Hf, Hd. simpl. by apply bool_decide_eq_true.
Qed.

Lemma disabled_organization_grants now organization db id :
  (∀ g, grants db !! id = Some g → gr_organization_id g = organization) →
  grant_revoked id (grants (disable_organization now organization db)).
Proof.
  intros Hg. unfold disable_organization, revoke_organization_dependents. apply revoke_grants_revoked. simpl.
  intros g E. rewrite (Hg g E). apply String.eqb_refl.
Qed.

Lemma run_frame h db db' id :
  gateway_run h db db' → (∀ i, i ∈ h → ng_id (is_grant i) ≠ id) →
  fleet_le (gw_fleet db) (gw_fleet db') ∧ gw_bindings db' !! id = gw_bindings db !! id.
Proof.
  intros Hrun Hnew. induction Hrun as [db|h o db1 db2 db3 _ IH Hs]; [done|].
  destruct IH as [IHf IHb]; [intros i Hi; apply Hnew, elem_of_app; by left|]. destruct o as [i|].
  - assert (ng_id (is_grant i) ≠ id) as Hne by (apply Hnew, elem_of_app; right; by left).
    inversion Hs as [nw n r ? ? Hi| | | |]; subst. apply insert_session_grant_Ok in Hi as (_ & _ & _ & _ & _ & -> & _ & ->).
    split; [done|]. by rewrite lookup_insert_ne.
  - apply quiet_step_grants in Hs as (_ & -> & Hf). split; [by etrans|done].
Qed.

(** C28: A session does not outlive the authority behind it: once it is revoked, or the
    key, the user or the approver of the login it was issued with is, or its
    organization is disabled, or its machine has ended, no gateway is told a host
    for it any more, at any time, whatever happens next; enabling the user or the
    organization again does not bring it back. *)
Theorem authority_ends_sessions id db db1 h db2 now machine scope :
  cut_off id db db1 → gateway_run h db1 db2 → (∀ i, i ∈ h → ng_id (is_grant i) ≠ id) →
  uuid_text (rs_capabilityId scope) = id → resolve_route now machine scope db2 = None.
Proof.
  intros Hcut Hrun Hnew Hid.
  assert (grant_revoked id (grants (gw_identity db1)) → resolve_route now machine scope db2 = None) as Hrevoked.
  { intros Hr. apply (ended_no_route now); [|done]. rewrite Hid. apply (ended_run h db1); [done..|].
    intros g Hg. left. by apply Hr. }
  destruct Hcut as [nw session mc organization project db dbx Es Hrv|nw op key organization actor cx db i Hrv Hg
    |nw user c d db s u i Hrv Hc Hu Hg|nw organization c d db s i Hrv Hc Hg|mc m db Hm Ht Hb].
  - apply Hrevoked. subst id. unfold revoke_session in Hrv. intros g' Hg'.
    destruct (grants _ !! uuid_text session) as [g|]; [|done]. destruct (gw_bindings db !! _); [|done].
    destruct (_ && _); [|done]. injection Hrv as <-. simpl in Hg'. rewrite lookup_insert_eq in Hg'. injection Hg' as <-.
    unfold revoke_grant, coalesce. simpl. destruct (gr_revoked_at g); by eexists.
  - apply Hrevoked. by eapply revoked_key_grants.
  - apply Hrevoked. simpl. rewrite (set_disabled_changed _ _ _ _ _ _ _ _ _ _ _ Hrv Hc). by eapply disabled_user_grants.
  - apply Hrevoked. simpl. rewrite (set_disabled_changed _ _ _ _ _ _ _ _ _ _ _ Hrv Hc).
    by apply disabled_organization_grants.
  - destruct (run_frame h db db2 id Hrun Hnew) as [Hf Eb].
    destruct (resolve_route now machine scope db2) as [r|] eqn:Hr; [exfalso|done].
    apply resolve_route_Some in Hr as (g & b & m' & host & hs & _ & Hb' & Hmatch & Hl & _).
    rewrite Hid, Eb in Hb'. unfold grant_matches in Hmatch. bool_simp.
    apply live_machine_Some in Hl as (Hm' & _ & _ & _ & Hrun' & _).
    destruct (fl_machines _ _ Hf mc m Hm) as (m2 & Hm2 & Hle). pose proof (Hb b Hb'). assert (m2 = m') as -> by congruence.
    rewrite (rl_final _ _ Hle Ht) in Hrun'. by rewrite Hrun' in Ht.
Qed.
End system.

(** ** Tokens *)

Section roundtrip.
Context `{Jose}.

Lemma known_capabilities_strings l :
  Forall (λ c, string_in c gatewayCapabilities = true) l → known_capabilities (map JStr l) = Some l.
Proof. induction 1 as [|c l Hc _ IH]; [done|]. cbn [map known_capabilities]. by rewrite Hc, IH. Qed.

Lemma canonical_known l : Forall (λ c, string_in c gatewayCapabilities = true) (canonicalGatewayCapabilities l).
Proof.
  apply Forall_forall. intros c Hc. unfold canonicalGatewayCapabilities in Hc.
  apply list_elem_of_In, List.filter_In in Hc as [Hc _]. by apply string_in_spec, list_elem_of_In.
Qed.

(** A token that was issued for a canonical list of capabilities is, until it
    expires, verified as what was claimed, with the identifier and the end of its
    grant. *)
Lemma issued_token_verifies claims secret ttl id created token seconds :
  issueCapabilityToken claims secret ttl id created = Ok token →
  cc_capabilities claims = canonicalGatewayCapabilities (cc_capabilities claims) → cc_machineId claims ≠ "" →
  seconds < created / msPerSecond + ttl →
  verifyCapabilityToken token secret seconds = Ok claims ∧
  ∃ payload, jwtVerify secret "nehemiah-control-plane" "nehemiah-gateway" seconds token = Some payload ∧
    jw_id payload = id ∧ jw_expires payload = created / msPerSecond + ttl.
Proof.
  unfold issueCapabilityToken. destruct claims as [machine organization project lease capabilities port]. simpl.
  intros Hi Hc Hm Hs. destruct (_ || _); [done|]. destruct (bool_decide _); [done|]. destruct (_ || _); [done|].
  destruct (_ || _); [done|]. destruct (negb _); [done|]. injection Hi as <-. unfold verifyCapabilityToken.
  match goal with |- context [sign secret ?t] =>
    pose proof (jwt_verifies secret t seconds Hs) as Hv; cbn [jw_issuer jw_audience] in Hv; rewrite Hv end.
  split; [|by eexists].
  rewrite <- Hc. assert (known_capabilities (map JStr capabilities) = Some capabilities) as Hk
    by (apply known_capabilities_strings; rewrite Hc; apply canonical_known).
  destruct port as [port|]; cbn; rewrite Hk; by destruct (String.eqb_spec machine "").
Qed.

(** What a gateway asks for with a token it verified, by src/gateway/auth.go: the
    claims, and the token's own identifier ([jti]) and end ([exp], in seconds). *)
Definition scope_of (claims : CapabilityClaims) (payload : Jwt) (capability : string) : RouteScope :=
  mkScope capability (jw_id payload) (cc_capabilities claims) (cc_organizationId claims) (cc_projectId claims)
    (cc_leaseId claims) (jw_expires payload * msPerSecond)
    match cc_port claims with Some (NInt port) => Some port | _ => None end.

Section opens.
Context (sha256 digest lookup : string → string) (drawn : string → Prop).

(** The row of a grant that is still there is the row that was inserted. *)
Lemma grant_row_kept h db db' id g b g' :
  gateway_run sha256 digest lookup drawn h db db' → (∀ i, i ∈ h → ng_id (is_grant i) ≠ id) →
  grants (gw_identity db) !! id = Some g → gw_bindings db !! id = Some b → grants (gw_identity db') !! id = Some g' →
  grant_le g g' ∧ gw_bindings db' !! id = Some b.
Proof.
  intros Hrun Hnew Hg Hb Hg'. split; [|by rewrite (proj2 (run_frame _ _ _ _ h db db' id Hrun Hnew))].
  revert g' Hg'. induction Hrun as [db|h o db1 db2 db3 _ IH Hs]; intros g' Hg'; [by simplify_eq|].
  assert (∀ g', grants (gw_identity db2) !! id = Some g' → grant_le g g') as IH2.
  { apply IH; [|done..]. intros i Hi. apply Hnew, elem_of_app. by left. }
  destruct o as [i|].
  - assert (ng_id (is_grant i) ≠ id) as Hne by (apply Hnew, elem_of_app; right; by left).
    inversion Hs as [nw n r ? ? Hi| | | |]; subst. apply insert_session_grant_Ok in Hi as (_ & _ & _ & _ & _ & _ & Ei & _).
    rewrite Ei in Hg'. simpl in Hg', Hne. rewrite lookup_insert_ne in Hg' by done. by apply IH2.
  - apply quiet_step_grants in Hs as (Hm & _). destruct (Hm id g' Hg') as (x & Hx & Hle). by etrans; [apply IH2|].
Qed.

(** C30: The token of a session opens the route it was asked for: from the moment the
    grant is committed until it expires, the token verifies with exactly the claims
    of the session, and in every later state in which the grant was neither revoked
    nor deleted, asking with what the token says (its claims, its identifier, its
    end) for any of its capabilities finds the machine's host, provided that the
    machine is still running and ready under the lease, its host serves and the
    issuer has its authority. *)
Theorem issued_token_opens_route now n db created expires db' secret token seconds h db2 g now' capability m host hrow :
  insert_session_grant now n db = Ok (Some (created, expires), db') →
  let claims := mkClaims (ng_machine_id n) (ng_organization_id n) (ng_project_id n) (ng_lease_id n)
    (ng_capabilities n) (NInt <$> ng_port n) in
  issueCapabilityToken claims secret (ng_ttl_seconds n) (ng_id n) created = Ok token →
  ng_machine_id n ≠ "" → capability ∈ ng_capabilities n →
  Forall (λ s, uuid_text s = s) [ng_id n; ng_organization_id n; ng_project_id n; ng_lease_id n] →
  seconds * msPerSecond < expires → now' < expires →
  gateway_run sha256 digest lookup drawn h db' db2 → (∀ i, i ∈ h → ng_id (is_grant i) ≠ ng_id n) →
  grants (gw_identity db2) !! ng_id n = Some g → gr_revoked_at g = None →
  live_machine db2 now' (ng_machine_id n) (ng_organization_id n) (ng_project_id n) (ng_lease_id n) = Some m →
  serving_host db2 now' m = Some (host, hrow) →
  issuer_active (gw_identity db2) now' (ng_issuer_type n) (ng_issuer_id n) (ng_organization_id n) (ng_project_id n) = true →
  verifyCapabilityToken token secret seconds = Ok claims ∧
  ∃ payload r, jwtVerify secret "nehemiah-control-plane" "nehemiah-gateway" seconds token = Some payload ∧
    resolve_route now' (cc_machineId claims) (scope_of claims payload capability) db2 = Some r ∧
    ro_host_id r = host ∧ ro_host_address r = h_address hrow ∧ ro_expires_at r <= expires.
Proof.
  intros Hins claims Htok Hm Hc Hids Hs Hn Hrun Hnew Hg2 Hrev Hlive Hhost Hact.
  apply insert_session_grant_Ok in Hins as (_ & _ & Hchk & _ & [= -> ->] & _ & Ei & Eb).
  unfold grant_checks in Hchk. bool_simp.
  match goal with E : ng_capabilities n = canonicalGatewayCapabilities _ |- _ => rename E into Hcan end.
  set (issued := now / msPerSecond * msPerSecond) in *.
  destruct (issued_token_verifies _ _ _ _ _ _ seconds Htok) as (Hver & payload & Hjwt & Eid & Eexp); [done|done|..].
  { unfold issued, msPerSecond in *. rewrite Z.div_mul by done. lia. }
  split; [exact Hver|]. exists payload.
  assert (jw_expires payload * msPerSecond = issued + ng_ttl_seconds n * msPerSecond) as Eend.
  { rewrite Eexp. unfold issued. rewrite Z.div_mul by done. ring. }
  destruct (grant_row_kept h db' db2 (ng_id n) (mkGrant (ng_issuer_type n) (ng_issuer_id n) (ng_organization_id n)
    (issued + ng_ttl_seconds n * msPerSecond) None) (mkBinding (ng_machine_id n) (ng_project_id n) (ng_lease_id n)
    (ng_capabilities n) (ng_port n) issued) g Hrun Hnew) as [[Et Eis Eo Ex _] Hb];
    [rewrite Ei; apply lookup_insert_eq|rewrite Eb; apply lookup_insert_eq|done|].
  cbn [gr_issuer_type gr_issuer_id gr_organization_id gr_expires_at] in *.
  repeat (apply Forall_cons in Hids as [?E Hids]).
  unfold resolve_route. cbn [rs_capabilityId scope_of cc_machineId claims]. rewrite Eid, E, Hg2, Hb. cbn [mbind option_bind].
  assert (grant_matches now' (ng_machine_id n) (scope_of claims payload capability) g
    (mkBinding (ng_machine_id n) (ng_project_id n) (ng_lease_id n) (ng_capabilities n) (ng_port n) issued) = true) as ->.
  { unfold grant_matches. simpl. rewrite Eo, Ex, Eend, Hrev, E0, E1, E2, !String.eqb_refl, Z.eqb_refl.
    rewrite (proj2 (string_in_spec _ _) Hc). simpl.
    assert (match NInt <$> ng_port n with Some (NInt p) => Some p | _ => None end = ng_port n) as ->
      by (by destruct (ng_port n)).
    rewrite !bool_decide_eq_true_2 by done. simpl. by apply Z.ltb_lt. }
  cbn [negb gb_project_id gb_lease_id]. rewrite Eo, Et, Eis, Hlive.
  cbn [mbind option_bind]. rewrite Hhost. cbn [mbind option_bind]. rewrite Hact.
  eexists. split; [done|]. split; [reflexivity|]. simpl. split_and!; [done..|lia].
Qed.
End opens.
End roundtrip.

(** ** The routes *)

Lemma session_terms_inr requestId capabilities port ttl terms :
  session_terms requestId capabilities port ttl = inr terms →
  se_capabilities terms = canonicalGatewayCapabilities (se_capabilities terms) ∧ ("agent" ∉ se_capabilities terms) ∧
  (is_Some (se_port terms) ↔ "preview" ∈ se_capabilities terms) ∧ 1 <= se_ttl terms <= 900.
Proof.
  unfold session_terms.
  destruct (match capabilities with JUndefined => _ | _ => capabilities end) as [| | | | |values|]; try done.
  destruct (bool_decide _); [done|]. destruct (known_capabilities values) as [requested|]; [|done].
  set (canonical := canonicalGatewayCapabilities _). destruct (string_in "agent" canonical) eqn:Ea; [done|].
  destruct (string_in "preview" canonical && _) eqn:Ep; [done|]. destruct (negb _ && _) eqn:En; [done|].
  destruct (number_of (or_else ttl _) ≫= safe_between 1 900) as [n|] eqn:Et; [|done]. intros [= <-]. simpl.
  split_and!.
  - unfold canonical, canonicalGatewayCapabilities. apply List.filter_ext_in. intros c Hc. apply Bool.eq_iff_eq_true.
    rewrite !string_in_spec, !list_elem_of_In, List.filter_In, string_in_spec, list_elem_of_In. tauto.
  - intros Hi. apply not_true_iff_false in Ea. by apply Ea, string_in_spec.
  - rewrite <- string_in_spec. destruct (string_in "preview" canonical); simpl in *.
    + bool_simp. split; [done|]. intros _. by destruct (_ ≫= _); [eexists|].
    + split; [|done]. destruct port; try done; simpl; by intros [? ?].
  - apply bind_Some in Et as (x & _ & Hx). apply safe_between_Some in Hx as (_ & _ & Hx). lia.
  - apply bind_Some in Et as (x & _ & Hx). apply safe_between_Some in Hx as (_ & _ & Hx). lia.
Qed.

(** [capture] returns what the operation returned. *)
Section captured.
Context {C : Type} (schedule : nat → Turn GatewayDb) (sha256 : string → string).

Lemma captured_ran {X} (input : AuditOperation X) (operation : Act (World GatewayDb C) HandlerError X) w x w' :
  captured schedule sha256 input operation w = (Ok x, w') → ∃ w1 w2, operation w1 = (Ok x, w2).
Proof.
  unfold captured, capture. intros (t & w1 & _ & Hk)%act_bind_Ok.
  apply act_bind_Ok in Hk as (r & w2 & _ & Hk). rewrite act_bind_eq in Hk. unfold attempt at 1 in Hk.
  destruct (operation w2) as [[y|e] w3] eqn:Eo.
  - exists w2, w3. rewrite Eo. f_equal. f_equal.
    destruct (match _ with Some c => co_deferTerminal c | None => false end) in Hk; [by injection Hk as ->|].
    cbv zeta in Hk. apply act_bind_Ok in Hk as (o & w4 & _ & Hk). by destruct o; [injection Hk as ->|].
  - exfalso. destruct (match op_failureHandled X input with Some handled => handled e | None => false end); [done|].
    cbv zeta in Hk. apply act_bind_Ok in Hk as (o & w4 & _ & Hk). by destruct o.
Qed.
End captured.

Lemma problem_status status code detail id extra : rp_status (problem status code detail id extra) = status.
Proof. done. Qed.

Section sessions.
Context `{Jose} {C : Type} (schedule : nat → Turn GatewayDb) (sha256 : string → string).
Context (gatewaySecret gatewayPublicUrl : string) (previewUrl : string → string → Z → string → string).

Lemma owned_Some request id scope (w : World GatewayDb C) principal m w' :
  owned schedule request id scope w = (Ok (Some (principal, m)), w') →
  mq_principal request = Some principal ∧ permits principal scope = true ∧
  Fleet.organization_id (ident m) = principal_organization principal ∧
  (∀ p, projectFor principal None = Some p → Fleet.project_id (ident m) = p).
Proof.
  unfold owned. destruct (mq_principal request) as [p|]; [|done]. destruct (permits p scope) eqn:Ep; [|done]. simpl.
  intros (found & w1 & Hq & Hk)%act_bind_Ok. destruct found as [x|]; [|done]. injection Hk as -> -> <-.
  apply await_Ok in Hq as [Hq _]. unfold gets in Hq. injection Hq as Hq _. unfold find in Hq.
  destruct (machines _ !! id) as [y|]; [|done].
  destruct (in_organization _ y && _ && visible _ y) eqn:E; [|done]. injection Hq as ->. bool_simp.
  unfold in_organization, in_project in *. split_and!; try done.
  - by bool_simp.
  - intros q Hq. rewrite Hq in *. by bool_simp.
Qed.

(** A token is only handed out for a session that was granted: the caller may write
    the machine, which is in the caller's organization and project; the statement
    committed the grant in the name of the caller's own credential, found it active
    and the machine running under the lease the caller saw; the capabilities are
    known, canonical and not [agent], a port comes exactly with a preview, and the
    session lasts at most fifteen minutes. *)
Theorem tokens_are_granted_sessions request machine w response w' :
  create_session schedule sha256 gatewaySecret gatewayPublicUrl previewUrl request machine (w : World GatewayDb C)
    = (Ok response, w') →
  rp_status response = 200 →
  ∃ principal k db db' n created expires token fields,
    mq_principal request = Some principal ∧ permits principal "machines:write" = true ∧
    insert_session_grant (t_clock (schedule k)) n (others (schedule k) db) = Ok (Some (created, expires), db') ∧
    ng_machine_id n = machine ∧ ng_organization_id n = principal_organization principal ∧
    (∀ p, projectFor principal None = Some p → ng_project_id n = p) ∧
    (ng_issuer_type n, ng_issuer_id n) = session_issuer principal ∧
    issuer_active (gw_identity (others (schedule k) db)) created (ng_issuer_type n) (ng_issuer_id n)
      (ng_organization_id n) (ng_project_id n) = true ∧
    (ng_capabilities n = canonicalGatewayCapabilities (ng_capabilities n) ∧ ("agent" ∉ ng_capabilities n) ∧
     (is_Some (ng_port n) ↔ "preview" ∈ ng_capabilities n)) ∧
    expires - created = ng_ttl_seconds n * msPerSecond ∧ expires - created <= 15 * 60 * msPerSecond ∧
    issueCapabilityToken (mkClaims machine (ng_organization_id n) (ng_project_id n) (ng_lease_id n) (ng_capabilities n)
      (NInt <$> ng_port n)) gatewaySecret (ng_ttl_seconds n) (ng_id n) created = Ok token ∧
    rp_body response = Some (JObj fields) ∧ prop "token" fields = JStr token.
Proof.
  unfold create_session. intros (found & w1 & Ho & Hk)%act_bind_Ok Hs.
  destruct found as [[principal m]|]; [|by injection Hk as <- _].
  apply owned_Some in Ho as (Hp & Hperm & Horg & Hproj).
  destruct (negb (ready (life m))); [apply act_bind_Ok in Hk as (? & ? & _ & Hk); by injection Hk as <- _|].
  apply act_bind_Ok in Hk as (body & w2 & _ & Hk). apply act_bind_Ok in Hk as (capabilities & w3 & _ & Hk).
  apply act_bind_Ok in Hk as (port & w4 & _ & Hk). apply act_bind_Ok in Hk as (ttl & w5 & _ & Hk).
  destruct (session_terms _ capabilities port ttl) as [refused|terms] eqn:Et.
  { injection Hk as -> _. exfalso. revert Et Hs. unfold session_terms.
    repeat (case_match; try done); by intros [= <-]. }
  apply act_bind_Ok in Hk as (t & w6 & _ & Hk). rewrite act_bind_eq in Hk. unfold attempt in Hk.
  destruct (captured schedule sha256 _ _ w6) as [[token|e] w7] eqn:Ec.
  2:{ exfalso. destruct e; try done. destruct (String.eqb _ _) in Hk; [|done]. by injection Hk as <- _. }
  injection Hk as <- _. apply captured_ran in Ec as (w8 & w9 & Hg). unfold grant_session in Hg.
  destruct (session_issuer principal) as [issuerType issuerId] eqn:Ei.
  apply act_bind_Ok in Hg as (persisted & w10 & Hins & Hg). apply await_Ok in Hins as [Hins _].
  destruct persisted as [[created expires]|]; [|done].
  destruct (issueCapabilityToken _ _ _ _ _) as [token'|] eqn:Etok; [|done]. injection Hg as -> _.
  pose proof (session_terms_inr _ _ _ _ _ Et) as (Hcan & Hagent & Hport & Httl).
  pose proof (insert_session_grant_Ok _ _ _ _ _ Hins) as (_ & Hact & _ & _ & Hr & _).
  injection Hr as -> ->. simpl in *.
  eexists principal, (w_tick w8), (w_db w8), (w_db w10), _, _, _, token, _. split_and!; try done; simpl; try lia.
  all: unfold msPerSecond; lia.
Qed.
End sessions.

Section routing.
Context {S L : Type} (services : RouteServices S L) (stream_admission : bool).
Context (parse_date : string → option Z) (iso : Z → string) (gatewayToken : string).

(** A host and its token are told to the gateway alone, and only in the order the
    route promises: the gateway's credential is checked before anything is asked,
    the request is counted before the tables are read, the route is looked up with
    the scope that was counted, and the stream is admitted as the stream of the row
    that was found.  Without the credential nothing is asked at all. *)
Theorem hosts_are_told_to_gateways requestId machine q s response s' :
  route_machine services stream_admission parse_date iso gatewayToken requestId machine q s = (Ok response, s') →
  (equal (route_bearer (rq_authorization q)) gatewayToken = false → rp_status response = 401 ∧ s' = s) ∧
  (rp_status response = 200 →
     equal (route_bearer (rq_authorization q)) gatewayToken = true ∧
     ∃ scope stream r hostToken lease s1 s2 s3,
       route_scope parse_date q = Some (scope, stream) ∧
       sr_authority_id stream = rs_capabilityId scope ∧ sr_organization_id stream = rs_organizationId scope ∧
       admitRouteRequest services stream s = (Ok tt, s1) ∧
       queryRoute services machine scope s1 = (Ok (Some r), s2) ∧
       gatewayCredential services (ro_host_id r) s2 = (Ok (Some hostToken), s3) ∧
       acquireStream services (stream_of stream r) s3 = (Ok lease, s') ∧
       rp_body response = Some (route_json services iso r lease hostToken)).
Proof.
  unfold route_machine. destruct (equal _ gatewayToken); cbn [negb]; [|intros [= <- <-]; done].
  intros Hr. split; [done|]. intros Hs. split; [done|].
  destruct (route_scope parse_date q) as [[scope stream]|] eqn:Esc; [|by injection Hr as <- _].
  destruct stream_admission; cbn [negb] in Hr; [|by injection Hr as <- _].
  rewrite act_bind_eq in Hr. unfold attempt in Hr.
  destruct (admitRouteRequest services stream s) as [[[]|e] s1] eqn:Ea.
  2:{ exfalso. destruct e as [[]|]; try done; by injection Hr as <- _. }
  rewrite act_bind_eq in Hr. unfold uncaught at 1 in Hr.
  destruct (queryRoute services machine scope s1) as [[[r|]|e] s2] eqn:Eq; [|by injection Hr as <- _|done].
  unfold route_found in Hr. rewrite act_bind_eq in Hr. unfold uncaught in Hr.
  destruct (gatewayCredential services (ro_host_id r) s2) as [[found|e] s3] eqn:Eg; [|done].
  destruct (truthy_text found) as [hostToken|] eqn:Et; [|by injection Hr as <- _].
  assert (found = Some hostToken) as ->.
  { revert Et. unfold truthy_text. destruct found as [x|]; [|done]. by destruct (String.eqb x ""); [|intros [= ->]]. }
  rewrite act_bind_eq in Hr. unfold attempt in Hr.
  destruct (acquireStream services (stream_of stream r) s3) as [[lease|e] s4] eqn:El.
  2:{ exfalso. destruct e as [[]|]; try done; by injection Hr as <- _. }
  injection Hr as <- <-. exists scope, stream, r, hostToken, lease, s1, s2, s3.
  split_and!; try done; revert Esc; unfold route_scope;
    repeat (first [done | intros [= <- <-]; done | intros Esc; apply bind_Some in Esc as (? & _ & Esc); revert Esc
                   | case_match]).
Qed.
End routing.

(** * Witnesses *)

(** ** A signature that is the signed text *)

Abbreviation Leaf := (string + (Z + bool))%type.

Fixpoint json_tree (v : json) : gen_tree Leaf :=
  match v with
  | JUndefined => GenNode 0 []
  | JNull => GenNode 1 []
  | JBool b => GenLeaf (inr (inr b))
  | JNum (NInt z) => GenLeaf (inr (inl z))
  | JNum NNonInt => GenNode 2 []
  | JStr s => GenLeaf (inl s)
  | JArr l => GenNode 3 (map json_tree l)
  | JObj fields => GenNode 4 (map (λ kv, GenNode 5 [GenLeaf (inl kv.1); json_tree kv.2]) fields)
  end.

Fixpoint tree_json (t : gen_tree Leaf) : json :=
  match t with
  | GenLeaf (inl s) => JStr s
  | GenLeaf (inr (inl z)) => JNum (NInt z)
  | GenLeaf (inr (inr b)) => JBool b
  | GenNode 1 _ => JNull
  | GenNode 2 _ => JNum NNonInt
  | GenNode 3 l => JArr (map tree_json l)
  | GenNode 4 l => JObj (map (λ x, match x with GenNode _ [GenLeaf (inl k); v] => (k, tree_json v) | _ => ("", JNull) end) l)
  | GenNode _ _ => JUndefined
  end.

Lemma tree_json_tree : ∀ v, tree_json (json_tree v) = v.
Proof.
  fix IH 1. intros [| | |[]| |l|fields]; simpl; try done.
  - f_equal. revert l. fix IHl 1. intros [|x l]; simpl; [done|]. f_equal; [apply IH|apply IHl].
  - f_equal. revert fields. fix IHl 1. intros [|[k x] fields]; simpl; [done|]. f_equal; [f_equal; apply IH|apply IHl].
Qed.

Definition jwt_json (t : Jwt) : json :=
  JArr [from_option JStr JNull (jw_subject t); JObj (jw_claims t); JStr (jw_issuer t); JStr (jw_audience t);
        JNum (NInt (jw_issuedAt t)); JNum (NInt (jw_expires t)); JStr (jw_id t)].

Definition json_jwt (v : json) : option Jwt :=
  match v with
  | JArr [subject; JObj claims; JStr issuer; JStr audience; JNum (NInt iat); JNum (NInt exp); JStr id] =>
      Some (mkJwt (as_string subject) claims issuer audience iat exp id)
  | _ => None
  end.

Fixpoint bits (p : positive) : string :=
  match p with xH => "" | xO p => String "0" (bits p) | xI p => String "1" (bits p) end.
Fixpoint unbits (s : string) : positive :=
  match s with String "0" s => xO (unbits s) | String _ s => xI (unbits s) | EmptyString => xH end.

Lemma unbits_bits p : unbits (bits p) = p.
Proof. induction p; simpl; congruence. Qed.

#[export] Instance demo_jose : Jose.
Proof.
  refine {|
    sign secret t := bits (encode (secret, json_tree (jwt_json t)));
    jwtVerify secret issuer audience now token :=
      '(s, tree) ← (decode (unbits token) : option (string * gen_tree Leaf));
      t ← json_jwt (tree_json tree);
      if String.eqb s secret && String.eqb (jw_issuer t) issuer && String.eqb (jw_audience t) audience &&
         (now <? jw_expires t) then Some t else None |}.
  intros secret t now Hn. rewrite unbits_bits, decode_encode. cbn [mbind option_bind]. rewrite tree_json_tree.
  assert (json_jwt (jwt_json t) = Some t) as -> by (by destruct t as [[]]). cbn [mbind option_bind].
  rewrite !String.eqb_refl. simpl. by rewrite (proj2 (Z.ltb_lt _ _) Hn).
Defined.

(** ** One user, one machine, one session *)

Definition gateway_org : string := "10000000-0000-4000-8000-000000000001".
Definition gateway_project : string := "20000000-0000-4000-8000-000000000001".
Definition gateway_lease : string := "30000000-0000-4000-8000-000000000001".
Definition gateway_session : string := "40000000-0000-4000-8000-000000000001".
Definition gateway_user : string := "50000000-0000-4000-8000-000000000001".

Definition gateway_machine : MachineRow :=
  mkMachine (mkIdentity gateway_org gateway_project gateway_lease 1 "key" "hash" "ca-tor-1" X86_64 None None None 900
      (mkResources 1 512 5120) networkOff None None 0)
    (mkPlacement (Some "h1") (Some "vm1") None None None None None)
    (mkLife Running None true (Some 0) (Some 0) None None 4000000)
    (mkCreateClaim None None None) (mkReconcileClaim None None 0) (mkUsageColumns None None None None).

Definition gateway_host : HostRow :=
  mkHost "10.0.0.1" "ca-tor-1" X86_64 HostReady "active" "active" (Some 90000) (mkResources 16 16384 100000)
    rzero None None None None None None.

Definition gateway_fleet : FleetDb :=
  mkFleet {["m1" := gateway_machine]} {["h1" := gateway_host]} ∅ ∅ ∅ ∅ [] ∅ [] [] sample_tables.

Definition gateway_identity : IdentityDb :=
  mkIdentityDb {[gateway_user := mkUser "user_1" None]} {[gateway_org := None]} {[gateway_project := gateway_org]}
    {[(gateway_org, gateway_user) := "member"]} ∅ ∅ ∅ ∅ ∅ ∅ ∅ ∅ [] [].

Definition gateway_start : GatewayDb := mkGatewayDb gateway_identity ∅ gateway_fleet (mkAuditDb [] ∅).

Definition gateway_grant : NewGrant :=
  mkNewGrant gateway_session "m1" gateway_org gateway_project gateway_lease ["tty"; "preview"] (Some 8080) 300 "clerk_user" "user_1".

Definition gateway_granted : GatewayDb :=
  match insert_session_grant 100500 gateway_grant gateway_start with Ok (_, db) => db | Err _ => gateway_start end.

Lemma gateway_granted_Ok : insert_session_grant 100500 gateway_grant gateway_start = Ok (Some (100000, 400000), gateway_granted).
Proof. vm_compute. reflexivity. Qed.

Definition gateway_scope : RouteScope :=
  mkScope "tty" gateway_session ["tty"; "preview"] gateway_org gateway_project gateway_lease 400000 (Some 8080).

Definition gateway_route : RouteRow :=
  mkRouteRow "h1" "10.0.0.1" (Some "vm1") gateway_lease gateway_org gateway_project 400000 gateway_session
    ["tty"; "preview"] (Some 8080) 400000.

Lemma routes_trace_to_sessions_witness :
  resolve_route 101000 "m1" gateway_scope gateway_granted = Some gateway_route ∧
  ∃ i, i ∈ [mkIssue 100500 gateway_grant gateway_start] ∧ ng_machine_id (is_grant i) = "m1" ∧
    ro_expires_at gateway_route <= session_expires i.
Proof.
  assert (resolve_route 101000 "m1" gateway_scope gateway_granted = Some gateway_route) as Hr by (vm_compute; reflexivity).
  split; [exact Hr|].
  destruct (routes_trace_to_sessions id id id (λ _, True) gateway_start [mkIssue 100500 gateway_grant gateway_start]
    gateway_granted 101000 "m1" gateway_scope gateway_route) as (i & m0 & m & Hi & (Hm & _) & _ & _ & (_ & _ & _ & Hx)).
  - reflexivity.
  - apply (gr_step id id id (λ _, True) [] (Some (mkIssue 100500 gateway_grant gateway_start)) gateway_start gateway_start).
    + constructor.
    + eapply gs_issue. exact gateway_granted_Ok.
  - exact Hr.
  - exists i. split; [exact Hi|]. split; [exact Hm|exact Hx].
Defined.

Definition gateway_operator : LifecycleContext := mkLifecycleContext "system" "operator" None "offboarding" None None.

Definition gateway_disabled : IdentityDb :=
  match set_disabled_tx id "user" user_disabled_at (disable_user 102000) enable_user 102000 gateway_user true
          gateway_operator (mkAuditDraw "e1" "o1") (gw_identity gateway_granted) with
  | Ok (_, i) => i | Err _ => gateway_identity end.

Definition gateway_enabled : IdentityDb :=
  match set_disabled_tx id "user" user_disabled_at (disable_user 103000) enable_user 103000 gateway_user false
          gateway_operator (mkAuditDraw "e2" "o2") gateway_disabled with
  | Ok (_, i) => i | Err _ => gateway_identity end.

Definition gateway_off : GatewayDb := gateway_granted <| gw_identity := gateway_disabled |>.
Definition gateway_on : GatewayDb := gateway_off <| gw_identity := gateway_enabled |>.

(** The user was disabled and enabled again; the session is gone for good. *)
Lemma authority_ends_sessions_witness :
  u_disabled_at <$> users (gw_identity gateway_on) !! gateway_user = Some None ∧
  resolve_route 104000 "m1" gateway_scope gateway_on = None.
Proof.
  split; [vm_compute; reflexivity|].
  apply (authority_ends_sessions id id id (λ _, True) gateway_session gateway_granted
    gateway_off []
    gateway_on 104000 "m1" gateway_scope).
  - apply (co_user id gateway_session 102000 gateway_user gateway_operator (mkAuditDraw "e1" "o1") gateway_granted
      (mkLifecycleState gateway_user (Some 102000) true) (mkUser "user_1" None)); [vm_compute; reflexivity..|].
    intros g Hg. left. vm_compute in Hg. injection Hg as <-. split; reflexivity.
  - apply (gr_step id id id (λ _, True) [] None _ gateway_off).
    + constructor.
    + apply (gs_identity id id id (λ _, True) gateway_off gateway_enabled).
      * apply (st_user id id id (λ _, True) 103000 gateway_user false gateway_operator (mkAuditDraw "e2" "o2")
          gateway_disabled (Settled (Some (mkLifecycleState gateway_user None true)))). vm_compute. reflexivity.
      * intros i. assert (grants gateway_enabled = grants gateway_disabled) as E by (vm_compute; reflexivity). by rewrite E.
  - intros i Hi. by apply elem_of_nil in Hi.
  - vm_compute. reflexivity.
Defined.

Definition gateway_claims : CapabilityClaims :=
  mkClaims "m1" gateway_org gateway_project gateway_lease ["tty"; "preview"] (Some (NInt 8080)).

Definition gateway_token : string :=
  match issueCapabilityToken gateway_claims "secret" 300 gateway_session 100000 with Ok t => t | Err _ => "" end.

Lemma gateway_token_Ok : issueCapabilityToken gateway_claims "secret" 300 gateway_session 100000 = Ok gateway_token.
Proof. vm_compute. reflexivity. Qed.

Definition gateway_payload : Jwt :=
  mkJwt (Some "m1") [("org", JStr gateway_org); ("project", JStr gateway_project); ("lease", JStr gateway_lease);
    ("cap", JArr [JStr "tty"; JStr "preview"]); ("port", JNum (NInt 8080))]
    "nehemiah-control-plane" "nehemiah-gateway" 100 400 gateway_session.

Lemma issued_token_opens_route_witness :
  verifyCapabilityToken gateway_token "secret" 399 = Ok gateway_claims ∧
  jwtVerify "secret" "nehemiah-control-plane" "nehemiah-gateway" 399 gateway_token = Some gateway_payload ∧
  ∃ r, resolve_route 101000 "m1" (scope_of gateway_claims gateway_payload "tty") gateway_granted = Some r ∧
    ro_host_id r = "h1".
Proof.
  assert (jwtVerify "secret" "nehemiah-control-plane" "nehemiah-gateway" 399 gateway_token = Some gateway_payload) as Hj
    by (vm_compute; reflexivity).
  destruct (issued_token_opens_route id id id (λ _, True) 100500 gateway_grant gateway_start 100000 400000 gateway_granted
    "secret" gateway_token 399 [] gateway_granted (mkGrant "clerk_user" "user_1" gateway_org 400000 None) 101000 "tty"
    gateway_machine "h1" gateway_host gateway_granted_Ok gateway_token_Ok) as (Hv & payload & r & Hp & Hr & Hh & _).
  - discriminate.
  - apply list_elem_of_In. simpl. tauto.
  - repeat constructor; vm_compute; reflexivity.
  - reflexivity.
  - reflexivity.
  - constructor.
  - intros i Hi. by apply elem_of_nil in Hi.
  - vm_compute. reflexivity.
  - reflexivity.
  - vm_compute. reflexivity.
  - vm_compute. reflexivity.
  - vm_compute. reflexivity.
  - split; [exact Hv|]. split; [exact Hj|]. rewrite Hj in Hp. injection Hp as <-. exists r. split; [exact Hr|exact Hh].
Defined.

(** A turn in which nobody else moves. *)
Definition gateway_turn (k : nat) : Turn GatewayDb :=
  mkTurn (λ db, db) 100500 100500 (λ n, if Nat.eqb k 1 then gateway_session else "id-" +:+ pretty (Z.of_nat (10 * k + n)))
    ∅ Delivered.

Definition gateway_request : MachineRequest :=
  mkMachineRequest (Some (UserPrincipal "user_1" gateway_org "member")) None "req-1"
    (Ok (JObj [("capabilities", JArr [JStr "preview"; JStr "tty"; JStr "tty"]); ("port", JNum (NInt 8080))])).

Definition gateway_created : result HandlerError Response * World GatewayDb Empty_set :=
  create_session gateway_turn id "secret" "https://gateway" (λ _ _ _ _, "https://preview") gateway_request "m1"
    (mkWorld gateway_start 0 []).

Definition gateway_response : Response :=
  match gateway_created with (Ok r, _) => r | (Err _, _) => mkResponse 0 ∅ None end.

Lemma tokens_are_granted_sessions_witness :
  rp_body gateway_response = Some (JObj [("id", JStr gateway_session); ("token", JStr gateway_token); ("expires_in", JNum (NInt 300));
    ("gateway_url", JStr "https://gateway"); ("preview_url", JStr "https://preview")]) ∧
  ∃ n created expires token fields,
    ng_organization_id n = gateway_org ∧ expires - created <= 15 * 60 * msPerSecond ∧
    rp_body gateway_response = Some (JObj fields) ∧ prop "token" fields = JStr token ∧
    issueCapabilityToken (mkClaims "m1" (ng_organization_id n) (ng_project_id n) (ng_lease_id n) (ng_capabilities n)
      (NInt <$> ng_port n)) "secret" (ng_ttl_seconds n) (ng_id n) created = Ok token.
Proof.
  split; [vm_compute; reflexivity|].
  assert (gateway_created.1 = Ok gateway_response) as E1 by (vm_compute; reflexivity).
  assert (gateway_created = (Ok gateway_response, gateway_created.2)) as E
    by (rewrite <- E1; destruct gateway_created; reflexivity).
  destruct (tokens_are_granted_sessions gateway_turn id "secret" "https://gateway" (λ _ _ _ _, "https://preview")
    gateway_request "m1" (mkWorld gateway_start 0 []) gateway_response gateway_created.2 E)
    as (p & k & db & db' & n & created & expires & token & fields & Hp & _ & _ & _ & Ho & _ & _ & _ & _ & _ & Hx & Ht & Hb & Hf).
  - vm_compute. reflexivity.
  - exists n, created, expires, token, fields. injection Hp as <-. split; [exact Ho|]. split; [exact Hx|].
    split; [exact Hb|]. split; [exact Hf|exact Ht].
Defined.

(** The services of the route: the stream counters and the grants, one after the
    other. *)
Definition gateway_services : RouteServices (StreamDb * GatewayDb) StreamLease := mkRouteServices
  (λ request s, let '(r, st) := StreamAdmission.admitRouteRequest str_length (mkStreamRate 60 10 10 10) 101000 request s.1 in
     (match r with Ok u => Ok u | Err e => Err (StreamRefused e) end, (st, s.2)))
  (λ machine scope s, (Ok (resolve_route 101000 machine scope s.2), s))
  (λ _ s, (Ok (Some "host-token"), s))
  (λ request s, match acquire (mkAcquireClock 101000 101000 101000) request s.1 with
     | Ok (l, st) => (Ok l, (st, s.2)) | Err e => (Err (StreamRefused e), s) end)
  (λ _, []).

Definition gateway_streams : StreamDb :=
  mkStreamDb {[gateway_org := mkStreamLimits 1 100]} {[gateway_project := (gateway_org, mkStreamLimits 1 100)]} ∅ ∅.

Definition gateway_query : RouteRequest :=
  mkRouteRequest (Some "Bearer gateway-secret") (Some "tty") (Some gateway_session) (Some "tty,preview") (Some gateway_org)
    (Some gateway_project) (Some gateway_lease) (Some "1970-01-01T00:06:40Z") (Some "8080")
    (Some "60000000-0000-4000-8000-000000000001") (Some "gw-1") (Some "50").

Definition gateway_answer : result HandlerError Response * (StreamDb * GatewayDb) :=
  route_machine gateway_services true (λ _, Some 400000) (λ _, "time") "gateway-secret" "req-2" "m1" gateway_query
    (gateway_streams, gateway_granted).

Definition gateway_answered : Response :=
  match gateway_answer with (Ok r, _) => r | (Err _, _) => mkResponse 0 ∅ None end.

Lemma hosts_are_told_to_gateways_witness :
  rp_status gateway_answered = 200 ∧
  ∃ r hostToken lease, gatewayCredential gateway_services (ro_host_id r) (gateway_answer.2) = (Ok (Some hostToken), gateway_answer.2) ∧
    rp_body gateway_answered = Some (route_json gateway_services (λ _, "time") r lease hostToken).
Proof.
  assert (rp_status gateway_answered = 200) as Hs by (vm_compute; reflexivity).
  assert (gateway_answer.1 = Ok gateway_answered) as E1 by (vm_compute; reflexivity).
  assert (gateway_answer = (Ok gateway_answered, gateway_answer.2)) as E
    by (rewrite <- E1; destruct gateway_answer; reflexivity).
  split; [exact Hs|].
  destruct (hosts_are_told_to_gateways gateway_services true (λ _, Some 400000) (λ _, "time") "gateway-secret" "req-2" "m1"
    gateway_query (gateway_streams, gateway_granted) gateway_answered gateway_answer.2 E) as [_ H].
  destruct (H Hs) as (_ & scope & stream & r & hostToken & lease & s1 & s2 & s3 & _ & _ & _ & _ & _ & Hc & _ & Hb).
  exists r, hostToken, lease. split; [|exact Hb]. injection Hc as <- _. reflexivity.
Defined.
