(* ===== verification/VolumeService.v ===== *)
(** * The volume service and its worker

    The class VolumeService (src/apps/nehemiah/src/domain/volumes.ts) and the
    worker of src/apps/nehemiah/src/jobs/schedule-volume-deletions.ts, over the
    repository of Volumes and an object store.  The store is a parameter: it may
    answer any call in any way, and what it answers may depend on every call made
    before; so is the parser of URLs of the platform. *)

From S2P Require Import Prelude Text Js Capacity Billing Volumes Awaiting.

(** ** The object store *)

Inductive VolumeGrantMethod := GET | PUT.

(** A date that is no time at all compares as false with everything. *)
Record VolumeObjectGrant := mkGrant {
  gr_method : VolumeGrantMethod;
  gr_url : string;
  gr_object_prefix : string;
  gr_expires_at : option Z;
  gr_encryption_at_rest : bool;
  gr_headers : option (list (string * string));
  gr_maximum_bytes : option number
}.

Record GrantInput := mkGrantInput {
  gi_organization_id : string;
  gi_project_id : string;
  gi_object_prefix : string;
  gi_method : VolumeGrantMethod;
  gi_capability_expires_at : option Z;
  gi_expires_at : Z;
  gi_maximum_bytes : option Z;
  gi_reservation_id : option string
}.

Inductive StoreCall :=
| CallInspect (organization project objectPrefix : string)
| CallIssueGrant (input : GrantInput)
| CallScheduleDeletion (organization project objectPrefix : string) (deleteAfter : Z).

(** The interface [VolumeObjectStore]. *)
Record VolumeObjectStore := mkStore {
  at_retention_boundary : bool;
  reservationSettlementSeconds : option number;
  answer_inspect : list StoreCall → result VolumeError number;
  answer_issueGrant : list StoreCall → result VolumeError VolumeObjectGrant;
  answer_scheduleDeletion : list StoreCall → result VolumeError unit
}.

Abbreviation VolumeWorld := (World VolumeDb StoreCall).
Abbreviation VolumeAct := (Act VolumeWorld VolumeError).

#[export] Instance volume_errors : Thrown VolumeError VolumeError := {|
  thrown := id;
  connection_lost := VolumePlainError "database connection lost"
|}.

Definition store_call {A} (c : StoreCall) (answer : list StoreCall → result VolumeError A) : VolumeAct A :=
  call_with id c answer.

(** ** Validation *)

Definition sensitive_headers : list string :=
  ["authorization"; "cookie"; "proxy-authorization"; "x-amz-security-token"].

Definition headerNamePattern : re := rep 1 128 (Chr (λ c, alnum c || Ascii.eqb c "-")).

Definition line_break (c : ascii) : bool := Ascii.eqb c "010" || Ascii.eqb c "013".

Definition validHeaders (headers : option (list (string * string))) : bool :=
  match headers with
  | None => true
  | Some hs =>
      (Z.of_nat (length hs) <=? 16) &&
      forallb (λ h : string * string,
        test headerNamePattern h.1 && (str_length h.2 <=? 4096) &&
        negb (existsb line_break (list_ascii_of_string h.2)) &&
        negb (string_in (toLowerCase h.1) sensitive_headers)) hs
  end.

Definition method_eqb (a b : VolumeGrantMethod) : bool :=
  match a, b with GET, GET | PUT, PUT => true | _, _ => false end.

Definition invalid_grant : VolumeError :=
  VolumeInfrastructureUnavailable "Object storage returned an invalid scoped grant.".
Definition unavailable : VolumeError :=
  VolumeInfrastructureUnavailable "Durable volume storage is unavailable.".

Record ExpectedGrant := mkExpected {
  ex_method : VolumeGrantMethod;
  ex_object_prefix : string;
  ex_expires_at : Z;
  ex_maximum_bytes : option Z
}.

Section service.
Context `{BillingAdmission VolumeDb}.
Context (schedule : nat → Turn VolumeDb) (new_URL : string → option Url) (sha256 : string → string).

Definition statement {A} (t : Turn VolumeDb → VolumeTx A) : VolumeAct A := await schedule t.
Definition select {A} (f : Turn VolumeDb → VolumeDb → A) : VolumeAct A := query schedule f.
Definition clock : VolumeAct (Turn VolumeDb) := draw schedule.

Definition validateGrant (grant : VolumeObjectGrant) (expected : ExpectedGrant) (now : Z)
    : result VolumeError unit :=
  match new_URL (gr_url grant) with
  | None => Err invalid_grant
  | Some url =>
      if negb (method_eqb (gr_method grant) (ex_method expected)) ||
         negb (String.eqb (gr_object_prefix grant) (ex_object_prefix expected)) ||
         negb (String.eqb (protocol url) "https:") ||
         negb (String.eqb (username url) "") || negb (String.eqb (password url) "") ||
         negb (String.eqb (hash url) "") ||
         date_le (gr_expires_at grant) now || date_gt (gr_expires_at grant) (ex_expires_at expected) ||
         date_gt (gr_expires_at grant) (now + maximumVolumeGrantTtlSeconds * msPerSecond) ||
         negb (validHeaders (gr_headers grant)) || negb (gr_encryption_at_rest grant) ||
         (method_eqb (ex_method expected) PUT &&
          match n ← gr_maximum_bytes grant; safe_between 1 (default 0 (ex_maximum_bytes expected)) n with
          | Some _ => false | None => true end)
      then Err invalid_grant else Ok tt
  end.

(** Errors of the adapter reach the caller only as the two classes it knows. *)
Definition adapter_error (e : VolumeError) : VolumeError :=
  match e with
  | VolumeInfrastructureUnavailable _ | VolumeIntegrityError => e
  | _ => unavailable
  end.

Definition infrastructure {A} (operation : VolumeAct A) : VolumeAct A :=
  try_catch operation (λ e, athrow (adapter_error e)).

(** ** Observation and grants *)

Definition inspect_call (storage : VolumeObjectStore) (volume : Volume) : VolumeAct number :=
  store_call (CallInspect (vo_organization_id volume.2) (vo_project_id volume.2) (vo_object_prefix volume.2))
    (answer_inspect storage).

Definition inspect (storage : VolumeObjectStore) (volume : Volume) : VolumeAct Z :=
  observation ← infrastructure (inspect_call storage volume);
  lift match safe_between 0 (vo_size_limit_bytes volume.2) observation with
       | Some n => Ok n | None => Err VolumeIntegrityError end.

Definition safeLastKnownObservation (volume : Volume) : Z :=
  let observed := vo_observed_size_bytes volume.2 in
  if isSafeInteger (NInt observed) && (0 <=? observed)
  then Z.min observed (vo_size_limit_bytes volume.2) else 0.

Definition inspectForDeletion (storage : VolumeObjectStore) (volume : Volume) : VolumeAct Z :=
  observation ← attempt (inspect_call storage volume);
  mret match observation with
       | Ok (NInt n) => if isSafeInteger (NInt n) && (0 <=? n) then Z.min n (vo_size_limit_bytes volume.2)
                        else safeLastKnownObservation volume
       | _ => safeLastKnownObservation volume
       end.

Definition validateGrantTtl (ttlSeconds : number) : result VolumeError Z :=
  match safe_between 1 maximumVolumeGrantTtlSeconds ttlSeconds with
  | Some n => Ok n
  | None => Err (InvalidVolumeRequest "grant_ttl_seconds must be an integer from 1 to 900.")
  end.

Definition grantExpiry (volume : Volume) (ttlSeconds : number) (issuedAt : Z) : result VolumeError Z :=
  ttl ← validateGrantTtl ttlSeconds;
  mret (Z.min (vo_expires_at volume.2) (issuedAt + ttl * msPerSecond)).

Definition default_ttl : option number → number := default (NInt defaultVolumeGrantTtlSeconds).

Definition issueRead (storage : VolumeObjectStore) (volume : Volume) (ttlSeconds : option number)
    : VolumeAct VolumeObjectGrant :=
  issued ← clock;
  expiresAt ← lift (grantExpiry volume (default_ttl ttlSeconds) (t_now issued));
  let v := volume.2 in
  grant ← infrastructure (store_call
    (CallIssueGrant (mkGrantInput (vo_organization_id v) (vo_project_id v) (vo_object_prefix v) GET None
       expiresAt None None)) (answer_issueGrant storage));
  _ ← lift (validateGrant grant (mkExpected GET (vo_object_prefix v) expiresAt None) (t_now issued));
  mret grant.

(** The grant for a reservation. *)
Definition reserved_grant (storage : VolumeObjectStore) (volume : Volume)
    (reservation : VolumeWriteGrantReservation) (capabilityExpiresAt issuedAt : Z)
    : VolumeAct VolumeObjectGrant :=
  let v := volume.2 in
  grant ← infrastructure (store_call
    (CallIssueGrant (mkGrantInput (vo_organization_id v) (vo_project_id v) (vo_object_prefix v) PUT
       (Some capabilityExpiresAt) (wr_expires_at reservation) (Some (wr_maximum_bytes reservation))
       (Some (wr_id reservation)))) (answer_issueGrant storage));
  _ ← lift (validateGrant grant (mkExpected PUT (vo_object_prefix v) (wr_expires_at reservation)
              (Some (wr_maximum_bytes reservation))) issuedAt);
  mret grant.

Definition issueWrite (storage : VolumeObjectStore) (volume : Volume) (ttlSeconds : option number)
    (operationKey : option string) : VolumeAct (option (Volume * VolumeObjectGrant)) :=
  issued ← clock;
  capabilityExpiresAt ← lift (grantExpiry volume (default_ttl ttlSeconds) (t_now issued));
  settlement ← lift match safe_between 0 maximumVolumeGrantTtlSeconds
                            (default (NInt 0) (reservationSettlementSeconds storage)) with
                    | Some n => Ok n
                    | None => Err (VolumeInfrastructureUnavailable
                        "Durable volume storage returned an invalid reservation settlement window.")
                    end;
  let v := volume.2 in
  reserved ← statement (λ t, reserveWriteGrant (t_clock t) (t_random t 0)
    (mkReserve volume.1 (vo_organization_id v) (Some (vo_project_id v)) (NInt (vo_observed_size_bytes v))
       (t_now issued) (capabilityExpiresAt + settlement * msPerSecond) operationKey));
  match reserved with
  | None => mret None
  | Some (volume', reservation) =>
      grant ← reserved_grant storage volume' reservation capabilityExpiresAt (t_now issued);
      finished ← clock;
      marked ← statement (λ _, markWriteGrantIssued (wr_id reservation)
                                      (vo_organization_id volume'.2) (t_now finished));
      mret match marked with true => Some (volume', grant) | false => None end
  end.

Definition with_observed (n : Z) (volume : Volume) : Volume :=
  (volume.1, volume.2 <| vo_observed_size_bytes := n |>).

(** ** The methods *)

Definition require_storage (storage : option VolumeObjectStore) : result VolumeError VolumeObjectStore :=
  match storage with
  | Some s => Ok s
  | None => Err (VolumeInfrastructureUnavailable "Durable volume storage is not configured on this control plane.")
  end.

Record CreateVolume := mkCreateVolume {
  cv_organization_id : string;
  cv_project_id : string;
  cv_size_limit_mb : option number;
  cv_ttl_seconds : option number;
  cv_grant_ttl_seconds : option number;
  cv_idempotency_key : string
}.

(** The sizes a valid request asks for. *)
Record VolumeSizes := mkSizes {
  sz_limit_mb : Z;
  sz_ttl_seconds : Z;
  sz_grant_ttl_seconds : Z
}.

Definition valid_size (n : number) : option Z :=
  match n with
  | NInt z => if isSafeInteger n && (1 <=? z) && (z * mebibyte <=? maximumVolumeBytes) then Some z else None
  | NNonInt => None
  end.

Definition validateCreateVolume (input : CreateVolume) : result VolumeError VolumeSizes :=
  if negb (test uuidPattern (cv_organization_id input)) || negb (test uuidPattern (cv_project_id input))
  then Err (InvalidVolumeRequest "organization_id and project_id must be UUIDs.")
  else if negb (test idempotencyKeyPattern (cv_idempotency_key input))
  then Err (InvalidVolumeRequest "A valid Idempotency-Key header is required.")
  else
    match valid_size (default (NInt defaultVolumeSizeLimitMb) (cv_size_limit_mb input)) with
    | None => Err (InvalidVolumeRequest "size_limit_mb must be an integer from 1 to 1048576.")
    | Some size =>
        match safe_between 3600 maximumVolumeTtlSeconds
                (default (NInt defaultVolumeTtlSeconds) (cv_ttl_seconds input)) with
        | None => Err (InvalidVolumeRequest "ttl_seconds must be an integer from 3600 to 31536000.")
        | Some ttl =>
            grantTtl ← validateGrantTtl (default_ttl (cv_grant_ttl_seconds input));
            mret (mkSizes size ttl grantTtl)
        end
    end.

Definition createText (input : CreateVolume) (s : VolumeSizes) : string :=
  json_object
    [json_member "organizationId" (json_text (cv_organization_id input));
     json_member "projectId" (json_text (cv_project_id input));
     json_member "sizeLimitMb" (pretty (sz_limit_mb s));
     json_member "ttlSeconds" (pretty (sz_ttl_seconds s));
     json_member "grantTtlSeconds" (pretty (sz_grant_ttl_seconds s))].

Definition new_volume (input : CreateVolume) (s : VolumeSizes) (t : Turn VolumeDb) : Volume :=
  let id := "vol_" +:+ t_random t 0 in
  (id, mkVolume (cv_organization_id input) (cv_project_id input)
         ("organizations/" +:+ cv_organization_id input +:+ "/projects/" +:+ cv_project_id input
            +:+ "/volumes/" +:+ id +:+ "/")
         (sz_limit_mb s * mebibyte) 0 (t_now t) (t_now t + sz_ttl_seconds s * msPerSecond) None None None).

Definition create (storage : option VolumeObjectStore) (input : CreateVolume)
    : VolumeAct (Volume * VolumeObjectGrant * bool) :=
  s ← lift (validateCreateVolume input);
  let requestHash := sha256 (createText input s) in
  store ← lift (require_storage storage);
  t ← clock;
  admitted ← statement (λ t', admitCreate (t_clock t') (new_volume input s t) (cv_idempotency_key input)
                                     requestHash);
  observed ← inspect store admitted.1;
  issued ← issueWrite store (with_observed observed admitted.1) (Some (NInt (sz_grant_ttl_seconds s)))
             (Some "create");
  match issued with
  | None => athrow (VolumeInfrastructureUnavailable
                      "The admitted volume became unavailable before grant issuance.")
  | Some result => mret (result, admitted.2)
  end.

Definition list_ (organizationId : string) (projectId : option string) : VolumeAct (list Volume) :=
  t ← clock;
  select (λ _ db, list_volumes db (uuid_text organizationId) (uuid_text <$> projectId) (t_now t)).

Definition get (id organizationId : string) (projectId : option string) : VolumeAct (option Volume) :=
  t ← clock;
  select (λ _ db, find_volume db id organizationId projectId (t_now t)).

Definition grant (storage : option VolumeObjectStore) (id organizationId : string) (projectId : option string)
    (method : VolumeGrantMethod) (ttlSeconds : option number)
    : VolumeAct (option (Volume * VolumeObjectGrant)) :=
  found ← get id organizationId projectId;
  match found with
  | None => mret None
  | Some volume =>
      store ← lift (require_storage storage);
      observed ← inspect store volume;
      match method with
      | PUT => issueWrite store (with_observed observed volume) ttlSeconds None
      | GET =>
          g ← issueRead store (with_observed observed volume) ttlSeconds;
          updated ← statement (λ _, updateObservedSize id organizationId observed);
          mret match updated with true => Some (with_observed observed volume, g) | false => None end
      end
  end.

Definition schedule_call (storage : VolumeObjectStore) (volume : Volume) (deleteAfter : Z) : VolumeAct unit :=
  store_call (CallScheduleDeletion (vo_organization_id volume.2) (vo_project_id volume.2)
                (vo_object_prefix volume.2) deleteAfter) (answer_scheduleDeletion storage).

(** The store is asked, and the job is completed. *)
Definition schedule_now (storage : VolumeObjectStore) (volume : Volume) (deleteAfter : Z) (missing : VolumeError)
    : VolumeAct unit :=
  _ ← schedule_call storage volume deleteAfter;
  t ← clock;
  marked ← statement (λ _, markDeletionScheduled volume.1 (t_now t));
  match marked with true => mret tt | false => athrow missing end.

(** [remove], once the deletion is enqueued. *)
Definition remove_enqueued (store : VolumeObjectStore) (id : string) (deletion : Volume * Z)
    : VolumeAct (option (Volume * Z)) :=
  let '(volume, deleteAfter) := deletion in
  if at_retention_boundary store then
    t ← clock;
    deferred ← statement (λ _, deferDeletion (mkDefer id (t_now t) deleteAfter None
                                                     "volume_retention_pending"));
    match deferred with
    | true => mret (Some deletion)
    | false => athrow (VolumeInfrastructureUnavailable
                         "The durable volume retention request could not be finalized.")
    end
  else
    r ← attempt (schedule_now store volume deleteAfter
          (VolumeInfrastructureUnavailable "The durable volume deletion request could not be finalized."));
    match r with
    | Ok _ => mret (Some deletion)
    | Err e =>
        t ← clock;
        (_ ← attempt (statement (λ _, deferDeletion (mkDefer id (t_now t) (t_now t + 1000) None
                        "volume_deletion_schedule_failed"))) : VolumeAct (result VolumeError bool);
         athrow (match e with VolumeInfrastructureUnavailable _ => e | _ => unavailable end))
    end.

Definition remove (storage : option VolumeObjectStore) (id organizationId : string) (projectId : option string)
    : VolumeAct (option (Volume * Z)) :=
  found ← select (λ _ db, findForDeletion db id organizationId projectId);
  match found with
  | None => mret None
  | Some volume =>
      store ← lift (require_storage storage);
      requested ← clock;
      observed ← (match vo_deleted_at volume.2 with
                  | Some _ => mret (safeLastKnownObservation volume)
                  | None => inspectForDeletion store volume
                  end : VolumeAct Z);
      deletion ← statement (λ _, enqueueDeletion
        (mkEnqueue id organizationId projectId (t_now requested) observed));
      match deletion with
      | None => mret None
      | Some d => remove_enqueued store id d
      end
  end.

(** ** The worker *)

Definition volumeDeletionClaimTtlSeconds : Z := 60.
Definition volumeDeletionBatchSize : Z := 100.

Definition volumeDeletionRetryDelayMs (attemptCount : Z) : Z :=
  Z.min (60 * 60 * 1000) (1000 * 2 ^ Z.min (Z.max (attemptCount - 1) 0) 12).

Inductive DeliveryResult := Scheduled | Deferred.

Definition defer (job : VolumeDeletionJob) (now nextAttemptAt : Z) (code message : string)
    : VolumeAct DeliveryResult :=
  deferred ← statement (λ _, deferDeletion (mkDefer (dj_volume job).1 now nextAttemptAt
                                                   (Some (dj_claim_token job)) code));
  match deferred with true => mret Deferred | false => athrow (VolumePlainError message) end.

Definition deliver (storage : VolumeObjectStore) (job : VolumeDeletionJob) : VolumeAct DeliveryResult :=
  started ← clock;
  if at_retention_boundary storage && (t_now started <? dj_delete_after job) then
    defer job (t_now started) (dj_delete_after job) "volume_retention_pending"
      "volume retention claim disappeared before deferral"
  else
    r ← attempt (schedule_now storage (dj_volume job) (dj_delete_after job)
                   (VolumePlainError "volume deletion job disappeared before completion"));
    match r with
    | Ok _ => mret Scheduled
    | Err e =>
        failed ← clock;
        defer job (t_now failed) (t_now failed + volumeDeletionRetryDelayMs (dj_attempt_count job))
          "volume_deletion_schedule_failed" "volume deletion claim disappeared before deferral"
    end.

(** [Promise.allSettled] over the claims.  The deliveries await in turn; those of
    other volumes move what the turns of this one allow. *)
Fixpoint deliver_all (storage : VolumeObjectStore) (jobs : list VolumeDeletionJob)
    : VolumeAct (list (result VolumeError DeliveryResult)) :=
  match jobs with
  | [] => mret []
  | job :: rest =>
      r ← attempt (deliver storage job);
      rs ← deliver_all storage rest;
      mret (r :: rs)
  end.

Record VolumeDeletionRun := mkRun {
  expiredEnqueued : Z;
  claimed : Z;
  scheduled : Z;
  deferred : Z
}.

Definition delivery_errors (rs : list (result VolumeError DeliveryResult)) : list VolumeError :=
  omap (λ r, match r with Err e => Some e | Ok _ => None end) rs.

Definition count_delivered (p : DeliveryResult → bool) (rs : list (result VolumeError DeliveryResult)) : Z :=
  Z.of_nat (length (List.filter (λ r, match r with Ok d => p d | Err _ => false end) rs)).

Definition run_worker (storage : VolumeObjectStore) (limit : option number) : VolumeAct VolumeDeletionRun :=
  let limit := default (NInt volumeDeletionBatchSize) limit in
  started ← clock;
  enqueued ← statement (λ t, enqueueExpiredDeletions (t_now started) limit (t_locked t));
  claims ← statement (λ t, claimDeletionJobs (mkClaim (t_now started) limit (t_random started 0)
             (NInt volumeDeletionClaimTtlSeconds)) (t_locked t));
  results ← deliver_all storage claims;
  match delivery_errors results with
  | [] => mret (mkRun enqueued (Z.of_nat (length claims))
                  (count_delivered (λ d, match d with Scheduled => true | Deferred => false end) results)
                  (count_delivered (λ d, match d with Deferred => true | Scheduled => false end) results))
  | es => athrow (VolumeAggregateError es)
  end.
End service.
