(* ===== verification/VolumeLogic.v ===== *)
(** * The volume service moves the tables only by steps

    Every procedure of the volume service, whatever the store answers and
    whatever happens while it awaits, takes the tables along steps of the
    repository; and every deletion it asks the store for is due.  Both are carried
    through the procedures by the same rules. *)

From S2P Require Import Prelude Text Js Capacity Billing Volumes VolumeInv VolumeTheorems Awaiting.
From S2P Require Import VolumeService.

Section logic.
Context `{BillingAdmission VolumeDb}.
Context (schedule : nat → Turn VolumeDb) (new_URL : string → option Url) (sha256 : string → string).

Definition volume_sound (db : VolumeDb) : Prop := ∃ clock, volume_inv clock db.

(** What happens while a procedure awaits are steps of the repository. *)
Definition volume_polite : Prop :=
  ∀ n db, volume_sound db → rtc some_step db (others (schedule n) db).

(** The world moved on. *)
Record later (w w' : VolumeWorld) : Prop := {
  lt_steps : rtc some_step (w_db w) (w_db w');
  lt_tick : (w_tick w <= w_tick w')%nat
}.

#[export] Instance later_preorder : PreOrder later.
Proof.
  split; [by split|]. intros u v w [] []. split; [by etransitivity|lia].
Qed.

Lemma sound_later db db' : volume_sound db → rtc some_step db db' → volume_sound db'.
Proof. intros [c Hc] Hs. destruct (some_steps_inv c db db' Hc Hs) as (c' & _ & Hc'). by exists c'. Qed.

(** ** Deletions that are due *)

(** The store is asked to delete what a tenant deleted or what expired, at the
    end of its retention; a store that deletes at once is asked no earlier. *)
Definition due (boundary : bool) (w : VolumeWorld) (c : StoreCall) : Prop :=
  match c with
  | CallScheduleDeletion organization project objectPrefix t =>
      ∃ id v d, volumes (w_db w) !! id = Some v ∧ vo_organization_id v = organization ∧
        vo_project_id v = project ∧ vo_object_prefix v = objectPrefix ∧
        vo_deleted_at v = Some d ∧ t = d + retention ∧
        (boundary = true → ∃ n, (n < w_tick w)%nat ∧ t <= t_now (schedule n))
  | _ => True
  end.

Lemma due_later boundary w w' c : later w w' → due boundary w c → due boundary w' c.
Proof.
  intros [Hs Ht]. destruct c; [done..|]. intros (id & v & d & Hv & Ho & Hp & Hx & Hd & Et & Hb).
  destruct (vt_volume _ _ (some_steps_le _ _ Hs) _ _ Hv) as (v' & Hv' & Hk). exists id, v', d.
  split_and!; [done| | | |by apply (vk_deleted _ _ Hk)|done|].
  - by rewrite (vk_organization _ _ Hk).
  - by rewrite (vk_project _ _ Hk).
  - by rewrite (vk_prefix _ _ Hk).
  - intros E. destruct (Hb E) as (n & Hn & Hle). exists n. split; [lia|done].
Qed.

Definition all_due (boundary : bool) (w : VolumeWorld) : Prop := Forall (due boundary w) (w_calls w).

(** ** Procedures that keep all this, from a given world *)

Definition lawful {A} (boundary : bool) (w : VolumeWorld) (m : VolumeAct A) : Prop :=
  volume_sound (w_db w) → all_due boundary w → later w (m w).2 ∧ all_due boundary (m w).2.

Lemma lawful_bind {A B} boundary w (m : VolumeAct A) (k : A → VolumeAct B) :
  lawful boundary w m →
  (∀ a w1, volume_sound (w_db w1) → later w w1 → m w = (Ok a, w1) → lawful boundary w1 (k a)) →
  lawful boundary w (m ≫= k).
Proof.
  intros Hm Hk Hs Hd. destruct (Hm Hs Hd) as [Hl Hd1]. rewrite act_bind_eq.
  destruct (m w) as [[a|e] w1] eqn:E; [|done]. simpl in *.
  assert (volume_sound (w_db w1)) as Hs1 by (eapply sound_later; [exact Hs|apply Hl]).
  destruct (Hk a w1 Hs1 Hl eq_refl Hs1 Hd1) as [Hl2 Hd2]. split; [by etransitivity|done].
Qed.

Lemma lawful_ret {A} boundary w (a : A) : lawful boundary w (mret a).
Proof. by split. Qed.
Lemma lawful_throw {A} boundary w e : lawful (A := A) boundary w (athrow e).
Proof. by split. Qed.
Lemma lawful_lift {A} boundary w (r : result VolumeError A) : lawful boundary w (lift r).
Proof. by split. Qed.

Lemma lawful_attempt {A} boundary w (m : VolumeAct A) :
  lawful boundary w m → lawful boundary w (attempt m : VolumeAct (result VolumeError A)).
Proof. intros Hm Hs Hd. unfold attempt. specialize (Hm Hs Hd). by destruct (m w). Qed.

Lemma lawful_infrastructure {A} boundary w (m : VolumeAct A) :
  lawful boundary w m → lawful boundary w (infrastructure m).
Proof.
  intros Hm Hs Hd. unfold infrastructure, try_catch. specialize (Hm Hs Hd). by destruct (m w) as [[]].
Qed.

Lemma all_due_later boundary w w' : later w w' → w_calls w' = w_calls w → all_due boundary w → all_due boundary w'.
Proof.
  intros Hl Ec Hd. unfold all_due. rewrite Ec. eapply Forall_impl; [exact Hd|]. intros c. by apply due_later.
Qed.

Lemma lawful_clock boundary w : lawful boundary w (clock schedule).
Proof.
  intros Hs Hd. assert (later w (clock schedule w).2) as Hl by (split; simpl; [done|lia]).
  split; [done|]. by apply (all_due_later _ w).
Qed.

Lemma lawful_call {A} boundary w c (f : list StoreCall → result VolumeError A) :
  due boundary w c → lawful boundary w (store_call c f).
Proof.
  intros Hc Hs Hd. unfold store_call, call_with. simpl.
  assert (later w (mkWorld (w_db w) (w_tick w) (w_calls w ++ [c]))) as Hl by by split.
  split; [done|]. apply Forall_app_2; [eapply Forall_impl; [exact Hd|]; intros c'; by apply due_later|].
  constructor; [by apply (due_later _ w)|done].
Qed.

Context (polite : volume_polite).

Lemma lawful_statement {A} boundary w (t : Turn VolumeDb → VolumeTx A) :
  (∀ turn db a db', t turn db = Ok (a, db') → some_step db db') → lawful boundary w (statement schedule t).
Proof.
  intros Ht Hs Hd. destruct (await_tables schedule t w) as (Etick & Ecalls & Edb).
  change (await schedule t w) with (statement schedule t w) in *.
  assert (later w (statement schedule t w).2) as Hl.
  { split; [|lia]. pose proof (polite (w_tick w) (w_db w) Hs) as Ho.
    destruct Edb as [->|[a Ha]]; [done|]. eapply rtc_r; [exact Ho|]. by eapply Ht. }
  split; [done|]. by apply (all_due_later _ w).
Qed.

Lemma some_step_refl db : some_step db db.
Proof.
  exists 0. apply vs_environment. split; try done; [intros o l Hl; by exists l|intros o l Hl; congruence
    |intros p o l Hl; by exists l|intros p o l Hl; congruence].
Qed.

Lemma lawful_select {A} boundary w (f : Turn VolumeDb → VolumeDb → A) : lawful boundary w (select schedule f).
Proof. apply (lawful_statement boundary w (λ turn, gets (f turn))). intros turn db a db' [= _ <-]. apply some_step_refl. Qed.

(** The rules that need no thought. *)
Ltac lawful_rules :=
  repeat first
    [ apply lawful_ret | apply lawful_throw | apply lawful_lift | apply lawful_clock | apply lawful_select
    | apply lawful_infrastructure | apply lawful_attempt
    | apply lawful_bind; [|let a := fresh "a" in let w := fresh "w" in intros a w ? ? ?]
    | apply lawful_call; exact I
    | match goal with |- lawful _ _ (match ?x with _ => _ end) => destruct x eqn:? end
    | apply lawful_statement; let db := fresh "db" in intros ? db ? ? ?;
      first [by exists 0; eapply vs_observe | by eexists; econstructor] ].

(** ** The procedures *)

Lemma lawful_inspect boundary w s v : lawful boundary w (inspect s v).
Proof. unfold inspect, inspect_call. lawful_rules. Qed.

Lemma lawful_inspectForDeletion boundary w s v : lawful boundary w (inspectForDeletion s v).
Proof. unfold inspectForDeletion, inspect_call. lawful_rules. Qed.

Lemma lawful_issueRead boundary w s v ttl : lawful boundary w (issueRead schedule new_URL s v ttl).
Proof. unfold issueRead. lawful_rules. Qed.

Lemma lawful_issueWrite boundary w s v ttl key : lawful boundary w (issueWrite schedule new_URL s v ttl key).
Proof. unfold issueWrite, reserved_grant. lawful_rules. Qed.

Lemma lawful_grant boundary w s id o p m ttl : lawful boundary w (grant schedule new_URL s id o p m ttl).
Proof.
  unfold grant, get. lawful_rules; try apply lawful_inspect; try apply lawful_issueRead; apply lawful_issueWrite.
Qed.

Lemma validateCreateVolume_Ok input s : validateCreateVolume input = Ok s → 1 <= sz_limit_mb s.
Proof.
  unfold validateCreateVolume. destruct (_ || _); [done|]. destruct (negb _); [done|].
  destruct (valid_size _) as [n|] eqn:En; [|done]. destruct (safe_between _ _ _); [|done].
  intros Hs. apply result_bind_Ok in Hs as (g & _ & [= <-]). simpl.
  unfold valid_size in En. destruct (default _ _); [|done].
  destruct (_ && _) eqn:Eb; [|done]. injection En as <-. bool_simp. lia.
Qed.

Lemma lawful_create boundary w s input : lawful boundary w (create schedule new_URL sha256 s input).
Proof.
  unfold create. lawful_rules; try apply lawful_inspect; try apply lawful_issueWrite.
  apply lawful_statement. intros turn db x db' Ha. exists (t_now a1).
  match goal with E : lift (validateCreateVolume input) _ = _ |- _ =>
    apply lift_Ok in E as [E%validateCreateVolume_Ok _] end.
  eapply (vs_admit _ _ (new_volume input a a1).2); [| |exact Ha]; simpl; [unfold mebibyte; lia|done].
Qed.

(** ** Deletions *)

Lemma lawful_schedule_now boundary w s (v : Volume) t missing :
  due boundary w (CallScheduleDeletion (vo_organization_id v.2) (vo_project_id v.2) (vo_object_prefix v.2) t) →
  lawful boundary w (schedule_now schedule s v t missing).
Proof. intros Hd. unfold schedule_now, schedule_call. lawful_rules. by apply lawful_call. Qed.

(** A deletion in the tables is due at the end of its retention. *)
Lemma deletion_due w boundary i v d :
  volumes (w_db w) !! i = Some v → vo_deleted_at v = Some d →
  (boundary = true → ∃ n, (n < w_tick w)%nat ∧ d + retention <= t_now (schedule n)) →
  due boundary w (CallScheduleDeletion (vo_organization_id v) (vo_project_id v) (vo_object_prefix v) (d + retention)).
Proof. intros Hv Hd Hb. by exists i, v, d. Qed.

Lemma lawful_remove_enqueued w s id v t d :
  volumes (w_db w) !! id = Some v → vo_deleted_at v = Some d → t = d + retention →
  lawful (at_retention_boundary s) w (remove_enqueued schedule s id ((id, v), t)).
Proof.
  intros Hv Hd ->. unfold remove_enqueued. destruct (at_retention_boundary s) eqn:Es; [lawful_rules|].
  lawful_rules. apply lawful_call. simpl. apply (deletion_due _ _ id v d); [done..|congruence].
Qed.

Lemma lawful_remove w s id o p :
  lawful (match s with Some s => at_retention_boundary s | None => false end) w (remove schedule s id o p).
Proof.
  unfold remove. destruct s as [s|]; simpl; [|lawful_rules].
  lawful_rules; try apply lawful_inspectForDeletion.
  - match goal with E : lift (Ok s) _ = _ |- _ => apply lift_Ok in E as [[= ->] ->] end.
    match goal with E : statement _ _ _ = (Ok ?a, ?w) |- _ => apply await_Ok in E as (E & _ & _) end.
    match goal with d : (Volume * Z)%type |- _ => destruct d as [[i v] t] end.
    match goal with E : enqueueDeletion _ _ = _ |- _ => apply enqueueDeletion_Some in E as (-> & Hv & d & Hd & Ht) end.
    by eapply lawful_remove_enqueued.
Qed.

(** ** The worker *)

(** A claimed job is about a deleted volume. *)
Definition claimed_deletion (db : VolumeDb) (job : VolumeDeletionJob) : Prop :=
  ∃ v d, volumes db !! (dj_volume job).1 = Some v ∧ volume_keeps (dj_volume job).2 v ∧
    vo_deleted_at v = Some d ∧ dj_delete_after job = d + retention.

Lemma claimed_deletion_later db db' job :
  rtc some_step db db' → claimed_deletion db job → claimed_deletion db' job.
Proof.
  intros Hs (v & d & Hv & Hk & Hd & Ht). destruct (vt_volume _ _ (some_steps_le _ _ Hs) _ _ Hv) as (v' & Hv' & Hk').
  exists v', d. split_and!; [done|by etransitivity|by apply (vk_deleted _ _ Hk')|done].
Qed.

Lemma claimDeletionJobs_deleted input locked db jobs db' :
  volume_sound db → claimDeletionJobs input locked db = Ok (jobs, db') → Forall (claimed_deletion db') jobs.
Proof.
  intros [c Hinv]. unfold claimDeletionJobs. destruct (safe_between 1 1000 _) as [n|]; [|done].
  destruct (safe_between 1 3600 _) as [ttl|]; [|done]. intros [= <- <-]. apply Forall_forall.
  intros job Hjob. apply list_elem_of_omap in Hjob as ([i j] & Hin & Hj). simpl in Hj.
  destruct (volumes db !! i) as [v|] eqn:Ev; [|done]. injection Hj as <-.
  apply list_elem_of_fmap in Hin as ([i' j'] & [= -> ->] & Hin). unfold claim_batch in Hin.
  apply elem_of_take in Hin as (k & Hk & _). apply list_elem_of_lookup_2, sort_by_elem in Hk.
  apply list_elem_of_In, filter_In in Hk as [Hk _]. apply list_elem_of_In, elem_of_map_to_list in Hk.
  destruct (vi_job _ _ Hinv i' j' Hk) as (w & Hw & Hd & Ha). exists v, (jb_requested_at j'). simpl.
  split_and!; [done|done|congruence|done].
Qed.

Lemma lawful_deliver w s job :
  claimed_deletion (w_db w) job → lawful (at_retention_boundary s) w (deliver schedule s job).
Proof.
  intros Hjob. unfold deliver. apply lawful_bind; [apply lawful_clock|].
  intros started w1 Hs1 Hl1 [-> ->]%draw_Ok. destruct (_ && _) eqn:Eb; [unfold defer; lawful_rules|].
  apply lawful_bind; [|intros r w2 Hs2 Hl2 _; unfold defer; lawful_rules].
  apply lawful_attempt. eapply claimed_deletion_later in Hjob as (v & d & Hv & Hk & Hd & Ht); [|apply Hl1].
  apply lawful_schedule_now. exists (dj_volume job).1, v, d.
  split_and!; [done|apply (vk_organization _ _ Hk)|apply (vk_project _ _ Hk)|apply (vk_prefix _ _ Hk)|done|done|].
  intros E. rewrite E in Eb. simpl in *. exists (w_tick w). split; [simpl; lia|lia].
Qed.

Lemma lawful_deliver_all w s jobs :
  Forall (claimed_deletion (w_db w)) jobs →
  lawful (at_retention_boundary s) w (deliver_all schedule s jobs).
Proof.
  revert w. induction jobs as [|job jobs IH]; intros w Hjobs; simpl; [apply lawful_ret|].
  apply Forall_cons_1 in Hjobs as [Hjob Hjobs].
  apply lawful_bind; [by apply lawful_attempt, lawful_deliver|]. intros r w1 _ Hl _.
  apply lawful_bind; [|intros; apply lawful_ret]. apply IH.
  eapply Forall_impl; [exact Hjobs|]. intros x. apply claimed_deletion_later, Hl.
Qed.

Lemma lawful_run_worker w s limit : lawful (at_retention_boundary s) w (run_worker schedule s limit).
Proof.
  unfold run_worker. apply lawful_bind; [apply lawful_clock|]. intros started w1 Hs1 _ _.
  apply lawful_bind; [lawful_rules|]. intros n w2 Hs2 _ _.
  apply lawful_bind; [lawful_rules|]. intros claims w3 Hs3 _ Hc.
  apply lawful_bind; [|intros rs w4 _ _ _; lawful_rules]. apply lawful_deliver_all.
  apply await_Ok in Hc as (Hc & _ & _). eapply claimDeletionJobs_deleted; [|exact Hc].
  eapply sound_later; [exact Hs2|apply polite, Hs2].
Qed.
End logic.
