(* ===== verification/VolumeServiceTheorems.v ===== *)
(** * What the volume service promises

    Capabilities are backed by reservations, deletions are durable and wait for
    the end of their retention, and requests move the tables only along the steps
    the quota theorems are about. *)

From S2P Require Import Prelude Text Js Capacity Billing Volumes VolumeInv VolumeTheorems Awaiting.
From S2P Require Import VolumeService VolumeLogic.

(** ** Requests *)

Inductive VolumeRequest :=
| RequestCreate (input : CreateVolume)
| RequestGrant (id organizationId : string) (projectId : option string) (method : VolumeGrantMethod)
    (ttlSeconds : option number)
| RequestRemove (id organizationId : string) (projectId : option string)
| RunWorker (limit : option number).

Section theorems.
Context `{BillingAdmission VolumeDb}.
Context (schedule : nat → Turn VolumeDb) (new_URL : string → option Url) (sha256 : string → string).
Context (polite : volume_polite schedule).

(** One request after another, each to its end; those served at the same time
    are among the others of its turns. *)
Definition serve_volume (storage : VolumeObjectStore) (w : VolumeWorld) (q : VolumeRequest) : VolumeWorld :=
  match q with
  | RequestCreate input => (create schedule new_URL sha256 (Some storage) input w).2
  | RequestGrant id o p m ttl => (grant schedule new_URL (Some storage) id o p m ttl w).2
  | RequestRemove id o p => (remove schedule (Some storage) id o p w).2
  | RunWorker limit => (run_worker schedule storage limit w).2
  end.

Lemma served_lawfully storage w qs :
  volume_sound (w_db w) → all_due schedule (at_retention_boundary storage) w →
  let w' := foldl (serve_volume storage) w qs in
  later w w' ∧ all_due schedule (at_retention_boundary storage) w'.
Proof.
  revert w. induction qs as [|q qs IH]; intros w Hs Hd; simpl; [done|].
  assert (later w (serve_volume storage w q) ∧
          all_due schedule (at_retention_boundary storage) (serve_volume storage w q)) as [Hl Hd1].
  { destruct q; simpl;
      [by apply lawful_create|by apply lawful_grant|by apply (lawful_remove schedule polite w (Some storage))
      |by apply lawful_run_worker]. }
  destruct (IH (serve_volume storage w q)) as [Hl2 Hd2]; [eapply sound_later; [exact Hs|apply Hl]|done|].
  split; [by etransitivity|done].
Qed.

(** C26: Whatever requests are served, however the worker runs between them and
    whatever the store answers, the tables move only by steps of the repository,
    and the store is asked to delete an object prefix only for a volume that was
    deleted, for the moment seven days after its deletion; a store that deletes
    at once is asked no earlier than that moment. *)
Theorem objects_outlive_retention storage w qs organization project objectPrefix t :
  storage_start (w_db w) → w_calls w = [] →
  let w' := foldl (serve_volume storage) w qs in
  rtc some_step (w_db w) (w_db w') ∧
  (CallScheduleDeletion organization project objectPrefix t ∈ w_calls w' →
   ∃ id v d, volumes (w_db w') !! id = Some v ∧ vo_organization_id v = organization ∧
     vo_project_id v = project ∧ vo_object_prefix v = objectPrefix ∧
     vo_deleted_at v = Some d ∧ t = d + retention ∧
     (at_retention_boundary storage = true → ∃ n, (n < w_tick w')%nat ∧ d + retention <= t_now (schedule n))).
Proof.
  intros Hs Hc w'. destruct (served_lawfully storage w qs) as [Hl Hd].
  - exists 0. by apply storage_start_inv.
  - unfold all_due. by rewrite Hc.
  - split; [apply Hl|]. intros Hin. unfold all_due in Hd. rewrite Forall_forall in Hd. specialize (Hd _ Hin).
    destruct Hd as (id & v & d & Hv & Ho & Hp & Hx & Hdel & -> & Hb). exists id, v, d. by split_and!.
Qed.

(** ** Grants *)

Lemma replayed_reservation_row db id key now rid r :
  replayed_reservation db id key now = Some (rid, r) →
  reservations db !! rid = Some r ∧ rv_volume_id r = id.
Proof.
  unfold replayed_reservation. destruct key as [k|]; [|done]. simpl. intros Hh%head_Some_elem_of.
  apply sort_by_elem, list_elem_of_In, List.filter_In in Hh as [Hin Hp].
  split; [by apply elem_of_map_to_list, list_elem_of_In|]. unfold for_operation in Hp. simpl in Hp. by bool_simp.
Qed.

(** What a reservation leaves in the tables. *)
Lemma reserveWriteGrant_row now rid input v wr db db' :
  reserveWriteGrant now rid input db = Ok (Some (v, wr), db') →
  v.1 = ri_id input ∧ ∃ r, reservations db' !! wr_id wr = Some r ∧ rv_volume_id r = ri_id input ∧
    rv_maximum_bytes r = wr_maximum_bytes wr ∧ rv_expires_at r = wr_expires_at wr ∧
    ∃ x, volumes db' !! ri_id input = Some x ∧ volume_keeps x v.2.
Proof.
  intros [[? _]|(x & o & Hv & _ & _ & Hor)]%reserveWriteGrant_effect; [done|]. cbv zeta in Hor.
  destruct Hor as [[-> (i & row & Hr & [= -> ->])]|(r & (-> & _ & Hn) & -> & [= -> ->])]; simpl; (split; [done|]).
  - apply replayed_reservation_row in Hr as [Hr Eid]. exists row. split_and!; [done..|].
    rewrite lookup_insert_eq. by eexists.
  - rewrite lookup_insert_eq. eexists. split; [reflexivity|]. simpl. split_and!; [done..|].
    rewrite lookup_insert_eq. by eexists.
Qed.

Lemma validateGrant_Ok g e now :
  validateGrant new_URL g e now = Ok tt →
  gr_method g = ex_method e ∧ gr_object_prefix g = ex_object_prefix e ∧
  (∀ x, gr_expires_at g = Some x → now < x <= ex_expires_at e) ∧ gr_encryption_at_rest g = true ∧
  (ex_method e = PUT → ∃ n, gr_maximum_bytes g = Some (NInt n) ∧ 1 <= n <= default 0 (ex_maximum_bytes e)).
Proof.
  unfold validateGrant. destruct (new_URL _) as [url|]; [|done]. destruct (_ || _) eqn:Eb; [done|]. intros _.
  rewrite !orb_false_iff in Eb. destruct Eb as [[[[[[[[[[[Em Ep] _] _] _] _] Hle] Hgt] _] _] Henc] Hmax].
  apply negb_false_iff in Em, Ep, Henc. apply String.eqb_eq in Ep.
  split_and!; [by destruct (gr_method g), (ex_method e)|done| |done|].
  - intros x Ex. rewrite Ex in Hle, Hgt. simpl in *. lia.
  - intros E. rewrite E in Hmax. simpl in Hmax. destruct (gr_maximum_bytes g) as [n|]; simpl in Hmax; [|done].
    destruct (safe_between _ _ n) as [z|] eqn:Ez; [|done]. apply safe_between_Some in Ez as (-> & _ & Hz). by exists z.
Qed.

(** The upload capability [g] for [volume] is backed by a reservation. *)
Definition backed (db : VolumeDb) (volume : Volume) (g : VolumeObjectGrant) : Prop :=
  ∃ rid r v n, reservations db !! rid = Some r ∧ rv_volume_id r = volume.1 ∧ is_Some (rv_issued_at r) ∧
    volumes db !! volume.1 = Some v ∧ vo_deleted_at v = None ∧
    rv_observed_size r + rv_maximum_bytes r <= vo_size_limit_bytes v ∧
    gr_method g = PUT ∧ gr_object_prefix g = vo_object_prefix v ∧ gr_encryption_at_rest g = true ∧
    gr_maximum_bytes g = Some (NInt n) ∧ 1 <= n <= rv_maximum_bytes r ∧
    ∀ x, gr_expires_at g = Some x → x <= rv_expires_at r.

Lemma markWriteGrantIssued_true rid organization t db db' :
  markWriteGrantIssued rid organization t db = Ok (true, db') →
  ∃ r v, reservations db' !! rid = Some r ∧ is_Some (rv_issued_at r) ∧
    volumes db' !! rv_volume_id r = Some v ∧ vo_deleted_at v = None.
Proof.
  unfold markWriteGrantIssued. destruct (reservations db !! rid) as [r|]; [|done]. destruct (String.eqb _ _); [|done].
  destruct (own_volume db (rv_volume_id r) organization None) as [v|] eqn:Ev; [|done].
  apply own_volume_Some in Ev as [Hv _]. destruct (volume_live t v && _) eqn:El; [|done]. intros [= <-].
  apply andb_true_iff in El as [El _]. unfold volume_live in El. apply andb_true_iff in El as [El _]. bool_simp.
  eexists _, v. simpl. rewrite lookup_insert_eq. split; [reflexivity|]. simpl. split_and!; [|done..].
  by destruct (rv_issued_at r).
Qed.

Lemma statement_ran {A} (t : Turn VolumeDb → VolumeTx A) w a w' :
  statement schedule t w = (Ok a, w') → volume_sound (w_db w) →
  ∃ db, volume_sound db ∧ rtc some_step (w_db w) db ∧ t (schedule (w_tick w)) db = Ok (a, w_db w').
Proof.
  intros (Ht & _ & _)%await_Ok Hs. exists (others (schedule (w_tick w)) (w_db w)).
  pose proof (polite (w_tick w) (w_db w) Hs) as Ho. split_and!; [by eapply sound_later|done|done].
Qed.

Lemma reserved_grant_Ok storage v wr cap now w g w' :
  reserved_grant new_URL storage v wr cap now w = (Ok g, w') →
  w_db w' = w_db w ∧ gr_method g = PUT ∧ gr_object_prefix g = vo_object_prefix v.2 ∧
  (∀ x, gr_expires_at g = Some x → x <= wr_expires_at wr) ∧ gr_encryption_at_rest g = true ∧
  ∃ n, gr_maximum_bytes g = Some (NInt n) ∧ 1 <= n <= wr_maximum_bytes wr.
Proof.
  unfold reserved_grant. intros (g' & w1 & Hg & Hx)%act_bind_Ok.
  apply act_bind_Ok in Hx as ([] & w2 & [Hval ->]%lift_Ok & [= <- <-]).
  apply validateGrant_Ok in Hval as (Hm & Hp & Hex & Henc & Hmax). simpl in *.
  split_and!; [|done|done|intros x Ex; by apply Hex|done|by apply Hmax].
  unfold infrastructure, try_catch, store_call, call_with in Hg. destruct (answer_issueGrant _ _); by injection Hg as _ <-.
Qed.

Lemma issueWrite_backed storage volume ttl key w vg w' :
  volume_sound (w_db w) → issueWrite schedule new_URL storage volume ttl key w = (Ok (Some vg), w') →
  backed (w_db w') vg.1 vg.2.
Proof.
  intros Hs. unfold issueWrite. intros (issued & w1 & [-> ->]%draw_Ok & Hx)%act_bind_Ok.
  apply act_bind_Ok in Hx as (cap & w2 & [Ecap ->]%lift_Ok & Hx).
  apply act_bind_Ok in Hx as (settlement & w3 & [Eset ->]%lift_Ok & Hx).
  apply act_bind_Ok in Hx as (reserved & w4 & Hres & Hx).
  apply statement_ran in Hres as (db1 & Hs1 & Hr1 & Hres); [|done].
  destruct reserved as [[v wr]|]; [|done].
  apply act_bind_Ok in Hx as (g & w5 & Hg & Hx). apply reserved_grant_Ok in Hg as (Edb & Hm & Hp & Hex & Henc & n & Hn & Hle).
  apply act_bind_Ok in Hx as (fin & w6 & [-> ->]%draw_Ok & Hx).
  apply act_bind_Ok in Hx as (marked & w7 & Hmark & Hx). destruct marked; [|done]. injection Hx as <- <-.
  assert (volume_sound (w_db w4)) as Hs4 by (eapply sound_later; [exact Hs1|eapply rtc_once; eexists; by eapply vs_reserve]).
  apply reserveWriteGrant_row in Hres as (Eid & r & Hr & Evid & Emax & Eexp & x & Hvx & Hkx). simpl in *.
  rewrite <- Edb in Hs4, Hr, Hvx.
  apply statement_ran in Hmark as (db2 & Hs2 & Hr2 & Hmark); [|done]. simpl in *.
  assert (rtc some_step (w_db w5) (w_db w7)) as Hall
    by (eapply rtc_r; [exact Hr2|eexists; by eapply vs_issued]).
  pose proof (some_steps_le _ _ Hall) as Htle.
  destruct (vt_reservation _ _ Htle _ _ Hr) as (r' & Hr' & Ev' & Em' & Ee').
  destruct (vt_volume _ _ Htle _ _ Hvx) as (x' & Hx' & Hk').
  apply markWriteGrantIssued_true in Hmark as (r2 & v2 & Hr2' & Hiss & Hv2 & Hdel).
  assert (r2 = r') as -> by congruence. rewrite Ev', Evid in Hv2. assert (v2 = x') as -> by congruence.
  destruct (sound_later _ _ Hs4 Hall) as [c Hinv].
  destruct (vi_reservation _ _ Hinv _ _ Hr') as (y & Hy & _ & _ & _ & Hsum). rewrite Ev', Evid in Hy.
  assert (y = x') as -> by congruence.
  exists (wr_id wr), r', x', n. split_and!; try done; [congruence|by rewrite Eid| |lia|lia|].
  - by rewrite Hp, (vk_prefix _ _ Hkx), (vk_prefix _ _ Hk').
  - rewrite Ee', Eexp. exact Hex.
Qed.

Lemma inspect_tables storage v w r w' : inspect storage v w = (r, w') → w_db w' = w_db w.
Proof.
  unfold inspect, inspect_call, infrastructure. rewrite act_bind_eq. unfold try_catch, store_call, call_with.
  destruct (answer_inspect _ _); by intros [= _ <-].
Qed.

Lemma inspectForDeletion_tables storage v w r w' :
  inspectForDeletion storage v w = (r, w') → w_db w' = w_db w.
Proof.
  unfold inspectForDeletion, inspect_call. rewrite act_bind_eq. unfold attempt, store_call, call_with.
  destruct (answer_inspect _ _); by intros [= _ <-].
Qed.

Lemma select_ran {A} (f : Turn VolumeDb → VolumeDb → A) w a w' :
  select schedule f w = (Ok a, w') → volume_sound (w_db w) →
  volume_sound (w_db w') ∧ rtc some_step (w_db w) (w_db w') ∧ a = f (schedule (w_tick w)) (w_db w').
Proof.
  intros Hx Hs. destruct (statement_ran (λ t, gets (f t)) w a w' Hx Hs) as (db & Hs' & Hr & [= <- <-]). done.
Qed.

(** An upload capability is never handed out without a reservation.  When a
    creation or a grant answers with a capability, whatever else was served
    meanwhile and whatever the store answered, the tables hold an issued
    reservation of the answered volume, which is not deleted: the capability is
    for the volume's prefix, encrypted, for no more bytes than are reserved and for
    no longer than they are. *)
Theorem upload_is_reserved storage w :
  volume_sound (w_db w) →
  (∀ input v g replayed w', create schedule new_URL sha256 storage input w = (Ok ((v, g), replayed), w') →
     backed (w_db w') v g) ∧
  (∀ id organization project ttl v g w',
     grant schedule new_URL storage id organization project PUT ttl w = (Ok (Some (v, g)), w') →
     backed (w_db w') v g).
Proof.
  intros Hs. split.
  - intros input v g replayed w'. unfold create. intros (s & w1 & [Hval%validateCreateVolume_Ok ->]%lift_Ok & Hx)%act_bind_Ok.
    apply act_bind_Ok in Hx as (store & w2 & [_ ->]%lift_Ok & Hx).
    apply act_bind_Ok in Hx as (t & w3 & [-> ->]%draw_Ok & Hx).
    apply act_bind_Ok in Hx as (adm & w4 & Hadm & Hx). apply statement_ran in Hadm as (db1 & Hs1 & _ & Hadm); [|done].
    apply act_bind_Ok in Hx as (o & w5 & Ho%inspect_tables & Hx).
    apply act_bind_Ok in Hx as (issued & w6 & Hi & Hx). destruct issued as [vg|]; [|done]. injection Hx as -> <- <-.
    apply (issueWrite_backed _ _ _ _ _ (v, g) _) in Hi; [done|]. rewrite Ho.
    eapply sound_later; [exact Hs1|]. apply rtc_once. eexists. eapply vs_admit; [| |exact Hadm]; simpl; [|done].
    unfold mebibyte. lia.
  - intros id o p ttl v g w'. unfold grant, get. intros (found & w1 & Hf & Hx)%act_bind_Ok.
    apply act_bind_Ok in Hf as (t & w0 & [-> ->]%draw_Ok & Hf). apply select_ran in Hf as (Hs1 & _ & _); [|done].
    destruct found as [volume|]; [|done]. apply act_bind_Ok in Hx as (store & w2 & [_ ->]%lift_Ok & Hx).
    apply act_bind_Ok in Hx as (o' & w3 & Ho%inspect_tables & Hx).
    apply (issueWrite_backed _ _ _ _ _ (v, g) _) in Hx; [done|]. by rewrite Ho.
Qed.

(** ** Removal *)

Lemma deleted_stays db db' id v d :
  rtc some_step db db' → volumes db !! id = Some v → vo_deleted_at v = Some d →
  ∃ v', volumes db' !! id = Some v' ∧ vo_deleted_at v' = Some d.
Proof.
  intros Hs Hv Hd. destruct (vt_volume _ _ (some_steps_le _ _ Hs) _ _ Hv) as (v' & Hv' & Hk).
  exists v'. split; [done|]. by apply (vk_deleted _ _ Hk).
Qed.

Lemma deferDeletion_true input db db' :
  deferDeletion input db = Ok (true, db') →
  ∃ j, deletion_jobs db' !! di_volume_id input = Some j ∧ di_next_attempt_at input <= jb_next_attempt_at j.
Proof.
  unfold deferDeletion. destruct (deletion_jobs db !! _) as [j|]; [|done]. destruct (may_defer _ _); [|done].
  intros [= <-]. eexists. simpl. rewrite lookup_insert_eq. split; [reflexivity|]. simpl. lia.
Qed.

Lemma markDeletionScheduled_true id t db db' :
  markDeletionScheduled id t db = Ok (true, db') →
  ∃ j, deletion_jobs db' !! id = Some j ∧ is_Some (jb_scheduled_at j).
Proof.
  unfold markDeletionScheduled. destruct (deletion_jobs db !! _) as [j|]; [|done]. intros [= <-].
  eexists. simpl. rewrite lookup_insert_eq. split; [reflexivity|]. simpl. by destruct (jb_scheduled_at j).
Qed.

Lemma schedule_now_ran storage v t missing w u w' :
  schedule_now schedule storage v t missing w = (Ok u, w') → volume_sound (w_db w) →
  rtc some_step (w_db w) (w_db w') ∧ ∃ j, deletion_jobs (w_db w') !! v.1 = Some j ∧ is_Some (jb_scheduled_at j).
Proof.
  unfold schedule_now. intros ([] & w1 & Hc & Hx)%act_bind_Ok Hs.
  assert (w_db w1 = w_db w) as E.
  { unfold schedule_call, store_call, call_with in Hc. destruct (answer_scheduleDeletion _ _); by injection Hc as _ <-. }
  apply act_bind_Ok in Hx as (c & w2 & [-> ->]%draw_Ok & Hx).
  apply act_bind_Ok in Hx as (marked & w3 & Hm & Hx). destruct marked; [|done]. injection Hx as _ <-.
  apply statement_ran in Hm as (db & _ & Hr & Hm); [|simpl; by rewrite E]. simpl in *. rewrite E in Hr.
  split; [|by eapply markDeletionScheduled_true]. eapply rtc_r; [exact Hr|]. eexists. by eapply vs_scheduled.
Qed.

(** A removal that is acknowledged is durable: the volume is deleted, nobody
    finds it, and its deletion job is due seven days later; the job is done
    already, or with a store that deletes at once it waits for that moment. *)
Theorem removal_is_durable storage id organization project w i v t w' :
  volume_sound (w_db w) → remove schedule (Some storage) id organization project w = (Ok (Some ((i, v), t)), w') →
  i = id ∧ ∃ v' d j, volumes (w_db w') !! id = Some v' ∧ vo_deleted_at v' = Some d ∧ t = d + retention ∧
    deletion_jobs (w_db w') !! id = Some j ∧ jb_delete_after j = t ∧
    (if at_retention_boundary storage then t <= jb_next_attempt_at j else is_Some (jb_scheduled_at j)) ∧
    ∀ o p now, find_volume (w_db w') id o p now = None.
Proof.
  intros Hs. unfold remove. intros (found & w1 & Hf & Hx)%act_bind_Ok.
  apply select_ran in Hf as (Hs1 & _ & _); [|done]. destruct found as [volume|]; [|done].
  apply act_bind_Ok in Hx as (store & w2 & [[= <-] ->]%lift_Ok & Hx).
  apply act_bind_Ok in Hx as (req & w3 & [-> ->]%draw_Ok & Hx).
  apply act_bind_Ok in Hx as (o & w4 & Ho & Hx).
  assert (w_db w4 = w_db w1) as E.
  { destruct (vo_deleted_at volume.2); [by injection Ho as _ <-|by apply inspectForDeletion_tables in Ho]. }
  apply act_bind_Ok in Hx as (del & w5 & Hdel & Hx). apply statement_ran in Hdel as (db1 & Hs2 & _ & Hdel); [|by rewrite E].
  destruct del as [[[i' v1] t1]|]; [|done].
  assert (volume_sound (w_db w5)) as Hs5
    by (eapply sound_later; [exact Hs2|apply rtc_once; eexists; by eapply vs_enqueue]).
  pose proof (enqueueDeletion_Some _ _ _ _ _ _ Hdel) as (-> & Hv1 & d & Hd & ->). simpl in Hv1.
  assert (i = id ∧ t = d + retention ∧ rtc some_step (w_db w5) (w_db w') ∧
    ∃ j, deletion_jobs (w_db w') !! id = Some j ∧
      if at_retention_boundary storage then d + retention <= jb_next_attempt_at j else is_Some (jb_scheduled_at j))
    as (-> & -> & Hr & j & Hj & Hmode).
  { unfold remove_enqueued in Hx. simpl in Hx. destruct (at_retention_boundary storage).
    - apply act_bind_Ok in Hx as (c & w6 & [-> ->]%draw_Ok & Hx).
      apply act_bind_Ok in Hx as (b & w7 & Hb & Hx). destruct b; [|done]. injection Hx as <- <- <- <-.
      apply statement_ran in Hb as (db2 & _ & Hr & Hb); [|done]. simpl in Hr.
      split_and!; [done|done|eapply rtc_r; [exact Hr|eexists; by eapply vs_defer]|].
      apply (deferDeletion_true _ _ _ Hb).
    - apply act_bind_Ok in Hx as (r & w6 & Ha & Hx). unfold attempt in Ha.
      destruct (schedule_now _ _ _ _ _ _) as [q w6'] eqn:Eq. injection Ha as <- <-. destruct q as [u|e].
      + injection Hx as <- <- <- <-. apply schedule_now_ran in Eq as [Hr Hj]; [|done]. by split_and!.
      + exfalso. apply act_bind_Ok in Hx as (c & w7 & _ & Hx). apply act_bind_Ok in Hx as (b & w8 & _ & Hx). done. }
  split; [done|]. destruct (deleted_stays _ _ _ _ _ Hr Hv1 Hd) as (v' & Hv' & Hd').
  destruct (sound_later _ _ Hs5 Hr) as [c Hinv]. destruct (vi_job _ _ Hinv id j Hj) as (x & Hx' & Hdx & Hax).
  exists v', d, j. split_and!; [done|done|done|done|congruence|done|].
  intros o' p' now. unfold find_volume. destruct (own_volume_not _ id o' p' v' Hv') as [-> | ->]; [|done].
  simpl. by rewrite (deleted_not_live now v' d Hd').
Qed.

(** ** When every answer arrives *)

Context (delivered : ∀ n, delivery (schedule n) = Delivered).

(** A statement runs on sound tables that steps lead to, and its answer arrives. *)
Lemma statement_arrives {A} (t : Turn VolumeDb → VolumeTx A) w :
  volume_sound (w_db w) →
  ∃ db, volume_sound db ∧ rtc some_step (w_db w) db ∧
    match t (schedule (w_tick w)) db with
    | Ok (a, db') => statement schedule t w = (Ok a, mkWorld db' (S (w_tick w)) (w_calls w))
    | Err e => statement schedule t w = (Err e, mkWorld db (S (w_tick w)) (w_calls w))
    end.
Proof.
  intros Hs. exists (others (schedule (w_tick w)) (w_db w)). pose proof (polite (w_tick w) (w_db w) Hs) as Ho.
  split_and!; [by eapply sound_later|done|]. unfold statement, await, transaction. rewrite delivered.
  by destruct (t _ _) as [[a db']|e].
Qed.

Lemma clock_step {B} (k : Turn VolumeDb → VolumeAct B) w :
  (clock schedule ≫= k) w = k (schedule (w_tick w)) (mkWorld (w_db w) (S (w_tick w)) (w_calls w)).
Proof. done. Qed.

Lemma select_arrives {A} (f : Turn VolumeDb → VolumeDb → A) w :
  volume_sound (w_db w) →
  ∃ db, volume_sound db ∧ rtc some_step (w_db w) db ∧
    select schedule f w = (Ok (f (schedule (w_tick w)) db), mkWorld db (S (w_tick w)) (w_calls w)).
Proof. intros Hs. destruct (statement_arrives (λ t, gets (f t)) w Hs) as (db & ? & ? & E). by exists db. Qed.

(** A volume with a deletion job is deleted. *)
Lemma own_deleted db id organization project v j :
  volume_sound db → own_volume db id organization project = Some v → deletion_jobs db !! id = Some j →
  is_Some (vo_deleted_at v).
Proof.
  intros [c Hinv] [Hv _]%own_volume_Some Hj. destruct (vi_job _ _ Hinv id j Hj) as (x & Hx & Hd & _).
  simplify_eq. by eexists.
Qed.

Lemma own_volume_later db db' id organization project v :
  rtc some_step db db' → own_volume db id organization project = Some v →
  ∃ v', own_volume db' id organization project = Some v' ∧ volume_keeps v v'.
Proof.
  unfold own_volume. intros Hs Hv. apply bind_Some in Hv as (x & Hx & Hv).
  destruct (in_scope _ _ x) eqn:Ei; [|done]. injection Hv as <-.
  destruct (vt_volume _ _ (some_steps_le _ _ Hs) _ _ Hx) as (x' & Hx' & Hk). exists x'. rewrite Hx'. simpl.
  unfold in_scope in *. by rewrite (vk_organization _ _ Hk), (vk_project _ _ Hk), Ei.
Qed.

Lemma scheduled_later db db' id j :
  rtc some_step db db' → deletion_jobs db !! id = Some j → is_Some (jb_scheduled_at j) →
  ∃ j', deletion_jobs db' !! id = Some j' ∧ is_Some (jb_scheduled_at j').
Proof.
  intros Hs Hj [x Hx]. destruct (vt_job _ _ (some_steps_le _ _ Hs) _ _ Hj) as (j' & Hj' & Hle).
  exists j'. split; [done|]. exists x. by apply (jl_scheduled _ _ Hle).
Qed.

(** A deletion is enqueued again, and its job stays done. *)
Lemma enqueue_arrives input w v j :
  volume_sound (w_db w) →
  own_volume (w_db w) (eq_id input) (eq_organization_id input) (eq_project_id input) = Some v →
  deletion_jobs (w_db w) !! eq_id input = Some j → is_Some (jb_scheduled_at j) →
  ∃ vol t w', statement schedule (λ _, enqueueDeletion input) w = (Ok (Some (vol, t)), w') ∧
    volume_sound (w_db w') ∧ ∃ j', deletion_jobs (w_db w') !! eq_id input = Some j' ∧ is_Some (jb_scheduled_at j').
Proof.
  intros Hs Hv Hj Hdone. destruct (statement_arrives (λ _, enqueueDeletion input) w Hs) as (db & Hs1 & Hr & E).
  destruct (own_volume_later _ _ _ _ _ _ Hr Hv) as (v1 & Hv1 & _).
  destruct (scheduled_later _ _ _ _ Hr Hj Hdone) as (j1 & Hj1 & Hdone1).
  destruct (enqueueDeletion input db) as [[r db']|e] eqn:Ee; [|unfold enqueueDeletion in Ee; by rewrite Hv1 in Ee].
  assert (some_step db db') as Hstep by (eexists; by eapply vs_enqueue).
  destruct r as [[vol t]|]; [|unfold enqueueDeletion in Ee; by rewrite Hv1 in Ee].
  exists vol, t, (mkWorld db' (S (w_tick w)) (w_calls w)). split; [exact E|]. simpl.
  split; [by eapply sound_later, rtc_once|]. by eapply scheduled_later; [apply rtc_once|..].
Qed.

Lemma defer_refused input w j :
  volume_sound (w_db w) → deletion_jobs (w_db w) !! di_volume_id input = Some j → is_Some (jb_scheduled_at j) →
  ∃ w', statement schedule (λ _, deferDeletion input) w = (Ok false, w').
Proof.
  intros Hs Hj Hdone. destruct (statement_arrives (λ _, deferDeletion input) w Hs) as (db & _ & Hr & E).
  destruct (scheduled_later _ _ _ _ Hr Hj Hdone) as (j1 & Hj1 & [x Hx]). unfold deferDeletion at 1 in E.
  rewrite Hj1 in E. unfold may_defer in E. rewrite Hx, bool_decide_eq_false_2 in E by done. simpl in E. by eexists.
Qed.

(** Removal is not idempotent with a store that deletes at once.  Once the
    volume's objects are gone and its job is done, removing the volume again is
    answered as an unavailable infrastructure, whoever else is served meanwhile. *)
Theorem removal_after_completion_fails storage id organization project w v j :
  volume_sound (w_db w) → at_retention_boundary storage = true →
  own_volume (w_db w) id organization project = Some v →
  deletion_jobs (w_db w) !! id = Some j → is_Some (jb_scheduled_at j) →
  ∃ w', remove schedule (Some storage) id organization project w =
    (Err (VolumeInfrastructureUnavailable "The durable volume retention request could not be finalized."), w').
Proof.
  intros Hs Hb Hv Hj Hdone. unfold remove.
  destruct (select_arrives (λ _ db, findForDeletion db id organization project) w Hs) as (db1 & Hs1 & Hr1 & E1).
  destruct (own_volume_later _ _ _ _ _ _ Hr1 Hv) as (v1 & Hv1 & _).
  destruct (scheduled_later _ _ _ _ Hr1 Hj Hdone) as (j1 & Hj1 & Hdone1).
  destruct (own_deleted _ _ _ _ _ _ Hs1 Hv1 Hj1) as [d Hd].
  unfold findForDeletion in E1. rewrite Hv1 in E1. rewrite (act_bind_step _ _ _ _ _ E1). cbn [fmap option_fmap option_map].
  cbn [require_storage]. rewrite lift_step, clock_step. cbn [snd]. rewrite Hd, ret_step. cbn [w_db w_tick w_calls].
  edestruct enqueue_arrives as (vol & t & w3 & E3 & Hs3 & j3 & Hj3 & Hdone3); [| | | |].
  5: { rewrite (act_bind_step _ _ _ _ _ E3). unfold remove_enqueued. rewrite Hb, clock_step.
    edestruct defer_refused as [w5 E5]; [| | |rewrite (act_bind_step _ _ _ _ _ E5); by eexists]; done. }
  all: done.
Qed.

(** C27: When the store accepts what it is asked and the database answers every
    statement, a claimed deletion that is due is carried out, whatever other
    transactions run meanwhile: the object prefix is scheduled for deletion at the
    end of the retention, in one call to the store, and the job is done. *)
Theorem due_deletion_completes storage job w j :
  volume_sound (w_db w) → deletion_jobs (w_db w) !! (dj_volume job).1 = Some j →
  (at_retention_boundary storage = true → dj_delete_after job <= t_now (schedule (w_tick w))) →
  (∀ calls, answer_scheduleDeletion storage calls = Ok tt) →
  ∃ w', deliver schedule storage job w = (Ok Scheduled, w') ∧
    (∃ j', deletion_jobs (w_db w') !! (dj_volume job).1 = Some j' ∧ is_Some (jb_scheduled_at j')) ∧
    let v := (dj_volume job).2 in
    w_calls w' = w_calls w ++ [CallScheduleDeletion (vo_organization_id v) (vo_project_id v) (vo_object_prefix v)
                                 (dj_delete_after job)].
Proof.
  intros Hs Hj Hdue Hok. unfold deliver. rewrite clock_step.
  assert (at_retention_boundary storage && (t_now (schedule (w_tick w)) <? dj_delete_after job) = false) as ->.
  { destruct (at_retention_boundary storage); [|done]. simpl. specialize (Hdue eq_refl). lia. }
  set (w1 := mkWorld (w_db w) _ _). unfold schedule_now, schedule_call.
  set (c := CallScheduleDeletion _ _ _ _). set (w2 := mkWorld (w_db w) (S (w_tick w)) (w_calls w ++ [c])).
  assert (store_call c (answer_scheduleDeletion storage) w1 = (Ok tt, w2)) as Ec
    by (unfold store_call, call_with; by rewrite Hok).
  set (w3 := mkWorld (w_db w) (S (S (w_tick w))) (w_calls w ++ [c])).
  destruct (statement_arrives (λ _, markDeletionScheduled (dj_volume job).1 (t_now (schedule (w_tick w2)))) w3 Hs)
    as (db & Hs1 & Hr & E).
  destruct (vt_job _ _ (some_steps_le _ _ Hr) _ _ Hj) as (j1 & Hj1 & _).
  unfold markDeletionScheduled in E at 1. rewrite Hj1 in E. set (db' := db <| deletion_jobs ::= _ |>) in E.
  exists (mkWorld db' (S (w_tick w3)) (w_calls w3)). split; [|split; [|done]].
  - assert (schedule_now schedule storage (dj_volume job) (dj_delete_after job)
      (VolumePlainError "volume deletion job disappeared before completion") w1 =
      (Ok tt, mkWorld db' (S (w_tick w3)) (w_calls w3))) as En.
    { unfold schedule_now, schedule_call. fold c. rewrite (act_bind_step _ _ _ _ _ Ec), clock_step.
      rewrite (act_bind_step _ _ _ _ _ E). done. }
    unfold attempt. rewrite act_bind_eq. unfold schedule_now, schedule_call in En. fold c in En. by rewrite En.
  - eexists. simpl. rewrite lookup_insert_eq. split; [reflexivity|]. simpl. by destruct (jb_scheduled_at j1).
Qed.
End theorems.

(** ** Witnesses *)

(** A store that deletes at once and grants what it is asked for. *)
Definition demo_answer (calls : list StoreCall) : result VolumeError VolumeObjectGrant :=
  match last calls with
  | Some (CallIssueGrant i) =>
      Ok (mkGrant (gi_method i) "https://store.example/upload" (gi_object_prefix i)
            (gi_capability_expires_at i) true None (NInt <$> gi_maximum_bytes i))
  | _ => Err unavailable
  end.
Definition demo_store : VolumeObjectStore :=
  mkStore true (Some (NInt 60)) (λ _, Ok (NInt 20)) demo_answer (λ _, Ok tt).
Definition demo_URL (_ : string) : option Url := Some (mkUrl "https:" "" "" "").

(** Nobody else is served; after eleven statements twelve days have passed. *)
Definition volume_turn (n : nat) : Turn VolumeDb :=
  let now := if Nat.ltb n 11 then 5000 + Z.of_nat n else 1000000000 + Z.of_nat n in
  mkTurn id now now (λ k, "r" +:+ pretty (Z.of_nat n)) ∅ Delivered.

Lemma volume_turn_polite : volume_polite volume_turn.
Proof. intros n db _. apply rtc_refl. Qed.

Lemma ok_ran {A} (m : VolumeAct A) w : is_ok (m w).1 = true → ∃ a, m w = (Ok a, (m w).2).
Proof. destruct (m w) as [[a|e] w']; [by exists a|done]. Qed.

Definition demo_input : CreateVolume :=
  mkCreateVolume demo_org demo_project (Some (NInt 1)) (Some (NInt 3600)) None "key".
Definition demo_volume_world : VolumeWorld := mkWorld demo_tables 0 [].
Definition demo_requests : list VolumeRequest :=
  [RequestCreate demo_input; RequestRemove "vol_r0" demo_org None; RunWorker None].
Definition demo_served : VolumeWorld := foldl (serve_volume volume_turn demo_URL id demo_store) demo_volume_world demo_requests.
Definition demo_prefix : string :=
  "organizations/" +:+ demo_org +:+ "/projects/" +:+ demo_project +:+ "/volumes/vol_r0/".

Lemma objects_outlive_retention_witness :
  ∃ id v d, volumes (w_db demo_served) !! id = Some v ∧ vo_object_prefix v = demo_prefix ∧
    vo_deleted_at v = Some d ∧ 5007 + retention = d + retention ∧
    ∃ n, (n < w_tick demo_served)%nat ∧ d + retention <= t_now (volume_turn n).
Proof.
  destruct (objects_outlive_retention volume_turn demo_URL id volume_turn_polite demo_store demo_volume_world demo_requests
              demo_org demo_project demo_prefix (5007 + retention)) as [_ Hd].
  - exact demo_storage_start.
  - reflexivity.
  - destruct Hd as (i & v & d & Hv & _ & _ & Hx & Hdel & Ht & Hn).
    + apply list_elem_of_In. vm_compute. tauto.
    + exists i, v, d. split; [exact Hv|]. split; [exact Hx|]. split; [exact Hdel|]. split; [exact Ht|].
      apply Hn. reflexivity.
Defined.

Lemma demo_sound : volume_sound demo_tables.
Proof. exists 0. apply storage_start_inv, demo_storage_start. Qed.

Lemma upload_is_reserved_witness :
  ∃ v g replayed w', create volume_turn demo_URL id (Some demo_store) demo_input demo_volume_world = (Ok ((v, g), replayed), w') ∧
    backed (w_db w') v g.
Proof.
  destruct (ok_ran (create volume_turn demo_URL id (Some demo_store) demo_input) demo_volume_world) as [[[v g] replayed] E].
  - vm_compute. reflexivity.
  - exists v, g, replayed, (create volume_turn demo_URL id (Some demo_store) demo_input demo_volume_world).2.
    split; [exact E|].
    exact (proj1 (upload_is_reserved volume_turn demo_URL id volume_turn_polite (Some demo_store) demo_volume_world demo_sound)
             demo_input v g replayed _ E).
Defined.

Definition demo_full : VolumeWorld := mkWorld demo_third 0 [].
Lemma demo_full_sound : volume_sound demo_third.
Proof. exists 2500. apply reachable_volumes, demo_third_reachable. Qed.

Lemma removal_is_durable_witness :
  ∃ i v t w', remove volume_turn (Some demo_store) "vol_1" demo_org None demo_full = (Ok (Some ((i, v), t)), w') ∧
    i = "vol_1" ∧ ∃ v' d j, volumes (w_db w') !! "vol_1" = Some v' ∧ vo_deleted_at v' = Some d ∧ t = d + retention ∧
      deletion_jobs (w_db w') !! "vol_1" = Some j ∧ jb_delete_after j = t ∧ t <= jb_next_attempt_at j ∧
      ∀ o p now, find_volume (w_db w') "vol_1" o p now = None.
Proof.
  assert (match (remove volume_turn (Some demo_store) "vol_1" demo_org None demo_full).1 with
          | Ok (Some _) => true | _ => false end = true) as Hok by (vm_compute; reflexivity).
  destruct (remove volume_turn (Some demo_store) "vol_1" demo_org None demo_full) as [[[[[i v] t]|]|e] w'] eqn:E;
    [|discriminate Hok|discriminate Hok].
  exists i, v, t, w'. split; [reflexivity|].
  exact (removal_is_durable volume_turn volume_turn_polite demo_store "vol_1" demo_org None demo_full i v t w'
           demo_full_sound E).
Defined.

Definition demo_completed : VolumeDb := run (markDeletionScheduled "vol_1" 700000000) demo_deleted.

Lemma demo_deleted_sound : volume_sound demo_deleted.
Proof.
  eapply sound_later; [exact demo_full_sound|]. apply rtc_once.
  destruct (ran (enqueueDeletion demo_deletion) demo_third) as [a Ha]; [vm_compute; reflexivity|].
  exists 5000. exact (vs_enqueue demo_deletion a _ _ Ha).
Qed.

Lemma demo_completed_sound : volume_sound demo_completed.
Proof.
  eapply sound_later; [exact demo_deleted_sound|]. apply rtc_once.
  destruct (ran (markDeletionScheduled "vol_1" 700000000) demo_deleted) as [b Hb]; [vm_compute; reflexivity|].
  exists 700000000. exact (vs_scheduled "vol_1" 700000000 b _ _ Hb).
Qed.

Lemma removal_after_completion_fails_witness :
  ∃ w', remove volume_turn (Some demo_store) "vol_1" demo_org None (mkWorld demo_completed 0 []) =
    (Err (VolumeInfrastructureUnavailable "The durable volume retention request could not be finalized."), w').
Proof.
  apply (removal_after_completion_fails volume_turn volume_turn_polite (λ _, eq_refl) demo_store "vol_1" demo_org None
           (mkWorld demo_completed 0 []) (demo_observed <| vo_deleted_at := Some 5000 |>)
           (mkJob demo_org demo_project (5000 + retention) 5000 5000 0 None None None (Some 700000000) None 700000000)).
  - exact demo_completed_sound.
  - reflexivity.
  - vm_compute. reflexivity.
  - vm_compute. reflexivity.
  - exists 700000000. reflexivity.
Defined.

Lemma due_deletion_completes_witness :
  ∃ w', deliver volume_turn demo_store
      (mkDeletionJob ("vol_1", demo_observed <| vo_deleted_at := Some 5000 |>) (5000 + retention) 1 "claim")
      (mkWorld demo_deleted 11 []) = (Ok Scheduled, w') ∧
    ∃ j', deletion_jobs (w_db w') !! "vol_1" = Some j' ∧ is_Some (jb_scheduled_at j').
Proof.
  destruct (due_deletion_completes volume_turn volume_turn_polite (λ _, eq_refl) demo_store
    (mkDeletionJob ("vol_1", demo_observed <| vo_deleted_at := Some 5000 |>) (5000 + retention) 1 "claim")
    (mkWorld demo_deleted 11 []) (mkJob demo_org demo_project (5000 + retention) 5000 5000 0 None None None None None 5000))
    as (w' & E & Hj & _).
  - exact demo_deleted_sound.
  - vm_compute. reflexivity.
  - intros _. vm_compute. discriminate.
  - reflexivity.
  - exists w'. split; [exact E|exact Hj].
Defined.
