(* ===== verification/Templates.v ===== *)
(** * Templates

    src/apps/nehemiah/src/domain/templates.ts: the repository of templates and
    the replicas queued with them, and the service that publishes a machine's
    snapshot; src/apps/nehemiah/src/jobs/replicate-template.ts: the queue of
    replicas and the job that takes one at a time through the object store and the
    host.  The store, the hosts and the resolver of machines are parameters: each
    may answer any call in any way, and what it answers may depend on every call
    made before. *)

From S2P Require Import Prelude Text Js Capacity Lifecycle Awaiting.

(** ** Data *)

Record TemplateManifest := mkManifest {
  schema_version : Z;
  format : string;
  tm_architecture : string;
  source_machine_id : string;
  artifact_object_key : string;
  artifact_checksum : string;
  artifact_size_bytes : Z
}.

Record TemplateRow := mkTemplate {
  te_organization_id : string;
  te_project_id : string;
  te_name : string;
  te_version : string;
  te_host_template_name : string;
  te_source_machine_id : string;
  te_manifest : TemplateManifest;
  te_object_key : string;
  te_checksum : string;
  te_size_bytes : Z;
  te_created_at : Z;
  te_deleted_at : option Z
}.
#[export] Instance TemplateRow_eta : Settable TemplateRow := λ r,
  mkTemplate (te_organization_id r) (te_project_id r) (te_name r) (te_version r) (te_host_template_name r)
    (te_source_machine_id r) (te_manifest r) (te_object_key r) (te_checksum r) (te_size_bytes r)
    (te_created_at r) (te_deleted_at r).

(** A template with its [id]. *)
Definition Template : Type := string * TemplateRow.

Inductive ReplicaState := ReplicaRequested | ReplicaPulling | ReplicaReady | ReplicaFailed.

#[export] Instance ReplicaState_eq_dec : EqDecision ReplicaState.
Proof. solve_decision. Defined.

Record ReplicaRow := mkReplica {
  re_state : ReplicaState;
  re_progress : Z;
  re_verified_checksum : option string;
  re_error : option string;
  re_updated_at : Z
}.

(** The columns of [hosts] and [machines] the component reads. *)
Record TemplateHost := mkTemplateHost {
  th_architecture : string;
  th_state : HostState;
  th_address : string
}.

Record TemplateMachine := mkTemplateMachine {
  tk_organization_id : string;
  tk_template_id : option string;
  tk_state : MachineState
}.

Record TemplateDb := mkTemplateDb {
  templates : gmap string TemplateRow;
  template_replicas : gmap (string * string) ReplicaRow;
  template_hosts : gmap string TemplateHost;
  template_machines : gmap string TemplateMachine;
  template_projects : gset (string * string)
}.
#[export] Instance TemplateDb_eta : Settable TemplateDb := λ r,
  mkTemplateDb (templates r) (template_replicas r) (template_hosts r) (template_machines r) (template_projects r).

Inductive TemplateError :=
| InvalidTemplateRequest (message : string)
| TemplateSourceNotFound
| TemplateSourceNotReady
| TemplateVersionConflict
| TemplateInfrastructureUnavailable (message : string)
| TemplateIntegrityError (message : string)
| UniqueViolation (constraint : string)
| TemplatePlainError (message : string).

Definition isUniqueViolation (e : TemplateError) : bool :=
  match e with UniqueViolation _ => true | _ => false end.

Definition TemplateTx : Type → Type := Tx TemplateDb TemplateError.

(** ** Patterns *)

Definition templateNameChar (c : ascii) : bool := lower_alnum c || one_of "._-" c.
Definition templateNamePattern : re := Cat (Chr lower_alnum) (rep 0 62 (Chr templateNameChar)).
Definition templateVersionChar (c : ascii) : bool := alnum c || one_of "._+-" c.
Definition templateVersionPattern : re := Cat (Chr alnum) (rep 0 63 (Chr templateVersionChar)).
Definition tenantSegmentChar (c : ascii) : bool := alnum c || one_of "_-" c.
Definition tenantSegmentPattern : re := Cat (Chr alnum) (rep 0 127 (Chr tenantSegmentChar)).
Definition checksumPattern : re := Cat (lit "sha256:") (rep_exact 64 (Chr hex_lower)).
Definition machineIdPattern : re := Cat (lit "m_") (rep 1 126 (Chr tenantSegmentChar)).
Definition hostTemplateNamePattern : re := Cat (lit "t-") (rep_exact 29 (Chr hex_lower)).

Definition maximumArtifactBytes : Z := 5 * 1024 * 1024 * 1024.

Definition validTemplateChecksum (value : string) : bool := test checksumPattern value.

(** What a host or the store says of an artifact. *)
Record Artifact := mkArtifact { checksum : string; sizeBytes : number }.

Definition validArtifact (value : Artifact) : bool :=
  validTemplateChecksum (checksum value) &&
  match safe_between 1 maximumArtifactBytes (sizeBytes value) with Some _ => true | None => false end.

(** [===] on numbers: what is not integral is not one value. *)
Definition number_eqb (a b : number) : bool :=
  match a, b with NInt x, NInt y => x =? y | _, _ => false end.

Definition same_artifact (a b : Artifact) : bool :=
  String.eqb (checksum a) (checksum b) && number_eqb (sizeBytes a) (sizeBytes b).

(** ** The repository *)

Definition schedulable (h : TemplateHost) : bool :=
  match th_state h with HostReady | HostDraining => true | _ => false end.

Definition requested_replica (now : Z) : ReplicaRow := mkReplica ReplicaRequested 0 None None now.

(** [INSERT INTO template_replicas ... ON CONFLICT DO NOTHING] for one template. *)
Definition queued_hosts (db : TemplateDb) (architecture : string) : list string :=
  (List.filter (λ kv, String.eqb (th_architecture kv.2) architecture && schedulable kv.2)
     (map_to_list (template_hosts db))).*1.

Definition queue_replica (now : Z) (key : string * string) (replicas : gmap (string * string) ReplicaRow)
    : gmap (string * string) ReplicaRow :=
  match replicas !! key with Some _ => replicas | None => <[key := requested_replica now]> replicas end.

Definition queue_all (now : Z) (keys : list (string * string)) (db : TemplateDb) : TemplateDb :=
  db <| template_replicas ::= λ r, foldr (queue_replica now) r keys |>.

Definition in_template_scope (organization : string) (project : option string) (t : TemplateRow) : bool :=
  String.eqb (te_organization_id t) organization &&
  match project with None => true | Some p => String.eqb (te_project_id t) p end.

Definition template_live (t : TemplateRow) : bool := bool_decide (te_deleted_at t = None).

Definition list_templates (organization : string) (project : option string) (includeDeleted : bool)
    (db : TemplateDb) : list Template :=
  sort_by (λ a b : Template,
      if te_created_at a.2 =? te_created_at b.2 then codeUnitCompare a.1 b.1
      else te_created_at b.2 - te_created_at a.2)
    (List.filter (λ kv, in_template_scope organization project kv.2 && (includeDeleted || template_live kv.2))
       (map_to_list (templates db))).

Definition same_version (project name version : string) (t : TemplateRow) : bool :=
  String.eqb (te_project_id t) project && String.eqb (te_name t) name && String.eqb (te_version t) version.

Definition findVersion (organization project name version : string) (db : TemplateDb) : option Template :=
  find (λ kv, String.eqb (te_organization_id kv.2) organization && same_version project name version kv.2)
    (map_to_list (templates db)).

(** The constraints of the table, in the order the server meets them: the checks
    of the row, its unique keys, then its references. *)
Definition insert_violation (t : Template) (db : TemplateDb) : option TemplateError :=
  let '(id, row) := t in
  let others (p : TemplateRow → bool) := existsb (λ kv, p kv.2) (map_to_list (templates db)) in
  if negb (test hostTemplateNamePattern (te_host_template_name row)) then
    Some (TemplatePlainError "templates_host_template_name_check")
  else if negb (validTemplateChecksum (te_checksum row)) then Some (TemplatePlainError "templates_checksum_check")
  else if te_size_bytes row <? 0 then Some (TemplatePlainError "templates_size_bytes_check")
  else if bool_decide (is_Some (templates db !! id)) then Some (UniqueViolation "templates_pkey")
  else if others (λ o, String.eqb (te_host_template_name o) (te_host_template_name row)) then
    Some (UniqueViolation "templates_host_template_name_key")
  else if others (same_version (te_project_id row) (te_name row) (te_version row)) then
    Some (UniqueViolation "templates_project_id_name_version_key")
  else if negb (bool_decide ((te_project_id row, te_organization_id row) ∈ template_projects db)) then
    Some (TemplatePlainError "templates_project_id_organization_id_fkey")
  else match template_machines db !! te_source_machine_id row with
       | Some m => if String.eqb (tk_organization_id m) (te_organization_id row) then None
                   else Some (TemplatePlainError "templates_source_machine_id_organization_id_fkey")
       | None => Some (TemplatePlainError "templates_source_machine_id_organization_id_fkey")
       end.

(** [created_at] is the database's clock, whatever the template says. *)
Definition insert_template (now : Z) (t : Template) : TemplateTx unit := λ db,
  match insert_violation t db with
  | Some e => Err e
  | None =>
      Ok (tt, queue_all now (pair t.1 <$> queued_hosts db (tm_architecture (te_manifest t.2)))
                (db <| templates ::= <[t.1 := t.2 <| te_created_at := now |> <| te_deleted_at := None |>]> |>))
  end.

Inductive TemplateDeleteResult := TemplateDeleted | TemplateInUse | TemplateMissing.

Definition names_template (idOrVersion organization : string) (project : option string) (kv : Template) : bool :=
  in_template_scope organization project kv.2 && template_live kv.2 &&
  (String.eqb kv.1 idOrVersion ||
   match project with
   | Some _ => String.eqb (te_name kv.2 +:+ "@" +:+ te_version kv.2) idOrVersion
   | None => false
   end).

(** [state NOT IN ('stopped', 'failed', 'lost')] on the template's machines. *)
Definition in_use (templateId : string) (db : TemplateDb) : bool :=
  existsb (λ kv, bool_decide (tk_template_id kv.2 = Some templateId) && negb (terminal (tk_state kv.2)))
    (map_to_list (template_machines db)).

Definition drop_template (now : Z) (templateId : string) (db : TemplateDb) : TemplateDb :=
  db <| templates ::= alter (λ t, t <| te_deleted_at := Some now |>) templateId |>
     <| template_replicas ::= filter (λ kv, kv.1.1 ≠ templateId) |>.

Definition remove_template (now : Z) (idOrVersion organization : string) (project : option string)
    : TemplateTx TemplateDeleteResult := λ db,
  match find (names_template idOrVersion organization project) (map_to_list (templates db)) with
  | None => Ok (TemplateMissing, db)
  | Some (templateId, _) =>
      if in_use templateId db then Ok (TemplateInUse, db)
      else Ok (TemplateDeleted, drop_template now templateId db)
  end.

(** ** The collaborators *)

Inductive ObjectGrantMethod := GrantGET | GrantPUT.

Record ScopedObjectGrant := mkScopedGrant {
  og_method : ObjectGrantMethod;
  og_url : string;
  og_headers : option (list (string * string));
  og_expires_at : option Z
}.

Record TemplateSourceMachine := mkSourceMachine {
  sm_id : string;
  sm_organizationId : string;
  sm_projectId : string;
  sm_state : string;
  sm_ready : bool;
  sm_architecture : string;
  sm_hostId : option string;
  sm_hostAddress : option string;
  sm_hostMachineId : option string;
  sm_leaseId : string;
  sm_expiresAt : option Z
}.

(** The lease a host is asked about. *)
Record HostExport := mkHostExport {
  address : string;
  hostMachineId : string;
  leaseId : string;
  exportId : string
}.

Inductive TemplateCall :=
| GetMachine (id organizationId projectId : string)
| CreateUploadGrant (objectKey : string) (artifact : Artifact) (expiresAt : Z)
| CreateDownloadGrant (objectKey : string) (expiresAt : Z)
| StatObject (objectKey : string)
| DeleteObject (objectKey : string)
| ExportTemplate (input : HostExport)
| UploadTemplate (input : HostExport) (artifact : Artifact) (upload : ScopedObjectGrant)
| DiscardExport (input : HostExport)
| ActivateTemplate (hostAddress hostTemplateName architecture : string) (artifact : Artifact)
    (download : ScopedObjectGrant).

(** An answer to the calls made so far. *)
Definition Answer (A : Type) : Type := list TemplateCall → result TemplateError A.

Record TemplateMachineResolver := mkResolver { on_get : Answer (option TemplateSourceMachine) }.

Record TemplateObjectStore := mkObjectStore {
  on_createUploadGrant : Answer ScopedObjectGrant;
  on_createDownloadGrant : Answer ScopedObjectGrant;
  on_stat : Answer Artifact;
  on_delete : Answer unit
}.

Record TemplatePublisher := mkPublisher {
  on_export : Answer (string * Artifact);
  on_upload : Answer Artifact;
  on_discard : Answer unit
}.

Abbreviation TemplateWorld := (World TemplateDb TemplateCall).
Abbreviation TemplateAct := (Act TemplateWorld TemplateError).

#[export] Instance template_errors : Thrown TemplateError TemplateError := {|
  thrown := id;
  connection_lost := TemplatePlainError "database connection lost"
|}.

Definition template_call {A} (c : TemplateCall) (answer : Answer A) : TemplateAct A := call_with id c answer.

(** [if (...) throw] *)
Definition reject_unless (b : bool) (e : TemplateError) : TemplateAct unit := if b then mret tt else athrow e.

(** [try { ... } catch { throw e }] *)
Definition or_throw {A} (m : TemplateAct A) (e : TemplateError) : TemplateAct A := try_catch m (λ _, athrow e).

(** [m.catch(() => undefined)] *)
Definition quietly (m : TemplateAct unit) : TemplateAct unit := try_catch m (λ _, mret tt).

(** [try { m } finally { f }]: what [f] throws replaces the outcome of [m]. *)
Definition try_finally {A} (m : TemplateAct A) (f : TemplateAct unit) : TemplateAct A :=
  outcome ← attempt m;
  _ ← f;
  lift outcome.

Definition grant_method_eqb (a b : ObjectGrantMethod) : bool :=
  match a, b with GrantGET, GrantGET | GrantPUT, GrantPUT => true | _, _ => false end.

Definition invalid_scoped_grant : TemplateError :=
  TemplateInfrastructureUnavailable "Object storage returned an invalid scoped grant.".

Definition grant_window : Z := 15 * 60 * 1000.
Definition capability_time : Z := 10 * 60 * 1000.

Definition validateScopedObjectGrant (new_URL : string → option Url) (grant : ScopedObjectGrant)
    (method : ObjectGrantMethod) (now : Z) : result TemplateError unit :=
  match new_URL (og_url grant) with
  | None => Err invalid_scoped_grant
  | Some parsed =>
      if negb (grant_method_eqb (og_method grant) method) || negb (String.eqb (protocol parsed) "https:") ||
         negb (String.eqb (username parsed) "") || negb (String.eqb (password parsed) "") ||
         date_le (og_expires_at grant) now || date_gt (og_expires_at grant) (now + grant_window)
      then Err invalid_scoped_grant else Ok tt
  end.

Definition object_key (organizationId projectId name version id : string) : string :=
  "organizations/" +:+ organizationId +:+ "/projects/" +:+ projectId +:+ "/templates/" +:+ name +:+ "/" +:+
  version +:+ "/" +:+ id +:+ "/snapshot.tar.zst".

Definition safeObjectKey (organizationId projectId name version id : string) : result TemplateError string :=
  if negb (test tenantSegmentPattern organizationId) || negb (test tenantSegmentPattern projectId)
  then Err (InvalidTemplateRequest "organization and project identifiers are invalid")
  else Ok (object_key organizationId projectId name version id).

(** [value.replaceAll(c, '')] *)
Definition without_char (c : ascii) (s : string) : string :=
  string_of_list_ascii (List.filter (λ x, negb (Ascii.eqb x c)) (list_ascii_of_string s)).

(** ** The service *)

Record PublishInput := mkPublish {
  pb_organizationId : string;
  pb_projectId : string;
  pb_machineId : string;
  pb_name : string;
  pb_version : string
}.

Record TemplateService := mkTemplateService {
  svc_machines : option TemplateMachineResolver;
  svc_storage : option TemplateObjectStore;
  svc_publisher : option TemplatePublisher
}.

Definition configured (svc : TemplateService)
    : option (TemplateMachineResolver * TemplateObjectStore * TemplatePublisher) :=
  match svc_machines svc, svc_storage svc, svc_publisher svc with
  | Some machines, Some storage, Some publisher => Some (machines, storage, publisher)
  | _, _, _ => None
  end.

(** The size of an artifact that is valid. *)
Definition artifact_size (a : Artifact) : Z := match sizeBytes a with NInt n => n | NNonInt => 0 end.

(** Where a machine that may be snapshotted runs. *)
Definition ready_source (now : Z) (m : TemplateSourceMachine) : option (string * string) :=
  if negb (String.eqb (sm_state m) "running") || negb (sm_ready m) || date_le (sm_expiresAt m) now ||
     negb (truthy (sm_hostId m)) || negb (truthy (sm_hostAddress m)) || negb (truthy (sm_hostMachineId m))
  then None
  else hostAddress ← sm_hostAddress m; hostMachine ← sm_hostMachineId m; Some (hostAddress, hostMachine).

Definition published_manifest (m : TemplateSourceMachine) (objectKey : string) (stored : Artifact)
    : TemplateManifest :=
  mkManifest 1 "firecracker-snapshot-v1" (sm_architecture m) (sm_id m) objectKey (checksum stored)
    (artifact_size stored).

Definition published_template (input : PublishInput) (name version id hostTemplateName objectKey : string)
    (m : TemplateSourceMachine) (now : Z) (stored : Artifact) : Template :=
  (id, mkTemplate (pb_organizationId input) (pb_projectId input) name version hostTemplateName (sm_id m)
         (published_manifest m objectKey stored) objectKey (checksum stored) (artifact_size stored) now None).

Section service.
Context (schedule : nat → Turn TemplateDb) (new_URL : string → option Url).

Definition template_statement {A} (t : Turn TemplateDb → TemplateTx A) : TemplateAct A := await schedule t.
Definition template_select {A} (f : TemplateDb → A) : TemplateAct A := query schedule (λ _, f).
Definition template_clock : TemplateAct (Turn TemplateDb) := draw schedule.

Definition list_ (organizationId : string) (projectId : option string) (includeDeleted : bool)
    : TemplateAct (list Template) :=
  template_select (list_templates organizationId projectId includeDeleted).

Definition source_machine (machines : TemplateMachineResolver) (input : PublishInput)
    : TemplateAct TemplateSourceMachine :=
  found ← template_call (GetMachine (pb_machineId input) (pb_organizationId input) (pb_projectId input))
            (on_get machines);
  match found with
  | Some m =>
      _ ← reject_unless (String.eqb (sm_organizationId m) (pb_organizationId input) &&
                         String.eqb (sm_projectId m) (pb_projectId input)) TemplateSourceNotFound;
      mret m
  | None => athrow TemplateSourceNotFound
  end.

(** What follows the export: upload under a grant, then verify what the store
    holds. *)
Definition store_artifact (storage : TemplateObjectStore) (publisher : TemplatePublisher) (lease : HostExport)
    (objectKey : string) (now : Z) (hostExport : string * Artifact) : TemplateAct Artifact :=
  let artifact := hostExport.2 in
  _ ← reject_unless (String.eqb hostExport.1 (exportId lease) && validArtifact artifact)
        (TemplateIntegrityError "The host returned invalid template artifact metadata.");
  upload ← or_throw (template_call (CreateUploadGrant objectKey artifact (now + capability_time))
                       (on_createUploadGrant storage))
             (TemplateInfrastructureUnavailable "Durable object storage could not issue an upload capability.");
  _ ← lift (validateScopedObjectGrant new_URL upload GrantPUT now);
  hostArtifact ← or_throw (template_call (UploadTemplate lease artifact upload) (on_upload publisher))
    (TemplateInfrastructureUnavailable "The source host could not upload its immutable template export.");
  _ ← reject_unless (validArtifact hostArtifact && same_artifact hostArtifact artifact)
        (TemplateIntegrityError "The host upload did not match its immutable export.");
  storedArtifact ← or_throw (template_call (StatObject objectKey) (on_stat storage))
    (TemplateInfrastructureUnavailable "Durable object storage could not verify the uploaded template.");
  _ ← reject_unless (validArtifact storedArtifact && same_artifact storedArtifact hostArtifact)
        (TemplateIntegrityError "The durable artifact does not match the host checksum and size.");
  mret storedArtifact.

Definition record_template (t : Template) : TemplateAct unit :=
  try_catch (template_statement (λ turn, insert_template (t_now turn) t))
    (λ e, athrow (if isUniqueViolation e then TemplateVersionConflict else e)).

(** The [try] with its [catch], after the export has answered or failed. *)
Definition transfer (storage : TemplateObjectStore) (publisher : TemplatePublisher) (lease : HostExport)
    (objectKey : string) (now : Z) (describe : Artifact → Template)
    (hostExport : result TemplateError (string * Artifact)) : TemplateAct Template :=
  try_catch
    (exported ← lift (match hostExport with
                      | Ok answer => Ok answer
                      | Err _ => Err (TemplateInfrastructureUnavailable
                                        "The source host could not export a durable template.")
                      end);
     stored ← store_artifact storage publisher lease objectKey now exported;
     _ ← record_template (describe stored);
     mret (describe stored))
    (λ error, _ ← quietly (template_call (DeleteObject objectKey) (on_delete storage)); athrow error).

(** With the [finally]: [exported] is set once the export has answered. *)
Definition publication (storage : TemplateObjectStore) (publisher : TemplatePublisher) (lease : HostExport)
    (objectKey : string) (now : Z) (describe : Artifact → Template) : TemplateAct Template :=
  hostExport ← attempt (template_call (ExportTemplate lease) (on_export publisher));
  try_finally (transfer storage publisher lease objectKey now describe hostExport)
    (if is_ok hostExport then quietly (template_call (DiscardExport lease) (on_discard publisher)) else mret tt).

Definition publish (svc : TemplateService) (input : PublishInput) : TemplateAct Template :=
  let name := js_trim (pb_name input) in
  let version := js_trim (pb_version input) in
  _ ← reject_unless (test templateNamePattern name)
        (InvalidTemplateRequest "name must be 1-63 lowercase letters, numbers, dots, underscores, or dashes");
  _ ← reject_unless (test templateVersionPattern version)
        (InvalidTemplateRequest "version must be an immutable 1-64 character identifier");
  _ ← reject_unless (test machineIdPattern (pb_machineId input)) (InvalidTemplateRequest "machineId is invalid");
  match configured svc with
  | None => athrow (TemplateInfrastructureUnavailable
                      "Durable template publication is not configured on this control plane.")
  | Some (machines, storage, publisher) =>
      existing ← template_select (findVersion (pb_organizationId input) (pb_projectId input) name version);
      _ ← reject_unless (match existing with Some _ => false | None => true end) TemplateVersionConflict;
      machine ← source_machine machines input;
      checked ← template_clock;
      match ready_source (t_now checked) machine with
      | None => athrow TemplateSourceNotReady
      | Some (hostAddress, hostMachine) =>
          drawn ← template_clock;
          let id := t_random drawn 0 in
          let hostTemplateName := "t-" +:+ substring 0 29 (t_random drawn 1) in
          objectKey ← lift (safeObjectKey (pb_organizationId input) (pb_projectId input) name version id);
          publication storage publisher
            (mkHostExport hostAddress hostMachine (sm_leaseId machine) ("te_" +:+ without_char "-" id))
            objectKey (t_now drawn)
            (published_template input name version id hostTemplateName objectKey machine (t_now drawn))
      end
  end.

Definition remove (idOrVersion organizationId : string) (projectId : option string)
    : TemplateAct TemplateDeleteResult :=
  template_statement (λ turn, remove_template (t_now turn) idOrVersion organizationId projectId).
End service.

(** * Replicating templates to hosts *)

Record TemplateReplicaWork := mkWork {
  wk_templateId : string;
  wk_organizationId : string;
  wk_projectId : string;
  wk_name : string;
  wk_version : string;
  wk_hostId : string;
  wk_hostAddress : string;
  wk_hostTemplateName : string;
  wk_objectKey : string;
  wk_checksum : string;
  wk_sizeBytes : Z;
  wk_manifest : TemplateManifest
}.

(** ** The queue *)

(** The pairs of a live template and a host of its architecture that takes work. *)
Definition wanted_replicas (db : TemplateDb) : list (string * string) :=
  mjoin ((λ kv : Template, if template_live kv.2 then pair kv.1 <$> queued_hosts db (tm_architecture (te_manifest kv.2))
                           else []) <$> map_to_list (templates db)).

Definition absent_replicas (db : TemplateDb) (keys : list (string * string)) : list (string * string) :=
  List.filter (λ k, negb (bool_decide (is_Some (template_replicas db !! k)))) keys.

(** [INSERT ... SELECT] reads its snapshot and then writes, without a lock on the
    templates it read: what it saw may be out of date when its rows are inserted.
    Their references are checked then: the template's row is there, deleted or not. *)
Definition missing_replicas (db : TemplateDb) : list (string * string) := absent_replicas db (wanted_replicas db).

Definition referenced (db : TemplateDb) (key : string * string) : bool :=
  bool_decide (is_Some (templates db !! key.1)) && bool_decide (is_Some (template_hosts db !! key.2)).

Definition enqueue_replicas (now : Z) (seen : list (string * string)) : TemplateTx Z := λ db,
  let missing := absent_replicas db seen in
  if forallb (referenced db) missing then Ok (Z.of_nat (length missing), queue_all now missing db)
  else Err (TemplatePlainError "template_replicas_fkey").

Definition retry_after : Z := 60 * 1000.
Definition abandoned_after : Z := 15 * 60 * 1000.

Definition due (now : Z) (r : ReplicaRow) : bool :=
  match re_state r with
  | ReplicaRequested => true
  | ReplicaFailed => re_updated_at r <? now - retry_after
  | ReplicaPulling => re_updated_at r <? now - abandoned_after
  | ReplicaReady => false
  end.

(** The work a row of the queue stands for, with its template and its host. *)
Definition replica_work (db : TemplateDb) (key : string * string) : option TemplateReplicaWork :=
  t ← templates db !! key.1;
  h ← template_hosts db !! key.2;
  if template_live t && schedulable h then
    Some (mkWork key.1 (te_organization_id t) (te_project_id t) (te_name t) (te_version t) key.2 (th_address h)
            (te_host_template_name t) (te_object_key t) (te_checksum t) (te_size_bytes t) (te_manifest t))
  else None.

Definition claimable (now : Z) (locked : string * string → bool) (db : TemplateDb)
    (kv : (string * string) * ReplicaRow) : bool :=
  due now kv.2 && negb (locked kv.1) && bool_decide (is_Some (replica_work db kv.1)).

Definition replica_order (s : ReplicaState) : Z :=
  match s with ReplicaRequested => 0 | ReplicaFailed => 1 | _ => 2 end.

(** [ORDER BY] the state, then [updated_at], then the key. *)
Definition compareReplicas (a b : (string * string) * ReplicaRow) : Z :=
  let first := replica_order (re_state a.2) - replica_order (re_state b.2) in
  let second := re_updated_at a.2 - re_updated_at b.2 in
  let third := codeUnitCompare a.1.1 b.1.1 in
  if negb (first =? 0) then first else if negb (second =? 0) then second
  else if negb (third =? 0) then third else codeUnitCompare a.1.2 b.1.2.

Definition pulling_replica (now : Z) : ReplicaRow := mkReplica ReplicaPulling 1 None None now.

Definition set_replica (key : string * string) (r : ReplicaRow) (db : TemplateDb) : TemplateDb :=
  db <| template_replicas ::= <[key := r]> |>.

Definition claim (now : Z) (locked : string * string → bool) : TemplateTx (option TemplateReplicaWork) := λ db,
  match sort_by compareReplicas (List.filter (claimable now locked db) (map_to_list (template_replicas db))) with
  | [] => Ok (None, db)
  | candidate :: _ =>
      Ok (replica_work db candidate.1, set_replica candidate.1 (pulling_replica now) db)
  end.

Definition ready_replica (now : Z) (verifiedChecksum : string) : ReplicaRow :=
  mkReplica ReplicaReady 100 (Some verifiedChecksum) None now.

(** The row while it is being pulled. *)
Definition pulled (templateId hostId : string) (db : TemplateDb) : bool :=
  match template_replicas db !! (templateId, hostId) with
  | Some r => bool_decide (re_state r = ReplicaPulling)
  | None => false
  end.

Definition activatable (templateId verifiedChecksum : string) (db : TemplateDb) : bool :=
  match templates db !! templateId with
  | Some t => template_live t && String.eqb (te_checksum t) verifiedChecksum
  | None => false
  end.

Definition markReady (now : Z) (templateId hostId verifiedChecksum : string) : TemplateTx bool := λ db,
  if pulled templateId hostId db && activatable templateId verifiedChecksum db
  then Ok (true, set_replica (templateId, hostId) (ready_replica now verifiedChecksum) db)
  else Ok (false, db).

Definition markFailed (now : Z) (templateId hostId reason : string) : TemplateTx unit := λ db,
  Ok (tt, if pulled templateId hostId db
          then set_replica (templateId, hostId) (mkReplica ReplicaFailed 0 None (Some (substring 0 256 reason)) now) db
          else db).

(** ** The job *)

Definition safeSegmentChar (c : ascii) : bool := alnum c || one_of "._+-" c.
Definition safeSegment : re := Cat (Chr alnum) (rep 0 127 (Chr safeSegmentChar)).

Definition validWork (work : TemplateReplicaWork) : bool :=
  let manifest := wk_manifest work in
  let expectedObjectKey := object_key (wk_organizationId work) (wk_projectId work) (wk_name work) (wk_version work)
                             (wk_templateId work) in
  forallb (test safeSegment)
    [wk_templateId work; wk_organizationId work; wk_projectId work; wk_name work; wk_version work] &&
  test hostTemplateNamePattern (wk_hostTemplateName work) &&
  (0 <? str_length (wk_hostAddress work)) &&
  String.eqb (wk_objectKey work) expectedObjectKey &&
  validTemplateChecksum (wk_checksum work) &&
  isSafeInteger (NInt (wk_sizeBytes work)) && (0 <? wk_sizeBytes work) &&
  (schema_version manifest =? 1) && String.eqb (format manifest) "firecracker-snapshot-v1" &&
  string_in (tm_architecture manifest) ["x86_64"; "aarch64"] &&
  test machineIdPattern (source_machine_id manifest) &&
  String.eqb (artifact_object_key manifest) (wk_objectKey work) &&
  String.eqb (artifact_checksum manifest) (wk_checksum work) &&
  (artifact_size_bytes manifest =? wk_sizeBytes work).

Record TemplateActivator := mkActivator { on_activate : Answer Artifact }.

Inductive ReplicationRunResult :=
| ReplicationIdle (enqueued : Z)
| ReplicationRan (ready : bool) (enqueued : Z) (templateId hostId : string).

Definition failure_reason (e : TemplateError) : string :=
  match e with TemplateIntegrityError _ => "template_integrity_failed" | _ => "template_activation_failed" end.

(** A replica's key as the rows others hold locked name it. *)
Definition replica_lock (key : string * string) : string := key.1 +:+ "/" +:+ key.2.

Section job.
Context (schedule : nat → Turn TemplateDb) (new_URL : string → option Url).

(** The statement: its snapshot, what others commit meanwhile, its rows. *)
Definition enqueueMissing : TemplateAct Z :=
  seen ← template_select schedule missing_replicas;
  template_statement schedule (λ turn, enqueue_replicas (t_now turn) seen).

(** The body of the [try]. *)
Definition activate_replica (storage : TemplateObjectStore) (activator : TemplateActivator)
    (work : TemplateReplicaWork) : TemplateAct unit :=
  let artifact := mkArtifact (wk_checksum work) (NInt (wk_sizeBytes work)) in
  _ ← reject_unless (validWork work) (TemplateIntegrityError "The persisted template manifest is inconsistent.");
  stored ← template_call (StatObject (wk_objectKey work)) (on_stat storage);
  _ ← reject_unless (same_artifact stored artifact)
        (TemplateIntegrityError "The durable template artifact failed verification.");
  issued ← template_clock schedule;
  download ← template_call (CreateDownloadGrant (wk_objectKey work) (t_now issued + capability_time))
               (on_createDownloadGrant storage);
  _ ← lift (validateScopedObjectGrant new_URL download GrantGET (t_now issued));
  activated ← template_call (ActivateTemplate (wk_hostAddress work) (wk_hostTemplateName work)
                               (tm_architecture (wk_manifest work)) artifact download) (on_activate activator);
  _ ← reject_unless (same_artifact activated artifact)
        (TemplateIntegrityError
           "The host activation checksum or size did not match the immutable manifest.");
  marked ← template_statement schedule
    (λ turn, markReady (t_now turn) (wk_templateId work) (wk_hostId work) (wk_checksum work));
  reject_unless marked (TemplateIntegrityError "The replica was no longer eligible for activation.").

Definition runOnce (storage : option TemplateObjectStore) (activator : option TemplateActivator)
    : TemplateAct ReplicationRunResult :=
  match storage, activator with
  | Some storage, Some activator =>
      enqueued ← enqueueMissing;
      work ← template_statement schedule
        (λ turn, claim (t_now turn) (λ key, bool_decide (replica_lock key ∈ t_locked turn)));
      match work with
      | None => mret (ReplicationIdle enqueued)
      | Some work =>
          try_catch
            (_ ← activate_replica storage activator work;
             mret (ReplicationRan true enqueued (wk_templateId work) (wk_hostId work)))
            (λ error,
             _ ← template_statement schedule
               (λ turn, markFailed (t_now turn) (wk_templateId work) (wk_hostId work) (failure_reason error));
             mret (ReplicationRan false enqueued (wk_templateId work) (wk_hostId work)))
      end
  | _, _ => athrow (TemplateInfrastructureUnavailable
                      "Durable template replication is not configured on this control plane.")
  end.
End job.
