(* ===== verification/TemplateTheorems.v ===== *)
(** * What holds of templates and their replicas

    The replicas that hosts may use are those of live templates, verified against
    the template's checksum; a replica of a deleted template stays requested; a
    published template is an object the store was seen to hold; the work the queue
    hands out is what publication wrote. *)

From S2P Require Import Prelude Text Js Capacity Lifecycle Awaiting Templates.

(** ** The tables as their operations move them *)

Inductive TemplateCommand :=
| CmdInsert (now : Z) (t : Template)
| CmdRemove (now : Z) (idOrVersion organization : string) (project : option string)
| CmdEnqueue (now : Z) (seen : list (string * string))
| CmdClaim (now : Z) (locked : string * string → bool)
| CmdReady (now : Z) (templateId hostId verifiedChecksum : string)
| CmdFailed (now : Z) (templateId hostId reason : string).

Definition ignoring {A} (m : TemplateTx A) : TemplateTx unit := _ ← m; mret tt.

Definition run_command (c : TemplateCommand) : TemplateTx unit :=
  match c with
  | CmdInsert now t => insert_template now t
  | CmdRemove now i o p => ignoring (remove_template now i o p)
  | CmdEnqueue now seen => ignoring (enqueue_replicas now seen)
  | CmdClaim now locked => ignoring (claim now locked)
  | CmdReady now t h c => ignoring (markReady now t h c)
  | CmdFailed now t h r => markFailed now t h r
  end.

(** One statement of the component, or a change of a table that belongs to
    another: a deleted host takes its replicas along.  What an enqueue saw is any
    list: its snapshot may be of any earlier state. *)
Inductive template_step : TemplateDb → TemplateDb → Prop :=
| step_command c db : template_step db (transaction (run_command c) db).2
| step_hosts hosts db :
    template_step db (db <| template_hosts := hosts |>
                         <| template_replicas ::= filter (λ kv, is_Some (hosts !! kv.1.2)) |>)
| step_machines machines db : template_step db (db <| template_machines := machines |>)
| step_projects projects db : template_step db (db <| template_projects := projects |>).

Definition no_templates : TemplateDb := mkTemplateDb ∅ ∅ ∅ ∅ ∅.

(** ** Replicas stand for templates *)

Definition replica_ok (db : TemplateDb) (key : string * string) (r : ReplicaRow) : Prop :=
  ∃ t, templates db !! key.1 = Some t ∧ (te_deleted_at t = None ∨ re_state r = ReplicaRequested) ∧
    0 <= re_progress r <= 100 ∧ (re_state r = ReplicaReady → re_verified_checksum r = Some (te_checksum t)).

Definition replicas_ok (db : TemplateDb) : Prop :=
  ∀ key r, template_replicas db !! key = Some r → replica_ok db key r.

Lemma queue_replica_lookup now key replicas k r :
  queue_replica now key replicas !! k = Some r →
  replicas !! k = Some r ∨ (k = key ∧ r = requested_replica now).
Proof.
  unfold queue_replica. destruct (replicas !! key); [by left|]. intros [[<- <-]|[_ ?]]%lookup_insert_Some; auto.
Qed.

Lemma queue_all_lookup now keys db k r :
  template_replicas (queue_all now keys db) !! k = Some r →
  template_replicas db !! k = Some r ∨ (k ∈ keys ∧ r = requested_replica now).
Proof.
  simpl. induction keys as [|key keys IH]; simpl; [by left|].
  intros [Hr|[-> ->]]%queue_replica_lookup; [|right; split; [left|done]].
  destruct (IH Hr) as [?|[??]]; [by left|right; split; [by right|done]].
Qed.

Lemma queue_all_has now keys db k : k ∈ keys → is_Some (template_replicas (queue_all now keys db) !! k).
Proof.
  simpl. induction keys as [|key keys IH]; [by intros ?%elem_of_nil|]. simpl. unfold queue_replica at 1.
  intros [->|Hin%IH]%elem_of_cons.
  - destruct (_ !! key) eqn:E; [by eexists|]. by rewrite lookup_insert_eq.
  - destruct (_ !! key); [done|]. destruct (decide (k = key)) as [->|Hne]; [by rewrite lookup_insert_eq|].
    by rewrite lookup_insert_ne.
Qed.

Lemma queue_all_ok now keys db :
  (∀ k, k ∈ keys → is_Some (templates db !! k.1)) →
  replicas_ok db → replicas_ok (queue_all now keys db).
Proof.
  intros Hk Hok k r [Hr|[Hin ->]]%queue_all_lookup; [by apply Hok in Hr|].
  destruct (Hk k Hin) as [t Ht]. exists t. split_and!; try done; try (by right); simpl; lia.
Qed.

Lemma set_replica_ok key r db :
  replica_ok db key r → replicas_ok db → replicas_ok (set_replica key r db).
Proof.
  intros Hr Hok k x Hx. simpl in Hx. apply lookup_insert_Some in Hx as [[<- <-]|[_ Hx]]; [done|by apply Hok in Hx].
Qed.

Lemma template_live_true t : template_live t = true ↔ te_deleted_at t = None.
Proof. apply bool_decide_eq_true. Qed.

Lemma insert_template_Ok now t db u db' :
  insert_template now t db = Ok (u, db') →
  templates db !! t.1 = None ∧
  db' = queue_all now (pair t.1 <$> queued_hosts db (tm_architecture (te_manifest t.2)))
          (db <| templates ::= <[t.1 := t.2 <| te_created_at := now |> <| te_deleted_at := None |>]> |>).
Proof.
  unfold insert_template, insert_violation. destruct t as [id row]; simpl.
  repeat case_match; try discriminate; intros [= _ <-]; split; try done;
    match goal with H : bool_decide (is_Some _) = false |- _ =>
      by apply bool_decide_eq_false, eq_None_not_Some in H end.
Qed.

Lemma insert_template_ok now t db u db' :
  insert_template now t db = Ok (u, db') → replicas_ok db → replicas_ok db'.
Proof.
  intros [Hnone ->]%insert_template_Ok Hok. apply queue_all_ok.
  - intros k (h & -> & _)%list_elem_of_fmap. simpl. rewrite lookup_insert_eq. by eexists.
  - intros k r Hr. destruct (Hok k r Hr) as (t' & Ht & Hrest). exists t'. split; [|done].
    simpl. rewrite lookup_insert_ne; [done|]. intros E. rewrite E in Hnone. by rewrite Hnone in Ht.
Qed.

Lemma remove_template_Ok now i o p db res db' :
  remove_template now i o p db = Ok (res, db') →
  (res ≠ TemplateDeleted ∧ db' = db) ∨
  ∃ id t, res = TemplateDeleted ∧ templates db !! id = Some t ∧ names_template i o p (id, t) = true ∧
    in_use id db = false ∧ db' = drop_template now id db.
Proof.
  unfold remove_template. destruct (find _ _) as [[id t]|] eqn:Ef; [|intros [= <- <-]; by left].
  apply List.find_some in Ef as [Hin Hn]. apply list_elem_of_In, elem_of_map_to_list in Hin.
  destruct (in_use id db) eqn:Eu; intros [= <- <-]; [by left|]. right. by exists id, t.
Qed.

Lemma drop_template_ok now id db : replicas_ok db → replicas_ok (drop_template now id db).
Proof.
  intros Hok k r Hr. simpl in Hr. apply map_lookup_filter_Some in Hr as [Hr Hne].
  destruct (Hok k r Hr) as (t & Ht & Hrest). exists t. split; [|done]. simpl. by rewrite lookup_alter_ne.
Qed.

Lemma wanted_live db k :
  k ∈ wanted_replicas db → ∃ t, templates db !! k.1 = Some t ∧ te_deleted_at t = None.
Proof.
  unfold wanted_replicas. intros (l & Hk & [[id t] [-> Hin]]%list_elem_of_fmap)%list_elem_of_join.
  simpl in Hk. apply elem_of_map_to_list in Hin. destruct (template_live t) eqn:El; [|by apply elem_of_nil in Hk].
  apply list_elem_of_fmap in Hk as (h & -> & _). exists t. split; [done|]. by apply template_live_true.
Qed.

Lemma enqueue_replicas_Ok now seen db n db' :
  enqueue_replicas now seen db = Ok (n, db') →
  db' = queue_all now (absent_replicas db seen) db ∧
  ∀ k, k ∈ absent_replicas db seen → is_Some (templates db !! k.1) ∧ is_Some (template_hosts db !! k.2).
Proof.
  unfold enqueue_replicas. cbv zeta. destruct (forallb _ _) eqn:Ef; intros [= _ <-]. split; [done|].
  intros k Hk. rewrite forallb_forall in Ef. specialize (Ef k (proj1 (list_elem_of_In _ _) Hk)).
  unfold referenced in Ef. by bool_simp.
Qed.

Lemma enqueue_replicas_ok now seen db n db' :
  enqueue_replicas now seen db = Ok (n, db') → replicas_ok db → replicas_ok db'.
Proof. intros [-> Hk]%enqueue_replicas_Ok. apply queue_all_ok. intros k Hin. by apply Hk. Qed.

Lemma codeUnitCompare_zero a b : codeUnitCompare a b = 0 ↔ a = b.
Proof.
  unfold codeUnitCompare. pose proof OrdersEx.String_as_OT.lt_strorder as [Hirr _].
  destruct (OrdersEx.String_as_OT.compare_spec a b) as [->|H|H]; split; try done; intros ->; by apply Hirr in H.
Qed.

Lemma codeUnitCompare_antisym a b :
  codeUnitCompare a b <= 0 → codeUnitCompare b a <= 0 → codeUnitCompare a b = 0.
Proof.
  intros Hab Hba. apply codeUnitCompare_zero.
  destruct (proj1 (codeUnitCompare_le a b) Hab) as [E|Hlt]; [done|].
  destruct (proj1 (codeUnitCompare_le b a) Hba) as [E|Hgt]; [done|].
  pose proof OrdersEx.String_as_OT.lt_strorder as [Hirr Htr]. exfalso. apply (Hirr a). by apply (Htr a b a).
Qed.

Ltac replica_cases :=
  unfold compareReplicas; cbv zeta; simpl; repeat case_match; intros; bool_simp; try lia;
  repeat match goal with H : codeUnitCompare _ _ = 0 |- _ => apply codeUnitCompare_zero in H; subst end;
  try (exfalso; match goal with H : codeUnitCompare _ _ ≠ 0 |- _ =>
                  apply H; (by apply codeUnitCompare_zero) || by apply codeUnitCompare_antisym end); try done.

Lemma compareReplicas_total a b : compareReplicas a b <= 0 ∨ compareReplicas b a <= 0.
Proof.
  destruct a as [[a1 a2] r], b as [[b1 b2] r']. replica_cases; apply codeUnitCompare_total.
Qed.

Lemma compareReplicas_trans a b c :
  compareReplicas a b <= 0 → compareReplicas b c <= 0 → compareReplicas a c <= 0.
Proof.
  destruct a as [[a1 a2] r], b as [[b1 b2] r'], c as [[c1 c2] r'']. replica_cases; eauto using codeUnitCompare_trans.
Qed.

(** What a claim hands out, and the row it leaves. *)
Lemma claim_Ok now locked db o db' :
  claim now locked db = Ok (o, db') →
  match o with
  | None => db' = db ∧ ∀ k r, template_replicas db !! k = Some r → claimable now locked db (k, r) = false
  | Some work =>
      ∃ k r, template_replicas db !! k = Some r ∧ claimable now locked db (k, r) = true ∧
        replica_work db k = Some work ∧ db' = set_replica k (pulling_replica now) db ∧
        ∀ k' r', template_replicas db !! k' = Some r' → claimable now locked db (k', r') = true →
          compareReplicas (k, r) (k', r') <= 0
  end.
Proof.
  unfold claim. set (l := List.filter _ _).
  assert (∀ k r, template_replicas db !! k = Some r → claimable now locked db (k, r) = true → (k, r) ∈ l) as Hl.
  { intros k r Hr Hc. apply list_elem_of_In, List.filter_In. split; [|done].
    by apply list_elem_of_In, elem_of_map_to_list. }
  destruct (sort_by compareReplicas l) as [|[k r] rest] eqn:Es; intros [= <- <-].
  - split; [done|]. intros k r Hr. apply not_true_is_false. intros Hc%Hl; [|done].
    apply (sort_by_elem compareReplicas) in Hc. rewrite Es in Hc. by apply elem_of_nil in Hc.
  - assert ((k, r) ∈ l) as Hin by (apply (sort_by_elem compareReplicas); rewrite Es; left).
    apply list_elem_of_In, List.filter_In in Hin as [Hin Hc]. apply list_elem_of_In, elem_of_map_to_list in Hin.
    pose proof Hc as Hw. unfold claimable in Hw. apply andb_true_iff in Hw as [_ [work Hw]%bool_decide_eq_true].
    simpl in *. rewrite Hw. exists k, r. split_and!; try done. intros k' r' Hr' Hc'.
    refine (sort_by_head_min compareReplicas compareReplicas_total compareReplicas_trans l (k, r) _ _ (Hl _ _ Hr' Hc')).
    by rewrite Es.
Qed.

Lemma replica_work_Some db k work :
  replica_work db k = Some work →
  ∃ t h, templates db !! k.1 = Some t ∧ te_deleted_at t = None ∧ template_hosts db !! k.2 = Some h ∧
    schedulable h = true ∧
    work = mkWork k.1 (te_organization_id t) (te_project_id t) (te_name t) (te_version t) k.2 (th_address h)
             (te_host_template_name t) (te_object_key t) (te_checksum t) (te_size_bytes t) (te_manifest t).
Proof.
  unfold replica_work. destruct (templates db !! k.1) as [t|] eqn:Et; [simpl|done].
  destruct (template_hosts db !! k.2) as [h|] eqn:Eh; [simpl|done].
  destruct (template_live t) eqn:El, (schedulable h) eqn:Es; try done. intros [= <-].
  exists t, h. split_and!; try done. by apply template_live_true.
Qed.

Lemma claim_ok now locked db o db' : claim now locked db = Ok (o, db') → replicas_ok db → replicas_ok db'.
Proof.
  intros Hc%claim_Ok. destruct o as [work|]; [|by destruct Hc as [-> _]].
  destruct Hc as (k & r & _ & _ & Hw & -> & _). apply set_replica_ok.
  apply replica_work_Some in Hw as (t & h & Ht & Hd & _). exists t.
  split_and!; try done; try (by left); simpl; lia.
Qed.

Lemma markReady_Ok now t h c db b db' :
  markReady now t h c db = Ok (b, db') →
  if b then ∃ r row, template_replicas db !! (t, h) = Some r ∧ re_state r = ReplicaPulling ∧
              templates db !! t = Some row ∧ te_deleted_at row = None ∧ te_checksum row = c ∧
              db' = set_replica (t, h) (ready_replica now c) db
  else db' = db.
Proof.
  unfold markReady, pulled, activatable. destruct (template_replicas db !! (t, h)) as [r|] eqn:Er;
    [|by intros [= <- <-]].
  destruct (bool_decide (re_state r = ReplicaPulling)) eqn:Es; [|by intros [= <- <-]].
  destruct (templates db !! t) as [row|] eqn:Et; [simpl|by intros [= <- <-]].
  destruct (template_live row) eqn:El; [simpl|by intros [= <- <-]].
  destruct (String.eqb (te_checksum row) c) eqn:Ec; intros [= <- <-]; [|done].
  apply bool_decide_eq_true in Es. apply String.eqb_eq in Ec. apply template_live_true in El.
  by exists r, row.
Qed.

Lemma markReady_ok now t h c db b db' : markReady now t h c db = Ok (b, db') → replicas_ok db → replicas_ok db'.
Proof.
  intros Hm%markReady_Ok. destruct b; [|by subst].
  destruct Hm as (r & row & _ & _ & Ht & Hd & <- & ->). apply set_replica_ok.
  exists row. split_and!; try done; try (by left); simpl; lia.
Qed.

Lemma markFailed_Ok now t h reason db u db' :
  markFailed now t h reason db = Ok (u, db') →
  db' = db ∨ ∃ r, template_replicas db !! (t, h) = Some r ∧ re_state r = ReplicaPulling ∧
    db' = set_replica (t, h) (mkReplica ReplicaFailed 0 None (Some (substring 0 256 reason)) now) db.
Proof.
  unfold markFailed, pulled. destruct (template_replicas db !! (t, h)) as [r|]; [|intros [= _ <-]; by left].
  destruct (bool_decide _) eqn:Es; intros [= _ <-]; [right|by left].
  apply bool_decide_eq_true in Es. by exists r.
Qed.

Lemma markFailed_ok now t h reason db u db' :
  markFailed now t h reason db = Ok (u, db') → replicas_ok db → replicas_ok db'.
Proof.
  intros [->|(r & Hr & Hs & ->)]%markFailed_Ok; [done|]. intros Hok. apply set_replica_ok; [|done].
  destruct (Hok _ _ Hr) as (row & Ht & [Hd|Hd] & _); [|congruence]. exists row.
  split_and!; try done; try (by left); simpl; lia.
Qed.

Lemma command_ok c db : replicas_ok db → replicas_ok (transaction (run_command c) db).2.
Proof.
  intros Hok. unfold transaction. destruct (run_command c db) as [[u db']|e] eqn:Hc; [|done]. simpl.
  destruct c; simpl in Hc; unfold ignoring in Hc;
    try (apply tx_bind_Ok in Hc as (x & db1 & Hc & [= _ <-])); revert Hok.
  - by eapply insert_template_ok.
  - apply remove_template_Ok in Hc as [[_ ->]|(i & t & _ & _ & _ & _ & ->)]; [done|]. apply drop_template_ok.
  - by eapply enqueue_replicas_ok.
  - by eapply claim_ok.
  - by eapply markReady_ok.
  - by eapply markFailed_ok.
Qed.

Lemma step_ok db db' : template_step db db' → replicas_ok db → replicas_ok db'.
Proof.
  intros [c ?|hosts ?|machines ?|projects ?] Hok; [by apply command_ok| |done|done].
  intros k r Hr. simpl in Hr. apply map_lookup_filter_Some in Hr as [Hr _]. by apply Hok.
Qed.

(** C33: Whatever the control plane and its environment do, in any order, a replica
    is of a template that exists, its progress is a percentage, and a ready one is
    of a template that is not deleted and was verified against its checksum.  A
    replica that an enqueue left behind for a template deleted meanwhile stays
    requested, and no claim takes it. *)
Theorem ready_replicas_verified db key r :
  rtc template_step no_templates db → template_replicas db !! key = Some r →
  ∃ t, templates db !! key.1 = Some t ∧ 0 <= re_progress r <= 100 ∧
    (re_state r = ReplicaReady → te_deleted_at t = None ∧ re_verified_checksum r = Some (te_checksum t)) ∧
    (te_deleted_at t ≠ None → re_state r = ReplicaRequested ∧
       ∀ now locked, claimable now locked db (key, r) = false).
Proof.
  intros Hrun. assert (replicas_ok db) as Hok.
  { remember no_templates as db0 eqn:E0.
    assert (replicas_ok db0) as Hok by (subst; intros k x Hx; simpl in Hx; by rewrite lookup_empty in Hx).
    clear E0. induction Hrun as [|x y z Hs _ IH]; [done|]. apply IH. by eapply step_ok. }
  intros Hr. destruct (Hok key r Hr) as (t & Ht & Hd & Hp & Hv). exists t. split_and!; [done|lia|lia|..].
  - intros Hs. split; [destruct Hd; [done|congruence]|by apply Hv].
  - intros Hdel. split; [by destruct Hd|]. intros now locked. unfold claimable. simpl.
    rewrite (bool_decide_eq_false_2 (is_Some (replica_work db key))); [by rewrite andb_false_r|].
    unfold replica_work. rewrite Ht. simpl. unfold template_live. rewrite (bool_decide_eq_false_2 _ Hdel).
    destruct (template_hosts db !! key.2); by intros [? ?].
Qed.

(** Deletion does not take every replica along: when a template is removed between
    an enqueue's snapshot and its rows, each row the enqueue adds for it is of a
    deleted template. *)
Theorem enqueue_races_removal now now' idOrVersion organization project db db1 id host row :
  remove_template now idOrVersion organization project db = Ok (TemplateDeleted, db1) →
  (id, host) ∈ missing_replicas db → templates db1 !! id = Some row → te_deleted_at row ≠ None →
  ∃ n db2, enqueue_replicas now' (missing_replicas db) db1 = Ok (n, db2) ∧ templates db2 !! id = Some row ∧
    template_replicas db2 !! (id, host) = Some (requested_replica now').
Proof.
  intros [[? _]|(i & t & _ & Ht & _ & _ & ->)]%remove_template_Ok Hin Hrow _; [done|].
  set (db1 := drop_template now i db).
  assert (∀ k, k ∈ missing_replicas db → template_replicas db !! k = None ∧ referenced db1 k = true) as Hk.
  { intros k [Hk%list_elem_of_In Hn]%list_elem_of_In%List.filter_In. bool_simp.
    split; [by apply eq_None_not_Some|]. unfold referenced. rewrite !bool_decide_eq_true_2; [done| |].
    - simpl. unfold wanted_replicas in Hk.
      apply list_elem_of_join in Hk as (l & Hk & [[i' t'] [-> Hin']]%list_elem_of_fmap). simpl in Hk.
      destruct (template_live t'); [|by apply elem_of_nil in Hk]. apply list_elem_of_fmap in Hk as (h & -> & Hh).
      unfold queued_hosts in Hh. apply list_elem_of_fmap in Hh as ([h' x] & -> & Hx).
      apply list_elem_of_In, List.filter_In in Hx as [Hx%list_elem_of_In%elem_of_map_to_list _]. by eexists.
    - simpl. destruct (wanted_live db k Hk) as (t' & Ht' & _). destruct (decide (k.1 = i)) as [E|Hne].
      + rewrite E, lookup_alter_eq, Ht. by eexists.
      + rewrite lookup_alter_ne by done. by eexists. }
  assert (∀ k, k ∈ missing_replicas db → template_replicas db1 !! k = None) as Hnone.
  { intros k [Hn _]%Hk. simpl. apply map_lookup_filter_None. by left. }
  assert (absent_replicas db1 (missing_replicas db) = missing_replicas db) as Eabs.
  { unfold absent_replicas. apply List.forallb_filter_id. apply forallb_forall. intros k Hk'%list_elem_of_In.
    by rewrite (Hnone k Hk'). }
  unfold enqueue_replicas. cbv zeta. rewrite Eabs, (proj2 (forallb_forall _ _)).
  - do 2 eexists. split; [done|]. split; [exact Hrow|]. destruct (queue_all_has now' (missing_replicas db) db1 (id, host) Hin) as [r Hr].
    destruct (queue_all_lookup _ _ _ _ _ Hr) as [Hr'|[_ ->]]; [by rewrite Hnone in Hr'|done].
  - intros k Hk'%list_elem_of_In. by apply Hk.
Qed.

(** ** The queue *)

Lemma replica_work_key db k work : replica_work db k = Some work → (wk_templateId work, wk_hostId work) = k.
Proof. intros (t & h & _ & _ & _ & _ & ->)%replica_work_Some. by destruct k. Qed.

(** Two claims within the time after which a pull counts as abandoned never hand
    out the same replica, whatever other statements run between them, as long as
    the row itself is left alone. *)
Theorem claims_are_exclusive now now' locked locked' db db1 db2 db3 work work' :
  claim now locked db = Ok (Some work, db1) → now' <= now + abandoned_after →
  template_replicas db2 !! (wk_templateId work, wk_hostId work) =
    template_replicas db1 !! (wk_templateId work, wk_hostId work) →
  claim now' locked' db2 = Ok (Some work', db3) →
  (wk_templateId work', wk_hostId work') ≠ (wk_templateId work, wk_hostId work).
Proof.
  intros (k & r & _ & _ & Hw & -> & _)%claim_Ok Hle Hkept (k' & r' & Hr' & Hc' & Hw' & _ & _)%claim_Ok.
  apply replica_work_key in Hw, Hw'. rewrite Hw, Hw'. intros ->. rewrite Hw in Hkept.
  rewrite Hr' in Hkept. simpl in Hkept. rewrite lookup_insert_eq in Hkept. injection Hkept as ->.
  unfold claimable, due in Hc'. simpl in Hc'. unfold abandoned_after in *. bool_simp. lia.
Qed.

(** The queue does not stall: a claim comes back empty only when no replica that
    is due, and that no other session holds, has a live template and a host that
    takes work; otherwise it takes one, with requested replicas before failed ones
    and failed ones before abandoned ones. *)
Theorem claim_takes_due_replica now locked db :
  (∃ k r, template_replicas db !! k = Some r ∧ claimable now locked db (k, r) = true) ↔
  ∃ work db' r, claim now locked db = Ok (Some work, db') ∧
    template_replicas db !! (wk_templateId work, wk_hostId work) = Some r ∧
    template_replicas db' !! (wk_templateId work, wk_hostId work) = Some (pulling_replica now) ∧
    ∀ k' r', template_replicas db !! k' = Some r' → claimable now locked db (k', r') = true →
      replica_order (re_state r) <= replica_order (re_state r').
Proof.
  assert (∃ o db', claim now locked db = Ok (o, db')) as (o & db' & Hc).
  { unfold claim. case_match; eauto. }
  pose proof (claim_Ok _ _ _ _ _ Hc) as Ho. split.
  - intros (k & r & Hr & Hk). destruct o as [work|]; [|destruct Ho as [_ Hno]; by rewrite (Hno _ _ Hr) in Hk].
    destruct Ho as (k1 & r1 & Hr1 & _ & Hw & -> & Hmin). pose proof (replica_work_key _ _ _ Hw) as Hkey.
    exists work, (set_replica k1 (pulling_replica now) db), r1. rewrite Hkey. split_and!; try done.
    + simpl. by rewrite lookup_insert_eq.
    + intros k' r' Hr' Hc'. specialize (Hmin k' r' Hr' Hc'). unfold compareReplicas in Hmin. simpl in Hmin.
      case_match; bool_simp; lia.
  - intros (work & db2 & r & Hc2 & _). rewrite Hc in Hc2. injection Hc2 as -> ->.
    destruct Ho as (k1 & r1 & Hr1 & Hc1 & _). eauto.
Qed.

(** Removing a template: refused while a machine that may still run was made
    from it; otherwise the template is deleted and no host keeps a replica. *)
Theorem removal_drops_replicas now idOrVersion organization project db res db' :
  remove_template now idOrVersion organization project db = Ok (res, db') →
  match res with
  | TemplateDeleted => ∃ id t,
      templates db !! id = Some t ∧ te_organization_id t = organization ∧ te_deleted_at t = None ∧
      (∀ m, m ∈ (map_to_list (template_machines db)).*2 → tk_template_id m = Some id → terminal (tk_state m) = true) ∧
      templates db' !! id = Some (t <| te_deleted_at := Some now |>) ∧
      (∀ host, template_replicas db' !! (id, host) = None)
  | _ => db' = db
  end.
Proof.
  intros [[Hres ->]|(id & t & -> & Ht & Hn & Hu & ->)]%remove_template_Ok; [by destruct res|].
  unfold names_template, in_template_scope in Hn. simpl in Hn. bool_simp.
  exists id, t. split_and!; try done; [by apply template_live_true|..].
  - intros m ([k m'] & -> & Hin)%list_elem_of_fmap Htm. simpl in *. destruct (terminal (tk_state m')) eqn:Es; [done|].
    rewrite <- Hu. apply existsb_exists. exists (k, m'). split; [by apply list_elem_of_In|]. simpl.
    by rewrite Es, (bool_decide_eq_true_2 _ Htm).
  - simpl. by rewrite lookup_alter_eq, Ht.
  - intros host. simpl. apply map_lookup_filter_None. right. intros x _. simpl. auto.
Qed.

(** ** Steps of the service *)

Lemma template_call_Ok {A} c (answer : Answer A) (w : TemplateWorld) a w' :
  template_call c answer w = (Ok a, w') →
  answer (w_calls w ++ [c]) = Ok a ∧ w_db w' = w_db w ∧ w_calls w' = w_calls w ++ [c].
Proof. unfold template_call, call_with. destruct (answer _) eqn:Ea; by intros [= <- <-]. Qed.

Lemma reject_unless_Ok b e (w : TemplateWorld) u w' : reject_unless b e w = (Ok u, w') → b = true ∧ w' = w.
Proof. unfold reject_unless. destruct b; [by intros [= _ <-]|done]. Qed.

Lemma or_throw_Ok {A} (m : TemplateAct A) e w a w' : or_throw m e w = (Ok a, w') → m w = (Ok a, w').
Proof. unfold or_throw, try_catch. by destruct (m w) as [[?|?] ?]. Qed.

Lemma quietly_run (m : TemplateAct unit) w : quietly m w = (Ok tt, (m w).2).
Proof. unfold quietly, try_catch. by destruct (m w) as [[[]|?] ?]. Qed.

Lemma try_finally_quietly {A} (m : TemplateAct A) (b : bool) (f : TemplateAct unit) w :
  try_finally m (if b then quietly f else mret tt) w = ((m w).1, if b then (f (m w).2).2 else (m w).2).
Proof.
  unfold try_finally. rewrite act_bind_eq. unfold attempt. destruct (m w) as [r w1]. rewrite act_bind_eq. simpl.
  destruct b; [by rewrite quietly_run|done].
Qed.

(** The calls a computation may make. *)
Definition makes {A} (P : TemplateCall → Prop) (m : TemplateAct A) : Prop :=
  ∀ w, ∃ cs, w_calls (m w).2 = w_calls w ++ cs ∧ Forall P cs.

Lemma makes_none {A} P (m : TemplateAct A) : (∀ w, w_calls (m w).2 = w_calls w) → makes P m.
Proof. intros H w. exists []. by rewrite H, app_nil_r. Qed.

Lemma makes_bind {A B} P (m : TemplateAct A) (k : A → TemplateAct B) :
  makes P m → (∀ a, makes P (k a)) → makes P (m ≫= k).
Proof.
  intros Hm Hk w. rewrite act_bind_eq. destruct (Hm w) as (cs & Hcs & HP). destruct (m w) as [[a|e] w1]; simpl in *.
  - destruct (Hk a w1) as (cs' & Hcs' & HP'). exists (cs ++ cs'). rewrite Hcs', Hcs, app_assoc.
    split; [done|by apply Forall_app].
  - by exists cs.
Qed.

Lemma makes_call {A} (P : TemplateCall → Prop) c (answer : Answer A) : P c → makes P (template_call c answer).
Proof. intros Hc w. exists [c]. split; [done|by constructor]. Qed.

Lemma makes_or_throw {A} P (m : TemplateAct A) e : makes P m → makes P (or_throw m e).
Proof. intros Hm w. unfold or_throw, try_catch. destruct (Hm w) as (cs & ? & ?). destruct (m w) as [[?|?] ?]; by exists cs. Qed.

Lemma makes_lift {A} P (r : result TemplateError A) : makes P (lift r).
Proof. by apply makes_none. Qed.

Lemma makes_ret {A} P (a : A) : makes P (mret a).
Proof. by apply makes_none. Qed.

Lemma makes_reject P b e : makes P (reject_unless b e).
Proof. apply makes_none. by destruct b. Qed.

Lemma makes_statement {A} P schedule (t : Turn TemplateDb → TemplateTx A) : makes P (template_statement schedule t).
Proof. apply makes_none. intros w. by destruct (await_tables schedule t w) as (_ & ? & _). Qed.

Lemma makes_record P schedule t : makes P (record_template schedule t).
Proof.
  apply makes_none. intros w. unfold record_template, try_catch.
  destruct (await_tables schedule (λ turn, insert_template (t_now turn) t) w) as (_ & Hc & _).
  unfold template_statement. by destruct (await _ _ w) as [[?|?] ?].
Qed.

(** The calls between an export and what becomes of it, about one object. *)
Definition transfer_call (key : string) (c : TemplateCall) : Prop :=
  match c with
  | CreateUploadGrant k _ _ | StatObject k => k = key
  | UploadTemplate _ _ _ => True
  | _ => False
  end.

Lemma store_artifact_makes new_URL storage publisher lease key now e :
  makes (transfer_call key) (store_artifact new_URL storage publisher lease key now e).
Proof.
  unfold store_artifact. repeat (apply makes_bind; [|intros ?]);
    repeat first [apply makes_or_throw|apply makes_call; done|apply makes_reject|apply makes_lift|apply makes_ret].
Qed.

Lemma same_artifact_eq a b : same_artifact a b = true → a = b.
Proof.
  destruct a as [ca na], b as [cb nb]. unfold same_artifact, number_eqb. simpl.
  destruct na, nb; intros; bool_simp; by subst.
Qed.

(** The store, asked last, holds the artifact the host exported. *)
Lemma store_artifact_Ok new_URL storage publisher lease key now e w stored w1 :
  store_artifact new_URL storage publisher lease key now e w = (Ok stored, w1) →
  stored = e.2 ∧ e.1 = exportId lease ∧ validArtifact stored = true ∧ w_db w1 = w_db w ∧
  on_stat storage (w_calls w1) = Ok stored ∧
  ∃ upload before, validateScopedObjectGrant new_URL upload GrantPUT now = Ok tt ∧
    w_calls w1 = w_calls w ++ before ++ [UploadTemplate lease stored upload; StatObject key].
Proof.
  unfold store_artifact.
  intros (u0 & w2 & [Hv ->]%reject_unless_Ok & Hk)%act_bind_Ok.
  apply act_bind_Ok in Hk as (upload & w3 & (_ & Hd3 & Hc3)%or_throw_Ok%template_call_Ok & Hk).
  apply act_bind_Ok in Hk as (u1 & w4 & [Hg ->]%lift_Ok & Hk).
  apply act_bind_Ok in Hk as (host & w5 & (_ & Hd5 & Hc5)%or_throw_Ok%template_call_Ok & Hk).
  apply act_bind_Ok in Hk as (u2 & w6 & [Hh ->]%reject_unless_Ok & Hk).
  apply act_bind_Ok in Hk as (st & w7 & (Hs & Hd7 & Hc7)%or_throw_Ok%template_call_Ok & Hk).
  apply act_bind_Ok in Hk as (u3 & w8 & [Hst ->]%reject_unless_Ok & [= <- <-]).
  apply andb_true_iff in Hv as [Hid _], Hh as [_ Hh%same_artifact_eq], Hst as [Hvalid Hst%same_artifact_eq].
  destruct u1. subst host. rewrite <- Hst in *. split_and!; try done.
  - by apply String.eqb_eq.
  - by rewrite Hd7, Hd5, Hd3.
  - by rewrite Hc7.
  - exists upload, [CreateUploadGrant key st (now + capability_time)]. split; [done|].
    rewrite Hc7, Hc5, Hc3. by rewrite <- !app_assoc.
Qed.

Lemma record_template_Ok schedule t w u w' :
  record_template schedule t w = (Ok u, w') →
  w_calls w' = w_calls w ∧ ∃ turn db, insert_template (t_now turn) t db = Ok (u, w_db w') ∧
    turn = schedule (w_tick w) ∧ db = others turn (w_db w).
Proof.
  unfold record_template, try_catch, template_statement. destruct (await _ _ w) as [[x|e] w1] eqn:Ea; [|done].
  intros [= <- <-]. apply await_Ok in Ea as (Ht & _ & Hc). split; [done|]. eauto.
Qed.

(** What a publication that returned rests on. *)
Definition published (storage : TemplateObjectStore) (lease : HostExport) (key : string)
    (describe : Artifact → Template) (exported : result TemplateError (string * Artifact))
    (cs transfers : list TemplateCall) (t : Template) (db' : TemplateDb) : Prop :=
  ∃ e before upload, exported = Ok e ∧ e.1 = exportId lease ∧ validArtifact e.2 = true ∧
    transfers = before ++ [UploadTemplate lease e.2 upload; StatObject key] ∧
    on_stat storage (cs ++ transfers) = Ok e.2 ∧ t = describe e.2 ∧
    ∃ now db, insert_template now t db = Ok (tt, db').

Lemma transfer_run schedule new_URL storage publisher lease key now describe exported w :
  let outcome := transfer schedule new_URL storage publisher lease key now describe exported w in
  ∃ transfers,
    w_calls outcome.2 = w_calls w ++ transfers ++ (if is_ok outcome.1 then [] else [DeleteObject key]) ∧
    Forall (transfer_call key) transfers ∧
    match outcome.1 with
    | Err _ => True
    | Ok t => published storage lease key describe exported (w_calls w) transfers t (w_db outcome.2)
    end.
Proof.
  unfold transfer, try_catch. cbv zeta. destruct exported as [e|e].
  2: { exists []. rewrite (act_bind_eq (lift _)). simpl. by rewrite act_bind_eq, quietly_run. }
  rewrite (act_bind_eq (lift _)). simpl. rewrite act_bind_eq.
  pose proof (store_artifact_makes new_URL storage publisher lease key now e w) as (transfers & Hcs & HT).
  exists transfers. destruct (store_artifact _ _ _ _ _ _ e w) as [[stored|er] w1] eqn:Es; simpl in *.
  - rewrite act_bind_eq. destruct (record_template _ _ w1) as [[[]|er] w2] eqn:Er; simpl.
    + apply record_template_Ok in Er as (Hc & turn & db & Hi & _). rewrite Hc, app_nil_r. split_and!; try done.
      apply store_artifact_Ok in Es as (-> & Hid & Hv & _ & Hstat & upload & before & _ & Hu).
      rewrite Hcs in Hu, Hstat. apply app_inv_head in Hu. exists e, before, upload. split_and!; try done. eauto.
    + pose proof (makes_record (λ _, False) schedule (describe stored) w1) as (cs & Hc & HF).
      rewrite Er in Hc. simpl in Hc. destruct HF; [|done]. rewrite app_nil_r in Hc.
      rewrite act_bind_eq, quietly_run. simpl. rewrite Hc, Hcs. by rewrite <- !app_assoc.
  - rewrite act_bind_eq, quietly_run. simpl. rewrite Hcs. by rewrite <- !app_assoc.
Qed.

Lemma publication_eq schedule new_URL storage publisher lease key now describe w :
  let cs := w_calls w ++ [ExportTemplate lease] in
  let exported := on_export publisher cs in
  let after := transfer schedule new_URL storage publisher lease key now describe exported
                 (mkWorld (w_db w) (w_tick w) cs) in
  publication schedule new_URL storage publisher lease key now describe w =
    (after.1, if is_ok exported then (template_call (DiscardExport lease) (on_discard publisher) after.2).2 else after.2).
Proof.
  unfold publication. cbv zeta. rewrite act_bind_eq. unfold attempt, template_call at 1, call_with at 1.
  destruct (on_export publisher _); simpl.
  - exact (try_finally_quietly _ true (template_call (DiscardExport lease) (on_discard publisher)) _).
  - exact (try_finally_quietly _ false (mret tt) _).
Qed.

(** The whole of a publication, on every path: what is called, what is thrown,
    what is stored. *)
Lemma publication_run schedule new_URL storage publisher lease key now describe w r w' :
  publication schedule new_URL storage publisher lease key now describe w = (r, w') →
  let cs := w_calls w ++ [ExportTemplate lease] in
  let exported := on_export publisher cs in
  ∃ transfers,
    w_calls w' = w_calls w ++ [ExportTemplate lease] ++ transfers ++
      (if is_ok r then [] else [DeleteObject key]) ++ (if is_ok exported then [DiscardExport lease] else []) ∧
    Forall (transfer_call key) transfers ∧
    match r with
    | Err _ => True
    | Ok t => published storage lease key describe exported cs transfers t (w_db w')
    end.
Proof.
  rewrite publication_eq. cbv zeta. set (exported := on_export publisher _). intros [= <- <-].
  destruct (transfer_run schedule new_URL storage publisher lease key now describe exported
              (mkWorld (w_db w) (w_tick w) (w_calls w ++ [ExportTemplate lease]))) as (transfers & Hcs & HT & Hres).
  exists transfers. destruct (transfer _ _ _ _ _ _ _ _ _ _) as [r w2]. simpl in *. split; [|split; [done|]].
  - destruct (is_ok exported); simpl; rewrite Hcs; by rewrite <- !app_assoc, ?app_nil_r.
  - destruct r as [t|?]; [|done]. by destruct (is_ok exported).
Qed.

(** ** Publishing *)

(** The prologue of a publication: nothing is called but the resolver until the
    input, the machine and the object key are known to be valid. *)
Definition prologue (schedule : nat → Turn TemplateDb) (new_URL : string → option Url) (svc : TemplateService)
    (input : PublishInput) (w : TemplateWorld) (r : result TemplateError Template) (w' : TemplateWorld) : Prop :=
  ∃ machines storage publisher machine hostAddress hostMachine turn now key w1,
    let name := js_trim (pb_name input) in
    let version := js_trim (pb_version input) in
    let id := t_random turn 0 in
    configured svc = Some (machines, storage, publisher) ∧
    test templateNamePattern name = true ∧ test templateVersionPattern version = true ∧
    test machineIdPattern (pb_machineId input) = true ∧
    w_calls w1 = w_calls w ++ [GetMachine (pb_machineId input) (pb_organizationId input) (pb_projectId input)] ∧
    on_get machines (w_calls w1) = Ok (Some machine) ∧
    sm_organizationId machine = pb_organizationId input ∧ sm_projectId machine = pb_projectId input ∧
    ready_source now machine = Some (hostAddress, hostMachine) ∧
    safeObjectKey (pb_organizationId input) (pb_projectId input) name version id = Ok key ∧
    (∃ n, turn = schedule n) ∧
    publication schedule new_URL storage publisher
      (mkHostExport hostAddress hostMachine (sm_leaseId machine) ("te_" +:+ without_char "-" id)) key (t_now turn)
      (published_template input name version id ("t-" +:+ substring 0 29 (t_random turn 1)) key machine (t_now turn))
      w1 = (r, w').

Definition resolver_call (c : TemplateCall) : Prop := match c with GetMachine _ _ _ => True | _ => False end.

Lemma reject_unless_bind {A} b e (k : unit → TemplateAct A) w :
  (reject_unless b e ≫= k) w = if b then k tt w else (Err e, w).
Proof. by destruct b. Qed.

Lemma source_machine_run machines input w :
  let call := GetMachine (pb_machineId input) (pb_organizationId input) (pb_projectId input) in
  w_calls (source_machine machines input w).2 = w_calls w ++ [call] ∧
  ∀ m, (source_machine machines input w).1 = Ok m →
    on_get machines (w_calls w ++ [call]) = Ok (Some m) ∧
    sm_organizationId m = pb_organizationId input ∧ sm_projectId m = pb_projectId input.
Proof.
  unfold source_machine. cbv zeta. rewrite act_bind_eq. unfold template_call, call_with.
  destruct (on_get machines _) as [[m|]|e]; [|done..].
  rewrite reject_unless_bind. destruct (_ && _) eqn:E; [|done]. split; [done|]. intros m' [= <-]. bool_simp.
  by split_and!.
Qed.

Lemma nothing_asked (e : TemplateError) (w : TemplateWorld) (r : result TemplateError Template) w' :
  (Err e, w) = (r, w') → is_ok r = false ∧ ∃ cs, w_calls w' = w_calls w ++ cs ∧ Forall resolver_call cs.
Proof. intros [= <- <-]. split; [done|]. exists []. by rewrite app_nil_r. Qed.

Lemma publish_run schedule new_URL svc input w :
  let outcome := publish schedule new_URL svc input w in
  (is_ok outcome.1 = false ∧ ∃ cs, w_calls outcome.2 = w_calls w ++ cs ∧ Forall resolver_call cs) ∨
  prologue schedule new_URL svc input w outcome.1 outcome.2.
Proof.
  cbv zeta. destruct (publish schedule new_URL svc input w) as [r w'] eqn:Hp. unfold publish in Hp. simpl.
  rewrite reject_unless_bind in Hp.
  destruct (test templateNamePattern _) eqn:E1; [|left; by apply nothing_asked in Hp].
  rewrite reject_unless_bind in Hp.
  destruct (test templateVersionPattern _) eqn:E2; [|left; by apply nothing_asked in Hp].
  rewrite reject_unless_bind in Hp.
  destruct (test machineIdPattern _) eqn:E3; [|left; by apply nothing_asked in Hp].
  destruct (configured svc) as [[[machines storage] publisher]|] eqn:Ec; [|left; by apply nothing_asked in Hp].
  rewrite (act_bind_eq (template_select _ _)) in Hp.
  destruct (template_select _ _ w) as [[existing|e] w1] eqn:Es;
    pose proof (await_tables schedule (λ turn, gets (findVersion (pb_organizationId input) (pb_projectId input)
      (js_trim (pb_name input)) (js_trim (pb_version input)))) w) as (_ & Hc1 & _);
    unfold template_select, query in Es; rewrite Es in Hc1; simpl in Hc1;
    [|left; injection Hp as <- <-; split; [done|]; exists []; by rewrite Hc1, app_nil_r].
  rewrite reject_unless_bind in Hp.
  destruct existing; [left; injection Hp as <- <-; split; [done|]; exists []; by rewrite Hc1, app_nil_r|].
  pose proof (source_machine_run machines input w1) as [Hc2 Hm]. rewrite act_bind_eq in Hp.
  destruct (source_machine machines input w1) as [[machine|e] w2] eqn:Em; simpl in Hc2, Hm; rewrite Hc1 in Hc2, Hm;
    [|left; injection Hp as <- <-; split; [done|]; eexists; split; [exact Hc2|by repeat constructor]].
  destruct (Hm machine eq_refl) as (Hget & Horg & Hproj).
  rewrite act_bind_eq in Hp. simpl in Hp.
  destruct (ready_source _ machine) as [[hostAddress hostMachine]|] eqn:Er;
    [|left; injection Hp as <- <-; split; [done|]; eexists; split; [exact Hc2|by repeat constructor]].
  rewrite act_bind_eq in Hp. simpl in Hp. rewrite act_bind_eq in Hp. unfold lift in Hp.
  destruct (safeObjectKey _ _ _ _ _) as [key|e] eqn:Ek;
    [|left; injection Hp as <- <-; split; [done|]; eexists; split; [exact Hc2|by repeat constructor]].
  right. do 10 eexists. split_and!; [..|exact Hp]; try done; try exact Ec; try exact Er; try exact Ek; eauto.
  simpl. by rewrite Hc2.
Qed.

Lemma artifact_valid a :
  validArtifact a = true →
  validTemplateChecksum (checksum a) = true ∧ 0 < artifact_size a <= maximumArtifactBytes ∧
  isSafeInteger (NInt (artifact_size a)) = true ∧ a = mkArtifact (checksum a) (NInt (artifact_size a)).
Proof.
  destruct a as [c n]. unfold validArtifact, artifact_size. simpl.
  intros [Hc Hs]%andb_true_iff. destruct (safe_between 1 maximumArtifactBytes n) as [z|] eqn:E; [|done].
  apply safe_between_Some in E as (-> & Hz). split_and!; try done; try lia.
Qed.

Lemma insert_template_row now t db u db' :
  insert_template now t db = Ok (u, db') →
  templates db' !! t.1 = Some (t.2 <| te_created_at := now |> <| te_deleted_at := None |>) ∧
  test hostTemplateNamePattern (te_host_template_name t.2) = true ∧ template_hosts db' = template_hosts db ∧
  ∀ host h, template_hosts db' !! host = Some h → schedulable h = true →
    th_architecture h = tm_architecture (te_manifest t.2) → is_Some (template_replicas db' !! (t.1, host)).
Proof.
  intros Hi. pose proof Hi as [_ ->]%insert_template_Ok. split_and!.
  - simpl. by rewrite lookup_insert_eq.
  - unfold insert_template, insert_violation in Hi. destruct t as [id row]. simpl in *.
    by destruct (test hostTemplateNamePattern _).
  - done.
  - intros host h Hh Hs Ha. apply queue_all_has, list_elem_of_fmap. exists host. split; [done|].
    unfold queued_hosts. apply list_elem_of_fmap. exists (host, h). split; [done|].
    apply list_elem_of_In, List.filter_In. split; [by apply list_elem_of_In, elem_of_map_to_list|].
    simpl. by rewrite Hs, Ha, String.eqb_refl.
Qed.

(** A publication that returns a template rests on a verified object: the store,
    asked after the upload, reported the template's checksum and size under the
    key of its tenant, name, version and id; the row of the template is in the
    table with a replica queued for every host of its architecture that takes
    work; and nothing was deleted. *)
Theorem published_template_is_stored schedule new_URL svc input w t w' :
  publish schedule new_URL svc input w = (Ok t, w') →
  ∃ machines storage publisher before after,
    configured svc = Some (machines, storage, publisher) ∧
    te_object_key t.2 = object_key (te_organization_id t.2) (te_project_id t.2) (te_name t.2) (te_version t.2) t.1 ∧
    w_calls w' = w_calls w ++ before ++ [StatObject (te_object_key t.2)] ++ after ∧
    on_stat storage (w_calls w ++ before ++ [StatObject (te_object_key t.2)]) =
      Ok (mkArtifact (te_checksum t.2) (NInt (te_size_bytes t.2))) ∧
    validTemplateChecksum (te_checksum t.2) = true ∧ 0 < te_size_bytes t.2 <= maximumArtifactBytes ∧
    (∃ created, templates (w_db w') !! t.1 = Some (t.2 <| te_created_at := created |>)) ∧
    (∀ host h, template_hosts (w_db w') !! host = Some h → schedulable h = true →
       th_architecture h = tm_architecture (te_manifest t.2) →
       is_Some (template_replicas (w_db w') !! (t.1, host))) ∧
    ∀ key, DeleteObject key ∉ before ++ after.
Proof.
  intros Hp. pose proof (publish_run schedule new_URL svc input w) as Hrun. rewrite Hp in Hrun.
  destruct Hrun as [[? _]|(ma & st & pu & m & ha & hm & turn & now & key & w1 & Hrun)]; [done|].
  simpl in Hrun. destruct Hrun as (Hcfg & _ & _ & _ & Hc & _ & _ & _ & _ & Hkey & _ & Hpub).
  apply publication_run in Hpub as (transfers & Hcalls & HT &
    e & before & upload & He & _ & Hv & -> & Hstat & -> & now' & db & Hi).
  rewrite He, Hc in Hcalls. rewrite Hc in Hstat.
  apply artifact_valid in Hv as (Hvc & Hsz & _ & Ea).
  unfold safeObjectKey in Hkey. destruct (_ || _); [done|]. injection Hkey as <-.
  apply insert_template_row in Hi as (Hrow & _ & _ & Hq).
  set (call := GetMachine _ _ _) in *. set (ex := ExportTemplate _) in *. set (up := UploadTemplate _ _ _) in *.
  set (di := DiscardExport _) in *.
  exists ma, st, pu, (call :: ex :: before ++ [up]), [di]. split_and!; try done; try (simpl; lia).
  - rewrite Hcalls. simpl. by rewrite <- !app_assoc.
  - simpl. rewrite <- Ea, <- Hstat. f_equal. simpl. by rewrite <- !app_assoc.
  - exists now'. exact Hrow.
  - intros k Hin. set_unfold in Hin. destruct_or! Hin; try done.
    apply Forall_app in HT as [HT _]. by apply (proj1 (Forall_forall _ _) HT) in Hin.
Qed.

(** A publication that throws leaves nothing behind at the collaborators: either
    it asked for the machine at most, or the object under its key was deleted
    after whatever was transferred, and then the host was told to discard the
    export if it had answered one. *)
Theorem failed_publication_cleans_up schedule new_URL svc input w e w' :
  publish schedule new_URL svc input w = (Err e, w') →
  ∃ cs, w_calls w' = w_calls w ++ cs ∧
    (Forall resolver_call cs ∨
     ∃ machines storage publisher machine lease key transfers,
       configured svc = Some (machines, storage, publisher) ∧ resolver_call machine ∧
       cs = machine :: ExportTemplate lease :: transfers ++ DeleteObject key ::
              (if is_ok (on_export publisher (w_calls w ++ [machine; ExportTemplate lease]))
               then [DiscardExport lease] else []) ∧
       Forall (transfer_call key) transfers).
Proof.
  intros Hp. pose proof (publish_run schedule new_URL svc input w) as Hrun. rewrite Hp in Hrun.
  destruct Hrun as [(_ & cs & Hcs & HF)|(ma & st & pu & m & ha & hm & turn & now & key & w1 & Hrun)].
  { exists cs. split; [done|by left]. }
  simpl in Hrun. destruct Hrun as (Hcfg & _ & _ & _ & Hc & _ & _ & _ & _ & _ & _ & Hpub).
  apply publication_run in Hpub as (transfers & Hcalls & HT & _).
  simpl in Hcalls. rewrite Hc, <- !app_assoc in Hcalls. simpl in Hcalls.
  eexists. split; [exact Hcalls|]. right.
  eexists ma, st, pu, _, _, key, transfers. split_and!; [done| |done|done]. exact I.
Qed.

(** ** A lost answer *)

(** The same schedule, but the answer of statement [n], which runs as before, is
    lost. *)
Definition losing (n : nat) (schedule : nat → Turn TemplateDb) (k : nat) : Turn TemplateDb :=
  let t := schedule k in
  if (k =? n)%nat then mkTurn (others t) (t_now t) (t_clock t) (t_random t) (t_locked t) AnswerLost else t.

Lemma losing_other n schedule k : k ≠ n → losing n schedule k = schedule k.
Proof. unfold losing. intros Hk. by rewrite (proj2 (Nat.eqb_neq k n) Hk). Qed.

Lemma await_losing {A} n schedule (t : Turn TemplateDb → TemplateTx A) (w : TemplateWorld) :
  w_tick w ≠ n → await (losing n schedule) t w = await schedule t w.
Proof. intros Hn. unfold await. by rewrite losing_other. Qed.

Lemma await_lost {A} schedule (t : Turn TemplateDb → TemplateTx A) (w : TemplateWorld) a w' :
  (∀ t', t' = mkTurn (others (schedule (w_tick w))) (t_now (schedule (w_tick w))) (t_clock (schedule (w_tick w)))
     (t_random (schedule (w_tick w))) (t_locked (schedule (w_tick w))) AnswerLost → t t' = t (schedule (w_tick w))) →
  await schedule t w = (Ok a, w') → await (losing (w_tick w) schedule) t w = (Err connection_lost, w').
Proof.
  intros Ht. unfold await, losing, transaction. rewrite Nat.eqb_refl. simpl. rewrite (Ht _ eq_refl).
  destruct (delivery _); destruct (t _ _) as [[x db]|e]; by intros [= _ <-].
Qed.

Lemma record_template_lost schedule t w u w' :
  record_template schedule t w = (Ok u, w') →
  record_template (losing (w_tick w) schedule) t w = (Err connection_lost, w').
Proof.
  unfold record_template, try_catch, template_statement.
  destruct (await schedule _ w) as [[x|e] w1] eqn:Ha; [|done]. intros [= _ <-].
  apply await_lost in Ha; [|by intros t' ->]. by rewrite Ha.
Qed.

(** Calls draw nothing from the schedule. *)
Definition still {A} (m : TemplateAct A) : Prop := ∀ w, w_tick (m w).2 = w_tick w.

Lemma still_bind {A B} (m : TemplateAct A) (k : A → TemplateAct B) : still m → (∀ a, still (k a)) → still (m ≫= k).
Proof.
  intros Hm Hk w. rewrite act_bind_eq. specialize (Hm w). destruct (m w) as [[a|e] w1]; simpl in *; [|done].
  by rewrite (Hk a w1).
Qed.

Lemma still_or_throw {A} (m : TemplateAct A) e : still m → still (or_throw m e).
Proof. intros Hm w. unfold or_throw, try_catch. specialize (Hm w). by destruct (m w) as [[?|?] ?]. Qed.

Lemma still_call {A} c (answer : Answer A) : still (template_call c answer).
Proof. by intros w. Qed.

Lemma still_reject b e : still (reject_unless b e).
Proof. intros w. by destruct b. Qed.

Lemma source_machine_still machines input : still (source_machine machines input).
Proof.
  apply still_bind; [apply still_call|]. intros [m|]; [|by intros w]. apply still_bind; [apply still_reject|by intros a w].
Qed.

Lemma store_artifact_still new_URL storage publisher lease key now e :
  still (store_artifact new_URL storage publisher lease key now e).
Proof.
  unfold store_artifact. repeat (apply still_bind; [|intros ?]);
    repeat first [apply still_or_throw|apply still_call|apply still_reject|by intros w].
Qed.

Lemma transfer_lost schedule new_URL storage publisher lease key now describe exported w t w' :
  transfer schedule new_URL storage publisher lease key now describe exported w = (Ok t, w') →
  transfer (losing (w_tick w) schedule) new_URL storage publisher lease key now describe exported w =
    (Err connection_lost, mkWorld (w_db w') (w_tick w') (w_calls w' ++ [DeleteObject key])).
Proof.
  unfold transfer, try_catch. destruct exported as [e|e];
    [|rewrite (act_bind_eq (lift _)); simpl; by rewrite act_bind_eq, quietly_run].
  rewrite !(act_bind_eq (lift _)). simpl. rewrite !act_bind_eq.
  pose proof (store_artifact_still new_URL storage publisher lease key now e w) as Ht.
  destruct (store_artifact _ _ _ _ _ _ e w) as [[stored|er] w1]; [|by rewrite act_bind_eq, quietly_run].
  simpl in Ht. rewrite !act_bind_eq.
  destruct (record_template schedule _ w1) as [[u|er] w2] eqn:Er; [|by rewrite act_bind_eq, quietly_run].
  apply record_template_lost in Er. rewrite <- Ht, Er. intros [= <- <-]. rewrite act_bind_eq, quietly_run. reflexivity.
Qed.

Lemma publication_lost schedule new_URL storage publisher lease key now describe w t w' :
  publication schedule new_URL storage publisher lease key now describe w = (Ok t, w') →
  ∃ w'', publication (losing (w_tick w) schedule) new_URL storage publisher lease key now describe w
      = (Err connection_lost, w'') ∧ w_db w'' = w_db w' ∧ DeleteObject key ∈ w_calls w''.
Proof.
  rewrite !publication_eq. cbv zeta. set (cs := w_calls w ++ _). set (exported := on_export publisher cs).
  destruct (transfer schedule _ _ _ _ _ _ _ _ _) as [r w1] eqn:Ht. intros [= -> <-].
  apply (transfer_lost _ _ _ _ _ _ _ _ _ (mkWorld (w_db w) (w_tick w) cs)) in Ht. simpl in Ht. rewrite Ht. simpl.
  eexists. split; [reflexivity|]. destruct (is_ok exported); simpl; set_solver.
Qed.

(** C35: Losing one answer undoes what is behind a template.  Take any publication
    that succeeds, and let only the answer of the statement that records the template
    be lost: the row is committed, live and under the same id, the publication throws
    and deletes the object the row names, and the row's replicas are queued for
    every host of the architecture that takes work. *)
Theorem lost_answer_deletes_committed_artifact schedule new_URL svc input w t w' :
  publish schedule new_URL svc input w = (Ok t, w') →
  ∃ w'' created, publish (losing (w_tick w + 3) schedule) new_URL svc input w = (Err connection_lost, w'') ∧
    DeleteObject (te_object_key t.2) ∈ w_calls w'' ∧
    templates (w_db w'') !! t.1 = Some (t.2 <| te_created_at := created |>) ∧ te_deleted_at t.2 = None ∧
    ∀ host h, template_hosts (w_db w'') !! host = Some h → schedulable h = true →
      th_architecture h = tm_architecture (te_manifest t.2) → is_Some (template_replicas (w_db w'') !! (t.1, host)).
Proof.
  intros Hp. destruct (published_template_is_stored _ _ _ _ _ _ _ Hp) as (_ & _ & _ & _ & _ & _ & _ & _ & _ & _ & _ &
    [created Hrow] & Hq & _).
  assert (∃ w'', publish (losing (w_tick w + 3) schedule) new_URL svc input w = (Err connection_lost, w'') ∧
    w_db w'' = w_db w' ∧ DeleteObject (te_object_key t.2) ∈ w_calls w'' ∧ te_deleted_at t.2 = None)
    as (w'' & Hl & Edb & Hdel & Hlive); [|exists w'', created; rewrite Edb; by split_and!].
  unfold publish in *. rewrite !reject_unless_bind in *.
  destruct (test templateNamePattern _); [|done]. destruct (test templateVersionPattern _); [|done].
  destruct (test machineIdPattern _); [|done].
  destruct (configured svc) as [[[machines storage] publisher]|]; [|done].
  apply act_bind_Ok in Hp as (existing & w1 & Hs & Hp). pose proof Hs as (_ & Ht1 & _)%await_Ok.
  unfold template_select, query in Hs |- *. rewrite <- (await_losing (w_tick w + 3)) in Hs by lia.
  rewrite (act_bind_step _ _ _ _ _ Hs). rewrite reject_unless_bind in *. destruct existing; [done|].
  apply act_bind_Ok in Hp as (machine & w2 & Hm & Hp). rewrite (act_bind_step _ _ _ _ _ Hm).
  pose proof (source_machine_still machines input w1) as Ht2. rewrite Hm in Ht2. simpl in Ht2.
  assert (∀ k, (k < 3)%nat → losing (w_tick w + 3) schedule (w_tick w + k) = schedule (w_tick w + k)%nat) as Hsame
    by (intros k Hk; apply losing_other; lia).
  unfold template_clock, draw in *. rewrite act_bind_eq in Hp |- *.
  assert (w_tick w2 = w_tick w + 1)%nat as E2 by lia. rewrite E2 in *. rewrite (Hsame 1%nat) by lia.
  destruct (ready_source _ machine) as [[hostAddress hostMachine]|]; [|done].
  rewrite act_bind_eq in Hp |- *. simpl w_tick in *.
  assert (S (w_tick w + 1) = w_tick w + 2)%nat as E3 by lia. rewrite E3 in *. rewrite (Hsame 2%nat) by lia.
  rewrite act_bind_eq in Hp |- *. unfold lift in *. destruct (safeObjectKey _ _ _ _ _) as [key|e]; [|done].
  pose proof Hp as Hp'. apply publication_run in Hp' as (transfers & _ & _ & e & _ & _ & _ & _ & _ & _ & _ & Et & _).
  apply publication_lost in Hp as (w'' & Hl & Edb & Hdel). simpl w_tick in Hl.
  assert (S (w_tick w + 2) = w_tick w + 3)%nat as E4 by lia. rewrite E4 in *.
  exists w''. subst t. split_and!; done.
Qed.

(** ** Publication and replication agree *)

Lemma segment_test p q n s :
  test (Cat (Chr p) (rep 0 n (Chr q))) s = true ↔
  ∃ c l, list_ascii_of_string s = c :: l ∧ p c = true ∧ Forall (λ x, q x = true) l ∧ (length l <= n)%nat.
Proof.
  rewrite test_lang. split.
  - intros (l1 & l2 & -> & Hp & Hq)%lang_cat_inv. inversion Hp; subst.
    apply lang_rep in Hq as [? ?]; [|lia]. simpl. exists c, l2. by split_and!; try lia.
  - intros (c & l & -> & Hp & Hq & Hl). apply (lang_cat _ _ [c] l); [by constructor|].
    apply lang_rep; [lia|]. split; [lia|done].
Qed.

Lemma segment_weaken (p p' q q' : ascii → bool) n n' s :
  (∀ c, p c = true → p' c = true) → (∀ c, q c = true → q' c = true) → (n <= n')%nat →
  test (Cat (Chr p) (rep 0 n (Chr q))) s = true → test (Cat (Chr p') (rep 0 n' (Chr q'))) s = true.
Proof.
  intros Hp Hq Hn (c & l & Hs & Hc & Hl & Hlen)%segment_test. apply segment_test. exists c, l.
  split_and!; [done|by apply Hp| |lia]. eapply Forall_impl; [exact Hl|]. auto.
Qed.

(** A character class within another, by its 256 characters. *)
Ltac classes := intros [[] [] [] [] [] [] [] []]; vm_compute; done.

Lemma name_segment s : test templateNamePattern s = true → test safeSegment s = true.
Proof. apply segment_weaken; [classes|classes|lia]. Qed.

Lemma version_segment s : test templateVersionPattern s = true → test safeSegment s = true.
Proof. apply segment_weaken; [classes|classes|lia]. Qed.

Lemma tenant_segment s : test tenantSegmentPattern s = true → test safeSegment s = true.
Proof. apply segment_weaken; [classes|classes|lia]. Qed.

Lemma chars_weaken (p q : ascii → bool) l :
  (∀ c, p c = true → q c = true) → Forall (λ c, p c = true) l → Forall (λ c, q c = true) l.
Proof. intros H Hl. eapply Forall_impl; [exact Hl|auto]. Qed.

Definition class_within (p q : ascii → bool) : bool :=
  forallb (λ n, implb (p (ascii_of_nat n)) (q (ascii_of_nat n))) (seq 0 256).

Lemma class_within_true p q c : class_within p q = true → p c = true → q c = true.
Proof.
  unfold class_within. rewrite forallb_forall. intros E Hp. specialize (E (nat_of_ascii c)).
  rewrite ascii_nat_embedding, Hp in E. apply E, in_seq. pose proof (nat_ascii_bounded c). lia.
Qed.
#[local] Opaque class_within.

(** A string that matches a pattern without a star has few characters, of the
    classes of the pattern. *)
Fixpoint bounded_by (q : ascii → bool) (r : re) : option nat :=
  match r with
  | Nul | Eps => Some O
  | Chr p => if class_within p q then Some 1%nat else None
  | Cat a b => match bounded_by q a, bounded_by q b with Some m, Some n => Some (m + n)%nat | _, _ => None end
  | Alt a b => match bounded_by q a, bounded_by q b with Some m, Some n => Some (Nat.max m n) | _, _ => None end
  | Star _ => None
  end.

Lemma bounded_by_lang q r n l :
  bounded_by q r = Some n → lang r l → (length l <= n)%nat ∧ Forall (λ c, q c = true) l.
Proof.
  revert n l. induction r as [| |p|a IHa b IHb|a IHa b IHb|a IHa]; simpl; intros n l Hb Hl; inv_lang.
  - split; [simpl; lia|done].
  - destruct (class_within p q) eqn:E; [|done]. injection Hb as <-. split; [done|].
    constructor; [|done]. by eapply class_within_true.
  - destruct (bounded_by q a), (bounded_by q b); try done. injection Hb as <-.
    edestruct IHa as [? ?]; [done|done|]. edestruct IHb as [? ?]; [done|done|].
    rewrite length_app. split; [lia|by apply Forall_app].
  - destruct (bounded_by q a), (bounded_by q b); try done. injection Hb as <-.
    edestruct IHa as [? ?]; [done|done|]. split; [lia|done].
  - destruct (bounded_by q a), (bounded_by q b); try done. injection Hb as <-.
    edestruct IHb as [? ?]; [done|done|]. split; [lia|done].
  - done.
Qed.

Lemma uuid_segment s : test uuidPattern s = true → test safeSegment s = true.
Proof.
  rewrite test_lang. intros Hl.
  assert (bounded_by safeSegmentChar uuidPattern = Some 36%nat) as Hb by (vm_compute; reflexivity).
  destruct (bounded_by_lang _ _ _ _ Hb Hl) as [Hn Hf]. clear Hb.
  apply segment_test. unfold uuidPattern, cats in Hl. simpl in Hl.
  apply lang_cat_inv in Hl as (l1 & l2 & El & H1 & _). inversion H1 as [| |? ? l3 l4 H3 _| | | |]; subst.
  inversion H3 as [|? c Hc| | | | |]; subst. exists c, (l4 ++ l2). rewrite El in Hf, Hn. simpl in *.
  inversion Hf; subst. split_and!; [done| |done|lia].
  assert (∀ c', hex c' = true → alnum c' = true) as Hh by classes. by apply Hh.
Qed.

(** What publication writes, replication accepts: the work the queue hands out for
    a template as it was published passes the validation of the job, whichever
    the host.  Of the platform: identifiers are random UUIDs, and the resolver
    answers machines with an identifier and an architecture of their types. *)
Theorem published_work_is_valid schedule new_URL svc input w t w' host work :
  (∀ n, test uuidPattern (t_random (schedule n) 0) = true) →
  (∀ machines cs m, svc_machines svc = Some machines → on_get machines cs = Ok (Some m) →
     test machineIdPattern (sm_id m) = true ∧ sm_architecture m ∈ ["x86_64"; "aarch64"]) →
  publish schedule new_URL svc input w = (Ok t, w') →
  replica_work (w_db w') (t.1, host) = Some work → wk_hostAddress work ≠ "" →
  validWork work = true.
Proof.
  intros Huuid Hres Hp (row & h & Hrow & _ & _ & _ & ->)%replica_work_Some Haddr.
  pose proof (publish_run schedule new_URL svc input w) as Hrun. rewrite Hp in Hrun.
  destruct Hrun as [[? _]|(ma & st & pu & m & ha & hm & turn & now & key & w1 & Hrun)]; [done|].
  simpl in Hrun. destruct Hrun as (Hcfg & Hn & Hv & _ & _ & Hget & _ & _ & _ & Hkey & [n ->] & Hpub).
  apply publication_run in Hpub as (transfers & _ & _ & e & before & upload & _ & _ & Hva & _ & _ & -> & now' & db & Hi).
  apply artifact_valid in Hva as (Hvc & Hsz & Hsafe & _).
  apply insert_template_row in Hi as (Hrow' & Hhost & _). simpl in Hrow, Hrow'. rewrite Hrow' in Hrow.
  injection Hrow as <-.
  assert (svc_machines svc = Some ma) as Hma.
  { unfold configured in Hcfg. by destruct (svc_machines svc), (svc_storage svc), (svc_publisher svc); simplify_eq. }
  destruct (Hres _ _ _ Hma Hget) as [Hid Harch]. specialize (Huuid n).
  unfold safeObjectKey in Hkey. destruct (test tenantSegmentPattern (pb_organizationId input)) eqn:Ho; [|done].
  destruct (test tenantSegmentPattern (pb_projectId input)) eqn:Hpr; [|done]. injection Hkey as <-.
  pose proof (proj2 (string_in_spec _ _) Harch) as Ha.
  pose proof (proj2 (Z.ltb_lt _ _) (proj1 Hsz)) as Hpos. unfold validWork. simpl in *.
  rewrite (uuid_segment _ Huuid), (tenant_segment _ Ho), (tenant_segment _ Hpr), (name_segment _ Hn),
    (version_segment _ Hv), Hhost, Hvc, Hid, !String.eqb_refl, !Z.eqb_refl.
  rewrite Ha, Hpos, Hsafe.
  assert (0 <? str_length (th_address h) = true) as ->; [|done].
  destruct (th_address h); [done|]. unfold str_length. simpl. apply Z.ltb_lt. lia.
Qed.

(** ** The job *)

Lemma activate_replica_Ok schedule new_URL storage activator work w u w' :
  activate_replica schedule new_URL storage activator work w = (Ok u, w') →
  let artifact := mkArtifact (wk_checksum work) (NInt (wk_sizeBytes work)) in
  validWork work = true ∧
  on_stat storage (w_calls w ++ [StatObject (wk_objectKey work)]) = Ok artifact ∧
  on_activate activator (w_calls w') = Ok artifact ∧
  ∃ (turn : Turn TemplateDb) db, markReady (t_now turn) (wk_templateId work) (wk_hostId work) (wk_checksum work) db = Ok (true, w_db w').
Proof.
  unfold activate_replica. cbv zeta.
  intros (u0 & w1 & [Hv ->]%reject_unless_Ok & Hk)%act_bind_Ok.
  apply act_bind_Ok in Hk as (st & w2 & (Hs & _)%template_call_Ok & Hk).
  apply act_bind_Ok in Hk as (u1 & w3 & [Hst%same_artifact_eq ->]%reject_unless_Ok & Hk).
  apply act_bind_Ok in Hk as (issued & w4 & _ & Hk).
  apply act_bind_Ok in Hk as (download & w5 & _ & Hk).
  apply act_bind_Ok in Hk as (u2 & w6 & _ & Hk).
  apply act_bind_Ok in Hk as (ac & w7 & (Ha & _ & Hc7)%template_call_Ok & Hk).
  apply act_bind_Ok in Hk as (u3 & w8 & [Hac%same_artifact_eq ->]%reject_unless_Ok & Hk).
  apply act_bind_Ok in Hk as (marked & w9 & Hm & [-> ->]%reject_unless_Ok).
  apply await_Ok in Hm as (Hm & _ & Hc9). subst. split_and!; try done; [|by eauto].
  by rewrite Hc9, Hc7.
Qed.

(** A replica reported ready was verified at both ends: the store reported the
    checksum and size of the work before the host was asked, the host reported
    them of what it installed, and the row is ready under the checksum of its
    live template. *)
Theorem activated_replica_verified schedule new_URL storage activator w n templateId hostId w' :
  runOnce schedule new_URL storage activator w = (Ok (ReplicationRan true n templateId hostId), w') →
  ∃ st ac work before,
    storage = Some st ∧ activator = Some ac ∧
    wk_templateId work = templateId ∧ wk_hostId work = hostId ∧ validWork work = true ∧
    (let artifact := mkArtifact (wk_checksum work) (NInt (wk_sizeBytes work)) in
     on_stat st (before ++ [StatObject (wk_objectKey work)]) = Ok artifact ∧
     on_activate ac (w_calls w') = Ok artifact) ∧
    (∃ now, template_replicas (w_db w') !! (templateId, hostId) = Some (ready_replica now (wk_checksum work))) ∧
    ∃ row, templates (w_db w') !! templateId = Some row ∧ te_deleted_at row = None ∧
      te_checksum row = wk_checksum work.
Proof.
  unfold runOnce. destruct storage as [st|], activator as [ac|]; try done.
  intros (enqueued & w1 & _ & Hk)%act_bind_Ok.
  apply act_bind_Ok in Hk as ([work|] & w2 & _ & Hk); [|done].
  unfold try_catch in Hk.
  match type of Hk with match ?m with _ => _ end = _ => destruct m as [[a|e] w3] eqn:Ea end.
  - injection Hk as -> ->. apply act_bind_Ok in Ea as (u & w4 & Ha & Hr). injection Hr as _ <- <- <-.
    apply activate_replica_Ok in Ha as (Hv & Hs & Hact & turn & db & Hm).
    apply markReady_Ok in Hm as (r & row & _ & _ & Ht & Hd & Hch & Hdb).
    exists st, ac, work, (w_calls w2). split_and!; try done.
    + exists (t_now turn). rewrite Hdb. simpl. by rewrite lookup_insert_eq.
    + exists row. by rewrite Hdb.
  - by apply act_bind_Ok in Hk as (u & w4 & _ & [= ? ? ? ?]).
Qed.

(** A replica reported failed is not left being pulled. *)
Theorem failed_replica_released schedule new_URL storage activator w n templateId hostId w' r :
  runOnce schedule new_URL storage activator w = (Ok (ReplicationRan false n templateId hostId), w') →
  template_replicas (w_db w') !! (templateId, hostId) = Some r → re_state r ≠ ReplicaPulling.
Proof.
  unfold runOnce. destruct storage as [st|], activator as [ac|]; try done.
  intros (enqueued & w1 & _ & Hk)%act_bind_Ok.
  apply act_bind_Ok in Hk as ([work|] & w2 & _ & Hk); [|done].
  unfold try_catch in Hk.
  match type of Hk with match ?m with _ => _ end = _ => destruct m as [[a|e] w3] eqn:Ea end.
  - injection Hk as -> ->. by apply act_bind_Ok in Ea as (u & w4 & _ & [= ? ? ? ?]).
  - apply act_bind_Ok in Hk as (u & w4 & Hm & [= _ <- <- <-]). apply await_Ok in Hm as (Hm & _ & _).
    unfold markFailed in Hm. injection Hm as _ <-. destruct (pulled _ _ _) eqn:Ep.
    + simpl. rewrite lookup_insert_eq. by intros [= <-].
    + intros Hr. unfold pulled in Ep. rewrite Hr in Ep. by apply bool_decide_eq_false in Ep.
Qed.

(** ** A control plane with one host and one machine *)

Definition tpl_checksum : string := "sha256:" +:+ Nat.iter 64 (String "a") "".
Definition tpl_uuid : string := "123e4567-e89b-42d3-a456-426614174000".
Definition tpl_name : string := "t-" +:+ Nat.iter 29 (String "b") "".
Definition tpl_key : string := object_key "org" "proj" "base" "1.0" tpl_uuid.
Definition tpl_artifact : Artifact := mkArtifact tpl_checksum (NInt 4096).

Definition tpl_random (n : nat) : string := match n with O => tpl_uuid | _ => Nat.iter 30 (String "b") "" end.

(** The answer of statement [lost] never arrives. *)
Definition tpl_schedule (lost : nat) (n : nat) : Turn TemplateDb :=
  mkTurn id (1000 + Z.of_nat n) (1000 + Z.of_nat n) tpl_random ∅ (if (n =? lost)%nat then AnswerLost else Delivered).

Definition tpl_db : TemplateDb :=
  mkTemplateDb ∅ ∅ {["h1" := mkTemplateHost "x86_64" HostReady "10.0.0.1"]}
    {["m_source" := mkTemplateMachine "org" None Running]} {[("proj", "org")]}.
Definition tpl_world : TemplateWorld := mkWorld tpl_db O [].

Definition tpl_URL (_ : string) : option Url := Some (mkUrl "https:" "" "" "").
Definition tpl_grant (m : ObjectGrantMethod) : ScopedObjectGrant :=
  mkScopedGrant m "https://store.example/object" None (Some 600000).
Definition tpl_machine : TemplateSourceMachine :=
  mkSourceMachine "m_source" "org" "proj" "running" true "x86_64" (Some "h1") (Some "10.0.0.1") (Some "hm1") "lease"
    (Some 900000).
Definition tpl_machines : TemplateMachineResolver := mkResolver (λ _, Ok (Some tpl_machine)).
Definition tpl_store (stat : Artifact) : TemplateObjectStore :=
  mkObjectStore (λ _, Ok (tpl_grant GrantPUT)) (λ _, Ok (tpl_grant GrantGET)) (λ _, Ok stat) (λ _, Ok tt).
Definition tpl_publisher : TemplatePublisher :=
  mkPublisher (λ _, Ok ("te_" +:+ without_char "-" tpl_uuid, tpl_artifact)) (λ _, Ok tpl_artifact) (λ _, Ok tt).
Definition tpl_service (stat : Artifact) : TemplateService :=
  mkTemplateService (Some tpl_machines) (Some (tpl_store stat)) (Some tpl_publisher).
Definition tpl_input : PublishInput := mkPublish "org" "proj" "m_source" " base " "1.0".

Definition tpl_publish (lost : nat) (stat : Artifact) : result TemplateError Template * TemplateWorld :=
  publish (tpl_schedule lost) tpl_URL (tpl_service stat) tpl_input tpl_world.

Definition tpl_template : Template :=
  published_template tpl_input "base" "1.0" tpl_uuid tpl_name tpl_key tpl_machine 1002 tpl_artifact.

Lemma tpl_publishes : tpl_publish 9 tpl_artifact = (Ok tpl_template, (tpl_publish 9 tpl_artifact).2).
Proof. vm_compute. reflexivity. Qed.

Example published_template_is_stored_witness :
  tpl_publish 9 tpl_artifact = (Ok tpl_template, (tpl_publish 9 tpl_artifact).2) ∧
  ∃ created, templates (w_db (tpl_publish 9 tpl_artifact).2) !! tpl_uuid =
               Some (tpl_template.2 <| te_created_at := created |>).
Proof.
  split; [exact tpl_publishes|].
  destruct (published_template_is_stored (tpl_schedule 9) tpl_URL (tpl_service tpl_artifact) tpl_input tpl_world
              tpl_template _ tpl_publishes)
    as (ma & st & pu & before & after & _ & _ & _ & _ & _ & _ & Hrow & _). exact Hrow.
Defined.

(** The store holds something else: the object is deleted, the export discarded. *)
Definition tpl_other : Artifact := mkArtifact tpl_checksum (NInt 1).
Definition tpl_mismatch : TemplateError :=
  TemplateIntegrityError "The durable artifact does not match the host checksum and size.".

Lemma tpl_fails : tpl_publish 9 tpl_other = (Err tpl_mismatch, (tpl_publish 9 tpl_other).2).
Proof. vm_compute. reflexivity. Qed.

Example failed_publication_cleans_up_witness :
  tpl_publish 9 tpl_other = (Err tpl_mismatch, (tpl_publish 9 tpl_other).2) ∧
  ∃ cs, w_calls (tpl_publish 9 tpl_other).2 = [] ++ cs.
Proof.
  split; [exact tpl_fails|].
  destruct (failed_publication_cleans_up (tpl_schedule 9) tpl_URL (tpl_service tpl_other) tpl_input tpl_world
              tpl_mismatch _ tpl_fails) as (cs & Hcs & _). exists cs. exact Hcs.
Defined.

Example lost_answer_deletes_committed_artifact_witness :
  tpl_publish 9 tpl_artifact = (Ok tpl_template, (tpl_publish 9 tpl_artifact).2) ∧
  ∃ w'', publish (losing 3 (tpl_schedule 9)) tpl_URL (tpl_service tpl_artifact) tpl_input tpl_world
      = (Err connection_lost, w'') ∧
    DeleteObject tpl_key ∈ w_calls w'' ∧ is_Some (templates (w_db w'') !! tpl_uuid).
Proof.
  split; [exact tpl_publishes|].
  destruct (lost_answer_deletes_committed_artifact (tpl_schedule 9) tpl_URL (tpl_service tpl_artifact) tpl_input tpl_world
    tpl_template _ tpl_publishes) as (w'' & created & Hp & Hd & Hrow & _).
  exists w''. split; [exact Hp|]. split; [exact Hd|]. eexists. exact Hrow.
Defined.

Definition tpl_published : TemplateDb := w_db (tpl_publish 9 tpl_artifact).2.

Definition tpl_work : TemplateReplicaWork :=
  mkWork tpl_uuid "org" "proj" "base" "1.0" "h1" "10.0.0.1" tpl_name tpl_key tpl_checksum 4096
    (te_manifest tpl_template.2).

Example published_work_is_valid_witness :
  replica_work tpl_published (tpl_uuid, "h1") = Some tpl_work ∧ validWork tpl_work = true.
Proof.
  assert (replica_work tpl_published (tpl_uuid, "h1") = Some tpl_work) as Hw by (vm_compute; reflexivity).
  split; [exact Hw|].
  refine (published_work_is_valid (tpl_schedule 9) tpl_URL (tpl_service tpl_artifact) tpl_input tpl_world tpl_template
            _ "h1" tpl_work _ _ tpl_publishes Hw _); [|intros ma cs m Hma Hget|done].
  - intros n. vm_compute. reflexivity.
  - simpl in Hma. injection Hma as <-. simpl in Hget. injection Hget as <-.
    split; [vm_compute; reflexivity|left].
Defined.

Definition tpl_activator (a : Artifact) : TemplateActivator := mkActivator (λ _, Ok a).
Definition tpl_run (a : Artifact) : result TemplateError ReplicationRunResult * TemplateWorld :=
  runOnce (tpl_schedule 9) tpl_URL (Some (tpl_store tpl_artifact)) (Some (tpl_activator a)) (mkWorld tpl_published O []).

Lemma tpl_activates : tpl_run tpl_artifact = (Ok (ReplicationRan true 0 tpl_uuid "h1"), (tpl_run tpl_artifact).2).
Proof. vm_compute. reflexivity. Qed.

Example activated_replica_verified_witness :
  tpl_run tpl_artifact = (Ok (ReplicationRan true 0 tpl_uuid "h1"), (tpl_run tpl_artifact).2) ∧
  ∃ work, validWork work = true ∧ ∃ now,
    template_replicas (w_db (tpl_run tpl_artifact).2) !! (tpl_uuid, "h1") = Some (ready_replica now (wk_checksum work)).
Proof.
  split; [exact tpl_activates|].
  destruct (activated_replica_verified (tpl_schedule 9) tpl_URL (Some (tpl_store tpl_artifact))
              (Some (tpl_activator tpl_artifact)) (mkWorld tpl_published O []) 0 tpl_uuid "h1" _ tpl_activates)
    as (st & ac & work & before & _ & _ & _ & _ & Hv & _ & Hr & _). exists work. by split.
Defined.

Definition tpl_failed_row : ReplicaRow := mkReplica ReplicaFailed 0 None (Some "template_integrity_failed") 1004.

Example failed_replica_released_witness :
  template_replicas (w_db (tpl_run tpl_other).2) !! (tpl_uuid, "h1") = Some tpl_failed_row ∧
  re_state tpl_failed_row ≠ ReplicaPulling.
Proof.
  assert (template_replicas (w_db (tpl_run tpl_other).2) !! (tpl_uuid, "h1") = Some tpl_failed_row) as Hr
    by (vm_compute; reflexivity).
  split; [exact Hr|].
  refine (failed_replica_released (tpl_schedule 9) tpl_URL (Some (tpl_store tpl_artifact)) (Some (tpl_activator tpl_other))
            (mkWorld tpl_published O []) 0 tpl_uuid "h1" (tpl_run tpl_other).2 _ _ Hr).
  vm_compute. reflexivity.
Defined.

(** From empty tables to a ready replica. *)
Definition tpl_commands : list TemplateCommand :=
  [CmdInsert 1003 tpl_template; CmdClaim 2000 (λ _, false); CmdReady 2001 tpl_uuid "h1" tpl_checksum].
Definition tpl_hosts : gmap string TemplateHost := template_hosts tpl_db.
Definition tpl_empty : TemplateDb :=
  (no_templates <| template_hosts := tpl_hosts |>
     <| template_replicas ::= filter (λ kv, is_Some (tpl_hosts !! kv.1.2)) |>)
     <| template_machines := template_machines tpl_db |> <| template_projects := template_projects tpl_db |>.
Definition tpl_run_commands : TemplateDb :=
  foldl (λ db c, (transaction (run_command c) db).2) tpl_empty tpl_commands.

Lemma tpl_reached : rtc template_step no_templates tpl_run_commands.
Proof.
  eapply rtc_l; [apply (step_hosts tpl_hosts)|].
  eapply rtc_l; [apply (step_machines (template_machines tpl_db))|].
  eapply rtc_l; [apply (step_projects (template_projects tpl_db))|]. fold tpl_empty.
  unfold tpl_run_commands, tpl_commands. cbn [foldl].
  do 3 (eapply rtc_l; [eapply step_command|]). apply rtc_refl.
Qed.

Definition tpl_ready : ReplicaRow := ready_replica 2001 tpl_checksum.

Example ready_replicas_verified_witness :
  template_replicas tpl_run_commands !! (tpl_uuid, "h1") = Some tpl_ready ∧
  ∃ t, templates tpl_run_commands !! tpl_uuid = Some t ∧ re_verified_checksum tpl_ready = Some (te_checksum t).
Proof.
  assert (template_replicas tpl_run_commands !! (tpl_uuid, "h1") = Some tpl_ready) as Hr by (vm_compute; reflexivity).
  split; [exact Hr|].
  destruct (ready_replicas_verified tpl_run_commands (tpl_uuid, "h1") tpl_ready tpl_reached Hr) as (t & Ht & _ & Hv & _).
  exists t. split; [exact Ht|exact (proj2 (Hv eq_refl))].
Defined.

(** A second host of the architecture: the next claim takes its replica. *)
Definition tpl_two_hosts : TemplateDb :=
  let db := tpl_published <| template_hosts ::= <["h2" := mkTemplateHost "x86_64" HostReady "10.0.0.2"]> |> in
  (transaction (enqueue_replicas 1500 (missing_replicas db)) db).2.
Definition tpl_new_host : TemplateDb :=
  tpl_published <| template_hosts ::= <["h2" := mkTemplateHost "x86_64" HostReady "10.0.0.2"]> |>.

Example enqueue_races_removal_witness :
  (tpl_uuid, "h2") ∈ missing_replicas tpl_new_host ∧
  ∃ n db, enqueue_replicas 1500 (missing_replicas tpl_new_host) (drop_template 1400 tpl_uuid tpl_new_host) = Ok (n, db) ∧
    template_replicas db !! (tpl_uuid, "h2") = Some (requested_replica 1500).
Proof.
  assert ((tpl_uuid, "h2") ∈ missing_replicas tpl_new_host) as Hin by (apply list_elem_of_In; vm_compute; tauto).
  split; [exact Hin|].
  destruct (enqueue_races_removal 1400 1500 tpl_uuid "org" None tpl_new_host (drop_template 1400 tpl_uuid tpl_new_host)
    tpl_uuid "h2" (tpl_template.2 <| te_created_at := 1003 |> <| te_deleted_at := Some 1400 |>))
    as (n & db & He & _ & Hr); [vm_compute; reflexivity|exact Hin|vm_compute; reflexivity|discriminate|].
  exists n, db. split; [exact He|exact Hr].
Defined.
Definition tpl_claimed : TemplateDb := (transaction (claim 2000 (λ _, false)) tpl_two_hosts).2.
Definition tpl_work2 : TemplateReplicaWork :=
  mkWork tpl_uuid "org" "proj" "base" "1.0" "h2" "10.0.0.2" tpl_name tpl_key tpl_checksum 4096
    (te_manifest tpl_template.2).

Example claims_are_exclusive_witness :
  claim 2000 (λ _, false) tpl_two_hosts = Ok (Some tpl_work, tpl_claimed) ∧
  (wk_templateId tpl_work2, wk_hostId tpl_work2) ≠ (wk_templateId tpl_work, wk_hostId tpl_work).
Proof.
  assert (claim 2000 (λ _, false) tpl_two_hosts = Ok (Some tpl_work, tpl_claimed)) as Hc by (vm_compute; reflexivity).
  split; [exact Hc|].
  refine (claims_are_exclusive 2000 902000 (λ _, false) (λ _, false) tpl_two_hosts tpl_claimed tpl_claimed
            (transaction (claim 902000 (λ _, false)) tpl_claimed).2 tpl_work tpl_work2 Hc _ eq_refl _).
  - unfold abandoned_after. lia.
  - vm_compute. reflexivity.
Defined.

Example removal_drops_replicas_witness :
  ∃ db', remove_template 3000 "base@1.0" "org" (Some "proj") tpl_published = Ok (TemplateDeleted, db') ∧
    ∃ id, template_replicas db' !! (id, "h1") = None.
Proof.
  exists (drop_template 3000 tpl_uuid tpl_published).
  assert (remove_template 3000 "base@1.0" "org" (Some "proj") tpl_published =
            Ok (TemplateDeleted, drop_template 3000 tpl_uuid tpl_published)) as Hr by (vm_compute; reflexivity).
  split; [exact Hr|].
  destruct (removal_drops_replicas 3000 "base@1.0" "org" (Some "proj") tpl_published TemplateDeleted _ Hr)
    as (id & t & _ & _ & _ & _ & _ & Hnone). exists id. apply Hnone.
Defined.
