(* ===== verification/Projects.v ===== *)
(** * Projects

    src/apps/nehemiah/src/domain/projects.ts with the triggers of migration
    0035_project_allocation_bounds.sql: an organization keeps a bounded number of
    projects, and creating one again answers the one that exists. *)

From S2P Require Import Prelude Text Js Capacity NetworkTheorems Awaiting.

(** ** Data *)

Record ProjectRow := mkProject {
  pj_organization_id : string;
  pj_slug : string;
  pj_name : string;
  pj_max_machines : Z;
  pj_max_vcpus : Z;
  pj_max_memory_mb : Z;
  pj_max_disk_mb : Z;
  pj_max_storage_mb : Z;
  (** columns the service neither sets nor reads *)
  pj_max_gateway_streams : Z;
  pj_max_gateway_bandwidth_bps : Z
}.
#[export] Instance ProjectRow_eta : Settable ProjectRow := λ r,
  mkProject (pj_organization_id r) (pj_slug r) (pj_name r) (pj_max_machines r) (pj_max_vcpus r)
    (pj_max_memory_mb r) (pj_max_disk_mb r) (pj_max_storage_mb r) (pj_max_gateway_streams r)
    (pj_max_gateway_bandwidth_bps r).

(** A project with its [id]. *)
Definition Project : Type := string * ProjectRow.

Record ProjectCreateResult := mkCreateResult { cr_project : Project; cr_replayed : bool }.

(** The projects, and [organizations.max_projects]. *)
Record ProjectDb := mkProjectDb {
  project_rows : gmap string ProjectRow;
  max_projects : gmap string Z
}.
#[export] Instance ProjectDb_eta : Settable ProjectDb := λ r, mkProjectDb (project_rows r) (max_projects r).

Inductive ProjectError :=
| ProjectQuotaExceeded
| ProjectSlugConflict
| ProjectAllocationIntegrityError (message : string)
| ProjectPostgresError (code constraint : string)
| ProjectPlainError (message : string).

Definition ProjectTx : Type → Type := Tx ProjectDb ProjectError.

Definition maximumProjectsPerOrganization : Z := 64.
Definition defaultProjectsPerOrganization : Z := 16.

(** ** Lengths of texts

    PostgreSQL counts code points where JavaScript counts UTF-16 units
    ([utf16_length]). *)
Definition code_points (c : ascii) : Z :=
  let n := Z.of_N (N_of_ascii c) in if n <? 128 then 1 else if n <? 192 then 0 else 1.

Definition sql_length (s : string) : Z := sum_with code_points (list_ascii_of_string s).

(** ** Rows *)

Definition slugPattern : re := Cat (Chr lower_alnum) (rep 1 62 (Chr (λ c, lower_alnum c || Ascii.eqb c "-"))).

Definition projectFromRow (row : Project) : result ProjectError Project :=
  if negb (isSafeInteger (NInt (pj_max_disk_mb row.2))) || (pj_max_disk_mb row.2 <? 0)
  then Err (ProjectPlainError "project max_disk_mb is outside the JSON safe-integer range")
  else if negb (isSafeInteger (NInt (pj_max_storage_mb row.2))) || (pj_max_storage_mb row.2 <? 0)
  then Err (ProjectPlainError "project max_storage_mb is outside the JSON safe-integer range")
  else Ok row.

Definition validOrganizationLimit (value : Z) : bool :=
  isSafeInteger (NInt value) && (0 <=? value) && (value <=? maximumProjectsPerOrganization).

(** The projects an organization retains. *)
Definition of_organization (organization : string) (db : ProjectDb) : gmap string ProjectRow :=
  filter (λ kv, pj_organization_id kv.2 = organization) (project_rows db).

Definition retained (organization : string) (db : ProjectDb) : Z :=
  Z.of_nat (size (of_organization organization db)).

Definition with_slug (organization slug : string) (kv : Project) : bool :=
  String.eqb (pj_organization_id kv.2) organization && String.eqb (pj_slug kv.2) slug.

Definition slug_row (organization slug : string) (db : ProjectDb) : option Project :=
  find (with_slug organization slug) (map_to_list (project_rows db)).

Definition findBySlug (organization slug : string) (db : ProjectDb) : result ProjectError (option Project) :=
  match slug_row organization slug db with
  | Some row => p ← projectFromRow row; mret (Some p)
  | None => Ok None
  end.

Definition replayOrConflict (existing : Project) (normalizedName : string) : result ProjectError ProjectCreateResult :=
  if String.eqb (js_trim (pj_name existing.2)) normalizedName
  then Ok (mkCreateResult existing true) else Err ProjectSlugConflict.

(** ** Triggers and constraints *)

(** [enforce_project_allocation_bound]; an unknown organization is left to the
    foreign key. *)
Definition enforce_project_allocation_bound (organization : string) (db : ProjectDb) : result ProjectError unit :=
  match max_projects db !! organization with
  | None => Ok tt
  | Some limit =>
      if limit <=? Z.min (retained organization db) (limit + 1)
      then Err (ProjectPostgresError "23514" "projects_organization_retained_quota") else Ok tt
  end.

(** [enforce_organization_project_limit_update] *)
Definition enforce_organization_project_limit_update (organization : string) (old new : Z) (db : ProjectDb)
    : result ProjectError unit :=
  if old <=? new then Ok tt
  else if new <? Z.min (retained organization db) 65
  then Err (ProjectPostgresError "23514" "organizations_max_projects_below_retained") else Ok tt.

(** The checks of a row. *)
Definition row_check (r : ProjectRow) : option string :=
  if negb (test slugPattern (pj_slug r)) then Some "projects_slug_check"
  else if negb ((1 <=? sql_length (pj_name r)) && (sql_length (pj_name r) <=? 160)) then Some "projects_name_check"
  else if pj_max_machines r <? 0 then Some "projects_max_machines_check"
  else if pj_max_vcpus r <? 0 then Some "projects_max_vcpus_check"
  else if pj_max_memory_mb r <? 0 then Some "projects_max_memory_mb_check"
  else if negb ((0 <=? pj_max_disk_mb r) && (pj_max_disk_mb r <=? max_safe_integer)) then
    Some "projects_max_disk_mb_json_safe"
  else if negb ((0 <=? pj_max_storage_mb r) && (pj_max_storage_mb r <=? max_safe_integer)) then
    Some "projects_max_storage_mb_json_safe"
  else if negb ((0 <=? pj_max_gateway_streams r) && (pj_max_gateway_streams r <=? 10000)) then
    Some "projects_max_gateway_streams_check"
  else if negb ((0 <=? pj_max_gateway_bandwidth_bps r) && (pj_max_gateway_bandwidth_bps r <=? 1099511627776)) then
    Some "projects_max_gateway_bandwidth_bps_check"
  else None.

Definition set_project (id : string) (r : ProjectRow) (db : ProjectDb) : ProjectDb :=
  db <| project_rows ::= <[id := r]> |>.

(** [INSERT INTO projects]: the trigger, the checks, the unique keys, the
    reference. *)
Definition insert_project (id : string) (r : ProjectRow) : ProjectTx Project := λ db,
  match enforce_project_allocation_bound (pj_organization_id r) db with
  | Err e => Err e
  | Ok _ =>
      match row_check r with
      | Some c => Err (ProjectPostgresError "23514" c)
      | None =>
          if bool_decide (is_Some (project_rows db !! id)) then Err (ProjectPostgresError "23505" "projects_pkey")
          else if existsb (with_slug (pj_organization_id r) (pj_slug r)) (map_to_list (project_rows db))
          then Err (ProjectPostgresError "23505" "projects_organization_id_slug_key")
          else if bool_decide (is_Some (max_projects db !! pj_organization_id r))
          then Ok ((id, r), set_project id r db)
          else Err (ProjectPostgresError "23503" "projects_organization_id_fkey")
      end
  end.

(** No other project holds the slug: the unique key of an update. *)
Definition slug_free (id organization slug : string) (db : ProjectDb) : bool :=
  negb (existsb (λ kv, negb (String.eqb kv.1 id) && with_slug organization slug kv) (map_to_list (project_rows db))).

(** A row as [INSERT INTO projects (id, organization_id, slug, name)] makes it. *)
Definition new_project (organization slug name : string) : ProjectRow :=
  mkProject organization slug name 10 20 20480 102400 102400 32 8388608.

(** ** The service *)

Record CreateProject := mkCreateProject {
  cp_organizationId : string;
  cp_slug : string;
  cp_name : string
}.

(** The body of the transaction, with the identifier it draws. *)
Definition create_project (id : string) (input : CreateProject) : ProjectTx ProjectCreateResult := λ db,
  let organization := cp_organizationId input in
  let normalizedName := js_trim (cp_name input) in
  match max_projects db !! organization with
  | Some limit =>
      if negb (validOrganizationLimit limit) then
        Err (ProjectAllocationIntegrityError "The organization project limit is unavailable or invalid.")
      else
        match findBySlug organization (cp_slug input) db with
        | Err e => Err e
        | Ok (Some existing) =>
            match replayOrConflict existing normalizedName with Ok r => Ok (r, db) | Err e => Err e end
        | Ok None =>
            if limit <=? Z.min (retained organization db) (limit + 1) then Err ProjectQuotaExceeded
            else
              (row ← insert_project id (new_project organization (cp_slug input) normalizedName);
               created ← lift_result (projectFromRow row);
               mret (mkCreateResult created false)) db
        end
  | None => Err (ProjectAllocationIntegrityError "The organization project limit is unavailable or invalid.")
  end.

Definition quota_error (e : ProjectError) : bool :=
  match e with
  | ProjectQuotaExceeded => true
  | ProjectPostgresError code constraint =>
      String.eqb code "23514" && String.eqb constraint "projects_organization_retained_quota"
  | _ => false
  end.

Definition slug_error (e : ProjectError) : bool :=
  match e with
  | ProjectPostgresError code constraint =>
      String.eqb code "23505" && String.eqb constraint "projects_organization_id_slug_key"
  | _ => false
  end.

(** A column of the list: the limit of the organization and what it retains, at
    most 65. *)
Record ProjectListRow := mkListRow {
  pl_project : Project;
  pl_organization_max_projects : Z;
  pl_organization_project_count : Z
}.

Definition in_project_scope (organizationId : string) (projectId : option string) (kv : Project) : bool :=
  String.eqb (pj_organization_id kv.2) organizationId &&
  match projectId with None => true | Some p => String.eqb kv.1 p end.

(** [ORDER BY project.name, project.id]; names compare by the collation. *)
Definition compareProjects (collation : string → string → Z) (a b : Project) : Z :=
  let names := collation (pj_name a.2) (pj_name b.2) in
  if names =? 0 then codeUnitCompare a.1 b.1 else names.

Definition list_rows (collation : string → string → Z) (organizationId : string) (projectId : option string)
    (db : ProjectDb) : list ProjectListRow :=
  match max_projects db !! organizationId with
  | None => []
  | Some limit =>
      map (λ kv, mkListRow kv limit (Z.min (retained organizationId db) (maximumProjectsPerOrganization + 1)))
        (take 65 (sort_by (compareProjects collation)
                 (List.filter (in_project_scope organizationId projectId) (map_to_list (project_rows db)))))
  end.

Definition invalid_boundary (rows : list ProjectListRow) : bool :=
  match rows with
  | [] => false
  | boundary :: _ =>
      negb (validOrganizationLimit (pl_organization_max_projects boundary)) ||
      negb (isSafeInteger (NInt (pl_organization_project_count boundary))) ||
      (pl_organization_project_count boundary <? 0) ||
      (pl_organization_max_projects boundary <? pl_organization_project_count boundary) ||
      (pl_organization_max_projects boundary <? Z.of_nat (length rows))
  end.

(** [rows.map(projectFromRow)]: the first row that throws is thrown. *)
Fixpoint from_rows (rows : list ProjectListRow) : result ProjectError (list Project) :=
  match rows with
  | [] => Ok []
  | r :: rows => p ← projectFromRow (pl_project r); ps ← from_rows rows; Ok (p :: ps)
  end.

Definition checked_rows (rows : list ProjectListRow) : result ProjectError (list Project) :=
  if invalid_boundary rows
  then Err (ProjectAllocationIntegrityError "The retained project allocation invariant is not valid.")
  else from_rows rows.

Definition belongs (projectId organizationId : string) (db : ProjectDb) : bool :=
  match project_rows db !! projectId with
  | Some r => String.eqb (pj_organization_id r) organizationId
  | None => false
  end.

Abbreviation ProjectWorld := (World ProjectDb unit).
Abbreviation ProjectAct := (Act ProjectWorld ProjectError).

#[export] Instance project_errors : Thrown ProjectError ProjectError := {|
  thrown := id;
  connection_lost := ProjectPlainError "database connection lost"
|}.

Section service.
Context (schedule : nat → Turn ProjectDb) (collation : string → string → Z).

Definition project_statement {A} (t : Turn ProjectDb → ProjectTx A) : ProjectAct A := await schedule t.
Definition project_select {A} (f : ProjectDb → A) : ProjectAct A := query schedule (λ _, f).

Definition list_projects (organizationId : string) (projectId : option string) : ProjectAct (list Project) :=
  rows ← project_select (list_rows collation organizationId projectId);
  lift (checked_rows rows).

Definition belongsToOrganization (projectId organizationId : string) : ProjectAct bool :=
  project_select (belongs projectId organizationId).

(** What the [catch] of [create] makes of an error. *)
Definition create_failed (input : CreateProject) (e : ProjectError) : ProjectAct ProjectCreateResult :=
  if quota_error e then athrow ProjectQuotaExceeded
  else if slug_error e then
    found ← project_select (findBySlug (cp_organizationId input) (cp_slug input));
    existing ← lift found;
    match existing with
    | Some p => lift (replayOrConflict p (js_trim (cp_name input)))
    | None => athrow e
    end
  else athrow e.

Definition create (input : CreateProject) : ProjectAct ProjectCreateResult :=
  if negb (test slugPattern (cp_slug input)) then athrow (ProjectPlainError "invalid project slug")
  else if String.eqb (js_trim (cp_name input)) "" || (160 <? utf16_length (cp_name input))
  then athrow (ProjectPlainError "invalid project name")
  else try_catch (project_statement (λ turn, create_project (t_random turn 0) input)) (create_failed input).
End service.

(** * What holds of projects *)

(** Everything that writes the two tables: the service, any other writer of
    projects, and the owner of the organizations' limits.  An update may change
    every column of a project but its [id], its organization too. *)
Inductive project_step : ProjectDb → ProjectDb → Prop :=
| step_create id input db : project_step db (transaction (create_project id input) db).2
| step_insert id r db : project_step db (transaction (insert_project id r) db).2
| step_update id r r' db :
    project_rows db !! id = Some r →
    (pj_organization_id r' ≠ pj_organization_id r →
       enforce_project_allocation_bound (pj_organization_id r') db = Ok tt) →
    row_check r' = None → is_Some (max_projects db !! pj_organization_id r') →
    slug_free id (pj_organization_id r') (pj_slug r') db = true →
    project_step db (set_project id r' db)
| step_delete id db : project_step db (db <| project_rows ::= delete id |>)
| step_organization organization limit db :
    max_projects db !! organization = None → 0 <= default defaultProjectsPerOrganization limit <= maximumProjectsPerOrganization →
    project_step db (db <| max_projects ::= <[organization := default defaultProjectsPerOrganization limit]> |>)
| step_limit organization old new db :
    max_projects db !! organization = Some old → 0 <= new <= maximumProjectsPerOrganization →
    enforce_organization_project_limit_update organization old new db = Ok tt →
    project_step db (db <| max_projects ::= <[organization := new]> |>)
| step_drop_organization organization db :
    project_step db (mkProjectDb (filter (λ kv, pj_organization_id kv.2 ≠ organization) (project_rows db))
                       (delete organization (max_projects db))).

Definition no_projects : ProjectDb := mkProjectDb ∅ ∅.

Record projects_ok (db : ProjectDb) : Prop := mkProjectsOk {
  limits_bounded : ∀ o limit, max_projects db !! o = Some limit → 0 <= limit <= maximumProjectsPerOrganization;
  retained_bounded : ∀ o limit, max_projects db !! o = Some limit → retained o db <= limit;
  rows_owned : ∀ id r, project_rows db !! id = Some r → is_Some (max_projects db !! pj_organization_id r);
  rows_checked : ∀ id r, project_rows db !! id = Some r → row_check r = None;
  slugs_unique : ∀ i j r r', project_rows db !! i = Some r → project_rows db !! j = Some r' →
    pj_organization_id r = pj_organization_id r' → pj_slug r = pj_slug r' → i = j
}.

Lemma retained_nonneg o db : 0 <= retained o db.
Proof. unfold retained. lia. Qed.

Lemma slug_row_Some o s db id r :
  slug_row o s db = Some (id, r) → project_rows db !! id = Some r ∧ pj_organization_id r = o ∧ pj_slug r = s.
Proof.
  unfold slug_row. intros [Hin Hw]%List.find_some. apply list_elem_of_In, elem_of_map_to_list in Hin.
  unfold with_slug in Hw. simpl in Hw. by bool_simp.
Qed.

Lemma slug_row_None o s db id r :
  slug_row o s db = None → project_rows db !! id = Some r → pj_organization_id r = o → pj_slug r ≠ s.
Proof.
  unfold slug_row. intros Hf Hr Ho Hs. pose proof (List.find_none _ _ Hf (id, r)) as Hn.
  assert (In (id, r) (map_to_list (project_rows db))) as Hin by by apply list_elem_of_In, elem_of_map_to_list.
  specialize (Hn Hin). unfold with_slug in Hn. simpl in Hn.
  by rewrite Ho, Hs, !String.eqb_refl in Hn.
Qed.

Lemma slug_exists_row o s db :
  existsb (with_slug o s) (map_to_list (project_rows db)) = false ↔ slug_row o s db = None.
Proof.
  unfold slug_row. generalize (map_to_list (project_rows db)) as l. induction l as [|x l IH]; [done|]. simpl.
  by destruct (with_slug o s x).
Qed.

Lemma slug_free_only id o s db j r :
  slug_free id o s db = true → project_rows db !! j = Some r → pj_organization_id r = o → pj_slug r = s → j = id.
Proof.
  unfold slug_free. rewrite negb_true_iff. intros Hf Hr <- <-. destruct (String.eqb_spec j id) as [|Hne]; [done|]. exfalso.
  assert (existsb (λ kv, negb (String.eqb kv.1 id) && with_slug (pj_organization_id r) (pj_slug r) kv)
    (map_to_list (project_rows db)) = true) as He; [|by rewrite He in Hf].
  apply existsb_exists. exists (j, r). split; [by apply list_elem_of_In, elem_of_map_to_list|].
  apply String.eqb_neq in Hne. unfold with_slug. simpl. by rewrite Hne, !String.eqb_refl.
Qed.

(** ** Retained projects *)

Lemma of_organization_insert o id r db :
  project_rows db !! id = None →
  retained o (set_project id r db) = retained o db + (if String.eqb (pj_organization_id r) o then 1 else 0).
Proof.
  intros Hn. unfold retained, of_organization. simpl. rewrite map_filter_insert.
  destruct (String.eqb_spec (pj_organization_id r) o) as [<-|Hne].
  - rewrite decide_True by done. rewrite map_size_insert_None; [lia|]. by rewrite map_lookup_filter_None; left.
  - rewrite decide_False by done. rewrite delete_id by done. lia.
Qed.

Lemma retained_ext o db db' :
  (∀ id r, project_rows db' !! id = Some r → pj_organization_id r = o →
     ∃ r', project_rows db !! id = Some r' ∧ pj_organization_id r' = o) →
  retained o db' <= retained o db.
Proof.
  intros H. unfold retained. rewrite <- !size_dom. apply inj_le. apply subseteq_size. intros id.
  rewrite !elem_of_dom. intros [r [Hr Ho]%map_lookup_filter_Some].
  destruct (H id r Hr Ho) as (r' & Hr' & Ho'). exists r'. by apply map_lookup_filter_Some.
Qed.

Lemma retained_move o id r r' db :
  project_rows db !! id = Some r → pj_organization_id r' ≠ pj_organization_id r →
  retained o (set_project id r' db) <= retained o db + (if String.eqb (pj_organization_id r') o then 1 else 0).
Proof.
  intros Hr Hne. unfold retained, of_organization. simpl. rewrite map_filter_insert.
  destruct (String.eqb_spec (pj_organization_id r') o) as [<-|Ho].
  - rewrite decide_True by done. rewrite map_size_insert_None; [lia|].
    rewrite map_lookup_filter_None. right. intros x Hx. rewrite Hr in Hx. injection Hx as <-. simpl. congruence.
  - rewrite decide_False by done.
    assert (size (filter (λ kv : string * ProjectRow, pj_organization_id kv.2 = o) (delete id (project_rows db))) <=
            size (filter (λ kv : string * ProjectRow, pj_organization_id kv.2 = o) (project_rows db)))%nat; [|lia].
    apply map_subseteq_size, map_filter_subseteq_mono, delete_subseteq.
Qed.

(** ** Every writer keeps the bounds *)

Lemma bound_Ok o db u limit :
  enforce_project_allocation_bound o db = Ok u → max_projects db !! o = Some limit → retained o db < limit.
Proof.
  unfold enforce_project_allocation_bound. intros He Hl. rewrite Hl in He. case_match; [done|]. bool_simp. lia.
Qed.

Lemma insert_project_Ok id r db p db' :
  insert_project id r db = Ok (p, db') →
  enforce_project_allocation_bound (pj_organization_id r) db = Ok tt ∧ row_check r = None ∧
  project_rows db !! id = None ∧ slug_row (pj_organization_id r) (pj_slug r) db = None ∧
  is_Some (max_projects db !! pj_organization_id r) ∧ p = (id, r) ∧ db' = set_project id r db.
Proof.
  unfold insert_project. destruct (enforce_project_allocation_bound _ db) as [[]|e] eqn:Eb; [|done].
  destruct (row_check r) eqn:Ec; [done|].
  destruct (bool_decide (is_Some (project_rows db !! id))) eqn:Ei; [done|].
  destruct (existsb _ _) eqn:Es; [done|].
  destruct (bool_decide (is_Some (max_projects db !! _))) eqn:Em; [|done]. intros [= <- <-].
  split_and!; try done.
  - by apply bool_decide_eq_false, eq_None_not_Some in Ei.
  - by apply slug_exists_row.
  - by apply bool_decide_eq_true in Em.
Qed.

(** A row written under an organization that has room for it. *)
Lemma set_project_ok id r db :
  projects_ok db → is_Some (max_projects db !! pj_organization_id r) → row_check r = None →
  (∀ o limit, max_projects db !! o = Some limit → retained o (set_project id r db) <= limit) →
  (∀ j r', project_rows db !! j = Some r' → pj_organization_id r' = pj_organization_id r →
     pj_slug r' = pj_slug r → j = id) →
  projects_ok (set_project id r db).
Proof.
  intros [Hl _ Ho Hc Hs] Hsome Hcheck Hroom Huniq. split; simpl.
  - done.
  - done.
  - intros j r' [[<- <-]|[_ Hr']]%lookup_insert_Some; [done|by eapply Ho].
  - intros j r' [[<- <-]|[_ Hr']]%lookup_insert_Some; [done|by eapply Hc].
  - intros i j r1 r2 [[<- <-]|[_ H1]]%lookup_insert_Some [[<- <-]|[_ H2]]%lookup_insert_Some Hoo Hss; try done.
    + symmetry. by eapply Huniq.
    + by eapply Huniq.
    + by eapply Hs.
Qed.

Lemma insert_project_ok id r db p db' :
  insert_project id r db = Ok (p, db') → projects_ok db → projects_ok db'.
Proof.
  intros (Hb & Hc & Hn & Hs & Hm & _ & ->)%insert_project_Ok Hok. apply set_project_ok; try done.
  - intros o limit Hl. rewrite of_organization_insert by done.
    destruct (String.eqb_spec (pj_organization_id r) o) as [<-|_].
    + pose proof (bound_Ok _ _ _ _ Hb Hl). lia.
    + pose proof (retained_bounded _ Hok _ _ Hl). lia.
  - intros j r' Hr' Hoo Hss. exfalso. exact (slug_row_None _ _ _ _ _ Hs Hr' Hoo Hss).
Qed.

Lemma projectFromRow_Ok row p : projectFromRow row = Ok p → p = row.
Proof. unfold projectFromRow. repeat case_match; by intros [= <-]. Qed.

Lemma findBySlug_Ok o s db found : findBySlug o s db = Ok found → slug_row o s db = found.
Proof.
  unfold findBySlug. destruct (slug_row o s db) as [row|]; [|by intros [= <-]].
  intros (p & ->%projectFromRow_Ok & [= <-])%result_bind_Ok. done.
Qed.

Lemma retained_zero o db :
  (∀ id r, project_rows db !! id = Some r → pj_organization_id r ≠ o) → retained o db = 0.
Proof.
  intros H. unfold retained. assert (of_organization o db = ∅) as ->; [|done].
  apply map_empty. intros id. apply map_lookup_filter_None. right. intros r Hr. exact (H id r Hr).
Qed.

Lemma create_project_Ok id input db r db' :
  create_project id input db = Ok (r, db') →
  let o := cp_organizationId input in
  let name := js_trim (cp_name input) in
  ∃ limit, max_projects db !! o = Some limit ∧
    ((cr_replayed r = true ∧ db' = db ∧ slug_row o (cp_slug input) db = Some (cr_project r) ∧
      js_trim (pj_name (cr_project r).2) = name) ∨
     (cr_replayed r = false ∧ retained o db < limit ∧ cr_project r = (id, new_project o (cp_slug input) name) ∧
      insert_project id (new_project o (cp_slug input) name) db = Ok (cr_project r, db'))).
Proof.
  unfold create_project. cbv zeta. destruct (max_projects db !! _) as [limit|]; [|done].
  destruct (negb (validOrganizationLimit limit)); [done|].
  destruct (findBySlug _ _ db) as [[existing|]|e] eqn:Ef; [| |done]; apply findBySlug_Ok in Ef.
  - unfold replayOrConflict. destruct (String.eqb_spec (js_trim (pj_name existing.2)) (js_trim (cp_name input)));
      [|done]. intros [= <- <-]. exists limit. split; [done|]. left. by split_and!.
  - destruct (_ <=? _) eqn:El; [done|]. intros (row & db1 & Hi & Hk)%tx_bind_Ok.
    pose proof (insert_project_Ok _ _ _ _ _ Hi) as (_ & _ & _ & _ & _ & -> & _).
    apply tx_bind_Ok in Hk as (created & db2 & Hc & Hr). unfold lift_result, projectFromRow in Hc.
    simpl in Hc. injection Hc as <- <-. injection Hr as <- <-. exists limit. split; [done|]. right.
    bool_simp. split_and!; try done. lia.
Qed.

Lemma create_project_ok id input db r db' :
  create_project id input db = Ok (r, db') → projects_ok db → projects_ok db'.
Proof.
  intros (limit & _ & [(_ & -> & _)|(_ & _ & _ & Hi)])%create_project_Ok; [done|]. by eapply insert_project_ok.
Qed.

Lemma project_step_ok db db' : project_step db db' → projects_ok db → projects_ok db'.
Proof.
  intros [id input ?|id r ?|id r r' ? Hr Hb Hc Hm Hs|id ?|o limit ? Hn Hlim|o old new ? Ho Hnew Hb|o ?] Hok.
  - unfold transaction. destruct (create_project _ _ _) as [[? ?]|?] eqn:E; [|done]. by eapply create_project_ok.
  - unfold transaction. destruct (insert_project _ _ _) as [[? ?]|?] eqn:E; [|done]. by eapply insert_project_ok.
  - apply set_project_ok; try done; [|intros j x Hx Hxo Hxs; by eapply slug_free_only].
    intros o limit Hl. pose proof (retained_bounded _ Hok _ _ Hl).
    destruct (decide (pj_organization_id r' = pj_organization_id r)) as [Ho|Hne].
    + etransitivity; [|done]. apply retained_ext. intros j x Hx Hxo. simpl in Hx.
      apply lookup_insert_Some in Hx as [[<- <-]|[_ Hx]]; [exists r; split; [done|congruence]|by exists x].
    + pose proof (retained_move o id r r' db0 Hr Hne) as Hv.
      destruct (String.eqb_spec (pj_organization_id r') o) as [<-|_]; [|lia]. pose proof (bound_Ok _ _ _ _ (Hb Hne) Hl). lia.
  - destruct Hok as [H1 H2 H3 H4 H5]. split; simpl; try done.
    + intros o limit Hl. etransitivity; [|by apply (H2 _ _ Hl)]. apply retained_ext.
      intros j x Hx Hxo. simpl in Hx. apply lookup_delete_Some in Hx as [_ Hx]. by exists x.
    + intros j x [_ Hx]%lookup_delete_Some. by eapply H3.
    + intros j x [_ Hx]%lookup_delete_Some. by eapply H4.
    + intros i j x y [_ Hx]%lookup_delete_Some [_ Hy]%lookup_delete_Some. by eapply H5.
  - destruct Hok as [H1 H2 H3 H4 H5]. split; simpl; try done.
    + intros o' limit' [[<- <-]|[_ Hl]]%lookup_insert_Some; [done|by apply H1 in Hl].
    + intros o' limit' [[<- <-]|[_ Hl]]%lookup_insert_Some; [|by apply H2 in Hl].
      change (retained o db0 <= default defaultProjectsPerOrganization limit). rewrite retained_zero; [lia|]. intros id r Hr <-.
      destruct (H3 _ _ Hr) as [l Hl]. by rewrite Hn in Hl.
    + intros j x Hx. destruct (H3 _ _ Hx) as [l Hl]. destruct (decide (pj_organization_id x = o)) as [->|Hne].
      * by rewrite lookup_insert_eq.
      * rewrite lookup_insert_ne by done. by rewrite Hl.
  - destruct Hok as [H1 H2 H3 H4 H5]. split; simpl; try done.
    + intros o' limit [[<- <-]|[_ Hl]]%lookup_insert_Some; [done|by apply H1 in Hl].
    + intros o' limit [[<- <-]|[_ Hl]]%lookup_insert_Some; [|by apply H2 in Hl].
      change (retained o db0 <= new). pose proof (H2 _ _ Ho) as Hret. pose proof (H1 _ _ Ho) as Hold.
      unfold enforce_organization_project_limit_update, maximumProjectsPerOrganization in *.
      destruct (old <=? new) eqn:E1; [bool_simp; lia|]. destruct (new <? _) eqn:E2; [done|]. bool_simp. lia.
    + intros j x Hx. destruct (H3 _ _ Hx) as [l Hl]. destruct (decide (pj_organization_id x = o)) as [->|Hne].
      * by rewrite lookup_insert_eq.
      * rewrite lookup_insert_ne by done. by rewrite Hl.
  - destruct Hok as [H1 H2 H3 H4 H5]. split; simpl.
    + intros o' limit [_ Hl]%lookup_delete_Some. by eapply H1.
    + intros o' limit [_ Hl]%lookup_delete_Some. etransitivity; [|by apply (H2 _ _ Hl)]. apply retained_ext.
      intros j x Hx Hxo. simpl in Hx. apply map_lookup_filter_Some in Hx as [Hx _]. by exists x.
    + intros j x [Hx Hne]%map_lookup_filter_Some. rewrite lookup_delete_ne by done. by eapply H3.
    + intros j x [Hx _]%map_lookup_filter_Some. by eapply H4.
    + intros i j x y [Hx _]%map_lookup_filter_Some [Hy _]%map_lookup_filter_Some. by eapply H5.
Qed.

Lemma reachable_ok db : rtc project_step no_projects db → projects_ok db.
Proof.
  intros Hrun. remember no_projects as db0 eqn:E0.
  assert (projects_ok db0) as Hok by (subst; by split).
  clear E0. induction Hrun as [|x y z Hs _ IH]; [done|]. apply IH. by eapply project_step_ok.
Qed.

(** C34: Whoever writes, through the service or not, and however limits are moved, an
    organization never retains more projects than its limit, which is at most 64,
    its slugs are unique, and every row satisfies the checks of the table. *)
Theorem project_quota_holds db organization limit :
  rtc project_step no_projects db → max_projects db !! organization = Some limit →
  0 <= retained organization db <= limit ∧ limit <= 64 ∧
  (∀ i j r r', project_rows db !! i = Some r → project_rows db !! j = Some r' →
     pj_organization_id r = pj_organization_id r' → pj_slug r = pj_slug r' → i = j) ∧
  ∀ id r, project_rows db !! id = Some r → row_check r = None.
Proof.
  intros Hok%reachable_ok Hl. pose proof (limits_bounded _ Hok _ _ Hl). pose proof (retained_nonneg organization db).
  pose proof (retained_bounded _ Hok _ _ Hl). unfold maximumProjectsPerOrganization in *.
  split_and!; try lia; [apply (slugs_unique _ Hok)|apply (rows_checked _ Hok)].
Qed.

(** ** Listing *)

Lemma row_check_projectFromRow kv : row_check kv.2 = None → projectFromRow kv = Ok kv.
Proof.
  unfold row_check, projectFromRow. intros H.
  destruct (negb (test slugPattern _)); [done|]. destruct (negb (_ && (sql_length _ <=? _))); [done|].
  destruct (pj_max_machines _ <? 0); [done|]. destruct (pj_max_vcpus _ <? 0); [done|].
  destruct (pj_max_memory_mb _ <? 0); [done|].
  destruct (negb ((0 <=? pj_max_disk_mb kv.2) && _)) eqn:E1; [done|].
  destruct (negb ((0 <=? pj_max_storage_mb kv.2) && _)) eqn:E2; [done|]. bool_simp. unfold isSafeInteger.
  rewrite (proj2 (Z.leb_le (Z.abs (pj_max_disk_mb kv.2)) _)), (proj2 (Z.ltb_ge (pj_max_disk_mb kv.2) 0)) by lia.
  rewrite (proj2 (Z.leb_le (Z.abs (pj_max_storage_mb kv.2)) _)), (proj2 (Z.ltb_ge (pj_max_storage_mb kv.2) 0)) by lia.
  done.
Qed.

Lemma from_rows_checked (l : list Project) limit count :
  (∀ kv, kv ∈ l → row_check kv.2 = None) → from_rows (map (λ kv, mkListRow kv limit count) l) = Ok l.
Proof.
  induction l as [|kv l IH]; intros H; [done|]. simpl. rewrite row_check_projectFromRow by (apply H; left). simpl.
  rewrite IH; [done|]. intros kv' Hin. apply H. by right.
Qed.

Lemma scope_length o p db :
  Z.of_nat (length (List.filter (in_project_scope o p) (map_to_list (project_rows db)))) <= retained o db.
Proof.
  unfold retained. apply inj_le. rewrite <- length_map_to_list. apply submseteq_length, NoDup_submseteq.
  - apply NoDup_ListNoDup, List.NoDup_filter, NoDup_ListNoDup, NoDup_map_to_list.
  - intros [id r] [Hin Hs]%list_elem_of_In%List.filter_In. apply list_elem_of_In, elem_of_map_to_list in Hin.
    apply elem_of_map_to_list, map_lookup_filter_Some. split; [done|].
    unfold in_project_scope in Hs. simpl in *. by bool_simp.
Qed.

(** The listing of a reachable table never reports a broken invariant and never
    truncates: it answers exactly the projects of the organization, or the one
    that was asked for, in order. *)
Theorem listing_is_complete collation db organization project :
  rtc project_step no_projects db → is_Some (max_projects db !! organization) →
  ∃ l, checked_rows (list_rows collation organization project db) = Ok l ∧
    l ≡ₚ List.filter (in_project_scope organization project) (map_to_list (project_rows db)).
Proof.
  intros Hok%reachable_ok [limit Hl]. unfold list_rows. rewrite Hl.
  set (mine := List.filter _ _).
  pose proof (scope_length organization project db) as Hlen. fold mine in Hlen.
  pose proof (limits_bounded _ Hok _ _ Hl) as Hlim. pose proof (retained_bounded _ Hok _ _ Hl) as Hret.
  unfold maximumProjectsPerOrganization in *.
  set (sorted := sort_by _ mine). assert (sorted ≡ₚ mine) as Hp by apply sort_by_perm.
  assert (length sorted = length mine) as Hsl by by rewrite Hp.
  exists sorted. split; [|done]. rewrite take_ge by lia.
  unfold checked_rows. rewrite from_rows_checked.
  2:{ intros [id r] Hin. rewrite Hp in Hin. apply list_elem_of_In, List.filter_In in Hin as [Hin _].
      apply list_elem_of_In, elem_of_map_to_list in Hin. by apply (rows_checked _ Hok _ _ Hin). }
  assert (invalid_boundary (map (λ kv, mkListRow kv limit (Z.min (retained organization db) (64 + 1))) sorted) = false)
    as ->; [|done].
  unfold invalid_boundary. destruct sorted as [|kv rest]; [done|]. rewrite length_map, Hsl. simpl.
  unfold validOrganizationLimit, isSafeInteger, max_safe_integer, maximumProjectsPerOrganization.
  pose proof (retained_nonneg organization db).
  rewrite !orb_false_iff, !negb_false_iff, !andb_true_iff, !Z.leb_le, !Z.ltb_ge. lia.
Qed.

(** ** Creating *)

(** The outcome of the transaction on every path: an unknown organization or an
    invalid limit, the project that has the slug, under the same name or another
    one, a full organization, or a new row with the defaults of the table. *)
Theorem creation_outcome id input db :
  rtc project_step no_projects db → project_rows db !! id = None →
  test slugPattern (cp_slug input) = true → 1 <= sql_length (js_trim (cp_name input)) <= 160 →
  let o := cp_organizationId input in
  let name := js_trim (cp_name input) in
  create_project id input db =
    match max_projects db !! o, slug_row o (cp_slug input) db with
    | None, _ => Err (ProjectAllocationIntegrityError "The organization project limit is unavailable or invalid.")
    | Some _, Some existing =>
        if String.eqb (js_trim (pj_name existing.2)) name then Ok (mkCreateResult existing true, db)
        else Err ProjectSlugConflict
    | Some limit, None =>
        if limit <=? retained o db then Err ProjectQuotaExceeded
        else Ok (mkCreateResult (id, new_project o (cp_slug input) name) false,
                 set_project id (new_project o (cp_slug input) name) db)
    end.
Proof.
  intros Hok%reachable_ok Hid Hslug Hname. cbv zeta. unfold create_project.
  destruct (max_projects db !! _) as [limit|] eqn:Hl; [|done].
  pose proof (limits_bounded _ Hok _ _ Hl) as Hlim. pose proof (retained_bounded _ Hok _ _ Hl) as Hret.
  assert (validOrganizationLimit limit = true) as ->.
  { unfold validOrganizationLimit, isSafeInteger, max_safe_integer, maximumProjectsPerOrganization in *.
    rewrite !andb_true_iff, !Z.leb_le. lia. }
  simpl. unfold findBySlug. destruct (slug_row _ _ db) as [[i r]|] eqn:Es.
  - apply slug_row_Some in Es as (Hr & _ & _).
    rewrite row_check_projectFromRow by exact (rows_checked _ Hok _ _ Hr). simpl. unfold replayOrConflict. simpl.
    by destruct (String.eqb _ _).
  - rewrite Z.min_l by lia. destruct (limit <=? retained _ db) eqn:Ec; [done|].
    assert (insert_project id (new_project (cp_organizationId input) (cp_slug input) (js_trim (cp_name input))) db =
      Ok ((id, new_project (cp_organizationId input) (cp_slug input) (js_trim (cp_name input))),
          set_project id (new_project (cp_organizationId input) (cp_slug input) (js_trim (cp_name input))) db)) as Hi.
    { unfold insert_project, enforce_project_allocation_bound, row_check. simpl. rewrite Hl.
      rewrite Z.min_l by lia. rewrite Ec, Hslug. simpl.
      rewrite (proj2 (Z.leb_le _ _) (proj1 Hname)), (proj2 (Z.leb_le _ _) (proj2 Hname)). simpl.
      rewrite bool_decide_eq_false_2 by (rewrite Hid; by intros [? ?]).
      by rewrite (proj2 (slug_exists_row _ _ _) Es). }
    unfold mbind, tx_bind. rewrite Hi. done.
Qed.

(** A creation that is sent again, also when the first answer was lost, answers
    the same project and changes nothing, as long as the row keeps its slug and
    name. *)
Theorem creation_is_idempotent id id' input db r db1 db2 :
  create_project id input db = Ok (r, db1) →
  rtc project_step no_projects db2 →
  project_rows db2 !! (cr_project r).1 = Some (cr_project r).2 →
  create_project id' input db2 = Ok (mkCreateResult (cr_project r) true, db2).
Proof.
  intros Hc Hok%reachable_ok Hrow.
  assert (pj_organization_id (cr_project r).2 = cp_organizationId input ∧ pj_slug (cr_project r).2 = cp_slug input ∧
          js_trim (pj_name (cr_project r).2) = js_trim (cp_name input)) as (Ho & Hs & Hn).
  { apply create_project_Ok in Hc as (limit & _ & [(_ & _ & Hsr & Hn)|(_ & _ & Hp & _)]).
    - destruct (cr_project r) as [i row]. apply slug_row_Some in Hsr as (_ & ? & ?). done.
    - rewrite Hp. simpl. split_and!; try done. apply js_trim_idem. }
  unfold create_project. destruct (rows_owned _ Hok _ _ Hrow) as [limit Hl]. rewrite Ho in Hl. rewrite Hl.
  pose proof (limits_bounded _ Hok _ _ Hl) as Hlim.
  assert (validOrganizationLimit limit = true) as ->.
  { unfold validOrganizationLimit, isSafeInteger, max_safe_integer, maximumProjectsPerOrganization in *.
    rewrite !andb_true_iff, !Z.leb_le. lia. }
  simpl. unfold findBySlug. destruct (slug_row _ _ db2) as [[i x]|] eqn:Es.
  2: { exfalso. exact (slug_row_None _ _ _ _ _ Es Hrow Ho Hs). }
  apply slug_row_Some in Es as (Hx & Hxo & Hxs).
  assert (i = (cr_project r).1) as ->.
  { eapply (slugs_unique _ Hok); [exact Hx|exact Hrow|congruence..]. }
  rewrite Hrow in Hx. injection Hx as <-.
  rewrite row_check_projectFromRow by exact (rows_checked _ Hok _ _ Hrow). simpl. unfold replayOrConflict. simpl.
  rewrite Hn, String.eqb_refl. by destruct (cr_project r).
Qed.

(** ** An organization with one project *)

Definition pj_input : CreateProject := mkCreateProject "org" "site" " Site ".
Definition pj_org : ProjectDb := no_projects <| max_projects ::= <["org" := defaultProjectsPerOrganization]> |>.
Definition pj_created : ProjectCreateResult := mkCreateResult ("p1", new_project "org" "site" "Site") false.
Definition pj_db : ProjectDb := (transaction (create_project "p1" pj_input) pj_org).2.

Lemma pj_creates : create_project "p1" pj_input pj_org = Ok (pj_created, pj_db).
Proof. vm_compute. reflexivity. Qed.

Lemma pj_org_reached : rtc project_step no_projects pj_org.
Proof. eapply rtc_l; [by apply (step_organization "org" None)|apply rtc_refl]. Qed.

Lemma pj_reached : rtc project_step no_projects pj_db.
Proof. eapply rtc_r; [exact pj_org_reached|]. apply (step_create "p1" pj_input). Qed.

Example project_quota_holds_witness :
  max_projects pj_db !! "org" = Some 16 ∧ 0 <= retained "org" pj_db <= 16.
Proof.
  assert (max_projects pj_db !! "org" = Some 16) as Hl by (vm_compute; reflexivity).
  split; [exact Hl|]. exact (proj1 (project_quota_holds pj_db "org" 16 pj_reached Hl)).
Defined.

Example listing_is_complete_witness :
  is_Some (max_projects pj_db !! "org") ∧
  ∃ l, checked_rows (list_rows codeUnitCompare "org" None pj_db) = Ok l.
Proof.
  assert (is_Some (max_projects pj_db !! "org")) as Hl by (exists 16; vm_compute; reflexivity).
  split; [exact Hl|].
  destruct (listing_is_complete codeUnitCompare pj_db "org" None pj_reached Hl) as (l & H & _). exists l. exact H.
Defined.

Example creation_outcome_witness :
  project_rows pj_org !! "p1" = None ∧ test slugPattern "site" = true ∧
  create_project "p1" pj_input pj_org = Ok (pj_created, set_project "p1" (new_project "org" "site" "Site") pj_org).
Proof.
  assert (project_rows pj_org !! "p1" = None) as Hid by (vm_compute; reflexivity).
  assert (test slugPattern (cp_slug pj_input) = true) as Hs by (vm_compute; reflexivity).
  split; [exact Hid|]. split; [exact Hs|].
  etransitivity; [apply (creation_outcome "p1" pj_input pj_org pj_org_reached Hid Hs); split; vm_compute; discriminate|].
  vm_compute. reflexivity.
Defined.

Example creation_is_idempotent_witness :
  create_project "p1" pj_input pj_org = Ok (pj_created, pj_db) ∧
  create_project "p2" pj_input pj_db = Ok (mkCreateResult (cr_project pj_created) true, pj_db).
Proof.
  split; [exact pj_creates|].
  refine (creation_is_idempotent "p1" "p2" pj_input pj_org pj_created pj_db pj_db pj_creates pj_reached _).
  vm_compute. reflexivity.
Defined.
