(* ===== verification/Stripe.v ===== *)
(** * Stripe webhooks

    src/apps/nehemiah/src/billing/stripe.ts: who may deliver an event and what it
    must look like, and the transaction that orders payment events per invoice and
    derives from the open invoices whether an organization is delinquent, which
    [Billing.enforce] reads.  [hmac] stands for node's HMAC-SHA256 in lower-case hex
    and [JSON_parse] for [JSON.parse]. *)

From Stdlib Require Import OrdersEx.
From S2P Require Import Prelude Text Js Capacity Metering Billing.

(** ** Deliveries *)

(** Every field the code reads; the receipt keeps the whole event. *)
Record StripeEvent := mkStripeEvent {
  se_id : string;
  se_type : string;
  se_created : Z;
  se_object : list (string * json)
}.

Inductive StripeError :=
| StripeWebhookRequestError (code : string) (message : string)
| StripePlainError (message : string)
| StripePostgresError (code : string).

Definition invalid_signature : StripeError :=
  StripeWebhookRequestError "invalid_stripe_signature" "Stripe webhook signature is invalid or expired.".
Definition malformed_event : StripeError :=
  StripeWebhookRequestError "invalid_stripe_event" "Stripe event payload is malformed.".

(** One [name=value] of the header: [part.split('=', 2)]. *)
Definition signature_part (acc : number * list string) (part : string) : number * list string :=
  let '(timestamp, signatures) := acc in
  match js_split "=" part with
  | [] => acc
  | [name] => (if String.eqb name "t" then NNonInt else timestamp, signatures)
  | name :: value :: _ =>
      (if String.eqb name "t" then js_Number value else timestamp,
       if String.eqb name "v1" && negb (String.eqb value "") then signatures ++ [value] else signatures)
  end.

Definition signatureValues (header : string) : number * list string :=
  foldl signature_part (NInt 0, []) (js_split "," header).

Definition signaturePattern : re := rep 64 64 (Chr hex).

(** The bytes of both hex texts are the same; [expected] is lower case. *)
Definition signature_matches (expected signature : string) : bool :=
  test signaturePattern signature && String.eqb (toLowerCase signature) expected.

(** A string of 1 to 255 UTF-16 units. *)
Definition bounded_text (v : json) : option string :=
  match v with
  | JStr s => if (1 <=? utf16_length s) && (utf16_length s <=? 255) then Some s else None
  | _ => None
  end.

(** A safe, non-negative number of seconds that is a date. *)
Definition created_seconds (v : json) : option Z :=
  match v with
  | JNum (NInt z) =>
      if isSafeInteger (NInt z) && (0 <=? z) && (z * 1000 <=? 8640000000000000) then Some z else None
  | _ => None
  end.

Definition is_invoice_event (type_ : string) : bool :=
  String.eqb type_ "invoice.paid" || String.eqb type_ "invoice.payment_failed".

Definition stripe_event (candidate : json) : result StripeError StripeEvent :=
  match candidate with
  | JObj fields =>
      match bounded_text (prop "id" fields), bounded_text (prop "type" fields),
            created_seconds (prop "created" fields), prop "data" fields with
      | Some id, Some type_, Some created, JObj data =>
          match prop "object" data with
          | JObj object =>
              if is_invoice_event type_ &&
                 negb (bool_decide (is_Some (bounded_text (prop "id" object))) &&
                       bool_decide (is_Some (bounded_text (prop "customer" object))))
              then Err (StripeWebhookRequestError "invalid_stripe_event"
                          "Stripe invoice event identity is malformed.")
              else Ok (mkStripeEvent id type_ created object)
          | _ => Err malformed_event
          end
      | _, _, _, _ => Err malformed_event
      end
  | _ => Err malformed_event
  end.

Definition verifyStripeSignature (hmac : string → string → string) (JSON_parse : string → option json)
    (rawBody header secret : string) (nowSeconds toleranceSeconds : Z) : result StripeError StripeEvent :=
  match signatureValues header with
  | (NNonInt, _) => Err invalid_signature
  | (NInt timestamp, signatures) =>
      if negb (isSafeInteger (NInt timestamp)) || (toleranceSeconds <? Z.abs (nowSeconds - timestamp))
      then Err invalid_signature
      else if negb (existsb (signature_matches (hmac secret (pretty timestamp +:+ "." +:+ rawBody))) signatures)
      then Err invalid_signature
      else match JSON_parse rawBody with
           | None => Err malformed_event
           | Some candidate => stripe_event candidate
           end
  end.

(** ** Tables *)

(** A row of [stripe_invoice_delinquency]. *)
Record InvoiceRow := mkInvoice {
  iv_failed : bool;
  iv_created_at : Z;
  iv_rank : Z;
  iv_event_id : string
}.

(** A row of [billing_accounts], with what billing admission reads of it. *)
Record StripeAccount := mkStripeAccount {
  sa_billing : BillingAccount;
  sa_customer : option string
}.

(** A row this service writes to [audit_events]. *)
Record StripeAudit := mkStripeAudit {
  au_key : string;
  au_organization : string;
  au_action : string;
  au_resource : string * string;
  au_request : option string;
  au_metadata : list (string * json)
}.

(** [stripe_events] with [processed_at]; accounts and invoices by organization. *)
Record StripeDb := mkStripeDb {
  receipts : gmap string (StripeEvent * option Z);
  sd_accounts : gmap string StripeAccount;
  sd_organizations : gset string;
  sd_invoices : gmap (string * string) InvoiceRow;
  sd_audit : list StripeAudit
}.
#[export] Instance StripeDb_eta : Settable StripeDb := λ r,
  mkStripeDb (receipts r) (sd_accounts r) (sd_organizations r) (sd_invoices r) (sd_audit r).

Abbreviation StripeTx := (Tx StripeDb StripeError).

(** ** Processing *)

Definition targetDelinquent (event : StripeEvent) : option bool :=
  if String.eqb (se_type event) "invoice.payment_failed" then Some true
  else if String.eqb (se_type event) "invoice.paid" then Some false else None.

(** [WHERE stripe_customer_id = $1], a unique column. *)
Definition organization_of (customer : string) (db : StripeDb) : option string :=
  fst <$> List.find (λ kv, bool_decide (sa_customer kv.2 = Some customer)) (map_to_list (sd_accounts db)).

Definition created_ms (event : StripeEvent) : Z := se_created event * 1000.
Definition event_rank (failed : bool) : Z := if failed then 1 else 0.

(** Strings are compared by their UTF-16 units.  That is the order of their UTF-8
    bytes, but that the characters outside the basic plane, whose first bytes are
    240 to 244, come before those whose first bytes are 238 and 239. *)
Definition unit_weight (c : ascii) : ascii :=
  let n := nat_of_ascii c in
  if (n <? 238)%nat then c else if (n <? 240)%nat then ascii_of_nat (n + 5)
  else if (n <? 245)%nat then ascii_of_nat (n - 2) else c.

Definition unit_key (s : string) : string := string_of_list_ascii (map unit_weight (list_ascii_of_string s)).

(** The order of an invoice's events: time, then failure over payment, then id. *)
Definition newer (event : StripeEvent) (failed : bool) (prior : option InvoiceRow) : bool :=
  match prior with
  | None => true
  | Some p =>
      (iv_created_at p <? created_ms event) ||
      (created_ms event =? iv_created_at p) &&
      ((iv_rank p <? event_rank failed) ||
       (event_rank failed =? iv_rank p) && (0 <? codeUnitCompare (unit_key (se_id event)) (unit_key (iv_event_id p))))
  end.

Definition invoice_row (event : StripeEvent) (failed : bool) : InvoiceRow :=
  mkInvoice failed (created_ms event) (event_rank failed) (se_id event).

(** [EXISTS (SELECT 1 FROM stripe_invoice_delinquency WHERE ... AND failed)] *)
Definition has_failed_invoice (organization : string) (invoices : gmap (string * string) InvoiceRow) : bool :=
  existsb (λ kv, String.eqb kv.1.1 organization && iv_failed kv.2) (map_to_list invoices).

Definition delinquency_text (delinquent : bool) : json := JStr (if delinquent then "delinquent" else "current").

Definition event_members (event : StripeEvent) : list (string * json) :=
  [("stripe_event_id", JStr (se_id event)); ("event_type", JStr (se_type event));
   ("event_created", JNum (NInt (se_created event)))].

(** INSERT INTO audit_events; [event_key] is unique. *)
Definition insert_audit (row : StripeAudit) : StripeTx unit := λ db,
  if has_key au_key (au_key row) (sd_audit db) then Err (StripePostgresError "23505")
  else Ok (tt, db <| sd_audit ::= λ l, l ++ [row] |>).

Definition audit_key (event : StripeEvent) (suffix : string) : string :=
  "stripe:" +:+ se_id event +:+ ":" +:+ suffix.

Definition stale_audit (requestId : option string) (event : StripeEvent) (organization invoiceId : string)
    (prior : option InvoiceRow) : StripeAudit :=
  mkStripeAudit (audit_key event "stale-delinquency") organization "billing.delinquency_event_ignored"
    ("billing_account", organization) requestId
    (event_members event ++
     [("stripe_invoice_id", JStr invoiceId); ("reason", JStr "stale_source_order");
      ("last_applied_event_id", default JUndefined (JStr ∘ iv_event_id <$> prior));
      ("last_applied_event_created", default JUndefined (JStr ∘ toISOString ∘ iv_created_at <$> prior))]).

Definition invoice_audit (requestId : option string) (event : StripeEvent) (organization invoiceId : string)
    (prior : option InvoiceRow) (failed : bool) : StripeAudit :=
  mkStripeAudit (audit_key event "invoice-delinquency") organization "billing.invoice_delinquency_changed"
    ("stripe_invoice", invoiceId) requestId
    (event_members event ++
     [("prior_state", match prior with Some p => delinquency_text (iv_failed p) | None => JStr "unknown" end);
      ("state", delinquency_text failed)]).

Definition account_audit (requestId : option string) (event : StripeEvent) (organization invoiceId : string)
    (prior delinquent : bool) : StripeAudit :=
  mkStripeAudit (audit_key event "delinquency") organization "billing.delinquency_changed"
    ("billing_account", organization) requestId
    (event_members event ++
     [("stripe_invoice_id", JStr invoiceId); ("prior_state", delinquency_text prior);
      ("state", delinquency_text delinquent)]).

Definition set_delinquent (at_ : option Z) (account : StripeAccount) : StripeAccount :=
  mkStripeAccount (mkAccount (ac_plan (sa_billing account)) (spend_cap_cents (sa_billing account)) at_)
    (sa_customer account).

(** The account's delinquency after an invoice changed. *)
Definition derive_delinquency (requestId : option string) (event : StripeEvent) (organization invoiceId : string)
    (prior : StripeAccount) : StripeTx unit := λ db,
  let was := bool_decide (is_Some (delinquent_at (sa_billing prior))) in
  let delinquent := has_failed_invoice organization (sd_invoices db) in
  if Bool.eqb was delinquent then Ok (tt, db)
  else insert_audit (account_audit requestId event organization invoiceId was delinquent)
         (db <| sd_accounts ::= alter
            (set_delinquent (if delinquent then Some (created_ms event) else None)) organization |>).

(** The invoice's row and what follows from it. *)
Definition record_invoice (requestId : option string) (event : StripeEvent) (organization invoiceId : string)
    (account : StripeAccount) (failed : bool) (prior : option InvoiceRow) : StripeTx unit :=
  _ ← modify (λ db, db <| sd_invoices ::= <[(organization, invoiceId) := invoice_row event failed]> |>);
  _ ← (if match prior with Some p => Bool.eqb (iv_failed p) failed | None => false end then mret tt
       else insert_audit (invoice_audit requestId event organization invoiceId prior failed));
  derive_delinquency requestId event organization invoiceId account.

(** What follows once organization and account are locked. *)
Definition apply_invoice (requestId : option string) (event : StripeEvent) (organization customer invoiceId : string)
    (failed : bool) : StripeTx unit := λ db,
  match sd_accounts db !! organization with
  | Some account =>
      if bool_decide (sa_customer account = Some customer)
      then
        let prior := sd_invoices db !! (organization, invoiceId) in
        if negb (newer event failed prior)
        then insert_audit (stale_audit requestId event organization invoiceId prior) db
        else record_invoice requestId event organization invoiceId account failed prior db
      else Ok (tt, db)
  | None => Ok (tt, db)
  end.

(** The lookup is not locked: [meanwhile] is what others commit before the row of
    the organization is. *)
Definition apply_event (meanwhile : StripeDb → StripeDb) (requestId : option string) (event : StripeEvent)
    : StripeTx unit :=
  match as_string (prop "customer" (se_object event)), as_string (prop "id" (se_object event)),
        targetDelinquent event with
  | Some customer, Some invoiceId, Some failed =>
      found ← gets (organization_of customer);
      match found with
      | None => throw (StripePlainError "Stripe invoice customer is not linked to a billing account.")
      | Some organization =>
          _ ← modify meanwhile;
          present ← gets (λ db, bool_decide (organization ∈ sd_organizations db));
          if (present : bool) then apply_invoice requestId event organization customer invoiceId failed
          else mret tt
      end
  | _, _, _ => mret tt
  end.

(** The transaction of [process]: whether the event is new. *)
Definition process (now : Z) (meanwhile : StripeDb → StripeDb) (requestId : option string) (event : StripeEvent)
    : StripeTx bool := λ db,
  match receipts db !! se_id event with
  | Some _ => Ok (false, db)
  | None => (
      _ ← modify (λ db, db <| receipts ::= <[se_id event := (event, None)]> |>);
      _ ← apply_event meanwhile requestId event;
      _ ← modify (λ db, db <| receipts ::= alter (λ r, (r.1, Some now)) (se_id event) |>);
      mret true) db
  end.

(** * The order of events *)

(** [newer], on rows. *)
Definition row_before (p r : InvoiceRow) : bool :=
  (iv_created_at p <? iv_created_at r) ||
  (iv_created_at r =? iv_created_at p) &&
  ((iv_rank p <? iv_rank r) ||
   (iv_rank r =? iv_rank p) && (0 <? codeUnitCompare (unit_key (iv_event_id r)) (unit_key (iv_event_id p)))).

Lemma newer_row_before event failed p : newer event failed (Some p) = row_before p (invoice_row event failed).
Proof. done. Qed.

(** The rank of a row is that of its state. *)
Definition ranked (r : InvoiceRow) : Prop := iv_rank r = event_rank (iv_failed r).

Lemma unit_weight_inj a b : unit_weight a = unit_weight b → a = b.
Proof.
  set (back (c : ascii) := let n := nat_of_ascii c in
    if (n <? 238)%nat then c else if (n <? 243)%nat then ascii_of_nat (n + 2)
    else if (n <? 245)%nat then ascii_of_nat (n - 5) else c).
  assert (∀ c, back (unit_weight c) = c) as Hb by (intros c; by destruct c as [[] [] [] [] [] [] [] []]).
  intros E. by rewrite <- (Hb a), <- (Hb b), E.
Qed.

Lemma unit_key_inj a b : unit_key a = unit_key b → a = b.
Proof.
  unfold unit_key. intros E. apply (f_equal list_ascii_of_string) in E.
  rewrite !list_ascii_of_string_of_list_ascii in E.
  rewrite <- (string_of_list_ascii_of_string a), <- (string_of_list_ascii_of_string b). f_equal.
  revert E. generalize (list_ascii_of_string a) as l, (list_ascii_of_string b) as l'. clear.
  induction l as [|x l IH]; intros [|y l']; try done. intros [= Hx%unit_weight_inj Hl%IH]. congruence.
Qed.

Lemma codeUnitCompare_before a b : (0 <? codeUnitCompare a b) = true ↔ String_as_OT.lt b a.
Proof.
  rewrite Z.ltb_lt. unfold codeUnitCompare. destruct String_as_OT.lt_strorder as [Hirr Htr].
  destruct (String_as_OT.compare_spec a b) as [->|H|H]; split; intros; try lia; try done.
  - by destruct (Hirr b).
  - destruct (Hirr a). by eapply Htr.
Qed.

Lemma row_before_spec p r :
  row_before p r = true ↔
  iv_created_at p < iv_created_at r ∨ iv_created_at p = iv_created_at r ∧
    (iv_rank p < iv_rank r ∨ iv_rank p = iv_rank r ∧ String_as_OT.lt (unit_key (iv_event_id p)) (unit_key (iv_event_id r))).
Proof.
  unfold row_before. rewrite orb_true_iff, !andb_true_iff, orb_true_iff, andb_true_iff, codeUnitCompare_before.
  rewrite !Z.ltb_lt, !Z.eqb_eq. intuition (auto; lia).
Qed.

Lemma row_before_irrefl p : row_before p p = false.
Proof.
  apply not_true_iff_false. rewrite row_before_spec. destruct String_as_OT.lt_strorder as [Hirr _].
  intros [?|[_ [?|[_ H]]]]; [lia..|by destruct (Hirr _ H)].
Qed.

Lemma row_before_trans p q r : row_before p q = true → row_before q r = true → row_before p r = true.
Proof.
  rewrite !row_before_spec. destruct String_as_OT.lt_strorder as [_ Htr].
  intros [?|[E1 [?|[? H1]]]] [?|[E2 [?|[? H2]]]]; try (left; lia); right; (split; [lia|]);
    try (left; lia); right; (split; [lia|]). by eapply Htr.
Qed.

Lemma row_before_total p r :
  ranked p → ranked r → row_before p r = false → row_before r p = false → p = r.
Proof.
  intros Hp Hr H1 H2. apply not_true_iff_false in H1, H2. rewrite row_before_spec in H1, H2.
  assert (iv_created_at p = iv_created_at r) as Hc by lia.
  assert (iv_rank p = iv_rank r) as Hk by lia.
  assert (iv_event_id p = iv_event_id r) as Hi.
  { apply unit_key_inj.
    destruct (String_as_OT.compare_spec (unit_key (iv_event_id p)) (unit_key (iv_event_id r))); [done|exfalso..]; auto 8. }
  unfold ranked, event_rank in *. destruct p as [f1 c1 k1 i1], r as [f2 c2 k2 i2]. simpl in *. subst.
  destruct f1, f2; simpl in *; congruence.
Qed.

(** The latest of some rows. *)
Definition latest (rows : list InvoiceRow) (r : InvoiceRow) : Prop :=
  r ∈ rows ∧ ∀ x, x ∈ rows → row_before r x = false.

Lemma latest_unique rows rows' r r' :
  (∀ x, x ∈ rows → ranked x) → (∀ x, x ∈ rows ↔ x ∈ rows') → latest rows r → latest rows' r' → r = r'.
Proof.
  intros Hr Hsame [Hin Hmax] [Hin' Hmax']. apply row_before_total; [by apply Hr|by apply Hr, Hsame|..].
  - by apply Hmax, Hsame.
  - by apply Hmax', Hsame.
Qed.

(** An invoice keeps the later of its row and a new one. *)
Definition upsert (k : string * string) (r : InvoiceRow) (invoices : gmap (string * string) InvoiceRow)
    : gmap (string * string) InvoiceRow :=
  match invoices !! k with
  | Some p => if row_before p r then <[k := r]> invoices else invoices
  | None => <[k := r]> invoices
  end.

Lemma upsert_other k k' r m : k ≠ k' → upsert k r m !! k' = m !! k'.
Proof.
  intros Hne. unfold upsert. destruct (m !! k); [destruct (row_before _ _)|]; by rewrite ?lookup_insert_ne.
Qed.

Lemma upsert_latest k r m rows :
  match m !! k with Some p => latest rows p | None => rows = [] end →
  ∃ q, upsert k r m !! k = Some q ∧ latest (rows ++ [r]) q.
Proof.
  unfold upsert. destruct (m !! k) as [p|] eqn:Hk.
  - intros [Hin Hmax]. destruct (row_before p r) eqn:Hb.
    + exists r. rewrite lookup_insert_eq. split; [done|]. split; [set_solver|].
      intros x [Hx|Hx]%elem_of_app; [|apply list_elem_of_singleton in Hx as ->; apply row_before_irrefl].
      apply not_true_iff_false. intros Hrx. specialize (Hmax x Hx).
      by rewrite (row_before_trans p r x) in Hmax.
    + exists p. split; [done|]. split; [set_solver|]. intros x [Hx|Hx]%elem_of_app; [by apply Hmax|].
      by apply list_elem_of_singleton in Hx as ->.
  - intros ->. exists r. rewrite lookup_insert_eq. split; [done|]. split; [set_solver|].
    intros x Hx. apply list_elem_of_singleton in Hx as ->. apply row_before_irrefl.
Qed.

(** * What a transaction does *)

(** ** Audit keys *)

Definition audit_suffixes : list string := ["stale-delinquency"; "invoice-delinquency"; "delinquency"].

Lemma last_sep (c : ascii) (l1 l2 r1 r2 : list ascii) :
  c ∉ r1 → c ∉ r2 → l1 ++ c :: r1 = l2 ++ c :: r2 → l1 = l2 ∧ r1 = r2.
Proof.
  intros H1 H2 Heq. apply (f_equal reverse) in Heq. rewrite !reverse_app, !reverse_cons in Heq.
  rewrite <- !app_assoc in Heq. simpl in Heq.
  apply split_sep_list in Heq as [Hr Hl]; [|by rewrite elem_of_reverse..].
  split; by apply (inj reverse).
Qed.

Lemma audit_key_inj e e' s s' :
  no_char ":" s → no_char ":" s' → audit_key e s = audit_key e' s' → se_id e = se_id e' ∧ s = s'.
Proof.
  unfold audit_key. intros Hs Hs' Heq. apply string_app_cancel in Heq.
  apply (f_equal list_ascii_of_string) in Heq. rewrite !list_ascii_app in Heq. simpl in Heq.
  apply last_sep in Heq as [? ?]; [|done..]. split; by apply list_ascii_inj.
Qed.

Lemma suffix_no_char s : s ∈ audit_suffixes → no_char ":" s.
Proof.
  unfold audit_suffixes. rewrite !elem_of_cons. unfold no_char.
  intros [->|[->|[->|[]%elem_of_nil]]]; simpl; set_solver.
Qed.

(** None of the event's keys is taken. *)
Definition fresh_keys (event : StripeEvent) (suffixes : list string) (db : StripeDb) : Prop :=
  ∀ s, s ∈ suffixes → has_key au_key (audit_key event s) (sd_audit db) = false.

Lemma insert_audit_spec row db :
  has_key au_key (au_key row) (sd_audit db) = false →
  insert_audit row db = Ok (tt, db <| sd_audit ::= λ l, l ++ [row] |>).
Proof. unfold insert_audit. by intros ->. Qed.

(** ** Failed invoices *)

Lemma has_failed_invoice_spec organization m :
  has_failed_invoice organization m = true ↔
  ∃ invoice r, m !! (organization, invoice) = Some r ∧ iv_failed r = true.
Proof.
  unfold has_failed_invoice. rewrite existsb_exists. split.
  - intros ([[o i] r] & Hin & Hb). apply list_elem_of_In, elem_of_map_to_list in Hin. simpl in *.
    apply andb_true_iff in Hb as [->%String.eqb_eq Hf]. eauto.
  - intros (i & r & Hm & Hf). exists ((organization, i), r). simpl. rewrite String.eqb_refl, Hf.
    split; [|done]. apply list_elem_of_In. by apply elem_of_map_to_list.
Qed.

Definition delinquent (a : StripeAccount) : Prop := is_Some (delinquent_at (sa_billing a)).

(** The accounts agree with the invoices but for [organization]. *)
Definition derived_but (organization : option string) (db : StripeDb) : Prop :=
  ∀ o a, organization ≠ Some o → sd_accounts db !! o = Some a →
    delinquent a ↔ has_failed_invoice o (sd_invoices db) = true.

(** Everything the later statements of the transaction leave alone, and the audit
    rows they add. *)
Record extends_audit (event : StripeEvent) (suffixes : list string) (db db' : StripeDb) : Prop := {
  ea_receipts : receipts db' = receipts db;
  ea_organizations : sd_organizations db' = sd_organizations db;
  ea_customers : sa_customer <$> sd_accounts db' = sa_customer <$> sd_accounts db;
  ea_audit : ∃ rows, sd_audit db' = sd_audit db ++ rows ∧
    ∀ row, row ∈ rows → ∃ s, s ∈ suffixes ∧ au_key row = audit_key event s
}.

Lemma extends_trans event l1 l2 db1 db2 db3 :
  extends_audit event l1 db1 db2 → extends_audit event l2 db2 db3 → extends_audit event (l1 ++ l2) db1 db3.
Proof.
  intros [R1 O1 C1 (n1 & A1 & K1)] [R2 O2 C2 (n2 & A2 & K2)]. constructor; [congruence..|].
  exists (n1 ++ n2). split; [by rewrite A2, A1, app_assoc|].
  intros row [(s & ? & ?)%K1|(s & ? & ?)%K2]%elem_of_app; exists s; split; (done || set_solver).
Qed.

Lemma extends_refl event l db : extends_audit event l db db.
Proof. constructor; [done..|]. exists []. split; [by rewrite app_nil_r|set_solver]. Qed.

Lemma extends_row event s row db :
  au_key row = audit_key event s → extends_audit event [s] db (db <| sd_audit ::= λ l, l ++ [row] |>).
Proof.
  intros Hk. constructor; [done..|]. exists [row]. split; [done|].
  intros r ->%list_elem_of_singleton. exists s. set_solver.
Qed.

Lemma fresh_extends event l l' db db' :
  extends_audit event l db db' → (∀ s, s ∈ l → s ∈ audit_suffixes) → (∀ s, s ∈ l' → s ∈ audit_suffixes) →
  (∀ s, s ∈ l → s ∉ l') → fresh_keys event l' db → fresh_keys event l' db'.
Proof.
  intros [_ _ _ (rows & Ha & Hrows)] Hl Hl' Hd Hf s Hs. rewrite Ha. apply has_key_false.
  intros row [Hin|(s' & Hs' & ->)%Hrows]%elem_of_app.
  - specialize (Hf s Hs). rewrite has_key_false in Hf. by apply Hf.
  - intros Heq. apply audit_key_inj in Heq as [_ ->]; [|by apply suffix_no_char; auto..]. by apply (Hd s).
Qed.

Lemma derive_delinquency_spec requestId event organization invoiceId account db :
  sd_accounts db !! organization = Some account → fresh_keys event ["delinquency"] db →
  derived_but (Some organization) db →
  ∃ db', derive_delinquency requestId event organization invoiceId account db = Ok (tt, db') ∧
    sd_invoices db' = sd_invoices db ∧ extends_audit event ["delinquency"] db db' ∧ derived_but None db'.
Proof.
  intros Ha Hf Hd. unfold derive_delinquency. set (was := bool_decide _).
  assert (was = true ↔ delinquent account) as Hwas by apply bool_decide_eq_true.
  destruct (Bool.eqb was _) eqn:E.
  - apply Bool.eqb_prop in E. exists db. split_and!; [done|done|apply extends_refl|].
    intros o a _ Ho. destruct (decide (o = organization)) as [->|Hne]; [|apply Hd; congruence].
    rewrite Ha in Ho. injection Ho as <-. by rewrite <- Hwas, E.
  - set (at_ := if has_failed_invoice _ _ then _ else _).
    rewrite insert_audit_spec by (apply Hf; set_solver). eexists. split; [done|]. split_and!; [done| |].
    + constructor; [done|done| |].
      * simpl. apply map_eq. intros o. rewrite !lookup_fmap.
        destruct (decide (o = organization)) as [->|Hne]; [rewrite lookup_alter_eq|by rewrite lookup_alter_ne].
        by rewrite Ha.
      * eexists [_]. split; [done|]. intros row ->%list_elem_of_singleton. exists "delinquency". set_solver.
    + intros o a _ Ho. simpl in *. destruct (decide (o = organization)) as [->|Hne].
      * rewrite lookup_alter_eq, Ha in Ho. injection Ho as <-. unfold delinquent, at_. simpl.
        destruct (has_failed_invoice _ _); simpl; (split; [done|]); [by eexists|done].
      * rewrite lookup_alter_ne in Ho by done. apply Hd; congruence.
Qed.

Lemma has_failed_insert o organization invoice r m :
  o ≠ organization → has_failed_invoice o (<[(organization, invoice) := r]> m) = has_failed_invoice o m.
Proof.
  intros Hne. apply eq_true_iff_eq. rewrite !has_failed_invoice_spec.
  split; intros (i & x & Hx & Hf); exists i, x; (split; [|done]).
  - rewrite lookup_insert_ne in Hx; [done|congruence].
  - rewrite lookup_insert_ne; [done|congruence].
Qed.

Lemma record_invoice_spec requestId event organization invoiceId account failed prior db :
  sd_accounts db !! organization = Some account → fresh_keys event audit_suffixes db → derived_but None db →
  ∃ db', record_invoice requestId event organization invoiceId account failed prior db = Ok (tt, db') ∧
    sd_invoices db' = <[(organization, invoiceId) := invoice_row event failed]> (sd_invoices db) ∧
    extends_audit event audit_suffixes db db' ∧ derived_but None db'.
Proof.
  intros Ha Hf Hd. set (db1 := db <| sd_invoices ::= <[(organization, invoiceId) := invoice_row event failed]> |>).
  unfold record_invoice. set (row := invoice_audit _ _ _ _ _ _). set (quiet := match prior with Some _ => _ | None => _ end).
  set (db2 := if quiet then db1 else db1 <| sd_audit ::= λ l, l ++ [row] |>).
  assert (extends_audit event ["invoice-delinquency"] db1 db2) as He.
  { unfold db2. destruct quiet; [apply extends_refl|by apply extends_row]. }
  destruct (derive_delinquency_spec requestId event organization invoiceId account db2)
    as (db' & E & Hi & He' & Hd').
  - unfold db2. by destruct quiet.
  - eapply fresh_extends; [exact He|..]; unfold audit_suffixes; set_solver.
  - intros o a Hne Ho. assert (o ≠ organization) as Hno by congruence.
    assert (sd_accounts db !! o = Some a) as Ho' by (unfold db2 in Ho; by destruct quiet).
    rewrite (Hd o a) by done. unfold db2. destruct quiet; simpl; by rewrite has_failed_insert.
  - exists db'. split_and!; [|by rewrite Hi; unfold db2; destruct quiet| |done].
    + rewrite <- E. unfold db2. simpl. destruct quiet; [done|].
      unfold mbind, tx_bind, modify. rewrite insert_audit_spec; [done|]. apply Hf. unfold audit_suffixes. set_solver.
    + pose proof (extends_trans _ _ _ _ _ _ He He') as [R O C (rows & A & K)].
      constructor; [by rewrite R|by rewrite O|by rewrite C|]. exists rows. split; [by rewrite A|].
      intros x (s & Hs & Hk)%K. exists s. split; [|done]. unfold audit_suffixes. set_solver.
Qed.

Lemma apply_invoice_spec requestId event organization customer invoiceId account failed db :
  sd_accounts db !! organization = Some account → sa_customer account = Some customer →
  fresh_keys event audit_suffixes db → derived_but None db →
  ∃ db', apply_invoice requestId event organization customer invoiceId failed db = Ok (tt, db') ∧
    sd_invoices db' = upsert (organization, invoiceId) (invoice_row event failed) (sd_invoices db) ∧
    extends_audit event audit_suffixes db db' ∧ derived_but None db'.
Proof.
  intros Ha Hcu Hf Hd. unfold apply_invoice. rewrite Ha, bool_decide_eq_true_2 by done.
  unfold upsert. destruct (sd_invoices db !! _) as [p|] eqn:Ep.
  - rewrite newer_row_before. destruct (row_before p _) eqn:Eb; simpl negb; cbv iota.
    + by apply record_invoice_spec.
    + rewrite insert_audit_spec by (apply Hf; unfold audit_suffixes; set_solver).
      eexists. split; [done|]. split_and!; [done| |exact Hd].
      destruct (extends_row event "stale-delinquency" (stale_audit requestId event organization invoiceId (Some p)) db eq_refl)
        as [R O C (rows & A & K)]. constructor; [done..|]. exists rows. split; [done|].
      intros x (s & Hs & Hk)%K. exists s. split; [|done]. unfold audit_suffixes. set_solver.
  - by apply record_invoice_spec.
Qed.

(** * Reachable tables *)

Record stripe_ok (db : StripeDb) : Prop := {
  so_ranked : ∀ k r, sd_invoices db !! k = Some r → ranked r;
  so_account : ∀ k r, sd_invoices db !! k = Some r → is_Some (sd_accounts db !! k.1);
  so_derived : derived_but None db;
  so_audit : ∀ row, row ∈ sd_audit db →
    ∃ e s, au_key row = audit_key e s ∧ s ∈ audit_suffixes ∧ is_Some (receipts db !! se_id e)
}.

(** What other parts of the program do to these tables: organizations come and go,
    accounts are opened and linked to customers. *)
Record elsewhere (db db' : StripeDb) : Prop := {
  ew_receipts : receipts db' = receipts db;
  ew_invoices : sd_invoices db' = sd_invoices db;
  ew_audit : sd_audit db' = sd_audit db;
  ew_accounts : ∀ o,
    match sd_accounts db !! o, sd_accounts db' !! o with
    | Some a, Some a' => delinquent_at (sa_billing a') = delinquent_at (sa_billing a)
    | None, Some a' => delinquent_at (sa_billing a') = None
    | Some _, None => False
    | None, None => True
    end
}.

Inductive stripe_step (db : StripeDb) : StripeDb → Prop :=
| step_process now meanwhile requestId event :
    (∀ d, elsewhere d (meanwhile d)) →
    stripe_step db (transaction (process now meanwhile requestId event) db).2
| step_elsewhere db' : elsewhere db db' → stripe_step db db'.

Lemma elsewhere_refl db : elsewhere db db.
Proof. constructor; [done..|]. intros o. by destruct (sd_accounts db !! o). Qed.

Lemma elsewhere_ok db db' : elsewhere db db' → stripe_ok db → stripe_ok db'.
Proof.
  intros [R I A C] [Hr Ha Hd Hau]. constructor.
  - rewrite I. exact Hr.
  - rewrite I. intros k r Hk. destruct (Ha k r Hk) as [a Hka]. specialize (C k.1). rewrite Hka in C.
    destruct (sd_accounts db' !! k.1); [by eexists|done].
  - intros o a' _ Ho. rewrite I. specialize (C o). rewrite Ho in C.
    destruct (sd_accounts db !! o) as [a|] eqn:Ho'.
    + rewrite <- (Hd o a) by done. unfold delinquent. by rewrite C.
    + unfold delinquent. rewrite C, has_failed_invoice_spec. split; [by intros []|].
      intros (i & r & Hi & _). destruct (Ha _ _ Hi) as [? Hs]. simpl in Hs. congruence.
  - rewrite A, R. exact Hau.
Qed.

Definition received (event : StripeEvent) (at_ : option Z) (db : StripeDb) : StripeDb :=
  db <| receipts ::= <[se_id event := (event, at_)]> |>.

Lemma received_ok event at_ db : stripe_ok db → stripe_ok (received event at_ db).
Proof.
  intros [Hr Ha Hd Hau]. constructor; [done..|]. intros row Hrow.
  destruct (Hau row Hrow) as (e & s & Hk & Hs & Hrc). exists e, s. split_and!; [done..|]. simpl.
  destruct (decide (se_id e = se_id event)) as [->|Hne]; [rewrite lookup_insert_eq; by eexists|].
  by rewrite lookup_insert_ne.
Qed.

Lemma received_fresh event at_ db :
  stripe_ok db → receipts db !! se_id event = None → fresh_keys event audit_suffixes (received event at_ db).
Proof.
  intros Hok Hn s Hs. apply has_key_false. intros row Hrow Hk.
  destruct (so_audit db Hok row Hrow) as (e & s' & Hk' & Hs' & [x Hx]).
  rewrite Hk' in Hk. apply audit_key_inj in Hk as [He _]; [|by apply suffix_no_char..]. congruence.
Qed.

Lemma same_customers db db' o :
  sa_customer <$> sd_accounts db' = sa_customer <$> sd_accounts db →
  sa_customer <$> sd_accounts db' !! o = sa_customer <$> sd_accounts db !! o.
Proof. intros Hc. apply (f_equal (lookup o)) in Hc. by rewrite !lookup_fmap in Hc. Qed.

(** Applying an event to an invoice of an existing account keeps the tables well
    formed. *)
Lemma applied_ok event failed organization invoiceId db db' :
  stripe_ok db → is_Some (sd_accounts db !! organization) → is_Some (receipts db !! se_id event) →
  sd_invoices db' = upsert (organization, invoiceId) (invoice_row event failed) (sd_invoices db) →
  extends_audit event audit_suffixes db db' → derived_but None db' → stripe_ok db'.
Proof.
  intros [Hr Ha Hd Hau] Hacc Hrc Hi [R O C (rows & A & K)] Hd'.
  assert (∀ k r, sd_invoices db' !! k = Some r → sd_invoices db !! k = Some r ∨
    k = (organization, invoiceId) ∧ r = invoice_row event failed) as Hup.
  { intros k r. rewrite Hi. unfold upsert. destruct (sd_invoices db !! _); [destruct (row_before _ _)|];
      try (intros [[<- <-]|[_ ?]]%lookup_insert_Some; auto); auto. }
  constructor; [| |done|].
  - intros k r [Hk|[_ ->]]%Hup; [by apply (Hr k)|done].
  - intros k r Hk. assert (is_Some (sd_accounts db !! k.1)) as Hs.
    { destruct (Hup k r Hk) as [Hk'|[-> _]]; [by eapply Ha|done]. }
    apply (fmap_is_Some sa_customer). rewrite (same_customers db db' _ C). by apply fmap_is_Some.
  - intros row. rewrite A, R. intros [Hin|(s & Hs & Hk)%K]%elem_of_app; [by apply Hau|by exists event, s].
Qed.

(** ** The transaction *)

(** The payment event of a linked customer whose organization exists: the
    invoice it speaks of and the row it makes. *)
Definition invoice_of (db : StripeDb) (event : StripeEvent) : option ((string * string) * InvoiceRow) :=
  customer ← as_string (prop "customer" (se_object event));
  invoiceId ← as_string (prop "id" (se_object event));
  failed ← targetDelinquent event;
  organization ← organization_of customer db;
  if bool_decide (organization ∈ sd_organizations db)
  then Some ((organization, invoiceId), invoice_row event failed) else None.

Lemma organization_of_Some customer db o :
  organization_of customer db = Some o → ∃ a, sd_accounts db !! o = Some a ∧ sa_customer a = Some customer.
Proof.
  unfold organization_of. intros ([k a] & Hf & ->)%fmap_Some. apply find_some in Hf as [Hin Hb].
  apply bool_decide_eq_true in Hb. exists a. split; [|done].
  apply elem_of_map_to_list. by apply list_elem_of_In.
Qed.

Lemma apply_event_ok meanwhile requestId event db u db' :
  (∀ d, elsewhere d (meanwhile d)) → stripe_ok db → fresh_keys event audit_suffixes db →
  is_Some (receipts db !! se_id event) → apply_event meanwhile requestId event db = Ok (u, db') →
  stripe_ok db' ∧ receipts db' = receipts db.
Proof.
  intros Hm Hok Hf Hrc. unfold apply_event.
  destruct (as_string _) as [customer|]; [|by intros [= _ <-]].
  destruct (as_string _) as [invoiceId|]; [|by intros [= _ <-]].
  destruct (targetDelinquent event) as [failed|]; [|by intros [= _ <-]].
  unfold mbind, tx_bind, gets, modify. destruct (organization_of customer db) as [o|]; [|done].
  pose proof (Hm db) as He. pose proof (elsewhere_ok _ _ He Hok) as Hok1.
  destruct (bool_decide _); [|intros [= _ <-]; split; [done|apply He]].
  intros E. destruct (sd_accounts (meanwhile db) !! o) as [a|] eqn:Ea;
    [|unfold apply_invoice in E; rewrite Ea in E; injection E as _ <-; split; [done|apply He]].
  destruct (decide (sa_customer a = Some customer)) as [Hc|Hc];
    [|unfold apply_invoice in E; rewrite Ea, bool_decide_eq_false_2 in E by done;
      injection E as _ <-; split; [done|apply He]].
  destruct (apply_invoice_spec requestId event o customer invoiceId a failed (meanwhile db))
    as (db2 & E2 & Hi & Hx & Hd); [done|done| |apply Hok1|].
  { intros s Hs. rewrite (ew_audit _ _ He). by apply Hf. }
  rewrite E2 in E. injection E as _ <-. split; [|by rewrite (ea_receipts _ _ _ _ Hx), (ew_receipts _ _ He)].
  eapply applied_ok; [exact Hok1|by eexists| |exact Hi|exact Hx|exact Hd].
  by rewrite (ew_receipts _ _ He).
Qed.

Lemma process_ok now meanwhile requestId event db b db' :
  (∀ d, elsewhere d (meanwhile d)) → stripe_ok db →
  process now meanwhile requestId event db = Ok (b, db') → stripe_ok db'.
Proof.
  intros Hm Hok. unfold process. destruct (receipts db !! se_id event) as [x|] eqn:Hn; [by intros [= _ <-]|].
  intros (u & db1 & [= _ <-] & E1)%tx_bind_Ok. apply tx_bind_Ok in E1 as (u1 & db2 & E1 & E2).
  injection E2 as _ <-.
  destruct (apply_event_ok meanwhile requestId event (received event None db) u1 db2)
    as [[Hr Ha Hd Hau] _]; [done|by apply received_ok|by apply received_fresh| |done|].
  - simpl. rewrite lookup_insert_eq. by eexists.
  - constructor; [done..|]. intros row Hrow. destruct (Hau row Hrow) as (e & s & Hk & Hs & [y Hy]).
    exists e, s. split_and!; [done..|]. simpl.
    destruct (decide (se_id event = se_id e)) as [->|Hne];
      [rewrite lookup_alter_eq, Hy|rewrite lookup_alter_ne by done]; by eexists.
Qed.

Lemma stripe_step_ok db db' : stripe_step db db' → stripe_ok db → stripe_ok db'.
Proof.
  intros [now meanwhile requestId event Hm|d He] Hok; [|by eapply elsewhere_ok].
  unfold transaction. destruct (process _ _ _ _ _) as [[b d]|e] eqn:E; [|done]. by eapply process_ok.
Qed.

Lemma stripe_steps_ok db db' : rtc stripe_step db db' → stripe_ok db → stripe_ok db'.
Proof. intros Hs. induction Hs; [done|]. intros. by eauto using stripe_step_ok. Qed.

(** ** Deliveries one after another *)

Record Delivery := mkDelivery {
  dl_now : Z;
  dl_request : option string;
  dl_event : StripeEvent
}.

Definition deliver (db : StripeDb) (d : Delivery) : StripeDb :=
  (transaction (process (dl_now d) id (dl_request d) (dl_event d)) db).2.

Definition deliver_all (db : StripeDb) (l : list Delivery) : StripeDb := foldl deliver db l.

(** [UNIQUE (stripe_customer_id)] *)
Definition customers_unique (db : StripeDb) : Prop :=
  ∀ o o' a a' c, sd_accounts db !! o = Some a → sd_accounts db !! o' = Some a' →
    sa_customer a = Some c → sa_customer a' = Some c → o = o'.

Lemma organization_of_unique db c o a :
  customers_unique db → sd_accounts db !! o = Some a → sa_customer a = Some c → organization_of c db = Some o.
Proof.
  intros Hu Ha Hc. destruct (organization_of c db) as [o'|] eqn:E.
  - destruct (organization_of_Some c db o' E) as (a' & Ha' & Hc'). f_equal. by eapply Hu.
  - exfalso. unfold organization_of in E. apply fmap_None in E.
    eapply (find_none _ _) in E; [|apply list_elem_of_In, elem_of_map_to_list, Ha].
    apply bool_decide_eq_false in E. done.
Qed.

Lemma customer_of db db' o a c :
  sa_customer <$> sd_accounts db' = sa_customer <$> sd_accounts db →
  sd_accounts db !! o = Some a → sa_customer a = Some c →
  ∃ a', sd_accounts db' !! o = Some a' ∧ sa_customer a' = Some c.
Proof.
  intros Hs Ha Hc. pose proof (same_customers db db' o Hs) as H. rewrite Ha in H. simpl in H.
  destruct (sd_accounts db' !! o) as [a'|]; [|done]. exists a'. split; [done|]. injection H as ->. done.
Qed.

Lemma organization_of_same db db' c :
  sa_customer <$> sd_accounts db' = sa_customer <$> sd_accounts db → customers_unique db →
  organization_of c db' = organization_of c db.
Proof.
  intros Hs Hu. assert (customers_unique db') as Hu'.
  { intros o o' a a' c' Ha Ha' Hc Hc'.
    destruct (customer_of db' db o a c') as (b & Hb & Hbc); [done..|].
    destruct (customer_of db' db o' a' c') as (b' & Hb' & Hbc'); [done..|]. by eapply Hu. }
  destruct (organization_of c db) as [o|] eqn:E.
  - apply organization_of_Some in E as (a & Ha & Hc).
    destruct (customer_of db db' o a c) as (a' & Ha' & Hc'); [done..|]. by eapply organization_of_unique.
  - destruct (organization_of c db') as [o'|] eqn:E'; [|done]. exfalso.
    apply organization_of_Some in E' as (a & Ha & Hc).
    destruct (customer_of db' db o' a c) as (a' & Ha' & Hc'); [done..|].
    by rewrite (organization_of_unique db c o' a') in E.
Qed.

Lemma invoice_of_same db db' event :
  sa_customer <$> sd_accounts db' = sa_customer <$> sd_accounts db → customers_unique db →
  sd_organizations db' = sd_organizations db → invoice_of db' event = invoice_of db event.
Proof.
  intros Hs Hu Ho. unfold invoice_of. rewrite Ho.
  destruct (as_string _) as [c|]; [|done]. destruct (as_string _); [|done]. destruct (targetDelinquent _); [|done].
  simpl. by rewrite (organization_of_same db db').
Qed.

(** What a new event leaves: an error is that of an unlinked customer. *)
Lemma process_spec now requestId event db :
  stripe_ok db → receipts db !! se_id event = None →
  match process now id requestId event db with
  | Err _ => invoice_of db event = None
  | Ok (_, db') =>
      sa_customer <$> sd_accounts db' = sa_customer <$> sd_accounts db ∧
      sd_organizations db' = sd_organizations db ∧
      sd_invoices db' = match invoice_of db event with
                        | Some (k, r) => upsert k r (sd_invoices db)
                        | None => sd_invoices db
                        end ∧
      ∀ i, is_Some (receipts db' !! i) → is_Some (receipts db !! i) ∨ se_id event = i
  end.
Proof.
  intros Hok Hn. pose proof (received_ok event None db Hok) as Hok1.
  pose proof (received_fresh event None db Hok Hn) as Hf.
  assert (∀ i at_ at', is_Some (alter (λ r : StripeEvent * option Z, (r.1, at_)) (se_id event)
      (<[se_id event := (event, at')]> (receipts db)) !! i) → is_Some (receipts db !! i) ∨ se_id event = i) as Hrc.
  { intros i at_ at'. destruct (decide (se_id event = i)) as [->|Hne]; [by right|].
    rewrite lookup_alter_ne, lookup_insert_ne by done. by left. }
  unfold process. rewrite Hn. unfold invoice_of, apply_event, mbind, tx_bind, option_bind, gets, modify, throw.
  fold (received event None db).
  destruct (as_string _) as [c|]; [|by split_and!; try done; intros j; apply (Hrc j (Some now) None)].
  destruct (as_string _) as [i|]; [|by split_and!; try done; intros j; apply (Hrc j (Some now) None)].
  destruct (targetDelinquent event) as [failed|]; [|by split_and!; try done; intros j; apply (Hrc j (Some now) None)].
  change (organization_of c (received event None db)) with (organization_of c db).
  destruct (organization_of c db) as [o|] eqn:Eo; [|done].
  change (sd_organizations (id (received event None db))) with (sd_organizations db).
  destruct (bool_decide _); [|by split_and!; try done; intros j; apply (Hrc j (Some now) None)].
  destruct (organization_of_Some c db o Eo) as (a & Ha & Hc).
  destruct (apply_invoice_spec requestId event o c i a failed (id (received event None db)))
    as (db2 & -> & Hi & [R O C _] & _); [done|done|done|apply Hok1|].
  simpl. rewrite R, O, C, Hi. split_and!; [done..|]. intros j. apply (Hrc j (Some now) None).
Qed.

(** The rows an invoice was ever given: its first one and those of the events
    delivered. *)
Definition row_for (db0 : StripeDb) (k : string * string) (d : Delivery) : option InvoiceRow :=
  match invoice_of db0 (dl_event d) with
  | Some (k', r) => if decide (k' = k) then Some r else None
  | None => None
  end.

Definition rows_for (db0 : StripeDb) (k : string * string) (l : list Delivery) : list InvoiceRow :=
  option_list (sd_invoices db0 !! k) ++ omap (row_for db0 k) l.

Lemma rows_for_snoc db0 k l d :
  rows_for db0 k (l ++ [d]) = rows_for db0 k l ++ option_list (row_for db0 k d).
Proof. unfold rows_for. rewrite omap_app, app_assoc. simpl. by destruct (row_for db0 k d). Qed.

Lemma invoice_of_ranked db event k r : invoice_of db event = Some (k, r) → ranked r.
Proof.
  unfold invoice_of, mbind, option_bind. destruct (as_string _); [|done]. destruct (as_string _); [|done].
  destruct (targetDelinquent _); [|done]. destruct (organization_of _ _); [|done].
  destruct (bool_decide _); [|done]. by intros [= _ <-].
Qed.

Lemma rows_for_ranked db0 k l x : stripe_ok db0 → x ∈ rows_for db0 k l → ranked x.
Proof.
  intros Hok [Hx|(d & _ & Hx)%list_elem_of_omap]%elem_of_app.
  - destruct (sd_invoices db0 !! k) as [r|] eqn:E; [|by apply elem_of_nil in Hx].
    apply list_elem_of_singleton in Hx as ->. by eapply so_ranked.
  - unfold row_for in Hx. destruct (invoice_of db0 _) as [[k' r]|] eqn:E; [|done].
    destruct (decide _); [|done]. injection Hx as <-. by eapply invoice_of_ranked.
Qed.

Record delivered (db0 : StripeDb) (l : list Delivery) (db : StripeDb) : Prop := {
  dv_ok : stripe_ok db;
  dv_customers : sa_customer <$> sd_accounts db = sa_customer <$> sd_accounts db0;
  dv_organizations : sd_organizations db = sd_organizations db0;
  dv_rows : ∀ k, match sd_invoices db !! k with
                 | Some r => latest (rows_for db0 k l) r
                 | None => rows_for db0 k l = []
                 end;
  dv_receipts : ∀ i, is_Some (receipts db !! i) →
    is_Some (receipts db0 !! i) ∨ ∃ d, d ∈ l ∧ se_id (dl_event d) = i
}.

(** Identifiers name events, and none was received before. *)
Definition new_events (db0 : StripeDb) (l : list Delivery) : Prop :=
  (∀ d, d ∈ l → receipts db0 !! se_id (dl_event d) = None) ∧
  ∀ d d', d ∈ l → d' ∈ l → se_id (dl_event d) = se_id (dl_event d') → dl_event d = dl_event d'.

Lemma latest_again rows r x : latest rows r → x ∈ rows → latest (rows ++ [x]) r.
Proof.
  intros [Hin Hmax] Hx. split; [set_solver|]. intros y [Hy|Hy]%elem_of_app; [by apply Hmax|].
  apply list_elem_of_singleton in Hy as ->. by apply Hmax.
Qed.

Lemma deliver_again db0 l db d :
  new_events db0 (l ++ [d]) → delivered db0 l db → is_Some (receipts db !! se_id (dl_event d)) →
  delivered db0 (l ++ [d]) db.
Proof.
  intros [Hnew Hids] [Ok C O R Rc] Hs. destruct (Rc _ Hs) as [Hr|(d' & Hd' & He)].
  { rewrite Hnew in Hr by set_solver. by destruct Hr. }
  assert (dl_event d' = dl_event d) as Heq by (apply Hids; [set_solver..|done]).
  constructor; [done..| |].
  - intros k. specialize (R k). rewrite rows_for_snoc.
    assert (row_for db0 k d = row_for db0 k d') as Hrow by (unfold row_for; by rewrite Heq).
    assert (∀ x, row_for db0 k d' = Some x → x ∈ rows_for db0 k l) as Hin.
    { intros x Hx. apply elem_of_app. right. apply list_elem_of_omap. by exists d'. }
    rewrite Hrow. destruct (row_for db0 k d') as [x|]; simpl; [|by rewrite app_nil_r].
    specialize (Hin x eq_refl). destruct (sd_invoices db !! k); [by apply latest_again|].
    rewrite R in Hin. by apply elem_of_nil in Hin.
  - intros i [Hi|(d1 & ? & ?)]%Rc; [by left|]. right. exists d1. set_solver.
Qed.

Lemma deliver_delivered db0 l db d :
  customers_unique db0 → new_events db0 (l ++ [d]) → delivered db0 l db → delivered db0 (l ++ [d]) (deliver db d).
Proof.
  intros Hu Hnew Hdl. pose proof Hdl as [Ok C O R Rc]. unfold deliver, transaction.
  destruct (receipts db !! se_id (dl_event d)) as [x|] eqn:Hn.
  { unfold process. rewrite Hn. apply deliver_again; [done..|by eexists]. }
  pose proof (process_spec (dl_now d) (dl_request d) (dl_event d) db Ok Hn) as Hp.
  rewrite (invoice_of_same db0 db) in Hp by done.
  destruct (process _ _ _ _ db) as [[b db']|e] eqn:E; simpl.
  - destruct Hp as (C' & O' & Hi & Hrc). constructor; [|congruence..| |].
    + eapply process_ok; [|exact Ok|exact E]. apply elsewhere_refl.
    + intros k. specialize (R k). rewrite rows_for_snoc, Hi. unfold row_for.
      destruct (invoice_of db0 (dl_event d)) as [[k' r]|]; [|by rewrite app_nil_r].
      destruct (decide (k' = k)) as [->|Hne].
      * destruct (upsert_latest k r (sd_invoices db) (rows_for db0 k l) R) as (q & -> & Hq). done.
      * rewrite upsert_other by done. by rewrite app_nil_r.
    + intros i [Hi'|<-]%Hrc.
      * destruct (Rc i Hi') as [?|(d1 & ? & ?)]; [by left|]. right. exists d1. set_solver.
      * right. exists d. set_solver.
  - constructor; [done..| |].
    + intros k. rewrite rows_for_snoc. unfold row_for. rewrite Hp. simpl. rewrite app_nil_r. apply R.
    + intros i [?|(d1 & ? & ?)]%Rc; [by left|]. right. exists d1. set_solver.
Qed.

Lemma delivered_start db0 : stripe_ok db0 → delivered db0 [] db0.
Proof.
  intros Hok. constructor; [done..| |by left]. intros k. unfold rows_for.
  destruct (sd_invoices db0 !! k) as [r|]; [|done]. split; [set_solver|].
  intros x ->%list_elem_of_singleton. apply row_before_irrefl.
Qed.

Lemma deliver_all_delivered db0 l :
  stripe_ok db0 → customers_unique db0 → new_events db0 l → delivered db0 l (deliver_all db0 l).
Proof.
  intros Hok Hu. induction l as [|d l IH] using rev_ind; intros Hnew; [by apply delivered_start|].
  unfold deliver_all. rewrite foldl_app. simpl. apply deliver_delivered; [done|done|]. apply IH.
  destruct Hnew as [H1 H2]. split; [intros ? ?; apply H1; set_solver|intros ? ? ? ?; apply H2; set_solver].
Qed.

(** * Properties *)

(** C21: An organization is delinquent exactly while one of its invoices is failed,
    and billing admission then suspends it: in every state the deliveries reach,
    with the other parts of the program opening accounts and linking customers in
    between, even during a delivery. *)
Theorem delinquency_is_open_invoice db0 db organization account policy now delta machines t :
  stripe_ok db0 → rtc stripe_step db0 db → sd_accounts db !! organization = Some account →
  bt_accounts t = sa_billing <$> sd_accounts db →
  (is_Some (delinquent_at (sa_billing account)) ↔
     ∃ invoice r, sd_invoices db !! (organization, invoice) = Some r ∧ iv_failed r = true) ∧
  (∀ invoice r, sd_invoices db !! (organization, invoice) = Some r → iv_failed r = true →
     enforce policy now organization delta machines t = Err (BillingAdmissionRejected billing_delinquent)).
Proof.
  intros Hok Hs Ha Ht. pose proof (stripe_steps_ok _ _ Hs Hok) as Hok'.
  pose proof (so_derived db Hok' organization account) as Hd. rewrite has_failed_invoice_spec in Hd.
  specialize (Hd ltac:(done) Ha). split; [exact Hd|]. intros invoice r Hr Hf.
  destruct (proj2 Hd) as [at_ Hat]; [by exists invoice, r|].
  unfold enforce. rewrite Ht, lookup_fmap, Ha. simpl. by rewrite Hat.
Qed.

(** C20: Payment events converge: whichever order and however often the same events
    are delivered, each invoice ends with the row of its latest event, a failure
    before a payment of the same second, and the same organizations are
    delinquent. *)
Theorem payment_events_converge db0 l l' :
  stripe_ok db0 → customers_unique db0 → new_events db0 l → new_events db0 l' →
  (∀ event, event ∈ dl_event <$> l ↔ event ∈ dl_event <$> l') →
  sd_invoices (deliver_all db0 l) = sd_invoices (deliver_all db0 l') ∧
  (∀ k r, sd_invoices (deliver_all db0 l) !! k = Some r → latest (rows_for db0 k l) r) ∧
  ∀ o a a', sd_accounts (deliver_all db0 l) !! o = Some a → sd_accounts (deliver_all db0 l') !! o = Some a' →
    delinquent a ↔ delinquent a'.
Proof.
  intros Hok Hu Hn Hn' Hsame.
  pose proof (deliver_all_delivered db0 l Hok Hu Hn) as [Ok _ _ R _].
  pose proof (deliver_all_delivered db0 l' Hok Hu Hn') as [Ok' _ _ R' _].
  assert (∀ l l', (∀ event, event ∈ dl_event <$> l → event ∈ dl_event <$> l') →
    ∀ k x, x ∈ rows_for db0 k l → x ∈ rows_for db0 k l') as Hincl.
  { clear. intros l l' Hs k x [Hx|(d & Hd & Hx)%list_elem_of_omap]%elem_of_app; apply elem_of_app; [by left|right].
    destruct (proj1 (list_elem_of_fmap _ _ _) (Hs (dl_event d) (list_elem_of_fmap_2 _ _ _ Hd))) as (d' & He & Hd').
    apply list_elem_of_omap. exists d'. split; [done|]. unfold row_for in *. by rewrite <- He. }
  assert (sd_invoices (deliver_all db0 l) = sd_invoices (deliver_all db0 l')) as Heq.
  { apply map_eq. intros k. specialize (R k). specialize (R' k).
    assert (∀ x, x ∈ rows_for db0 k l ↔ x ∈ rows_for db0 k l') as Hrows
      by (intros x; split; apply Hincl; intros e; apply Hsame).
    destruct (sd_invoices (deliver_all db0 l) !! k) as [r|], (sd_invoices (deliver_all db0 l') !! k) as [r'|]; [|exfalso..|done].
    - f_equal. eapply latest_unique; [|exact Hrows|exact R|exact R']. intros x. by apply rows_for_ranked.
    - destruct R as [Hin _]. apply Hrows in Hin. rewrite R' in Hin. by apply elem_of_nil in Hin.
    - destruct R' as [Hin _]. apply Hrows in Hin. rewrite R in Hin. by apply elem_of_nil in Hin. }
  split_and!; [done| |].
  - intros k r Hk. specialize (R k). by rewrite Hk in R.
  - intros o a a' Ha Ha'. rewrite (so_derived _ Ok o a), (so_derived _ Ok' o a') by done. by rewrite Heq.
Qed.

(** A receipt stays, and an event with one is a replay. *)
Lemma stripe_step_receipts db db' i :
  stripe_step db db' → stripe_ok db → is_Some (receipts db !! i) → is_Some (receipts db' !! i).
Proof.
  intros [now meanwhile requestId event Hm|d He] Hok Hi; [|by rewrite (ew_receipts _ _ He)].
  unfold transaction. destruct (process _ _ _ _ _) as [[b d]|e] eqn:E; [|done]. simpl. revert E.
  unfold process. destruct (receipts db !! se_id event) as [x|] eqn:Hn; [by intros [= _ <-]|].
  intros (u & db1 & [= _ <-] & E1)%tx_bind_Ok. apply tx_bind_Ok in E1 as (u1 & db2 & E1 & E2). injection E2 as _ <-.
  destruct (apply_event_ok meanwhile requestId event (received event None db) u1 db2) as [_ Hr];
    [done|by apply received_ok|by apply received_fresh|simpl; rewrite lookup_insert_eq; by eexists|exact E1|].
  simpl. rewrite Hr. simpl. destruct (decide (se_id event = i)) as [->|Hne].
  - rewrite lookup_alter_eq, lookup_insert_eq. by eexists.
  - by rewrite lookup_alter_ne, lookup_insert_ne.
Qed.

Lemma receipt_replays db db' event :
  rtc stripe_step db db' → stripe_ok db → is_Some (receipts db !! se_id event) →
  ∀ now meanwhile requestId, process now meanwhile requestId event db' = Ok (false, db').
Proof.
  intros Hs. induction Hs as [db|db db1 db' H1 _ IH]; intros Hok Hr.
  - intros now meanwhile requestId. unfold process. by destruct Hr as [x ->].
  - by apply IH; [eapply stripe_step_ok|eapply stripe_step_receipts].
Qed.

(** C40: A payment event whose customer is re-linked while it is processed, between
    the lookup of its organization and the locks, is consumed: its receipt is
    committed as processed, no invoice, no audit event and no account of either
    organization learns of it, and from then on, whatever happens, every redelivery
    is answered as a replay. *)
Theorem relinked_event_is_consumed db meanwhile requestId event now customer organization other :
  stripe_ok db → (∀ d, elsewhere d (meanwhile d)) → receipts db !! se_id event = None →
  as_string (prop "customer" (se_object event)) = Some customer → organization_of customer db = Some organization →
  let db1 := meanwhile (received event None db) in
  customers_unique db1 → organization_of customer db1 = Some other → other ≠ organization →
  ∃ db', process now meanwhile requestId event db = Ok (true, db') ∧
    sd_invoices db' = sd_invoices db ∧ sd_audit db' = sd_audit db ∧
    (∀ o a a', sd_accounts db !! o = Some a → sd_accounts db' !! o = Some a' →
       delinquent_at (sa_billing a') = delinquent_at (sa_billing a)) ∧
    receipts db' !! se_id event = Some (event, Some now) ∧
    ∀ db2, rtc stripe_step db' db2 →
      ∀ now' meanwhile' requestId', process now' meanwhile' requestId' event db2 = Ok (false, db2).
Proof.
  intros Hok Hm Hn Hc Ho db1 Hu Ho1 Hne. set (db0 := received event None db) in *.
  pose proof (Hm db0) as He. fold db1 in He.
  assert (∃ d, apply_event meanwhile requestId event db0 = Ok (tt, d) ∧ elsewhere db0 d) as (d & Ha & Hd).
  { unfold apply_event. rewrite Hc. destruct (as_string (prop "id" _)) as [invoiceId|];
      [|exists db0; split; [done|apply elsewhere_refl]].
    destruct (targetDelinquent event) as [failed|]; [|exists db0; split; [done|apply elsewhere_refl]].
    unfold mbind, tx_bind, gets, modify. change (organization_of customer db0) with (organization_of customer db).
    rewrite Ho. fold db1. exists db1. split; [|done]. destruct (bool_decide _); [|done].
    unfold apply_invoice. destruct (sd_accounts db1 !! organization) as [a|] eqn:Ea; [|done].
    rewrite bool_decide_eq_false_2; [done|]. intros Hca.
    pose proof (organization_of_unique db1 customer organization a Hu Ea Hca). congruence. }
  set (db' := d <| receipts ::= alter (λ r, (r.1, Some now)) (se_id event) |>).
  assert (process now meanwhile requestId event db = Ok (true, db')) as Hp.
  { unfold process. rewrite Hn. unfold mbind, tx_bind, modify. fold (received event None db). fold db0.
    unfold mbind, tx_bind in Ha. by rewrite Ha. }
  assert (receipts db' !! se_id event = Some (event, Some now)) as Hr.
  { simpl. rewrite (ew_receipts _ _ Hd), lookup_alter_eq. simpl. by rewrite lookup_insert_eq. }
  exists db'. split_and!; [exact Hp|apply Hd|apply Hd| |exact Hr|].
  - intros o a a' Hoa Hoa'. pose proof (ew_accounts _ _ Hd o) as Hx. simpl in Hx, Hoa'. by rewrite Hoa, Hoa' in Hx.
  - intros db2 Hs. apply (receipt_replays db'); [done| |by eexists]. by eapply process_ok.
Qed.

Lemma stripe_event_shape candidate e :
  stripe_event candidate = Ok e →
  1 <= utf16_length (se_id e) <= 255 ∧ 0 <= se_created e ∧
  (is_Some (targetDelinquent e) →
     ∃ customer invoice, prop "customer" (se_object e) = JStr customer ∧ prop "id" (se_object e) = JStr invoice).
Proof.
  assert (∀ v s, bounded_text v = Some s → v = JStr s ∧ 1 <= utf16_length s <= 255) as Hb.
  { intros v s. destruct v; simpl; try done. destruct (_ && _) eqn:E; [|done]. intros [= ->]. bool_simp. split; [done|lia]. }
  unfold stripe_event. destruct candidate as [| | | | | |fields]; try done.
  destruct (bounded_text (prop "id" fields)) as [i|] eqn:Ei; [|done].
  destruct (bounded_text (prop "type" fields)) as [ty|]; [|done].
  destruct (created_seconds _) as [cr|] eqn:Ec; [|done].
  destruct (prop "data" fields) as [| | | | | |data]; try done.
  destruct (prop "object" data) as [| | | | | |object]; try done.
  destruct (_ && _) eqn:Eb; [done|]. intros [= <-]. simpl. split_and!; try (by apply Hb in Ei as [_ ?]; lia).
  - unfold created_seconds in Ec. destruct (prop "created" fields) as [| | |n| | |]; try done.
    destruct n; [|done]. destruct (_ && _) eqn:E; [|done]. injection Ec as <-. bool_simp. lia.
  - intros Ht. assert (is_invoice_event ty = true) as Hty.
    { unfold targetDelinquent in Ht. simpl in Ht. unfold is_invoice_event.
      destruct (String.eqb ty "invoice.payment_failed"); [apply orb_true_r|].
      destruct (String.eqb ty "invoice.paid"); [done|by destruct Ht]. }
    rewrite Hty in Eb. simpl in Eb. apply negb_false_iff, andb_true_iff in Eb as [E1 E2].
    apply bool_decide_eq_true in E1 as [inv Hi], E2 as [cus Hc]. exists cus, inv.
    split; [by apply Hb in Hc as [-> _]|by apply Hb in Hi as [-> _]].
Qed.

Lemma signature_matches_spec expected signature :
  signature_matches expected signature = true → toLowerCase signature = expected.
Proof. unfold signature_matches. intros [_ ?%String.eqb_eq]%andb_true_iff. done. Qed.

(** An event is accepted only from the raw body whose MAC under the secret, with
    the header's timestamp, the header carries, within the tolerance of now; and a
    payment event that is accepted names its customer and invoice, so that its
    processing never skips it for its shape. *)
Theorem accepted_event_signed hmac JSON_parse rawBody header secret now tolerance event :
  verifyStripeSignature hmac JSON_parse rawBody header secret now tolerance = Ok event →
  ∃ timestamp signature,
    (signatureValues header).1 = NInt timestamp ∧ signature ∈ (signatureValues header).2 ∧
    toLowerCase signature = hmac secret (pretty timestamp +:+ "." +:+ rawBody) ∧
    Z.abs (now - timestamp) <= tolerance ∧
    1 <= utf16_length (se_id event) <= 255 ∧ 0 <= se_created event ∧
    (is_Some (targetDelinquent event) → ∃ customer invoice,
       prop "customer" (se_object event) = JStr customer ∧ prop "id" (se_object event) = JStr invoice).
Proof.
  unfold verifyStripeSignature. destruct (signatureValues header) as [[timestamp|] signatures]; [|done].
  destruct (negb (isSafeInteger _) || _) eqn:E1; [done|]. destruct (negb (existsb _ _)) eqn:E2; [done|].
  destruct (JSON_parse rawBody) as [candidate|]; [|done]. intros He%stripe_event_shape.
  apply negb_false_iff, existsb_exists in E2 as (signature & Hin & Hm).
  exists timestamp, signature. bool_simp. split_and!; try apply He; try done; try lia.
  - by apply list_elem_of_In.
  - by apply signature_matches_spec.
Qed.

(** ** Witnesses *)

Definition stripe_account (customer : option string) : StripeAccount :=
  mkStripeAccount (mkAccount "private_beta" None None) customer.
Definition stripe_demo : StripeDb :=
  mkStripeDb ∅ {[ "o1" := stripe_account (Some "cus_1") ]} {[ "o1" ]} ∅ [].
Definition invoice_event (event type_ : string) (created : Z) : StripeEvent :=
  mkStripeEvent event type_ created [("id", JStr "in_1"); ("customer", JStr "cus_1")].
Definition failed_delivery : Delivery := mkDelivery 5000 None (invoice_event "evt_1" "invoice.payment_failed" 1).
Definition paid_delivery : Delivery := mkDelivery 6000 None (invoice_event "evt_2" "invoice.paid" 2).

Lemma stripe_demo_ok : stripe_ok stripe_demo.
Proof.
  assert (∀ k, sd_invoices stripe_demo !! k = None) as Hnone by (intros k; apply lookup_empty).
  constructor.
  - intros k r. by rewrite Hnone.
  - intros k r. by rewrite Hnone.
  - intros o a _ Ha. unfold stripe_demo in Ha. simpl in Ha. apply lookup_singleton_Some in Ha as [<- <-].
    rewrite has_failed_invoice_spec. unfold delinquent. simpl. split; [by intros []|].
    intros (i & r & Hi & _). by rewrite lookup_empty in Hi.
  - intros row Hrow. by apply elem_of_nil in Hrow.
Qed.

Lemma stripe_demo_unique : customers_unique stripe_demo.
Proof.
  intros o o' a a' c Ha Ha' _ _. unfold stripe_demo in *. simpl in *. apply lookup_singleton_Some in Ha as [<- _].
  by apply lookup_singleton_Some in Ha' as [<- _].
Qed.

Lemma demo_new_events l :
  (∀ d, d ∈ l → d = failed_delivery ∨ d = paid_delivery) → new_events stripe_demo l.
Proof.
  intros Hl. split.
  - intros d _. apply lookup_empty.
  - intros d d' [-> | ->]%Hl [-> | ->]%Hl; done.
Qed.

(** The customer moves to another organization between the lookup and the lock. *)
Definition relink (db : StripeDb) : StripeDb :=
  let billing := match sd_accounts db !! "o2" with Some a => sa_billing a | None => mkAccount "private_beta" None None end in
  db <| sd_accounts ::= λ m, <["o2" := mkStripeAccount billing (Some "cus_1")]>
          ((λ a, mkStripeAccount (sa_billing a) None) <$> m) |>.

Lemma relink_elsewhere db : elsewhere db (relink db).
Proof.
  constructor; [done..|]. intros o. simpl. destruct (decide (o = "o2")) as [->|Hne].
  - rewrite lookup_insert_eq. by destruct (sd_accounts db !! "o2").
  - rewrite lookup_insert_ne, lookup_fmap by done. by destruct (sd_accounts db !! o).
Qed.

Lemma relinked_unique : customers_unique (relink (received (dl_event failed_delivery) None stripe_demo)).
Proof.
  intros o o' a a' c Ha Ha' Hc Hc'. simpl in Ha, Ha'.
  assert (∀ o a, (<["o2" := mkStripeAccount (mkAccount "private_beta" None None) (Some "cus_1")]>
      ((λ a, mkStripeAccount (sa_billing a) None) <$> sd_accounts stripe_demo)) !! o = Some a →
    sa_customer a = Some c → o = "o2") as Ho.
  { intros x y [[<- _]|[_ Hy]]%lookup_insert_Some; [done|]. rewrite lookup_fmap in Hy.
    by apply fmap_Some in Hy as (z & _ & ->). }
  by rewrite (Ho o a Ha Hc), (Ho o' a' Ha' Hc').
Qed.

Example relinked_event_is_consumed_witness :
  organization_of "cus_1" (relink stripe_demo) = Some "o2" ∧
  ∃ db', process 5000 relink None (dl_event failed_delivery) stripe_demo = Ok (true, db') ∧
    sd_invoices db' = ∅ ∧ sd_audit db' = [] ∧
    process 6000 id None (dl_event failed_delivery) db' = Ok (false, db').
Proof.
  split; [vm_compute; reflexivity|].
  destruct (relinked_event_is_consumed stripe_demo relink None (dl_event failed_delivery) 5000 "cus_1" "o1" "o2"
    stripe_demo_ok relink_elsewhere) as (db' & Hp & Hi & Ha & _ & _ & Hr);
    [vm_compute; reflexivity..|exact relinked_unique|vm_compute; reflexivity|discriminate|].
  exists db'. split_and!; [exact Hp|exact Hi|exact Ha|exact (Hr db' (rtc_refl _ _) 6000 id None)].
Defined.

Example delinquency_is_open_invoice_witness :
  (∃ account, sd_accounts (deliver stripe_demo failed_delivery) !! "o1" = Some account ∧
     is_Some (delinquent_at (sa_billing account))).
Proof.
  set (db := deliver stripe_demo failed_delivery).
  assert (∃ account, sd_accounts db !! "o1" = Some account) as [account Ha] by (vm_compute; by eexists).
  exists account. split; [exact Ha|].
  refine (proj2 (proj1 (delinquency_is_open_invoice stripe_demo db "o1" account
    sample_policy 0 (mkDelta 0 0 0) []
    (mkBillingTables (sa_billing <$> sd_accounts db) [] [] [])
    stripe_demo_ok _ Ha eq_refl)) _).
  - apply rtc_once. apply (step_process stripe_demo 5000 id None). intros d. apply elsewhere_refl.
  - exists "in_1". eexists. split; vm_compute; reflexivity.
Defined.

Example payment_events_converge_witness :
  sd_invoices (deliver_all stripe_demo [failed_delivery; paid_delivery; failed_delivery]) =
  sd_invoices (deliver_all stripe_demo [paid_delivery; failed_delivery]) ∧
  (iv_failed <$> sd_invoices (deliver_all stripe_demo [paid_delivery; failed_delivery]) !! ("o1", "in_1")) = Some false.
Proof.
  split; [|vm_compute; reflexivity].
  refine (proj1 (payment_events_converge stripe_demo _ _ stripe_demo_ok stripe_demo_unique
    (demo_new_events _ _) (demo_new_events _ _) _)); [set_solver..|].
  intros e. simpl. set_solver.
Defined.

Definition demo_hmac (secret text : string) : string := "0123456789abcdef0123456789abcdef0123456789abcdef0123456789abcdef".
Definition demo_json (s : string) : option json :=
  Some (JObj [("id", JStr "evt_1"); ("type", JStr "invoice.paid"); ("created", JNum (NInt 1));
              ("data", JObj [("object", JObj [("id", JStr "in_1"); ("customer", JStr "cus_1")])])]).
Definition demo_header : string := "t=1700000000,v1=" +:+ demo_hmac "" "".

Example accepted_event_signed_witness :
  is_ok (verifyStripeSignature demo_hmac demo_json "{}" demo_header "whsec" 1700000100 300) = true ∧
  ∃ timestamp, (signatureValues demo_header).1 = NInt timestamp ∧ Z.abs (1700000100 - timestamp) <= 300.
Proof.
  split; [vm_compute; reflexivity|].
  assert (∃ e, verifyStripeSignature demo_hmac demo_json "{}" demo_header "whsec" 1700000100 300 = Ok e) as [e He]
    by (eexists; vm_compute; reflexivity).
  destruct (accepted_event_signed demo_hmac demo_json "{}" demo_header "whsec" 1700000100 300 e He)
    as (timestamp & signature & Ht & _ & _ & Hn & _). exists timestamp. split; [exact Ht|exact Hn].
Defined.
