(* ===== verification/HostCredentials.v ===== *)
(** * The envelope of host credentials

    The class HostCredentialCipher
    (src/apps/nehemiah/src/domain/host-credentials.ts).  AES-256-GCM and base64 are
    Node's and stand behind the interface [CredentialCrypto]. *)

From S2P Require Import Prelude Text Js.

(** [seal key nonce plaintext] is the ciphertext and the tag; [unseal] fails when
    the tag does not authenticate. *)
Class CredentialCrypto := {
  seal : string → string → string → string * string;
  unseal : string → string → string → string → option string;
  base64url : string → string;
  from_base64url : string → string;
  from_base64 : string → string
}.

Inductive CipherError :=
| InvalidCipherKey
| HostTokenTooShort
| InvalidEnvelope
| Unauthenticated.

Section cipher.
Context `{CredentialCrypto}.

Definition decodeKey (encoded : string) : result CipherError string :=
  let key := from_base64 encoded in
  if negb (str_length key =? 32) then Err InvalidCipherKey else Ok key.

Definition encrypt (key nonce value : string) : result CipherError string :=
  if str_length value <? 32 then Err HostTokenTooShort
  else
    let '(ciphertext, tag) := seal key nonce value in
    Ok ("v1" +:+ "." +:+ base64url nonce +:+ "." +:+ base64url ciphertext +:+ "." +:+ base64url tag).

Definition decrypt (key envelope : string) : result CipherError string :=
  match js_split "." envelope with
  | [version; nonceText; ciphertextText; tagText] =>
      if negb (String.eqb version "v1") || String.eqb nonceText "" || String.eqb ciphertextText "" ||
         String.eqb tagText ""
      then Err InvalidEnvelope
      else
        match unseal key (from_base64url nonceText) (from_base64url ciphertextText) (from_base64url tagText) with
        | Some value => Ok value
        | None => Err Unauthenticated
        end
  | _ => Err InvalidEnvelope
  end.

(** What AES-GCM and base64url promise. *)
Record CryptoLaws : Prop := {
  unseal_seal key nonce value :
    unseal key nonce (seal key nonce value).1 (seal key nonce value).2 = Some value;
  base64url_back text : from_base64url (base64url text) = text;
  base64url_empty : from_base64url "" = "";
  base64url_alphabet text : no_char "." (base64url text);
  seal_length key nonce value : str_length (seal key nonce value).1 = str_length value;
  seal_tag key nonce value : (seal key nonce value).2 ≠ ""
}.
End cipher.

(** ** Splitting what was joined *)

Lemma split_list_sep c l t : c ∉ l → split_list c (l ++ c :: t) = l :: split_list c t.
Proof.
  induction l as [|x l IH]; intros Hc; simpl.
  - by rewrite Ascii.eqb_refl.
  - apply not_elem_of_cons in Hc as [Hx Hc]. rewrite IH by done.
    destruct (Ascii.eqb_spec x c); [congruence|done].
Qed.

Lemma split_list_last c l : c ∉ l → split_list c l = [l].
Proof.
  induction l as [|x l IH]; intros Hc; simpl; [done|].
  apply not_elem_of_cons in Hc as [Hx Hc]. rewrite IH by done. destruct (Ascii.eqb_spec x c); [congruence|done].
Qed.

Lemma js_split_sep c s t : no_char c s → js_split c (s +:+ String c t) = s :: js_split c t.
Proof.
  intros Hc. unfold js_split. rewrite list_ascii_app. simpl. rewrite split_list_sep by done. simpl.
  by rewrite string_of_list_ascii_of_string.
Qed.

Lemma js_split_last c s : no_char c s → js_split c s = [s].
Proof.
  intros Hc. unfold js_split. rewrite split_list_last by done. simpl. by rewrite string_of_list_ascii_of_string.
Qed.

Lemma base64url_nonempty `{CredentialCrypto} text : CryptoLaws → text ≠ "" → String.eqb (base64url text) "" = false.
Proof.
  intros Hl Ht. apply String.eqb_neq. intros He. apply Ht.
  by rewrite <- (base64url_back Hl text), He, (base64url_empty Hl).
Qed.

(** What a host's credential is stored as gives the credential back: a token
    long enough to be stored is decrypted, under the same key, to itself. *)
Theorem credential_envelope_roundtrip `{CredentialCrypto} key nonce value :
  CryptoLaws → 32 <= str_length value → nonce ≠ "" →
  ∃ envelope, encrypt key nonce value = Ok envelope ∧ decrypt key envelope = Ok value.
Proof.
  intros Hl Hv Hn. unfold encrypt. destruct (Z.ltb_spec (str_length value) 32) as [?|_]; [lia|].
  destruct (seal key nonce value) as [c t] eqn:Es. eexists. split; [reflexivity|].
  pose proof (seal_length Hl key nonce value) as Hlen. pose proof (seal_tag Hl key nonce value) as Htag.
  pose proof (unseal_seal Hl key nonce value) as Hu. rewrite Es in *. simpl in Hlen, Htag, Hu.
  assert (c ≠ "") as Hc by (intros ->; unfold str_length in *; simpl in Hlen; lia).
  unfold decrypt.
  change ("v1" +:+ "." +:+ base64url nonce +:+ "." +:+ base64url c +:+ "." +:+ base64url t)
    with ("v1" +:+ String "." (base64url nonce +:+ String "." (base64url c +:+ String "." (base64url t)))).
  rewrite (js_split_sep "." "v1") by (unfold no_char; vm_compute; set_solver).
  rewrite !js_split_sep by apply (base64url_alphabet Hl). rewrite js_split_last by apply (base64url_alphabet Hl).
  rewrite !base64url_nonempty by done. simpl. by rewrite !(base64url_back Hl), Hu.
Qed.

(** ** An interface with these properties *)

Definition bit (b : bool) : ascii := if b then "1" else "0".
Definition bits (c : ascii) : list ascii :=
  let '(Ascii b0 b1 b2 b3 b4 b5 b6 b7) := c in map bit [b0; b1; b2; b3; b4; b5; b6; b7].

Fixpoint from_bits (l : list ascii) : list ascii :=
  match l with
  | a0 :: a1 :: a2 :: a3 :: a4 :: a5 :: a6 :: a7 :: l =>
      let one := Ascii.eqb "1" in
      Ascii (one a0) (one a1) (one a2) (one a3) (one a4) (one a5) (one a6) (one a7) :: from_bits l
  | _ => []
  end.

#[export] Instance plain_crypto : CredentialCrypto := {|
  seal _ _ value := (value, "tag");
  unseal _ _ ciphertext _ := Some ciphertext;
  base64url text := string_of_list_ascii (flat_map bits (list_ascii_of_string text));
  from_base64url text := string_of_list_ascii (from_bits (list_ascii_of_string text));
  from_base64 text := text
|}.

Lemma from_bits_back l : from_bits (flat_map bits l) = l.
Proof.
  induction l as [|c l IH]; [done|]. destruct c as [b0 b1 b2 b3 b4 b5 b6 b7]. simpl. rewrite IH.
  by destruct b0, b1, b2, b3, b4, b5, b6, b7.
Qed.

Lemma bits_alphabet l : "."%char ∉ flat_map bits l.
Proof.
  induction l as [|c l IH]; simpl; [set_solver|]. rewrite elem_of_app. intros [Hc|Hc]; [|done].
  destruct c as [b0 b1 b2 b3 b4 b5 b6 b7]. unfold bits in Hc. apply list_elem_of_fmap in Hc as (b & Hb & _).
  by destruct b.
Qed.

Lemma plain_crypto_laws : CryptoLaws.
Proof.
  split; simpl; try done.
  - intros text. by rewrite list_ascii_of_string_of_list_ascii, from_bits_back, string_of_list_ascii_of_string.
  - intros text. unfold no_char. rewrite list_ascii_of_string_of_list_ascii. apply bits_alphabet.
Qed.

Definition demo_token : string := "0123456789abcdef0123456789abcdef".

Lemma credential_envelope_roundtrip_witness :
  ∃ envelope, encrypt "key" "nonce" demo_token = Ok envelope ∧ decrypt "key" envelope = Ok demo_token.
Proof.
  apply (credential_envelope_roundtrip "key" "nonce" demo_token); [exact plain_crypto_laws|vm_compute; discriminate|discriminate].
Defined.
