(* ===== verification/Hosts.v ===== *)
(** * Hosts

    The class HostService (src/apps/nehemiah/src/domain/hosts.ts): enrollment
    grants, registration, heartbeats and the lifecycle of hosts and of their
    credentials.  One definition per statement; [HostService] holds the methods that
    await them.  [fleet_row] is what the scheduler sees of a host.  The columns
    [created_at], [updated_at] and [lifecycle_updated_at] are left out: no statement
    here reads them. *)

From S2P Require Import Prelude Text Js Capacity Cohort Lifecycle Billing Fleet NetworkPolicy.
From S2P Require Import Awaiting HostCredentials.

(** ** Rows *)

Inductive HostDesiredState := Active | Draining | Quarantined | Revoked.
Inductive HostCredentialStatus := CredentialActive | CredentialRevoked.

#[export] Instance HostDesiredState_eq : EqDecision HostDesiredState.
Proof. solve_decision. Defined.
#[export] Instance HostCredentialStatus_eq : EqDecision HostCredentialStatus.
Proof. solve_decision. Defined.

(** The columns [runtime_*], all or none of which are set. *)
Record CohortColumns := mkCohortColumns {
  cc_id : string;
  cc_version : Z;
  cc_arch : string;
  cc_kernel : string;
  cc_firecracker : string;
  cc_jailer : string;
  cc_python : string;
  cc_desktop : string
}.
#[export] Instance CohortColumns_eq : EqDecision CohortColumns.
Proof. solve_decision. Defined.

(** A row of [hosts], by its id; an address is what PostgreSQL prints. *)
Record HostRecord := mkHostRecord {
  hr_provider_id : string;
  hr_region_id : string;
  hr_address : string;
  hr_architecture : Architecture;
  hr_state : HostState;
  hr_desired_state : HostDesiredState;
  hr_credential_status : HostCredentialStatus;
  hr_credential_hash : option string;
  hr_control_ciphertext : option string;
  hr_gateway_ciphertext : option string;
  hr_credential_generation : Z;
  hr_credential_rotated_at : Z;
  hr_credential_revoked_at : option Z;
  hr_enrollment_completed_at : option Z;
  hr_last_heartbeat_at : option Z;
  hr_daemon_version : string;
  hr_total : Resources;
  hr_reserved : Resources;
  hr_reported_vcpus : option Z;
  hr_reported_memory_mb : option Z;
  hr_reported_disk_mb : option Z;
  hr_reported_machine_count : option Z;
  hr_lifecycle_reason : option string;
  hr_cohort : option CohortColumns
}.
#[export] Instance HostRecord_eta : Settable HostRecord := λ r,
  mkHostRecord (hr_provider_id r) (hr_region_id r) (hr_address r) (hr_architecture r) (hr_state r)
    (hr_desired_state r) (hr_credential_status r) (hr_credential_hash r) (hr_control_ciphertext r)
    (hr_gateway_ciphertext r) (hr_credential_generation r) (hr_credential_rotated_at r)
    (hr_credential_revoked_at r) (hr_enrollment_completed_at r) (hr_last_heartbeat_at r)
    (hr_daemon_version r) (hr_total r) (hr_reserved r) (hr_reported_vcpus r) (hr_reported_memory_mb r)
    (hr_reported_disk_mb r) (hr_reported_machine_count r) (hr_lifecycle_reason r) (hr_cohort r).

(** A row of [host_enrollment_grants], by its id. *)
Record GrantRow := mkGrantRow {
  ge_token_hash : string;
  ge_host_id : string;
  ge_provider_id : string;
  ge_region_id : string;
  ge_address : string;
  ge_architecture : Architecture;
  ge_total : Resources;
  ge_issued_by_organization_id : string;
  ge_issued_by_user_id : string;
  ge_expires_at : Z;
  ge_consumed_at : option Z;
  ge_revoked_at : option Z;
  ge_cohort : CohortColumns
}.
#[export] Instance GrantRow_eta : Settable GrantRow := λ r,
  mkGrantRow (ge_token_hash r) (ge_host_id r) (ge_provider_id r) (ge_region_id r) (ge_address r)
    (ge_architecture r) (ge_total r) (ge_issued_by_organization_id r) (ge_issued_by_user_id r)
    (ge_expires_at r) (ge_consumed_at r) (ge_revoked_at r) (ge_cohort r).

(** A row of [host_heartbeats], by its host and slot. *)
Record HeartbeatSample := mkSample {
  hs_observed_at : Z;
  hs_state : HostState;
  hs_available : Resources;
  hs_machine_count : Z;
  hs_kvm_available : bool;
  hs_daemon_version : string;
  hs_credential_generation : Z;
  hs_cohort : CohortColumns
}.

Record HostDb := mkHostDb {
  host_records : gmap string HostRecord;
  enrollment_grants : gmap string GrantRow;
  heartbeat_samples : gmap (string * Z) HeartbeatSample;
  enabled_regions : gset string;
  operator_organizations : gset string
}.
#[export] Instance HostDb_eta : Settable HostDb := λ r,
  mkHostDb (host_records r) (enrollment_grants r) (heartbeat_samples r) (enabled_regions r)
    (operator_organizations r).

Inductive HostError :=
| HostEnrollmentError (code message : string)
| HostHeartbeatError (code message : string) (retryAfterSeconds : option Z)
| HostCohortRejected (code : string) (e : InvalidRuntimeCohort)
| HostCipherError (e : CipherError)
| HostDatabaseError (constraint : string)
| HostPlainError (message : string).

Abbreviation HostTx := (Tx HostDb HostError).
Abbreviation HostWorld := (World HostDb Empty_set).
Abbreviation HostAct := (Act HostWorld HostError).

#[export] Instance host_errors : Thrown HostError HostError := {|
  thrown := id;
  connection_lost := HostPlainError "database connection lost"
|}.

(** ** What the scheduler sees *)

Definition desired_text (d : HostDesiredState) : string :=
  match d with
  | Active => "active" | Draining => "draining" | Quarantined => "quarantined" | Revoked => "revoked"
  end.
Definition status_text (s : HostCredentialStatus) : string :=
  match s with CredentialActive => "active" | CredentialRevoked => "revoked" end.

Definition fleet_row (h : HostRecord) : HostRow :=
  mkHost (hr_address h) (hr_region_id h) (hr_architecture h) (hr_state h) (desired_text (hr_desired_state h))
    (status_text (hr_credential_status h)) (hr_last_heartbeat_at h) (hr_total h) (hr_reserved h)
    (hr_reported_vcpus h) (hr_reported_memory_mb h) (hr_reported_disk_mb h)
    (cc_id <$> hr_cohort h) (cc_python <$> hr_cohort h) (cc_desktop <$> hr_cohort h).

(** ** Validation *)

Record HostIdentity := mkHostIdentity {
  hi_provider_id : string;
  hi_region_id : string;
  hi_address : string;
  hi_architecture : Architecture;
  hi_total_vcpus : number;
  hi_total_memory_mb : number;
  hi_total_disk_mb : number;
  hi_cohort : RuntimeCohort
}.

Definition host_name (others : string) : re :=
  Cat (Chr alnum) (rep 0 127 (Chr (λ c, alnum c || one_of others c))).
Definition providerPattern : re := host_name "._-".
Definition daemonVersionPattern : re := host_name "._+-".

Definition token_char (c : ascii) : bool := alnum c || one_of "_-" c.
Definition enrollmentTokenPattern : re := Cat (lit "nhe_") (rep_exact 43 (Chr token_char)).

Definition invalid_enrollment (message : string) : HostError := HostEnrollmentError "invalid_host_enrollment" message.

Definition bounded_total (name : string) (value : number) (maximum : Z) : result HostError Z :=
  match safe_between 1 maximum value with
  | Some n => Ok n
  | None => Err (invalid_enrollment (name +:+ " must be a bounded positive integer"))
  end.

Definition validateHostIdentity `{NodeNet} (allowed : list Subnet) (input : HostIdentity)
    : result HostError Resources :=
  if negb (test providerPattern (hi_provider_id input))
  then Err (invalid_enrollment "providerId is required and invalid")
  else
    v ← bounded_total "totalVcpus" (hi_total_vcpus input) 4096;
    m ← bounded_total "totalMemoryMb" (hi_total_memory_mb input) 16777216;
    d ← bounded_total "totalDiskMb" (hi_total_disk_mb input) 9007199254740991;
    match isIP (hi_address input) with
    | Some version =>
        if check allowed (hi_address input) version then Ok (mkResources v m d)
        else Err (invalid_enrollment "host address must be a literal IP in the managed overlay network")
    | None => Err (invalid_enrollment "host address must be a literal IP in the managed overlay network")
    end.

Definition validateCohort (sha256 : string → string) (cohort : RuntimeCohort) (architecture : Architecture)
    : result HostError RuntimeCohort :=
  match parseRuntimeCohort sha256 (runtimeCohortWire cohort) (Some architecture) with
  | Ok c => Ok c
  | Err e => Err (HostCohortRejected "invalid_host_enrollment" e)
  end.

Definition validateHostCredentials (controlToken gatewayToken : string) (enrollmentToken : option string)
    : result HostError unit :=
  if (str_length controlToken <? 32) || (str_length gatewayToken <? 32) ||
     String.eqb controlToken gatewayToken ||
     bool_decide (Some controlToken = enrollmentToken) || bool_decide (Some gatewayToken = enrollmentToken)
  then Err (invalid_enrollment "host control, gateway, and enrollment credentials must be strong and distinct")
  else Ok tt.

Definition checkedReason (reason fallback : string) : result HostError string :=
  let normalized := if String.eqb (js_trim reason) "" then fallback else js_trim reason in
  if 512 <? str_length normalized
  then Err (HostPlainError "host lifecycle reason must not exceed 512 characters") else Ok normalized.

(** The managed overlay network, from the CIDRs of the configuration. *)
Definition addManagedCidr `{NodeNet} (cidr : string) (block : list Subnet) : result HostError (list Subnet) :=
  let error := Err (HostPlainError ("invalid managed-host CIDR: " +:+ cidr)) in
  match js_split "/" cidr with
  | [network; prefixText] =>
      if String.eqb network "" then error
      else
        match isIP network with
        | None => error
        | Some v =>
            match safe_between 0 (maximum_prefix v) (js_Number prefixText) with
            | None => error
            | Some prefix => Ok (block ++ [mkSubnet network prefix v])
            end
        end
  | _ => error
  end.

Fixpoint addManagedCidrs `{NodeNet} (cidrs : list string) (block : list Subnet) : result HostError (list Subnet) :=
  match cidrs with
  | [] => Ok block
  | cidr :: cidrs => block ← addManagedCidr cidr block; addManagedCidrs cidrs block
  end.

(** The constructor of [HostService]. *)
Definition newHostService `{NodeNet} (allowedCidrs : list string) (expectedDaemonVersion : option string)
    : result HostError (list Subnet) :=
  if match expectedDaemonVersion with Some v => negb (test daemonVersionPattern v) | None => false end
  then Err (HostPlainError "expected managed-host daemon version is invalid")
  else addManagedCidrs allowedCidrs [].

(** ** Statements

    [inet] is what PostgreSQL prints for an address, and [array_text] what the
    driver sends for a value that is no string. *)

Section statements.
Context (inet : string → string) (array_text : json → string).

Definition cohort_columns (c : RuntimeCohort) : CohortColumns :=
  mkCohortColumns (rc_id c) (rc_contractVersion c)
    (match rc_arch c with JStr s => s | v => array_text v end)
    (rc_kernelSha256 c) (rc_firecrackerSha256 c) (rc_jailerSha256 c) (rc_pythonRootfsSha256 c)
    (rc_desktopRootfsSha256 c).

Definition pending_grant (g : GrantRow) : bool :=
  bool_decide (ge_consumed_at g = None) && bool_decide (ge_revoked_at g = None).

(** [WHERE token_hash = $1 AND consumed_at IS NULL ...] *)
Definition grant_matches (now : Z) (tokenHash : string) (input : HostIdentity) (total : Resources)
    (cohort : CohortColumns) (g : GrantRow) : bool :=
  String.eqb (ge_token_hash g) tokenHash && pending_grant g && (now <? ge_expires_at g) &&
  String.eqb (ge_provider_id g) (hi_provider_id input) && String.eqb (ge_region_id g) (hi_region_id input) &&
  String.eqb (ge_address g) (inet (hi_address input)) &&
  bool_decide (ge_architecture g = hi_architecture input) && bool_decide (ge_total g = total) &&
  bool_decide (ge_cohort g = cohort).

Definition matching_grant (db : HostDb) (now : Z) (tokenHash : string) (input : HostIdentity)
    (total : Resources) (cohort : CohortColumns) : option (string * GrantRow) :=
  find (λ kv, grant_matches now tokenHash input total cohort kv.2) (map_to_list (enrollment_grants db)).

Definition host_of_provider (db : HostDb) (provider : string) : option (string * HostRecord) :=
  find (λ kv, String.eqb (hr_provider_id kv.2) provider) (map_to_list (host_records db)).

(** Another host has the address. *)
Definition address_taken (db : HostDb) (id address : string) : bool :=
  existsb (λ kv : string * HostRecord, negb (String.eqb kv.1 id) && String.eqb (hr_address kv.2) address)
    (map_to_list (host_records db)).

Record RegisterColumns := mkRegister {
  rg_identity : HostIdentity;
  rg_total : Resources;
  rg_cohort : CohortColumns;
  rg_token_hash : string;
  rg_credential_hash : string;
  rg_control_ciphertext : string;
  rg_gateway_ciphertext : string
}.

Definition new_host (now : Z) (r : RegisterColumns) : HostRecord :=
  let i := rg_identity r in
  mkHostRecord (hi_provider_id i) (hi_region_id i) (inet (hi_address i)) (hi_architecture i) HostUnhealthy
    Active CredentialActive (Some (rg_credential_hash r)) (Some (rg_control_ciphertext r))
    (Some (rg_gateway_ciphertext r)) 1 now None None None "unknown" (rg_total r) rzero None None None None
    None (Some (rg_cohort r)).

Definition reregistered_host (now : Z) (r : RegisterColumns) (h : HostRecord) : HostRecord :=
  let i := rg_identity r in
  h <| hr_region_id := hi_region_id i |> <| hr_address := inet (hi_address i) |>
    <| hr_architecture := hi_architecture i |> <| hr_state := HostUnhealthy |>
    <| hr_credential_hash := Some (rg_credential_hash r) |>
    <| hr_control_ciphertext := Some (rg_control_ciphertext r) |>
    <| hr_gateway_ciphertext := Some (rg_gateway_ciphertext r) |>
    <| hr_credential_generation ::= Z.add 1 |> <| hr_credential_status := CredentialActive |>
    <| hr_credential_rotated_at := now |> <| hr_credential_revoked_at := None |>
    <| hr_total := rg_total r |> <| hr_cohort := Some (rg_cohort r) |>.

Definition set_host (id : string) (h : HostRecord) (db : HostDb) : HostDb := db <| host_records ::= <[id := h]> |>.

(** The trigger [hosts_runtime_cohort_immutable]. *)
Definition cohort_immutable (h : HostRecord) (cohort : CohortColumns) : bool :=
  match hr_cohort h with Some c => bool_decide (c = cohort) | None => true end.

(** The host may be enrolled again. *)
Definition enrollable (h : HostRecord) : bool :=
  bool_decide (hr_enrollment_completed_at h = None) && bool_decide (hr_desired_state h = Active) &&
  bool_decide (hr_credential_status h = CredentialActive).

Definition claim_grant (now : Z) (id : string) (db : HostDb) : HostDb :=
  db <| enrollment_grants ::= alter (λ g, g <| ge_consumed_at := Some now |>) id |>.

(** [INSERT INTO hosts ... ON CONFLICT (provider_id) DO UPDATE ... WHERE]: the
    generation of the host the grant is for, nothing when the update is skipped. *)
Definition upsert_host (now : Z) (r : RegisterColumns) (hostId : string) : HostTx (option Z) := λ db,
  let address := inet (hi_address (rg_identity r)) in
  match host_of_provider db (hi_provider_id (rg_identity r)) with
  | None =>
      if bool_decide (is_Some (host_records db !! hostId)) then Err (HostDatabaseError "hosts_pkey")
      else if address_taken db hostId address then Err (HostDatabaseError "hosts_address_key")
      else Ok (Some 1, set_host hostId (new_host now r) db)
  | Some (id, h) =>
      if String.eqb id hostId && enrollable h then
        if negb (cohort_immutable h (rg_cohort r)) then Err (HostDatabaseError "host runtime cohort is immutable")
        else if address_taken db id address then Err (HostDatabaseError "hosts_address_key")
        else Ok (Some (hr_credential_generation h + 1), set_host id (reregistered_host now r h) db)
      else Ok (None, db)
  end.

(** The statement of [register]; the claim of the grant commits even when the
    host is not updated. *)
Definition register_statement (now : Z) (r : RegisterColumns) : HostTx (option (string * string * Z)) := λ db,
  match matching_grant db now (rg_token_hash r) (rg_identity r) (rg_total r) (rg_cohort r) with
  | None => Ok (None, db)
  | Some (grantId, g) =>
      (generation ← upsert_host now r (ge_host_id g);
       mret ((λ n, (ge_host_id g, grantId, n)) <$> generation)) (claim_grant now grantId db)
  end.

Record IssueColumns := mkIssue {
  is_id : string;
  is_identity : HostIdentity;
  is_total : Resources;
  is_cohort : CohortColumns;
  is_organization_id : string;
  is_user_id : string;
  is_ttl_seconds : Z;
  is_reserved_host_id : string;
  is_token_hash : string
}.

Definition revoke_pending (now : Z) (provider : string) (g : GrantRow) : GrantRow :=
  if String.eqb (ge_provider_id g) provider && pending_grant g then g <| ge_revoked_at := Some now |> else g.

(** [INSERT INTO host_enrollment_grants], with the unique indexes of migration
    0017. *)
Definition insert_grant (id : string) (g : GrantRow) : HostTx unit := λ db,
  let clash (p : GrantRow → bool) := existsb (λ kv : string * GrantRow, p kv.2) (map_to_list (enrollment_grants db)) in
  if bool_decide (is_Some (enrollment_grants db !! id)) then Err (HostDatabaseError "host_enrollment_grants_pkey")
  else if clash (λ x, String.eqb (ge_token_hash x) (ge_token_hash g))
  then Err (HostDatabaseError "host_enrollment_grants_token_hash_key")
  else if clash (λ x, pending_grant x && String.eqb (ge_provider_id x) (ge_provider_id g))
  then Err (HostDatabaseError "host_enrollment_grants_active_provider_idx")
  else if clash (λ x, pending_grant x && String.eqb (ge_host_id x) (ge_host_id g))
  then Err (HostDatabaseError "host_enrollment_grants_active_host_idx")
  else if clash (λ x, pending_grant x && String.eqb (ge_address x) (ge_address g))
  then Err (HostDatabaseError "host_enrollment_grants_active_address_idx")
  else Ok (tt, db <| enrollment_grants ::= <[id := g]> |>).

(** The host the grant is for, when the provider's host may be enrolled. *)
Definition eligible_host (db : HostDb) (r : IssueColumns) : option string :=
  let i := is_identity r in
  if negb (bool_decide (hi_region_id i ∈ enabled_regions db)) then None
  else
    match host_of_provider db (hi_provider_id i) with
    | None => Some (is_reserved_host_id r)
    | Some (id, h) =>
        if enrollable h && String.eqb (hr_region_id h) (hi_region_id i) &&
           String.eqb (hr_address h) (inet (hi_address i)) &&
           bool_decide (hr_architecture h = hi_architecture i)
        then Some id else None
    end.

Definition issued_grant (now : Z) (r : IssueColumns) (hostId : string) : GrantRow :=
  let i := is_identity r in
  mkGrantRow (is_token_hash r) hostId (hi_provider_id i) (hi_region_id i) (inet (hi_address i))
    (hi_architecture i) (is_total r) (is_organization_id r) (is_user_id r)
    (now + is_ttl_seconds r * msPerSecond) None None (is_cohort r).

(** The statement of [issueEnrollment]. *)
Definition issue_statement (now : Z) (r : IssueColumns) : HostTx (option (string * Z)) := λ db,
  match eligible_host db r with
  | None => Ok (None, db)
  | Some hostId =>
      let g := issued_grant now r hostId in
      (_ ← insert_grant (is_id r) g; mret (Some (hostId, ge_expires_at g)))
        (db <| enrollment_grants ::= fmap (revoke_pending now (hi_provider_id (is_identity r))) |>)
  end.

Definition revoke_statement (now : Z) (grantId : string) : HostTx bool := λ db,
  match enrollment_grants db !! grantId with
  | Some g =>
      if pending_grant g
      then Ok (true, db <| enrollment_grants ::= <[grantId := g <| ge_revoked_at := Some now |>]> |>)
      else Ok (false, db)
  | None => Ok (false, db)
  end.

(** The host may act: not stale, serving, with an active credential. *)
Definition in_service (h : HostRecord) : bool :=
  negb (bool_decide (hr_state h = HostStale)) &&
  (bool_decide (hr_desired_state h = Active) || bool_decide (hr_desired_state h = Draining)) &&
  bool_decide (hr_credential_status h = CredentialActive).

Definition serving (db : HostDb) (hostId : string) : option HostRecord :=
  h ← host_records db !! hostId; if in_service h then Some h else None.

(** ** Heartbeats *)

Record HeartbeatColumns := mkHeartbeat {
  hb_state : HostState;
  hb_daemon_version : string;
  hb_available : Resources;
  hb_machine_count : Z;
  hb_kvm_available : bool;
  hb_generation : Z;
  hb_cohort : CohortColumns
}.

Inductive HeartbeatOutcome := Accepted | RateLimited | Conflict | InvalidHeartbeat.

(** A condition over nullable columns. *)
Definition sql_and (a : option bool) (b : bool) : option bool :=
  match a with Some x => Some (x && b) | None => if b then None else Some false end.

Definition cohort_matches (h : HostRecord) (b : HeartbeatColumns) : option bool :=
  c ← hr_cohort h; Some (bool_decide (c = hb_cohort b)).

Definition resources_valid (h : HostRecord) (b : HeartbeatColumns) : bool := resources_le (hb_available b) (hr_total h).

Definition cadence_valid (now : Z) (h : HostRecord) : bool :=
  match hr_last_heartbeat_at h with Some t => t <=? now - 5000 | None => true end.

Definition heartbeat_state (h : HostRecord) (b : HeartbeatColumns) : HostState :=
  match hr_state h with
  | HostStale => HostStale
  | _ =>
      match hb_state b with
      | HostUnhealthy => HostUnhealthy
      | s => if bool_decide (hr_desired_state h = Draining) then HostDraining else s
      end
  end.

Definition beating_host (now : Z) (b : HeartbeatColumns) (h : HostRecord) : HostRecord :=
  h <| hr_state := heartbeat_state h b |> <| hr_last_heartbeat_at := Some now |>
    <| hr_enrollment_completed_at := coalesce (hr_enrollment_completed_at h) (Some now) |>
    <| hr_daemon_version := hb_daemon_version b |>
    <| hr_reported_vcpus := Some (vcpus (hb_available b)) |>
    <| hr_reported_memory_mb := Some (memoryMb (hb_available b)) |>
    <| hr_reported_disk_mb := Some (diskMb (hb_available b)) |>
    <| hr_reported_machine_count := Some (hb_machine_count b) |>.

(** [mod(floor(extract(epoch FROM ...) / 300)::bigint, 1024)] *)
Definition sample_slot (now : Z) : Z := Z.rem (now / (300 * msPerSecond)) 1024.

Definition sample (now : Z) (b : HeartbeatColumns) (state : HostState) : HeartbeatSample :=
  mkSample now state (hb_available b) (hb_machine_count b) (hb_kvm_available b) (hb_daemon_version b)
    (hb_generation b) (hb_cohort b).

Definition heartbeat_statement (now : Z) (hostId : string) (b : HeartbeatColumns) : HostTx HeartbeatOutcome := λ db,
  match serving db hostId with
  | Some h =>
      if negb (hr_credential_generation h =? hb_generation b) then Ok (Conflict, db)
      else
        match sql_and (cohort_matches h b) (resources_valid h b), cadence_valid now h with
        | Some false, _ => Ok (InvalidHeartbeat, db)
        | _, false => Ok (RateLimited, db)
        | Some true, true =>
            let h' := beating_host now b h in
            Ok (Accepted, set_host hostId h' db
                  <| heartbeat_samples ::= <[(hostId, sample_slot now) := sample now b (hr_state h')]> |>)
        | None, true => Ok (Conflict, db)
        end
  | None => Ok (Conflict, db)
  end.

(** ** Lifecycle *)

Definition stale_candidate (now staleAfterMs : Z) (h : HostRecord) : bool :=
  negb (bool_decide (hr_state h = HostStale)) &&
  (bool_decide (hr_desired_state h = Active) || bool_decide (hr_desired_state h = Draining)) &&
  bool_decide (hr_credential_status h = CredentialActive) &&
  match hr_last_heartbeat_at h with Some t => t <? now - staleAfterMs | None => true end.

Definition markStale (now staleAfterMs : Z) : HostTx (list string) := λ db,
  Ok (map fst (List.filter (λ kv, stale_candidate now staleAfterMs kv.2) (map_to_list (host_records db))),
      db <| host_records ::= fmap (λ h, if stale_candidate now staleAfterMs h
                                       then h <| hr_state := HostStale |> else h) |>).

Record HostLifecycle := mkLifecycle {
  lc_id : string;
  lc_desired_state : HostDesiredState;
  lc_credential_generation : Z;
  lc_credential_status : HostCredentialStatus;
  lc_credential_rotated_at : Z;
  lc_credential_revoked_at : option Z;
  lc_lifecycle_reason : option string
}.

Definition lifecycle (id : string) (h : HostRecord) : HostLifecycle :=
  mkLifecycle id (hr_desired_state h) (hr_credential_generation h) (hr_credential_status h)
    (hr_credential_rotated_at h) (hr_credential_revoked_at h) (hr_lifecycle_reason h).

(** [UPDATE hosts SET ... WHERE id = $1 AND ... RETURNING] *)
Definition update_host (id : string) (guard : HostRecord → bool) (f : HostRecord → HostRecord)
    : HostTx (option HostLifecycle) := λ db,
  match host_records db !! id with
  | Some h => if guard h then Ok (Some (lifecycle id (f h)), set_host id (f h) db) else Ok (None, db)
  | None => Ok (None, db)
  end.

Definition unreported (h : HostRecord) : HostRecord :=
  h <| hr_reported_vcpus := None |> <| hr_reported_memory_mb := None |> <| hr_reported_disk_mb := None |>
    <| hr_reported_machine_count := None |>.

Definition drain_statement (id reason : string) : HostTx (option HostLifecycle) :=
  update_host id
    (λ h, negb (bool_decide (hr_desired_state h = Quarantined)) && negb (bool_decide (hr_desired_state h = Revoked)) &&
          bool_decide (hr_credential_status h = CredentialActive))
    (λ h, h <| hr_desired_state := Draining |>
            <| hr_state := if bool_decide (hr_state h = HostReady) then HostDraining else HostUnhealthy |>
            <| hr_lifecycle_reason := Some reason |>).

Definition activate_statement (id reason : string) : HostTx (option HostLifecycle) :=
  update_host id
    (λ h, negb (bool_decide (hr_desired_state h = Revoked)) && bool_decide (hr_credential_status h = CredentialActive))
    (λ h, unreported h <| hr_desired_state := Active |> <| hr_state := HostUnhealthy |>
            <| hr_lifecycle_reason := Some reason |>).

(** What quarantine and revocation share. *)
Definition shut_out (now : Z) (desired : HostDesiredState) (reason : string) (h : HostRecord) : HostRecord :=
  h <| hr_desired_state := desired |> <| hr_state := HostStale |> <| hr_credential_status := CredentialRevoked |>
    <| hr_credential_hash := None |> <| hr_control_ciphertext := None |> <| hr_gateway_ciphertext := None |>
    <| hr_credential_revoked_at := coalesce (hr_credential_revoked_at h) (Some now) |>
    <| hr_reported_vcpus := Some 0 |> <| hr_reported_memory_mb := Some 0 |> <| hr_reported_disk_mb := Some 0 |>
    <| hr_reported_machine_count := None |> <| hr_lifecycle_reason := Some reason |>.

Definition quarantine_statement (now : Z) (id reason : string) : HostTx (option HostLifecycle) :=
  update_host id (λ h, negb (bool_decide (hr_desired_state h = Revoked))) (shut_out now Quarantined reason).

(** The UPDATE of metering's [quarantineHost]: a host whose reports do not add up. *)
Definition metering_quarantined_host (now : Z) (reason : string) (h : HostRecord) : HostRecord :=
  (shut_out now Quarantined reason h)
    <| hr_credential_generation := hr_credential_generation h + 1 |> <| hr_reported_machine_count := Some 0 |>.

Definition metering_quarantine_statement (now : Z) (id reason : string) : HostTx (option HostLifecycle) :=
  update_host id
    (λ h, negb (bool_decide (hr_desired_state h = Quarantined)) && negb (bool_decide (hr_desired_state h = Revoked)))
    (metering_quarantined_host now reason).

Definition revoke_host_statement (now : Z) (id reason : string) : HostTx (option HostLifecycle) :=
  update_host id (λ _, true) (shut_out now Revoked reason).

Definition rotated_host (now : Z) (credentialHash control gateway reason : string) (h : HostRecord) : HostRecord :=
  let quarantined := bool_decide (hr_desired_state h = Quarantined) in
  unreported h <| hr_desired_state := if quarantined then hr_desired_state h else Draining |>
    <| hr_state := if quarantined then HostStale else HostUnhealthy |>
    <| hr_credential_hash := Some credentialHash |> <| hr_control_ciphertext := Some control |>
    <| hr_gateway_ciphertext := Some gateway |> <| hr_credential_generation ::= Z.add 1 |>
    <| hr_credential_status := CredentialActive |> <| hr_credential_rotated_at := now |>
    <| hr_credential_revoked_at := None |> <| hr_lifecycle_reason := Some reason |>.

Definition rotate_statement (now : Z) (id credentialHash control gateway reason : string)
    : HostTx (option HostLifecycle) :=
  update_host id (λ h, negb (bool_decide (hr_desired_state h = Revoked)))
    (rotated_host now credentialHash control gateway reason).

Definition isOperatorOrganization (db : HostDb) (organization : string) : bool :=
  bool_decide (organization ∈ operator_organizations db).

(** [PostgresHostCredentialResolver.resolve], up to decryption. *)
Definition credential_of_address (db : HostDb) (address : string) : option string :=
  kv ← find (λ kv : string * HostRecord, String.eqb (hr_address kv.2) (inet address) && in_service kv.2)
         (map_to_list (host_records db));
  hr_control_ciphertext kv.2.
End statements.
