(* ===== verification/HostService.v ===== *)
(** * The host service

    The methods of HostService (src/apps/nehemiah/src/domain/hosts.ts) as
    procedures over the statements of Hosts.  Argon2, SHA-256, random values and
    what PostgreSQL and the driver print are parameters. *)

From S2P Require Import Prelude Text Js Capacity Cohort Lifecycle Billing Fleet NetworkPolicy.
From S2P Require Import Awaiting HostCredentials Hosts.

(** What a host reports, before it is checked. *)
Record HostHeartbeat := mkHostHeartbeat {
  hh_state : HostState;
  hh_available_vcpus : number;
  hh_available_memory_mb : number;
  hh_available_disk_mb : number;
  hh_machine_count : number;
  hh_kvm_available : bool;
  hh_daemon_version : string;
  hh_cohort : RuntimeCohort
}.

Record RegisterHost := mkRegisterHost {
  rh_identity : HostIdentity;
  rh_control_token : string;
  rh_gateway_token : string
}.

Record Registered := mkRegistered {
  rd_id : string;
  rd_grant_id : string;
  rd_credential : string;
  rd_credential_generation : Z
}.

Record IssueHostEnrollment := mkIssueHost {
  ih_identity : HostIdentity;
  ih_ttl_seconds : number;
  ih_issued_by_organization_id : string;
  ih_issued_by_user_id : string
}.

Record HostEnrollmentGrant := mkEnrollmentGrant {
  eg_id : string;
  eg_host_id : string;
  eg_token : string;
  eg_expires_at : Z
}.

Definition invalid_heartbeat (message : string) : HostError := HostHeartbeatError "invalid_host_heartbeat" message None.

Definition inactive_grant : HostError :=
  HostEnrollmentError "invalid_enrollment_grant" "The host enrollment grant is invalid or no longer active.".

Section service.
Context `{NodeNet} `{CredentialCrypto}.
Context (schedule : nat → Turn HostDb) (inet : string → string) (array_text : json → string).
Context (sha256 : string → string) (argon2_hash : string → string → string)
  (argon2_verify : string → string → bool).
Context (cipher_key : string) (allowed : list Subnet) (expectedDaemonVersion : option string).

Definition host_statement {A} (t : Turn HostDb → HostTx A) : HostAct A := await schedule t.
Definition host_select {A} (f : Turn HostDb → HostDb → A) : HostAct A := query schedule f.
Definition host_clock : HostAct (Turn HostDb) := draw schedule.

Definition encrypted (nonce value : string) : result HostError string :=
  match encrypt cipher_key nonce value with Ok c => Ok c | Err e => Err (HostCipherError e) end.

Definition decrypted (envelope : string) : result HostError string :=
  match decrypt cipher_key envelope with Ok c => Ok c | Err e => Err (HostCipherError e) end.

(** The random identifiers come without their dashes. *)
Definition newHostCredential (t : Turn HostDb) : string * string :=
  let credential := "nh_" +:+ t_random t 0 +:+ t_random t 1 in
  (credential, argon2_hash (t_random t 2) credential).

(** ** Enrollment *)

Definition register (enrollmentToken : string) (input : RegisterHost) : HostAct Registered :=
  let i := rh_identity input in
  total ← lift (validateHostIdentity allowed i);
  cohort ← lift (validateCohort sha256 (hi_cohort i) (hi_architecture i));
  _ ← lift (if test enrollmentTokenPattern enrollmentToken then Ok tt else Err inactive_grant);
  _ ← lift (validateHostCredentials (rh_control_token input) (rh_gateway_token input) (Some enrollmentToken));
  let tokenHash := sha256 enrollmentToken in
  let columns := cohort_columns array_text cohort in
  eligible ← host_select (λ t db, matching_grant inet db (t_clock t) tokenHash i total columns);
  match eligible with
  | None => athrow inactive_grant
  | Some _ =>
      t ← host_clock;
      control ← lift (encrypted (t_random t 3) (rh_control_token input));
      gateway ← lift (encrypted (t_random t 4) (rh_gateway_token input));
      let '(credential, credentialHash) := newHostCredential t in
      registered ← host_statement (λ t', register_statement inet (t_clock t')
        (mkRegister i total columns tokenHash credentialHash control gateway));
      match registered with
      | Some (id, grantId, generation) => mret (mkRegistered id grantId credential generation)
      | None => athrow inactive_grant
      end
  end.

Definition issueEnrollment (input : IssueHostEnrollment) : HostAct HostEnrollmentGrant :=
  let i := ih_identity input in
  total ← lift (validateHostIdentity allowed i);
  cohort ← lift (validateCohort sha256 (hi_cohort i) (hi_architecture i));
  ttl ← lift match safe_between 60 1800 (ih_ttl_seconds input) with
             | Some n => Ok n
             | None => Err (invalid_enrollment "ttlSeconds must be an integer between 60 and 1800")
             end;
  _ ← lift (if negb (test uuidPattern (ih_issued_by_organization_id input)) ||
               String.eqb (js_trim (ih_issued_by_user_id input)) ""
            then Err (invalid_enrollment "an issuing organization and user are required") else Ok tt);
  t ← host_clock;
  let id := t_random t 0 in
  let token := "nhe_" +:+ t_random t 2 in
  grant ← host_statement (λ t', issue_statement inet (t_clock t')
    (mkIssue id i total (cohort_columns array_text cohort) (uuid_text (ih_issued_by_organization_id input))
       (ih_issued_by_user_id input) ttl (t_random t 1) (sha256 token)));
  match grant with
  | Some (hostId, expiresAt) => mret (mkEnrollmentGrant id hostId token expiresAt)
  | None => athrow (HostEnrollmentError "host_not_enrollable"
                      "The provider host is already enrolled or is not eligible for enrollment.")
  end.

Definition revokeEnrollment (grantId : string) : HostAct bool :=
  host_statement (λ t, revoke_statement (t_clock t) grantId).

(** ** Credentials *)

Definition gatewayCredential (hostId : string) : HostAct (option string) :=
  found ← host_select (λ _ db, h ← serving db hostId; hr_gateway_ciphertext h);
  match (found : option string) with
  | Some envelope => if String.eqb envelope "" then mret None
                     else value ← lift (decrypted envelope); mret (Some value)
  | None => mret None
  end.

(** [row?.credential_hash && (await verify(...))] *)
Definition authenticated_generation (credential : string) (h : HostRecord) : option Z :=
  match hr_credential_hash h with
  | Some c => if negb (String.eqb c "") && argon2_verify c credential then Some (hr_credential_generation h) else None
  | None => None
  end.

Definition authenticateGeneration (hostId credential : string) : HostAct (option Z) :=
  found ← host_select (λ _ db, serving db hostId);
  mret (h ← (found : option HostRecord); authenticated_generation credential h).

Definition authenticate (hostId credential : string) : HostAct bool :=
  generation ← authenticateGeneration hostId credential;
  mret (bool_decide (is_Some (generation : option Z))).

Definition resolve (address : string) : HostAct string :=
  found ← host_select (λ _ db, credential_of_address inet db address);
  match (found : option string) with
  | Some envelope => if String.eqb envelope "" then athrow (HostPlainError "no active credential exists for the host address")
                     else lift (decrypted envelope)
  | None => athrow (HostPlainError "no active credential exists for the host address")
  end.

(** ** Heartbeats *)

Definition nonnegative (name : string) (value : number) : result HostError Z :=
  match value with
  | NInt z => if isSafeInteger value && (0 <=? z) then Ok z
              else Err (invalid_heartbeat (name +:+ " must be a bounded non-negative integer"))
  | NNonInt => Err (invalid_heartbeat (name +:+ " must be a bounded non-negative integer"))
  end.

Definition validateHeartbeat (b : HostHeartbeat) (generation : number) : result HostError HeartbeatColumns :=
  match generation with
  | NInt g =>
      if negb (isSafeInteger generation) || (g <=? 0) then Err (HostPlainError "credentialGeneration must be positive")
      else
        v ← nonnegative "availableVcpus" (hh_available_vcpus b);
        m ← nonnegative "availableMemoryMb" (hh_available_memory_mb b);
        d ← nonnegative "availableDiskMb" (hh_available_disk_mb b);
        n ← nonnegative "machineCount" (hh_machine_count b);
        if (10000 <? n) || (4096 <? v) || (16777216 <? m) || (max_safe_integer <? d) ||
           negb (test daemonVersionPattern (hh_daemon_version b))
        then Err (invalid_heartbeat "heartbeat capacity or daemon version is invalid")
        else if match expectedDaemonVersion with
                | Some expected => negb (String.eqb (hh_daemon_version b) expected) | None => false end
        then Err (invalid_heartbeat "heartbeat daemon version is not approved for this control-plane release")
        else
          match parseRuntimeCohort sha256 (runtimeCohortWire (hh_cohort b)) None with
          | Err e => Err (HostCohortRejected "invalid_host_heartbeat" e)
          | Ok cohort =>
              Ok (mkHeartbeat (if hh_kvm_available b then hh_state b else HostUnhealthy) (hh_daemon_version b)
                    (mkResources v m d) n (hh_kvm_available b) g (cohort_columns array_text cohort))
          end
  | NNonInt => Err (HostPlainError "credentialGeneration must be positive")
  end.

Definition heartbeat (hostId : string) (b : HostHeartbeat) (generation : number) : HostAct bool :=
  columns ← lift (validateHeartbeat b generation);
  outcome ← host_statement (λ t, heartbeat_statement (t_clock t) hostId columns);
  match outcome with
  | InvalidHeartbeat =>
      athrow (invalid_heartbeat "heartbeat capacity or runtime cohort does not match the enrolled host")
  | RateLimited =>
      athrow (HostHeartbeatError "host_heartbeat_rate_limited"
                "heartbeat cadence exceeds the durable per-host limit" (Some 5))
  | Accepted => mret true
  | Conflict => mret false
  end.

(** ** Lifecycle *)

Definition mark_stale (staleAfterMs : Z) : HostAct (list string) :=
  host_statement (λ t, markStale (t_clock t) staleAfterMs).

Definition drain (hostId reason : string) : HostAct (option HostLifecycle) :=
  r ← lift (checkedReason reason "operator requested drain");
  host_statement (λ _, drain_statement hostId r).

Definition activate (hostId reason : string) : HostAct (option HostLifecycle) :=
  r ← lift (checkedReason reason "operator requested activation");
  host_statement (λ _, activate_statement hostId r).

Definition setDraining (hostId : string) (draining : bool) : HostAct bool :=
  r ← (if draining then drain hostId "operator requested drain"
       else activate hostId "operator requested activation");
  mret (bool_decide (is_Some (r : option HostLifecycle))).

Definition quarantine (hostId reason : string) : HostAct (option HostLifecycle) :=
  r ← lift (checkedReason reason "operator quarantined host");
  host_statement (λ t, quarantine_statement (t_clock t) hostId r).

Definition revoke (hostId reason : string) : HostAct (option HostLifecycle) :=
  r ← lift (checkedReason reason "operator revoked host");
  host_statement (λ t, revoke_host_statement (t_clock t) hostId r).

Definition rotateCredentials (hostId controlToken gatewayToken reason : string)
    : HostAct (option (HostLifecycle * string)) :=
  _ ← lift (validateHostCredentials controlToken gatewayToken None);
  t ← host_clock;
  control ← lift (encrypted (t_random t 3) controlToken);
  gateway ← lift (encrypted (t_random t 4) gatewayToken);
  let '(credential, credentialHash) := newHostCredential t in
  r ← lift (checkedReason reason "operator rotated host credentials");
  updated ← host_statement (λ t', rotate_statement (t_clock t') hostId credentialHash control gateway r);
  mret ((λ l, (l, credential)) <$> (updated : option HostLifecycle)).

Definition operator_organization (organizationId : string) : HostAct bool :=
  host_select (λ _ db, isOperatorOrganization db (uuid_text organizationId)).
End service.
