(* ===== verification/HostSteps.v ===== *)
(** * Steps of the host tables

    The transactions of the host service, and metering's quarantine of a host, as
    steps, what each does to the row of one host, the order in which rows only move
    forward and the invariant of the tables. *)

From S2P Require Import Prelude Text Js Capacity Cohort Lifecycle Billing Fleet NetworkPolicy.
From S2P Require Import Awaiting HostCredentials Hosts VolumeInv HostService.

(** What the remaining writers of [hosts] change: the scheduler, the repository of
    machines and the reconciler reserve and release capacity, metering stamps its
    last batch; regions and operators are configured. *)
Record host_environment (db db' : HostDb) : Prop := {
  he_records id : option_relation (λ h h', ∃ r, h' = h <| hr_reserved := r |>) (λ _, False) (λ _, False)
    (host_records db !! id) (host_records db' !! id);
  he_grants : enrollment_grants db' = enrollment_grants db;
  he_samples : heartbeat_samples db' = heartbeat_samples db
}.

Section steps.
Context (inet : string → string).

Inductive host_transaction : HostDb → HostDb → Prop :=
| ht_register now r a db db' : register_statement inet now r db = Ok (a, db') → host_transaction db db'
| ht_issue now r a db db' : issue_statement inet now r db = Ok (a, db') → host_transaction db db'
| ht_revoke_grant now id a db db' : revoke_statement now id db = Ok (a, db') → host_transaction db db'
| ht_heartbeat now id b a db db' : 0 <= now → heartbeat_statement now id b db = Ok (a, db') → host_transaction db db'
| ht_stale now ms a db db' : markStale now ms db = Ok (a, db') → host_transaction db db'
| ht_drain id reason a db db' : drain_statement id reason db = Ok (a, db') → host_transaction db db'
| ht_activate id reason a db db' : activate_statement id reason db = Ok (a, db') → host_transaction db db'
| ht_quarantine now id reason a db db' : quarantine_statement now id reason db = Ok (a, db') → host_transaction db db'
| ht_revoke now id reason a db db' : revoke_host_statement now id reason db = Ok (a, db') → host_transaction db db'
| ht_rotate now id c k g reason a db db' :
    rotate_statement now id c k g reason db = Ok (a, db') → host_transaction db db'
| ht_metering now id reason a db db' :
    metering_quarantine_statement now id reason db = Ok (a, db') → host_transaction db db'.

Inductive host_step (db db' : HostDb) : Prop :=
| hs_transaction : host_transaction db db' → host_step db db'
| hs_environment : host_environment db db' → host_step db db'.

Abbreviation host_steps := (rtc host_step).

(** ** What a step does to a row *)

Inductive record_move (h : HostRecord) : HostRecord → Prop :=
| rm_register now r :
    enrollable h = true → cohort_immutable h (rg_cohort r) = true → record_move h (reregistered_host inet now r h)
| rm_heartbeat now b :
    in_service h = true → hr_credential_generation h = hb_generation b → cadence_valid now h = true →
    cohort_matches h b = Some true → resources_valid h b = true → record_move h (beating_host now b h)
| rm_stale : in_service h = true → record_move h (h <| hr_state := HostStale |>)
| rm_drain reason :
    hr_desired_state h ≠ Quarantined → hr_desired_state h ≠ Revoked → hr_credential_status h = CredentialActive →
    record_move h (h <| hr_desired_state := Draining |>
            <| hr_state := if bool_decide (hr_state h = HostReady) then HostDraining else HostUnhealthy |>
            <| hr_lifecycle_reason := Some reason |>)
| rm_activate reason :
    hr_desired_state h ≠ Revoked → hr_credential_status h = CredentialActive →
    record_move h (unreported h <| hr_desired_state := Active |> <| hr_state := HostUnhealthy |>
            <| hr_lifecycle_reason := Some reason |>)
| rm_shut_out now desired reason :
    desired = Revoked ∨ desired = Quarantined ∧ hr_desired_state h ≠ Revoked →
    record_move h (shut_out now desired reason h)
| rm_rotate now c k g reason :
    hr_desired_state h ≠ Revoked → record_move h (rotated_host now c k g reason h)
| rm_metering now reason :
    hr_desired_state h ≠ Quarantined → hr_desired_state h ≠ Revoked →
    record_move h (metering_quarantined_host now reason h).

(** ** What persists *)

Record record_le (h h' : HostRecord) : Prop := {
  rl_provider : hr_provider_id h' = hr_provider_id h;
  rl_generation : hr_credential_generation h <= hr_credential_generation h';
  (** credentials change with the generation *)
  rl_credential : hr_credential_generation h' = hr_credential_generation h →
    hr_credential_hash h' = hr_credential_hash h ∨ hr_credential_hash h' = None;
  rl_revoked_credential : hr_credential_generation h' = hr_credential_generation h →
    hr_credential_status h = CredentialRevoked → hr_credential_status h' = CredentialRevoked;
  rl_revoked : hr_desired_state h = Revoked → hr_credential_status h = CredentialRevoked →
    hr_desired_state h' = Revoked ∧ hr_credential_generation h' = hr_credential_generation h;
  rl_cohort c : hr_cohort h = Some c → hr_cohort h' = Some c;
  rl_enrolled t : hr_enrollment_completed_at h = Some t → hr_enrollment_completed_at h' = Some t;
  rl_heartbeat t : hr_last_heartbeat_at h = Some t → ∃ t', hr_last_heartbeat_at h' = Some t' ∧ t <= t'
}.

#[export] Instance record_le_preorder : PreOrder record_le.
Proof.
  split.
  - intros h. split; try done; try lia; try by left. intros t Ht. exists t. split; [done|lia].
  - intros a b c [] []. split.
    + congruence.
    + lia.
    + intros E. destruct rl_credential1 as [->| ->]; [lia|apply rl_credential0; lia|by right].
    + intros E Hs. apply rl_revoked_credential1; [lia|]. apply rl_revoked_credential0; [lia|done].
    + intros Hd Hs. destruct (rl_revoked0 Hd Hs) as [Hd' Eg].
      destruct (rl_revoked1 Hd' (rl_revoked_credential0 Eg Hs)) as [? ?]. split; [done|congruence].
    + auto.
    + auto.
    + intros t Ht. destruct (rl_heartbeat0 t Ht) as (t1 & Ht1 & ?), (rl_heartbeat1 t1 Ht1) as (t2 & Ht2 & ?).
      exists t2. split; [done|lia].
Qed.

Lemma move_record_le h h' : record_move h h' → record_le h h'.
Proof.
  destruct 1 as [now r He Hc|now b Hs Hg Hcad Hm Hr|Hs|reason H1 H2 H3|reason H1 H2|now desired reason Hd|now c k g reason Hd
    |now reason Hq Hr].
  - unfold enrollable in He. bool_simp. split; simpl; try done; try lia; try congruence.
    + intros c Ec. unfold cohort_immutable in Hc. rewrite Ec in Hc. bool_simp. congruence.
    + intros t Ht. exists t. split; [done|lia].
  - split; simpl; try done; try lia; try by left.
    + intros t Ht. by rewrite Ht.
    + intros t Ht. unfold cadence_valid in Hcad. rewrite Ht in Hcad. exists now. split; [done|lia].
  - split; simpl; try done; try lia; try by left. intros t Ht. exists t. split; [done|lia].
  - split; simpl; try done; try lia; try by left; try congruence. intros t Ht. exists t. split; [done|lia].
  - split; simpl; try done; try lia; try by left; try congruence. intros t Ht. exists t. split; [done|lia].
  - split; simpl; try done; try lia; try by right.
    + intros Hr _. destruct Hd as [->|[_ Hn]]; [done|contradiction].
    + intros t Ht. exists t. split; [done|lia].
  - split; simpl; try done; try lia; try congruence. intros t Ht. exists t. split; [done|lia].
  - split; simpl; try done; try lia; try congruence. intros t Ht. exists t. split; [done|lia].
Qed.

Lemma reserved_record_le h r : record_le h (h <| hr_reserved := r |>).
Proof. split; simpl; try done; try lia; try by left. intros t Ht. exists t. split; [done|lia]. Qed.

Lemma move_reserved h h' : record_move h h' → hr_reserved h' = hr_reserved h.
Proof. by destruct 1. Qed.

(** ** Every transaction moves rows *)

Definition records_move (db db' : HostDb) : Prop :=
  ∀ id h, host_records db !! id = Some h → ∃ h', host_records db' !! id = Some h' ∧ (h' = h ∨ record_move h h').

Lemma update_host_Ok id guard f db a db' :
  update_host id guard f db = Ok (a, db') →
  (a = None ∧ db' = db) ∨
  ∃ h, host_records db !! id = Some h ∧ guard h = true ∧ db' = set_host id (f h) db ∧ a = Some (lifecycle id (f h)).
Proof.
  unfold update_host. destruct (host_records db !! id) as [h|] eqn:Eh; [|intros [= <- <-]; by left].
  destruct (guard h) eqn:Eg; intros [= <- <-]; [right; by exists h|by left].
Qed.

Lemma set_host_moves id h h' db :
  host_records db !! id = Some h → record_move h h' → records_move db (set_host id h' db).
Proof.
  intros Hh Hm i x Hx. simpl. destruct (decide (i = id)) as [->|Hn].
  - rewrite lookup_insert_eq. simplify_eq. eauto.
  - rewrite lookup_insert_ne by done. eauto.
Qed.

Lemma records_move_refl db : records_move db db.
Proof. intros i h Hh. eauto. Qed.

Lemma records_move_same db db' : host_records db' = host_records db → records_move db db'.
Proof. intros E i h Hh. rewrite E. eauto. Qed.

Lemma update_host_moves id guard f db a db' :
  (∀ h, guard h = true → record_move h (f h)) → update_host id guard f db = Ok (a, db') →
  records_move db db' ∧ enrollment_grants db' = enrollment_grants db ∧ heartbeat_samples db' = heartbeat_samples db.
Proof.
  intros Hf [[_ ->]|(h & Hh & Hg & -> & _)]%update_host_Ok; [by split; [apply records_move_refl|]|].
  split; [|done]. apply (set_host_moves id h); [done|by apply Hf].
Qed.

Lemma host_of_provider_Some db provider id h :
  host_of_provider db provider = Some (id, h) → host_records db !! id = Some h ∧ hr_provider_id h = provider.
Proof.
  intros [Hin Hp]%find_some. apply list_elem_of_In, elem_of_map_to_list in Hin. simpl in Hp. by bool_simp.
Qed.

Lemma host_of_provider_None db provider id h :
  host_of_provider db provider = None → host_records db !! id = Some h → hr_provider_id h ≠ provider.
Proof.
  intros Hf Hh E. assert (String.eqb (hr_provider_id (id, h).2) provider = false) as Hp.
  { apply (find_none _ _ Hf). by apply list_elem_of_In, elem_of_map_to_list. }
  simpl in Hp. by rewrite E, String.eqb_refl in Hp.
Qed.

Lemma address_taken_false db id address :
  address_taken db id address = false →
  ∀ j h, host_records db !! j = Some h → j ≠ id → hr_address h ≠ address.
Proof.
  intros Hf j h Hh Hn E. assert (address_taken db id address = true); [|congruence].
  apply existsb_exists. exists (j, h). split; [by apply list_elem_of_In, elem_of_map_to_list|]. simpl.
  rewrite E, String.eqb_refl. by destruct (String.eqb_spec j id).
Qed.

(** What a registration does to the table of hosts. *)
Lemma upsert_host_Ok now r hostId db a db' :
  upsert_host inet now r hostId db = Ok (a, db') →
  (a = None ∧ db' = db) ∨
  (a = Some 1 ∧ host_records db !! hostId = None ∧ db' = set_host hostId (new_host inet now r) db ∧
   (∀ i h, host_records db !! i = Some h → hr_provider_id h ≠ hi_provider_id (rg_identity r)) ∧
   ∀ i h, host_records db !! i = Some h → i ≠ hostId → hr_address h ≠ inet (hi_address (rg_identity r))) ∨
  ∃ h, host_records db !! hostId = Some h ∧ hr_provider_id h = hi_provider_id (rg_identity r) ∧
    enrollable h = true ∧ cohort_immutable h (rg_cohort r) = true ∧ a = Some (hr_credential_generation h + 1) ∧
    db' = set_host hostId (reregistered_host inet now r h) db ∧
    ∀ i h, host_records db !! i = Some h → i ≠ hostId → hr_address h ≠ inet (hi_address (rg_identity r)).
Proof.
  unfold upsert_host. destruct (host_of_provider _ _) as [[id h]|] eqn:Ep.
  - apply host_of_provider_Some in Ep as [Hh Hp]. destruct (String.eqb_spec id hostId) as [->|_]; simpl;
      [|intros [= <- <-]; by left].
    destruct (enrollable h) eqn:Ee; [|intros [= <- <-]; by left].
    destruct (cohort_immutable h _) eqn:Ec; simpl; [|done].
    destruct (address_taken _ _ _) eqn:Ea; [done|]. intros Hx. injection Hx as <- <-. right. right. exists h.
    split_and!; try done. by apply address_taken_false.
  - destruct (bool_decide (is_Some (host_records db !! hostId))) eqn:En; [done|].
    destruct (address_taken _ _ _) eqn:Ea; [done|]. intros Hx. injection Hx as <- <-. right. left.
    split_and!; try done.
    + bool_simp. destruct (host_records db !! hostId) eqn:E; [exfalso; apply En; by eexists|done].
    + intros i h Hh. by apply (host_of_provider_None db _ i).
    + by apply address_taken_false.
Qed.

Lemma upsert_host_moves now r hostId db a db' :
  upsert_host inet now r hostId db = Ok (a, db') → records_move db db'.
Proof.
  intros [[_ ->]|[(_ & Hn & -> & _)|(h & Hh & _ & He & Hc & _ & -> & _)]]%upsert_host_Ok.
  - apply records_move_refl.
  - intros i h Hh. simpl. rewrite lookup_insert_ne by congruence. eauto.
  - apply (set_host_moves hostId h); [done|by apply rm_register].
Qed.

Lemma matching_grant_Some db now tokenHash input total cohort id g :
  matching_grant inet db now tokenHash input total cohort = Some (id, g) →
  enrollment_grants db !! id = Some g ∧ grant_matches inet now tokenHash input total cohort g = true.
Proof.
  intros [Hin Hp]%find_some. split; [|done]. by apply elem_of_map_to_list, list_elem_of_In.
Qed.

Lemma register_statement_Ok now r db a db' :
  register_statement inet now r db = Ok (a, db') →
  (a = None ∧ db' = db) ∨
  ∃ id g n, enrollment_grants db !! id = Some g ∧
    grant_matches inet now (rg_token_hash r) (rg_identity r) (rg_total r) (rg_cohort r) g = true ∧
    upsert_host inet now r (ge_host_id g) (claim_grant now id db) = Ok (n, db') ∧
    a = (λ n, (ge_host_id g, id, n)) <$> n.
Proof.
  unfold register_statement. destruct (matching_grant _ _ _ _ _ _ _) as [[id g]|] eqn:Eg; [|intros [= <- <-]; by left].
  apply matching_grant_Some in Eg as [Hg Hm]. intros Hx. apply tx_bind_Ok in Hx as (n & db1 & Hu & Hx).
  injection Hx as <- <-. right. by exists id, g, n.
Qed.

Lemma serving_Some db id h : serving db id = Some h → host_records db !! id = Some h ∧ in_service h = true.
Proof. unfold serving. intros Hs. apply bind_Some in Hs as (x & Hx & Hs). destruct (in_service x) eqn:E; [|done]. by injection Hs as ->. Qed.

Lemma heartbeat_statement_Ok now id b db a db' :
  heartbeat_statement now id b db = Ok (a, db') →
  (a ≠ Accepted ∧ db' = db) ∨
  ∃ h, serving db id = Some h ∧ hr_credential_generation h = hb_generation b ∧ cadence_valid now h = true ∧
    cohort_matches h b = Some true ∧ resources_valid h b = true ∧ a = Accepted ∧
    db' = set_host id (beating_host now b h) db
            <| heartbeat_samples ::= <[(id, sample_slot now) := sample now b (hr_state (beating_host now b h))]> |>.
Proof.
  unfold heartbeat_statement. destruct (serving db id) as [h|]; [|intros [= <- <-]; by left].
  destruct (Z.eqb_spec (hr_credential_generation h) (hb_generation b)) as [Eg|_]; simpl; [|intros [= <- <-]; by left].
  destruct (sql_and _ _) as [[]|] eqn:Es; [| |].
  - destruct (cadence_valid now h) eqn:Ec; [|intros [= <- <-]; by left]. intros Hx. injection Hx as <- <-. right.
    exists h. unfold sql_and in Es. destruct (cohort_matches h b) as [m|]; [|destruct (resources_valid h b); done].
    injection Es as Es. apply andb_true_iff in Es as [-> Es]. by split_and!.
  - destruct (cadence_valid now h); intros [= <- <-]; by left.
  - destruct (cadence_valid now h); intros [= <- <-]; by left.
Qed.

Lemma transaction_moves db db' : host_transaction db db' → records_move db db'.
Proof.
  destruct 1 as [now r a db db' Hx|now r a db db' Hx|now id a db db' Hx|now id b a db db' _ Hx|now ms a db db' Hx
    |id reason a db db' Hx|id reason a db db' Hx|now id reason a db db' Hx|now id reason a db db' Hx
    |now id c k g reason a db db' Hx|now id reason a db db' Hx].
  - apply register_statement_Ok in Hx as [[_ ->]|(id & g & n & _ & _ & Hu & _)]; [apply records_move_refl|].
    by apply upsert_host_moves in Hu.
  - unfold issue_statement in Hx. destruct (eligible_host _ _ _) as [h|]; [|injection Hx as _ <-; apply records_move_refl].
    apply tx_bind_Ok in Hx as (u & db1 & Hi & Hx). injection Hx as _ <-. unfold insert_grant in Hi.
    repeat (destruct (bool_decide _) || destruct (existsb _ _)); try done. injection Hi as _ <-. by apply records_move_same.
  - unfold revoke_statement in Hx. destruct (enrollment_grants db !! id) as [g|]; [destruct (pending_grant g)|];
      injection Hx as _ <-; by apply records_move_same.
  - apply heartbeat_statement_Ok in Hx as [[_ ->]|(h & Hs & Hg & Hc & Hm & Hr & _ & ->)]; [apply records_move_refl|].
    apply serving_Some in Hs as [Hh Hs]. assert (record_move h (beating_host now b h)) as Hmv by by apply rm_heartbeat.
    intros i x Hx. destruct (set_host_moves id h _ db Hh Hmv i x Hx) as (x' & Hx' & Hor). by exists x'.
  - unfold markStale in Hx. injection Hx as _ <-. intros i h Hh. simpl. rewrite lookup_fmap, Hh. simpl.
    eexists. split; [reflexivity|]. destruct (stale_candidate now ms h) eqn:E; [|by left]. right. apply rm_stale.
    unfold stale_candidate in E. apply andb_true_iff in E as [E _]. exact E.
  - eapply update_host_moves; [|exact Hx]. intros h Hg. simpl in Hg. bool_simp. by apply rm_drain.
  - eapply update_host_moves; [|exact Hx]. intros h Hg. simpl in Hg. bool_simp. by apply rm_activate.
  - eapply update_host_moves; [|exact Hx]. intros h Hg. simpl in Hg. bool_simp. apply rm_shut_out. by right.
  - eapply update_host_moves; [|exact Hx]. intros h _. apply rm_shut_out. by left.
  - eapply update_host_moves; [|exact Hx]. intros h Hg. simpl in Hg. bool_simp. by apply rm_rotate.
  - eapply update_host_moves; [|exact Hx]. intros h Hg. simpl in Hg. bool_simp. by apply rm_metering.
Qed.

Lemma step_records db db' id h :
  host_step db db' → host_records db !! id = Some h → ∃ h', host_records db' !! id = Some h' ∧ record_le h h'.
Proof.
  intros [Ht|He] Hh.
  - destruct (transaction_moves _ _ Ht id h Hh) as (h' & Hh' & [->|Hm]); [by exists h|].
    exists h'. split; [done|]. by apply move_record_le.
  - pose proof (he_records _ _ He id) as Hr. rewrite Hh in Hr. destruct (host_records db' !! id) as [h'|]; [|done].
    destruct Hr as [r ->]. eexists. split; [done|]. apply reserved_record_le.
Qed.

Lemma steps_records db db' id h :
  host_steps db db' → host_records db !! id = Some h → ∃ h', host_records db' !! id = Some h' ∧ record_le h h'.
Proof.
  intros Hs. revert h. induction Hs as [db|db db1 db' H1 _ IH]; intros h Hh; [by exists h|].
  destruct (step_records db db1 id h H1 Hh) as (h1 & Hh1 & Hle). destruct (IH h1 Hh1) as (h' & Hh' & Hle').
  exists h'. split; [done|]. by transitivity h1.
Qed.

(** ** The invariant *)

Record host_row_ok (h : HostRecord) : Prop := {
  ho_active : hr_credential_status h = CredentialActive →
    is_Some (hr_credential_hash h) ∧ is_Some (hr_control_ciphertext h) ∧ is_Some (hr_gateway_ciphertext h) ∧
    hr_credential_revoked_at h = None;
  ho_revoked : hr_credential_status h = CredentialRevoked →
    hr_credential_hash h = None ∧ hr_control_ciphertext h = None ∧ hr_gateway_ciphertext h = None ∧
    is_Some (hr_credential_revoked_at h) ∧ (hr_desired_state h = Quarantined ∨ hr_desired_state h = Revoked);
  ho_out : hr_desired_state h = Quarantined ∨ hr_desired_state h = Revoked → hr_state h = HostStale;
  ho_final : hr_desired_state h = Revoked → hr_credential_status h = CredentialRevoked;
  ho_generation : 1 <= hr_credential_generation h;
  ho_enrolled : is_Some (hr_last_heartbeat_at h) → is_Some (hr_enrollment_completed_at h);
  ho_cohort : is_Some (hr_cohort h)
}.

Lemma in_service_spec h :
  in_service h = true ↔
  hr_state h ≠ HostStale ∧ (hr_desired_state h = Active ∨ hr_desired_state h = Draining) ∧
  hr_credential_status h = CredentialActive.
Proof.
  unfold in_service. rewrite !andb_true_iff, orb_true_iff, negb_true_iff, bool_decide_eq_false, !bool_decide_eq_true. tauto.
Qed.

Lemma new_host_ok now r : host_row_ok (new_host inet now r).
Proof. split; simpl; try done; try lia; try (by eexists); by intros [|]. Qed.

(** What remains of a row is trivial, an option that is set, or two desired
    states told apart. *)
Ltac row_ok :=
  split; simpl; try done; try lia; try (by eexists); try congruence; try (by intros [|]); try (intros [|]; congruence).

Lemma move_ok h h' : record_move h h' → host_row_ok h → host_row_ok h'.
Proof.
  intros Hm [Ha Hr Ho Hf Hg He Hc].
  destruct Hm as [now r Hen Hci|now b Hs Hgen Hcad Hm Hres|Hs|reason H1 H2 H3|reason H1 H2|now desired reason Hd|now c k g reason Hd
    |now reason H1 H2].
  - unfold enrollable in Hen. bool_simp. row_ok.
  - apply in_service_spec in Hs as (Hs1 & Hs2 & Hs3). row_ok.
    + intros [Hx|Hx]; destruct Hs2; congruence.
    + intros _. destruct (hr_enrollment_completed_at h); by eexists.
  - row_ok.
  - row_ok.
  - row_ok.
  - row_ok. intros _. split_and!; try done; [by destruct (hr_credential_revoked_at h); eexists|destruct Hd as [->|[-> _]]; auto].
  - destruct (bool_decide (hr_desired_state h = Quarantined)) eqn:E; row_ok; rewrite ?E;
      try (intros _; by split_and!; eexists); try done; try (by intros [|]).
  - row_ok. intros _. split_and!; try done; [by destruct (hr_credential_revoked_at h); eexists|by left].
Qed.

Lemma reserved_ok h r : host_row_ok h → host_row_ok (h <| hr_reserved := r |>).
Proof. intros []. by split. Qed.

Record host_db_ok (db : HostDb) : Prop := {
  hd_row id h : host_records db !! id = Some h → host_row_ok h;
  hd_provider i j h h' : host_records db !! i = Some h → host_records db !! j = Some h' →
    hr_provider_id h = hr_provider_id h' → i = j;
  hd_address i j h h' : host_records db !! i = Some h → host_records db !! j = Some h' →
    hr_address h = hr_address h' → i = j;
  hd_token i j g g' : enrollment_grants db !! i = Some g → enrollment_grants db !! j = Some g' →
    ge_token_hash g = ge_token_hash g' → i = j;
  hd_pending i j g g' : enrollment_grants db !! i = Some g → enrollment_grants db !! j = Some g' →
    pending_grant g = true → pending_grant g' = true →
    ge_provider_id g = ge_provider_id g' ∨ ge_host_id g = ge_host_id g' ∨ ge_address g = ge_address g' → i = j;
  hd_grant id g : enrollment_grants db !! id = Some g → ge_consumed_at g = None ∨ ge_revoked_at g = None;
  hd_sample id slot x : heartbeat_samples db !! (id, slot) = Some x →
    0 <= slot < 1024 ∧ is_Some (host_records db !! id)
}.

(** ** Every step keeps it *)

(** Grants whose rows only stop being pending. *)
Record grant_le (g g' : GrantRow) : Prop := {
  gl_token : ge_token_hash g' = ge_token_hash g;
  gl_host : ge_host_id g' = ge_host_id g;
  gl_provider : ge_provider_id g' = ge_provider_id g;
  gl_address : ge_address g' = ge_address g;
  gl_settled : pending_grant g = false →
    ge_consumed_at g' = ge_consumed_at g ∧ ge_revoked_at g' = ge_revoked_at g;
  gl_one : ge_consumed_at g = None ∨ ge_revoked_at g = None → ge_consumed_at g' = None ∨ ge_revoked_at g' = None
}.

#[export] Instance grant_le_preorder : PreOrder grant_le.
Proof.
  split; [by split|]. intros a b c [] []. split; try congruence; [|auto].
  intros Hp. destruct (gl_settled0 Hp) as [E1 E2]. destruct gl_settled1 as [E3 E4]; [|split; congruence].
  unfold pending_grant in *. by rewrite E1, E2.
Qed.

Lemma grant_le_pending g g' : grant_le g g' → pending_grant g' = true → pending_grant g = true.
Proof.
  intros [] Hp. destruct (pending_grant g) eqn:E; [done|]. destruct (gl_settled0 eq_refl) as [E1 E2].
  unfold pending_grant in *. by rewrite E1, E2, E in Hp.
Qed.

Lemma settle_le g c r :
  pending_grant g = true → c = None ∨ r = None →
  grant_le g (g <| ge_consumed_at := c |> <| ge_revoked_at := r |>).
Proof. intros Hp Ho. split; simpl; try done. congruence. Qed.

(** Grants settled one by one keep what the invariant says of them. *)
Definition grants_le (m m' : gmap string GrantRow) : Prop :=
  ∀ id g', m' !! id = Some g' → ∃ g, m !! id = Some g ∧ grant_le g g'.

Lemma grants_le_refl m : grants_le m m.
Proof. intros id g Hg. by exists g. Qed.

Record hosts_grow (db db' : HostDb) : Prop := {
  hg_old id h : host_records db !! id = Some h →
    ∃ h', host_records db' !! id = Some h' ∧ hr_provider_id h' = hr_provider_id h;
  hg_row id h' : host_records db' !! id = Some h' → host_row_ok h';
  hg_provider i j h h' : host_records db' !! i = Some h → host_records db' !! j = Some h' →
    hr_provider_id h = hr_provider_id h' → i = j;
  hg_address i j h h' : host_records db' !! i = Some h → host_records db' !! j = Some h' →
    hr_address h = hr_address h' → i = j
}.

Lemma hosts_grow_same db db' : host_db_ok db → host_records db' = host_records db → hosts_grow db db'.
Proof. intros [] E. split; rewrite ?E; try done. intros id h Hh. by exists h. Qed.

(** A row changes, its provider does not. *)
Lemma hosts_grow_set db id h h' db' :
  host_db_ok db → host_records db !! id = Some h → host_records db' = <[id := h']> (host_records db) →
  host_row_ok h' → hr_provider_id h' = hr_provider_id h →
  (∀ j x, host_records db !! j = Some x → j ≠ id → hr_address x ≠ hr_address h') → hosts_grow db db'.
Proof.
  intros [Hrow Hprov Haddr _ _ _ _] Hh E Hok Hp Ha. split; rewrite ?E.
  - intros i x Hx. destruct (decide (i = id)) as [->|Hn].
    + rewrite lookup_insert_eq. simplify_eq. eauto.
    + rewrite lookup_insert_ne by done. eauto.
  - intros i x Hx. apply lookup_insert_Some in Hx as [[<- <-]|[_ Hx]]; [done|by apply (Hrow i)].
  - intros i j x y Hx Hy Exy. apply lookup_insert_Some in Hx as [[<- <-]|[Hni Hx]], Hy as [[<- <-]|[Hnj Hy]]; try done.
    + apply (Hprov id j h y); [done..|congruence].
    + apply (Hprov i id x h); [done..|congruence].
    + by apply (Hprov i j x y).
  - intros i j x y Hx Hy Exy. apply lookup_insert_Some in Hx as [[<- <-]|[Hni Hx]], Hy as [[<- <-]|[Hnj Hy]]; try done.
    + exfalso. apply (Ha j y Hy); congruence.
    + exfalso. apply (Ha i x Hx); congruence.
    + by apply (Haddr i j x y).
Qed.

Lemma ok_by_parts db db' :
  host_db_ok db → hosts_grow db db' → grants_le (enrollment_grants db) (enrollment_grants db') →
  (∀ id slot x, heartbeat_samples db' !! (id, slot) = Some x →
     is_Some (heartbeat_samples db !! (id, slot)) ∨ 0 <= slot < 1024 ∧ is_Some (host_records db' !! id)) →
  host_db_ok db'.
Proof.
  intros Hok [Hold Hrow Hprov Haddr] Hgr Hs. split; try done.
  - intros i j g g' Hg Hg' E. destruct (Hgr i g Hg) as (x & Hx & Lx), (Hgr j g' Hg') as (y & Hy & Ly).
    apply (hd_token _ Hok i j x y Hx Hy). by rewrite <- (gl_token _ _ Lx), <- (gl_token _ _ Ly).
  - intros i j g g' Hg Hg' P P' E. destruct (Hgr i g Hg) as (x & Hx & Lx), (Hgr j g' Hg') as (y & Hy & Ly).
    apply (hd_pending _ Hok i j x y Hx Hy); [by eapply grant_le_pending..|].
    by rewrite <- (gl_provider _ _ Lx), <- (gl_provider _ _ Ly), <- (gl_host _ _ Lx), <- (gl_host _ _ Ly),
      <- (gl_address _ _ Lx), <- (gl_address _ _ Ly).
  - intros i g Hg. destruct (Hgr i g Hg) as (x & Hx & Lx). apply (gl_one _ _ Lx), (hd_grant _ Hok i x Hx).
  - intros i slot x Hx. destruct (Hs i slot x Hx) as [[y Hy]|Hnew]; [|done].
    destruct (hd_sample _ Hok i slot y Hy) as [Hslot [h Hh]]. destruct (Hold i h Hh) as (h' & Hh' & _).
    split; [done|by eexists].
Qed.

Lemma samples_stay db db' :
  heartbeat_samples db' = heartbeat_samples db → ∀ id slot x, heartbeat_samples db' !! (id, slot) = Some x →
  is_Some (heartbeat_samples db !! (id, slot)) ∨ 0 <= slot < 1024 ∧ is_Some (host_records db' !! id).
Proof. intros -> id slot x Hx. left. by eexists. Qed.

Lemma update_host_ok id guard f db a db' :
  host_db_ok db → (∀ h, guard h = true → record_move h (f h)) →
  (∀ h, hr_provider_id (f h) = hr_provider_id h ∧ hr_address (f h) = hr_address h) →
  update_host id guard f db = Ok (a, db') → host_db_ok db'.
Proof.
  intros Hok Hf Hsame [[_ ->]|(h & Hh & Hg & -> & _)]%update_host_Ok; [done|].
  apply (ok_by_parts db); [done| |apply grants_le_refl|by apply samples_stay].
  apply (hosts_grow_set db id h (f h)); try done.
  - eapply move_ok; [by apply Hf|by apply (hd_row _ Hok id)].
  - apply Hsame.
  - intros j x Hx Hn E. apply Hn. apply (hd_address _ Hok j id x h Hx Hh). rewrite E. apply Hsame.
Qed.

Lemma claim_grants_le now id g db :
  enrollment_grants db !! id = Some g → pending_grant g = true →
  grants_le (enrollment_grants db) (enrollment_grants (claim_grant now id db)).
Proof.
  intros Hg Hp i x Hx. simpl in Hx. apply lookup_alter_Some in Hx as [(<- & y & Hy & ->)|[_ Hx]].
  - assert (y = g) as -> by congruence. exists g. split; [done|]. pose proof Hp as Hp'.
    unfold pending_grant in Hp. bool_simp.
    pose proof (settle_le g (Some now) None Hp' ltac:(by right)) as Hle. destruct g; simpl in *. by subst.
  - by exists x.
Qed.

Lemma register_ok now r db a db' : host_db_ok db → register_statement inet now r db = Ok (a, db') → host_db_ok db'.
Proof.
  intros Hok [[_ ->]|(id & g & n & Hg & Hm & Hu & _)]%register_statement_Ok; [done|].
  assert (pending_grant g = true) as Hp by (unfold grant_matches in Hm; by bool_simp).
  pose proof (claim_grants_le now id g db Hg Hp) as Hle. pose proof (upsert_host_Ok _ _ _ _ _ _ Hu) as Hor.
  destruct Hor as [[_ ->]|[(_ & Hn & -> & Hprov & Haddr)|(h & Hh & Hpr & He & Hc & _ & -> & Haddr)]].
  - apply (ok_by_parts db); [done|by apply hosts_grow_same|done|by apply samples_stay].
  - apply (ok_by_parts db); [done| |done|by apply samples_stay]. split; simpl.
    + intros i h Hh. rewrite lookup_insert_ne by (intros E; simpl in Hn; rewrite E in Hn; congruence). by exists h.
    + intros i h Hh. apply lookup_insert_Some in Hh as [[<- <-]|[_ Hh]]; [apply new_host_ok|by apply (hd_row _ Hok i)].
    + intros i j x y Hx Hy E. apply lookup_insert_Some in Hx as [[<- <-]|[Hni Hx]], Hy as [[<- <-]|[Hnj Hy]]; try done.
      * exfalso. by apply (Hprov j y Hy).
      * exfalso. by apply (Hprov i x Hx).
      * by apply (hd_provider _ Hok i j x y).
    + intros i j x y Hx Hy E. apply lookup_insert_Some in Hx as [[<- <-]|[Hni Hx]], Hy as [[<- <-]|[Hnj Hy]]; try done.
      * exfalso. by apply (Haddr j y Hy).
      * exfalso. by apply (Haddr i x Hx).
      * by apply (hd_address _ Hok i j x y).
  - apply (ok_by_parts db); [done| |done|by apply samples_stay].
    apply (hosts_grow_set db (ge_host_id g) h (reregistered_host inet now r h)); try done.
    eapply move_ok; [by apply rm_register|by apply (hd_row _ Hok (ge_host_id g))].
Qed.

Lemma existsb_grants p (m : gmap string GrantRow) :
  existsb (λ kv : string * GrantRow, p kv.2) (map_to_list m) = false → ∀ id g, m !! id = Some g → p g = false.
Proof.
  intros Hf id g Hg. destruct (p g) eqn:E; [|done]. assert (existsb (λ kv : string * GrantRow, p kv.2) (map_to_list m) = true).
  { apply existsb_exists. exists (id, g). split; [by apply list_elem_of_In, elem_of_map_to_list|done]. }
  congruence.
Qed.

Lemma insert_grant_Ok id g db u db' :
  insert_grant id g db = Ok (u, db') →
  db' = db <| enrollment_grants ::= <[id := g]> |> ∧ enrollment_grants db !! id = None ∧
  ∀ j x, enrollment_grants db !! j = Some x →
    ge_token_hash x ≠ ge_token_hash g ∧
    (pending_grant x = true → ge_provider_id x ≠ ge_provider_id g ∧ ge_host_id x ≠ ge_host_id g ∧
                              ge_address x ≠ ge_address g).
Proof.
  unfold insert_grant. destruct (bool_decide _) eqn:En; [done|].
  destruct (existsb _ _) eqn:E1; [done|]. destruct (existsb (λ kv, pending_grant kv.2 && String.eqb (ge_provider_id kv.2) _) _) eqn:E2; [done|].
  destruct (existsb (λ kv, pending_grant kv.2 && String.eqb (ge_host_id kv.2) _) _) eqn:E3; [done|].
  destruct (existsb (λ kv, pending_grant kv.2 && String.eqb (ge_address kv.2) _) _) eqn:E4; [done|].
  intros Hx. injection Hx as _ <-. split; [done|]. split.
  { bool_simp. destruct (enrollment_grants db !! id) eqn:E; [exfalso; apply En; by eexists|done]. }
  intros j x Hj. pose proof (existsb_grants (λ x, String.eqb (ge_token_hash x) _) _ E1 j x Hj) as H1.
  pose proof (existsb_grants (λ x, pending_grant x && String.eqb (ge_provider_id x) _) _ E2 j x Hj) as H2.
  pose proof (existsb_grants (λ x, pending_grant x && String.eqb (ge_host_id x) _) _ E3 j x Hj) as H3.
  pose proof (existsb_grants (λ x, pending_grant x && String.eqb (ge_address x) _) _ E4 j x Hj) as H4. simpl in *.
  split; [by bool_simp|]. intros Hp. rewrite Hp in *. simpl in *. by bool_simp.
Qed.

Lemma revoke_pending_le now provider g : grant_le g (revoke_pending now provider g).
Proof.
  unfold revoke_pending. destruct (_ && pending_grant g) eqn:E; [|done]. bool_simp.
  match goal with H : pending_grant g = true |- _ => pose proof H as Hp; unfold pending_grant in H end. bool_simp.
  pose proof (settle_le g None (Some now) Hp ltac:(by left)) as Hle. destruct g; simpl in *. by subst.
Qed.

Lemma issue_ok now r db a db' : host_db_ok db → issue_statement inet now r db = Ok (a, db') → host_db_ok db'.
Proof.
  intros Hok. unfold issue_statement. destruct (eligible_host _ _ _) as [h|]; [|by intros [= _ <-]].
  intros Hx. apply tx_bind_Ok in Hx as (u & db2 & Hi & Hx). injection Hx as _ <-.
  set (db1 := db <| enrollment_grants ::= fmap (revoke_pending now (hi_provider_id (is_identity r))) |>) in *.
  assert (host_db_ok db1) as Hok1.
  { apply (ok_by_parts db); [done|by apply hosts_grow_same| |by apply samples_stay]. intros i g Hg. simpl in Hg.
    rewrite lookup_fmap in Hg. apply fmap_Some in Hg as (x & Hx & ->). exists x. split; [done|apply revoke_pending_le]. }
  clearbody db1. apply insert_grant_Ok in Hi as (-> & Hn & Hall).
  split; simpl; try apply Hok1.
  - intros i j x y Hx Hy E. apply lookup_insert_Some in Hx as [[<- <-]|[Hni Hx]], Hy as [[<- <-]|[Hnj Hy]]; try done.
    + exfalso. by apply (proj1 (Hall j y Hy)).
    + exfalso. by apply (proj1 (Hall i x Hx)).
    + by apply (hd_token _ Hok1 i j x y).
  - intros i j x y Hx Hy Px Py E. apply lookup_insert_Some in Hx as [[<- <-]|[Hni Hx]], Hy as [[<- <-]|[Hnj Hy]]; try done.
    + exfalso. destruct (proj2 (Hall j y Hy) Py) as (? & ? & ?). naive_solver.
    + exfalso. destruct (proj2 (Hall i x Hx) Px) as (? & ? & ?). naive_solver.
    + by apply (hd_pending _ Hok1 i j x y).
  - intros i x Hx. apply lookup_insert_Some in Hx as [[<- <-]|[_ Hx]]; [by left|by apply (hd_grant _ Hok1 i)].
Qed.

Lemma sample_slot_bounds now : 0 <= now → 0 <= sample_slot now < 1024.
Proof. intros Hn. unfold sample_slot, msPerSecond. apply Z.rem_bound_pos; [apply Z.div_pos; lia|lia]. Qed.

Lemma heartbeat_ok now id b a db db' :
  host_db_ok db → 0 <= now → heartbeat_statement now id b db = Ok (a, db') → host_db_ok db'.
Proof.
  intros Hok Hnow [[_ ->]|(h & Hs & Hg & Hc & Hm & Hr & _ & ->)]%heartbeat_statement_Ok; [done|].
  apply serving_Some in Hs as [Hh Hs]. apply (ok_by_parts db); [done| |apply grants_le_refl|].
  - apply (hosts_grow_set db id h (beating_host now b h)); try done.
    + eapply move_ok; [by apply rm_heartbeat|by apply (hd_row _ Hok id)].
    + intros j x Hx Hn E. apply Hn. by apply (hd_address _ Hok j id x h).
  - intros i slot x Hx. simpl in Hx. apply lookup_insert_Some in Hx as [[[= <- <-] _]|[_ Hx]].
    + right. split; [by apply sample_slot_bounds|]. simpl. rewrite lookup_insert_eq. by eexists.
    + left. by eexists.
Qed.

Lemma stale_ok now ms a db db' : host_db_ok db → markStale now ms db = Ok (a, db') → host_db_ok db'.
Proof.
  intros Hok. unfold markStale. intros [= _ <-].
  set (f := λ h, if stale_candidate now ms h then h <| hr_state := HostStale |> else h).
  assert (∀ h, hr_provider_id (f h) = hr_provider_id h ∧ hr_address (f h) = hr_address h) as Hf
    by (intros h; unfold f; by destruct (stale_candidate _ _ _)).
  apply (ok_by_parts db); [done| |apply grants_le_refl|].
  - split; simpl.
    + intros i h Hh. rewrite lookup_fmap, Hh. simpl. eexists. split; [reflexivity|]. apply Hf.
    + intros i h' Hh. rewrite lookup_fmap in Hh. apply fmap_Some in Hh as (h & Hh & ->).
      pose proof (hd_row _ Hok i h Hh). unfold f. destruct (stale_candidate now ms h) eqn:E; [|done].
      eapply move_ok; [|done]. apply rm_stale. unfold stale_candidate in E. by apply andb_true_iff in E as [E _].
    + intros i j x y Hx Hy E. rewrite lookup_fmap in Hx, Hy. apply fmap_Some in Hx as (x0 & Hx & ->), Hy as (y0 & Hy & ->).
      apply (hd_provider _ Hok i j x0 y0 Hx Hy). by rewrite <- (proj1 (Hf x0)), <- (proj1 (Hf y0)).
    + intros i j x y Hx Hy E. rewrite lookup_fmap in Hx, Hy. apply fmap_Some in Hx as (x0 & Hx & ->), Hy as (y0 & Hy & ->).
      apply (hd_address _ Hok i j x0 y0 Hx Hy). by rewrite <- (proj2 (Hf x0)), <- (proj2 (Hf y0)).
  - intros i slot x Hx. left. by eexists.
Qed.

Lemma revoke_grant_ok now id a db db' : host_db_ok db → revoke_statement now id db = Ok (a, db') → host_db_ok db'.
Proof.
  intros Hok. unfold revoke_statement. destruct (enrollment_grants db !! id) as [g|] eqn:Eg; [|by intros [= _ <-]].
  destruct (pending_grant g) eqn:Ep; intros [= _ <-]; [|done].
  apply (ok_by_parts db); [done|by apply hosts_grow_same| |by apply samples_stay].
  intros i x Hx. simpl in Hx. apply lookup_insert_Some in Hx as [[<- <-]|[_ Hx]]; [|by exists x].
  exists g. split; [done|]. pose proof (revoke_pending_le now (ge_provider_id g) g) as Hle.
  unfold revoke_pending in Hle. by rewrite String.eqb_refl, Ep in Hle.
Qed.

Lemma transaction_ok db db' : host_db_ok db → host_transaction db db' → host_db_ok db'.
Proof.
  intros Hok. destruct 1 as [now r a db db' Hx|now r a db db' Hx|now id a db db' Hx|now id b a db db' Hn Hx|now ms a db db' Hx
    |id reason a db db' Hx|id reason a db db' Hx|now id reason a db db' Hx|now id reason a db db' Hx
    |now id c k g reason a db db' Hx|now id reason a db db' Hx].
  - by eapply register_ok.
  - by eapply issue_ok.
  - by eapply revoke_grant_ok.
  - by eapply heartbeat_ok.
  - by eapply stale_ok.
  - eapply update_host_ok; [done| | |exact Hx]; [|done]. intros h Hg. simpl in Hg. bool_simp. by apply rm_drain.
  - eapply update_host_ok; [done| | |exact Hx]; [|done]. intros h Hg. simpl in Hg. bool_simp. by apply rm_activate.
  - eapply update_host_ok; [done| | |exact Hx]; [|done]. intros h Hg. simpl in Hg. bool_simp. apply rm_shut_out. by right.
  - eapply update_host_ok; [done| | |exact Hx]; [|done]. intros h _. apply rm_shut_out. by left.
  - eapply update_host_ok; [done| | |exact Hx]; [|done]. intros h Hg. simpl in Hg. bool_simp. by apply rm_rotate.
  - eapply update_host_ok; [done| | |exact Hx]; [|done]. intros h Hg. simpl in Hg. bool_simp. by apply rm_metering.
Qed.

Lemma environment_ok db db' : host_db_ok db → host_environment db db' → host_db_ok db'.
Proof.
  intros Hok [Hr Hg Hs].
  assert (∀ i h', host_records db' !! i = Some h' → ∃ h r, host_records db !! i = Some h ∧ h' = h <| hr_reserved := r |>) as Hback.
  { intros i h' Hh'. specialize (Hr i). rewrite Hh' in Hr. destruct (host_records db !! i) as [h|]; [|done].
    destruct Hr as [r ->]. eauto. }
  apply (ok_by_parts db); [done| |rewrite Hg; apply grants_le_refl|by apply samples_stay]. split.
  - intros i h Hh. specialize (Hr i). rewrite Hh in Hr. destruct (host_records db' !! i) as [h'|]; [|done].
    destruct Hr as [r ->]. by eexists.
  - intros i h' Hh'. destruct (Hback i h' Hh') as (h & r & Hh & ->). by apply reserved_ok, (hd_row _ Hok i).
  - intros i j x y Hx Hy. destruct (Hback i x Hx) as (x0 & rx & Hx0 & ->), (Hback j y Hy) as (y0 & ry & Hy0 & ->). simpl.
    by apply (hd_provider _ Hok i j x0 y0).
  - intros i j x y Hx Hy. destruct (Hback i x Hx) as (x0 & rx & Hx0 & ->), (Hback j y Hy) as (y0 & ry & Hy0 & ->). simpl.
    by apply (hd_address _ Hok i j x0 y0).
Qed.

Lemma steps_ok db db' : host_db_ok db → host_steps db db' → host_db_ok db'.
Proof.
  intros Hok Hs. induction Hs as [|db db1 db' H1 _ IH]; [done|]. apply IH.
  destruct H1; [by eapply transaction_ok|by eapply environment_ok].
Qed.

(** Tables before any host is enrolled. *)
Definition hosts_start (db : HostDb) : Prop :=
  host_records db = ∅ ∧ enrollment_grants db = ∅ ∧ heartbeat_samples db = ∅.

Definition hosts_reachable (db : HostDb) : Prop := ∃ db0, hosts_start db0 ∧ host_steps db0 db.

Lemma reachable_hosts db : hosts_reachable db → host_db_ok db.
Proof.
  intros (db0 & (Eh & Eg & Es) & Hs). eapply steps_ok; [|exact Hs]. split; rewrite ?Eh, ?Eg, ?Es; by intros *; rewrite lookup_empty.
Qed.
End steps.

(** * One host and its grant

    A region, a grant issued for a provider's host, its registration and its
    first heartbeats: the concrete inputs at which the theorems about hosts are
    applied. *)

(** Addresses that PostgreSQL prints the way they are written. *)
Definition plain_inet (s : string) : string := s.

Definition demo_host_cohort : RuntimeCohort := mkCohort "cohort" 1 (JStr "x86_64") "k" "f" "j" "p" "d".
Definition demo_cohort_columns : CohortColumns := mkCohortColumns "cohort" 1 "x86_64" "k" "f" "j" "p" "d".
Definition demo_identity : HostIdentity :=
  mkHostIdentity "provider-1" "iad" "10.0.0.1" X86_64 (NInt 8) (NInt 16384) (NInt 100000) demo_host_cohort.
Definition demo_total : Resources := mkResources 8 16384 100000.

Definition demo_hosts_empty : HostDb := mkHostDb ∅ ∅ ∅ {[ "iad" ]} ∅.

Definition demo_issue : HostTx (option (string * Z)) :=
  issue_statement plain_inet 0 (mkIssue "grant-1" demo_identity demo_total demo_cohort_columns "org" "user" 600 "host-1" "token").
Definition demo_granted : HostDb := run demo_issue demo_hosts_empty.

Definition demo_register_columns : RegisterColumns :=
  mkRegister demo_identity demo_total demo_cohort_columns "token" "credential-hash" "control" "gateway".
Definition demo_register : HostTx (option (string * string * Z)) := register_statement plain_inet 1000 demo_register_columns.
Definition demo_registered : HostDb := run demo_register demo_granted.

Definition demo_beat : HeartbeatColumns :=
  mkHeartbeat HostReady "1.0" (mkResources 4 8192 50000) 1 true 1 demo_cohort_columns.
Definition demo_heartbeat (now : Z) : HostTx HeartbeatOutcome := heartbeat_statement now "host-1" demo_beat.
Definition demo_beaten : HostDb := run (demo_heartbeat 2000) demo_registered.
Definition demo_beaten_again : HostDb := run (demo_heartbeat 7000) demo_beaten.

Definition demo_quarantine : HostTx (option HostLifecycle) := quarantine_statement 3000 "host-1" "why".
Definition demo_quarantined : HostDb := run demo_quarantine demo_beaten.

Definition demo_host : HostRecord := new_host plain_inet 1000 demo_register_columns.

(** ** Its runs *)

Lemma demo_issued : demo_issue demo_hosts_empty = Ok (Some ("host-1", 600000), demo_granted).
Proof. refine (answered demo_issue demo_hosts_empty (Some ("host-1", 600000)) _). vm_compute. reflexivity. Qed.

Lemma demo_registers : demo_register demo_granted = Ok (Some ("host-1", "grant-1", 1), demo_registered).
Proof. refine (answered demo_register demo_granted (Some ("host-1", "grant-1", 1)) _). vm_compute. reflexivity. Qed.

Lemma demo_beats : demo_heartbeat 2000 demo_registered = Ok (Accepted, demo_beaten).
Proof. refine (answered (demo_heartbeat 2000) demo_registered (Accepted) _). vm_compute. reflexivity. Qed.

Lemma demo_beats_again : demo_heartbeat 7000 demo_beaten = Ok (Accepted, demo_beaten_again).
Proof. refine (answered (demo_heartbeat 7000) demo_beaten (Accepted) _). vm_compute. reflexivity. Qed.

Lemma demo_hosts_granted : host_transaction plain_inet demo_hosts_empty demo_granted.
Proof. eapply ht_issue. exact demo_issued. Qed.

Lemma demo_hosts_registered : host_transaction plain_inet demo_granted demo_registered.
Proof. eapply ht_register. exact demo_registers. Qed.

Lemma demo_hosts_beaten : host_transaction plain_inet demo_registered demo_beaten.
Proof. eapply ht_heartbeat; [|exact demo_beats]. lia. Qed.

Lemma hosts_then db db' : hosts_reachable plain_inet db → host_transaction plain_inet db db' → hosts_reachable plain_inet db'.
Proof. intros (db0 & Hs & Hr) Ht. exists db0. split; [exact Hs|]. eapply rtc_r; [exact Hr|by apply hs_transaction]. Qed.

Lemma demo_registered_reachable : hosts_reachable plain_inet demo_registered.
Proof.
  eapply hosts_then; [eapply hosts_then; [|exact demo_hosts_granted]|exact demo_hosts_registered].
  exists demo_hosts_empty. split; [|reflexivity]. split; [reflexivity|]. by split.
Qed.

Lemma demo_beaten_reachable : hosts_reachable plain_inet demo_beaten.
Proof. exact (hosts_then _ _ demo_registered_reachable demo_hosts_beaten). Qed.
