(* ===== verification/HostTheorems.v ===== *)
(** * What holds of hosts *)

From S2P Require Import Metering.
From S2P Require Import Prelude Text Js Capacity Cohort Lifecycle Billing Fleet NetworkPolicy.
From S2P Require Import Scheduler MachineRepo ForkRepo ReconcileDb FleetInv FleetSteps FleetHard.
From S2P Require Import FleetForks FleetStep FleetKeys VolumeInv Awaiting HostCredentials Hosts.
From S2P Require Import HostService HostSteps.

Section theorems.
Context (inet : string → string).
Abbreviation host_steps := (rtc (host_step inet)).

(** ** Hosts and the fleet *)

(** The fleet's tables with these hosts. *)
Definition with_hosts (db : HostDb) (f : FleetDb) : FleetDb := f <| hosts := fleet_row <$> host_records db |>.

Lemma register_new now r db a db' id h :
  register_statement inet now r db = Ok (a, db') → host_records db !! id = None → host_records db' !! id = Some h →
  hr_reserved h = rzero.
Proof.
  intros [[_ ->]|(gid & g & n & _ & _ & Hu & _)]%register_statement_Ok Hn Hh; [congruence|].
  apply upsert_host_Ok in Hu as [[_ ->]|[(_ & _ & -> & _)|(x & Hx & _ & _ & _ & _ & -> & _)]]; simpl in *.
  - congruence.
  - apply lookup_insert_Some in Hh as [[_ <-]|[_ Hh]]; [done|congruence].
  - apply lookup_insert_Some in Hh as [[<- _]|[_ Hh]]; congruence.
Qed.

Lemma update_host_absent id guard f db a db' i :
  update_host id guard f db = Ok (a, db') → host_records db !! i = None → host_records db' !! i = None.
Proof.
  intros [[_ ->]|(h & Hh & _ & -> & _)]%update_host_Ok Hn; [done|]. simpl. rewrite lookup_insert_ne; [done|congruence].
Qed.

(** Only a registration adds hosts. *)
Lemma transaction_absent db db' id h :
  host_transaction inet db db' → host_records db !! id = None → host_records db' !! id = Some h → hr_reserved h = rzero.
Proof.
  intros Ht Hn Hh. destruct Ht as [now r a db db' Hx|now r a db db' Hx|now i a db db' Hx|now i b a db db' _ Hx|now ms a db db' Hx
    |i reason a db db' Hx|i reason a db db' Hx|now i reason a db db' Hx|now i reason a db db' Hx
    |now i c k g reason a db db' Hx|now i reason a db db' Hx].
  - by eapply register_new.
  - unfold issue_statement in Hx. destruct (eligible_host _ _ _) as [x|]; [|injection Hx as _ <-; congruence].
    apply tx_bind_Ok in Hx as (u & db1 & Hi & Hx). injection Hx as _ <-. apply insert_grant_Ok in Hi as (-> & _). simpl in *. congruence.
  - unfold revoke_statement in Hx. destruct (enrollment_grants db !! i) as [g|]; [destruct (pending_grant g)|];
      injection Hx as _ <-; simpl in *; congruence.
  - apply heartbeat_statement_Ok in Hx as [[_ ->]|(x & Hs & _ & _ & _ & _ & _ & ->)]; [congruence|].
    apply serving_Some in Hs as [Hx _]. simpl in Hh. apply lookup_insert_Some in Hh as [[<- _]|[_ Hh]]; congruence.
  - unfold markStale in Hx. injection Hx as _ <-. simpl in Hh. rewrite lookup_fmap, Hn in Hh. done.
  - rewrite (update_host_absent _ _ _ _ _ _ _ Hx Hn) in Hh. done.
  - rewrite (update_host_absent _ _ _ _ _ _ _ Hx Hn) in Hh. done.
  - rewrite (update_host_absent _ _ _ _ _ _ _ Hx Hn) in Hh. done.
  - rewrite (update_host_absent _ _ _ _ _ _ _ Hx Hn) in Hh. done.
  - rewrite (update_host_absent _ _ _ _ _ _ _ Hx Hn) in Hh. done.
  - rewrite (update_host_absent _ _ _ _ _ _ _ Hx Hn) in Hh. done.
Qed.

(** The transactions of the host service are environment steps of the fleet:
    seen by the scheduler, hosts persist with what is reserved on them, a new
    host has nothing reserved and no other table changes, so that everything
    shown of the fleet holds while hosts enroll, beat and are shut out. *)
Theorem host_transactions_refine_environment db db' f :
  host_transaction inet db db' → environment (with_hosts db f) (with_hosts db' f).
Proof.
  intros Ht. split; simpl; try done.
  - intros id. destruct (machines f !! id) as [m|]; constructor. exists (usage m). by destruct m.
  - intros id row'. rewrite !lookup_fmap. intros (h' & Hh' & ->)%fmap_Some.
    destruct (host_records db !! id) as [h|] eqn:Eh; simpl.
    + destruct (transaction_moves inet _ _ Ht id h Eh) as (x & Hx & Hor). assert (x = h') as -> by congruence.
      destruct Hor as [->|Hm]; [done|]. by apply (move_reserved inet).
    + by eapply transaction_absent.
  - intros id [row Hrow]. rewrite lookup_fmap in *. apply fmap_Some in Hrow as (h & Hh & _).
    destruct (transaction_moves inet _ _ Ht id h Hh) as (h' & Hh' & _). rewrite Hh'. by eexists.
Qed.

(** ** Metering

    The host row as metering reads and writes it, by the columns it names. *)

Definition state_text (s : HostState) : string :=
  match s with HostReady => "ready" | HostDraining => "draining" | HostUnhealthy => "unhealthy" | HostStale => "stale" end.

Definition metered_row (batch quarantined : option Z) (h : HostRecord) : Metering.HostRow :=
  mkHostRow (desired_text (hr_desired_state h)) (state_text (hr_state h)) (status_text (hr_credential_status h))
    (hr_credential_generation h) (hr_credential_hash h) (hr_control_ciphertext h) (hr_gateway_ciphertext h)
    (hr_credential_revoked_at h) (hr_reported_vcpus h) (hr_reported_memory_mb h) (hr_reported_disk_mb h)
    (hr_reported_machine_count h) (hr_lifecycle_reason h) batch quarantined.

(** Metering's quarantine of a host is the step of the host tables: the same row
    whether the ledger's model or this one writes it. *)
Lemma metering_quarantines now id reason db a db' h batch quarantined :
  metering_quarantine_statement now id reason db = Ok (a, db') → host_records db !! id = Some h →
  ∃ h' quarantined', host_records db' !! id = Some h' ∧
    quarantine_host_row now reason (metered_row batch quarantined h) = metered_row batch quarantined' h'.
Proof.
  unfold metering_quarantine_statement, update_host. intros Hx Hh. rewrite Hh in Hx.
  destruct (_ && _) eqn:Hg; injection Hx as _ <-.
  - exists (metering_quarantined_host now reason h), (coalesce quarantined (Some now)).
    split; [apply lookup_insert_eq|]. bool_simp. unfold quarantine_host_row. simpl.
    destruct (hr_desired_state h); try contradiction; reflexivity.
  - exists h, quarantined. split; [done|]. unfold quarantine_host_row. simpl. revert Hg.
    by destruct (hr_desired_state h).
Qed.

(** ** Shut out *)



(** ** Heartbeats *)

(** A heartbeat speaks for the credential its sender presented.  When a
    credential authenticates a generation and later a heartbeat of that
    generation is accepted, then, whatever happened in between, the credential is
    still the host's: nothing was rotated, revoked or enrolled again. *)
Theorem heartbeat_proves_credential (argon2_verify : string → string → bool) db id h credential b now db1 db2 :
  hosts_reachable inet db → serving db id = Some h →
  authenticated_generation argon2_verify credential h = Some (hb_generation b) → host_steps db db1 →
  heartbeat_statement now id b db1 = Ok (Accepted, db2) →
  ∃ h', serving db1 id = Some h' ∧ hr_credential_hash h' = hr_credential_hash h ∧
    authenticated_generation argon2_verify credential h' = Some (hb_generation b).
Proof.
  intros Hr Hh Ha Hs Hb. apply serving_Some in Hh as [Hh _].
  destruct (steps_records inet _ _ _ _ Hs Hh) as (h1 & Hh1 & Hle).
  apply heartbeat_statement_Ok in Hb as [[? _]|(h' & Hs' & Hg & _)]; [done|]. pose proof Hs' as Hs''.
  apply serving_Some in Hs' as [Hh' Hin]. assert (h' = h1) as -> by congruence. exists h1. split; [done|].
  assert (hr_credential_generation h = hb_generation b) as Hgh.
  { unfold authenticated_generation in Ha. destruct (hr_credential_hash h); [|done]. destruct (_ && _); [by injection Ha|done]. }
  apply in_service_spec in Hin as (_ & _ & Hst).
  assert (host_db_ok db1) as Hok by (eapply steps_ok; [by eapply reachable_hosts|exact Hs]).
  destruct (ho_active _ (hd_row _ Hok id h1 Hh1) Hst) as ([c Hc] & _).
  assert (hr_credential_hash h1 = hr_credential_hash h) as E by (destruct (rl_credential _ _ Hle); congruence).
  split; [done|]. unfold authenticated_generation in *. rewrite E. destruct (hr_credential_hash h); [|done].
  destruct (_ && _); [|done]. congruence.
Qed.

(** Heartbeats are bounded: two accepted heartbeats of a host are at least
    five seconds apart on the database's clock, whatever happens between them, an
    accepted one claims no more than the host has, and the samples of a host fit
    1024 slots. *)
Theorem heartbeats_bounded db id b now db1 db2 b' now' db3 :
  hosts_reachable inet db → 0 <= now → heartbeat_statement now id b db = Ok (Accepted, db1) → host_steps db1 db2 →
  heartbeat_statement now' id b' db2 = Ok (Accepted, db3) →
  now + 5000 <= now' ∧
  (∃ h, host_records db2 !! id = Some h ∧ resources_le (hb_available b') (hr_total h) = true) ∧
  ∀ slot x, heartbeat_samples db2 !! (id, slot) = Some x → 0 <= slot < 1024.
Proof.
  intros Hr Hnow Hb Hs Hb'.
  assert (host_db_ok db2) as Hok.
  { eapply (steps_ok inet); [|exact Hs]. apply (heartbeat_ok inet now id b Accepted db db1); [by apply (reachable_hosts inet)|done|exact Hb]. }
  apply heartbeat_statement_Ok in Hb as [[? _]|(h & Hsv & _ & _ & _ & _ & _ & ->)]; [done|].
  apply heartbeat_statement_Ok in Hb' as [[? _]|(h' & Hsv' & _ & Hc & _ & Hres & _ & _)]; [done|].
  apply serving_Some in Hsv' as [Hh' _].
  set (db1 := set_host id (beating_host now b h) db <| heartbeat_samples ::= _ |>) in *.
  assert (host_records db1 !! id = Some (beating_host now b h)) as Hh1 by apply lookup_insert_eq.
  destruct (steps_records inet _ _ _ _ Hs Hh1) as (h2 & Hh2 & Hle). assert (h' = h2) as -> by congruence.
  destruct (rl_heartbeat _ _ Hle now eq_refl) as (t & Ht & Hnt). split_and!.
  - unfold cadence_valid in Hc. rewrite Ht in Hc. lia.
  - by exists h2.
  - intros slot x Hx. by apply (hd_sample _ Hok id slot x).
Qed.

(** ** Enrollment *)

(** Grants only settle. *)
Lemma transaction_grants db db' id g :
  host_transaction inet db db' → enrollment_grants db !! id = Some g →
  ∃ g', enrollment_grants db' !! id = Some g' ∧ grant_le g g'.
Proof.
  intros Ht Hg. assert (enrollment_grants db' = enrollment_grants db →
    ∃ g', enrollment_grants db' !! id = Some g' ∧ grant_le g g') as Hsame by (intros ->; by exists g).
  destruct Ht as [now r a db db' Hx|now r a db db' Hx|now i a db db' Hx|now i b a db db' _ Hx|now ms a db db' Hx
    |i reason a db db' Hx|i reason a db db' Hx|now i reason a db db' Hx|now i reason a db db' Hx
    |now i c k r reason a db db' Hx|now i reason a db db' Hx].
  - apply register_statement_Ok in Hx as [[_ ->]|(gid & g0 & n & Hg0 & Hm & Hu & _)]; [by apply Hsame|].
    assert (pending_grant g0 = true) as Hp by (unfold grant_matches in Hm; by bool_simp).
    assert (enrollment_grants db' = enrollment_grants (claim_grant now gid db)) as ->.
    { by apply upsert_host_Ok in Hu as [[_ ->]|[(_ & _ & -> & _)|(x & _ & _ & _ & _ & _ & -> & _)]]. }
    simpl. destruct (decide (id = gid)) as [->|Hn].
    + rewrite lookup_alter_eq, Hg. simpl. eexists. split; [reflexivity|]. assert (g0 = g) as -> by congruence.
      destruct (claim_grants_le now gid g db Hg Hp gid (g <| ge_consumed_at := Some now |>)) as (y & Hy & Hle);
        [simpl; by rewrite lookup_alter_eq, Hg|]. assert (y = g) as -> by congruence. done.
    + rewrite lookup_alter_ne by done. by exists g.
  - unfold issue_statement in Hx. destruct (eligible_host _ _ _) as [x|]; [|injection Hx as _ <-; by apply Hsame].
    apply tx_bind_Ok in Hx as (u & db1 & Hi & Hx). injection Hx as _ <-. apply insert_grant_Ok in Hi as (-> & Hn & _). simpl in *.
    assert (id ≠ is_id r) as Hne by (intros ->; rewrite lookup_fmap, Hg in Hn; done).
    rewrite lookup_insert_ne by done. rewrite lookup_fmap, Hg. simpl. eexists. split; [reflexivity|apply revoke_pending_le].
  - unfold revoke_statement in Hx. destruct (enrollment_grants db !! i) as [x|] eqn:Ex; [|injection Hx as _ <-; by apply Hsame].
    destruct (pending_grant x) eqn:Ep; injection Hx as _ <-; [|by apply Hsame]. simpl.
    destruct (decide (id = i)) as [->|Hn]; [|rewrite lookup_insert_ne by done; by exists g].
    rewrite lookup_insert_eq. eexists. split; [reflexivity|]. assert (x = g) as -> by congruence.
    pose proof (revoke_pending_le now (ge_provider_id g) g) as Hle.
    unfold revoke_pending in Hle. by rewrite String.eqb_refl, Ep in Hle.
  - apply Hsame. by apply heartbeat_statement_Ok in Hx as [[_ ->]|(x & _ & _ & _ & _ & _ & _ & ->)].
  - apply Hsame. unfold markStale in Hx. by injection Hx as _ <-.
  - apply Hsame. by apply update_host_Ok in Hx as [[_ ->]|(x & _ & _ & -> & _)].
  - apply Hsame. by apply update_host_Ok in Hx as [[_ ->]|(x & _ & _ & -> & _)].
  - apply Hsame. by apply update_host_Ok in Hx as [[_ ->]|(x & _ & _ & -> & _)].
  - apply Hsame. by apply update_host_Ok in Hx as [[_ ->]|(x & _ & _ & -> & _)].
  - apply Hsame. by apply update_host_Ok in Hx as [[_ ->]|(x & _ & _ & -> & _)].
  - apply Hsame. by apply update_host_Ok in Hx as [[_ ->]|(x & _ & _ & -> & _)].
Qed.

Lemma steps_grants db db' id g :
  host_steps db db' → enrollment_grants db !! id = Some g →
  ∃ g', enrollment_grants db' !! id = Some g' ∧ grant_le g g'.
Proof.
  intros Hs. revert g. induction Hs as [db|db db1 db' H1 _ IH]; intros g Hg; [by exists g|].
  assert (∃ g1, enrollment_grants db1 !! id = Some g1 ∧ grant_le g g1) as (g1 & Hg1 & Hle).
  { destruct H1 as [Ht|He]; [by eapply transaction_grants|]. rewrite (he_grants _ _ He). by exists g. }
  destruct (IH g1 Hg1) as (g' & Hg' & Hle'). exists g'. split; [done|]. by transitivity g1.
Qed.

(** A grant enrolls one host once.  A registration that answers consumed a
    grant that was pending, for exactly the presented token, place, size and
    cohort, and left the grant's host with that identity and a fresh credential;
    and whatever happens later, no registration consumes that grant again. *)
Theorem grant_enrolls_once now r db hostId grantId n db1 :
  register_statement inet now r db = Ok (Some (hostId, grantId, n), db1) →
  (∃ g h, enrollment_grants db !! grantId = Some g ∧ pending_grant g = true ∧ now < ge_expires_at g ∧
     ge_token_hash g = rg_token_hash r ∧ ge_host_id g = hostId ∧
     host_records db1 !! hostId = Some h ∧ hr_provider_id h = ge_provider_id g ∧ hr_region_id h = ge_region_id g ∧
     hr_address h = ge_address g ∧ hr_architecture h = ge_architecture g ∧ hr_total h = ge_total g ∧
     hr_cohort h = Some (ge_cohort g) ∧ hr_credential_hash h = Some (rg_credential_hash r) ∧
     hr_credential_generation h = n) ∧
  ∀ db2 now' r' hostId' grantId' n' db3,
    host_steps db1 db2 → register_statement inet now' r' db2 = Ok (Some (hostId', grantId', n'), db3) →
    grantId' ≠ grantId.
Proof.
  intros Hx. apply register_statement_Ok in Hx as [[? _]|(gid & g & m & Hg & Hm & Hu & Ea)]; [done|].
  destruct m as [m|]; [|done]. injection Ea as -> -> ->.
  assert (∃ g1, enrollment_grants db1 !! gid = Some g1 ∧ pending_grant g1 = false) as (g1 & Hg1 & Hp1).
  { assert (enrollment_grants db1 = enrollment_grants (claim_grant now gid db)) as ->.
    { by apply upsert_host_Ok in Hu as [[_ ->]|[(_ & _ & -> & _)|(x & _ & _ & _ & _ & _ & -> & _)]]. }
    simpl. rewrite lookup_alter_eq, Hg. simpl. by eexists. }
  split.
  - unfold grant_matches in Hm. rewrite !andb_true_iff in Hm.
    destruct Hm as [[[[[[[[Ht Hp] He] Hpr] Hre] Had] Har] Hto] Hco]. bool_simp.
    apply upsert_host_Ok in Hu as [[? _]|[([= ->] & _ & -> & _)|(h & Hh & Ep & _ & _ & [= ->] & -> & _)]]; [done| |].
    + exists g, (new_host inet now r). simpl. rewrite lookup_insert_eq. split_and!; try done; congruence.
    + exists g, (reregistered_host inet now r h). simpl. rewrite lookup_insert_eq. split_and!; try done; first [congruence|lia].
  - intros db2 now' r' hostId' grantId' n' db3 Hs Hx ->.
    apply register_statement_Ok in Hx as [[? _]|(gid' & g' & m' & Hg' & Hm' & _ & Ea)]; [done|].
    destruct m' as [m'|]; [|done]. injection Ea as _ <- _.
    destruct (steps_grants _ _ _ _ Hs Hg1) as (g2 & Hg2 & Hle). assert (g' = g2) as -> by congruence.
    assert (pending_grant g2 = true) as Hp2 by (unfold grant_matches in Hm'; by bool_simp).
    rewrite (grant_le_pending _ _ Hle Hp2) in Hp1. done.
Qed.

(** ** The tables *)

(** C24: The tables of hosts stay well formed: an active credential is stored
    with its two tokens and a revoked one without, only hosts that are shut out
    have a revoked credential and those are stale, no two hosts share a provider
    or an address, no two pending grants a provider, host or address, and no grant
    is both consumed and revoked. *)
Theorem host_tables_well_formed db :
  hosts_reachable inet db →
  (∀ id h, host_records db !! id = Some h →
     (hr_credential_status h = CredentialActive ↔ is_Some (hr_credential_hash h)) ∧
     (is_Some (hr_credential_hash h) ↔ is_Some (hr_control_ciphertext h)) ∧
     (is_Some (hr_credential_hash h) ↔ is_Some (hr_gateway_ciphertext h)) ∧
     (is_Some (hr_credential_hash h) ↔ hr_credential_revoked_at h = None) ∧
     (hr_credential_status h = CredentialRevoked → hr_desired_state h = Quarantined ∨ hr_desired_state h = Revoked) ∧
     (hr_desired_state h = Quarantined ∨ hr_desired_state h = Revoked → hr_state h = HostStale) ∧
     (hr_desired_state h = Revoked → hr_credential_status h = CredentialRevoked)) ∧
  (∀ i j h h', host_records db !! i = Some h → host_records db !! j = Some h' →
     hr_provider_id h = hr_provider_id h' ∨ hr_address h = hr_address h' → i = j) ∧
  (∀ i j g g', enrollment_grants db !! i = Some g → enrollment_grants db !! j = Some g' →
     pending_grant g = true → pending_grant g' = true →
     ge_provider_id g = ge_provider_id g' ∨ ge_host_id g = ge_host_id g' ∨ ge_address g = ge_address g' → i = j) ∧
  (∀ id g, enrollment_grants db !! id = Some g → ge_consumed_at g = None ∨ ge_revoked_at g = None).
Proof.
  intros Hr. apply reachable_hosts in Hr as Hok. split_and!.
  - intros id h Hh. destruct (hd_row _ Hok id h Hh) as [Ha Hv Ho Hf _ _ _].
    destruct (hr_credential_status h) eqn:Es.
    + destruct (Ha eq_refl) as (H1 & H2 & H3 & H4). split_and!; try done; congruence.
    + destruct (Hv eq_refl) as (-> & -> & -> & [t ->] & Hd). split_and!; try done; split; try done; by intros [? ?].
  - intros i j h h' Hh Hh' [E|E]; [by apply (hd_provider _ Hok i j h h')|by apply (hd_address _ Hok i j h h')].
  - exact (hd_pending _ Hok).
  - exact (hd_grant _ Hok).
Qed.
End theorems.

(** ** At the demonstration host *)

Lemma host_transactions_refine_environment_witness :
  host_transaction plain_inet demo_granted demo_registered ∧
  environment (with_hosts demo_granted demo_start) (with_hosts demo_registered demo_start).
Proof.
  split; [exact demo_hosts_registered|].
  exact (host_transactions_refine_environment plain_inet demo_granted demo_registered demo_start demo_hosts_registered).
Defined.




Definition demo_verify (credentialHash credential : string) : bool :=
  String.eqb credentialHash "credential-hash" && String.eqb credential "secret".

Lemma heartbeat_proves_credential_witness :
  ∃ h', serving demo_beaten "host-1" = Some h' ∧ hr_credential_hash h' = Some "credential-hash" ∧
    authenticated_generation demo_verify "secret" h' = Some 1.
Proof.
  assert (serving demo_registered "host-1" = Some demo_host) as Hs by (vm_compute; reflexivity).
  assert (authenticated_generation demo_verify "secret" demo_host = Some (hb_generation demo_beat)) as Ha
    by (vm_compute; reflexivity).
  exact (heartbeat_proves_credential plain_inet demo_verify demo_registered "host-1" demo_host "secret" demo_beat 7000
    demo_beaten demo_beaten_again demo_registered_reachable Hs Ha
    (rtc_once _ _ (hs_transaction _ _ _ demo_hosts_beaten)) demo_beats_again).
Defined.

Lemma heartbeats_bounded_witness :
  2000 + 5000 <= 7000 ∧ ∀ slot x, heartbeat_samples demo_beaten !! ("host-1", slot) = Some x → 0 <= slot < 1024.
Proof.
  assert (0 <= 2000) as H0 by lia.
  destruct (heartbeats_bounded plain_inet demo_registered "host-1" demo_beat 2000 demo_beaten demo_beaten demo_beat 7000
    demo_beaten_again demo_registered_reachable H0 demo_beats (rtc_refl _ _) demo_beats_again) as (H1 & _ & H2).
  split; [exact H1|exact H2].
Defined.

Lemma grant_enrolls_once_witness :
  (∃ g, enrollment_grants demo_granted !! "grant-1" = Some g ∧ pending_grant g = true ∧ ge_host_id g = "host-1") ∧
  ∀ now r hostId n db, register_statement plain_inet now r demo_beaten ≠ Ok (Some (hostId, "grant-1", n), db).
Proof.
  destruct (grant_enrolls_once plain_inet 1000 demo_register_columns demo_granted "host-1" "grant-1" 1 demo_registered
    demo_registers) as ((g & h & Hg & Hp & _ & _ & Hh & _) & Hlater).
  split; [exists g; split_and!; [exact Hg|exact Hp|exact Hh]|]. intros now r hostId n db Hx.
  exact (Hlater demo_beaten now r hostId "grant-1" n db (rtc_once _ _ (hs_transaction _ _ _ demo_hosts_beaten)) Hx eq_refl).
Defined.

Lemma host_tables_well_formed_witness :
  ∃ h, host_records demo_beaten !! "host-1" = Some h ∧ hr_credential_status h = CredentialActive ∧
    is_Some (hr_credential_hash h).
Proof.
  destruct (host_tables_well_formed plain_inet demo_beaten demo_beaten_reachable) as (Hrow & _).
  assert (hr_credential_status <$> host_records demo_beaten !! "host-1" = Some CredentialActive) as E
    by (vm_compute; reflexivity).
  destruct (host_records demo_beaten !! "host-1") as [h|] eqn:Eh; [|discriminate E]. injection E as E.
  exists h. split_and!; [reflexivity|exact E|]. exact (proj1 (proj1 (Hrow "host-1" h Eh)) E).
Defined.
