(* ===== verification/MachineService.v ===== *)
(** * The machine service

    [MachineService] of src/apps/nehemiah/src/domain/machines.ts: creating,
    destroying, extending and forking machines, and running commands in them.
    What a method awaits, transactions of the fleet and calls to hosts, comes first;
    each method is a [Service] over the schedule; helper definitions split the
    long methods at their own joints (the lookup before the claim, the placement
    after it, the handlers of its catch blocks). *)

From S2P Require Import Prelude Text Js Capacity Lifecycle Billing Fleet Scheduler MachineRepo ForkRepo.
From S2P Require Import ReconcileDb FleetInv FleetSteps FleetHard FleetForks FleetStep FleetKeys.
From S2P Require Import NetworkPolicy Awaiting.

(** ** Errors *)

(** Everything the service code throws or catches.  [HostForkContractError]
    extends [HostRequestError] with an undefined status and an ambiguous result. *)
Inductive ServiceError :=
| InvalidMachineRequest (message : string)
| ManagedNetworkEgressUnavailable (message : string)
| IdempotencyConflict (message : string)
| ReplayedCreateFailure (f : Failure)
| ReplayedForkFailure (f : Failure) (auditOperationId : string)
| Fleet_ (e : FleetError)
| HostForkContractError (observed : list HostMachine)
| OtherError (message : string).

Record HostFailure := mkHostFailure {
  hf_status : option Z;
  hf_ambiguous : bool;
  hf_code : option string
}.

(** [error instanceof HostRequestError] *)
Definition as_HostRequestError (e : ServiceError) : option HostFailure :=
  match e with
  | Fleet_ (HostRequestError status _ ambiguous code) => Some (mkHostFailure status ambiguous code)
  | HostForkContractError _ => Some (mkHostFailure None true None)
  | _ => None
  end.

(** ** Hosts *)

Record CreateOnHostRequest := mkCreateOnHost {
  ch_leaseId : string;
  ch_leaseGeneration : Z;
  ch_idempotencyKey : string;
  ch_template : option string;
  ch_ociReference : option string;
  ch_ttlSeconds : Z;
  ch_resources : Resources;
  ch_networkPolicy : NetworkPolicyDeclaration;
  ch_public_machine_id : string;
  ch_runtimeCohortId : option string;
  ch_sourceSha256 : option string
}.

Record ForkOnHostChild := mkForkOnHost {
  fh_leaseId : string;
  fh_leaseGeneration : Z;
  fh_expiresAt : Z;
  fh_networkPolicy : NetworkPolicyDeclaration;
  fh_resources : Resources;
  fh_public_machine_id : string;
  fh_parent_machine_id : string;
  fh_fork_operation_id : string;
  fh_runtimeCohortId : option string;
  fh_sourceSha256 : option string
}.

Record HostExecResult := mkHostExec {
  he_stdout : string;
  he_stderr : string;
  he_exit_code : option Z;
  he_timed_out : bool;
  he_duration_ms : Z
}.

Inductive HostCall :=
| CallCreate (address : string) (request : CreateOnHostRequest)
| CallGet (address hostMachineId : string)
| CallDestroy (address hostMachineId leaseId : string)
| CallExtend (address hostMachineId leaseId idempotencyKey : string) (targetExpiresAt : Z)
| CallFork (address sourceHostMachineId sourceLeaseId idempotencyKey : string)
    (children : list ForkOnHostChild)
| CallExec (address hostMachineId leaseId command : string) (timeoutSeconds : Z).

(** What a host call throws: a [HostRequestError], its subclass
    [HostForkContractError], or another error. *)
Inductive HostError :=
| RequestError (status : option Z) (message : string) (ambiguous : bool) (code : option string)
| ForkContractError (observed : list HostMachine)
| HostThrew (message : string).

Definition thrown_by_host (e : HostError) : ServiceError :=
  match e with
  | RequestError status message ambiguous code =>
      Fleet_ (HostRequestError status message ambiguous code)
  | ForkContractError observed => HostForkContractError observed
  | HostThrew message => OtherError message
  end.

(** The interface [HostClient]: what a host answers to a call may depend on
    every call made before. *)
Class HostClient := {
  answer_create : list HostCall → result HostError HostMachine;
  answer_get : list HostCall → result HostError (option HostMachine);
  answer_destroy : list HostCall → result HostError unit;
  answer_extend : list HostCall → result HostError HostMachine;
  answer_fork : list HostCall → result HostError (list HostMachine);
  answer_exec : list HostCall → result HostError HostExecResult
}.

(** ** The world of a procedure *)

Abbreviation Turn := (Awaiting.Turn FleetDb).
Abbreviation World := (Awaiting.World FleetDb HostCall).
Abbreviation Service := (Act World ServiceError).

Definition connectionLost : ServiceError := OtherError "database connection lost".

#[export] Instance service_errors : Thrown FleetError ServiceError := {|
  thrown := Fleet_;
  connection_lost := connectionLost
|}.

Definition call {A} (c : HostCall) (answer : list HostCall → result HostError A) : Service A :=
  call_with thrown_by_host c answer.

(** ** Machines as the repository returns them *)

(** A row of [selectMachine]: the machine with its host's address and its
    template's name on the host.  [fromRow] parses the stored policy again, which
    gives it back ([NetworkTheorems.egress_declaration_idempotent]). *)
Record Machine := mkMachineView {
  v_id : string;
  v_row : MachineRow;
  v_hostAddress : option string;
  v_hostTemplateName : option string
}.

Definition fromRow (db : FleetDb) (id : string) (m : MachineRow) : Machine :=
  mkMachineView id m
    (host_id (place m) ≫= λ host, option_map h_address (hosts db !! host))
    (template_id (ident m) ≫= λ t, templates db !! t ≫= t_host_template_name).

(** ** Requests and results *)

Record CreateMachine := mkCreateMachine {
  cm_organizationId : string;
  cm_projectId : string;
  cm_region : string;
  cm_architecture : Architecture;
  cm_resources : ResourceInput;
  cm_template : option string;
  cm_templateId : option string;
  cm_ociReference : option string;
  cm_networkPolicy : json;
  cm_ttlSeconds : number;
  cm_idempotencyKey : string
}.

Record ExtendMachineResult := mkExtendResult {
  er_machine : option Machine;
  er_replayed : bool;
  er_applied : bool
}.

Record ForkMachineResult := mkForkResult {
  fr_operationId : string;
  fr_auditOperationId : string;
  fr_idempotencyKey : string;
  fr_machines : list (string * MachineRow);
  fr_replayed : bool;
  fr_pending : bool;
  fr_cleanupPending : bool
}.

(** ** Errors *)

Definition billing_text (c : BillingCode) : string :=
  match c with
  | billing_delinquent => "billing_delinquent"
  | billing_plan_unavailable => "billing_plan_unavailable"
  | spend_cap_exceeded => "spend_cap_exceeded"
  end.

Definition billing_message (c : BillingCode) : string :=
  match c with
  | billing_delinquent =>
      "Organization billing is delinquent; new resource commitments are suspended."
  | billing_plan_unavailable => "Organization billing plan has no active admission rate card."
  | spend_cap_exceeded =>
      "Organization spend cap would be exceeded by this resource commitment."
  end.

Definition failureForCreateError (error : ServiceError) : Failure :=
  match error with
  | Fleet_ (QuotaExceeded message) => mkFailure 429 "quota_exceeded" message
  | Fleet_ (Billing_ (BillingAdmissionRejected code)) =>
      mkFailure 429 (billing_text code) (billing_message code)
  | Fleet_ (CapacityUnavailable message) => mkFailure 503 "capacity_unavailable" message
  | _ =>
      match as_HostRequestError error with
      | Some f =>
          if hf_ambiguous f
          then mkFailure 503 "host_result_pending"
                 "The host result is not yet known; retry with the same Idempotency-Key."
          else mkFailure 502 "host_request_failed"
                 "The selected host rejected the machine request."
      | None => mkFailure 500 "internal_error" "The machine request could not be completed."
      end
  end.

Definition throwPersistedCreateFailure (machine : Machine) : result ServiceError unit :=
  match create_failure (claim (v_row machine)) with
  | Some f => Err (ReplayedCreateFailure f)
  | None => Ok ()
  end.

Definition throwPersistedForkFailure (operation : ForkOperation) : result ServiceError unit :=
  let k := fo_row operation in
  match k_state k, k_failure k with
  | ForkFailed, Some f => Err (ReplayedForkFailure f (k_audit_operation k))
  | _, _ => Ok ()
  end.

Definition cleanupRequested (operation : ForkOperation) : bool :=
  bool_decide (is_Some (k_cleanup_requested_at (fo_row operation))).

Definition is_pending (operation : ForkOperation) : bool :=
  bool_decide (k_state (fo_row operation) = ForkPending).

Definition forkResult (operation : ForkOperation) (replayed : bool)
    : result ServiceError ForkMachineResult :=
  _ ← throwPersistedForkFailure operation;
  let k := fo_row operation in
  Ok (mkForkResult (fo_id operation) (k_audit_operation k) (k_key k) (fo_children operation)
        replayed (is_pending operation) (is_pending operation && cleanupRequested operation)).

(** ** Request hashes *)

Definition architecture_text (a : Architecture) : string :=
  match a with X86_64 => "x86_64" | Aarch64 => "aarch64" end.

Definition resources_json (r : Resources) : string :=
  json_object [json_member "vcpus" (pretty (vcpus r)); json_member "memoryMb" (pretty (memoryMb r));
               json_member "diskMb" (pretty (diskMb r))].

Definition policy_json (d : NetworkPolicyDeclaration) : string :=
  json_object [json_member "mode"
                 (json_text match np_mode d with NetworkOff => "off" | NetworkAllowlist => "allowlist" end);
               json_member "hostnames" (json_strings (np_hostnames d));
               json_member "cidrs" (json_strings (np_cidrs d))].

(** An undefined property is left out. *)
Definition optional_member (key : string) (value : option string) : list string :=
  match value with Some s => [json_member key (json_text s)] | None => [] end.

(** A create request whose fields passed validation. *)
Record ValidCreate := mkValidCreate {
  vc_resources : Resources;
  vc_networkPolicy : NetworkPolicyDeclaration;
  vc_ttlSeconds : Z
}.

Definition createRequestText (input : CreateMachine) (v : ValidCreate) : string :=
  json_object
    ([json_member "projectId" (json_text (cm_projectId input));
      json_member "region" (json_text (cm_region input));
      json_member "architecture" (json_text (architecture_text (cm_architecture input)));
      json_member "resources" (resources_json (vc_resources v))] ++
     optional_member "template" (cm_template input) ++
     optional_member "templateId" (cm_templateId input) ++
     optional_member "ociReference" (cm_ociReference input) ++
     [json_member "networkPolicy" (policy_json (vc_networkPolicy v));
      json_member "ttlSeconds" (pretty (vc_ttlSeconds v))]).

Definition extendRequestText (machineId : string) (ttlSeconds : Z) : string :=
  json_object [json_member "machineId" (json_text machineId);
               json_member "ttlSeconds" (pretty ttlSeconds)].

Definition forkRequestText (sourceMachineId : string) (count : Z) : string :=
  json_object [json_member "sourceMachineId" (json_text sourceMachineId);
               json_member "count" (pretty count)].

(** ** Validation *)

Definition validKey (key : string) : bool := test idempotencyKeyPattern key.

Definition invalid {A} (message : string) : result ServiceError A := Err (InvalidMachineRequest message).

(** The declaration the request asks for, or the default. *)
Definition requested_policy (input : CreateMachine) : json :=
  match cm_networkPolicy input with
  | JUndefined | JNull => declaration_json networkOff
  | policy => policy
  end.

Definition validateCreate `{NodeNet} (input : CreateMachine) : result ServiceError ValidCreate :=
  let imageSources :=
    List.filter truthy [cm_template input; cm_templateId input; cm_ociReference input] in
  if negb (validKey (cm_idempotencyKey input))
  then invalid "A valid Idempotency-Key header is required."
  else if negb (Nat.eqb (length imageSources) 1)
  then invalid "exactly one of template, templateId or ociReference is required"
  else if truthy (cm_ociReference input)
  then invalid "OCI images are not available until digest-pinned registry imports are enabled"
  else if truthy (cm_template input) &&
          negb (string_in (default "" (cm_template input)) ["python"; "desktop"])
  then invalid "template must be a platform built-in; use template_id for published templates"
  else
    match safe_between 15 86400 (cm_ttlSeconds input) with
    | None => invalid "ttlSeconds must be between 15 and 86400"
    | Some ttlSeconds =>
        match validateResources (cm_resources input) with
        | Err message => invalid message
        | Ok r =>
            match newEgressPolicy (requested_policy input) [] with
            | Err message => invalid message
            | Ok policy =>
                if negb (bool_decide (np_mode (eg_declaration policy) = NetworkOff))
                then Err (ManagedNetworkEgressUnavailable
                  "Managed guest egress is disabled until hard organization, project, and host-network traffic quotas are enforced.")
                else Ok (mkValidCreate r (eg_declaration policy) ttlSeconds)
            end
        end
    end.

(** [a && a !== b] on an idempotency hash *)
Definition hash_conflicts (machine : Machine) (requestHash : string) : bool :=
  let stored := idempotency_request_hash (ident (v_row machine)) in
  negb (String.eqb stored "") && negb (String.eqb stored requestHash).

Definition keyReused {A} : result ServiceError A :=
  Err (IdempotencyConflict "Idempotency-Key was already used with a different request.").

(** ** Creating *)

Section machine_service.
Context (schedule : nat → Turn) (sha256 : string → string).
Context `{NodeNet} `{BillingAdmission FleetDb} `{HostClient}.

Definition repository_find (id org : string) (project : option string)
    : Service (option Machine) :=
  query schedule (λ _ db, option_map (fromRow db id) (find db id org project)).

Definition repository_findByIdempotency (org project key : string) : Service (option Machine) :=
  query schedule (λ _ db,
    option_map (λ kv, fromRow db kv.1 kv.2) (findByIdempotency db org project key)).

Definition repository_transition (id : string) (from : list MachineState) (to : MachineState)
    (reason : option string) : Service bool :=
  await schedule (λ t, transition (t_now t) id from to reason (t_random t 0)).

Definition scheduler_release (host : string) (r : Resources) (id : string) : Service unit :=
  await schedule (λ t, release (t_now t) host r (Some id)).

(** The columns of the INSERT; [createdAt] is their default. *)
Definition created_identity (input : CreateMachine) (v : ValidCreate) (lease requestHash : string)
    (createdAt : Z) : Identity :=
  mkIdentity (cm_organizationId input) (cm_projectId input) lease 1 (cm_idempotencyKey input)
    requestHash (cm_region input) (cm_architecture input) (cm_template input) (cm_templateId input)
    (cm_ociReference input) (vc_ttlSeconds v) (vc_resources v) (vc_networkPolicy v) None None
    createdAt.

(** The machine a request builds before its row exists. *)
Definition newMachine (input : CreateMachine) (v : ValidCreate) (requestHash : string) (t : Turn)
    : Machine :=
  mkMachineView ("m_" +:+ t_random t 0)
    (requested_row (t_clock t) (created_identity input v (t_random t 1) requestHash (t_clock t))
       (t_clock t + vc_ttlSeconds v * 1000))
    None None.

Definition insertNew (input : CreateMachine) (v : ValidCreate) (requestHash : string)
    (machine : Machine) : Service unit :=
  await schedule (λ t,
    insertRequested (t_now t) (v_id machine)
      (created_identity input v (lease_id (ident (v_row machine))) requestHash (t_now t))
      (expires_at (life (v_row machine))) (t_random t 0)).

(** What the first half of [create] ends with: the answer of a replay, or a
    requested machine to claim. *)
Inductive Located :=
| Replayed (machine : Machine)
| ToClaim (machine : Machine) (replayed : bool).

(** A machine found under the key: it must be of the same request, and have no
    recorded failure. *)
Definition replay_of (machine : Machine) (requestHash : string) : result ServiceError Located :=
  if hash_conflicts machine requestHash then keyReused
  else
    _ ← throwPersistedCreateFailure machine;
    Ok (if bool_decide (mstate (v_row machine) = Requested) then ToClaim machine true
        else Replayed machine).

Definition locate (input : CreateMachine) (v : ValidCreate) (requestHash : string)
    : Service Located :=
  let byKey := repository_findByIdempotency (cm_organizationId input) (cm_projectId input)
                 (cm_idempotencyKey input) in
  existing ← byKey;
  match existing with
  | Some machine => lift (replay_of machine requestHash)
  | None =>
      t ← draw schedule;
      let machine := newMachine input v requestHash t in
      inserted ← attempt (insertNew input v requestHash machine);
      match inserted with
      | Ok _ => mret (ToClaim machine false)
      | Err error =>
          raced ← byKey;
          match raced with
          | Some machine => lift (replay_of machine requestHash)
          | None => athrow error
          end
      end
  end.

(** The end of the catch block: record the failure, give the reservation back
    when the record was made, rethrow. *)
Definition abandonCreate {A} (machine : Machine) (r : Resources) (claimToken : string)
    (reservation : option Reservation) (error : ServiceError) : Service A :=
  failed ← await schedule (λ t,
    failCreate (t_now t) (v_id machine) claimToken (failureForCreateError error) (t_random t 0));
  _ ← match reservation with
      | Some rv => if (failed : bool) then scheduler_release (rv_host rv) r (v_id machine) else mret tt
      | None => mret tt
      end;
  _ ← (if (failed : bool) then mret tt
       else await schedule (λ _, releaseCreateClaim (v_id machine) claimToken));
  athrow error.

(** The catch block of [create]; [reservation] and [created] are what the try
    block had reached. *)
Definition createFailed (machine : Machine) (replayed : bool) (r : Resources) (claimToken : string)
    (reservation : option Reservation) (created : option HostMachine) (error : ServiceError)
    : Service (Machine * bool) :=
  let org := organization_id (ident (v_row machine)) in
  let lease := lease_id (ident (v_row machine)) in
  let ambiguous :=
    match as_HostRequestError error with Some f => hf_ambiguous f | None => false end in
  match reservation, created with
  | _, None =>
      if ambiguous
      then pending ← repository_find (v_id machine) org None;
           mret (default machine pending, replayed)
      else abandonCreate machine r claimToken reservation error
  | Some rv, Some hm =>
      destroyed ← attempt (call (CallDestroy (rv_address rv) (hm_id hm) lease) answer_destroy);
      match destroyed with
      | Ok _ => abandonCreate machine r claimToken reservation error
      | Err _ =>
          _ ← repository_transition (v_id machine) [Starting; Running] Stopping
                (Some "create persistence failed; compensation pending");
          _ ← await schedule (λ _, releaseCreateClaim (v_id machine) claimToken);
          athrow error
      end
  | None, Some _ => abandonCreate machine r claimToken reservation error
  end.

Definition scheduleRequest (input : CreateMachine) (machineId : string) : ScheduleRequest :=
  mkScheduleRequest (cm_organizationId input) (cm_projectId input) (cm_region input)
    (cm_architecture input) (cm_resources input) (cm_templateId input) (Some machineId).

Definition createOnHost (input : CreateMachine) (v : ValidCreate) (machine persistedSource : Machine)
    (rv : Reservation) : CreateOnHostRequest :=
  let i := ident (v_row machine) in
  mkCreateOnHost (lease_id i) (lease_generation i) (v_id machine)
    (coalesce (cm_template input) (v_hostTemplateName persistedSource)) (cm_ociReference input)
    (vc_ttlSeconds v) (vc_resources v) (vc_networkPolicy v) (v_id machine) (rv_cohort rv)
    (rv_source rv).

(** From the claim on: place the machine and start it on the host. *)
Definition placeMachine (input : CreateMachine) (v : ValidCreate) (machine : Machine)
    (replayed : bool) (claimToken : string) : Service (Machine * bool) :=
  let id := v_id machine in
  let org := organization_id (ident (v_row machine)) in
  let project := project_id (ident (v_row machine)) in
  let failed := createFailed machine replayed (vc_resources v) claimToken in
  found ← repository_find id org (Some project);
  let persistedSource := default machine found in
  reserved ← attempt (await schedule (λ t,
    reserve (t_now t) (t_locked t) (scheduleRequest input id)));
  match reserved with
  | Err error => failed None None error
  | Ok rv =>
      assigned ← attempt (if assignmentCommitted rv then mret tt
                          else await schedule (λ t, assign (t_now t) id rv (t_random t 0)));
      match assigned with
      | Err error => failed (Some rv) None error
      | Ok _ =>
          let request := createOnHost input v machine persistedSource rv in
          created ← attempt (call (CallCreate (rv_address rv) request) answer_create);
          match created with
          | Err error => failed (Some rv) None error
          | Ok hm =>
              observed ← attempt (await schedule (λ t,
                observeHost (t_now t) (t_clock t) id hm (t_random t 0)));
              match observed with
              | Err error => failed (Some rv) (Some hm) error
              | Ok _ =>
                  current ← repository_find id org None;
                  mret (default machine current, replayed)
              end
          end
      end
  end.

(** [create]: the machine and whether the request is a replay. *)
Definition create (input : CreateMachine) : Service (Machine * bool) :=
  v ← lift (validateCreate input);
  let requestHash := sha256 (createRequestText input v) in
  located ← locate input v requestHash;
  match located with
  | Replayed machine => mret (machine, true)
  | ToClaim machine replayed =>
      let i := ident (v_row machine) in
      claimed ← await schedule (λ t, claimCreate (t_now t) (v_id machine) (t_random t 0));
      if truthy claimed then placeMachine input v machine replayed (default "" claimed)
      else
        found ← repository_find (v_id machine) (organization_id i) (Some (project_id i));
        let pending := default machine found in
        if hash_conflicts pending requestHash then lift keyReused
        else
          _ ← lift (throwPersistedCreateFailure pending);
          mret (pending, true)
  end.

(** ** Reading, destroying *)

Definition list_ (org : string) (project cursor : option string) (limit : Z) : Service (list Machine) :=
  query schedule (λ _ db, map (λ kv, fromRow db kv.1 kv.2) (list_machines db org project cursor limit)).

Definition get (id org : string) (project : option string) : Service (option Machine) :=
  repository_find id org project.

Definition not_found (error : ServiceError) : bool :=
  match as_HostRequestError error with
  | Some f => bool_decide (hf_status f = Some 404)
  | None => false
  end.

(** [host.destroy] where a host that no longer knows the machine counts as
    done. *)
Definition destroyOnHost (address hostMachineId lease : string) : Service unit :=
  destroyed ← attempt (call (CallDestroy address hostMachineId lease) answer_destroy);
  match destroyed with
  | Ok _ => mret tt
  | Err error => if not_found error then mret tt else athrow error
  end.

(** [destroy]: decides from the row read before the transition. *)
Definition destroy (id org : string) (project : option string) : Service bool :=
  found ← repository_find id org project;
  match found with
  | None => mret false
  | Some machine =>
      let p := place (v_row machine) in
      if terminal (mstate (v_row machine)) then mret true
      else
        moved ← repository_transition id [Requested; Placing; Starting; Running] Stopping None;
        if negb moved then mret true
        else if truthy (host_id p) && truthy (v_hostAddress machine) && negb (truthy (host_machine_id p))
        then mret true
        else
          _ ← (if truthy (v_hostAddress machine) && truthy (host_machine_id p)
               then destroyOnHost (default "" (v_hostAddress machine))
                      (default "" (host_machine_id p)) (lease_id (ident (v_row machine)))
               else mret tt);
          _ ← repository_transition id [Stopping] Stopped None;
          _ ← (if truthy (host_id p)
               then scheduler_release (default "" (host_id p)) (resources (ident (v_row machine)))
                      (v_id machine)
               else mret tt);
          mret true
  end.

(** ** Reaping expired machines *)

(** The latest instant the row or any recorded extension lets the machine live to. *)
Definition latest_expiry (db : FleetDb) (kv : string * MachineRow) : Z :=
  foldr Z.max (expires_at (life kv.2))
    (map x_target_expires_at (List.filter (λ x, String.eqb (x_machine x) kv.1 &&
       String.eqb (x_organization x) (organization_id (ident kv.2))) (extends db))).

Definition machine_expired (now : Z) (db : FleetDb) (kv : string * MachineRow) : bool :=
  (latest_expiry db kv <=? now) && negb (terminal (mstate kv.2)) && negb (fork_pending db kv.2).

Definition expiry_order (a b : string * MachineRow) : Z := expires_at (life a.2) - expires_at (life b.2).

(** Which of two machines with the same expiry comes first is open. *)
Definition expired_machines (now : Z) (db : FleetDb) : list (string * MachineRow) :=
  take 100 (sort_by expiry_order (List.filter (machine_expired now db) (map_to_list (machines db)))).

(** [.catch(() => undefined)]: one machine's failure does not stop the others. *)
Fixpoint destroy_each (rows : list (string * MachineRow)) : Service unit :=
  match rows with
  | [] => mret tt
  | (id, m) :: rows =>
      _ ← attempt (destroy id (organization_id (ident m)) (Some (project_id (ident m))));
      destroy_each rows
  end.

Definition reapExpiredMachines : Service unit :=
  rows ← query schedule (λ turn db, expired_machines (t_now turn) db);
  destroy_each rows.

(** ** Extending *)

Definition with_expiry (machine : Machine) (expires : Z) : Machine :=
  mkMachineView (v_id machine)
    ((v_row machine) <| life ::= λ l, l <| expires_at := expires |> |>)
    (v_hostAddress machine) (v_hostTemplateName machine).

Definition legacy_egress (machine : Machine) : bool :=
  negb (bool_decide (np_mode (network_policy (ident (v_row machine))) = NetworkOff)).

Definition not_applied (machine : option Machine) (replayed : bool) : ExtendMachineResult :=
  mkExtendResult machine replayed false.

(** The call to the host and the recording of its answer. *)
Definition extendOnHost (id org : string) (project : option string) (idempotencyKey : string)
    (operation : ExtendOperation) (current : Machine) : Service ExtendMachineResult :=
  let p := place (v_row current) in
  hm ← call (CallExtend (default "" (v_hostAddress current)) (default "" (host_machine_id p))
               (lease_id (ident (v_row current))) idempotencyKey (xo_targetExpiresAt operation))
         answer_extend;
  match hm_expires_at hm with
  | Some hostExpiry =>
      if hostExpiry <? xo_targetExpiresAt operation
      then athrow (Fleet_ (HostRequestError None
             "host extend response did not honor the absolute expiry target" true None))
      else
        recordedExpiry ← await schedule (λ t,
          completeExtend (t_now t) (xo_id operation) id org hostExpiry);
        found ← repository_find id org project;
        mret (mkExtendResult (Some (with_expiry (default current found) recordedExpiry))
                (xo_replayed operation) true)
  | None =>
      athrow (Fleet_ (HostRequestError None
        "host extend response did not honor the absolute expiry target" true None))
  end.

Definition extend (id org : string) (project : option string) (ttlSeconds : number)
    (idempotencyKey : string) : Service ExtendMachineResult :=
  if negb (validKey idempotencyKey)
  then lift (invalid "A valid Idempotency-Key header is required.")
  else
    match safe_between 15 86400 ttlSeconds with
    | None => lift (invalid "ttlSeconds must be between 15 and 86400")
    | Some ttl =>
        found ← repository_find id org project;
        match found with
        | None => mret (not_applied None false)
        | Some machine =>
            if legacy_egress machine
            then athrow (ManagedNetworkEgressUnavailable
                   "Machines with a legacy managed egress policy cannot be extended.")
            else
              let requestHash := sha256 (extendRequestText (v_id machine) ttl) in
              began ← await schedule (λ t,
                beginExtend (t_clock t) id org (project_id (ident (v_row machine))) idempotencyKey
                  requestHash ttl);
              match began with
              | None => mret (not_applied None false)
              | Some operation =>
                  if negb (String.eqb (xo_requestHash operation) requestHash) then lift keyReused
                  else
                    found ← repository_find id org project;
                    let current := default machine found in
                    match xo_resultExpiresAt operation with
                    | Some expires =>
                        mret (mkExtendResult (Some (with_expiry current expires)) true true)
                    | None =>
                        if negb (in_states (mstate (v_row current)) [Starting; Running]) ||
                           negb (truthy (v_hostAddress current)) ||
                           negb (truthy (host_machine_id (place (v_row current))))
                        then mret (not_applied (Some current) (xo_replayed operation))
                        else extendOnHost id org project idempotencyKey operation current
                    end
              end
        end
    end.

(** ** Forking *)

Definition batchFailed (message : string) : Failure := mkFailure 502 "fork_batch_failed" message.

(** [loadForkOperation] outside a transaction: two queries.  The rows of an
    operation and of its host are never deleted, so the assertion [!] of its
    callers holds; a missing row is an error here. *)
Definition loadFork (op : string) : Service ForkOperation :=
  row ← query schedule (λ t db, loadForkOperation (t_now t) op true db);
  match row with
  | None => athrow (OtherError "fork operation disappeared")
  | Some operation =>
      children ← query schedule (λ _ db, fork_children db (fo_row operation));
      mret (operation <| fo_children := children |>)
  end.

Definition repository_completeFork (op : string) (observed : list HostMachine) : Service ForkOperation :=
  _ ← await schedule (λ t, completeFork (t_now t) op observed);
  loadFork op.

Definition repository_failFork (op : string) (f : Failure) : Service ForkOperation :=
  _ ← await schedule (λ t, failFork (t_now t) op f);
  loadFork op.

(** The token is the one this call claimed, or none. *)
Definition repository_requestForkCleanup (op : string) (f : Failure) : Service ForkOperation :=
  claimedToken ← await schedule (λ t, requestForkCleanup (t_now t) op f (t_random t 0));
  operation ← loadFork op;
  mret (operation <| fo_cleanup_token := if truthy claimedToken then claimedToken else None |>).

Definition repository_completeForkCleanup (op token : string) : Service ForkOperation :=
  _ ← await schedule (λ t, completeForkCleanup (t_now t) op token);
  loadFork op.

Definition repository_releaseForkCleanupClaim (op token : string) : Service unit :=
  await schedule (λ t, releaseForkCleanupClaim (t_now t) op token).

(** The loop state of [cleanupForkObservations]. *)
Record CleanupState := mkCleanup {
  cs_complete : bool;
  cs_destroyed : list string;
  cs_cleaned : list string
}.

Definition expected_child (operation : ForkOperation) (hm : HostMachine) : option (string * MachineRow) :=
  match hm_public_machine_id hm with
  | Some id => if String.eqb id "" then None
               else List.find (λ c, String.eqb c.1 id) (fo_children operation)
  | None => None
  end.

Definition incomplete (s : CleanupState) : CleanupState :=
  mkCleanup false (cs_destroyed s) (cs_cleaned s).

Fixpoint cleanupLoop (operation : ForkOperation) (observed : list HostMachine) (s : CleanupState)
    : Service CleanupState :=
  match observed with
  | [] => mret s
  | hm :: observed =>
      match expected_child operation hm with
      | None => cleanupLoop operation observed (incomplete s)
      | Some (id, m) =>
          if String.eqb (hm_id hm) "" ||
             negb (bool_decide (hm_lease_id hm = Some (lease_id (ident m)))) ||
             string_in (hm_id hm) (cs_destroyed s) || string_in id (cs_cleaned s)
          then cleanupLoop operation observed (incomplete s)
          else
            let s := mkCleanup (cs_complete s) (hm_id hm :: cs_destroyed s) (id :: cs_cleaned s) in
            destroyed ← attempt (destroyOnHost (fo_host_address operation) (hm_id hm)
                                   (lease_id (ident m)));
            cleanupLoop operation observed (if is_ok destroyed then s else incomplete s)
      end
  end.

(** Whether every child was confirmed removed from the host. *)
Definition cleanupForkObservations (operation : ForkOperation) (observed : list HostMachine)
    : Service bool :=
  let n := length (fo_children operation) in
  s ← cleanupLoop operation observed (mkCleanup (Nat.eqb (length observed) n) [] []);
  mret (cs_complete s && Nat.eqb (length (cs_destroyed s)) n && Nat.eqb (length (cs_cleaned s)) n).

Definition finishForkCleanup (operation : ForkOperation) (f : Failure) (observed : list HostMachine)
    (replayed hostConfirmed : bool) : Service ForkMachineResult :=
  cleanup ← (if cleanupRequested operation && truthy (fo_cleanup_token operation)
             then mret operation
             else repository_requestForkCleanup (fo_id operation) f);
  if negb (is_pending cleanup) || negb (truthy (fo_cleanup_token cleanup))
  then lift (forkResult cleanup replayed)
  else
    let token := default "" (fo_cleanup_token cleanup) in
    cleaned ← (if hostConfirmed then mret true else cleanupForkObservations cleanup observed);
    if negb cleaned
    then _ ← repository_releaseForkCleanupClaim (fo_id cleanup) token;
         lift (forkResult cleanup replayed)
    else
      ended ← repository_completeForkCleanup (fo_id cleanup) token;
      lift (forkResult ended replayed).

(** How the try block of [fork] ends: with a result, or with [return
    this.finishForkCleanup(...)], whose promise is not awaited inside the block,
    so its failures are the caller's. *)
Inductive ForkTail :=
| Answer (r : ForkMachineResult)
| Cleanup (operation : ForkOperation) (f : Failure) (observed : list HostMachine) (hostConfirmed : bool).

Definition forkChild (operation : ForkOperation) (c : string * MachineRow) : ForkOnHostChild :=
  let '(id, m) := c in
  let i := ident m in
  mkForkOnHost (lease_id i) (lease_generation i) (expires_at (life m)) (network_policy i)
    (resources i) id (k_source_machine (fo_row operation)) (fo_id operation)
    (runtime_cohort_id (place m)) (source_sha256 (place m)).

Definition forkRejection (error : ServiceError) : Failure :=
  match as_HostRequestError error with
  | Some f =>
      if existsb (Z.eqb (default 0 (hf_status f))) [404; 409; 422; 501]
      then mkFailure 422 "machine_not_forkable"
             "The source host cannot create a live snapshot of this machine."
      else mkFailure 502 "host_request_failed" "The source host rejected the fork request."
  | None => mkFailure 500 "internal_error" "The fork request could not be completed."
  end.

Definition releaseToken (operation : ForkOperation) : Service unit :=
  if truthy (fo_cleanup_token operation)
  then repository_releaseForkCleanupClaim (fo_id operation) (default "" (fo_cleanup_token operation))
  else mret tt.

(** [host.fork] threw. *)
Definition forkRejected (active : ForkOperation) (replayed : bool) (error : ServiceError)
    : Service ForkTail :=
  let failed :=
    if cleanupRequested active
    then _ ← releaseToken active;
         r ← lift (forkResult active replayed);
         mret (Answer r)
    else
      failed ← repository_failFork (fo_id active) (forkRejection error);
      r ← lift (forkResult failed replayed);
      mret (Answer r) in
  match as_HostRequestError error with
  | None => failed
  | Some f =>
      if bool_decide (hf_code f = Some "fork_batch_cleaned")
      then mret (Cleanup active (batchFailed
             "The host returned an incomplete fork batch and removed all reserved children.") [] true)
      else
        match error with
        | HostForkContractError observed =>
            mret (Cleanup active (batchFailed
              "The host returned an incomplete or invalid fork batch.") observed false)
        | _ =>
            if hf_ambiguous f
            then
              _ ← releaseToken active;
              mret (Cleanup (active <| fo_cleanup_token := None |>) (batchFailed
                "The host result was ambiguous; the fork remains hidden until cleanup is confirmed.")
                [] false)
            else failed
        end
  end.

(** [host.fork] answered with a batch. *)
Definition forkObserved (operation active : ForkOperation) (replayed : bool)
    (observed : list HostMachine) : Service ForkTail :=
  if cleanupRequested active
  then mret (Cleanup active
         (default (batchFailed "The fork batch is awaiting confirmed host cleanup.")
            (create_failure (k_cleanup (fo_row active)))) observed false)
  else
    let dead := existsb (λ hm, string_in (hm_status hm) ["stopped"; "failed"; "lost"]) observed in
    if dead || (negb (all_ready observed) && fo_deadlineReached operation)
    then mret (Cleanup active (batchFailed
           (if dead then "A fork child became terminal before the entire batch was ready."
            else "The fork batch did not become ready before its shared startup deadline."))
           observed false)
    else
      completed ← attempt (repository_completeFork (fo_id active) observed);
      match completed with
      | Ok ended => r ← lift (forkResult ended replayed); mret (Answer r)
      | Err error =>
          if match as_HostRequestError error with Some f => hf_ambiguous f | None => false end
          then mret (Cleanup active (batchFailed
                 "The host fork batch did not match the durable child reservation.") observed false)
          else athrow error
      end.

(** The body of the try block. *)
Definition forkPending (operation : ForkOperation) (idempotencyKey : string) : Service ForkTail :=
  let replayed := fo_replayed operation in
  active ← (if cleanupRequested operation
            then repository_requestForkCleanup (fo_id operation)
                   (default (batchFailed "The fork batch is awaiting confirmed host cleanup.")
                      (create_failure (k_cleanup (fo_row operation))))
            else mret operation);
  if cleanupRequested operation && negb (is_pending active)
  then r ← lift (forkResult active replayed); mret (Answer r)
  else
    answered ← attempt (call
      (CallFork (fo_host_address active) (k_source_host_machine (fo_row active))
         (k_source_lease (fo_row active)) idempotencyKey
         (map (forkChild active) (fo_children active)))
      answer_fork);
    match answered with
    | Err error => forkRejected active replayed error
    | Ok observed => forkObserved operation active replayed observed
    end.

(** The identifiers a turn draws for the children of a fork. *)
Definition child_ids (t : Turn) (requestHash : string) (count : nat) : list ChildIds :=
  map (λ n,
    let machineId := "m_" +:+ t_random t (2 * n + 1)%nat in
    let leaseId := t_random t (2 * n + 2)%nat in
    mkChildIds machineId leaseId
      (sha256 (requestHash +:+ ":" +:+ pretty (Z.of_nat n) +:+ ":" +:+ machineId +:+ ":" +:+ leaseId)))
    (seq 0 count).

Definition repository_beginFork (source org project key requestHash audit : string) (count : Z)
    : Service (option ForkOperation) :=
  await schedule (λ t,
    beginFork (t_now t) (t_clock t) source org project key requestHash audit (t_random t 0)
      (child_ids t requestHash (Z.to_nat count))).

Definition fork (id org : string) (project : option string) (count : number)
    (idempotencyKey auditOperationId : string) : Service ForkMachineResult :=
  if negb (validKey idempotencyKey)
  then lift (invalid "A valid Idempotency-Key header is required.")
  else
    match safe_between 1 8 count with
    | None => lift (invalid "count must be an integer from 1 to 8")
    | Some count =>
        found ← repository_find id org project;
        match found with
        | None => athrow (Fleet_ (MachineNotForkable "The source machine was not found."))
        | Some source =>
            if legacy_egress source
            then athrow (ManagedNetworkEgressUnavailable
                   "Machines with a legacy managed egress policy cannot be forked.")
            else
              let requestHash := sha256 (forkRequestText (v_id source) count) in
              began ← repository_beginFork (v_id source) org (project_id (ident (v_row source)))
                        idempotencyKey requestHash auditOperationId count;
              match began with
              | None => athrow (Fleet_ (MachineNotForkable "The source machine is not forkable."))
              | Some operation =>
                  if negb (String.eqb (k_request_hash (fo_row operation)) requestHash)
                  then lift keyReused
                  else if negb (is_pending operation) then lift (forkResult operation true)
                  else
                    ended ← attempt (forkPending operation idempotencyKey);
                    match ended with
                    | Ok (Answer r) => mret r
                    | Ok (Cleanup active f observed hostConfirmed) =>
                        finishForkCleanup active f observed (fo_replayed operation) hostConfirmed
                    | Err (ReplayedForkFailure f audit) => athrow (ReplayedForkFailure f audit)
                    | Err _ => lift (forkResult operation (fo_replayed operation))
                    end
              end
        end
    end.

(** ** Running commands *)

Definition exec_command (id org : string) (project : option string) (command : string)
    (timeoutSeconds : Z) : Service (option HostExecResult) :=
  found ← repository_find id org project;
  match found with
  | Some machine =>
      if ready (life (v_row machine)) && truthy (v_hostAddress machine) &&
         truthy (host_machine_id (place (v_row machine)))
      then
        r ← call (CallExec (default "" (v_hostAddress machine))
                    (default "" (host_machine_id (place (v_row machine))))
                    (lease_id (ident (v_row machine))) command timeoutSeconds) answer_exec;
        mret (Some r)
      else mret None
  | None => mret None
  end.
End machine_service.
