(* ===== verification/Reconciler.v ===== *)
(** * The reconciler

    The procedures of [MachineReconciler]
    (src/apps/nehemiah/src/jobs/reconcile-machines.ts) over the transactions of
    ReconcileDb, ForkRepo, UsageOutbox and metering.  The tables are those of the
    whole control plane; hosts answer as in Service.  The eight workers of
    [forEachConcurrent] take the elements one after another here: what the other
    workers do while one awaits, or after one has thrown, is part of what the
    others do. *)

From S2P Require Import Prelude Text Metering Capacity Lifecycle Billing Fleet Scheduler MachineRepo.
From S2P Require Import ForkRepo ReconcileDb FleetInv FleetSteps FleetHard FleetForks FleetStep.
From S2P Require Import FleetKeys Tables UsageOutbox System Awaiting Js NetworkPolicy MachineService.

Abbreviation ReconcileTurn := (Awaiting.Turn Tables).
Abbreviation ReconcileWorld := (Awaiting.World Tables HostCall).
Abbreviation Reconcile := (Act ReconcileWorld ServiceError).

(** ** Rows *)

(** [last_period_end] of the machines' meters. *)
Definition last_periods (t : Tables) (id : string) : option Z :=
  meter_state (meter t) !! id ≫= last_period_end.

(** The transaction of [markLostOnStaleHosts], with the rows it returns. *)
Definition lose_stale : Tx Tables FleetError (list (string * MachineRow)) := λ t,
  match on_fleet (markLostOnStaleHosts (last_periods t)) t with
  | Ok (ids, t') => Ok (omap (λ id, pair id <$> machines (fleet t') !! id) ids, t')
  | Err e => Err e
  end.

(** The rows of [closeUnfinalizedAuthoritativeTerminals]. *)
Definition unfinalized (t : Tables) (kv : string * MachineRow) : bool :=
  terminal (mstate kv.2) && bool_decide (usage_finalized_at (usage kv.2) = None) && meter_started t kv.1 &&
  match host_id (place kv.2) ≫= λ h, hosts (fleet t) !! h with
  | Some h =>
      bool_decide (mstate kv.2 = Lost) || bool_decide (h_state h = HostStale) ||
      string_in (desired_state h) ["quarantined"; "revoked"] || String.eqb (credential_status h) "revoked"
  | None => false
  end.

(** [ORDER BY stopped_at NULLS LAST, id] *)
Definition stopped_order (a b : string * MachineRow) : Z :=
  match stopped_at (life a.2), stopped_at (life b.2) with
  | Some x, Some y => if x =? y then codeUnitCompare a.1 b.1 else x - y
  | Some _, None => -1
  | None, Some _ => 1
  | None, None => codeUnitCompare a.1 b.1
  end.

Definition unfinalizedTerminals (t : Tables) : list (string * MachineRow) :=
  take 100 (sort_by stopped_order (List.filter (unfinalized t) (map_to_list (machines (fleet t))))).

(** ** What a host answered *)

Definition hostTerminalStates : list string := ["stopped"; "failed"; "lost"].

(** [JSON.stringify(new EgressPolicy(policy).declaration)], unless the policy is
    malformed. *)
Definition policy_text `{NodeNet} (policy : NetworkPolicyDeclaration) : option string :=
  match newEgressPolicy (declaration_json policy) [] with
  | Ok p => Some (policy_json (eg_declaration p))
  | Err _ => None
  end.

Definition observedPolicyMatches `{NodeNet} (m : MachineRow) (observed : HostMachine) : bool :=
  match hm_network_policy observed with
  | Some policy =>
      match policy_text policy, policy_text (network_policy (ident m)) with
      | Some a, Some b => String.eqb a b
      | _, _ => false
      end
  | None => false
  end.

(** The observation is of this lease of this machine, with its resources and
    policy. *)
Definition observation_matches `{NodeNet} (row : ReconcileRow) (hostMachineId : string) (observed : HostMachine)
    : bool :=
  let i := ident (rr_row row) in
  String.eqb (hm_id observed) hostMachineId && bool_decide (hm_lease_id observed = Some (lease_id i)) &&
  bool_decide (hm_lease_generation observed = Some (lease_generation i)) &&
  bool_decide (hm_public_machine_id observed = Some (rr_id row)) &&
  bool_decide (hm_resources observed = Some (resources i)) && observedPolicyMatches (rr_row row) observed.

Definition create_request (row : ReconcileRow) : CreateOnHostRequest :=
  let i := ident (rr_row row) in
  mkCreateOnHost (lease_id i) (lease_generation i) (rr_id row)
    (coalesce (template_name i) (rr_host_template_name row)) (source_oci_ref i) (requested_ttl_seconds i)
    (resources i) (network_policy i) (rr_id row) (runtime_cohort_id (place (rr_row row)))
    (source_sha256 (place (rr_row row))).

(** The failure a cleanup was requested with, or the one given. *)
Definition cleanup_failure (operation : ForkOperation) : Failure :=
  default (batchFailed "The fork batch is awaiting confirmed host cleanup.")
    (create_failure (k_cleanup (fo_row operation))).

Definition rejected_fork (status : option Z) : Failure :=
  if existsb (Z.eqb (default 0 status)) [404; 409; 422; 501]
  then mkFailure 422 "machine_not_forkable" "The source host can no longer create this live snapshot."
  else mkFailure 502 "host_request_failed" "The source host rejected the fork request.".

(** [values] one after another; the first that throws ends it. *)
Fixpoint for_each {A} (l : list A) (f : A → Reconcile unit) : Reconcile unit :=
  match l with
  | [] => mret tt
  | x :: l => _ ← f x; for_each l f
  end.

(** [.catch((error) => log(...))] *)
Definition logged (m : Reconcile unit) : Reconcile unit := try_catch m (λ _, mret tt).

Section reconciler.
Context `{NodeNet} `{HostClient}.
(** The ledger and the metering the reconciler was built with, and [String(error)]. *)
Context (schedule : nat → ReconcileTurn) (has_ledger has_metering : bool) (error_text : ServiceError → string).

Definition tables_statement {A} (t : ReconcileTurn → Tx Tables FleetError A) : Reconcile A := await schedule t.
Definition fleet_statement {A} (t : ReconcileTurn → Tx FleetDb FleetError A) : Reconcile A :=
  tables_statement (λ turn, on_fleet (t turn)).
Definition tables_select {A} (f : ReconcileTurn → Tables → A) : Reconcile A := query schedule f.
Definition call_host {A} (c : HostCall) (answer : list HostCall → result HostError A) : Reconcile A :=
  call_with thrown_by_host c answer.

(** [host.destroy] where a host that no longer knows the machine counts as done. *)
Definition destroy_on_host (address hostMachineId lease : string) : Reconcile unit :=
  destroyed ← attempt (call_host (CallDestroy address hostMachineId lease) answer_destroy);
  match destroyed with
  | Ok _ => mret tt
  | Err error => if not_found error then mret tt else athrow error
  end.

(** [this.metering?.closeHostLoss(id, lease)] *)
Definition close_loss (id lease : string) : Reconcile (option Z) :=
  if has_metering then tables_statement (λ turn, on_meter (closeHostLoss (t_now turn) id lease)) else mret None.

(** ** Machines that ended *)

Definition release_machine (id host : string) (r : Resources) : Reconcile unit :=
  fleet_statement (λ turn, releaseRow (t_now turn) id host r).

Definition release_row (kv : string * MachineRow) : Reconcile unit :=
  release_machine kv.1 (default "" (host_id (place kv.2))) (resources (ident kv.2)).

Definition markLost : Reconcile unit :=
  lost ← tables_statement (λ _, lose_stale);
  for_each lost (λ kv, _ ← close_loss kv.1 (lease_id (ident kv.2)); release_row kv).

Definition closeUnfinalizedAuthoritativeTerminals : Reconcile unit :=
  if negb has_metering then mret tt
  else
    rows ← tables_select (λ _, unfinalizedTerminals);
    for_each rows (λ kv, _ ← close_loss kv.1 (lease_id (ident kv.2)); mret tt).

Definition releaseLeakedReservations : Reconcile unit :=
  rows ← tables_select (λ _ t, leakedReservations (fleet t));
  for_each rows release_row.

Definition finishAndRelease (row : ReconcileRow) (to : MachineState) (reason : string) : Reconcile unit :=
  let i := ident (rr_row row) in
  lossCutoff ← (if bool_decide (to = Lost) then close_loss (rr_id row) (lease_id i) else mret None);
  changed ← fleet_statement (λ turn, finish (t_now turn) (rr_id row) (lease_id i) to reason lossCutoff);
  if (changed : bool) then release_machine (rr_id row) (rr_host row) (resources i) else mret tt.

(** ** Usage *)

Definition recordMachineRuntime (event : OutboxRow) : Reconcile unit :=
  if ob_period_end event <? ob_period_start event then athrow (OtherError "usage period is inverted")
  else for_each (outbox_events event) (λ e, _ ← tables_statement (λ _, append e); mret tt).

Definition deliver_usage (event : OutboxRow) : Reconcile unit :=
  let token := default "" (ob_claim_token event) in
  recorded ← attempt (_ ← recordMachineRuntime event;
                      tables_statement (λ turn, settleUsage (t_now turn) (ob_key event) token (ob_machine_id event)));
  match recorded with
  | Ok _ => mret tt
  | Err error =>
      tables_statement (λ turn, retryUsage (t_now turn) (ob_key event) token (error_text error) (ob_attempts event))
  end.

Definition flushUsageOutbox : Reconcile unit :=
  if negb has_ledger then mret tt
  else
    pending ← tables_statement (λ turn, claimUsageOutbox (t_now turn) (t_random turn 0) (t_locked turn));
    for_each pending deliver_usage.

(** ** Forks *)

Definition load_fork (op : string) : Reconcile (option ForkOperation) :=
  row ← tables_select (λ turn t, loadForkOperation (t_now turn) op true (fleet t));
  match row with
  | None => mret None
  | Some operation =>
      children ← tables_select (λ _ t, fork_children (fleet t) (fo_row operation));
      mret (Some (operation <| fo_children := children |>))
  end.

(** [(await this.loadForkOperation(...))!]; a recorded operation and its source's
    host are never deleted. *)
Definition loaded_fork (op : string) : Reconcile ForkOperation :=
  found ← load_fork op;
  match found with
  | Some operation => mret operation
  | None => athrow (OtherError "fork operation disappeared")
  end.

Definition complete_fork (op : string) (observed : list HostMachine) : Reconcile ForkOperation :=
  _ ← fleet_statement (λ turn, completeFork (t_now turn) op observed);
  loaded_fork op.

Definition fail_fork (op : string) (f : Failure) : Reconcile ForkOperation :=
  _ ← fleet_statement (λ turn, failFork (t_now turn) op f);
  loaded_fork op.

(** The token is the one this call claimed, or none. *)
Definition request_cleanup (op : string) (f : Failure) : Reconcile ForkOperation :=
  claimedToken ← fleet_statement (λ turn, requestForkCleanup (t_now turn) op f (t_random turn 0));
  operation ← loaded_fork op;
  mret (operation <| fo_cleanup_token := if truthy claimedToken then claimedToken else None |>).

Definition complete_cleanup (op token : string) : Reconcile ForkOperation :=
  _ ← fleet_statement (λ turn, completeForkCleanup (t_now turn) op token);
  loaded_fork op.

Definition release_cleanup_claim (op token : string) : Reconcile unit :=
  fleet_statement (λ turn, releaseForkCleanupClaim (t_now turn) op token).

Definition release_held_claim (operation : ForkOperation) : Reconcile unit :=
  if truthy (fo_cleanup_token operation)
  then release_cleanup_claim (fo_id operation) (default "" (fo_cleanup_token operation))
  else mret tt.

Definition claim_forks (limit : Z) : Reconcile (list ForkOperation) :=
  ids ← fleet_statement (λ turn, claimPendingForks (t_now turn) limit (t_random turn 0) (t_locked turn));
  (fix load ids := match ids with
                   | [] => mret []
                   | id :: ids =>
                       found ← load_fork id;
                       rest ← load ids;
                       mret (match found with Some operation => operation :: rest | None => rest end)
                   end) ids.

Fixpoint cleanup_loop (operation : ForkOperation) (observed : list HostMachine) (s : CleanupState)
    : Reconcile CleanupState :=
  match observed with
  | [] => mret s
  | hm :: observed =>
      match expected_child operation hm with
      | None => cleanup_loop operation observed (incomplete s)
      | Some (id, m) =>
          if String.eqb (hm_id hm) "" || negb (bool_decide (hm_lease_id hm = Some (lease_id (ident m)))) ||
             string_in (hm_id hm) (cs_destroyed s) || string_in id (cs_cleaned s)
          then cleanup_loop operation observed (incomplete s)
          else
            let s := mkCleanup (cs_complete s) (hm_id hm :: cs_destroyed s) (id :: cs_cleaned s) in
            destroyed ← attempt (destroy_on_host (fo_host_address operation) (hm_id hm) (lease_id (ident m)));
            cleanup_loop operation observed (if is_ok destroyed then s else incomplete s)
      end
  end.

Definition cleanup_observations (operation : ForkOperation) (observed : list HostMachine) : Reconcile bool :=
  let n := length (fo_children operation) in
  s ← cleanup_loop operation observed (mkCleanup (Nat.eqb (length observed) n) [] []);
  mret (cs_complete s && Nat.eqb (length (cs_destroyed s)) n && Nat.eqb (length (cs_cleaned s)) n).

Definition finish_cleanup (operation : ForkOperation) (f : Failure) (observed : list HostMachine)
    (hostConfirmed : bool) : Reconcile unit :=
  cleanup ← (if cleanupRequested operation && truthy (fo_cleanup_token operation)
             then mret operation else request_cleanup (fo_id operation) f);
  if negb (is_pending cleanup) || negb (truthy (fo_cleanup_token cleanup)) then mret tt
  else
    let token := default "" (fo_cleanup_token cleanup) in
    cleaned ← (if hostConfirmed then mret true else cleanup_observations cleanup observed);
    if negb cleaned then release_cleanup_claim (fo_id cleanup) token
    else _ ← complete_cleanup (fo_id cleanup) token; mret tt.

(** [host.fork] threw. *)
Definition fork_rejected (active : ForkOperation) (error : ServiceError) : Reconcile unit :=
  match as_HostRequestError error with
  | None => if cleanupRequested active then release_held_claim active else athrow error
  | Some f =>
      if bool_decide (hf_code f = Some "fork_batch_cleaned")
      then finish_cleanup active (batchFailed
             "The host removed every reserved child after the fork could not complete.") [] true
      else
        match error with
        | HostForkContractError observed =>
            finish_cleanup active (batchFailed "The host never returned a valid, complete fork batch.") observed false
        | _ =>
            if hf_ambiguous f
            then
              _ ← release_held_claim active;
              finish_cleanup (active <| fo_cleanup_token := None |>) (batchFailed
                "The host result is ambiguous; the fork remains hidden until cleanup is confirmed.") [] false
            else if cleanupRequested active then release_held_claim active
            else _ ← fail_fork (fo_id active) (rejected_fork (hf_status f)); mret tt
        end
  end.

(** [host.fork] answered with a batch. *)
Definition fork_observed (active : ForkOperation) (observed : list HostMachine) : Reconcile unit :=
  if cleanupRequested active then finish_cleanup active (cleanup_failure active) observed false
  else
    let dead := existsb (λ hm, string_in (hm_status hm) hostTerminalStates) observed in
    if dead || (negb (all_ready observed) && fo_deadlineReached active)
    then finish_cleanup active (batchFailed
           (if dead then "A fork child became terminal before the entire batch was ready."
            else "The fork batch did not become ready before its shared startup deadline.")) observed false
    else
      completed ← attempt (complete_fork (fo_id active) observed);
      match completed with
      | Ok _ => mret tt
      | Err error =>
          if match as_HostRequestError error with Some f => hf_ambiguous f | None => false end
          then finish_cleanup active (batchFailed
                 "The host fork batch did not match the durable child reservation.") observed false
          else athrow error
      end.

Definition reconcileFork (operation : ForkOperation) : Reconcile unit :=
  active ← (if cleanupRequested operation
            then request_cleanup (fo_id operation) (cleanup_failure operation) else mret operation);
  if cleanupRequested operation && (negb (is_pending active) || negb (truthy (fo_cleanup_token active)))
  then mret tt
  else
    answered ← attempt (call_host
      (CallFork (fo_host_address active) (k_source_host_machine (fo_row active)) (k_source_lease (fo_row active))
         (k_key (fo_row active)) (map (forkChild active) (fo_children active))) answer_fork);
    match answered with
    | Err error => fork_rejected active error
    | Ok observed => fork_observed active observed
    end.

(** One operation of a run: whatever happens, its claim is given back. *)
Definition reconcile_claimed_fork (operation : ForkOperation) : Reconcile unit :=
  outcome ← attempt (reconcileFork operation);
  match reconcile_claim_token (k_recon (fo_row operation)) with
  | Some token =>
      if String.eqb token "" then mret tt
      else logged (fleet_statement (λ turn,
             releaseForkClaim (t_now turn) (fo_id operation) token (negb (is_ok outcome))))
  | None => mret tt
  end.

(** ** Machines *)

(** The machine's id on its host, its state, and the answer of a create that was
    repeated; nothing when the row no longer takes it. *)
Definition recover (row : ReconcileRow) : Reconcile (option (string * MachineState * option HostMachine)) :=
  let m := rr_row row in
  if truthy (host_machine_id (place m))
  then mret (Some (default "" (host_machine_id (place m)), mstate m, None))
  else
    recovered ← call_host (CallCreate (rr_host_address row) (create_request row)) answer_create;
    persisted ← fleet_statement (λ turn,
      persistRecovered (t_now turn) (rr_id row) (lease_id (ident m)) recovered);
    match persisted with
    | Some state => mret (Some (hm_id recovered, state, Some recovered))
    | None =>
        _ ← destroy_on_host (rr_host_address row) (hm_id recovered) (lease_id (ident m));
        mret None
    end.

(** What follows from the host's answer, in the state [st] of the row. *)
Definition apply_observation (row : ReconcileRow) (hostMachineId : string) (st : MachineState)
    (observed : option HostMachine) : Reconcile unit :=
  let id := rr_id row in
  let lease := lease_id (ident (rr_row row)) in
  match observed with
  | Some hm =>
      if negb (observation_matches row hostMachineId hm)
      then athrow (OtherError
             "host observation does not match the current machine lease, resources, and network policy")
      else if string_in (hm_status hm) hostTerminalStates
      then finishAndRelease row (if String.eqb (hm_status hm) "stopped" then Stopped else Failed)
             ("host reported " +:+ hm_status hm)
      else match st with
           | Running => fleet_statement (λ turn, observeRunning (t_now turn) id lease hm)
           | Starting =>
               if negb (hm_ready hm) && rr_deadline_reached row
               then
                 _ ← destroy_on_host (rr_host_address row) hostMachineId lease;
                 finishAndRelease row Failed "guest agent readiness deadline exceeded"
               else fleet_statement (λ turn, observeStarting (t_now turn) id lease hm)
           | _ => mret tt
           end
  | None =>
      match st with
      | Running => finishAndRelease row Lost "host no longer has the running machine"
      | Starting =>
          if rr_deadline_reached row
          then finishAndRelease row Failed "host no longer has the assigned machine" else mret tt
      | _ => mret tt
      end
  end.

Definition reconcile (row : ReconcileRow) : Reconcile unit :=
  recovered ← recover row;
  match recovered with
  | None => mret tt
  | Some (hostMachineId, Stopping, _) =>
      _ ← destroy_on_host (rr_host_address row) hostMachineId (lease_id (ident (rr_row row)));
      finishAndRelease row Stopped "reconciled delete"
  | Some (hostMachineId, st, answer) =>
      observed ← match answer with
                 | Some hm => mret (Some hm)
                 | None => call_host (CallGet (rr_host_address row) hostMachineId) answer_get
                 end;
      apply_observation row hostMachineId st observed
  end.

(** One machine of a run: whatever happens, its claim is given back. *)
Definition reconcile_claimed (row : ReconcileRow) : Reconcile unit :=
  outcome ← attempt (reconcile row);
  logged (fleet_statement (λ turn,
    releaseReconcileClaim (t_now turn) (rr_id row) (lease_id (ident (rr_row row))) (rr_claim_token row)
      (negb (is_ok outcome)))).

Definition runLocked : Reconcile unit :=
  _ ← markLost;
  _ ← closeUnfinalizedAuthoritativeTerminals;
  _ ← releaseLeakedReservations;
  _ ← tables_statement (λ turn, enqueueUsageIntervals (t_now turn) has_metering (t_locked turn));
  _ ← flushUsageOutbox;
  forkOperations ← claim_forks 20;
  _ ← for_each forkOperations reconcile_claimed_fork;
  rows ← fleet_statement (λ turn, claimReconcileBatch (t_now turn) (t_random turn 0) (t_locked turn));
  for_each rows reconcile_claimed.

(** [run]: nothing, unless the advisory lock was free. *)
Definition run (acquired : bool) : Reconcile unit := if acquired then runLocked else mret tt.
End reconciler.
