(* ===== verification/ServiceLogic.v ===== *)
(** * A program logic for the services

    [post P m Q]: from tables in which [P] holds, the procedure [m] moves the
    tables only by steps of the fleet, and its result and the tables it leaves
    satisfy [Q].  Assertions about the tables survive the steps of others when
    they are [stable]; every rule below keeps a stable precondition, so a
    procedure's proof carries along what it has learned. *)

From S2P Require Import Prelude Text Capacity Lifecycle Billing Fleet Scheduler MachineRepo ForkRepo.
From S2P Require Import ReconcileDb FleetInv FleetSteps FleetHard FleetForks FleetStep FleetKeys.
From S2P Require Import FleetTheorems Awaiting Js NetworkPolicy MachineService.

(** ** Sound tables *)

Section sound.
Context `{BillingAdmission FleetDb} (created : Identity → Prop) (Hc : created_ok created).

(** Every machine that is no fork child was built by a create request. *)
Definition made (db : FleetDb) : Prop :=
  ∀ id m, machines db !! id = Some m → fork_operation_id (ident m) = None → created (ident m).

Record sound (db : FleetDb) : Prop := mkSound {
  sn_inv : fleet_inv db;
  sn_keys : keys_inv db;
  sn_made : made db
}.

Lemma fail_batch_lookup tnow op k f db id x :
  machines (fail_batch tnow op k f db) !! id = Some x →
  ∃ m, machines db !! id = Some m ∧ ident x = ident m.
Proof.
  destruct (fail_children_tables tnow op (k_organization k) (f_message f) db) as (Hms & _ & _).
  unfold fail_batch. simpl. rewrite Hms, lookup_fmap. intros Hx.
  destruct (machines db !! id) as [m|]; [|done]. apply (inj Some) in Hx as <-.
  exists m. split; [done|]. by destruct (fails_with op m).
Qed.

Lemma effect_made db db' : effect created db db' → made db → made db'.
Proof.
  intros [Hm Hf|tnow id i expires Hn Hi Hfo Hk Hms Hfs|
    tnow clock org project source key hash audit op host m cs Hpr Hcf Hio Hip ->|
    tnow op k f Hk Hp ->] Hmade id' x Hx Hop.
  - destruct (forall2_lookup _ _ _ _ (Hm id') Hx) as (m & Hm0 & [Hid _ _ _ _]).
    rewrite Hid in *. by eapply Hmade.
  - rewrite Hms in Hx. apply lookup_insert_Some in Hx as [[<- <-]|[_ Hx]]; [done|].
    by eapply Hmade.
  - apply fork_conflicts_spec in Hcf as (_ & _ & Hnd).
    apply begun_lookup in Hx as [(n & c & _ & _ & ->)|Hx]; [done| |done]. by eapply Hmade.
  - apply fail_batch_lookup in Hx as (m & Hm & Hid). rewrite Hid in *. by eapply Hmade.
Qed.

Lemma sound_steps db db' :
  sound db → fleet_steps created db db' → sound db' ∧ fleet_le db db'.
Proof.
  intros [Hinv Hkeys Hmade] Hs.
  destruct (steps_inv created Hc db db' Hinv Hkeys Hs) as (Hinv' & Hkeys' & Hle).
  split; [|done]. constructor; [done..|]. clear Hinv' Hkeys' Hle.
  revert Hinv Hkeys Hmade. induction Hs as [|db db1 db' Hstep _ IH]; intros Hinv Hkeys Hmade; [done|].
  assert (∀ i, created i → fork_operation_id i = None) as Hcf by (intros; by apply Hc).
  pose proof (step_effect created Hcf db db1 Hinv Hstep) as He.
  destruct (steps_inv created Hc db db1 Hinv Hkeys) as (Hinv1 & Hkeys1 & _);
    [by apply rtc_once|].
  apply IH; [done..|]. by eapply effect_made.
Qed.
End sound.

(** ** Stable assertions *)

Class Stable `{BillingAdmission FleetDb} (created : Identity → Prop) (P : FleetDb → Prop) : Prop :=
  stable : ∀ db db', sound created db → sound created db' → fleet_le db db' → P db → P db'.

(** A machine whose row satisfies [F]. *)
Definition has_row (id : string) (F : MachineRow → Prop) (db : FleetDb) : Prop :=
  ∃ m, machines db !! id = Some m ∧ F m.

(** A fork operation whose row satisfies [F]. *)
Definition has_fork (op : string) (F : ForkRow → Prop) (db : FleetDb) : Prop :=
  ∃ k, forks db !! op = Some k ∧ F k.

(** Facts about rows that later rows keep. *)
Class Kept {A} (R : A → A → Prop) (F : A → Prop) : Prop := kept : ∀ x y, R x y → F x → F y.

Section stability.
Context `{BillingAdmission FleetDb} (created : Identity → Prop).

#[export] Instance stable_True : Stable created (λ _, True).
Proof. done. Qed.

#[export] Instance stable_pure (X : Prop) : Stable created (λ _, X).
Proof. by intros db db' _ _ _. Qed.

#[export] Instance stable_and P Q :
  Stable created P → Stable created Q → Stable created (λ db, P db ∧ Q db).
Proof. intros HP HQ db db' ? ? ? [? ?]. split; [by apply (HP db)|by apply (HQ db)]. Qed.

#[export] Instance stable_row id F : Kept row_le F → Stable created (has_row id F).
Proof.
  intros HF db db' _ _ Hle (m & Hm & Hx).
  destruct (fl_machines _ _ Hle id m Hm) as (m' & Hm' & Hrow). exists m'. split; [done|].
  by eapply HF.
Qed.

#[export] Instance stable_fork op F : Kept fork_advances F → Stable created (has_fork op F).
Proof.
  intros HF db db' _ _ Hle (k & Hk & Hx).
  destruct (fl_forks _ _ Hle op k Hk) as (k' & Hk' & Hrow). exists k'. split; [done|].
  by eapply HF.
Qed.

(** The machine exists and belongs to no pending fork. *)
Definition settled (id : string) (db : FleetDb) : Prop :=
  has_row id (λ m, fork_pending db m = false) db.

#[export] Instance stable_settled id : Stable created (settled id).
Proof.
  intros db db' Hs Hs' Hle (m & Hm & Hp).
  destruct (fl_machines _ _ Hle id m Hm) as (m' & Hm' & [Hi _ _ _ _]). exists m'. split; [done|].
  unfold fork_pending in *. rewrite Hi. destruct (fork_operation_id (ident m)) as [op|] eqn:Eop; [|done].
  destruct (fi_fork db (sn_inv _ _ Hs) id m op Hm Eop) as (k & Hk & _). rewrite Hk in Hp.
  destruct (fl_forks _ _ Hle op k Hk) as (k' & -> & _ & _ & Hst & _).
  apply bool_decide_eq_false in Hp. destruct Hst as [-> _]; [done|].
  by apply bool_decide_eq_false.
Qed.

#[export] Instance kept_ident (F : Identity → Prop) : Kept row_le (λ m, F (ident m)).
Proof. by intros m m' [-> _ _ _ _]. Qed.

#[export] Instance kept_host h : Kept row_le (λ m, host_id (place m) = Some h).
Proof. intros m m' [_ Hh _ _ _] E. rewrite Hh; [done|]. by rewrite E. Qed.

#[export] Instance kept_rank n : Kept row_le (λ m, n <= rank (mstate m)).
Proof. intros m m' [_ _ _ Hr _] E. lia. Qed.

#[export] Instance kept_terminal : Kept row_le (λ m, terminal (mstate m) = true).
Proof. intros m m' [_ _ _ _ Hf] E. by rewrite Hf. Qed.

#[export] Instance kept_pure {A} (R : A → A → Prop) (X : Prop) : Kept R (λ _, X).
Proof. by intros x y _. Qed.

#[export] Instance kept_and {A} (R : A → A → Prop) F G :
  Kept R F → Kept R G → Kept R (λ x, F x ∧ G x).
Proof. intros HF HG x y ? [? ?]. split; [by apply (HF x)|by apply (HG x)]. Qed.

#[export] Instance kept_fork_key key : Kept fork_advances (λ k, fork_key k = key).
Proof. intros k k' (_ & _ & _ & -> & _). done. Qed.

#[export] Instance kept_request_hash h : Kept fork_advances (λ k, k_request_hash k = h).
Proof. intros k k' (_ & _ & _ & _ & ->). done. Qed.

#[export] Instance kept_fork_ended s : s ≠ ForkPending → Kept fork_advances (λ k, k_state k = s).
Proof. intros Hs k k' (_ & _ & Hst & _) E. destruct Hst as [-> _]; [by rewrite E|done]. Qed.

#[export] Instance kept_fork_failure f :
  Kept fork_advances (λ k, k_state k = ForkFailed ∧ k_failure k = Some f).
Proof.
  intros k k' (_ & _ & Hst & _) [E1 E2]. destruct Hst as [-> ->]; [by rewrite E1|done].
Qed.
End stability.

(** ** The logic *)

Section logic.
Context `{BillingAdmission FleetDb} (created : Identity → Prop) (Hc : created_ok created).
Context (schedule : nat → Turn).

(** What happens while a procedure awaits are steps of the fleet. *)
Definition polite : Prop :=
  ∀ n db, sound created db → fleet_steps created db (others (schedule n) db).

Context (Hpolite : polite).
Implicit Types (P : FleetDb → Prop) (R : Failure → FleetDb → Prop).

(** The assertion an outcome makes: [Q] of a result, [R] of a recorded fork
    failure, nothing of any other error. *)
Definition outcome {A} R (Q : A → FleetDb → Prop) (r : result ServiceError A) (db : FleetDb) : Prop :=
  match r with
  | Ok a => Q a db
  | Err (ReplayedForkFailure f _) => R f db
  | Err _ => True
  end.

Definition post {A} R P (m : Service A) (Q : A → FleetDb → Prop) : Prop :=
  ∀ w, sound created (w_db w) → P (w_db w) →
    fleet_steps created (w_db w) (w_db (m w).2) ∧ outcome R Q (m w).1 (w_db (m w).2).

Lemma post_stable {A} R P `{!Stable created P} (m : Service A) Q :
  post R P m Q → post R P m (λ a db, P db ∧ Q a db).
Proof.
  intros Hm w Hs Hp. destruct (Hm w Hs Hp) as [Hst Ho]. split; [done|].
  destruct (sound_steps created Hc _ _ Hs Hst) as [Hs' Hle].
  destruct (m w) as [[a|[]] w']; simpl in *; try done.
  split; [|done]. by apply (stable (w_db w)).
Qed.

Lemma post_bind {A B} R P `{!Stable created P} (m : Service A) (k : A → Service B) Q S :
  post R P m Q → (∀ a, post R (λ db, P db ∧ Q a db) (k a) S) → post R P (m ≫= k) S.
Proof.
  intros Hm Hk w Hs Hp. apply post_stable in Hm; [|done].
  destruct (Hm w Hs Hp) as [Hst Ho]. unfold mbind, act_bind.
  destruct (m w) as [[a|e] w'] eqn:E; simpl in *.
  - destruct (sound_steps created Hc _ _ Hs Hst) as [Hs' _].
    destruct (Hk a w' Hs' Ho) as [Hst' Ho']. split; [by etransitivity|done].
  - by destruct e.
Qed.

Lemma post_pre {A} R P P' (m : Service A) Q :
  post R P' m Q → (∀ db, sound created db → P db → P' db) → post R P m Q.
Proof. intros Hm Hpp w Hs Hp. apply Hm; [done|]. by apply Hpp. Qed.

Lemma post_conseq {A} R P (m : Service A) Q Q' :
  post R P m Q → (∀ a db, sound created db → Q a db → Q' a db) → post R P m Q'.
Proof.
  intros Hm Hq w Hs Hp. destruct (Hm w Hs Hp) as [Hst Ho]. split; [done|].
  destruct (sound_steps created Hc _ _ Hs Hst) as [Hs' _].
  destruct (m w) as [[a|[]] w']; simpl in *; auto.
Qed.

(** Anything the precondition says of the tables it holds in can be assumed. *)
Lemma post_given {A} R P (m : Service A) Q :
  (∀ db, sound created db → P db → post R P m Q) → post R P m Q.
Proof. intros Hm w Hs Hp. by apply (Hm (w_db w)). Qed.

Lemma post_ret {A} R P (a : A) Q : (∀ db, sound created db → P db → Q a db) → post R P (mret a) Q.
Proof. intros Hq w Hs Hp. split; [apply rtc_refl|]. by apply Hq. Qed.

Lemma post_lift {A} R P (r : result ServiceError A) Q :
  (∀ db, sound created db → P db → outcome R Q r db) → post R P (lift r) Q.
Proof. intros Hq w Hs Hp. split; [apply rtc_refl|]. by apply Hq. Qed.

Lemma post_throw {A} R P e (Q : A → FleetDb → Prop) :
  (∀ db, sound created db → P db → outcome R Q (Err e) db) → post R P (athrow e) Q.
Proof. intros Hq w Hs Hp. split; [apply rtc_refl|]. by apply Hq. Qed.

Lemma post_attempt {A} R R' P (m : Service A) Q :
  post R P m Q → post R' P (attempt m) (outcome R Q).
Proof.
  intros Hm w Hs Hp. destruct (Hm w Hs Hp) as [Hst Ho].
  unfold attempt. by destruct (m w) as [r w'].
Qed.

Lemma post_call {A} R P c (answer : list HostCall → result HostError A) :
  post R P (call c answer) (λ _ _, True).
Proof.
  intros w _ _. split; [apply rtc_refl|]. simpl. by destruct (answer (w_calls w ++ [c])) as [|[]].
Qed.

Lemma post_draw R P : post R P (draw schedule) (λ _ _, True).
Proof. intros w _ _. split; [apply rtc_refl|done]. Qed.

Lemma post_await {A} R P `{!Stable created P} (t : Turn → Tx FleetDb FleetError A) Q :
  (∀ turn db, sound created db → P db →
     ∃ c, permitted created db c ∧ exec c db = commit (t turn) db) →
  (∀ turn db a db', sound created db → P db → sound created db' → fleet_le db db' →
     t turn db = Ok (a, db') → Q a db') →
  post R P (await schedule t) Q.
Proof.
  intros Hstep Hans w Hs Hp.
  pose proof (Hpolite (w_tick w) (w_db w) Hs) as Hoth.
  set (turn := schedule (w_tick w)) in *.
  destruct (sound_steps created Hc _ _ Hs Hoth) as [Hs1 Hle1].
  assert (P (others turn (w_db w))) as Hp1 by by apply (stable (w_db w)).
  destruct (Hstep turn _ Hs1 Hp1) as (c & Hperm & Hexec).
  assert (fleet_steps created (w_db w) (commit (t turn) (others turn (w_db w)))) as Hall.
  { etransitivity; [done|]. rewrite <- Hexec. by apply rtc_once, step_command. }
  assert (fleet_steps created (others turn (w_db w)) (commit (t turn) (others turn (w_db w)))) as Hone.
  { rewrite <- Hexec. by apply rtc_once, step_command. }
  destruct (sound_steps created Hc _ _ Hs1 Hone) as [Hs2 Hle2].
  unfold await. fold turn. unfold commit, transaction in *.
  destruct (t turn (others turn (w_db w))) as [[a db']|e] eqn:E; simpl in *;
    destruct (delivery turn); simpl; split; try done.
  by apply (Hans turn (others turn (w_db w))).
Qed.

Lemma post_query {A} R P `{!Stable created P} (f : Turn → FleetDb → A) Q :
  (∀ turn db, sound created db → P db → Q (f turn db) db) → post R P (query schedule f) Q.
Proof.
  intros Hq w Hs Hp.
  pose proof (Hpolite (w_tick w) (w_db w) Hs) as Hoth.
  destruct (sound_steps created Hc _ _ Hs Hoth) as [Hs1 Hle1].
  unfold query, await, transaction, gets. simpl.
  destruct (delivery (schedule (w_tick w))); simpl; split; try done.
  apply Hq; [done|]. by apply (stable (w_db w)).
Qed.

Lemma post_if {A} R P (b : bool) (m1 m2 : Service A) Q :
  (b = true → post R P m1 Q) → (b = false → post R P m2 Q) → post R P (if b then m1 else m2) Q.
Proof. destruct b; auto. Qed.
End logic.

Arguments post {_} _ {A} _ _ _ _.

(** * Request texts

    The JSON text a request hash is taken of determines the strings and numbers
    it was built from; with a digest without collisions, so does the hash. *)

(** ** Numbers *)

Lemma pretty_sep_inj (c : ascii) (a b : Z) r r' :
  digit c = false → c ≠ "-"%char →
  pretty a +:+ String c r = pretty b +:+ String c r' → a = b ∧ r = r'.
Proof.
  intros Hd Hm Heq. apply split_sep in Heq as [Hp Hr]; [|by apply pretty_Z_chars..].
  split; [by apply (inj pretty)|done].
Qed.

Lemma resources_json_inj r s t t' :
  resources_json r +:+ t = resources_json s +:+ t' → r = s ∧ t = t'.
Proof.
  unfold resources_json, json_object, json_member. simpl join. rewrite !string_app_assoc.
  intros Heq. apply string_app_cancel in Heq.
  apply json_text_inj in Heq as [_ Heq]. apply string_app_cancel in Heq.
  apply (pretty_sep_inj ",") in Heq as [Hv Heq]; [|done..].
  apply json_text_inj in Heq as [_ Heq]. apply string_app_cancel in Heq.
  apply (pretty_sep_inj ",") in Heq as [Hm Heq]; [|done..].
  apply json_text_inj in Heq as [_ Heq]. apply string_app_cancel in Heq.
  apply (pretty_sep_inj "}") in Heq as [Hd Heq]; [|done..].
  destruct r, s; simpl in *. by subst.
Qed.

(** ** Requests *)

Lemma join_cons s l : l ≠ [] → join "," (s :: l) = s +:+ "," +:+ join "," l.
Proof. by destruct l. Qed.

Lemma createRequestText_resources input v input' v' :
  createRequestText input v = createRequestText input' v' → vc_resources v = vc_resources v'.
Proof.
  unfold createRequestText, json_object. cbn [app].
  set (rest := optional_member "template" (cm_template input) ++ _).
  set (rest' := optional_member "template" (cm_template input') ++ _).
  assert (∀ (a b c : list string) x y, a ++ b ++ c ++ [x; y] ≠ []) as Hne.
  { intros [|??] [|??] [|??] x y; discriminate. }
  assert (rest ≠ [] ∧ rest' ≠ []) as [Hr Hr'] by (split; apply Hne).
  clearbody rest rest'.
  rewrite !join_cons by done. unfold json_member. rewrite !string_app_assoc.
  intros Heq. apply string_app_cancel in Heq.
  do 3 (apply json_text_inj in Heq as [_ Heq]; apply string_app_cancel in Heq;
        apply json_text_inj in Heq as [_ Heq]; apply string_app_cancel in Heq).
  apply json_text_inj in Heq as [_ Heq]. apply string_app_cancel in Heq.
  by apply resources_json_inj in Heq as [? _].
Qed.
