(* ===== verification/ServiceProofs.v ===== *)
(** * The services in the logic

    Each method of the machine service takes only steps the fleet permits, and
    what its result says of the tables. *)

From S2P Require Import Prelude Text Js Capacity Lifecycle Billing Fleet Scheduler MachineRepo.
From S2P Require Import ForkRepo ReconcileDb FleetInv FleetSteps FleetHard FleetForks FleetStep.
From S2P Require Import FleetKeys FleetTheorems NetworkPolicy Awaiting MachineService.
From S2P Require Import ServiceLogic.

Section services.
Context `{NodeNet} (sha256 : string → string).

(** The identities [create] inserts. *)
Definition requested (i : Identity) : Prop :=
  ∃ input v lease createdAt, validateCreate input = Ok v ∧
    i = created_identity input v lease (sha256 (createRequestText input v)) createdAt.

Lemma validateCreate_resources input v :
  validateCreate input = Ok v → validateResources (cm_resources input) = Ok (vc_resources v).
Proof.
  unfold validateCreate. intros Hv.
  do 4 (destruct (_ : bool) in Hv; [done|]).
  destruct (safe_between _ _ _); [|done]. destruct (validateResources _) as [r|]; [|done].
  destruct (newEgressPolicy _ _); [|done]. destruct (negb _); [done|]. by injection Hv as <-.
Qed.

Lemma requested_ok : created_ok requested.
Proof.
  intros i (input & v & lease & at_ & Hv & ->). split; [done|].
  apply validateCreate_resources, validateResources_spec in Hv.
  intros []; simpl in *; lia.
Qed.

Context `{BillingAdmission FleetDb} `{HostClient} (schedule : nat → Turn).
Context (Hpolite : polite requested schedule).
Context (sha256_inj : Inj (=) (=) sha256) (sha256_nonempty : ∀ s, sha256 s ≠ "").

Implicit Types (P : FleetDb → Prop) (R : Failure → FleetDb → Prop).

#[local] Abbreviation created := requested.
#[local] Abbreviation hoare := (post created).

(** ** What a read machine still says later *)

(** The row has only moved forward since it was read. *)
Definition still (machine : Machine) : FleetDb → Prop := has_row (v_id machine) (row_le (v_row machine)).

#[local] Instance kept_still m : Kept row_le (row_le m).
Proof. intros x y Hle Hx. by etransitivity. Qed.

#[local] Instance still_stable machine : Stable created (still machine).
Proof. apply _. Qed.

Definition of_tenant (org : string) (project : option string) (machine : Machine) : Prop :=
  organization_id (ident (v_row machine)) = org ∧
  ∀ p, project = Some p → project_id (ident (v_row machine)) = p.

Lemma find_Some db id org project m :
  find db id org project = Some m →
  machines db !! id = Some m ∧ in_organization org m = true ∧
  match project with Some p => in_project p m | None => true end = true ∧ visible db m = true.
Proof.
  unfold find. destruct (machines db !! id) as [m'|]; [|done].
  destruct (_ && _) eqn:E; [|done]. intros [= ->].
  apply andb_true_iff in E as [[? ?]%andb_true_iff ?]. done.
Qed.

Lemma post_find R P `{!Stable created P} id org project :
  hoare R P (repository_find schedule id org project) (λ found db,
    match found with
    | Some machine => v_id machine = id ∧ of_tenant org project machine ∧
                      still machine db ∧ settled id db
    | None => True
    end).
Proof.
  apply post_query; [apply requested_ok|done|done|]. intros turn db Hs HP.
  destruct (find db id org project) as [m|] eqn:E; [|done]. simpl.
  apply find_Some in E as (Hm & Ho & Hp & Hv). split_and!; [done| | |].
  - split; [by apply String.eqb_eq|]. intros p ->. by apply String.eqb_eq.
  - exists m. by split.
  - exists m. split; [done|]. by apply visible_not_pending.
Qed.

Lemma still_ident machine db m :
  still machine db → machines db !! v_id machine = Some m → ident m = ident (v_row machine).
Proof. intros (m' & Hm' & [Hi _ _ _ _]) Hm. rewrite Hm in Hm'. by injection Hm' as <-. Qed.

Lemma still_host machine db h m :
  still machine db → host_id (place (v_row machine)) = Some h →
  machines db !! v_id machine = Some m → host_id (place m) = Some h.
Proof.
  intros (m' & Hm' & [_ Hh _ _ _]) E Hm. rewrite Hm in Hm'. injection Hm' as <-.
  rewrite Hh; [done|]. by rewrite E.
Qed.

(** ** Transitions and releases *)

Lemma settled_not_pending id db : settled id db → not_pending db id.
Proof. intros (m & Hm & Hp) m' Hm'. rewrite Hm in Hm'. by injection Hm' as <-. Qed.

(** What a transition that ran has left: the machine is where it was sent, or was
    not in one of the states it may leave. *)
Lemma post_transition R P `{!Stable created P} id from to reason :
  (from, to) ∈ service_edges → (∀ db, sound created db → P db → not_pending db id) →
  hoare R P (repository_transition schedule id from to reason) (λ moved db,
    ∀ m, machines db !! id = Some m →
      if (moved : bool) then mstate m = to else in_states (mstate m) from = false).
Proof.
  intros He Hp. apply post_await; [apply requested_ok|done|done| |].
  - intros turn db Hs HP.
    exists (Transition (t_now turn) id from to reason (t_random turn 0)).
    split; [|done]. split; [done|]. by apply Hp.
  - intros turn db moved db' Hs HP _ _. unfold transition.
    destruct (machines db !! id) as [m0|] eqn:Hm0; [|intros [= <- <-] m Hm; congruence].
    destruct (in_states (mstate m0) from) eqn:E; intros [= <- <-] m Hm.
    + simpl in Hm. rewrite lookup_insert_eq in Hm. injection Hm as <-. apply transitioned_state.
    + by rewrite Hm0 in Hm; injection Hm as <-.
Qed.

Lemma post_release R P `{!Stable created P} host r id :
  (∀ db m, sound created db → P db → machines db !! id = Some m →
     terminal (mstate m) = true ∧ host_id (place m) = Some host ∧ resources (ident m) = r) →
  hoare R P (scheduler_release schedule host r id) (λ _ _, True).
Proof.
  intros Hp. apply post_await; [apply requested_ok|done|done| |done].
  intros turn db Hs HP. exists (Release (t_now turn) host r id). split; [|done].
  intros m Hm. by apply Hp with db.
Qed.

(** A statement every caller may issue at any time. *)
Lemma post_free {A} R P `{!Stable created P} (t : Turn → Tx FleetDb FleetError A) Q c :
  (∀ turn db, permitted created db (c turn)) → (∀ turn db, exec (c turn) db = commit (t turn) db) →
  (∀ turn db a db', sound created db → P db → t turn db = Ok (a, db') → Q a db') →
  hoare R P (await schedule t) Q.
Proof.
  intros Hperm Hexec HQ. apply post_await; [apply requested_ok|done|done| |].
  - intros turn db _ _. by exists (c turn).
  - intros turn db a db' Hs HP _ _. by apply HQ.
Qed.

(** ** Creating *)

(** An identity without its creation time, which the database sets. *)
Definition undated (i : Identity) : Identity :=
  mkIdentity (organization_id i) (project_id i) (lease_id i) (lease_generation i)
    (idempotency_key i) (idempotency_request_hash i) (region_id i) (architecture i)
    (template_name i) (template_id i) (source_oci_ref i) (requested_ttl_seconds i) (resources i)
    (network_policy i) (parent_machine_id i) (fork_operation_id i) 0.

(** The machine has a row, and it is the one the view shows. *)
Definition has_machine (machine : Machine) : FleetDb → Prop :=
  has_row (v_id machine) (λ m, undated (ident m) = undated (ident (v_row machine))).

#[local] Instance has_machine_stable machine : Stable created (has_machine machine).
Proof. apply stable_row. intros x y [-> _ _ _ _]. done. Qed.

Lemma still_has_machine machine db : still machine db → has_machine machine db.
Proof. intros (m & Hm & [Hi _ _ _ _]). exists m. by rewrite Hi. Qed.

Section create.
Context (input : CreateMachine) (v : ValidCreate) (Hvalid : validateCreate input = Ok v).

Local Definition requestHash : string := sha256 (createRequestText input v).

(** The identity is of this request: its tenant and key, and, unless it is a
    fork child that happens to carry the key, its hash and resources. *)
Definition asked (i : Identity) : Prop :=
  organization_id i = cm_organizationId input ∧ project_id i = cm_projectId input ∧
  idempotency_key i = cm_idempotencyKey input ∧
  (fork_operation_id i = None →
     idempotency_request_hash i = requestHash ∧ resources i = vc_resources v).

Lemma asked_undated i j : undated i = undated j → asked i → asked j.
Proof.
  intros Hu. unfold asked.
  assert (organization_id i = organization_id j ∧ project_id i = project_id j ∧
    idempotency_key i = idempotency_key j ∧ fork_operation_id i = fork_operation_id j ∧
    idempotency_request_hash i = idempotency_request_hash j ∧ resources i = resources j)
    as (-> & -> & -> & -> & -> & ->); [|done].
  destruct i, j. unfold undated in Hu. simpl in *. injection Hu. intros. subst. done.
Qed.

Definition located_ok (l : Located) (db : FleetDb) : Prop :=
  match l with
  | Replayed machine => asked (ident (v_row machine)) ∧ has_machine machine db
  | ToClaim machine _ => asked (ident (v_row machine)) ∧ has_machine machine db ∧
                         fork_operation_id (ident (v_row machine)) = None
  end.

(** A row found under the request's key. *)
Definition keyed (machine : Machine) (db : FleetDb) : Prop :=
  still machine db ∧
  machine_key (v_row machine)
    = (cm_organizationId input, cm_projectId input, cm_idempotencyKey input) ∧
  (fork_operation_id (ident (v_row machine)) = None → requested (ident (v_row machine))) ∧
  (mstate (v_row machine) = Requested → fork_operation_id (ident (v_row machine)) = None).

Lemma post_byKey R P `{!Stable created P} :
  hoare R P (repository_findByIdempotency schedule (cm_organizationId input) (cm_projectId input)
               (cm_idempotencyKey input))
    (λ found db, match found with Some machine => keyed machine db | None => True end).
Proof.
  apply post_query; [apply requested_ok|done|done|]. intros turn db Hs HP.
  destruct (findByIdempotency _ _ _ _) as [[id m]|] eqn:E; [|done]. simpl.
  apply findByIdempotency_Some in E as [Hm Hkey]. split_and!.
  - exists m. by split.
  - done.
  - intros Hf. by apply (sn_made _ _ Hs id m).
  - intros Hst. apply (unplaced_no_fork db id m); [apply Hs|done|].
    unfold unplaced. simpl in Hst. by rewrite Hst.
Qed.

Lemma replay_of_ok R machine db :
  keyed machine db → outcome R located_ok (replay_of machine requestHash) db.
Proof.
  intros (Hst & Hkey & Hreq & Hfork). unfold replay_of.
  destruct (hash_conflicts machine requestHash) eqn:Eh; [done|].
  unfold throwPersistedCreateFailure. destruct (create_failure _); [done|].
  assert (asked (ident (v_row machine))) as Hask.
  { unfold machine_key in Hkey. injection Hkey as Ho Hp Hk. split_and!; [done..|]. intros Hf.
    destruct (Hreq Hf) as (input' & v' & lease & at_ & Hv' & Hi).
    unfold hash_conflicts in Eh. rewrite Hi in Eh |- *. simpl in *.
    apply andb_false_iff in Eh as [Eh|Eh]; apply negb_false_iff, String.eqb_eq in Eh;
      [by destruct (sha256_nonempty _ Eh)|].
    split; [done|]. apply (inj sha256) in Eh. by eapply createRequestText_resources. }
  simpl. case_bool_decide as Hm; simpl; (split; [done|]);
    [split; [|by apply Hfork]|]; by apply still_has_machine.
Qed.

Lemma post_locate R P `{!Stable created P} :
  hoare R P (locate schedule input v requestHash) located_ok.
Proof.
  unfold locate. eapply post_bind; [apply requested_ok|done|by apply post_byKey|]. intros [machine|].
  { apply post_lift. intros db _ [_ Hk]. by apply replay_of_ok. }
  eapply post_bind; [apply requested_ok|apply _|apply post_draw|]. intros t.
  set (machine := newMachine input v requestHash t).
  eapply post_bind; [apply requested_ok|apply _| |].
  { eapply post_attempt.
    apply (post_await created requested_ok schedule Hpolite (λ _ _, False) _ _ (λ _, has_machine machine)).
    - intros turn db _ _. eexists (InsertRequested (t_now turn) (v_id machine) _ _ (t_random turn 0)).
      split; [|reflexivity]. simpl. by exists input, v, (t_random t 1), (t_now turn).
    - intros turn db a db' _ _ _ _ Hi. unfold insertRequested in Hi.
      destruct (negb _); [done|]. destruct (insert_conflicts _ _ _); [done|].
      apply ok_pair in Hi as [_ <-]. eexists. split; [simpl; by rewrite lookup_insert_eq|done]. }
  intros [[]|error].
  - apply post_ret. intros db _ [_ Hm]. split; [|split; [exact Hm|done]].
    split_and!; try done.
  - apply post_given. intros db0 _ [_ Hplain].
    eapply (post_pre _ _ _ P); [|by intros db _ [[[? _] _] _]].
    eapply post_bind; [apply requested_ok|done|by apply post_byKey|]. intros [raced|].
    + apply post_lift. intros db _ [_ Hk]. by apply replay_of_ok.
    + apply post_throw. intros db _ _. by destruct error.
Qed.

(** Errors that are no recorded fork failure. *)
Definition plain (e : ServiceError) : Prop := ∀ f audit, e ≠ ReplayedForkFailure f audit.

Lemma plain_outcome {A} R (Q : A → FleetDb → Prop) e db : plain e → outcome R Q (Err e) db.
Proof. intros Hp. destruct e; try done. by destruct (Hp f auditOperationId). Qed.

Section placing.
Context (machine : Machine) (Hasked : asked (ident (v_row machine)))
  (Hfork : fork_operation_id (ident (v_row machine)) = None).

Lemma row_resources db m :
  has_machine machine db → machines db !! v_id machine = Some m →
  resources (ident m) = vc_resources v ∧ fork_operation_id (ident m) = None.
Proof.
  intros (m' & Hm' & Hu) Hm. rewrite Hm in Hm'. injection Hm' as <-.
  assert (fork_operation_id (ident m) = fork_operation_id (ident (v_row machine)) ∧
    resources (ident m) = resources (ident (v_row machine))) as [-> ->].
  { unfold undated in Hu. by injection Hu. }
  split; [|done]. by apply Hasked.
Qed.

Lemma placing_not_pending db : has_machine machine db → not_pending db (v_id machine).
Proof.
  intros Hh m Hm. destruct (row_resources db m Hh Hm) as [_ Hf].
  unfold fork_pending. by rewrite Hf.
Qed.

(** The machine is placed where the reservation says. *)
Definition placed (reservation : option Reservation) (db : FleetDb) : Prop :=
  match reservation with
  | Some rv => has_row (v_id machine) (λ m, host_id (place m) = Some (rv_host rv)) db
  | None => True
  end.

#[local] Instance placed_stable reservation : Stable created (placed reservation).
Proof. destruct reservation; apply _. Qed.

Lemma post_releaseCreateClaim R P `{!Stable created P} token :
  hoare R P (await schedule (λ _, releaseCreateClaim (v_id machine) token)) (λ _ _, True).
Proof. by eapply (post_free _ _ _ _ (λ _, ReleaseCreateClaim (v_id machine) token)). Qed.

Lemma post_abandon {A} R token reservation error (Q : A → FleetDb → Prop) :
  plain error →
  hoare R (λ db, has_machine machine db ∧ placed reservation db)
    (abandonCreate schedule machine (vc_resources v) token reservation error) Q.
Proof.
  intros Hplain. unfold abandonCreate.
  eapply post_bind; [apply requested_ok|apply _| |].
  { apply (post_free _ _ _ (λ failed db, failed = true →
      has_row (v_id machine) (λ m, terminal (mstate m) = true) db)
      (λ t, FailCreate (t_now t) (v_id machine) token (failureForCreateError error) (t_random t 0)));
      [done|done|].
    intros turn db failed db' _ _ Hf ->. unfold failCreate in Hf.
    destruct (machines db !! v_id machine) as [m|]; [|done]. destruct (_ && _); [|done].
    apply ok_pair in Hf as [_ <-]. eexists. split; [simpl; by rewrite lookup_insert_eq|done]. }
  intros failed. cbv beta.
  assert (Stable created (λ db, (has_machine machine db ∧ placed reservation db) ∧
    (failed = true → has_row (v_id machine) (λ m, terminal (mstate m) = true) db))) as Hst.
  { apply stable_and; [apply _|]. destruct failed.
    - intros db db' Hs Hs' Hle Hr _. by apply (stable db db' Hs Hs' Hle), Hr.
    - by intros db db' _ _ _ _. }
  eapply post_bind with (Q := λ _ _, True); [apply requested_ok|done| |].
  - destruct reservation as [rv|]; [destruct failed|]; [|by apply post_ret..].
    apply post_release; [done|]. intros db m Hs ((Hh & Hp) & Ht) Hm.
    destruct (Ht eq_refl) as (m1 & Hm1 & Hterm). rewrite Hm in Hm1. injection Hm1 as <-.
    destruct Hp as (m2 & Hm2 & Hhost). rewrite Hm in Hm2. injection Hm2 as <-.
    split_and!; [done..|]. by apply (row_resources db).
  - intros _. eapply post_bind with (Q := λ _ _, True); [apply requested_ok|by apply stable_and, _| |].
    + destruct failed; [by apply post_ret|]. by apply post_releaseCreateClaim, stable_and, _.
    + intros _. apply post_throw. intros db _ _. by apply plain_outcome.
Qed.

(** The answer of [create] is the requested machine. *)
Definition answers (r : Machine * bool) (db : FleetDb) : Prop :=
  asked (ident (v_row r.1)) ∧ has_machine r.1 db.

(** Whatever row is found under the machine's identifier is the machine. *)
Lemma found_machine db (found : option Machine) :
  has_machine machine db →
  match found with
  | Some m => v_id m = v_id machine ∧ still m db
  | None => True
  end →
  asked (ident (v_row (default machine found))) ∧ has_machine (default machine found) db.
Proof.
  intros Hh Hf. destruct found as [m|]; simpl; [|done]. destruct Hf as [Hid Hst].
  split; [|by apply still_has_machine].
  destruct Hh as (x & Hx & Hu). rewrite <- Hid in Hx.
  rewrite <- (still_ident m db x Hst Hx).
  by eapply asked_undated.
Qed.

Lemma post_findAgain R P `{!Stable created P} project replayed :
  (∀ db, P db → has_machine machine db) →
  hoare R P (found ← repository_find schedule (v_id machine) (organization_id (ident (v_row machine))) project;
             mret (default machine found, replayed)) answers.
Proof.
  intros Hh. eapply post_bind; [apply requested_ok|done|by apply post_find|]. intros found.
  apply post_ret. intros db _ [HP Hf]. apply found_machine; [by apply Hh|].
  destruct found; [|done]. by destruct Hf as (? & _ & ? & _).
Qed.

Lemma post_createFailed R replayed token reservation hm error :
  plain error →
  hoare R (λ db, has_machine machine db ∧ placed reservation db)
    (createFailed schedule machine replayed (vc_resources v) token reservation hm error) answers.
Proof.
  intros Hplain. unfold createFailed.
  destruct hm as [hm|].
  - destruct reservation as [rv|]; [|by apply post_abandon].
    eapply post_bind; [apply requested_ok|apply _|by eapply post_attempt, (post_call _ (λ _ _, True))|].
    intros [[]|lost].
    { eapply post_pre; [by apply post_abandon|]. by intros db _ [? _]. }
    eapply (post_pre _ _ _ (has_machine machine)); [|by intros db _ [[? _] _]].
    eapply post_bind with (Q := λ _ _, True); [apply requested_ok|apply _| |intros moved].
    { eapply post_conseq; [apply requested_ok| |done].
      apply post_transition; [apply _|by apply list_elem_of_here|]. intros db _. apply placing_not_pending. }
    eapply post_bind with (Q := λ _ _, True); [apply requested_ok|apply _| |intros _].
    { apply post_releaseCreateClaim. apply _. }
    apply post_throw. intros db _ _. by apply plain_outcome.
  - assert (hoare R (λ db, has_machine machine db ∧ placed reservation db)
      (if match as_HostRequestError error with Some f => hf_ambiguous f | None => false end
       then found ← repository_find schedule (v_id machine) (organization_id (ident (v_row machine))) None;
            mret (default machine found, replayed)
       else abandonCreate schedule machine (vc_resources v) token reservation error) answers) as Hg.
    { apply post_if; intros _; [apply post_findAgain; [apply _|by intros db [? _]]|by apply post_abandon]. }
    by destruct reservation.
Qed.

Lemma post_placeMachine R replayed token :
  hoare R (has_machine machine) (placeMachine schedule input v machine replayed token) answers.
Proof.
  unfold placeMachine.
  eapply post_bind with (Q := λ _ _, True); [apply requested_ok|apply _| |intros found].
  { eapply post_conseq; [apply requested_ok|by apply post_find, _|done]. }
  eapply (post_pre _ _ _ (has_machine machine)); [|by intros db _ [? _]].
  eapply post_bind; [apply requested_ok|apply _| |].
  { apply post_attempt with (R := λ _ _, False).
    apply post_await with (Q := λ rv db, assignmentCommitted rv = true ∧ placed (Some rv) db);
      [apply requested_ok|done|apply _| |].
    - intros turn db Hs Hh. exists (Reserve (t_now turn) (t_locked turn) (scheduleRequest input (v_id machine))).
      split; [|done]. exists (v_id machine). split; [done|]. intros m r Hm Hr. simpl in Hr.
      rewrite (validateCreate_resources input v Hvalid) in Hr. injection Hr as <-.
      by apply (row_resources db).
    - intros turn db rv db' Hs Hh _ _ Hr.
      apply (reserve_spec _ _ _ (v_id machine)) in Hr
        as (r & host & h & m & _ & _ & _ & Hm & _ & -> & ->); [|done].
      split; [done|]. eexists. split; [simpl; by rewrite lookup_insert_eq|done]. }
  intros [rv|error].
  2:{ apply post_given. intros db0 _ [_ Hplain].
      eapply post_pre; [apply post_createFailed; by destruct error|]. intros db _ [? _]. by split. }
  cbv beta iota. apply post_given. intros db0 _ [_ [Hcommitted _]]. rewrite Hcommitted.
  eapply (post_pre _ _ _ (λ db, has_machine machine db ∧ placed (Some rv) db));
    [|by intros db _ [? [_ ?]]].
  eapply post_bind with (Q := λ r _, r = Ok ()); [apply requested_ok|apply _| |].
  { intros w _ _. split; [apply rtc_refl|done]. }
  intros assigned. apply post_given. intros db1 _ [_ ->].
  eapply (post_pre _ _ _ (λ db, has_machine machine db ∧ placed (Some rv) db));
    [|by intros db _ [? _]].
  eapply post_bind; [apply requested_ok|apply _|by eapply post_attempt, (post_call _ (λ _ _, False))|].
  intros [hm|error].
  2:{ apply post_given. intros db2 _ [_ Hplain].
      eapply post_pre; [apply post_createFailed; by destruct error|]. by intros db _ [? _]. }
  eapply (post_pre _ _ _ (λ db, has_machine machine db ∧ placed (Some rv) db));
    [|by intros db _ [? _]].
  eapply post_bind; [apply requested_ok|apply _| |].
  { apply post_attempt with (R := λ _ _, False).
    apply post_await with (Q := λ _ _, True); [apply requested_ok|done|apply _| |done].
    intros turn db Hs [Hh _].
    exists (ObserveHost (t_now turn) (t_clock turn) (v_id machine) hm (t_random turn 0)).
    split; [|done]. intros m Hm. by apply (row_resources db). }
  intros [[]|error].
  2:{ apply post_given. intros db2 _ [_ Hplain].
      eapply post_pre; [apply post_createFailed; by destruct error|]. by intros db _ [? _]. }
  apply post_findAgain; [apply _|by intros db [[? _] _]].
Qed.
End placing.

Lemma post_create_valid R :
  hoare R (λ _, True)
    (located ← locate schedule input v requestHash;
     match located with
     | Replayed machine => mret (machine, true)
     | ToClaim machine replayed =>
         claimed ← await schedule (λ t, claimCreate (t_now t) (v_id machine) (t_random t 0));
         if truthy claimed then placeMachine schedule input v machine replayed (default "" claimed)
         else
           found ← repository_find schedule (v_id machine) (organization_id (ident (v_row machine)))
                     (Some (project_id (ident (v_row machine))));
           let pending := default machine found in
           if hash_conflicts pending requestHash then lift keyReused
           else _ ← lift (throwPersistedCreateFailure pending); mret (pending, true)
     end) answers.
Proof.
  eapply post_bind; [apply requested_ok|apply _|apply post_locate, _|]. intros [machine|machine replayed].
  { apply post_ret. by intros db _ [_ ?]. }
  apply post_given. intros db0 _ [_ (Hask & _ & Hfork)].
  eapply (post_pre _ _ _ (has_machine machine)); [|by intros db _ [_ (_ & ? & _)]].
  eapply post_bind with (Q := λ _ _, True); [apply requested_ok|apply _| |].
  { by eapply (post_free _ _ _ _ (λ t, ClaimCreate (t_now t) (v_id machine) (t_random t 0))). }
  intros claimed. apply post_if; intros _.
  { eapply post_pre; [by apply post_placeMachine|]. by intros db _ [? _]. }
  eapply post_bind; [apply requested_ok|apply _|apply post_find, _|]. intros found. cbv zeta.
  apply post_if; intros _; [by apply post_lift|].
  eapply (post_pre _ _ _ (λ db, answers (default machine found, true) db)).
  2:{ intros db _ [[Hh _] Hf]. apply found_machine; [done|done|].
      destruct found; [|done]. by destruct Hf as (? & _ & ? & _). }
  eapply post_bind with (Q := λ _ _, True); [apply requested_ok| | |].
  - apply stable_and; apply _.
  - apply post_lift. intros db _ _. unfold throwPersistedCreateFailure.
    by destruct (create_failure _).
  - intros _. apply post_ret. by intros db _ [? _].
Qed.
End create.

Lemma post_create R input :
  hoare R (λ _, True) (create schedule sha256 input)
    (λ r db, ∃ v, validateCreate input = Ok v ∧ answers input v r db).
Proof.
  unfold create. destruct (validateCreate input) as [v|e] eqn:Ev.
  - eapply post_bind with (Q := λ x _, x = v); [apply requested_ok|apply _| |].
    { by apply post_lift. }
    intros x. apply post_given. intros db0 _ [_ ->].
    eapply (post_pre _ _ _ (λ _, True)); [|done].
    eapply post_conseq; [apply requested_ok|by apply post_create_valid|].
    intros a db _ Ha. by exists v.
  - eapply post_bind with (Q := λ _ _, False); [apply requested_ok|apply _| |].
    { apply post_lift. intros db _ _. unfold validateCreate, invalid in Ev.
      repeat case_match; simplify_eq; done. }
    intros x. apply post_given. by intros db _ [_ ?].
Qed.

(** ** Destroying *)

Lemma post_destroyOnHost R P address hm lease :
  hoare R P (destroyOnHost address hm lease) (λ _ _, True).
Proof.
  intros w Hs HP. unfold destroyOnHost, attempt, call, mbind, act_bind. simpl.
  destruct (answer_destroy _) as [[]|[]]; simpl; (split; [|try done]); try apply rtc_refl;
    by destruct (not_found _).
Qed.

(** What [destroy] promises: a machine it reports on exists and has left the
    states in which it serves. *)
Definition destroyed (id org : string) (project : option string) (r : bool) (db : FleetDb) : Prop :=
  r = true → has_row id (λ m, 4 <= rank (mstate m)) db.

Lemma post_destroy R id org project :
  hoare R (λ _, True) (destroy schedule id org project) (destroyed id org project).
Proof.
  unfold destroy. eapply post_bind; [apply requested_ok|apply _|apply post_find, _|].
  intros [machine|]; [|by apply post_ret].
  apply post_given. intros db0 _ [_ (Hid & _ & _)].
  eapply (post_pre _ _ _ (λ db, still machine db ∧ settled id db)); [|by intros db _ [_ (_ & _ & ?)]].
  apply post_if; intros Ht.
  { apply post_ret. intros db _ [(m & Hm & Hle) _] _. rewrite Hid in Hm. exists m. split; [done|].
    apply terminal_rank in Ht. pose proof (rl_rank _ _ Hle). lia. }
  eapply post_bind with (Q := λ moved db, has_row id (λ m, 4 <= rank (mstate m)) db);
    [apply requested_ok|apply _| |intros moved; cbv beta].
  { eapply post_conseq; [apply requested_ok| |].
    - apply post_stable, post_transition; [apply requested_ok|apply _|apply _| |].
      + by do 2 constructor.
      + intros db _ [_ Hset]. by apply settled_not_pending.
    - intros m db _ [[_ (x & Hx & _)] Hmoved]. specialize (Hmoved x Hx). exists x. split; [done|].
      destruct m; [by rewrite Hmoved|]. by destruct (mstate x). }
  set (P := λ db, still machine db ∧ settled id db ∧ has_row id (λ m, 4 <= rank (mstate m)) db).
  assert (Stable created P) as HP by apply _.
  eapply (post_pre _ _ _ P); [|by intros db _ [[? ?] ?]].
  assert (∀ db, P db → destroyed id org project true db) as Hdone by (intros db (_ & _ & ?) _; done).
  apply post_if; intros _; [apply post_ret; auto|].
  apply post_if; intros _; [apply post_ret; auto|].
  eapply post_bind with (Q := λ _ _, True); [apply requested_ok|done| |intros _].
  { apply post_if; intros _; [apply post_destroyOnHost|by apply post_ret]. }
  eapply (post_pre _ _ _ P); [|by intros db _ [? _]].
  eapply post_bind with (Q := λ _ db, has_row id (λ m, terminal (mstate m) = true) db);
    [apply requested_ok|done| |intros moved2; cbv beta].
  { eapply post_conseq; [apply requested_ok| |].
    - apply post_stable, post_transition; [apply requested_ok|done|done| |].
      + by do 3 constructor.
      + intros db _ (_ & Hset & _). by apply settled_not_pending.
    - intros m db _ [(_ & _ & (x & Hx & Hr)) Hmoved]. specialize (Hmoved x Hx). exists x.
      split; [done|]. destruct m; [by rewrite Hmoved|]. by destruct (mstate x). }
  eapply post_bind with (Q := λ _ _, True); [apply requested_ok|apply _| |].
  { apply post_if; intros Hhost; [|by apply post_ret].
    apply post_release; [apply _|]. rewrite Hid.
    intros db m _ ((Hstill & _ & _) & (x & Hx & Hterm)) Hm.
    rewrite Hm in Hx. injection Hx as <-. rewrite <- Hid in Hm. split; [done|].
    rewrite (still_ident machine db m Hstill Hm). split; [|done].
    destruct (host_id (place (v_row machine))) as [h|] eqn:Eh; [|done].
    by apply (still_host machine db). }
  intros _. apply post_ret. intros db _ [[HPdb _] _]. by apply Hdone.
Qed.

(** ** Extending, reading, running *)

Lemma post_any_query {A} R P `{!Stable created P} (f : Turn → FleetDb → A) :
  hoare R P (query schedule f) (λ _ _, True).
Proof. by apply post_query; [apply requested_ok| | |]. Qed.

Lemma post_destroy_each R rows : hoare R (λ _, True) (destroy_each schedule rows) (λ _ _, True).
Proof.
  induction rows as [|[id m] rows IH]; simpl; [by apply post_ret|].
  eapply post_bind; [apply requested_ok|apply _|apply (post_attempt _ R), post_destroy|]. intros r.
  by eapply post_pre; [exact IH|].
Qed.

Lemma post_reap R : hoare R (λ _, True) (reapExpiredMachines schedule) (λ _ _, True).
Proof.
  eapply post_bind; [apply requested_ok|apply _|apply post_any_query, _|]. intros rows.
  by eapply post_pre; [apply post_destroy_each|].
Qed.

Lemma post_extendOnHost R P `{!Stable created P} id org project key operation current :
  hoare R P (extendOnHost schedule id org project key operation current) (λ _ _, True).
Proof.
  unfold extendOnHost. eapply post_bind; [apply requested_ok|done|apply post_call|]. intros hm.
  destruct (hm_expires_at hm) as [hostExpiry|]; [|by apply post_throw].
  apply post_if; intros _; [by apply post_throw|].
  eapply post_bind with (Q := λ _ _, True); [apply requested_ok|apply _| |intros t].
  { eapply (post_free _ _ _ _ (λ t, CompleteExtend (t_now t) (xo_id operation) id org hostExpiry)); done. }
  eapply post_bind; [apply requested_ok|apply _|apply post_any_query, _|]. intros found.
  by apply post_ret.
Qed.

Lemma post_extend R id org project ttl key :
  hoare R (λ _, True) (extend schedule sha256 id org project ttl key) (λ _ _, True).
Proof.
  unfold extend. apply post_if; intros _; [by apply post_lift|].
  destruct (safe_between _ _ ttl) as [seconds|]; [|by apply post_lift].
  eapply post_bind; [apply requested_ok|apply _|apply post_any_query, _|].
  intros [machine|]; [|by apply post_ret].
  apply post_if; intros _; [by apply post_throw|].
  eapply post_bind with (Q := λ _ _, True); [apply requested_ok|apply _| |].
  { eapply (post_free _ _ _ _ (λ t, BeginExtend (t_clock t) id org (project_id (ident (v_row machine)))
      key (sha256 (extendRequestText (v_id machine) seconds)) seconds)); done. }
  intros [operation|]; [|by apply post_ret].
  apply post_if; intros _; [by apply post_lift|].
  eapply post_bind; [apply requested_ok|apply _|apply post_any_query, _|]. intros found. cbv zeta.
  destruct (xo_resultExpiresAt operation); [by apply post_ret|].
  apply post_if; intros _; [by apply post_ret|]. by apply post_extendOnHost, _.
Qed.

Lemma post_exec R id org project command seconds :
  hoare R (λ _, True) (exec_command schedule id org project command seconds) (λ _ _, True).
Proof.
  unfold exec_command. eapply post_bind; [apply requested_ok|apply _|apply post_any_query, _|].
  intros [machine|]; [|by apply post_ret]. apply post_if; intros _; [|by apply post_ret].
  eapply post_bind; [apply requested_ok|apply _|apply post_call|]. intros r. by apply post_ret.
Qed.

(** ** Forking *)

Section fork.
Context (org source key : string).

(** The operation belongs to this request, and its row has only advanced since
    it was read. *)
Definition tracks (operation : ForkOperation) (db : FleetDb) : Prop :=
  (∃ project, fork_key (fo_row operation) = (org, project, source, key)) ∧
  has_fork (fo_id operation) (fork_advances (fo_row operation)) db ∧
  (k_state (fo_row operation) = ForkFailed → is_Some (k_failure (fo_row operation))).

#[export] Instance tracks_stable operation : Stable created (tracks operation).
Proof.
  assert (Kept fork_advances (fork_advances (fo_row operation))) as Hk.
  { intros x y Hxy Hx. by etransitivity. }
  apply _.
Qed.

(** A failure the request reports is recorded. *)
Definition failed_for (f : Failure) (db : FleetDb) : Prop :=
  ∃ op, has_fork op (λ k, (∃ project, fork_key k = (org, project, source, key)) ∧
                          k_state k = ForkFailed ∧ k_failure k = Some f) db.

(** A result the request reports: the operation exists, and one that is not
    pending has succeeded. *)
Definition forked (r : ForkMachineResult) (db : FleetDb) : Prop :=
  has_fork (fr_operationId r) (λ k, (∃ project, fork_key k = (org, project, source, key)) ∧
    (fr_pending r = false → k_state k = ForkSucceeded)) db.

Lemma forkResult_outcome operation replayed db :
  tracks operation db → outcome failed_for forked (forkResult operation replayed) db.
Proof.
  intros ([project Hkey] & (k & Hk & Hle) & Hfail).
  pose proof Hle as (_ & _ & Hst & Hkey' & _).
  unfold forkResult, throwPersistedForkFailure, is_pending.
  destruct (k_state (fo_row operation)) eqn:Es; simpl.
  - exists k. split; [done|]. split; [exists project; congruence|done].
  - exists k. split; [done|]. split; [exists project; congruence|]. intros _.
    by destruct Hst as [-> _].
  - destruct (Hfail eq_refl) as [f Hf]. rewrite Hf. simpl.
    exists (fo_id operation), k. split; [done|]. split; [exists project; congruence|].
    destruct Hst as [-> ->]; done.
Qed.

Lemma post_forkResult P operation replayed :
  (∀ db, P db → tracks operation db) →
  hoare failed_for P (lift (forkResult operation replayed)) forked.
Proof. intros Ht. apply post_lift. intros db _ HP. by apply forkResult_outcome, Ht. Qed.

Lemma loadForkOperation_tracks tnow op replayed operation db :
  sound created db → loadForkOperation tnow op replayed db = Some operation →
  (∀ k, forks db !! op = Some k → ∃ project, fork_key k = (org, project, source, key)) →
  tracks operation db.
Proof.
  intros Hs Hl Hkey. unfold loadForkOperation in Hl.
  destruct (forks db !! op) as [k|] eqn:Hk; [|done]. destruct (hosts db !! _); [|done].
  injection Hl as <-. split_and!; simpl.
  - by apply Hkey.
  - exists k. split; [done|reflexivity].
  - intros Hst. by apply (ki_failure _ (sn_keys _ _ Hs) op).
Qed.

Lemma tracks_key operation db k :
  tracks operation db → forks db !! fo_id operation = Some k →
  ∃ project, fork_key k = (org, project, source, key).
Proof.
  intros ([project Hkey] & (k' & Hk' & (_ & _ & _ & Hkk & _)) & _) Hk. rewrite Hk in Hk'.
  injection Hk' as <-. exists project. congruence.
Qed.

Lemma post_loadFork R P `{!Stable created P} operation :
  (∀ db, P db → tracks operation db) →
  hoare R P (loadFork schedule (fo_id operation)) (λ o db, fo_id o = fo_id operation ∧ tracks o db).
Proof.
  intros Ht. unfold loadFork.
  eapply post_bind with (Q := λ row db, ∀ o, row = Some o → fo_id o = fo_id operation ∧ tracks o db);
    [apply requested_ok|done| |].
  { apply post_query; [apply requested_ok|done|done|]. intros turn db Hs HP o Ho. split.
    - unfold loadForkOperation in Ho. repeat case_match; by simplify_eq/=.
    - eapply loadForkOperation_tracks; [done|exact Ho|]. intros k Hk.
      eapply tracks_key; [by apply Ht|done]. }
  intros [o|]; [|by apply post_throw].
  apply post_given. intros db0 _ [_ Ho0]. destruct (Ho0 o eq_refl) as [Hid _].
  eapply (post_pre _ _ _ (tracks o)); [|intros db _ [_ Ho]; by apply (Ho o)].
  eapply post_bind; [apply requested_ok|apply _|apply post_any_query, _|]. intros children.
  apply post_ret. by intros db _ [? _].
Qed.

(** A statement about the operation, then loading it. *)
Lemma post_thenLoad {A} R P `{!Stable created P} operation (m : Service A) :
  (∀ db, P db → tracks operation db) → hoare R P m (λ _ _, True) →
  hoare R P (_ ← m; loadFork schedule (fo_id operation)) (λ o db, fo_id o = fo_id operation ∧ tracks o db).
Proof.
  intros Ht Hm. eapply post_bind; [apply requested_ok|done|exact Hm|]. intros a.
  apply post_loadFork; [apply _|]. intros db [HP _]. by apply Ht.
Qed.

Lemma post_completeFork R P `{!Stable created P} operation observed :
  (∀ db, P db → tracks operation db) →
  hoare R P (repository_completeFork schedule (fo_id operation) observed)
    (λ o db, fo_id o = fo_id operation ∧ tracks o db).
Proof.
  intros Ht. apply post_thenLoad; [done|done|].
  by eapply (post_free _ _ _ _ (λ t, CompleteFork (t_now t) (fo_id operation) observed)).
Qed.

Lemma post_failFork R P `{!Stable created P} operation f :
  (∀ db, P db → tracks operation db) →
  hoare R P (repository_failFork schedule (fo_id operation) f)
    (λ o db, fo_id o = fo_id operation ∧ tracks o db).
Proof.
  intros Ht. apply post_thenLoad; [done|done|].
  by eapply (post_free _ _ _ _ (λ t, FailFork (t_now t) (fo_id operation) f)).
Qed.

Lemma post_completeForkCleanup R P `{!Stable created P} operation token :
  (∀ db, P db → tracks operation db) →
  hoare R P (repository_completeForkCleanup schedule (fo_id operation) token)
    (λ o db, fo_id o = fo_id operation ∧ tracks o db).
Proof.
  intros Ht. apply post_thenLoad; [done|done|].
  by eapply (post_free _ _ _ _ (λ t, CompleteForkCleanup (t_now t) (fo_id operation) token)).
Qed.

Lemma post_requestForkCleanup R P `{!Stable created P} operation f :
  (∀ db, P db → tracks operation db) →
  hoare R P (repository_requestForkCleanup schedule (fo_id operation) f)
    (λ o db, fo_id o = fo_id operation ∧ tracks o db).
Proof.
  intros Ht. unfold repository_requestForkCleanup.
  eapply post_bind with (Q := λ _ _, True); [apply requested_ok|done| |intros token].
  { by eapply (post_free _ _ _ _ (λ t, RequestForkCleanup (t_now t) (fo_id operation) f (t_random t 0))). }
  eapply post_bind; [apply requested_ok|apply _|apply (post_loadFork _ _ operation)|].
  - by intros db [? _]; apply Ht.
  - intros o. apply post_ret. intros db _ [_ ?]. done.
Qed.

Lemma post_releaseForkCleanupClaim R P `{!Stable created P} op token :
  hoare R P (repository_releaseForkCleanupClaim schedule op token) (λ _ _, True).
Proof. by eapply (post_free _ _ _ _ (λ t, ReleaseForkCleanupClaim (t_now t) op token)). Qed.

Lemma post_cleanupLoop R P `{!Stable created P} operation observed s :
  hoare R P (cleanupLoop operation observed s) (λ _ _, True).
Proof.
  revert s. induction observed as [|hm observed IH]; intros s; simpl; [by apply post_ret|].
  destruct (expected_child operation hm) as [[id m]|]; [|apply IH].
  apply post_if; intros _; [apply IH|].
  eapply post_bind; [apply requested_ok|done|by eapply post_attempt, (post_destroyOnHost (λ _ _, True))|].
  intros r. eapply post_pre; [apply IH|]. by intros db _ [? _].
Qed.

Lemma post_cleanupForkObservations R P `{!Stable created P} operation observed :
  hoare R P (cleanupForkObservations operation observed) (λ _ _, True).
Proof.
  unfold cleanupForkObservations.
  eapply post_bind; [apply requested_ok|done|by apply post_cleanupLoop|].
  intros s. by apply post_ret.
Qed.

Lemma post_finishForkCleanup operation f observed replayed confirmed :
  hoare failed_for (tracks operation)
    (finishForkCleanup schedule operation f observed replayed confirmed) forked.
Proof.
  unfold finishForkCleanup.
  eapply post_bind with (Q := λ o db, tracks o db); [apply requested_ok|apply _| |].
  { apply post_if; intros _; [by apply post_ret|].
    eapply post_conseq; [apply requested_ok|by apply post_requestForkCleanup; [apply _|]|].
    by intros o db _ [_ ?]. }
  intros cleanup. eapply (post_pre _ _ _ (tracks cleanup)); [|by intros db _ [_ ?]].
  apply post_if; intros _; [by apply post_forkResult|]. cbv zeta.
  eapply post_bind with (Q := λ _ _, True); [apply requested_ok|apply _| |intros cleaned].
  { apply post_if; intros _; [by apply post_ret|by apply post_cleanupForkObservations, _]. }
  eapply (post_pre _ _ _ (tracks cleanup)); [|by intros db _ [? _]].
  apply post_if; intros _.
  - eapply post_bind; [apply requested_ok|apply _|apply post_releaseForkCleanupClaim, _|].
    intros released. apply post_forkResult. by intros db [? _].
  - eapply post_bind; [apply requested_ok|apply _|by apply post_completeForkCleanup; [apply _|]|].
    intros ended. apply post_forkResult. by intros db (_ & _ & ?).
Qed.

(** How the try block may end. *)
Definition tail_ok (t : ForkTail) (db : FleetDb) : Prop :=
  match t with
  | Answer r => forked r db
  | Cleanup operation _ _ _ => tracks operation db
  end.

Lemma post_answer P operation replayed :
  (∀ db, P db → tracks operation db) → Stable created P →
  hoare failed_for P (r ← lift (forkResult operation replayed); mret (Answer r)) tail_ok.
Proof.
  intros Ht HP. eapply post_bind; [apply requested_ok|done|by apply post_forkResult|].
  intros r. apply post_ret. by intros db _ [_ ?].
Qed.

Lemma post_cleanup P operation f observed confirmed :
  (∀ db, P db → tracks operation db) →
  hoare failed_for P (mret (Cleanup operation f observed confirmed)) tail_ok.
Proof. intros Ht. apply post_ret. intros db _ HP. by apply Ht. Qed.

Lemma post_releaseToken R P `{!Stable created P} operation :
  hoare R P (releaseToken schedule operation) (λ _ _, True).
Proof.
  unfold releaseToken. apply post_if; intros _; [by apply post_releaseForkCleanupClaim|by apply post_ret].
Qed.

Lemma post_forkRejected active replayed error :
  hoare failed_for (tracks active) (forkRejected schedule active replayed error) tail_ok.
Proof.
  unfold forkRejected. cbv zeta.
  match goal with |- context [match as_HostRequestError error with Some _ => _ | None => ?m end] =>
    assert (hoare failed_for (tracks active) m tail_ok) as Hfailed end.
  { apply post_if; intros _.
    - eapply post_bind; [apply requested_ok|apply _|apply post_releaseToken, _|].
      intros released. apply post_answer; [by intros db [? _]|apply _].
    - eapply post_bind; [apply requested_ok|apply _|by apply post_failFork; [apply _|]|].
      intros failed. eapply (post_pre _ _ _ (tracks failed)); [by apply post_answer, _|].
      by intros db _ (_ & _ & ?). }
  destruct (as_HostRequestError error) as [f|]; [|exact Hfailed].
  apply post_if; intros _; [by apply post_cleanup|].
  assert (∀ m, hoare failed_for (tracks active) m tail_ok → hoare failed_for (tracks active)
    (if hf_ambiguous f
     then _ ← releaseToken schedule active;
          mret (Cleanup (active <| fo_cleanup_token := None |>) (batchFailed
            "The host result was ambiguous; the fork remains hidden until cleanup is confirmed.") [] false)
     else m) tail_ok) as Hambiguous.
  { intros m Hm. apply post_if; intros _; [|exact Hm].
    eapply post_bind; [apply requested_ok|apply _|apply post_releaseToken, _|].
    intros released. apply post_cleanup. by intros db [? _]. }
  destruct error; try exact (Hambiguous _ Hfailed). by apply post_cleanup.
Qed.

Lemma post_forkObserved operation active replayed observed :
  hoare failed_for (tracks active) (forkObserved schedule operation active replayed observed) tail_ok.
Proof.
  unfold forkObserved. apply post_if; intros _; [by apply post_cleanup|]. cbv zeta.
  apply post_if; intros _; [by apply post_cleanup|].
  eapply post_bind; [apply requested_ok|apply _| |].
  { apply post_attempt with (R := λ _ _, False). by apply post_completeFork; [apply _|]. }
  intros [ended|error].
  - eapply (post_pre _ _ _ (tracks ended)); [by apply post_answer, _|]. by intros db _ (_ & _ & ?).
  - apply post_given. intros db0 _ [_ Hplain].
    apply post_if; intros _; [apply post_cleanup; by intros db [? _]|].
    apply post_throw. intros db _ _. by destruct error.
Qed.

Lemma post_forkPending operation idempotencyKey :
  hoare failed_for (tracks operation) (forkPending schedule operation idempotencyKey) tail_ok.
Proof.
  unfold forkPending. cbv zeta.
  eapply post_bind with (Q := λ o db, tracks o db); [apply requested_ok|apply _| |].
  { apply post_if; intros _; [|by apply post_ret].
    eapply post_conseq; [apply requested_ok|by apply post_requestForkCleanup; [apply _|]|].
    by intros o db _ [_ ?]. }
  intros active. eapply (post_pre _ _ _ (tracks active)); [|by intros db _ [_ ?]].
  apply post_if; intros _; [by apply post_answer, _|].
  eapply post_bind; [apply requested_ok|apply _|by eapply post_attempt, (post_call _ (λ _ _, True))|].
  intros [observed|error]; (eapply post_pre; [|by intros db _ [? _]]).
  - apply post_forkObserved.
  - apply post_forkRejected.
Qed.
End fork.

Lemma beginFork_result tnow clock source org project key hash audit op cs db o db' :
  beginFork tnow clock source org project key hash audit op cs db = Ok (Some o, db') →
  ∃ op' replayed, loadForkOperation tnow op' replayed db' = Some o ∧ fo_id o = op' ∧
    ∀ k, forks db' !! op' = Some k → fork_key k = (org, project, source, key).
Proof.
  unfold beginFork. intros Hb.
  destruct (organizations db !! org) as [ol|]; [|done].
  destruct (projects db !! project) as [p|]; [|done]. destruct (negb _); [done|].
  destruct (machines db !! source) as [m|]; [|done].
  destruct (host_id (place m) ≫= _) as [[host h]|]; [|done]. destruct (negb _); [done|].
  assert (∀ op' r db1, loadForkOperation tnow op' r db1 = Some o → fo_id o = op') as Hid.
  { intros op' r db1 Hl. unfold loadForkOperation in Hl. repeat case_match; by simplify_eq/=. }
  destruct (fork_prior db org project source key) as [[prior k]|] eqn:Ep.
  - apply ok_pair in Hb as [Hl <-]. exists prior, true. split_and!; [done|by eapply Hid|].
    apply fork_prior_Some in Ep as [Hk Hkey]. intros k' Hk'. rewrite Hk in Hk'. by injection Hk' as <-.
  - destruct (fork_admission _ _ _ _ _ _ _ _ _ _); [|done]. destruct (fork_conflicts _ _ _ _ _); [done|].
    apply ok_pair in Hb as [Hl <-]. exists op, false. split_and!; [done|by eapply Hid|].
    intros k. simpl.
    match goal with |- context [insert_children op source m ?rem tnow 0 cs ?db1] =>
      destruct (insert_children_tables op source m rem tnow 0 cs db1) as (_ & -> & _) end.
    simpl. rewrite lookup_insert_eq. by intros [= <-].
Qed.

Lemma post_beginFork R source org project key hash audit count :
  hoare R (λ _, True) (repository_beginFork schedule sha256 source org project key hash audit count)
    (λ began db, match began with Some o => tracks org source key o db | None => True end).
Proof.
  unfold repository_beginFork. apply post_await; [apply requested_ok|done|apply _| |].
  - intros turn db _ _. by exists (BeginFork (t_now turn) (t_clock turn) source org project key hash audit
      (t_random turn 0) (child_ids sha256 turn hash (Z.to_nat count))).
  - intros turn db began db' _ _ Hs' _ Hb. destruct began as [o|]; [|done].
    apply beginFork_result in Hb as (op' & r & Hl & _ & Hkey).
    eapply loadForkOperation_tracks; [done|exact Hl|]. intros k Hk. exists project. by apply Hkey.
Qed.

Lemma post_fork id org project count key audit :
  hoare (failed_for org id key) (λ _, True) (fork schedule sha256 id org project count key audit)
    (forked org id key).
Proof.
  unfold fork. apply post_if; intros _; [by apply post_lift|].
  destruct (safe_between _ _ count) as [n|]; [|by apply post_lift].
  eapply post_bind; [apply requested_ok|apply _|apply post_find, _|].
  intros [source|]; [|by apply post_throw].
  apply post_given. intros db0 _ [_ (Hid & _ & _)]. rewrite Hid.
  apply post_if; intros _; [by apply post_throw|].
  eapply (post_pre _ _ _ (λ _, True)); [|done].
  eapply post_bind; [apply requested_ok|apply _|apply post_beginFork|].
  intros [operation|]; [|by apply post_throw].
  eapply (post_pre _ _ _ (tracks org id key operation)); [|by intros db _ [_ ?]].
  apply post_if; intros _; [by apply post_lift|].
  apply post_if; intros _; [by apply post_forkResult|].
  eapply post_bind; [apply requested_ok|apply _|apply post_attempt, post_forkPending|].
  intros [[r|active f observed confirmed]|error].
  - apply post_ret. by intros db _ [_ ?].
  - eapply post_pre; [apply post_finishForkCleanup|]. by intros db _ [_ ?].
  - assert (hoare (failed_for org id key)
      (λ db, tracks org id key operation db ∧ outcome (failed_for org id key) (tail_ok org id key) (Err error) db)
      (lift (forkResult operation (fo_replayed operation))) (forked org id key)) as Hpending.
    { apply post_forkResult. by intros db [? _]. }
    destruct error; try exact Hpending. apply post_throw. by intros db _ [_ ?].
Qed.
End services.
