(* ===== verification/ServiceTheorems.v ===== *)
(** * Theorems about the machine service

    For any schedule of what the rest of the system does between the statements
    of a procedure, any host answers and any lost database answers. *)

From S2P Require Import Prelude Text Js Capacity Lifecycle Billing Fleet Scheduler MachineRepo.
From S2P Require Import ForkRepo ReconcileDb FleetInv FleetSteps FleetHard FleetForks FleetStep.
From S2P Require Import FleetKeys FleetTheorems NetworkPolicy NetworkTheorems Awaiting.
From S2P Require Import MachineService ServiceLogic ServiceProofs.

(** ** Serving requests *)

(** The methods of the service, and the job that reaps expired machines. *)
Inductive ServiceRequest :=
| CreateRequest (input : CreateMachine)
| GetRequest (id org : string) (project : option string)
| ListRequest (org : string) (project cursor : option string) (limit : Z)
| DestroyRequest (id org : string) (project : option string)
| ExtendRequest (id org : string) (project : option string) (ttlSeconds : number)
    (idempotencyKey : string)
| ForkRequest (id org : string) (project : option string) (count : number)
    (idempotencyKey auditOperationId : string)
| ExecRequest (id org : string) (project : option string) (command : string) (timeoutSeconds : Z)
| ReapRequest.

Section serve.
Context (schedule : nat → Turn) (sha256 : string → string).
Context `{NodeNet} `{BillingAdmission FleetDb} `{HostClient}.

(** The world after a request, whatever its result. *)
Definition serve (w : World) (r : ServiceRequest) : World :=
  match r with
  | CreateRequest input => (create schedule sha256 input w).2
  | GetRequest id org project => (get schedule id org project w).2
  | ListRequest org project cursor limit => (list_ schedule org project cursor limit w).2
  | DestroyRequest id org project => (destroy schedule id org project w).2
  | ExtendRequest id org project ttl key => (extend schedule sha256 id org project ttl key w).2
  | ForkRequest id org project count key audit =>
      (fork schedule sha256 id org project count key audit w).2
  | ExecRequest id org project command seconds =>
      (exec_command schedule id org project command seconds w).2
  | ReapRequest => (reapExpiredMachines schedule w).2
  end.

Definition serve_all (w : World) (rs : list ServiceRequest) : World := foldl serve w rs.
End serve.

(** ** The demonstration *)

Definition demo_sha256 (s : string) : string := "sha256 of " +:+ s.

#[export] Instance demo_sha256_inj : Inj (=) (=) demo_sha256.
Proof. intros s t Heq. by apply string_app_cancel in Heq. Qed.

Lemma demo_sha256_nonempty s : demo_sha256 s ≠ "".
Proof. done. Qed.

#[export] Instance demo_net : NodeNet := sample_net.

Definition demo_input : CreateMachine :=
  mkCreateMachine "org" "proj" "ca-tor-1" X86_64 (mkResourceInput (NInt 2) (NInt 1024) (NInt 4096))
    (Some "python") None None JUndefined (NInt 3600) "key1".

Definition demo_valid : ValidCreate := mkValidCreate demo_resources networkOff 3600.

(** A host that starts what it is asked to start and refuses forks. *)
#[export] Instance demo_hosts : HostClient := {|
  answer_create calls := Ok (demo_host_machine "vm1" "lease");
  answer_get calls := Ok None;
  answer_destroy calls := Ok ();
  answer_extend calls := Err (RequestError (Some 500) "no" false None);
  answer_fork calls := Err (ForkContractError []);
  answer_exec calls := Err (HostThrew "no")
|}.

(** Turns in which nobody else moves and every answer arrives. *)
Definition quiet_turn (n : nat) : Turn :=
  mkTurn id (1000 + Z.of_nat n) (1000 + Z.of_nat n)
    (λ k, "r" +:+ pretty (Z.of_nat n) +:+ "-" +:+ pretty (Z.of_nat k)) ∅ Delivered.

Lemma quiet_polite created : polite created quiet_turn.
Proof. intros n db _. apply rtc_refl. Qed.

Definition demo_world : World := mkWorld demo_start 0 [].

Example demo_create :
  match create quiet_turn demo_sha256 demo_input demo_world with
  | (Ok (machine, replayed), w) => (v_id machine, mstate (v_row machine), replayed, length (w_calls w))
  | _ => ("", Lost, true, 0%nat)
  end = ("m_r1-0", Running, false, 1%nat).
Proof. vm_compute. reflexivity. Qed.

Section refinement.
Context `{NodeNet} `{BillingAdmission FleetDb} `{HostClient}.
Context (schedule : nat → Turn) (sha256 : string → string).
Context (sha256_inj : Inj (=) (=) sha256) (sha256_nonempty : ∀ s, sha256 s ≠ "").
Context (Hpolite : polite (requested sha256) schedule).

Lemma start_sound db db' :
  fleet_start db → fleet_steps (requested sha256) db db' → sound (requested sha256) db'.
Proof.
  intros Hs Hsteps. destruct (start_inv db Hs) as [Hinv Hkeys].
  destruct (sound_steps (requested sha256) (requested_ok sha256) db db') as [Hs' _]; [|done|done].
  constructor; [done..|]. intros id m Hm. by rewrite (fs_machines db Hs), lookup_empty in Hm.
Qed.

Lemma serve_steps w r :
  sound (requested sha256) (w_db w) →
  fleet_steps (requested sha256) (w_db w) (w_db (serve schedule sha256 w r)).
Proof.
  intros Hs. set (R := λ (_ : Failure) (_ : FleetDb), True).
  destruct r; simpl.
  - by apply (post_create sha256 schedule Hpolite sha256_inj sha256_nonempty R).
  - by apply (post_any_query sha256 schedule Hpolite R (λ _, True)).
  - by apply (post_any_query sha256 schedule Hpolite R (λ _, True)).
  - by apply (post_destroy sha256 schedule Hpolite R).
  - by apply (post_extend sha256 schedule Hpolite R).
  - by apply (post_fork sha256 schedule Hpolite).
  - by apply (post_exec sha256 schedule Hpolite R).
  - by apply (post_reap sha256 schedule Hpolite R).
Qed.

(** C12: The machine service refines the fleet: whatever requests it serves, with
    any host answers, any lost database answers and any permitted activity of
    other processes between its statements, the tables move only by steps of the
    fleet, so every invariant of the fleet holds after every request. *)
Theorem services_refine_fleet start w rs :
  fleet_start start → fleet_steps (requested sha256) start (w_db w) →
  fleet_steps (requested sha256) start (w_db (serve_all schedule sha256 w rs)).
Proof.
  intros Hstart. unfold serve_all. revert w.
  induction rs as [|r rs IH]; intros w Hw; simpl; [done|].
  apply IH. etransitivity; [exact Hw|]. apply serve_steps. by eapply start_sound.
Qed.

(** A create that answers returns the machine of its own request: a row of
    its organization, project and key exists under the returned identifier and,
    unless it is a fork child under the same key, it carries this request's
    hash and its validated resources. *)
Theorem create_answers_its_request start w input machine replayed w' :
  fleet_start start → fleet_steps (requested sha256) start (w_db w) →
  create schedule sha256 input w = (Ok (machine, replayed), w') →
  ∃ v m, validateCreate input = Ok v ∧ machines (w_db w') !! v_id machine = Some m ∧
    organization_id (ident m) = cm_organizationId input ∧
    project_id (ident m) = cm_projectId input ∧
    idempotency_key (ident m) = cm_idempotencyKey input ∧
    (fork_operation_id (ident m) = None →
       idempotency_request_hash (ident m) = sha256 (createRequestText input v) ∧
       resources (ident m) = vc_resources v).
Proof.
  intros Hstart Hw Hc. pose proof (start_sound _ _ Hstart Hw) as Hs.
  destruct (post_create sha256 schedule Hpolite sha256_inj sha256_nonempty (λ _ _, True) input w Hs I)
    as [_ Ho]. rewrite Hc in Ho. destruct Ho as (v & Hv & Ha & m & Hm & Hu).
  exists v, m. split; [done|]. split; [done|].
  by eapply (asked_undated sha256 input v (ident (v_row machine))).
Qed.

(** A fork that answers tells the truth about a recorded operation of its
    source and key: a settled answer names an operation that succeeded, and a
    replayed failure an operation that failed with that failure. *)
Theorem fork_result_recorded start w id org project count key audit r w' :
  fleet_start start → fleet_steps (requested sha256) start (w_db w) →
  fork schedule sha256 id org project count key audit w = (r, w') →
  match r with
  | Ok result => fr_pending result = false →
      ∃ k p, forks (w_db w') !! fr_operationId result = Some k ∧
        fork_key k = (org, p, id, key) ∧ k_state k = ForkSucceeded
  | Err (ReplayedForkFailure f _) =>
      ∃ op k p, forks (w_db w') !! op = Some k ∧ fork_key k = (org, p, id, key) ∧
        k_state k = ForkFailed ∧ k_failure k = Some f
  | Err _ => True
  end.
Proof.
  intros Hstart Hw Hc. pose proof (start_sound _ _ Hstart Hw) as Hs.
  destruct (post_fork sha256 schedule Hpolite id org project count key audit w Hs I) as [_ Ho].
  rewrite Hc in Ho. destruct r as [result|[]]; simpl in Ho; try done.
  - destruct Ho as (k & Hk & [p Hkey] & Hst). intros Hp. exists k, p. by rewrite Hst.
  - destruct Ho as (op & k & Hk & [p Hkey] & Hst & Hf). by exists op, k, p.
Qed.

(** A destroy that reports success has found the machine and left it outside
    the states in which it serves: stopping, stopped, failed or lost. *)
Theorem destroy_leaves_service start w id org project w' :
  fleet_start start → fleet_steps (requested sha256) start (w_db w) →
  destroy schedule id org project w = (Ok true, w') →
  ∃ m, machines (w_db w') !! id = Some m ∧
    (mstate m = Stopping ∨ terminal (mstate m) = true).
Proof.
  intros Hstart Hw Hc. pose proof (start_sound _ _ Hstart Hw) as Hs.
  destruct (post_destroy sha256 schedule Hpolite (λ _ _, True) id org project w Hs I) as [_ Ho].
  rewrite Hc in Ho. destruct (Ho eq_refl) as (m & Hm & Hr). exists m. split; [done|].
  destruct (mstate m); simpl in *; auto; lia.
Qed.
End refinement.

(** ** Two races *)

(** Another process places the requested machine between two statements. *)
Definition place_meanwhile (db : FleetDb) : FleetDb :=
  match machines db !! "m1" with
  | Some m => if bool_decide (resources (ident m) = demo_resources)
              then exec (Reserve 2000 ∅ (demo_request "m1")) db else db
  | None => db
  end.

Definition racing_turn (n : nat) : Turn :=
  let t := quiet_turn n in
  if Nat.eqb n 1
  then mkTurn place_meanwhile (t_now t) (t_clock t) (t_random t) ∅ Delivered else t.

Lemma place_meanwhile_steps created db : fleet_steps created db (place_meanwhile db).
Proof.
  unfold place_meanwhile. destruct (machines db !! "m1") as [m|] eqn:Hm; [|done].
  case_bool_decide as Hr; [|done]. apply rtc_once, step_command. exists "m1". split; [done|].
  intros m' r Hm' Hv. rewrite Hm in Hm'. injection Hm' as <-.
  vm_compute in Hv. injection Hv as <-. done.
Qed.

Lemma racing_polite created : polite created racing_turn.
Proof.
  intros n db _. unfold racing_turn. destruct (Nat.eqb n 1); [apply place_meanwhile_steps|apply rtc_refl].
Qed.

Definition demo_created_identity : Identity :=
  created_identity demo_input demo_valid "lease" (demo_sha256 (createRequestText demo_input demo_valid)) 0.

Lemma demo_requested_identity : requested demo_sha256 demo_created_identity.
Proof. exists demo_input, demo_valid, "lease", 0. split; [by vm_compute|done]. Qed.

Definition demo_unplaced : FleetDb :=
  exec (InsertRequested 1000 "m1" demo_created_identity 3600000 "u") demo_start.

Lemma demo_unplaced_steps : fleet_steps (requested demo_sha256) demo_start demo_unplaced.
Proof. apply rtc_once, (step_command _ _ (InsertRequested _ _ _ _ _)), demo_requested_identity. Qed.

Lemma await_delivered {A} (schedule : nat → Turn) (t : Turn → Tx FleetDb FleetError A) (w : World) a db :
  delivery (schedule (w_tick w)) = Delivered →
  t (schedule (w_tick w)) (others (schedule (w_tick w)) (w_db w)) = Ok (a, db) →
  await (F := ServiceError) schedule t w = (Ok a, mkWorld db (S (w_tick w)) (w_calls w)).
Proof. unfold await, transaction. by intros -> ->. Qed.

Lemma transition_row now id from to reason u db m :
  machines db !! id = Some m → in_states (mstate m) from = true →
  ∃ db', transition now id from to reason u db = Ok (true, db') ∧
    machines db' !! id = Some (transitioned_row now to reason m).
Proof.
  unfold transition. intros -> ->. eexists. split; [done|]. simpl. apply lookup_insert_eq.
Qed.

(** C15: [destroy] can stop a machine without giving its reservation back and
    without calling its host.  It decides from the row it read first: when that row
    names no host, another process places the machine before the transition, and
    nobody else touches the machine before the second transition, then destroy
    answers that it is done, the machine is stopped, it was not deleted on its host
    and it still holds its reservation there. *)
Theorem destroy_races_reservation `{HostClient} schedule id org project (w : World) m m' host :
  let t n := schedule (w_tick w + n)%nat in
  let read := others (t 0%nat) (w_db w) in
  let placed := others (t 1%nat) read in
  (∀ n, (n < 3)%nat → delivery (t n) = Delivered) →
  find read id org project = Some m → host_id (place m) = None → terminal (mstate m) = false →
  machines placed !! id = Some m' → in_states (mstate m') [Requested; Placing; Starting; Running] = true →
  holds host m' = true →
  (∀ db, machines (others (t 2%nat) db) !! id = machines db !! id) →
  ∃ w' m'', destroy schedule id org project w = (Ok true, w') ∧ w_calls w' = w_calls w ∧
    machines (w_db w') !! id = Some m'' ∧ ident m'' = ident m' ∧ mstate m'' = Stopped ∧ holds host m'' = true.
Proof.
  intros t read placed Hd Hfind Hno Hlive Hm' Hst Hholds Hquiet.
  set (view := fromRow read id m).
  set (w1 := mkWorld read (S (w_tick w)) (w_calls w)).
  assert (t 0%nat = schedule (w_tick w)) as E0 by (unfold t; by rewrite Nat.add_0_r).
  assert (t 1%nat = schedule (S (w_tick w))) as E1 by (unfold t; by rewrite Nat.add_1_r).
  assert (t 2%nat = schedule (S (S (w_tick w)))) as E2 by (unfold t; by rewrite Nat.add_comm).
  assert (repository_find schedule id org project w = (Ok (Some view), w1)) as Hread.
  { unfold repository_find, query. apply await_delivered; [rewrite <- E0; apply Hd; lia|].
    rewrite <- E0. fold read. unfold gets. by rewrite Hfind. }
  destruct (transition_row (t_now (t 1%nat)) id [Requested; Placing; Starting; Running] Stopping None
    (t_random (t 1%nat) 0) placed m' Hm' Hst) as (db2 & Ht1 & Hm2).
  set (w2 := mkWorld db2 (S (S (w_tick w))) (w_calls w)).
  assert (repository_transition schedule id [Requested; Placing; Starting; Running] Stopping None w1 = (Ok true, w2)) as Hmove.
  { unfold repository_transition. change w2 with (mkWorld db2 (S (w_tick w1)) (w_calls w1)).
    apply await_delivered; simpl; [rewrite <- E1; apply Hd; lia|].
    rewrite <- E1. exact Ht1. }
  set (stopping := transitioned_row _ Stopping None m') in *.
  destruct (transition_row (t_now (t 2%nat)) id [Stopping] Stopped None (t_random (t 2%nat) 0)
    (others (t 2%nat) db2) stopping) as (db3 & Ht2 & Hm3); [by rewrite Hquiet|done|].
  set (w3 := mkWorld db3 (S (S (S (w_tick w)))) (w_calls w)).
  assert (repository_transition schedule id [Stopping] Stopped None w2 = (Ok true, w3)) as Hstop.
  { unfold repository_transition. change w3 with (mkWorld db3 (S (w_tick w2)) (w_calls w2)).
    apply await_delivered; simpl; [rewrite <- E2; apply Hd; lia|].
    rewrite <- E2. exact Ht2. }
  exists w3, (transitioned_row (t_now (t 2%nat)) Stopped None stopping). split_and!; try done.
  unfold destroy. rewrite (act_bind_step _ _ _ _ _ Hread). cbn [v_row fromRow view]. rewrite Hlive.
  rewrite (act_bind_step _ _ _ _ _ Hmove). unfold view, fromRow. cbn [v_hostAddress v_row]. rewrite Hno. simpl.
  rewrite ret_step, (act_bind_step _ _ _ _ _ Hstop). by rewrite ret_step.
Qed.

Example destroy_races_reservation_witness :
  polite (requested demo_sha256) racing_turn ∧ fleet_steps (requested demo_sha256) demo_start demo_unplaced ∧
  ∃ w' m, destroy racing_turn "m1" "org" (Some "proj") (mkWorld demo_unplaced 0 []) = (Ok true, w') ∧ w_calls w' = [] ∧
    machines (w_db w') !! "m1" = Some m ∧ mstate m = Stopped ∧ holds "h1" m = true.
Proof.
  split; [apply racing_polite|]. split; [apply demo_unplaced_steps|].
  destruct (find demo_unplaced "m1" "org" (Some "proj")) as [m|] eqn:Hm; [|by vm_compute in Hm].
  destruct (machines (place_meanwhile demo_unplaced) !! "m1") as [m'|] eqn:Hm'; [|by vm_compute in Hm'].
  destruct (destroy_races_reservation racing_turn "m1" "org" (Some "proj") (mkWorld demo_unplaced 0 []) m m' "h1")
    as (w' & m'' & Hw & Hc & Hr & _ & Hs & Hh).
  - intros [|[|[|n]]] Hn; [reflexivity..|lia].
  - exact Hm.
  - vm_compute in Hm. injection Hm as <-. reflexivity.
  - vm_compute in Hm. injection Hm as <-. reflexivity.
  - exact Hm'.
  - vm_compute in Hm'. injection Hm' as <-. reflexivity.
  - vm_compute in Hm'. injection Hm' as <-. reflexivity.
  - intros db. reflexivity.
  - exists w', m''. split_and!; [exact Hw|exact Hc|exact Hr|exact Hs|exact Hh].
Defined.

(** The answer of one statement does not come: the connection is lost first. *)
Definition losing_turn (lost n : nat) : Turn :=
  let t := quiet_turn n in
  if Nat.eqb n lost then mkTurn id (t_now t) (t_clock t) (t_random t) ∅ NeverRan else t.

Lemma losing_polite lost created : polite created (losing_turn lost).
Proof. intros n db _. unfold losing_turn. by destruct (Nat.eqb n lost); apply rtc_refl. Qed.

Definition demo_serving : FleetDb :=
  exec (ObserveHost 3000 3000 "m1" (demo_host_machine "vm1" "lease") "u2")
    (exec (Reserve 2000 ∅ (demo_request "m1")) (exec (ClaimCreate 1000 "m1" "token") demo_unplaced)).

Lemma demo_serving_steps : fleet_steps (requested demo_sha256) demo_start demo_serving.
Proof.
  etransitivity; [apply demo_unplaced_steps|].
  eapply rtc_l; [by apply (step_command _ _ (ClaimCreate 1000 "m1" "token"))|].
  eapply rtc_l; [apply (step_command _ _ (Reserve 2000 ∅ (demo_request "m1")))|].
  { exists "m1". split; [done|]. intros m r Hm Hr. vm_compute in Hm. vm_compute in Hr.
    injection Hm as <-. injection Hr as <-. reflexivity. }
  apply rtc_once, (step_command _ _ (ObserveHost 3000 3000 "m1" (demo_host_machine "vm1" "lease") "u2")).
  intros m Hm. vm_compute in Hm. injection Hm as <-. reflexivity.
Qed.

(** A fork whose host answers an invalid batch fails with the raw database
    error when the cleanup request is lost, although the operation it began is
    recorded and pending: the promise of the cleanup is returned, not awaited,
    so the handler that would answer with the operation never sees its error. *)
Theorem fork_cleanup_error_escapes :
  ∃ schedule w k,
    polite (requested demo_sha256) schedule ∧
    fleet_steps (requested demo_sha256) demo_start (w_db w) ∧
    let '(r, w') := fork schedule demo_sha256 "m1" "org" (Some "proj") (NInt 2) "fork-key" "audit" w in
    r = Err connectionLost ∧ length (w_calls w') = S (length (w_calls w)) ∧
    forks (w_db w') !! "r1-0" = Some k ∧ k_state k = ForkPending ∧ k_cleanup_requested_at k = None ∧
    length (k_children k) = 2%nat.
Proof.
  eexists (losing_turn 2), (mkWorld demo_serving 0 []), _.
  split; [apply losing_polite|]. split; [apply demo_serving_steps|].
  vm_compute. split_and!; reflexivity.
Qed.

(** ** Witnesses *)

Definition demo_requests : list ServiceRequest :=
  [CreateRequest demo_input; ListRequest "org" None None 10;
   ExecRequest "m_r1-0" "org" None "ls" 10;
   ForkRequest "m_r1-0" "org" (Some "proj") (NInt 2) "fork-key" "audit";
   DestroyRequest "m_r1-0" "org" (Some "proj")].

Example services_refine_fleet_witness :
  fleet_steps (requested demo_sha256) demo_start
    (w_db (serve_all quiet_turn demo_sha256 demo_world demo_requests)) ∧
  (mstate <$> machines (w_db (serve_all quiet_turn demo_sha256 demo_world demo_requests)) !! "m_r1-0")
    = Some Stopped.
Proof.
  split; [|by vm_compute].
  apply (services_refine_fleet quiet_turn demo_sha256 demo_sha256_inj demo_sha256_nonempty
    (quiet_polite _) demo_start demo_world demo_requests demo_start_ok).
  apply rtc_refl.
Defined.

Definition demo_create_result := create quiet_turn demo_sha256 demo_input demo_world.

Example create_answers_its_request_witness :
  match demo_create_result with
  | (Ok (machine, _), w') =>
      ∃ v m, validateCreate demo_input = Ok v ∧ machines (w_db w') !! v_id machine = Some m ∧
        organization_id (ident m) = "org" ∧ project_id (ident m) = "proj" ∧
        idempotency_key (ident m) = "key1" ∧
        (fork_operation_id (ident m) = None →
          idempotency_request_hash (ident m) = demo_sha256 (createRequestText demo_input v) ∧
          resources (ident m) = vc_resources v)
  | _ => False
  end.
Proof.
  pose proof (create_answers_its_request quiet_turn demo_sha256 demo_sha256_inj demo_sha256_nonempty
    (quiet_polite _) demo_start demo_world demo_input) as Hc.
  unfold demo_create_result. destruct (create _ _ _ _) as [[[machine replayed]|e] w'] eqn:E.
  - apply (Hc machine replayed w' demo_start_ok); [apply rtc_refl|done].
  - assert (∃ x w, create quiet_turn demo_sha256 demo_input demo_world = (Ok x, w)) as (x & w & E').
    { eexists _, _. vm_compute. reflexivity. }
    rewrite E in E'. discriminate.
Defined.

(** A host that answers a fork with the children it was asked for. *)
Definition started_child (c : ForkOnHostChild) : HostMachine :=
  mkHostMachine ("vm-" +:+ fh_public_machine_id c) "running" (Some (fh_leaseId c))
    (Some (fh_leaseGeneration c)) (Some (fh_public_machine_id c)) (Some (fh_parent_machine_id c))
    (Some (fh_fork_operation_id c)) true (Some 6000) (Some 7000) (Some (fh_expiresAt c))
    (Some (fh_resources c)) (Some (fh_networkPolicy c)).

Definition forking_hosts : HostClient := {|
  answer_create := @answer_create demo_hosts;
  answer_get := @answer_get demo_hosts;
  answer_destroy := @answer_destroy demo_hosts;
  answer_extend := @answer_extend demo_hosts;
  answer_fork calls :=
    match last calls with
    | Some (CallFork _ _ _ _ children) => Ok (map started_child children)
    | _ => Err (HostThrew "no")
    end;
  answer_exec := @answer_exec demo_hosts
|}.

Definition demo_fork_result :=
  @fork quiet_turn demo_sha256 _ forking_hosts "m1" "org" (Some "proj") (NInt 2) "fork-key" "audit"
    (mkWorld demo_serving 0 []).

Example fork_result_recorded_witness :
  match demo_fork_result with
  | (Ok result, w') => ∃ k p, forks (w_db w') !! "r1-0" = Some k ∧
      fork_key k = ("org", p, "m1", "fork-key") ∧ k_state k = ForkSucceeded
  | _ => False
  end.
Proof.
  assert (match demo_fork_result with
          | (Ok result, _) => fr_operationId result = "r1-0" ∧ fr_pending result = false
          | _ => False
          end) as Hr by (vm_compute; split; reflexivity).
  pose proof (@fork_result_recorded _ _ forking_hosts quiet_turn demo_sha256
    (quiet_polite _) demo_start (mkWorld demo_serving 0 []) "m1" "org" (Some "proj") (NInt 2)
    "fork-key" "audit") as Hf.
  unfold demo_fork_result in *. destruct (fork _ _ _ _ _ _ _ _ _) as [[result|e] w'] eqn:E;
    [|destruct Hr].
  destruct Hr as [<- Hp].
  exact (Hf (Ok result) w' demo_start_ok demo_serving_steps eq_refl Hp).
Defined.

Example destroy_leaves_service_witness :
  let w' := (destroy quiet_turn "m1" "org" None (mkWorld demo_serving 0 [])).2 in
  ∃ m, machines (w_db w') !! "m1" = Some m ∧ (mstate m = Stopping ∨ terminal (mstate m) = true).
Proof.
  apply (destroy_leaves_service quiet_turn demo_sha256 (quiet_polite _) demo_start
    (mkWorld demo_serving 0 []) "m1" "org" None _ demo_start_ok demo_serving_steps).
  vm_compute. reflexivity.
Defined.
