(* ===== verification/ReconcilerTheorems.v ===== *)
(** * The reconciler moves the tables only as the system permits

    A program logic over the tables of the control plane, the counterpart of
    ServiceLogic, and with it every procedure of the reconciler: whatever the
    hosts answer and whatever the others do meanwhile, a run is a sequence of
    steps of [System]; and what a reconciliation that returns says of its machine. *)

From S2P Require Import Prelude Text Metering MeteringFacts MeteringInv MeteringTheorems MeteringHandover.
From S2P Require Import Capacity Lifecycle Billing Fleet Scheduler MachineRepo ForkRepo ReconcileDb.
From S2P Require Import FleetInv FleetSteps FleetHard FleetForks FleetStep FleetKeys FleetTheorems.
From S2P Require Import Tables UsageOutbox System SystemInv SystemSteps Awaiting Js NetworkPolicy.
From S2P Require Import MachineService Reconciler ServiceLogic ServiceProofs ServiceTheorems.

Abbreviation settled := ServiceLogic.settled.

(** ** Tables along steps *)

Record tables_le (t t' : Tables) : Prop := mkTablesLe {
  tl_fleet : fleet_le (fleet t) (fleet t');
  tl_outbox : ∀ o, o ∈ outbox t → ∃ o', o' ∈ outbox t' ∧ undelivered o' = undelivered o;
  tl_recorded : ∀ k, has_key ue_key k (recorded t) = true → has_key ue_key k (recorded t') = true
}.

#[export] Instance tables_le_preorder : PreOrder tables_le.
Proof.
  split.
  - intros t. constructor; [reflexivity|by eauto|done].
  - intros x y z [F1 O1 R1] [F2 O2 R2]. constructor; [by etransitivity| |auto].
    intros o (o1 & H1 & E1)%O1. destruct (O2 o1 H1) as (o2 & H2 & E2). exists o2. by rewrite E2.
Qed.

Lemma same_rows_stay (l l' : list OutboxRow) o :
  undelivered <$> l' = undelivered <$> l → o ∈ l → ∃ o', o' ∈ l' ∧ undelivered o' = undelivered o.
Proof.
  intros Hu Ho. destruct (elem_undelivered l' l o) as (o' & ? & ?); [done..|]. by exists o'.
Qed.

Lemma more_rows_stay (l new : list OutboxRow) o :
  o ∈ l → ∃ o', o' ∈ l ++ new ∧ undelivered o' = undelivered o.
Proof. intros Ho. exists o. split; [|done]. apply elem_of_app. by left. Qed.

Lemma insert_new_keeps_key {A} (key : A → string) k x l :
  has_key key k l = true → has_key key k (insert_new key x l) = true.
Proof.
  intros (y & Hy & Hk)%has_key_true. apply has_key_true. exists y. split; [|done].
  by apply insert_new_incl.
Qed.

Section logic.
Context (sha256 : string → string) (Date_parse : string → option Z).
Context `{BillingAdmission FleetDb} (created : Identity → Prop) (Hc : created_ok created).

Abbreviation system_step := (System.system_step sha256 Date_parse created).
Abbreviation system_steps := (System.system_steps sha256 Date_parse created).

Record tables_ok (t : Tables) : Prop := mkTablesOk {
  tk_sound : sound created (fleet t);
  tk_meter : metering_ok t
}.

(** Metering keeps its invariant and only adds rows to the outbox. *)
Lemma metered_step {A} (m : Tx MeterDb MeteringError A) t :
  metering_ok t →
  (∀ a db, m (load t) = Ok (a, db) → preserves (load t) db ∧ handover (load t) db) →
  metering_ok (commits (on_meter m) t) ∧
  (∃ new, outbox (commits (on_meter m) t) = outbox t ++ new) ∧
  recorded (commits (on_meter m) t) = recorded t.
Proof.
  intros Hmo Hm. unfold commits, transaction, on_meter.
  destruct (m (load t)) as [[a db]|e] eqn:E; simpl.
  - destruct (Hm a db eq_refl) as [Hp Hh]. split_and!; [by apply metering_ok_store| |done].
    destruct (ho_outbox _ _ Hh) as (new & Hnew & _). by exists new.
  - split_and!; [done| |done]. exists []. by rewrite app_nil_r.
Qed.

Lemma step_rows t t' :
  tables_ok t → fleet_inv (fleet t') → fleet_grows (fleet t) (fleet t') → system_step t t' →
  metering_ok t' ∧
  ((∃ new, outbox t' = outbox t ++ new) ∨ undelivered <$> outbox t' = undelivered <$> outbox t) ∧
  (∀ k, has_key ue_key k (recorded t) = true → has_key ue_key k (recorded t') = true).
Proof.
  intros [Hs Hmo] Hf' Hg' Hstep.
  destruct Hstep as [c Hp|f hs He|interval clock host generation inputs|now id lease|now locked
    |now token locked|row e Hrow Hev|now row token Hrow Hd|now key token error attempts].
  - split_and!; [by eapply metering_ok_fleet|by right|done].
  - split_and!; [by eapply metering_ok_fleet|by right|done].
  - destruct (metered_step (ingest sha256 Date_parse interval clock host generation inputs) t Hmo)
      as (Hmo' & Hnew & Hrec); [|split_and!; [exact Hmo'|left; exact Hnew|by rewrite Hrec]].
    intros a db E. split; [by eapply ingest_preserves|eapply ingest_handover; [apply Hmo..|exact E]].
  - destruct (metered_step (closeHostLoss now id lease) t Hmo)
      as (Hmo' & Hnew & Hrec); [|split_and!; [exact Hmo'|left; exact Hnew|by rewrite Hrec]].
    intros a db E. split; [by eapply closeHostLoss_preserves|by eapply closeHostLoss_handover].
  - pose proof (enqueue_enqueues now true locked t) as [Hr (new & Ho & _) [l Hm] _].
    split_and!; [|left; by exists new|by rewrite Hr].
    eapply metering_ok_fleet; [done|done|done|by rewrite Hm..].
  - split_and!; [by eapply metering_ok_fleet| |done]. right. apply map_undelivered.
    intros o. by destruct (string_in _ _).
  - destruct (append_cases e t) as [Ht|Ht]; rewrite Ht in *; [by split_and!; [|right|]|].
    split_and!; [by eapply metering_ok_fleet|by right|]. intros k. apply insert_new_keeps_key.
  - unfold commits, transaction, settleUsage in *. destruct (existsb _ _); simpl in *; [|by split_and!; [|right|]].
    destruct (fully_delivered _ _); simpl in *;
      (split_and!; [by eapply metering_ok_fleet| |done]); right; apply map_undelivered;
      intros o; by destruct (held_by _ _ o).
  - split_and!; [by eapply metering_ok_fleet| |done]. right. apply map_undelivered.
    intros o. by destruct (held_by _ _ o).
Qed.

Lemma system_step_keeps t t' : tables_ok t → system_step t t' → tables_ok t' ∧ tables_le t t'.
Proof.
  intros Hok Hstep. pose proof (system_step_fleet _ _ _ _ _ Hstep) as Hfs.
  destruct (sound_steps created Hc _ _ (tk_sound t Hok) (rtc_once _ _ Hfs)) as [Hs' Hle].
  destruct (step_rows t t' Hok (sn_inv _ _ Hs') (le_grows _ _ Hle) Hstep) as (Hmo & Hrows & Hrec).
  split; [done|]. constructor; [done| |done]. intros o Ho.
  destruct Hrows as [[new ->]|Hu]; [by apply more_rows_stay|by eapply same_rows_stay].
Qed.

Lemma system_steps_keep t t' : tables_ok t → system_steps t t' → tables_ok t' ∧ tables_le t t'.
Proof.
  intros Hok Hs. induction Hs as [t|t t1 t' Hstep _ IH]; [by split|].
  destruct (system_step_keeps t t1 Hok Hstep) as [Hok1 Hle1]. destruct (IH Hok1) as [Hok' Hle'].
  split; [done|]. by etransitivity.
Qed.

(** ** Lasting assertions *)

Class Lasts (P : Tables → Prop) : Prop :=
  lasts : ∀ t t', tables_ok t → tables_ok t' → tables_le t t' → P t → P t'.

#[export] Instance lasts_pure (X : Prop) : Lasts (λ _, X).
Proof. by intros t t' _ _ _. Qed.

#[export] Instance lasts_and P Q : Lasts P → Lasts Q → Lasts (λ t, P t ∧ Q t).
Proof. intros HP HQ t t' ? ? ? [? ?]. split; [by apply (HP t)|by apply (HQ t)]. Qed.

#[export] Instance lasts_forall {A} (P : A → Tables → Prop) : (∀ x, Lasts (P x)) → Lasts (λ t, ∀ x, P x t).
Proof. intros HP t t' ? ? ? Hall x. by apply (HP x t). Qed.

#[export] Instance lasts_impl (X : Prop) P : Lasts P → Lasts (λ t, X → P t).
Proof. intros HP t t' ? ? ? Hx HX. apply (HP t); auto. Qed.

#[export] Instance lasts_fleet P : Stable created P → Lasts (λ t, P (fleet t)).
Proof. intros HP t t' [? _] [? _] [? _ _] Hp. by apply (HP (fleet t)). Qed.

(** The interval is in the outbox, delivered further perhaps. *)
Definition has_interval (row : OutboxRow) (t : Tables) : Prop :=
  ∃ o, o ∈ outbox t ∧ undelivered o = undelivered row.

#[export] Instance lasts_interval row : Lasts (has_interval row).
Proof.
  intros t t' _ _ Hle (o & Ho & Hu). destruct (tl_outbox _ _ Hle o Ho) as (o' & Ho' & Hu').
  exists o'. by rewrite Hu'.
Qed.

Definition has_event (e : UsageEvent) (t : Tables) : Prop :=
  has_key ue_key (eventKey e) (recorded t) = true.

#[export] Instance lasts_event e : Lasts (has_event e).
Proof. intros t t' _ _ Hle. apply (tl_recorded _ _ Hle). Qed.
End logic.

(** ** The logic *)

Section moves.
Context (sha256 : string → string) (Date_parse : string → option Z).
Context `{BillingAdmission FleetDb} (created : Identity → Prop) (Hc : created_ok created).
Context (schedule : nat → ReconcileTurn).

Abbreviation ok := (tables_ok created).
Abbreviation system_step := (System.system_step sha256 Date_parse created).
Abbreviation system_steps := (System.system_steps sha256 Date_parse created).

(** What happens while a procedure awaits are steps of the system. *)
Definition considerate : Prop :=
  ∀ n t, ok t → system_steps t (others (schedule n) t).

Context (Hothers : considerate).

(** From tables in which [P] holds, [m] takes only steps of the system, and the
    result it returns satisfies [Q]. *)
Definition moves {A} (P : Tables → Prop) (m : Reconcile A) (Q : A → Tables → Prop) : Prop :=
  ∀ w, ok (w_db w) → P (w_db w) →
    system_steps (w_db w) (w_db (m w).2) ∧ ∀ a, (m w).1 = Ok a → Q a (w_db (m w).2).

Implicit Types P : Tables → Prop.

Lemma moves_pre {A} P P' (m : Reconcile A) Q :
  moves P' m Q → (∀ t, ok t → P t → P' t) → moves P m Q.
Proof. intros Hm Hp w Hok HP. apply Hm; [done|]. by apply Hp. Qed.

Lemma moves_conseq {A} P (m : Reconcile A) (Q Q' : A → Tables → Prop) :
  moves P m Q → (∀ a t, ok t → Q a t → Q' a t) → moves P m Q'.
Proof.
  intros Hm Hq w Hok HP. destruct (Hm w Hok HP) as [Hs Ha]. split; [done|]. intros a Ea.
  apply Hq; [|by apply Ha]. by eapply system_steps_keep.
Qed.

Lemma moves_stable {A} P `{!Lasts created P} (m : Reconcile A) Q :
  moves P m Q → moves P m (λ a t, P t ∧ Q a t).
Proof.
  intros Hm w Hok HP. destruct (Hm w Hok HP) as [Hs Ha]. split; [done|]. intros a Ea.
  split; [|by apply Ha]. destruct (system_steps_keep _ _ created Hc _ _ Hok Hs) as [Hok' Hle].
  by apply (lasts created (w_db w)).
Qed.

Lemma moves_bind {A B} P `{!Lasts created P} (m : Reconcile A) (k : A → Reconcile B) Q S :
  moves P m Q → (∀ a, moves (λ t, P t ∧ Q a t) (k a) S) → moves P (m ≫= k) S.
Proof.
  intros Hm Hk w Hok HP. apply moves_stable in Hm; [|done].
  destruct (Hm w Hok HP) as [Hs Ha]. rewrite act_bind_eq.
  destruct (m w) as [[a|e] w'] eqn:E; simpl in *; [|by split].
  destruct (system_steps_keep _ _ created Hc _ _ Hok Hs) as [Hok' _].
  destruct (Hk a w' Hok' (Ha a eq_refl)) as [Hs' Hb]. split; [by etransitivity|done].
Qed.

(** The result says nothing the rest needs. *)
Lemma moves_then {A B} P `{!Lasts created P} (m : Reconcile A) (k : A → Reconcile B) S :
  moves P m (λ _ _, True) → (∀ a, moves P (k a) S) → moves P (m ≫= k) S.
Proof.
  intros Hm Hk. eapply moves_bind; [done|exact Hm|]. intros a. eapply moves_pre; [apply Hk|].
  by intros t _ [? _].
Qed.

Lemma moves_any {A} P (m : Reconcile A) Q : moves P m Q → moves P m (λ _ _, True).
Proof. intros Hm. by eapply moves_conseq. Qed.

Lemma moves_ret {A} P (a : A) Q : (∀ t, ok t → P t → Q a t) → moves P (mret a) Q.
Proof. intros Hq w Hok HP. split; [apply rtc_refl|]. intros b [= <-]. by apply Hq. Qed.

Lemma moves_throw {A} P e (Q : A → Tables → Prop) : moves P (athrow e) Q.
Proof. intros w _ _. split; [apply rtc_refl|done]. Qed.

Lemma moves_attempt {A} P (m : Reconcile A) Q :
  moves P m Q → moves P (attempt m) (λ r t, ∀ a, r = Ok a → Q a t).
Proof.
  intros Hm w Hok HP. destruct (Hm w Hok HP) as [Hs Ha]. unfold attempt.
  destruct (m w) as [r w']. simpl in *. split; [done|]. intros r' [= <-] a ->. by apply Ha.
Qed.

Lemma moves_logged P (m : Reconcile unit) : moves P m (λ _ _, True) → moves P (logged m) (λ _ _, True).
Proof.
  intros Hm w Hok HP. destruct (Hm w Hok HP) as [Hs _]. split; [|done].
  unfold logged, try_catch. by destruct (m w) as [[a|e] w'].
Qed.

Lemma moves_call {A} P c (answer : list HostCall → result HostError A) :
  moves P (call_host c answer) (λ a _, ∃ before, answer (before ++ [c]) = Ok a).
Proof.
  intros w _ _. split; [apply rtc_refl|]. intros a. simpl.
  destruct (answer (w_calls w ++ [c])) eqn:E; [|done]. intros [= <-]. by eexists.
Qed.

Lemma moves_for_each {A} P `{!Lasts created P} (l : list A) (f : A → Reconcile unit) :
  (∀ x, x ∈ l → moves P (f x) (λ _ _, True)) → moves P (for_each l f) (λ _ _, True).
Proof.
  induction l as [|x l IH]; intros Hf; simpl; [by apply moves_ret|].
  apply moves_then; [done|apply Hf, elem_of_cons; by left|].
  intros _. apply IH. intros y Hy. apply Hf, elem_of_cons. by right.
Qed.

(** One awaited statement, of which [Q] is true when it commits. *)
Lemma moves_await {A} P `{!Lasts created P} (tx : ReconcileTurn → Tx Tables FleetError A) Q :
  (∀ turn t a t', ok t → P t → tx turn t = Ok (a, t') → system_steps t t' ∧ (ok t' → tables_le t t' → Q a t')) →
  moves P (tables_statement schedule tx) Q.
Proof.
  intros Htx w Hok HP. pose proof (Hothers (w_tick w) (w_db w) Hok) as Hoth.
  destruct (system_steps_keep _ _ created Hc _ _ Hok Hoth) as [Hok1 Hle1].
  assert (P (others (schedule (w_tick w)) (w_db w))) as HP1 by by apply (lasts created (w_db w)).
  unfold tables_statement, await, transaction.
  destruct (tx _ _) as [[a t']|e] eqn:E; [|by destruct (delivery _); simpl].
  destruct (Htx _ _ _ _ Hok1 HP1 E) as [Hs Hq].
  destruct (system_steps_keep _ _ created Hc _ _ Hok1 Hs) as [Hok2 Hle2].
  destruct (delivery _); simpl; (split; [by try etransitivity|]); [|done..].
  intros b [= <-]. by apply Hq.
Qed.

Lemma moves_step {A} P `{!Lasts created P} (tx : ReconcileTurn → Tx Tables FleetError A) :
  (∀ turn t, ok t → P t → system_step t (commits (tx turn) t)) →
  moves P (tables_statement schedule tx) (λ _ _, True).
Proof.
  intros Hstep. apply moves_await; [done|]. intros turn t a t' Hok HP E. split; [|done].
  apply rtc_once. replace t' with (commits (tx turn) t); [by apply Hstep|].
  unfold commits, transaction. by rewrite E.
Qed.

Lemma moves_select {A} P `{!Lasts created P} (f : ReconcileTurn → Tables → A) Q :
  (∀ turn t, ok t → P t → Q (f turn t) t) → moves P (tables_select schedule f) Q.
Proof.
  intros Hq. apply moves_await; [done|]. intros turn t a t' Hok HP [= <- <-].
  split; [apply rtc_refl|]. intros _ _. by apply Hq.
Qed.

(** A statement on the machines is the command [c] of the fleet. *)
Lemma moves_fleet {A} P `{!Lasts created P} (c : ReconcileTurn → Command)
    (tx : ReconcileTurn → Tx FleetDb FleetError A) Q :
  (∀ turn db, exec (c turn) db = commit (tx turn) db) →
  (∀ turn t, ok t → P t → permitted created (fleet t) (c turn)) →
  (∀ turn t a f, ok t → P t → tx turn (fleet t) = Ok (a, f) →
     ok (t <| fleet := f |>) → fleet_le (fleet t) f → Q a (t <| fleet := f |>)) →
  moves P (fleet_statement schedule tx) Q.
Proof.
  intros He Hp Hq. apply moves_await; [done|]. intros turn t a t' Hok HP E.
  unfold on_fleet in E. destruct (tx turn (fleet t)) as [[b f]|e] eqn:Etx; [|done].
  injection E as <- <-. split.
  - apply rtc_once. replace f with (exec (c turn) (fleet t)); [by apply sys_fleet, Hp|].
    rewrite He. unfold commit, transaction. by rewrite Etx.
  - intros Hok' Hle. by eapply Hq; [..|apply Hle].
Qed.

Lemma moves_command {A} P `{!Lasts created P} (c : ReconcileTurn → Command)
    (tx : ReconcileTurn → Tx FleetDb FleetError A) :
  (∀ turn db, exec (c turn) db = commit (tx turn) db) →
  (∀ turn t, ok t → P t → permitted created (fleet t) (c turn)) →
  moves P (fleet_statement schedule tx) (λ _ _, True).
Proof. intros He Hp. by apply (moves_fleet P c). Qed.
End moves.

(** ** The rows the procedures work on *)

Lemma has_row_and id F G db : has_row id F db → has_row id G db → has_row id (λ m, F m ∧ G m) db.
Proof. intros (m & Hm & HF) (m' & Hm' & HG). exists m. split; [done|]. split; [done|congruence]. Qed.

Lemma has_row_mono id (F G : MachineRow → Prop) db : (∀ m, F m → G m) → has_row id F db → has_row id G db.
Proof. intros HFG (m & Hm & HF). exists m. auto. Qed.

Definition ended (id : string) : FleetDb → Prop := has_row id (λ m, terminal (mstate m) = true).

(** A machine that ended with its reservation on [host]. *)
Definition given_up (id host : string) (r : Resources) : FleetDb → Prop :=
  has_row id (λ m, terminal (mstate m) = true ∧ host_id (place m) = Some host ∧ resources (ident m) = r).

(** The lease of a claimed row: its host, resources and token, and that it is in
    no pending fork. *)
Definition assigned (row : ReconcileRow) (db : FleetDb) : Prop :=
  has_row (rr_id row) (λ m, host_id (place m) = Some (rr_host row) ∧
    (resources (ident m) = resources (ident (rr_row row)) ∧
     lease_id (ident m) = lease_id (ident (rr_row row)))) db ∧ settled (rr_id row) db.

Lemma filtered_machine (p : string * MachineRow → bool) db id m :
  (id, m) ∈ List.filter p (map_to_list (machines db)) → machines db !! id = Some m ∧ p (id, m) = true.
Proof.
  intros [Hin Hp]%list_elem_of_In%filter_In. split; [|done].
  apply elem_of_map_to_list. by apply list_elem_of_In.
Qed.

Lemma take_elem {A} n (l : list A) x : x ∈ take n l → x ∈ l.
Proof. intros (i & Hi & _)%elem_of_take. by eapply list_elem_of_lookup_2. Qed.

Lemma leaked_given_up kv db :
  kv ∈ leakedReservations db → given_up kv.1 (default "" (host_id (place kv.2))) (resources (ident kv.2)) db.
Proof.
  destruct kv as [id m]. intros Hin%take_elem. apply filtered_machine in Hin as [Hm Hl].
  exists m. split; [done|]. unfold leaked in Hl. simpl in *. bool_simp.
  destruct (host_id (place m)); [done|].
  match goal with Hh : is_Some None |- _ => by destruct Hh end.
Qed.

Lemma markLost_lookup lpe db ids db' id :
  markLostOnStaleHosts lpe db = Ok (ids, db') → id ∈ ids →
  ∃ m, loses db m = true ∧ machines db' !! id = Some (lost_row (lpe id) m).
Proof.
  unfold markLostOnStaleHosts. intros [= <- <-] ([i m] & -> & Hin)%list_elem_of_fmap.
  apply filtered_machine in Hin as [Hm Hl]. simpl in *. exists m. split; [done|].
  match goal with |- context [foldl ?f db ?l] =>
    destruct (foldl_add_event (λ kv : string * MachineRow,
      Fleet.mkEvent (kv.1 +:+ ":stale-host:lost") kv.1 (organization_id (ident kv.2))
        (Some (mstate kv.2)) Lost (Some "host heartbeat expired") "reconciler") l db)
      as (He & _) end.
  by rewrite map_lookup_imap, He, Hm; simpl; rewrite Hl.
Qed.

Lemma lose_stale_lost t rows t' kv :
  lose_stale t = Ok (rows, t') → kv ∈ rows →
  given_up kv.1 (default "" (host_id (place kv.2))) (resources (ident kv.2)) (fleet t').
Proof.
  unfold lose_stale, on_fleet.
  destruct (markLostOnStaleHosts _ _) as [[ids f]|e] eqn:E; [|done].
  intros [= <- <-]. intros (id & Hid & Hkv)%list_elem_of_omap. simpl in *.
  destruct (markLost_lookup _ _ _ _ _ E Hid) as (m & Hl & Hm). rewrite Hm in Hkv.
  injection Hkv as <-. simpl. exists (lost_row (last_periods t id) m). split; [done|].
  simpl. split_and!; [done| |done].
  unfold loses, on_stale_host in Hl. by destruct (host_id (place m)).
Qed.

Lemma finish_ended now id lease to reason cutoff db changed db' :
  terminal to = true → has_row id (λ m, lease_id (ident m) = lease) db →
  finish now id lease to reason cutoff db = Ok (changed, db') → ended id db'.
Proof.
  intros Hto (m & Hm & <-). unfold finish. rewrite Hm, String.eqb_refl. simpl.
  destruct (terminal (mstate m)) eqn:Et; simpl; intros [= _ <-]; [by exists m|].
  eexists. split; [simpl; by rewrite lookup_insert_eq|done].
Qed.

Lemma claimed_assigned now token locked db rows db' row :
  claimReconcileBatch now token locked db = Ok (rows, db') → row ∈ rows →
  assigned row db ∧ in_states (mstate (rr_row row)) [Starting; Stopping; Running] = true.
Proof.
  unfold claimReconcileBatch. intros [= <- _] ([id m] & Hin & Hrow)%list_elem_of_omap.
  apply sort_by_elem, take_elem, sort_by_elem, filtered_machine in Hin as [Hm Hdue]. simpl in *.
  apply andb_true_iff in Hdue as [Hdue _]. unfold reconcile_row in Hrow.
  destruct (host_id (place m)) as [host|] eqn:Eh; simpl in Hrow; [|done].
  destruct (hosts db !! host) as [h|] eqn:Ehh; simpl in Hrow; [|done]. injection Hrow as <-.
  unfold reconcile_due in Hdue. bool_simp.
  split; [|done]. split; [by exists m|]. by exists m.
Qed.

Lemma claimed_interval now token locked t rows t' row :
  claimUsageOutbox now token locked t = Ok (rows, t') → row ∈ rows → has_interval row t.
Proof.
  unfold claimUsageOutbox. intros [= <- _] Hin. apply list_elem_of_fmap in Hin as (o & -> & Hin).
  exists o. split; [|done]. apply take_elem, sort_by_elem, list_elem_of_In, filter_In in Hin as [Hin _].
  by apply list_elem_of_In.
Qed.

(** ** Procedures *)

(** The hypotheses every rule of the logic asks for. *)
Ltac side :=
  match goal with
  | |- created_ok _ => assumption
  | |- considerate _ _ _ _ => assumption
  | |- Lasts _ _ => apply _
  | _ => idtac
  end.
Tactic Notation "rule" open_constr(l) := eapply l; side.

Section procedures.
Context (sha256 : string → string) (Date_parse : string → option Z).
Context `{BillingAdmission FleetDb} (created : Identity → Prop) (Hc : created_ok created).
Context `{NodeNet} `{HostClient} (schedule : nat → ReconcileTurn).
Context (Hothers : considerate sha256 Date_parse created schedule).

Abbreviation ok := (tables_ok created).
Abbreviation does := (moves sha256 Date_parse created).
Abbreviation anything := (λ _ _, True).

#[local] Instance kept_resources r : Kept row_le (λ m, resources (ident m) = r).
Proof. apply (kept_ident (λ i, resources i = r)). Qed.

#[local] Instance kept_lease lease : Kept row_le (λ m, lease_id (ident m) = lease).
Proof. apply (kept_ident (λ i, lease_id i = lease)). Qed.

#[local] Instance lasts_row id F : Kept row_le F → Lasts created (λ t, has_row id F (fleet t)).
Proof. intros HF. apply lasts_fleet, _. Qed.

#[local] Instance lasts_settled id : Lasts created (λ t, settled id (fleet t)).
Proof. apply (lasts_fleet created (settled id)), _. Qed.

#[local] Instance lasts_ended id : Lasts created (λ t, ended id (fleet t)).
Proof. apply lasts_row, _. Qed.

#[local] Instance lasts_given_up id host r : Lasts created (λ t, given_up id host r (fleet t)).
Proof. apply lasts_row. repeat apply kept_and; apply _. Qed.

#[local] Instance assigned_stable row : Stable created (assigned row).
Proof. apply stable_and; [|apply _]. apply stable_row. repeat apply kept_and; apply _. Qed.

#[local] Instance lasts_assigned row : Lasts created (λ t, assigned row (fleet t)).
Proof. apply (lasts_fleet created (assigned row)), _. Qed.

Implicit Types P : Tables → Prop.

(** Statements every caller may make. *)
Lemma moves_free {A} P `{!Lasts created P} (c : ReconcileTurn → Command)
    (tx : ReconcileTurn → Tx FleetDb FleetError A) :
  (∀ turn db, exec (c turn) db = commit (tx turn) db) →
  (∀ turn db, permitted created db (c turn)) →
  does P (fleet_statement schedule tx) anything.
Proof. intros He Hp. apply (moves_command _ _ _ Hc schedule Hothers P c); auto. Qed.

Lemma moves_destroy_on_host P `{!Lasts created P} address hostMachineId lease :
  does P (destroy_on_host address hostMachineId lease) anything.
Proof.
  rule moves_then; [rule moves_any; rule moves_attempt; rule moves_call|].
  intros [a|e]; [by apply moves_ret|]. destruct (not_found e); [by apply moves_ret|apply moves_throw].
Qed.

Lemma moves_close_loss P `{!Lasts created P} has_metering id lease :
  does P (close_loss schedule has_metering id lease) anything.
Proof.
  unfold close_loss. destruct has_metering; [|by apply moves_ret].
  rule moves_step. intros turn t _ _. apply sys_loss.
Qed.

Lemma moves_release id host r :
  does (λ t, given_up id host r (fleet t)) (release_machine schedule id host r) anything.
Proof.
  apply (moves_command _ _ _ Hc schedule Hothers _ (λ turn, Release (t_now turn) host r id)); [done|].
  intros turn t _ (m & Hm & Hg) m' Hm'. simpl in *. congruence.
Qed.

Lemma moves_markLost has_metering : does (λ _, True) (markLost schedule has_metering) anything.
Proof.
  eapply moves_bind with (Q := λ rows t, ∀ kv, kv ∈ rows →
    given_up kv.1 (default "" (host_id (place kv.2))) (resources (ident kv.2)) (fleet t)); side.
  - rule moves_await. intros turn t rows t' Hok _ E. split.
    + apply rtc_once. pose proof (sys_fleet sha256 Date_parse created t
        (MarkLostOnStaleHosts (last_periods t)) I) as Hstep.
      unfold lose_stale, on_fleet in E. simpl in Hstep. unfold commit, transaction in Hstep.
      destruct (markLostOnStaleHosts _ _) as [[ids f]|e]; [|done]. by injection E as _ <-.
    + intros _ _ kv Hkv. by eapply lose_stale_lost.
  - intros rows. rule moves_for_each. intros kv Hkv.
    rule moves_then; [rule moves_close_loss|]. intros _.
    rule moves_pre; [apply moves_release|]. intros t _ [_ Hall]. by apply Hall.
Qed.

Lemma moves_closeUnfinalized has_metering :
  does (λ _, True) (closeUnfinalizedAuthoritativeTerminals schedule has_metering) anything.
Proof.
  unfold closeUnfinalizedAuthoritativeTerminals. destruct (negb has_metering); [by apply moves_ret|].
  rule moves_then; [by rule moves_select|]. intros rows.
  rule moves_for_each. intros kv _.
  rule moves_then; [rule moves_close_loss|]. intros _. by apply moves_ret.
Qed.

Lemma moves_releaseLeaked : does (λ _, True) (releaseLeakedReservations schedule) anything.
Proof.
  eapply moves_bind with (Q := λ rows t, ∀ kv, kv ∈ rows →
    given_up kv.1 (default "" (host_id (place kv.2))) (resources (ident kv.2)) (fleet t)); side.
  - rule moves_select. intros turn t _ _ kv. apply leaked_given_up.
  - intros rows. rule moves_for_each. intros kv Hkv.
    rule moves_pre; [apply moves_release|]. intros t _ [_ Hall]. by apply Hall.
Qed.

Lemma moves_finishAndRelease has_metering row to reason :
  terminal to = true →
  does (λ t, assigned row (fleet t)) (finishAndRelease schedule has_metering row to reason)
    (λ _ t, ended (rr_id row) (fleet t)).
Proof.
  intros Hto. unfold finishAndRelease. rule moves_then; [|intros cutoff].
  { destruct (bool_decide _); [rule moves_close_loss|by apply moves_ret]. }
  eapply moves_bind with (Q := λ _ t, ended (rr_id row) (fleet t)); side; [|intros changed].
  - apply (moves_fleet _ _ _ Hc schedule Hothers _
      (λ turn, Finish (t_now turn) (rr_id row) (lease_id (ident (rr_row row))) to reason cutoff)); [done| |].
    + intros turn t _ [_ Hs]. split; [done|]. by apply settled_not_pending.
    + intros turn t changed f _ [Ha _] E _ _. eapply finish_ended; [exact Hto| |exact E].
      eapply has_row_mono; [|exact Ha]. by intros m (_ & _ & ?).
  - eapply moves_conseq with (Q := λ _ t, (assigned row (fleet t) ∧ ended (rr_id row) (fleet t)) ∧ True);
      [done| |by intros _ t _ [[_ ?] _]].
    rule moves_stable. destruct (changed : bool); [|by apply moves_ret].
    rule moves_pre; [apply moves_release|]. intros t _ [[Ha _] He]. unfold given_up.
    eapply has_row_mono; [|apply (has_row_and _ _ _ _ Ha He)].
    intros m [(Hh & Hr & _) Ht]. by rewrite Hh, Hr.
Qed.

(** *** Usage *)

Lemma commits_Ok {A} (m : Tx Tables FleetError A) t a t' : m t = Ok (a, t') → commits m t = t'.
Proof. unfold commits, transaction. by intros ->. Qed.

Lemma moves_append row e :
  e ∈ outbox_events row →
  does (has_interval row) (tables_statement schedule (λ _, append e)) (λ _ t, has_event e t).
Proof.
  intros He. rule moves_await. intros turn t b t' _ (o & Ho & Hu) E. split.
  - apply rtc_once. rewrite <- (commits_Ok _ _ _ _ E). apply (sys_append _ _ _ t o); [done|].
    by rewrite (outbox_events_undelivered row o).
  - intros _ _. unfold append in E. destruct (negb _); [done|]. destruct (_ <? _); [done|].
    injection E as _ <-. apply (insert_new_has ue_key (event_row e)).
Qed.

Lemma moves_record row l :
  (∀ e, e ∈ l → e ∈ outbox_events row) →
  does (has_interval row) (for_each l (λ e, _ ← tables_statement schedule (λ _, append e); mret tt))
    (λ _ t, ∀ e, e ∈ l → has_event e t).
Proof.
  induction l as [|x l IH]; intros Hl; simpl; [apply moves_ret; set_solver|].
  eapply moves_bind with (Q := λ _ t, has_event x t); side; [|intros _].
  - eapply moves_bind with (Q := λ _ t, has_event x t); side; [apply moves_append, Hl; rewrite elem_of_cons; by left|].
    intros _. apply moves_ret. by intros t _ [_ ?].
  - eapply moves_conseq with (Q := λ _ t, (has_interval row t ∧ has_event x t) ∧ ∀ e, e ∈ l → has_event e t); side.
    + rule moves_stable. rule moves_pre; [apply IH|by intros t _ [? _]].
      intros e He. apply Hl, elem_of_cons. by right.
    + intros _ t _ [[_ Hx] Hall] e [->|He]%elem_of_cons; auto.
Qed.

Lemma moves_recordMachineRuntime row :
  does (has_interval row) (recordMachineRuntime schedule row)
    (λ _ t, ∀ e, e ∈ outbox_events row → has_event e t).
Proof.
  unfold recordMachineRuntime. destruct (_ <? _); [apply moves_throw|]. by apply moves_record.
Qed.

Lemma moves_deliver_usage error_text row :
  does (has_interval row) (deliver_usage schedule error_text row) anything.
Proof.
  unfold deliver_usage. rule moves_then; [rule moves_any; rule moves_attempt|].
  - eapply moves_bind; side; [apply moves_recordMachineRuntime|]. intros ?.
    rule moves_step. intros turn t _ [(o & Ho & Hu) Hall].
    rewrite <- (undelivered_key _ _ Hu).
    replace (ob_machine_id row) with (ob_machine_id o) by (unfold undelivered in Hu; by injection Hu).
    apply sys_settle; [done|]. intros ev Hev. apply Hall. by rewrite <- (outbox_events_undelivered row o).
  - intros [u|e]; [by apply moves_ret|]. rule moves_step. intros turn t _ _. apply sys_retry.
Qed.

Lemma moves_flush has_ledger error_text :
  does (λ _, True) (flushUsageOutbox schedule has_ledger error_text) anything.
Proof.
  unfold flushUsageOutbox. destruct (negb has_ledger); [by apply moves_ret|].
  eapply moves_bind with (Q := λ rows t, ∀ row, row ∈ rows → has_interval row t); side.
  - rule moves_await. intros turn t rows t' Hok _ E. split.
    + apply rtc_once. rewrite <- (commits_Ok _ _ _ _ E). apply sys_claim.
    + intros Hok' Hle row Hrow. apply (lasts_interval created row t); [done..|].
      by eapply claimed_interval.
  - intros rows. rule moves_for_each. intros row Hrow.
    rule moves_pre; [apply moves_deliver_usage|]. intros t _ [_ Hall]. by apply Hall.
Qed.

Lemma moves_enqueue :
  does (λ _, True) (tables_statement schedule
    (λ turn, enqueueUsageIntervals (t_now turn) true (t_locked turn))) anything.
Proof. rule moves_step. intros turn t _ _. apply sys_enqueue. Qed.

(** *** Forks *)

Lemma moves_load_fork P `{!Lasts created P} op : does P (load_fork schedule op) anything.
Proof.
  unfold load_fork. rule moves_then; [by rule moves_select|]. intros [operation|]; [|by apply moves_ret].
  rule moves_then; [by rule moves_select|]. intros children. by apply moves_ret.
Qed.

Lemma moves_loaded_fork P `{!Lasts created P} op : does P (loaded_fork schedule op) anything.
Proof.
  rule moves_then; [rule moves_load_fork|]. intros [operation|]; [by apply moves_ret|apply moves_throw].
Qed.

(** A fork's procedure, one statement or call after another. *)
Ltac walk :=
  repeat match goal with
  | |- moves _ _ _ _ (mret _) _ => by apply moves_ret
  | |- moves _ _ _ _ (athrow _) _ => apply moves_throw
  | |- moves _ _ _ _ (_ ≫= _) _ => rule moves_then
  | |- moves _ _ _ _ (attempt _) _ => rule moves_any; rule moves_attempt
  | |- moves _ _ _ _ (logged _) _ => apply moves_logged
  | |- moves _ _ _ _ (call_host _ _) _ => rule moves_any; apply moves_call
  | |- moves _ _ _ _ (loaded_fork _ _) _ => rule moves_loaded_fork
  | |- moves _ _ _ _ (load_fork _ _) _ => rule moves_load_fork
  | |- moves _ _ _ _ (destroy_on_host _ _ _) _ => rule moves_destroy_on_host
  | |- ∀ _, _ => intros ?
  | |- moves _ _ _ _ (match ?x with _ => _ end) _ => destruct x
  end.
Ltac command c := eapply (moves_free _ c); done.

Lemma moves_complete_fork P `{!Lasts created P} op observed :
  does P (complete_fork schedule op observed) anything.
Proof.
  unfold complete_fork. walk. command (λ turn : ReconcileTurn, CompleteFork (t_now turn) op observed).
Qed.

Lemma moves_fail_fork P `{!Lasts created P} op f : does P (fail_fork schedule op f) anything.
Proof. unfold fail_fork. walk. command (λ turn : ReconcileTurn, FailFork (t_now turn) op f). Qed.

Lemma moves_request_cleanup P `{!Lasts created P} op f : does P (request_cleanup schedule op f) anything.
Proof.
  unfold request_cleanup. walk.
  command (λ turn : ReconcileTurn, RequestForkCleanup (t_now turn) op f (t_random turn 0)).
Qed.

Lemma moves_complete_cleanup P `{!Lasts created P} op token :
  does P (complete_cleanup schedule op token) anything.
Proof.
  unfold complete_cleanup. walk.
  command (λ turn : ReconcileTurn, CompleteForkCleanup (t_now turn) op token).
Qed.

Lemma moves_release_cleanup_claim P `{!Lasts created P} op token :
  does P (release_cleanup_claim schedule op token) anything.
Proof.
  unfold release_cleanup_claim.
  command (λ turn : ReconcileTurn, ReleaseForkCleanupClaim (t_now turn) op token).
Qed.

Lemma moves_release_held_claim P `{!Lasts created P} operation :
  does P (release_held_claim schedule operation) anything.
Proof. unfold release_held_claim. walk. rule moves_release_cleanup_claim. Qed.

Lemma moves_cleanup_loop P `{!Lasts created P} operation observed s :
  does P (cleanup_loop operation observed s) anything.
Proof.
  revert s. induction observed as [|hm observed IH]; intros s; simpl; [by apply moves_ret|].
  destruct (expected_child operation hm) as [[id m]|]; [|apply IH].
  destruct (_ || _); [apply IH|]. walk; apply IH.
Qed.

Lemma moves_cleanup_observations P `{!Lasts created P} operation observed :
  does P (cleanup_observations operation observed) anything.
Proof. unfold cleanup_observations. walk. rule moves_cleanup_loop. Qed.

Lemma moves_finish_cleanup P `{!Lasts created P} operation f observed hostConfirmed :
  does P (finish_cleanup schedule operation f observed hostConfirmed) anything.
Proof.
  unfold finish_cleanup. walk; first [rule moves_request_cleanup|rule moves_cleanup_observations
    |rule moves_release_cleanup_claim|rule moves_complete_cleanup].
Qed.

Lemma moves_reconcileFork P `{!Lasts created P} operation :
  does P (reconcileFork schedule operation) anything.
Proof.
  unfold reconcileFork, fork_rejected, fork_observed.
  walk; first [rule moves_request_cleanup|rule moves_finish_cleanup|rule moves_release_held_claim
    |rule moves_fail_fork|rule moves_complete_fork].
Qed.

Lemma moves_reconcile_claimed_fork P `{!Lasts created P} operation :
  does P (reconcile_claimed_fork schedule operation) anything.
Proof.
  unfold reconcile_claimed_fork. walk; [rule moves_reconcileFork|].
  command (λ turn : ReconcileTurn, ReleaseForkClaim (t_now turn) (fo_id operation) s (negb (is_ok a))).
Qed.

Lemma moves_claim_forks P `{!Lasts created P} limit : does P (claim_forks schedule limit) anything.
Proof.
  unfold claim_forks. rule moves_then.
  - command (λ turn : ReconcileTurn,
      ClaimPendingForks (t_now turn) limit (t_random turn 0) (t_locked turn)).
  - intros ids. induction ids as [|id ids IH]; [by apply moves_ret|].
    rule moves_then; [rule moves_load_fork|]. intros found.
    rule moves_then; [exact IH|]. intros rest. by apply moves_ret.
Qed.

(** *** Machines *)

(** What accounts for a machine the host answered [observed] for, in state [st]:
    it ended, or the host vouched for it, or it may still start. *)
Definition accounted (row : ReconcileRow) (hostMachineId : string) (st : MachineState)
    (observed : option HostMachine) (t : Tables) : Prop :=
  ended (rr_id row) (fleet t) ∨
  (∃ hm, observed = Some hm ∧ observation_matches row hostMachineId hm = true ∧
    string_in (hm_status hm) hostTerminalStates = false) ∨
  (observed = None ∧ st = Starting ∧ rr_deadline_reached row = false).

Lemma moves_apply_observation has_metering row hostMachineId st observed :
  does (λ t, assigned row (fleet t))
    (apply_observation schedule has_metering row hostMachineId st observed)
    (λ _ t, st = Running ∨ st = Starting → accounted row hostMachineId st observed t).
Proof.
  unfold apply_observation.
  assert (∀ to reason, terminal to = true → does (λ t, assigned row (fleet t))
    (finishAndRelease schedule has_metering row to reason)
    (λ _ t, st = Running ∨ st = Starting → accounted row hostMachineId st observed t)) as Hend.
  { intros to reason Hto. eapply moves_conseq; side; [by apply moves_finishAndRelease|]. by left. }
  destruct observed as [hm|].
  - destruct (observation_matches row hostMachineId hm) eqn:Em; cbn [negb]; [|apply moves_throw].
    destruct (string_in (hm_status hm) hostTerminalStates) eqn:Et; [apply Hend; by destruct (String.eqb _ _)|].
    assert (∀ t, accounted row hostMachineId st (Some hm) t) as Hacc.
    { intros t. right. left. by exists hm. }
    destruct st; try (by apply moves_ret).
    + destruct (_ && _).
      * rule moves_then; [rule moves_destroy_on_host|]. intros _. by apply Hend.
      * eapply moves_conseq; side; [|by intros _ t _ _ _]. 
        apply (moves_command _ _ _ Hc schedule Hothers _
          (λ turn, ObserveStarting (t_now turn) (rr_id row) (lease_id (ident (rr_row row))) hm)); [done|].
        intros turn t _ [_ Hs]. by apply settled_not_pending.
    + eapply moves_conseq; side; [|by intros _ t _ _ _].
      command (λ turn : ReconcileTurn,
        ObserveRunning (t_now turn) (rr_id row) (lease_id (ident (rr_row row))) hm).
  - destruct st; try (apply moves_ret; by intros ? ? ? [?|?]).
    + destruct (rr_deadline_reached row) eqn:Ed; [by apply Hend|].
      apply moves_ret. intros t _ _ _. by right; right.
    + by apply Hend.
Qed.

(** A machine known on its host is read as it was claimed. *)
Definition as_claimed (row : ReconcileRow) (r : option (string * MachineState * option HostMachine)) : Prop :=
  truthy (host_machine_id (place (rr_row row))) = true →
  r = Some (default "" (host_machine_id (place (rr_row row))), mstate (rr_row row), None).

Lemma moves_recover row :
  does (λ t, assigned row (fleet t)) (recover schedule row) (λ r _, as_claimed row r).
Proof.
  unfold recover, as_claimed. destruct (truthy _) eqn:Et; [by apply moves_ret|].
  eapply moves_conseq with (Q := anything); side; [|done].
  walk. command (λ turn : ReconcileTurn,
    PersistRecovered (t_now turn) (rr_id row) (lease_id (ident (rr_row row))) a).
Qed.

(** What a reconciliation that returns says of a machine known on its host: it
    ended, or its host's answer accounts for it. *)
Definition verdict (row : ReconcileRow) (t : Tables) : Prop :=
  let hostMachineId := default "" (host_machine_id (place (rr_row row))) in
  ended (rr_id row) (fleet t) ∨
  mstate (rr_row row) ≠ Stopping ∧
  ∃ before observed,
    answer_get (before ++ [CallGet (rr_host_address row) hostMachineId]) = Ok observed ∧
    accounted row hostMachineId (mstate (rr_row row)) observed t.

Definition judged (row : ReconcileRow) (t : Tables) : Prop :=
  truthy (host_machine_id (place (rr_row row))) = true →
  in_states (mstate (rr_row row)) [Starting; Stopping; Running] = true → verdict row t.

Lemma moves_observe has_metering row hmid st answer :
  st ≠ Stopping →
  does (λ t, assigned row (fleet t) ∧ as_claimed row (Some (hmid, st, answer)))
    (observed ← match answer with
                | Some hm => mret (Some hm)
                | None => call_host (CallGet (rr_host_address row) hmid) answer_get
                end;
     apply_observation schedule has_metering row hmid st observed)
    (λ _ t, judged row t).
Proof.
  intros Hst. set (P := λ t, _ ∧ _). set (got := λ observed, answer = None →
    ∃ before, answer_get (before ++ [CallGet (rr_host_address row) hmid]) = Ok observed).
  eapply moves_bind with (Q := λ observed _, got observed); side.
  - destruct answer; [by apply moves_ret|]. eapply moves_conseq; side; [apply moves_call|by intros a t _ Hb _].
  - intros observed. eapply moves_conseq with (Q := λ _ t, (P t ∧ got observed) ∧
      (st = Running ∨ st = Starting → accounted row hmid st observed t)); side.
    + rule moves_stable. rule moves_pre; [apply moves_apply_observation|]. by intros t _ [[? _] _].
    + intros _ t _ [[[_ Hf] Hgot] Hacc] Ht Hin. specialize (Hf Ht). injection Hf as -> -> ->.
      destruct (Hgot eq_refl) as [before Hb]. right. split; [done|].
      exists before, observed. split; [done|]. apply Hacc.
      destruct (mstate (rr_row row)); auto; done.
Qed.

Lemma moves_reconcile has_metering row :
  does (λ t, assigned row (fleet t)) (reconcile schedule has_metering row) (λ _ t, judged row t).
Proof.
  eapply moves_bind; side; [apply moves_recover|]. intros [[[hmid st] answer]|]; cbv beta.
  - destruct (decide (st = Stopping)) as [->|Hst]; [|by destruct st; try apply moves_observe].
    rule moves_then; [rule moves_destroy_on_host|]. intros _.
    rule moves_pre; [|by intros t _ [Ha _]; exact Ha].
    eapply moves_conseq; side; [by apply moves_finishAndRelease|]. intros u t _ He ? ?. by left.
  - apply moves_ret. by intros t _ [_ Hf] Ht; specialize (Hf Ht).
Qed.

Lemma moves_reconcile_claimed has_metering row :
  does (λ t, assigned row (fleet t)) (reconcile_claimed schedule has_metering row) anything.
Proof.
  unfold reconcile_claimed. rule moves_then; [rule moves_any; rule moves_attempt; apply moves_reconcile|].
  intros outcome. apply moves_logged. command (λ turn : ReconcileTurn,
    ReleaseReconcileClaim (t_now turn) (rr_id row) (lease_id (ident (rr_row row))) (rr_claim_token row)
      (negb (is_ok outcome))).
Qed.

Lemma moves_runLocked has_ledger error_text :
  does (λ _, True) (runLocked schedule has_ledger true error_text) anything.
Proof.
  unfold runLocked. rule moves_then; [apply moves_markLost|]. intros _.
  rule moves_then; [apply moves_closeUnfinalized|]. intros _.
  rule moves_then; [apply moves_releaseLeaked|]. intros _.
  rule moves_then; [apply moves_enqueue|]. intros _.
  rule moves_then; [apply moves_flush|]. intros _.
  rule moves_then; [rule moves_claim_forks|]. intros forkOperations.
  rule moves_then; [rule moves_for_each; intros operation _; rule moves_reconcile_claimed_fork|]. intros _.
  eapply moves_bind with (Q := λ rows t, ∀ row, row ∈ rows → assigned row (fleet t)); side.
  - apply (moves_fleet _ _ _ Hc schedule Hothers _
      (λ turn, ClaimReconcileBatch (t_now turn) (t_random turn 0) (t_locked turn))); [done..|].
    intros turn t rows f Hok _ E Hok' Hle row Hrow.
    apply (assigned_stable row (fleet t)); [apply Hok|apply Hok'|done|by eapply claimed_assigned in E as [? _]].
  - intros rows. rule moves_for_each. intros row Hrow.
    rule moves_pre; [apply moves_reconcile_claimed|]. intros t _ [_ Hall]. by apply Hall.
Qed.

Lemma moves_run has_ledger error_text acquired :
  does (λ _, True) (run schedule has_ledger true error_text acquired) anything.
Proof. unfold run. destruct acquired; [apply moves_runLocked|by apply moves_ret]. Qed.
End procedures.

(** * Properties *)

Lemma start_tables_ok created t : created_ok created → system_start t → tables_ok created t.
Proof.
  intros Hc Hs. pose proof (system_start_inv t Hs) as [_ Hmo _ _].
  destruct (start_inv (fleet t) (st_fleet t Hs)) as [Hinv Hkeys]. constructor; [|done].
  constructor; [done..|]. intros id m Hm. by rewrite (fs_machines _ (st_fleet t Hs)), lookup_empty in Hm.
Qed.

(** C13: A run of the reconciler refines the system: from any state the control plane
    reaches, whatever the hosts answer, whichever statements fail and whatever
    others do between any two statements, the tables it leaves are reached by
    steps of the system, so every invariant of the fleet, of metering and of the
    usage ledger holds after it. *)
Theorem reconciler_refines_system `{BillingAdmission FleetDb} `{NodeNet} `{HostClient} sha256 Date_parse created
    schedule t0 w has_ledger error_text acquired :
  created_ok created → considerate sha256 Date_parse created schedule →
  system_start t0 → system_steps sha256 Date_parse created t0 (w_db w) →
  system_steps sha256 Date_parse created t0
    (w_db (run schedule has_ledger true error_text acquired w).2).
Proof.
  intros Hc Hothers Hstart Hw.
  destruct (system_steps_keep _ _ created Hc t0 (w_db w) (start_tables_ok created t0 Hc Hstart) Hw) as [Hok _].
  etransitivity; [exact Hw|].
  by apply (moves_run sha256 Date_parse created Hc schedule Hothers has_ledger error_text acquired w).
Qed.

(** C14: A claimed machine that is known on its host and whose reconciliation returns
    without an error has ended, or was not to be stopped and the host's own answer
    accounts for it: the host vouched for exactly this lease with its resources
    and network policy, not in a terminal state, or it does not know the machine,
    which is still starting within its deadline. *)
Theorem reconciled_machine_accounted `{BillingAdmission FleetDb} `{NodeNet} `{HostClient} sha256 Date_parse created
    schedule t0 t now token locked rows f row has_metering w w' :
  created_ok created → considerate sha256 Date_parse created schedule →
  system_start t0 → system_steps sha256 Date_parse created t0 t →
  claimReconcileBatch now token locked (fleet t) = Ok (rows, f) → row ∈ rows →
  system_steps sha256 Date_parse created (t <| fleet := f |>) (w_db w) →
  truthy (host_machine_id (place (rr_row row))) = true →
  reconcile schedule has_metering row w = (Ok tt, w') →
  verdict row (w_db w').
Proof.
  intros Hc Hothers Hstart Ht Hclaim Hrow Hw Hid Hrec.
  destruct (claimed_assigned _ _ _ _ _ _ _ Hclaim Hrow) as [Ha Hst].
  destruct (system_steps_keep _ _ created Hc t0 t (start_tables_ok created t0 Hc Hstart) Ht) as [Hok _].
  assert (system_steps sha256 Date_parse created t (w_db w)) as Hall.
  { etransitivity; [|exact Hw]. apply rtc_once.
    pose proof (sys_fleet sha256 Date_parse created t (ClaimReconcileBatch now token locked) I) as Hs.
    simpl in Hs. unfold commit, transaction in Hs. by rewrite Hclaim in Hs. }
  destruct (system_steps_keep _ _ created Hc t (w_db w) Hok Hall) as [Hok' Hle].
  destruct (moves_reconcile sha256 Date_parse created Hc schedule Hothers has_metering row w Hok') as [_ Hj].
  { apply (assigned_stable created row (fleet t)); [apply Hok|apply Hok'|apply Hle|done]. }
  rewrite Hrec in Hj. by apply (Hj tt).
Qed.

(** ** Witnesses *)

(** The running machine of [SystemSteps], claimed once its host, which answers
    every question with nothing, has forgotten it. *)
Definition quiet_reconcile (n : nat) : ReconcileTurn :=
  mkTurn id (500000 + Z.of_nat n) (500000 + Z.of_nat n) (λ k, "r" +:+ pretty (Z.of_nat n)) ∅ Delivered.

Lemma quiet_considerate sha256 Date_parse created : considerate sha256 Date_parse created quiet_reconcile.
Proof. intros n t _. apply rtc_refl. Qed.

Definition demo_text (e : ServiceError) : string := "error".

Definition demo_run := run quiet_reconcile true true demo_text true (mkWorld sys_running 0 []).

Lemma reconciler_refines_system_witness :
  demo_steps sys_start (w_db demo_run.2) ∧ is_ok demo_run.1 = true ∧
  (mstate <$> machines (fleet (w_db demo_run.2)) !! demo_machine) = Some Lost.
Proof.
  split; [|vm_compute; split; reflexivity].
  exact (reconciler_refines_system MeteringTheorems.demo_sha256 demo_time demo_created quiet_reconcile sys_start
    (mkWorld sys_running 0 []) true demo_text true demo_created_ok (quiet_considerate _ _ _) sys_start_ok
    sys_reaches_running).
Defined.

Definition demo_claim := claimReconcileBatch 500000 "token" ∅ (fleet sys_running).
Definition demo_rows : list ReconcileRow := match demo_claim with Ok (rows, _) => rows | Err _ => [] end.
Definition sys_reclaimed : Tables := on (ClaimReconcileBatch 500000 "token" ∅) sys_running.

Lemma reconciled_machine_accounted_witness :
  match demo_rows with
  | [row] => is_ok (reconcile quiet_reconcile true row (mkWorld sys_reclaimed 0 [])).1 = true ∧
             verdict row (w_db (reconcile quiet_reconcile true row (mkWorld sys_reclaimed 0 [])).2)
  | _ => False
  end.
Proof.
  destruct demo_rows as [|row [|]] eqn:Hrows; [by vm_compute in Hrows|..|by vm_compute in Hrows].
  assert (∃ w', reconcile quiet_reconcile true row (mkWorld sys_reclaimed 0 []) = (Ok tt, w')) as [w' Hw].
  { vm_compute in Hrows. injection Hrows as <-. eexists. vm_compute. reflexivity. }
  rewrite Hw. split; [done|].
  refine (reconciled_machine_accounted MeteringTheorems.demo_sha256 demo_time demo_created quiet_reconcile
    sys_start sys_running 500000 "token" ∅ demo_rows (fleet sys_reclaimed) row true
    (mkWorld sys_reclaimed 0 []) w' demo_created_ok (quiet_considerate _ _ _) sys_start_ok
    sys_reaches_running _ _ _ _ Hw).
  - vm_compute. reflexivity.
  - rewrite Hrows. by apply list_elem_of_singleton.
  - apply rtc_refl.
  - vm_compute in Hrows. injection Hrows as <-. reflexivity.
Defined.
